(* ===== verification/_CoqProject ===== *)
-Q . S2P
Prelude.v
Bitfield.v
BlockStore.v
HamtNode.v
HamtRep.v
HamtProofs.v
HamtPersist.v
Hamt.v
HamtSpec.v
Instances.v
HamtTheorems.v
BTree.v
UcanCapability.v
Ucan.v
UcanChain.v
UcanProofs.v
UcanInstances.v
Authority.v
AuthorityProofs.v
UcanFixtures.v
UcanTheorems.v
AuthorityTheorems.v
UcanIpld.v
KeyStorage.v
FileTree.v
SphereDb.v
BodyChunk.v
Memo.v
VersionedMap.v
Sphere.v
SphereProofs.v
SphereHistory.v
SphereRebase.v
Bundle.v
BundleProofs.v
Stream.v
StreamProofs.v
SphereContext.v
SphereContextProofs.v
SphereEdits.v
SphereWalker.v
SphereWalkerProofs.v
Render.v
StoreTransfer.v
StoreWrappers.v
Api.v
Sync.v
Gateway.v
GatewayProofs.v
WorkerQueue.v
Jobs.v
JobProofs.v
SphereFixtures.v
SphereTheorems.v
SphereGenesis.v
ContextAuthority.v
ClientProofs.v
NameResolution.v
SyncProofs.v
Routes.v
RouteProofs.v
Builder.v
BuilderProofs.v
Workspace.v
WorkspaceProofs.v
RenderProofs.v
Dht.v
DhtProofs.v
NameSystem.v
ContextFixtures.v
GatewayFixtures.v
ReplicationTheorems.v
ContextTheorems.v
DelegationTheorems.v
SyncTheorems.v
JobTheorems.v
RouteTheorems.v
NameSystemTheorems.v
RuntimeTheorems.v
WorkspaceTheorems.v
