(* ===== verification/Prelude.v ===== *)
(** * Noosphere verification library

    Noosphere is a protocol and a Rust implementation of "spheres": user-owned,
    content-addressed, signed and versioned collections of content, petnames and
    delegated authority.  This library models its core, from the block store and
    the hash array mapped trie (HAMT) up to the operations on sphere histories,
    the contexts that applications edit spheres through, the replication of
    spheres and the decisions about authority, and proves the theorems that make
    it correct.  Paths below are under src/rust/.

    ** The parts and how they interact

    - [BlockStore.v] -- noosphere-storage: the [Store] and [BlockStore] traits
      (store.rs, block.rs, encoding.rs, key_value.rs) and the in-memory backend
      (implementation/memory.rs).  CIDs, the digest and the DAG-CBOR codec are
      third-party: the classes [CidOps] and [BlockCodec] with the laws [CidLaws]
      (an injective digest among them) and [BlockCodecLaws].  [BlockStoreLaws] is
      the interface that every client is proved against; the in-memory backend is
      an instance.
    - [Bitfield.v], [HamtNode.v], [Hamt.v] -- the HAMT of
      noosphere-collections/src/hamt: 256-bit fields on four u64 words, the
      consumption of a 256-bit hash [bit_width] bits at a time, nodes and pointers
      (values, links and dirty sub-nodes, with the read cache threaded as state),
      and the map itself.  [HamtRep.v], [HamtProofs.v], [HamtPersist.v] relate nodes
      to finite maps; [HamtSpec.v] states the abstract machine (operations on a
      finite map) and the refinement, and follows four keys with one hash.
    - [BTree.v] -- [BTreeMap] as a sorted association list.
    - [UcanCapability.v], [Ucan.v], [UcanChain.v] -- noosphere-ucan: capabilities
      and their semantics, tokens, the builder, token stores and the DID parser,
      proof chains and their reduction; [UcanProofs.v].
      [UcanIpld.v] -- tokens, principals and signatures as IPLD.  Base64, base58,
      DAG-JSON, URLs, variable-length integers and keys are parameters.
    - [Authority.v] -- noosphere-core/src/authority, data/authority.rs, link
      records of data/address.rs, the identify response of api/v0alpha1/data.rs,
      [verify_authorization] of view/sphere.rs, and the decision of
      noosphere-gateway/src/extractors/authority.rs; [AuthorityProofs.v].
    - [Memo.v] -- data/memo.rs and data/headers.
    - [VersionedMap.v] -- data/changelog.rs, data/versioned_map.rs,
      view/versioned_map.rs and the map mutations of view/mutation.rs: a HAMT paired
      with the changes since the previous version.
    - [Sphere.v], [SphereHistory.v] -- data/sphere.rs, sphere mutations and
      revisions of view/mutation.rs, view/timeline.rs and view/sphere.rs;
      [SphereProofs.v], [SphereRebase.v].
    - [SphereDb.v] -- noosphere-storage/src/db.rs: the database of blocks, links,
      versions and metadata, and the walk over links.  [StoreWrappers.v] -- the
      store that falls back to an IPFS node (noosphere-ipfs/src/storage.rs) and the
      one that retries reads (noosphere-storage/src/retry.rs).
    - [BodyChunk.v], [Bundle.v] -- data/body_chunk.rs and data/bundle.rs: content
      split in chunks, and the bundles of blocks that carry changes between
      replicas; [BundleProofs.v].
    - [Stream.v] -- noosphere-core/src/stream: the block streams of memos, bodies
      and histories, by tapping the store that serves them, with the ledger of
      blocks already sent; [StreamProofs.v].
    - [SphereContext.v] -- noosphere-core/src/context: contexts, cursors, reading
      and writing content, petnames, authority and link records;
      [SphereContextProofs.v].  [SphereEdits.v] follows arbitrary sequences of edits.
      [SphereWalker.v] -- context/walker.rs and traversal by petname;
      [SphereWalkerProofs.v].
    - [StoreTransfer.v] -- what the operations above write to a
      store of any kind, and versions that move between stores of different kinds.
    - [ContextAuthority.v] -- the chain of delegations that an authorization made by
      a context rests on, revocation, and recovery of authority.
    - [Api.v] -- what a client and a gateway exchange: api/client.rs and
      api/v0alpha2/data.rs; [ClientProofs.v].  A network is what answers requests
      (the class of that file); the routes of a gateway are an instance.
    - [Sync.v] -- context/sync: fetching, rebasing, adopting names, pushing and
      retrying; [SyncProofs.v].
    - [Gateway.v], [Routes.v] -- noosphere-gateway/src/handlers and single_tenant:
      push (both versions), fetch, did, identify and replicate; [GatewayProofs.v],
      [RouteProofs.v].
    - [WorkerQueue.v] -- noosphere-gateway/src/jobs/worker_queue as a system of
      steps, with their properties.  [Jobs.v] -- the jobs: compaction, publishing
      and resolving names, syndication, and their dispatch; [JobProofs.v],
      [NameResolution.v].
    - [Dht.v], [NameSystem.v] -- noosphere-ns: the node of the distributed hash
      table as a loop over messages, events of the swarm and peer dialing, the
      validator, and the name system as its client; [DhtProofs.v].  The swarm is a
      parameter ([SwarmLaws]).
    - [KeyStorage.v] -- noosphere/src/key and storage.rs, and the mnemonics of
      noosphere-core/src/authority/key_material.rs: keys as pairs of files in a file
      system of directories and files, and where a sphere is stored.
    - [Builder.v] -- noosphere/src/sphere/builder: creating, joining, opening and
      recovering a sphere on a disk of databases; and noosphere/src/noosphere.rs with
      sphere/channel.rs: the application's [NoosphereContext], over a world of files,
      databases and a network, which is what remains when the application starts
      again; [BuilderProofs.v].
    - [FileTree.v] -- the part of [std::fs] that a workspace needs: directories, files
      and symbolic links, followed as POSIX does, and the current directory.
    - [Render.v] -- noosphere-cli/src/native/render, paths.rs and extension.rs: the
      layout of a workspace, the writer of files and links, the jobs that render the
      sphere and its peers, and the loop that runs them, under a schedule that says
      which job ends and which request arrives next; [RenderProofs.v].
    - [Workspace.v] -- noosphere-cli/src/native: reading the files of a workspace and
      comparing them with the sphere (content.rs), the workspace (workspace.rs) and the
      commands of commands/sphere that change a sphere; [WorkspaceProofs.v].
    - [Instances.v], [UcanInstances.v], [UcanFixtures.v], [SphereFixtures.v],
      [ContextFixtures.v], [GatewayFixtures.v] -- concrete parameters that satisfy
      the laws, on which the definitions run.
    - [HamtTheorems.v], [UcanTheorems.v], [AuthorityTheorems.v],
      [SphereTheorems.v], [SphereGenesis.v], [ReplicationTheorems.v],
      [ContextTheorems.v], [DelegationTheorems.v], [SyncTheorems.v],
      [JobTheorems.v], [RouteTheorems.v], [NameSystemTheorems.v],
      [RuntimeTheorems.v], [WorkspaceTheorems.v], and the ends of [UcanIpld.v],
      [StoreWrappers.v] and [KeyStorage.v] -- the properties (each marked with its
      number, C1, C2, ...) and, for those with hypotheses, a run on concrete
      parameters ([.._witness]); [SphereGenesis.v] follows a new sphere and the token
      of its owner from creation to the decision about access.

    ** Conventions

    Fallible code returns [outcome]: [Ok], [Err] with the static part of the
    message, [Panic] for an unwinding, [Diverge] for exhausted fuel.  Arithmetic
    that overflows in the source panics, as in a build with overflow checks.  A
    method on [&mut self] returns its result together with the state it reached,
    also when it fails.  An [async] function is the sequence of its steps: the
    operations modelled here hold their store exclusively or only read blocks.
    A clone of a store is a handle on the same blocks, so the contents are
    threaded through.  [Link<T>] is a CID.  Streams are the list of their items with
    the way they end.  The clock and random bytes are arguments.

    Fuel: HAMT recursion gets one unit more than there are levels in the hash
    ([depth_fuel]), which is enough for every node ([node_rep] holds at most that
    many levels); [into_stream] needs levels times entries pops; building a proof
    chain needs its depth ([from_ucan_iff_valid] says so exactly) and
    walking it its number of tokens; a walk through a history needs its number of
    versions, a walk over links the number of reachable links, reading a workspace its
    number of directories.  Theorems state the
    bound they need and prove that a result is returned.

    ** What the theorems show

    - The HAMT refines a finite map over every sequence of operations, reloads
      included; its CID is a function of the entries; flushing and loading, and both
      ways of iterating, lose nothing; with four keys of one hash it loses entries.
    - A proof chain is built exactly when it holds together: its tokens are live and
      signed, and each proof is addressed to the issuer it is for and outlasts it; reduced capabilities name only issuers in the chain; enabling is
      transitive; signing, encoding, parsing and validating agree; merging lets a
      token keep the originator of a weaker capability.
    - The gateway, write access and link records accept only what the sphere
      delegated; the walks over a chain visit exactly its tokens; recorded
      authorizations verify; a sphere cannot revoke what it did not issue itself.
    - A sphere that is generated authorizes the token of its owner, who has
      read-write access with it; a key that the owner authorizes gains access, a
      revoked authorization ends it, and recovery replaces every authority.
    - Versioned maps replay mutations, deterministically, and keep old versions;
      committing a mutation makes a successor, deriving inverts it, and hydrating
      reproduces the version bit for bit; rebasing replays local changes in order
      and compacting keeps the maps; timelines walk the history; a rebase without
      local changes reverts received ones, and revisions signed by a delegate do
      not pass [verify_signature].
    - The database records the links of every block that it was given with its links,
      whatever else is written and whichever writes fail; the link walk and
      the orphan query are exact; bundles, body streams and history streams carry
      everything that a version or a lineage needs to an empty store.
    - Contexts stay sound under every sequence of edits and refuse edits without
      write access; what is written and saved is read back; cursors read the version
      they are mounted on; changelog streams are exact; link records are adopted only
      from delegates, and those that a context creates are accepted; petnames that
      were only assigned in pending changes cannot be unset.

    - A synchronization delivers the versions of a client to its gateway, which
      links them from its own sphere and mirrors the petnames; it refuses exactly the
      pushes that do not start from its version; conflicts are retried a bounded
      number of times, and [sync] never rolls back.  A client identifies its gateway,
      is authorized by the chain in its headers, and replicates what it misses; the
      deprecated push route leaves the gateway's sphere as the current one does.
    - The worker queue accounts for every job; compaction, resolution and
      syndication, to a node that may refuse what it is offered, do what they are for,
      and no more; a late answer stops the queue.
    - A node of the name system answers every message once and in kind, keeps only
      records that validate, and resolves what was published; a valid record can
      replace that of another sphere.
    - Tokens survive their IPLD form; the wrapped stores are transparent, and
      retries end in time.
    - Keys in files are a map from names to keys, as long as no name has a dot; a
      sphere that is created or joined is there after a restart, with its authority;
      recovery brings back what the gateway has, and a recovery that fails, for
      whatever reason, hides a sphere that could be opened.
    - Saving a workspace makes the sphere what the files are; rendering writes the
      sphere out as files and links, empties the directory of the peers and touches
      nothing else, and renders no version
      of a peer twice under any schedule; but what was rendered is neither removed nor
      written again, and peers that are still queued when the last job ends are not
      rendered.

    The hypotheses are the laws of the parameters, that no two keys of a map
    collide, that a [u32] order number does not overflow, and, where a result rests
    on a chain, that the chain was accepted.

    ** What is not modelled

    The persistent backends (sled, RocksDB, IndexedDB) and the keys of
    noosphere-ucan/src/key_material are bindings to third-party libraries; so are the
    HTTP servers and clients around the modelled handlers, the swarm of the name
    system and the IPFS clients, which are parameters.  The arguments and
    the printed lists of the command line (noosphere-cli, orb-ns), the foreign-function
    interface and the web key storage of noosphere, HTML rendering (noosphere-into), CAR encoding, instrumentation and
    logging are left out: they print, format, or hand values on to the operations
    modelled here.  Concurrency is modelled where the program is a loop over messages
    (the worker queue, the DHT node, the renderer); elsewhere an operation holds its context
    exclusively, as the locks of the source make it. *)

From stdpp Require Import base gmap strings list sorting numbers.

(** ** Results of fallible Rust code

    [Ok] and [Err] are the two constructors of [anyhow::Result]; an error is
    represented by the static part of its message.  [Panic] is an unwinding
    (failed [assert!], out-of-range index, [unwrap] on nothing, integer
    overflow), and [Diverge] means that the fuel given to a loop ran out. *)
Inductive outcome (A : Type) : Type :=
  | Ok (a : A)
  | Err (e : string)
  | Panic (why : string)
  | Diverge.
Arguments Ok {A} a.
Arguments Err {A} e.
Arguments Panic {A} why.
Arguments Diverge {A}.

#[export] Instance outcome_eq_dec {A} `{EqDecision A} : EqDecision (outcome A).
Proof. solve_decision. Defined.

Definition outcome_bind {A B} (m : outcome A) (f : A -> outcome B) : outcome B :=
  match m with
  | Ok a => f a
  | Err e => Err e
  | Panic w => Panic w
  | Diverge => Diverge
  end.

Definition outcome_map {A B} (f : A -> B) (m : outcome A) : outcome B :=
  outcome_bind m (fun a => Ok (f a)).

(** [ok_or e o] is [Option::ok_or_else] with a fixed error message. *)
Definition ok_or {A} (e : string) (o : option A) : outcome A :=
  match o with Some a => Ok a | None => Err e end.

(** Indexing and [unwrap]: a missing element panics. *)
Definition or_panic {A} (w : string) (o : option A) : outcome A :=
  match o with Some a => Ok a | None => Panic w end.

(** [Result::ok]: what remains of a result when its error is dropped. *)
Definition ok_of {A} (m : outcome A) : option A :=
  match m with Ok a => Some a | _ => None end.

(** [e?] inside a method that takes [&mut self]: on an early return the
    receiver keeps the state [st] it has reached so far. *)
Definition try_with {A B St} (m : outcome A) (st : St) (k : A -> outcome B * St) : outcome B * St :=
  match m with
  | Ok a => k a
  | Err e => (Err e, st)
  | Panic w => (Panic w, st)
  | Diverge => (Diverge, st)
  end.

Declare Scope rust_scope.
Delimit Scope rust_scope with rust.
Notation "'let?' x ':=' m 'in' k" := (outcome_bind m (fun x => k))
  (at level 10, x pattern, m at level 100, k at level 200) : rust_scope.
Notation "'let?' x ':=' m 'keeping' st 'in' k" := (try_with m st (fun x => k))
  (at level 10, x pattern, m at level 100, st at level 100, k at level 200) : rust_scope.
Open Scope rust_scope.

(** Monadic traversal of a slice, left to right, stopping at the first failure. *)
Section traversal.
Context {A B : Type}.

Definition try_map (f : A -> outcome B) : list A -> outcome (list B) :=
  fix go l :=
    match l with
    | [] => Ok []
    | x :: l' => let? y := f x in let? ys := go l' in Ok (y :: ys)
    end.

Fixpoint try_fold (f : B -> A -> outcome B) (b : B) (l : list A) : outcome B :=
  match l with
  | [] => Ok b
  | x :: l' => let? b' := f b x in try_fold f b' l'
  end.
End traversal.

Lemma try_map_cons {A B} (f : A -> outcome B) x l :
  try_map f (x :: l) = let? y := f x in let? ys := try_map f l in Ok (y :: ys).
Proof. done. Qed.

Lemma try_map_Forall2 {A B} (f : A -> outcome B) l ys :
  try_map f l = Ok ys <-> Forall2 (fun x y => f x = Ok y) l ys.
Proof.
  split.
  - revert ys. induction l as [|x l IH]; intros ys E; [by injection E as <-|].
    rewrite try_map_cons in E. destruct (f x) as [y| | |] eqn:Ef; try done. cbn [outcome_bind] in E.
    destruct (try_map f l) as [ys'| | |]; try done. injection E as <-. constructor; [done|by apply IH].
  - induction 1 as [|x y l ys Hf _ IH]; [done|]. by rewrite try_map_cons, Hf, IH.
Qed.

(** [Iterator::map_while]. *)
Fixpoint map_while {A B} (f : A -> option B) (l : list A) : list B :=
  match l with
  | [] => []
  | x :: l' => match f x with Some y => y :: map_while f l' | None => [] end
  end.

(** [Iterator::position]. *)
Fixpoint position {A} (f : A -> bool) (l : list A) : option nat :=
  match l with
  | [] => None
  | x :: l' => if f x then Some 0 else S <$> position f l'
  end.

(** [Vec::insert] and [Vec::remove]; both panic out of range. *)
Definition vec_insert {A} (i : nat) (x : A) (l : list A) : outcome (list A) :=
  if decide (i <= length l) then Ok (take i l ++ x :: drop i l)
  else Panic "insertion index should be <= len".

Definition vec_remove {A} (i : nat) (l : list A) : outcome (A * list A) :=
  match l !! i with
  | Some x => Ok (x, take i l ++ drop (S i) l)
  | None => Panic "removal index should be < len"
  end.

(** [Vec::pop]: the last element and the vector without it. *)
Definition vec_pop {A} (l : list A) : option (A * list A) :=
  match reverse l with
  | [] => None
  | x :: r => Some (x, reverse r)
  end.

Lemma vec_pop_cases {X} (l : list X) : l = [] \/ exists x r, l = r ++ [x] /\ vec_pop l = Some (x, r).
Proof.
  destruct l as [|x r _] using rev_ind; [by left|]. right. exists x, r. split; [done|].
  unfold vec_pop. by rewrite reverse_snoc, reverse_involutive.
Qed.

(** A [for] loop whose body updates a state and may fail with [?]; the state
    reached when it fails is kept. *)
Fixpoint for_each_st {A St} (body : A -> St -> outcome unit * St) (l : list A) (st : St)
    : outcome unit * St :=
  match l with
  | [] => (Ok tt, st)
  | x :: l' =>
      let '(r, st') := body x st in
      let? _ := r keeping st' in for_each_st body l' st'
  end.
