(* ===== verification/Bitfield.v ===== *)
(** * The HAMT bitfield

    Model of [noosphere-collections/src/hamt/bitfield.rs]: a 256-bit set held
    in four [u64] words, its bit operations, its wire format (big-endian bytes
    without leading zeros) and the facts the HAMT node relies on: [set_bit],
    [clear_bit] and [test_bit] are the set operations, and counting the bits
    below a mask is the rank of a position.

    Model of [noosphere-collections/src/hamt/hash_bits.rs]: a cursor over the
    32 bytes of a hashed key that hands out up to eight bits at a time, most
    significant bit first, and the proof that what it hands out is the value of
    that range of bits of the key. *)
From stdpp Require Import base list numbers strings.
From Stdlib Require Import NArith Lia.
From S2P Require Import Prelude.
#[local] Open Scope N_scope.

(** ** Machine words *)
Definition U64_MAX : N := 2 ^ 64 - 1.

(** [u64::count_ones]. *)
Fixpoint pos_count_ones (p : positive) : nat :=
  match p with
  | xH => 1
  | xO p => pos_count_ones p
  | xI p => S (pos_count_ones p)
  end.

Definition count_ones_u64 (n : N) : nat :=
  match n with N0 => O | Npos p => pos_count_ones p end.

(** The free function [set_bits_leq] on one word: [(v as u128 | ((1 << (1 + bit)) - 1)) as u64]. *)
Definition set_bits_leq_u64 (v : N) (bit : N) : N :=
  N.lor v (N.shiftl 1 (1 + bit) - 1) mod 2 ^ 64.

(** ** The four-word bitfield *)
Record Bitfield := mkBitfield { bf_words : list N }.

#[export] Instance Bitfield_eq_dec : EqDecision Bitfield.
Proof. solve_decision. Defined.

Definition bitfield_zero : Bitfield := mkBitfield [0; 0; 0; 0].

Definition word_at (b : Bitfield) (ai : N) : outcome N :=
  or_panic "index out of bounds" (bf_words b !! N.to_nat ai).

Definition set_word (b : Bitfield) (ai : N) (w : N) : Bitfield :=
  mkBitfield (<[N.to_nat ai := w]> (bf_words b)).

Definition clear_bit (b : Bitfield) (idx : N) : outcome Bitfield :=
  let ai := idx / 64 in
  let bi := idx mod 64 in
  let? w := word_at b ai in
  Ok (set_word b ai (N.land w (U64_MAX - N.shiftl 1 bi))).

Definition test_bit (b : Bitfield) (idx : N) : outcome bool :=
  let ai := idx / 64 in
  let bi := idx mod 64 in
  let? w := word_at b ai in
  Ok (negb (N.land w (N.shiftl 1 bi) =? 0)).

Definition set_bit (b : Bitfield) (idx : N) : outcome Bitfield :=
  let ai := idx / 64 in
  let bi := idx mod 64 in
  let? w := word_at b ai in
  Ok (set_word b ai (N.lor w (N.shiftl 1 bi))).

Definition count_ones (b : Bitfield) : nat :=
  foldr (fun w n => (count_ones_u64 w + n)%nat) O (bf_words b).

Definition bitfield_and (b other : Bitfield) : Bitfield :=
  mkBitfield (zip_with N.land (bf_words b) (bf_words other)).

Definition set_bits_leq (b : Bitfield) (bit : N) : outcome Bitfield :=
  match bf_words b with
  | [w0; w1; w2; w3] =>
      if bit <? 64 then Ok (mkBitfield [set_bits_leq_u64 w0 bit; w1; w2; w3])
      else if bit <? 128 then
        Ok (mkBitfield [U64_MAX; set_bits_leq_u64 w1 (bit - 64); w2; w3])
      else if bit <? 192 then
        Ok (mkBitfield [U64_MAX; U64_MAX; set_bits_leq_u64 w2 (bit - 128); w3])
      else if bit <? 192 + 127 then
        Ok (mkBitfield [U64_MAX; U64_MAX; U64_MAX; set_bits_leq_u64 w3 (bit - 192)])
      else Panic "attempt to shift left with overflow"
  | _ => Panic "index out of bounds"
  end.

Definition set_bits_le (b : Bitfield) (bit : N) : outcome Bitfield :=
  if bit =? 0 then Ok b else set_bits_leq b (bit - 1).

(** [Node::index_for_bit_pos] (node.rs): the position in the pointer vector of
    the child for bit [bp], the number of set bits below [bp]; it asserts that
    the mask it builds has exactly [bp] bits. *)
Definition index_for_bit_pos (b : Bitfield) (bp : N) : outcome nat :=
  let? mask := set_bits_le bitfield_zero bp in
  if decide (count_ones mask = N.to_nat bp) then Ok (count_ones (bitfield_and mask b))
  else Panic "assertion failed: mask.count_ones() == bp".

(** ** Wire format *)

(** [BigEndian::write_u64] and [BigEndian::read_u64]. *)
Fixpoint be_bytes (n : nat) (w : N) : list N :=
  match n with
  | O => []
  | S n' => w / 2 ^ (8 * N.of_nat n') mod 256 :: be_bytes n' w
  end.

Fixpoint be_value (l : list N) : N :=
  match l with
  | [] => 0
  | x :: l' => x * 2 ^ (8 * N.of_nat (length l')) + be_value l'
  end.

(** The scan [for i in 0..v.len() { if v[i] != 0 { return &v[i..] } }]. *)
Fixpoint strip_leading_zeros (l : list N) : list N :=
  match l with
  | [] => []
  | x :: l' => if x =? 0 then strip_leading_zeros l' else x :: l'
  end.

Definition bitfield_serialize (b : Bitfield) : outcome (list N) :=
  match bf_words b with
  | [w0; w1; w2; w3] =>
      Ok (strip_leading_zeros (be_bytes 8 w3 ++ be_bytes 8 w2 ++ be_bytes 8 w1 ++ be_bytes 8 w0))
  | _ => Panic "index out of bounds"
  end.

(** The buffer slice [arr[(32 - len)..]] panics when more than 32 bytes come in. *)
Definition bitfield_deserialize (bytes : list N) : outcome Bitfield :=
  let len := length bytes in
  if decide (len <= 32)%nat then
    let arr := replicate (32 - len) 0 ++ bytes in
    Ok (mkBitfield [be_value (take 8 (drop 24 arr)); be_value (take 8 (drop 16 arr));
                    be_value (take 8 (drop 8 arr)); be_value (take 8 arr)])
  else Panic "attempt to subtract with overflow".

(** ** The set a bitfield denotes *)
Definition bf_wf (b : Bitfield) : Prop :=
  length (bf_words b) = 4%nat /\ Forall (fun w => w < 2 ^ 64) (bf_words b).

Definition mem (b : Bitfield) (i : N) : bool :=
  match bf_words b !! N.to_nat (i / 64) with
  | Some w => N.testbit w (i mod 64)
  | None => false
  end.

(** [cnt f n] counts the indices below [n] that satisfy [f]. *)
Fixpoint cnt (f : N -> bool) (n : nat) : nat :=
  match n with
  | O => O
  | S n' => (cnt f n' + (if f (N.of_nat n') then 1 else 0))%nat
  end.

Definition rank (b : Bitfield) (i : N) : nat := cnt (mem b) (N.to_nat i).

Lemma cnt_ext (f g : N -> bool) n :
  (forall i, i < N.of_nat n -> f i = g i) -> cnt f n = cnt g n.
Proof.
  induction n as [|n IH]; simpl; intros H; [done|].
  rewrite IH by (intros; apply H; lia). by rewrite (H (N.of_nat n)) by lia.
Qed.

Lemma cnt_false (f : N -> bool) n : (forall i, i < N.of_nat n -> f i = false) -> cnt f n = O.
Proof.
  intros H. rewrite (cnt_ext f (fun _ => false)) by done.
  clear. induction n; simpl; lia.
Qed.

Lemma cnt_app (f : N -> bool) n k :
  cnt f (n + k) = (cnt f n + cnt (fun i => f (N.of_nat n + i)%N) k)%nat.
Proof.
  induction k as [|k IH]; [rewrite Nat.add_0_r; simpl; lia|].
  rewrite Nat.add_succ_r. simpl. rewrite IH, Nat2N.inj_add. lia.
Qed.

Lemma cnt_le (f : N -> bool) n k : (n <= k)%nat -> (cnt f n <= cnt f k)%nat.
Proof. intros H. replace k with (n + (k - n))%nat by lia. rewrite cnt_app. lia. Qed.

Lemma cnt_lt (f : N -> bool) i n :
  f i = true -> i < N.of_nat n -> (cnt f (N.to_nat i) < cnt f n)%nat.
Proof.
  intros Hi Hlt. pose proof (cnt_le f (S (N.to_nat i)) n ltac:(lia)) as H.
  simpl in H. rewrite N2Nat.id, Hi in H. lia.
Qed.

(** Every position below the total count is the rank of a set bit. *)
Lemma cnt_surj (f : N -> bool) n c :
  (c < cnt f n)%nat -> exists i, i < N.of_nat n /\ f i = true /\ cnt f (N.to_nat i) = c.
Proof.
  induction n as [|n IH]; simpl; [lia|]. intros H.
  destruct (decide (c < cnt f n)%nat) as [Hc|Hc].
  - destruct (IH Hc) as (i & ? & ? & ?). exists i. split_and!; auto; lia.
  - destruct (f (N.of_nat n)) eqn:E; [|lia].
    exists (N.of_nat n). rewrite Nat2N.id. split_and!; auto; lia.
Qed.

Lemma cnt_inj (f : N -> bool) i j :
  f i = true -> f j = true -> cnt f (N.to_nat i) = cnt f (N.to_nat j) -> i = j.
Proof.
  intros Hi Hj H. destruct (N.lt_trichotomy i j) as [L|[?|L]]; auto; exfalso.
  - pose proof (cnt_lt f i (N.to_nat j) Hi ltac:(lia)). lia.
  - pose proof (cnt_lt f j (N.to_nat i) Hj ltac:(lia)). lia.
Qed.

(** Setting or clearing one point of the predicate shifts the count above it. *)
Lemma cnt_update (f g : N -> bool) i n :
  (forall j, j <> i -> g j = f j) -> f i = false -> g i = true ->
  cnt g n = (cnt f n + (if decide (i < N.of_nat n)%N then 1 else 0))%nat.
Proof.
  intros Hne Hf Hg. induction n as [|n IH]; cbn [cnt]; [case_decide; lia|].
  rewrite IH. destruct (decide (N.of_nat n = i)) as [<-|Hn].
  - rewrite Hf, Hg. repeat case_decide; lia.
  - rewrite Hne by done. repeat case_decide; lia.
Qed.

Lemma count_ones_u64_cnt n w : w < 2 ^ N.of_nat n -> count_ones_u64 w = cnt (N.testbit w) n.
Proof.
  revert w. induction n as [|n IH]; intros w Hw.
  - assert (w = 0) as -> by (change (2 ^ N.of_nat 0) with 1 in Hw; lia). done.
  - replace (S n) with (1 + n)%nat by lia. rewrite cnt_app.
    rewrite (cnt_ext (fun i => N.testbit w (N.of_nat 1 + i)) (N.testbit (N.div2 w))).
    2: { intros i _. replace (N.of_nat 1 + i) with (N.succ i) by lia.
         rewrite N.div2_spec, N.shiftr_spec by apply N.le_0_l. by rewrite N.add_1_r. }
    rewrite <- IH.
    2: { rewrite N.div2_div. apply N.Div0.div_lt_upper_bound. replace (2 * 2 ^ N.of_nat n) with (2 ^ N.of_nat (S n)); [done|].
         rewrite Nat2N.inj_succ, N.pow_succ_r; lia. }
    change (cnt (N.testbit w) 1) with (if N.testbit w 0 then 1%nat else 0%nat).
    by destruct w as [|[p|p|]].
Qed.

(** ** The operations against the set they denote *)
Lemma div64_lt i : i < 256 -> (N.to_nat (i / 64) < 4)%nat.
Proof. intros H. assert (i / 64 < 4) by (apply N.Div0.div_lt_upper_bound; lia). lia. Qed.

Lemma mod64_lt i : i mod 64 < 64.
Proof. apply N.mod_lt. done. Qed.

Lemma word_at_ok b i :
  bf_wf b -> i < 256 ->
  exists w, bf_words b !! N.to_nat (i / 64) = Some w /\ word_at b (i / 64) = Ok w /\ w < 2 ^ 64.
Proof.
  intros [Hl Hf] Hi.
  destruct (lookup_lt_is_Some_2 (bf_words b) (N.to_nat (i / 64))) as [w Hw].
  { rewrite Hl. by apply div64_lt. }
  exists w. split_and!; [done| |exact (Forall_lookup_1 _ _ _ _ Hf Hw)].
  unfold word_at. by rewrite Hw.
Qed.

Lemma mem_set_word b i w j :
  bf_wf b -> i < 256 ->
  mem (set_word b (i / 64) w) j =
    if decide (j / 64 = i / 64) then N.testbit w (j mod 64) else mem b j.
Proof.
  intros [Hl _] Hi. unfold mem, set_word. cbn [bf_words].
  case_decide as E.
  - rewrite E, list_lookup_insert_eq; [done|]. rewrite Hl. by apply div64_lt.
  - rewrite list_lookup_insert_ne; [done|]. intros H. apply E.
    by apply N2Nat.inj in H.
Qed.

Lemma set_word_wf b ai w : bf_wf b -> w < 2 ^ 64 -> bf_wf (set_word b ai w).
Proof.
  intros [Hl Hf] Hw. split; unfold set_word; cbn [bf_words].
  - by rewrite length_insert.
  - by apply Forall_insert.
Qed.

Lemma divmod64_inj i j : j / 64 = i / 64 -> j mod 64 = i mod 64 -> j = i.
Proof.
  intros Hd Hm. rewrite (N.div_mod j 64), (N.div_mod i 64) by done. by rewrite Hd, Hm.
Qed.

Lemma testbit_ones_below w k : w < 2 ^ k -> forall j, k <= j -> N.testbit w j = false.
Proof.
  intros Hw j Hj. rewrite <- (N.mod_small w (2 ^ k)) by done.
  apply N.mod_pow2_bits_high. lia.
Qed.

Lemma lt_pow2_testbit w k : (forall j, k <= j -> N.testbit w j = false) -> w < 2 ^ k.
Proof.
  intros H. replace w with (w mod 2 ^ k).
  { apply N.mod_lt. by apply N.pow_nonzero. }
  apply N.bits_inj. intros j. destruct (N.lt_ge_cases j k) as [L|L].
  - by rewrite N.mod_pow2_bits_low.
  - by rewrite N.mod_pow2_bits_high, H.
Qed.

Lemma testbit_shiftl_1 k j : N.testbit (N.shiftl 1 k) j = (j =? k).
Proof.
  rewrite N.shiftl_1_l, N.pow2_bits_eqb. apply N.eqb_sym.
Qed.

Lemma land_shiftl_1 w k : negb (N.land w (N.shiftl 1 k) =? 0) = N.testbit w k.
Proof.
  destruct (N.testbit w k) eqn:E.
  - apply negb_true_iff, N.eqb_neq. intros H.
    assert (N.testbit (N.land w (N.shiftl 1 k)) k = false) as C by (rewrite H; apply N.bits_0).
    rewrite N.land_spec, E, testbit_shiftl_1, N.eqb_refl in C. done.
  - apply negb_false_iff, N.eqb_eq. apply N.bits_inj. intros j.
    rewrite N.land_spec, testbit_shiftl_1, N.bits_0.
    destruct (j =? k) eqn:Ejk; [|apply andb_false_r].
    apply N.eqb_eq in Ejk as ->. by rewrite E.
Qed.

Lemma u64_complement_spec k j : k < 64 ->
  N.testbit (U64_MAX - N.shiftl 1 k) j = (j <? 64) && negb (j =? k).
Proof.
  intros Hk. unfold U64_MAX. change (2 ^ 64 - 1) with (N.ones 64).
  assert (N.ldiff (N.shiftl 1 k) (N.ones 64) = 0) as Hsub.
  { apply N.bits_inj. intros i. rewrite N.ldiff_spec, testbit_shiftl_1, N.bits_0.
    destruct (i =? k) eqn:E; [|done]. apply N.eqb_eq in E as ->.
    rewrite N.ones_spec_low by done. done. }
  rewrite (N.sub_nocarry_ldiff _ _ Hsub), N.ldiff_spec, testbit_shiftl_1.
  destruct (N.ltb_spec j 64).
  - by rewrite N.ones_spec_low.
  - by rewrite N.ones_spec_high.
Qed.

Lemma test_bit_spec b i : bf_wf b -> i < 256 -> test_bit b i = Ok (mem b i).
Proof.
  intros Hb Hi. destruct (word_at_ok b i Hb Hi) as (w & Hl & Hw & _).
  unfold test_bit. rewrite Hw. simpl. rewrite land_shiftl_1. unfold mem. by rewrite Hl.
Qed.

Lemma set_bit_spec b i : bf_wf b -> i < 256 ->
  exists b', set_bit b i = Ok b' /\ bf_wf b' /\ forall j, mem b' j = (j =? i) || mem b j.
Proof.
  intros Hb Hi. destruct (word_at_ok b i Hb Hi) as (w & Hl & Hw & Hlt).
  unfold set_bit. rewrite Hw. cbn [outcome_bind]. eexists. split; [done|]. split.
  - apply set_word_wf; [done|]. apply lt_pow2_testbit. intros j Hj.
    rewrite N.lor_spec, testbit_shiftl_1, (testbit_ones_below w 64) by done.
    pose proof (mod64_lt i). apply N.eqb_neq. lia.
  - intros j. rewrite mem_set_word by done. case_decide as E.
    + rewrite N.lor_spec, testbit_shiftl_1, orb_comm. unfold mem. rewrite E, Hl.
      f_equal. destruct (N.eqb_spec (j mod 64) (i mod 64)) as [Em|Em].
      * symmetry. apply N.eqb_eq. by apply divmod64_inj.
      * symmetry. apply N.eqb_neq. congruence.
    + destruct (N.eqb_spec j i); [congruence|done].
Qed.

Lemma clear_bit_spec b i : bf_wf b -> i < 256 ->
  exists b', clear_bit b i = Ok b' /\ bf_wf b' /\ forall j, mem b' j = negb (j =? i) && mem b j.
Proof.
  intros Hb Hi. destruct (word_at_ok b i Hb Hi) as (w & Hl & Hw & Hlt).
  unfold clear_bit. rewrite Hw. cbn [outcome_bind]. eexists. split; [done|].
  pose proof (mod64_lt i). split.
  - apply set_word_wf; [done|]. apply lt_pow2_testbit. intros j Hj.
    by rewrite N.land_spec, (testbit_ones_below w 64).
  - intros j. rewrite mem_set_word by done. case_decide as E.
    + rewrite N.land_spec, u64_complement_spec, andb_comm by done. unfold mem. rewrite E, Hl.
      f_equal. pose proof (mod64_lt j). destruct (N.ltb_spec (j mod 64) 64); [|lia]. simpl.
      f_equal. destruct (N.eqb_spec (j mod 64) (i mod 64)) as [Em|Em].
      * symmetry. apply N.eqb_eq. by apply divmod64_inj.
      * symmetry. apply N.eqb_neq. congruence.
    + destruct (N.eqb_spec j i); [congruence|done].
Qed.

(** ** Counting and ranks *)
Lemma bf_wf_inv b : bf_wf b ->
  exists w0 w1 w2 w3, b = mkBitfield [w0; w1; w2; w3] /\
    w0 < 2 ^ 64 /\ w1 < 2 ^ 64 /\ w2 < 2 ^ 64 /\ w3 < 2 ^ 64.
Proof.
  intros [Hl Hf]. destruct b as [ws]. cbn [bf_words] in *.
  destruct ws as [|w0 [|w1 [|w2 [|w3 [|]]]]]; try discriminate.
  exists w0, w1, w2, w3. rewrite !Forall_cons in Hf. naive_solver.
Qed.

Lemma bitfield_zero_wf : bf_wf bitfield_zero.
Proof. split; [done|]. repeat constructor. Qed.

Lemma mem_zero i : mem bitfield_zero i = false.
Proof.
  unfold mem, bitfield_zero. cbn [bf_words].
  destruct (N.to_nat (i / 64)) as [|[|[|[|n]]]]; simpl; auto using N.bits_0.
Qed.

(** The bits of the [k]-th word are the members [64 k .. 64 k + 63]. *)
Lemma mem_word b k w j :
  bf_words b !! k = Some w -> j < 64 -> mem b (N.of_nat (64 * k) + j) = N.testbit w j.
Proof.
  intros Hw Hj. unfold mem.
  replace (N.of_nat (64 * k) + j) with (j + N.of_nat k * 64) by lia.
  rewrite N.div_add, N.Div0.mod_add by done.
  rewrite N.div_small, N.mod_small by done.
  rewrite N.add_0_l, Nat2N.id. by rewrite Hw.
Qed.

Lemma cnt_word b k w : bf_words b !! k = Some w -> w < 2 ^ 64 ->
  cnt (fun i => mem b (N.of_nat (64 * k) + i)) 64 = count_ones_u64 w.
Proof.
  intros Hw Hlt. rewrite (count_ones_u64_cnt 64) by done. apply cnt_ext.
  intros i Hi. apply mem_word; [done|]. lia.
Qed.

Lemma count_ones_spec b : bf_wf b -> count_ones b = rank b 256.
Proof.
  intros Hb. destruct (bf_wf_inv b Hb) as (w0 & w1 & w2 & w3 & -> & ? & ? & ? & ?).
  set (b := mkBitfield [w0; w1; w2; w3]) in *.
  unfold rank. change (N.to_nat 256) with (64 * 0 + 64 + 64 + 64 + 64)%nat.
  rewrite !cnt_app.
  change (64 * 0 + 64)%nat with (64 * 1)%nat.
  change (64 * 1 + 64)%nat with (64 * 2)%nat.
  change (64 * 2 + 64)%nat with (64 * 3)%nat.
  rewrite (cnt_word b 0 w0), (cnt_word b 1 w1), (cnt_word b 2 w2), (cnt_word b 3 w3) by done.
  unfold count_ones, b. cbn. lia.
Qed.

(** The mask of the bits below [bp]. *)
Definition mask_below (bp : N) : Bitfield :=
  mkBitfield ((fun k => N.ones (N.min 64 (bp - 64 * k))) <$> [0; 1; 2; 3]).

Lemma set_bits_le_table :
  forallb (fun bp => bool_decide (set_bits_le bitfield_zero bp = Ok (mask_below bp)))
    (N.of_nat <$> seq 0 257) = true.
Proof. vm_compute. reflexivity. Qed.

Lemma set_bits_le_mask bp : bp <= 256 -> set_bits_le bitfield_zero bp = Ok (mask_below bp).
Proof.
  intros H. pose proof set_bits_le_table as T. rewrite forallb_forall in T.
  specialize (T bp). apply bool_decide_eq_true in T; [done|].
  apply list_elem_of_In, list_elem_of_fmap. exists (N.to_nat bp).
  split; [by rewrite N2Nat.id|]. apply elem_of_seq. lia.
Qed.

Lemma mask_below_wf bp : bf_wf (mask_below bp).
Proof.
  split; [done|]. unfold mask_below. cbn [bf_words]. apply Forall_fmap.
  apply Forall_true. intros k. cbn [compose]. rewrite N.ones_equiv.
  assert (2 ^ N.min 64 (bp - 64 * k) <= 2 ^ 64) by (apply N.pow_le_mono_r; lia).
  assert (2 ^ N.min 64 (bp - 64 * k) <> 0) by (by apply N.pow_nonzero). cbv [compose]. lia.
Qed.

Lemma mem_mask_below bp i : i < 256 -> mem (mask_below bp) i = (i <? bp).
Proof.
  intros Hi. pose proof (mod64_lt i) as Hm. pose proof (N.div_mod i 64 ltac:(done)) as Hdm.
  assert (i / 64 < 4) as Hq by (apply N.Div0.div_lt_upper_bound; lia).
  unfold mem, mask_below. cbn [bf_words]. rewrite list_lookup_fmap.
  assert ([0; 1; 2; 3] !! N.to_nat (i / 64) = Some (i / 64)) as ->.
  { assert (i / 64 = 0 \/ i / 64 = 1 \/ i / 64 = 2 \/ i / 64 = 3) as [E|[E|[E|E]]] by lia;
      rewrite E; done. }
  simpl. revert Hdm Hm Hq. generalize (i / 64) (i mod 64). intros q r Hdm Hm Hq.
  destruct (N.ltb_spec i bp) as [L|L].
  - apply N.ones_spec_low. lia.
  - apply N.ones_spec_high. lia.
Qed.

Lemma cnt_guard (f : N -> bool) bp n :
  bp <= N.of_nat n -> cnt (fun i => (i <? bp) && f i) n = cnt f (N.to_nat bp).
Proof.
  intros H. induction n as [|n IH].
  - by replace bp with 0 by lia.
  - destruct (N.eq_dec bp (N.of_nat (S n))) as [->|Hne].
    + rewrite Nat2N.id. apply cnt_ext. intros i Hi. by destruct (N.ltb_spec i (N.of_nat (S n))); [|lia].
    + cbn [cnt]. rewrite IH by lia. destruct (N.ltb_spec (N.of_nat n) bp); [lia|]. simpl. lia.
Qed.

Lemma cnt_true n : cnt (fun _ => true) n = n.
Proof. induction n; simpl; lia. Qed.

Lemma rank_mask_below bp : bp <= 256 -> rank (mask_below bp) 256 = N.to_nat bp.
Proof.
  intros H. unfold rank. rewrite (cnt_ext _ (fun i => (i <? bp) && true)).
  - rewrite (cnt_guard (fun _ => true)) by lia. apply cnt_true.
  - intros i Hi. rewrite mem_mask_below by lia. by rewrite andb_true_r.
Qed.

Lemma bitfield_and_spec a b : bf_wf a -> bf_wf b ->
  bf_wf (bitfield_and a b) /\ forall i, mem (bitfield_and a b) i = mem a i && mem b i.
Proof.
  intros Ha Hb. destruct (bf_wf_inv a Ha) as (a0 & a1 & a2 & a3 & -> & ? & ? & ? & ?).
  destruct (bf_wf_inv b Hb) as (b0 & b1 & b2 & b3 & -> & ? & ? & ? & ?).
  assert (forall x y, x < 2 ^ 64 -> N.land x y < 2 ^ 64) as Hl.
  { intros x y Hx. apply lt_pow2_testbit. intros j Hj.
    by rewrite N.land_spec, (testbit_ones_below x 64). }
  split.
  - split; [done|]. unfold bitfield_and. cbn [bf_words zip_with]. repeat constructor; auto.
  - intros i. unfold mem, bitfield_and. cbn [bf_words zip_with].
    destruct (N.to_nat (i / 64)) as [|[|[|[|n]]]]; simpl; auto using N.land_spec.
Qed.

(** [index_for_bit_pos] is the rank of the position, and its assertion holds. *)
Lemma index_for_bit_pos_spec b bp : bf_wf b -> bp < 256 -> index_for_bit_pos b bp = Ok (rank b bp).
Proof.
  intros Hb Hbp. unfold index_for_bit_pos. rewrite set_bits_le_mask by lia. cbn [outcome_bind].
  pose proof (mask_below_wf bp) as Hm.
  rewrite count_ones_spec, rank_mask_below by (done || lia).
  destruct (decide _); [|done]. f_equal.
  destruct (bitfield_and_spec (mask_below bp) b Hm Hb) as [Hw Hs].
  rewrite count_ones_spec by done. unfold rank. 
  transitivity (cnt (fun i => (i <? bp) && mem b i) (N.to_nat 256)); [|apply cnt_guard; lia].
  apply cnt_ext. intros i Hi. by rewrite Hs, mem_mask_below by lia.
Qed.

(** ** The wire format *)
Lemma be_value_lt l : Forall (fun x => x < 256) l -> be_value l < 2 ^ (8 * N.of_nat (length l)).
Proof.
  induction 1 as [|x l Hx Hl IH]; [done|].
  cbn [be_value length]. rewrite Nat2N.inj_succ, N.mul_succ_r, N.pow_add_r.
  change (2 ^ 8) with 256. nia.
Qed.

Lemma be_value_app l k :
  be_value (l ++ k) = be_value l * 2 ^ (8 * N.of_nat (length k)) + be_value k.
Proof.
  induction l as [|x l IH]; [done|].
  cbn [be_value app]. rewrite IH, length_app, Nat2N.inj_add, N.mul_add_distr_l, N.pow_add_r. lia.
Qed.

Lemma length_be_bytes n w : length (be_bytes n w) = n.
Proof. induction n; simpl; auto. Qed.

Lemma be_value_bytes n w : be_value (be_bytes n w) = w mod 2 ^ (8 * N.of_nat n).
Proof.
  induction n as [|n IH]; [by rewrite N.mod_1_r|].
  cbn [be_bytes be_value]. rewrite IH, length_be_bytes, Nat2N.inj_succ, N.mul_succ_r, N.pow_add_r.
  change (2 ^ 8) with 256. set (p := 2 ^ (8 * N.of_nat n)).
  assert (p <> 0) by (by apply N.pow_nonzero).
  rewrite (N.mul_comm p 256), (N.mul_comm 256 p), N.Div0.mod_mul_r. lia.
Qed.

Lemma be_bytes_lt n w : Forall (fun x => x < 256) (be_bytes n w).
Proof. induction n; simpl; constructor; auto. by apply N.mod_lt. Qed.

Lemma strip_leading_zeros_spec l :
  replicate (length l - length (strip_leading_zeros l)) 0 ++ strip_leading_zeros l = l /\
  (length (strip_leading_zeros l) <= length l)%nat.
Proof.
  induction l as [|x l [IH1 IH2]]; [done|]. cbn [strip_leading_zeros length].
  destruct (N.eqb_spec x 0) as [->|Hx].
  - split; [|lia]. rewrite Nat.sub_succ_l by lia. simpl. by rewrite IH1.
  - cbn [length]. rewrite Nat.sub_diag. split; [done|lia].
Qed.

(** Reading back what was written gives the same bitfield. *)
Lemma bitfield_roundtrip b : bf_wf b ->
  exists bytes, bitfield_serialize b = Ok bytes /\ (length bytes <= 32)%nat /\
    bitfield_deserialize bytes = Ok b.
Proof.
  intros Hb. destruct (bf_wf_inv b Hb) as (w0 & w1 & w2 & w3 & -> & ? & ? & ? & ?).
  unfold bitfield_serialize. cbn [bf_words]. eexists. split; [done|].
  set (v := be_bytes 8 w3 ++ be_bytes 8 w2 ++ be_bytes 8 w1 ++ be_bytes 8 w0).
  assert (length v = 32%nat) as Hv by (unfold v; by rewrite !length_app, !length_be_bytes).
  destruct (strip_leading_zeros_spec v) as [Hs Hl]. rewrite Hv in Hs, Hl. split; [done|].
  unfold bitfield_deserialize. destruct (decide _); [|done]. rewrite Hs.
  assert (forall w, w < 2 ^ 64 -> be_value (be_bytes 8 w) = w) as Hw.
  { intros w ?. rewrite be_value_bytes. by apply N.mod_small. }
  unfold v. do 3 f_equal; [|f_equal; [|f_equal; [|f_equal]]].
  all: rewrite ?drop_app_ge, ?take_app_ge by (rewrite ?length_be_bytes; lia).
  all: rewrite ?length_be_bytes; simpl (_ - _)%nat; rewrite ?drop_0.
  all: rewrite ?drop_app_length', ?take_app_length', ?take_ge by (rewrite ?length_be_bytes; done).
  all: rewrite ?take_0, ?app_nil_r; auto.
Qed.

(** A well-formed bitfield is determined by its members. *)
Lemma bitfield_ext a b : bf_wf a -> bf_wf b -> (forall i, i < 256 -> mem a i = mem b i) -> a = b.
Proof.
  intros [Hla Ha] [Hlb Hb] Hext. destruct a as [wa], b as [wb]. f_equal. simpl in *.
  apply list_eq. intros k. destruct (decide (k < 4)%nat) as [Hk|Hk].
  2: { rewrite !lookup_ge_None_2 by lia. done. }
  destruct (lookup_lt_is_Some_2 wa k ltac:(lia)) as [x Hx].
  destruct (lookup_lt_is_Some_2 wb k ltac:(lia)) as [y Hy]. rewrite Hx, Hy. f_equal.
  pose proof (Forall_lookup_1 _ _ _ _ Ha Hx) as Hx'. pose proof (Forall_lookup_1 _ _ _ _ Hb Hy) as Hy'.
  apply N.bits_inj. intros j. destruct (N.lt_ge_cases j 64) as [Hj|Hj].
  - pose proof (mem_word (mkBitfield wa) k x j Hx Hj) as Ma.
    pose proof (mem_word (mkBitfield wb) k y j Hy Hj) as Mb.
    rewrite <- Ma, <- Mb. apply Hext. lia.
  - by rewrite !(testbit_ones_below _ 64).
Qed.

(** ** Consuming the bits of a hashed key *)
(** [pub type HashedKey = [u8; 32]] (hash_algorithm.rs). *)
Notation HashedKey := (list N).

Definition hashed_key_wf (b : HashedKey) : Prop :=
  length b = 32%nat /\ Forall (fun x => x < 256) b.

Record HashBits := mkHashBits { hb_b : HashedKey; hb_consumed : N }.

Definition mkmask (n : N) : N := (N.shiftl 1 n - 1) mod 2 ^ 32.

Definition new_at_index (hash_buffer : HashedKey) (consumed : N) : HashBits :=
  mkHashBits hash_buffer consumed.

Definition hash_bits_new (hash_buffer : HashedKey) : HashBits := new_at_index hash_buffer 0.

(** [!x] on [u32]. *)
Definition not_u32 (x : N) : N := N.lxor x (2 ^ 32 - 1).

(** [next_bits] recurses on the number of bits still wanted, which drops by at
    least one, so [S i] calls are enough. *)
Fixpoint next_bits (fuel : nat) (self : HashBits) (i : N) : outcome (N * HashBits) :=
  match fuel with
  | O => Diverge
  | S fuel' =>
      let curbi := hb_consumed self / 8 in
      let leftb := 8 - hb_consumed self mod 8 in
      let? curb := or_panic "index out of bounds" (hb_b self !! N.to_nat curbi) in
      match i ?= leftb with
      | Eq =>
          let out := N.land (mkmask i) curb in
          Ok (out, mkHashBits (hb_b self) (hb_consumed self + i))
      | Lt =>
          let a := N.land curb (mkmask leftb) in
          let b := N.land a (not_u32 (mkmask (leftb - i))) in
          let c := N.shiftr b (leftb - i) in
          Ok (c, mkHashBits (hb_b self) (hb_consumed self + i))
      | Gt =>
          let out := N.shiftl (N.land (mkmask leftb) curb) (i - leftb) in
          let self' := mkHashBits (hb_b self) (hb_consumed self + leftb) in
          let? (rest, self'') := next_bits fuel' self' (i - leftb) in
          Ok ((out + rest) mod 2 ^ 32, self'')
      end
  end.

Definition MAX_DEPTH_ERROR : string := "Maximum depth reached".

Definition next (self : HashBits) (i : N) : outcome (N * HashBits) :=
  if 8 <? i then Err "HashBits does not support retrieving more than 8 bits"
  else if 2 ^ 32 <=? hb_consumed self + i then Panic "attempt to add with overflow"
  else if N.of_nat (length (hb_b self) * 8) <? hb_consumed self + i then Err MAX_DEPTH_ERROR
  else next_bits (S (N.to_nat i)) self i.

(** ** The value of a range of bits *)
Definition bit_at (b : HashedKey) (k : N) : bool :=
  match b !! N.to_nat (k / 8) with
  | Some c => N.testbit c (7 - k mod 8)
  | None => false
  end.

Fixpoint bits_value (b : HashedKey) (start : N) (len : nat) : N :=
  match len with
  | O => 0
  | S l => 2 * bits_value b start l + N.b2n (bit_at b (start + N.of_nat l))
  end.

Lemma bits_value_lt b start len : bits_value b start len < 2 ^ N.of_nat len.
Proof.
  induction len as [|len IH]; [done|]. cbn [bits_value].
  rewrite Nat2N.inj_succ, N.pow_succ_r by lia. destruct (bit_at _ _); simpl; lia.
Qed.

Lemma bits_value_app b start l k :
  bits_value b start (l + k) =
    bits_value b start l * 2 ^ N.of_nat k + bits_value b (start + N.of_nat l) k.
Proof.
  induction k as [|k IH].
  - rewrite Nat.add_0_r. cbn [bits_value N.of_nat]. change (2 ^ 0) with 1. lia.
  - rewrite Nat.add_succ_r. cbn [bits_value].
    rewrite IH, Nat2N.inj_succ, N.pow_succ_r, Nat2N.inj_add, N.add_assoc by lia. lia.
Qed.

(** The same value computed inside one byte [c], from its bit [s]. *)
Fixpoint byte_bits (c s : N) (len : nat) : N :=
  match len with
  | O => 0
  | S l => 2 * byte_bits c s l + N.b2n (N.testbit c (7 - (s + N.of_nat l)))
  end.

Lemma bits_value_byte b start c len :
  b !! N.to_nat (start / 8) = Some c -> start mod 8 + N.of_nat len <= 8 ->
  bits_value b start len = byte_bits c (start mod 8) len.
Proof.
  intros Hc. induction len as [|len IH]; intros Hl; [done|].
  cbn [bits_value byte_bits]. rewrite IH by lia. f_equal. f_equal. unfold bit_at.
  assert (start + N.of_nat len = (start mod 8 + N.of_nat len) + start / 8 * 8) as ->.
  { pose proof (N.div_mod start 8). lia. }
  rewrite N.div_add, N.Div0.mod_add, N.div_small, N.mod_small by lia.
  rewrite N.add_0_l, Hc. done.
Qed.

(** One byte, all three branches of [next_bits], checked on every byte, offset and length. *)
Definition seqN (n : nat) : list N := N.of_nat <$> seq 0 n.

Lemma elem_of_seqN i n : i < N.of_nat n -> In i (seqN n).
Proof.
  intros H. apply list_elem_of_In, list_elem_of_fmap. exists (N.to_nat i).
  split; [by rewrite N2Nat.id|]. apply elem_of_seq. lia.
Qed.

Lemma byte_table :
  forallb (fun c => forallb (fun s => forallb (fun l =>
    let leftb := 8 - s in
    match l ?= leftb with
    | Eq => N.land (mkmask l) c =? byte_bits c s (N.to_nat l)
    | Lt => N.shiftr (N.land (N.land c (mkmask leftb)) (not_u32 (mkmask (leftb - l)))) (leftb - l)
              =? byte_bits c s (N.to_nat l)
    | Gt => N.land (mkmask leftb) c =? byte_bits c s (N.to_nat leftb)
    end) (seqN 9)) (seqN 8)) (seqN 256) = true.
Proof. vm_compute. reflexivity. Qed.

Lemma byte_table_at c s l : c < 256 -> s < 8 -> l <= 8 ->
  let leftb := 8 - s in
  match l ?= leftb with
  | Eq => N.land (mkmask l) c = byte_bits c s (N.to_nat l)
  | Lt => N.shiftr (N.land (N.land c (mkmask leftb)) (not_u32 (mkmask (leftb - l)))) (leftb - l)
            = byte_bits c s (N.to_nat l)
  | Gt => N.land (mkmask leftb) c = byte_bits c s (N.to_nat leftb)
  end.
Proof.
  intros Hc Hs Hl. pose proof byte_table as T.
  rewrite forallb_forall in T. specialize (T c (elem_of_seqN c 256 ltac:(lia))).
  rewrite forallb_forall in T. specialize (T s (elem_of_seqN s 8 ltac:(lia))).
  rewrite forallb_forall in T. specialize (T l (elem_of_seqN l 9 ltac:(lia))).
  simpl in *. destruct (l ?= 8 - s); by apply N.eqb_eq.
Qed.

Lemma next_bits_spec fuel hb i :
  hashed_key_wf (hb_b hb) -> 0 < i -> i <= 8 -> (N.to_nat i < fuel)%nat -> hb_consumed hb + i <= 256 ->
  next_bits fuel hb i =
    Ok (bits_value (hb_b hb) (hb_consumed hb) (N.to_nat i), mkHashBits (hb_b hb) (hb_consumed hb + i)).
Proof.
  intros [Hlen Hb]. revert hb i Hlen Hb.
  induction fuel as [|fuel IH]; intros [b cons] i Hlen Hb Hi Hi8 Hf Hc; [lia|].
  cbn [hb_b hb_consumed] in *. cbn [next_bits hb_b hb_consumed].
  assert (cons / 8 < 32) as Hq by (apply N.Div0.div_lt_upper_bound; lia).
  destruct (lookup_lt_is_Some_2 b (N.to_nat (cons / 8))) as [c Hcb]; [lia|].
  rewrite Hcb. cbn [or_panic outcome_bind].
  assert (c < 256) by exact (Forall_lookup_1 _ _ _ _ Hb Hcb).
  assert (cons mod 8 < 8) as Hm by by apply N.mod_lt.
  pose proof (byte_table_at c (cons mod 8) i ltac:(done) Hm Hi8) as T. cbv zeta in T.
  destruct (N.compare_spec i (8 - cons mod 8)) as [E|L|G].
  - rewrite T. do 2 f_equal. symmetry. apply bits_value_byte; [done|]. lia.
  - rewrite T. do 2 f_equal. symmetry. apply bits_value_byte; [done|]. lia.
  - set (l := 8 - cons mod 8) in *.
    rewrite (IH (mkHashBits b (cons + l)) (i - l)); cbn [hb_b hb_consumed]; try (done || lia).
    cbn [outcome_bind]. rewrite T. do 2 f_equal; [|f_equal; lia].
    replace (N.to_nat i) with (N.to_nat l + N.to_nat (i - l))%nat by lia.
    rewrite bits_value_app, !N2Nat.id, N.shiftl_mul_pow2.
    rewrite (bits_value_byte b cons c) by (done || lia).
    apply N.mod_small.
    pose proof (bits_value_lt b (cons + l) (N.to_nat (i - l))) as H2.
    pose proof (bits_value_lt b cons (N.to_nat l)) as H1.
    rewrite (bits_value_byte b cons c) in H1 by (done || lia). rewrite N2Nat.id in H1, H2.
    assert (2 ^ (i - l) <= 2 ^ 8) by (apply N.pow_le_mono_r; lia).
    assert (2 ^ l <= 2 ^ 8) by (apply N.pow_le_mono_r; lia).
    change (2 ^ 8) with 256 in *. change (2 ^ 32) with 4294967296. nia.
Qed.

Lemma next_ok b cons i :
  hashed_key_wf b -> 0 < i -> i <= 8 -> cons + i <= 256 ->
  next (mkHashBits b cons) i = Ok (bits_value b cons (N.to_nat i), mkHashBits b (cons + i)).
Proof.
  intros Hb Hi Hi8 Hc. unfold next. cbn [hb_b hb_consumed]. destruct Hb as [Hlen Hb].
  rewrite Hlen. change (N.of_nat (32 * 8)) with 256. change (2 ^ 32) with 4294967296.
  destruct (N.ltb_spec 8 i); [lia|]. destruct (N.leb_spec 4294967296 (cons + i)); [lia|].
  destruct (N.ltb_spec 256 (cons + i)); [lia|].
  rewrite next_bits_spec; simpl; try done; lia.
Qed.

Lemma next_exhausted b cons i :
  hashed_key_wf b -> i <= 8 -> 256 < cons + i < 2 ^ 32 ->
  next (mkHashBits b cons) i = Err MAX_DEPTH_ERROR.
Proof.
  intros [Hlen _] Hi8 [Hc Hc']. unfold next. cbn [hb_b hb_consumed].
  rewrite Hlen. change (N.of_nat (32 * 8)) with 256. change (2 ^ 32) with 4294967296 in *.
  destruct (N.ltb_spec 8 i); [lia|]. destruct (N.leb_spec 4294967296 (cons + i)); [lia|].
  by destruct (N.ltb_spec 256 (cons + i)); [|lia].
Qed.

(** ** The bits determine the hash *)
Lemma bits_value_inj b b' start len : bits_value b start len = bits_value b' start len ->
  forall i, i < N.of_nat len -> bit_at b (start + i) = bit_at b' (start + i).
Proof.
  induction len as [|len IH]; intros E i Hi; [lia|]. cbn [bits_value] in E.
  set (x := bit_at b (start + N.of_nat len)) in *. set (y := bit_at b' (start + N.of_nat len)) in *.
  assert (x = y /\ bits_value b start len = bits_value b' start len) as [Exy E'].
  { destruct x, y; cbn [N.b2n] in E; split; lia || done. }
  destruct (decide (i = N.of_nat len)) as [->|Hne]; [exact Exy|]. apply IH; [done|lia].
Qed.

Lemma bit_at_ext b b' : hashed_key_wf b -> hashed_key_wf b' ->
  (forall q, q < 256 -> bit_at b q = bit_at b' q) -> b = b'.
Proof.
  intros [Hl Hb] [Hl' Hb'] Hext. apply list_eq. intros k. destruct (decide (k < 32)%nat) as [Hk|Hk].
  2: { rewrite !lookup_ge_None_2 by lia. done. }
  destruct (lookup_lt_is_Some_2 b k ltac:(lia)) as [x Hx].
  destruct (lookup_lt_is_Some_2 b' k ltac:(lia)) as [y Hy]. rewrite Hx, Hy. f_equal.
  pose proof (Forall_lookup_1 _ _ _ _ Hb Hx) as Hx'. pose proof (Forall_lookup_1 _ _ _ _ Hb' Hy) as Hy'.
  apply N.bits_inj. intros j. destruct (N.lt_ge_cases j 8) as [Hj|Hj].
  - specialize (Hext ((7 - j) + N.of_nat k * 8) ltac:(lia)). unfold bit_at in Hext.
    rewrite N.div_add, N.Div0.mod_add, N.div_small, N.mod_small, N.add_0_l, Nat2N.id, Hx, Hy in Hext by lia.
    by replace (7 - (7 - j)) with j in Hext by lia.
  - change 256 with (2 ^ 8) in Hx', Hy'.
    assert (forall z, z < 2 ^ 8 -> N.testbit z j = false) as Hz.
    { intros z Hz. rewrite <- (N.mod_small z (2 ^ 8)) by done. by apply N.mod_pow2_bits_high. }
    by rewrite !Hz.
Qed.
