(* ===== verification/BlockStore.v ===== *)
(** * Block storage

    Model of [noosphere-storage]: the primitive [Store] interface
    (store.rs), the content-addressed [BlockStore] on top of it (block.rs,
    encoding.rs), and the in-memory backend (implementation/memory.rs).

    CIDs, multihashes and the IPLD codecs come from third-party crates: they
    are the parameters [CidOps] and [BlockCodec], and what the code relies on
    is stated by [CidLaws] and [BlockCodecLaws].  [BlockStoreLaws] is what the
    clients of a block store (the HAMT, versioned maps, spheres) are promised;
    [memory_block_store_laws] discharges it for the in-memory backend. *)
From stdpp Require Import base gmap list numbers strings.
From S2P Require Import Prelude.
#[local] Open Scope N_scope.

Notation bytes := (list N).

(** ** Third-party parameters *)

(** The [cid] and [multihash] crates: [Cid::new_v1], [Cid::codec],
    [Cid::to_bytes], [Cid::to_string], [TryFrom<&[u8]>], [TryFrom<&str>] and
    [Code::Blake3_256.digest]; and [Codec::references::<Ipld, _>] of the codec with
    the given code in [libipld], the links in a block. *)
Class CidOps (Cid : Type) := {
  cid_new_v1 : N -> bytes -> Cid;
  cid_codec : Cid -> N;
  cid_to_bytes : Cid -> bytes;
  cid_of_bytes : bytes -> option Cid;
  cid_to_string : Cid -> string;
  cid_of_string : string -> outcome Cid;
  blake3_256 : bytes -> bytes;
  references : N -> bytes -> outcome (list Cid);
}.

Definition DAG_CBOR : N := 113.
Definition RAW : N := 85.

Class CidLaws (Cid : Type) `{CidOps Cid} := {
  cid_codec_new : forall codec digest, cid_codec (cid_new_v1 codec digest) = codec;
  cid_new_inj : forall codec, Inj (=) (=) (cid_new_v1 codec);
  cid_to_bytes_inj : Inj (=) (=) cid_to_bytes;
  cid_of_to_bytes : forall c, cid_of_bytes (cid_to_bytes c) = Some c;
  cid_of_to_string : forall c, cid_of_string (cid_to_string c) = Ok c;
  blake3_collision_free : Inj (=) (=) blake3_256;
  references_raw : forall b, references RAW b = Ok [];
}.
#[export] Existing Instances cid_new_inj cid_to_bytes_inj blake3_collision_free.

(** Serde plus the DAG-CBOR codec for one type: [codec.encode(&to_ipld(x)?)]
    and [from_ipld(Ipld::decode(codec, bytes)?)]. *)
Class BlockCodec (T : Type) := {
  block_of : T -> outcome bytes;
  of_block : bytes -> outcome T;
}.

Class BlockCodecLaws (Cid T : Type) `{CidOps Cid} `{BlockCodec T} := {
  block_total : forall x : T, exists b, block_of x = Ok b;
  block_roundtrip : forall (x : T) b, block_of x = Ok b -> of_block b = Ok x;
  block_references : forall (x : T) b, block_of x = Ok b -> exists links : list Cid, references DAG_CBOR b = Ok links;
}.

(** ** The [BlockStore] trait *)
Class BlockStore (S Cid : Type) := {
  put_block : S -> Cid -> bytes -> outcome unit * S;
  get_block : S -> Cid -> outcome (option bytes);
  put_links : S -> N -> Cid -> bytes -> outcome unit * S;
}.

Section block_store.
Context {S Cid : Type} `{CidOps Cid} `{BlockStore S Cid}.

(** [derive_cid] (encoding.rs). *)
Definition derive_cid (codec : N) (block : bytes) : Cid := cid_new_v1 codec (blake3_256 block).

(** The body of [BlockStore::put] once the data is encoded. *)
Definition put_encoded (s : S) (codec : N) (block : bytes) : outcome Cid * S :=
  let cid := derive_cid codec block in
  match put_block s cid block with
  | (Ok _, s') =>
      match put_links s' codec cid block with
      | (Ok _, s'') => (Ok cid, s'')
      | (Err e, s'') => (Err e, s'')
      | (Panic w, s'') => (Panic w, s'')
      | (Diverge, s'') => (Diverge, s'')
      end
  | (Err e, s') => (Err e, s')
  | (Panic w, s') => (Panic w, s')
  | (Diverge, s') => (Diverge, s')
  end.

(** [save::<DagCborCodec, T>]. *)
Definition save {T} `{BlockCodec T} (s : S) (data : T) : outcome Cid * S :=
  let? block := block_of data keeping s in put_encoded s DAG_CBOR block.

(** [load::<DagCborCodec, T>]. *)
Definition load {T} `{BlockCodec T} (s : S) (cid : Cid) : outcome T :=
  if negb (cid_codec cid =? DAG_CBOR) then Err "Incorrect codec"
  else
    let? found := get_block s cid in
    match found with
    | Some block => of_block block
    | None => Err "No block found"
    end.

Definition require_block (s : S) (cid : Cid) : outcome bytes :=
  let? found := get_block s cid in ok_or "Block was required but not found" found.

(** [block_serialize] (encoding.rs). *)
Definition block_serialize {T} `{BlockCodec T} (x : T) : outcome (Cid * bytes) :=
  let? block := block_of x in Ok (derive_cid DAG_CBOR block, block).

(** [s] holds the block [b] under the CID derived from it. *)
Definition authentic (s : S) (c : Cid) (b : bytes) : Prop :=
  get_block s c = Ok (Some b) /\ c = derive_cid (cid_codec c) b.

(** [s'] still answers for every authentic block that [s] holds. *)
Definition store_le (s s' : S) : Prop :=
  forall c b, authentic s c b -> authentic s' c b.

(** [x] is stored, as the block that [save] writes for it, under [c]. *)
Definition stored {T} `{BlockCodec T} (s : S) (c : Cid) (x : T) : Prop :=
  exists b, block_of x = Ok b /\ c = derive_cid DAG_CBOR b /\ get_block s c = Ok (Some b).
End block_store.

(** What a reliable block store promises. *)
Class BlockStoreLaws (S Cid : Type) `{CidOps Cid} `{BlockStore S Cid} := {
  put_block_spec : forall (s : S) (c : Cid) b, exists s', put_block s c b = (Ok tt, s') /\
    get_block s' c = Ok (Some b) /\ forall c', c' <> c -> get_block s' c' = get_block s c';
  put_links_spec : forall (s : S) codec (c : Cid) b (links : list Cid), references codec b = Ok links ->
    exists s', put_links s codec c b = (Ok tt, s') /\ forall c', get_block s' c' = get_block s c';
}.

#[export] Instance store_le_preorder {S Cid} `{CidOps Cid} `{BlockStore S Cid} : PreOrder (@store_le S Cid _ _).
Proof. split; unfold store_le; [intros s c b|intros s1 s2 s3 H12 H23 c b]; auto. Qed.

Section block_store_facts.
Context {S Cid : Type} `{EqDecision Cid} `{CidLaws Cid} `{!BlockStore S Cid} `{!BlockStoreLaws S Cid}.

Lemma derive_cid_inj codec b b' : derive_cid (Cid := Cid) codec b = derive_cid codec b' -> b = b'.
Proof. unfold derive_cid. intros E. by apply (inj _), (inj _) in E. Qed.

Lemma derive_cid_codec codec b : derive_cid (Cid := Cid) (cid_codec (derive_cid (Cid := Cid) codec b)) b
  = derive_cid codec b.
Proof. unfold derive_cid at 2. by rewrite cid_codec_new. Qed.

(** Writing a block succeeds and keeps every authentic block. *)
Lemma put_encoded_spec (s : S) codec b (links : list Cid) : references codec b = Ok links ->
  exists s', put_encoded s codec b = (Ok (derive_cid (Cid := Cid) codec b), s') /\ store_le s s' /\
    authentic s' (derive_cid (Cid := Cid) codec b) b.
Proof.
  intros Hlinks. remember (derive_cid (Cid := Cid) codec b) as c eqn:Hcid.
  destruct (put_block_spec s c b) as (s1 & E1 & Hg1 & Ho1).
  destruct (put_links_spec s1 codec c b links Hlinks) as (s2 & E2 & Hg2).
  exists s2. split_and!.
  - unfold put_encoded. by rewrite <- Hcid, E1, E2.
  - intros c' b' [Hc' Hd]. split; [|done]. rewrite Hg2.
    destruct (decide (c' = c)) as [Heq|Hne]; [|by rewrite Ho1].
    subst c'. rewrite Hg1. do 2 f_equal. apply (derive_cid_inj (cid_codec c)).
    rewrite <- Hd, Hcid. apply derive_cid_codec.
  - split; [by rewrite Hg2|]. rewrite Hcid. symmetry. apply derive_cid_codec.
Qed.

Context {T : Type} `{!BlockCodec T} `{!BlockCodecLaws Cid T}.

Lemma stored_inj {S'} `{!BlockStore S' Cid} (s : S) (s' : S') (c c' : Cid) (x : T) : stored s c x -> stored s' c' x -> c = c'.
Proof. intros (b & Hb & -> & _) (b' & Hb' & -> & _). congruence. Qed.

Lemma stored_authentic (s : S) (c : Cid) (x : T) : stored s c x ->
  exists b, block_of x = Ok b /\ c = derive_cid DAG_CBOR b /\ authentic s c b.
Proof.
  intros (b & Hb & -> & Hg). exists b. split_and!; try done.
  split; [done|]. symmetry. apply derive_cid_codec.
Qed.

Lemma stored_mono (s s' : S) (c : Cid) (x : T) : store_le s s' -> stored s c x -> stored s' c x.
Proof.
  intros Hle Hs. destruct (stored_authentic s c x Hs) as (b & Hb & Hc & Ha).
  exists b. split_and!; try done. by apply Hle.
Qed.

Lemma stored_load (s : S) (c : Cid) (x : T) : stored s c x -> load s c = Ok x.
Proof.
  intros (b & Hb & -> & Hg). unfold load. unfold derive_cid at 1. rewrite cid_codec_new. simpl.
  rewrite Hg. simpl. by apply block_roundtrip.
Qed.

(** Saving succeeds, keeps every stored block, and makes the value loadable. *)
Lemma save_spec (s : S) (x : T) :
  exists c s', save s x = (Ok c, s') /\ store_le s s' /\ stored s' c x.
Proof.
  destruct (block_total x) as [b Hb]. destruct (block_references x b Hb) as [links Hl].
  destruct (put_encoded_spec s DAG_CBOR b links Hl) as (s' & E & Hle & Hg & _).
  exists (derive_cid DAG_CBOR b), s'. unfold save. rewrite Hb. cbn [try_with]. split_and!; [done|done|]. by exists b.
Qed.
End block_store_facts.

(** ** The primitive [Store] trait and the stores built on it *)
Class Store (S : Type) := {
  store_read : S -> bytes -> outcome (option bytes);
  store_write : S -> bytes -> bytes -> outcome (option bytes) * S;
  store_remove : S -> bytes -> outcome (option bytes) * S;
}.

(** [impl<S: Store> BlockStore for S]; [put_links] keeps its no-op default. *)
Definition store_put_block {S Cid} `{CidOps Cid} `{Store S} (s : S) (cid : Cid) (block : bytes)
    : outcome unit * S :=
  let '(r, s') := store_write s (cid_to_bytes cid) block in (outcome_map (fun _ => tt) r, s').

Definition store_get_block {S Cid} `{CidOps Cid} `{Store S} (s : S) (cid : Cid) : outcome (option bytes) :=
  store_read s (cid_to_bytes cid).

#[export] Instance block_store_of_store {S Cid} `{CidOps Cid} `{Store S} : BlockStore S Cid := {
  put_block := store_put_block;
  get_block := store_get_block;
  put_links s _ _ _ := (Ok tt, s);
}.

(** [impl<S: Store> KeyValueStore for S]. *)
Section key_value.
Context {S : Type} `{Store S} {V : Type} `{BlockCodec V}.

Definition set_key (s : S) (key : bytes) (value : V) : outcome unit * S :=
  let? cbor := block_of value keeping s in
  let '(r, s') := store_write s key cbor in (outcome_map (fun _ => tt) r, s').

Definition get_key (s : S) (key : bytes) : outcome (option V) :=
  let? found := store_read s key in
  match found with
  | Some b => let? v := of_block b in Ok (Some v)
  | None => Ok None
  end.

Definition require_key (s : S) (key : bytes) : outcome V :=
  let? found := get_key s key in ok_or "No value found" found.
End key_value.

Definition unset_key {S} `{Store S} (s : S) (key : bytes) : outcome unit * S :=
  let '(r, s') := store_remove s key in (outcome_map (fun _ => tt) r, s').

(** ** The in-memory backend *)
Record MemoryStore := mkMemoryStore { entries : gmap bytes bytes }.

Definition memory_read (s : MemoryStore) (key : bytes) : outcome (option bytes) :=
  Ok (entries s !! key).

Definition memory_write (s : MemoryStore) (key value : bytes) : outcome (option bytes) * MemoryStore :=
  let old_value := entries s !! key in
  (Ok old_value, mkMemoryStore (<[key := value]> (entries s))).

Definition memory_remove (s : MemoryStore) (key : bytes) : outcome (option bytes) * MemoryStore :=
  (Ok (entries s !! key), mkMemoryStore (delete key (entries s))).

#[export] Instance memory_store : Store MemoryStore := {
  store_read := memory_read;
  store_write := memory_write;
  store_remove := memory_remove;
}.

Definition memory_store_empty : MemoryStore := mkMemoryStore ∅.

#[export] Instance memory_block_store_laws {Cid} `{CidLaws Cid} : BlockStoreLaws MemoryStore Cid.
Proof.
  split.
  - intros s c b. eexists. split; [done|]. simpl. unfold store_get_block. simpl.
    unfold memory_read. simpl. rewrite lookup_insert_eq. split; [done|].
    intros c' Hne. rewrite lookup_insert_ne; [done|]. intros E. apply Hne. by apply (inj _) in E.
  - intros s codec c b links _. by eexists.
Qed.

(** A key that was set reads back, and no other key changes. *)
Lemma memory_set_get_key {Cid V} `{BlockCodecLaws Cid V} (s : MemoryStore) key (v : V) :
  exists s', set_key s key v = (Ok tt, s') /\ get_key s' key = Ok (Some v) /\
    forall key', key' <> key -> entries s' !! key' = entries s !! key'.
Proof.
  destruct (block_total v) as [b Hb]. unfold set_key, get_key. rewrite Hb. simpl.
  eexists. split; [done|]. simpl. unfold memory_read. simpl. rewrite lookup_insert_eq.
  rewrite (block_roundtrip v b Hb). split; [done|]. intros key' Hne. by rewrite lookup_insert_ne.
Qed.
