(* ===== verification/HamtNode.v ===== *)
(** * HAMT nodes

    Model of [noosphere-collections/src/hamt/node.rs], [pointer.rs] and
    [key_value_pair.rs]: nodes, pointers, their wire format and every
    operation of a node.  An operation on [&mut self] returns its result
    together with the node it leaves behind, also when it fails; reads do the
    same, because a read fills the caches of the links it follows.

    The [depth] counters of the code only count recursive calls and are left
    out.  The recursion follows the hash of the key, so every recursive
    function takes fuel; [HamtProofs] shows that as many units as there are
    levels are enough. *)
From stdpp Require Import base gmap list numbers strings sorting.
From S2P Require Import Prelude Bitfield BlockStore.

(** Parameters of the map: [H::hash] and [PartialOrd] on keys. *)
Class HashAlgorithm (K : Type) := hamt_hash : K -> HashedKey.
Class KeyOrder (K : Type) := key_ltb : K -> K -> bool.

Definition MAX_ARRAY_WIDTH : nat := 3.

Section node.
Context {K V Cid S : Type}.

Inductive pointer : Type :=
  | Values (vals : list (K * V))
  | Link (cid : Cid) (cache : option node)
  | Dirty (n : node)
with node : Type :=
  | Node (bitfield : Bitfield) (pointers : list pointer).

Definition node_bitfield (n : node) : Bitfield := let 'Node b _ := n in b.
Definition node_pointers (n : node) : list pointer := let 'Node _ ps := n in ps.

(** [impl Default for Node] and [impl Default for Pointer]. *)
Definition node_default : node := Node bitfield_zero [].
Definition pointer_default : pointer := Values [].

(** ** Wire format: what serde hands to the codec *)
Inductive wire_pointer : Type :=
  | WValues (vals : list (K * V))
  | WLink (cid : Cid).

Record wire_node := mkWireNode { wn_bitfield : bytes; wn_pointers : list wire_pointer }.

Definition pointer_serialize (p : pointer) : outcome wire_pointer :=
  match p with
  | Values vals => Ok (WValues vals)
  | Link cid _ => Ok (WLink cid)
  | Dirty _ => Err "Cannot serialize cached values"
  end.

Definition pointer_deserialize (w : wire_pointer) : pointer :=
  match w with
  | WValues vals => Values vals
  | WLink cid => Link cid None
  end.

Definition node_serialize (n : node) : outcome wire_node :=
  let? b := bitfield_serialize (node_bitfield n) in
  let? ps := try_map pointer_serialize (node_pointers n) in
  Ok (mkWireNode b ps).

Definition node_deserialize (w : wire_node) : outcome node :=
  let? b := bitfield_deserialize (wn_bitfield w) in
  Ok (Node b (pointer_deserialize <$> wn_pointers w)).

(** ** Operations *)
Context `{EqDecision K} `{EqDecision V} `{HashAlgorithm K} `{KeyOrder K}.
Context `{CidOps Cid} `{BlockStore S Cid} `{BlockCodec wire_node}.

(** [store.load::<DagCborCodec, Node>(cid)] and [store.save::<DagCborCodec, Node>(&node)]. *)
Definition load_node (s : S) (cid : Cid) : outcome node :=
  let? w := load (T := wire_node) s cid in node_deserialize w.

Definition save_node (s : S) (n : node) : outcome Cid * S :=
  let? w := node_serialize n keeping s in save s w.

Definition from_key_value (key : K) (value : V) : pointer := Values [(key, value)].

Definition get_child (n : node) (i : nat) : outcome pointer :=
  or_panic "index out of bounds" (node_pointers n !! i).

(** Writing through the reference that [get_child_mut] returns. *)
Definition set_child (n : node) (i : nat) (p : pointer) : node :=
  Node (node_bitfield n) (<[i := p]> (node_pointers n)).

Definition insert_child (n : node) (idx : N) (key : K) (value : V) : outcome node :=
  let? i := index_for_bit_pos (node_bitfield n) idx in
  let? b := set_bit (node_bitfield n) idx in
  let? ps := vec_insert i (from_key_value key value) (node_pointers n) in
  Ok (Node b ps).

Definition rm_child (n : node) (i : nat) (idx : N) : outcome (pointer * node) :=
  let? b := clear_bit (node_bitfield n) idx in
  let? (p, ps) := vec_remove i (node_pointers n) in
  Ok (p, Node b ps).

Definition node_is_empty (n : node) : bool :=
  match node_pointers n with [] => true | _ => false end.

(** [Pointer::clean]. *)
Definition values_of (p : pointer) : option (list (K * V)) :=
  match p with Values vals => Some vals | _ => None end.

(** The loop that adds up the lengths; [None] is the early [return Ok(())] on a
    pointer that is not [Values]. *)
Fixpoint children_len (ps : list pointer) : option nat :=
  match ps with
  | [] => Some 0
  | Values vals :: ps' => (fun n => length vals + n) <$> children_len ps'
  | _ :: _ => None
  end.

Definition key_le (a b : K * V) : Prop := key_ltb b.1 a.1 = false.

#[export] Instance key_le_dec : RelDecision key_le.
Proof. intros a b. unfold key_le. apply _. Defined.

Definition clean (self : pointer) : outcome unit * pointer :=
  match self with
  | Dirty n =>
      match length (node_pointers n) with
      | 0 => (Err "Node has 0 pointers; invalid HAMT format", self)
      | 1 =>
          match node_pointers n with
          | Values vals :: _ => (Ok tt, Values vals)
          | _ => (Ok tt, self)
          end
      | len =>
          if decide (len <= MAX_ARRAY_WIDTH) then
            match children_len (node_pointers n) with
            | None => (Ok tt, self)
            | Some total =>
                if decide (MAX_ARRAY_WIDTH < total) then (Ok tt, self)
                else
                  let child_vals := mjoin (omap values_of (node_pointers n)) in
                  (Ok tt, Values (merge_sort key_le child_vals))
            end
          else (Ok tt, self)
      end
  | _ => (Panic "clean is only called on dirty pointer", self)
  end.

Fixpoint get_value (fuel : nat) (s : S) (self : node) (hashed_key : HashBits) (bit_width : N) (key : K)
    : outcome (option (K * V)) * node :=
  match fuel with
  | O => (Diverge, self)
  | Datatypes.S fuel' =>
      let? (idx, hashed_key) := next hashed_key bit_width keeping self in
      let? present := test_bit (node_bitfield self) idx keeping self in
      if negb present then (Ok None, self)
      else
        let? cindex := index_for_bit_pos (node_bitfield self) idx keeping self in
        let? child := get_child self cindex keeping self in
        match child with
        | Link cid (Some cached_node) =>
            let '(r, cached_node') := get_value fuel' s cached_node hashed_key bit_width key in
            (r, set_child self cindex (Link cid (Some cached_node')))
        | Link cid None =>
            let? node := load_node s cid keeping self in
            let '(r, cache_node) := get_value fuel' s node hashed_key bit_width key in
            (r, set_child self cindex (Link cid (Some cache_node)))
        | Dirty n =>
            let '(r, n') := get_value fuel' s n hashed_key bit_width key in
            (r, set_child self cindex (Dirty n'))
        | Values vals => (Ok (snd <$> list_find (fun kv => key = kv.1) vals), self)
        end
  end.

Fixpoint modify_value (fuel : nat) (s : S) (self : node) (hashed_key : HashBits) (bit_width : N)
    (key : K) (value : V) (overwrite : bool) : outcome (option V * bool) * node :=
  match fuel with
  | O => (Diverge, self)
  | Datatypes.S fuel' =>
      let? (idx, hashed_key) := next hashed_key bit_width keeping self in
      let? present := test_bit (node_bitfield self) idx keeping self in
      if negb present then
        let? self' := insert_child self idx key value keeping self in (Ok (None, true), self')
      else
        let? cindex := index_for_bit_pos (node_bitfield self) idx keeping self in
        let? child := get_child self cindex keeping self in
        match child with
        | Link cid cache =>
            let? child_node := match cache with Some n => Ok n | None => load_node s cid end keeping self in
            let '(r, child_node') :=
              modify_value fuel' s child_node hashed_key bit_width key value overwrite in
            let filled := set_child self cindex (Link cid (Some child_node')) in
            let? (old, modified) := r keeping filled in
            if (modified : bool) then (Ok (old, modified), set_child self cindex (Dirty child_node'))
            else (Ok (old, modified), filled)
        | Dirty n =>
            let '(r, n') := modify_value fuel' s n hashed_key bit_width key value overwrite in
            (r, set_child self cindex (Dirty n'))
        | Values vals =>
            match list_find (fun p => p.1 = key) vals with
            | Some (i, p) =>
                if overwrite then
                  let value_changed := bool_decide (p.2 <> value) in
                  (Ok (Some p.2, value_changed),
                   set_child self cindex (Values (<[i := (p.1, value)]> vals)))
                else (Ok (None, false), self)
            | None =>
                if decide (MAX_ARRAY_WIDTH <= length vals) then
                  let consumed := hb_consumed hashed_key in
                  let '(r, sub) :=
                    modify_value fuel' s node_default hashed_key bit_width key value overwrite in
                  let? modified := r keeping self in
                  let emptied := set_child self cindex (Values []) in
                  let '(r', sub') :=
                    for_each_st (fun p sub =>
                      let '(r, sub') := modify_value fuel' s sub
                        (new_at_index (hamt_hash p.1) consumed) bit_width p.1 p.2 overwrite in
                      (outcome_map (fun _ => tt) r, sub')) vals sub in
                  let? _ := r' keeping emptied in
                  (Ok modified, set_child self cindex (Dirty sub'))
                else
                  let max := length vals in
                  let idx := default max (position (fun c => key_ltb key c.1) vals) in
                  let? vals' := vec_insert idx (key, value) vals keeping self in
                  (Ok (None, true), set_child self cindex (Values vals'))
            end
        end
  end.

Fixpoint rm_value (fuel : nat) (s : S) (self : node) (hashed_key : HashBits) (bit_width : N) (key : K)
    : outcome (option (K * V)) * node :=
  match fuel with
  | O => (Diverge, self)
  | Datatypes.S fuel' =>
      let? (idx, hashed_key) := next hashed_key bit_width keeping self in
      let? present := test_bit (node_bitfield self) idx keeping self in
      if negb present then (Ok None, self)
      else
        let? cindex := index_for_bit_pos (node_bitfield self) idx keeping self in
        let? child := get_child self cindex keeping self in
        match child with
        | Link cid cache =>
            let? child_node := match cache with Some n => Ok n | None => load_node s cid end keeping self in
            let '(r, child_node') := rm_value fuel' s child_node hashed_key bit_width key in
            let filled := set_child self cindex (Link cid (Some child_node')) in
            let? deleted := r keeping filled in
            match deleted with
            | Some _ =>
                let '(r', child') := clean (Dirty child_node') in
                let? _ := r' keeping set_child self cindex child' in
                (Ok deleted, set_child self cindex child')
            | None => (Ok deleted, filled)
            end
        | Dirty n =>
            let '(r, n') := rm_value fuel' s n hashed_key bit_width key in
            let? deleted := r keeping set_child self cindex (Dirty n') in
            let '(r', child') := clean (Dirty n') in
            let? _ := r' keeping set_child self cindex child' in
            (Ok deleted, set_child self cindex child')
        | Values vals =>
            match list_find (fun p => key = p.1) vals with
            | Some (i, _) =>
                if decide (length vals = 1) then
                  let? (p, self') := rm_child self cindex idx keeping self in
                  match p with
                  | Values (old :: _) => (Ok (Some old), self')
                  | Values [] => (Panic "called `Option::unwrap()` on a `None` value", self')
                  | _ => (Panic "internal error: entered unreachable code", self')
                  end
                else
                  let? (old, vals') := vec_remove i vals keeping self in
                  (Ok (Some old), set_child self cindex (Values vals'))
            | None => (Ok None, self)
            end
        end
  end.

(** [Node::flush]: dirty children are flushed, saved, and become links that keep
    the flushed node as their cache. *)
Fixpoint flush (self : node) (st : S) {struct self} : outcome unit * (node * S) :=
  match self with
  | Node b ps =>
      let flush_pointers := fix flush_pointers (ps : list pointer) (st : S)
          : outcome unit * (list pointer * S) :=
        match ps with
        | [] => (Ok tt, ([], st))
        | p :: ps' =>
            match p with
            | Dirty n =>
                let '(r, (n', st1)) := flush n st in
                let? _ := r keeping (Dirty n' :: ps', st1) in
                let '(rc, st2) := save_node st1 n' in
                let? cid := rc keeping (Dirty n' :: ps', st2) in
                let '(r', (ps'', st3)) := flush_pointers ps' st2 in
                (r', (Link cid (Some n') :: ps'', st3))
            | _ =>
                let '(r', (ps'', st')) := flush_pointers ps' st in (r', (p :: ps'', st'))
            end
        end in
      let '(r, (ps', st')) := flush_pointers ps st in (r, (Node b ps', st'))
  end.

(** [Node::stream]: the entries yielded, how the stream ended, and the node with
    the caches the iteration filled. *)
Definition stream_pointer (rec : node -> list (K * V) * outcome unit * node) (s : S) (p : pointer)
    : list (K * V) * outcome unit * pointer :=
  match p with
  | Link cid (Some cached_node) =>
      let '(items, r, n') := rec cached_node in (items, r, Link cid (Some n'))
  | Link cid None =>
      match load_node s cid with
      | Ok n => let '(items, r, n') := rec n in (items, r, Link cid (Some n'))
      | Err e => ([], Err e, p)
      | Panic w => ([], Panic w, p)
      | Diverge => ([], Diverge, p)
      end
  | Dirty n => let '(items, r, n') := rec n in (items, r, Dirty n')
  | Values kvs => (kvs, Ok tt, p)
  end.

Fixpoint stream_pointers (rec : node -> list (K * V) * outcome unit * node) (s : S) (ps : list pointer)
    : list (K * V) * outcome unit * list pointer :=
  match ps with
  | [] => ([], Ok tt, [])
  | p :: ps' =>
      let '(items, r, p') := stream_pointer rec s p in
      match r with
      | Ok _ => let '(items', r', ps'') := stream_pointers rec s ps' in (items ++ items', r', p' :: ps'')
      | failure => (items, failure, p' :: ps')
      end
  end.

Fixpoint stream (fuel : nat) (s : S) (self : node) : list (K * V) * outcome unit * node :=
  match fuel with
  | O => ([], Diverge, self)
  | Datatypes.S fuel' =>
      let '(items, r, ps) := stream_pointers (stream fuel' s) s (node_pointers self) in
      (items, r, Node (node_bitfield self) ps)
  end.

(** [Node::into_stream]: a work list of pointers, popped from the end. *)
Fixpoint into_stream (fuel : nat) (s : S) (remaining : list pointer) : list (K * V) * outcome unit :=
  match vec_pop remaining with
  | None => ([], Ok tt)
  | Some (p, remaining') =>
      match fuel with
      | O => ([], Diverge)
      | Datatypes.S fuel' =>
          match p with
          | Dirty n => into_stream fuel' s (remaining' ++ node_pointers n)
          | Link cid cache =>
              match match cache with Some n => Ok n | None => load_node s cid end with
              | Ok n => into_stream fuel' s (remaining' ++ node_pointers n)
              | Err e => ([], Err e)
              | Panic w => ([], Panic w)
              | Diverge => ([], Diverge)
              end
          | Values kvs =>
              let '(items, r) := into_stream fuel' s remaining' in (kvs ++ items, r)
          end
      end
  end.
End node.

Arguments pointer : clear implicits.
Arguments node : clear implicits.
Arguments wire_pointer : clear implicits.
Arguments wire_node : clear implicits.
