(* ===== verification/HamtRep.v ===== *)
(** * Ordered arrays of key/value pairs

    Facts about the [Values] arrays of a HAMT node: a strictly increasing array
    of pairs, the finite map it stands for, and what searching, replacing,
    ordered insertion, removal and sorting do to both.

    The representation relation between a node (with its links, caches and
    dirty children) over a block store and a finite map, and how it behaves
    when a child is replaced, added or removed.  It carries the canonical-form
    invariant of the structure: every array is in key order and holds one to
    three entries, and a subtree holds at least four. *)
From stdpp Require Import base gmap list numbers sorting.
From S2P Require Import Prelude HamtNode Bitfield BlockStore.

Class KeyOrderLaws (K : Type) `{KeyOrder K} := {
  key_ltb_irrefl : forall k, key_ltb k k = false;
  key_ltb_trans : forall a b c, key_ltb a b = true -> key_ltb b c = true -> key_ltb a c = true;
  key_ltb_total : forall a b, key_ltb a b = false -> key_ltb b a = false -> a = b;
}.

Section vals.
Context {K V : Type} `{Countable K} `{KeyOrderLaws K}.
Implicit Types (vals : list (K * V)) (m : gmap K V).

Definition key_lt (a b : K * V) : Prop := key_ltb a.1 b.1 = true.

Lemma key_lt_trans a b c : key_lt a b -> key_lt b c -> key_lt a c.
Proof. apply key_ltb_trans. Qed.

Lemma key_lt_ne a b : key_lt a b -> a.1 <> b.1.
Proof. unfold key_lt. intros Hlt E. rewrite E, key_ltb_irrefl in Hlt. done. Qed.

Definition ordered vals : Prop := StronglySorted key_lt vals.

Lemma ordered_NoDup vals : ordered vals -> NoDup vals.*1.
Proof.
  induction 1 as [|p vals Hs IH Hall]; [constructor|].
  simpl. constructor; [|done]. rewrite list_elem_of_fmap. intros (q & E & Hq).
  rewrite Forall_forall in Hall. exact (key_lt_ne _ _ (Hall q Hq) E).
Qed.

(** The array [vals] lists the entries of [m] in key order. *)
Definition vals_rep vals m : Prop := ordered vals /\ m = list_to_map vals.

Lemma vals_rep_perm vals m : vals_rep vals m -> map_to_list m ≡ₚ vals.
Proof. intros [Ho ->]. apply map_to_list_to_map. by apply ordered_NoDup. Qed.

Lemma vals_rep_size vals m : vals_rep vals m -> size m = length vals.
Proof. intros [Ho ->]. apply map_size_list_to_map. by apply ordered_NoDup. Qed.

Lemma vals_rep_lookup vals m k v : vals_rep vals m -> m !! k = Some v <-> (k, v) ∈ vals.
Proof.
  intros [Ho ->]. symmetry. apply elem_of_list_to_map. by apply ordered_NoDup.
Qed.

(** Two arrays in key order for the same map are the same array. *)
Lemma vals_rep_unique vals vals' m : vals_rep vals m -> vals_rep vals' m -> vals = vals'.
Proof.
  intros Hv Hv'. pose proof (vals_rep_perm _ _ Hv) as P. rewrite (vals_rep_perm _ _ Hv') in P.
  destruct Hv as [Ho _], Hv' as [Ho' _].
  eapply (StronglySorted_unique_strong key_lt); [|exact Ho|exact Ho'|by symmetry].
  intros x y _ _ Hxy Hyx. pose proof (key_lt_trans _ _ _ Hxy Hyx) as Hc. by apply key_lt_ne in Hc.
Qed.

(** Looking a key up in the array. *)
Lemma vals_find_key vals m k :
  vals_rep vals m ->
  match list_find (fun kv : K * V => kv.1 = k) vals with
  | Some (i, kv) => vals !! i = Some kv /\ kv.1 = k /\ m !! k = Some kv.2
  | None => m !! k = None
  end.
Proof.
  intros Hv. destruct (list_find _ vals) as [[i [k' v]]|] eqn:E.
  - apply list_find_Some in E as (Hi & Hk & _). simpl in Hk. subst k'. split_and!; try done.
    apply (vals_rep_lookup _ _ _ _ Hv). by apply list_elem_of_lookup_2 in Hi.
  - destruct (m !! k) as [v|] eqn:Em; [|done]. apply (vals_rep_lookup _ _ _ _ Hv) in Em.
    apply list_find_None in E. rewrite Forall_forall in E. by destruct (E _ Em).
Qed.

Lemma ordered_insert_eq vals i p v :
  vals !! i = Some p -> ordered vals -> ordered (<[i := (p.1, v)]> vals).
Proof.
  revert i. induction vals as [|q vals IH]; intros [|i] Hp Ho; simplify_eq/=.
  - inversion Ho as [|? ? Hs Hall]; subst. by constructor.
  - inversion Ho as [|? ? Hs Hall]; subst. constructor; [by apply IH|].
    apply Forall_insert; [done|]. exact (Forall_lookup_1 _ _ _ _ Hall Hp).
Qed.

Lemma vals_rep_replace vals m i p v :
  vals !! i = Some p -> vals_rep vals m -> vals_rep (<[i := (p.1, v)]> vals) (<[p.1 := v]> m).
Proof.
  intros Hp Hv. destruct Hv as [Ho Hm]. pose proof (ordered_insert_eq vals i p v Hp Ho) as Ho'.
  split; [done|]. subst m.
  revert Hp Ho'. clear Ho. revert i. induction vals as [|[k' v'] vals IH]; intros [|i] Hp Ho'; simplify_eq/=.
  - by rewrite insert_insert_eq.
  - rewrite <- IH; [|done|by inversion Ho'].
    apply insert_insert_ne. intros E. apply ordered_NoDup in Ho'. simpl in Ho'.
    apply NoDup_cons in Ho' as [Hni _]. apply Hni. apply list_elem_of_fmap. exists (p.1, v).
    split; [simpl; congruence|]. apply list_elem_of_lookup. exists i. apply list_lookup_insert_eq.
    by eapply lookup_lt_Some.
Qed.

(** The array after inserting before the first larger key. *)
Definition insert_at vals k (v : V) : list (K * V) :=
  let i := default (length vals) (position (fun c => key_ltb k c.1) vals) in
  take i vals ++ (k, v) :: drop i vals.

Lemma position_le {A} (f : A -> bool) (l : list A) : default (length l) (position f l) <= length l.
Proof.
  induction l as [|x l IH]; simpl; [done|]. destruct (f x); simpl; [lia|].
  destruct (position f l); simpl in *; lia.
Qed.

Lemma vec_insert_position vals k v :
  vec_insert (default (length vals) (position (fun c => key_ltb k c.1) vals)) (k, v) vals
    = Ok (insert_at vals k v).
Proof. unfold vec_insert. case_decide as E; [done|]. destruct E. apply position_le. Qed.

Lemma insert_at_cons q vals k v :
  insert_at (q :: vals) k v =
    if key_ltb k q.1 then (k, v) :: q :: vals else q :: insert_at vals k v.
Proof.
  unfold insert_at. simpl. destruct (key_ltb k q.1); [done|].
  by destruct (position _ vals).
Qed.

Lemma insert_at_perm vals k v : insert_at vals k v ≡ₚ (k, v) :: vals.
Proof.
  induction vals as [|q vals IH]; [done|]. rewrite insert_at_cons.
  destruct (key_ltb k q.1); [done|]. rewrite IH. constructor.
Qed.

Lemma insert_at_ordered vals k v :
  ordered vals -> k ∉ vals.*1 -> ordered (insert_at vals k v).
Proof.
  induction 1 as [|q vals Hs IH Hall]; intros Hk; [repeat constructor|].
  rewrite insert_at_cons. simpl in Hk. apply not_elem_of_cons in Hk as [Hkq Hk].
  destruct (key_ltb k q.1) eqn:E.
  - constructor; [by constructor|]. constructor; [done|].
    eapply Forall_impl; [exact Hall|]. intros x Hx. by apply (key_lt_trans (k, v) q x).
  - constructor; [by apply IH|]. rewrite insert_at_perm. constructor; [|done].
    unfold key_lt. simpl. destruct (key_ltb q.1 k) eqn:E'; [done|].
    by destruct Hkq; apply key_ltb_total.
Qed.

Lemma vals_rep_insert vals m k v :
  vals_rep vals m -> m !! k = None -> vals_rep (insert_at vals k v) (<[k := v]> m).
Proof.
  intros [Ho ->] Hk. apply not_elem_of_list_to_map in Hk. split.
  - by apply insert_at_ordered.
  - change (<[k := v]> (list_to_map vals)) with (list_to_map ((k, v) :: vals) : gmap K V).
    symmetry. apply list_to_map_proper; [|apply insert_at_perm].
    rewrite insert_at_perm. simpl. constructor; [done|]. by apply ordered_NoDup.
Qed.

Lemma ordered_remove vals i : ordered vals -> ordered (take i vals ++ drop (S i) vals).
Proof.
  intros Ho. revert i. induction Ho as [|q vals Hs IH Hall]; intros [|i]; simpl; try constructor.
  - by rewrite drop_0.
  - apply IH.
  - apply Forall_app. split; [by apply Forall_take|by apply Forall_drop].
Qed.

Lemma vals_rep_remove vals m i p :
  vals !! i = Some p -> vals_rep vals m ->
  vec_remove i vals = Ok (p, take i vals ++ drop (S i) vals) /\
  vals_rep (take i vals ++ drop (S i) vals) (delete p.1 m).
Proof.
  intros Hp [Ho ->]. unfold vec_remove. rewrite Hp. split; [done|]. split; [by apply ordered_remove|].
  pose proof (take_drop_middle vals i p Hp) as Hm.
  assert (NoDup (p.1 :: (take i vals ++ drop (S i) vals).*1)) as Hnd.
  { pose proof (ordered_NoDup vals Ho) as Hnd. rewrite <- Hm in Hnd.
    rewrite fmap_app, fmap_cons in *. by rewrite <- Permutation_middle in Hnd. }
  rewrite <- Hm at 1. destruct p as [k v]. simpl in *. apply NoDup_cons in Hnd as [Hni Hnd].
  rewrite (list_to_map_proper (take i vals ++ (k, v) :: drop (S i) vals)
             ((k, v) :: take i vals ++ drop (S i) vals)).
  - simpl. rewrite delete_insert_id; [done|]. by apply not_elem_of_list_to_map.
  - rewrite <- Permutation_middle. simpl. by constructor.
  - by rewrite Permutation_middle.
Qed.

Lemma vals_rep_length_remove vals i p :
  vals !! i = Some p -> length (take i vals ++ drop (S i) vals) = length vals - 1.
Proof.
  intros Hp. apply lookup_lt_Some in Hp. rewrite length_app, length_take, length_drop. lia.
Qed.

(** Sorting any listing of the entries gives the array in key order. *)
Lemma vals_rep_sort l m :
  map_to_list m ≡ₚ l -> vals_rep (merge_sort key_le l) m.
Proof.
  intros Hl.
  assert (merge_sort key_le l ≡ₚ l) as Hp by apply merge_sort_Permutation.
  assert (NoDup (merge_sort key_le l).*1) as Hnd.
  { rewrite Hp, <- Hl. apply NoDup_fst_map_to_list. }
  assert (StronglySorted key_le (merge_sort key_le l)) as Hs.
  { apply StronglySorted_merge_sort.
    - intros a b c. unfold key_le. intros Hab Hbc. destruct (key_ltb c.1 a.1) eqn:E; [|done].
      destruct (key_ltb a.1 b.1) eqn:Eab.
      + by rewrite (key_ltb_trans _ _ _ E Eab) in Hbc.
      + rewrite (key_ltb_total _ _ Eab Hab) in E. congruence.
    - intros a b. unfold key_le. destruct (key_ltb b.1 a.1) eqn:E; [|by left]. right.
      destruct (key_ltb a.1 b.1) eqn:E'; [|done].
      pose proof (key_ltb_trans _ _ _ E E') as C. by rewrite key_ltb_irrefl in C. }
  split.
  - revert Hnd Hs. generalize (merge_sort key_le l). clear Hl Hp.
    induction 2 as [|q vals Hs IH Hall]; [constructor|]. simpl in Hnd.
    apply NoDup_cons in Hnd as [Hq Hnd]. constructor; [by apply IH|].
    apply Forall_forall. intros x Hx. rewrite Forall_forall in Hall. specialize (Hall x Hx).
    unfold key_lt, key_le in *. destruct (key_ltb q.1 x.1) eqn:E; [done|].
    destruct Hq. rewrite (key_ltb_total _ _ E Hall). by apply list_elem_of_fmap_2.
  - rewrite <- (list_to_map_proper l); [|by rewrite <- Hl; apply NoDup_fst_map_to_list|by symmetry].
    by apply list_to_map_flip.
Qed.

Lemma map_to_list_union_disjoint (m1 m2 : gmap K V) :
  m1 ##ₘ m2 -> map_to_list (m1 ∪ m2) ≡ₚ map_to_list m1 ++ map_to_list m2.
Proof.
  intros Hd. apply NoDup_Permutation.
  - apply NoDup_map_to_list.
  - apply NoDup_app. split_and!; try apply NoDup_map_to_list.
    intros [k v]. rewrite !elem_of_map_to_list. intros E1 E2.
    rewrite map_disjoint_spec in Hd. by apply (Hd k v v).
  - intros [k v]. rewrite elem_of_app, !elem_of_map_to_list. by apply lookup_union_Some.
Qed.
End vals.

(** ** What a HAMT node represents *)
Class HashAlgorithmLaws (K : Type) `{HashAlgorithm K} := {
  hamt_hash_wf : forall k, hashed_key_wf (hamt_hash k);
}.

Section rep.
Context {K V Cid S : Type}.
Context `{Countable K} `{EqDecision V} `{KeyOrderLaws K} `{HashAlgorithmLaws K}.
Context `{CidLaws Cid} `{EqDecision Cid} `{!BlockStore S Cid} `{!BlockStoreLaws S Cid}.
Context `{!BlockCodec (wire_node K V Cid)} `{!BlockCodecLaws Cid (wire_node K V Cid)}.
Context (bit_width : N).
Notation node := (node K V Cid).
Notation pointer := (pointer K V Cid).
Implicit Types (n : node) (p : pointer) (m : gmap K V) (s : S) (k : K) (d r : nat).

(** ** Levels of the tree *)
Definition levels : nat := N.to_nat (256 / bit_width).

(** The part of the hash of [k] that selects a child at depth [d]. *)
Definition chunk k d : N :=
  bits_value (hamt_hash k) (N.of_nat d * bit_width) (N.to_nat bit_width).

(** The entries of [m] below child [i] of a node at depth [d]. *)
Definition bucket d (i : N) m : gmap K V := filter (fun kv => chunk kv.1 d = i) m.

(** ** Representation *)
Definition pointer_rep (R : node -> gmap K V -> Prop) s p m : Prop :=
  match p with
  | Values vals => vals <> [] /\ length vals <= MAX_ARRAY_WIDTH /\ vals_rep vals m
  | Dirty n => MAX_ARRAY_WIDTH < size m /\ R n m
  | Link c cache =>
      MAX_ARRAY_WIDTH < size m /\
      (exists w n, stored s c w /\ node_serialize n = Ok w /\ node_deserialize w = Ok n /\ R n m) /\
      match cache with Some n => R n m | None => True end
  end.

(** [node_rep r s d n m]: a node at depth [d], with [r] levels left below and
    including it, represents [m] over the store [s]. *)
Fixpoint node_rep r s d n m {struct r} : Prop :=
  match r with
  | O => False
  | Datatypes.S r' =>
      bf_wf (node_bitfield n) /\
      length (node_pointers n) = rank (node_bitfield n) 256 /\
      forall i, (i < 256)%N ->
        if mem (node_bitfield n) i then
          exists p, node_pointers n !! rank (node_bitfield n) i = Some p /\
            pointer_rep (node_rep r' s (Datatypes.S d)) s p (bucket d i m)
        else bucket d i m = ∅
  end.

(** ** Buckets *)
Lemma bucket_lookup d i m k :
  bucket d i m !! k = if decide (chunk k d = i) then m !! k else None.
Proof.
  unfold bucket. rewrite map_lookup_filter. case_decide as E.
  - destruct (m !! k) as [v|] eqn:Em; simpl; [|done]. by case_guard.
  - destruct (m !! k) as [v|] eqn:Em; simpl; [|done]. by case_guard.
Qed.

Lemma bucket_same d m k : bucket d (chunk k d) m !! k = m !! k.
Proof. rewrite bucket_lookup. by case_decide. Qed.

Lemma bucket_insert d m k v : bucket d (chunk k d) (<[k := v]> m) = <[k := v]> (bucket d (chunk k d) m).
Proof.
  apply map_eq. intros k'. rewrite bucket_lookup. destruct (decide (k = k')) as [->|Hne].
  - rewrite !lookup_insert_eq. by case_decide.
  - rewrite !lookup_insert_ne by done. by rewrite bucket_lookup.
Qed.

Lemma bucket_insert_ne d i m k v : chunk k d <> i -> bucket d i (<[k := v]> m) = bucket d i m.
Proof.
  intros Hne. apply map_eq. intros k'. rewrite !bucket_lookup. case_decide as E; [|done].
  rewrite lookup_insert_ne; [done|]. congruence.
Qed.

Lemma bucket_delete d m k : bucket d (chunk k d) (delete k m) = delete k (bucket d (chunk k d) m).
Proof.
  apply map_eq. intros k'. rewrite bucket_lookup. destruct (decide (k = k')) as [->|Hne].
  - rewrite !lookup_delete_eq. by case_decide.
  - rewrite !lookup_delete_ne by done. by rewrite bucket_lookup.
Qed.

Lemma bucket_delete_ne d i m k : chunk k d <> i -> bucket d i (delete k m) = bucket d i m.
Proof.
  intros Hne. apply map_eq. intros k'. rewrite !bucket_lookup. case_decide as E; [|done].
  rewrite lookup_delete_ne; [done|]. congruence.
Qed.

Lemma bucket_empty d i : bucket d i ∅ = ∅.
Proof. apply map_eq. intros k. rewrite bucket_lookup, lookup_empty. by case_decide. Qed.

Lemma elem_of_bucket d i m k : k ∈ dom (bucket d i m) <-> k ∈ dom m /\ chunk k d = i.
Proof.
  rewrite !elem_of_dom, bucket_lookup. case_decide; [naive_solver|].
  split; [intros []; done|naive_solver].
Qed.

(** ** Basic facts *)
Lemma pointer_rep_nonempty R s p m : pointer_rep R s p m -> m <> ∅.
Proof.
  destruct p as [vals|c cache|n]; simpl.
  - intros (Hne & _ & Hv) ->. destruct vals; [done|].
    by apply vals_rep_size in Hv.
  - intros (Hs & _) ->. rewrite map_size_empty in Hs. lia.
  - intros (Hs & _) ->. rewrite map_size_empty in Hs. lia.
Qed.

Lemma pointer_rep_mono (R R' : node -> gmap K V -> Prop) s s' p m :
  store_le s s' -> (forall n m, R n m -> R' n m) -> pointer_rep R s p m -> pointer_rep R' s' p m.
Proof.
  intros Hle HR. destruct p as [vals|c cache|n]; simpl; [done| |naive_solver].
  intros (Hs & (w & n & Hst & Hser & Hde & Hn) & Hc). split_and!; [done| |by destruct cache; auto].
  exists w, n. split_and!; auto. by eapply stored_mono.
Qed.

Lemma node_rep_mono r s s' d n m : store_le s s' -> node_rep r s d n m -> node_rep r s' d n m.
Proof.
  intros Hle. revert d n m. induction r as [|r IH]; intros d n m; [done|].
  intros (Hb & Hl & Hi). split_and!; [done|done|]. intros i Hlt. specialize (Hi i Hlt).
  destruct (mem _ i); [|done]. destruct Hi as (p & Hp & Hr). exists p. split; [done|].
  eapply pointer_rep_mono; [exact Hle| |exact Hr]. intros. by apply IH.
Qed.

Lemma node_default_rep r s d : node_rep (Datatypes.S r) s d node_default ∅.
Proof.
  split_and!.
  - apply bitfield_zero_wf.
  - simpl. unfold rank. symmetry. apply cnt_false. intros. apply mem_zero.
  - intros i _. simpl. rewrite mem_zero. apply bucket_empty.
Qed.

(** Replacing the child that stands for bucket [i]. *)
Lemma node_rep_set_child r s d n m m' i p :
  node_rep (Datatypes.S r) s d n m -> (i < 256)%N -> mem (node_bitfield n) i = true ->
  pointer_rep (node_rep r s (Datatypes.S d)) s p (bucket d i m') ->
  (forall j, j <> i -> bucket d j m' = bucket d j m) ->
  node_rep (Datatypes.S r) s d (set_child n (rank (node_bitfield n) i) p) m'.
Proof.
  intros (Hb & Hl & Hall) Hi Hm Hp Hother. unfold set_child. split_and!; cbn [node_bitfield node_pointers].
  - done.
  - by rewrite length_insert.
  - intros j Hj. destruct (decide (j = i)) as [->|Hne].
    + rewrite Hm. exists p. split; [|done]. apply list_lookup_insert_eq. rewrite Hl.
      by apply cnt_lt.
    + rewrite Hother by done. specialize (Hall j Hj). destruct (mem _ j) eqn:Hmj; [|done].
      destruct Hall as (q & Hq & Hr). exists q. split; [|done].
      rewrite list_lookup_insert_ne; [done|]. intros E. by apply Hne, eq_sym, (cnt_inj _ _ _ Hm Hmj).
Qed.

(** Reading the child that stands for bucket [i]. *)
Lemma node_rep_child r s d n m i :
  node_rep (Datatypes.S r) s d n m -> (i < 256)%N ->
  test_bit (node_bitfield n) i = Ok (mem (node_bitfield n) i) /\
  index_for_bit_pos (node_bitfield n) i = Ok (rank (node_bitfield n) i) /\
  if mem (node_bitfield n) i then
    exists p, get_child n (rank (node_bitfield n) i) = Ok p /\
      node_pointers n !! rank (node_bitfield n) i = Some p /\
      pointer_rep (node_rep r s (Datatypes.S d)) s p (bucket d i m)
  else bucket d i m = ∅.
Proof.
  intros (Hb & Hl & Hall) Hi. split_and!; [by apply test_bit_spec|by apply index_for_bit_pos_spec|].
  specialize (Hall i Hi). destruct (mem _ i); [|done]. destruct Hall as (p & Hp & Hr).
  exists p. unfold get_child. rewrite Hp. done.
Qed.

Context (width_pos : (0 < bit_width)%N) (width_le : (bit_width <= 8)%N).

Lemma chunk_lt k d : (chunk k d < 256)%N.
Proof.
  unfold chunk. eapply N.lt_le_trans; [apply bits_value_lt|].
  rewrite N2Nat.id. change 256%N with (2 ^ 8)%N. by apply N.pow_le_mono_r.
Qed.

Lemma level_bound d : d < levels -> (N.of_nat d * bit_width + bit_width <= 256)%N.
Proof.
  unfold levels. intros Hd. pose proof (N.Div0.mul_div_le 256 bit_width) as Hm.
  assert (N.of_nat d + 1 <= 256 / bit_width)%N by lia. nia.
Qed.

(** [next] at depth [d] hands out the chunk and moves to the next depth. *)
Lemma next_level k d : d < levels ->
  next (mkHashBits (hamt_hash k) (N.of_nat d * bit_width)) bit_width
    = Ok (chunk k d, mkHashBits (hamt_hash k) (N.of_nat (Datatypes.S d) * bit_width)).
Proof.
  intros Hd. rewrite next_ok; [|apply hamt_hash_wf|done|done|by apply level_bound].
  unfold chunk. do 3 f_equal. lia.
Qed.

(** Below the last level the hash is used up. *)
Lemma next_below k : next (mkHashBits (hamt_hash k) (N.of_nat levels * bit_width)) bit_width
  = Err MAX_DEPTH_ERROR.
Proof.
  apply next_exhausted; [apply hamt_hash_wf|done|].
  unfold levels. rewrite N2Nat.id. change (2 ^ 32)%N with 4294967296%N.
  assert (bit_width <> 0)%N as Hnz by lia.
  pose proof (N.div_mod 256 bit_width Hnz) as Hdm. pose proof (N.mod_lt 256 bit_width Hnz) as Hml.
  revert Hdm Hml. generalize (256 / bit_width)%N (256 mod bit_width)%N. intros q t Hdm Hml. nia.
Qed.

(** A new child for an empty bucket. *)
Lemma insert_child_rep r s d n m k v :
  node_rep (Datatypes.S r) s d n m -> mem (node_bitfield n) (chunk k d) = false ->
  exists n', insert_child n (chunk k d) k v = Ok n' /\
    node_rep (Datatypes.S r) s d n' (<[k := v]> m).
Proof.
  intros (Hb & Hl & Hall) Hm. pose proof (chunk_lt k d) as Hi.
  pose proof (Hall _ Hi) as Hempty. rewrite Hm in Hempty.
  destruct (set_bit_spec (node_bitfield n) (chunk k d) Hb Hi) as (b' & Hset & Hb' & Hmem).
  assert (rank (node_bitfield n) (chunk k d) <= length (node_pointers n)) as Hle.
  { rewrite Hl. apply cnt_le. lia. }
  unfold insert_child. rewrite (index_for_bit_pos_spec _ _ Hb Hi). simpl. rewrite Hset. simpl.
  unfold vec_insert. destruct (decide _); [|done]. simpl.
  eexists. split; [done|]. set (c := chunk k d) in *. set (b := node_bitfield n) in *.
  assert (forall j, rank b' j = rank b j + if decide (c < j)%N then 1 else 0) as Hrank.
  { intros j. unfold rank. rewrite (cnt_update (mem b) (mem b') c).
    - by rewrite N2Nat.id.
    - intros i Hne. rewrite Hmem. by destruct (N.eqb_spec i c).
    - done.
    - rewrite Hmem. by rewrite N.eqb_refl. }
  split_and!; cbn [node_bitfield node_pointers].
  - done.
  - rewrite length_app, length_take. simpl. rewrite length_drop, Hrank.
    destruct (decide (c < 256)%N); [|done]. lia.
  - intros j Hj. destruct (decide (j = c)) as [->|Hne].
    + rewrite Hmem, N.eqb_refl. simpl. exists (from_key_value k v). split.
      * assert (rank b' c = rank b c) as -> by (rewrite Hrank; destruct (decide (c < c)%N); lia).
        rewrite lookup_app_r by (rewrite length_take; lia).
        rewrite length_take, Nat.min_l, Nat.sub_diag by done. done.
      * unfold c. rewrite bucket_insert. fold c. rewrite Hempty. simpl. split_and!; [done|unfold MAX_ARRAY_WIDTH; lia|].
        split; [repeat constructor|done].
    + rewrite Hmem. destruct (N.eqb_spec j c) as [|_]; [done|]. simpl.
      rewrite bucket_insert_ne by done. specialize (Hall j Hj). destruct (mem b j) eqn:Hmj; [|done].
      destruct Hall as (q & Hq & Hr). exists q. split; [|done]. rewrite Hrank.
      destruct (decide (c < j)%N) as [Hlt|Hge].
      * rewrite lookup_app_r; rewrite length_take.
        2: { assert (rank b c <= rank b j) by (apply cnt_le; lia). lia. }
        assert (rank b c <= rank b j) by (apply cnt_le; lia).
        replace (rank b j + 1 - rank b c `min` length (node_pointers n))
          with (Datatypes.S (rank b j - rank b c)) by lia.
        simpl. rewrite lookup_drop. rewrite <- Hq. f_equal. lia.
      * assert (rank b j < rank b c) by (apply cnt_lt; [done|lia]).
        rewrite Nat.add_0_r, lookup_app_l by (rewrite length_take; lia).
        rewrite lookup_take_lt by done. done.
Qed.

(** Dropping the child of a bucket that becomes empty. *)
Lemma rm_child_rep r s d n m k p :
  node_rep (Datatypes.S r) s d n m -> mem (node_bitfield n) (chunk k d) = true ->
  node_pointers n !! rank (node_bitfield n) (chunk k d) = Some p ->
  bucket d (chunk k d) (delete k m) = ∅ ->
  exists n', rm_child n (rank (node_bitfield n) (chunk k d)) (chunk k d) = Ok (p, n') /\
    node_rep (Datatypes.S r) s d n' (delete k m).
Proof.
  intros (Hb & Hl & Hall) Hm Hp Hempty. pose proof (chunk_lt k d) as Hi.
  destruct (clear_bit_spec (node_bitfield n) (chunk k d) Hb Hi) as (b' & Hset & Hb' & Hmem).
  unfold rm_child. rewrite Hset. simpl. unfold vec_remove. rewrite Hp. simpl.
  eexists. split; [done|]. set (c := chunk k d) in *. set (b := node_bitfield n) in *.
  assert (forall j, rank b j = rank b' j + if decide (c < j)%N then 1 else 0) as Hrank.
  { intros j. unfold rank. rewrite (cnt_update (mem b') (mem b) c).
    - by rewrite N2Nat.id.
    - intros i Hne. rewrite Hmem. by destruct (N.eqb_spec i c).
    - rewrite Hmem. by rewrite N.eqb_refl.
    - done. }
  pose proof (lookup_lt_Some _ _ _ Hp) as Hlt.
  split_and!; cbn [node_bitfield node_pointers].
  - done.
  - rewrite length_app, length_take, length_drop. rewrite Hrank in Hl.
    destruct (decide (c < 256)%N); [|done]. lia.
  - intros j Hj. rewrite Hmem. destruct (N.eqb_spec j c) as [->|Hne]; [done|]. simpl.
    rewrite bucket_delete_ne by done. specialize (Hall j Hj). destruct (mem b j) eqn:Hmj; [|done].
    destruct Hall as (q & Hq & Hr). exists q. split; [|done].
    pose proof (Hrank j) as Hrj. destruct (decide (c < j)%N) as [Hcj|Hcj].
    + assert (rank b c < rank b j) by (apply cnt_lt; [done|lia]).
      rewrite lookup_app_r by (rewrite length_take; lia).
      rewrite length_take, lookup_drop. rewrite <- Hq. f_equal. lia.
    + assert (rank b j < rank b c) by (apply cnt_lt; [done|lia]).
      rewrite lookup_app_l by (rewrite length_take; lia).
      rewrite lookup_take_lt by lia. rewrite <- Hq. f_equal. lia.
Qed.
End rep.
