(* ===== verification/HamtProofs.v ===== *)
(** * The operations of a HAMT node are those of a finite map

    Lookup, insertion, removal, cleaning, flushing and iteration of a node
    against the map it represents, each with enough fuel for the levels of the
    tree, so that none of them panics or runs out. *)
From stdpp Require Import base gmap list numbers sorting.
From S2P Require Import Prelude Bitfield BlockStore HamtNode HamtRep.

Section proofs.
Context {K V Cid S : Type}.
Context `{Countable K} `{EqDecision V} `{KeyOrderLaws K} `{HashAlgorithmLaws K}.
Context `{CidLaws Cid} `{EqDecision Cid} `{!BlockStore S Cid} `{!BlockStoreLaws S Cid}.
Context `{!BlockCodec (wire_node K V Cid)} `{!BlockCodecLaws Cid (wire_node K V Cid)}.
Context (w : N) (width_pos : (0 < w)%N) (width_le : (w <= 8)%N).
Notation node := (node K V Cid).
Notation pointer := (pointer K V Cid).
Notation node_rep := (node_rep (K := K) (V := V) (Cid := Cid) (S := S) w).
Notation chunk := (chunk (K := K) w).
Notation bucket := (bucket (K := K) (V := V) w).
Notation levels := (levels w).
Implicit Types (n : node) (p : pointer) (m : gmap K V) (s : S) (k : K) (d r : nat).

(** The cursor at depth [d]. *)
Notation at_depth k d := (mkHashBits (hamt_hash k) (N.of_nat d * w)).

(** ** The children of a node partition its entries *)
Definition below d (c : nat) m : gmap K V := filter (fun kv => (chunk kv.1 d < N.of_nat c)%N) m.

Lemma below_step d c m : below d (Datatypes.S c) m = below d c m ∪ bucket d (N.of_nat c) m.
Proof.
  unfold below, HamtRep.bucket. rewrite <- map_filter_or. apply map_filter_ext.
  intros k v _. simpl. lia.
Qed.

Lemma below_disjoint d c m : below d c m ##ₘ bucket d (N.of_nat c) m.
Proof.
  apply map_disjoint_spec. intros k v v'. unfold below, HamtRep.bucket.
  rewrite !map_lookup_filter_Some. simpl. intros [_ ?] [_ ?]. lia.
Qed.

Lemma node_rep_parts r s d n m : node_rep (Datatypes.S r) s d n m ->
  exists ms, Forall2 (pointer_rep (node_rep r s (Datatypes.S d)) s) (node_pointers n) ms /\
    mjoin (map_to_list <$> ms) ≡ₚ map_to_list m.
Proof.
  intros (Hb & Hl & Hall).
  assert (forall c, c <= 256 -> exists ms,
    Forall2 (pointer_rep (node_rep r s (Datatypes.S d)) s)
      (take (cnt (mem (node_bitfield n)) c) (node_pointers n)) ms /\
    mjoin (map_to_list <$> ms) ≡ₚ map_to_list (below d c m)) as Hgen.
  { induction c as [|c IH]; intros Hc.
    - exists []. split; [constructor|]. simpl.
      assert (below d 0 m = ∅) as ->; [|by rewrite map_to_list_empty].
      apply map_eq. intros k. rewrite lookup_empty. apply map_lookup_filter_None. right.
      intros v _. simpl. lia.
    - destruct IH as (ms & Hms & Hperm); [lia|].
      pose proof (Hall (N.of_nat c) ltac:(lia)) as Hi. cbn [cnt].
      rewrite below_step. destruct (mem (node_bitfield n) (N.of_nat c)) eqn:Hm.
      + destruct Hi as (p & Hp & Hr). exists (ms ++ [bucket d (N.of_nat c) m]).
        unfold rank in Hp. rewrite Nat2N.id in Hp. rewrite Nat.add_1_r.
        rewrite (take_S_r _ _ p) by done. split; [by apply Forall2_app; [|constructor]|].
        rewrite fmap_app, join_app, Hperm. simpl. rewrite app_nil_r.
        symmetry. apply map_to_list_union_disjoint, below_disjoint.
      + exists ms. rewrite Nat.add_0_r. split; [done|]. by rewrite Hi, (right_id_L ∅ (∪)). }
  destruct (Hgen 256 ltac:(lia)) as (ms & Hms & Hperm). exists ms.
  rewrite take_ge in Hms by (rewrite Hl; done). split; [done|]. rewrite Hperm.
  assert (below d 256 m = m) as ->; [|done]. apply map_filter_id. intros k v _. simpl.
  apply (chunk_lt w width_le).
Qed.

Lemma sum_size_cons m ms : sum_list (size <$> m :: ms) = size m + sum_list (size <$> ms).
Proof. done. Qed.

Lemma join_entries_cons m ms :
  mjoin (map_to_list <$> m :: ms) = map_to_list m ++ mjoin (map_to_list <$> ms).
Proof. done. Qed.

Lemma parts_size ms m : mjoin (map_to_list <$> ms) ≡ₚ map_to_list m -> size m = sum_list (size <$> ms).
Proof.
  intros Hp. rewrite <- (length_map_to_list m), <- Hp. clear Hp.
  induction ms as [|m1 ms IH]; [done|].
  by rewrite join_entries_cons, sum_size_cons, length_app, IH, length_map_to_list.
Qed.

Lemma parts_nonempty R s (ps : list pointer) (ms : list (gmap K V)) :
  Forall2 (pointer_rep R s) ps ms -> length ps <= sum_list (size <$> ms).
Proof.
  induction 1 as [|p m1 ps ms Hp _ IH]; [done|].
  rewrite sum_size_cons. cbn [length]. apply pointer_rep_nonempty in Hp. rewrite <- map_size_non_empty_iff in Hp. lia.
Qed.

Lemma children_len_Some (R : node -> gmap K V -> Prop) s (ps : list pointer) ms total :
  Forall2 (pointer_rep R s) ps ms -> children_len ps = Some total ->
  mjoin (omap values_of ps) ≡ₚ mjoin (map_to_list <$> ms) /\ total = sum_list (size <$> ms).
Proof.
  intros HF. revert total. induction HF as [|p m1 ps ms Hp _ IH]; intros total Ht; [by simplify_eq/=|].
  destruct p as [vals|c cache|n]; cbn [children_len] in Ht; [|done..].
  destruct (children_len ps) as [t|]; [|done]. apply (inj Some) in Ht as <-.
  change (mjoin (omap values_of (Values vals :: ps))) with (vals ++ mjoin (omap values_of ps)).
  destruct (IH t eq_refl) as [IH1 ->]. destruct Hp as (_ & _ & Hv).
  rewrite join_entries_cons, sum_size_cons, <- IH1, (vals_rep_perm _ _ Hv), (vals_rep_size _ _ Hv). done.
Qed.

Lemma children_len_None (R : node -> gmap K V -> Prop) s (ps : list pointer) ms :
  Forall2 (pointer_rep R s) ps ms -> children_len ps = None -> MAX_ARRAY_WIDTH < sum_list (size <$> ms).
Proof.
  induction 1 as [|p m1 ps ms Hp _ IH]; intros Ht; [done|].
  rewrite sum_size_cons. destruct p as [vals|c cache|n]; cbn [children_len] in Ht.
  - destruct (children_len ps); simplify_eq/=. specialize (IH eq_refl). lia.
  - destruct Hp as [Hs _]. lia.
  - destruct Hp as [Hs _]. lia.
Qed.

(** ** [Pointer::clean] restores the canonical form *)
Lemma clean_rep r s d n m :
  node_rep r s d n m -> MAX_ARRAY_WIDTH <= size m ->
  exists p, clean (Dirty n) = (Ok tt, p) /\ pointer_rep (node_rep r s d) s p m.
Proof.
  destruct r as [|r]; [done|]. intros Hn Hsz.
  destruct (node_rep_parts _ _ _ _ _ Hn) as (ms & HF & Hperm).
  pose proof (parts_size _ _ Hperm) as Hsize. pose proof (parts_nonempty _ _ _ _ HF) as Hne.
  assert (MAX_ARRAY_WIDTH < size m -> pointer_rep (node_rep (Datatypes.S r) s d) s (Dirty n) m) as Hdirty.
  { intros Hlt. by split. }
  assert (forall total, children_len (node_pointers n) = Some total -> total = size m) as Htot.
  { intros t Ht. destruct (children_len_Some _ _ _ _ _ HF Ht) as [_ ->]. by rewrite Hsize. }
  unfold clean. destruct (node_pointers n) as [|p1 [|p2 ps]] eqn:Hps; simpl length.
  - apply Forall2_nil_inv_l in HF as ->. simpl in Hsize. unfold MAX_ARRAY_WIDTH in *. lia.
  - apply Forall2_cons_inv_l in HF as (m1 & ms' & Hp1 & HF' & ->).
    apply Forall2_nil_inv_l in HF' as ->. simpl in Hperm. rewrite app_nil_r in Hperm.
    assert (m1 = m) as -> by by apply map_to_list_inj.
    destruct p1 as [vals|c cache|n1]; eexists; (split; [done|]); [done| |];
      apply Hdirty; by destruct Hp1.
  - cbn [length] in *. case_decide as Hlen.
    + destruct (children_len (p1 :: p2 :: ps)) as [t|] eqn:Hc.
      * destruct (children_len_Some _ _ _ _ _ HF Hc) as [Hj _].
        rewrite (Htot t eq_refl). case_decide as Hbig.
        -- eexists. split; [done|]. by apply Hdirty.
        -- eexists. split; [done|]. rewrite Hperm in Hj.
           assert (vals_rep (merge_sort key_le (mjoin (omap values_of (p1 :: p2 :: ps)))) m) as Hv
             by (apply vals_rep_sort; by symmetry).
           pose proof (vals_rep_size _ _ Hv) as Hvs. unfold MAX_ARRAY_WIDTH in *.
           split_and!; [|unfold MAX_ARRAY_WIDTH; lia|done]. intros E. rewrite E in Hvs. simpl in Hvs. lia.
      * eexists. split; [done|]. apply Hdirty. rewrite Hsize. by eapply children_len_None.
    + eexists. split; [done|]. apply Hdirty. lia.
Qed.

(** ** Lookup *)
Lemma load_node_stored s c wn n :
  stored s c wn -> node_deserialize wn = Ok n -> load_node s c = Ok n.
Proof. intros Hs Hd. unfold load_node. rewrite (stored_load s c wn Hs). done. Qed.

(** The node behind a link, cached or not. *)
Lemma link_node (R : node -> gmap K V -> Prop) s c cache m :
  pointer_rep R s (Link c cache) m ->
  exists n, match cache with Some n => Ok n | None => load_node s c end = Ok n /\ R n m.
Proof.
  intros (_ & (wn & n & Hs & _ & Hd & Hn) & Hc). destruct cache as [n'|].
  - by exists n'.
  - exists n. split; [|done]. by eapply load_node_stored.
Qed.

(** Filling the cache of a link keeps what it represents. *)
Lemma link_fill (R : node -> gmap K V -> Prop) s c cache m n :
  pointer_rep R s (Link c cache) m -> R n m -> pointer_rep R s (Link c (Some n)) m.
Proof. intros (? & ? & _) ?. by split_and!. Qed.

Lemma vals_find vals m k :
  vals_rep vals m -> snd <$> list_find (fun kv => k = kv.1) vals = (fun v => (k, v)) <$> m !! k.
Proof.
  intros Hv. destruct (list_find _ vals) as [[i [k' v]]|] eqn:E; simpl.
  - apply list_find_Some in E as (Hi & Hk & _). simpl in Hk. subst k'.
    apply list_elem_of_lookup_2 in Hi.
    apply (vals_rep_lookup _ _ _ _ Hv) in Hi. by rewrite Hi.
  - destruct (m !! k) as [v|] eqn:Em; [|done]. apply (vals_rep_lookup _ _ _ _ Hv) in Em.
    apply list_find_None in E. rewrite Forall_forall in E. by destruct (E _ Em).
Qed.

Lemma get_value_spec r fuel s d n m k :
  r <= fuel -> d + r = levels -> node_rep r s d n m ->
  exists n', get_value fuel s n (at_depth k d) w k = (Ok ((fun v => (k, v)) <$> m !! k), n') /\
    node_rep r s d n' m.
Proof.
  revert fuel d n m. induction r as [|r IH]; intros fuel d n m Hf Hd Hn; [done|].
  destruct fuel as [|fuel]; [lia|]. cbn [get_value]. rewrite (next_level w width_pos width_le) by lia.
  cbn [try_with]. pose proof (chunk_lt w width_le k d) as Hi.
  destruct (node_rep_child w _ _ _ _ _ _ Hn Hi) as (-> & Hidx & Hc). cbn [try_with].
  destruct (mem _ _) eqn:Hm; cbn [negb].
  - rewrite Hidx. cbn [try_with]. destruct Hc as (p & -> & Hp & Hrep). cbn [try_with].
    assert (forall p', pointer_rep (node_rep r s (Datatypes.S d)) s p' (bucket d (chunk k d) m) ->
      node_rep (Datatypes.S r) s d (set_child n (rank (node_bitfield n) (chunk k d)) p') m) as Hset.
    { intros p' Hp'. by eapply (node_rep_set_child w). }
    rewrite <- (bucket_same w d m k).
    destruct p as [vals|c cache|n1].
    + eexists. split; [|exact Hn]. by rewrite (vals_find _ _ _ (proj2 (proj2 Hrep))).
    + destruct (link_node _ _ _ _ _ Hrep) as (n1 & Hl & Hn1).
      destruct (IH fuel (Datatypes.S d) n1 _ ltac:(lia) ltac:(lia) Hn1) as (n2 & E & Hn2).
      eexists. split; [|apply Hset; by eapply link_fill].
      destruct cache as [n0|]; [simplify_eq; by rewrite E|]. rewrite Hl. cbn [try_with]. by rewrite E.
    + destruct Hrep as [Hs Hn1].
      destruct (IH fuel (Datatypes.S d) n1 _ ltac:(lia) ltac:(lia) Hn1) as (n2 & E & Hn2).
      eexists. rewrite E. split; [done|]. by apply Hset.
  - exists n. split; [|done]. by rewrite <- (bucket_same w d m k), Hc, lookup_empty.
Qed.

(** ** Insertion *)

(** What [set] returns and the map it leaves, on a map. *)
Definition set_result m k (v : V) (overwrite : bool) : option V * bool :=
  match m !! k with
  | Some v0 => if overwrite then (Some v0, bool_decide (v0 <> v)) else (None, false)
  | None => (None, true)
  end.

Definition set_map m k (v : V) (overwrite : bool) : gmap K V :=
  match m !! k with
  | Some _ => if overwrite then <[k := v]> m else m
  | None => <[k := v]> m
  end.

Lemma set_result_bucket d m k v ow : set_result (bucket d (chunk k d) m) k v ow = set_result m k v ow.
Proof. unfold set_result. by rewrite (bucket_same w). Qed.

Lemma bucket_set_map d m k v ow :
  bucket d (chunk k d) (set_map m k v ow) = set_map (bucket d (chunk k d) m) k v ow.
Proof.
  unfold set_map. rewrite (bucket_same w).
  destruct (m !! k); [destruct ow|]; by rewrite ?(bucket_insert w).
Qed.

Lemma bucket_set_map_ne d i m k v ow :
  i <> chunk k d -> bucket d i (set_map m k v ow) = bucket d i m.
Proof.
  intros Hne. unfold set_map.
  destruct (m !! k); [destruct ow|]; by rewrite ?(bucket_insert_ne w).
Qed.

Lemma set_map_unmodified m k v ow :
  (set_result m k v ow).2 = false -> set_map m k v ow = m.
Proof.
  unfold set_result, set_map. destruct (m !! k) as [v0|] eqn:E; [|done].
  destruct ow; [|done]. simpl. intros Hb. apply bool_decide_eq_false, dec_stable in Hb as ->.
  by apply insert_id.
Qed.

Lemma size_set_map m k v ow : size m <= size (set_map m k v ow).
Proof.
  unfold set_map. destruct (m !! k) as [v0|] eqn:E.
  - destruct ow; [|done]. rewrite map_size_insert, E. done.
  - rewrite map_size_insert, E. lia.
Qed.

(** No two of these keys share their whole hash. *)
Definition separated (P : K -> Prop) : Prop :=
  forall k1 k2, P k1 -> P k2 -> k1 <> k2 -> exists j, j < levels /\ chunk k1 j <> chunk k2 j.

Lemma separated_mono (P Q : K -> Prop) : (forall k, Q k -> P k) -> separated P -> separated Q.
Proof. intros HPQ HP k1 k2 H1' H2' Hne. apply HP; auto. Qed.

(** The specification of [modify_value] with [r] levels left, used as an
    induction hypothesis. *)
Definition modify_ok r fuel : Prop := forall s d n m k v ow,
  d + r = levels -> node_rep r s d n m ->
  (forall k', k' ∈ dom m -> forall j, j < d -> chunk k' j = chunk k j) ->
  separated (fun k' => k' ∈ dom m \/ k' = k) ->
  exists n', modify_value fuel s n (at_depth k d) w k v ow = (Ok (set_result m k v ow), n') /\
    node_rep r s d n' (set_map m k v ow).

(** Moving the entries of a full array into the new subtree. *)
Lemma insert_all_spec r fuel s d ow (l : list (K * V)) sub m0 :
  modify_ok r fuel -> d + r = levels -> node_rep r s d sub m0 ->
  NoDup l.*1 -> (forall k, k ∈ l.*1 -> m0 !! k = None) ->
  (forall k1 k2, k1 ∈ dom m0 \/ k1 ∈ l.*1 -> k2 ∈ dom m0 \/ k2 ∈ l.*1 ->
    forall j, j < d -> chunk k1 j = chunk k2 j) ->
  separated (fun k => k ∈ dom m0 \/ k ∈ l.*1) ->
  exists sub', for_each_st (fun (kv : K * V) sub =>
      let '(r, sub') := modify_value fuel s sub (new_at_index (hamt_hash kv.1) (N.of_nat d * w)) w kv.1 kv.2 ow in
      (outcome_map (fun _ => tt) r, sub')) l sub = (Ok tt, sub') /\
    node_rep r s d sub' (list_to_map l ∪ m0).
Proof.
  intros Hok Hd. revert sub m0. induction l as [|[k v] l IH]; intros sub m0 Hsub Hnd Hnone Hpre Hsep.
  - exists sub. split; [done|]. rewrite list_to_map_nil. by rewrite (left_id_L ∅ (∪)).
  - simpl in Hnd. apply NoDup_cons in Hnd as [Hk Hnd].
    assert (m0 !! k = None) as Hm0 by (apply Hnone; left).
    destruct (Hok s d sub m0 k v ow Hd Hsub) as (sub1 & E1 & Hsub1).
    { intros k' Hk'. apply Hpre; [by left|right; left]. }
    { eapply separated_mono; [|exact Hsep]. intros k' [?| ->]; [by left|right; left]. }
    unfold set_map in Hsub1. rewrite Hm0 in Hsub1.
    assert (forall k', k' ∈ dom (<[k:=v]> m0) \/ k' ∈ l.*1 -> k' ∈ dom m0 \/ k' ∈ ((k, v) :: l).*1) as Hin.
    { intros k'. rewrite dom_insert_L, elem_of_union, elem_of_singleton. simpl. rewrite elem_of_cons. naive_solver. }
    destruct (IH sub1 (<[k := v]> m0) Hsub1 Hnd) as (sub2 & E2 & Hsub2).
    { intros k' Hk'. rewrite lookup_insert_ne by (intros ->; done). apply Hnone. by right. }
    { intros k1 k2 H1' H2'. apply Hpre; by apply Hin. }
    { eapply separated_mono; [exact Hin|exact Hsep]. }
    exists sub2. split.
    + cbn [for_each_st]. unfold new_at_index. cbn [fst snd]. rewrite E1. cbn [outcome_map outcome_bind try_with].
      exact E2.
    + rewrite list_to_map_cons, <- insert_union_l. rewrite insert_union_r; [done|]. by apply not_elem_of_list_to_map.
Qed.

(** An array with room, or with the key already in it. *)
Lemma values_replace R s vals m k v i kv :
  pointer_rep R s (Values vals) m -> vals !! i = Some kv -> kv.1 = k ->
  pointer_rep R s (Values (<[i := (kv.1, v)]> vals)) (<[k := v]> m).
Proof.
  intros (Hne & Hl & Hv) Hi <-. split_and!.
  - intros E. apply Hne. apply length_zero_iff_nil. by rewrite <- (length_insert vals i (kv.1, v)), E.
  - by rewrite length_insert.
  - by apply vals_rep_replace.
Qed.

Lemma values_insert R s vals m k v :
  pointer_rep R s (Values vals) m -> m !! k = None -> length vals < MAX_ARRAY_WIDTH ->
  pointer_rep R s (Values (insert_at vals k v)) (<[k := v]> m).
Proof.
  intros (Hne & _ & Hv) Hk Hl. pose proof (insert_at_perm vals k v) as Hp.
  apply Permutation_length in Hp. simpl in Hp. split_and!.
  - intros E. by rewrite E in Hp.
  - lia.
  - by apply vals_rep_insert.
Qed.

(** A full array becomes a subtree of four entries. *)
Lemma values_split R s vals m k v :
  pointer_rep R s (Values vals) m -> m !! k = None -> MAX_ARRAY_WIDTH <= length vals ->
  list_to_map vals ∪ <[k := v]> ∅ = <[k := v]> m /\ MAX_ARRAY_WIDTH < size (<[k := v]> m) /\
  NoDup vals.*1 /\ k ∉ vals.*1 /\ forall k', k' ∈ vals.*1 -> k' ∈ dom m.
Proof.
  intros (Hne & _ & Hv) Hk Hl. pose proof (vals_rep_size _ _ Hv) as Hs.
  destruct Hv as [Ho ->]. apply not_elem_of_list_to_map in Hk as Hk'. split_and!.
  - rewrite <- insert_union_r by done. by rewrite (right_id_L ∅ (∪)).
  - rewrite map_size_insert, Hk, Hs. lia.
  - by apply ordered_NoDup.
  - done.
  - intros k' Hk2. rewrite dom_list_to_map_L. by apply elem_of_list_to_set.
Qed.

(** Splitting a full array: its entries and the new one move into a subtree. *)
Lemma split_spec r fuel R s d ow vals m k v :
  modify_ok r fuel -> d + r = levels -> pointer_rep R s (Values vals) m -> m !! k = None ->
  MAX_ARRAY_WIDTH <= length vals ->
  (forall k', k' ∈ dom m -> forall j, j < d -> chunk k' j = chunk k j) ->
  separated (fun k' => k' ∈ dom m \/ k' = k) ->
  exists sub1 sub2,
    modify_value fuel s node_default (at_depth k d) w k v ow = (Ok (None, true), sub1) /\
    for_each_st (fun (kv : K * V) sub =>
      let '(r, sub') := modify_value fuel s sub (new_at_index (hamt_hash kv.1) (N.of_nat d * w)) w kv.1 kv.2 ow in
      (outcome_map (fun _ => tt) r, sub')) vals sub1 = (Ok tt, sub2) /\
    node_rep r s d sub2 (<[k := v]> m) /\ MAX_ARRAY_WIDTH < size (<[k := v]> m).
Proof.
  intros Hok Hd Hrep Hk Hfull Hpre Hsep.
  destruct (values_split _ _ _ _ k v Hrep Hk Hfull) as (Hun & Hsz & Hnd & Hnk & Hdom).
  destruct r as [|r].
  { (* no level left: the entries of the full array share their whole hash with [k] *)
    exfalso. destruct vals as [|[k1 v1] vals]; [by destruct Hrep|].
    assert (k1 ∈ dom m) as Hk1 by (apply Hdom; left).
    destruct (Hsep k1 k) as (j & Hj & Hne); [by left|by right|intros ->; apply Hnk; left|].
    apply Hne, Hpre; [done|lia]. }
  destruct (Hok s d node_default ∅ k v ow Hd (node_default_rep w _ _ _)) as (sub1 & E1 & Hsub1).
  { intros k' Hk'. set_solver. }
  { eapply separated_mono; [|exact Hsep]. set_solver. }
  unfold set_result in E1. unfold set_map in Hsub1. rewrite lookup_empty in Hsub1, E1.
  assert (forall k', k' ∈ dom (<[k := v]> (∅ : gmap K V)) \/ k' ∈ vals.*1 -> k' ∈ dom m \/ k' = k) as Hin.
  { intros k' [Hk'|Hk']; [right|left; by apply Hdom]. set_solver. }
  destruct (insert_all_spec _ fuel s d ow vals sub1 _ Hok Hd Hsub1 Hnd) as (sub2 & E2 & Hsub2).
  { intros k' Hk'. rewrite lookup_insert_ne by (intros ->; done). apply lookup_empty. }
  { intros k1 k2 Hk1%Hin Hk2%Hin j Hj. transitivity (chunk k j).
    - destruct Hk1 as [Hk1| ->]; [by apply Hpre|done].
    - destruct Hk2 as [Hk2| ->]; [symmetry; by apply Hpre|done]. }
  { eapply separated_mono; [exact Hin|exact Hsep]. }
  exists sub1, sub2. rewrite Hun in Hsub2. done.
Qed.

Lemma modify_value_spec r fuel : r <= fuel -> modify_ok r fuel.
Proof.
  revert fuel. induction r as [|r IH]; intros fuel Hf s d n m k v ow Hd Hn Hpre Hsep; [done|].
  destruct fuel as [|fuel]; [lia|]. specialize (IH fuel ltac:(lia)).
  cbn [modify_value]. rewrite (next_level w width_pos width_le) by lia. cbn [try_with].
  pose proof (chunk_lt w width_le k d) as Hi.
  destruct (node_rep_child w _ _ _ _ _ _ Hn Hi) as (-> & Hidx & Hc). cbn [try_with].
  destruct (mem _ _) eqn:Hm; cbn [negb].
  2: { destruct (insert_child_rep w width_pos width_le r s d n m k v Hn Hm) as (n' & -> & Hn').
       exists n'. cbn [try_with]. unfold set_result, set_map.
       by rewrite <- (bucket_same w d m k), Hc, lookup_empty. }
  rewrite Hidx. cbn [try_with]. destruct Hc as (p & -> & Hp & Hrep). cbn [try_with].
  set (b := bucket d (chunk k d) m) in *.
  assert (forall p', pointer_rep (node_rep r s (Datatypes.S d)) s p' (set_map b k v ow) ->
    node_rep (Datatypes.S r) s d (set_child n (rank (node_bitfield n) (chunk k d)) p') (set_map m k v ow)) as Hset.
  { intros p' Hp'. eapply (node_rep_set_child w); [done..|by rewrite bucket_set_map|].
    intros j Hj. by apply bucket_set_map_ne. }
  assert (forall k', k' ∈ dom b -> k' ∈ dom m /\ forall j, j < Datatypes.S d -> chunk k' j = chunk k j) as Hpreb.
  { intros k' Hkb. apply (elem_of_bucket w) in Hkb as [Hk' Hck]. split; [done|]. intros j Hj.
    destruct (decide (j = d)) as [->|]; [done|]. apply Hpre; [done|lia]. }
  assert (separated (fun k' => k' ∈ dom b \/ k' = k)) as Hsepb.
  { eapply separated_mono; [|exact Hsep]. intros k' [[? _]%Hpreb| ->]; auto. }
  rewrite <- (set_result_bucket d m k v ow). fold b.
  destruct p as [vals|c cache|n1].
  - (* Values *)
    pose proof (vals_find_key vals b k (proj2 (proj2 Hrep))) as Hfind.
    destruct (list_find _ vals) as [[i kv]|].
    + destruct Hfind as (Hvi & Hkv & Hbk). destruct ow.
      * eexists. split; [unfold set_result; by rewrite Hbk|]. apply Hset.
        unfold set_map. rewrite Hbk. by apply values_replace.
      * exists n. split; [unfold set_result; by rewrite Hbk|].
        unfold b in Hbk. rewrite (bucket_same w) in Hbk. unfold set_map. by rewrite Hbk.
    + rename Hfind into Hbk. case_decide as Hfull.
      * destruct (split_spec _ fuel _ s (Datatypes.S d) ow _ _ k v IH ltac:(lia) Hrep Hbk Hfull
          (fun k' Hk' => proj2 (Hpreb k' Hk')) Hsepb) as (sub1 & sub2 & E1 & E2 & Hsub2 & Hsz).
        rewrite E1. cbn [try_with hb_consumed]. rewrite E2. cbn [try_with]. unfold set_result.
        rewrite Hbk. eexists. split; [done|]. apply Hset. unfold set_map. rewrite Hbk. by split.
      * rewrite vec_insert_position. cbn [try_with]. eexists.
        split; [unfold set_result; by rewrite Hbk|]. apply Hset. unfold set_map. rewrite Hbk.
        apply values_insert; [done|done|lia].
  - (* Link *)
    destruct (link_node _ _ _ _ _ Hrep) as (n1 & Hl & Hn1). rewrite Hl. cbn [try_with].
    destruct (IH s (Datatypes.S d) n1 b k v ow ltac:(lia) Hn1) as (n2 & E & Hn2).
    { intros k' Hk'. by apply Hpreb. } { done. }
    rewrite E. destruct (set_result b k v ow) as [old [|]] eqn:Hres; cbn [try_with].
    + eexists. split; [done|]. apply Hset. split; [|done].
      pose proof (size_set_map b k v ow). destruct Hrep as [Hs _]. lia.
    + eexists. split; [done|]. apply Hset.
      pose proof (set_map_unmodified b k v ow) as Hu. rewrite Hres in Hu. rewrite (Hu eq_refl) in *.
      by eapply link_fill.
  - (* Dirty *)
    destruct Hrep as [Hs Hn1].
    destruct (IH s (Datatypes.S d) n1 b k v ow ltac:(lia) Hn1) as (n2 & E & Hn2).
    { intros k' Hk'. by apply Hpreb. } { done. }
    rewrite E. eexists. split; [done|]. apply Hset. split; [|done].
    pose proof (size_set_map b k v ow). lia.
Qed.

(** ** Removal *)
Lemma values_remove R s vals m k i kv :
  pointer_rep R s (Values vals) m -> vals !! i = Some kv -> kv.1 = k -> length vals <> 1 ->
  exists vals', vec_remove i vals = Ok (kv, vals') /\ pointer_rep R s (Values vals') (delete k m).
Proof.
  intros (Hne & Hl & Hv) Hi <- Hlen. destruct (vals_rep_remove _ _ _ _ Hi Hv) as [E Hv'].
  eexists. split; [exact E|]. pose proof (vals_rep_length_remove _ _ _ Hi) as Hlen'.
  pose proof (lookup_lt_Some _ _ _ Hi). split_and!; [|lia|done].
  intros Hnil. rewrite Hnil in Hlen'. simpl in Hlen'. lia.
Qed.

Lemma list_find_key' vals k :
  list_find (fun kv : K * V => k = kv.1) vals = list_find (fun kv : K * V => kv.1 = k) vals.
Proof. apply list_find_ext. intros [k' v]. simpl. split; congruence. Qed.

Lemma size_delete_ge m k : MAX_ARRAY_WIDTH < size m -> MAX_ARRAY_WIDTH <= size (delete k m).
Proof. intros Hs. rewrite map_size_delete. destruct (m !! k); simpl; lia. Qed.

Lemma rm_value_spec r fuel s d n m k :
  r <= fuel -> d + r = levels -> node_rep r s d n m ->
  exists n', rm_value fuel s n (at_depth k d) w k = (Ok ((fun v => (k, v)) <$> m !! k), n') /\
    node_rep r s d n' (delete k m).
Proof.
  revert fuel d n m. induction r as [|r IH]; intros fuel d n m Hf Hd Hn; [done|].
  destruct fuel as [|fuel]; [lia|]. cbn [rm_value]. rewrite (next_level w width_pos width_le) by lia.
  cbn [try_with]. pose proof (chunk_lt w width_le k d) as Hi.
  destruct (node_rep_child w _ _ _ _ _ _ Hn Hi) as (-> & Hidx & Hc). cbn [try_with].
  destruct (mem _ _) eqn:Hm; cbn [negb].
  2: { assert (m !! k = None) as Hk by (by rewrite <- (bucket_same w d m k), Hc, lookup_empty).
       exists n. rewrite Hk, delete_id by done. done. }
  rewrite Hidx. cbn [try_with]. destruct Hc as (p & -> & Hp & Hrep). cbn [try_with].
  assert (forall p', pointer_rep (node_rep r s (Datatypes.S d)) s p' (delete k (bucket d (chunk k d) m)) ->
    node_rep (Datatypes.S r) s d (set_child n (rank (node_bitfield n) (chunk k d)) p') (delete k m)) as Hset.
  { intros p' Hp'. eapply (node_rep_set_child w); [done..|by rewrite (bucket_delete w)|].
    intros j Hj. by apply (bucket_delete_ne w). }
  rewrite <- (bucket_same w d m k).
  destruct p as [vals|c cache|n1].
  - rewrite list_find_key'. pose proof (vals_find_key vals _ k (proj2 (proj2 Hrep))) as Hfind.
    destruct (list_find _ vals) as [[i kv]|].
    + destruct Hfind as (Hvi & Hkv & Hbk). rewrite Hbk. case_decide as Hone.
      * destruct vals as [|kv' [|]]; [done| |done]. apply list_lookup_singleton_Some in Hvi as [_ <-].
        destruct (rm_child_rep w width_pos width_le r s d n m k _ Hn Hm Hp) as (n' & -> & Hn').
        { rewrite (bucket_delete w). destruct Hrep as (_ & _ & _ & ->). rewrite <- Hkv.
          destruct kv' as [k' v']. rewrite list_to_map_cons, delete_insert_eq. apply delete_empty. }
        exists n'. cbn [try_with]. split; [|done]. by destruct kv'; simpl in Hkv; subst.
      * destruct (values_remove _ _ _ _ k i kv Hrep Hvi Hkv Hone) as (vals' & -> & Hr').
        cbn [try_with]. eexists. split; [|by apply Hset]. by destruct kv; simpl in Hkv; subst.
    + exists n. rewrite Hfind. split; [done|]. rewrite (bucket_same w) in Hfind. by rewrite delete_id.
  - destruct (link_node _ _ _ _ _ Hrep) as (n1 & -> & Hn1). cbn [try_with].
    destruct (IH fuel (Datatypes.S d) n1 _ ltac:(lia) ltac:(lia) Hn1) as (n2 & -> & Hn2).
    destruct (bucket d (chunk k d) m !! k) as [v|] eqn:Hbk; cbn [try_with fmap option_fmap option_map].
    + destruct (clean_rep _ _ _ _ _ Hn2) as (p' & -> & Hp'); [apply size_delete_ge, Hrep|].
      eexists. split; [done|]. by apply Hset.
    + eexists. split; [done|]. apply Hset. rewrite delete_id in * by done. by eapply link_fill.
  - destruct Hrep as [Hs Hn1].
    destruct (IH fuel (Datatypes.S d) n1 _ ltac:(lia) ltac:(lia) Hn1) as (n2 & -> & Hn2). cbn [try_with].
    destruct (clean_rep _ _ _ _ _ Hn2) as (p' & -> & Hp'); [by apply size_delete_ge|].
    eexists. split; [done|]. by apply Hset.
Qed.
End proofs.
