(* ===== verification/HamtPersist.v ===== *)
(** * Writing a HAMT out and iterating over it

    Serialization of a node without dirty children, [Node::flush], the
    canonical form (one map, one block) and the two iterations over a node. *)
From stdpp Require Import base gmap list numbers sorting.
From S2P Require Import Prelude Bitfield BlockStore HamtNode HamtRep HamtProofs.

Section persist.
Context {K V Cid S : Type}.
Context `{Countable K} `{EqDecision V} `{KeyOrderLaws K} `{HashAlgorithmLaws K}.
Context `{CidLaws Cid} `{EqDecision Cid} `{!BlockStore S Cid} `{!BlockStoreLaws S Cid}.
Context `{!BlockCodec (wire_node K V Cid)} `{!BlockCodecLaws Cid (wire_node K V Cid)}.
Context (w : N) (width_pos : (0 < w)%N) (width_le : (w <= 8)%N).
Notation node := (node K V Cid).
Notation pointer := (pointer K V Cid).
Notation node_rep := (node_rep (K := K) (V := V) (Cid := Cid) (S := S) w).
Notation bucket := (bucket (K := K) (V := V) w).
Implicit Types (n : node) (p : pointer) (m : gmap K V) (s : S) (k : K) (d r : nat).

(** ** Serialization *)
Definition not_dirty p : Prop := match p with Dirty _ => False | _ => True end.

(** What deserializing the serialization gives back: the caches are gone. *)
Definition strip_pointer p : pointer := match p with Link c _ => Link c None | _ => p end.
Definition strip n : node := Node (node_bitfield n) (strip_pointer <$> node_pointers n).

Definition wire_of p : wire_pointer K V Cid :=
  match p with Values vals => WValues vals | Link c _ => WLink c | Dirty _ => WValues [] end.

Lemma try_map_serialize (ps : list pointer) :
  Forall not_dirty ps -> try_map pointer_serialize ps = Ok (wire_of <$> ps).
Proof.
  induction 1 as [|p ps Hp _ IH]; [done|]. rewrite try_map_cons, IH. by destruct p.
Qed.

Lemma try_map_serialize_inv (ps : list pointer) ws :
  try_map pointer_serialize ps = Ok ws -> Forall not_dirty ps.
Proof.
  revert ws. induction ps as [|p ps IH]; intros ws Hw; [constructor|].
  cbn in Hw. destruct (pointer_serialize p) eqn:Ep; try done. cbn in Hw.
  destruct (try_map pointer_serialize ps) eqn:Eps; try done.
  constructor; [by destruct p|by eapply IH].
Qed.

Lemma node_serialize_not_dirty n wn : node_serialize n = Ok wn -> Forall not_dirty (node_pointers n).
Proof.
  unfold node_serialize. destruct (bitfield_serialize _); try done. cbn.
  destruct (try_map _ _) eqn:E; try done. intros _. by eapply try_map_serialize_inv.
Qed.

Lemma strip_pointers (ps : list pointer) : Forall not_dirty ps ->
  pointer_deserialize <$> (wire_of <$> ps) = strip_pointer <$> ps /\
  wire_of <$> (strip_pointer <$> ps) = wire_of <$> ps /\ Forall not_dirty (strip_pointer <$> ps).
Proof.
  induction 1 as [|p ps Hp _ (IH1 & IH2 & IH3)]; [done|]. rewrite !fmap_cons, IH1, IH2.
  split_and!; [by destruct p..|]. constructor; [by destruct p|done].
Qed.

Lemma strip_rep r s d n m : node_rep r s d n m -> node_rep r s d (strip n) m.
Proof.
  destruct r as [|r]; [done|]. intros (Hb & Hl & Hall). split_and!; [done|by cbn; rewrite length_fmap|].
  intros i Hi. specialize (Hall i Hi). cbn. destruct (mem _ i); [|done].
  destruct Hall as (p & Hp & Hr). exists (strip_pointer p). rewrite list_lookup_fmap, Hp. split; [done|].
  destruct p; naive_solver.
Qed.

(** A node without dirty children round-trips through its wire format. *)
Lemma serialize_rep r s d n m :
  node_rep r s d n m -> Forall not_dirty (node_pointers n) ->
  exists wn, node_serialize n = Ok wn /\ node_deserialize wn = Ok (strip n) /\
    node_serialize (strip n) = Ok wn /\ node_rep r s d (strip n) m.
Proof.
  intros Hn Hd. pose proof (strip_rep _ _ _ _ _ Hn) as Hs. destruct r as [|r]; [done|].
  destruct (proj1 Hn) as [Hb1 Hb2]. destruct (bitfield_roundtrip (node_bitfield n)) as (bs & Eser & _ & Ede); [done|].
  destruct (strip_pointers _ Hd) as (E1 & E2 & E3).
  exists (mkWireNode bs (wire_of <$> node_pointers n)). unfold node_serialize, node_deserialize, strip.
  cbn [node_bitfield node_pointers wn_bitfield wn_pointers]. rewrite Eser, Ede. cbn [outcome_bind].
  rewrite (try_map_serialize _ Hd), (try_map_serialize _ E3), E1, E2. done.
Qed.

Lemma save_node_spec r s d n m :
  node_rep r s d n m -> Forall not_dirty (node_pointers n) ->
  exists c s' wn, save_node s n = (Ok c, s') /\ store_le s s' /\ stored s' c wn /\
    node_serialize n = Ok wn /\ node_deserialize wn = Ok (strip n) /\ node_serialize (strip n) = Ok wn /\
    node_rep r s' d n m /\ node_rep r s' d (strip n) m.
Proof.
  intros Hn Hd. destruct (serialize_rep _ _ _ _ _ Hn Hd) as (wn & E1 & E2 & E3 & Hs).
  destruct (save_spec s wn) as (c & s' & E & Hle & Hst). exists c, s', wn.
  unfold save_node. rewrite E1. cbn [try_with]. split_and!; try done; by eapply node_rep_mono.
Qed.

(** ** Replacing every child by one that represents the same map *)
Definition simulates r d s s' p p' : Prop :=
  forall m, pointer_rep (node_rep r s (Datatypes.S d)) s p m ->
    pointer_rep (node_rep r s' (Datatypes.S d)) s' p' m.

Lemma node_rep_simulates r s s' d b (ps ps' : list pointer) m :
  Forall2 (simulates r d s s') ps ps' ->
  node_rep (Datatypes.S r) s d (Node b ps) m -> node_rep (Datatypes.S r) s' d (Node b ps') m.
Proof.
  intros HF (Hb & Hl & Hall). cbn [node_bitfield node_pointers] in *.
  split_and!; cbn [node_bitfield node_pointers]; [done|by rewrite <- (Forall2_length _ _ _ HF)|].
  intros i Hi. specialize (Hall i Hi). destruct (mem b i); [|done]. destruct Hall as (p & Hp & Hr).
  destruct (Forall2_lookup_l _ _ _ _ _ HF Hp) as (p' & Hp' & Hsim). exists p'. split; [done|]. by apply Hsim.
Qed.

(** ** Flushing *)
Lemma flush_cons b p (ps : list pointer) s :
  flush (Node b (p :: ps)) s =
  match p with
  | Dirty n =>
      let '(r, (n', s1)) := flush n s in
      let? _ := r keeping (Node b (Dirty n' :: ps), s1) in
      let '(rc, s2) := save_node s1 n' in
      let? cid := rc keeping (Node b (Dirty n' :: ps), s2) in
      let '(r', (n'', s3)) := flush (Node b ps) s2 in
      (r', (Node b (Link cid (Some n') :: node_pointers n''), s3))
  | _ => let '(r', (n'', s')) := flush (Node b ps) s in (r', (Node b (p :: node_pointers n''), s'))
  end.
Proof.
  destruct p as [vals|c cache|n]; cbn; [by repeat case_match; simplify_eq..|].
  destruct (flush n s) as [[|e|e|] [n' s1]]; try done. cbn.
  destruct (save_node s1 n') as [[c|e|e|] s2]; try done. cbn. by repeat case_match; simplify_eq.
Qed.

(** What flushing a node achieves. *)
Definition flush_ok r d s n : Prop :=
  exists n' s', flush n s = (Ok tt, (n', s')) /\ store_le s s' /\
    Forall not_dirty (node_pointers n') /\
    forall m, node_rep r s d n m -> node_rep r s' d n' m.

Lemma flush_pointers_ok r d b (ps : list pointer) s :
  (forall s n m, node_rep r s (Datatypes.S d) n m -> flush_ok r (Datatypes.S d) s n) ->
  Forall (fun p => exists m, pointer_rep (node_rep r s (Datatypes.S d)) s p m) ps ->
  exists ps' s', flush (Node b ps) s = (Ok tt, (Node b ps', s')) /\ store_le s s' /\
    Forall not_dirty ps' /\ Forall2 (simulates r d s s') ps ps'.
Proof.
  intros IHr. revert s. induction ps as [|p ps IH]; intros s Hps; [by exists [], s|].
  apply Forall_cons in Hps as [(m & Hp) Hps].
  assert (forall s', store_le s s' ->
    Forall (fun p => exists m, pointer_rep (node_rep r s' (Datatypes.S d)) s' p m) ps) as Hps'.
  { intros s' Hle. eapply Forall_impl; [exact Hps|]. intros q (mq & Hq). exists mq.
    eapply pointer_rep_mono; [exact Hle| |exact Hq]. intros. by eapply node_rep_mono. }
  assert (forall s0 s' q q', store_le s s0 -> simulates r d s0 s' q q' -> simulates r d s s' q q') as Hsim.
  { intros s0 s' q q' Hle Hs mq Hq. apply Hs.
    eapply pointer_rep_mono; [exact Hle| |exact Hq]. intros. by eapply node_rep_mono. }
  assert (not_dirty p -> exists ps' s', flush (Node b (p :: ps)) s = (Ok tt, (Node b ps', s')) /\
    store_le s s' /\ Forall not_dirty ps' /\ Forall2 (simulates r d s s') (p :: ps) ps') as Hkeep.
  { intros Hnd. destruct (IH s Hps) as (ps' & s' & E & Hle & Hd & HF). exists (p :: ps'), s'.
    rewrite flush_cons, E. destruct p; [..|done]; (split_and!; [done|done|by constructor|constructor; [|done]];
    intros mq Hq; eapply pointer_rep_mono; [exact Hle| |exact Hq]; intros; by eapply node_rep_mono). }
  destruct p as [vals|c cache|n]; [by apply Hkeep..|].
  destruct Hp as [Hsz Hn]. destruct (IHr s n m Hn) as (n' & s1 & E1 & Hle1 & Hd1 & Hrep1).
  destruct (save_node_spec _ _ _ _ _ (Hrep1 m Hn) Hd1) as (c & s2 & wn & E2 & Hle2 & Hst & Es & Ed & Es' & _).
  destruct (IH s2 (Hps' s2 ltac:(by transitivity s1))) as (ps' & s3 & E3 & Hle3 & Hd3 & HF).
  exists (Link c (Some n') :: ps'), s3. rewrite flush_cons, E1. cbn [try_with]. rewrite E2. cbn [try_with].
  rewrite E3. split_and!; [done|by do 2 (etransitivity; [done|])|by constructor|]. constructor.
  - intros mq [Hszq Hq]. assert (node_rep r s3 (Datatypes.S d) n' mq) as Hn3.
    { eapply node_rep_mono; [|by apply Hrep1]. by transitivity s2. }
    split_and!; [done| |done]. exists wn, (strip n').
    split_and!; [by eapply stored_mono|done|done|by apply strip_rep].
  - eapply Forall2_impl; [exact HF|]. intros q q'. apply Hsim. by transitivity s1.
Qed.

Lemma flush_spec r s d n m : node_rep r s d n m -> flush_ok r d s n.
Proof.
  revert s d n m. induction r as [|r IH]; intros s d n m Hn; [done|].
  destruct (node_rep_parts w width_pos width_le _ _ _ _ _ Hn) as (ms & HF & _).
  destruct n as [b ps]. cbn [node_pointers] in HF.
  destruct (flush_pointers_ok r d b ps s) as (ps' & s' & E & Hle & Hd & Hsim).
  { intros s' n' m' Hn'. by eapply IH. }
  { apply Forall_forall. intros p Hp. apply list_elem_of_lookup in Hp as (i & Hi).
    destruct (Forall2_lookup_l _ _ _ _ _ HF Hi) as (mi & _ & Hr). by exists mi. }
  exists (Node b ps'), s'. split_and!; [done|done|done|]. intros m' Hm'. by eapply node_rep_simulates.
Qed.

(** ** Canonical form *)
Lemma node_rep_bit r s d n m i : node_rep (Datatypes.S r) s d n m -> (i < 256)%N ->
  mem (node_bitfield n) i = bool_decide (bucket d i m <> ∅).
Proof.
  intros (_ & _ & Hall) Hi. specialize (Hall i Hi). destruct (mem _ i).
  - destruct Hall as (p & _ & Hr). apply pointer_rep_nonempty in Hr. by rewrite bool_decide_true.
  - by rewrite Hall, bool_decide_false by naive_solver.
Qed.

End persist.

(** One map has one wire format, whatever the history of the two nodes, and whatever
    the kinds of their stores. *)
Section canonical.
Context {K V Cid S1 S2 : Type}.
Context `{Countable K} `{EqDecision V} `{KeyOrderLaws K} `{HashAlgorithmLaws K}.
Context `{CidLaws Cid} `{EqDecision Cid} `{!BlockStore S1 Cid} `{!BlockStoreLaws S1 Cid} `{!BlockStore S2 Cid} `{!BlockStoreLaws S2 Cid}.
Context `{!BlockCodec (wire_node K V Cid)} `{!BlockCodecLaws Cid (wire_node K V Cid)}.
Context (w : N) (width_pos : (0 < w)%N) (width_le : (w <= 8)%N).

Lemma canonical_wire r (s1 : S1) (s2 : S2) d (n1 n2 : node K V Cid) (m : gmap K V) w1 w2 :
  node_rep w r s1 d n1 m -> node_rep w r s2 d n2 m ->
  node_serialize n1 = Ok w1 -> node_serialize n2 = Ok w2 -> w1 = w2.
Proof.
  revert d n1 n2 m w1 w2. induction r as [|r IH]; intros d n1 n2 m w1 w2 Hn1 Hn2 E1 E2; [done|].
  assert (node_bitfield n1 = node_bitfield n2) as Hbf.
  { apply bitfield_ext; [apply Hn1|apply Hn2|]. intros i Hi.
    by rewrite (node_rep_bit w _ _ _ _ _ _ Hn1 Hi), (node_rep_bit w _ _ _ _ _ _ Hn2 Hi). }
  pose proof (node_serialize_not_dirty _ _ E1) as Hd1. pose proof (node_serialize_not_dirty _ _ E2) as Hd2.
  unfold node_serialize in E1, E2. rewrite (try_map_serialize _ Hd1) in E1.
  rewrite (try_map_serialize _ Hd2) in E2. rewrite Hbf in E1.
  destruct (bitfield_serialize _); try done. cbn in E1, E2.
  apply (f_equal ok_of) in E1, E2. cbn in E1, E2. simplify_eq. f_equal.
  destruct Hn1 as (_ & Hl1 & Hall1), Hn2 as (_ & Hl2 & Hall2). rewrite Hbf in *.
  apply list_eq_same_length with (n := rank (node_bitfield n2) 256); [by rewrite length_fmap..|].
  intros j wp1 wp2 Hj. rewrite !list_lookup_fmap.
  destruct (cnt_surj (mem (node_bitfield n2)) 256 j Hj) as (i & Hi & Hm & <-).
  specialize (Hall1 i Hi). specialize (Hall2 i Hi). rewrite Hm in Hall1, Hall2.
  destruct Hall1 as (p1 & Hp1 & Hr1), Hall2 as (p2 & Hp2 & Hr2). unfold rank in *. rewrite Hp1, Hp2.
  intros [= <-] [= <-].
  pose proof (Forall_lookup_1 _ _ _ _ Hd1 Hp1) as Hnd1. pose proof (Forall_lookup_1 _ _ _ _ Hd2 Hp2) as Hnd2.
  destruct p1 as [vals1|c1 cache1|]; [| |done]; (destruct p2 as [vals2|c2 cache2|]; [| |done]).
  - simpl. f_equal. destruct Hr1 as (_ & _ & Hv1), Hr2 as (_ & _ & Hv2). by eapply vals_rep_unique.
  - destruct Hr1 as (_ & Hv1 & Hv), Hr2 as (Hs & _). apply vals_rep_size in Hv. lia.
  - destruct Hr2 as (_ & Hv1 & Hv), Hr1 as (Hs & _). apply vals_rep_size in Hv. lia.
  - simpl. f_equal. destruct Hr1 as (_ & (wa & na & Hsa & Ea & _ & Hna) & _).
    destruct Hr2 as (_ & (wb & nb & Hsb & Eb & _ & Hnb) & _).
    rewrite (IH _ _ _ _ _ _ Hna Hnb Ea Eb) in Hsa. exact (stored_inj _ _ _ _ _ Hsa Hsb).
Qed.

End canonical.

(** ** Iteration *)
Section iteration.
Context {K V Cid S : Type}.
Context `{Countable K} `{EqDecision V} `{KeyOrderLaws K} `{HashAlgorithmLaws K}.
Context `{CidLaws Cid} `{EqDecision Cid} `{!BlockStore S Cid} `{!BlockStoreLaws S Cid}.
Context `{!BlockCodec (wire_node K V Cid)} `{!BlockCodecLaws Cid (wire_node K V Cid)}.
Context (w : N) (width_pos : (0 < w)%N) (width_le : (w <= 8)%N).
Notation node := (node K V Cid).
Notation pointer := (pointer K V Cid).
Notation node_rep := (node_rep (K := K) (V := V) (Cid := Cid) (S := S) w).
Notation bucket := (bucket (K := K) (V := V) w).
Implicit Types (n : node) (p : pointer) (m : gmap K V) (s : S) (k : K) (d r : nat).

Lemma stream_pointers_spec (R : node -> gmap K V -> Prop) rec s (ps : list pointer) ms :
  (forall n m, R n m -> exists items n', rec n = (items, Ok tt, n') /\ items ≡ₚ map_to_list m /\ R n' m) ->
  Forall2 (pointer_rep R s) ps ms ->
  exists items ps', stream_pointers rec s ps = (items, Ok tt, ps') /\
    items ≡ₚ mjoin (map_to_list <$> ms) /\
    Forall2 (fun p p' => forall m, pointer_rep R s p m -> pointer_rep R s p' m) ps ps'.
Proof.
  intros Hrec. induction 1 as [|p m ps ms Hp _ (items' & ps' & E' & Hperm' & HF')]; [by eexists [], []|].
  assert (exists items p', stream_pointer rec s p = (items, Ok tt, p') /\ items ≡ₚ map_to_list m /\
    forall m, pointer_rep R s p m -> pointer_rep R s p' m) as (items & p' & E & Hperm & Hsim).
  { assert (forall n m, R n m -> forall items n', rec n = (items, Ok tt, n') -> R n' m) as Hkeep.
    { intros n0 m0 Hn0 i0 n0' E0. destruct (Hrec n0 m0 Hn0) as (? & ? & ? & ? & ?). congruence. }
    destruct p as [vals|c cache|n]; cbn [stream_pointer].
    - eexists _, _. split_and!; [done| |done]. symmetry. by apply vals_rep_perm, Hp.
    - destruct (link_node _ _ _ _ _ Hp) as (n & Hl & Hn). destruct (Hrec n m Hn) as (items & n' & En & Hperm & Hn').
      exists items, (Link c (Some n')). split_and!; [|done|].
      + destruct cache as [n0|]; [simplify_eq; by rewrite En|]. by rewrite Hl, En.
      + intros m0 Hp0. destruct (link_node _ _ _ _ _ Hp0) as (n0 & Hl0 & Hn0).
        assert (n0 = n) as -> by congruence. eapply link_fill; [exact Hp0|]. by eapply Hkeep.
    - destruct Hp as [Hs Hn]. destruct (Hrec n m Hn) as (items & n' & En & Hperm & Hn').
      exists items, (Dirty n'). rewrite En. split_and!; [done|done|]. intros m0 [? Hn0]. split; [done|].
      by eapply Hkeep. }
  eexists _, _. cbn [stream_pointers]. rewrite E, E'. split_and!; [done| |by constructor].
  by rewrite join_entries_cons, Hperm, Hperm'.
Qed.

Lemma stream_spec r fuel s d n m :
  r <= fuel -> node_rep r s d n m ->
  exists items n', stream fuel s n = (items, Ok tt, n') /\ items ≡ₚ map_to_list m /\ node_rep r s d n' m.
Proof.
  revert fuel d n m. induction r as [|r IH]; intros fuel d n m Hf Hn; [done|].
  destruct fuel as [|fuel]; [lia|]. cbn [stream].
  destruct (node_rep_parts w width_pos width_le _ _ _ _ _ Hn) as (ms & HF & Hperm).
  destruct (stream_pointers_spec _ (stream fuel s) s _ _
    (fun n m Hnm => IH fuel (Datatypes.S d) n m ltac:(lia) Hnm) HF) as (items & ps' & E & Hitems & Hsim).
  exists items, (Node (node_bitfield n) ps'). rewrite E. split_and!; [done|by rewrite Hitems|].
  destruct n as [b ps]. by eapply node_rep_simulates.
Qed.

(** The steps [into_stream] needs for a pointer with [r] levels below it. *)
Definition pops (rm : nat * nat * gmap K V) : nat := 1 + rm.1.1 * size rm.2.

Definition item_rep s p (rm : nat * nat * gmap K V) : Prop :=
  pointer_rep (node_rep rm.1.1 s rm.1.2) s p rm.2.

Lemma pops_children r d (ms : list (gmap K V)) :
  sum_list (pops <$> ((fun m => (r, d, m)) <$> ms)) = length ms + r * sum_list (size <$> ms).
Proof. induction ms as [|m ms IH]; cbn -[Nat.mul]; [lia|]. rewrite IH. unfold pops. cbn -[Nat.mul]. lia. Qed.

Lemma into_stream_children r s d n m :
  node_rep r s d n m -> exists rms, Forall2 (item_rep s) (node_pointers n) rms /\
    mjoin ((fun rm => map_to_list rm.2) <$> rms) ≡ₚ map_to_list m /\
    sum_list (pops <$> rms) <= r * size m.
Proof.
  destruct r as [|r]; [done|]. intros Hn.
  destruct (node_rep_parts w width_pos width_le _ _ _ _ _ Hn) as (ms & HF & Hperm).
  exists ((fun m => (r, Datatypes.S d, m)) <$> ms). split_and!.
  - apply Forall2_fmap_r. exact HF.
  - rewrite <- list_fmap_compose. exact Hperm.
  - rewrite pops_children, (parts_size _ _ Hperm), <- (Forall2_length _ _ _ HF).
    pose proof (parts_nonempty w width_pos width_le _ _ _ _ HF). lia.
Qed.

Lemma vec_pop_app (ps : list pointer) p : vec_pop (ps ++ [p]) = Some (p, ps).
Proof. unfold vec_pop. by rewrite reverse_snoc, reverse_involutive. Qed.

Lemma entries_snoc (rms : list (nat * nat * gmap K V)) rms' :
  mjoin ((fun rm => map_to_list rm.2) <$> rms ++ rms')
    = mjoin ((fun rm => map_to_list rm.2) <$> rms) ++ mjoin ((fun rm => map_to_list rm.2) <$> rms').
Proof. by rewrite fmap_app, join_app. Qed.

Lemma into_stream_spec fuel s (ps : list pointer) rms :
  sum_list (pops <$> rms) <= fuel -> Forall2 (item_rep s) ps rms ->
  exists items, into_stream fuel s ps = (items, Ok tt) /\
    items ≡ₚ mjoin ((fun rm => map_to_list rm.2) <$> rms).
Proof.
  revert ps rms. induction fuel as [|fuel IH]; intros ps rms Hf HF;
    (destruct ps as [|p ps _] using rev_ind; [apply Forall2_nil_inv_l in HF as ->; by exists []|]);
    apply Forall2_app_inv_l in HF as (rms1 & rms2 & HF & Hp & ->);
    apply Forall2_cons_inv_l in Hp as ([[r d] m] & rms3 & Hp & Hnil & ->);
    apply Forall2_nil_inv_l in Hnil as ->;
    rewrite fmap_app, sum_list_with_app in Hf; cbn in Hf; [lia|].
  cbn [into_stream]. rewrite vec_pop_app, entries_snoc.
  assert (forall n, node_rep r s d n m -> exists items, into_stream fuel s (ps ++ node_pointers n) = (items, Ok tt) /\
    items ≡ₚ mjoin ((fun rm => map_to_list rm.2) <$> rms1) ++ map_to_list m) as Hdescend.
  { intros n Hn. destruct (into_stream_children _ _ _ _ _ Hn) as (rms & HF' & Hperm & Hpops).
    destruct (IH (ps ++ node_pointers n) (rms1 ++ rms)) as (items & E & Hitems).
    - rewrite fmap_app, sum_list_with_app. lia.
    - by apply Forall2_app.
    - exists items. split; [done|]. by rewrite Hitems, entries_snoc, Hperm. }
  cbn [fmap list_fmap mjoin list_join]. rewrite app_nil_r. destruct p as [vals|c cache|n].
  - destruct (IH ps rms1 ltac:(lia) HF) as (items & -> & Hitems). eexists. split; [done|].
    destruct Hp as (_ & _ & Hv). rewrite Hitems, (vals_rep_perm _ _ Hv). apply Permutation_app_comm.
  - destruct (link_node _ _ _ _ _ Hp) as (n & -> & Hn). by apply Hdescend.
  - by apply Hdescend, Hp.
Qed.
End iteration.
