(* ===== verification/Hamt.v ===== *)
(** * The HAMT

    Model of [noosphere-collections/src/hamt/hamt_implementation.rs]: the map
    that owns a root node, the store its blocks live in and its bit width.
    The abstract specification is a finite map; [hamt_rep] relates the two and
    every operation is shown to implement its counterpart on finite maps. *)
From stdpp Require Import base gmap list numbers sorting.
From S2P Require Import Prelude Bitfield BlockStore HamtNode HamtRep HamtProofs HamtPersist.

Definition DEFAULT_BIT_WIDTH : N := 8.

Record Hamt (K V Cid S : Type) := mkHamt {
  hamt_root : node K V Cid;
  hamt_store : S;
  hamt_bit_width : N;
}.
Arguments mkHamt {K V Cid S} _ _ _.
Arguments hamt_root {K V Cid S} _.
Arguments hamt_store {K V Cid S} _.
Arguments hamt_bit_width {K V Cid S} _.

Section hamt.
Context {K V Cid S : Type}.
Context `{EqDecision K} `{EqDecision V} `{HashAlgorithm K} `{KeyOrder K}.
Context `{CidOps Cid} `{!BlockStore S Cid} `{!BlockCodec (wire_node K V Cid)}.
Notation Hamt := (Hamt K V Cid S).
Implicit Types (h : Hamt) (k : K) (v : V).

Definition hamt_new_with_bit_width (s : S) (bit_width : N) : Hamt := mkHamt node_default s bit_width.
Definition hamt_new (s : S) : Hamt := hamt_new_with_bit_width s DEFAULT_BIT_WIDTH.

Definition hamt_load_with_bit_width (cid : Cid) (s : S) (bit_width : N) : outcome Hamt :=
  let? root := load_node s cid in Ok (mkHamt root s bit_width).
Definition hamt_load (cid : Cid) (s : S) : outcome Hamt := hamt_load_with_bit_width cid s DEFAULT_BIT_WIDTH.

Definition with_root h (root : node K V Cid) : Hamt := mkHamt root (hamt_store h) (hamt_bit_width h).

Definition hamt_set_root h (cid : Cid) : outcome unit * Hamt :=
  let? root := load_node (hamt_store h) cid keeping h in (Ok tt, with_root h root).

(** One more unit than there are levels: the call below the last level is the
    one that reports the exhausted hash. *)
Definition depth_fuel h : nat := Datatypes.S (levels (hamt_bit_width h)).

(** [Node::set], [Node::search] and [Node::remove_entry] start at the first bit
    of the hash. *)
Definition node_set h k v (overwrite : bool) : outcome (option V * bool) * Hamt :=
  let '(r, root) := modify_value (depth_fuel h) (hamt_store h) (hamt_root h)
    (hash_bits_new (hamt_hash k)) (hamt_bit_width h) k v overwrite in
  (r, with_root h root).

Definition node_search h k : outcome (option (K * V)) * Hamt :=
  let '(r, root) := get_value (depth_fuel h) (hamt_store h) (hamt_root h)
    (hash_bits_new (hamt_hash k)) (hamt_bit_width h) k in
  (r, with_root h root).

Definition node_remove_entry h k : outcome (option (K * V)) * Hamt :=
  let '(r, root) := rm_value (depth_fuel h) (hamt_store h) (hamt_root h)
    (hash_bits_new (hamt_hash k)) (hamt_bit_width h) k in
  (r, with_root h root).

Definition hamt_set h k v : outcome (option V) * Hamt :=
  let '(r, h') := node_set h k v true in (outcome_map fst r, h').

Definition hamt_set_if_absent h k v : outcome bool * Hamt :=
  let '(r, h') := node_set h k v false in (outcome_map snd r, h').

Definition hamt_get h k : outcome (option V) * Hamt :=
  let '(r, h') := node_search h k in (outcome_map (fun o => snd <$> o) r, h').

Definition hamt_contains_key h k : outcome bool * Hamt :=
  let '(r, h') := node_search h k in (outcome_map (fun o => bool_decide (is_Some (snd <$> o))) r, h').

Definition hamt_delete h k : outcome (option (K * V)) * Hamt := node_remove_entry h k.

Definition hamt_flush h : outcome Cid * Hamt :=
  let '(r, (root, s)) := flush (hamt_root h) (hamt_store h) in
  let h' := mkHamt root s (hamt_bit_width h) in
  let? _ := r keeping h' in
  let '(rc, s') := save_node s root in
  (rc, mkHamt root s' (hamt_bit_width h)).

Definition hamt_is_empty h : bool := node_is_empty (hamt_root h).

Definition hamt_stream h : list (K * V) * outcome unit * Hamt :=
  let '(items, r, root) := stream (depth_fuel h) (hamt_store h) (hamt_root h) in
  (items, r, with_root h root).

Definition hamt_into_stream (fuel : nat) h : list (K * V) * outcome unit :=
  into_stream fuel (hamt_store h) (node_pointers (hamt_root h)).

(** [for_each]: the callback runs on each entry in turn and its first error is
    returned; the loop also ends, with [Ok], when the stream yields an error. *)
Definition hamt_for_each {St} (f : K -> V -> St -> outcome unit * St) h (st : St) : outcome unit * St :=
  let '(items, r, _) := hamt_stream h in
  let '(rf, st') := for_each_st (fun kv st => f kv.1 kv.2 st) items st in
  let? _ := rf keeping st' in
  match r with
  | Ok _ | Err _ => (Ok tt, st')
  | Panic w => (Panic w, st')
  | Diverge => (Diverge, st')
  end.
End hamt.

Section hamt_facts.
Context {K V Cid S : Type}.
Context `{Countable K} `{EqDecision V} `{KeyOrderLaws K} `{HashAlgorithmLaws K}.
Context `{CidLaws Cid} `{EqDecision Cid} `{!BlockStore S Cid} `{!BlockStoreLaws S Cid}.
Context `{!BlockCodec (wire_node K V Cid)} `{!BlockCodecLaws Cid (wire_node K V Cid)}.
Notation Hamt := (Hamt K V Cid S).
Implicit Types (h : Hamt) (k : K) (v : V) (m : gmap K V).

Lemma hamt_set_node n s w k v r n' :
  modify_value (Datatypes.S (levels w)) s n (hash_bits_new (hamt_hash k)) w k v true = (r, n') ->
  hamt_set (mkHamt n s w) k v = (outcome_map fst r, mkHamt n' s w).
Proof. intros E. unfold hamt_set, node_set, depth_fuel. cbn [hamt_bit_width hamt_store hamt_root]. by rewrite E. Qed.

(** A map of bit width [w] whose root represents [m]. *)
Definition hamt_rep (w : N) h m : Prop :=
  hamt_bit_width h = w /\ (0 < w <= 8)%N /\ node_rep w (levels w) (hamt_store h) 0 (hamt_root h) m.

Lemma levels_pos w : (0 < w <= 8)%N -> 0 < levels w.
Proof.
  intros Hw. unfold levels. assert (1 <= 256 / w)%N; [|lia].
  apply N.div_le_lower_bound; lia.
Qed.

Lemma hamt_new_rep w s : (0 < w <= 8)%N -> hamt_rep w (hamt_new_with_bit_width s w) (∅ : gmap K V).
Proof.
  intros Hw. split_and!; [done|lia|lia|]. pose proof (levels_pos w Hw) as Hl.
  destruct (levels w); [lia|]. apply node_default_rep.
Qed.

Lemma node_set_rep w h m k v ow :
  hamt_rep w h m -> separated w (fun k' => k' ∈ dom m \/ k' = k) ->
  exists h', node_set h k v ow = (Ok (set_result m k v ow), h') /\ hamt_store h' = hamt_store h /\
    hamt_rep w h' (set_map m k v ow).
Proof.
  intros (Hwd & Hw & Hn) Hsep.
  destruct (modify_value_spec w ltac:(lia) ltac:(lia) (levels w) (depth_fuel h)) with
    (s := hamt_store h) (d := 0) (n := hamt_root h) (m := m) (k := k) (v := v) (ow := ow)
    as (n' & E & Hn'); [unfold depth_fuel; rewrite Hwd; lia|done|done|lia|done|].
  change (N.of_nat 0 * w)%N with 0%N in E. unfold node_set, hash_bits_new, new_at_index.
  rewrite Hwd, E. by eexists.
Qed.

Lemma node_search_rep w h m k :
  hamt_rep w h m ->
  exists h', node_search h k = (Ok ((fun v => (k, v)) <$> m !! k), h') /\ hamt_store h' = hamt_store h /\
    hamt_rep w h' m.
Proof.
  intros (Hwd & Hw & Hn).
  destruct (get_value_spec w ltac:(lia) ltac:(lia) (levels w) (depth_fuel h) (hamt_store h) 0
    (hamt_root h) m k) as (n' & E & Hn'); [unfold depth_fuel; rewrite Hwd; lia|done|done|].
  change (N.of_nat 0 * w)%N with 0%N in E. unfold node_search, hash_bits_new, new_at_index.
  rewrite Hwd, E. by eexists.
Qed.

Lemma hamt_delete_rep w h m k :
  hamt_rep w h m ->
  exists h', hamt_delete h k = (Ok ((fun v => (k, v)) <$> m !! k), h') /\ hamt_store h' = hamt_store h /\
    hamt_rep w h' (delete k m).
Proof.
  intros (Hwd & Hw & Hn).
  destruct (rm_value_spec w ltac:(lia) ltac:(lia) (levels w) (depth_fuel h) (hamt_store h) 0
    (hamt_root h) m k) as (n' & E & Hn'); [unfold depth_fuel; rewrite Hwd; lia|done|done|].
  change (N.of_nat 0 * w)%N with 0%N in E. unfold hamt_delete, node_remove_entry, hash_bits_new, new_at_index.
  rewrite Hwd, E. by eexists.
Qed.

Lemma hamt_set_rep w h m k v :
  hamt_rep w h m -> separated w (fun k' => k' ∈ dom m \/ k' = k) ->
  exists h', hamt_set h k v = (Ok (m !! k), h') /\ hamt_store h' = hamt_store h /\
    hamt_rep w h' (<[k := v]> m).
Proof.
  intros Hh Hsep. destruct (node_set_rep w h m k v true Hh Hsep) as (h' & E & Hs & Hh').
  exists h'. unfold hamt_set. rewrite E. unfold set_result, set_map in *. by destruct (m !! k).
Qed.

Lemma hamt_set_if_absent_rep w h m k v :
  hamt_rep w h m -> separated w (fun k' => k' ∈ dom m \/ k' = k) ->
  exists h', hamt_set_if_absent h k v = (Ok (bool_decide (m !! k = None)), h') /\
    hamt_store h' = hamt_store h /\
    hamt_rep w h' (match m !! k with Some _ => m | None => <[k := v]> m end).
Proof.
  intros Hh Hsep. destruct (node_set_rep w h m k v false Hh Hsep) as (h' & E & Hs & Hh').
  exists h'. unfold hamt_set_if_absent. rewrite E. unfold set_result, set_map in *. by destruct (m !! k).
Qed.

Lemma hamt_get_rep w h m k :
  hamt_rep w h m ->
  exists h', hamt_get h k = (Ok (m !! k), h') /\ hamt_store h' = hamt_store h /\ hamt_rep w h' m.
Proof.
  intros Hh. destruct (node_search_rep w h m k Hh) as (h' & E & Hs & Hh').
  exists h'. unfold hamt_get. rewrite E. by destruct (m !! k).
Qed.

Lemma hamt_contains_key_rep w h m k :
  hamt_rep w h m ->
  exists h', hamt_contains_key h k = (Ok (bool_decide (k ∈ dom m)), h') /\
    hamt_store h' = hamt_store h /\ hamt_rep w h' m.
Proof.
  intros Hh. destruct (node_search_rep w h m k Hh) as (h' & E & Hs & Hh').
  exists h'. unfold hamt_contains_key. rewrite E. split; [|done]. cbn. do 2 f_equal.
  apply bool_decide_ext. rewrite elem_of_dom. destruct (m !! k); cbn; [by split; eauto|].
  split; by intros [].
Qed.

Lemma hamt_is_empty_rep w h m : hamt_rep w h m -> hamt_is_empty h = bool_decide (m = ∅).
Proof.
  intros (Hwd & Hw & Hn). pose proof (levels_pos w Hw) as Hl. destruct (levels w) as [|r]; [lia|].
  destruct (node_rep_parts w ltac:(lia) ltac:(lia) _ _ _ _ _ Hn) as (ms & HF & Hperm).
  unfold hamt_is_empty, node_is_empty. destruct (node_pointers (hamt_root h)) as [|p ps].
  - apply Forall2_nil_inv_l in HF as ->. cbn in Hperm. apply Permutation_nil in Hperm.
    apply map_to_list_empty_iff in Hperm as ->. done.
  - apply (parts_nonempty w ltac:(lia) ltac:(lia)) in HF. rewrite <- (parts_size _ _ Hperm) in HF.
    rewrite bool_decide_false; [done|]. intros ->. by rewrite map_size_empty in HF; cbn in HF; lia.
Qed.

(** Flushing writes blocks from which the same map loads again. *)
Lemma hamt_flush_rep w h m :
  hamt_rep w h m ->
  exists c h', hamt_flush h = (Ok c, h') /\ store_le (hamt_store h) (hamt_store h') /\ hamt_rep w h' m /\
    exists wn root, stored (hamt_store h') c wn /\ node_serialize (hamt_root h') = Ok wn /\
      load_node (hamt_store h') c = Ok root /\
      node_rep w (levels w) (hamt_store h') 0 root m.
Proof.
  intros (Hwd & Hw & Hn).
  destruct (flush_spec w ltac:(lia) ltac:(lia) _ _ _ _ _ Hn) as (n' & s1 & E1 & Hle1 & Hd & Hrep).
  destruct (save_node_spec w _ _ _ _ _ (Hrep m Hn) Hd) as (c & s2 & wn & E2 & Hle2 & Hst & Es & Ed & _ & Hn2 & Hs2).
  exists c, (mkHamt n' s2 (hamt_bit_width h)). unfold hamt_flush. rewrite E1. cbn [try_with]. rewrite E2.
  split_and!; [done|by transitivity s1|by split; [|split]|].
  exists wn, (strip n'). split_and!; try done. by eapply load_node_stored.
Qed.

(** From any store that holds the blocks of the flushed one, the CID loads. *)
Lemma hamt_flush_loads w h m :
  hamt_rep w h m ->
  exists c h', hamt_flush h = (Ok c, h') /\ store_le (hamt_store h) (hamt_store h') /\
    forall s, store_le (hamt_store h') s -> exists h'', hamt_load_with_bit_width c s w = Ok h'' /\ hamt_store h'' = s /\
      hamt_rep w h'' m.
Proof.
  intros Hh. destruct (hamt_flush_rep w h m Hh) as (c & h' & E & Hle & (Hb & Hw & Hn) & wn & root & Hst & _ & El & Hr).
  exists c, h'. split_and!; [done|done|]. intros s Hs. unfold hamt_load_with_bit_width.
  assert (load_node s c = Ok root) as ->.
  { unfold load_node in *. rewrite (stored_load _ _ _ Hst) in El. by rewrite (stored_load s c wn (stored_mono _ _ _ _ Hs Hst)). }
  eexists. split; [done|]. split; [done|]. split; [done|]. split; [done|]. by eapply node_rep_mono.
Qed.

Lemma hamt_stream_rep w h m :
  hamt_rep w h m ->
  exists items h', hamt_stream h = (items, Ok tt, h') /\ items ≡ₚ map_to_list m /\
    hamt_store h' = hamt_store h /\ hamt_rep w h' m.
Proof.
  intros (Hwd & Hw & Hn).
  destruct (stream_spec w ltac:(lia) ltac:(lia) (levels w) (depth_fuel h) _ _ _ _
    ltac:(unfold depth_fuel; rewrite Hwd; lia) Hn) as (items & n' & E & Hp & Hn').
  exists items, (with_root h n'). unfold hamt_stream. rewrite E. done.
Qed.

Lemma hamt_into_stream_rep w h m fuel :
  hamt_rep w h m -> levels w * size m <= fuel ->
  exists items, hamt_into_stream fuel h = (items, Ok tt) /\ items ≡ₚ map_to_list m.
Proof.
  intros (Hwd & Hw & Hn) Hf.
  destruct (into_stream_children w ltac:(lia) ltac:(lia) _ _ _ _ _ Hn) as (rms & HF & Hperm & Hpops).
  destruct (into_stream_spec w ltac:(lia) ltac:(lia) fuel (hamt_store h) _ rms ltac:(lia) HF)
    as (items & E & Hitems).
  exists items. split; [exact E|]. by rewrite Hitems.
Qed.
End hamt_facts.

Section hamt_canonical.
Context {K V Cid S1 S2 : Type}.
Context `{Countable K} `{EqDecision V} `{KeyOrderLaws K} `{HashAlgorithmLaws K}.
Context `{CidLaws Cid} `{EqDecision Cid} `{!BlockStore S1 Cid} `{!BlockStoreLaws S1 Cid} `{!BlockStore S2 Cid} `{!BlockStoreLaws S2 Cid}.
Context `{!BlockCodec (wire_node K V Cid)} `{!BlockCodecLaws Cid (wire_node K V Cid)}.

(** Two flushed maps with the same entries have the same CID. *)
Lemma hamt_flush_canonical w (h1 : Hamt K V Cid S1) (h2 : Hamt K V Cid S2) (m : gmap K V) c1 c2 h1' h2' :
  hamt_rep w h1 m -> hamt_rep w h2 m ->
  hamt_flush h1 = (Ok c1, h1') -> hamt_flush h2 = (Ok c2, h2') -> c1 = c2.
Proof.
  intros Hh1 Hh2 E1 E2.
  destruct (hamt_flush_rep _ _ _ Hh1) as (c1' & h1'' & F1 & _ & (_ & _ & R1) & w1 & ? & St1 & Ser1 & _).
  destruct (hamt_flush_rep _ _ _ Hh2) as (c2' & h2'' & F2 & _ & (_ & _ & R2) & w2 & ? & St2 & Ser2 & _).
  destruct Hh1 as (_ & Hw & _).
  assert (w1 = w2) as -> by exact (canonical_wire (S1 := S1) (S2 := S2) w ltac:(lia) ltac:(lia) _ _ _ _ _ _ _ _ _ R1 R2 Ser1 Ser2). pose proof (stored_inj (S := S1) (S' := S2) _ _ _ _ _ St1 St2). congruence.
Qed.
End hamt_canonical.
