(* ===== verification/HamtSpec.v ===== *)
(** * The HAMT as a finite map

    Sequences of operations on a HAMT against the same operations on a finite
    map, including writing the map out and reading it back, and the properties
    of the HAMT that follow.

    What [Node::modify_value] does when a full array meets a fourth key with
    the same whole hash: the insertion fails below the last level, and the
    array whose entries were being moved has already been emptied. *)
From stdpp Require Import base gmap list numbers sorting.
From S2P Require Import Prelude Bitfield BlockStore HamtNode HamtRep HamtProofs HamtPersist Hamt.

(** ** Operations as data *)
Inductive hamt_op (K V : Type) : Type :=
  | OpSet (k : K) (v : V)
  | OpSetIfAbsent (k : K) (v : V)
  | OpGet (k : K)
  | OpContainsKey (k : K)
  | OpDelete (k : K)
  | OpIsEmpty
  | OpFlush
  | OpReload.
Arguments OpSet {K V} k v.
Arguments OpSetIfAbsent {K V} k v.
Arguments OpGet {K V} k.
Arguments OpContainsKey {K V} k.
Arguments OpDelete {K V} k.
Arguments OpIsEmpty {K V}.
Arguments OpFlush {K V}.
Arguments OpReload {K V}.

(** What a caller sees of one operation; the CID of a flush is left to
    [flush_canonical]. *)
Inductive hamt_obs (K V : Type) : Type :=
  | ObsValue (o : option V)
  | ObsEntry (o : option (K * V))
  | ObsBool (b : bool)
  | ObsDone.
Arguments ObsValue {K V} o.
Arguments ObsEntry {K V} o.
Arguments ObsBool {K V} b.
Arguments ObsDone {K V}.

Definition op_key {K V} (op : hamt_op K V) : list K :=
  match op with
  | OpSet k _ | OpSetIfAbsent k _ | OpGet k | OpContainsKey k | OpDelete k => [k]
  | OpIsEmpty | OpFlush | OpReload => []
  end.

Section spec.
Context {K V : Type} `{Countable K}.

Definition map_step (m : gmap K V) (op : hamt_op K V) : hamt_obs K V * gmap K V :=
  match op with
  | OpSet k v => (ObsValue (m !! k), <[k := v]> m)
  | OpSetIfAbsent k v =>
      match m !! k with Some _ => (ObsBool false, m) | None => (ObsBool true, <[k := v]> m) end
  | OpGet k => (ObsValue (m !! k), m)
  | OpContainsKey k => (ObsBool (bool_decide (k ∈ dom m)), m)
  | OpDelete k => (ObsEntry ((fun v => (k, v)) <$> m !! k), delete k m)
  | OpIsEmpty => (ObsBool (bool_decide (map_to_list m = [])), m)
  | OpFlush | OpReload => (ObsDone, m)
  end.

Fixpoint map_run (m : gmap K V) (ops : list (hamt_op K V)) : list (hamt_obs K V) * gmap K V :=
  match ops with
  | [] => ([], m)
  | op :: ops' =>
      let '(o, m') := map_step m op in let '(os, m'') := map_run m' ops' in (o :: os, m'')
  end.
End spec.

Section run.
Context {K V Cid S : Type}.
Context `{EqDecision K} `{EqDecision V} `{HashAlgorithm K} `{KeyOrder K}.
Context `{CidOps Cid} `{!BlockStore S Cid} `{!BlockCodec (wire_node K V Cid)}.
Notation Hamt := (Hamt K V Cid S).

(** Write the map out and open it again from its CID, as a caller does that
    keeps only the CID between two sessions. *)
Definition hamt_reload (h : Hamt) : outcome unit * Hamt :=
  let '(r, h1) := hamt_flush h in
  let? cid := r keeping h1 in
  let? h2 := hamt_load_with_bit_width cid (hamt_store h1) (hamt_bit_width h1) keeping h1 in
  (Ok tt, h2).

Definition observe {A} (f : A -> hamt_obs K V) (r : outcome A * Hamt) : outcome (hamt_obs K V) * Hamt :=
  (outcome_map f r.1, r.2).

Definition hamt_step (h : Hamt) (op : hamt_op K V) : outcome (hamt_obs K V) * Hamt :=
  match op with
  | OpSet k v => observe ObsValue (hamt_set h k v)
  | OpSetIfAbsent k v => observe ObsBool (hamt_set_if_absent h k v)
  | OpGet k => observe ObsValue (hamt_get h k)
  | OpContainsKey k => observe ObsBool (hamt_contains_key h k)
  | OpDelete k => observe ObsEntry (hamt_delete h k)
  | OpIsEmpty => (Ok (ObsBool (hamt_is_empty h)), h)
  | OpFlush => observe (fun _ => ObsDone) (hamt_flush h)
  | OpReload => observe (fun _ => ObsDone) (hamt_reload h)
  end.

Fixpoint hamt_run (h : Hamt) (ops : list (hamt_op K V)) : outcome (list (hamt_obs K V)) * Hamt :=
  match ops with
  | [] => (Ok [], h)
  | op :: ops' =>
      let '(r, h') := hamt_step h op in
      let? o := r keeping h' in
      let '(rs, h'') := hamt_run h' ops' in (outcome_map (cons o) rs, h'')
  end.
End run.

Section refinement.
Context {K V Cid S : Type}.
Context `{Countable K} `{EqDecision V} `{KeyOrderLaws K} `{HashAlgorithmLaws K}.
Context `{CidLaws Cid} `{EqDecision Cid} `{!BlockStore S Cid} `{!BlockStoreLaws S Cid}.
Context `{!BlockCodec (wire_node K V Cid)} `{!BlockCodecLaws Cid (wire_node K V Cid)}.
Notation Hamt := (Hamt K V Cid S).
Implicit Types (h : Hamt) (k : K) (v : V) (m : gmap K V) (P : K -> Prop).

(** Keys whose hashes do not collide. *)
Definition collision_free P : Prop := forall k1 k2, P k1 -> P k2 -> hamt_hash k1 = hamt_hash k2 -> k1 = k2.

(** When the bit width divides the length of the hash, different hashes differ
    in the part of some level. *)
Lemma collision_free_separated w P :
  (0 < w <= 8)%N -> (w | 256)%N -> collision_free P -> separated w P.
Proof.
  intros Hw [q Hq] Hcf k1 k2 HP1 HP2 Hne. assert (levels w = N.to_nat q) as Hl.
  { unfold levels. rewrite Hq, N.div_mul by lia. done. }
  destruct (decide (Forall (fun j => chunk w k1 j = chunk w k2 j) (seq 0 (levels w)))) as [Hall|Hall].
  - destruct Hne. apply Hcf; [done..|]. apply bit_at_ext; [apply hamt_hash_wf..|]. intros i Hi.
    rewrite Forall_forall in Hall. assert (i / w < q)%N as Hiw by (apply N.Div0.div_lt_upper_bound; lia).
    assert (N.to_nat (i / w) ∈ seq 0 (levels w)) as Hin.
    { rewrite elem_of_seq, Hl. revert Hiw. generalize (i / w)%N. lia. }
    specialize (Hall _ Hin). unfold chunk in Hall. rewrite N2Nat.id in Hall.
    pose proof (N.div_mod i w ltac:(lia)) as Hdm. rewrite Hdm, (N.mul_comm w).
    apply (bits_value_inj _ _ _ _ Hall). rewrite N2Nat.id. apply N.mod_lt. lia.
  - apply not_Forall_Exists in Hall; [|apply _]. apply Exists_exists in Hall as (j & Hj & Hd).
    exists j. apply elem_of_seq in Hj. split; [lia|done].
Qed.

Lemma hamt_reload_rep w h m : hamt_rep w h m ->
  exists h', hamt_reload h = (Ok tt, h') /\ hamt_rep w h' m.
Proof.
  intros Hh. destruct (hamt_flush_rep w h m Hh) as (c & h1 & E & _ & (Hb & Hw & Hn) & wn & root & _ & _ & El & Hr).
  unfold hamt_reload, hamt_load_with_bit_width. rewrite E. cbn [try_with]. rewrite El. cbn.
  eexists. split; [done|]. by split; [|split].
Qed.

Lemma hamt_step_rep w h m P op :
  hamt_rep w h m -> separated w P -> (forall k, k ∈ dom m -> P k) -> Forall P (op_key op) ->
  exists h', hamt_step h op = (Ok (map_step m op).1, h') /\ hamt_rep w h' (map_step m op).2.
Proof.
  intros Hh Hsep Hdom Hop.
  assert (forall k, op_key op = [k] -> separated w (fun k' => k' ∈ dom m \/ k' = k)) as Hs.
  { intros k E. rewrite E in Hop. apply Forall_cons_1 in Hop as [Hop _].
    eapply separated_mono; [|exact Hsep]. intros k1 [?| ->]; [by apply Hdom|done]. }
  destruct op as [k v|k v|k|k|k| | |]; cbn [hamt_step map_step].
  - destruct (hamt_set_rep w h m k v Hh (Hs k eq_refl)) as (h' & -> & _ & Hh'). by exists h'.
  - destruct (hamt_set_if_absent_rep w h m k v Hh (Hs k eq_refl)) as (h' & -> & _ & Hh').
    exists h'. by destruct (m !! k).
  - destruct (hamt_get_rep w h m k Hh) as (h' & -> & _ & Hh'). by exists h'.
  - destruct (hamt_contains_key_rep w h m k Hh) as (h' & -> & _ & Hh'). by exists h'.
  - destruct (hamt_delete_rep w h m k Hh) as (h' & -> & _ & Hh'). by exists h'.
  - exists h. rewrite (hamt_is_empty_rep w h m Hh). split; [|done]. cbn [fst]. do 3 f_equal.
    apply bool_decide_ext. symmetry. apply map_to_list_empty_iff.
  - destruct (hamt_flush_rep w h m Hh) as (c & h' & -> & _ & Hh' & _). by exists h'.
  - destruct (hamt_reload_rep w h m Hh) as (h' & -> & Hh'). by exists h'.
Qed.

Lemma map_step_dom m P (op : hamt_op K V) : (forall k, k ∈ dom m -> P k) -> Forall P (op_key op) ->
  forall k, k ∈ dom (map_step m op).2 -> P k.
Proof.
  intros Hdom Hop k'. destruct op as [k v|k v|k|k|k| | |]; cbn; auto.
  - apply Forall_cons_1 in Hop as [Hop _]. rewrite dom_insert_L. set_solver.
  - apply Forall_cons_1 in Hop as [Hop _]. destruct (m !! k); cbn; auto. rewrite dom_insert_L. set_solver.
  - rewrite dom_delete_L. set_solver.
Qed.

Lemma hamt_run_rep w h m P ops :
  hamt_rep w h m -> separated w P -> (forall k, k ∈ dom m -> P k) -> Forall (fun op => Forall P (op_key op)) ops ->
  exists h', hamt_run h ops = (Ok (map_run m ops).1, h') /\ hamt_rep w h' (map_run m ops).2.
Proof.
  intros Hh Hsep Hdom Hops. revert h m Hh Hdom.
  induction Hops as [|op ops Hop _ IH]; intros h m Hh Hdom; [by exists h|].
  destruct (hamt_step_rep w h m P op Hh Hsep Hdom Hop) as (h1 & E1 & Hh1).
  pose proof (map_step_dom m P op Hdom Hop) as Hdom1. cbn [hamt_run map_run]. rewrite E1. cbn [try_with].
  destruct (map_step m op) as [o m1]. cbn [fst snd] in *.
  destruct (IH h1 m1 Hh1 Hdom1) as (h2 & E2 & Hh2). rewrite E2. destruct (map_run m1 ops) as [os m2].
  by exists h2.
Qed.

(** The keys a sequence of operations mentions. *)
Definition ops_keys (ops : list (hamt_op K V)) : list K := mjoin (op_key <$> ops).

Lemma ops_keys_all ops : Forall (fun op => Forall (fun k => k ∈ ops_keys ops) (op_key op)) ops.
Proof.
  apply Forall_forall. intros op Hop. apply Forall_forall. intros k Hk. unfold ops_keys.
  apply list_elem_of_join. exists (op_key op). split; [done|]. by apply list_elem_of_fmap_2.
Qed.

(** Whether the keys of a list collide can be computed. *)
Lemma collision_free_list (l : list K) :
  Forall (fun k1 => Forall (fun k2 => hamt_hash k1 = hamt_hash k2 -> k1 = k2) l) l ->
  collision_free (fun k => k ∈ l).
Proof. intros Hall k1 k2 Hk1 Hk2. rewrite Forall_forall in Hall. specialize (Hall k1 Hk1). rewrite Forall_forall in Hall. auto. Qed.

Lemma hamt_run_new s ops :
  collision_free (fun k => k ∈ ops_keys ops) ->
  exists h', hamt_run (hamt_new s) ops = (Ok (map_run ∅ ops).1, h') /\
    hamt_rep DEFAULT_BIT_WIDTH h' (map_run ∅ ops).2.
Proof.
  intros Hcf. eapply hamt_run_rep with (P := fun k => k ∈ ops_keys ops).
  - by apply hamt_new_rep.
  - apply collision_free_separated; [done|by exists 32%N|done].
  - intros k. rewrite dom_empty_L. set_solver.
  - apply ops_keys_all.
Qed.
End refinement.

(** ** Four keys with the same hash *)
Section collision.
Context {K V Cid S : Type}.
Context `{Countable K} `{EqDecision V} `{KeyOrderLaws K} `{HashAlgorithmLaws K}.
Context `{CidLaws Cid} `{EqDecision Cid} `{!BlockStore S Cid} `{!BlockStoreLaws S Cid}.
Context `{!BlockCodec (wire_node K V Cid)} `{!BlockCodecLaws Cid (wire_node K V Cid)}.
Context (w : N) (width_pos : (0 < w)%N) (width_le : (w <= 8)%N).
Notation node := (node K V Cid).
Notation chunk := (chunk (K := K) w).
Notation levels := (levels w).
Notation at_depth k d := (mkHashBits (hamt_hash k) (N.of_nat d * w)).
Implicit Types (n : node) (s : S) (k : K) (v : V) (d r : nat) (vals : list (K * V)).

(** A node at depth [d] whose only child is the array for the hash of [k]. *)
Definition one_child d k vals n : Prop :=
  bf_wf (node_bitfield n) /\ (forall i, mem (node_bitfield n) i = (i =? chunk k d)%N) /\
  node_pointers n = [Values vals].

Lemma one_child_read d k vals n : one_child d k vals n ->
  test_bit (node_bitfield n) (chunk k d) = Ok true /\
  index_for_bit_pos (node_bitfield n) (chunk k d) = Ok 0 /\ get_child n 0 = Ok (Values vals).
Proof.
  intros (Hb & Hm & Hp). pose proof (chunk_lt w width_le k d) as Hi. split_and!.
  - rewrite test_bit_spec, Hm, N.eqb_refl by done. done.
  - rewrite index_for_bit_pos_spec by done. f_equal. apply cnt_false. intros i Hlt. rewrite Hm. apply N.eqb_neq. rewrite N2Nat.id in Hlt. intros ->. by apply N.lt_irrefl in Hlt.
  - unfold get_child. by rewrite Hp.
Qed.

Lemma one_child_set d k vals vals' n : one_child d k vals n -> one_child d k vals' (set_child n 0 (Values vals')).
Proof.
  intros (Hb & Hm & Hp). split_and!; cbn [node_bitfield node_pointers set_child]; [done..|]. by rewrite Hp.
Qed.

Lemma modify_default fuel s d k v ow : d < levels ->
  exists n, modify_value (Datatypes.S fuel) s node_default (at_depth k d) w k v ow = (Ok (None, true), n) /\
    one_child d k [(k, v)] n.
Proof.
  intros Hd. pose proof (chunk_lt w width_le k d) as Hi. cbn [modify_value].
  rewrite (next_level w width_pos width_le) by done. cbn [try_with node_default node_bitfield].
  rewrite test_bit_spec, mem_zero by (done || apply bitfield_zero_wf). cbn [negb try_with].
  destruct (set_bit_spec bitfield_zero (chunk k d) bitfield_zero_wf Hi) as (b & Hset & Hb & Hmem).
  unfold insert_child, node_default. cbn [node_bitfield node_pointers].
  rewrite index_for_bit_pos_spec by (done || apply bitfield_zero_wf). cbn [outcome_bind]. rewrite Hset.
  assert (rank bitfield_zero (chunk k d) = 0) as -> by (apply cnt_false; intros; apply mem_zero).
  cbn. eexists. split; [done|]. split_and!; [done| |done]. intros i. cbn. rewrite Hmem, mem_zero.
  by rewrite orb_false_r.
Qed.

Lemma list_find_absent vals k : k ∉ vals.*1 -> list_find (fun kv : K * V => kv.1 = k) vals = None.
Proof.
  intros Hk. apply list_find_None, Forall_forall. intros kv Hkv <-. apply Hk. by apply list_elem_of_fmap_2.
Qed.

Lemma modify_room fuel s d n k v vals ow :
  d < levels -> one_child d k vals n -> k ∉ vals.*1 -> length vals < MAX_ARRAY_WIDTH ->
  exists n', modify_value (Datatypes.S fuel) s n (at_depth k d) w k v ow = (Ok (None, true), n') /\
    one_child d k (insert_at vals k v) n'.
Proof.
  intros Hd Hn Hk Hl. destruct (one_child_read _ _ _ _ Hn) as (Et & Ei & Eg). cbn [modify_value].
  rewrite (next_level w width_pos width_le) by done. cbn [try_with]. rewrite Et. cbn [try_with negb].
  rewrite Ei. cbn [try_with]. rewrite Eg. cbn [try_with]. rewrite (list_find_absent _ _ Hk).
  destruct (decide (MAX_ARRAY_WIDTH <= length vals)); [lia|]. rewrite vec_insert_position. cbn [try_with].
  eexists. split; [done|]. by eapply one_child_set.
Qed.

(** The loop that moves entries into a subtree. *)
Definition move_entries fuel s d ow vals (sub : node) : outcome unit * node :=
  for_each_st (fun (kv : K * V) sub =>
    let '(r, sub') := modify_value fuel s sub (new_at_index (hamt_hash kv.1) (N.of_nat d * w)) w kv.1 kv.2 ow in
    (outcome_map (fun _ => tt) r, sub')) vals sub.

Lemma move_entries_cons fuel s d ow k v vals sub :
  move_entries fuel s d ow ((k, v) :: vals) sub =
    let '(r, sub') := modify_value fuel s sub (at_depth k d) w k v ow in
    let? _ := outcome_map (fun _ => tt) r keeping sub' in move_entries fuel s d ow vals sub'.
Proof. unfold move_entries. cbn. unfold new_at_index. by destruct (modify_value _ _ _ _ _ _ _ _). Qed.

(** Moving four entries with one hash into a new subtree fails. *)
Definition move_fails fuel s d ow k v vals : Prop :=
  match modify_value fuel s node_default (at_depth k d) w k v ow with
  | (Ok _, sub) => exists sub', move_entries fuel s d ow vals sub = (Err MAX_DEPTH_ERROR, sub')
  | (r, _) => r = Err MAX_DEPTH_ERROR
  end.

Lemma modify_full fuel s d n k v vals ow :
  d < levels -> one_child d k vals n -> k ∉ vals.*1 -> MAX_ARRAY_WIDTH <= length vals ->
  move_fails fuel s (Datatypes.S d) ow k v vals ->
  exists n', modify_value (Datatypes.S fuel) s n (at_depth k d) w k v ow = (Err MAX_DEPTH_ERROR, n') /\
    (Datatypes.S d < levels -> 0 < fuel -> one_child d k [] n').
Proof.
  intros Hd Hn Hk Hl Hfail. destruct (one_child_read _ _ _ _ Hn) as (Et & Ei & Eg). cbn [modify_value].
  rewrite (next_level w width_pos width_le) by done. cbn [try_with]. rewrite Et. cbn [try_with negb].
  rewrite Ei. cbn [try_with]. rewrite Eg. cbn [try_with]. rewrite (list_find_absent _ _ Hk).
  destruct (decide (MAX_ARRAY_WIDTH <= length vals)); [|lia]. cbn [hb_consumed].
  unfold move_fails in Hfail. destruct fuel as [|fuel]; [done|].
  destruct (modify_value (Datatypes.S fuel) s node_default _ w k v ow) as [r sub] eqn:Em.
  destruct r as [res|e|e|]; simplify_eq; cbn [try_with].
  - destruct Hfail as (sub' & E). unfold move_entries in E. rewrite E. cbn [try_with].
    eexists. split; [done|]. intros _ _. by eapply one_child_set.
  - eexists. split; [done|]. intros Hlt _. exfalso.
    destruct (modify_default fuel s (Datatypes.S d) k v ow Hlt) as (n1 & E & _). congruence.
Qed.

Lemma chunk_same k k' d : hamt_hash k = hamt_hash k' -> chunk k d = chunk k' d.
Proof. unfold chunk. by intros ->. Qed.

Lemma one_child_same d k k' vals n : hamt_hash k = hamt_hash k' -> one_child d k vals n -> one_child d k' vals n.
Proof. unfold one_child. intros Hh. by rewrite (chunk_same k k' d Hh). Qed.

Lemma at_depth_same k k' d : hamt_hash k = hamt_hash k' -> at_depth k d = at_depth k' d.
Proof. by intros ->. Qed.

Lemma insert_at_keys vals k v : (insert_at vals k v).*1 ≡ₚ k :: vals.*1.
Proof. by rewrite insert_at_perm. Qed.

Lemma insert_at_hash vals k v (b : HashedKey) :
  Forall (fun kv => hamt_hash kv.1 = b) vals -> hamt_hash k = b ->
  Forall (fun kv => hamt_hash kv.1 = b) (insert_at vals k v).
Proof. intros Hall Hk. rewrite insert_at_perm. by constructor. Qed.

Lemma move_fails_all r fuel s d ow k v vals :
  d + r = levels -> r < fuel -> length vals = MAX_ARRAY_WIDTH -> NoDup (k :: vals.*1) ->
  Forall (fun kv => hamt_hash kv.1 = hamt_hash k) vals -> move_fails fuel s d ow k v vals.
Proof.
  revert fuel d k v vals. induction r as [|r IH]; intros fuel d k v vals Hd Hf Hl Hnd Hh.
  - unfold move_fails. destruct fuel as [|fuel]; [lia|]. cbn [modify_value].
    rewrite Nat.add_0_r in Hd. subst d. by rewrite (next_below w width_pos width_le).
  - destruct fuel as [|fuel]; [lia|]. assert (d < levels) as Hlt by lia.
    destruct vals as [|[k1 v1] [|[k2 v2] [|[k3 v3] [|]]]]; try done.
    rewrite !Forall_cons in Hh. cbn [fst] in Hh. destruct Hh as (Hh1 & Hh2 & Hh3 & _). cbn in Hnd.
    rewrite !NoDup_cons, !not_elem_of_cons in Hnd.
    unfold move_fails. destruct (modify_default fuel s d k v ow Hlt) as (n0 & -> & Hn0).
    rewrite move_entries_cons.
    destruct (modify_room fuel s d n0 k1 v1 [(k, v)] ow Hlt) as (n1 & -> & Hn1);
      [by eapply one_child_same|cbn; rewrite !not_elem_of_cons; naive_solver|by unfold MAX_ARRAY_WIDTH; cbn; lia|].
    cbn [outcome_map outcome_bind try_with]. rewrite move_entries_cons.
    pose proof (insert_at_keys [(k, v)] k1 v1) as P1.
    assert (length (insert_at [(k, v)] k1 v1) = 2) as L1 by (by rewrite insert_at_perm).
    pose proof (insert_at_hash [(k, v)] k1 v1 (hamt_hash k) ltac:(by repeat constructor) Hh1) as F1.
    revert P1 L1 F1 Hn1. generalize (insert_at [(k, v)] k1 v1). intros l1 P1 L1 F1 Hn1.
    destruct (modify_room fuel s d n1 k2 v2 l1 ow Hlt) as (n2 & -> & Hn2);
      [eapply one_child_same; [|exact Hn1]; congruence|rewrite P1; cbn; rewrite !not_elem_of_cons; naive_solver
      |rewrite L1; unfold MAX_ARRAY_WIDTH; lia|].
    cbn [outcome_map outcome_bind try_with]. rewrite move_entries_cons.
    pose proof (insert_at_keys l1 k2 v2) as P2.
    assert (length (insert_at l1 k2 v2) = MAX_ARRAY_WIDTH) as L2 by (rewrite insert_at_perm; cbn; by rewrite L1).
    pose proof (insert_at_hash l1 k2 v2 (hamt_hash k) F1 Hh2) as F2.
    revert P2 L2 F2 Hn2. generalize (insert_at l1 k2 v2). intros l2 P2 L2 F2 Hn2.
    assert (NoDup (k3 :: l2.*1)) as Hnd2.
    { rewrite P2, P1. cbn. rewrite !NoDup_cons, !not_elem_of_cons. naive_solver. }
    destruct (modify_full fuel s d n2 k3 v3 l2 ow Hlt) as (n3 & -> & _).
    + eapply one_child_same; [|exact Hn2]. congruence.
    + by apply NoDup_cons in Hnd2 as [? _].
    + by rewrite L2.
    + apply IH; [lia|lia|done|done|]. by rewrite Hh3.
    + by eexists.
Qed.

(** A read of the emptied array finds nothing. *)
Lemma get_emptied fuel s d n k : d < levels -> one_child d k [] n ->
  get_value (Datatypes.S fuel) s n (at_depth k d) w k = (Ok None, n).
Proof.
  intros Hd Hn. destruct (one_child_read _ _ _ _ Hn) as (Et & Ei & Eg). cbn [get_value].
  rewrite (next_level w width_pos width_le) by done. cbn [try_with]. rewrite Et. cbn [try_with negb].
  rewrite Ei. cbn [try_with]. rewrite Eg. done.
Qed.

(** Three keys that share their hash fill an array; a fourth one is refused and
    the array is left empty. *)
Lemma four_collide fuel s k1 k2 k3 k4 v1 v2 v3 v4 :
  1 < levels -> levels <= fuel -> NoDup [k1; k2; k3; k4] ->
  Forall (fun k => hamt_hash k = hamt_hash k4) [k1; k2; k3] ->
  exists n1 n2 n3 n4,
    modify_value (Datatypes.S fuel) s node_default (hash_bits_new (hamt_hash k1)) w k1 v1 true = (Ok (None, true), n1) /\
    modify_value (Datatypes.S fuel) s n1 (hash_bits_new (hamt_hash k2)) w k2 v2 true = (Ok (None, true), n2) /\
    modify_value (Datatypes.S fuel) s n2 (hash_bits_new (hamt_hash k3)) w k3 v3 true = (Ok (None, true), n3) /\
    modify_value (Datatypes.S fuel) s n3 (hash_bits_new (hamt_hash k4)) w k4 v4 true = (Err MAX_DEPTH_ERROR, n4) /\
    Forall (fun k => get_value (Datatypes.S fuel) s n4 (hash_bits_new (hamt_hash k)) w k = (Ok None, n4)) [k1; k2; k3].
Proof.
  intros Hl1 Hfu Hnd Hh. rewrite !Forall_cons in Hh. destruct Hh as (Hh1 & Hh2 & Hh3 & _).
  rewrite !NoDup_cons, !not_elem_of_cons in Hnd.
  destruct (modify_default fuel s 0 k1 v1 true ltac:(lia)) as (n1 & E1 & Hn1).
  destruct (modify_room fuel s 0 n1 k2 v2 [(k1, v1)] true ltac:(lia)) as (n2 & E2 & Hn2);
    [eapply one_child_same; [|exact Hn1]; congruence|cbn; rewrite !not_elem_of_cons; naive_solver
    |unfold MAX_ARRAY_WIDTH; cbn; lia|].
  pose proof (insert_at_keys [(k1, v1)] k2 v2) as P1.
  assert (length (insert_at [(k1, v1)] k2 v2) = 2) as L1 by (by rewrite insert_at_perm).
  pose proof (insert_at_hash [(k1, v1)] k2 v2 (hamt_hash k4) ltac:(by repeat constructor) Hh2) as F1.
  revert P1 L1 F1 Hn2. generalize (insert_at [(k1, v1)] k2 v2). intros l1 P1 L1 F1 Hn2.
  destruct (modify_room fuel s 0 n2 k3 v3 l1 true ltac:(lia)) as (n3 & E3 & Hn3);
    [eapply one_child_same; [|exact Hn2]; congruence|rewrite P1; cbn; rewrite !not_elem_of_cons; naive_solver
    |rewrite L1; unfold MAX_ARRAY_WIDTH; lia|].
  pose proof (insert_at_keys l1 k3 v3) as P2.
  assert (length (insert_at l1 k3 v3) = MAX_ARRAY_WIDTH) as L2 by (rewrite insert_at_perm; cbn; by rewrite L1).
  pose proof (insert_at_hash l1 k3 v3 (hamt_hash k4) F1 Hh3) as F2.
  revert P2 L2 F2 Hn3. generalize (insert_at l1 k3 v3). intros l2 P2 L2 F2 Hn3.
  assert (NoDup (k4 :: l2.*1)) as Hnd4.
  { rewrite P2, P1. cbn. rewrite !NoDup_cons, !not_elem_of_cons. naive_solver. }
  destruct (modify_full fuel s 0 n3 k4 v4 l2 true ltac:(lia)) as (n4 & E4 & Hn4).
  { eapply one_child_same; [|exact Hn3]. congruence. }
  { by apply NoDup_cons in Hnd4 as [? _]. }
  { by rewrite L2. }
  { apply (move_fails_all (levels - 1)); [lia|lia|done..]. }
  exists n1, n2, n3, n4. split_and!; [done..|].
  apply Forall_forall. intros k Hk. apply (get_emptied fuel s 0 n4 k ltac:(lia)).
  eapply one_child_same; [|apply Hn4; lia]. set_solver.
Qed.
End collision.
