(* ===== verification/Instances.v ===== *)
(** * Concrete parameters

    Instances of the third-party parameters on which the definitions can be
    run: CIDs that carry their digest, a digest that is its own input, a codec
    for every countable type, and keys that are numbers hashed to their own
    little-endian bytes.  They satisfy the laws the theorems assume. *)
From stdpp Require Import base gmap list numbers strings countable.
From Stdlib Require Import Ascii.
From S2P Require Import Prelude Bitfield BlockStore HamtNode HamtRep.
#[local] Open Scope N_scope.

(** ** CIDs *)
Notation ToyCid := (N * list N)%type.

Fixpoint pos_to_string (p : positive) : string :=
  match p with
  | xH => String.EmptyString
  | xO p' => String.String "0"%char (pos_to_string p')
  | xI p' => String.String "1"%char (pos_to_string p')
  end.

Fixpoint pos_of_string (s : string) : positive :=
  match s with
  | String.EmptyString => xH
  | String.String c s' => if Ascii.eqb c "0"%char then xO (pos_of_string s') else xI (pos_of_string s')
  end.

Lemma pos_of_to_string p : pos_of_string (pos_to_string p) = p.
Proof. induction p as [p IH|p IH|]; cbn; by rewrite ?IH. Qed.

Definition toy_of_bytes (b : list N) : option ToyCid :=
  match b with [] => None | c :: d => Some (c, d) end.

Definition toy_of_string (s : string) : outcome ToyCid :=
  match decode (A := ToyCid) (pos_of_string s) with Some c => Ok c | None => Err "not a CID" end.

#[export] Instance toy_cid_ops : CidOps ToyCid := {
  cid_new_v1 codec digest := (codec, digest);
  cid_codec c := c.1;
  cid_to_bytes c := c.1 :: c.2;
  cid_of_bytes := toy_of_bytes;
  cid_to_string c := pos_to_string (encode c);
  cid_of_string := toy_of_string;
  blake3_256 b := b;
  references codec b := if (codec =? RAW)%N then Ok [] else match b with [Npos _] => Ok [] | _ => Err "malformed block" end;
}.

#[export] Instance toy_cid_laws : CidLaws ToyCid.
Proof.
  split; cbn; try done.
  - intros codec b b' E. by injection E.
  - intros [c d] [c' d'] E. cbn in E. congruence.
  - by intros [c d].
  - intros c. unfold toy_of_string. by rewrite pos_of_to_string, decode_encode.
  - by intros b b'.
Qed.

(** ** Codecs *)
Section codec.
Context {T : Type} `{Countable T}.

Definition toy_block_of (x : T) : outcome bytes := Ok [Npos (encode x)].
Definition toy_of_block (b : bytes) : outcome T :=
  match b with
  | [Npos p] => match decode p with Some x => Ok x | None => Err "malformed block" end
  | _ => Err "malformed block"
  end.

#[export] Instance toy_codec : BlockCodec T := { block_of := toy_block_of; of_block := toy_of_block }.

#[export] Instance toy_codec_laws : BlockCodecLaws ToyCid T.
Proof.
  split; [by eexists| |by intros x b [= <-]; exists []]. intros x b Hb. cbn in *. unfold toy_block_of in Hb.
  injection Hb as <-. unfold toy_of_block. by rewrite decode_encode.
Qed.
End codec.

#[export] Instance wire_pointer_eq_dec {K V Cid} `{EqDecision K} `{EqDecision V} `{EqDecision Cid} :
  EqDecision (wire_pointer K V Cid).
Proof. solve_decision. Defined.

#[export] Instance wire_pointer_countable {K V Cid} `{Countable K} `{Countable V} `{Countable Cid} :
  Countable (wire_pointer K V Cid).
Proof.
  refine (inj_countable'
    (fun p => match p with WValues vals => inl vals | WLink c => inr c end)
    (fun s => match s with inl vals => WValues vals | inr c => WLink c end) _).
  by intros [].
Defined.

#[export] Instance wire_node_eq_dec {K V Cid} `{EqDecision K} `{EqDecision V} `{EqDecision Cid} :
  EqDecision (wire_node K V Cid).
Proof. solve_decision. Defined.

#[export] Instance wire_node_countable {K V Cid} `{Countable K} `{Countable V} `{Countable Cid} :
  Countable (wire_node K V Cid).
Proof.
  refine (inj_countable' (fun n => (wn_bitfield n, wn_pointers n)) (fun p => mkWireNode p.1 p.2) _).
  by intros [].
Defined.

(** ** Keys *)
#[export] Instance toy_hash : HashAlgorithm N := fun k => reverse (be_bytes 32 k).
#[export] Instance toy_order : KeyOrder N := N.ltb.

#[export] Instance toy_hash_laws : HashAlgorithmLaws N.
Proof.
  split. intros k. unfold hamt_hash, toy_hash. split.
  - by rewrite length_reverse, length_be_bytes.
  - apply Forall_reverse, be_bytes_lt.
Qed.

#[export] Instance toy_order_laws : KeyOrderLaws N.
Proof.
  split; unfold key_ltb, toy_order.
  - apply N.ltb_irrefl.
  - intros a b c. rewrite !N.ltb_lt. lia.
  - intros a b. rewrite !N.ltb_ge. lia.
Qed.
