(* ===== verification/HamtTheorems.v ===== *)
(** * The properties of the HAMT

    The theorems of [noosphere-collections] as its clients use it, each with a
    run on concrete parameters where it has hypotheses. *)
From stdpp Require Import base gmap list numbers sorting strings.
From S2P Require Import Prelude Bitfield BlockStore HamtNode HamtRep.
From S2P Require Import HamtProofs HamtPersist Hamt HamtSpec Instances.

Section theorems.
Context {K V Cid S : Type}.
Context `{Countable K} `{EqDecision V} `{KeyOrderLaws K} `{HashAlgorithmLaws K}.
Context `{CidLaws Cid} `{EqDecision Cid} `{!BlockStore S Cid} `{!BlockStoreLaws S Cid}.
Context `{!BlockCodec (wire_node K V Cid)} `{!BlockCodecLaws Cid (wire_node K V Cid)}.
Notation Hamt := (Hamt K V Cid S).

(** C1: every sequence of operations on a new HAMT (insertion, conditional
    insertion, lookup, membership, deletion, emptiness, flushing, and flushing
    followed by reloading from the CID alone) succeeds and returns what the same
    sequence returns on a finite map, as long as no two of its keys have the
    same hash. *)
Theorem hamt_refines_map (s : S) (ops : list (hamt_op K V)) :
  collision_free (fun k => k ∈ ops_keys ops) ->
  exists h' : Hamt, hamt_run (hamt_new s) ops = (Ok (map_run ∅ ops).1, h').
Proof. intros Hcf. destruct (hamt_run_new s ops Hcf) as (h' & E & _). by exists h'. Qed.

(** C23: the CID of a HAMT is a function of its entries: two histories, over
    any two stores, that leave the same finite map flush to the same CID. *)
Theorem hamt_cid_canonical (s1 s2 : S) (ops1 ops2 : list (hamt_op K V)) :
  collision_free (fun k => k ∈ ops_keys ops1) -> collision_free (fun k => k ∈ ops_keys ops2) ->
  (map_run ∅ ops1).2 = (map_run ∅ ops2).2 ->
  exists (c : Cid) (h1 h2 : Hamt),
    hamt_flush (hamt_run (hamt_new s1) ops1).2 = (Ok c, h1) /\
    hamt_flush (hamt_run (hamt_new s2) ops2).2 = (Ok c, h2).
Proof.
  intros Hcf1 Hcf2 Heq. destruct (hamt_run_new s1 ops1 Hcf1) as (h1 & E1 & R1).
  destruct (hamt_run_new s2 ops2 Hcf2) as (h2 & E2 & R2). rewrite E1, E2. cbn [snd].
  destruct (hamt_flush_rep _ _ _ R1) as (c1 & h1' & F1 & _).
  destruct (hamt_flush_rep _ _ _ R2) as (c2 & h2' & F2 & _). rewrite Heq in R1.
  pose proof (hamt_flush_canonical _ _ _ _ _ _ _ _ R1 R2 F1 F2) as ->. by exists c2, h1', h2'.
Qed.

(** Flushing loses nothing and overwrites nothing: every block the store
    held is still there, and from any store that holds the blocks of the flushed
    one, loading the CID gives a HAMT of the same entries. *)
Theorem hamt_flush_load w (h : Hamt) (m : gmap K V) :
  hamt_rep w h m ->
  exists (c : Cid) (h' : Hamt), hamt_flush h = (Ok c, h') /\
    store_le (hamt_store h) (hamt_store h') /\
    forall s, store_le (hamt_store h') s ->
      exists h'', hamt_load_with_bit_width c s w = Ok h'' /\ hamt_rep w h'' m.
Proof.
  intros Hh. destruct (hamt_flush_loads w h m Hh) as (c & h' & E & Hle & Hl). exists c, h'. split_and!; [done|done|].
  intros s Hs. destruct (Hl s Hs) as (h'' & E' & _ & Hh''). by exists h''.
Qed.

(** [for_each] calls its callback on every entry of the map exactly once,
    in some order, and stops at the first error of the callback. *)
Theorem hamt_for_each_entries {St} w (h : Hamt) (m : gmap K V) (f : K -> V -> St -> outcome unit * St) (st : St) :
  hamt_rep w h m ->
  exists items, items ≡ₚ map_to_list m /\
    hamt_for_each f h st = for_each_st (fun kv st => f kv.1 kv.2 st) items st.
Proof.
  intros Hh. destruct (hamt_stream_rep w h m Hh) as (items & h' & E & Hp & _). exists items. split; [done|].
  unfold hamt_for_each. rewrite E. by destruct (for_each_st _ items st) as [[[]| | |] st'].
Qed.

(** Consuming a HAMT with [into_stream] ends after at most as many pops as
    there are levels times entries, and yields every entry exactly once. *)
Theorem hamt_into_stream_entries w (h : Hamt) (m : gmap K V) fuel :
  hamt_rep w h m -> levels w * size m <= fuel ->
  exists items, hamt_into_stream fuel h = (items, Ok tt) /\ items ≡ₚ map_to_list m.
Proof. apply hamt_into_stream_rep. Qed.

(** When three keys share their whole hash and a fourth with the same hash
    is set, [set] fails with the maximum-depth error, and the three entries that
    were stored before are gone. *)
Theorem hamt_collision_loses_entries (s : S) k1 k2 k3 k4 (v1 v2 v3 v4 : V) :
  NoDup [k1; k2; k3; k4] -> Forall (fun k => hamt_hash k = hamt_hash k4) [k1; k2; k3] ->
  exists h3 h4 : Hamt,
    hamt_run (hamt_new s) [OpSet k1 v1; OpSet k2 v2; OpSet k3 v3] =
      (Ok [ObsValue None; ObsValue None; ObsValue None], h3) /\
    hamt_set h3 k4 v4 = (Err MAX_DEPTH_ERROR, h4) /\
    Forall (fun k => (hamt_get h4 k).1 = Ok None) [k1; k2; k3].
Proof.
  intros Hnd Hh.
  destruct (four_collide DEFAULT_BIT_WIDTH eq_refl ltac:(done) (levels DEFAULT_BIT_WIDTH) s k1 k2 k3 k4 v1 v2 v3 v4)
    as (n1 & n2 & n3 & n4 & E1 & E2 & E3 & E4 & Hget); [by vm_compute; lia|done|done|done|].
  exists (mkHamt n3 s DEFAULT_BIT_WIDTH), (mkHamt n4 s DEFAULT_BIT_WIDTH).
  split_and!.
  - cbn [hamt_run hamt_step]. unfold hamt_new, hamt_new_with_bit_width.
    rewrite (hamt_set_node _ _ _ _ _ _ _ E1). cbn [observe outcome_map outcome_bind fst snd try_with].
    rewrite (hamt_set_node _ _ _ _ _ _ _ E2). cbn [observe outcome_map outcome_bind fst snd try_with].
    by rewrite (hamt_set_node _ _ _ _ _ _ _ E3).
  - by rewrite (hamt_set_node _ _ _ _ _ _ _ E4).
  - eapply Forall_impl; [exact Hget|]. intros k Ek. cbn beta in Ek.
    unfold hamt_get, node_search, depth_fuel. cbn [hamt_bit_width hamt_store hamt_root]. by rewrite Ek.
Qed.
End theorems.

(** ** Runs *)
Section runs.
#[local] Open Scope N_scope.
Notation toy_hamt := (Hamt N N ToyCid MemoryStore).

(** Four keys that agree on the first byte of their hash, a reload, and reads
    and deletions after it. *)
Definition toy_ops : list (hamt_op N N) :=
  [OpSet 1 10; OpSet 257 20; OpSet 513 30; OpSet 769 40; OpReload; OpGet 513; OpDelete 1;
   OpSetIfAbsent 257 5; OpFlush; OpGet 769; OpContainsKey 1; OpIsEmpty].

(** The same entries, inserted in another order and without the fourth key. *)
Definition toy_ops_other : list (hamt_op N N) :=
  [OpSet 769 1; OpSet 513 30; OpFlush; OpSet 257 20; OpSet 769 40].

Lemma hamt_refines_map_witness :
  (map_run ∅ toy_ops).1 =
    [ObsValue None; ObsValue None; ObsValue None; ObsValue None; ObsDone; ObsValue (Some 30);
     ObsEntry (Some (1, 10)); ObsBool false; ObsDone; ObsValue (Some 40); ObsBool false; ObsBool false] /\
  exists h' : toy_hamt, hamt_run (hamt_new memory_store_empty) toy_ops = (Ok (map_run ∅ toy_ops).1, h').
Proof.
  split; [vm_compute; reflexivity|]. apply (hamt_refines_map memory_store_empty toy_ops).
  apply collision_free_list. apply (bool_decide_unpack _). vm_compute. exact I.
Defined.

Lemma hamt_cid_canonical_witness :
  exists (c : ToyCid) (h1 h2 : toy_hamt),
    hamt_flush (hamt_run (hamt_new memory_store_empty) toy_ops).2 = (Ok c, h1) /\
    hamt_flush (hamt_run (hamt_new memory_store_empty) toy_ops_other).2 = (Ok c, h2).
Proof.
  apply (hamt_cid_canonical memory_store_empty memory_store_empty toy_ops toy_ops_other).
  - apply collision_free_list. apply (bool_decide_unpack _). vm_compute. exact I.
  - apply collision_free_list. apply (bool_decide_unpack _). vm_compute. exact I.
  - vm_compute. reflexivity.
Defined.

Lemma toy_empty_rep : hamt_rep 8 (hamt_new memory_store_empty : toy_hamt) ∅.
Proof. by apply hamt_new_rep. Qed.

Lemma toy_single_rep : exists h : toy_hamt, (hamt_set (hamt_new memory_store_empty) 7 70).2 = h /\
  hamt_rep 8 h {[7 := 70]}.
Proof.
  destruct (hamt_set_rep 8 _ ∅ 7 70 toy_empty_rep) as (h & E & _ & Hh).
  - intros k1 k2. rewrite dom_empty_L. set_solver.
  - exists h. by rewrite E.
Qed.

Lemma hamt_flush_load_witness :
  exists (h : toy_hamt) (c : ToyCid) (h' : toy_hamt), hamt_flush h = (Ok c, h') /\
    exists h'' : toy_hamt, hamt_load_with_bit_width c (hamt_store h') 8 = Ok h'' /\ hamt_rep 8 h'' {[7 := 70]}.
Proof.
  destruct toy_single_rep as (h & _ & Hh). exists h.
  destruct (hamt_flush_load 8 h {[7 := 70]} Hh) as (c & h' & E & _ & Hload).
  exists c, h'. split; [exact E|]. apply Hload. reflexivity.
Defined.

Lemma hamt_for_each_entries_witness :
  exists h : toy_hamt,
    hamt_for_each (fun k v st => (Ok tt, st ++ [(k, v)])) h [] = (Ok tt, [(7, 70)]).
Proof.
  destruct toy_single_rep as (h & _ & Hh). exists h.
  destruct (hamt_for_each_entries 8 h {[7 := 70]} (fun k v st => (Ok tt, st ++ [(k, v)])) [] Hh)
    as (items & Hp & ->).
  rewrite map_to_list_singleton in Hp. apply Permutation_singleton_r in Hp as ->. reflexivity.
Defined.

Lemma hamt_into_stream_entries_witness :
  exists h : toy_hamt, hamt_into_stream 32 h = ([(7, 70)], Ok tt).
Proof.
  destruct toy_single_rep as (h & _ & Hh). exists h.
  destruct (hamt_into_stream_entries 8 h {[7 := 70]} 32 Hh) as (items & E & Hp).
  - rewrite map_size_singleton. vm_compute. lia.
  - rewrite map_to_list_singleton in Hp. apply Permutation_singleton_r in Hp as ->. exact E.
Defined.

Lemma hamt_collision_loses_entries_witness :
  exists h3 h4 : toy_hamt,
    hamt_run (hamt_new memory_store_empty) [OpSet 5 1; OpSet (5 + 2 ^ 256) 2; OpSet (5 + 2 * 2 ^ 256) 3] =
      (Ok [ObsValue None; ObsValue None; ObsValue None], h3) /\
    hamt_set h3 (5 + 3 * 2 ^ 256) 4 = (Err MAX_DEPTH_ERROR, h4) /\
    Forall (fun k => (hamt_get h4 k).1 = Ok None) [5; 5 + 2 ^ 256; 5 + 2 * 2 ^ 256].
Proof.
  apply (hamt_collision_loses_entries memory_store_empty).
  - apply (bool_decide_unpack _). vm_compute. exact I.
  - apply (bool_decide_unpack _). vm_compute. exact I.
Defined.
End runs.
