(* ===== verification/BTree.v ===== *)
(** * Ordered maps

    [BTreeMap] of the standard library as the list of its entries in key order:
    lookup, insertion and in-place update, against finite maps.  Keys are
    compared by [KeyOrder]; strings are compared by their bytes. *)
From stdpp Require Import base gmap list numbers strings sorting.
From Stdlib Require Import Ascii String NArith Lia.
From S2P Require Import Prelude HamtNode HamtRep.
#[local] Open Scope list_scope.

(** ** Strings in byte order *)
Fixpoint string_ltb (a b : string) : bool :=
  match a, b with
  | _, EmptyString => false
  | EmptyString, String _ _ => true
  | String x a', String y b' =>
      if N.ltb (N_of_ascii x) (N_of_ascii y) then true
      else if N.eqb (N_of_ascii x) (N_of_ascii y) then string_ltb a' b' else false
  end.

#[export] Instance string_order : KeyOrder string := string_ltb.

Lemma N_of_ascii_inj x y : N_of_ascii x = N_of_ascii y -> x = y.
Proof. intros E. by rewrite <- (ascii_N_embedding x), E, ascii_N_embedding. Qed.

#[export] Instance string_order_laws : KeyOrderLaws string.
Proof.
  split; unfold key_ltb, string_order.
  - induction k as [|x k IH]; [done|]. cbn. by rewrite N.ltb_irrefl, N.eqb_refl.
  - induction a as [|x a IH]; intros [|y b] [|z c]; cbn; try done.
    destruct (N.ltb_spec (N_of_ascii x) (N_of_ascii y)), (N.ltb_spec (N_of_ascii y) (N_of_ascii z));
      destruct (N.eqb_spec (N_of_ascii x) (N_of_ascii y)), (N.eqb_spec (N_of_ascii y) (N_of_ascii z));
      destruct (N.ltb_spec (N_of_ascii x) (N_of_ascii z)), (N.eqb_spec (N_of_ascii x) (N_of_ascii z));
      try done; try lia. apply IH.
  - induction a as [|x a IH]; intros [|y b]; cbn; try done.
    destruct (N.ltb_spec (N_of_ascii x) (N_of_ascii y)), (N.ltb_spec (N_of_ascii y) (N_of_ascii x)); try done.
    assert (N_of_ascii x = N_of_ascii y) as E by lia. rewrite E, N.eqb_refl. intros Hab Hba.
    apply N_of_ascii_inj in E as ->. f_equal. by apply IH.
Qed.

(** ** Operations *)
Section btree.
Context {K V : Type} `{Countable K} `{KeyOrder K}.
Implicit Types (t : list (K * V)) (k : K) (v : V) (m : gmap K V).

Definition btree_get t k : option V := snd <$> (snd <$> list_find (fun kv => kv.1 = k) t).

Definition btree_insert t k v : list (K * V) :=
  match list_find (fun kv => kv.1 = k) t with
  | Some (i, _) => <[i := (k, v)]> t
  | None => insert_at t k v
  end.
End btree.

Section btree_facts.
Context {K V : Type} `{Countable K} `{KeyOrderLaws K}.
Implicit Types (t : list (K * V)) (k : K) (v : V) (m : gmap K V).

(** [vals_rep t m]: the entries [t] are in strict key order and are those of [m]. *)
Lemma btree_get_rep t m k : vals_rep t m -> btree_get t k = m !! k.
Proof.
  intros Hv. unfold btree_get. pose proof (vals_find_key t m k Hv) as Hf.
  destruct (list_find _ t) as [[i kv]|]; [|by rewrite Hf]. destruct Hf as (_ & _ & ->). done.
Qed.

Lemma btree_insert_rep t m k v : vals_rep t m -> vals_rep (btree_insert t k v) (<[k := v]> m).
Proof.
  intros Hv. unfold btree_insert. pose proof (vals_find_key t m k Hv) as Hf.
  destruct (list_find _ t) as [[i kv]|].
  - destruct Hf as (Hi & <- & _). by apply vals_rep_replace.
  - by apply vals_rep_insert.
Qed.

Lemma btree_empty_rep : vals_rep [] (∅ : gmap K V).
Proof. split; [constructor|done]. Qed.
End btree_facts.
