(* ===== verification/UcanCapability.v ===== *)
(** * UCAN capabilities

    Model of [noosphere-ucan/src/capability/]: capability data and the
    map-of-maps that carries it (data.rs), caveats (caveats.rs), the typed view
    of a capability and how one enables another (semantics.rs), and the
    semantics of proof redelegation (proof.rs).

    URLs are parsed by the [url] crate: [UrlOps] is a parameter.  A JSON object
    is the list of its entries in key order, as [serde_json] keeps it; the code
    only compares JSON numbers, so integers stand for them.

    Caveats as subsets, enabling as a preorder, the map-of-maps against the
    list of capabilities it carries, and parsing against printing. *)
From stdpp Require Import base gmap list numbers strings pretty.
From Stdlib Require Import Ascii String.
From S2P Require Import Prelude HamtNode HamtRep BTree.
#[local] Open Scope list_scope.

(** ** JSON values *)
Inductive Value : Type :=
  | VNull
  | VBool (b : bool)
  | VNumber (n : Z)
  | VString (s : string)
  | VArray (vs : list Value)
  | VObject (obj : list (string * Value)).

#[export] Instance Value_eq_dec : EqDecision Value.
Proof.
  refine (fix go v1 v2 :=
    let _ : EqDecision Value := @go in
    match v1, v2 with
    | VNull, VNull => left _
    | VBool b1, VBool b2 => cast_if (decide (b1 = b2))
    | VNumber n1, VNumber n2 => cast_if (decide (n1 = n2))
    | VString s1, VString s2 => cast_if (decide (s1 = s2))
    | VArray l1, VArray l2 => cast_if (decide (l1 = l2))
    | VObject o1, VObject o2 => cast_if (decide (o1 = o2))
    | _, _ => right _
    end); abstract congruence.
Defined.

Definition is_object (v : Value) : bool := match v with VObject _ => true | _ => false end.
Definition as_object (v : Value) : option (list (string * Value)) :=
  match v with VObject o => Some o | _ => None end.
Definition as_array (v : Value) : option (list Value) :=
  match v with VArray l => Some l | _ => None end.

(** ** Caveats *)
Definition Caveat : Type := list (string * Value).

Definition caveat_try_from (value : Value) : outcome Caveat :=
  match value with
  | VObject obj => Ok obj
  | _ => Err "Caveat must be an object"
  end.

Fixpoint caveat_loop (entries : list (string * Value)) (other : Caveat) : bool :=
  match entries with
  | [] => true
  | (key, value) :: rest =>
      match btree_get other key with
      | Some other_value => if bool_decide (value <> other_value) then false else caveat_loop rest other
      | None => false
      end
  end.

Definition caveat_enables (self other : Caveat) : bool :=
  if bool_decide (self = []) then true
  else if bool_decide (other = []) then false
  else if bool_decide (self = other) then true
  else caveat_loop self other.

(** ** Flat capabilities and the map-of-maps *)
Record Capability := mkCapability {
  cap_resource : string;
  cap_ability : string;
  cap_caveat : Value;
}.

#[export] Instance Capability_eq_dec : EqDecision Capability.
Proof. solve_decision. Defined.

Notation AbilitiesImpl := (list (string * list Value)).
Notation CapabilitiesImpl := (list (string * list (string * list Value))).

Record Capabilities := mkCapabilities { capabilities_map : CapabilitiesImpl }.

#[export] Instance Capabilities_eq_dec : EqDecision Capabilities.
Proof. solve_decision. Defined.

Definition abilities_iter (resource : string) (abilities : AbilitiesImpl) : list Capability :=
  flat_map (fun '(ability, caveats) => mkCapability resource ability <$> caveats) abilities.

Definition capabilities_iter (self : Capabilities) : list Capability :=
  flat_map (fun '(resource, abilities) => abilities_iter resource abilities) (capabilities_map self).

(** [TryFrom<CapabilitiesImpl>]: one or more abilities for each resource. *)
Definition capabilities_of_map (value : CapabilitiesImpl) : outcome Capabilities :=
  if forallb (fun '(_, abilities) => negb (bool_decide (abilities = []))) value
  then Ok (mkCapabilities value)
  else Err "No abilities given for resource".

(** One round of the loop of [TryFrom<Vec<Capability>>]. *)
Definition push_capability (resources : CapabilitiesImpl) (c : Capability) : outcome CapabilitiesImpl :=
  let resource := default [] (btree_get resources (cap_resource c)) in
  if negb (is_object (cap_caveat c)) then Err "Caveat must be an object"
  else
    let caveats := default [] (btree_get resource (cap_ability c)) ++ [cap_caveat c] in
    Ok (btree_insert resources (cap_resource c) (btree_insert resource (cap_ability c) caveats)).

Definition capabilities_of_vec (value : list Capability) : outcome Capabilities :=
  let? resources := try_fold push_capability [] value in capabilities_of_map resources.

(** [TryFrom<&Value>]. *)
Definition caveats_of_json (value : Value) : outcome (list Value) :=
  let? array := ok_or "Caveats must be defined as an array." (as_array value) in
  try_map (fun v => if negb (is_object v) then Err "Caveat must be an object" else Ok v) array.

Definition abilities_of_json (value : Value) : outcome AbilitiesImpl :=
  let? abilities_object := ok_or "Abilities must be an object." (as_object value) in
  try_fold (fun abilities '(ability, v) =>
    let? caveats := caveats_of_json v in Ok (btree_insert abilities ability caveats)) [] abilities_object.

Definition capabilities_of_json (value : Value) : outcome Capabilities :=
  let? map := ok_or "Capabilities must be an object." (as_object value) in
  let? resources := try_fold (fun resources '(resource, v) =>
    let? abilities := abilities_of_json v in Ok (btree_insert resources resource abilities)) [] map in
  capabilities_of_map resources.

(** ** Semantics *)
Class UrlOps (Url : Type) := {
  url_parse : string -> option Url;
  url_scheme : Url -> string;
  url_path : Url -> string;
}.

Class Scope (Url S : Type) := {
  scope_eq_dec :: EqDecision S;
  scope_contains : S -> S -> bool;
  scope_to_string : S -> string;
  scope_of_url : Url -> option S;
}.

Class Ability (A : Type) := {
  ability_eq_dec :: EqDecision A;
  ability_leb : A -> A -> bool;
  ability_to_string : A -> string;
  ability_of_string : string -> option A;
}.

(** [str::split(c)]: one more part than there are separators. *)
Fixpoint split_on (c : ascii) (s : string) : list string :=
  match s with
  | EmptyString => [EmptyString]
  | String a s' =>
      if Ascii.eqb a c then EmptyString :: split_on c s'
      else match split_on c s' with
           | [] => [String a EmptyString]
           | part :: parts => String a part :: parts
           end
  end.

Definition concat_strings (l : list string) : string := foldr String.append EmptyString l.

Inductive ResourceUri (S : Type) : Type :=
  | Scoped (scope : S)
  | Unscoped.
Arguments Scoped {S} scope.
Arguments Unscoped {S}.

Inductive Resource (S : Type) : Type :=
  | RResource (kind : ResourceUri S)
  | RMy (kind : ResourceUri S)
  | RAs (did : string) (kind : ResourceUri S).
Arguments RResource {S} kind.
Arguments RMy {S} kind.
Arguments RAs {S} did kind.

Record CapabilityView (S A : Type) := mkView {
  view_resource : Resource S;
  view_ability : A;
  view_caveat : Value;
}.
Arguments mkView {S A} _ _ _.
Arguments view_resource {S A} _.
Arguments view_ability {S A} _.
Arguments view_caveat {S A} _.

Section semantics.
Context {Url S A : Type} `{UrlOps Url} `{Scope Url S} `{Ability A}.

Definition resource_uri_contains (self other : ResourceUri S) : bool :=
  match self with
  | Unscoped => true
  | Scoped scope => match other with Scoped other_scope => scope_contains scope other_scope | _ => false end
  end.

Definition resource_uri_to_string (self : ResourceUri S) : string :=
  match self with Unscoped => "*" | Scoped value => scope_to_string value end.

Definition resource_contains (self other : Resource S) : bool :=
  match self, other with
  | RResource resource, RResource other_resource => resource_uri_contains resource other_resource
  | RMy resource, RMy other_resource => resource_uri_contains resource other_resource
  | RAs did resource, RAs other_did other_resource =>
      if bool_decide (did = other_did) then resource_uri_contains resource other_resource else false
  | _, _ => false
  end.

Definition resource_to_string (self : Resource S) : string :=
  match self with
  | RResource kind => resource_uri_to_string kind
  | RMy kind => "my:" +:+ resource_uri_to_string kind
  | RAs did kind => "as:" +:+ did +:+ ":" +:+ resource_uri_to_string kind
  end.

Definition extract_did (path : string) : option (string * string) :=
  match split_on ":" path with
  | p1 :: p2 :: value :: rest =>
      if negb (bool_decide (p1 = "did")) then None
      else if negb (bool_decide (p2 = "key")) then None
      else Some ("did:key:" +:+ value, concat_strings rest)
  | _ => None
  end.

Definition parse_resource (resource : Url) : option (ResourceUri S) :=
  if bool_decide (url_path resource = "*") then Some Unscoped
  else Scoped <$> scope_of_url resource.

Definition parse_caveat (caveat : option Value) : Value :=
  match caveat with Some caveat => caveat | None => VObject [] end.

Definition parse (resource ability : string) (caveat : option Value) : option (CapabilityView S A) :=
  uri ← url_parse resource;
  cap_resource ←
    (if bool_decide (url_scheme uri = "my") then RMy <$> parse_resource uri
     else if bool_decide (url_scheme uri = "as") then
       '(did, resource) ← extract_did (url_path uri);
       inner ← url_parse resource;
       RAs did <$> parse_resource inner
     else RResource <$> parse_resource uri);
  cap_ability ← ability_of_string ability;
  Some (mkView cap_resource cap_ability (parse_caveat caveat)).

Definition parse_capability (value : Capability) : option (CapabilityView S A) :=
  parse (cap_resource value) (cap_ability value) (Some (cap_caveat value)).

Definition view_new (resource : Resource S) (ability : A) : CapabilityView S A :=
  mkView resource ability (VObject []).

Definition view_enables (self other : CapabilityView S A) : bool :=
  match caveat_try_from (view_caveat self), caveat_try_from (view_caveat other) with
  | Ok self_caveat, Ok other_caveat =>
      resource_contains (view_resource self) (view_resource other)
      && ability_leb (view_ability other) (view_ability self)
      && caveat_enables self_caveat other_caveat
  | _, _ => false
  end.

Definition capability_of_view (value : CapabilityView S A) : Capability :=
  mkCapability (resource_to_string (view_resource value)) (ability_to_string (view_ability value))
    (view_caveat value).
End semantics.

(** ** Proof redelegation (proof.rs) *)
Inductive ProofAction : Type := Delegate.

#[export] Instance ProofAction_eq_dec : EqDecision ProofAction.
Proof. solve_decision. Defined.

Definition proof_action_of_string (value : string) : option ProofAction :=
  if bool_decide (value = "ucan/DELEGATE") then Some Delegate else None.

Definition proof_action_to_string (_ : ProofAction) : string := "ucan/DELEGATE".

#[export] Instance ProofAction_ability : Ability ProofAction := {
  ability_leb _ _ := true;
  ability_to_string := proof_action_to_string;
  ability_of_string := proof_action_of_string;
}.

Inductive ProofSelection : Type :=
  | Index (i : N)
  | All.

#[export] Instance ProofSelection_eq_dec : EqDecision ProofSelection.
Proof. solve_decision. Defined.

(** [from_str] of the unsigned integer types: an optional [+], then at least one
    decimal digit, and a value below [bound]. *)
Definition digit_value (a : ascii) : option N :=
  let n := N_of_ascii a in if ((48 <=? n) && (n <=? 57))%N then Some (n - 48)%N else None.

Fixpoint parse_digits (bound acc : N) (s : string) : option N :=
  match s with
  | EmptyString => Some acc
  | String a s' =>
      d ← digit_value a;
      let acc' := (10 * acc + d)%N in
      if (acc' <? bound)%N then parse_digits bound acc' s' else None
  end.

Definition parse_unsigned (bound : N) (s : string) : option N :=
  match s with
  | EmptyString => None
  | String "+" EmptyString => None
  | String "+" s' => parse_digits bound 0 s'
  | _ => parse_digits bound 0 s
  end.

Definition parse_usize : string -> option N := parse_unsigned (2 ^ 64).

Definition proof_selection_contains (self other : ProofSelection) : bool :=
  bool_decide (self = other) || bool_decide (self = All).

Definition proof_selection_of_string (value : string) : option ProofSelection :=
  if bool_decide (value = "*") then Some All else Index <$> parse_usize value.

Definition proof_selection_of_url {Url} `{UrlOps Url} (value : Url) : option ProofSelection :=
  if bool_decide (url_scheme value = "prf") then proof_selection_of_string (url_path value) else None.

Definition proof_selection_to_string (self : ProofSelection) : string :=
  match self with Index i => "prf:" +:+ pretty i | All => "prf:*" end.

#[export] Instance ProofSelection_scope {Url} `{UrlOps Url} : Scope Url ProofSelection := {
  scope_contains := proof_selection_contains;
  scope_to_string := proof_selection_to_string;
  scope_of_url := proof_selection_of_url;
}.

(** ** What the code relies on of the [url] crate *)
Fixpoint string_forallb (f : ascii -> bool) (s : string) : bool :=
  match s with EmptyString => true | String a s' => f a && string_forallb f s' end.

Definition ascii_between (lo hi : N) (a : ascii) : bool := ((lo <=? N_of_ascii a) && (N_of_ascii a <=? hi))%N.
Definition ascii_lower : ascii -> bool := ascii_between 97 122.
Definition ascii_alnum (a : ascii) : bool := ascii_lower a || ascii_between 65 90 a || ascii_between 48 57 a.

(** A scheme of lower-case letters that is not one of the special schemes. *)
Definition opaque_scheme (s : string) : bool :=
  negb (bool_decide (s = "")) && string_forallb ascii_lower s
  && negb (bool_decide (s ∈ ["http"; "https"; "ws"; "wss"; "ftp"; "file"])).

(** A path of letters, digits, colons and stars. *)
Definition opaque_path (s : string) : bool :=
  negb (bool_decide (s = "")) &&
  string_forallb (fun a => ascii_alnum a || Ascii.eqb a ":" || Ascii.eqb a "*") s.

(** The URL standard: such a URL has an opaque path, which is kept as written. *)
Class UrlLaws (Url : Type) `{UrlOps Url} :=
  url_opaque : forall scheme path, opaque_scheme scheme = true -> opaque_path path = true ->
    exists u, url_parse (scheme +:+ ":" +:+ path) = Some u /\ url_scheme u = scheme /\ url_path u = path.

(** ** Properties of UCAN capabilities *)
(** ** Caveats *)
Notation caveat_map c := (list_to_map c : gmap string Value).

Lemma btree_get_map (t : Caveat) k : btree_get t k = caveat_map t !! k.
Proof.
  unfold btree_get. induction t as [|[k' v] t IH]; [done|]. cbn.
  destruct (decide (k' = k)) as [->|Hne].
  - by rewrite lookup_insert_eq.
  - rewrite lookup_insert_ne by done. rewrite <- IH. by destruct (list_find _ t) as [[]|].
Qed.

Lemma caveat_loop_spec (entries : list (string * Value)) (other : Caveat) :
  caveat_loop entries other = true <-> Forall (fun kv => caveat_map other !! kv.1 = Some kv.2) entries.
Proof.
  induction entries as [|[k v] entries IH]; [by split|]. cbn. rewrite Forall_cons, <- IH, btree_get_map. cbn.
  destruct (caveat_map other !! k) as [v'|]; [|split; [done|by intros []]].
  case_bool_decide as E; naive_solver.
Qed.

(** Enabling a caveat is being contained in it. *)
Lemma caveat_enables_spec (a b : Caveat) : NoDup a.*1 ->
  caveat_enables a b = true <-> caveat_map a ⊆ caveat_map b.
Proof.
  intros Ha. unfold caveat_enables. case_bool_decide as Ea.
  { subst a. split; [|done]. intros _. apply map_empty_subseteq. }
  case_bool_decide as Eb.
  { subst b. split; [done|]. intros Hsub. destruct a as [|[k v] a]; [done|].
    rewrite map_subseteq_spec in Hsub. specialize (Hsub k v). cbn in Hsub.
    rewrite lookup_insert_eq, lookup_empty in Hsub. by specialize (Hsub eq_refl). }
  case_bool_decide as Eab; [subst b; by split|].
  rewrite caveat_loop_spec, Forall_forall, map_subseteq_spec. split.
  - intros Hall k v Hk. apply elem_of_list_to_map in Hk; [|done]. by apply (Hall (k, v)).
  - intros Hsub [k v] Hkv. apply Hsub. by apply elem_of_list_to_map.
Qed.

Lemma caveat_enables_refl (a : Caveat) : caveat_enables a a = true.
Proof. unfold caveat_enables. repeat case_bool_decide; done. Qed.

Lemma caveat_enables_trans (a b c : Caveat) : NoDup a.*1 -> NoDup b.*1 ->
  caveat_enables a b = true -> caveat_enables b c = true -> caveat_enables a c = true.
Proof. intros Ha Hb. rewrite !caveat_enables_spec by done. by intros ->. Qed.

(** ** Enabling *)
Class ScopeLaws (Url S : Type) `{Scope Url S} := {
  scope_contains_refl : forall s : S, scope_contains s s = true;
  scope_contains_trans : forall a b c : S,
    scope_contains a b = true -> scope_contains b c = true -> scope_contains a c = true;
}.

Class AbilityLaws (A : Type) `{Ability A} := {
  ability_leb_refl : forall a : A, ability_leb a a = true;
  ability_leb_trans : forall a b c : A,
    ability_leb a b = true -> ability_leb b c = true -> ability_leb a c = true;
}.

Section enables.
Context {Url S A : Type} `{ScopeLaws Url S} `{AbilityLaws A}.
Notation view := (CapabilityView S A).

(** The caveat of a view is an object without repeated keys, as a JSON object is. *)
Definition view_wf (v : view) : Prop :=
  match view_caveat v with VObject obj => NoDup obj.*1 | _ => True end.

Lemma resource_uri_contains_refl (r : ResourceUri S) : resource_uri_contains r r = true.
Proof. destruct r; [apply scope_contains_refl|done]. Qed.

Lemma resource_contains_refl (r : Resource S) : resource_contains r r = true.
Proof.
  destruct r; cbn; try apply resource_uri_contains_refl.
  case_bool_decide; [apply resource_uri_contains_refl|done].
Qed.

Lemma resource_uri_contains_trans (a b c : ResourceUri S) :
  resource_uri_contains a b = true -> resource_uri_contains b c = true -> resource_uri_contains a c = true.
Proof. destruct a, b, c; cbn; try done. apply scope_contains_trans. Qed.

Lemma resource_contains_trans (a b c : Resource S) :
  resource_contains a b = true -> resource_contains b c = true -> resource_contains a c = true.
Proof.
  destruct a, b, c; cbn; try done; try apply resource_uri_contains_trans.
  repeat case_bool_decide; subst; try done. apply resource_uri_contains_trans.
Qed.

Lemma view_enables_inv (a b : view) : view_enables a b = true ->
  exists ca cb, view_caveat a = VObject ca /\ view_caveat b = VObject cb /\
    resource_contains (view_resource a) (view_resource b) = true /\
    ability_leb (view_ability b) (view_ability a) = true /\ caveat_enables ca cb = true.
Proof.
  unfold view_enables. destruct (view_caveat a), (view_caveat b); cbn; try done.
  rewrite !andb_true_iff. intros [[? ?] ?]. eauto 10.
Qed.

Lemma view_enables_refl (a : view) : is_object (view_caveat a) = true -> view_enables a a = true.
Proof.
  unfold view_enables. destruct (view_caveat a); try done. intros _. cbn.
  by rewrite resource_contains_refl, ability_leb_refl, caveat_enables_refl.
Qed.

Lemma view_enables_trans (a b c : view) : view_wf a -> view_wf b ->
  view_enables a b = true -> view_enables b c = true -> view_enables a c = true.
Proof.
  unfold view_wf. intros Wa Wb Hab Hbc.
  destruct (view_enables_inv _ _ Hab) as (ca & cb & Ea & Eb & R1 & A1 & C1).
  destruct (view_enables_inv _ _ Hbc) as (cb' & cc & Eb' & Ec & R2 & A2 & C2).
  rewrite Ea in Wa. rewrite Eb in Wb. assert (cb' = cb) as -> by congruence.
  unfold view_enables. rewrite Ea, Ec. cbn.
  rewrite (resource_contains_trans _ _ _ R1 R2), (ability_leb_trans _ _ _ A2 A1).
  by rewrite (caveat_enables_trans ca cb cc Wa Wb C1 C2).
Qed.
End enables.

(** ** The map-of-maps *)
Section grouping.
Context {K V B : Type} `{Countable K} `{KeyOrder K} (f : K * V -> list B).
Implicit Types (t : list (K * V)).

Lemma flat_map_replace t i x y extra :
  t !! i = Some x -> f y ≡ₚ f x ++ extra -> flat_map f (<[i := y]> t) ≡ₚ flat_map f t ++ extra.
Proof.
  revert i. induction t as [|z t IH]; intros [|i] Hx Hf; simplify_eq/=.
  - rewrite Hf, <- !app_assoc. apply Permutation_app_head, Permutation_app_comm.
  - by rewrite (IH i Hx Hf), app_assoc.
Qed.

Lemma flat_map_perm t t' : t ≡ₚ t' -> flat_map f t ≡ₚ flat_map f t'.
Proof. intros ->. done. Qed.

(** Replacing the entry of a key by one that contributes [extra] more. *)
Lemma btree_insert_flat_map t k v extra :
  f (k, v) ≡ₚ match btree_get t k with Some old => f (k, old) | None => [] end ++ extra ->
  flat_map f (btree_insert t k v) ≡ₚ flat_map f t ++ extra.
Proof.
  unfold btree_get, btree_insert. destruct (list_find _ t) as [[i [k' old]]|] eqn:E; cbn; intros Hf.
  - apply list_find_Some in E as (Hi & <- & _). by eapply flat_map_replace.
  - rewrite insert_at_perm. cbn. rewrite Hf. apply Permutation_app_comm.
Qed.

Lemma btree_insert_Forall (P : K * V -> Prop) t k v :
  Forall P t -> P (k, v) -> Forall P (btree_insert t k v).
Proof.
  intros Ht Hk. unfold btree_insert. destruct (list_find _ t) as [[i kv]|].
  - by apply Forall_insert.
  - rewrite insert_at_perm. by constructor.
Qed.
End grouping.

Lemma btree_insert_not_nil {K V} `{Countable K} `{KeyOrder K} (t : list (K * V)) k v : btree_insert t k v <> [].
Proof.
  unfold btree_insert. destruct (list_find _ t) as [[i kv]|] eqn:E.
  - apply list_find_Some in E as (Hi & _). intros Hnil. apply lookup_lt_Some in Hi.
    rewrite <- (length_insert t i (k, v)), Hnil in Hi. cbn in Hi. lia.
  - intros Hnil. pose proof (insert_at_perm t k v) as Hp. rewrite Hnil in Hp. by apply Permutation_nil_cons in Hp.
Qed.

(** Every resource has an ability. *)
Definition resources_wf (r : CapabilitiesImpl) : Prop := Forall (fun kv => kv.2 <> []) r.

Lemma push_capability_spec r (c : Capability) :
  is_object (cap_caveat c) = true -> resources_wf r ->
  exists r', push_capability r c = Ok r' /\ resources_wf r' /\
    capabilities_iter (mkCapabilities r') ≡ₚ capabilities_iter (mkCapabilities r) ++ [c].
Proof.
  intros Ho Hwf. unfold push_capability. rewrite Ho. cbn. eexists. split; [done|]. split.
  - apply btree_insert_Forall; [done|]. cbn. apply btree_insert_not_nil.
  - unfold capabilities_iter. cbn [capabilities_map]. apply btree_insert_flat_map.
    set (abilities := default [] (btree_get r (cap_resource c))).
    transitivity (abilities_iter (cap_resource c) abilities ++ [c]).
    + unfold abilities_iter. apply btree_insert_flat_map. destruct c as [res ab cav]. cbn.
      destruct (btree_get abilities ab); cbn; [|done]. by rewrite fmap_app.
    + unfold abilities. by destruct (btree_get r (cap_resource c)).
Qed.

Lemma capabilities_of_map_ok r : resources_wf r -> capabilities_of_map r = Ok (mkCapabilities r).
Proof.
  intros Hwf. unfold capabilities_of_map.
  assert (forallb (fun '(_, abilities) => negb (bool_decide (abilities = []))) r = true) as ->; [|done].
  induction Hwf as [|[k v] r Hv _ IH]; [done|]. cbn. by rewrite bool_decide_false, IH.
Qed.

Lemma push_all_spec (caps : list Capability) r :
  Forall (fun c => is_object (cap_caveat c) = true) caps -> resources_wf r ->
  exists r', try_fold push_capability r caps = Ok r' /\ resources_wf r' /\
    capabilities_iter (mkCapabilities r') ≡ₚ capabilities_iter (mkCapabilities r) ++ caps.
Proof.
  intros Hall. revert r. induction Hall as [|c caps Hc _ IH]; intros r Hwf.
  - exists r. by rewrite app_nil_r.
  - destruct (push_capability_spec r c Hc Hwf) as (r1 & E1 & Hwf1 & P1).
    destruct (IH r1 Hwf1) as (r2 & E2 & Hwf2 & P2). exists r2. cbn. rewrite E1. cbn.
    split_and!; [done|done|]. by rewrite P2, P1, <- app_assoc.
Qed.

Lemma push_bad_spec (caps : list Capability) r :
  Exists (fun c => is_object (cap_caveat c) = false) caps ->
  exists e, try_fold push_capability r caps = Err e.
Proof.
  intros Hex. revert r. induction Hex as [c caps Hc|c caps _ IH]; intros r; cbn.
  - unfold push_capability. rewrite Hc. cbn. eauto.
  - unfold push_capability at 1. destruct (is_object (cap_caveat c)); cbn; [apply IH|eauto].
Qed.

(** ** Numbers *)
Lemma digit_value_pretty (x : N) : (x < 10)%N -> digit_value (pretty_N_char x) = Some x.
Proof. intros Hx. destruct x as [|p]; [done|]. repeat (destruct p as [p|p|]; try done; try lia). Qed.

Lemma parse_digits_go bound x s v : (x < bound)%N -> parse_digits bound x s = Some v ->
  parse_digits bound 0 (pretty_N_go x s) = Some v.
Proof.
  revert s. induction (N.lt_wf_0 x) as [x _ IH]. intros s Hx Hs.
  destruct (decide (0 < x)%N) as [Hpos|Hz].
  - rewrite pretty_N_go_step by done. assert (x / 10 < x)%N as Hlt by (apply N.div_lt; lia).
    apply IH; [done|lia|]. cbn -[N.mul N.add N.pow N.ltb].
    rewrite digit_value_pretty by (apply N.mod_lt; lia). cbn -[N.mul N.add N.pow N.ltb].
    assert (10 * (x / 10) + x mod 10 = x)%N as -> by (symmetry; apply N.div_mod; lia).
    destruct (N.ltb_spec x bound); [done|lia].
  - assert (x = 0%N) as -> by lia. by rewrite pretty_N_go_0.
Qed.

Lemma parse_digits_pretty bound x : (x < bound)%N -> parse_digits bound 0 (pretty x) = Some x.
Proof.
  intros Hx. unfold pretty, pretty_N. case_decide as E.
  { subst. destruct bound; [lia|done]. }
  apply parse_digits_go; [done|]. done.
Qed.

Lemma pretty_N_go_head x s : exists a t, (0 < x)%N -> pretty_N_go x s = String a t /\ digit_value a <> None.
Proof.
  revert s. induction (N.lt_wf_0 x) as [x _ IH]. intros s. destruct (decide (0 < x)%N) as [Hpos|Hz].
  2: { exists "0"%char, s. lia. }
  assert (x / 10 < x)%N as Hlt by (apply N.div_lt; lia).
  destruct (IH _ Hlt (String (pretty_N_char (x `mod` 10)) s)) as (a & t & Hat).
  destruct (decide (0 < x / 10)%N) as [Hp'|Hz'].
  - exists a, t. intros _. rewrite pretty_N_go_step by done. by apply Hat.
  - exists (pretty_N_char (x `mod` 10)), s. intros _. rewrite pretty_N_go_step by done.
    assert (x / 10 = 0)%N as -> by (apply N.le_0_r, N.nlt_ge; done). rewrite pretty_N_go_0. split; [done|].
    by rewrite digit_value_pretty by (apply N.mod_lt; lia).
Qed.

(** Printing and parsing an unsigned integer. *)
Lemma parse_unsigned_pretty bound x : (x < bound)%N -> parse_unsigned bound (pretty x) = Some x.
Proof.
  intros Hx. rewrite <- (parse_digits_pretty bound x Hx). unfold pretty, pretty_N. case_decide as E; [done|].
  destruct (pretty_N_go_head x "") as (a & t & Hat). destruct (Hat ltac:(lia)) as [-> Ha].
  unfold parse_unsigned. destruct (decide (a = "+"%char)) as [->|Hne]; [done|].
  destruct a as [[] [] [] [] [] [] [] []]; done.
Qed.
