(* ===== verification/Ucan.v ===== *)
(** * UCAN tokens

    Model of [noosphere-ucan/src/ucan.rs] (the token, its validation and its
    JWT form), [builder.rs] (building and signing), [crypto/did.rs] (resolving
    the key of a DID, with its cache) and [store.rs] (tokens by CID).

    Keys, base 58, base 64 and DAG-JSON come from other crates and are
    parameters; the system clock is the argument [clock]. *)
From stdpp Require Import base gmap list numbers strings.
From Stdlib Require Import Ascii String.
From S2P Require Import Prelude HamtNode HamtRep BTree BlockStore UcanCapability.
#[local] Notation length := List.length (only parsing).
#[local] Open Scope list_scope.

(** ** Strings and bytes *)
Fixpoint as_bytes (s : string) : bytes :=
  match s with EmptyString => [] | String a s' => N_of_ascii a :: as_bytes s' end.

Fixpoint string_of_bytes (b : bytes) : string :=
  match b with [] => EmptyString | x :: b' => String (ascii_of_N x) (string_of_bytes b') end.

(** [str::from_utf8] accepts exactly the well-formed sequences. *)
Definition between (lo hi x : N) : bool := ((lo <=? x) && (x <=? hi))%N.
Definition continuation : N -> bool := between 128 191.

Fixpoint utf8_valid (b : bytes) : bool :=
  match b with
  | [] => true
  | x :: r0 =>
      if between 0 127 x then utf8_valid r0
      else match r0 with
      | [] => false
      | y :: r1 =>
          if between 194 223 x then continuation y && utf8_valid r1
          else match r1 with
          | [] => false
          | z :: r2 =>
              if between 224 239 x then
                (if (x =? 224)%N then between 160 191 y
                 else if (x =? 237)%N then between 128 159 y else continuation y)
                && continuation z && utf8_valid r2
              else match r2 with
              | [] => false
              | u :: r3 =>
                  between 240 244 x &&
                  (if (x =? 240)%N then between 144 191 y
                   else if (x =? 244)%N then between 128 143 y else continuation y)
                  && continuation z && continuation u && utf8_valid r3
              end
          end
      end
  end.

Definition from_utf8 (b : bytes) : outcome string :=
  if utf8_valid b then Ok (string_of_bytes b) else Err "invalid utf-8 sequence".

Definition starts_with (p s : string) : bool := bool_decide (String.substring 0 (String.length p) s = p).
Definition string_drop (n : nat) (s : string) : string := String.substring n (String.length s - n) s.

(** ** Third-party parameters *)
Class Base64 := {
  b64_encode : bytes -> string;
  b64_decode : string -> option bytes;
}.

Class Bs58 := {
  bs58_encode : bytes -> string;
  bs58_decode : string -> option bytes;
}.

(** Serde and the DAG-JSON codec for one type. *)
Class DagJson (T : Type) := {
  to_dag_json : T -> outcome bytes;
  from_dag_json : bytes -> outcome T;
}.

(** The [KeyMaterial] trait. *)
Class KeyMaterial (Key : Type) := {
  get_jwt_algorithm_name : Key -> string;
  get_did : Key -> outcome string;
  key_sign : Key -> bytes -> outcome bytes;
  key_verify : Key -> bytes -> bytes -> outcome unit;
}.

(** ** Tokens *)
Definition UCAN_VERSION : string := "0.10.0-canary".

Notation FactsMap := (list (string * Value)).

Record UcanHeader := mkHeader { alg : string; typ : string }.

Record UcanPayload := mkPayload {
  ucv : string;
  iss : string;
  aud : string;
  exp : option N;
  nbf : option N;
  nnc : option string;
  cap : Capabilities;
  fct : option FactsMap;
  prf : option (list string);
}.

Record Ucan := mkUcan {
  header : UcanHeader;
  payload : UcanPayload;
  signed_data : bytes;
  signature : bytes;
}.

#[export] Instance UcanHeader_eq_dec : EqDecision UcanHeader.
Proof. solve_decision. Defined.
#[export] Instance UcanPayload_eq_dec : EqDecision UcanPayload.
Proof. solve_decision. Defined.
#[export] Instance Ucan_eq_dec : EqDecision Ucan.
Proof. solve_decision. Defined.

Definition issuer (u : Ucan) : string := iss (payload u).
Definition audience (u : Ucan) : string := aud (payload u).
Definition proofs (u : Ucan) : option (list string) := prf (payload u).
Definition expires_at (u : Ucan) : option N := exp (payload u).
Definition not_before (u : Ucan) : option N := nbf (payload u).
Definition capabilities (u : Ucan) : Capabilities := cap (payload u).

Definition is_expired (clock : N) (u : Ucan) (now_time : option N) : bool :=
  match exp (payload u) with
  | Some e => (e <? default clock now_time)%N
  | None => false
  end.

Definition is_too_early (clock : N) (u : Ucan) : bool :=
  match nbf (payload u) with
  | Some n => (clock <? n)%N
  | None => false
  end.

Definition lifetime_begins_before (self other : Ucan) : bool :=
  match nbf (payload self), nbf (payload other) with
  | Some n, Some other_nbf => (n <=? other_nbf)%N
  | Some _, None => false
  | _, _ => true
  end.

Definition lifetime_ends_after (self other : Ucan) : bool :=
  match exp (payload self), exp (payload other) with
  | Some e, Some other_exp => (other_exp <=? e)%N
  | Some _, None => false
  | None, _ => true
  end.

Definition lifetime_encompasses (self other : Ucan) : bool :=
  lifetime_begins_before self other && lifetime_ends_after self other.

(** ** Resolving the key of a DID *)
Definition DID_KEY_PREFIX : string := "did:key:z".

Record DidParser (Key : Type) := mkDidParser {
  key_constructors : gmap (list N) (bytes -> outcome Key);
  key_cache : gmap string Key;
}.
Arguments mkDidParser {Key} _ _.
Arguments key_constructors {Key} _.
Arguments key_cache {Key} _.

Section did.
Context {Key : Type} `{Bs58}.

Definition did_parser_new (slice : list (bytes * (bytes -> outcome Key))) : DidParser Key :=
  mkDidParser (foldl (fun m '(prefix, ctor) => <[prefix := ctor]> m) ∅ slice) ∅.

(** What [parse] computes when the DID is not cached; slicing fewer than two
    bytes panics. *)
Definition construct_key (ctors : gmap (list N) (bytes -> outcome Key)) (did : string) : outcome Key :=
  let? did_bytes := ok_or "bs58 decode error" (bs58_decode (string_drop (String.length DID_KEY_PREFIX) did)) in
  if decide (length did_bytes < 2) then Panic "range end index 2 out of range for slice"
  else
    match ctors !! take 2 did_bytes with
    | Some ctor => ctor (drop 2 did_bytes)
    | None => Err "Unrecognized magic bytes"
    end.

Definition did_parse (self : DidParser Key) (did : string) : outcome Key * DidParser Key :=
  if negb (starts_with DID_KEY_PREFIX did) then (Err "Expected valid did:key", self)
  else
    match key_cache self !! did with
    | Some key => (Ok key, self)
    | None =>
        let? key := construct_key (key_constructors self) did keeping self in
        (Ok key, mkDidParser (key_constructors self) (<[did := key]> (key_cache self)))
    end.
End did.

(** ** Validation and the JWT form *)
Section ucan.
Context {Key : Type} `{KeyMaterial Key} `{Bs58} `{Base64} `{DagJson UcanHeader} `{DagJson UcanPayload}.

Definition check_signature (u : Ucan) (did_parser : DidParser Key) : outcome unit * DidParser Key :=
  let '(r, did_parser') := did_parse did_parser (iss (payload u)) in
  let? key := r keeping did_parser' in
  (key_verify key (signed_data u) (signature u), did_parser').

Definition validate (clock : N) (u : Ucan) (now_time : option N) (did_parser : DidParser Key)
    : outcome unit * DidParser Key :=
  if is_expired clock u now_time then (Err "Expired", did_parser)
  else if is_too_early clock u then (Err "Not active yet (too early)", did_parser)
  else check_signature u did_parser.

Definition jwt_base64_encode {T} `{DagJson T} (x : T) : outcome string :=
  let? json := to_dag_json x in Ok (b64_encode json).

Definition ucan_encode (u : Ucan) : outcome string :=
  let? header := jwt_base64_encode (header u) in
  let? payload := jwt_base64_encode (payload u) in
  let signature := b64_encode (signature u) in
  Ok (header +:+ "." +:+ payload +:+ "." +:+ signature).

(** [Iterator::reduce] with [format!("{l}.{r}")]. *)
Definition join_dots (parts : list string) : option string :=
  match parts with
  | [] => None
  | p :: ps => Some (foldl (fun l r => l +:+ "." +:+ r) p ps)
  end.

Definition decode_part (e_missing : string) (parts : list string) (i : nat) : outcome bytes :=
  let? part := ok_or e_missing (parts !! i) in
  ok_or "Could not decode base64" (b64_decode part).

Definition ucan_from_str (ucan_token : string) : outcome Ucan :=
  let parts := split_on "." ucan_token in
  let? signed := ok_or "Could not parse signed data from token string" (join_dots (take 2 parts)) in
  let? header_bytes := decode_part "Missing UCAN header in token part" parts 0 in
  let? header := from_dag_json header_bytes in
  let? payload_bytes := decode_part "Missing UCAN payload in token part" parts 1 in
  let? payload := from_dag_json payload_bytes in
  let? signature := decode_part "Missing UCAN signature in token part" parts 2 in
  Ok (mkUcan header payload (as_bytes signed) signature).

(** [to_cid] with the default hasher. *)
Definition ucan_to_cid {Cid} `{CidOps Cid} (u : Ucan) : outcome Cid :=
  let? token := ucan_encode u in Ok (cid_new_v1 RAW (blake3_256 (as_bytes token))).

(** ** Building and signing *)
Record Signable := mkSignable {
  s_issuer : Key;
  s_audience : string;
  s_capabilities : list Capability;
  s_expiration : option N;
  s_not_before : option N;
  s_facts : FactsMap;
  s_proofs : list string;
  s_add_nonce : bool;
}.

Definition ucan_header (self : Signable) : UcanHeader :=
  mkHeader (get_jwt_algorithm_name (s_issuer self)) "JWT".

(** [rng] is what [rand::thread_rng().gen::<[u8; 32]>()] returns. *)
Definition ucan_payload (rng : bytes) (self : Signable) : outcome UcanPayload :=
  let nonce := if s_add_nonce self then Some (b64_encode rng) else None in
  let facts := if bool_decide (s_facts self = []) then None else Some (s_facts self) in
  let proofs := if bool_decide (s_proofs self = []) then None else Some (s_proofs self) in
  let? iss := get_did (s_issuer self) in
  let? cap := capabilities_of_vec (s_capabilities self) in
  Ok (mkPayload UCAN_VERSION iss (s_audience self) (s_expiration self) (s_not_before self) nonce cap facts proofs).

Definition expect {A} (msg : string) (m : outcome A) : outcome A :=
  match m with Err _ => Panic msg | _ => m end.

Definition sign (rng : bytes) (self : Signable) : outcome Ucan :=
  let header := ucan_header self in
  let? payload := expect "Unable to generate UCAN payload" (ucan_payload rng self) in
  let? header_base64 := jwt_base64_encode header in
  let? payload_base64 := jwt_base64_encode payload in
  let data_to_sign := as_bytes (header_base64 +:+ "." +:+ payload_base64) in
  let? signature := key_sign (s_issuer self) data_to_sign in
  Ok (mkUcan header payload data_to_sign signature).

Record UcanBuilder := mkBuilder {
  b_issuer : option Key;
  b_audience : option string;
  b_capabilities : list Capability;
  b_lifetime : option N;
  b_expiration : option N;
  b_not_before : option N;
  b_facts : FactsMap;
  b_proofs : list string;
  b_add_nonce : bool;
}.

Definition builder_default : UcanBuilder := mkBuilder None None [] None None None [] [] false.

Definition issued_by (self : UcanBuilder) (issuer : Key) : UcanBuilder :=
  mkBuilder (Some issuer) (b_audience self) (b_capabilities self) (b_lifetime self) (b_expiration self)
    (b_not_before self) (b_facts self) (b_proofs self) (b_add_nonce self).
Definition for_audience (self : UcanBuilder) (audience : string) : UcanBuilder :=
  mkBuilder (b_issuer self) (Some audience) (b_capabilities self) (b_lifetime self) (b_expiration self)
    (b_not_before self) (b_facts self) (b_proofs self) (b_add_nonce self).
Definition with_lifetime (self : UcanBuilder) (seconds : N) : UcanBuilder :=
  mkBuilder (b_issuer self) (b_audience self) (b_capabilities self) (Some seconds) (b_expiration self)
    (b_not_before self) (b_facts self) (b_proofs self) (b_add_nonce self).
Definition with_expiration (self : UcanBuilder) (timestamp : N) : UcanBuilder :=
  mkBuilder (b_issuer self) (b_audience self) (b_capabilities self) (b_lifetime self) (Some timestamp)
    (b_not_before self) (b_facts self) (b_proofs self) (b_add_nonce self).
Definition builder_not_before (self : UcanBuilder) (timestamp : N) : UcanBuilder :=
  mkBuilder (b_issuer self) (b_audience self) (b_capabilities self) (b_lifetime self) (b_expiration self)
    (Some timestamp) (b_facts self) (b_proofs self) (b_add_nonce self).

(** [with_fact], with the result of [serde_json::to_value] as argument. *)
Definition with_fact (self : UcanBuilder) (key : string) (fact : outcome Value) : UcanBuilder :=
  match fact with
  | Ok value =>
      mkBuilder (b_issuer self) (b_audience self) (b_capabilities self) (b_lifetime self) (b_expiration self)
        (b_not_before self) (btree_insert (b_facts self) key value) (b_proofs self) (b_add_nonce self)
  | _ => self
  end.
Definition with_nonce (self : UcanBuilder) : UcanBuilder :=
  mkBuilder (b_issuer self) (b_audience self) (b_capabilities self) (b_lifetime self) (b_expiration self)
    (b_not_before self) (b_facts self) (b_proofs self) true.

Definition with_proofs (self : UcanBuilder) (proofs : list string) : UcanBuilder :=
  mkBuilder (b_issuer self) (b_audience self) (b_capabilities self) (b_lifetime self) (b_expiration self)
    (b_not_before self) (b_facts self) proofs (b_add_nonce self).
Definition claiming_capabilities (self : UcanBuilder) (caps : list Capability) : UcanBuilder :=
  mkBuilder (b_issuer self) (b_audience self) (b_capabilities self ++ caps) (b_lifetime self) (b_expiration self)
    (b_not_before self) (b_facts self) (b_proofs self) (b_add_nonce self).
Definition claiming_capability (self : UcanBuilder) (c : Capability) : UcanBuilder :=
  claiming_capabilities self [c].

Definition witnessed_by {Cid} `{CidOps Cid} (self : UcanBuilder) (authority : Ucan) : UcanBuilder :=
  match ucan_to_cid (Cid := Cid) authority with
  | Ok proof => with_proofs self (b_proofs self ++ [cid_to_string proof])
  | _ => self
  end.

Definition delegating_from {Cid Url} `{CidOps Cid} `{UrlOps Url} (self : UcanBuilder) (authority : Ucan) : UcanBuilder :=
  match ucan_to_cid (Cid := Cid) authority with
  | Ok proof =>
      let self' := with_proofs self (b_proofs self ++ [cid_to_string proof]) in
      let proof_index := N.of_nat (length (b_proofs self') - 1) in
      match parse (Url := Url) (S := ProofSelection) (A := ProofAction)
              ("prf:" +:+ pretty.pretty proof_index) "ucan/DELEGATE" None with
      | Some capability => claiming_capability self' (capability_of_view (Url := Url) capability)
      | None => self'
      end
  | _ => self
  end.

Definition implied_expiration (clock : N) (self : UcanBuilder) : outcome (option N) :=
  match b_expiration self with
  | Some e => Ok (Some e)
  | None =>
      match b_lifetime self with
      | Some lifetime =>
          if (clock + lifetime <? 2 ^ 64)%N then Ok (Some (clock + lifetime)%N)
          else Panic "attempt to add with overflow"
      | None => Ok None
      end
  end.

Definition build (clock : N) (self : UcanBuilder) : outcome Signable :=
  match b_issuer self with
  | Some issuer =>
      match b_audience self with
      | Some audience =>
          let? expiration := implied_expiration clock self in
          Ok (mkSignable issuer audience (b_capabilities self) expiration (b_not_before self)
                (b_facts self) (b_proofs self) (b_add_nonce self))
      | None => Err "Missing audience"
      end
  | None => Err "Missing issuer"
  end.
End ucan.
Arguments Signable Key : clear implicits.
Arguments UcanBuilder Key : clear implicits.

(** ** Stores of tokens *)
Inductive Ipld : Type :=
  | IpldBytes (b : bytes)
  | IpldOther.

(** The [UcanStore<RawCodec>] trait, at [Ipld]. *)
Class UcanStore (St Cid : Type) := {
  ucan_read : St -> Cid -> outcome (option Ipld);
  ucan_write : St -> Ipld -> outcome Cid * St;
}.

Section store.
Context {St Cid : Type} `{CidOps Cid} `{UcanStore St Cid}.

Definition read_token (s : St) (cid : Cid) : outcome (option string) :=
  if negb (cid_codec cid =? RAW)%N then Err "Only 'raw' codec supported"
  else
    let? found := ucan_read s cid in
    match found with
    | Some (IpldBytes b) => let? token := from_utf8 b in Ok (Some token)
    | _ => Err "No UCAN was found for CID"
    end.

Definition require_token (s : St) (cid : Cid) : outcome string :=
  let? found := read_token s cid in ok_or "No token found for CID" found.

Definition write_token (s : St) (token : string) : outcome Cid * St :=
  ucan_write s (IpldBytes (as_bytes token)).
End store.

(** The in-memory store. *)
Record UcanMemoryStore (Cid : Type) `{Countable Cid} := mkUcanMemory { dags : gmap Cid bytes }.
Arguments mkUcanMemory {Cid _ _} _.
Arguments dags {Cid _ _} _.

Definition ucan_memory_read {Cid} `{Countable Cid} (s : UcanMemoryStore Cid) (cid : Cid) : outcome (option Ipld) :=
  Ok (IpldBytes <$> dags s !! cid).

(** The raw codec encodes byte strings as themselves and nothing else. *)
Definition ucan_memory_write {Cid} `{Countable Cid} `{CidOps Cid} (s : UcanMemoryStore Cid) (token : Ipld)
    : outcome Cid * UcanMemoryStore Cid :=
  match token with
  | IpldBytes block =>
      let cid := cid_new_v1 RAW (blake3_256 block) in
      (Ok cid, mkUcanMemory (<[cid := block]> (dags s)))
  | IpldOther => (Err "Unsupported type", s)
  end.

#[export] Instance ucan_memory_store {Cid} `{Countable Cid} `{CidOps Cid} : UcanStore (UcanMemoryStore Cid) Cid := {
  ucan_read := ucan_memory_read;
  ucan_write := ucan_memory_write;
}.
