(* ===== verification/UcanChain.v ===== *)
(** * Proof chains

    Model of [noosphere-ucan/src/chain.rs]: reading the tree of proofs of a
    UCAN from a store while validating every token and every link, and reducing
    the tree to the capabilities it grants together with their originators.

    The proofs of a token are found through the store, so [from_ucan] takes
    fuel for the depth of the tree; running out is [Diverge]. *)
From stdpp Require Import base gmap list numbers strings.
From Stdlib Require Import Ascii String.
From S2P Require Import Prelude HamtNode HamtRep BTree BlockStore UcanCapability Ucan.
#[local] Open Scope list_scope.
#[local] Notation length := List.length (only parsing).

Inductive ProofChain : Type :=
  | mkChain (chain_ucan : Ucan) (chain_proofs : list ProofChain) (redelegations : list nat).

Definition chain_ucan (c : ProofChain) : Ucan := let 'mkChain u _ _ := c in u.
Definition chain_proofs (c : ProofChain) : list ProofChain := let 'mkChain _ ps _ := c in ps.
Definition redelegations (c : ProofChain) : list nat := let 'mkChain _ _ r := c in r.

Definition validate_link_to (self : ProofChain) (u : Ucan) : outcome unit :=
  if bool_decide (audience (chain_ucan self) = issuer u) then
    if lifetime_encompasses (chain_ucan self) u then Ok tt
    else Err "Invalid UCAN link: lifetime exceeds attenuation"
  else Err "Invalid UCAN link: audience does not match issuer".

(** [BTreeSet::insert] on the list of members in increasing order. *)
Fixpoint ordered_add (x : nat) (l : list nat) : list nat :=
  match l with
  | [] => [x]
  | y :: l' => if decide (x < y) then x :: l else if decide (x = y) then l else y :: ordered_add x l'
  end.

Section chain.
Context {Key Url St Cid : Type}.
Context `{KeyMaterial Key} `{Bs58} `{Base64} `{DagJson UcanHeader} `{DagJson UcanPayload}.
Context `{UrlOps Url} `{CidOps Cid} `{UcanStore St Cid}.

(** The redelegations claimed by a token with [count] proofs. *)
Definition collect_redelegations (u : Ucan) (count : nat) : outcome (list nat) :=
  try_fold (fun acc (c : CapabilityView ProofSelection ProofAction) =>
      match view_resource c with
      | RResource (Scoped All) => Ok (foldl (fun acc i => ordered_add i acc) acc (seq 0 count))
      | RResource (Scoped (Index index)) =>
          if (index <? N.of_nat count)%N then Ok (ordered_add (N.to_nat index) acc)
          else Err "Unable to redelegate proof; no proof at zero-based index"
      | _ => Ok acc
      end) []
    (omap (parse_capability (Url := Url)) (capabilities_iter (capabilities u))).

(** The loop over the proofs of a token; [rec] builds the chain of one token. *)
Fixpoint collect_proofs (rec : Ucan -> DidParser Key -> outcome ProofChain * DidParser Key)
    (s : St) (u : Ucan) (cids : list string) (did_parser : DidParser Key)
    : outcome (list ProofChain) * DidParser Key :=
  match cids with
  | [] => (Ok [], did_parser)
  | cid_string :: rest =>
      let? cid := cid_of_string (Cid := Cid) cid_string keeping did_parser in
      let? ucan_token := require_token s cid keeping did_parser in
      let? proof := ucan_from_str ucan_token keeping did_parser in
      let '(r, did_parser) := rec proof did_parser in
      let? proof_chain := r keeping did_parser in
      let? _ := validate_link_to proof_chain u keeping did_parser in
      let '(rs, did_parser) := collect_proofs rec s u rest did_parser in
      (outcome_map (cons proof_chain) rs, did_parser)
  end.

Fixpoint from_ucan (fuel : nat) (clock : N) (now_time : option N) (s : St) (u : Ucan) (did_parser : DidParser Key)
    : outcome ProofChain * DidParser Key :=
  match fuel with
  | O => (Diverge, did_parser)
  | S fuel' =>
      let '(r, did_parser) := validate clock u now_time did_parser in
      let? _ := r keeping did_parser in
      let '(rp, did_parser) :=
        collect_proofs (from_ucan fuel' clock now_time s) s u (default [] (proofs u)) did_parser in
      let? proofs := rp keeping did_parser in
      let? redelegations := collect_redelegations u (length proofs) keeping did_parser in
      (Ok (mkChain u proofs redelegations), did_parser)
  end.

Definition try_from_token_string (fuel : nat) (clock : N) (now_time : option N) (s : St) (token : string)
    (did_parser : DidParser Key) : outcome ProofChain * DidParser Key :=
  let? u := ucan_from_str token keeping did_parser in from_ucan fuel clock now_time s u did_parser.

Definition from_cid (fuel : nat) (clock : N) (now_time : option N) (s : St) (cid : Cid)
    (did_parser : DidParser Key) : outcome ProofChain * DidParser Key :=
  let? token := require_token s cid keeping did_parser in
  try_from_token_string fuel clock now_time s token did_parser.
End chain.

(** ** Reduction *)
Record CapabilityInfo (S A : Type) := mkInfo {
  originators : gset string;
  info_not_before : option N;
  info_expires_at : option N;
  info_capability : CapabilityView S A;
}.
Arguments mkInfo {S A} _ _ _ _.
Arguments originators {S A} _.
Arguments info_not_before {S A} _.
Arguments info_expires_at {S A} _.
Arguments info_capability {S A} _.

Section reduce.
Context {Url S A : Type} `{UrlOps Url} `{Scope Url S} `{Ability A}.
Notation info := (CapabilityInfo S A).
Notation view := (CapabilityView S A).

Definition add_originators (i : info) (o : gset string) : info :=
  mkInfo (originators i ∪ o) (info_not_before i) (info_expires_at i) (info_capability i).

(** The inner [for] of the merge loop: the first remaining capability that
    enables the popped one takes over its originators. *)
Fixpoint absorb (x : info) (remaining : list info) : option (list info) :=
  match remaining with
  | [] => None
  | y :: rest =>
      if view_enables (Url := Url) (info_capability y) (info_capability x) then Some (add_originators y (originators x) :: rest)
      else cons y <$> absorb x rest
  end.

(** The merge loop, with one unit of fuel for each pop. *)
Fixpoint merge_infos (fuel : nat) (infos merged : list info) : outcome (list info) :=
  match vec_pop infos with
  | None => Ok merged
  | Some (x, remaining) =>
      match fuel with
      | O => Diverge
      | Datatypes.S fuel' =>
          match absorb x remaining with
          | Some remaining' => merge_infos fuel' remaining' merged
          | None => merge_infos fuel' remaining (merged ++ [x])
          end
      end
  end.

(** The originators of one capability claimed by a token that has proofs. *)
Definition find_originators (u : Ucan) (ancestral : list info) (c : view) : gset string :=
  let found := ⋃ ((fun i => originators i) <$> filter (fun i => view_enables (Url := Url) (info_capability i) c = true) ancestral) in
  if decide (found = ∅) then {[ issuer u ]} else found.

Definition self_views (u : Ucan) : list view :=
  map_while (parse_capability (Url := Url)) (capabilities_iter (capabilities u)).

Definition self_infos (u : Ucan) (proof_count : nat) (ancestral : list info) : list info :=
  (fun c => mkInfo (if decide (proof_count = 0) then {[ issuer u ]} else find_originators u ancestral c)
              (not_before u) (expires_at u) c) <$> self_views u.

(** Redelegated capabilities take the lifetime of the token that redelegates. *)
Definition redelegate (u : Ucan) (i : info) : info :=
  mkInfo (originators i) (not_before u) (expires_at u) (info_capability i).

Fixpoint reduce_capabilities (self : ProofChain) : outcome (list info) :=
  match self with
  | mkChain u proofs redelegations =>
      let? reduced := try_map reduce_capabilities proofs in
      let ancestral := mjoin (imap (fun index infos =>
        if decide (index ∈ redelegations) then [] else infos) reduced) in
      let? redelegated := try_map (fun index =>
        let? infos := or_panic "called `Option::unwrap()` on a `None` value" (reduced !! index) in
        Ok (redelegate u <$> infos)) redelegations in
      let infos := self_infos u (length proofs) ancestral ++ mjoin redelegated in
      merge_infos (length infos) infos []
  end.
End reduce.
