(* ===== verification/UcanProofs.v ===== *)
(** * Properties of proof chains

    What a chain that was read guarantees, that it is read whenever those
    guarantees hold, and what the reduction of a chain grants.

    The reduction of a chain always ends, names only issuers of the chain as
    originators and only capabilities the chain claims; and when no token
    claims two capabilities of which one enables the other, every originator
    has itself claimed a capability that covers the one it is named for.

    The JWT form against the token, signing against validation, and tokens in
    a store. *)
From stdpp Require Import base gmap list numbers strings pretty sorting.
From Stdlib Require Import Ascii String.
From S2P Require Import Prelude HamtNode HamtRep BTree BlockStore UcanCapability Ucan UcanChain.
#[local] Open Scope list_scope.
#[local] Notation length := List.length (only parsing).

(** ** Induction on chains *)
Lemma ProofChain_ind' (P : ProofChain -> Prop) :
  (forall u ps rs, Forall P ps -> P (mkChain u ps rs)) -> forall c, P c.
Proof.
  intros HP. fix IH 1. intros [u ps rs]. apply HP. induction ps as [|p ps IHps]; constructor; auto.
Qed.

(** [in_chain c' c]: [c'] is [c] or one of the proofs below it. *)
Inductive in_chain : ProofChain -> ProofChain -> Prop :=
  | in_chain_here c : in_chain c c
  | in_chain_below c' p c : p ∈ chain_proofs c -> in_chain c' p -> in_chain c' c.

Fixpoint chain_depth (c : ProofChain) : nat :=
  let 'mkChain _ ps _ := c in S (max_list_with chain_depth ps).

Lemma max_list_with_le {A} (f : A -> nat) l n : Forall (fun x => f x <= n) l -> max_list_with f l <= n.
Proof. induction 1; cbn; lia. Qed.

(** ** The DID parser *)
Section did_facts.
Context {Key : Type} `{Bs58}.
Notation ctors := (gmap (list N) (bytes -> outcome Key)).

(** Resolving a DID without a cache. *)
Definition resolve (c : ctors) (did : string) : outcome Key :=
  if negb (starts_with DID_KEY_PREFIX did) then Err "Expected valid did:key" else construct_key c did.

(** Every cached key is the one its DID resolves to. *)
Definition cache_ok (p : DidParser Key) : Prop :=
  forall did key, key_cache p !! did = Some key -> construct_key (key_constructors p) did = Ok key.

Lemma did_parse_spec (p : DidParser Key) did : cache_ok p ->
  exists p', did_parse p did = (resolve (key_constructors p) did, p') /\
    cache_ok p' /\ key_constructors p' = key_constructors p.
Proof.
  intros Hp. unfold did_parse, resolve. destruct (starts_with _ _); cbn; [|by exists p].
  destruct (key_cache p !! did) as [key|] eqn:Ec.
  - rewrite (Hp _ _ Ec). by exists p.
  - destruct (construct_key (key_constructors p) did) as [key|e|e|] eqn:Ek; cbn; [|by exists p..].
    eexists. split; [done|]. split; [|done]. intros did' key'. cbn.
    destruct (decide (did = did')) as [<-|Hne].
    + rewrite lookup_insert_eq. by intros [= <-].
    + rewrite lookup_insert_ne by done. apply Hp.
Qed.

Lemma did_parser_new_ok slice : cache_ok (did_parser_new slice).
Proof. intros did key. cbn. by rewrite lookup_empty. Qed.
End did_facts.

(** ** Validation *)
Section validation.
Context {Key Url St Cid : Type}.
Context `{KeyMaterial Key} `{Bs58} `{Base64} `{DagJson UcanHeader} `{DagJson UcanPayload}.
Context `{UrlOps Url} `{CidOps Cid} `{UcanStore St Cid}.
Context (clock : N) (now_time : option N) (s : St) (ctors : gmap (list N) (bytes -> outcome Key)).

Definition validation (u : Ucan) : outcome unit :=
  if is_expired clock u now_time then Err "Expired"
  else if is_too_early clock u then Err "Not active yet (too early)"
  else let? key := resolve ctors (issuer u) in key_verify key (signed_data u) (signature u).

(** A parser for the supported keys whose cache is coherent. *)
Definition parser_ok (p : DidParser Key) : Prop := cache_ok p /\ key_constructors p = ctors.

Lemma validate_spec u p : parser_ok p ->
  exists p', validate clock u now_time p = (validation u, p') /\ parser_ok p'.
Proof.
  intros Hpp. destruct (Hpp) as [Hp Hct]. unfold validate, validation, check_signature. rewrite <- Hct.
  destruct (is_expired _ _ _); [by exists p|]. destruct (is_too_early _ _); [by exists p|].
  destruct (did_parse_spec p (iss (payload u)) Hp) as (p' & E & Hp' & Hc). rewrite E. unfold issuer.
  exists p'. split; [by destruct (resolve _ _)|]. split; [done|]. by rewrite Hc.
Qed.

(** ** What a chain guarantees *)
Inductive chain_valid : Ucan -> ProofChain -> Prop :=
  | chain_valid_intro u ps rs :
      validation u = Ok tt ->
      Forall2 (fun cid_string p => exists (cid : Cid) token u',
          cid_of_string cid_string = Ok cid /\ require_token s cid = Ok token /\
          ucan_from_str token = Ok u' /\ chain_valid u' p /\ validate_link_to p u = Ok tt)
        (default [] (proofs u)) ps ->
      collect_redelegations (Url := Url) u (length ps) = Ok rs ->
      chain_valid u (mkChain u ps rs).

Lemma chain_valid_ucan u c : chain_valid u c -> chain_ucan c = u.
Proof. by destruct 1. Qed.

Definition link_valid (u : Ucan) cid_string p : Prop :=
  exists (cid : Cid) token u', cid_of_string cid_string = Ok cid /\ require_token s cid = Ok token /\
    ucan_from_str token = Ok u' /\ chain_valid u' p /\ validate_link_to p u = Ok tt.

Lemma collect_proofs_sound rec u cids p ps p' :
  (forall u' p c p', parser_ok p -> rec u' p = (Ok c, p') -> chain_valid u' c /\ parser_ok p') ->
  parser_ok p -> collect_proofs (Cid := Cid) rec s u cids p = (Ok ps, p') ->
  Forall2 (link_valid u) cids ps /\ parser_ok p'.
Proof.
  intros Hrec. revert p ps. induction cids as [|cid_string cids IH]; intros p ps Hp E.
  { cbn in E. simplify_eq. by split. }
  cbn [collect_proofs] in E.
  destruct (cid_of_string cid_string) as [cid| | |] eqn:Ec; cbn [try_with] in E; try done.
  destruct (require_token s cid) as [token| | |] eqn:Et; cbn [try_with] in E; try done.
  destruct (ucan_from_str token) as [u'| | |] eqn:Eu; cbn [try_with] in E; try done.
  destruct (rec u' p) as [[c| | |] p1] eqn:Er; cbn [try_with] in E; try done.
  destruct (Hrec _ _ _ _ Hp Er) as [Hc Hp1].
  destruct (validate_link_to c u) as [[]| | |] eqn:El; cbn [try_with] in E; try done.
  destruct (collect_proofs rec s u cids p1) as [[ps'| | |] p2] eqn:Ers; cbn in E; try done.
  simplify_eq. destruct (IH _ _ Hp1 Ers) as [HF Hp2]. split; [|done]. constructor; [|done].
  by exists cid, token, u'.
Qed.

Lemma from_ucan_sound fuel u p c p' : parser_ok p ->
  from_ucan (Url := Url) (Cid := Cid) fuel clock now_time s u p = (Ok c, p') -> chain_valid u c /\ parser_ok p'.
Proof.
  revert u p c p'. induction fuel as [|fuel IH]; intros u p c p' Hp E; [done|]. cbn [from_ucan] in E.
  destruct (validate_spec u p Hp) as (p1 & Ev & Hp1). rewrite Ev in E.
  destruct (validation u) as [[]| | |] eqn:Hv; cbn [try_with] in E; try done.
  destruct (collect_proofs _ s u _ p1) as [[ps| | |] p2] eqn:Ec; cbn [try_with] in E; try done.
  destruct (collect_proofs_sound _ _ _ _ _ _ IH Hp1 Ec) as [HF Hp2].
  destruct (collect_redelegations u (length ps)) as [rs| | |] eqn:Er; cbn in E; try done.
  simplify_eq. split; [|done]. by constructor.
Qed.

Lemma collect_proofs_complete rec u cids p ps :
  (forall u' p c, c ∈ ps -> parser_ok p -> chain_valid u' c -> exists p', rec u' p = (Ok c, p') /\ parser_ok p') ->
  parser_ok p -> Forall2 (link_valid u) cids ps ->
  exists p', collect_proofs (Cid := Cid) rec s u cids p = (Ok ps, p') /\ parser_ok p'.
Proof.
  intros Hrec Hp HF. revert p Hp.
  induction HF as [|cid_string c cids ps (cid & token & u' & Ec & Et & Eu & Hc & El) _ IH]; intros p Hp; [by exists p|].
  destruct (Hrec u' p c ltac:(left) Hp Hc) as (p1 & Er & Hp1).
  destruct (IH (fun u' p c Hin => Hrec u' p c ltac:(by right)) p1 Hp1) as (p2 & Ers & Hp2).
  exists p2. split; [|done]. cbn [collect_proofs]. rewrite Ec. cbn [try_with]. rewrite Et. cbn [try_with].
  rewrite Eu. cbn [try_with]. rewrite Er. cbn [try_with]. rewrite El. cbn [try_with]. by rewrite Ers.
Qed.

Lemma chain_depth_proof c p : p ∈ chain_proofs c -> chain_depth p < chain_depth c.
Proof.
  destruct c as [u ps rs]. cbn. intros Hp. apply Nat.lt_succ_r.
  induction Hp as [p ps|p q ps _ IH]; cbn; lia.
Qed.

Lemma from_ucan_complete fuel u p c : parser_ok p -> chain_valid u c -> chain_depth c <= fuel ->
  exists p', from_ucan (Url := Url) (Cid := Cid) fuel clock now_time s u p = (Ok c, p') /\ parser_ok p'.
Proof.
  revert u p c. induction fuel as [|fuel IH]; intros u p c Hp Hc Hd; [by destruct c; cbn in Hd; lia|].
  destruct Hc as [u ps rs Hv HF Hr]. destruct (validate_spec u p Hp) as (p1 & Ev & Hp1).
  destruct (collect_proofs_complete (from_ucan (Url := Url) fuel clock now_time s) u (default [] (proofs u)) p1 ps)
    as (p2 & Ec & Hp2); [|done|done|].
  { intros u' p' c' Hin Hp' Hc'. apply IH; [done|done|].
    pose proof (chain_depth_proof (mkChain u ps rs) c' Hin). lia. }
  exists p2. split; [|done]. cbn [from_ucan]. rewrite Ev, Hv. cbn [try_with]. rewrite Ec. cbn [try_with].
  by rewrite Hr.
Qed.

(** ** Lifetimes *)
Lemma lifetime_encompasses_refl u : lifetime_encompasses u u = true.
Proof.
  unfold lifetime_encompasses, lifetime_begins_before, lifetime_ends_after.
  destruct (nbf (payload u)), (exp (payload u)); cbn; rewrite ?N.leb_refl; done.
Qed.

Lemma lifetime_encompasses_trans a b c :
  lifetime_encompasses a b = true -> lifetime_encompasses b c = true -> lifetime_encompasses a c = true.
Proof.
  unfold lifetime_encompasses, lifetime_begins_before, lifetime_ends_after.
  destruct (nbf (payload a)), (nbf (payload b)), (nbf (payload c)), (exp (payload a)), (exp (payload b)),
    (exp (payload c)); cbn; rewrite ?andb_true_iff, ?N.leb_le; intuition (try done; lia).
Qed.

Lemma validate_link_ok c u : validate_link_to c u = Ok tt ->
  audience (chain_ucan c) = issuer u /\ lifetime_encompasses (chain_ucan c) u = true.
Proof.
  unfold validate_link_to. case_bool_decide; [|done]. by destruct (lifetime_encompasses _ _).
Qed.

Lemma chain_valid_proof u c p : chain_valid u c -> p ∈ chain_proofs c ->
  exists u', chain_valid u' p /\ validate_link_to p u = Ok tt.
Proof.
  destruct 1 as [u ps rs _ HF _]. cbn. intros Hp. apply list_elem_of_lookup in Hp as (i & Hi).
  destruct (Forall2_lookup_r _ _ _ _ _ HF Hi) as (cs & _ & cid & token & u' & _ & _ & _ & Hc & Hl). eauto.
Qed.

(** Every token of a chain is valid itself, and valid for as long as the root. *)
Lemma chain_valid_all u c c' : chain_valid u c -> in_chain c' c ->
  chain_valid (chain_ucan c') c' /\ validation (chain_ucan c') = Ok tt /\
  lifetime_encompasses (chain_ucan c') u = true.
Proof.
  intros Hc Hin. revert u Hc. induction Hin as [c|c' p c Hp Hin IH]; intros u Hc.
  - pose proof (chain_valid_ucan _ _ Hc) as ->. split_and!; [done|by destruct Hc|apply lifetime_encompasses_refl].
  - destruct (chain_valid_proof _ _ _ Hc Hp) as (u' & Hc' & Hl). destruct (IH u' Hc') as (H1' & H2' & H3').
    split_and!; [done|done|]. apply validate_link_ok in Hl as [_ Hl].
    rewrite (chain_valid_ucan _ _ Hc') in Hl. by eapply lifetime_encompasses_trans.
Qed.

(** ** Redelegations *)
Lemma ordered_add_Forall (P : nat -> Prop) x l : P x -> Forall P l -> Forall P (ordered_add x l).
Proof.
  intros Hx. induction 1 as [|y l Hy Hl IH]; cbn; [by constructor|].
  repeat case_decide; repeat constructor; done.
Qed.

Lemma collect_redelegations_bound u count rs :
  collect_redelegations (Url := Url) u count = Ok rs -> Forall (fun i => i < count) rs.
Proof.
  unfold collect_redelegations. generalize (omap (parse_capability (Url := Url) (S := ProofSelection) (A := ProofAction))
    (capabilities_iter (capabilities u))). intros l.
  assert (Forall (fun i => i < count) []) as Hacc by constructor. revert Hacc.
  generalize (@nil nat) as acc. induction l as [|c l IH]; intros acc Hacc E; [by injection E as <-|].
  cbn in E. destruct (view_resource c) as [[[i|]|]| |]; cbn in E; try by apply (IH acc).
  - destruct (N.ltb_spec i (N.of_nat count)); cbn in E; [|done].
    apply (IH (ordered_add (N.to_nat i) acc)); [|done]. apply ordered_add_Forall; [lia|done].
  - apply (IH (foldl (fun acc i => ordered_add i acc) acc (seq 0 count))); [|done].
    assert (Forall (fun i => i < count) (seq 0 count)) as Hseq by (apply Forall_seq; lia).
    clear -Hacc Hseq. revert acc Hacc. induction Hseq as [|x xs Hx _ IHs]; intros acc Hacc; [done|].
    cbn. apply IHs. by apply ordered_add_Forall.
Qed.

Lemma chain_valid_redelegations u c c' : chain_valid u c -> in_chain c' c ->
  Forall (fun i => i < length (chain_proofs c')) (redelegations c').
Proof.
  intros Hc Hin. destruct (chain_valid_all _ _ _ Hc Hin) as (Hv & _).
  inversion Hv as [u' ps rs _ _ Hr E1 E2]. by eapply collect_redelegations_bound.
Qed.

Lemma ordered_add_elem x y l : y ∈ ordered_add x l <-> y = x \/ y ∈ l.
Proof.
  induction l as [|z l IH]; cbn; [by rewrite list_elem_of_singleton, elem_of_nil; naive_solver|].
  repeat case_decide; subst; rewrite ?elem_of_cons, ?IH; naive_solver.
Qed.

Lemma ordered_add_sorted x l : StronglySorted lt l -> StronglySorted lt (ordered_add x l).
Proof.
  induction 1 as [|y l Hl IH Hy]; cbn; [by repeat constructor|]. repeat case_decide.
  - constructor; [by constructor|]. constructor; [done|]. eapply Forall_impl; [exact Hy|]. intros z Hz. cbn in Hz. lia.
  - by constructor.
  - constructor; [done|]. apply ordered_add_Forall; [lia|done].
Qed.

Lemma ordered_adds xs : forall l, StronglySorted lt l ->
  StronglySorted lt (foldl (fun acc i => ordered_add i acc) l xs) /\ forall y, y ∈ foldl (fun acc i => ordered_add i acc) l xs <-> y ∈ xs \/ y ∈ l.
Proof.
  induction xs as [|x xs IH]; intros l Hl; cbn [foldl]; [by split; [|set_solver]|].
  destruct (IH _ (ordered_add_sorted x l Hl)) as [Hs He]. split; [done|]. intros y. rewrite He, ordered_add_elem, elem_of_cons. tauto.
Qed.

(** ** Validity without reference to how a chain is built *)

(** The token is within its time. *)
Definition lives (u : Ucan) : Prop :=
  (forall e, exp (payload u) = Some e -> (default clock now_time <= e)%N) /\ (forall n, nbf (payload u) = Some n -> (n <= clock)%N).

Definition signed_by_issuer (u : Ucan) : Prop :=
  exists key, resolve ctors (iss (payload u)) = Ok key /\ key_verify key (signed_data u) (signature u) = Ok tt.

(** [proof] is addressed to the issuer of [u], and [u] is not in force when it is not. *)
Definition supports (proof u : Ucan) : Prop :=
  aud (payload proof) = iss (payload u) /\
  (forall e, exp (payload proof) = Some e -> exists e', exp (payload u) = Some e' /\ (e' <= e)%N) /\
  (forall n, nbf (payload proof) = Some n -> exists n', nbf (payload u) = Some n' /\ (n <= n')%N).

Definition found_in_store (cid_string : string) (u : Ucan) : Prop :=
  exists (cid : Cid) token, cid_of_string cid_string = Ok cid /\ require_token s cid = Ok token /\ ucan_from_str token = Ok u.

(** [u] claims to hand on the proofs that [selection] selects. *)
Definition hands_on (u : Ucan) (selection : ProofSelection) : Prop :=
  exists cap (view : CapabilityView ProofSelection ProofAction), cap ∈ capabilities_iter (capabilities u) /\
    parse_capability (Url := Url) cap = Some view /\ view_resource view = RResource (Scoped selection).

(** [rs] are the places of the proofs that [u] hands on, in order, and each exists. *)
Definition redelegates (u : Ucan) (count : nat) (rs : list nat) : Prop :=
  StronglySorted lt rs /\ (forall i, hands_on u (Index i) -> (i < N.of_nat count)%N) /\
  forall i, i ∈ rs <-> i < count /\ (hands_on u All \/ hands_on u (Index (N.of_nat i))).

(** What holds of every token of a chain. *)
Record sound_link (c : ProofChain) : Prop := {
  link_lives : lives (chain_ucan c);
  link_signed : signed_by_issuer (chain_ucan c);
  link_proofs : Forall2 (fun cid_string p => found_in_store cid_string (chain_ucan p) /\ supports (chain_ucan p) (chain_ucan c))
    (default [] (proofs (chain_ucan c))) (chain_proofs c);
  link_redelegates : redelegates (chain_ucan c) (length (chain_proofs c)) (redelegations c);
}.

Definition sound_chain (u : Ucan) (c : ProofChain) : Prop := chain_ucan c = u /\ forall c', in_chain c' c -> sound_link c'.

Lemma validation_iff u : validation u = Ok tt <-> lives u /\ signed_by_issuer u.
Proof.
  unfold validation, lives, signed_by_issuer, is_expired, is_too_early, issuer. split.
  - intros E. destruct (exp (payload u)) as [e|], (nbf (payload u)) as [n|];
      repeat match type of E with context [(?a <? ?b)%N] => destruct (N.ltb_spec a b); [done|] end;
      (split; [split; intros ? [= <-]; done|]); destruct (resolve _ _) as [key| | |]; cbn in E; try done; by exists key.
  - intros [[He Hn] (key & -> & Hv)]. cbn. destruct (exp (payload u)) as [e|], (nbf (payload u)) as [n|];
      repeat match goal with |- context [(?a <? ?b)%N] => destruct (N.ltb_spec a b) as [Hlt|_]; [first [specialize (He _ eq_refl); lia|specialize (Hn _ eq_refl); lia]|] end; exact Hv.
Qed.

Lemma validate_link_iff c u : validate_link_to c u = Ok tt <-> supports (chain_ucan c) u.
Proof.
  unfold validate_link_to, supports, lifetime_encompasses, lifetime_begins_before, lifetime_ends_after, audience, issuer.
  case_bool_decide as Ha; [|by split; [|intros [? _]]].
  destruct (exp (payload (chain_ucan c))) as [e|], (exp (payload u)) as [e'|], (nbf (payload (chain_ucan c))) as [n|], (nbf (payload u)) as [n'|]; cbn;
    rewrite ?andb_true_r, ?andb_false_r;
    repeat match goal with |- context [(?a <=? ?b)%N] => destruct (N.leb_spec a b) end; cbn; (split; [intros ?|intros (_ & He & Hn)]); try done;
    try (split; [done|]; split; intros ? [= <-]; by eexists);
    exfalso; try (destruct (He _ eq_refl) as (? & [= <-] & ?); lia); try (destruct (Hn _ eq_refl) as (? & [= <-] & ?); lia);
    try (by destruct (He _ eq_refl) as (? & ? & ?)); by destruct (Hn _ eq_refl) as (? & ? & ?).
Qed.

(** The step of [collect_redelegations], and what a list of views selects. *)
Definition selects (l : list (CapabilityView ProofSelection ProofAction)) (selection : ProofSelection) : Prop :=
  exists view, view ∈ l /\ view_resource view = RResource (Scoped selection).

Lemma selects_cons v l selection : selects (v :: l) selection <-> view_resource v = RResource (Scoped selection) \/ selects l selection.
Proof. unfold selects. setoid_rewrite elem_of_cons. naive_solver. Qed.

Lemma hands_on_selects u selection : hands_on u selection <-> selects (omap (parse_capability (Url := Url)) (capabilities_iter (capabilities u))) selection.
Proof. unfold hands_on, selects. setoid_rewrite list_elem_of_omap. naive_solver. Qed.

Lemma collect_redelegations_views count (l : list (CapabilityView ProofSelection ProofAction)) : forall acc, StronglySorted lt acc ->
  let r := try_fold (fun acc (c : CapabilityView ProofSelection ProofAction) =>
      match view_resource c with
      | RResource (Scoped All) => Ok (foldl (fun acc i => ordered_add i acc) acc (seq 0 count))
      | RResource (Scoped (Index index)) =>
          if (index <? N.of_nat count)%N then Ok (ordered_add (N.to_nat index) acc)
          else Err "Unable to redelegate proof; no proof at zero-based index"
      | _ => Ok acc
      end) acc l in
  ((forall i, selects l (Index i) -> (i < N.of_nat count)%N) ->
    exists rs, r = Ok rs /\ StronglySorted lt rs /\ forall i, i ∈ rs <-> i ∈ acc \/ i < count /\ (selects l All \/ selects l (Index (N.of_nat i)))) /\
  (forall rs, r = Ok rs -> forall i, selects l (Index i) -> (i < N.of_nat count)%N).
Proof.
  induction l as [|v l IH]; intros acc Hacc; cbn [try_fold].
  { split; [intros _; exists acc; split; [done|]; split; [done|]; unfold selects; set_solver|]. by intros rs _ i (view & ?%elem_of_nil & _). }
  setoid_rewrite selects_cons. destruct (view_resource v) as [[[index|]|]| |]; cbn [outcome_bind]; try (destruct (IH acc Hacc) as [IH1 IH2]; split;
    [intros Hi; destruct IH1 as (rs & E & Hs & He); [intros i Hi'; apply Hi; by right|]; exists rs; split; [done|]; split; [done|]; intros i; rewrite He; naive_solver
    |intros rs E i [Hi|Hi]; [done|by eapply IH2]]).
  - destruct (N.ltb_spec index (N.of_nat count)) as [Hlt|Hge]; cbn [outcome_bind].
    + destruct (IH (ordered_add (N.to_nat index) acc) (ordered_add_sorted _ _ Hacc)) as [IH1 IH2]. split.
      * intros Hi. destruct IH1 as (rs & E & Hs & He); [intros i Hi'; apply Hi; by right|]. exists rs. split; [done|]. split; [done|]. intros i.
        rewrite He, ordered_add_elem. split.
        -- intros [[->|Hin]|[Hc [Ha|Ha]]]; [right; split; [lia|]; right; left; by rewrite N2Nat.id|by left|naive_solver..].
        -- intros [Hin|[Hc [[[=]|Ha]|[[= ->]|Ha]]]]; [naive_solver|naive_solver| |naive_solver]. left. left. by rewrite Nat2N.id.
      * intros rs E i [[= <-]|Hi]; [done|by eapply IH2].
    + split; [|done]. intros Hi. specialize (Hi index (or_introl eq_refl)). lia.
  - destruct (ordered_adds (seq 0 count) acc Hacc) as [Hs' He']. destruct (IH _ Hs') as [IH1 IH2]. split.
    + intros Hi. destruct IH1 as (rs & E & Hs & He); [intros i Hi'; apply Hi; by right|]. exists rs. split; [done|]. split; [done|]. intros i.
      rewrite He, He', elem_of_seq. split; [intros [[?|?]|(? & ?)]; [right; split; [lia|by left; left]|by left|naive_solver]|].
      intros [?|(? & ?)]; [naive_solver|left; left; lia].
    + intros rs E i [Hi|Hi]; [done|by eapply IH2].
Qed.

Lemma sorted_same (l l' : list nat) : StronglySorted lt l -> StronglySorted lt l' -> (forall i, i ∈ l <-> i ∈ l') -> l = l'.
Proof.
  intros Hl. revert l'. induction Hl as [|x l Hl IH Hx]; intros l' Hl' He.
  { destruct l' as [|y l']; [done|]. destruct (not_elem_of_nil y). apply He. by left. }
  destruct Hl' as [|y l' Hl' Hy]; [destruct (not_elem_of_nil x); apply He; by left|]. rewrite Forall_forall in Hx. rewrite Forall_forall in Hy.
  assert (x = y) as <-.
  { destruct (proj1 (elem_of_cons _ _ _) (proj1 (He x) ltac:(by left))) as [?|Hin]; [done|].
    destruct (proj1 (elem_of_cons _ _ _) (proj2 (He y) ltac:(by left))) as [?|Hin']; [done|]. specialize (Hx _ Hin'). specialize (Hy _ Hin). lia. }
  f_equal. apply IH; [done|]. intros i. specialize (He i). rewrite !elem_of_cons in He. split; intros Hin.
  - destruct (proj1 He (or_intror Hin)) as [->|?]; [|done]. specialize (Hx _ Hin). lia.
  - destruct (proj2 He (or_intror Hin)) as [->|?]; [|done]. specialize (Hy _ Hin). lia.
Qed.

Lemma collect_redelegations_iff u count rs : collect_redelegations (Url := Url) u count = Ok rs <-> redelegates u count rs.
Proof.
  unfold collect_redelegations, redelegates. setoid_rewrite hands_on_selects.
  destruct (collect_redelegations_views count (omap (parse_capability (Url := Url)) (capabilities_iter (capabilities u))) [] ltac:(constructor)) as [H1' H2'].
  split.
  - intros E. specialize (H2' rs E). destruct (H1' H2') as (rs' & E' & Hs & He). rewrite E in E'. injection E' as <-.
    split; [done|]. split; [done|]. intros i. rewrite He, elem_of_nil. naive_solver.
  - intros (Hs & Hi & He). destruct (H1' Hi) as (rs' & -> & Hs' & He'). f_equal. apply sorted_same; [done|done|]. intros i. rewrite He, He', elem_of_nil. naive_solver.
Qed.

Lemma chain_valid_sound u c : chain_valid u c -> sound_chain u c.
Proof.
  intros Hc. split; [by apply chain_valid_ucan|]. intros c' Hin. destruct (chain_valid_all _ _ _ Hc Hin) as (Hv & _). clear Hc Hin.
  inversion Hv as [u' ps rs Hval HF Hr E1 E2]. cbn. apply validation_iff in Hval as [Hlive Hsig].
  split; cbn; [done|done| |by apply collect_redelegations_iff]. eapply Forall2_impl; [exact HF|].
  intros cs p (cid & token & u1 & Ec & Et & Eu & Hp & Hl). pose proof (chain_valid_ucan _ _ Hp) as Hu1. split; [exists cid, token; by rewrite Hu1|by apply validate_link_iff].
Qed.

Lemma sound_chain_valid u c : sound_chain u c -> chain_valid u c.
Proof.
  revert u. induction c as [u ps rs IH] using ProofChain_ind'. intros u' [Hu Hall]. cbn in Hu. subst u'.
  destruct (Hall _ (in_chain_here _)) as [Hlive Hsig HF Hr]. cbn in *. constructor; [by apply validation_iff| |by apply collect_redelegations_iff].
  assert (forall p, p ∈ ps -> sound_chain (chain_ucan p) p) as Hsub.
  { intros p Hp. split; [done|]. intros c' Hin. apply Hall. by apply (in_chain_below c' p). }
  clear Hall Hr Hsig Hlive. induction HF as [|cs p css ps [(cid & token & Ec & Et & Eu) Hs] HF IHF]; [constructor|].
  apply Forall_cons in IH as [IHp IH]. constructor; [|apply IHF; [done|intros p' Hp'; apply Hsub; by right]].
  exists cid, token, (chain_ucan p). split_and!; try done; [apply IHp, Hsub; by left|by apply validate_link_iff].
Qed.

(** Fuel for the depth of the chain is used. *)
Lemma collect_proofs_all (P : ProofChain -> Prop) rec u cids (p : DidParser Key) ps p' : (forall u' p c p', rec u' p = (Ok c, p') -> P c) ->
  collect_proofs (Cid := Cid) rec s u cids p = (Ok ps, p') -> Forall P ps.
Proof.
  intros Hrec. revert p ps. induction cids as [|cid_string cids IH]; intros p ps E; [cbn in E; by simplify_eq|]. cbn [collect_proofs] in E.
  destruct (cid_of_string cid_string) as [cid| | |]; cbn [try_with] in E; try done. destruct (require_token s cid) as [token| | |]; cbn [try_with] in E; try done.
  destruct (ucan_from_str token) as [u'| | |]; cbn [try_with] in E; try done. destruct (rec u' p) as [[c| | |] p1] eqn:Er; cbn [try_with] in E; try done.
  destruct (validate_link_to c u) as [[]| | |]; cbn [try_with] in E; try done.
  destruct (collect_proofs rec s u cids p1) as [[ps'| | |] p2] eqn:Ers; cbn in E; try done. simplify_eq. constructor; [by eapply Hrec|by eapply IH].
Qed.

Lemma from_ucan_depth fuel : forall u p c p', from_ucan (Url := Url) (Cid := Cid) fuel clock now_time s u p = (Ok c, p') -> chain_depth c <= fuel.
Proof.
  induction fuel as [|fuel IH]; intros u p c p' E; [done|]. cbn [from_ucan] in E. destruct (validate clock u now_time p) as [[[]| | |] p1]; cbn [try_with] in E; try done.
  destruct (collect_proofs _ s u _ p1) as [[ps| | |] p2] eqn:Ec; cbn [try_with] in E; try done.
  destruct (collect_redelegations u (length ps)) as [rs| | |]; cbn in E; try done. simplify_eq. cbn. apply le_n_S, max_list_with_le.
  eapply collect_proofs_all; [|exact Ec]. intros u' q c q' E. by eapply IH.
Qed.
End validation.

(** ** What a proof chain grants *)
Section reduce.
Context {Url S A : Type} `{UrlOps Url} `{Scope Url S} `{Ability A}.
Notation info := (CapabilityInfo S A).
Notation view := (CapabilityView S A).
Notation enables a b := (view_enables (Url := Url) a b = true).
Notation reduce := (reduce_capabilities (Url := Url) (S := S) (A := A)).
Implicit Types (c : ProofChain) (i : info) (v : view).

(** ** The merge loop *)
Lemma absorb_Some (x : info) l l' : absorb (Url := Url) x l = Some l' ->
  exists l1 y l2, l = l1 ++ y :: l2 /\ enables (info_capability y) (info_capability x) /\
    l' = l1 ++ add_originators y (originators x) :: l2.
Proof.
  revert l'. induction l as [|y l IH]; intros l' E; [done|]. cbn in E.
  destruct (view_enables _ _) eqn:Ey.
  - simplify_eq. by exists [], y, l.
  - destruct (absorb x l) as [l0|]; [|done]. cbn in E. simplify_eq.
    destruct (IH _ eq_refl) as (l1 & z & l2 & -> & Hz & ->). by exists (y :: l1), z, l2.
Qed.

Lemma absorb_None (x : info) l :
  Forall (fun y => view_enables (Url := Url) (info_capability y) (info_capability x) = false) l ->
  absorb (Url := Url) x l = None.
Proof. induction 1 as [|y l Hy _ IH]; [done|]. cbn. by rewrite Hy, IH. Qed.

(** The loop ends, and keeps what merging two infos keeps. *)
Lemma merge_infos_inv (P : info -> Prop) fuel (l merged : list info) :
  (forall x y, P x -> P y -> P (add_originators y (originators x))) ->
  length l <= fuel -> Forall P l -> Forall P merged ->
  exists r, merge_infos (Url := Url) fuel l merged = Ok r /\ Forall P r.
Proof.
  intros Hmerge. revert l merged. induction fuel as [|fuel IH]; intros l merged Hf Hl Hm;
    (destruct (vec_pop_cases l) as [->|(x & r & -> & Hp)]; [by exists merged|]).
  { rewrite length_app in Hf. cbn in Hf. lia. }
  rewrite length_app in Hf. cbn in Hf. cbn [merge_infos]. rewrite Hp.
  apply Forall_app in Hl as [Hr Hx]. apply Forall_cons_1 in Hx as [Hx _].
  destruct (absorb x r) as [r'|] eqn:Ea.
  - apply absorb_Some in Ea as (l1 & y & l2 & -> & _ & ->). apply IH; [|apply Forall_app in Hr as [H1' H2']|done].
    + rewrite length_app in *. cbn in *. lia.
    + apply Forall_cons_1 in H2' as [Hy H2']. apply Forall_app. split; [done|]. constructor; [|done]. by apply Hmerge.
  - apply IH; [lia|done|]. apply Forall_app. split; [done|]. by constructor.
Qed.

(** Without enabling pairs nothing is merged. *)
Definition antichain (vs : list view) : Prop :=
  forall l1 a l2 b l3, vs = l1 ++ a :: l2 ++ b :: l3 -> view_enables (Url := Url) a b = false.

Lemma merge_infos_antichain fuel (l merged : list info) :
  length l <= fuel -> antichain (info_capability <$> l) ->
  merge_infos (Url := Url) fuel l merged = Ok (merged ++ reverse l).
Proof.
  revert l merged. induction fuel as [|fuel IH]; intros l merged Hf Hl;
    (destruct (vec_pop_cases l) as [->|(x & r & -> & Hp)]; [by rewrite app_nil_r|]).
  { rewrite length_app in Hf. cbn in Hf. lia. }
  rewrite length_app in Hf. cbn in Hf. cbn [merge_infos]. rewrite Hp, absorb_None.
  - rewrite IH; [by rewrite reverse_snoc, <- app_assoc|lia|].
    intros l1 a l2 b l3 E. apply (Hl l1 a l2 b (l3 ++ [info_capability x])).
    rewrite fmap_app, E. cbn. by rewrite <- !app_assoc; cbn; rewrite <- app_assoc.
  - apply Forall_forall. intros y Hy. apply list_elem_of_split in Hy as (r1 & r2 & ->).
    apply (Hl (info_capability <$> r1) _ (info_capability <$> r2) _ []).
    rewrite !fmap_app. cbn. by rewrite <- app_assoc.
Qed.

(** ** Every reduction ends *)
Definition redelegations_wf c : Prop :=
  forall c', in_chain c' c -> Forall (fun j : nat => j < length (chain_proofs c')) (redelegations c').

Lemma redelegations_wf_proof c p : redelegations_wf c -> p ∈ chain_proofs c -> redelegations_wf p.
Proof. intros Hc Hp c' Hin. apply Hc. by eapply in_chain_below. Qed.

Definition ancestral_infos (rs : list nat) (reduced : list (list info)) : list info :=
  mjoin (imap (fun index infos => if decide (index ∈ rs) then [] else infos) reduced).

Lemma elem_of_ancestral rs reduced i : i ∈ ancestral_infos rs reduced ->
  exists index infos, reduced !! index = Some infos /\ i ∈ infos.
Proof.
  unfold ancestral_infos. rewrite list_elem_of_join. intros (l & Hi & Hl).
  apply list_elem_of_lookup in Hl as (j & Hj). rewrite list_lookup_imap in Hj.
  destruct (reduced !! j) as [infos|] eqn:E; [|done]. cbn in Hj. injection Hj as <-.
  case_decide; [by apply not_elem_of_nil in Hi|]. eauto.
Qed.

(** The reduction of a chain in terms of the reductions of its proofs. *)
Lemma reduce_step u ps rs (reduced : list (list info)) :
  Forall2 (fun p infos => reduce p = Ok infos) ps reduced ->
  Forall (fun j : nat => j < length ps) rs ->
  exists redelegated : list info,
    reduce (mkChain u ps rs) =
      (let infos := self_infos (Url := Url) u (length ps) (ancestral_infos rs reduced) ++ redelegated in
       merge_infos (Url := Url) (length infos) infos []) /\
    Forall (fun i => exists index infos i', reduced !! index = Some infos /\ i' ∈ infos /\ i = redelegate u i') redelegated /\
    (rs = [] -> redelegated = []).
Proof.
  intros HF Hrs. pose proof (Forall2_length _ _ _ HF) as Hlen.
  assert (exists lists, try_map (fun index =>
      let? infos := or_panic "called `Option::unwrap()` on a `None` value" (reduced !! index) in
      Ok (redelegate u <$> infos)) rs = Ok lists /\
    Forall (fun l => exists index infos, reduced !! index = Some infos /\ l = redelegate u <$> infos) lists /\
    (rs = [] -> lists = [])) as (lists & E & Hl & Hnil).
  { clear -Hrs Hlen. induction Hrs as [|j rs Hj _ (lists & E & Hl & _)]; [by exists []|].
    destruct (lookup_lt_is_Some_2 reduced j ltac:(lia)) as [infos Hi].
    exists ((redelegate u <$> infos) :: lists). rewrite try_map_cons, Hi. cbn [or_panic outcome_bind].
    rewrite E. split_and!; [done| |done]. constructor; [|done]. eauto. }
  exists (mjoin lists). split_and!.
  - cbn [reduce_capabilities]. apply try_map_Forall2 in HF. rewrite HF. cbn [outcome_bind]. by rewrite E.
  - apply Forall_forall. intros i Hi. apply list_elem_of_join in Hi as (l & Hil & Hl').
    rewrite Forall_forall in Hl. destruct (Hl l Hl') as (index & infos & Hx & ->).
    apply list_elem_of_fmap in Hil as (i' & -> & Hi'). eauto 10.
  - intros Hr. by rewrite (Hnil Hr).
Qed.

(** What reduction guarantees of every info, for a property that survives
    merging, redelegation and inheritance. *)
Lemma reduce_inv (P : ProofChain -> info -> Prop) :
  (forall c x y, P c x -> P c y -> P c (add_originators y (originators x))) ->
  (forall u ps rs p i, p ∈ ps -> P p i -> P (mkChain u ps rs) (redelegate u i)) ->
  (forall u ps rs ancestral, Forall (fun i => exists p, p ∈ ps /\ P p i) ancestral ->
    Forall (P (mkChain u ps rs)) (self_infos (Url := Url) u (length ps) ancestral)) ->
  forall c, redelegations_wf c -> exists infos, reduce c = Ok infos /\ Forall (P c) infos.
Proof.
  intros Hmerge Hredel Hself c. induction c as [u ps rs IH] using ProofChain_ind'. intros Hwf.
  assert (exists reduced, Forall2 (fun p infos => reduce p = Ok infos /\ Forall (P p) infos) ps reduced)
    as (reduced & HF).
  { assert (Forall redelegations_wf ps) as Hps.
    { apply Forall_forall. intros p Hp. by eapply redelegations_wf_proof. }
    clear Hwf. induction IH as [|p ps Hp _ IHps]; [by exists []|].
    apply Forall_cons_1 in Hps as [Hw Hps]. destruct (Hp Hw) as (infos & E & Hi).
    destruct (IHps Hps) as (reduced & HF). exists (infos :: reduced). by constructor. }
  assert (forall index infos, reduced !! index = Some infos -> exists p, p ∈ ps /\ Forall (P p) infos) as Hred.
  { intros index infos Hi. destruct (Forall2_lookup_r _ _ _ _ _ HF Hi) as (p & Hp & _ & HP).
    exists p. split; [by eapply list_elem_of_lookup_2|done]. }
  destruct (reduce_step u ps rs reduced) as (redelegated & E & Hr & _).
  { eapply Forall2_impl; [exact HF|]. naive_solver. }
  { apply (Hwf (mkChain u ps rs)). constructor. }
  rewrite E. cbn zeta. apply merge_infos_inv; [apply Hmerge|done| |done].
  apply Forall_app. split.
  - apply Hself. apply Forall_forall. intros i Hi. apply elem_of_ancestral in Hi as (index & infos & Hx & Hi).
    destruct (Hred _ _ Hx) as (p & Hp & HP). rewrite Forall_forall in HP. exists p. auto.
  - eapply Forall_impl; [exact Hr|]. intros i (index & infos & i' & Hx & Hi' & ->).
    destruct (Hred _ _ Hx) as (p & Hp & HP). rewrite Forall_forall in HP. eapply Hredel; [exact Hp|]. auto.
Qed.

(** ** Originators and capabilities come from the chain *)
Definition issued_in c (o : string) : Prop := exists c', in_chain c' c /\ issuer (chain_ucan c') = o.
Definition claimed_in c v : Prop := exists c', in_chain c' c /\ v ∈ self_views (Url := Url) (chain_ucan c').

Definition info_sound c i : Prop :=
  originators i <> ∅ /\ (forall o, o ∈ originators i -> issued_in c o) /\ claimed_in c (info_capability i) /\
  info_not_before i = not_before (chain_ucan c) /\ info_expires_at i = expires_at (chain_ucan c).

Lemma issued_in_below c p o : p ∈ chain_proofs c -> issued_in p o -> issued_in c o.
Proof. intros Hp (c' & Hin & Ho). exists c'. split; [by eapply in_chain_below|done]. Qed.

Lemma elem_of_find_originators u ancestral v o :
  o ∈ find_originators (Url := Url) u ancestral v ->
  o = issuer u \/ exists i, i ∈ ancestral /\ enables (info_capability i) v /\ o ∈ originators i.
Proof.
  unfold find_originators. case_decide as Hem; [rewrite elem_of_singleton; by left|].
  intros Ho. right. apply elem_of_union_list in Ho as (X & HX & Ho).
  apply list_elem_of_fmap in HX as (i & -> & Hi). apply list_elem_of_filter in Hi as [He Hi]. eauto.
Qed.

Lemma find_originators_not_empty u ancestral v : find_originators (Url := Url) u ancestral v <> ∅.
Proof. unfold find_originators. case_decide; [set_solver|done]. Qed.

Lemma elem_of_self_infos u n ancestral i : i ∈ self_infos (Url := Url) u n ancestral ->
  exists v, v ∈ self_views (Url := Url) u /\
    i = mkInfo (if decide (n = 0) then {[issuer u]} else find_originators (Url := Url) u ancestral v)
          (not_before u) (expires_at u) v.
Proof. unfold self_infos. intros Hi. apply list_elem_of_fmap in Hi as (v & -> & Hv). eauto. Qed.

Lemma reduce_sound c : redelegations_wf c ->
  exists infos, reduce c = Ok infos /\ Forall (info_sound c) infos.
Proof.
  apply reduce_inv.
  - intros c' x y (Hx1 & Hx2 & _) (Hy1 & Hy2 & Hy3 & Hy4 & Hy5). split_and!; cbn; try done.
    + set_solver.
    + intros o. rewrite elem_of_union. naive_solver.
  - intros u ps rs p i Hp (H1' & H2' & (c' & Hin & Hv) & _). split_and!; cbn; try done.
    + intros o Ho. eapply issued_in_below; [exact Hp|auto].
    + exists c'. split; [by eapply in_chain_below|done].
  - intros u ps rs ancestral Hanc. apply Forall_forall. intros i Hi.
    apply elem_of_self_infos in Hi as (v & Hv & ->). split_and!; cbn; try done.
    + case_decide; [set_solver|apply find_originators_not_empty].
    + intros o Ho. assert (o = issuer u \/ exists i, i ∈ ancestral /\ o ∈ originators i) as [->|(i & Hi & Ho')].
      { case_decide; [left; set_solver|]. apply elem_of_find_originators in Ho. naive_solver. }
      * exists (mkChain u ps rs). split; [constructor|done].
      * rewrite Forall_forall in Hanc. destruct (Hanc i Hi) as (p & Hp & (_ & Hiss & _)).
        eapply issued_in_below; [exact Hp|auto].
    + exists (mkChain u ps rs). split; [constructor|done].
Qed.
End reduce.

(** ** No originator is named for more than it claimed *)
Section attenuation.
Context {Url S A : Type} `{UrlOps Url} `{ScopeLaws Url S} `{AbilityLaws A}.
Notation info := (CapabilityInfo S A).
Notation view := (CapabilityView S A).
Notation reduce := (reduce_capabilities (Url := Url) (S := S) (A := A)).
Implicit Types (c : ProofChain) (i : info) (v : view).

(** No token redelegates or claims two capabilities of which the first enables
    the second. *)
Definition attenuating c : Prop :=
  forall c', in_chain c' c -> redelegations c' = [] /\
    antichain (Url := Url) (self_views (Url := Url) (S := S) (A := A) (chain_ucan c')) /\
    Forall view_wf (self_views (Url := Url) (S := S) (A := A) (chain_ucan c')).

(** [o] issued a token of the chain that claims a capability covering [v]. *)
Definition claims_cover c (o : string) v : Prop :=
  exists c' v', in_chain c' c /\ issuer (chain_ucan c') = o /\
    v' ∈ self_views (Url := Url) (chain_ucan c') /\ (v' = v \/ view_enables (Url := Url) v' v = true).

Lemma attenuating_proof c p : attenuating c -> p ∈ chain_proofs c -> attenuating p.
Proof. intros Hc Hp c' Hin. apply Hc. by eapply in_chain_below. Qed.

Lemma claims_cover_enables c p o v v' : p ∈ chain_proofs c -> attenuating c ->
  claims_cover p o v' -> view_wf v' -> view_enables (Url := Url) v' v = true -> claims_cover c o v.
Proof.
  intros Hp Hatt (c' & v0 & Hin & Ho & Hv0 & Hen) Hwf Hv. exists c', v0.
  assert (in_chain c' c) as Hin' by (by eapply in_chain_below).
  split_and!; [done|done|done|]. right.
  destruct (Hatt c' Hin') as (_ & _ & Hw). rewrite Forall_forall in Hw.
  destruct Hen as [->|Hen]; [done|]. eapply view_enables_trans; [by apply Hw|done|exact Hen|exact Hv].
Qed.

Lemma reduce_attenuated c : attenuating c ->
  exists infos, reduce c = Ok infos /\
    Forall (fun i => view_wf (info_capability i) /\
      forall o, o ∈ originators i -> claims_cover c o (info_capability i)) infos.
Proof.
  induction c as [u ps rs IH] using ProofChain_ind'. intros Hatt.
  destruct (Hatt (mkChain u ps rs) ltac:(constructor)) as (Hrs & Hanti & Hwf). cbn in Hrs, Hanti, Hwf. subst rs.
  assert (exists reduced, Forall2 (fun p infos => reduce p = Ok infos /\
      Forall (fun i => view_wf (info_capability i) /\
        forall o, o ∈ originators i -> claims_cover p o (info_capability i)) infos) ps reduced)
    as (reduced & HF).
  { assert (Forall attenuating ps) as Hps.
    { apply Forall_forall. intros p Hp. by eapply attenuating_proof. }
    clear Hatt Hanti Hwf. induction IH as [|p ps Hp _ IHps]; [by exists []|].
    apply Forall_cons_1 in Hps as [Hw Hps]. destruct (Hp Hw) as (infos & E & Hi).
    destruct (IHps Hps) as (reduced & HF). exists (infos :: reduced). by constructor. }
  destruct (reduce_step (Url := Url) u ps [] reduced) as (redelegated & E & _ & Hnil).
  { eapply Forall2_impl; [exact HF|]. naive_solver. }
  { constructor. }
  rewrite (Hnil eq_refl), app_nil_r in E. cbn zeta in E. rewrite merge_infos_antichain in E; [|done|].
  2: { unfold self_infos. rewrite <- list_fmap_compose.
       assert (forall (f : view -> info) l, (forall x, info_capability (f x) = x) -> (info_capability ∘ f) <$> l = l) as ->;
         [|done|done]. intros f l Hf. induction l as [|x l IHl]; [done|]. cbn. by rewrite Hf, IHl. }
  eexists. split; [exact E|]. cbn [app]. apply Forall_reverse, Forall_forall. intros i Hi.
  apply elem_of_self_infos in Hi as (v & Hv & ->). cbn.
  split; [by rewrite Forall_forall in Hwf; apply Hwf|].
  assert (claims_cover (mkChain u ps []) (issuer u) v) as Hown.
  { exists (mkChain u ps []), v. split_and!; [constructor|done|done|by left]. }
  intros o Ho. case_decide as Hz; [apply elem_of_singleton in Ho as ->; done|].
  apply elem_of_find_originators in Ho as [->|(i & Hi & He & Ho)]; [done|].
  apply elem_of_ancestral in Hi as (index & infos & Hx & Hi).
  destruct (Forall2_lookup_r _ _ _ _ _ HF Hx) as (p & Hp & _ & HP).
  rewrite Forall_forall in HP. destruct (HP i Hi) as [Hiw Hic].
  eapply claims_cover_enables; [by eapply list_elem_of_lookup_2|done|by apply Hic|done|done].
Qed.
End attenuation.

(** ** Properties of UCAN tokens *)
(** ** Strings *)
Definition free_of (c : ascii) (s : string) : Prop := string_forallb (fun a => negb (Ascii.eqb a c)) s = true.

Lemma split_on_free c s : free_of c s -> split_on c s = [s].
Proof.
  unfold free_of. induction s as [|a s IH]; [done|]. cbn. rewrite andb_true_iff, negb_true_iff.
  intros [Ha Hs]. by rewrite Ha, (IH Hs).
Qed.

Lemma split_on_app c s t : free_of c s -> split_on c (s +:+ String c t) = s :: split_on c t.
Proof.
  unfold free_of. induction s as [|a s IH]; cbn [string_forallb].
  - intros _. change ("" +:+ String c t) with (String c t). cbn [split_on]. by rewrite Ascii.eqb_refl.
  - rewrite andb_true_iff, negb_true_iff. intros [Ha Hs].
    change (String a s +:+ String c t) with (String a (s +:+ String c t)). cbn [split_on]. by rewrite Ha, (IH Hs).
Qed.

Lemma string_of_as_bytes s : string_of_bytes (as_bytes s) = s.
Proof. induction s as [|a s IH]; [done|]. cbn. by rewrite ascii_N_embedding, IH. Qed.

Lemma utf8_valid_ascii b : Forall (fun x => x < 128)%N b -> utf8_valid b = true.
Proof.
  induction 1 as [|x b Hx _ IH]; [done|]. cbn. unfold between.
  destruct (N.leb_spec x 127); [|lia]. by destruct x.
Qed.

(** ** Laws of the parameters *)
Class Base64Laws `{Base64} := {
  b64_roundtrip : forall b, b64_decode (b64_encode b) = Some b;
  b64_no_dot : forall b, free_of "." (b64_encode b);
}.

Class DagJsonLaws (T : Type) `{DagJson T} :=
  dag_json_roundtrip : forall (x : T) b, to_dag_json x = Ok b -> from_dag_json b = Ok x.

Section jwt.
Context {Key : Type} `{KeyMaterial Key} `{Bs58} `{Base64Laws} `{DagJsonLaws UcanHeader} `{DagJsonLaws UcanPayload}.

(** The signed data of a token is the part of its JWT form before the signature. *)
Definition signed_data_wf (u : Ucan) : Prop :=
  exists h p, jwt_base64_encode (header u) = Ok h /\ jwt_base64_encode (payload u) = Ok p /\
    signed_data u = as_bytes (h +:+ "." +:+ p).

Lemma jwt_base64_decode {T} `{DagJsonLaws T} (x : T) t : jwt_base64_encode x = Ok t ->
  exists b, b64_decode t = Some b /\ from_dag_json b = Ok x /\ free_of "." t.
Proof.
  unfold jwt_base64_encode. destruct (to_dag_json x) as [b| | |] eqn:E; try done. cbn. intros [= <-].
  exists b. split_and!; [apply b64_roundtrip|by apply dag_json_roundtrip|apply b64_no_dot].
Qed.

Lemma ucan_encode_decode u token : signed_data_wf u -> ucan_encode u = Ok token -> ucan_from_str token = Ok u.
Proof.
  intros (h & p & Eh & Ep & Hs). unfold ucan_encode. rewrite Eh. cbn [outcome_bind]. rewrite Ep. cbn [outcome_bind].
  intros [= <-].
  destruct (jwt_base64_decode _ _ Eh) as (bh & Dh & Jh & Fh). destruct (jwt_base64_decode _ _ Ep) as (bp & Dp & Jp & Fp).
  unfold ucan_from_str. change ("." +:+ p +:+ "." +:+ b64_encode (signature u)) with (String "." (p +:+ String "." (b64_encode (signature u)))).
  rewrite (split_on_app "." h _ Fh), (split_on_app "." p _ Fp), (split_on_free "." _ (b64_no_dot _)).
  cbn [take join_dots foldl ok_or outcome_bind decode_part lookup list_lookup].
  rewrite Dh. cbn [ok_or outcome_bind]. rewrite Jh. cbn [outcome_bind]. rewrite Dp. cbn [ok_or outcome_bind].
  rewrite Jp. cbn [outcome_bind]. rewrite b64_roundtrip. cbn [ok_or outcome_bind]. rewrite <- Hs. by destruct u.
Qed.

(** ** Signing *)
Lemma sign_inv rng (sg : Signable Key) u : sign rng sg = Ok u ->
  signed_data_wf u /\ key_sign (s_issuer sg) (signed_data u) = Ok (signature u) /\
  get_did (s_issuer sg) = Ok (issuer u) /\ expires_at u = s_expiration sg /\ not_before u = s_not_before sg /\
  audience u = s_audience sg /\ proofs u = (if bool_decide (s_proofs sg = []) then None else Some (s_proofs sg)) /\
  capabilities_of_vec (s_capabilities sg) = Ok (capabilities u).
Proof.
  unfold sign. destruct (ucan_payload rng sg) as [pl| | |] eqn:Ep; cbn [expect outcome_bind]; try done.
  destruct (jwt_base64_encode (ucan_header sg)) as [h| | |] eqn:Eh; cbn [outcome_bind]; try done.
  destruct (jwt_base64_encode pl) as [p| | |] eqn:Epl; cbn [outcome_bind]; try done.
  destruct (key_sign _ _) as [sig| | |] eqn:Es; cbn [outcome_bind]; try done. intros [= <-].
  unfold ucan_payload in Ep. destruct (get_did (s_issuer sg)) as [did| | |] eqn:Ed; cbn [outcome_bind] in Ep; try done.
  destruct (capabilities_of_vec _) as [caps| | |] eqn:Ec; cbn [outcome_bind] in Ep; try done.
  injection Ep as <-. split_and!; try done. by exists h, p.
Qed.

(** A key whose signatures its own DID resolves to a verifier of. *)
Definition key_resolves (ctors : gmap (list N) (bytes -> outcome Key)) (k : Key) : Prop :=
  exists did k', get_did k = Ok did /\ resolve ctors did = Ok k' /\
    forall data sig, key_sign k data = Ok sig -> key_verify k' data sig = Ok tt.

Lemma signed_validates clock now_time ctors rng (sg : Signable Key) u :
  key_resolves ctors (s_issuer sg) -> sign rng sg = Ok u ->
  match s_expiration sg with Some e => (default clock now_time <= e)%N | None => True end ->
  match s_not_before sg with Some n => (n <= clock)%N | None => True end ->
  validation clock now_time ctors u = Ok tt.
Proof.
  intros (did & k' & Ed & Er & Hv) Hs Hexp Hnbf.
  destruct (sign_inv _ _ _ Hs) as (_ & Hsig & Hdid & He & Hn & _).
  unfold validation, is_expired, is_too_early. unfold expires_at, not_before in He, Hn. rewrite He, Hn.
  assert (issuer u = did) as -> by congruence. rewrite Er. cbn [outcome_bind].
  assert (match s_expiration sg with Some e => (e <? default clock now_time)%N | None => false end = false) as ->.
  { destruct (s_expiration sg); [by apply N.ltb_ge|done]. }
  assert (match s_not_before sg with Some n => (clock <? n)%N | None => false end = false) as ->.
  { destruct (s_not_before sg); [by apply N.ltb_ge|done]. }
  by apply Hv.
Qed.
End jwt.

(** ** Tokens in the in-memory store *)
Lemma memory_token_roundtrip {Cid} `{Countable Cid} `{!CidOps Cid} `{!CidLaws Cid} (s : UcanMemoryStore Cid) token :
  utf8_valid (as_bytes token) = true ->
  exists cid s', write_token s token = (Ok cid, s') /\ require_token s' cid = Ok token /\
    forall cid' t, cid' <> cid -> require_token s cid' = Ok t -> require_token s' cid' = Ok t.
Proof.
  intros Hu. eexists _, _. split; [done|]. split.
  - unfold require_token, read_token. rewrite cid_codec_new. cbn. unfold ucan_memory_read. cbn.
    rewrite lookup_insert_eq. cbn. unfold from_utf8. rewrite Hu. cbn. by rewrite string_of_as_bytes.
  - intros cid' t Hne. unfold require_token, read_token. destruct (_ =? _)%N; [|done]. cbn. unfold ucan_memory_read. cbn.
    by rewrite lookup_insert_ne.
Qed.
