(* ===== verification/UcanInstances.v ===== *)
(** * Concrete parameters for UCANs

    Instances of the third-party parameters of the UCAN model on which tokens
    can be built, encoded, stored and validated: base 64 and base 58 as binary
    numerals, DAG-JSON as
    positions in a table, URLs split
    at their first colon, keys that sign by prefixing their number, and a store
    that names tokens by strings. *)
From stdpp Require Import base gmap list numbers strings countable.
From Stdlib Require Import Ascii String.
From S2P Require Import Prelude HamtNode HamtRep BTree BlockStore Instances.
From S2P Require Import UcanCapability Ucan UcanChain UcanProofs.
#[local] Open Scope list_scope.
#[local] Notation length := List.length (only parsing).

(** ** Base 64 and base 58 *)
Definition toy_encode (b : bytes) : string := pos_to_string (encode b).
Definition toy_decode (s : string) : option bytes := decode (pos_of_string s).

#[export] Instance toy_base64 : Base64 := { b64_encode := toy_encode; b64_decode := toy_decode }.
#[export] Instance toy_bs58 : Bs58 := { bs58_encode := toy_encode; bs58_decode := toy_decode }.

Lemma toy_decode_encode b : toy_decode (toy_encode b) = Some b.
Proof. unfold toy_decode, toy_encode. by rewrite pos_of_to_string, decode_encode. Qed.

#[export] Instance toy_base64_laws : Base64Laws.
Proof.
  split; [apply toy_decode_encode|]. intros b. cbn. unfold toy_encode, free_of.
  induction (encode b) as [p IH|p IH|]; cbn [pos_to_string string_forallb]; by rewrite ?IH.
Qed.

(** ** DAG-JSON *)

(** The values of a table, written as their position in it. *)
Definition table_json {T} `{EqDecision T} (table : list T) : DagJson T := {|
  to_dag_json x := match list_find (fun y => y = x) table with
                   | Some (i, _) => Ok [N.of_nat i]
                   | None => Err "not in the table"
                   end;
  from_dag_json b := match b with
                     | [i] => ok_or "not in the table" (table !! N.to_nat i)
                     | _ => Err "malformed"
                     end;
|}.

Lemma table_json_laws {T} `{EqDecision T} (table : list T) : @DagJsonLaws T (table_json table).
Proof.
  intros x b. cbn. destruct (list_find _ table) as [[i y]|] eqn:E; [|done]. intros [= <-].
  apply list_find_Some in E as (Hi & -> & _). by rewrite Nat2N.id, Hi.
Qed.

#[export] Instance toy_header_json : DagJson UcanHeader := table_json [mkHeader "EdDSA" "JWT"].
#[export] Instance toy_header_json_laws : DagJsonLaws UcanHeader := table_json_laws _.

(** ** URLs *)
Notation ToyUrl := (string * string)%type.

Fixpoint toy_url_parse (s : string) : option ToyUrl :=
  match s with
  | EmptyString => None
  | String a s' =>
      if Ascii.eqb a ":" then Some (EmptyString, s')
      else '(scheme, path) ← toy_url_parse s'; Some (String a scheme, path)
  end.

#[export] Instance toy_url : UrlOps ToyUrl := { url_parse := toy_url_parse; url_scheme := fst; url_path := snd }.

Lemma toy_url_parse_app s t : free_of ":" s -> toy_url_parse (s +:+ ":" +:+ t) = Some (s, t).
Proof.
  unfold free_of. induction s as [|a s IH]; cbn [string_forallb]; [done|].
  rewrite andb_true_iff, negb_true_iff. intros [Ha Hs].
  change (String a s +:+ ":" +:+ t) with (String a (s +:+ ":" +:+ t)). cbn [toy_url_parse]. by rewrite Ha, (IH Hs).
Qed.

#[export] Instance toy_url_laws : UrlLaws ToyUrl.
Proof.
  intros scheme path Hs _. exists (scheme, path). split; [|done]. apply toy_url_parse_app.
  unfold opaque_scheme in Hs. rewrite !andb_true_iff in Hs. destruct Hs as [[_ Hl] _].
  unfold free_of. induction scheme as [|a s IH]; [done|]. cbn [string_forallb] in *.
  rewrite andb_true_iff in *. destruct Hl as [Ha Hl]. split; [|by apply IH].
  rewrite negb_true_iff. by destruct a as [[] [] [] [] [] [] [] []].
Qed.

(** ** Keys *)
Definition toy_magic : bytes := [237; 1]%N.
Definition toy_did (k : N) : string := DID_KEY_PREFIX +:+ toy_encode (toy_magic ++ [k]).

#[export] Instance toy_key : KeyMaterial N := {
  get_jwt_algorithm_name _ := "EdDSA";
  get_did k := Ok (toy_did k);
  key_sign k data := Ok (k :: data);
  key_verify k data sig := if bool_decide (sig = k :: data) then Ok tt else Err "Could not verify signature";
}.

Definition toy_keys : list (bytes * (bytes -> outcome N)) :=
  [(toy_magic, fun b => match b with [k] => Ok k | _ => Err "not a key" end)].

(** ** Stores that name tokens by strings *)
Definition toy_string_cid : CidOps string := {|
  cid_new_v1 _ _ := EmptyString;
  cid_codec _ := RAW;
  cid_to_bytes := as_bytes;
  cid_of_bytes b := Some (string_of_bytes b);
  cid_to_string c := c;
  cid_of_string c := Ok c;
  blake3_256 b := b;
  references _ _ := Ok [];
|}.

Definition toy_token_store : UcanStore (list (string * string)) string := {|
  ucan_read s c := Ok ((fun t => IpldBytes (as_bytes t)) <$> (list_to_map s : gmap string string) !! c);
  ucan_write s _ := (Err "read only", s);
|}.
