(* ===== verification/Authority.v ===== *)
(** * Authority over spheres

    Model of [noosphere-core/src/authority/] (sphere capabilities,
    authorizations, authors, the walk over proofs), of the records that carry
    authority ([data/authority.rs], [data/address.rs]) and of the places that
    decide on a request: [Author::access_to], [Sphere::verify_authorization],
    [LinkRecord::validate], [IdentifyResponse::verify] and the gateway's
    [GatewayAuthority::try_authorize].

    [supported_keys] is [SUPPORTED_KEYS]; the constructors in it come from the
    crates that implement the signature schemes.  [fuel] bounds the depth of a
    proof chain, as in [UcanChain]. *)
From stdpp Require Import base gmap list numbers strings.
From Stdlib Require Import Ascii String.
From S2P Require Import Prelude HamtNode HamtRep BTree BlockStore UcanCapability Ucan UcanChain.
#[local] Open Scope list_scope.
#[local] Notation length := List.length (only parsing).

(** ** Sphere capabilities (authority/capability.rs) *)
Inductive SphereAbility : Type := Fetch | Push | Publish | Authorize.

#[export] Instance SphereAbility_eq_dec : EqDecision SphereAbility.
Proof. solve_decision. Defined.

(** The order of declaration, which [derive(Ord)] uses. *)
Definition sphere_ability_rank (a : SphereAbility) : nat :=
  match a with Fetch => 0 | Push => 1 | Publish => 2 | Authorize => 3 end.

Definition sphere_ability_to_string (a : SphereAbility) : string :=
  match a with
  | Authorize => "sphere/authorize"
  | Publish => "sphere/publish"
  | Push => "sphere/push"
  | Fetch => "sphere/fetch"
  end.

Definition sphere_ability_of_string (value : string) : option SphereAbility :=
  if bool_decide (value = "sphere/authorize") then Some Authorize
  else if bool_decide (value = "sphere/publish") then Some Publish
  else if bool_decide (value = "sphere/push") then Some Push
  else if bool_decide (value = "sphere/fetch") then Some Fetch
  else None.

#[export] Instance SphereAbility_ability : Ability SphereAbility := {
  ability_leb a b := bool_decide (sphere_ability_rank a <= sphere_ability_rank b);
  ability_to_string := sphere_ability_to_string;
  ability_of_string := sphere_ability_of_string;
}.

Record SphereReference := mkReference { reference_did : string }.

#[export] Instance SphereReference_eq_dec : EqDecision SphereReference.
Proof. solve_decision. Defined.

Definition sphere_reference_contains (self other : SphereReference) : bool :=
  bool_decide (reference_did other = reference_did self).

Definition sphere_reference_to_string (self : SphereReference) : string := "sphere:" +:+ reference_did self.

Definition sphere_reference_of_url {Url} `{UrlOps Url} (value : Url) : option SphereReference :=
  if bool_decide (url_scheme value = "sphere") then Some (mkReference (url_path value)) else None.

#[export] Instance SphereReference_scope {Url} `{UrlOps Url} : Scope Url SphereReference := {
  scope_contains := sphere_reference_contains;
  scope_to_string := sphere_reference_to_string;
  scope_of_url := sphere_reference_of_url;
}.

Notation SphereView := (CapabilityView SphereReference SphereAbility).
Notation SphereInfo := (CapabilityInfo SphereReference SphereAbility).

Definition generate_capability (identity : string) (ability : SphereAbility) : SphereView :=
  mkView (RResource (Scoped (mkReference identity))) ability (VObject []).

(** The loop over the reduced capabilities that every decision runs. *)
Definition grants {Url} `{UrlOps Url} (identity : string) (ability : SphereAbility) (infos : list SphereInfo) : bool :=
  existsb (fun i => bool_decide (identity ∈ originators i)
    && view_enables (Url := Url) (info_capability i) (generate_capability identity ability)) infos.

(** ** Authorizations (authority/authorization.rs) *)
Inductive Authorization (Cid : Type) : Type :=
  | AuthUcan (u : Ucan)
  | AuthCid (cid : Cid).
Arguments AuthUcan {Cid} u.
Arguments AuthCid {Cid} cid.

(** ** Revocations and delegations (data/authority.rs) *)
Record DelegationIpld (Cid : Type) := mkDelegation { delegation_name : string; delegation_jwt : Cid }.
Arguments mkDelegation {Cid} _ _.
Arguments delegation_name {Cid} _.
Arguments delegation_jwt {Cid} _.

Record RevocationIpld := mkRevocation { rev_iss : string; rev_revoke : string; rev_challenge : string }.

Inductive Access : Type := ReadWrite | ReadOnly.

(** The delegations and revocations recorded in a version of a sphere. *)
Record SphereAuthority (Cid : Type) := mkAuthority {
  get_delegation : Cid -> outcome (option (DelegationIpld Cid));
  get_revocation : Cid -> outcome (option RevocationIpld);
  authority_identity : string;
}.
Arguments mkAuthority {Cid} _ _ _.
Arguments get_delegation {Cid} _ _.
Arguments get_revocation {Cid} _ _.
Arguments authority_identity {Cid} _.

Record IdentifyResponse := mkIdentify {
  gateway_identity : string;
  sphere_identity : string;
  id_signature : string;
  id_proof : string;
}.

Section authority.
Context {Key Url St Cid : Type}.
Context `{KeyMaterial Key} `{Bs58} `{Base64} `{DagJson UcanHeader} `{DagJson UcanPayload}.
Context `{UrlOps Url} `{CidOps Cid} `{UcanStore St Cid} `{EqDecision Cid}.
Context (supported_keys : list (bytes * (bytes -> outcome Key))).
Notation from_ucan := (from_ucan (Key := Key) (Url := Url) (Cid := Cid)).
Notation try_from_token_string := (try_from_token_string (Key := Key) (Url := Url) (Cid := Cid)).
Notation new_parser := (did_parser_new supported_keys).

Definition base64_decode (encoded : string) : outcome bytes := ok_or "base64 decode error" (b64_decode encoded).

(** [Did::to_credential] (data/strings.rs). *)
Definition to_credential (did : string) : outcome Key := (did_parse new_parser did).1.

Definition as_ucan (s : St) (self : Authorization Cid) : outcome Ucan :=
  match self with
  | AuthUcan u => Ok u
  | AuthCid cid => let? token := require_token s cid in ucan_from_str token
  end.

Definition as_proof_chain (fuel : nat) (clock : N) (s : St) (self : Authorization Cid) : outcome ProofChain :=
  match self with
  | AuthUcan u => (from_ucan fuel clock None s u new_parser).1
  | AuthCid cid => (from_cid (Url := Url) fuel clock None s cid new_parser).1
  end.

(** [TryFrom<&Authorization> for Cid]. *)
Definition authorization_cid (self : Authorization Cid) : outcome Cid :=
  match self with
  | AuthUcan u => let? jwt := ucan_encode u in Ok (derive_cid RAW (as_bytes jwt))
  | AuthCid cid => Ok cid
  end.

(** [DelegationIpld::register] and [resolve_ucan]. *)
Definition delegation_register (name jwt : string) (s : St) : outcome (DelegationIpld Cid) * St :=
  let '(r, s') := write_token s jwt in
  let? cid := r keeping s' in (Ok (mkDelegation name cid), s').

Definition delegation_resolve_ucan (self : DelegationIpld Cid) (s : St) : outcome Ucan :=
  let? jwt := require_token s (delegation_jwt self) in ucan_from_str jwt.

Definition make_challenge_payload (cid : Cid) : bytes := as_bytes ("REVOKE:" +:+ cid_to_string cid).

Definition revoke (cid : Cid) (issuer : Key) : outcome RevocationIpld :=
  let? iss := get_did issuer in
  let? sig := key_sign issuer (make_challenge_payload cid) in
  Ok (mkRevocation iss (cid_to_string cid) (b64_encode sig)).

Definition revocation_verify (self : RevocationIpld) (claimed_issuer : Key) : outcome unit :=
  let? cid := cid_of_string (Cid := Cid) (rev_revoke self) in
  let? sig := base64_decode (rev_challenge self) in
  key_verify claimed_issuer (make_challenge_payload cid) sig.

(** ** Walking the proofs of a token (authority/walk.rs) *)
Definition load_proofs (s : St) (cids : list string) : outcome (list Ucan) :=
  try_map (fun cid_string =>
    let? cid := cid_of_string (Cid := Cid) cid_string in
    let? jwt := require_token s cid in
    ucan_from_str jwt) cids.

Fixpoint collect_ucan_proofs_loop (fuel : nat) (s : St) (remaining collected : list Ucan) : outcome (list Ucan) :=
  match vec_pop remaining with
  | None => Ok collected
  | Some (u, remaining) =>
      match fuel with
      | O => Diverge
      | S fuel' =>
          let? loaded := load_proofs s (default [] (proofs u)) in
          collect_ucan_proofs_loop fuel' s (remaining ++ loaded) (collected ++ [u])
      end
  end.

Definition collect_ucan_proofs (fuel : nat) (s : St) (u : Ucan) : outcome (list Ucan) :=
  collect_ucan_proofs_loop fuel s [u] [].

(** ** Authors (authority/author.rs) *)
Fixpoint is_authorizer_loop (fuel : nat) (author_did : string) (links : list ProofChain) : outcome bool :=
  match vec_pop links with
  | None => Ok false
  | Some (link, links) =>
      match fuel with
      | O => Diverge
      | S fuel' =>
          if bool_decide (issuer (chain_ucan link) = author_did) then Ok true
          else is_authorizer_loop fuel' author_did (links ++ chain_proofs link)
      end
  end.

(** [walk_fuel] bounds the number of tokens in the chain. *)
Definition is_authorizer_of (fuel walk_fuel : nat) (clock : N) (s : St) (key : Key) (authorization : Authorization Cid)
    : outcome bool :=
  let? proof_chain := as_proof_chain fuel clock s authorization in
  let? author_did := get_did key in
  is_authorizer_loop walk_fuel author_did [proof_chain].

(** ** [Sphere::verify_authorization] (view/sphere.rs) *)
Fixpoint verify_links (fuel : nat) (authority : SphereAuthority Cid) (sphere_credential : Key) (links : list ProofChain)
    : outcome unit :=
  match vec_pop links with
  | None => Ok tt
  | Some (link, links) =>
      match fuel with
      | O => Diverge
      | S fuel' =>
          let? cid := ucan_to_cid (chain_ucan link) in
          let? delegation := get_delegation authority cid in
          match delegation with
          | None => Err "Not found in sphere authority"
          | Some _ =>
              let? revocation := get_revocation authority cid in
              match revocation with
              | Some revocation =>
                  if negb (bool_decide (rev_iss revocation = authority_identity authority))
                     || negb (bool_decide (rev_iss revocation = issuer (chain_ucan link)))
                  then verify_links fuel' authority sphere_credential links
                  else
                    match revocation_verify revocation sphere_credential with
                    | Err _ => verify_links fuel' authority sphere_credential links
                    | Ok _ => Err "Revoked"
                    | Panic w => Panic w
                    | Diverge => Diverge
                    end
              | None => verify_links fuel' authority sphere_credential (links ++ chain_proofs link)
              end
          end
      end
  end.

(** [authority] is what loading the authority section of the sphere gives. *)
Definition verify_authorization (fuel walk_fuel : nat) (clock : N) (s : St)
    (authority : outcome (SphereAuthority Cid)) (authorization : Authorization Cid) : outcome unit :=
  let? proof_chain := as_proof_chain fuel clock s authorization in
  let? authority := authority in
  let? sphere_credential := to_credential (authority_identity authority) in
  verify_links walk_fuel authority sphere_credential [proof_chain].

(** ** [Author::access_to]; [require_version] is what the database returns. *)
Definition access_to (fuel walk_fuel : nat) (clock : N) (s : St) (key : Key) (authorization : option (Authorization Cid))
    (identity : string) (require_version : outcome Cid) (authority_at : Cid -> outcome (SphereAuthority Cid))
    : outcome Access :=
  let? author_did := get_did key in
  if bool_decide (author_did = identity) then Ok ReadWrite
  else
    match authorization with
    | None => Ok ReadOnly
    | Some authorization =>
        let? u := as_ucan s authorization in
        if negb (bool_decide (audience u = author_did)) then Ok ReadOnly
        else
          let? version := require_version in
          match verify_authorization fuel walk_fuel clock s (authority_at version) authorization with
          | Err _ => Ok ReadOnly
          | Panic w => Panic w
          | Diverge => Diverge
          | Ok _ =>
              match (from_ucan fuel clock None s u new_parser).1 with
              | Err _ => Ok ReadOnly
              | Panic w => Panic w
              | Diverge => Diverge
              | Ok proof_chain =>
                  let? infos := reduce_capabilities (Url := Url) proof_chain in
                  Ok (if grants (Url := Url) identity Push infos then ReadWrite else ReadOnly)
              end
          end
    end.

(** ** Link records (data/address.rs) *)
Definition LINK_RECORD_FACT_NAME : string := "link".

Definition to_sphere_identity (record : Ucan) : string := audience record.

Definition get_link (record : Ucan) : option Cid :=
  facts ← fct (payload record);
  value ← btree_get facts LINK_RECORD_FACT_NAME;
  match value with VString link => ok_of (cid_of_string link) | _ => None end.

Definition publish_time (u : Ucan) : outcome (option N) :=
  match not_before u with
  | Some n => Ok (Some n)
  | None =>
      match expires_at u with
      | Some e => if (e =? 0)%N then Panic "attempt to subtract with overflow" else Ok (Some (e - 1)%N)
      | None => Ok None
      end
  end.

Definition link_record_validate (fuel : nat) (clock : N) (s : St) (record : Ucan) : outcome unit :=
  let identity := to_sphere_identity record in
  match get_link record with
  | None => Err "LinkRecord missing link."
  | Some _ =>
      let? now_time := publish_time record in
      let '(r, did_parser) := from_ucan fuel clock now_time s record new_parser in
      let? proof := r in
      let? infos := reduce_capabilities (Url := Url) proof in
      if negb (grants (Url := Url) identity Publish infos) then Err "LinkRecord is not authorized."
      else
        match (check_signature record did_parser).1 with
        | Err _ => Err "LinkRecord has invalid signature."
        | other => other
        end
  end.

Definition has_publishable_timeframe (clock : N) (record : Ucan) : bool :=
  negb (is_expired clock record None) && negb (is_too_early clock record).

Definition superceded_by (self other : Ucan) : bool :=
  match expires_at self, expires_at other with
  | Some self_expiry, Some other_expiry =>
      (self_expiry <? other_expiry)%N && bool_decide (to_sphere_identity self = to_sphere_identity other)
  | None, _ => false
  | _, None => false
  end.

(** ** Identifying a gateway (api/v0alpha1/data.rs) *)
Definition identify_sign (identity : string) (key : Key) (proof : Ucan) : outcome IdentifyResponse :=
  let? gateway := get_did key in
  let? sig := key_sign key (as_bytes gateway ++ as_bytes identity) in
  let? jwt := ucan_encode proof in
  Ok (mkIdentify gateway identity (b64_encode sig) jwt).

Definition identify_verify (fuel : nat) (clock : N) (s : St) (self : IdentifyResponse) (did_parser : DidParser Key)
    : outcome unit :=
  let '(rk, did_parser) := did_parse did_parser (gateway_identity self) in
  let? gateway_key := rk in
  let? sig := base64_decode (id_signature self) in
  let? _ := key_verify gateway_key (as_bytes (gateway_identity self) ++ as_bytes (sphere_identity self)) sig in
  let? proof := (try_from_token_string fuel clock None s (id_proof self) did_parser).1 in
  if negb (bool_decide (audience (chain_ucan proof) = gateway_identity self)) then Err "Wrong audience!"
  else
    let? infos := reduce_capabilities (Url := Url) proof in
    if grants (Url := Url) (sphere_identity self) Push infos then Ok tt else Err "Not authorized!".

(** ** The gateway's decision *)

(** [headers::Ucan::as_proof_chain] (api/headers/ucan.rs). *)
Fixpoint write_header_tokens (ucans : list (Cid * string)) (s : St) : outcome unit * St :=
  match ucans with
  | [] => (Ok tt, s)
  | (cid, jwt) :: rest =>
      let '(r, s') := write_token s jwt in
      let? actual_cid := r keeping s' in
      if negb (bool_decide (actual_cid = cid)) then (Err "Cid and Jwt do not match.", s')
      else write_header_tokens rest s'
  end.

Definition header_as_proof_chain (fuel : nat) (clock : N) (ucans : list (Cid * string)) (bearer : string) (s : St)
    : outcome ProofChain :=
  let '(r, s') := write_header_tokens ucans s in
  let? _ := r in
  let '(rc, did_parser) := try_from_token_string fuel clock None s' bearer new_parser in
  let? proof_chain := rc in
  let? _ := (validate clock (chain_ucan proof_chain) None did_parser).1 in
  Ok proof_chain.

(** [try_authorize] (noosphere-gateway/src/extractors/authority.rs): the errors
    are HTTP statuses; [ucan_store] and [sphere_context] are the manager's. *)
Definition try_authorize {Context : Type} (fuel : nat) (clock : N) (ucans : list (Cid * string)) (bearer : string)
    (ucan_store : outcome St) (sphere_context : outcome Context) (counterpart : string) (required : SphereAbility)
    : outcome Context :=
  match ucan_store with
  | Ok db =>
      match header_as_proof_chain fuel clock ucans bearer db with
      | Ok proof_chain =>
          let? infos := reduce_capabilities (Url := Url) proof_chain in
          if grants (Url := Url) counterpart required infos then
            match sphere_context with Err _ => Err "INTERNAL_SERVER_ERROR" | other => other end
          else Err "UNAUTHORIZED"
      | Err _ => Err "BAD_REQUEST"
      | Panic w => Panic w
      | Diverge => Diverge
      end
  | Err _ => Err "INTERNAL_SERVER_ERROR"
  | Panic w => Panic w
  | Diverge => Diverge
  end.
End authority.
