(* ===== verification/AuthorityProofs.v ===== *)
(** * Properties of authority over spheres *)
From stdpp Require Import base gmap list numbers strings.
From Stdlib Require Import Ascii String.
From S2P Require Import Prelude HamtNode HamtRep BTree BlockStore UcanCapability.
From S2P Require Import Ucan UcanChain UcanProofs Authority.
#[local] Open Scope list_scope.
#[local] Notation length := List.length (only parsing).

(** ** The semantics of spheres is lawful *)
#[export] Instance sphere_reference_laws {Url} `{UrlOps Url} : ScopeLaws Url SphereReference.
Proof.
  split; cbn; unfold sphere_reference_contains.
  - intros s. by apply bool_decide_eq_true.
  - intros a b c. rewrite !bool_decide_eq_true. congruence.
Qed.

#[export] Instance sphere_ability_laws : AbilityLaws SphereAbility.
Proof.
  split; cbn.
  - intros a. by apply bool_decide_eq_true.
  - intros a b c. rewrite !bool_decide_eq_true. lia.
Qed.

Lemma sphere_ability_roundtrip a : sphere_ability_of_string (sphere_ability_to_string a) = Some a.
Proof. by destruct a. Qed.

(** ** Decisions *)
Section decisions.
Context {Url : Type} `{UrlOps Url}.

Lemma grants_spec identity ability (infos : list SphereInfo) :
  grants (Url := Url) identity ability infos = true <->
  exists i, i ∈ infos /\ identity ∈ originators i /\
    view_enables (Url := Url) (info_capability i) (generate_capability identity ability) = true.
Proof.
  unfold grants. rewrite existsb_exists. split.
  - intros (i & Hi & Hb). apply andb_true_iff in Hb as [Ho He]. apply bool_decide_eq_true in Ho.
    exists i. split_and!; [by apply list_elem_of_In|done|done].
  - intros (i & Hi & Ho & He). exists i. split; [by apply list_elem_of_In|].
    apply andb_true_iff. split; [by apply bool_decide_eq_true|done].
Qed.

(** On an attenuating chain, a granted ability over a sphere is covered by a
    capability that the sphere's own key has claimed in the chain. *)
Lemma grants_covered c identity ability infos :
  attenuating (Url := Url) (S := SphereReference) (A := SphereAbility) c ->
  reduce_capabilities (Url := Url) c = Ok infos -> grants (Url := Url) identity ability infos = true ->
  claims_cover (Url := Url) c identity (generate_capability identity ability).
Proof.
  intros Hatt Hred Hg. destruct (reduce_attenuated c Hatt) as (infos' & E & Hall).
  assert (infos' = infos) as -> by congruence. apply grants_spec in Hg as (i & Hi & Ho & He).
  rewrite Forall_forall in Hall. destruct (Hall i Hi) as [Hw Hc].
  destruct (Hc identity Ho) as (c' & v' & Hin & Hiss & Hv' & Hen). exists c', v'. split_and!; [done..|]. right.
  destruct Hen as [->|Hen]; [done|]. destruct (Hatt c' Hin) as (_ & _ & Hw'). rewrite Forall_forall in Hw'.
  eapply view_enables_trans; [by apply Hw'|exact Hw|exact Hen|exact He].
Qed.

(** Without that proviso: every sphere named by a decision issued a token of
    the chain. *)
Lemma grants_issued c identity ability infos :
  redelegations_wf c -> reduce_capabilities (Url := Url) c = Ok infos ->
  grants (Url := Url) identity ability infos = true -> issued_in c identity.
Proof.
  intros Hwf Hred Hg. destruct (reduce_sound (Url := Url) (S := SphereReference) (A := SphereAbility) c Hwf)
    as (infos' & E & Hall). assert (infos' = infos) as -> by congruence.
  apply grants_spec in Hg as (i & Hi & Ho & _). rewrite Forall_forall in Hall.
  destruct (Hall i Hi) as (_ & Hiss & _). by apply Hiss.
Qed.
End decisions.

(** ** Worklists over a chain *)
Fixpoint chain_size (c : ProofChain) : nat :=
  let 'mkChain _ ps _ := c in S (sum_list_with chain_size ps).

Fixpoint chain_links (c : ProofChain) : list ProofChain :=
  let 'mkChain _ ps _ := c in c :: flat_map chain_links ps.

Lemma in_chain_links c c' : c' ∈ chain_links c <-> in_chain c' c.
Proof.
  split.
  - revert c'. induction c as [u ps rs IH] using ProofChain_ind'. intros c'. cbn. rewrite elem_of_cons.
    intros [->|Hin]; [constructor|]. apply list_elem_of_In, in_flat_map in Hin as (p & Hp & Hin).
    apply list_elem_of_In in Hp, Hin. rewrite Forall_forall in IH. eapply in_chain_below; [exact Hp|by apply IH].
  - induction 1 as [[u ps rs]|c' p [u ps rs] Hp _ IH]; cbn; [left|right].
    apply list_elem_of_In, in_flat_map. exists p. split; by apply list_elem_of_In.
Qed.

Lemma sum_size_app l k :
  sum_list_with chain_size (l ++ k) = sum_list_with chain_size l + sum_list_with chain_size k.
Proof. apply sum_list_with_app. Qed.

Lemma chain_size_unfold c : chain_size c = S (sum_list_with chain_size (chain_proofs c)).
Proof. by destruct c. Qed.

Section walks.
Context {Key Url St Cid : Type}.
Context `{KeyMaterial Key} `{Bs58} `{Base64} `{DagJson UcanHeader} `{DagJson UcanPayload}.
Context `{UrlOps Url} `{CidOps Cid} `{UcanStore St Cid} `{EqDecision Cid}.

(** The worklist of [is_authorizer_of] visits exactly the links of the chain. *)
Lemma is_authorizer_loop_spec fuel did (links : list ProofChain) :
  sum_list_with chain_size links <= fuel ->
  exists b, is_authorizer_loop fuel did links = Ok b /\
    (b = true <-> exists link c, link ∈ links /\ in_chain c link /\ issuer (chain_ucan c) = did).
Proof.
  revert links. induction fuel as [|fuel IH]; intros links Hf;
    (destruct (vec_pop_cases links) as [->|(x & r & -> & Hp)];
      [exists false; split; [done|]; split; [done|]; intros (l & c & Hl & _); by apply not_elem_of_nil in Hl|]);
    rewrite sum_size_app in Hf; cbn in Hf; rewrite chain_size_unfold in Hf; [lia|].
  cbn [is_authorizer_loop]. rewrite Hp. case_bool_decide as Hd.
  - exists true. split; [done|]. split; [|done]. intros _. exists x, x. split_and!; [set_solver|constructor|done].
  - destruct (IH (r ++ chain_proofs x)) as (b & E & Hb); [rewrite sum_size_app; lia|]. exists b. split; [done|].
    rewrite Hb. split.
    + intros (l & c & Hl & Hc & Hi). apply elem_of_app in Hl as [Hl|Hl]; [exists l, c; set_solver|].
      exists x, c. split_and!; [set_solver|by eapply in_chain_below|done].
    + intros (l & c & Hl & Hc & Hi). apply elem_of_app in Hl as [Hl|Hl]; [exists l, c; set_solver|].
      apply list_elem_of_singleton in Hl as ->. inversion Hc as [|? p ? Hpx Hcp]; subst; [done|].
      exists p, c. split_and!; [set_solver|done|done].
Qed.

(** The tokens that [collect_ucan_proofs] gathers are those of the chain. *)
Lemma collect_ucan_proofs_loop_spec clock now_time s ctors fuel (chains : list ProofChain) remaining collected :
  Forall2 (fun u c => chain_valid (Key := Key) (Url := Url) (Cid := Cid) clock now_time s ctors u c) remaining chains ->
  sum_list_with chain_size chains <= fuel ->
  exists us, collect_ucan_proofs_loop (Cid := Cid) fuel s remaining collected = Ok us /\
    us ≡ₚ collected ++ flat_map (fun c => chain_ucan <$> chain_links c) chains.
Proof.
  revert chains remaining collected. induction fuel as [|fuel IH]; intros chains remaining collected HF Hf;
    (destruct (vec_pop_cases remaining) as [->|(u & r & -> & Hp)];
      [apply Forall2_nil_inv_l in HF as ->; exists collected; by rewrite app_nil_r|]);
    apply Forall2_app_inv_l in HF as (cs & cs' & HF & Hc & ->);
    apply Forall2_cons_inv_l in Hc as (c & nil' & Hc & Hnil & ->); apply Forall2_nil_inv_l in Hnil as ->;
    rewrite sum_size_app in Hf; cbn in Hf; rewrite chain_size_unfold in Hf; [lia|].
  cbn [collect_ucan_proofs_loop]. rewrite Hp. inversion Hc as [u' ps rs Hv HFp Hr]; subst.
  assert (exists loaded, load_proofs (Cid := Cid) s (default [] (proofs u)) = Ok loaded /\
    Forall2 (fun u c => chain_valid (Url := Url) (Cid := Cid) clock now_time s ctors u c) loaded ps) as (loaded & El & HFl).
  { clear -HFp. induction HFp as [|cs p css ps (cid & token & u' & E1 & E2 & E3 & Hc & _) _ (loaded & E & HF)].
    - by exists [].
    - exists (u' :: loaded). split; [|by constructor]. unfold load_proofs. rewrite try_map_cons, E1. cbn [outcome_bind].
      rewrite E2. cbn [outcome_bind]. rewrite E3. cbn [outcome_bind]. unfold load_proofs in E. by rewrite E. }
  rewrite El. cbn [outcome_bind].
  destruct (IH (cs ++ ps) (r ++ loaded) (collected ++ [u])) as (us & E & Hperm).
  { by apply Forall2_app. } { rewrite sum_size_app. cbn in Hf. lia. }
  exists us. split; [done|]. rewrite Hperm, !flat_map_app. cbn. rewrite app_nil_r, <- app_assoc.
  apply Permutation_app_head. cbn. rewrite Permutation_middle. apply Permutation_app_head. constructor.
  clear. induction ps as [|p ps IHps]; [done|]. cbn. by rewrite fmap_app, IHps.
Qed.

(** ** Revocation *)

(** A chain is accepted when every token of it is recorded in the sphere and
    none is revoked. *)
Lemma verify_links_recorded fuel authority credential (links : list ProofChain) :
  sum_list_with chain_size links <= fuel ->
  (forall link c, link ∈ links -> in_chain c link -> exists cid d,
    ucan_to_cid (Cid := Cid) (chain_ucan c) = Ok cid /\ get_delegation authority cid = Ok (Some d) /\
    get_revocation authority cid = Ok None) ->
  verify_links (Key := Key) fuel authority credential links = Ok tt.
Proof.
  revert links. induction fuel as [|fuel IH]; intros links Hf Hall;
    (destruct (vec_pop_cases links) as [->|(x & r & -> & Hp)]; [done|]);
    rewrite sum_size_app in Hf; cbn in Hf; rewrite chain_size_unfold in Hf; [lia|].
  cbn [verify_links]. rewrite Hp.
  destruct (Hall x x ltac:(set_solver) ltac:(constructor)) as (cid & d & -> & Hd & Hr). cbn [outcome_bind].
  rewrite Hd. cbn [outcome_bind]. rewrite Hr. cbn [outcome_bind]. apply IH; [rewrite sum_size_app; lia|].
  intros l c Hl Hc. apply elem_of_app in Hl as [Hl|Hl]; [apply (Hall l); [set_solver|done]|].
  apply (Hall x); [set_solver|by eapply in_chain_below].
Qed.

Lemma verify_links_delegations fuel authority credential (links : list ProofChain) :
  sum_list_with chain_size links <= fuel ->
  (forall cid, get_revocation authority cid = Ok None) ->
  (forall link c, link ∈ links -> in_chain c link -> exists cid d,
    ucan_to_cid (Cid := Cid) (chain_ucan c) = Ok cid /\ get_delegation authority cid = Ok (Some d)) ->
  verify_links (Key := Key) fuel authority credential links = Ok tt.
Proof.
  intros Hf Hrev Hall. apply verify_links_recorded; [done|]. intros link c Hl Hc.
  destruct (Hall link c Hl Hc) as (cid & d & ? & ?). eauto.
Qed.

(** A chain that has a token which is not recorded is rejected, if none of the
    recorded ones is revoked. *)
Lemma verify_links_unrecorded fuel authority credential (links : list ProofChain) :
  sum_list_with chain_size links <= fuel ->
  (forall link c, link ∈ links -> in_chain c link -> exists cid, ucan_to_cid (Cid := Cid) (chain_ucan c) = Ok cid /\
    (get_delegation authority cid = Ok None \/
     exists d, get_delegation authority cid = Ok (Some d) /\ get_revocation authority cid = Ok None)) ->
  (exists link c cid, link ∈ links /\ in_chain c link /\ ucan_to_cid (Cid := Cid) (chain_ucan c) = Ok cid /\
    get_delegation authority cid = Ok None) ->
  verify_links (Key := Key) fuel authority credential links = Err "Not found in sphere authority".
Proof.
  revert links. induction fuel as [|fuel IH]; intros links Hf Hall (l & c & cid & Hl & Hc & Ec & Hn);
    (destruct (vec_pop_cases links) as [->|(x & r & -> & Hp)]; [by apply not_elem_of_nil in Hl|]);
    rewrite sum_size_app in Hf; cbn in Hf; rewrite chain_size_unfold in Hf; [lia|].
  cbn [verify_links]. rewrite Hp.
  destruct (Hall x x ltac:(set_solver) ltac:(constructor)) as (cx & Ex & Hx). rewrite Ex. cbn [outcome_bind].
  destruct Hx as [Hx|(d & Hx & Hr)]; rewrite Hx; cbn [outcome_bind]; [done|]. rewrite Hr. cbn [outcome_bind].
  apply IH; [rewrite sum_size_app; lia| |].
  - intros l' c' Hl' Hc'. apply elem_of_app in Hl' as [Hl'|Hl']; [apply (Hall l'); [set_solver|done]|].
    apply (Hall x); [set_solver|by eapply in_chain_below].
  - apply elem_of_app in Hl as [Hl|Hl]; [exists l, c, cid; set_solver|]. apply list_elem_of_singleton in Hl as ->.
    inversion Hc as [|? p ? Hpx Hcp]; subst; [congruence|]. exists p, c, cid. split_and!; [set_solver|done..].
Qed.

(** A revocation by the sphere of a token that another key issued is skipped,
    and with it the proofs of that token. *)
Lemma verify_links_skips fuel authority credential c cid d rev :
  0 < fuel -> ucan_to_cid (Cid := Cid) (chain_ucan c) = Ok cid -> get_delegation authority cid = Ok (Some d) ->
  get_revocation authority cid = Ok (Some rev) -> rev_iss rev = authority_identity authority ->
  issuer (chain_ucan c) <> authority_identity authority ->
  verify_links (Key := Key) fuel authority credential [c] = Ok tt.
Proof.
  intros Hf Ec Ed Er Hiss Hne. destruct fuel as [|fuel]; [lia|]. cbn [verify_links].
  change (vec_pop [c]) with (Some (c, @nil ProofChain)). cbn iota. rewrite Ec. cbn [outcome_bind]. rewrite Ed.
  cbn [outcome_bind]. rewrite Er. cbn [outcome_bind].
  assert (bool_decide (rev_iss rev = issuer (chain_ucan c)) = false) as ->.
  { apply bool_decide_eq_false. congruence. }
  rewrite orb_true_r. by destruct fuel.
Qed.

(** A revocation that a key issues verifies against that key. *)
Lemma revocation_roundtrip `{!Base64Laws} `{!CidLaws Cid} cid (k k' : Key) rev :
  (forall data sig, key_sign k data = Ok sig -> key_verify k' data sig = Ok tt) ->
  revoke cid k = Ok rev -> revocation_verify (Cid := Cid) rev k' = Ok tt.
Proof.
  intros Hk. unfold revoke. destruct (get_did k) as [did| | |]; cbn [outcome_bind]; try done.
  destruct (key_sign k _) as [sig| | |] eqn:Es; cbn [outcome_bind]; try done. intros [= <-].
  unfold revocation_verify, base64_decode. cbn. rewrite cid_of_to_string. cbn [outcome_bind].
  rewrite b64_roundtrip. cbn. by apply Hk.
Qed.
End walks.

(** The capability of a sphere, printed and parsed back. *)
Lemma parse_generate_capability {Url} `{UrlLaws Url} identity ability :
  opaque_path identity = true -> identity <> "*" ->
  parse_capability (Url := Url) (capability_of_view (Url := Url) (generate_capability identity ability))
    = Some (generate_capability identity ability).
Proof.
  intros Hid Hstar. unfold parse_capability, parse, capability_of_view, generate_capability. cbn -[sphere_ability_of_string].
  destruct (url_opaque "sphere" identity ltac:(done) Hid) as (u & Eu & Es & Ep).
  change (sphere_reference_to_string (mkReference identity)) with ("sphere" +:+ ":" +:+ identity). rewrite Eu. cbn -[sphere_ability_of_string].
  assert (bool_decide (identity = "*") = false) as Hb by (by apply bool_decide_eq_false).
  rewrite Es. unfold parse_resource. cbn -[sphere_ability_of_string]. unfold sphere_reference_of_url.
  rewrite Es, Ep, Hb. by destruct ability.
Qed.
