(* ===== verification/UcanFixtures.v ===== *)
(** * A small world of tokens

    A sphere, its owner and a third key, with the tokens they issue to each
    other, on the concrete parameters of [UcanInstances]. *)
From stdpp Require Import base gmap list numbers strings.
From Stdlib Require Import Ascii String.
From S2P Require Import Prelude HamtNode HamtRep BTree BlockStore Instances UcanCapability Ucan UcanChain.
From S2P Require Import UcanProofs UcanInstances Authority.
#[local] Open Scope list_scope.

#[export] Existing Instance toy_string_cid.
#[export] Existing Instance toy_token_store.

Definition claim (l : list (string * SphereAbility)) : list Capability :=
  (fun '(did, a) => capability_of_view (Url := ToyUrl) (generate_capability did a)) <$> l.

Definition sphere_did : string := toy_did 1.
Definition owner_did : string := toy_did 2.
Definition friend_did : string := toy_did 3.

(** The sphere authorizes its owner, who lets a friend push. *)
Definition owner_signable : Signable N :=
  mkSignable 1%N owner_did (claim [(sphere_did, Authorize)]) (Some 100%N) None [] [] false.
Definition friend_signable : Signable N :=
  mkSignable 2%N friend_did (claim [(sphere_did, Push)]) (Some 90%N) None [] ["owner"] false.

(** The sphere lets the owner's key fetch only; that key claims to authorize. *)
Definition fetch_signable : Signable N :=
  mkSignable 1%N owner_did (claim [(sphere_did, Fetch)]) (Some 100%N) None [] [] false.
Definition greedy_signable : Signable N :=
  mkSignable 2%N friend_did (claim [(sphere_did, Authorize); (sphere_did, Fetch)]) (Some 90%N) None [] ["fetch"] false.

(** A link record published by the owner. *)
Definition record_signable : Signable N :=
  mkSignable 2%N sphere_did (claim [(sphere_did, Publish)]) (Some 90%N) None
    [("link", VString "a link")] ["owner"] false.

(** A token that redelegates its proof and claims a capability of its own. *)
Definition mixed_signable : Signable N :=
  mkSignable 2%N friend_did
    (mkCapability "prf:0" "ucan/DELEGATE" (VObject []) :: claim [(owner_did, Publish)])
    (Some 90%N) None [] ["owner"] false.

#[export] Instance toy_payload_json : DagJson UcanPayload :=
  table_json (omap (fun sg => ok_of (ucan_payload [] sg))
    [owner_signable; friend_signable; fetch_signable; greedy_signable; record_signable; mixed_signable]).
#[export] Instance toy_payload_json_laws : DagJsonLaws UcanPayload := table_json_laws _.

Definition token_of (sg : Signable N) : string :=
  match (let? u := sign [] sg in ucan_encode u) with Ok t => t | _ => EmptyString end.

Definition toy_store : list (string * string) :=
  [("owner", token_of owner_signable); ("fetch", token_of fetch_signable); ("friend", token_of friend_signable)].

Definition dummy_ucan : Ucan := mkUcan (mkHeader "" "") (mkPayload "" "" "" None None None (mkCapabilities []) None None) [] [].
Definition ucan_of (sg : Signable N) : Ucan := match sign [] sg with Ok u => u | _ => dummy_ucan end.

Definition chain_of (sg : Signable N) : outcome ProofChain :=
  (from_ucan (Url := ToyUrl) 4 10 None toy_store (ucan_of sg) (did_parser_new toy_keys)).1.
