(* ===== verification/UcanTheorems.v ===== *)
(** * The properties of UCANs *)
From stdpp Require Import base gmap list numbers strings pretty.
From Stdlib Require Import Ascii String.
From S2P Require Import Prelude HamtNode HamtRep BTree BlockStore Instances UcanCapability.
From S2P Require Import Ucan UcanChain UcanProofs UcanInstances Authority AuthorityProofs UcanFixtures.
#[local] Open Scope list_scope.
#[local] Notation length := List.length (only parsing).

Section theorems.
Context {Key Url St Cid : Type}.
Context `{KeyMaterial Key} `{Bs58} `{Base64} `{DagJson UcanHeader} `{DagJson UcanPayload}.
Context `{UrlOps Url} `{CidOps Cid} `{UcanStore St Cid}.
Implicit Types (u : Ucan) (c : ProofChain) (s : St).

(** C2: a proof chain is built from a token exactly when it is that of the token and
    holds together, link by link ([sound_chain], stated of the fields of the tokens):
    every token in it is within its time and signed by the key of its issuer; the
    proofs that it names are found in the store, in order, each addressed to its
    issuer and in force whenever it is; and the proofs that it hands on are exactly
    those that its capabilities select, all of which exist.  The fuel that is needed
    is the depth of the chain. *)
Theorem from_ucan_iff_valid fuel clock now_time s (supported_keys : list (bytes * (bytes -> outcome Key))) u c :
  (exists p, from_ucan (Url := Url) (Cid := Cid) fuel clock now_time s u (did_parser_new supported_keys) = (Ok c, p))
  <-> chain_depth c <= fuel /\ sound_chain (Url := Url) (Cid := Cid) clock now_time s (key_constructors (did_parser_new supported_keys)) u c.
Proof.
  assert (parser_ok (key_constructors (did_parser_new supported_keys)) (did_parser_new supported_keys)) as Hok
    by (split; [apply did_parser_new_ok|done]).
  split.
  - intros (p & E). split; [by eapply from_ucan_depth|]. destruct (from_ucan_sound _ _ _ _ _ _ _ _ _ Hok E) as [Hv _]. by apply chain_valid_sound.
  - intros [Hd Hv%sound_chain_valid]. destruct (from_ucan_complete _ _ _ _ fuel _ _ _ Hok Hv Hd) as (p & E & _). by exists p.
Qed.

(** Every token in a chain that was built is live and signed, and its
    lifetime encompasses that of the token the chain was built for. *)
Theorem chain_tokens_live fuel clock now_time s (supported_keys : list (bytes * (bytes -> outcome Key))) u c p c' :
  from_ucan (Url := Url) (Cid := Cid) fuel clock now_time s u (did_parser_new supported_keys) = (Ok c, p) ->
  in_chain c' c ->
  is_expired clock (chain_ucan c') now_time = false /\ is_too_early clock (chain_ucan c') = false /\
  (exists key, resolve (key_constructors (did_parser_new supported_keys)) (issuer (chain_ucan c')) = Ok key /\
    key_verify key (signed_data (chain_ucan c')) (signature (chain_ucan c')) = Ok tt) /\
  lifetime_encompasses (chain_ucan c') u = true.
Proof.
  intros E Hin.
  assert (parser_ok (key_constructors (did_parser_new supported_keys)) (did_parser_new supported_keys)) as Hok
    by (split; [apply did_parser_new_ok|done]).
  destruct (from_ucan_sound _ _ _ _ _ _ _ _ _ Hok E) as [Hv _].
  destruct (chain_valid_all _ _ _ _ _ _ _ Hv Hin) as (_ & Hval & Hl). unfold validation in Hval.
  destruct (is_expired _ _ _); [done|]. destruct (is_too_early _ _); [done|]. split_and!; [done|done| |done].
  destruct (resolve _ _) as [key| | |]; cbn in Hval; try done. eauto.
Qed.

(** The capabilities of a chain that was built can always be reduced, every
    reduced capability is claimed by a token of the chain, every originator
    named for it issued a token of the chain, and it carries the lifetime of the
    token the chain was built for. *)
Theorem reduce_names_issuers {S A} `{Scope Url S} `{Ability A} fuel clock now_time s
    (supported_keys : list (bytes * (bytes -> outcome Key))) u c p :
  from_ucan (Url := Url) (Cid := Cid) fuel clock now_time s u (did_parser_new supported_keys) = (Ok c, p) ->
  exists infos : list (CapabilityInfo S A), reduce_capabilities (Url := Url) c = Ok infos /\
    Forall (info_sound (Url := Url) c) infos.
Proof.
  intros E. apply reduce_sound. intros c' Hin.
  assert (parser_ok (key_constructors (did_parser_new supported_keys)) (did_parser_new supported_keys)) as Hok
    by (split; [apply did_parser_new_ok|done]).
  destruct (from_ucan_sound _ _ _ _ _ _ _ _ _ Hok E) as [Hv _]. by eapply chain_valid_redelegations.
Qed.

(** Resolving a DID does not depend on the cache: whatever the parser has
    seen, a DID resolves to what the constructors give for it, and the cache
    stays coherent. *)
Theorem did_cache_transparent (dids : list string) (supported_keys : list (bytes * (bytes -> outcome Key))) did :
  let p := foldl (fun p d => (did_parse p d).2) (did_parser_new supported_keys) dids in
  (did_parse p did).1 = resolve (key_constructors (did_parser_new supported_keys)) did.
Proof.
  cbn zeta. assert (forall p : DidParser Key, cache_ok p ->
    cache_ok (foldl (fun p d => (did_parse p d).2) p dids) /\
    key_constructors (foldl (fun p d => (did_parse p d).2) p dids) = key_constructors p) as Hfold.
  { induction dids as [|d dids IH]; intros p Hp; [done|]. cbn.
    destruct (did_parse_spec p d Hp) as (p' & -> & Hp' & <-). by apply IH. }
  destruct (Hfold (did_parser_new supported_keys) (did_parser_new_ok _)) as [Hc He].
  destruct (did_parse_spec _ did Hc) as (p' & -> & _). cbn. by rewrite He.
Qed.

(** A token that a key signs, written out as a JWT and read back, is the
    same token, and it validates until it expires. *)
Theorem signed_token_validates `{!Base64Laws} `{!DagJsonLaws UcanHeader} `{!DagJsonLaws UcanPayload}
    clock now_time (supported_keys : list (bytes * (bytes -> outcome Key))) rng (sg : Signable Key) u token :
  key_resolves (key_constructors (did_parser_new supported_keys)) (s_issuer sg) ->
  sign rng sg = Ok u -> ucan_encode u = Ok token ->
  match s_expiration sg with Some e => (default clock now_time <= e)%N | None => True end ->
  match s_not_before sg with Some n => (n <= clock)%N | None => True end ->
  ucan_from_str token = Ok u /\ (validate clock u now_time (did_parser_new supported_keys)).1 = Ok tt.
Proof.
  intros Hk Hs He Hexp Hnbf. destruct (sign_inv _ _ _ Hs) as (Hwf & _). split; [by apply ucan_encode_decode|].
  assert (parser_ok (key_constructors (did_parser_new supported_keys)) (did_parser_new supported_keys)) as Hok
    by (split; [apply did_parser_new_ok|done]).
  destruct (validate_spec clock now_time _ u _ Hok) as (p' & -> & _). cbn. by eapply signed_validates.
Qed.
End theorems.

(** One caveat enables another exactly when it is contained in it. *)
Theorem caveat_enables_iff_subset (a b : Caveat) : NoDup a.*1 ->
  caveat_enables a b = true <-> (list_to_map a : gmap string Value) ⊆ list_to_map b.
Proof. apply caveat_enables_spec. Qed.

(** Enabling is transitive, so a capability cannot regain through a chain of
    delegations what one of them left out. *)
Theorem enables_transitive {Url S A} `{ScopeLaws Url S} `{AbilityLaws A} (a b c : CapabilityView S A) :
  view_wf a -> view_wf b -> view_enables (Url := Url) a b = true -> view_enables (Url := Url) b c = true ->
  view_enables (Url := Url) a c = true.
Proof. apply view_enables_trans. Qed.

(** Grouping a list of capabilities by resource and ability succeeds exactly
    when every caveat is an object; iterating over the result gives back the same
    capabilities, and every resource in it has an ability. *)
Theorem capabilities_group_and_flatten (caps : list Capability) :
  (exists c, capabilities_of_vec caps = Ok c /\ capabilities_iter c ≡ₚ caps /\ resources_wf (capabilities_map c)) \/
  (exists e, capabilities_of_vec caps = Err e /\ Exists (fun c => is_object (cap_caveat c) = false) caps).
Proof.
  destruct (decide (Forall (fun c => is_object (cap_caveat c) = true) caps)) as [Hall|Hex].
  - left. destruct (push_all_spec caps [] Hall ltac:(constructor)) as (r & E & Hwf & Hp).
    exists (mkCapabilities r). unfold capabilities_of_vec. rewrite E. cbn [outcome_bind].
    split_and!; [by apply capabilities_of_map_ok|exact Hp|exact Hwf].
  - right. apply not_Forall_Exists in Hex; [|apply _].
    assert (Exists (fun c => is_object (cap_caveat c) = false) caps) as Hex'.
    { eapply Exists_impl; [exact Hex|]. intros c Hc. cbn in Hc. by destruct (is_object (cap_caveat c)). }
    destruct (push_bad_spec caps [] Hex') as (e & E). exists e. unfold capabilities_of_vec. by rewrite E.
Qed.

(** A token whose own key was granted only [sphere/fetch] obtains, in the
    reduced capabilities, [sphere/authorize] with the sphere as an originator:
    merging the claimed fetch capability into the claimed authorize capability
    also hands over its originators. *)
Theorem merge_escalates_originators :
  exists c infos,
    chain_of greedy_signable = Ok c /\ reduce_capabilities (Url := ToyUrl) c = Ok infos /\
    grants (Url := ToyUrl) sphere_did Authorize infos = true /\
    forall c', in_chain c' c -> issuer (chain_ucan c') = sphere_did ->
      Forall (fun v : SphereView => view_ability v = Fetch) (self_views (Url := ToyUrl) (chain_ucan c')).
Proof.
  eexists _, _. split; [vm_compute; reflexivity|]. split; [vm_compute; reflexivity|].
  split; [vm_compute; reflexivity|]. intros c' Hin. apply in_chain_links in Hin.
  cbn [chain_links flat_map app] in Hin. rewrite !elem_of_cons in Hin. destruct Hin as [->|[->|Hin]].
  - intros E. exfalso. revert E. apply (bool_decide_unpack (issuer _ <> sphere_did)). vm_compute. exact I.
  - intros _. vm_compute. repeat constructor.
  - by apply not_elem_of_nil in Hin.
Qed.

(** Reading the capabilities of a token stops at the first one that the
    semantics does not understand: a token that redelegates a proof and claims a
    sphere capability of its own grants nothing of its own. *)
Theorem mixed_claims_are_dropped :
  (cap_resource <$> capabilities_iter (capabilities (ucan_of mixed_signable))) = ["prf:0"; "sphere:" +:+ owner_did] /\
  self_views (Url := ToyUrl) (S := SphereReference) (A := SphereAbility) (ucan_of mixed_signable) = [].
Proof. split; vm_compute; reflexivity. Qed.

(** A DID with fewer than two bytes of key material makes the parser panic
    instead of returning an error. *)
Theorem short_did_panics :
  exists why, (did_parse (did_parser_new toy_keys) (DID_KEY_PREFIX +:+ bs58_encode [])).1 = Panic why.
Proof. eexists. vm_compute. reflexivity. Qed.

(** ** Runs *)
Lemma fst_eq {X Y : Type} (x : X * Y) a : x.1 = a -> x = (a, x.2).
Proof. by destruct x; cbn; intros ->. Qed.

(** The token of the friend rests on that of the owner until it expires. *)
Notation friend_sound now c := (sound_chain (Url := ToyUrl) (Cid := string) 10 (Some now) toy_store (key_constructors (did_parser_new toy_keys)) (ucan_of friend_signable) c).

Lemma from_ucan_iff_valid_witness :
  (exists c, friend_sound 10%N c /\ (fun p => issuer (chain_ucan p)) <$> chain_proofs c = [sphere_did]) /\
  (forall c, chain_depth c <= 2 -> ~ friend_sound 95%N c).
Proof.
  split.
  - eexists (mkChain _ [mkChain _ [] []] []). split.
    + apply (from_ucan_iff_valid (Url := ToyUrl) (Cid := string) 2 10 (Some 10%N) toy_store toy_keys (ucan_of friend_signable)).
      eexists. apply fst_eq. vm_compute. reflexivity.
    + vm_compute. reflexivity.
  - intros c Hd Hc.
    destruct (proj2 (from_ucan_iff_valid (Url := ToyUrl) (Cid := string) 2 10 (Some 95%N) toy_store toy_keys (ucan_of friend_signable) c) (conj Hd Hc)) as (p & E).
    apply (f_equal fst) in E. vm_compute in E. discriminate E.
Defined.

Lemma chain_tokens_live_witness :
  exists c, chain_of friend_signable = Ok c /\
    forall c', in_chain c' c -> lifetime_encompasses (chain_ucan c') (ucan_of friend_signable) = true.
Proof.
  eexists. split; [vm_compute; reflexivity|]. intros c' Hin.
  eapply (chain_tokens_live (Url := ToyUrl) (Cid := string) 4 10 None toy_store toy_keys (ucan_of friend_signable));
    [|exact Hin].
  apply fst_eq. vm_compute. reflexivity.
Defined.

Lemma reduce_names_issuers_witness :
  exists c (infos : list SphereInfo), chain_of friend_signable = Ok c /\
    reduce_capabilities (Url := ToyUrl) c = Ok infos /\ Forall (info_sound (Url := ToyUrl) c) infos.
Proof.
  eexists. destruct (reduce_names_issuers (S := SphereReference) (A := SphereAbility) (Url := ToyUrl) (Cid := string)
    4 10 None toy_store toy_keys (ucan_of friend_signable) _ _ (fst_eq _ _ ltac:(vm_compute; reflexivity)))
    as (infos & E & Hall).
  exists infos. split; [vm_compute; reflexivity|]. split; [exact E|exact Hall].
Defined.

Lemma signed_token_validates_witness :
  ucan_from_str (token_of owner_signable) = Ok (ucan_of owner_signable) /\
  (validate 10 (ucan_of owner_signable) None (did_parser_new toy_keys)).1 = Ok tt.
Proof.
  apply (signed_token_validates 10 None toy_keys [] owner_signable).
  - exists sphere_did, 1%N. split; [reflexivity|]. split; [vm_compute; reflexivity|].
    intros data sig [= <-]. cbn. by rewrite bool_decide_true.
  - vm_compute. reflexivity.
  - vm_compute. reflexivity.
  - cbn. lia.
  - exact I.
Defined.

Lemma caveat_enables_iff_subset_witness :
  caveat_enables [("x", VBool true)] [("x", VBool true); ("z", VBool true)] = true /\
  (list_to_map [("x", VBool true)] : gmap string Value) ⊆ list_to_map [("x", VBool true); ("z", VBool true)].
Proof.
  split; [vm_compute; reflexivity|].
  apply (caveat_enables_iff_subset [("x", VBool true)] [("x", VBool true); ("z", VBool true)]).
  - apply (bool_decide_unpack _). vm_compute. exact I.
  - vm_compute. reflexivity.
Defined.

Lemma enables_transitive_witness :
  view_enables (Url := ToyUrl) (generate_capability sphere_did Authorize) (generate_capability sphere_did Fetch) = true.
Proof.
  apply (enables_transitive (Url := ToyUrl) (generate_capability sphere_did Authorize)
    (generate_capability sphere_did Push) (generate_capability sphere_did Fetch)).
  - constructor.
  - constructor.
  - vm_compute. reflexivity.
  - vm_compute. reflexivity.
Defined.
