(* ===== verification/AuthorityTheorems.v ===== *)
(** * The properties of authority over spheres *)
From stdpp Require Import base gmap list numbers strings pretty.
From Stdlib Require Import Ascii String.
From S2P Require Import Prelude HamtNode HamtRep BTree BlockStore Instances UcanCapability.
From S2P Require Import Ucan UcanChain UcanProofs UcanInstances Authority AuthorityProofs UcanFixtures.
#[local] Open Scope list_scope.
#[local] Notation length := List.length (only parsing).

Section theorems.
Context {Key Url St Cid : Type}.
Context `{KeyMaterial Key} `{Bs58} `{Base64} `{DagJson UcanHeader} `{DagJson UcanPayload}.
Context `{UrlOps Url} `{CidOps Cid} `{UcanStore St Cid} `{EqDecision Cid}.
Context (supported_keys : list (bytes * (bytes -> outcome Key))).
Notation ctors := (key_constructors (did_parser_new supported_keys)).
Notation valid := (chain_valid (Key := Key) (Url := Url) (Cid := Cid)).

(** What a decision in favour of [identity] rests on: a valid chain that holds a
    token issued by [identity], and, if the chain is attenuating, one in which
    [identity] claims a capability that covers the one asked for. *)
Definition authorized_by (clock : N) (now_time : option N) (s : St) (u : Ucan) (identity : string)
    (ability : SphereAbility) : Prop :=
  exists c, valid clock now_time s ctors u c /\ issued_in c identity /\
    (attenuating (Url := Url) (S := SphereReference) (A := SphereAbility) c ->
      claims_cover (Url := Url) c identity (generate_capability identity ability)).

Lemma granted_authorized fuel clock now_time s u c p infos identity ability :
  parser_ok ctors p -> (from_ucan (Url := Url) (Cid := Cid) fuel clock now_time s u p).1 = Ok c ->
  reduce_capabilities (Url := Url) c = Ok infos -> grants (Url := Url) identity ability infos = true ->
  authorized_by clock now_time s u identity ability.
Proof.
  intros Hok E Hr Hg. destruct (from_ucan _ _ _ _ _ _) as [r p'] eqn:Ef. cbn in E. subst r.
  destruct (from_ucan_sound _ _ _ _ _ _ _ _ _ Hok Ef) as [Hv _]. exists c. split_and!; [done| |].
  - eapply grants_issued; [|exact Hr|exact Hg]. intros c' Hin. by eapply chain_valid_redelegations.
  - intros Hatt. by eapply grants_covered.
Qed.

Lemma new_parser_ok : parser_ok ctors (did_parser_new supported_keys).
Proof. split; [apply did_parser_new_ok|done]. Qed.

(** C6: the gateway authorizes a request only if the bearer token of the request
    heads a valid proof chain that the counterpart sphere started and, when no
    token in it claims overlapping capabilities, in which the sphere itself
    granted at least the required ability. *)
Theorem gateway_authorizes_only_delegates {Context : Type} fuel clock ucans bearer (ucan_store : outcome St)
    (sphere_context : outcome Context) counterpart required (context : Context) :
  try_authorize (Url := Url) supported_keys fuel clock ucans bearer ucan_store sphere_context counterpart required
    = Ok context ->
  exists (db s : St) u, ucan_store = Ok db /\ write_header_tokens ucans db = (Ok tt, s) /\ ucan_from_str bearer = Ok u /\
    authorized_by clock None s u counterpart required.
Proof.
  unfold try_authorize. destruct ucan_store as [db| | |]; try done.
  destruct (header_as_proof_chain supported_keys fuel clock ucans bearer db) as [c| | |] eqn:Eh; try done.
  destruct (reduce_capabilities c) as [infos| | |] eqn:Er; cbn [outcome_bind]; try done.
  destruct (grants counterpart required infos) eqn:Eg; [|done]. intros _.
  unfold header_as_proof_chain in Eh. destruct (write_header_tokens ucans db) as [[[]| | |] s] eqn:Ew; cbn [outcome_bind] in Eh; try done.
  destruct (try_from_token_string _ _ _ _ _ _) as [rc p] eqn:Et.
  destruct rc as [c0| | |]; cbn [outcome_bind] in Eh; try done.
  destruct (validate clock (chain_ucan c0) None p).1 as [[]| | |]; cbn [outcome_bind] in Eh; try done.
  injection Eh as ->. unfold try_from_token_string in Et. destruct (ucan_from_str bearer) as [u| | |]; cbn [try_with] in Et; try done.
  exists db, s, u. split_and!; [done|done|done|].
  eapply granted_authorized; [apply new_parser_ok|by rewrite Et|exact Er|exact Eg].
Qed.

(** An author gets write access to a sphere only with the sphere's own key,
    or with a token addressed to the author that heads a valid proof chain the
    sphere started and, when no token in it claims overlapping capabilities, in
    which the sphere itself granted at least the ability to push. *)
Theorem write_access_only_for_delegates fuel walk_fuel clock (s : St) key authorization identity require_version authority_at :
  access_to (Url := Url) supported_keys fuel walk_fuel clock s key authorization identity require_version authority_at
    = Ok ReadWrite ->
  get_did key = Ok identity \/
  exists (auth : Authorization Cid) u, authorization = Some auth /\ as_ucan s auth = Ok u /\
    get_did key = Ok (audience u) /\ authorized_by clock None s u identity Push.
Proof.
  unfold access_to. destruct (get_did key) as [did| | |]; cbn [outcome_bind]; try done.
  case_bool_decide as Hdid; [subst; by left|]. destruct authorization as [auth|]; [|done].
  destruct (as_ucan s auth) as [u| | |] eqn:Eu; cbn [outcome_bind]; try done.
  case_bool_decide as Haud; [|done]. cbn [negb]. destruct require_version as [version| | |]; cbn [outcome_bind]; try done.
  destruct (verify_authorization _ _ _ _ _ _ _); try done.
  destruct (from_ucan fuel clock None s u _).1 as [c| | |] eqn:Ef; try done.
  destruct (reduce_capabilities c) as [infos| | |] eqn:Er; cbn [outcome_bind]; try done.
  destruct (grants identity Push infos) eqn:Eg; [|done]. intros _. right. exists auth, u.
  split_and!; [done|done|by subst|]. eapply granted_authorized; [apply new_parser_ok|exact Ef|exact Er|exact Eg].
Qed.

(** A link record is accepted only if it carries a link and heads a proof
    chain, valid at the time of publishing, that the sphere it speaks for
    started and, when no token in it claims overlapping capabilities, in which
    that sphere granted at least the ability to publish. *)
Theorem link_record_only_from_delegates fuel clock (s : St) record :
  link_record_validate (Cid := Cid) (Url := Url) supported_keys fuel clock s record = Ok tt ->
  exists (cid : Cid) now_time, get_link record = Some cid /\ publish_time record = Ok now_time /\
    authorized_by clock now_time s record (audience record) Publish.
Proof.
  unfold link_record_validate. destruct (get_link record) as [cid|]; [|done].
  destruct (publish_time record) as [now_time| | |]; cbn [outcome_bind]; try done.
  destruct (from_ucan fuel clock now_time s record _) as [r p] eqn:Ef.
  destruct r as [c| | |]; cbn [outcome_bind]; try done.
  destruct (reduce_capabilities c) as [infos| | |] eqn:Er; cbn [outcome_bind]; try done.
  destruct (grants _ _ infos) eqn:Eg; [|done]. cbn [negb]. intros _. exists cid, now_time. split_and!; [done|done|].
  eapply granted_authorized; [apply new_parser_ok|by rewrite Ef|exact Er|exact Eg].
Qed.

(** An author is an authorizer of an authorization exactly when one of the
    tokens in its proof chain was issued by the author's key; the walk ends
    within as many steps as the chain has tokens. *)
Theorem authorizer_iff_issuer fuel walk_fuel clock (s : St) key did (auth : Authorization Cid) c :
  as_proof_chain (Url := Url) supported_keys fuel clock s auth = Ok c -> get_did key = Ok did ->
  chain_size c <= walk_fuel ->
  exists b, is_authorizer_of (Url := Url) supported_keys fuel walk_fuel clock s key auth = Ok b /\
    (b = true <-> issued_in c did).
Proof.
  intros Ec Ed Hf. unfold is_authorizer_of. rewrite Ec. cbn [outcome_bind]. rewrite Ed. cbn [outcome_bind].
  destruct (is_authorizer_loop_spec walk_fuel did [c]) as (b & E & Hb); [cbn; lia|]. exists b. split; [done|].
  rewrite Hb. unfold issued_in. split.
  - intros (l & c' & Hl & Hin & Hi). apply list_elem_of_singleton in Hl as ->. eauto.
  - intros (c' & Hin & Hi). exists c, c'. split_and!; [by apply list_elem_of_singleton|done|done].
Qed.

(** Collecting the proofs of a token that has a valid chain ends within as
    many steps as the chain has tokens, and returns exactly those tokens. *)
Theorem collected_proofs_are_the_chain fuel clock now_time (s : St) u c :
  valid clock now_time s ctors u c -> chain_size c <= fuel ->
  exists us, collect_ucan_proofs (Cid := Cid) fuel s u = Ok us /\ us ≡ₚ chain_ucan <$> chain_links c.
Proof.
  intros Hv Hf. destruct (collect_ucan_proofs_loop_spec clock now_time s ctors fuel [c] [u] []) as (us & E & Hp).
  - by repeat constructor.
  - cbn. lia.
  - exists us. split; [exact E|]. rewrite Hp. cbn. by rewrite app_nil_r.
Qed.

(** A sphere cannot revoke a token that it did not issue directly: when the
    sphere's own revocation of the head of a chain is recorded, but another key
    issued that token, the authorization still verifies, and the rest of its
    chain is not even looked up. *)
Theorem sphere_revocation_ignored fuel walk_fuel clock (s : St) (authority : SphereAuthority Cid) auth c cid d rev credential :
  as_proof_chain (Url := Url) supported_keys fuel clock s auth = Ok c ->
  to_credential supported_keys (authority_identity authority) = Ok credential ->
  ucan_to_cid (chain_ucan c) = Ok cid -> get_delegation authority cid = Ok (Some d) ->
  get_revocation authority cid = Ok (Some rev) -> rev_iss rev = authority_identity authority ->
  issuer (chain_ucan c) <> authority_identity authority -> 0 < walk_fuel ->
  verify_authorization (Url := Url) supported_keys fuel walk_fuel clock s (Ok authority) auth = Ok tt.
Proof.
  intros Ec Ek Ecid Ed Er Hiss Hne Hf. unfold verify_authorization. rewrite Ec. cbn [outcome_bind].
  rewrite Ek. cbn [outcome_bind]. by eapply verify_links_skips.
Qed.

(** With no revocation recorded, an authorization verifies when every token
    of its chain is a recorded delegation. *)
Theorem recorded_authorization_verifies fuel walk_fuel clock (s : St) (authority : SphereAuthority Cid) auth c credential :
  as_proof_chain (Url := Url) supported_keys fuel clock s auth = Ok c ->
  to_credential supported_keys (authority_identity authority) = Ok credential ->
  (forall cid, get_revocation authority cid = Ok None) ->
  (forall c', in_chain c' c -> exists cid d,
    ucan_to_cid (Cid := Cid) (chain_ucan c') = Ok cid /\ get_delegation authority cid = Ok (Some d)) ->
  chain_size c <= walk_fuel ->
  verify_authorization (Url := Url) supported_keys fuel walk_fuel clock s (Ok authority) auth = Ok tt.
Proof.
  intros Ec Ek Hrev Hdel Hf. unfold verify_authorization. rewrite Ec. cbn [outcome_bind].
  rewrite Ek. cbn [outcome_bind]. apply verify_links_delegations; [cbn; lia|done|].
  intros l c' Hl Hin. apply list_elem_of_singleton in Hl as ->. by apply Hdel.
Qed.
End theorems.

(** The capability of a sphere, printed and parsed back under the sphere
    semantics, is the same capability, for every identity the URL syntax keeps
    as written. *)
Theorem sphere_capability_roundtrip {Url} `{UrlLaws Url} identity ability :
  opaque_path identity = true -> identity <> "*" ->
  parse_capability (Url := Url) (capability_of_view (Url := Url) (generate_capability identity ability))
    = Some (generate_capability identity ability).
Proof. apply parse_generate_capability. Qed.

(** Superceding is a strict partial order on link records, and only relates
    records of the same sphere. *)
Theorem superceded_by_strict_order :
  (forall a, superceded_by a a = false) /\
  (forall a b c, superceded_by a b = true -> superceded_by b c = true -> superceded_by a c = true) /\
  (forall a b, superceded_by a b = true -> to_sphere_identity a = to_sphere_identity b).
Proof.
  unfold superceded_by. split_and!.
  - intros a. destruct (expires_at a); [|done]. by rewrite N.ltb_irrefl.
  - intros a b c. destruct (expires_at a), (expires_at b), (expires_at c); try done.
    rewrite !andb_true_iff, !bool_decide_eq_true, !N.ltb_lt. intros [??] [??]. split; [lia|congruence].
  - intros a b. destruct (expires_at a), (expires_at b); try done. rewrite andb_true_iff, bool_decide_eq_true. by intros [].
Qed.

(** ** Runs *)
Notation toy_authorized clock now_time s u identity ability :=
  (authorized_by (Url := ToyUrl) (Cid := string) toy_keys clock now_time s u identity ability).

Lemma gateway_authorizes_only_delegates_witness :
  try_authorize (Url := ToyUrl) toy_keys 4 10 [] (token_of friend_signable) (Ok toy_store) (Ok tt) sphere_did Push = Ok tt /\
  toy_authorized 10%N None toy_store (ucan_of friend_signable) sphere_did Push.
Proof.
  assert (try_authorize (Url := ToyUrl) toy_keys 4 10 [] (token_of friend_signable) (Ok toy_store) (Ok tt) sphere_did Push
    = Ok tt) as E by (vm_compute; reflexivity).
  split; [exact E|].
  destruct (gateway_authorizes_only_delegates (Url := ToyUrl) toy_keys 4 10 [] (token_of friend_signable)
    (Ok toy_store) (Ok tt) sphere_did Push tt E) as (db & s & u & Edb & Ew & Eu & Hauth).
  injection Edb as <-. cbn in Ew. injection Ew as <-.
  assert (ucan_from_str (token_of friend_signable) = Ok (ucan_of friend_signable)) as Eu' by (vm_compute; reflexivity).
  rewrite Eu' in Eu. injection Eu as <-. exact Hauth.
Defined.

(** The authority section of the sphere: every token is a recorded delegation. *)
Definition toy_authority : SphereAuthority string :=
  mkAuthority (fun cid => Ok (Some (mkDelegation "a device" cid))) (fun _ => Ok None) sphere_did.

Lemma write_access_only_for_delegates_witness :
  access_to (Url := ToyUrl) toy_keys 4 4 10 toy_store 3%N (Some (AuthUcan (ucan_of friend_signable))) sphere_did
    (Ok "version") (fun _ => Ok toy_authority) = Ok ReadWrite /\
  (Ok friend_did = Ok sphere_did \/ exists auth u, Some (AuthUcan (ucan_of friend_signable)) = Some auth /\
     as_ucan toy_store auth = Ok u /\ Ok friend_did = Ok (audience u) /\
     toy_authorized 10%N None toy_store u sphere_did Push).
Proof.
  assert (access_to (Url := ToyUrl) toy_keys 4 4 10 toy_store 3%N (Some (AuthUcan (ucan_of friend_signable))) sphere_did
    (Ok "version") (fun _ => Ok toy_authority) = Ok ReadWrite) as E by (vm_compute; reflexivity).
  split; [exact E|].
  exact (write_access_only_for_delegates (Url := ToyUrl) toy_keys 4 4 10 toy_store 3%N
    (Some (AuthUcan (ucan_of friend_signable))) sphere_did (Ok "version") (fun _ => Ok toy_authority) E).
Defined.

Lemma link_record_only_from_delegates_witness :
  link_record_validate (Url := ToyUrl) toy_keys 4 10 toy_store (ucan_of record_signable) = Ok tt /\
  exists cid now_time, get_link (ucan_of record_signable) = Some cid /\
    publish_time (ucan_of record_signable) = Ok now_time /\
    toy_authorized 10%N now_time toy_store (ucan_of record_signable) (audience (ucan_of record_signable)) Publish.
Proof.
  assert (link_record_validate (Url := ToyUrl) toy_keys 4 10 toy_store (ucan_of record_signable) = Ok tt) as E
    by (vm_compute; reflexivity).
  split; [exact E|].
  exact (link_record_only_from_delegates (Url := ToyUrl) toy_keys 4 10 toy_store (ucan_of record_signable) E).
Defined.

Lemma toy_friend_chain : exists c,
  as_proof_chain (Url := ToyUrl) toy_keys 4 10 toy_store (AuthUcan (ucan_of friend_signable)) = Ok c /\ chain_size c <= 4.
Proof. eexists. split; [vm_compute; reflexivity|]. vm_compute. lia. Qed.

Lemma authorizer_iff_issuer_witness :
  exists b c, is_authorizer_of (Url := ToyUrl) toy_keys 4 4 10 toy_store 1%N (AuthUcan (ucan_of friend_signable)) = Ok b /\
    (b = true <-> issued_in c sphere_did).
Proof.
  destruct toy_friend_chain as (c & Ec & Hc).
  destruct (authorizer_iff_issuer (Url := ToyUrl) toy_keys 4 4 10 toy_store 1%N sphere_did
    (AuthUcan (ucan_of friend_signable)) c Ec eq_refl Hc) as (b & E & Hb).
  exists b, c. split; [exact E|exact Hb].
Defined.

Lemma toy_friend_valid : exists c, chain_valid (Url := ToyUrl) (Cid := string) 10 None toy_store
    (key_constructors (did_parser_new toy_keys)) (ucan_of friend_signable) c /\ chain_size c <= 4.
Proof.
  destruct (from_ucan (Url := ToyUrl) (Cid := string) 4 10 None toy_store (ucan_of friend_signable)
    (did_parser_new toy_keys)) as [r p] eqn:E.
  assert (exists c, r = Ok c /\ chain_size c <= 4) as (c & -> & Hc).
  { apply (f_equal fst) in E. cbn in E. rewrite <- E. eexists. split; [vm_compute; reflexivity|]. vm_compute. lia. }
  exists c. split; [|done]. eapply from_ucan_sound; [apply new_parser_ok|exact E].
Qed.

Lemma collected_proofs_are_the_chain_witness :
  exists c us, collect_ucan_proofs (Cid := string) 4 toy_store (ucan_of friend_signable) = Ok us /\
    us ≡ₚ chain_ucan <$> chain_links c.
Proof.
  destruct toy_friend_valid as (c & Hv & Hc). exists c.
  exact (collected_proofs_are_the_chain (Url := ToyUrl) toy_keys 4 10 None toy_store (ucan_of friend_signable) c Hv Hc).
Defined.

(** The sphere revokes the friend's token. *)
Definition toy_revoking_authority : SphereAuthority string :=
  mkAuthority (fun cid => Ok (Some (mkDelegation "a device" cid)))
    (fun cid => Ok (ok_of (revoke cid 1%N))) sphere_did.

Lemma sphere_revocation_ignored_witness :
  verify_authorization (Url := ToyUrl) toy_keys 4 4 10 toy_store (Ok toy_revoking_authority)
    (AuthUcan (ucan_of friend_signable)) = Ok tt.
Proof.
  eapply (sphere_revocation_ignored (Url := ToyUrl) toy_keys 4 4 10 toy_store toy_revoking_authority
    (AuthUcan (ucan_of friend_signable))).
  - vm_compute. reflexivity.
  - vm_compute. reflexivity.
  - vm_compute. reflexivity.
  - reflexivity.
  - reflexivity.
  - reflexivity.
  - apply (bool_decide_unpack (issuer _ <> _)). vm_compute. exact I.
  - lia.
Defined.

Lemma recorded_authorization_verifies_witness :
  verify_authorization (Url := ToyUrl) toy_keys 4 4 10 toy_store (Ok toy_authority)
    (AuthUcan (ucan_of friend_signable)) = Ok tt.
Proof.
  eapply (recorded_authorization_verifies (Url := ToyUrl) toy_keys 4 4 10 toy_store toy_authority
    (AuthUcan (ucan_of friend_signable))).
  - vm_compute. reflexivity.
  - vm_compute. reflexivity.
  - reflexivity.
  - intros c' Hin. apply in_chain_links in Hin. cbn [chain_links flat_map app] in Hin.
    rewrite !elem_of_cons in Hin. destruct Hin as [->|[->|Hin]];
      [eexists _, _; split; [vm_compute; reflexivity|reflexivity]..|by apply not_elem_of_nil in Hin].
  - vm_compute. lia.
Defined.

Lemma sphere_capability_roundtrip_witness :
  parse_capability (Url := ToyUrl) (capability_of_view (Url := ToyUrl) (generate_capability sphere_did Push))
    = Some (generate_capability sphere_did Push).
Proof.
  apply (sphere_capability_roundtrip (Url := ToyUrl) sphere_did Push).
  - vm_compute. reflexivity.
  - apply (bool_decide_unpack (sphere_did <> "*")). vm_compute. exact I.
Defined.
