(* ===== verification/UcanIpld.v ===== *)
(** * Tokens as IPLD

    Model of [noosphere-ucan/src/ipld]: the form of a token that is stored as an IPLD
    block, with DIDs as bytes (principle.rs) and signatures behind a prefix that
    names their algorithm (signature.rs), and the conversions between it and a token
    (ucan.rs).  The variable-length integers are those of a library.

    A token that this implementation signed survives the conversion and back bit for
    bit.  Tokens of another version, and tokens with an empty list of proofs, come
    back with other signed data. *)
From stdpp Require Import base gmap list numbers strings.
From Stdlib Require Import Ascii String.
From S2P Require Import Prelude HamtNode HamtRep BTree BlockStore UcanCapability Ucan UcanChain UcanProofs Instances UcanInstances Authority UcanFixtures.
#[local] Open Scope list_scope.
#[local] Notation length := List.length (only parsing).

(** ** Variable-length integers ([unsigned_varint]) *)
Class Varint := {
  varint_encode : N -> bytes;
  varint_decode : bytes -> option (N * bytes);
}.

(** ** Principals (principle.rs) *)
Definition DID_PREFIX : string := "did:".
Definition DID_IPLD_PREFIX : bytes := [157; 26]%N.

Section principle.
Context `{Bs58}.

Definition principle_from_str (input : string) : outcome bytes :=
  if starts_with DID_KEY_PREFIX input then
    ok_or "bs58 decode error" (bs58_decode (string_drop (String.length DID_KEY_PREFIX) input))
  else if starts_with DID_PREFIX input then
    Ok (DID_IPLD_PREFIX ++ as_bytes (string_drop (String.length DID_PREFIX) input))
  else Err "This is not a DID".

(** [to_string]: an error of the [Display] panics. *)
Definition principle_to_string (principle : bytes) : outcome string :=
  if decide (length principle < 2) then Panic "range end index 2 out of range for slice"
  else if bool_decide (take 2 principle = DID_IPLD_PREFIX) then
    match from_utf8 (drop 2 principle) with
    | Ok did => Ok (DID_PREFIX +:+ did)
    | _ => Panic "a Display implementation returned an error unexpectedly"
    end
  else Ok (DID_KEY_PREFIX +:+ bs58_encode principle).
End principle.

(** ** Signatures (crypto/signature.rs and signature.rs) *)
Inductive JwtSignatureAlgorithm : Type := EdDSA | RS256 | ES256 | ES384 | ES512.

Definition algorithm_to_string (a : JwtSignatureAlgorithm) : string :=
  match a with EdDSA => "EdDSA" | RS256 => "RS256" | ES256 => "ES256" | ES384 => "ES384" | ES512 => "ES512" end.

Definition algorithm_from_str (s : string) : outcome JwtSignatureAlgorithm :=
  ok_or "Matching variant not found"
    (head (filter (fun a => algorithm_to_string a = s) [EdDSA; RS256; ES256; ES384; ES512])).

Inductive VarsigPrefix : Type :=
  | NonStandardSig | ES256KSig | BLS12381G1Sig | BLS12381G2Sig | EdDSASig | ES256Sig | ES384Sig | ES512Sig | RS256Sig | EIP191Sig.

Definition varsig_of_algorithm (a : JwtSignatureAlgorithm) : VarsigPrefix :=
  match a with
  | EdDSA => EdDSASig
  | RS256 => RS256Sig
  | ES256 => ES256Sig
  | ES384 => ES384Sig
  | ES512 => ES512Sig
  end.

Definition algorithm_of_varsig (v : VarsigPrefix) : outcome JwtSignatureAlgorithm :=
  match v with
  | EdDSASig => Ok EdDSA
  | RS256Sig => Ok RS256
  | ES256Sig => Ok ES256
  | ES384Sig => Ok ES384
  | ES512Sig => Ok ES512
  | _ => Err "JWT signature algorithm name is not known"
  end.

Definition varsig_to_u64 (v : VarsigPrefix) : N :=
  match v with
  | NonStandardSig => 0xd000
  | ES256KSig => 0xd0e7
  | BLS12381G1Sig => 0xd0ea
  | BLS12381G2Sig => 0xd0eb
  | EdDSASig => 0xd0ed
  | ES256Sig => 0xd01200
  | ES384Sig => 0xd01201
  | ES512Sig => 0xd01202
  | RS256Sig => 0xd01205
  | EIP191Sig => 0xd191
  end.

Definition varsig_of_u64 (value : N) : outcome VarsigPrefix :=
  match value with
  | 0xd0ed => Ok EdDSASig
  | 0xd01205 => Ok RS256Sig
  | 0xd0e7 => Ok ES256KSig
  | 0xd0ea => Ok BLS12381G1Sig
  | 0xd0eb => Ok BLS12381G2Sig
  | 0xd191 => Ok EIP191Sig
  | 0xd01200 => Ok ES256Sig
  | 0xd01201 => Ok ES384Sig
  | 0xd01202 => Ok ES512Sig
  | 0xd000 => Ok NonStandardSig
  | _ => Err "Signature does not have a recognized prefix"
  end%N.

Section signature.
Context `{Varint}.

Definition signature_encode (algorithm : JwtSignatureAlgorithm) (signature : bytes) : bytes :=
  varint_encode (varsig_to_u64 (varsig_of_algorithm algorithm)) ++ varint_encode (N.of_nat (length signature)) ++ signature.

Definition signature_decode (buffer : bytes) : outcome (JwtSignatureAlgorithm * bytes) :=
  let? (prefix, buffer) := ok_or "varint" (varint_decode buffer) in
  let? (signature_length, buffer) := ok_or "varint" (varint_decode buffer) in
  let? prefix := varsig_of_u64 prefix in
  let? algorithm := algorithm_of_varsig prefix in
  if decide (signature_length <= N.of_nat (length buffer))%N then Ok (algorithm, take (N.to_nat signature_length) buffer)
  else Panic "range end index out of range for slice".
End signature.

(** ** Tokens (ucan.rs) *)
Record UcanIpld (Cid : Type) := mkUcanIpld {
  ipld_v : string;
  ipld_iss : bytes;
  ipld_aud : bytes;
  ipld_s : bytes;
  ipld_cap : Capabilities;
  ipld_prf : option (list Cid);
  ipld_exp : option N;
  ipld_fct : option FactsMap;
  ipld_nnc : option string;
  ipld_nbf : option N;
}.
Arguments mkUcanIpld {Cid} _ _ _ _ _ _ _ _ _ _.
Arguments ipld_v {Cid} _.
Arguments ipld_iss {Cid} _.
Arguments ipld_aud {Cid} _.
Arguments ipld_s {Cid} _.
Arguments ipld_cap {Cid} _.
Arguments ipld_prf {Cid} _.
Arguments ipld_exp {Cid} _.
Arguments ipld_fct {Cid} _.
Arguments ipld_nnc {Cid} _.
Arguments ipld_nbf {Cid} _.

Section ucan_ipld.
Context {Cid : Type} `{CidOps Cid} `{Varint} `{Bs58} `{Base64} `{DagJson UcanHeader} `{DagJson UcanPayload}.

Definition ipld_of_ucan (u : Ucan) : outcome (UcanIpld Cid) :=
  let? prf :=
    match proofs u with
    | Some proofs =>
        let? prf := try_map cid_of_string proofs in
        match prf with
        | [] => Ok None
        | _ => Ok (Some prf)
        end
    | None => Ok None
    end in
  let? iss := principle_from_str (issuer u) in
  let? aud := principle_from_str (audience u) in
  let? algorithm := algorithm_from_str (alg (header u)) in
  Ok (mkUcanIpld (ucv (payload u)) iss aud (signature_encode algorithm (signature u)) (cap (payload u)) prf
        (exp (payload u)) (fct (payload u)) (nnc (payload u)) (nbf (payload u))).

Definition ucan_of_ipld (value : UcanIpld Cid) : outcome Ucan :=
  let? (algorithm, signature) := signature_decode (ipld_s value) in
  let header := mkHeader (algorithm_to_string algorithm) "JWT" in
  let? iss := principle_to_string (ipld_iss value) in
  let? aud := principle_to_string (ipld_aud value) in
  let payload :=
    mkPayload UCAN_VERSION iss aud (ipld_exp value) (ipld_nbf value) (ipld_nnc value) (ipld_cap value) (ipld_fct value)
      (fmap (M := list) cid_to_string <$> ipld_prf value) in
  let? header_base64 := jwt_base64_encode header in
  let? payload_base64 := jwt_base64_encode payload in
  Ok (mkUcan header payload (as_bytes (header_base64 +:+ "." +:+ payload_base64)) signature).
End ucan_ipld.

(** ** Facts *)
Class VarintLaws `{Varint} :=
  varint_roundtrip : forall n rest, (n < 2 ^ 64)%N -> varint_decode (varint_encode n ++ rest) = Some (n, rest).

Class Bs58Laws `{Bs58} := bs58_roundtrip : forall b, bs58_decode (bs58_encode b) = Some b.

Lemma substring_full s : String.substring 0 (String.length s) s = s.
Proof. induction s as [|a s IH]; [done|]. cbn. by rewrite IH. Qed.

Lemma starts_with_app p s : starts_with p (p +:+ s) = true.
Proof.
  unfold starts_with. apply bool_decide_eq_true. induction p as [|a p IH]; [by destruct s|].
  change (String a p +:+ s) with (String a (p +:+ s)). cbn [String.length String.substring]. by rewrite IH.
Qed.

Lemma string_append_length p s : String.length (p +:+ s) = String.length p + String.length s.
Proof. induction p as [|a p IH]; [done|]. change (String a p +:+ s) with (String a (p +:+ s)). cbn. by rewrite IH. Qed.

Lemma string_drop_app p s : string_drop (String.length p) (p +:+ s) = s.
Proof.
  unfold string_drop. assert (String.length (p +:+ s) - String.length p = String.length s) as -> by (rewrite string_append_length; lia).
  induction p as [|a p IH]; [apply substring_full|]. change (String a p +:+ s) with (String a (p +:+ s)). exact IH.
Qed.

Section facts.
Context `{Bs58Laws} `{VarintLaws}.

(** The DIDs that have one form as bytes: keys by two or more bytes that do not begin
    like a DID of another method, and DIDs of other methods. *)
Inductive canonical_did : string -> Prop :=
  | canonical_key b : 2 <= length b -> take 2 b <> DID_IPLD_PREFIX -> canonical_did (DID_KEY_PREFIX +:+ bs58_encode b)
  | canonical_other d : starts_with DID_KEY_PREFIX (DID_PREFIX +:+ d) = false -> utf8_valid (as_bytes d) = true ->
      canonical_did (DID_PREFIX +:+ d).

Lemma principle_roundtrip did : canonical_did did -> exists p, principle_from_str did = Ok p /\ principle_to_string p = Ok did.
Proof.
  destruct 1 as [b Hb Hp|d Hk Hu]; unfold principle_from_str.
  - rewrite starts_with_app, string_drop_app, bs58_roundtrip. exists b. split; [done|].
    unfold principle_to_string. rewrite decide_False by lia. by rewrite bool_decide_false.
  - rewrite Hk, starts_with_app, string_drop_app. eexists. split; [done|].
    unfold principle_to_string. rewrite decide_False by (cbn; lia). rewrite bool_decide_true by done.
    change (drop 2 (DID_IPLD_PREFIX ++ as_bytes d)) with (as_bytes d). unfold from_utf8. by rewrite Hu, string_of_as_bytes.
Qed.

Lemma algorithm_roundtrip a : algorithm_from_str (algorithm_to_string a) = Ok a.
Proof. by destruct a. Qed.

Lemma algorithm_from_str_inv s a : algorithm_from_str s = Ok a -> algorithm_to_string a = s.
Proof.
  unfold algorithm_from_str. destruct (head _) as [b|] eqn:E; [|done]. intros [= ->].
  apply head_Some_elem_of, list_elem_of_filter in E. by destruct E.
Qed.

Lemma varsig_roundtrip a : (let? v := varsig_of_u64 (varsig_to_u64 (varsig_of_algorithm a)) in algorithm_of_varsig v) = Ok a.
Proof. by destruct a. Qed.

Lemma signature_roundtrip a sig : (N.of_nat (length sig) < 2 ^ 64)%N -> signature_decode (signature_encode a sig) = Ok (a, sig).
Proof.
  intros Hl. unfold signature_decode, signature_encode. rewrite varint_roundtrip by (by destruct a). cbn [ok_or outcome_bind].
  rewrite varint_roundtrip by done. cbn [ok_or outcome_bind]. pose proof (varsig_roundtrip a) as Hv.
  destruct (varsig_of_u64 _) as [v| | |]; try done. cbn [outcome_bind] in *. rewrite Hv. cbn [outcome_bind].
  rewrite decide_True by done. rewrite Nat2N.id. by rewrite firstn_all.
Qed.
End facts.

Section tokens.
Context {Key Cid : Type} `{KeyMaterial Key} `{CidLaws Cid} `{VarintLaws} `{Bs58Laws} `{Base64Laws} `{DagJsonLaws UcanHeader} `{DagJsonLaws UcanPayload}.
Implicit Types (u : Ucan).

(** What a token becomes on the way: the version of this implementation, and no empty
    list of proofs. *)
Definition normal_proofs (ps : option (list string)) : option (list string) := match ps with Some [] => None | _ => ps end.

Definition normal_payload (p : UcanPayload) : UcanPayload :=
  mkPayload UCAN_VERSION (iss p) (aud p) (exp p) (nbf p) (nnc p) (cap p) (fct p) (normal_proofs (prf p)).

Definition normal_header (h : UcanHeader) : UcanHeader := mkHeader (alg h) "JWT".

(** A token that has an IPLD form which says the same. *)
Record convertible u : Prop := {
  convertible_alg : exists a, algorithm_from_str (alg (header u)) = Ok a;
  convertible_issuer : canonical_did (issuer u);
  convertible_audience : canonical_did (audience u);
  convertible_proofs : forall ps, proofs u = Some ps -> exists cids : list Cid, ps = cid_to_string <$> cids;
  convertible_signature : (N.of_nat (length (signature u)) < 2 ^ 64)%N;
}.

Lemma cids_of_strings (cids : list Cid) : try_map cid_of_string (cid_to_string <$> cids) = Ok cids.
Proof. apply try_map_Forall2. induction cids; constructor; [apply cid_of_to_string|done]. Qed.

Lemma ipld_roundtrip u : convertible u ->
  exists i : UcanIpld Cid, ipld_of_ucan u = Ok i /\
    ucan_of_ipld i = let? h := jwt_base64_encode (normal_header (header u)) in let? p := jwt_base64_encode (normal_payload (payload u)) in
      Ok (mkUcan (normal_header (header u)) (normal_payload (payload u)) (as_bytes (h +:+ "." +:+ p)) (signature u)).
Proof.
  intros [[a Ha] Hi Hau Hp Hs].
  destruct (principle_roundtrip _ Hi) as (pi & Ei & Di). destruct (principle_roundtrip _ Hau) as (pa & Ea & Da).
  assert (exists prf : option (list Cid), (match proofs u with
      | Some proofs => let? prf := try_map cid_of_string proofs in match prf with [] => Ok None | _ => Ok (Some prf) end
      | None => Ok None end) = Ok prf /\ fmap (M := list) cid_to_string <$> prf = normal_proofs (proofs u)) as (prf & Ep & Dp).
  { destruct (proofs u) as [ps|] eqn:E; [|by exists None]. destruct (Hp ps eq_refl) as [cids ->]. rewrite cids_of_strings. cbn [outcome_bind].
    destruct cids as [|c cids]; [by exists None|by exists (Some (c :: cids))]. }
  eexists. unfold ipld_of_ucan. rewrite Ep. cbn [outcome_bind]. rewrite Ei. cbn [outcome_bind]. rewrite Ea. cbn [outcome_bind]. rewrite Ha.
  cbn [outcome_bind]. split; [done|]. unfold ucan_of_ipld. cbn [ipld_s ipld_iss ipld_aud ipld_exp ipld_nbf ipld_nnc ipld_cap ipld_fct ipld_prf].
  rewrite (signature_roundtrip _ _ Hs). cbn [outcome_bind]. rewrite Di. cbn [outcome_bind]. rewrite Da. cbn [outcome_bind].
  rewrite Dp, (algorithm_from_str_inv _ _ Ha). done.
Qed.

Lemma jwt_inj {T} `{DagJsonLaws T} (x y : T) t : jwt_base64_encode x = Ok t -> jwt_base64_encode y = Ok t -> x = y.
Proof.
  intros Hx Hy. destruct (jwt_base64_decode _ _ Hx) as (b & Db & Jb & _). destruct (jwt_base64_decode _ _ Hy) as (b' & Db' & Jb' & _). congruence.
Qed.

(** The signed data says what the header and the payload are. *)
Lemma signed_data_inj h p h' p' th tp th' tp' :
  jwt_base64_encode h = Ok th -> jwt_base64_encode p = Ok tp -> jwt_base64_encode h' = Ok th' -> jwt_base64_encode p' = Ok tp' ->
  as_bytes (th +:+ "." +:+ tp) = as_bytes (th' +:+ "." +:+ tp') -> (h : UcanHeader) = h' /\ (p : UcanPayload) = p'.
Proof.
  intros Eh Ep Eh' Ep' E. destruct (jwt_base64_decode _ _ Eh) as (_ & _ & _ & Fh). destruct (jwt_base64_decode _ _ Ep) as (_ & _ & _ & Fp).
  destruct (jwt_base64_decode _ _ Eh') as (_ & _ & _ & Fh'). destruct (jwt_base64_decode _ _ Ep') as (_ & _ & _ & Fp').
  apply (f_equal string_of_bytes) in E. rewrite !string_of_as_bytes in E. apply (f_equal (split_on ".")) in E.
  change ("." +:+ tp) with (String "." tp) in E. change ("." +:+ tp') with (String "." tp') in E.
  rewrite (split_on_app "." th _ Fh), (split_on_app "." th' _ Fh'), (split_on_free "." _ Fp), (split_on_free "." _ Fp') in E.
  injection E as -> ->. split; by eapply jwt_inj.
Qed.

(** A token that is signed here, for DIDs that have one form as bytes and with CIDs
    for its proofs, has an IPLD form, which converts back to the very token: to the
    same JWT, with the same signed data and signature. *)
Theorem signed_token_survives_ipld rng (sg : Signable Key) u a (cids : list Cid) : sign rng sg = Ok u ->
  algorithm_from_str (get_jwt_algorithm_name (s_issuer sg)) = Ok a -> canonical_did (issuer u) -> canonical_did (s_audience sg) ->
  s_proofs sg = cid_to_string <$> cids -> (N.of_nat (length (signature u)) < 2 ^ 64)%N ->
  exists i : UcanIpld Cid, ipld_of_ucan u = Ok i /\ ucan_of_ipld i = Ok u.
Proof.
  intros Hsign Ha Hi Hau Hp Hs.
  assert (header u = ucan_header sg /\ ucv (payload u) = UCAN_VERSION) as [Hh Hv].
  { revert Hsign. unfold sign, ucan_payload. destruct (get_did (s_issuer sg)); cbn [outcome_bind expect]; try done.
    destruct (capabilities_of_vec _); cbn [outcome_bind expect]; try done. destruct (jwt_base64_encode (ucan_header sg)); cbn [outcome_bind]; try done.
    destruct (jwt_base64_encode (T := UcanPayload) _); cbn [outcome_bind]; try done. destruct (key_sign _ _); cbn [outcome_bind]; try done. by intros [= <-]. }
  destruct (sign_inv _ _ _ Hsign) as ((h & p & Eh & Ep & Hd) & _ & _ & _ & _ & Haud & Hpr & _).
  destruct (ipld_roundtrip u) as (i & E & D).
  { split; [exists a; by rewrite Hh|done|by rewrite Haud| |done]. intros ps Hps. exists cids. rewrite Hpr in Hps.
    case_bool_decide; [done|]. injection Hps as <-. done. }
  exists i. split; [done|]. rewrite D.
  assert (normal_header (header u) = header u) as -> by (by rewrite Hh).
  assert (normal_payload (payload u) = payload u) as ->.
  { unfold normal_payload. rewrite <- Hv. assert (normal_proofs (prf (payload u)) = prf (payload u)) as ->; [|by destruct (payload u)].
    change (prf (payload u)) with (proofs u). rewrite Hpr. case_bool_decide as E0; [done|]. by destruct (s_proofs sg). }
  rewrite Eh. cbn [outcome_bind]. rewrite Ep. cbn [outcome_bind]. rewrite <- Hd. by destruct u.
Qed.

(** A token of another version of the protocol, or whose list of proofs is present
    and empty, does not survive its IPLD form: it comes back with other signed data
    under the same signature. *)
Theorem foreign_token_altered u (i : UcanIpld Cid) u' : signed_data_wf u -> convertible u ->
  ucv (payload u) <> UCAN_VERSION \/ proofs u = Some [] ->
  ipld_of_ucan u = Ok i -> ucan_of_ipld i = Ok u' -> signature u' = signature u /\ signed_data u' <> signed_data u.
Proof.
  intros (h & p & Eh & Ep & Hd) Hc Hf E D. destruct (ipld_roundtrip u Hc) as (i' & E' & D'). assert (i' = i) as -> by congruence.
  rewrite D in D'. destruct (jwt_base64_encode (normal_header (header u))) as [h'| | |] eqn:Eh'; cbn [outcome_bind] in D'; try done.
  destruct (jwt_base64_encode (normal_payload (payload u))) as [p'| | |] eqn:Ep'; cbn [outcome_bind] in D'; try done.
  injection D' as ->. split; [done|]. cbn [signed_data]. rewrite Hd. intros Hsame.
  destruct (signed_data_inj _ _ _ _ _ _ _ _ Eh' Ep' Eh Ep Hsame) as [_ Hpl].
  destruct Hf as [Hf|Hf]; [apply Hf; by rewrite <- Hpl|]. unfold proofs in Hf. rewrite <- Hpl in Hf. cbn [normal_payload prf] in Hf.
  destruct (prf (payload u)) as [[|]|]; done.
Qed.
End tokens.

(** ** Runs *)

(** LEB128. *)
Fixpoint leb128_encode (fuel : nat) (n : N) : bytes :=
  match fuel with
  | O => [n]
  | S fuel => if (n <? 128)%N then [n] else (n mod 128 + 128)%N :: leb128_encode fuel (n / 128)
  end.

Fixpoint leb128_decode (b : bytes) : option (N * bytes) :=
  match b with
  | [] => None
  | x :: b =>
      if (x <? 128)%N then Some (x, b)
      else match leb128_decode b with Some (n, rest) => Some (x - 128 + 128 * n, rest)%N | None => None end
  end.

#[local] Instance leb128 : Varint := { varint_encode := leb128_encode 10; varint_decode := leb128_decode }.

Lemma leb128_roundtrip fuel n rest : (n < 128 ^ N.of_nat (S fuel))%N -> leb128_decode (leb128_encode fuel n ++ rest) = Some (n, rest).
Proof.
  revert n. induction fuel as [|fuel IH]; intros n Hn; cbn [leb128_encode].
  - cbn [app leb128_decode]. by rewrite (proj2 (N.ltb_lt _ _)).
  - destruct (N.ltb_spec n 128) as [Hl|Hl]; cbn [app leb128_decode]; [by rewrite (proj2 (N.ltb_lt _ _))|].
    rewrite (proj2 (N.ltb_ge (n mod 128 + 128) 128)) by apply N.le_add_l. rewrite IH.
    + do 2 f_equal. rewrite N.add_sub, N.add_comm. symmetry. by apply N.div_mod.
    + rewrite (Nat2N.inj_succ (S fuel)), N.pow_succ_r' in Hn. apply N.Div0.div_lt_upper_bound. exact Hn.
Qed.

#[local] Instance leb128_laws : VarintLaws.
Proof. intros n rest Hn. apply leb128_roundtrip. etransitivity; [exact Hn|]. vm_compute. reflexivity. Qed.

#[local] Instance toy_bs58_laws : Bs58Laws := toy_decode_encode.

(** A token with a proof, one with a list of no proofs, and what becomes of that. *)
Definition proof_cid : ToyCid := derive_cid RAW [7%N].
Definition linked_signable : Signable N := mkSignable 2%N friend_did (claim [(sphere_did, Push)]) (Some 90%N) None [] [cid_to_string proof_cid] false.

Definition empty_proofs_payload : UcanPayload :=
  mkPayload UCAN_VERSION sphere_did owner_did (Some 100%N) None None (mkCapabilities []) None (Some []).

#[local] Instance ipld_payload_json : DagJson UcanPayload :=
  table_json (empty_proofs_payload :: normal_payload empty_proofs_payload :: option_list (ok_of (ucan_payload [] linked_signable))).
#[local] Instance ipld_payload_json_laws : DagJsonLaws UcanPayload := table_json_laws _.

Definition linked_ucan : Ucan := match sign [] linked_signable with Ok u => u | _ => dummy_ucan end.

Lemma toy_did_canonical k : canonical_did (toy_did k).
Proof. constructor; [cbn; lia|done]. Qed.

Lemma signed_token_survives_ipld_witness :
  exists i : UcanIpld ToyCid, ipld_of_ucan linked_ucan = Ok i /\ ucan_of_ipld i = Ok linked_ucan /\ ipld_prf i = Some [proof_cid].
Proof.
  destruct (signed_token_survives_ipld [] linked_signable linked_ucan EdDSA [proof_cid]) as (i & E & D).
  - vm_compute. reflexivity.
  - reflexivity.
  - exact (toy_did_canonical 2).
  - exact (toy_did_canonical 3).
  - reflexivity.
  - vm_compute. reflexivity.
  - exists i. split; [exact E|]. split; [exact D|]. vm_compute in E. by injection E as <-.
Defined.

Definition empty_proofs_ucan : Ucan :=
  let h := mkHeader "EdDSA" "JWT" in
  mkUcan h empty_proofs_payload
    (match jwt_base64_encode h, jwt_base64_encode empty_proofs_payload with
     | Ok h, Ok p => as_bytes (h +:+ "." +:+ p)
     | _, _ => []
     end) [1%N].

Lemma foreign_token_altered_witness :
  exists (i : UcanIpld ToyCid) u', ipld_of_ucan empty_proofs_ucan = Ok i /\ ucan_of_ipld i = Ok u' /\
    signature u' = signature empty_proofs_ucan /\ signed_data u' <> signed_data empty_proofs_ucan.
Proof.
  eexists _, _. split; [vm_compute; reflexivity|]. split; [vm_compute; reflexivity|].
  eapply (foreign_token_altered empty_proofs_ucan).
  - eexists _, _. split; [reflexivity|]. split; reflexivity.
  - split; [by exists EdDSA|exact (toy_did_canonical 1)|exact (toy_did_canonical 2)| |vm_compute; reflexivity]. intros ps [= <-]. by exists [].
  - by right.
  - vm_compute. reflexivity.
  - vm_compute. reflexivity.
Defined.

(** A signature that is shorter than it says, and a principal of one byte, panic. *)
Example short_signature_panics : signature_decode (varint_encode (varsig_to_u64 EdDSASig) ++ varint_encode 64 ++ [1; 2]%N) = Panic "range end index out of range for slice".
Proof. vm_compute. reflexivity. Qed.

Example short_principle_panics : (let? p := principle_from_str (DID_KEY_PREFIX +:+ toy_encode [1%N]) in principle_to_string p) = Panic "range end index 2 out of range for slice".
Proof. vm_compute. reflexivity. Qed.
