(* ===== verification/KeyStorage.v ===== *)
(** * Paths, key files and where spheres are stored

    Model of [noosphere/src/key/interface.rs] and [insecure.rs], in which every key
    is kept as two files, its mnemonic and its DID, of [noosphere/src/storage.rs],
    the layout of the storage of spheres, and of the conversions between keys and
    mnemonics (noosphere-core/src/authority/key_material.rs).

    A [PathBuf] is the list of its components, by which Rust compares paths.  A file
    system is a set of directories and a map of text files, without symbolic links
    and permissions.  The word lists of mnemonics and the arithmetic of keys belong
    to libraries.

    With names that have no separator and no dot, the key storage is a map: it keeps
    the first key of each name and lists the DIDs of all.  Names that differ only
    after their last dot share one key. *)
From stdpp Require Import base gmap list numbers strings.
From Stdlib Require Import Ascii String.
From S2P Require Import Prelude BlockStore HamtNode HamtRep BTree UcanCapability Ucan UcanChain UcanProofs Instances UcanInstances.
#[local] Open Scope list_scope.
#[local] Notation length := List.length (only parsing).

(** ** Paths ([std::path]) *)
Notation PathBuf := (list string).

Definition components (path : string) : PathBuf :=
  let parts := filter (fun part => part <> "" /\ part <> ".") (split_on "/" path) in
  if starts_with "/" path then "/" :: parts else parts.

(** An absolute path replaces what it is joined to. *)
Definition path_join (path : PathBuf) (other : string) : PathBuf :=
  if starts_with "/" other then components other else path ++ components other.

(** The last component, if it is a name. *)
Definition file_name (path : PathBuf) : option string :=
  match last path with
  | Some name => if bool_decide (name = "/") || bool_decide (name = "..") then None else Some name
  | None => None
  end.

Fixpoint rsplit_dot (s : string) : option (string * string) :=
  match s with
  | EmptyString => None
  | String a s' =>
      match rsplit_dot s' with
      | Some (before, after) => Some (String a before, after)
      | None => if Ascii.eqb a "." then Some (EmptyString, s') else None
      end
  end.

(** What is before and after the last dot of a name, which does not begin it. *)
Definition split_extension (name : string) : string * option string :=
  match rsplit_dot name with
  | Some (before, after) => if bool_decide (before = "") then (name, None) else (before, Some after)
  | None => (name, None)
  end.

Definition file_stem (path : PathBuf) : option string := (fun name => (split_extension name).1) <$> file_name path.
Definition extension (path : PathBuf) : option string := file_name path ≫= fun name => (split_extension name).2.

Definition with_extension (path : PathBuf) (ext : string) : PathBuf :=
  match file_stem path with
  | Some stem => take (pred (length path)) path ++ [if bool_decide (ext = "") then stem else stem +:+ "." +:+ ext]
  | None => path
  end.

(** Where a path leads: a parent component goes one up. *)
Definition resolve_path (path : PathBuf) : PathBuf :=
  foldl (fun at_path name =>
    if bool_decide (name = "..") then
      match last at_path with
      | None | Some ".." => at_path ++ [name]
      | Some "/" => at_path
      | Some _ => take (pred (length at_path)) at_path
      end
    else at_path ++ [name]) [] path.

(** ** Files *)
Record FileSystem := mkFs { fs_directories : gset PathBuf; fs_files : gmap PathBuf string }.

Definition is_directory (fs : FileSystem) (path : PathBuf) : bool :=
  bool_decide (path = [] \/ path = ["/"] \/ path ∈ fs_directories fs).

Definition path_exists (fs : FileSystem) (path : PathBuf) : bool :=
  is_directory fs (resolve_path path) || bool_decide (is_Some (fs_files fs !! resolve_path path)).

Definition read_to_string (fs : FileSystem) (path : PathBuf) : outcome string :=
  ok_or "No such file or directory" (fs_files fs !! resolve_path path).

Definition fs_write (fs : FileSystem) (path : PathBuf) (contents : string) : outcome unit * FileSystem :=
  let path := resolve_path path in
  if is_directory fs path then (Err "Is a directory", fs)
  else if is_directory fs (take (pred (length path)) path)
  then (Ok tt, mkFs (fs_directories fs) (<[path := contents]> (fs_files fs)))
  else (Err "No such file or directory", fs).

Definition prefixes (path : PathBuf) : list PathBuf := (fun n => take n path) <$> seq 1 (length path).

Definition create_dir_all (fs : FileSystem) (path : PathBuf) : outcome unit * FileSystem :=
  let path := resolve_path path in
  if existsb (fun p => bool_decide (is_Some (fs_files fs !! p))) (prefixes path) then (Err "Not a directory", fs)
  else (Ok tt, mkFs (list_to_set (prefixes path) ∪ fs_directories fs) (fs_files fs)).

(** ** Mnemonics (key_material.rs) *)
Class Bip39 := {
  mnemonic_entropy : string -> outcome bytes;
  mnemonic_of_entropy : bytes -> outcome string;
}.

Class Ed25519 (Key : Type) := {
  private_key : Key -> option bytes;
  key_of_private : bytes -> outcome Key;
}.

Section mnemonics.
Context {Key : Type} `{Bip39} `{!Ed25519 Key}.

Definition restore_ed25519_key (mnemonic : string) : outcome Key :=
  let? entropy := mnemonic_entropy mnemonic in key_of_private entropy.

Definition ed25519_key_to_mnemonic (key_material : Key) : outcome string :=
  match private_key key_material with
  | Some private_key => mnemonic_of_entropy private_key
  | None => Err "A mnemonic can only be generated for the key material if a private key is configured"
  end.
End mnemonics.

(** ** Key storage (interface.rs) *)
Class KeyStorage (K Key : Type) := read_key : K -> string -> outcome (option Key).

Definition storage_require_key {K Key} `{!KeyStorage K Key} (keys : K) (name : string) : outcome Key :=
  let? found := read_key keys name in
  match found with
  | Some key => Ok key
  | None => Err ("No key named " +:+ name +:+ " found!")
  end.

(** ** Keys in files (insecure.rs) *)
Record InsecureKeyStorage := mkInsecure { key_storage_path : PathBuf }.

Section insecure.
Context {Key : Type} `{KeyMaterial Key} `{Bip39} `{!Ed25519 Key}.
Implicit Types (fs : FileSystem) (self : InsecureKeyStorage).

Definition insecure_new (global_storage_path : PathBuf) fs : outcome InsecureKeyStorage * FileSystem :=
  let storage_path := path_join global_storage_path "keys" in
  let '(r, fs) := create_dir_all fs storage_path in
  let? _ := r keeping fs in (Ok (mkInsecure storage_path), fs).

Definition public_key_path self name : PathBuf := with_extension (path_join (key_storage_path self) name) "public".
Definition private_key_path self name : PathBuf := with_extension (path_join (key_storage_path self) name) "private".

(** The entries of a directory: the path that it is read by, with each name in it. *)
Definition names_in fs (directory : PathBuf) : list string :=
  omap (fun p => if bool_decide (take (pred (length p)) p = directory) then last p else None)
    (elements (fs_directories fs) ++ (map_to_list (fs_files fs)).*1).

Definition read_dir fs (path : PathBuf) : outcome (list PathBuf) :=
  if is_directory fs (resolve_path path) then Ok ((fun name => path ++ [name]) <$> names_in fs (resolve_path path))
  else Err "No such file or directory".

Definition discover fs (key_path : PathBuf) (discovered : gmap string string) : outcome unit * gmap string string :=
  match file_stem key_path, extension key_path with
  | Some key_name, Some "public" =>
      let? did := read_to_string fs key_path keeping discovered in
      (Ok tt, <[key_name := did]> discovered)
  | _, _ => (Ok tt, discovered)
  end.

Definition get_discoverable_keys self fs : outcome (gmap string string) :=
  let? directory := read_dir fs (key_storage_path self) in
  let '(r, discovered) := for_each_st (discover fs) directory ∅ in
  let? _ := r in Ok discovered.

Definition insecure_read_key self fs name : outcome (option Key) :=
  let private_key_path := private_key_path self name in
  if negb (path_exists fs private_key_path) then Ok None
  else
    let? mnemonic := read_to_string fs private_key_path in
    let? key_pair := restore_ed25519_key mnemonic in
    Ok (Some key_pair).

(** [generated] is the key of [generate_ed25519_key]; both files are written at a
    time, so that the failure of one does not prevent the other. *)
Definition insecure_create_key (generated : Key) self fs name : outcome Key * FileSystem :=
  let? existing := insecure_read_key self fs name keeping fs in
  match existing with
  | Some key_pair => (Ok key_pair, fs)
  | None =>
      let? mnemonic := ed25519_key_to_mnemonic generated keeping fs in
      let? did := get_did generated keeping fs in
      let '(r_private, fs) := fs_write fs (private_key_path self name) mnemonic in
      let '(r_public, fs) := fs_write fs (public_key_path self name) did in
      let? _ := r_private keeping fs in
      let? _ := r_public keeping fs in
      (Ok generated, fs)
  end.

#[export] Instance insecure_key_storage : KeyStorage (InsecureKeyStorage * FileSystem) Key :=
  fun keys name => insecure_read_key keys.1 keys.2 name.
End insecure.

(** ** Where a sphere is stored (storage.rs) *)
Inductive StorageLayout : Type :=
  | ScopedLayout (path : PathBuf) (scope : string)
  | UnscopedLayout (path : PathBuf).

Definition get_scoped_path (path : PathBuf) (scope : string) : PathBuf := path_join path scope.

Definition layout_path (layout : StorageLayout) : PathBuf :=
  match layout with
  | ScopedLayout path scope => get_scoped_path path scope
  | UnscopedLayout path => path_join path ".sphere/storage"
  end.

(** ** Facts *)
Class Bip39Laws `{Bip39} := mnemonic_roundtrip : forall b m, mnemonic_of_entropy b = Ok m -> mnemonic_entropy m = Ok b.
Class Ed25519Laws (Key : Type) `{!Ed25519 Key} := private_roundtrip : forall (k : Key) b, private_key k = Some b -> key_of_private b = Ok k.

Lemma restore_mnemonic {Key} `{Bip39Laws} `{Ed25519Laws Key} (k : Key) m : ed25519_key_to_mnemonic k = Ok m -> restore_ed25519_key m = Ok k.
Proof.
  unfold ed25519_key_to_mnemonic, restore_ed25519_key. destruct (private_key k) as [b|] eqn:Hb; [|done]. intros Hm.
  rewrite (mnemonic_roundtrip _ _ Hm). cbn [outcome_bind]. by apply private_roundtrip.
Qed.

(** Names that are one component without an extension. *)
Definition plain_name (n : string) : Prop := n <> "" /\ free_of "/" n /\ free_of "." n.

Lemma free_of_cons c a s : free_of c (String a s) <-> a <> c /\ free_of c s.
Proof. unfold free_of. cbn. rewrite andb_true_iff, negb_true_iff. rewrite Ascii.eqb_neq. done. Qed.

Lemma free_of_app c s t : free_of c (s +:+ t) <-> free_of c s /\ free_of c t.
Proof.
  induction s as [|a s IH]; [cbn; unfold free_of; cbn; tauto|]. change (String a s +:+ t) with (String a (s +:+ t)).
  rewrite !free_of_cons, IH. tauto.
Qed.

Lemma rsplit_free n : free_of "." n -> rsplit_dot n = None.
Proof.
  induction n as [|a n IH]; [done|]. rewrite free_of_cons. intros [Ha Hn]. cbn. rewrite (IH Hn). by destruct (Ascii.eqb_spec a ".").
Qed.

Lemma rsplit_app n ext : free_of "." ext -> rsplit_dot (n +:+ "." +:+ ext) = Some (n, ext).
Proof.
  intros He. induction n as [|a n IH]; [change (rsplit_dot (String "." ext) = Some ("", ext)); cbn [rsplit_dot]; by rewrite (rsplit_free ext He)|].
  change (String a n +:+ "." +:+ ext) with (String a (n +:+ "." +:+ ext)). cbn [rsplit_dot]. by rewrite IH.
Qed.

Lemma split_extension_app n ext : n <> "" -> free_of "." ext -> split_extension (n +:+ "." +:+ ext) = (n, Some ext).
Proof. intros Hn He. unfold split_extension. rewrite (rsplit_app n ext He). by rewrite bool_decide_false. Qed.

(** The components of a path that is one name. *)
Definition one_component (n : string) : Prop := n <> "" /\ n <> "." /\ n <> ".." /\ free_of "/" n.

Lemma components_one n : one_component n -> components n = [n] /\ starts_with "/" n = false.
Proof.
  intros (Hn & Hd & _ & Hf). assert (starts_with "/" n = false) as Hs.
  { unfold starts_with. apply bool_decide_eq_false. destruct n as [|a n]; [done|]. apply free_of_cons in Hf as [Ha _]. cbn.
    by intros [= E]. }
  split; [|done]. unfold components. rewrite Hs, (split_on_free "/" n Hf). by rewrite filter_cons_True.
Qed.

Lemma join_one path n : one_component n -> path_join path n = path ++ [n].
Proof. intros Hn. destruct (components_one n Hn) as [Hc Hs]. unfold path_join. by rewrite Hs, Hc. Qed.

Lemma one_not_root n : one_component n -> n <> "/".
Proof. by intros (_ & _ & _ & Hf) ->. Qed.

Lemma file_name_app path n : one_component n -> file_name (path ++ [n]) = Some n.
Proof.
  intros Hn. unfold file_name. rewrite last_snoc. pose proof (one_not_root n Hn). destruct Hn as (_ & _ & Hp & _).
  by rewrite !bool_decide_false.
Qed.

Lemma with_extension_app path n stem ext : one_component n -> (split_extension n).1 = stem -> ext <> "" ->
  with_extension (path ++ [n]) ext = path ++ [stem +:+ "." +:+ ext].
Proof.
  intros Hn <- He. unfold with_extension, file_stem. rewrite (file_name_app path n Hn). cbn [fmap option_fmap option_map].
  rewrite length_app. cbn. rewrite Nat.add_1_r. cbn [pred]. rewrite take_app_length. by rewrite bool_decide_false.
Qed.

Lemma resolve_snoc path n : n <> ".." -> resolve_path (path ++ [n]) = resolve_path path ++ [n].
Proof. intros Hn. unfold resolve_path. rewrite foldl_app. cbn [foldl]. by rewrite bool_decide_false. Qed.

Lemma plain_one n : plain_name n -> one_component n.
Proof. intros (Hn & Hs & Hd). split_and!; [done| | |done]; intros ->; by vm_compute in Hd. Qed.

(** The file of the key [n], for [ext] "private" or "public". *)
Lemma key_path self n ext : plain_name n -> ext <> "" -> free_of "/" ext ->
  with_extension (path_join (key_storage_path self) n) ext = key_storage_path self ++ [n +:+ "." +:+ ext] /\
  one_component (n +:+ "." +:+ ext) /\ (free_of "." ext -> split_extension (n +:+ "." +:+ ext) = (n, Some ext)).
Proof.
  intros Hn He Hs. pose proof (plain_one n Hn) as H1. destruct Hn as (Hn & Hs' & Hd). split; [|split].
  - rewrite (join_one _ n H1). apply with_extension_app; [done| |done]. unfold split_extension. by rewrite (rsplit_free n Hd).
  - destruct n as [|a n]; [done|]. apply free_of_cons in Hd as [Ha _].
    change (String a n +:+ "." +:+ ext) with (String a (n +:+ "." +:+ ext)). split_and!; [done|by intros [= -> _]|by intros [= -> _]|].
    change (String a (n +:+ "." +:+ ext)) with (String a n +:+ "." +:+ ext). rewrite !free_of_app. done.
  - intros Hf. by apply split_extension_app.
Qed.

Section key_files.
Context {Key : Type} `{KeyMaterial Key} `{Bip39Laws} `{Ed25519Laws Key}.
Implicit Types (fs : FileSystem) (self : InsecureKeyStorage) (m : gmap string Key).

(** The directory of [self] has the files of the keys [m], and nothing else. *)
Record holds_keys self fs m : Prop := {
  keys_directory : is_directory fs (resolve_path (key_storage_path self)) = true;
  keys_below : resolve_path (key_storage_path self) <> [];
  keys_plain : forall n k, m !! n = Some k -> plain_name n;
  keys_no_directories : forall x, resolve_path (key_storage_path self) ++ [x] ∉ fs_directories fs;
  keys_files : forall x c, fs_files fs !! (resolve_path (key_storage_path self) ++ [x]) = Some c <->
    exists n k, m !! n = Some k /\ ((x = n +:+ "." +:+ "private" /\ ed25519_key_to_mnemonic k = Ok c) \/ (x = n +:+ "." +:+ "public" /\ get_did k = Ok c));
}.

Lemma name_ext_inj n n' e e' : free_of "." e -> free_of "." e' -> n +:+ "." +:+ e = n' +:+ "." +:+ e' -> n = n' /\ e = e'.
Proof. intros He He' E. pose proof (rsplit_app n e He) as Hr. rewrite E, (rsplit_app n' e' He') in Hr. by injection Hr as -> ->. Qed.

Lemma not_directory self fs m x : holds_keys self fs m -> is_directory fs (resolve_path (key_storage_path self) ++ [x]) = false.
Proof.
  intros [_ Hb _ Hd _]. apply bool_decide_eq_false. intros [E|[E|E]]; [by destruct (resolve_path _)| |by apply (Hd x)].
  destruct (resolve_path (key_storage_path self)) as [|a l]; [done|]. by destruct l.
Qed.

Lemma private_file self fs m n : holds_keys self fs m -> plain_name n ->
  fs_files fs !! (resolve_path (key_storage_path self) ++ [n +:+ "." +:+ "private"]) =
    (m !! n ≫= fun k => match ed25519_key_to_mnemonic k with Ok c => Some c | _ => None end).
Proof.
  intros Hk Hn. apply option_eq. intros c. rewrite (keys_files _ _ _ Hk). split.
  - intros (n' & k & Hm & [[E Ec]|[E Ec]]); [|by apply (name_ext_inj n n' "private" "public") in E as [_ ?]].
    apply (name_ext_inj n n' "private" "private") in E as [-> _]; [|done..]. rewrite Hm. cbn. by rewrite Ec.
  - destruct (m !! n) as [k|] eqn:Hm; [|done]. cbn. intros E. exists n, k. split; [done|]. left. split; [done|].
    by destruct (ed25519_key_to_mnemonic k); simplify_eq.
Qed.

(** The keys that can be kept. *)
Definition storable (k : Key) : Prop := (exists c, ed25519_key_to_mnemonic k = Ok c) /\ exists did, get_did k = Ok did.

Lemma read_key_spec self fs m n : holds_keys self fs m -> plain_name n -> (forall k, m !! n = Some k -> storable k) ->
  insecure_read_key self fs n = Ok (m !! n).
Proof.
  intros Hk Hn Hs. unfold insecure_read_key, private_key_path, path_exists, read_to_string.
  destruct (key_path self n "private" Hn) as (-> & (_ & _ & Hp & _) & _); [done..|]. rewrite (resolve_snoc _ _ Hp).
  rewrite (not_directory _ _ _ _ Hk). rewrite (private_file _ _ _ _ Hk Hn).
  destruct (m !! n) as [k|] eqn:Hm; cbn; [|done]. destruct (Hs k eq_refl) as [[c Hc] _]. rewrite Hc. cbn [ok_or outcome_bind].
  by rewrite (restore_mnemonic k c Hc).
Qed.

Lemma parent_snoc (path : PathBuf) x : take (pred (length (path ++ [x]))) (path ++ [x]) = path.
Proof. rewrite length_app. cbn. rewrite Nat.add_1_r. cbn [pred]. apply take_app_length. Qed.

Lemma write_below self fs m x c : holds_keys self fs m ->
  x <> ".." -> fs_write fs (key_storage_path self ++ [x]) c =
    (Ok tt, mkFs (fs_directories fs) (<[resolve_path (key_storage_path self) ++ [x] := c]> (fs_files fs))).
Proof.
  intros Hk Hx. unfold fs_write. rewrite (resolve_snoc _ _ Hx), (not_directory _ _ _ _ Hk), parent_snoc. by rewrite (keys_directory _ _ _ Hk).
Qed.

(** Writing both files of a new key. *)
Definition with_key self fs n c did : FileSystem :=
  mkFs (fs_directories fs) (<[resolve_path (key_storage_path self) ++ [n +:+ "." +:+ "public"] := did]>
    (<[resolve_path (key_storage_path self) ++ [n +:+ "." +:+ "private"] := c]> (fs_files fs))).

Lemma ext_ne n n' : n +:+ "." +:+ "public" <> n' +:+ "." +:+ "private".
Proof. intros E. by apply (name_ext_inj n n' "public" "private") in E as [_ ?]. Qed.

Lemma with_key_holds self fs m n (k : Key) c did : holds_keys self fs m -> plain_name n -> m !! n = None ->
  ed25519_key_to_mnemonic k = Ok c -> get_did k = Ok did -> holds_keys self (with_key self fs n c did) (<[n := k]> m).
Proof.
  intros [Hd Hb Hp Hn Hf] Hpl Hm Hc Hdid. split; [done|done| |done|].
  - intros n' k'. rewrite lookup_insert_Some. intros [[<- _]|[_ Hk]]; [done|by eapply Hp].
  - intros x y. cbn [with_key fs_files]. rewrite !lookup_insert_Some, Hf. split.
    + intros [[E <-]|[E [[E' <-]|[E' (n' & k' & Hk & Hx)]]]].
      * apply app_inj_2 in E as [_ [= <-]]; [|done]. exists n, k. rewrite lookup_insert_eq. auto.
      * apply app_inj_2 in E' as [_ [= <-]]; [|done]. exists n, k. rewrite lookup_insert_eq. auto.
      * exists n', k'. rewrite lookup_insert_ne by (intros ->; congruence). auto.
    + intros (n' & k' & Hk & Hx). apply lookup_insert_Some in Hk as [[<- <-]|[Hne Hk]].
      * destruct Hx as [[-> E]|[-> E]]; [|left; split; [done|congruence]].
        right. split; [intros E'; apply app_inj_2 in E' as [_ [= E']]; [by apply ext_ne in E'|done]|]. left. split; [done|congruence].
      * right. destruct Hx as [[-> E]|[-> E]].
        -- split; [intros E'; apply app_inj_2 in E' as [_ [= E']]; [by apply ext_ne in E'|done]|]. right.
           split; [|by exists n', k'; auto]. intros E'. apply app_inj_2 in E' as [_ [= E']]; [|done].
           by apply (name_ext_inj n n' "private" "private") in E' as [? _].
        -- split; [intros E'; apply app_inj_2 in E' as [_ [= E']]; [by apply (name_ext_inj n n' "public" "public") in E' as [? _]|done]|].
           right. split; [|by exists n', k'; auto]. intros E'. apply app_inj_2 in E' as [_ [= E']]; [|done]. symmetry in E'. by apply ext_ne in E'.
Qed.

Lemma create_key_spec self fs m n (generated : Key) : holds_keys self fs m -> plain_name n -> (forall k, m !! n = Some k -> storable k) ->
  storable generated -> exists fs', insecure_create_key generated self fs n = (Ok (default generated (m !! n)), fs') /\
    holds_keys self fs' (<[n := default generated (m !! n)]> m).
Proof.
  intros Hk Hn Hs [[c Hc] [did Hd]]. unfold insecure_create_key. rewrite (read_key_spec self fs m n Hk Hn Hs). cbn [try_with].
  destruct (m !! n) as [k|] eqn:Hm; cbn [default from_option id]; [exists fs; split; [done|by rewrite insert_id]|].
  rewrite Hc. cbn [try_with]. rewrite Hd. cbn [try_with]. unfold private_key_path, public_key_path.
  destruct (key_path self n "private" Hn) as (-> & (_ & _ & Hp & _) & _); [done..|].
  destruct (key_path self n "public" Hn) as (-> & (_ & _ & Hq & _) & _); [done..|].
  rewrite (write_below self fs m _ c Hk Hp). exists (with_key self fs n c did). split; [|by apply with_key_holds].
  unfold fs_write. rewrite (resolve_snoc _ _ Hq), parent_snoc. unfold is_directory at 1. cbn [fs_directories].
  pose proof (not_directory _ _ _ (n +:+ "." +:+ "public") Hk) as Hnd. unfold is_directory in Hnd. rewrite Hnd.
  pose proof (keys_directory _ _ _ Hk) as Hdir. unfold is_directory in Hdir |- *. cbn [fs_directories]. rewrite Hdir. done.
Qed.
(** *** Listing the keys *)
Definition did_of (k : Key) : option string := match get_did k with Ok did => Some did | _ => None end.

Lemma names_in_spec self fs m x : holds_keys self fs m -> x ∈ names_in fs (resolve_path (key_storage_path self)) <->
  exists n k, m !! n = Some k /\ ((x = n +:+ "." +:+ "private" /\ is_Some (match ed25519_key_to_mnemonic k with Ok c => Some c | _ => None end)) \/
    (x = n +:+ "." +:+ "public" /\ is_Some (did_of k))).
Proof.
  intros Hk. unfold names_in. rewrite list_elem_of_omap. set (R := resolve_path (key_storage_path self)).
  trans (is_Some (fs_files fs !! (R ++ [x]))).
  - split.
    + intros (p & Hp & E). case_bool_decide as Ht; [|done]. apply last_Some in E as [l ->]. rewrite parent_snoc in Ht. subst l.
      apply elem_of_app in Hp as [Hp|Hp]; [by apply elem_of_elements, (keys_no_directories _ _ _ Hk) in Hp|].
      apply list_elem_of_fmap in Hp as ([p c] & E & Hp). cbn in E. subst p. apply elem_of_map_to_list in Hp. by exists c.
    + intros [c Hc]. exists (R ++ [x]). split; [|rewrite parent_snoc, bool_decide_true by done; apply last_snoc].
      apply elem_of_app. right. apply list_elem_of_fmap. exists (R ++ [x], c). split; [done|]. by apply elem_of_map_to_list.
  - unfold did_of. split.
    + intros (c & (n & k & Hm & [[-> Hc]|[-> Hc]])%(keys_files _ _ _ Hk)); exists n, k; rewrite Hc; (split; [done|]); [left|right]; eauto.
    + intros (n & k & Hm & [[-> [c Hc]]|[-> [c Hc]]]); exists c; apply (keys_files _ _ _ Hk); exists n, k; (split; [done|]); [left|right]; (split; [done|]);
        [destruct (ed25519_key_to_mnemonic k)|destruct (get_did k)]; by simplify_eq.
Qed.

Lemma discover_spec self fs m n k ext did D : holds_keys self fs m -> m !! n = Some k -> did_of k = Some did ->
  ext = "private" \/ ext = "public" ->
  discover fs (key_storage_path self ++ [n +:+ "." +:+ ext]) D = (Ok tt, if bool_decide (ext = "public") then <[n := did]> D else D).
Proof.
  intros Hk Hm Hd He. assert (ext <> "" /\ free_of "/" ext /\ free_of "." ext) as (H1' & H2' & H3') by by destruct He as [->| ->].
  pose proof (keys_plain _ _ _ Hk n k Hm) as Hn.
  destruct (key_path self n ext Hn H1' H2') as (_ & Ho & Hs). specialize (Hs H3').
  unfold discover, file_stem, extension. rewrite (file_name_app _ _ Ho). cbn [fmap option_fmap option_map mbind option_bind]. rewrite Hs. cbn [fst snd].
  destruct He as [->| ->]; cbn; [done|]. unfold read_to_string. destruct Ho as (_ & _ & Hp & _). rewrite (resolve_snoc _ _ Hp).
  assert (fs_files fs !! (resolve_path (key_storage_path self) ++ [n +:+ "." +:+ "public"]) = Some did) as ->; [|done].
  apply (keys_files _ _ _ Hk). exists n, k. split; [done|]. right. split; [done|]. unfold did_of in Hd. by destruct (get_did k); simplify_eq.
Qed.

Lemma discover_all self fs m l : holds_keys self fs m -> (forall n k, m !! n = Some k -> storable k) ->
  (forall x, x ∈ l -> exists n k ext, m !! n = Some k /\ (ext = "private" \/ ext = "public") /\ x = n +:+ "." +:+ ext) ->
  forall D, exists D', for_each_st (discover fs) ((fun name => key_storage_path self ++ [name]) <$> l) D = (Ok tt, D') /\
    forall n, D' !! n = if decide (n +:+ "." +:+ "public" ∈ l) then m !! n ≫= did_of else D !! n.
Proof.
  intros Hk Hs. induction l as [|x l IH]; intros Hl D; [by exists D|].
  destruct (Hl x ltac:(by left)) as (n & k & ext & Hm & He & ->). destruct (Hs n k Hm) as [_ [did Hd]].
  assert (did_of k = Some did) as Hdid by (unfold did_of; by rewrite Hd).
  cbn [fmap list_fmap for_each_st]. rewrite (discover_spec self fs m n k ext did D Hk Hm Hdid He). cbn [try_with].
  destruct (IH ltac:(intros y Hy; apply Hl; by right) (if bool_decide (ext = "public") then <[n := did]> D else D)) as (D' & E & HD').
  exists D'. split; [exact E|]. intros n'. rewrite HD'. destruct (decide (n' +:+ "." +:+ "public" ∈ l)) as [Hin|Hin].
  - rewrite decide_True; [done|by right].
  - destruct He as [->| ->]; cbn [bool_decide decide].
    + rewrite bool_decide_false by done. rewrite decide_False; [done|]. rewrite elem_of_cons. intros [E'|?]; [by apply ext_ne in E'|done].
    + rewrite bool_decide_true by done. destruct (decide (n = n')) as [<-|Hne].
      * rewrite lookup_insert_eq, decide_True by by left. by rewrite Hm.
      * rewrite lookup_insert_ne by done. rewrite decide_False; [done|]. rewrite elem_of_cons. intros [E'|?]; [|done].
        by apply (name_ext_inj n' n "public" "public") in E' as [? _].
Qed.

Lemma discoverable_spec self fs m : holds_keys self fs m -> (forall n k, m !! n = Some k -> storable k) ->
  get_discoverable_keys self fs = Ok (omap did_of m).
Proof.
  intros Hk Hs. unfold get_discoverable_keys, read_dir. rewrite (keys_directory _ _ _ Hk). cbn [outcome_bind].
  destruct (discover_all self fs m (names_in fs (resolve_path (key_storage_path self))) Hk Hs) with (D := ∅ : gmap string string) as (D' & -> & HD').
  { intros x (n & k & Hm & [[-> _]|[-> _]])%(names_in_spec _ _ _ _ Hk); exists n, k; eexists; eauto. }
  cbn [outcome_bind]. f_equal. apply map_eq. intros n. rewrite HD', lookup_omap. case_decide as Hin; [done|].
  rewrite lookup_empty. destruct (m !! n) as [k|] eqn:Hm; [|done]. exfalso. apply Hin. apply (names_in_spec _ _ _ _ Hk).
  exists n, k. split; [done|]. right. split; [done|]. destruct (Hs n k Hm) as [_ [did Hd]]. unfold did_of. rewrite Hd. by eexists.
Qed.
End key_files.

(** ** Theorems *)
Section key_theorems.
Context {Key : Type} `{KeyMaterial Key} `{Bip39Laws} `{Ed25519Laws Key}.
Implicit Types (fs : FileSystem) (self : InsecureKeyStorage) (m : gmap string Key).

(** What a key storage is asked, by name. *)
Inductive KeyOp : Type :=
  | CreateKey (name : string) (generated : Key)
  | ReadKey (name : string)
  | DiscoverKeys.

Inductive KeyAnswer : Type :=
  | AnswerKey (key : option Key)
  | AnswerDids (dids : gmap string string).

Definition file_step self fs (op : KeyOp) : outcome KeyAnswer * FileSystem :=
  match op with
  | CreateKey name generated =>
      let '(r, fs) := insecure_create_key generated self fs name in let? key := r keeping fs in (Ok (AnswerKey (Some key)), fs)
  | ReadKey name => ((let? key := insecure_read_key self fs name in Ok (AnswerKey key)), fs)
  | DiscoverKeys => ((let? dids := get_discoverable_keys self fs in Ok (AnswerDids dids)), fs)
  end.

(** The map that it stands for. *)
Definition map_step m (op : KeyOp) : outcome KeyAnswer * gmap string Key :=
  match op with
  | CreateKey name generated => let key := default generated (m !! name) in (Ok (AnswerKey (Some key)), <[name := key]> m)
  | ReadKey name => (Ok (AnswerKey (m !! name)), m)
  | DiscoverKeys => (Ok (AnswerDids (omap did_of m)), m)
  end.

Fixpoint key_trace {St} (step : St -> KeyOp -> outcome KeyAnswer * St) (st : St) (ops : list KeyOp) : list (outcome KeyAnswer) * St :=
  match ops with
  | [] => ([], st)
  | op :: ops => let '(r, st) := step st op in let '(rs, st) := key_trace step st ops in (r :: rs, st)
  end.

Definition plain_op (op : KeyOp) : Prop :=
  match op with
  | CreateKey name generated => plain_name name /\ storable generated
  | ReadKey name => plain_name name
  | DiscoverKeys => True
  end.

Lemma key_step_agrees self fs m op : holds_keys self fs m -> (forall n k, m !! n = Some k -> storable k) -> plain_op op ->
  exists fs', file_step self fs op = ((map_step m op).1, fs') /\ holds_keys self fs' (map_step m op).2 /\
    forall n k, (map_step m op).2 !! n = Some k -> storable k.
Proof.
  intros Hk Hs. destruct op as [n k|n|]; cbn [plain_op file_step map_step fst snd].
  - intros [Hn Hst]. destruct (create_key_spec self fs m n k Hk Hn (Hs n) Hst) as (fs' & -> & Hk'). exists fs'. split; [done|]. split; [done|].
    intros n' k'. rewrite lookup_insert_Some. intros [[_ <-]|[_ E]]; [|by eapply Hs]. destruct (m !! n) as [k''|] eqn:E; [by eapply Hs|done].
  - intros Hn. exists fs. rewrite (read_key_spec self fs m n Hk Hn (Hs n)). done.
  - intros _. exists fs. rewrite (discoverable_spec self fs m Hk Hs). done.
Qed.

Lemma new_holds path fs self fs1 : insecure_new path fs = (Ok self, fs1) ->
  (forall x, resolve_path path ++ ["keys"; x] ∉ fs_directories fs /\ fs_files fs !! (resolve_path path ++ ["keys"; x]) = None) ->
  holds_keys self fs1 ∅.
Proof.
  unfold insecure_new, create_dir_all. rewrite (join_one path "keys") by done. rewrite resolve_snoc by done.
  set (R := resolve_path path ++ ["keys"]). destruct (existsb _ _); [done|]. cbn [try_with]. intros [= <- <-] Hfree. split; cbn [key_storage_path].
  - rewrite resolve_snoc by done. fold R. apply bool_decide_eq_true. right. right. cbn [fs_directories]. apply elem_of_union_l, elem_of_list_to_set.
    unfold prefixes. apply list_elem_of_fmap. exists (length R). split; [by rewrite firstn_all|]. apply elem_of_seq. unfold R. rewrite length_app. cbn. lia.
  - rewrite resolve_snoc by done. by destruct (resolve_path path).
  - intros n k. by rewrite lookup_empty.
  - intros x. rewrite resolve_snoc by done. fold R. cbn [fs_directories]. rewrite not_elem_of_union. split.
    + rewrite elem_of_list_to_set. unfold prefixes. intros (i & E & Hi)%list_elem_of_fmap. apply (f_equal length) in E.
      rewrite length_take, length_app in E. cbn in E. lia.
    + unfold R. rewrite <- app_assoc. apply Hfree.
  - intros x c. rewrite resolve_snoc by done. cbn [fs_files]. rewrite <- app_assoc. cbn [app]. rewrite (proj2 (Hfree x)). split; [done|].
    intros (n & k & E & _). by rewrite lookup_empty in E.
Qed.

(** C30: A new key storage in an empty directory is a map from names to keys: whatever
    is created, read and listed with names without separators and dots, it answers
    as the map that keeps the first key created for each name. *)
Theorem key_storage_refines_map path fs self fs1 (ops : list KeyOp) : insecure_new path fs = (Ok self, fs1) ->
  (forall x, resolve_path path ++ ["keys"; x] ∉ fs_directories fs /\ fs_files fs !! (resolve_path path ++ ["keys"; x]) = None) ->
  Forall plain_op ops ->
  exists fs', key_trace (file_step self) fs1 ops = ((key_trace map_step ∅ ops).1, fs') /\ holds_keys self fs' (key_trace map_step ∅ ops).2.
Proof.
  intros Hnew Hfree. pose proof (new_holds path fs self fs1 Hnew Hfree) as Hk.
  assert (forall n k, (∅ : gmap string Key) !! n = Some k -> storable k) as Hs by (intros n k; by rewrite lookup_empty).
  clear Hnew Hfree. revert fs1 Hk Hs. generalize (∅ : gmap string Key). induction ops as [|op ops IH]; intros m fs1 Hk Hs Hops; [by exists fs1|].
  apply Forall_cons in Hops as [Hop Hops]. destruct (key_step_agrees self fs1 m op Hk Hs Hop) as (fs2 & E & Hk2 & Hs2). cbn [key_trace]. rewrite E.
  destruct (map_step m op) as [r m2]. cbn [fst snd] in *. destruct (IH m2 fs2 Hk2 Hs2 Hops) as (fs3 & E3 & Hk3). rewrite E3.
  destruct (key_trace map_step m2 ops) as [rs m3]. cbn [fst snd] in *. by exists fs3.
Qed.

(** Names that differ only after their last dot are one name: once a key was
    created for one of them, creating a key for the other gives the same key. *)
Theorem dotted_names_share_key self fs m stem ext ext' (k k' : Key) : holds_keys self fs m -> plain_name stem -> m !! stem = None ->
  storable k -> free_of "/" ext -> free_of "." ext -> free_of "/" ext' -> free_of "." ext' ->
  exists fs', insecure_create_key k self fs (stem +:+ "." +:+ ext) = (Ok k, fs') /\
    insecure_create_key k' self fs' (stem +:+ "." +:+ ext') = (Ok k, fs').
Proof.
  intros Hk Hn Hm Hs He Hd He' Hd'.
  assert (forall ext e, free_of "/" ext -> free_of "." ext -> e <> "" -> with_extension (path_join (key_storage_path self) (stem +:+ "." +:+ ext)) e =
    with_extension (path_join (key_storage_path self) stem) e) as Hext.
  { intros x e Hx Hx' Hne. pose proof (plain_one stem Hn) as Hone. destruct Hn as (Hn & Hn' & Hd0).
    assert (one_component (stem +:+ "." +:+ x)) as Ho.
    { destruct stem as [|a stem]; [done|]. apply free_of_cons in Hd0 as [Ha _]. split_and!; [done|by intros [= -> _]|by intros [= -> _]|].
      rewrite !free_of_app. done. }
    rewrite !join_one by done. rewrite !(with_extension_app _ _ stem) by (done || by rewrite ?split_extension_app; unfold split_extension; rewrite ?(rsplit_free _ Hd0)).
    done. }
  destruct (create_key_spec self fs m stem k Hk Hn ltac:(intros ?; by rewrite Hm) Hs) as (fs' & E & Hk'). rewrite Hm in E, Hk'. cbn [default from_option id] in *.
  exists fs'.
  assert (forall x (g : Key) f, free_of "/" x -> free_of "." x -> insecure_create_key g self f (stem +:+ "." +:+ x) = insecure_create_key g self f stem) as Hsame.
  { intros x g f Hx Hx'. unfold insecure_create_key, insecure_read_key, private_key_path, public_key_path. by rewrite !Hext. }
  rewrite !Hsame by done. split; [done|]. unfold insecure_create_key. rewrite (read_key_spec self fs' (<[stem := k]> m) stem Hk' Hn).
  - by rewrite lookup_insert_eq.
  - intros k2. rewrite lookup_insert_eq. by intros [= <-].
Qed.
End key_theorems.

(** ** Runs *)
#[export] Instance toy_bip39 : Bip39 := {
  mnemonic_entropy m := ok_or "mnemonic" (toy_decode m);
  mnemonic_of_entropy b := Ok (toy_encode b);
}.
#[export] Instance toy_bip39_laws : Bip39Laws.
Proof. intros b m [= <-]. cbn [mnemonic_entropy toy_bip39]. by rewrite toy_decode_encode. Qed.

#[export] Instance toy_ed25519 : Ed25519 N := {
  private_key k := Some [k];
  key_of_private b := match b with [k] => Ok k | _ => Err "key" end;
}.
#[export] Instance toy_ed25519_laws : Ed25519Laws N.
Proof. intros k b [= <-]. done. Qed.

Lemma toy_storable (k : N) : storable k.
Proof. split; by eexists. Qed.

Definition toy_fs : FileSystem := mkFs ∅ ∅.
Definition toy_home : PathBuf := ["/"; "home"].
Definition toy_insecure : InsecureKeyStorage := mkInsecure ["/"; "home"; "keys"].
Definition toy_key_fs : FileSystem := (insecure_new toy_home toy_fs).2.

Lemma toy_fs_free (x : string) : resolve_path toy_home ++ ["keys"; x] ∉ fs_directories toy_fs /\ fs_files toy_fs !! (resolve_path toy_home ++ ["keys"; x]) = None.
Proof. cbn [toy_fs fs_directories fs_files]. rewrite lookup_empty. split; [by apply not_elem_of_empty|done]. Qed.

Lemma toy_holds_none : holds_keys (Key := N) toy_insecure toy_key_fs ∅.
Proof. apply (new_holds toy_home toy_fs); [vm_compute; reflexivity|exact toy_fs_free]. Qed.

Definition toy_key_ops : list (KeyOp (Key := N)) := [CreateKey "work" 1%N; CreateKey "home" 2%N; CreateKey "work" 3%N; ReadKey "work"; ReadKey "other"].

Lemma key_storage_refines_map_witness : exists fs' : FileSystem,
  key_trace (file_step toy_insecure) toy_key_fs toy_key_ops =
    ([Ok (AnswerKey (Some 1%N)); Ok (AnswerKey (Some 2%N)); Ok (AnswerKey (Some 1%N)); Ok (AnswerKey (Some 1%N)); Ok (AnswerKey None)], fs').
Proof.
  destruct (key_storage_refines_map (Key := N) toy_home toy_fs toy_insecure toy_key_fs toy_key_ops) as (fs' & E & _).
  - vm_compute. reflexivity.
  - exact toy_fs_free.
  - repeat constructor; try discriminate; by eexists.
  - exists fs'. exact E.
Defined.

Lemma dotted_names_share_key_witness : exists fs' : FileSystem,
  insecure_create_key 1%N toy_insecure toy_key_fs "work.phone" = (Ok 1%N, fs') /\
  insecure_create_key 2%N toy_insecure fs' "work.laptop" = (Ok 1%N, fs').
Proof.
  apply (dotted_names_share_key (Key := N) toy_insecure toy_key_fs ∅ "work" "phone" "laptop" 1%N 2%N toy_holds_none).
  - split; [discriminate|]. split; reflexivity.
  - reflexivity.
  - apply toy_storable.
  - reflexivity.
  - reflexivity.
  - reflexivity.
  - reflexivity.
Defined.
