(* ===== verification/FileTree.v ===== *)
(** * Files, directories and symbolic links

    The part of [std::fs] and [tokio::fs] that a workspace is read and rendered with:
    a tree of directories, files and symbolic links, and the directory that relative
    paths start from.  A path is followed one component at a time, as POSIX does; a
    link is followed from the directory it is in.  Permissions are left out, and the
    entries of a directory are listed in the order of the finite map. *)
From stdpp Require Import base gmap list numbers strings.
From Stdlib Require Import Ascii String.
From S2P Require Import Prelude BlockStore UcanCapability Ucan KeyStorage.
#[local] Open Scope list_scope.
#[local] Notation length := List.length (only parsing).

Inductive FileNode : Type :=
  | Directory
  | Regular (contents : bytes)
  | Symlink (target : PathBuf).

#[export] Instance file_node_eq_dec : EqDecision FileNode.
Proof. solve_decision. Defined.

(** Nodes by their absolute path, without links and parent components. *)
Notation FileTree := (gmap PathBuf FileNode).

Record Machine := mkMachine { current_dir : PathBuf; tree : FileTree }.

Definition NOT_FOUND : string := "No such file or directory".
Definition NOT_A_DIRECTORY : string := "Not a directory".

(** How many links the kernel follows. *)
Definition MAX_LINKS : nat := 40.

Definition path_parent (path : PathBuf) : PathBuf := take (pred (length path)) path.

Definition node_at (t : FileTree) (p : PathBuf) : option FileNode :=
  if bool_decide (p = ["/"]) then Some Directory else t !! p.

Fixpoint follow (links : nat) (t : FileTree) (start rest : PathBuf) {struct links} : outcome PathBuf :=
  (fix go (at_path rest : PathBuf) {struct rest} : outcome PathBuf :=
     match rest with
     | [] => Ok at_path
     | name :: rest' =>
         if bool_decide (name = "/") then go ["/"] rest'
         else if bool_decide (name = "..") then go (if bool_decide (at_path = ["/"]) then at_path else path_parent at_path) rest'
         else
           let p := at_path ++ [name] in
           match node_at t p, links with
           | Some Directory, _ => go p rest'
           | Some (Symlink target), S links' => follow links' t at_path (target ++ rest')
           | Some (Symlink _), O => Err "Too many levels of symbolic links"
           | Some (Regular _), _ => if bool_decide (rest' = []) then Ok p else Err NOT_A_DIRECTORY
           | None, _ => if bool_decide (rest' = []) then Ok p else Err NOT_FOUND
           end
     end) start rest.

Section files.
Implicit Types (m : Machine) (path : PathBuf).

Definition set_tree m (t : FileTree) : Machine := mkMachine (current_dir m) t.

(** The place of a path, links followed. *)
Definition canonical m path : outcome PathBuf := follow MAX_LINKS (tree m) (current_dir m) path.

(** The same, but a link at the end is not followed. *)
Definition located m path : outcome PathBuf :=
  match file_name path with
  | None => canonical m path
  | Some name =>
      let? directory := canonical m (path_parent path) in
      match node_at (tree m) directory with
      | Some Directory => Ok (directory ++ [name])
      | Some _ => Err NOT_A_DIRECTORY
      | None => Err NOT_FOUND
      end
  end.

Definition metadata m path : outcome FileNode :=
  let? p := canonical m path in ok_or NOT_FOUND (node_at (tree m) p).
Definition symlink_metadata m path : outcome FileNode :=
  let? p := located m path in ok_or NOT_FOUND (node_at (tree m) p).

Definition file_exists m path : bool := match metadata m path with Ok _ => true | _ => false end.
Definition is_dir m path : bool := match metadata m path with Ok Directory => true | _ => false end.
Definition is_symlink m path : bool := match symlink_metadata m path with Ok (Symlink _) => true | _ => false end.

Definition try_exists m path : outcome bool :=
  match metadata m path with
  | Ok _ => Ok true
  | Err e => if bool_decide (e = NOT_FOUND) then Ok false else Err e
  | Panic w => Panic w
  | Diverge => Diverge
  end.

Definition read_file m path : outcome bytes :=
  let? node := metadata m path in
  match node with Regular b => Ok b | _ => Err "Is a directory" end.

Definition read_text m path : outcome string :=
  let? b := read_file m path in from_utf8 b.

Definition read_link m path : outcome PathBuf :=
  let? node := symlink_metadata m path in
  match node with Symlink target => Ok target | _ => Err "Invalid argument" end.

Definition entry_names (t : FileTree) (directory : PathBuf) : list string :=
  omap (fun p : PathBuf => if bool_decide (path_parent p = directory) then last p else None) (map_to_list t).*1.

Definition list_dir m path : outcome (list PathBuf) :=
  let? p := canonical m path in
  match node_at (tree m) p with
  | Some Directory => Ok ((fun name => path ++ [name]) <$> entry_names (tree m) p)
  | Some _ => Err NOT_A_DIRECTORY
  | None => Err NOT_FOUND
  end.

(** A file is created or emptied, and written. *)
Definition write_file m path (b : bytes) : outcome unit * Machine :=
  let? p := canonical m path keeping m in
  match node_at (tree m) p with
  | Some Directory => (Err "Is a directory", m)
  | _ => (Ok tt, set_tree m (<[p := Regular b]> (tree m)))
  end.

Definition make_dir m path : outcome unit * Machine :=
  let? p := located m path keeping m in
  match node_at (tree m) p with
  | Some _ => (Err "File exists", m)
  | None => (Ok tt, set_tree m (<[p := Directory]> (tree m)))
  end.

Definition make_dir_all m path : outcome unit * Machine :=
  for_each_st (fun prefix m => if is_dir m prefix then (Ok tt, m) else make_dir m prefix) (prefixes path) m.

Definition make_symlink (target : PathBuf) m path : outcome unit * Machine :=
  let? p := located m path keeping m in
  match node_at (tree m) p with
  | Some _ => (Err "File exists", m)
  | None => (Ok tt, set_tree m (<[p := Symlink target]> (tree m)))
  end.

(** [unlink], which also removes links, to directories too. *)
Definition remove_file m path : outcome unit * Machine :=
  let? p := located m path keeping m in
  match node_at (tree m) p with
  | Some Directory => (Err "Is a directory", m)
  | Some _ => (Ok tt, set_tree m (delete p (tree m)))
  | None => (Err NOT_FOUND, m)
  end.

Definition remove_dir_all m path : outcome unit * Machine :=
  let? p := located m path keeping m in
  match node_at (tree m) p with
  | Some Directory => (Ok tt, set_tree m (filter (fun kv : PathBuf * FileNode => take (length p) kv.1 <> p) (tree m)))
  | Some (Symlink _) => (Ok tt, set_tree m (delete p (tree m)))
  | Some (Regular _) => (Err NOT_A_DIRECTORY, m)
  | None => (Err NOT_FOUND, m)
  end.

Definition set_current_dir m path : outcome unit * Machine :=
  let? p := canonical m path keeping m in
  match node_at (tree m) p with
  | Some Directory => (Ok tt, mkMachine p (tree m))
  | Some _ => (Err NOT_A_DIRECTORY, m)
  | None => (Err NOT_FOUND, m)
  end.
End files.

(** The path from [base] to [path], both absolute or both relative
    ([pathdiff::diff_paths]): up to where they part, and down again. *)
Fixpoint diff_loop (path base : PathBuf) : option PathBuf :=
  match path, base with
  | _, [] => Some path
  | a :: path', b :: base' =>
      if bool_decide (a = b) then diff_loop path' base'
      else if bool_decide (b = "..") then None else Some (((fun _ => "..") <$> base) ++ path)
  | [], _ :: _ => Some ((fun _ => "..") <$> base)
  end.

Definition is_absolute (path : PathBuf) : bool := match path with "/" :: _ => true | _ => false end.

Definition diff_paths (path base : PathBuf) : option PathBuf :=
  if Bool.eqb (is_absolute path) (is_absolute base) then diff_loop path base
  else if is_absolute path then Some path else None.

(** ** Facts *)
Definition plain_component (name : string) : Prop := name <> "/" /\ name <> "..".

(** An absolute path through directories only. *)
Inductive dir_at (t : FileTree) : PathBuf -> Prop :=
  | dir_root : dir_at t ["/"]
  | dir_snoc p name : dir_at t p -> plain_component name -> t !! (p ++ [name]) = Some Directory -> dir_at t (p ++ [name]).

Section file_facts.
Implicit Types (t : FileTree) (p : PathBuf).

Lemma dir_at_nonempty t p : dir_at t p -> p <> [].
Proof. destruct 1; [done|]. by destruct p. Qed.

Lemma node_at_snoc t p name : dir_at t p -> node_at t (p ++ [name]) = t !! (p ++ [name]).
Proof.
  intros Hp. unfold node_at. rewrite bool_decide_false; [done|]. intros E. apply (f_equal List.length) in E. rewrite length_app in E. cbn in E.
  apply dir_at_nonempty in Hp. destruct p; [done|]. cbn in E. lia.
Qed.

Lemma node_at_dir t p : dir_at t p -> node_at t p = Some Directory.
Proof. destruct 1 as [|p name Hp _ Hn]; [done|]. by rewrite node_at_snoc. Qed.

(** One component at a time. *)
Lemma follow_nil links t p : follow links t p [] = Ok p.
Proof. by destruct links. Qed.

Lemma follow_down links t p name rest : dir_at t p -> plain_component name -> t !! (p ++ [name]) = Some Directory ->
  follow links t p (name :: rest) = follow links t (p ++ [name]) rest.
Proof. intros Hp [H1 H2] Hn. destruct links; cbn; rewrite !bool_decide_false by done; by rewrite (node_at_snoc t p name Hp), Hn. Qed.

Lemma follow_up links t p name rest : dir_at t (p ++ [name]) -> p <> [] -> follow links t (p ++ [name]) (".." :: rest) = follow links t p rest.
Proof.
  intros Hp Hne. assert (bool_decide (p ++ [name] = ["/"]) = false) as E.
  { apply bool_decide_false. intros E. apply (f_equal List.length) in E. rewrite length_app in E. destruct p; [done|]. cbn in E. lia. }
  assert (path_parent (p ++ [name]) = p) as E'.
  { unfold path_parent. rewrite length_app, Nat.add_comm. apply take_app_length. }
  destruct links; cbn; by rewrite E, E'.
Qed.

Lemma follow_end links t p name : dir_at t p -> plain_component name -> (forall target, t !! (p ++ [name]) <> Some (Symlink target)) ->
  follow links t p [name] = Ok (p ++ [name]).
Proof.
  intros Hp [H1 H2] Hn. destruct links; cbn; rewrite !bool_decide_false by done; rewrite (node_at_snoc t p name Hp);
    destruct (t !! (p ++ [name])) as [[|b|target]|]; try done; by destruct (Hn target).
Qed.

Lemma follow_link links t p name target : dir_at t p -> plain_component name -> t !! (p ++ [name]) = Some (Symlink target) ->
  follow (S links) t p [name] = follow links t p target.
Proof. intros Hp [H1 H2] Hn. cbn. rewrite !bool_decide_false by done. by rewrite (node_at_snoc t p name Hp), Hn, app_nil_r. Qed.

Lemma follow_dir links t start p rest : dir_at t p -> follow links t start (p ++ rest) = follow links t p rest.
Proof.
  intros Hp. revert rest. induction Hp as [|p name Hp IH Hn Hd]; intros rest; [by destruct links|].
  rewrite <- app_assoc. cbn [app]. by rewrite IH, follow_down.
Qed.

Lemma dir_at_take t p i : dir_at t p -> dir_at t (take (S i) p).
Proof.
  intros Hp. induction Hp as [|p name Hp IH Hn Hd]; [by destruct i; constructor|].
  destruct (decide (S i <= List.length p)) as [Hi|Hi]; [by rewrite take_app_le|]. rewrite take_ge by (rewrite length_app; cbn; lia). by constructor.
Qed.

Lemma dir_at_mono t t' p : dir_at t p -> (forall q, t !! q = Some Directory -> t' !! q = Some Directory) -> dir_at t' p.
Proof. intros Hp Ht. induction Hp as [|p name Hp IH Hn Hd]; constructor; auto. Qed.

Implicit Types (m : Machine).

Lemma canonical_dir m p : dir_at (tree m) p -> canonical m p = Ok p.
Proof. intros Hp. unfold canonical. rewrite <- (app_nil_r p) at 1. by rewrite follow_dir, follow_nil. Qed.

Lemma is_dir_dir m p : dir_at (tree m) p -> is_dir m p = true.
Proof. intros Hp. unfold is_dir, metadata. rewrite canonical_dir by done. cbn [outcome_bind]. by rewrite node_at_dir. Qed.

Lemma make_dir_all_dir m p : dir_at (tree m) p -> make_dir_all m p = (Ok tt, m).
Proof.
  intros Hp. unfold make_dir_all. assert (Forall (fun q => is_dir m q = true) (prefixes p)) as Hall.
  { apply Forall_forall. intros q (n & -> & Hn)%list_elem_of_fmap. apply elem_of_seq in Hn. destruct n as [|n]; [lia|]. by apply is_dir_dir, dir_at_take. }
  induction Hall as [|q qs Hq _ IH]; [done|]. cbn [for_each_st]. rewrite Hq. cbn [try_with]. exact IH.
Qed.

Lemma located_in m p name : dir_at (tree m) p -> plain_component name -> located m (p ++ [name]) = Ok (p ++ [name]).
Proof.
  intros Hp [H1 H2]. unfold located, file_name. rewrite last_snoc, !bool_decide_false by done. cbn [orb].
  assert (path_parent (p ++ [name]) = p) as ->. { unfold path_parent. rewrite length_app, Nat.add_comm. apply take_app_length. }
  rewrite canonical_dir by done. cbn [outcome_bind]. by rewrite node_at_dir.
Qed.

Lemma canonical_in m p name : dir_at (tree m) p -> plain_component name -> (forall target, tree m !! (p ++ [name]) <> Some (Symlink target)) ->
  canonical m (p ++ [name]) = Ok (p ++ [name]).
Proof. intros Hp Hn Hl. unfold canonical. by rewrite follow_dir, follow_end. Qed.
End file_facts.
