(* ===== verification/SphereDb.v ===== *)
(** * The sphere database

    Model of [noosphere-storage/src/db.rs]: blocks, the links found in each block,
    the tip of each sphere that is replicated locally, and free-form metadata, each
    in a store of its own.  A [SphereDb] is itself a block store; on every
    [put] it records the links of the block, and [query_links] walks them.

    [B] is the block store and [KV] the key-value store of a [Storage]; the
    key-value interface is the blanket implementation over [Store].

    A [SphereDb] over lawful stores is a lawful block store; its versions, links
    and metadata do not disturb one another; every block put with its links has
    them recorded; and walking the links yields every CID reachable from the root
    exactly once. *)
From stdpp Require Import base gmap list numbers strings.
From Stdlib Require Import Ascii String.
From S2P Require Import Prelude BlockStore HamtNode HamtRep BTree UcanCapability Ucan UcanProofs.
#[local] Open Scope list_scope.
#[local] Notation length := List.length (only parsing).

(** ** What a reliable primitive store promises *)
Class StoreLaws (S : Type) `{Store S} := {
  store_read_total : forall (s : S) k, exists v, store_read s k = Ok v;
  store_write_spec : forall (s : S) k v, exists old s', store_write s k v = (Ok old, s') /\
    store_read s' k = Ok (Some v) /\ forall k', k' <> k -> store_read s' k' = store_read s k';
  store_remove_spec : forall (s : S) k, exists old s', store_remove s k = (Ok old, s') /\
    store_read s' k = Ok None /\ forall k', k' <> k -> store_read s' k' = store_read s k';
}.

#[export] Instance memory_store_laws : StoreLaws MemoryStore.
Proof.
  split; cbn; unfold memory_read.
  - by eexists.
  - intros s k v. eexists _, _. split; [done|]. cbn. rewrite lookup_insert_eq. split; [done|].
    intros k' Hk. by rewrite lookup_insert_ne.
  - intros s k. eexists _, _. split; [done|]. cbn. rewrite lookup_delete_eq. split; [done|].
    intros k' Hk. by rewrite lookup_delete_ne.
Qed.

Section key_value_facts.
Context {KV V Cid : Type} `{StoreLaws KV} `{BlockCodecLaws Cid V}.

Lemma set_key_spec (s : KV) key (v : V) :
  exists s', set_key s key v = (Ok tt, s') /\ get_key s' key = Ok (Some v) /\
    forall key', key' <> key -> store_read s' key' = store_read s key'.
Proof.
  destruct (block_total v) as [b Hb]. destruct (store_write_spec s key b) as (old & s' & E & Hr & Ho).
  exists s'. unfold set_key, get_key. rewrite Hb. cbn [try_with]. rewrite E. split; [done|]. rewrite Hr. cbn [outcome_bind].
  rewrite (block_roundtrip v b Hb). done.
Qed.

Lemma get_key_ext (s s' : KV) key : store_read s' key = store_read s key -> get_key (V := V) s' key = get_key s key.
Proof. unfold get_key. by intros ->. Qed.
End key_value_facts.

(** ** The database *)
Record SphereDb (B KV : Type) := mkDb {
  block_store : B;
  link_store : KV;
  version_store : KV;
  metadata_store : KV;
}.
Arguments mkDb {B KV} _ _ _ _.
Arguments block_store {B KV} _.
Arguments link_store {B KV} _.
Arguments version_store {B KV} _.
Arguments metadata_store {B KV} _.

(** [put_block] and then [put_links] by the codec of the CID, in the loops of
    [put_block_stream], [Bundle::load_into] and [SphereDb::persist]; a block under
    another codec keeps no links. *)
Definition put_block_and_links {S Cid} `{CidOps Cid} `{!BlockStore S Cid} (cid : Cid) (block : bytes) (s : S)
    : outcome unit * S :=
  let '(r, s) := put_block s cid block in
  let? _ := r keeping s in
  if (cid_codec cid =? DAG_CBOR)%N then put_links s DAG_CBOR cid block
  else if (cid_codec cid =? RAW)%N then put_links s RAW cid block
  else (Ok tt, s).

(** [put_block_stream] (noosphere-core/src/stream/block.rs): the stream is the
    blocks it yields and how it ends. *)
Definition put_block_stream {S Cid} `{CidOps Cid} `{!BlockStore S Cid} (s : S) (stream : list (Cid * bytes) * outcome unit)
    : outcome unit * S :=
  let '(blocks, ending) := stream in
  let '(r, s) := for_each_st (fun '(cid, block) => put_block_and_links cid block) blocks s in
  let? _ := r keeping s in (ending, s).

Section sphere_db.
Context {Cid B KV : Type} `{Countable Cid} `{CidOps Cid} `{!BlockStore B Cid} `{Store KV}.
Context `{!BlockCodec Cid} `{!BlockCodec (list Cid)}.
Notation SphereDb := (SphereDb B KV).
Implicit Types (db : SphereDb) (cid : Cid).

Definition link_key cid : bytes := as_bytes (cid_to_string cid).

(** *** [impl BlockStore for SphereDb] *)
Definition db_put_block db cid (block : bytes) : outcome unit * SphereDb :=
  let '(r, blocks) := put_block (block_store db) cid block in
  (r, mkDb blocks (link_store db) (version_store db) (metadata_store db)).

Definition db_get_block db cid : outcome (option bytes) := get_block (block_store db) cid.

Definition db_put_links db (codec : N) cid (block : bytes) : outcome unit * SphereDb :=
  let? links := references (Cid := Cid) codec block keeping db in
  let '(r, link_store) := set_key (link_store db) (link_key cid) links in
  (r, mkDb (block_store db) link_store (version_store db) (metadata_store db)).

#[export] Instance db_block_store : BlockStore SphereDb Cid := {
  put_block := db_put_block;
  get_block := db_get_block;
  put_links := db_put_links;
}.

(** *** Versions of spheres *)
Definition set_version db (identity : string) (version : Cid) : outcome unit * SphereDb :=
  let '(r, versions) := set_key (version_store db) (as_bytes identity) version in
  (r, mkDb (block_store db) (link_store db) versions (metadata_store db)).

Definition get_version db (identity : string) : outcome (option Cid) := get_key (version_store db) (as_bytes identity).

Definition require_version db (identity : string) : outcome Cid :=
  let? version := get_key (version_store db) (as_bytes identity) in ok_or "No version was found for sphere" version.

(** *** Metadata: [impl KeyValueStore for SphereDb] *)
Section metadata.
Context {V : Type} `{BlockCodec V}.

Definition db_set_key db (key : string) (value : V) : outcome unit * SphereDb :=
  let '(r, metadata) := set_key (metadata_store db) (as_bytes key) value in
  (r, mkDb (block_store db) (link_store db) (version_store db) metadata).

Definition db_get_key db (key : string) : outcome (option V) := get_key (metadata_store db) (as_bytes key).

Definition db_require_key db (key : string) : outcome V :=
  let? found := db_get_key db key in ok_or "No value found" found.
End metadata.

Definition db_unset_key db (key : string) : outcome unit * SphereDb :=
  let '(r, metadata) := unset_key (metadata_store db) (as_bytes key) in
  (r, mkDb (block_store db) (link_store db) (version_store db) metadata).

(** *** Links between blocks *)
Definition get_block_links db cid : outcome (option (list Cid)) := get_key (link_store db) (link_key cid).

(** The loop of [query_links], with one unit of fuel for each CID popped: the CIDs
    it yields and how the stream ends. *)
Fixpoint query_links_loop (fuel : nat) db (predicate : Cid -> outcome bool) (visited_links : gset Cid) (remaining_links : list Cid)
    : list Cid * outcome unit :=
  match vec_pop remaining_links with
  | None => ([], Ok tt)
  | Some (cid, remaining_links) =>
      match fuel with
      | O => ([], Diverge)
      | S fuel' =>
          if bool_decide (cid ∈ visited_links) then query_links_loop fuel' db predicate visited_links remaining_links
          else
            match predicate cid with
            | Ok true =>
                match get_block_links db cid with
                | Ok links =>
                    let '(items, r) :=
                      query_links_loop fuel' db predicate ({[cid]} ∪ visited_links) (remaining_links ++ default [] links) in
                    (cid :: items, r)
                | Err e => ([], Err e)
                | Panic w => ([], Panic w)
                | Diverge => ([], Diverge)
                end
            | Ok false => query_links_loop fuel' db predicate ({[cid]} ∪ visited_links) remaining_links
            | Err e => ([], Err e)
            | Panic w => ([], Panic w)
            | Diverge => ([], Diverge)
            end
      end
  end.

Definition query_links (fuel : nat) db cid (predicate : Cid -> outcome bool) : list Cid * outcome unit :=
  query_links_loop fuel db predicate ∅ [cid].

Definition stream_links (fuel : nat) db cid : list Cid * outcome unit := query_links fuel db cid (fun _ => Ok true).

(** The blocks of the CIDs, without those that are missing; an error ends it. *)
Fixpoint stream_blocks_loop db (cids : list Cid) (ending : outcome unit) : list (Cid * bytes) * outcome unit :=
  match cids with
  | [] => ([], ending)
  | cid :: cids' =>
      match get_block (block_store db) cid with
      | Ok found =>
          let '(blocks, r) := stream_blocks_loop db cids' ending in
          (match found with Some block => (cid, block) :: blocks | None => blocks end, r)
      | Err e => ([], Err e)
      | Panic w => ([], Panic w)
      | Diverge => ([], Diverge)
      end
  end.

Definition stream_blocks (fuel : nat) db cid : list (Cid * bytes) * outcome unit :=
  let '(cids, ending) := stream_links fuel db cid in stream_blocks_loop db cids ending.

(** *** [SphereDb::persist] *)

(** [MemoryStore::get_stored_cids]; a [HashMap] has its keys in no particular
    order. *)
Definition get_stored_cids (m : MemoryStore) : list Cid := omap cid_of_bytes (map_to_list (entries m)).*1.

Definition persist db (m : MemoryStore) : outcome unit * SphereDb :=
  for_each_st (fun cid db => let? block := require_block m cid keeping db in put_block_and_links cid block db)
    (get_stored_cids m) db.
End sphere_db.

(** ** Facts about the sphere database *)
Lemma as_bytes_inj a b : as_bytes a = as_bytes b -> a = b.
Proof. intros E. by rewrite <- (string_of_as_bytes a), <- (string_of_as_bytes b), E. Qed.

Section db_facts.
Context {Cid B KV : Type} `{Countable Cid} `{CidLaws Cid} `{!BlockStore B Cid} `{!BlockStoreLaws B Cid} `{StoreLaws KV}.
Context `{!BlockCodec Cid} `{!BlockCodecLaws Cid Cid} `{!BlockCodec (list Cid)} `{!BlockCodecLaws Cid (list Cid)}.
Notation SphereDb := (SphereDb B KV).
Implicit Types (db : SphereDb) (c : Cid).

#[export] Instance db_block_store_laws : BlockStoreLaws SphereDb Cid.
Proof.
  split.
  - intros db c b. destruct (put_block_spec (block_store db) c b) as (s' & E & Hg & Ho).
    eexists. split; [cbn; unfold db_put_block; rewrite E; done|]. done.
  - intros db codec c b links Hl. cbn. unfold db_put_links. rewrite Hl. cbn [try_with].
    destruct (set_key_spec (Cid := Cid) (link_store db) (link_key c) links) as (s' & E & _). rewrite E. by eexists.
Qed.

(** *** Versions *)

(** Two databases with the same blocks and the same links between them. *)
Definition same_blocks db db' : Prop := block_store db' = block_store db /\ link_store db' = link_store db.

Lemma same_blocks_le db db' : same_blocks db db' -> store_le db db'.
Proof. intros [Hb _] c b [Hg Hc]. split; [|done]. cbn in *. unfold db_get_block in *. by rewrite Hb. Qed.

Lemma set_version_spec db identity (version : Cid) :
  exists db', set_version db identity version = (Ok tt, db') /\ same_blocks db db' /\ metadata_store db' = metadata_store db /\
    get_version db' identity = Ok (Some version) /\
    forall identity', identity' <> identity -> get_version (Cid := Cid) db' identity' = get_version db identity'.
Proof.
  unfold set_version, get_version.
  destruct (set_key_spec (Cid := Cid) (version_store db) (as_bytes identity) version) as (s' & E & Hr & Ho). rewrite E.
  eexists. split; [done|]. split; [done|]. split; [done|]. split; [exact Hr|]. intros id' Hne. cbn.
  apply get_key_ext, Ho. intros E'. by apply Hne, as_bytes_inj.
Qed.

Lemma require_version_spec db identity (version : Cid) :
  get_version db identity = Ok (Some version) -> require_version db identity = Ok version.
Proof. unfold require_version, get_version. by intros ->. Qed.

Lemma db_set_key_spec {V} `{!BlockCodec V} `{!BlockCodecLaws Cid V} db key (v : V) :
  exists db', db_set_key db key v = (Ok tt, db') /\ same_blocks db db' /\ version_store db' = version_store db /\
    db_get_key db' key = Ok (Some v) /\
    forall key', key' <> key -> store_read (metadata_store db') (as_bytes key') = store_read (metadata_store db) (as_bytes key').
Proof.
  unfold db_set_key, db_get_key. destruct (set_key_spec (Cid := Cid) (metadata_store db) (as_bytes key) v) as (s' & E & Hr & Ho).
  rewrite E. eexists. split; [done|]. split; [done|]. split; [done|]. split; [exact Hr|]. intros key' Hne. cbn.
  apply Ho. intros E'. by apply Hne, as_bytes_inj.
Qed.

(** *** Links *)

(** Every block under a codec that has links has them recorded. *)
Definition links_recorded db : Prop :=
  forall c b, get_block db c = Ok (Some b) -> cid_codec c = DAG_CBOR \/ cid_codec c = RAW ->
    exists links : list Cid, references (cid_codec c) b = Ok links /\ get_block_links db c = Ok (Some links).

Lemma link_key_inj c c' : link_key c = link_key c' -> c = c'.
Proof.
  unfold link_key. intros E%as_bytes_inj. assert (Ok c = Ok c') as E' by (rewrite <- !cid_of_to_string; by rewrite E). congruence.
Qed.

(** A block that is put with its links, whatever codec its CID has. *)
Lemma put_block_and_links_spec db c b :
  (cid_codec c = DAG_CBOR \/ cid_codec c = RAW -> exists links : list Cid, references (cid_codec c) b = Ok links) ->
  exists db', put_block_and_links c b db = (Ok tt, db') /\ version_store db' = version_store db /\
    get_block db' c = Ok (Some b) /\ (forall c', c' <> c -> get_block db' c' = get_block db c') /\
    (links_recorded db -> links_recorded db').
Proof.
  intros Hl. unfold put_block_and_links. cbn [put_block db_block_store]. unfold db_put_block.
  destruct (put_block_spec (block_store db) c b) as (s' & E & Hg & Ho). rewrite E. cbn [try_with].
  set (db1 := mkDb s' (link_store db) (version_store db) (metadata_store db)).
  assert (forall codec, cid_codec c = codec -> codec = DAG_CBOR \/ codec = RAW ->
    exists db', put_links db1 codec c b = (Ok tt, db') /\ version_store db' = version_store db /\
    get_block db' c = Ok (Some b) /\ (forall c', c' <> c -> get_block db' c' = get_block db c') /\
    (links_recorded db -> links_recorded db')) as Hput.
  { intros codec Hcodec Hk. destruct Hl as [links Hl]; [by rewrite Hcodec|]. rewrite Hcodec in Hl.
    cbn [put_links db_block_store]. unfold db_put_links. rewrite Hl. cbn [try_with].
    destruct (set_key_spec (Cid := Cid) (link_store db1) (link_key c) links) as (kv & Ek & Hr & Hother). rewrite Ek.
    eexists. split; [done|]. split; [done|]. split; [done|]. split; [done|]. intros Hrec c' b' Hb' Hcod.
    destruct (decide (c' = c)) as [->|Hne].
    - exists links. assert (b' = b) as -> by (cbn in Hb'; unfold db_get_block in Hb'; cbn in Hb'; congruence).
      rewrite Hcodec. split; [done|]. exact Hr.
    - cbn in Hb'. unfold db_get_block in Hb'. cbn in Hb'. rewrite Ho in Hb' by done.
      destruct (Hrec c' b' Hb' Hcod) as (links' & Hl' & Hg'). exists links'. split; [done|].
      rewrite <- Hg'. unfold get_block_links. cbn. apply get_key_ext, Hother. intros E'. by apply Hne, link_key_inj. }
  destruct (N.eqb_spec (cid_codec c) DAG_CBOR) as [Ec|Ec]; [by apply Hput; [|left]|].
  destruct (N.eqb_spec (cid_codec c) RAW) as [Er|Er]; [by apply Hput; [|right]|].
  exists db1. split; [done|]. split; [done|]. split; [done|]. split; [done|]. intros Hrec c' b' Hb' Hcod.
  assert (c' <> c) as Hne by (intros ->; naive_solver). cbn in Hb'. unfold db_get_block in Hb'. cbn in Hb'.
  rewrite Ho in Hb' by done. by apply (Hrec c' b').
Qed.
End db_facts.

(** ** Streams of blocks, into any lawful block store *)
Section block_streams.
Context {S Cid : Type} `{EqDecision Cid} `{CidLaws Cid} `{!BlockStore S Cid} `{!BlockStoreLaws S Cid}.
Implicit Types (s : S) (c : Cid) (b : bytes).

(** A block under the CID derived from it, of a codec whose links can be read. *)
Definition sound_block (cb : Cid * bytes) : Prop :=
  cb.1 = derive_cid (cid_codec cb.1) cb.2 /\
  (cid_codec cb.1 = DAG_CBOR \/ cid_codec cb.1 = RAW -> exists links : list Cid, references (cid_codec cb.1) cb.2 = Ok links).

Lemma put_sound_block s c b : sound_block (c, b) ->
  exists s', put_block_and_links c b s = (Ok tt, s') /\ store_le s s' /\ authentic s' c b.
Proof.
  intros [Hc Hl]. cbn in Hc, Hl. unfold put_block_and_links. destruct (put_block_spec s c b) as (s1 & E1 & Hg1 & Ho1).
  rewrite E1. cbn [try_with].
  assert (forall s', (forall c', get_block s' c' = get_block s1 c') -> store_le s s' /\ authentic s' c b) as Hle.
  { intros s' Hs'. split; [|split; [by rewrite Hs'|done]]. intros c' b' [Hg Hd]. split; [|done]. rewrite Hs'.
    destruct (decide (c' = c)) as [->|Hne]; [|by rewrite Ho1]. rewrite Hg1. do 2 f_equal.
    eapply (derive_cid_inj (Cid := Cid)). by rewrite <- Hd, <- Hc. }
  assert (forall codec, cid_codec c = codec -> codec = DAG_CBOR \/ codec = RAW ->
    exists s', put_links s1 codec c b = (Ok tt, s') /\ store_le s s' /\ authentic s' c b) as Hput.
  { intros codec Hcodec Hk. destruct Hl as [links Hl]; [by rewrite Hcodec|]. rewrite Hcodec in Hl.
    destruct (put_links_spec s1 codec c b links Hl) as (s2 & -> & Hg2). exists s2. split; [done|]. by apply Hle. }
  destruct (N.eqb_spec (cid_codec c) DAG_CBOR); [by apply Hput; [|left]|].
  destruct (N.eqb_spec (cid_codec c) RAW); [by apply Hput; [|right]|].
  exists s1. split; [done|]. by apply Hle.
Qed.

Lemma put_blocks_spec s (blocks : list (Cid * bytes)) : Forall sound_block blocks ->
  exists s', for_each_st (fun '(cid, block) => put_block_and_links cid block) blocks s = (Ok tt, s') /\ store_le s s' /\
    forall c b, (c, b) ∈ blocks -> authentic s' c b.
Proof.
  intros Hs. revert s. induction Hs as [|[c b] blocks Hcb _ IH]; intros s.
  { exists s. split; [done|]. split; [done|]. by intros c b ?%elem_of_nil. }
  destruct (put_sound_block s c b Hcb) as (s1 & E1 & Hle1 & Ha). destruct (IH s1) as (s2 & E2 & Hle2 & Hall).
  exists s2. cbn [for_each_st]. rewrite E1. cbn [try_with]. split; [exact E2|]. split; [by transitivity s1|].
  intros c' b' [[= -> ->]|Hin]%elem_of_cons; [by apply Hle2|auto].
Qed.

Lemma put_block_stream_spec s (blocks : list (Cid * bytes)) r : Forall sound_block blocks ->
  exists s', put_block_stream s (blocks, r) = (r, s') /\ store_le s s' /\ forall c b, (c, b) ∈ blocks -> authentic s' c b.
Proof.
  intros Hs. unfold put_block_stream. destruct (put_blocks_spec s blocks Hs) as (s' & -> & Hle & Hall). by exists s'.
Qed.

Lemma stored_of_authentic {T} `{!BlockCodec T} s c (x : T) b :
  block_of x = Ok b -> c = derive_cid DAG_CBOR b -> authentic s c b -> stored s c x.
Proof. intros Hb Hc [Hg _]. by exists b. Qed.
End block_streams.

(** ** Walking the links *)
Section query.
Context {Cid B KV : Type} `{Countable Cid} `{CidOps Cid} `{!BlockStore B Cid} `{Store KV}.
Context `{!BlockCodec Cid} `{!BlockCodec (list Cid)}.
Notation SphereDb := (SphereDb B KV).
Context (db : SphereDb) (predicate : Cid -> outcome bool).
Implicit Types (c d : Cid) (V U : gset Cid).

Definition links_of c : list Cid := match get_block_links db c with Ok (Some links) => links | _ => [] end.

(** The predicate and the links of every CID can be read. *)
Definition queryable : Prop :=
  (forall c, exists p, predicate c = Ok p) /\ (forall c, exists links, get_block_links db c = Ok links).

(** What can be reached from [c] through CIDs that the predicate accepts. *)
Inductive linked c : Cid -> Prop :=
  | linked_root : predicate c = Ok true -> linked c c
  | linked_step d e : linked c d -> e ∈ links_of d -> predicate e = Ok true -> linked c e.

(** [U] has every CID that can come up. *)
Definition closed U : Prop := forall c d, c ∈ U -> d ∈ links_of c -> d ∈ U.

Definition pending U V : nat := sum_list_with (fun c => length (links_of c)) (elements (U ∖ V)).

Lemma pending_visit U V c : c ∈ U -> c ∉ V -> pending U V = length (links_of c) + pending U ({[c]} ∪ V).
Proof.
  intros Hu Hv. unfold pending. assert (elements (U ∖ V) ≡ₚ c :: elements (U ∖ ({[c]} ∪ V))) as ->; [|done].
  rewrite <- elements_union_singleton by set_solver. f_equiv. intros d.
  destruct (decide (d = c)); set_solver.
Qed.

Lemma pending_skip U V c : pending U ({[c]} ∪ V) <= pending U V.
Proof.
  destruct (decide (c ∈ U)) as [Hu|Hu]; [destruct (decide (c ∈ V)) as [Hv|Hv]|].
  - by replace ({[c]} ∪ V) with V by set_solver.
  - rewrite (pending_visit U V c Hu Hv). lia.
  - unfold pending. by replace (U ∖ ({[c]} ∪ V)) with (U ∖ V) by set_solver.
Qed.

(** The loop ends, yields nothing twice, and yields what the predicate accepts of
    the CIDs that remain and of the links of what it yields. *)
Lemma query_loop_spec U : queryable -> closed U -> forall fuel V L,
  (forall c, c ∈ L -> c ∈ U) -> length L + pending U V <= fuel ->
  exists items, query_links_loop fuel db predicate V L = (items, Ok tt) /\ NoDup items /\
    (forall c, c ∈ items -> c ∉ V /\ predicate c = Ok true /\
      exists l, l ∈ L /\ linked l c) /\
    (forall c, c ∈ L -> predicate c = Ok true -> c ∈ V \/ c ∈ items) /\
    (forall c d, c ∈ items -> d ∈ links_of c -> predicate d = Ok true -> d ∈ V \/ d ∈ items).
Proof.
  intros [Hpred Hlinks] HU. induction fuel as [|fuel IH]; intros V L HL Hf;
    (destruct (vec_pop_cases L) as [->|(c & r & -> & Hp)];
      [exists []; split; [done|]; split; [by apply NoDup_nil|]; split; [|split]; [intros c Hc|intros c Hc|intros c d Hc]; by apply elem_of_nil in Hc|]);
    rewrite length_app in Hf; cbn [length] in Hf; [lia|].
  cbn [query_links_loop]. rewrite Hp. case_bool_decide as Hv.
  { destruct (IH V r) as (items & E & Hnd & Hs & Hc & Hcl); [set_solver|lia|]. exists items. split; [done|]. split; [done|].
    split; [|split; [|done]].
    - intros x Hx. destruct (Hs x Hx) as (? & ? & l & ? & ?). split; [done|]. split; [done|]. exists l. set_solver.
    - intros x [Hx|Hx%list_elem_of_singleton]%elem_of_app Hpx; [auto|]. subst x. by left. }
  destruct (Hpred c) as [[] Epc]; rewrite Epc.
  - destruct (Hlinks c) as [links El]. rewrite El.
    assert (default [] links = links_of c) as Hlc by (unfold links_of; rewrite El; by destruct links).
    destruct (IH ({[c]} ∪ V) (r ++ default [] links)) as (items & E & Hnd & Hs & Hc & Hcl).
    { intros x [Hx|Hx]%elem_of_app; [set_solver|]. rewrite Hlc in Hx. eapply HU; [|exact Hx]. set_solver. }
    { rewrite length_app, Hlc. assert (c ∈ U) as Hcu by set_solver. rewrite (pending_visit U V c Hcu Hv) in Hf. lia. }
    rewrite E. exists (c :: items). split; [done|]. split.
    { constructor; [|done]. intros Hin. destruct (Hs c Hin) as [Hnot _]. set_solver. }
    split; [|split].
    + intros x [->|Hx]%elem_of_cons.
      * split; [done|]. split; [done|]. exists c. split; [set_solver|]. by constructor.
      * destruct (Hs x Hx) as (Hxv & Hpx & l & Hl & Hlk). split; [set_solver|]. split; [done|].
        apply elem_of_app in Hl as [Hl|Hl]; [exists l; set_solver|]. exists c. split; [set_solver|].
        rewrite Hlc in Hl. clear -Hlk Hl Epc. induction Hlk as [Hpl|d e Hd IHd He Hpe].
        -- eapply linked_step; [by apply linked_root|done|done].
        -- by eapply linked_step.
    + intros x [Hx|Hx%list_elem_of_singleton]%elem_of_app Hpx; [|set_solver].
      destruct (Hc x) as [Hxv|Hxi]; [set_solver|done|set_solver|set_solver].
    + intros x d [->|Hx]%elem_of_cons Hd Hpd.
      * destruct (Hc d) as [?|?]; [rewrite Hlc; set_solver|done|set_solver|set_solver].
      * destruct (Hcl x d Hx Hd Hpd); set_solver.
  - destruct (IH ({[c]} ∪ V) r) as (items & E & Hnd & Hs & Hc & Hcl); [set_solver|pose proof (pending_skip U V c); lia|].
    rewrite E. exists items. split; [done|]. split; [done|].
    assert (forall x, predicate x = Ok true -> x ∈ {[c]} ∪ V \/ x ∈ items -> x ∈ V \/ x ∈ items) as Hne.
    { intros x Hpx [Hx|Hx]; [|by right]. apply elem_of_union in Hx as [Hx%elem_of_singleton|Hx]; [congruence|by left]. }
    split; [|split].
    + intros x Hx. destruct (Hs x Hx) as (? & ? & l & ? & ?). split; [set_solver|]. split; [done|]. exists l. set_solver.
    + intros x [Hx|Hx%list_elem_of_singleton]%elem_of_app Hpx; [by apply Hne, Hc|congruence].
    + intros x d Hx Hd Hpd. by apply Hne, (Hcl x d).
Qed.

(** From one root: exactly what is linked to it, each once. *)
Lemma query_links_spec U c fuel : queryable -> closed U -> c ∈ U -> 1 + pending U ∅ <= fuel ->
  exists items, query_links fuel db c predicate = (items, Ok tt) /\ NoDup items /\ forall d, d ∈ items <-> linked c d.
Proof.
  intros Hq HU Hc Hf. destruct (query_loop_spec U Hq HU fuel ∅ [c]) as (items & E & Hnd & Hs & Hr & Hcl).
  { intros d ->%list_elem_of_singleton. done. }
  { cbn. lia. }
  exists items. split; [exact E|]. split; [done|]. intros d. split.
  - intros Hd. destruct (Hs d Hd) as (_ & _ & l & ->%list_elem_of_singleton & Hl). done.
  - induction 1 as [Hp|d e Hd IHd He Hpe].
    + destruct (Hr c) as [?%elem_of_empty|?]; [set_solver|done|done|done].
    + destruct (Hcl d e IHd He Hpe) as [?%elem_of_empty|?]; done.
Qed.
End query.
