(* ===== verification/BodyChunk.v ===== *)
(** * Body chunks

    Model of [noosphere-core/src/data/body_chunk.rs] and of the decoder in
    [context/content/decoder.rs]: the body of a memo is cut into chunks by the
    [fastcdc] crate, and the chunks are stored as a linked list, last one first.

    A list in a store has no bound of its own: [fuel] bounds the number of chunks
    that a reader visits. *)
From stdpp Require Import base list numbers strings.
From Stdlib Require Import Ascii String.
From S2P Require Import Prelude BlockStore.
#[local] Open Scope list_scope.
#[local] Notation length := List.length (only parsing).

(** [FastCDC::new(bytes, min, avg, max)] as an iterator of offsets and lengths,
    and [fastcdc::v2020::MINIMUM_MIN]. *)
Class FastCdc := {
  minimum_min : N;
  fastcdc : bytes -> N -> N -> N -> list (nat * nat);
}.

(** The chunks follow one another and cover the bytes from [start] to [stop]. *)
Fixpoint consecutive (start stop : nat) (chunks : list (nat * nat)) : Prop :=
  match chunks with
  | [] => start = stop
  | (offset, len) :: chunks' => offset = start /\ 0 < len /\ consecutive (start + len) stop chunks'
  end.

Class FastCdcLaws `{FastCdc} := {
  fastcdc_covers : forall b min avg max, consecutive 0 (length b) (fastcdc b min avg max);
  fastcdc_bounded : forall b min avg max, (0 < max)%N -> Forall (fun c => N.of_nat c.2 <= max)%N (fastcdc b min avg max);
}.

Definition BODY_CHUNK_MAX_SIZE : N := 1024 * 1024.

Record BodyChunkIpld (Cid : Type) := mkBodyChunk { chunk_bytes : bytes; chunk_next : option Cid }.
Arguments mkBodyChunk {Cid} _ _.
Arguments chunk_bytes {Cid} _.
Arguments chunk_next {Cid} _.

Section body_chunk.
Context {S Cid : Type} `{CidOps Cid} `{!BlockStore S Cid} `{!BlockCodec (BodyChunkIpld Cid)} `{FastCdc}.
Implicit Types (s : S) (cid : Cid).

(** [&bytes[offset..end]]. *)
Definition slice_bytes (b : bytes) (chunk : nat * nat) : outcome bytes :=
  let '(offset, len) := chunk in
  if decide (offset + len <= length b) then Ok (take len (drop offset b))
  else Panic "range end index out of range for slice".

(** The second loop of [store_bytes], over the chunks from the last. *)
Fixpoint store_chunks (byte_chunks : list bytes) (next_chunk_cid : option Cid) s : outcome (option Cid) * S :=
  match byte_chunks with
  | [] => (Ok next_chunk_cid, s)
  | byte_chunk :: rest =>
      let '(r, s) := save s (mkBodyChunk byte_chunk next_chunk_cid) in
      let? cid := r keeping s in store_chunks rest (Some cid) s
  end.

Definition store_bytes (b : bytes) s : outcome Cid * S :=
  let chunks := fastcdc b minimum_min (BODY_CHUNK_MAX_SIZE / 2) BODY_CHUNK_MAX_SIZE in
  let? byte_chunks := try_map (slice_bytes b) chunks keeping s in
  let '(r, s) := store_chunks (reverse byte_chunks) None s in
  let? next_chunk_cid := r keeping s in
  (ok_or "No CID; did you try to store zero bytes?" next_chunk_cid, s).

Fixpoint load_all_loop (fuel : nat) s (all_bytes : bytes) (next_cid : option Cid) : outcome bytes :=
  match next_cid with
  | None => Ok all_bytes
  | Some cid =>
      match fuel with
      | O => Diverge
      | Datatypes.S fuel' =>
          let? chunk := load s cid in
          load_all_loop fuel' s (all_bytes ++ chunk_bytes (chunk : BodyChunkIpld Cid)) (chunk_next chunk)
      end
  end.

Definition load_all_bytes (fuel : nat) s (self : BodyChunkIpld Cid) : outcome bytes :=
  load_all_loop fuel s (chunk_bytes self) (chunk_next self).

(** [BodyChunkDecoder::stream]: what it yields and how it ends. *)
Fixpoint decoder_stream (fuel : nat) s (next : option Cid) : list bytes * outcome unit :=
  match next with
  | None => ([], Ok tt)
  | Some cid =>
      match fuel with
      | O => ([], Diverge)
      | Datatypes.S fuel' =>
          match load s cid with
          | Ok chunk =>
              let '(items, r) := decoder_stream fuel' s (chunk_next (chunk : BodyChunkIpld Cid)) in
              (chunk_bytes chunk :: items, r)
          | Err e => ([], Err e)
          | Panic w => ([], Panic w)
          | Diverge => ([], Diverge)
          end
      end
  end.

(** [StreamReader::read_to_end] over the decoder. *)
Definition read_body (fuel : nat) s cid : outcome bytes :=
  let '(items, r) := decoder_stream fuel s (Some cid) in let? _ := r in Ok (mjoin items).
End body_chunk.

Section body_chunk_facts.
Context {S Cid : Type} `{EqDecision Cid} `{CidLaws Cid} `{!BlockStore S Cid} `{!BlockStoreLaws S Cid}.
Context `{!BlockCodec (BodyChunkIpld Cid)} `{!BlockCodecLaws Cid (BodyChunkIpld Cid)}.
Implicit Types (s : S) (c : Cid) (bs : list bytes).

(** The list of chunks [bs] is stored from [next] on. *)
Inductive chunks_at s : option Cid -> list bytes -> Prop :=
  | chunks_end : chunks_at s None []
  | chunks_cons c b next bs : stored s c (mkBodyChunk b next) -> chunks_at s next bs -> chunks_at s (Some c) (b :: bs).

Lemma chunks_at_mono s s' next bs : store_le s s' -> chunks_at s next bs -> chunks_at s' next bs.
Proof. intros Hle. induction 1 as [|c b next bs Hc _ IH]; [constructor|]. eapply chunks_cons; [exact (stored_mono _ _ _ _ Hle Hc)|done]. Qed.

Lemma store_chunks_spec bs : forall next tail s, chunks_at s next tail ->
  exists next' s', store_chunks bs next s = (Ok next', s') /\ store_le s s' /\ chunks_at s' next' (reverse bs ++ tail).
Proof.
  induction bs as [|b bs IH]; intros next tail s Ht; [by exists next, s|].
  destruct (save_spec s (mkBodyChunk b next)) as (c & s1 & E1 & Hle1 & Hc). cbn [store_chunks]. rewrite E1. cbn [try_with].
  destruct (IH (Some c) (b :: tail) s1) as (next' & s2 & E2 & Hle2 & Hall).
  { eapply chunks_cons; [done|by eapply chunks_at_mono]. }
  exists next', s2. split; [exact E2|]. split; [by transitivity s1|]. by rewrite reverse_cons, <- app_assoc.
Qed.

Lemma load_all_spec s next bs : chunks_at s next bs -> forall fuel acc, length bs <= fuel ->
  load_all_loop fuel s acc next = Ok (acc ++ mjoin bs).
Proof.
  induction 1 as [|c b next bs Hc _ IH]; intros fuel acc Hf; [by destruct fuel; cbn; rewrite app_nil_r|].
  destruct fuel as [|fuel]; [cbn in Hf; lia|]. cbn [load_all_loop]. rewrite (stored_load _ _ _ Hc). cbn [outcome_bind chunk_bytes chunk_next].
  rewrite IH by (cbn in Hf; lia). cbn [mjoin list_join]. by rewrite app_assoc.
Qed.

Lemma decoder_spec s next bs : chunks_at s next bs -> forall fuel, length bs <= fuel ->
  decoder_stream fuel s next = (bs, Ok tt).
Proof.
  induction 1 as [|c b next bs Hc _ IH]; intros fuel Hf; [by destruct fuel|].
  destruct fuel as [|fuel]; [cbn in Hf; lia|]. cbn [decoder_stream]. rewrite (stored_load _ _ _ Hc). cbn [chunk_bytes chunk_next].
  rewrite IH by (cbn in Hf; lia). done.
Qed.

Context `{FastCdcLaws}.

Lemma consecutive_le chunks : forall start stop, consecutive start stop chunks -> start <= stop.
Proof.
  induction chunks as [|[o l] chunks IH]; intros start stop Hc; cbn in Hc; [lia|]. destruct Hc as (-> & ? & Hc).
  apply IH in Hc. lia.
Qed.

(** The slices of consecutive chunks are the bytes. *)
Lemma slices_spec (b : bytes) chunks : forall start, consecutive start (length b) chunks -> start <= length b ->
  exists bs, try_map (slice_bytes b) chunks = Ok bs /\ mjoin bs = drop start b /\ length bs <= length b - start /\
    Forall2 (fun (chunk : nat * nat) (x : bytes) => length x = chunk.2) chunks bs.
Proof.
  induction chunks as [|[offset len] chunks IH]; intros start Hc Hs; cbn in Hc.
  { exists []. subst start. split; [done|]. rewrite drop_ge by lia. split; [done|]. split; [cbn; lia|constructor]. }
  destruct Hc as (-> & Hl & Hc).
  pose proof (consecutive_le _ _ _ Hc) as Hle.
  destruct (IH (start + len) Hc Hle) as (bs & E & Hcat & Hlen & Hall).
  exists (take len (drop start b) :: bs). rewrite try_map_cons. unfold slice_bytes at 1. rewrite decide_True by done.
  cbn [outcome_bind]. rewrite E. split; [done|]. split; [change (take len (drop start b) ++ mjoin bs = drop start b); by rewrite Hcat, <- drop_drop, take_drop|].
  split; [cbn; lia|]. constructor; [|done]. cbn. rewrite length_take, length_drop. lia.
Qed.

Lemma chunk_sizes max chunks (bs : list bytes) : Forall2 (fun (chunk : nat * nat) (x : bytes) => length x = chunk.2) chunks bs ->
  Forall (fun chunk : nat * nat => N.of_nat chunk.2 <= max)%N chunks -> forall start stop, consecutive start stop chunks ->
  Forall (fun x => 0 < length x /\ (N.of_nat (length x) <= max)%N) bs.
Proof.
  induction 1 as [|[o l] y chunks ys Hy _ IH]; intros Hbnd start stop Hcov; [constructor|].
  apply Forall_cons_1 in Hbnd as [Hb1 Hb2]. cbn in Hcov, Hb1, Hy. destruct Hcov as (_ & Hl & Hcov).
  constructor; [by rewrite Hy|]. exact (IH Hb2 _ _ Hcov).
Qed.

Lemma store_bytes_spec (b : bytes) s : b <> [] ->
  exists c s' bs, store_bytes b s = (Ok c, s') /\ store_le s s' /\ chunks_at s' (Some c) bs /\ mjoin bs = b /\
    length bs <= length b /\ Forall (fun x => 0 < length x /\ (N.of_nat (length x) <= BODY_CHUNK_MAX_SIZE)%N) bs.
Proof.
  intros Hb. unfold store_bytes. set (chunks := fastcdc b _ _ _).
  pose proof (fastcdc_covers b minimum_min (BODY_CHUNK_MAX_SIZE / 2) BODY_CHUNK_MAX_SIZE) as Hcov. fold chunks in Hcov.
  pose proof (fastcdc_bounded b minimum_min (BODY_CHUNK_MAX_SIZE / 2) BODY_CHUNK_MAX_SIZE eq_refl) as Hbnd. fold chunks in Hbnd.
  destruct (slices_spec b chunks 0 Hcov ltac:(lia)) as (bs & -> & Hcat & Hlen & Hall). cbn [try_with].
  destruct (store_chunks_spec (reverse bs) None [] s (chunks_end s)) as (next & s' & -> & Hle & Hat). cbn [try_with].
  rewrite reverse_involutive, app_nil_r in Hat. rewrite drop_0 in Hcat.
  destruct Hat as [|c x next' bs Hx Hat]; [by destruct Hb|].
  exists c, s', (x :: bs). split; [done|]. split; [done|]. split; [by eapply chunks_cons|]. split; [done|]. split; [lia|].
  by eapply chunk_sizes.
Qed.

(** No bytes, no chunk. *)
Lemma store_bytes_empty s : store_bytes [] s = (Err "No CID; did you try to store zero bytes?", s).
Proof.
  unfold store_bytes. pose proof (fastcdc_covers [] minimum_min (BODY_CHUNK_MAX_SIZE / 2) BODY_CHUNK_MAX_SIZE) as Hcov.
  destruct (fastcdc _ _ _ _) as [|[o l] chunks]; [done|]. exfalso. cbn in Hcov. destruct Hcov as (-> & Hl & Hcov).
  apply consecutive_le in Hcov. lia.
Qed.
End body_chunk_facts.
