(* ===== verification/Memo.v ===== *)
(** * Memos

    Model of [noosphere-core/src/data/memo.rs] and of the enumerations of
    well-known header values (data/headers).  A memo pairs a list of headers
    with the CID of a body and the CID of the memo it succeeds; header names
    compare without regard to case, and a name may occur more than once.

    [str::to_lowercase] is Unicode-aware: it is the parameter [Unicode], and
    [UnicodeLaws] states that on ASCII strings it lowers the ASCII letters.

    Each operation on headers, seen through [get_header]: what it does to the
    values under its own name (in any letter case) and that it leaves the values
    under every other name as they were. *)
From stdpp Require Import base gmap list numbers strings pretty.
From Stdlib Require Import Ascii String.
From S2P Require Import Prelude BlockStore HamtNode HamtRep BTree UcanCapability Ucan.
#[local] Open Scope list_scope.
#[local] Notation length := List.length (only parsing).

(** ** Letter case *)
Class Unicode := to_lowercase : string -> string.

Definition lower_ascii (a : ascii) : ascii :=
  if ascii_between 65 90 a then ascii_of_N (N_of_ascii a + 32) else a.

Fixpoint lower_string (s : string) : string :=
  match s with EmptyString => EmptyString | String a s' => String (lower_ascii a) (lower_string s') end.

Definition is_ascii (s : string) : bool := string_forallb (fun a => (N_of_ascii a <? 128)%N) s.

Class UnicodeLaws `{Unicode} := to_lowercase_ascii : forall s, is_ascii s = true -> to_lowercase s = lower_string s.

(** ** Well-known header values (data/headers) *)
Module Header.
Inductive t : Type :=
  | ContentLength
  | ContentType
  | Proof
  | Author
  | Title
  | Signature
  | Version
  | FileExtension
  | LamportOrder
  | Unknown (name : string).

Definition deref (self : t) : string :=
  match self with
  | ContentLength => "Content-Length"
  | ContentType => "Content-Type"
  | Proof => "Proof"
  | Author => "Author"
  | Title => "Title"
  | Signature => "Signature"
  | Version => "Version"
  | FileExtension => "File-Extension"
  | LamportOrder => "Lamport-Order"
  | Unknown name => name
  end.

Definition from_str `{Unicode} (s : string) : t :=
  let lower := to_lowercase s in
  if bool_decide (lower = "content-length") then ContentLength
  else if bool_decide (lower = "content-type") then ContentType
  else if bool_decide (lower = "file-extension") then FileExtension
  else if bool_decide (lower = "proof") then Proof
  else if bool_decide (lower = "author") then Author
  else if bool_decide (lower = "title") then Title
  else if bool_decide (lower = "signature") then Signature
  else if bool_decide (lower = "version") then Version
  else if bool_decide (lower = "lamport-order") then LamportOrder
  else Unknown s.
End Header.

Module ContentType.
Inductive t : Type :=
  | Text
  | Subtext
  | Sphere
  | Bytes
  | Cbor
  | Json
  | Unknown (content_type : string).

Definition deref (self : t) : string :=
  match self with
  | Text => "text/plain"
  | Subtext => "text/subtext"
  | Sphere => "noo/sphere"
  | Bytes => "raw/bytes"
  | Cbor => "application/cbor"
  | Json => "application/json"
  | Unknown content_type => content_type
  end.

Definition from_str (s : string) : t :=
  if bool_decide (s = "text/plain") then Text
  else if bool_decide (s = "text/subtext") then Subtext
  else if bool_decide (s = "noo/sphere") then Sphere
  else if bool_decide (s = "raw/bytes") then Bytes
  else if bool_decide (s = "application/json") then Json
  else if bool_decide (s = "application/cbor") then Cbor
  else Unknown s.
End ContentType.

Module Version.
Inductive t : Type := V0 | Unknown (version : string).

Definition to_string (self : t) : string := match self with V0 => "0" | Unknown header => header end.

Definition from_str (s : string) : t := if bool_decide (s = "0") then V0 else Unknown s.

Definition try_into_u32 (value : t) : outcome N :=
  match value with V0 => Ok 0%N | Unknown _ => Err "Unrecognized version" end.
End Version.

(** ** Memos *)
Record MemoIpld (Cid : Type) := mkMemo {
  parent : option Cid;
  headers : list (string * string);
  body : Cid;
}.
Arguments mkMemo {Cid} _ _ _.
Arguments parent {Cid} _.
Arguments headers {Cid} _.
Arguments body {Cid} _.

Section memo.
Context {Cid : Type} `{Unicode}.
Notation MemoIpld := (MemoIpld Cid).
Implicit Types (memo : MemoIpld) (name value : string).

Definition with_headers memo (hs : list (string * string)) : MemoIpld := mkMemo (parent memo) hs (body memo).
Definition with_parent memo (p : option Cid) : MemoIpld := mkMemo p (headers memo) (body memo).
Definition with_body memo (b : Cid) : MemoIpld := mkMemo (parent memo) (headers memo) b.

Definition same_name (a b : string) : bool := bool_decide (to_lowercase a = to_lowercase b).

Definition get_header memo name : list string :=
  snd <$> filter (fun h => same_name h.1 name = true) (headers memo).

Fixpoint first_header (hs : list (string * string)) (name : string) : option string :=
  match hs with
  | [] => None
  | (a_name, a_value) :: hs' => if same_name a_name name then Some a_value else first_header hs' name
  end.

Definition get_first_header memo name : option string := first_header (headers memo) name.

Definition expect_header memo name value : outcome unit :=
  if existsb (fun h => same_name h.1 name && bool_decide (h.2 = value)) (headers memo) then Ok tt
  else Err "Expected to find a header".

(** The closure of [replace_first_header] counts the matches in [found]. *)
Fixpoint replace_loop (name value : string) (found : nat) (hs : list (string * string))
    : list (string * string) * nat :=
  match hs with
  | [] => ([], found)
  | (a_name, a_value) :: hs' =>
      if same_name a_name name then
        let '(rest, found') := replace_loop name value (S found) hs' in
        ((if (found =? 0)%nat then [(name, value)] else []) ++ rest, found')
      else
        let '(rest, found') := replace_loop name value found hs' in ((a_name, a_value) :: rest, found')
  end.

Definition replace_first_header memo name value : MemoIpld :=
  let '(hs, found) := replace_loop name value 0 (headers memo) in
  with_headers memo (if (found =? 0)%nat then hs ++ [(name, value)] else hs).

Definition replace_headers memo (new_headers : list (string * string)) : MemoIpld :=
  let new_header_set := foldl (fun set h => {[to_lowercase h.1]} ∪ set) (∅ : gset string) new_headers in
  with_headers memo (filter (fun h => to_lowercase h.1 ∉ new_header_set) (headers memo) ++ new_headers).

Definition remove_header memo name : MemoIpld :=
  with_headers memo (filter (fun h => to_lowercase h.1 <> to_lowercase name) (headers memo)).

Definition content_type memo : option ContentType.t :=
  ContentType.from_str <$> get_first_header memo (Header.deref Header.ContentType).

(** [u32::from_str(..).unwrap_or_default()]. *)
Definition lamport_order memo : N :=
  match get_first_header memo (Header.deref Header.LamportOrder) with
  | Some order => default 0%N (parse_unsigned (2 ^ 32) order)
  | None => 0%N
  end.

(** [for (name, value) in headers] visits a [BTreeMap] in key order; collecting
    keeps the last value of a repeated name.  A header is in the difference when
    the other memo has no header of that name or one with another value. *)
Definition collect_headers (hs : list (string * string)) : list (string * string) :=
  foldl (fun t h => btree_insert t h.1 h.2) [] hs.

Definition diff_headers memo (other : MemoIpld) : list (string * string) :=
  let other_headers := collect_headers (headers other) in
  filter (fun h => btree_get other_headers h.1 <> Some h.2) (collect_headers (headers memo)).

Section proofs_of_memos.
Context `{Base64} `{DagJson UcanHeader} `{DagJson UcanPayload}.

Definition get_proof memo : outcome (option Ucan) :=
  match get_first_header memo (Header.deref Header.Proof) with
  | Some since_proof =>
      match ucan_from_str since_proof with
      | Ok ucan => Ok (Some ucan)
      | Err _ => Ok None
      | Panic w => Panic w
      | Diverge => Diverge
      end
  | None => Ok None
  end.

Definition require_proof memo : outcome Ucan :=
  let? proof := get_proof memo in ok_or "No valid 'proof' header found" proof.

Context {Key : Type} `{KeyMaterial Key} `{CidOps Cid}.

Definition memo_sign memo (credential : Key) (proof : option Ucan) : outcome unit * MemoIpld :=
  let? sig := key_sign credential (cid_to_bytes (body memo)) keeping memo in
  let memo := replace_first_header memo (Header.deref Header.Signature) (b64_encode sig) in
  let '(r, memo) :=
    match proof with
    | Some proof =>
        let? jwt := ucan_encode proof keeping memo in
        (Ok tt, replace_first_header memo (Header.deref Header.Proof) jwt)
    | None => (Ok tt, remove_header memo (Header.deref Header.Proof))
    end in
  let? _ := r keeping memo in
  let? did := get_did credential keeping memo in
  (Ok tt, replace_first_header memo (Header.deref Header.Author) did).
End proofs_of_memos.

Section stored_memos.
Context {S : Type} `{CidOps Cid} `{EqDecision Cid} `{!BlockStore S Cid} `{!BlockCodec MemoIpld}.

Definition compare_body memo (s : S) : outcome bool :=
  match parent memo with
  | None => Ok true
  | Some parent_cid =>
      let? parent_memo := load s parent_cid in
      Ok (negb (bool_decide (body memo = body (parent_memo : MemoIpld))))
  end.

Definition for_body {Body} `{BlockCodec Body} (s : S) (b : Body) : outcome MemoIpld * S :=
  let '(r, s') := save s b in
  let? body_cid := r keeping s' in (Ok (mkMemo None [] body_cid), s').

(** [memo.lamport_order() + 1] overflows at the largest [u32]. *)
Definition branch_from (cid : Cid) (s : S) : outcome MemoIpld :=
  let? memo := load s cid in
  let memo := with_parent memo (Some cid) in
  let memo := remove_header memo (Header.deref Header.Signature) in
  let memo := remove_header memo (Header.deref Header.Proof) in
  let order := lamport_order memo in
  if (order =? 2 ^ 32 - 1)%N then Panic "attempt to add with overflow"
  else Ok (replace_headers memo [(Header.deref Header.LamportOrder, pretty (order + 1)%N)]).
End stored_memos.
End memo.

(** ** Facts about memos *)
Section header_facts.
Context {Cid : Type} `{Unicode}.
Notation MemoIpld := (MemoIpld Cid).
Implicit Types (memo : MemoIpld) (hs : list (string * string)) (name value : string).

(** The values in [hs] under [name]. *)
Definition values hs name : list string := snd <$> filter (fun h => same_name h.1 name = true) hs.

Lemma same_name_true a b : same_name a b = true <-> to_lowercase a = to_lowercase b.
Proof. apply bool_decide_eq_true. Qed.

Lemma same_name_false a b : same_name a b = false <-> to_lowercase a <> to_lowercase b.
Proof. apply bool_decide_eq_false. Qed.

Lemma same_name_refl a : same_name a a = true.
Proof. by apply same_name_true. Qed.

Lemma get_header_values memo name : get_header memo name = values (headers memo) name.
Proof. done. Qed.

Lemma values_cons h hs name :
  values (h :: hs) name = (if same_name h.1 name then [h.2] else []) ++ values hs name.
Proof. unfold values. rewrite filter_cons. case_decide as E; [by rewrite E|]. by apply not_true_is_false in E as ->. Qed.

Lemma values_app hs hs' name : values (hs ++ hs') name = values hs name ++ values hs' name.
Proof. unfold values. by rewrite filter_app, fmap_app. Qed.

Lemma values_keep (P : string * string -> Prop) `{!forall h, Decision (P h)} hs name :
  (forall h, same_name h.1 name = true -> P h) -> values (filter P hs) name = values hs name.
Proof.
  intros HP. induction hs as [|h hs IH]; [done|]. rewrite filter_cons, values_cons.
  case_decide as E; [by rewrite values_cons, IH|]. rewrite IH.
  destruct (same_name h.1 name) eqn:Es; [|done]. by destruct E; apply HP.
Qed.

Lemma values_drop (P : string * string -> Prop) `{!forall h, Decision (P h)} hs name :
  (forall h, same_name h.1 name = true -> ~ P h) -> values (filter P hs) name = [].
Proof.
  intros HP. induction hs as [|h hs IH]; [done|]. rewrite filter_cons. case_decide as E; [|done].
  rewrite values_cons, IH. destruct (same_name h.1 name) eqn:Es; [|done]. by destruct (HP h Es).
Qed.

Lemma first_header_values hs name : first_header hs name = head (values hs name).
Proof.
  induction hs as [|[a v] hs IH]; [done|]. rewrite values_cons. cbn. by destruct (same_name a name).
Qed.

Lemma get_first_header_values memo name : get_first_header memo name = head (values (headers memo) name).
Proof. apply first_header_values. Qed.

Lemma expect_header_values memo name value :
  expect_header memo name value = Ok tt <-> value ∈ values (headers memo) name.
Proof.
  unfold expect_header. generalize (headers memo) as hs. induction hs as [|[a v] hs IH]; [by split; [|intros ?%elem_of_nil]|].
  rewrite values_cons, elem_of_app. cbn [existsb fst snd]. destruct (same_name a name); cbn [andb].
  - rewrite list_elem_of_singleton. case_bool_decide as E; cbn [orb]; [by split; [left|]|]. rewrite IH.
    split; [by right|]. intros [->|?]; done.
  - cbn [orb]. rewrite IH. split; [by right|]. by intros [?%elem_of_nil|].
Qed.

Lemma remove_header_same memo name n :
  same_name n name = true -> values (headers (remove_header memo name)) n = [].
Proof.
  intros Hn. unfold remove_header, with_headers. cbn [headers].
  apply values_drop. intros [a v]. cbn [fst].
  rewrite same_name_true in *. congruence.
Qed.

Lemma remove_header_other memo name n :
  same_name n name = false -> values (headers (remove_header memo name)) n = values (headers memo) n.
Proof.
  intros Hn. unfold remove_header, with_headers. cbn [headers].
  apply values_keep. intros [a v]. cbn [fst].
  rewrite same_name_true. rewrite same_name_false in Hn. congruence.
Qed.

Lemma replace_loop_found name value found hs :
  (replace_loop name value found hs).2 = found + length (values hs name).
Proof.
  revert found. induction hs as [|[a v] hs IH]; intros found; [cbn; lia|].
  rewrite values_cons. cbn [replace_loop fst]. destruct (same_name a name).
  - specialize (IH (S found)). destruct (replace_loop _ _ _ _) as [rest f]. cbn in *. lia.
  - specialize (IH found). destruct (replace_loop _ _ _ _) as [rest f]. cbn in *. lia.
Qed.

Lemma replace_loop_values name value found hs n :
  values (replace_loop name value found hs).1 n =
    if same_name n name then
      (if (found =? 0)%nat && negb (length (values hs name) =? 0)%nat then [value] else [])
    else values hs n.
Proof.
  revert found. induction hs as [|[a v] hs IH]; intros found; cbn [replace_loop].
  { cbn. rewrite andb_false_r. by destruct (same_name n name). }
  rewrite !values_cons. cbn [fst snd]. destruct (same_name a name) eqn:Ea.
  - specialize (IH (S found)). destruct (replace_loop _ _ _ _) as [rest f]. cbn [fst] in *.
    rewrite values_app, IH. cbn [Nat.eqb]. destruct (same_name n name) eqn:En.
    + destruct (found =? 0)%nat; [|done]. rewrite values_cons. cbn [fst snd].
      assert (same_name name n = true) as -> by (rewrite same_name_true in *; congruence). done.
    + assert (same_name a n = false) as -> by (rewrite same_name_false, same_name_true in *; congruence).
      destruct (found =? 0)%nat; [|done]. rewrite values_cons. cbn [fst snd].
      assert (same_name name n = false) as -> by (rewrite same_name_false in *; congruence). done.
  - specialize (IH found). destruct (replace_loop _ _ _ _) as [rest f]. cbn [fst] in *.
    rewrite values_cons, IH. cbn [fst snd]. destruct (same_name n name) eqn:En; [|done].
    assert (same_name a n = false) as -> by (rewrite same_name_false, same_name_true in *; congruence). done.
Qed.

Lemma replace_first_header_values memo name value n :
  values (headers (replace_first_header memo name value)) n =
    if same_name n name then [value] else values (headers memo) n.
Proof.
  unfold replace_first_header. pose proof (replace_loop_found name value 0 (headers memo)) as Hf.
  pose proof (replace_loop_values name value 0 (headers memo) n) as Hv.
  destruct (replace_loop _ _ _ _) as [hs found]. cbn [fst snd] in *. subst found. cbn [with_headers headers].
  cbn [Nat.eqb andb plus] in *. destruct (length (values (headers memo) name) =? 0)%nat eqn:El; [|done].
  rewrite values_app, Hv, values_cons. cbn [fst snd negb]. destruct (same_name n name) eqn:En.
  - assert (same_name name n = true) as -> by (rewrite same_name_true in *; congruence). done.
  - assert (same_name name n = false) as -> by (rewrite same_name_false in *; congruence).
    by rewrite app_nil_r.
Qed.

(** Setting one header. *)
Lemma replace_headers_values memo name value n :
  values (headers (replace_headers memo [(name, value)])) n =
    if same_name n name then [value] else values (headers memo) n.
Proof.
  unfold replace_headers, with_headers. cbn [headers foldl fst]. rewrite values_app, values_cons. cbn [fst snd].
  destruct (same_name n name) eqn:En.
  - rewrite values_drop.
    2: { intros [a v]. cbn [fst]. rewrite same_name_true in *. intros Ha Hnot. apply Hnot. apply elem_of_union_l, elem_of_singleton. congruence. }
    assert (same_name name n = true) as -> by (rewrite same_name_true in *; congruence). done.
  - rewrite values_keep.
    2: { intros [a v]. cbn [fst]. rewrite same_name_true. rewrite same_name_false in En. intros Ha Hin.
      apply elem_of_union in Hin as [Hin|Hin]; [apply elem_of_singleton in Hin; congruence|by apply elem_of_empty in Hin]. }
    assert (same_name name n = false) as -> by (rewrite same_name_false in *; congruence). by rewrite app_nil_r.
Qed.
End header_facts.

(** ** Memos of successive versions *)
Section memo_facts.
Context {Cid : Type} `{UnicodeLaws}.
Notation MemoIpld := (MemoIpld Cid).
Implicit Types (memo : MemoIpld) (name value : string).

Definition SIGNATURE := Header.deref Header.Signature.
Definition PROOF := Header.deref Header.Proof.
Definition AUTHOR := Header.deref Header.Author.
Definition LAMPORT := Header.deref Header.LamportOrder.
Definition CONTENT_TYPE := Header.deref Header.ContentType.
Definition VERSION := Header.deref Header.Version.

Lemma same_name_ascii a b : is_ascii a = true -> is_ascii b = true ->
  same_name a b = bool_decide (lower_string a = lower_string b).
Proof. intros Ha Hb. unfold same_name. by rewrite !to_lowercase_ascii. Qed.

Lemma lamport_order_values memo :
  lamport_order memo = match values (headers memo) LAMPORT with
                       | order :: _ => default 0%N (parse_unsigned (2 ^ 32) order)
                       | [] => 0%N
                       end.
Proof.
  unfold lamport_order. rewrite get_first_header_values. fold LAMPORT. by destruct (values _ _).
Qed.

Lemma lamport_order_bound memo : (lamport_order memo < 2 ^ 32)%N.
Proof.
  rewrite lamport_order_values. destruct (values _ _) as [|order vs]; [done|].
  assert (forall s acc n, (acc < 2 ^ 32)%N -> parse_digits (2 ^ 32) acc s = Some n -> (n < 2 ^ 32)%N) as Hd.
  { induction s as [|a s IH]; intros acc n Hacc E; cbn -[N.pow N.mul N.ltb] in E; [by injection E as <-|].
    destruct (digit_value a) as [d|]; [|done]. cbn -[N.pow N.mul N.ltb] in E.
    destruct (N.ltb_spec (10 * acc + d) (2 ^ 32)); [by eapply IH|done]. }
  destruct (parse_unsigned (2 ^ 32) order) as [n|] eqn:E; [|done]. cbn [default].
  unfold parse_unsigned in E. destruct order as [|a order]; [done|].
  destruct (decide (a = "+"%char)) as [->|Hne]; [destruct order; [done|]; by eapply Hd; [|exact E]|].
  apply (Hd (String a order) 0%N n); [done|].
  destruct a as [[] [] [] [] [] [] [] []]; try exact E. by destruct Hne.
Qed.

(** Names that differ in more than letter case. *)
Lemma same_name_replace a b c : same_name a b = true -> same_name a c = same_name b c.
Proof. rewrite same_name_true. unfold same_name. by intros ->. Qed.

Lemma lamport_not_removed : same_name LAMPORT SIGNATURE = false /\ same_name LAMPORT PROOF = false.
Proof. by rewrite !same_name_ascii. Qed.

(** The headers of a memo that is to succeed [memo]. *)
Definition branched_values memo (n : string) : list string :=
  if same_name n LAMPORT then [pretty (lamport_order memo + 1)%N]
  else if same_name n SIGNATURE || same_name n PROOF then []
  else values (headers memo) n.

Section branching.
Context {S : Type} `{CidOps Cid} `{!BlockStore S Cid} `{!BlockCodec MemoIpld}.

Lemma branch_from_spec (s : S) c memo :
  load s c = Ok memo -> (lamport_order memo < 2 ^ 32 - 1)%N ->
  exists memo', branch_from c s = Ok memo' /\ parent memo' = Some c /\ body memo' = body memo /\
    lamport_order memo' = (lamport_order memo + 1)%N /\
    forall n, values (headers memo') n = branched_values memo n.
Proof.
  intros El Hlt. unfold branch_from. rewrite El. cbn [outcome_bind].
  set (memo1 := remove_header (remove_header (with_parent memo (Some c)) _) _).
  assert (forall n, values (headers memo1) n =
    if same_name n SIGNATURE || same_name n PROOF then [] else values (headers memo) n) as Hv.
  { intros n. unfold memo1. fold SIGNATURE PROOF. destruct (same_name n PROOF) eqn:Ep.
    { rewrite orb_true_r. by apply remove_header_same. }
    rewrite orb_false_r, remove_header_other by done. destruct (same_name n SIGNATURE) eqn:Es.
    - by apply remove_header_same.
    - by rewrite remove_header_other. }
  assert (lamport_order memo1 = lamport_order memo) as Hl.
  { rewrite !lamport_order_values, Hv. by destruct lamport_not_removed as [-> ->]. }
  rewrite Hl. destruct (N.eqb_spec (lamport_order memo) (2 ^ 32 - 1)); [lia|].
  assert (forall n, values (headers (replace_headers memo1 [(LAMPORT, pretty (lamport_order memo + 1)%N)])) n
    = branched_values memo n) as Hv2.
  { intros n'. rewrite replace_headers_values. unfold branched_values. by rewrite Hv. }
  eexists. split; [done|]. split_and!; try done.
  rewrite lamport_order_values. fold LAMPORT. rewrite Hv2. unfold branched_values. rewrite same_name_refl.
  rewrite parse_unsigned_pretty; [done|lia].
Qed.

(** The order number does not wrap: branching from the last one panics. *)
Lemma branch_from_overflow (s : S) c memo :
  load s c = Ok memo -> lamport_order memo = (2 ^ 32 - 1)%N ->
  branch_from c s = Panic "attempt to add with overflow".
Proof.
  intros El Hlt. unfold branch_from. rewrite El. cbn [outcome_bind].
  assert (lamport_order (remove_header (remove_header (with_parent memo (Some c))
    (Header.deref Header.Signature)) (Header.deref Header.Proof)) = (2 ^ 32 - 1)%N) as ->; [|done].
  rewrite <- Hlt, !lamport_order_values. destruct lamport_not_removed as [? ?].
  by rewrite !remove_header_other.
Qed.
End branching.

Section signing.
Context {Key : Type} `{KeyMaterial Key} `{CidOps Cid} `{Base64} `{DagJson UcanHeader} `{DagJson UcanPayload}.

(** The headers of a memo signed with [sig] by [did]. *)
Definition signed_values memo (sig did : string) (proof : list string) (n : string) : list string :=
  if same_name n AUTHOR then [did]
  else if same_name n PROOF then proof
  else if same_name n SIGNATURE then [sig]
  else values (headers memo) n.

Lemma memo_sign_spec memo (credential : Key) proof sig did jwts :
  key_sign credential (cid_to_bytes (body memo)) = Ok sig -> get_did credential = Ok did ->
  match proof with Some u => exists jwt, ucan_encode u = Ok jwt /\ jwts = [jwt] | None => jwts = [] end ->
  exists memo', memo_sign memo credential proof = (Ok tt, memo') /\
    parent memo' = parent memo /\ body memo' = body memo /\
    forall n, values (headers memo') n = signed_values memo (b64_encode sig) did jwts n.
Proof.
  intros Es Ed Hp. unfold memo_sign. rewrite Es. cbn [try_with].
  assert (forall m n v, parent (replace_first_header m n v) = parent m /\ body (replace_first_header (Cid := Cid) m n v) = body m)
    as Hk. { intros m n v. unfold replace_first_header. by destruct (replace_loop _ _ _ _). }
  destruct proof as [u|].
  - destruct Hp as (jwt & Ej & ->). rewrite Ej. cbn [try_with]. rewrite Ed. cbn [try_with].
    eexists. split; [done|]. split_and!; [by rewrite !(proj1 (Hk _ _ _))|by rewrite !(proj2 (Hk _ _ _))|].
    intros n. unfold signed_values. rewrite !replace_first_header_values. done.
  - subst jwts. cbn [try_with]. rewrite Ed. cbn [try_with].
    eexists. split; [done|]. split_and!.
    + rewrite (proj1 (Hk _ _ _)). cbn. by rewrite (proj1 (Hk _ _ _)).
    + rewrite (proj2 (Hk _ _ _)). cbn. by rewrite (proj2 (Hk _ _ _)).
    + intros n. unfold signed_values. rewrite replace_first_header_values. fold AUTHOR PROOF.
      destruct (same_name n AUTHOR); [done|]. destruct (same_name n PROOF) eqn:Ep; [by apply remove_header_same|].
      rewrite remove_header_other by done. apply replace_first_header_values.
Qed.
End signing.
End memo_facts.
