(* ===== verification/VersionedMap.v ===== *)
(** * Versioned maps

    Model of the changelogs (data/changelog.rs), of the IPLD form of versioned
    maps (data/versioned_map.rs), of the mutations applied to them
    (view/mutation.rs) and of the view through which they are read and updated
    (view/versioned_map.rs) of [noosphere-core].

    A clone of a block store is a handle on the same blocks.  Where an operation
    holds two handles and writes through one of them (the HAMT of a map owns a
    clone of the store that the changelog is saved to), the model hands the
    current contents over with [with_store].

    The abstract value of a version is a finite map together with the changelog
    that led to it.  [map_at] says that a store holds both under the CID of the
    version; applying a mutation replays it on the finite map. *)
From stdpp Require Import base gmap list numbers strings.
From S2P Require Import Prelude Bitfield BlockStore HamtNode HamtRep Hamt BTree HamtProofs HamtPersist HamtSpec.

(** ** Changelogs *)
Record ChangelogIpld (Op : Type) := mkChangelog { log_did : option string; log_changes : list Op }.
Arguments mkChangelog {Op} _ _.
Arguments log_did {Op} _.
Arguments log_changes {Op} _.

Section changelog.
Context {Op : Type}.
Implicit Types (log : ChangelogIpld Op) (op : Op).

Definition changelog_default : ChangelogIpld Op := mkChangelog None [].
Definition changelog_is_empty log : bool := (length (log_changes log) =? 0)%nat.
Definition changelog_push log op : ChangelogIpld Op := mkChangelog (log_did log) (log_changes log ++ [op]).
Definition changelog_mark log (did : string) : ChangelogIpld Op := mkChangelog (Some did) [].
End changelog.

(** ** Operations on a map *)
Inductive MapOperation (K V : Type) : Type :=
  | Add (key : K) (value : V)
  | Remove (key : K).
Arguments Add {K V} key value.
Arguments Remove {K V} key.

Definition change_key {K V} (op : MapOperation K V) : K :=
  match op with Add key _ => key | Remove key => key end.

#[export] Instance MapOperation_eq_dec {K V} `{EqDecision K} `{EqDecision V} : EqDecision (MapOperation K V).
Proof. solve_decision. Defined.

#[export] Instance ChangelogIpld_eq_dec {Op} `{EqDecision Op} : EqDecision (ChangelogIpld Op).
Proof. solve_decision. Defined.

(** ** Mutations of one map (view/mutation.rs) *)
Record VersionedMapMutation (K V : Type) := mkMapMutation {
  mutation_did : string;
  mutation_changes : list (MapOperation K V);
}.
Arguments mkMapMutation {K V} _ _.
Arguments mutation_did {K V} _.
Arguments mutation_changes {K V} _.

Section mutation.
Context {K V : Type} `{EqDecision K}.
Notation VersionedMapMutation := (VersionedMapMutation K V).
Implicit Types (m : VersionedMapMutation) (k : K) (v : V).

Definition map_mutation_new (did : string) : VersionedMapMutation := mkMapMutation did [].

Definition apply_changelog m (changelog : ChangelogIpld (MapOperation K V)) : outcome VersionedMapMutation :=
  let? did := ok_or "Changelog did not have an author DID" (log_did changelog) in
  if negb (bool_decide (did = mutation_did m)) then Err "Changelog has unexpected author"
  else Ok (mkMapMutation (mutation_did m) (log_changes changelog)).

Definition mutation_set m k v : VersionedMapMutation :=
  mkMapMutation (mutation_did m) (mutation_changes m ++ [Add k v]).

Definition mutation_remove m k : VersionedMapMutation :=
  mkMapMutation (mutation_did m) (mutation_changes m ++ [Remove k]).

(** [append_changes]: each change of [source] replaces the changes to its key. *)
Definition append_changes (destination source : list (MapOperation K V)) : list (MapOperation K V) :=
  foldl (fun destination change =>
    filter (fun op => change_key op <> change_key change) destination ++ [change]) destination source.
End mutation.

(** ** The IPLD form *)
Record VersionedMapIpld (Cid : Type) := mkMapIpld { map_hamt : Cid; map_changelog : Cid }.
Arguments mkMapIpld {Cid} _ _.
Arguments map_hamt {Cid} _.
Arguments map_changelog {Cid} _.

Definition with_store {K V Cid S} (h : Hamt K V Cid S) (s : S) : Hamt K V Cid S :=
  mkHamt (hamt_root h) s (hamt_bit_width h).

(** The view: the CID of the map, a handle on the store, and the cells that
    cache what was loaded. *)
Record VersionedMap (K V Cid S : Type) := mkVersionedMap {
  vm_cid : Cid;
  vm_store : S;
  vm_body : option (VersionedMapIpld Cid);
  vm_hamt : option (Hamt K V Cid S);
  vm_changelog : option (ChangelogIpld (MapOperation K V));
}.
Arguments mkVersionedMap {K V Cid S} _ _ _ _ _.
Arguments vm_cid {K V Cid S} _.
Arguments vm_store {K V Cid S} _.
Arguments vm_body {K V Cid S} _.
Arguments vm_hamt {K V Cid S} _.
Arguments vm_changelog {K V Cid S} _.

Section versioned_map.
Context {K V Cid S : Type}.
Context `{EqDecision K} `{EqDecision V} `{HashAlgorithm K} `{KeyOrder K}.
Context `{CidOps Cid} `{!BlockStore S Cid} `{!BlockCodec (wire_node K V Cid)}.
Context `{!BlockCodec (VersionedMapIpld Cid)} `{!BlockCodec (ChangelogIpld (MapOperation K V))}.
Notation Hamt := (Hamt K V Cid S).
Notation Changelog := (ChangelogIpld (MapOperation K V)).
Notation VersionedMap := (VersionedMap K V Cid S).
Implicit Types (vm : VersionedMap) (k : K) (v : V).

Definition ipld_load_hamt (self : VersionedMapIpld Cid) (s : S) : outcome Hamt := hamt_load (map_hamt self) s.

Definition ipld_load_changelog (self : VersionedMapIpld Cid) (s : S) : outcome Changelog :=
  load s (map_changelog self).

Definition map_ipld_empty (s : S) : outcome (VersionedMapIpld Cid) * S :=
  let hamt : Hamt := hamt_new s in
  let '(rc, s) := save s (changelog_default : Changelog) in
  let? changelog_cid := rc keeping s in
  let '(rh, hamt) := hamt_flush (with_store hamt s) in
  let? hamt_cid := rh keeping hamt_store hamt in
  (Ok (mkMapIpld hamt_cid changelog_cid), hamt_store hamt).

Definition vm_at (cid : Cid) (s : S) : VersionedMap := mkVersionedMap cid s None None None.

Definition vm_empty (s : S) : outcome VersionedMap * S :=
  let '(r, s) := map_ipld_empty s in
  let? ipld := r keeping s in
  let '(rc, s) := save s ipld in
  let? cid := rc keeping s in (Ok (vm_at cid s), s).

Definition at_or_empty (cid : option Cid) (s : S) : outcome VersionedMap * S :=
  match cid with
  | Some cid => (Ok (vm_at cid s), s)
  | None => vm_empty s
  end.

(** [OnceCell::get_or_try_init]: a cell is filled only by a successful load. *)
Definition vm_to_body vm : outcome (VersionedMapIpld Cid) * VersionedMap :=
  match vm_body vm with
  | Some ipld => (Ok ipld, vm)
  | None =>
      let? ipld := load (vm_store vm) (vm_cid vm) keeping vm in
      (Ok ipld, mkVersionedMap (vm_cid vm) (vm_store vm) (Some ipld) (vm_hamt vm) (vm_changelog vm))
  end.

Definition vm_load_changelog vm : outcome Changelog * VersionedMap :=
  let '(r, vm) := vm_to_body vm in
  let? ipld := r keeping vm in (load (vm_store vm) (map_changelog ipld), vm).

Definition get_changelog vm : outcome Changelog * VersionedMap :=
  match vm_changelog vm with
  | Some log => (Ok log, vm)
  | None =>
      let '(r, vm) := vm_load_changelog vm in
      let? log := r keeping vm in
      (Ok log, mkVersionedMap (vm_cid vm) (vm_store vm) (vm_body vm) (vm_hamt vm) (Some log))
  end.

Definition vm_load_hamt vm : outcome Hamt * VersionedMap :=
  let '(r, vm) := vm_to_body vm in
  let? ipld := r keeping vm in (ipld_load_hamt ipld (vm_store vm), vm).

Definition with_hamt vm (h : Hamt) : VersionedMap :=
  mkVersionedMap (vm_cid vm) (vm_store vm) (vm_body vm) (Some h) (vm_changelog vm).

Definition get_hamt vm : outcome Hamt * VersionedMap :=
  match vm_hamt vm with
  | Some h => (Ok h, vm)
  | None =>
      let '(r, vm) := vm_load_hamt vm in
      let? h := r keeping vm in (Ok h, with_hamt vm h)
  end.

(** Reading a HAMT may cache the nodes it loads, in the HAMT of the view. *)
Definition vm_get vm k : outcome (option V) * VersionedMap :=
  let '(r, vm) := get_hamt vm in
  let? h := r keeping vm in
  let '(rv, h) := hamt_get h k in (rv, with_hamt vm h).

Definition vm_require vm k : outcome V * VersionedMap :=
  let '(r, vm) := vm_get vm k in
  let? found := r keeping vm in (ok_or "Key not found!" found, vm).

Definition vm_get_as_cid `{!BlockCodec V} vm k : outcome (option Cid) * VersionedMap :=
  let '(r, vm) := vm_get vm k in
  let? found := r keeping vm in
  match found with
  | Some value => (outcome_map (fun p => Some p.1) (block_serialize value), vm)
  | None => (Ok None, vm)
  end.

(** The [BTreeMap] of the entries this version added. *)
Definition get_added `{Countable K} vm : outcome (list (K * V)) * VersionedMap :=
  let '(r, vm) := get_changelog vm in
  let? log := r keeping vm in
  (Ok (foldl (fun added item =>
    match item with Add key value => btree_insert added key value | Remove _ => added end) []
    (log_changes log)), vm).

Definition vm_for_each {St} (f : K -> V -> St -> outcome unit * St) vm (st : St) : outcome unit * St :=
  let? h := (get_hamt vm).1 keeping st in hamt_for_each f h st.

Definition vm_stream vm : outcome (list (K * V) * outcome unit) :=
  let? h := (get_hamt vm).1 in
  let '(items, r, _) := hamt_stream h in Ok (items, r).

Definition vm_into_stream (fuel : nat) vm : outcome (list (K * V) * outcome unit) :=
  let? h := (vm_load_hamt vm).1 in Ok (hamt_into_stream fuel h).

(** The body of the loop of [apply_with_cid]. *)
Definition apply_change (change : MapOperation K V) (st : Hamt * Changelog) : outcome unit * (Hamt * Changelog) :=
  let '(hamt, changelog) := st in
  let '(r, hamt) :=
    match change with
    | Add key value => let '(r, hamt) := hamt_set hamt key value in (outcome_map (fun _ => tt) r, hamt)
    | Remove key => let '(r, hamt) := hamt_delete hamt key in (outcome_map (fun _ => tt) r, hamt)
    end in
  let? _ := r keeping (hamt, changelog) in
  (Ok tt, (hamt, changelog_push changelog change)).

Definition apply_with_cid (cid : option Cid) (mutation : VersionedMapMutation K V) (s : S) : outcome Cid * S :=
  let '(rm, s) := at_or_empty cid s in
  let? map := rm keeping s in
  let '(rl, map) := get_changelog map in
  let? log := rl keeping s in
  let changelog := changelog_mark log (mutation_did mutation) in
  let '(rh, map) := vm_load_hamt map in
  let? hamt := rh keeping s in
  let '(r, (hamt, changelog)) := for_each_st apply_change (mutation_changes mutation) (hamt, changelog) in
  let? _ := r keeping s in
  let '(rc, s) := save s changelog in
  let? changelog_cid := rc keeping s in
  let '(rf, hamt) := hamt_flush (with_store hamt s) in
  let? hamt_cid := rf keeping hamt_store hamt in
  save (hamt_store hamt) (mkMapIpld hamt_cid changelog_cid).
End versioned_map.

(** ** Facts about versioned maps *)
(** ** Changes on finite maps *)
Section changes.
Context {K V : Type} `{Countable K}.
Implicit Types (m : gmap K V) (op : MapOperation K V) (ops : list (MapOperation K V)).

Definition apply_op m op : gmap K V :=
  match op with Add k v => <[k := v]> m | Remove k => delete k m end.

Definition apply_ops m ops : gmap K V := foldl apply_op m ops.

Lemma apply_op_lookup m op k :
  apply_op m op !! k = if decide (change_key op = k) then (match op with Add _ v => Some v | Remove _ => None end)
                       else m !! k.
Proof.
  destruct op as [k' v|k']; cbn; case_decide as E; subst.
  - apply lookup_insert_eq.
  - by apply lookup_insert_ne.
  - apply lookup_delete_eq.
  - by apply lookup_delete_ne.
Qed.

Lemma apply_op_dom m op k : k ∈ dom (apply_op m op) -> k ∈ dom m \/ k = change_key op.
Proof. rewrite !elem_of_dom, apply_op_lookup. case_decide; [by right|by left]. Qed.

Lemma apply_ops_app m ops ops' : apply_ops m (ops ++ ops') = apply_ops (apply_ops m ops) ops'.
Proof. apply foldl_app. Qed.

Lemma apply_ops_cons m op ops : apply_ops m (op :: ops) = apply_ops (apply_op m op) ops.
Proof. done. Qed.

Lemma apply_ops_dom m ops k : k ∈ dom (apply_ops m ops) -> k ∈ dom m \/ k ∈ change_key <$> ops.
Proof.
  revert m. induction ops as [|op ops IH]; intros m Hk; [by left|].
  apply IH in Hk as [Hk|Hk]; [|right; by constructor].
  apply apply_op_dom in Hk as [?| ->]; [by left|right; constructor].
Qed.

(** A change hides the earlier changes to its key. *)
Lemma apply_ops_hide m ops op :
  apply_op (apply_ops m (filter (fun o => change_key o <> change_key op) ops)) op = apply_op (apply_ops m ops) op.
Proof.
  assert (forall k, k <> change_key op ->
    apply_ops m (filter (fun o => change_key o <> change_key op) ops) !! k = apply_ops m ops !! k) as Hother.
  { intros k Hk. induction ops as [|o ops IH] using rev_ind; [done|].
    rewrite filter_app, !apply_ops_app, filter_cons, filter_nil. case_decide as Ho.
    - rewrite !apply_ops_cons. unfold apply_ops at 1 3. cbn [foldl]. rewrite !apply_op_lookup. by case_decide.
    - rewrite apply_ops_cons. unfold apply_ops at 1 3. cbn [foldl]. rewrite apply_op_lookup.
      rewrite decide_False; [done|congruence]. }
  apply map_eq. intros k. rewrite !apply_op_lookup. case_decide as E; [done|]. apply Hother. congruence.
Qed.

Lemma append_changes_snoc (dst src : list (MapOperation K V)) op :
  append_changes dst (src ++ [op]) =
    filter (fun o => change_key o <> change_key op) (append_changes dst src) ++ [op].
Proof. unfold append_changes. by rewrite foldl_app. Qed.

(** Compacting two lists of changes does not change what they do. *)
Lemma append_changes_sound m dst src : apply_ops m (append_changes dst src) = apply_ops (apply_ops m dst) src.
Proof.
  induction src as [|op src IH] using rev_ind; [done|].
  rewrite append_changes_snoc, !apply_ops_app, <- IH. cbn [apply_ops foldl]. apply apply_ops_hide.
Qed.

Lemma append_changes_keys (dst src : list (MapOperation K V)) :
  NoDup (change_key <$> dst) -> NoDup (change_key <$> append_changes dst src).
Proof.
  intros Hd. induction src as [|op src IH] using rev_ind; [done|].
  rewrite append_changes_snoc, fmap_app. apply NoDup_app. split_and!.
  - revert IH. generalize (append_changes dst src) as l. induction l as [|o l IHl]; [done|].
    rewrite fmap_cons, NoDup_cons, filter_cons. intros [Ho Hl]. case_decide; [|by apply IHl].
    rewrite fmap_cons, NoDup_cons. split; [|by apply IHl]. intros Hin. apply Ho.
    apply list_elem_of_fmap in Hin as (o' & -> & Hin). apply list_elem_of_filter in Hin as [_ Hin].
    by apply list_elem_of_fmap_2.
  - intros k Hk Hin. apply list_elem_of_singleton in Hin as ->. apply list_elem_of_fmap in Hk as (o & Ho & Hin).
    apply list_elem_of_filter in Hin as [Hne _]. by symmetry in Ho.
  - apply NoDup_singleton.
Qed.

Lemma append_changes_elem (dst src : list (MapOperation K V)) op :
  op ∈ append_changes dst src -> op ∈ dst \/ op ∈ src.
Proof.
  induction src as [|o src IH] using rev_ind; [by left|]. rewrite append_changes_snoc, !elem_of_app.
  intros [Hin|Hin]; [|by right; right]. apply list_elem_of_filter in Hin as [_ Hin]. destruct (IH Hin); auto.
Qed.
End changes.

(** ** Versions in a store *)

Section versions.
Context {K V Cid S : Type}.
Context `{Countable K} `{EqDecision V} `{KeyOrderLaws K} `{HashAlgorithmLaws K}.
Context `{CidLaws Cid} `{EqDecision Cid} `{!BlockStore S Cid} `{!BlockStoreLaws S Cid}.
Context `{!BlockCodec (wire_node K V Cid)} `{!BlockCodecLaws Cid (wire_node K V Cid)} `{!BlockCodec (VersionedMapIpld Cid)} `{!BlockCodecLaws Cid (VersionedMapIpld Cid)}.
Context `{!BlockCodec (ChangelogIpld (MapOperation K V))} `{!BlockCodecLaws Cid (ChangelogIpld (MapOperation K V))}.
Notation Hamt := (Hamt K V Cid S).
Notation Changelog := (ChangelogIpld (MapOperation K V)).
Notation VersionedMap := (VersionedMap K V Cid S).
Notation w := DEFAULT_BIT_WIDTH.
Implicit Types (s : S) (c : Cid) (m : gmap K V) (log : Changelog) (vm : VersionedMap) (h : Hamt).

(** The CID [c] is the one every HAMT of the entries [m] flushes to, and [s] holds
    the nodes of one. *)
Inductive hamt_at s c m : Prop :=
  | hamt_at_intro :
      (exists wn root, stored s c wn /\ node_deserialize wn = Ok root /\ node_rep w (levels w) s 0 root m) ->
      (forall h, hamt_rep w h m -> (hamt_flush h).1 = Ok c) -> hamt_at s c m.

(** Version [c] holds the entries [m] and the changelog [log]. *)
Definition map_at s c m log : Prop :=
  exists ipld, stored s c ipld /\ stored s (map_changelog ipld) log /\ hamt_at s (map_hamt ipld) m.

Lemma hamt_at_mono s s' c m : store_le s s' -> hamt_at s c m -> hamt_at s' c m.
Proof.
  intros Hle [(wn & root & Hs & Hd & Hn) Hc]. split; [|done]. exists wn, root.
  split; [exact (stored_mono _ _ _ _ Hle Hs)|]. split; [done|by eapply node_rep_mono].
Qed.

(** The blocks of a HAMT with the entries of another make it available. *)
Lemma hamt_at_root s c m : hamt_at s c m ->
  exists wn root, stored s c wn /\ node_deserialize wn = Ok root /\ node_rep w (levels w) s 0 root m.
Proof. by intros [Hr _]. Qed.

Lemma hamt_at_transfer s s' c m : hamt_at s c m ->
  (exists wn root, stored s' c wn /\ node_deserialize wn = Ok root /\ node_rep w (levels w) s' 0 root m) -> hamt_at s' c m.
Proof. intros [_ Hc] Hr. split; [exact Hr|exact Hc]. Qed.

Lemma hamt_at_loads s c m : hamt_at s c m -> exists h, hamt_load c s = Ok h /\ hamt_store h = s /\ hamt_rep w h m.
Proof.
  intros [(wn & root & Hs & Hd & Hn) _]. exists (mkHamt root s w). unfold hamt_load, hamt_load_with_bit_width, load_node.
  rewrite (stored_load _ _ _ Hs). cbn [outcome_bind]. rewrite Hd. split; [done|]. split; [done|]. by split_and!.
Qed.

Lemma map_at_mono s s' c m log : store_le s s' -> map_at s c m log -> map_at s' c m log.
Proof.
  intros Hle (ipld & Hi & Hl & Hh). exists ipld.
  split_and!; [by eapply stored_mono|by eapply stored_mono|by eapply hamt_at_mono].
Qed.

Lemma hamt_at_cid s s' c c' m : hamt_at s c m -> hamt_at s' c' m -> c = c'.
Proof.
  intros Hat [_ Hc']. destruct (hamt_at_loads _ _ _ Hat) as (h & _ & _ & Hh). destruct Hat as [_ Hc].
  specialize (Hc h Hh). specialize (Hc' h Hh). congruence.
Qed.

(** The CID of a version is determined by its entries and its changelog. *)
Lemma map_at_cid s s' c c' m log : map_at s c m log -> map_at s' c' m log -> c = c'.
Proof.
  intros ([h1 l1] & Hi1 & Hl1 & Hh1) ([h2 l2] & Hi2 & Hl2 & Hh2). cbn in *.
  assert (l1 = l2) as -> by by eapply stored_inj. assert (h1 = h2) as -> by by eapply hamt_at_cid.
  exact (stored_inj _ _ _ _ _ Hi1 Hi2).
Qed.

Lemma hamt_flush_at h m : hamt_rep w h m ->
  exists c h', hamt_flush h = (Ok c, h') /\ store_le (hamt_store h) (hamt_store h') /\ hamt_at (hamt_store h') c m.
Proof.
  intros Hh. destruct (hamt_flush_rep w h m Hh) as (c & h' & E & Hle & _ & wn & root & Hst & _ & Hl & Hr). exists c, h'.
  split; [done|]. split; [done|]. split.
  { exists wn, root. unfold load_node in Hl. rewrite (stored_load _ _ _ Hst) in Hl. split; [exact Hst|]. split; [exact Hl|exact Hr]. }
  intros h2 Hh2.
  destruct (hamt_flush_rep w h2 m Hh2) as (c2 & h2' & E2 & _). rewrite E2. cbn. f_equal.
  exact (hamt_flush_canonical _ _ _ _ _ _ _ _ Hh2 Hh E2 E).
Qed.

Lemma with_store_rep h s m : hamt_rep w h m -> store_le (hamt_store h) s -> hamt_rep w (with_store h s) m.
Proof. intros (Hb & Hw & Hn) Hle. split; [done|]. split; [done|]. by eapply node_rep_mono. Qed.

(** Saving the two halves of a version and the version itself. *)
Lemma save_version s log h m : hamt_rep w h m -> store_le (hamt_store h) s ->
  exists lc s1 hc h' c s', save s log = (Ok lc, s1) /\ hamt_flush (with_store h s1) = (Ok hc, h') /\
    save (hamt_store h') (mkMapIpld hc lc) = (Ok c, s') /\ store_le s s' /\ map_at s' c m log.
Proof.
  intros Hh Hle. destruct (save_spec s log) as (lc & s1 & E1 & Hle1 & Hs1).
  destruct (hamt_flush_at (with_store h s1) m) as (hc & h' & E2 & Hle2 & Hat).
  { apply with_store_rep; [done|]. by transitivity s. }
  cbn [with_store hamt_store] in Hle2.
  destruct (save_spec (hamt_store h') (mkMapIpld hc lc)) as (c & s' & E3 & Hle3 & Hs3).
  exists lc, s1, hc, h', c, s'. split_and!; try done; [by do 2 (etransitivity; [eassumption|])|].
  exists (mkMapIpld hc lc). split_and!; [done| |by eapply hamt_at_mono].
  eapply stored_mono; [exact Hle3|]. by eapply stored_mono.
Qed.

(** *** The empty map *)
Lemma map_ipld_empty_spec s :
  exists ipld s', map_ipld_empty s = (Ok ipld, s') /\ store_le s s' /\
    stored s' (map_changelog ipld) (changelog_default : Changelog) /\ hamt_at s' (map_hamt ipld) (∅ : gmap K V).
Proof.
  destruct (save_spec s (changelog_default : Changelog)) as (lc & s1 & E1 & Hle1 & Hs1).
  destruct (hamt_flush_at (with_store (hamt_new s) s1) (∅ : gmap K V)) as (hc & h' & E2 & Hle2 & Hat).
  { by apply hamt_new_rep. }
  cbn [with_store hamt_store] in Hle2. exists (mkMapIpld hc lc), (hamt_store h'). unfold map_ipld_empty.
  rewrite E1. cbn [try_with]. rewrite E2. cbn [try_with]. split_and!; [done|by transitivity s1| |done].
  by eapply stored_mono.
Qed.

Lemma vm_empty_spec s :
  exists c s', vm_empty s = (Ok (vm_at c s' : VersionedMap), s') /\ store_le s s' /\
    map_at s' c ∅ changelog_default.
Proof.
  destruct (map_ipld_empty_spec s) as (ipld & s1 & E1 & Hle1 & Hl & Hh).
  destruct (save_spec s1 ipld) as (c & s2 & E2 & Hle2 & Hs2). exists c, s2. unfold vm_empty. rewrite E1. cbn [try_with].
  rewrite E2. cbn [try_with]. split_and!; [done|by transitivity s1|].
  exists ipld. split_and!; [done|by eapply stored_mono|by eapply hamt_at_mono].
Qed.

(** *** Reading through a view *)

(** What a view over version [c] may have cached. *)
Definition view_of vm c m log : Prop :=
  vm_cid vm = c /\ map_at (vm_store vm) c m log /\
  (forall ipld, vm_body vm = Some ipld -> stored (vm_store vm) c ipld) /\
  (forall log', vm_changelog vm = Some log' -> log' = log) /\
  (forall h, vm_hamt vm = Some h -> hamt_rep w h m).

Lemma view_at s c m log : map_at s c m log -> view_of (vm_at c s) c m log.
Proof. intros Hm. by split_and!. Qed.

Lemma vm_to_body_spec vm c m log : view_of vm c m log ->
  exists ipld vm', vm_to_body vm = (Ok ipld, vm') /\ view_of vm' c m log /\ vm_store vm' = vm_store vm /\
    stored (vm_store vm) (map_changelog ipld) log /\ hamt_at (vm_store vm) (map_hamt ipld) m.
Proof.
  intros (Hc & (ipld & Hi & Hl & Hh) & Hb & Hlog & Hhamt). unfold vm_to_body.
  assert (forall ipld', stored (vm_store vm) c ipld' -> ipld' = ipld) as Hu.
  { intros ipld' Hi'. apply stored_load in Hi, Hi'. congruence. }
  destruct (vm_body vm) as [ipld'|] eqn:Eb.
  - assert (ipld' = ipld) as -> by by apply Hu, Hb. exists ipld, vm. split_and!; try done.
    split_and!; try done; [by exists ipld|]. intros ? E. rewrite Eb in E. injection E as <-. done.
  - rewrite Hc, (stored_load _ _ _ Hi). cbn [try_with]. eexists ipld, _. split; [done|]. split_and!; try done.
    split_and!; try done; cbn; [by exists ipld|]. intros ? E. by injection E as <-.
Qed.

Lemma get_changelog_spec vm c m log : view_of vm c m log ->
  exists vm', get_changelog vm = (Ok log, vm') /\ view_of vm' c m log /\ vm_store vm' = vm_store vm.
Proof.
  intros Hv. unfold get_changelog. destruct (vm_changelog vm) as [log'|] eqn:El.
  { exists vm. assert (log' = log) as -> by by apply Hv. done. }
  unfold vm_load_changelog. destruct (vm_to_body_spec vm c m log Hv) as (ipld & vm' & -> & Hv' & Es & Hl & _).
  cbn [try_with]. rewrite Es, (stored_load _ _ _ Hl). cbn [try_with]. eexists. split; [done|]. split; [|done].
  destruct Hv' as (? & ? & ? & ? & ?). rewrite Es in *. split_and!; try done. intros ? E. by injection E as <-.
Qed.

Lemma vm_load_hamt_spec vm c m log : view_of vm c m log ->
  exists h vm', vm_load_hamt vm = (Ok h, vm') /\ view_of vm' c m log /\ vm_store vm' = vm_store vm /\
    hamt_store h = vm_store vm /\ hamt_rep w h m.
Proof.
  intros Hv. unfold vm_load_hamt. destruct (vm_to_body_spec vm c m log Hv) as (ipld & vm' & -> & Hv' & Es & _ & Hh).
  cbn [try_with]. rewrite Es. destruct (hamt_at_loads _ _ _ Hh) as (h & El & Hhs & Hr).
  exists h, vm'. unfold ipld_load_hamt. by rewrite El.
Qed.

Lemma with_hamt_view vm c m log h : view_of vm c m log -> hamt_rep w h m -> view_of (with_hamt vm h) c m log.
Proof.
  intros (Hc & Hm & Hb & Hl & _) Hh. split; [exact Hc|]. split; [exact Hm|]. split; [exact Hb|]. split; [exact Hl|].
  cbn. intros h' E. injection E as <-. exact Hh.
Qed.

Lemma get_hamt_spec vm c m log : view_of vm c m log ->
  exists h vm', get_hamt vm = (Ok h, vm') /\ view_of vm' c m log /\ vm_store vm' = vm_store vm /\ hamt_rep w h m.
Proof.
  intros Hv. unfold get_hamt. destruct (vm_hamt vm) as [h|] eqn:Eh.
  { exists h, vm. split; [done|]. split; [exact Hv|]. split; [done|].
    destruct Hv as (_ & _ & _ & _ & Hh). apply Hh, Eh. }
  destruct (vm_load_hamt_spec vm c m log Hv) as (h & vm' & -> & Hv' & Es & _ & Hr). cbn [try_with].
  exists h, (with_hamt vm' h). split; [done|]. split; [|split; [exact Es|exact Hr]]. by apply with_hamt_view.
Qed.

Lemma vm_get_spec vm c m log k : view_of vm c m log ->
  exists vm', vm_get vm k = (Ok (m !! k), vm') /\ view_of vm' c m log /\ vm_store vm' = vm_store vm.
Proof.
  intros Hv. unfold vm_get. destruct (get_hamt_spec vm c m log Hv) as (h & vm' & -> & Hv' & Es & Hr). cbn [try_with].
  destruct (hamt_get_rep w h m k Hr) as (h' & -> & _ & Hh'). eexists. split; [done|]. split; [|done].
  by apply with_hamt_view.
Qed.

(** *** Applying a mutation *)
Lemma apply_changes_rep h m log changes (P : K -> Prop) :
  hamt_rep w h m -> collision_free P -> (forall k, k ∈ dom m -> P k) -> Forall (fun op => P (change_key op)) changes ->
  exists h', for_each_st apply_change changes (h, log) =
      (Ok tt, (h', mkChangelog (log_did log) (log_changes log ++ changes))) /\
    hamt_store h' = hamt_store h /\ hamt_rep w h' (apply_ops m changes).
Proof.
  intros Hh Hcf Hdom Hc. revert h m log Hh Hdom.
  induction Hc as [|op ops Hop _ IH]; intros h m log Hh Hdom.
  { exists h. rewrite app_nil_r. by destruct log. }
  assert (exists h1, apply_change op (h, log) = (Ok tt, (h1, changelog_push log op)) /\
    hamt_store h1 = hamt_store h /\ hamt_rep w h1 (apply_op m op)) as (h1 & E1 & Hs1 & Hh1).
  { destruct op as [k v|k]; cbn [apply_change].
    - destruct (hamt_set_rep w h m k v Hh) as (h1 & -> & Hs & Hh1); [|by exists h1].
      apply collision_free_separated; [done|by exists 32%N|]. intros k1 k2 Hk1 Hk2. apply Hcf; naive_solver.
    - destruct (hamt_delete_rep w h m k Hh) as (h1 & -> & Hs & Hh1). by exists h1. }
  destruct (IH h1 (apply_op m op) (changelog_push log op) Hh1) as (h' & E & Hs & Hh').
  { intros k Hk. apply apply_op_dom in Hk as [?| ->]; auto. }
  exists h'. cbn [for_each_st]. rewrite E1. cbn [try_with]. rewrite E. split_and!; [|congruence|done].
  do 3 f_equal. cbn. by rewrite <- app_assoc.
Qed.

Definition changes_collision_free m (changes : list (MapOperation K V)) : Prop :=
  collision_free (fun k => k ∈ dom m \/ k ∈ change_key <$> changes).

Lemma apply_at_view vm c s m log mutation :
  view_of vm c m log -> vm_store vm = s -> changes_collision_free m (mutation_changes mutation) ->
  exists c' s',
    (let '(rl, map) := get_changelog vm in
     let? log := rl keeping s in
     let changelog := changelog_mark log (mutation_did mutation) in
     let '(rh, map) := vm_load_hamt map in
     let? hamt := rh keeping s in
     let '(r, (hamt, changelog)) := for_each_st apply_change (mutation_changes mutation) (hamt, changelog) in
     let? _ := r keeping s in
     let '(rc, s) := save s changelog in
     let? changelog_cid := rc keeping s in
     let '(rf, hamt) := hamt_flush (with_store hamt s) in
     let? hamt_cid := rf keeping hamt_store hamt in
     save (hamt_store hamt) (mkMapIpld hamt_cid changelog_cid)) = (Ok c', s') /\
    store_le s s' /\
    map_at s' c' (apply_ops m (mutation_changes mutation))
      (mkChangelog (Some (mutation_did mutation)) (mutation_changes mutation)).
Proof.
  intros Hv Hs Hcf. destruct (get_changelog_spec vm c m log Hv) as (vm1 & -> & Hv1 & Es1). cbn [try_with].
  destruct (vm_load_hamt_spec vm1 c m log Hv1) as (h & vm2 & -> & _ & _ & Hhs & Hh). cbn [try_with].
  destruct (apply_changes_rep h m (changelog_mark log (mutation_did mutation)) (mutation_changes mutation) _ Hh Hcf)
    as (h1 & E1 & Hs1 & Hh1).
  { auto. }
  { apply Forall_forall. intros op Hop. right. by apply list_elem_of_fmap_2. }
  rewrite E1. cbn [try_with changelog_mark log_did log_changes app].
  destruct (save_version s (mkChangelog (Some (mutation_did mutation)) (mutation_changes mutation)) h1 _ Hh1)
    as (lc & s1 & hc & h' & c' & s' & -> & E2 & E3 & Hle & Hat).
  { assert (hamt_store h1 = s) as -> by congruence. done. }
  cbn [try_with]. rewrite E2. cbn [try_with]. by exists c', s'.
Qed.

(** The new version holds the old entries with the changes replayed on them, and
    its changelog is the mutation; nothing that was stored is lost. *)
Lemma apply_with_cid_spec s c m log mutation :
  map_at s c m log -> changes_collision_free m (mutation_changes mutation) ->
  exists c' s', apply_with_cid (Some c) mutation s = (Ok c', s') /\ store_le s s' /\
    map_at s' c' (apply_ops m (mutation_changes mutation))
      (mkChangelog (Some (mutation_did mutation)) (mutation_changes mutation)).
Proof. intros Hm Hcf. unfold apply_with_cid. cbn [at_or_empty try_with]. eapply apply_at_view; [by apply view_at|done|done]. Qed.

Lemma apply_with_cid_none s mutation :
  changes_collision_free ∅ (mutation_changes mutation) ->
  exists c' s', apply_with_cid None mutation s = (Ok c', s') /\ store_le s s' /\
    map_at s' c' (apply_ops ∅ (mutation_changes mutation))
      (mkChangelog (Some (mutation_did mutation)) (mutation_changes mutation)).
Proof.
  intros Hcf. destruct (vm_empty_spec s) as (c & s1 & E & Hle & Hm). unfold apply_with_cid. cbn [at_or_empty].
  rewrite E. cbn [try_with]. destruct (apply_at_view (vm_at c s1) c s1 ∅ changelog_default mutation)
    as (c' & s' & E' & Hle' & Hm'); [by apply view_at|done|done|].
  exists c', s'. split_and!; [exact E'|by transitivity s1|done].
Qed.
End versions.
