(* ===== verification/Sphere.v ===== *)
(** * Spheres

    Model of the IPLD of spheres (data/sphere.rs, data/address.rs,
    data/authority.rs), of mutations and revisions (view/mutation.rs) and of the
    part of the sphere view (view/sphere.rs) that derives, applies, replays,
    rebases and compacts changes, of [noosphere-core].

    A sphere version is a memo whose body is a [SphereIpld]; that refers to four
    versioned maps: the content, the petname identities (through an address
    book), and the delegations and revocations (through an authority).

    The views [Sphere], [AddressBook] and [Authority] are a CID and a handle on a
    store; their [OnceCell]s keep what the first load of an immutable block
    returned, and the definitions below load at each use. *)
From stdpp Require Import base gmap list numbers strings pretty.
From Stdlib Require Import Ascii String.
From S2P Require Import Prelude BlockStore HamtNode HamtRep Hamt BTree VersionedMap.
From S2P Require Import UcanCapability Ucan UcanChain Authority Memo.
#[local] Open Scope list_scope.
#[local] Notation length := List.length (only parsing).

(** ** Data *)
Record IdentityIpld (Cid : Type) := mkIdentity { peer_did : string; peer_link_record : option Cid }.
Arguments mkIdentity {Cid} _ _.
Arguments peer_did {Cid} _.
Arguments peer_link_record {Cid} _.

Record AddressBookIpld (Cid : Type) := mkAddressBook { identities : Cid }.
Arguments mkAddressBook {Cid} _.
Arguments identities {Cid} _.

Record AuthorityIpld (Cid : Type) := mkAuthorityIpld { delegations : Cid; revocations : Cid }.
Arguments mkAuthorityIpld {Cid} _ _.
Arguments delegations {Cid} _.
Arguments revocations {Cid} _.

Record SphereIpld (Cid : Type) := mkSphereIpld {
  identity : string;
  content : Cid;
  address_book : Cid;
  authority : Cid;
  private : option Cid;
}.
Arguments mkSphereIpld {Cid} _ _ _ _ _.
Arguments identity {Cid} _.
Arguments content {Cid} _.
Arguments address_book {Cid} _.
Arguments authority {Cid} _.
Arguments private {Cid} _.

#[export] Instance IdentityIpld_eq_dec {Cid} `{EqDecision Cid} : EqDecision (IdentityIpld Cid).
Proof. solve_decision. Defined.
#[export] Instance DelegationIpld_eq_dec {Cid} `{EqDecision Cid} : EqDecision (DelegationIpld Cid).
Proof. solve_decision. Defined.
#[export] Instance RevocationIpld_eq_dec : EqDecision RevocationIpld.
Proof. solve_decision. Defined.

(** ** Mutations (view/mutation.rs) *)
Record SphereMutation (Cid : Type) := mkSphereMutation {
  author_did : string;
  content_mutation : VersionedMapMutation string Cid;
  identities_mutation : VersionedMapMutation string (IdentityIpld Cid);
  delegations_mutation : VersionedMapMutation Cid (DelegationIpld Cid);
  revocations_mutation : VersionedMapMutation Cid RevocationIpld;
}.
Arguments mkSphereMutation {Cid} _ _ _ _ _.
Arguments author_did {Cid} _.
Arguments content_mutation {Cid} _.
Arguments identities_mutation {Cid} _.
Arguments delegations_mutation {Cid} _.
Arguments revocations_mutation {Cid} _.

Section sphere_mutation.
Context {Cid : Type} `{EqDecision Cid}.
Notation SphereMutation := (SphereMutation Cid).
Implicit Types (m other : SphereMutation).

Definition sphere_mutation_new (did : string) : SphereMutation :=
  mkSphereMutation did (map_mutation_new did) (map_mutation_new did) (map_mutation_new did) (map_mutation_new did).

Definition sphere_mutation_reset m : SphereMutation :=
  let did := author_did m in
  mkSphereMutation did (map_mutation_new did) (map_mutation_new did) (map_mutation_new did) (map_mutation_new did).

Definition sphere_mutation_is_empty m : bool :=
  (length (mutation_changes (content_mutation m)) =? 0)%nat
  && (length (mutation_changes (identities_mutation m)) =? 0)%nat
  && (length (mutation_changes (delegations_mutation m)) =? 0)%nat
  && (length (mutation_changes (revocations_mutation m)) =? 0)%nat.

Definition append_mutation {K V} `{EqDecision K} (m other : VersionedMapMutation K V) : VersionedMapMutation K V :=
  mkMapMutation (mutation_did m) (append_changes (mutation_changes m) (mutation_changes other)).

Definition sphere_mutation_append m other : SphereMutation :=
  mkSphereMutation (author_did m)
    (append_mutation (content_mutation m) (content_mutation other))
    (append_mutation (identities_mutation m) (identities_mutation other))
    (append_mutation (delegations_mutation m) (delegations_mutation other))
    (append_mutation (revocations_mutation m) (revocations_mutation other)).
End sphere_mutation.

(** ** The DAG-CBOR encodings that a sphere uses *)
Class SphereCodecs (Cid : Type) := {
  content_node_codec :: BlockCodec (wire_node string Cid Cid);
  identities_node_codec :: BlockCodec (wire_node string (IdentityIpld Cid) Cid);
  delegations_node_codec :: BlockCodec (wire_node Cid (DelegationIpld Cid) Cid);
  revocations_node_codec :: BlockCodec (wire_node Cid RevocationIpld Cid);
  content_log_codec :: BlockCodec (ChangelogIpld (MapOperation string Cid));
  identities_log_codec :: BlockCodec (ChangelogIpld (MapOperation string (IdentityIpld Cid)));
  delegations_log_codec :: BlockCodec (ChangelogIpld (MapOperation Cid (DelegationIpld Cid)));
  revocations_log_codec :: BlockCodec (ChangelogIpld (MapOperation Cid RevocationIpld));
  map_ipld_codec :: BlockCodec (VersionedMapIpld Cid);
  address_book_codec :: BlockCodec (AddressBookIpld Cid);
  authority_codec :: BlockCodec (AuthorityIpld Cid);
  sphere_ipld_codec :: BlockCodec (SphereIpld Cid);
  memo_codec :: BlockCodec (MemoIpld Cid);
}.

(** One part of [derive_mutation]: if the map changed since the parent, take its
    changelog, which may not be empty, for the changes. *)
Definition derive_part {K V Cid S} `{EqDecision K} `{EqDecision Cid} `{CidOps Cid} `{!BlockStore S Cid}
    `{!BlockCodec (VersionedMapIpld Cid)} `{!BlockCodec (ChangelogIpld (MapOperation K V))} (empty : string)
    (map parent_map : VersionedMap K V Cid S) (m : VersionedMapMutation K V) : outcome (VersionedMapMutation K V) :=
  if bool_decide (vm_cid map = vm_cid parent_map) then Ok m
  else
    let? changelog := (get_changelog map).1 in
    if changelog_is_empty changelog then Err empty else apply_changelog m changelog.

Section sphere.
Context {Cid S : Type} `{Unicode}.
Context `{EqDecision Cid} `{HashAlgorithm string} `{HashAlgorithm Cid} `{KeyOrder Cid}.
Context `{CidOps Cid} `{!BlockStore S Cid} `{!SphereCodecs Cid}.
Notation SphereIpld := (SphereIpld Cid).
Notation SphereMutation := (SphereMutation Cid).
Notation MemoIpld := (MemoIpld Cid).
Notation Content := (VersionedMap string Cid Cid S).
Notation Identities := (VersionedMap string (IdentityIpld Cid) Cid S).
Notation Delegations := (VersionedMap Cid (DelegationIpld Cid) Cid S).
Notation Revocations := (VersionedMap Cid RevocationIpld Cid S).
Implicit Types (s : S) (cid : Cid).

(** *** New spheres *)
Definition address_book_empty s : outcome (AddressBookIpld Cid) * S :=
  let '(r, s) := map_ipld_empty (K := string) (V := IdentityIpld Cid) s in
  let? identities_ipld := r keeping s in
  let '(r, s) := save s identities_ipld in
  let? identities := r keeping s in (Ok (mkAddressBook identities), s).

Definition authority_empty s : outcome (AuthorityIpld Cid) * S :=
  let '(r, s) := map_ipld_empty (K := Cid) (V := DelegationIpld Cid) s in
  let? delegations_ipld := r keeping s in
  let '(r, s) := save s delegations_ipld in
  let? delegations := r keeping s in
  let '(r, s) := map_ipld_empty (K := Cid) (V := RevocationIpld) s in
  let? revocations_ipld := r keeping s in
  let '(r, s) := save s revocations_ipld in
  let? revocations := r keeping s in (Ok (mkAuthorityIpld delegations revocations), s).

Definition sphere_ipld_new (did : string) s : outcome SphereIpld * S :=
  let '(r, s) := map_ipld_empty (K := string) (V := Cid) s in
  let? content_ipld := r keeping s in
  let '(r, s) := save s content_ipld in
  let? content := r keeping s in
  let '(r, s) := address_book_empty s in
  let? address_book_ipld := r keeping s in
  let '(r, s) := save s address_book_ipld in
  let? address_book := r keeping s in
  let '(r, s) := authority_empty s in
  let? authority_ipld := r keeping s in
  let '(r, s) := save s authority_ipld in
  let? authority := r keeping s in
  (Ok (mkSphereIpld did content address_book authority None), s).

(** *** Reading a version *)
Definition to_memo s cid : outcome MemoIpld := load s cid.
Definition to_body s cid : outcome SphereIpld := let? memo := to_memo s cid in load s (body memo).

Definition get_parent s cid : outcome (option Cid) := let? memo := to_memo s cid in Ok (parent memo).

Definition get_content s cid : outcome Content :=
  let? sphere := to_body s cid in Ok (vm_at (content sphere) s).

Definition get_identities s (address_book : Cid) : outcome Identities :=
  let? ipld := load s address_book in Ok (vm_at (identities (ipld : AddressBookIpld Cid)) s).

Definition get_delegations s (authority : Cid) : outcome Delegations :=
  let? ipld := load s authority in Ok (vm_at (delegations (ipld : AuthorityIpld Cid)) s).

Definition get_revocations s (authority : Cid) : outcome Revocations :=
  let? ipld := load s authority in Ok (vm_at (revocations (ipld : AuthorityIpld Cid)) s).

(** *** The changes of a version *)
(** The identities of the address book, if that changed. *)
Definition derive_identities s (sphere parent_sphere : SphereIpld)
    (m : VersionedMapMutation string (IdentityIpld Cid)) : outcome (VersionedMapMutation string (IdentityIpld Cid)) :=
  if bool_decide (address_book sphere = address_book parent_sphere) then Ok m
  else
    let? parent_identities := get_identities s (address_book parent_sphere) in
    let? identities := get_identities s (address_book sphere) in
    derive_part "Identities changed but the changelog is empty" identities parent_identities m.

(** The delegations and the revocations of the authority, if that changed. *)
Definition derive_authority s (sphere parent_sphere : SphereIpld)
    (md : VersionedMapMutation Cid (DelegationIpld Cid)) (mr : VersionedMapMutation Cid RevocationIpld)
    : outcome (VersionedMapMutation Cid (DelegationIpld Cid) * VersionedMapMutation Cid RevocationIpld) :=
  if bool_decide (authority sphere = authority parent_sphere) then Ok (md, mr)
  else
    let? parent_delegations := get_delegations s (authority parent_sphere) in
    let? delegations := get_delegations s (authority sphere) in
    let? md := derive_part "Allowed UCANs changed but the changelog is empty" delegations parent_delegations md in
    let? parent_revocations := get_revocations s (authority parent_sphere) in
    let? revocations := get_revocations s (authority sphere) in
    let? mr := derive_part "Revoked UCANs changed but the changelog is empty" revocations parent_revocations mr in
    Ok (md, mr).

Definition derive_mutation s cid : outcome SphereMutation :=
  let? memo := to_memo s cid in
  let? author := ok_or "No author header found" (get_first_header memo (Header.deref Header.Author)) in
  let mutation := sphere_mutation_new author in
  let? parent_cid := get_parent s cid in
  match parent_cid with
  | None => Ok mutation
  | Some parent_cid =>
      let? parent_content := get_content s parent_cid in
      let? content := get_content s cid in
      let? content_changes :=
        derive_part "Content changed but the changelog is empty" content parent_content (content_mutation mutation) in
      let? parent_sphere := to_body s parent_cid in
      let? sphere := to_body s cid in
      let? identities_changes := derive_identities s sphere parent_sphere (identities_mutation mutation) in
      let? (delegations_changes, revocations_changes) :=
        derive_authority s sphere parent_sphere (delegations_mutation mutation) (revocations_mutation mutation) in
      Ok (mkSphereMutation author content_changes identities_changes delegations_changes revocations_changes)
  end.

(** *** Applying changes *)
Record SphereRevision := mkRevision { sphere_identity : string; revision_memo : MemoIpld }.

Definition no_changes {K V} (m : VersionedMapMutation K V) : bool := bool_decide (length (mutation_changes m) = 0).

Definition apply_content (sphere : SphereIpld) (m : SphereMutation) s : outcome Cid * S :=
  if no_changes (content_mutation m) then (Ok (content sphere), s)
  else apply_with_cid (Some (content sphere)) (content_mutation m) s.

Definition apply_identities (sphere : SphereIpld) (m : SphereMutation) s : outcome Cid * S :=
  if no_changes (identities_mutation m) then (Ok (address_book sphere), s)
  else
    let? book := load s (address_book sphere) keeping s in
    let '(r, s) := apply_with_cid (Some (identities (book : AddressBookIpld Cid))) (identities_mutation m) s in
    let? identities := r keeping s in
    save s (mkAddressBook identities).

Definition apply_authority (sphere : SphereIpld) (m : SphereMutation) s : outcome Cid * S :=
  if no_changes (delegations_mutation m) && no_changes (revocations_mutation m) then (Ok (authority sphere), s)
  else
    let? ipld := load s (authority sphere) keeping s in
    let '(r, s) :=
      if no_changes (delegations_mutation m) then (Ok (delegations (ipld : AuthorityIpld Cid)), s)
      else apply_with_cid (Some (delegations ipld)) (delegations_mutation m) s in
    let? delegations := r keeping s in
    let '(r, s) :=
      if no_changes (revocations_mutation m) then (Ok (revocations (ipld : AuthorityIpld Cid)), s)
      else apply_with_cid (Some (revocations ipld)) (revocations_mutation m) s in
    let? revocations := r keeping s in
    save s (mkAuthorityIpld delegations revocations).

Definition apply_mutation_with_cid cid (m : SphereMutation) s : outcome SphereRevision * S :=
  let? memo := branch_from cid s keeping s in
  let? sphere := load s (body memo) keeping s in
  let '(r, s) := apply_content sphere m s in
  let? content := r keeping s in
  let '(r, s) := apply_identities sphere m s in
  let? address_book := r keeping s in
  let '(r, s) := apply_authority sphere m s in
  let? authority := r keeping s in
  let '(r, s) :=
    save s (mkSphereIpld (identity sphere) content address_book authority (private (sphere : SphereIpld))) in
  let? body := r keeping s in
  (Ok (mkRevision (identity sphere) (with_body memo body)), s).

Definition rebase_version cid (onto : Cid) s : outcome SphereRevision * S :=
  let? m := derive_mutation s cid keeping s in apply_mutation_with_cid onto m s.

(** *** Replaying the changes of a version *)
Definition hydrate_with_cid cid s : outcome unit * S :=
  let? memo := to_memo s cid keeping s in
  let '(r, s) :=
    match parent memo with
    | Some cid => (Ok cid, s)
    | None =>
        let? sphere := to_body s cid keeping s in
        let '(r, s) := sphere_ipld_new (identity sphere) s in
        let? base_sphere := r keeping s in
        let '(r, s) := for_body s base_sphere in
        let? empty_dag := r keeping s in
        save s empty_dag
    end in
  let? base_cid := r keeping s in
  let? m := derive_mutation s cid keeping s in
  let '(r, s) := apply_mutation_with_cid base_cid m s in
  let? hydrated_revision := r keeping s in
  if bool_decide (body (revision_memo hydrated_revision) = body memo) then (Ok tt, s)
  else (Err "Unexpected CID after hydration", s).
End sphere.
Arguments SphereRevision Cid : clear implicits.
