(* ===== verification/SphereProofs.v ===== *)
(** * Facts about spheres

    The abstract value of a version is its four finite maps, each with the
    changelog of the last change to it.  Applying a mutation replays its changes
    on them; deriving a mutation from a version gives one that replays to the
    same value; and a value determines the CID of the body, so that replaying
    a derived mutation on the parent reproduces the version. *)
From stdpp Require Import base gmap list numbers strings pretty.
From Stdlib Require Import Ascii String.
From S2P Require Import Prelude BlockStore HamtNode HamtRep Hamt HamtSpec BTree VersionedMap.
From S2P Require Import UcanCapability Ucan UcanChain Authority Memo Sphere.
#[local] Open Scope list_scope.
#[local] Notation length := List.length (only parsing).

(** ** One of the maps *)
Section part.
Context {K V Cid S : Type}.
Context `{Countable K} `{EqDecision V} `{KeyOrderLaws K} `{HashAlgorithmLaws K}.
Context `{CidLaws Cid} `{EqDecision Cid} `{!BlockStore S Cid} `{!BlockStoreLaws S Cid}.
Context `{!BlockCodec (wire_node K V Cid)} `{!BlockCodecLaws Cid (wire_node K V Cid)} `{!BlockCodec (VersionedMapIpld Cid)} `{!BlockCodecLaws Cid (VersionedMapIpld Cid)}.
Context `{!BlockCodec (ChangelogIpld (MapOperation K V))} `{!BlockCodecLaws Cid (ChangelogIpld (MapOperation K V))}.
Notation Changelog := (ChangelogIpld (MapOperation K V)).
Implicit Types (s : S) (c : Cid) (p : gmap K V * Changelog) (m : VersionedMapMutation K V).

(** A version of a map with the changelog it was made by. *)
Definition part_at s c p : Prop := map_at s c p.1 p.2.

Definition apply_part m p : gmap K V * Changelog :=
  if no_changes m then p
  else (apply_ops p.1 (mutation_changes m), mkChangelog (Some (mutation_did m)) (mutation_changes m)).

Lemma no_changes_true m : no_changes m = true <-> mutation_changes m = [].
Proof. unfold no_changes. rewrite bool_decide_eq_true. apply length_zero_iff_nil. Qed.

Lemma apply_part_fst m p : (apply_part m p).1 = apply_ops p.1 (mutation_changes m).
Proof. unfold apply_part. destruct (no_changes m) eqn:E; [|done]. by apply no_changes_true in E as ->. Qed.

(** A stored version has one value. *)
Lemma part_at_fun s c p p' : part_at s c p -> part_at s c p' -> p = p'.
Proof.
  intros (i & Hi & Hl & Hh) (i' & Hi' & Hl' & Hh'). apply stored_load in Hi, Hi', Hl, Hl'.
  assert (i' = i) as -> by congruence. destruct p as [m log], p' as [m' log']. cbn in *.
  f_equal; [|congruence]. destruct (hamt_at_loads _ _ _ Hh) as (h & El & _ & Hr). destruct (hamt_at_loads _ _ _ Hh') as (h' & El' & _ & Hr').
  assert (h' = h) as -> by congruence. apply map_eq. intros k.
  destruct (hamt_get_rep _ _ _ k Hr) as (? & E & _). destruct (hamt_get_rep _ _ _ k Hr') as (? & E' & _). congruence.
Qed.

Lemma part_at_cid s s' c c' p : part_at s c p -> part_at s' c' p -> c = c'.
Proof. apply map_at_cid. Qed.

Lemma part_at_mono s s' c p : store_le s s' -> part_at s c p -> part_at s' c p.
Proof. apply map_at_mono. Qed.

Lemma apply_part_at s c p m :
  part_at s c p -> changes_collision_free p.1 (mutation_changes m) ->
  exists c' s', (if no_changes m then (Ok c, s) else apply_with_cid (Some c) m s) = (Ok c', s') /\
    store_le s s' /\ part_at s' c' (apply_part m p).
Proof.
  intros Hp Hcf. unfold apply_part. destruct (no_changes m); [by exists c, s|].
  by apply (apply_with_cid_spec s c p.1 p.2).
Qed.

(** [m'] is [m], or has no changes because those of [m] do nothing to [p]. *)
Definition derived_part p m m' : Prop := m' = m \/ (mutation_changes m' = [] /\ apply_part m p = p).

(** The version [c] and its changelog are in [s], its entries perhaps not. *)
Definition log_at s c (log : Changelog) : Prop :=
  exists ipld : VersionedMapIpld Cid, stored s c ipld /\ stored s (map_changelog ipld) log.

Lemma part_log_at s c p : part_at s c p -> log_at s c p.2.
Proof. intros (ipld & Hi & Hl & _). by exists ipld. Qed.

Lemma log_at_mono s s' c log : store_le s s' -> log_at s c log -> log_at s' c log.
Proof. intros Hle (ipld & Hi & Hl). exists ipld. split; by eapply stored_mono. Qed.

Lemma log_at_get s c log : log_at s c log -> (get_changelog (vm_at c s)).1 = Ok log.
Proof.
  intros (ipld & Hi & Hl). unfold get_changelog, vm_load_changelog, vm_to_body. cbn [vm_at vm_changelog vm_body vm_store vm_cid].
  rewrite (stored_load _ _ _ Hi). cbn [try_with vm_store]. by rewrite (stored_load _ _ _ Hl).
Qed.

(** What [derive_part] finds when the map at [c'] was made from the one at [c] by
    the changes [m] of the author: [s0] holds both maps; the store [s] that is
    read need only hold the changelog of the second. *)
Lemma derive_part_sparse s0 s c c' p m author e :
  part_at s0 c p -> part_at s0 c' (apply_part m p) -> (apply_part m p <> p -> log_at s c' (apply_part m p).2) -> mutation_did m = author ->
  exists m', derive_part e (vm_at c' s) (vm_at c s) (map_mutation_new author) = Ok m' /\
    mutation_did m' = author /\ apply_part m' p = apply_part m p /\ derived_part p m m'.
Proof.
  intros Hp Hp' Hlog Ha. unfold derive_part. cbn [vm_at vm_cid]. case_bool_decide as E.
  - exists (map_mutation_new author). subst c'. unfold derived_part. rewrite <- (part_at_fun s0 c _ _ Hp Hp'). by split_and!; [..|right].
  - rewrite (log_at_get _ _ (apply_part m p).2) by (apply Hlog; intros Ep; rewrite Ep in Hp'; exact (E (part_at_cid _ _ _ _ _ Hp' Hp))). cbn [outcome_bind].
    unfold derived_part, apply_part in *. destruct (no_changes m) eqn:En; [destruct (E (part_at_cid _ _ _ _ _ Hp' Hp))|].
    cbn [snd]. unfold changelog_is_empty. cbn [log_changes]. destruct (mutation_changes m) as [|ch chs] eqn:Ec.
    { apply no_changes_true in Ec. congruence. }
    cbn [length Nat.eqb]. unfold apply_changelog. cbn [log_did ok_or outcome_bind map_mutation_new mutation_did log_changes].
    rewrite bool_decide_true by done. cbn [negb]. exists m. split_and!; [|done|by rewrite En, Ec|by left].
    f_equal. destruct m as [did chs']. cbn in *. congruence.
Qed.

Lemma save_empty_map s : exists ipld s1 c s2, map_ipld_empty (K := K) (V := V) s = (Ok ipld, s1) /\
  save s1 ipld = (Ok c, s2) /\ store_le s s2 /\ part_at s2 c (∅, changelog_default).
Proof.
  destruct (map_ipld_empty_spec s) as (ipld & s1 & E1 & Hle1 & Hl & Hh).
  destruct (save_spec s1 ipld) as (c & s2 & E2 & Hle2 & Hs2). exists ipld, s1, c, s2.
  split; [exact E1|]. split; [exact E2|]. split; [by transitivity s1|].
  exists ipld. split; [done|]. split; [exact (stored_mono _ _ _ _ Hle2 Hl)|by eapply hamt_at_mono].
Qed.
End part.

(** ** Versions of a sphere *)
Class SphereCodecsLaws (Cid : Type) `{CidOps Cid} `{!SphereCodecs Cid} := {
  content_node_laws :: BlockCodecLaws Cid (wire_node string Cid Cid);
  identities_node_laws :: BlockCodecLaws Cid (wire_node string (IdentityIpld Cid) Cid);
  delegations_node_laws :: BlockCodecLaws Cid (wire_node Cid (DelegationIpld Cid) Cid);
  revocations_node_laws :: BlockCodecLaws Cid (wire_node Cid RevocationIpld Cid);
  content_log_laws :: BlockCodecLaws Cid (ChangelogIpld (MapOperation string Cid));
  identities_log_laws :: BlockCodecLaws Cid (ChangelogIpld (MapOperation string (IdentityIpld Cid)));
  delegations_log_laws :: BlockCodecLaws Cid (ChangelogIpld (MapOperation Cid (DelegationIpld Cid)));
  revocations_log_laws :: BlockCodecLaws Cid (ChangelogIpld (MapOperation Cid RevocationIpld));
  map_ipld_laws :: BlockCodecLaws Cid (VersionedMapIpld Cid);
  address_book_laws :: BlockCodecLaws Cid (AddressBookIpld Cid);
  authority_laws :: BlockCodecLaws Cid (AuthorityIpld Cid);
  sphere_ipld_laws :: BlockCodecLaws Cid (SphereIpld Cid);
  memo_laws :: BlockCodecLaws Cid (MemoIpld Cid);
}.

(** A map with the changelog of the last change to it. *)
Notation logged K V := (gmap K V * ChangelogIpld (MapOperation K V))%type.

Record sphere_value (Cid : Type) `{Countable Cid} := mkValue {
  v_content : logged string Cid;
  v_identities : logged string (IdentityIpld Cid);
  v_delegations : logged Cid (DelegationIpld Cid);
  v_revocations : logged Cid RevocationIpld;
}.
Arguments mkValue {Cid _ _} _ _ _ _.
Arguments v_content {Cid _ _} _.
Arguments v_identities {Cid _ _} _.
Arguments v_delegations {Cid _ _} _.
Arguments v_revocations {Cid _ _} _.

Section sphere_facts.
Context {Cid S : Type} `{UnicodeLaws}.
Context `{Countable Cid} `{HashAlgorithmLaws string} `{HashAlgorithmLaws Cid} `{KeyOrderLaws Cid}.
Context `{CidLaws Cid} `{!BlockStore S Cid} `{!BlockStoreLaws S Cid} `{!SphereCodecs Cid} `{!SphereCodecsLaws Cid}.
Notation SphereIpld := (SphereIpld Cid).
Notation SphereMutation := (SphereMutation Cid).
Notation MemoIpld := (MemoIpld Cid).
Notation value := (sphere_value Cid).
Implicit Types (s : S) (c : Cid) (v : value) (m : SphereMutation) (memo : MemoIpld) (ipld : SphereIpld).

Definition apply_value m v : value :=
  mkValue (apply_part (content_mutation m) (v_content v)) (apply_part (identities_mutation m) (v_identities v))
    (apply_part (delegations_mutation m) (v_delegations v)) (apply_part (revocations_mutation m) (v_revocations v)).

Definition empty_value : value :=
  mkValue (∅, changelog_default) (∅, changelog_default) (∅, changelog_default) (∅, changelog_default).

(** The sphere data [ipld] refers, in [s], to maps of the value [v]. *)
Definition body_at s ipld v : Prop :=
  part_at s (content ipld) (v_content v) /\
  (exists book, stored s (address_book ipld) book /\ part_at s (identities book) (v_identities v)) /\
  (exists auth, stored s (authority ipld) auth /\ part_at s (delegations auth) (v_delegations v) /\
    part_at s (revocations auth) (v_revocations v)).

(** [c] is a version of a sphere: a memo, a body and the maps. *)
Definition version_at s c memo ipld v : Prop :=
  stored s c memo /\ stored s (body memo) ipld /\ body_at s ipld v.

(** No two keys that a map has or a change mentions have the same hash. *)
Definition mutation_collision_free m v : Prop :=
  changes_collision_free (v_content v).1 (mutation_changes (content_mutation m)) /\
  changes_collision_free (v_identities v).1 (mutation_changes (identities_mutation m)) /\
  changes_collision_free (v_delegations v).1 (mutation_changes (delegations_mutation m)) /\
  changes_collision_free (v_revocations v).1 (mutation_changes (revocations_mutation m)).

(** The parts of a mutation name its author. *)
Definition mutation_by m author : Prop :=
  mutation_did (content_mutation m) = author /\ mutation_did (identities_mutation m) = author /\
  mutation_did (delegations_mutation m) = author /\ mutation_did (revocations_mutation m) = author.

Lemma body_at_mono s s' ipld v : store_le s s' -> body_at s ipld v -> body_at s' ipld v.
Proof.
  intros Hle (Hc & (book & Hb & Hi) & (auth & Ha & Hd & Hr)). split; [by eapply part_at_mono|]. split.
  - exists book. split; [by eapply stored_mono|by eapply part_at_mono].
  - exists auth. split; [by eapply stored_mono|]. split; by eapply part_at_mono.
Qed.

Lemma version_at_mono s s' c memo ipld v : store_le s s' -> version_at s c memo ipld v -> version_at s' c memo ipld v.
Proof.
  intros Hle (Hm & Hb & Hv). split; [exact (stored_mono _ _ _ _ Hle Hm)|].
  split; [exact (stored_mono _ _ _ _ Hle Hb)|by eapply body_at_mono].
Qed.

(** The value determines the links of the sphere data. *)
Lemma body_at_links s s' ipld ipld' v : body_at s ipld v -> body_at s' ipld' v ->
  content ipld = content ipld' /\ address_book ipld = address_book ipld' /\ authority ipld = authority ipld'.
Proof.
  intros (Hc & ([i] & Hb & Hi) & ([d r] & Ha & Hd & Hr)) (Hc' & ([i'] & Hb' & Hi') & ([d' r'] & Ha' & Hd' & Hr')).
  cbn in *. assert (i = i') as <- by exact (part_at_cid _ _ _ _ _ Hi Hi').
  assert (d = d') as <- by exact (part_at_cid _ _ _ _ _ Hd Hd').
  assert (r = r') as <- by exact (part_at_cid _ _ _ _ _ Hr Hr').
  split; [exact (part_at_cid _ _ _ _ _ Hc Hc')|]. split; [exact (stored_inj _ _ _ _ _ Hb Hb')|exact (stored_inj _ _ _ _ _ Ha Ha')].
Qed.

(** *** Applying a mutation *)
Lemma apply_content_spec s ipld v m :
  body_at s ipld v -> mutation_collision_free m v ->
  exists c s', apply_content ipld m s = (Ok c, s') /\ store_le s s' /\ part_at s' c (apply_part (content_mutation m) (v_content v)).
Proof. intros (Hc & _) (Hcf & _). by apply apply_part_at. Qed.

Lemma apply_identities_spec s ipld v m :
  body_at s ipld v -> mutation_collision_free m v ->
  exists c s', apply_identities ipld m s = (Ok c, s') /\ store_le s s' /\
    exists book, stored s' c book /\ part_at s' (identities book) (apply_part (identities_mutation m) (v_identities v)).
Proof.
  intros (_ & (book & Hb & Hi) & _) (_ & Hcf & _ & _). unfold apply_identities, apply_part.
  destruct (apply_part_at s _ _ (identities_mutation m) Hi Hcf) as (c & s' & E & Hle & Hp). unfold apply_part in Hp.
  destruct (no_changes (identities_mutation m)).
  - exists (address_book ipld), s. split; [done|]. split; [done|]. by exists book.
  - rewrite (stored_load _ _ _ Hb). cbn [try_with]. rewrite E. cbn [try_with].
    destruct (save_spec s' (mkAddressBook c)) as (c' & s2 & E2 & Hle2 & Hs2). exists c', s2.
    split; [exact E2|]. split; [by transitivity s'|]. exists (mkAddressBook c). split; [done|]. by eapply part_at_mono.
Qed.

Lemma apply_authority_spec s ipld v m :
  body_at s ipld v -> mutation_collision_free m v ->
  exists c s', apply_authority ipld m s = (Ok c, s') /\ store_le s s' /\
    exists auth, stored s' c auth /\ part_at s' (delegations auth) (apply_part (delegations_mutation m) (v_delegations v)) /\
      part_at s' (revocations auth) (apply_part (revocations_mutation m) (v_revocations v)).
Proof.
  intros (_ & _ & (auth & Ha & Hd & Hr)) (_ & _ & Hcd & Hcr). unfold apply_authority.
  destruct (apply_part_at s _ _ (delegations_mutation m) Hd Hcd) as (d & s1 & E1 & Hle1 & Hp1).
  destruct (apply_part_at s1 _ _ (revocations_mutation m) (part_at_mono _ _ _ _ Hle1 Hr) Hcr) as (r & s2 & E2 & Hle2 & Hp2).
  destruct (no_changes (delegations_mutation m) && no_changes (revocations_mutation m)) eqn:En.
  - apply andb_true_iff in En as [En1 En2]. rewrite En1 in E1. rewrite En2 in E2.
    injection E1 as <- <-. injection E2 as <- <-. exists (authority ipld), s. split; [done|]. split; [done|]. by exists auth.
  - rewrite (stored_load _ _ _ Ha). cbn [try_with]. rewrite E1. cbn [try_with]. rewrite E2. cbn [try_with].
    destruct (save_spec s2 (mkAuthorityIpld d r)) as (c & s3 & E3 & Hle3 & Hs3). exists c, s3.
    split; [exact E3|]. split; [by transitivity s1; [|transitivity s2]|]. exists (mkAuthorityIpld d r).
    split; [done|]. split; [|by eapply part_at_mono]. eapply part_at_mono; [|exact Hp1]. by transitivity s2.
Qed.

(** A new, unsigned version of [c] whose value is [v]. *)
Definition revision_of s c memo ipld (rev : SphereRevision Cid) v : Prop :=
  sphere_identity rev = identity ipld /\ parent (revision_memo rev) = Some c /\
  lamport_order (revision_memo rev) = (lamport_order memo + 1)%N /\
  (forall n, values (headers (revision_memo rev)) n = branched_values memo n) /\
  exists ipld', stored s (body (revision_memo rev)) ipld' /\ body_at s ipld' v /\
    identity ipld' = identity ipld /\ private ipld' = private ipld.

Lemma apply_mutation_spec s c memo ipld v m :
  version_at s c memo ipld v -> (lamport_order memo < 2 ^ 32 - 1)%N -> mutation_collision_free m v ->
  exists rev s', apply_mutation_with_cid c m s = (Ok rev, s') /\ store_le s s' /\
    revision_of s' c memo ipld rev (apply_value m v).
Proof.
  intros (Hm & Hb & Hv) Hl Hcf. unfold apply_mutation_with_cid.
  destruct (branch_from_spec s c memo (stored_load _ _ _ Hm) Hl) as (memo' & -> & Hp & Hbody & Hlam & Hh). cbn [try_with].
  rewrite Hbody, (stored_load _ _ _ Hb). cbn [try_with].
  destruct (apply_content_spec s ipld v m Hv Hcf) as (cc & s1 & E1 & Hle1 & Hc). rewrite E1. cbn [try_with].
  assert (body_at s1 ipld v) as Hv1 by by eapply body_at_mono.
  destruct (apply_identities_spec s1 ipld v m Hv1 Hcf) as (ci & s2 & E2 & Hle2 & book & Hbook & Hi). rewrite E2. cbn [try_with].
  assert (body_at s2 ipld v) as Hv2 by by eapply body_at_mono.
  destruct (apply_authority_spec s2 ipld v m Hv2 Hcf) as (ca & s3 & E3 & Hle3 & auth & Hauth & Hd & Hr). rewrite E3. cbn [try_with].
  destruct (save_spec s3 (mkSphereIpld (identity ipld) cc ci ca (private ipld))) as (cb & s4 & E4 & Hle4 & Hs4).
  rewrite E4. cbn [try_with]. eexists _, s4. split; [done|].
  assert (store_le s2 s4) as Hle24 by by transitivity s3.
  split; [by transitivity s1; [|transitivity s2]|]. split; [done|]. split; [exact Hp|]. split; [exact Hlam|]. split; [exact Hh|].
  exists (mkSphereIpld (identity ipld) cc ci ca (private ipld)). split; [done|]. split; [|done]. split; [|split].
  - eapply part_at_mono; [|exact Hc]. by transitivity s2.
  - exists book. split; [exact (stored_mono _ _ _ _ Hle24 Hbook)|exact (part_at_mono _ _ _ _ Hle24 Hi)].
  - exists auth. split; [exact (stored_mono _ _ _ _ Hle4 Hauth)|].
    split; [exact (part_at_mono _ _ _ _ Hle4 Hd)|exact (part_at_mono _ _ _ _ Hle4 Hr)].
Qed.

(** *** Deriving a mutation *)

(** [m'] is [m] without the parts that change nothing in [v]. *)
Definition derived_from v m m' : Prop :=
  derived_part (v_content v) (content_mutation m) (content_mutation m') /\
  derived_part (v_identities v) (identities_mutation m) (identities_mutation m') /\
  derived_part (v_delegations v) (delegations_mutation m) (delegations_mutation m') /\
  derived_part (v_revocations v) (revocations_mutation m) (revocations_mutation m').

Lemma no_changes_collision_free {K V} `{Countable K} `{HashAlgorithm K} (g : gmap K V) (ch ch' : list (MapOperation K V)) :
  changes_collision_free g ch -> ch' = ch \/ ch' = [] -> changes_collision_free g ch'.
Proof.
  intros Hcf [->| ->]; [done|]. intros k1 k2 [Hk1|Hk1] [Hk2|Hk2]; try by apply elem_of_nil in Hk1 || apply elem_of_nil in Hk2.
  apply Hcf; by left.
Qed.

Lemma derived_collision_free m m' v0 v : derived_from v0 m m' -> mutation_collision_free m v -> mutation_collision_free m' v.
Proof.
  intros (H1' & H2' & H3' & H4') (C1 & C2 & C3 & C4).
  split; [|split; [|split]]; (eapply no_changes_collision_free; [eassumption|]);
    [destruct H1' as [->|[-> _]]|destruct H2' as [->|[-> _]]|destruct H3' as [->|[-> _]]|destruct H4' as [->|[-> _]]]; auto.
Qed.

(** Of a body [ipld'] of value [v'] that succeeds the body [ipld] of value [v], the
    store [s] holds what says what changed: the links and the changelogs of the
    maps that differ. *)
Definition sparse_at s ipld ipld' v v' : Prop :=
  (v_content v' <> v_content v -> log_at s (content ipld') (v_content v').2) /\
  (address_book ipld' <> address_book ipld -> exists book', stored s (address_book ipld') book' /\
    (v_identities v' <> v_identities v -> log_at s (identities book') (v_identities v').2)) /\
  (authority ipld' <> authority ipld -> exists auth', stored s (authority ipld') auth' /\
    (v_delegations v' <> v_delegations v -> log_at s (delegations auth') (v_delegations v').2) /\
    (v_revocations v' <> v_revocations v -> log_at s (revocations auth') (v_revocations v').2)).

Lemma body_sparse_at s ipld ipld' v v' : body_at s ipld' v' -> sparse_at s ipld ipld' v v'.
Proof.
  intros (Hc & (book & Hb & Hi) & (auth & Ha & Hd & Hr)). split; [intros _; by apply part_log_at|]. split; intros _.
  - exists book. split; [done|]. intros _. by apply part_log_at.
  - exists auth. split; [done|]. split; intros _; by apply part_log_at.
Qed.

Lemma sparse_at_mono s s' ipld ipld' v v' : store_le s s' -> sparse_at s ipld ipld' v v' -> sparse_at s' ipld ipld' v v'.
Proof.
  intros Hle (Hc & Hb & Ha). split; [|split].
  - intros Hn. exact (log_at_mono _ _ _ _ Hle (Hc Hn)).
  - intros Hn. destruct (Hb Hn) as (book & Hbk & Hl). exists book. split; [exact (stored_mono _ _ _ _ Hle Hbk)|].
    intros Hn'. exact (log_at_mono _ _ _ _ Hle (Hl Hn')).
  - intros Hn. destruct (Ha Hn) as (auth & Hau & Hd & Hr). exists auth. split; [exact (stored_mono _ _ _ _ Hle Hau)|].
    split; intros Hn'; [exact (log_at_mono _ _ _ _ Hle (Hd Hn'))|exact (log_at_mono _ _ _ _ Hle (Hr Hn'))].
Qed.

Lemma stored_fun {T} `{!BlockCodec T} `{!BlockCodecLaws Cid T} s s' c (x x' : T) : stored s c x -> stored s' c x' -> x = x'.
Proof.
  intros (b & Hb & Hc & _) (b' & Hb' & Hc' & _). assert (b = b') as <- by (apply (derive_cid_inj (Cid := Cid) DAG_CBOR); congruence).
  apply block_roundtrip in Hb, Hb'. congruence.
Qed.

Lemma derive_identities_sparse s0 s ipld ipld' v v' (m : VersionedMapMutation string (IdentityIpld Cid)) author :
  body_at s0 ipld v -> body_at s0 ipld' v' -> body_at s ipld v -> sparse_at s ipld ipld' v v' ->
  v_identities v' = apply_part m (v_identities v) -> mutation_did m = author ->
  exists m' : VersionedMapMutation string (IdentityIpld Cid), derive_identities s ipld' ipld (map_mutation_new author) = Ok m' /\ mutation_did m' = author /\
    apply_part m' (v_identities v) = apply_part m (v_identities v) /\ derived_part (v_identities v) m m'.
Proof.
  intros (_ & (book & Hbk & Hi) & _) (_ & (book' & Hbk' & Hi') & _) (_ & (bookr & Hbr & _) & _) (_ & Hsp & _) Hv Hd. rewrite Hv in *.
  pose proof (stored_fun _ _ _ _ _ Hbr Hbk) as ->. unfold derive_identities, get_identities. case_bool_decide as Eb.
  - rewrite Eb in Hbk'. pose proof (stored_fun _ _ _ _ _ Hbk' Hbk) as ->.
    pose proof (part_at_fun s0 _ _ _ Hi Hi'). exists (map_mutation_new author). by split_and!; [..|right].
  - destruct (Hsp Eb) as (book2 & Hb2 & Hlog). pose proof (stored_fun _ _ _ _ _ Hb2 Hbk') as ->.
    rewrite (stored_load _ _ _ Hbr). cbn [outcome_bind]. rewrite (stored_load _ _ _ Hb2). cbn [outcome_bind].
    destruct (derive_part_sparse s0 s _ _ _ m author "Identities changed but the changelog is empty" Hi Hi' Hlog Hd)
      as (m' & -> & D & A & O). exists m'. naive_solver.
Qed.

Lemma derive_authority_sparse s0 s ipld ipld' v v' md mr author :
  body_at s0 ipld v -> body_at s0 ipld' v' -> body_at s ipld v -> sparse_at s ipld ipld' v v' ->
  v_delegations v' = apply_part md (v_delegations v) ->
  v_revocations v' = apply_part mr (v_revocations v) -> mutation_did md = author -> mutation_did mr = author ->
  exists md' mr', derive_authority s ipld' ipld (map_mutation_new author) (map_mutation_new author) = Ok (md', mr') /\
    mutation_did md' = author /\ mutation_did mr' = author /\
    apply_part md' (v_delegations v) = apply_part md (v_delegations v) /\
    apply_part mr' (v_revocations v) = apply_part mr (v_revocations v) /\
    derived_part (v_delegations v) md md' /\ derived_part (v_revocations v) mr mr'.
Proof.
  intros (_ & _ & (auth & Ha & Hd & Hr)) (_ & _ & (auth' & Ha' & Hd' & Hr')) (_ & _ & (authr & Har & _)) (_ & _ & Hsp) Hvd Hvr Hdd Hdr.
  rewrite Hvd, Hvr in *. pose proof (stored_fun _ _ _ _ _ Har Ha) as ->.
  unfold derive_authority, get_delegations, get_revocations. case_bool_decide as Ea.
  - exists (map_mutation_new author), (map_mutation_new author). rewrite Ea in Ha'. pose proof (stored_fun _ _ _ _ _ Ha' Ha) as ->.
    pose proof (part_at_fun s0 _ _ _ Hd Hd'). pose proof (part_at_fun s0 _ _ _ Hr Hr').
    split_and!; try done; by right.
  - destruct (Hsp Ea) as (auth2 & Ha2 & Hlogd & Hlogr). pose proof (stored_fun _ _ _ _ _ Ha2 Ha') as ->.
    rewrite (stored_load _ _ _ Har). cbn [outcome_bind]. rewrite (stored_load _ _ _ Ha2). cbn [outcome_bind].
    destruct (derive_part_sparse s0 s _ _ _ md author "Allowed UCANs changed but the changelog is empty" Hd Hd' Hlogd Hdd)
      as (md' & -> & D & A & O). cbn [outcome_bind].
    destruct (derive_part_sparse s0 s _ _ _ mr author "Revoked UCANs changed but the changelog is empty" Hr Hr' Hlogr Hdr)
      as (mr' & -> & D' & A' & O'). exists md', mr'. cbn [outcome_bind]. naive_solver.
Qed.

(** The store [s] holds the memo and the body of [c'] and what changed. *)
Definition sparse_version_at s ipld v c' memo' ipld' v' : Prop :=
  stored s c' memo' /\ stored s (body memo') ipld' /\ sparse_at s ipld ipld' v v'.

Lemma version_sparse_at s ipld v c' memo' ipld' v' : version_at s c' memo' ipld' v' -> sparse_version_at s ipld v c' memo' ipld' v'.
Proof. intros (Hm & Hb & Hv). split; [done|]. split; [done|]. by apply body_sparse_at. Qed.

Lemma sparse_version_mono s s' ipld v c' memo' ipld' v' :
  store_le s s' -> sparse_version_at s ipld v c' memo' ipld' v' -> sparse_version_at s' ipld v c' memo' ipld' v'.
Proof.
  intros Hle (Hm & Hb & Hv). split; [exact (stored_mono _ _ _ _ Hle Hm)|].
  split; [exact (stored_mono _ _ _ _ Hle Hb)|by eapply sparse_at_mono].
Qed.

Lemma derive_mutation_sparse s0 s c c' memo memo' ipld ipld' v m author :
  body_at s0 ipld v -> body_at s0 ipld' (apply_value m v) ->
  version_at s c memo ipld v -> sparse_version_at s ipld v c' memo' ipld' (apply_value m v) ->
  parent memo' = Some c -> get_first_header memo' AUTHOR = Some author -> mutation_by m author ->
  exists m', derive_mutation s c' = Ok m' /\ author_did m' = author /\ mutation_by m' author /\
    apply_value m' v = apply_value m v /\ derived_from v m m'.
Proof.
  intros Hv0 Hv0' (Hm & Hb & Hv) (Hm' & Hb' & Hsp) Hp Hau (Hd1 & Hd2 & Hd3 & Hd4).
  unfold derive_mutation, get_parent, get_content, to_body, to_memo.
  rewrite (stored_load _ _ _ Hm'). cbn [outcome_bind]. rewrite (stored_load _ _ _ Hb'). cbn [outcome_bind]. fold AUTHOR.
  rewrite Hau. cbn [ok_or outcome_bind]. rewrite Hp.
  rewrite (stored_load _ _ _ Hm). cbn [outcome_bind]. rewrite (stored_load _ _ _ Hb). cbn [outcome_bind].
  cbn [sphere_mutation_new content_mutation identities_mutation delegations_mutation revocations_mutation].
  destruct (derive_part_sparse s0 s _ _ _ (content_mutation m) author "Content changed but the changelog is empty"
    (proj1 Hv0) (proj1 Hv0') (proj1 Hsp) Hd1) as (m1 & -> & D1 & A1 & O1). cbn [outcome_bind].
  destruct (derive_identities_sparse s0 s ipld ipld' v _ (identities_mutation m) author Hv0 Hv0' Hv Hsp eq_refl Hd2)
    as (m2 & -> & D2 & A2 & O2). cbn [outcome_bind].
  destruct (derive_authority_sparse s0 s ipld ipld' v _ (delegations_mutation m) (revocations_mutation m) author
    Hv0 Hv0' Hv Hsp eq_refl eq_refl Hd3 Hd4) as (m3 & m4 & -> & D3 & D4 & A3 & A4 & O3 & O4). cbn [outcome_bind].
  eexists. split; [done|]. split; [done|]. split; [done|]. unfold apply_value, derived_from.
  cbn [content_mutation identities_mutation delegations_mutation revocations_mutation].
  by rewrite A1, A2, A3, A4.
Qed.

Lemma derive_mutation_spec s c c' memo memo' ipld ipld' v m author :
  version_at s c memo ipld v -> version_at s c' memo' ipld' (apply_value m v) ->
  parent memo' = Some c -> get_first_header memo' AUTHOR = Some author -> mutation_by m author ->
  exists m', derive_mutation s c' = Ok m' /\ author_did m' = author /\ mutation_by m' author /\
    apply_value m' v = apply_value m v /\ derived_from v m m'.
Proof.
  intros Hc Hc'. eapply (derive_mutation_sparse s s); [apply Hc|apply Hc'|exact Hc|by apply version_sparse_at].
Qed.

(** *** New spheres *)
Lemma address_book_empty_spec s :
  exists book s', address_book_empty s = (Ok book, s') /\ store_le s s' /\ part_at s' (identities book) (v_identities empty_value).
Proof.
  destruct (save_empty_map (K := string) (V := IdentityIpld Cid) s) as (i & s1 & c & s2 & E1 & E2 & Hle & Hp).
  exists (mkAddressBook c), s2. unfold address_book_empty. rewrite E1. cbn [try_with]. rewrite E2. done.
Qed.

Lemma authority_empty_spec s :
  exists auth s', authority_empty s = (Ok auth, s') /\ store_le s s' /\
    part_at s' (delegations auth) (v_delegations empty_value) /\ part_at s' (revocations auth) (v_revocations empty_value).
Proof.
  destruct (save_empty_map (K := Cid) (V := DelegationIpld Cid) s) as (i & s1 & c & s2 & E1 & E2 & Hle & Hp).
  destruct (save_empty_map (K := Cid) (V := RevocationIpld) s2) as (i' & s3 & c' & s4 & E3 & E4 & Hle' & Hp').
  exists (mkAuthorityIpld c c'), s4. unfold authority_empty. rewrite E1. cbn [try_with]. rewrite E2. cbn [try_with].
  rewrite E3. cbn [try_with]. rewrite E4. cbn [try_with]. split; [done|]. split; [by transitivity s2|].
  split; [exact (part_at_mono _ _ _ _ Hle' Hp)|exact Hp'].
Qed.

Lemma sphere_ipld_new_spec did s :
  exists ipld s', sphere_ipld_new did s = (Ok ipld, s') /\ store_le s s' /\ body_at s' ipld empty_value /\
    identity ipld = did /\ private ipld = None.
Proof.
  destruct (save_empty_map (K := string) (V := Cid) s) as (i & s1 & c & s2 & E1 & E2 & Hle2 & Hc).
  destruct (address_book_empty_spec s2) as (book & s3 & E3 & Hle3 & Hi).
  destruct (save_spec s3 book) as (cb & s4 & E4 & Hle4 & Hb).
  destruct (authority_empty_spec s4) as (auth & s5 & E5 & Hle5 & Hd & Hr).
  destruct (save_spec s5 auth) as (ca & s6 & E6 & Hle6 & Ha).
  assert (store_le s4 s6) as Hle46 by by transitivity s5. assert (store_le s3 s6) as Hle36 by by transitivity s4.
  assert (store_le s2 s6) as Hle26 by by transitivity s3.
  exists (mkSphereIpld did c cb ca None), s6. unfold sphere_ipld_new. rewrite E1. cbn [try_with]. rewrite E2. cbn [try_with].
  rewrite E3. cbn [try_with]. rewrite E4. cbn [try_with]. rewrite E5. cbn [try_with]. rewrite E6. cbn [try_with].
  split; [done|]. split; [by transitivity s2|]. split; [|done]. split; [exact (part_at_mono _ _ _ _ Hle26 Hc)|]. split.
  - exists book. split; [exact (stored_mono _ _ _ _ Hle46 Hb)|exact (part_at_mono _ _ _ _ Hle36 Hi)].
  - exists auth. split; [exact Ha|]. split; [exact (part_at_mono _ _ _ _ Hle6 Hd)|exact (part_at_mono _ _ _ _ Hle6 Hr)].
Qed.

(** *** Replaying a version *)
Lemma body_at_unique s s' ipld ipld' v : body_at s ipld v -> body_at s' ipld' v ->
  identity ipld = identity ipld' -> private ipld = private ipld' -> ipld = ipld'.
Proof.
  intros Hv Hv' Hi Hp. destruct (body_at_links _ _ _ _ _ Hv Hv') as (Hc & Hb & Ha).
  destruct ipld, ipld'. cbn in *. congruence.
Qed.

(** Applying [m] to [c] gives the body of the version [c'] that was made so in
    another store, and stores its maps. *)
Lemma replay_spec s0 s c memo memo' ipld ipld' v m :
  version_at s c memo ipld v -> stored s (body memo') ipld' -> body_at s0 ipld' (apply_value m v) ->
  identity ipld' = identity ipld -> private ipld' = private ipld ->
  (lamport_order memo < 2 ^ 32 - 1)%N -> mutation_collision_free m v ->
  exists rev s', apply_mutation_with_cid c m s = (Ok rev, s') /\ store_le s s' /\ body (revision_memo rev) = body memo' /\
    body_at s' ipld' (apply_value m v).
Proof.
  intros Hc Hb' Hv' Hid Hpr Hl Hcf.
  destruct (apply_mutation_spec s c memo ipld v m Hc Hl Hcf) as (rev & s' & E & Hle & (_ & _ & _ & _ & ipld2 & Hs2 & Hv2 & Hi2 & Hp2)).
  exists rev, s'. split; [done|]. split; [done|].
  assert (ipld2 = ipld') as -> by (eapply body_at_unique; [exact Hv2|exact Hv'|congruence|congruence]).
  split; [exact (stored_inj _ _ _ _ _ Hs2 Hb')|done].
Qed.

(** Replaying a version of which only the changes are there restores it. *)
Lemma hydrate_sparse s0 s c c' memo memo' ipld ipld' v m author :
  body_at s0 ipld v -> body_at s0 ipld' (apply_value m v) ->
  version_at s c memo ipld v -> sparse_version_at s ipld v c' memo' ipld' (apply_value m v) ->
  parent memo' = Some c -> get_first_header memo' AUTHOR = Some author -> mutation_by m author ->
  identity ipld' = identity ipld -> private ipld' = private ipld ->
  (lamport_order memo < 2 ^ 32 - 1)%N -> mutation_collision_free m v ->
  exists s', hydrate_with_cid c' s = (Ok tt, s') /\ store_le s s' /\ version_at s' c' memo' ipld' (apply_value m v).
Proof.
  intros Hv0 Hv0' Hc Hc' Hp Hau Hby Hid Hpr Hl Hcf.
  destruct (derive_mutation_sparse s0 s c c' memo memo' ipld ipld' v m author Hv0 Hv0' Hc Hc' Hp Hau Hby) as (m' & Ed & _ & _ & Hv & Hdf).
  destruct Hc' as (Hm' & Hb' & _). rewrite <- Hv in Hv0' |- *.
  destruct (replay_spec s0 s c memo memo' ipld ipld' v m' Hc Hb' Hv0' Hid Hpr Hl (derived_collision_free _ _ _ _ Hdf Hcf))
    as (rev & s' & E & Hle & Hb & Hbody).
  exists s'. split; [|split; [done|]].
  - unfold hydrate_with_cid, to_memo. rewrite (stored_load _ _ _ Hm'). cbn [try_with]. rewrite Hp.
    cbn [try_with]. rewrite Ed. cbn [try_with]. rewrite E. cbn [try_with]. by rewrite bool_decide_true.
  - split; [exact (stored_mono _ _ _ _ Hle Hm')|]. split; [exact (stored_mono _ _ _ _ Hle Hb')|done].
Qed.

Lemma hydrate_spec s c c' memo memo' ipld ipld' v m author :
  version_at s c memo ipld v -> version_at s c' memo' ipld' (apply_value m v) ->
  parent memo' = Some c -> get_first_header memo' AUTHOR = Some author -> mutation_by m author ->
  identity ipld' = identity ipld -> private ipld' = private ipld ->
  (lamport_order memo < 2 ^ 32 - 1)%N -> mutation_collision_free m v ->
  exists s', hydrate_with_cid c' s = (Ok tt, s') /\ store_le s s'.
Proof.
  intros Hc Hc' Hp Hau Hby Hid Hpr Hl Hcf.
  destruct (hydrate_sparse s s c c' memo memo' ipld ipld' v m author (proj2 (proj2 Hc)) (proj2 (proj2 Hc')) Hc
    (version_sparse_at _ _ _ _ _ _ _ Hc') Hp Hau Hby Hid Hpr Hl Hcf) as (s' & E & Hle & _).
  by exists s'.
Qed.

(** The first version of a sphere, which has no parent. *)
Lemma hydrate_genesis_spec s c memo ipld author :
  version_at s c memo ipld empty_value -> parent memo = None -> get_first_header memo AUTHOR = Some author ->
  private ipld = None -> exists s', hydrate_with_cid c s = (Ok tt, s') /\ store_le s s'.
Proof.
  intros Hc Hp Hau Hpr. unfold hydrate_with_cid, to_memo, to_body. destruct Hc as (Hm & Hb & Hv).
  rewrite (stored_load _ _ _ Hm). cbn [try_with]. rewrite Hp. unfold to_memo. rewrite (stored_load _ _ _ Hm). cbn [outcome_bind].
  rewrite (stored_load _ _ _ Hb). cbn [try_with].
  destruct (sphere_ipld_new_spec (identity ipld) s) as (base & s1 & -> & Hle1 & Hbase & Hid & Hbp). cbn [try_with].
  destruct (save_spec s1 base) as (cb & s2 & E2 & Hle2 & Hs2). unfold for_body. rewrite E2. cbn [try_with].
  destruct (save_spec s2 (mkMemo None [] cb)) as (cm & s3 & E3 & Hle3 & Hs3). rewrite E3. cbn [try_with].
  assert (store_le s s3) as Hle by (transitivity s1; [done|]; by transitivity s2).
  assert (derive_mutation s3 c = Ok (sphere_mutation_new author)) as ->.
  { unfold derive_mutation, get_parent, to_memo. rewrite (stored_load _ _ _ (stored_mono _ _ _ _ Hle Hm)). cbn [outcome_bind].
    fold AUTHOR. rewrite Hau. cbn [ok_or outcome_bind]. by rewrite Hp. }
  cbn [try_with].
  destruct (replay_spec s s3 cm (mkMemo None [] cb) memo base ipld empty_value (sphere_mutation_new author))
    as (rev & s' & E & Hle' & Hbody & _).
  - split; [exact Hs3|]. split; [exact (stored_mono _ _ _ _ Hle3 Hs2)|]. eapply body_at_mono; [|exact Hbase]. by transitivity s2.
  - exact (stored_mono _ _ _ _ Hle Hb).
  - exact Hv.
  - done.
  - congruence.
  - done.
  - split; [|split; [|split]]; intros k1 k2 [Hk1|Hk1]; try (by apply elem_of_nil in Hk1); cbn in Hk1;
      rewrite dom_empty_L in Hk1; by apply elem_of_empty in Hk1.
  - rewrite E. cbn [try_with]. rewrite bool_decide_true by done. exists s'. split; [done|]. by transitivity s3.
Qed.

(** *** Moving a version to another base *)
Lemma rebase_version_spec s c c' memo memo' ipld ipld' v m author onto memo2 ipld2 v2 :
  version_at s c memo ipld v -> version_at s c' memo' ipld' (apply_value m v) ->
  parent memo' = Some c -> get_first_header memo' AUTHOR = Some author -> mutation_by m author ->
  version_at s onto memo2 ipld2 v2 -> (lamport_order memo2 < 2 ^ 32 - 1)%N -> mutation_collision_free m v2 ->
  exists m' rev s', rebase_version c' onto s = (Ok rev, s') /\ store_le s s' /\ derived_from v m m' /\
    apply_value m' v = apply_value m v /\ mutation_by m' author /\ revision_of s' onto memo2 ipld2 rev (apply_value m' v2).
Proof.
  intros Hc Hc' Hp Hau Hby Ho Hl Hcf.
  destruct (derive_mutation_spec s c c' memo memo' ipld ipld' v m author Hc Hc' Hp Hau Hby) as (m' & Ed & _ & Hby' & Hv & Hdf).
  destruct (apply_mutation_spec s onto memo2 ipld2 v2 m' Ho Hl (derived_collision_free _ _ _ _ Hdf Hcf)) as (rev & s' & E & Hle & Hrev).
  exists m', rev, s'. unfold rebase_version. rewrite Ed. cbn [try_with]. split_and!; done.
Qed.
End sphere_facts.
