(* ===== verification/SphereHistory.v ===== *)
(** * Histories of spheres

    Model of the timelines of [noosphere-core] (view/timeline.rs), of signing a
    revision (view/mutation.rs) and of the operations of the sphere view
    (view/sphere.rs) that run over many versions: hydrating a slice, rebasing,
    compacting, streaming the history, creating a sphere, and verifying the
    signature of a version.

    A history has no bound of its own: [fuel] bounds the number of versions that
    a walk visits. *)
From stdpp Require Import base gmap list numbers strings pretty.
From Stdlib Require Import Ascii String.
From S2P Require Import Prelude BlockStore HamtNode HamtRep Hamt BTree VersionedMap.
From S2P Require Import UcanCapability Ucan UcanChain Authority Memo Sphere.
#[local] Open Scope list_scope.
#[local] Notation length := List.length (only parsing).

(** ** Timelines *)
Section timeline.
Context {Cid S : Type} `{EqDecision Cid} `{CidOps Cid} `{!BlockStore S Cid} `{!BlockCodec (MemoIpld Cid)}.
Notation MemoIpld := (MemoIpld Cid).

(** The items of [Timeline::stream] and how the stream ends. *)
Fixpoint timeline_stream (fuel : nat) (s : S) (from to : option Cid) (exclude_past : bool)
    : list (Cid * MemoIpld) * outcome unit :=
  match from with
  | None => ([], Ok tt)
  | Some cid =>
      match fuel with
      | O => ([], Diverge)
      | Datatypes.S fuel' =>
          match load s cid with
          | Ok next_dag =>
              let next_from :=
                if bool_decide (to = Some cid) then None
                else if exclude_past && bool_decide (to = parent next_dag) then None
                else parent next_dag in
              let '(items, r) := timeline_stream fuel' s next_from to exclude_past in
              ((cid, next_dag) :: items, r)
          | Err e => ([], Err e)
          | Panic w => ([], Panic w)
          | Diverge => ([], Diverge)
          end
      end
  end.

Record Timeslice := mkTimeslice { past : option Cid; future : Cid; slice_exclude_past : bool }.

Definition slice (future : Cid) (past : option Cid) : Timeslice := mkTimeslice past future false.
Definition include_past (t : Timeslice) : Timeslice := mkTimeslice (past t) (future t) false.
Definition exclude_past (t : Timeslice) : Timeslice := mkTimeslice (past t) (future t) true.

Definition timeslice_stream (fuel : nat) (s : S) (t : Timeslice) : list (Cid * MemoIpld) * outcome unit :=
  timeline_stream fuel s (Some (future t)) (past t) (slice_exclude_past t).

(** Every item is pushed to the front of a queue; an error ends the walk. *)
Definition to_chronological (fuel : nat) (s : S) (t : Timeslice) : outcome (list Cid) :=
  let '(items, r) := timeslice_stream fuel s t in
  let? _ := r in Ok (foldl (fun chronological item => item.1 :: chronological) [] items).

(** [Sphere::into_history_stream]: the loop also stops at [since]. *)
Fixpoint until_since (since : option Cid) (items : list (Cid * MemoIpld)) : list (Cid * MemoIpld) * bool :=
  match items with
  | [] => ([], false)
  | (cid, memo) :: items' =>
      if bool_decide (since = Some cid) then ([], true)
      else let '(yielded, broke) := until_since since items' in ((cid, memo) :: yielded, broke)
  end.

Definition into_history_stream (fuel : nat) (s : S) (cid : Cid) (since : option Cid)
    : list (Cid * MemoIpld) * outcome unit :=
  let '(items, r) := timeslice_stream fuel s (exclude_past (slice cid since)) in
  let '(yielded, broke) := until_since since items in
  (yielded, if broke then Ok tt else r).
End timeline.
Arguments Timeslice Cid : clear implicits.

(** ** The tokens in a block store (noosphere-storage/src/ucan.rs) *)
Section block_tokens.
Context {S Cid : Type} `{CidOps Cid} `{!BlockStore S Cid}.

(** [get::<RawCodec, Ipld>]: the raw codec reads every block as a byte string. *)
Definition block_ucan_read (s : S) (cid : Cid) : outcome (option Ipld) :=
  let? found := get_block s cid in Ok (IpldBytes <$> found).

(** [put::<RawCodec, Ipld>]. *)
Definition block_ucan_write (s : S) (token : Ipld) : outcome Cid * S :=
  match token with
  | IpldBytes block => put_encoded s RAW block
  | IpldOther => (Err "Unsupported type", s)
  end.

Definition block_ucan_store : UcanStore S Cid := {| ucan_read := block_ucan_read; ucan_write := block_ucan_write |}.
End block_tokens.

Section history.
Context {Key Url Cid S : Type} `{Unicode}.
Context `{KeyMaterial Key} `{Bs58} `{Base64} `{DagJson UcanHeader} `{DagJson UcanPayload} `{UrlOps Url}.
Context `{EqDecision Cid} `{HashAlgorithm string} `{HashAlgorithm Cid} `{KeyOrder Cid}.
Context `{CidOps Cid} `{!BlockStore S Cid} `{!SphereCodecs Cid}.
Notation SphereIpld := (SphereIpld Cid).
Notation SphereMutation := (SphereMutation Cid).
Notation SphereRevision := (SphereRevision Cid).
Notation MemoIpld := (MemoIpld Cid).
#[local] Existing Instance block_ucan_store.
Implicit Types (s : S) (cid : Cid).

(** *** Signing a revision *)

(** The proof that [SphereRevision::sign] makes from an authorization. *)
Definition revision_proof (rng : bytes) (clock : N) (identity : string) (credential : Key) (witness : Ucan) : outcome Ucan :=
  let builder := issued_by builder_default credential in
  let builder := for_audience builder identity in
  let builder := with_lifetime builder 120 in
  let builder := witnessed_by (Cid := Cid) builder witness in
  let builder := claiming_capability builder (capability_of_view (Url := Url) (generate_capability identity Publish)) in
  let? signable := build clock (with_nonce builder) in
  sign rng signable.

Definition revision_sign (rng : bytes) (clock : N) (rev : SphereRevision) (credential : Key)
    (authorization : option (Authorization Cid)) s : outcome Cid * (SphereRevision * S) :=
  let? proof :=
    match authorization with
    | Some authorization =>
        let? witness := as_ucan s authorization in
        outcome_map Some (revision_proof rng clock (Sphere.sphere_identity rev) credential witness)
    | None => Ok None
    end keeping (rev, s) in
  let '(r, memo) := memo_sign (revision_memo rev) credential proof in
  let rev := mkRevision (Sphere.sphere_identity rev) memo in
  let? _ := r keeping (rev, s) in
  let '(r, s) := save s memo in (r, (rev, s)).

(** *** Many versions *)
Fixpoint hydrate_all (cids : list Cid) s : outcome unit * S :=
  match cids with
  | [] => (Ok tt, s)
  | cid :: cids' =>
      let '(r, s) := hydrate_with_cid cid s in
      let? _ := r keeping s in hydrate_all cids' s
  end.

Definition hydrate_timeslice (fuel : nat) (t : Timeslice Cid) s : outcome unit * S :=
  let? items := to_chronological fuel s t keeping s in hydrate_all items s.

(** The loop of [rebase]; [rng i] is the nonce drawn for its [i]th proof. *)
Fixpoint rebase_all (rng : nat -> bytes) (clock : N) (credential : Key) (authorization : option (Authorization Cid))
    (cids : list Cid) (next_base : Cid) s : outcome Cid * S :=
  match cids with
  | [] => (Ok next_base, s)
  | cid :: cids' =>
      let '(r, s) := rebase_version cid next_base s in
      let? revision := r keeping s in
      let '(r, (_, s)) := revision_sign (rng (length cids')) clock revision credential authorization s in
      let? next_base := r keeping s in
      rebase_all rng clock credential authorization cids' next_base s
  end.

Definition rebase (fuel : nat) (rng : nat -> bytes) (clock : N) cid (old_base new_base : Cid) (credential : Key)
    (authorization : option (Authorization Cid)) s : outcome Cid * S :=
  let '(r, s) := hydrate_timeslice fuel (exclude_past (slice new_base (Some old_base))) s in
  let? _ := r keeping s in
  let? rebase_revisions := to_chronological fuel s (exclude_past (slice cid (Some old_base))) keeping s in
  rebase_all rng clock credential authorization rebase_revisions new_base s.

(** The loop of [compact]. *)
Definition append_all s (links : list Cid) (compact_mutation : SphereMutation) : outcome SphereMutation :=
  try_fold (fun compact_mutation link =>
    let? mutation := derive_mutation s link in Ok (sphere_mutation_append compact_mutation mutation))
    compact_mutation links.

Definition compact (fuel : nat) (rng : bytes) (clock : N) cid (until : Cid) (author : Key)
    (authorization : option (Authorization Cid)) s : outcome Cid * S :=
  let? parent_sphere := get_parent s until keeping s in
  match parent_sphere with
  | None => (Err "Cannot compact history; compound history must must have ancestral base", s)
  | Some parent_sphere =>
      let? history_to_compact := to_chronological fuel s (include_past (slice cid (Some until))) keeping s in
      let? did := get_did author keeping s in
      let? compact_mutation := append_all s history_to_compact (sphere_mutation_new did) keeping s in
      let '(r, s) := apply_mutation_with_cid parent_sphere compact_mutation s in
      let? revision := r keeping s in
      let '(r, (_, s)) := revision_sign rng clock revision author authorization s in (r, s)
  end.

(** *** Creating a sphere *)
Definition SPHERE_LIFETIME : N := 315360000000.

Definition push_header (memo : MemoIpld) (name value : string) : MemoIpld :=
  with_headers memo (headers memo ++ [(name, value)]).

(** [sphere_key] and [mnemonic] are what [generate_ed25519_key] and
    [ed25519_key_to_mnemonic] return. *)
Definition generate (rng : bytes) (clock : N) (sphere_key : Key) (mnemonic : outcome string) (owner_did : string) s
    : outcome (Cid * Authorization Cid * string) * S :=
  let? mnemonic := mnemonic keeping s in
  let? sphere_did := get_did sphere_key keeping s in
  let '(r, s) := sphere_ipld_new sphere_did s in
  let? sphere := r keeping s in
  let '(r, s) := for_body s sphere in
  let? memo := r keeping s in
  let memo := push_header memo (Header.deref Header.ContentType) (ContentType.deref ContentType.Sphere) in
  let memo := push_header memo (Header.deref Header.Version) (Version.to_string Version.V0) in
  let builder := issued_by builder_default sphere_key in
  let builder := for_audience builder owner_did in
  let builder := with_lifetime builder SPHERE_LIFETIME in
  let builder := claiming_capability builder (capability_of_view (Url := Url) (generate_capability sphere_did Authorize)) in
  let? signable := build clock builder keeping s in
  let? ucan := sign rng signable keeping s in
  let '(r, memo) := memo_sign memo sphere_key None in
  let? _ := r keeping s in
  let '(r, s) := save s memo in
  let? sphere_cid := r keeping s in
  let? jwt := ucan_encode ucan keeping s in
  let '(r, s) := delegation_register "(OWNER)" jwt s in
  let? delegation := r keeping s in
  let mutation := sphere_mutation_new sphere_did in
  let mutation := mkSphereMutation (author_did mutation) (content_mutation mutation) (identities_mutation mutation)
    (mutation_set (delegations_mutation mutation) (delegation_jwt delegation) delegation) (revocations_mutation mutation) in
  let '(r, memo) := memo_sign memo sphere_key None in
  let? _ := r keeping s in
  let '(r, s) := apply_mutation_with_cid sphere_cid mutation s in
  let? revision := r keeping s in
  let '(r, (_, s)) := revision_sign rng clock revision sphere_key None s in
  let? sphere_cid := r keeping s in
  (Ok (sphere_cid, AuthUcan ucan, mnemonic), s).

(** *** The authority of a version *)
Context (supported_keys : list (bytes * (bytes -> outcome Key))).

(** What [verify_authorization] reads of a version: its identity and the
    lookups in its delegations and revocations. *)
Definition sphere_authority s cid : outcome (SphereAuthority Cid) :=
  let? sphere := to_body s cid in
  let? delegations := get_delegations s (authority sphere) in
  let? revocations := get_revocations s (authority sphere) in
  Ok (mkAuthority (fun c => (vm_get delegations c).1) (fun c => (vm_get revocations c).1) (identity sphere)).

Definition sphere_verify_authorization (fuel walk_fuel : nat) (clock : N) s cid (authorization : Authorization Cid)
    : outcome unit :=
  verify_authorization (Url := Url) supported_keys fuel walk_fuel clock s (sphere_authority s cid) authorization.

(** [change_owner]; [restored_key] is what [restore_ed25519_key] makes of the
    mnemonic. *)
Definition change_owner (fuel : nat) (rng : bytes) (clock : N) cid (restored_key : outcome Key) (next_owner_did : string)
    (current_authorization : Authorization Cid) (did_parser : DidParser Key) s : outcome (Cid * Authorization Cid) * S :=
  let? sphere := to_body s cid keeping s in
  let sphere_did := identity sphere in
  let? restored_key := restored_key keeping s in
  let? restored_did := get_did restored_key keeping s in
  if negb (bool_decide (sphere_did = restored_did)) then (Err "Incorrect mnemonic provided", s)
  else
    let? proof_chain :=
      match current_authorization with
      | AuthUcan ucan => (from_ucan (Url := Url) fuel clock None s ucan did_parser).1
      | AuthCid cid =>
          let? token := require_token s cid in
          (try_from_token_string (Url := Url) (Cid := Cid) fuel clock None s token did_parser).1
      end keeping s in
    let? infos := reduce_capabilities (Url := Url) proof_chain keeping s in
    if negb (grants (Url := Url) sphere_did Authorize infos) then
      (Err "Proof does not enable authorizing other identities", s)
    else
      let? current_jwt_cid := authorization_cid current_authorization keeping s in
      let? revocation := revoke current_jwt_cid restored_key keeping s in
      let builder := issued_by builder_default restored_key in
      let builder := for_audience builder next_owner_did in
      let builder := with_lifetime builder SPHERE_LIFETIME in
      let builder := claiming_capability builder (capability_of_view (Url := Url) (generate_capability sphere_did Authorize)) in
      let? signable := build clock builder keeping s in
      let? ucan := sign rng signable keeping s in
      let? jwt := ucan_encode ucan keeping s in
      let '(r, s) := delegation_register "(OWNER)" jwt s in
      let? delegation := r keeping s in
      let mutation := sphere_mutation_new sphere_did in
      let mutation := mkSphereMutation (author_did mutation) (content_mutation mutation) (identities_mutation mutation)
        (mutation_set (delegations_mutation mutation) (delegation_jwt delegation) delegation)
        (mutation_set (revocations_mutation mutation) current_jwt_cid revocation) in
      let '(r, s) := apply_mutation_with_cid cid mutation s in
      let? revision := r keeping s in
      let '(r, (_, s)) := revision_sign rng clock revision restored_key None s in
      let? sphere_cid := r keeping s in
      (Ok (sphere_cid, AuthUcan ucan), s).

(** *** Verifying the signature of a version *)

Definition verify_signature (fuel : nat) (clock : N) s cid : outcome unit :=
  let? memo := to_memo s cid in
  let? _ := expect_header memo (Header.deref Header.ContentType) (ContentType.deref ContentType.Sphere) in
  let? signature_header := ok_or "No signature header found" (head (get_header memo (Header.deref Header.Signature))) in
  let? signature := base64_decode signature_header in
  let did_parser := did_parser_new supported_keys in
  let? sphere_ipld := to_body s cid in
  match head (get_header memo (Header.deref Header.Proof)) with
  | Some proof_header =>
      let? ucan := ucan_from_str proof_header in
      let '(r, did_parser) := did_parse did_parser (audience ucan) in
      let? credential := r in
      let? _ := key_verify credential (cid_to_bytes (body memo)) signature in
      let? now_time := publish_time ucan in
      let? proof := (from_ucan (Url := Url) fuel clock now_time s ucan did_parser).1 in
      let? infos := reduce_capabilities (Url := Url) proof in
      if grants (Url := Url) (identity sphere_ipld) Push infos then Ok tt
      else Err "Proof did not enable signer to sign this sphere"
  | None =>
      let? credential := (did_parse did_parser (identity (sphere_ipld : SphereIpld))).1 in
      key_verify credential (cid_to_bytes (body memo)) signature
  end.
End history.
