(* ===== verification/SphereRebase.v ===== *)
(** * Facts about histories of spheres

    Walks back through the parents of a version, signing a revision, and what
    rebasing and compacting do to the value of a sphere. *)
From stdpp Require Import base gmap list numbers strings pretty.
From Stdlib Require Import Ascii String.
From S2P Require Import Prelude BlockStore HamtNode HamtRep Hamt HamtSpec BTree VersionedMap UcanCapability Ucan UcanChain Authority.
From S2P Require Import Memo Sphere SphereProofs SphereHistory.
#[local] Open Scope list_scope.
#[local] Notation length := List.length (only parsing).

(** ** Walks *)
Section walks.
Context {Cid S : Type} `{EqDecision Cid} `{CidOps Cid} `{!BlockStore S Cid} `{!BlockCodec (MemoIpld Cid)}.
Notation MemoIpld := (MemoIpld Cid).
Implicit Types (s : S) (c p : Cid) (l : list (Cid * MemoIpld)).

(** The versions from [c] back to the first one that has no parent. *)
Inductive history s : Cid -> list (Cid * MemoIpld) -> Prop :=
  | history_first c memo : load s c = Ok memo -> parent memo = None -> history s c [(c, memo)]
  | history_step c memo c' l :
      load s c = Ok memo -> parent memo = Some c' -> history s c' l -> history s c ((c, memo) :: l).

(** The versions from [c] back to the one whose parent is [p]. *)
Inductive walk s p : Cid -> list (Cid * MemoIpld) -> Prop :=
  | walk_last c memo : load s c = Ok memo -> c <> p -> parent memo = Some p -> walk s p c [(c, memo)]
  | walk_step c memo c' l :
      load s c = Ok memo -> c <> p -> parent memo = Some c' -> c' <> p -> walk s p c' l -> walk s p c ((c, memo) :: l).

(** A walk can be taken in any store that has its memos. *)
Lemma walk_load s s' p c l : walk s p c l -> (forall c memo, (c, memo) ∈ l -> load s' c = Ok memo) -> walk s' p c l.
Proof.
  induction 1 as [c memo El Hc Hp|c memo c' l El Hc Hp Hc' _ IH]; intros Hl.
  - constructor; [apply Hl; left|done|done].
  - eapply walk_step; [apply Hl; left|done|exact Hp|done|]. apply IH. intros d md Hd. apply Hl. by right.
Qed.

Lemma history_walk s c pre p mp post :
  history s c (pre ++ (p, mp) :: post) -> p ∉ pre.*1 -> pre <> [] -> walk s p c pre /\ load s p = Ok mp.
Proof.
  revert c. induction pre as [|[c1 m1] pre IH]; intros c Hh Hp Hne; [done|].
  apply not_elem_of_cons in Hp as [Hc1 Hp]. inversion Hh as [? ? ? ? Heq|? ? c' ? El Hpar Hh']; subst; [by destruct pre|].
  destruct pre as [|[c2 m2] pre].
  - cbn in Hh'. assert (c' = p /\ load s p = Ok mp) as [-> Hl] by by inversion Hh'. by split; [constructor|].
  - destruct (IH c' Hh' Hp) as [Hw Hl]; [done|]. split; [|done]. econstructor; try done.
    assert (c' = c2) as -> by (by inversion Hh'). cbn in Hp. set_solver.
Qed.

Lemma stream_history s c l b fuel :
  history s c l -> length l <= fuel -> timeline_stream fuel s (Some c) None b = (l, Ok tt).
Proof.
  intros Hh. revert fuel. induction Hh as [c memo El Hp|c memo c' l El Hp Hh IH]; intros [|fuel] Hf; cbn in Hf; try lia.
  - cbn [timeline_stream]. rewrite El, Hp. rewrite bool_decide_false by done.
    destruct (b && _); by destruct fuel.
  - cbn [timeline_stream]. rewrite El, Hp. rewrite !bool_decide_false by done. rewrite andb_false_r.
    rewrite IH by lia. done.
Qed.

Lemma stream_exclude s p c l fuel :
  walk s p c l -> length l <= fuel -> timeline_stream fuel s (Some c) (Some p) true = (l, Ok tt).
Proof.
  intros Hw. revert fuel. induction Hw as [c memo El Hc Hp|c memo c' l El Hc Hp Hc' Hw IH]; intros [|fuel] Hf; cbn in Hf; try lia.
  - cbn [timeline_stream]. rewrite El, Hp. rewrite bool_decide_false by congruence.
    rewrite bool_decide_true by done. cbn. by destruct fuel.
  - cbn [timeline_stream]. rewrite El, Hp. rewrite !bool_decide_false by congruence. cbn [andb].
    rewrite IH by lia. done.
Qed.

Lemma stream_include s p mp c l fuel :
  walk s p c l -> load s p = Ok mp -> length l < fuel ->
  timeline_stream fuel s (Some c) (Some p) false = (l ++ [(p, mp)], Ok tt).
Proof.
  intros Hw Hl. revert fuel. induction Hw as [c memo El Hc Hp|c memo c' l El Hc Hp Hc' Hw IH]; intros [|fuel] Hf; cbn in Hf; try lia.
  - cbn [timeline_stream]. rewrite El, Hp. rewrite bool_decide_false by congruence. cbn [andb].
    destruct fuel; [lia|]. cbn [timeline_stream]. rewrite Hl. rewrite bool_decide_true by done. by destruct fuel.
  - cbn [timeline_stream]. rewrite El, Hp. rewrite bool_decide_false by congruence. cbn [andb].
    rewrite IH by lia. done.
Qed.

(** A slice whose bounds coincide holds the one version, excluded or not. *)
Lemma stream_single s c memo b fuel :
  load s c = Ok memo -> 0 < fuel -> timeline_stream fuel s (Some c) (Some c) b = ([(c, memo)], Ok tt).
Proof.
  intros El Hf. destruct fuel; [lia|]. cbn [timeline_stream]. rewrite El, bool_decide_true by done. by destruct fuel.
Qed.

Lemma chronological_rev l : foldl (fun chronological (item : Cid * MemoIpld) => item.1 :: chronological) [] l = reverse l.*1.
Proof.
  assert (forall acc, foldl (fun chronological (item : Cid * MemoIpld) => item.1 :: chronological) acc l = reverse l.*1 ++ acc) as H';
    [|by rewrite H', app_nil_r].
  induction l as [|x l IH]; intros acc; [done|]. cbn [foldl]. rewrite IH, fmap_cons, reverse_cons, <- app_assoc. done.
Qed.

Lemma to_chronological_spec s t fuel l :
  timeslice_stream fuel s t = (l, Ok tt) -> to_chronological fuel s t = Ok (reverse l.*1).
Proof. intros E. unfold to_chronological. rewrite E. cbn [outcome_bind]. by rewrite chronological_rev. Qed.
End walks.

(** ** Lineages *)
Section lineages.
Context {Key Url Cid S : Type} `{UnicodeLaws}.
Context `{KeyMaterial Key} `{Bs58} `{Base64} `{DagJson UcanHeader} `{DagJson UcanPayload} `{UrlOps Url}.
Context `{Countable Cid} `{HashAlgorithmLaws string} `{HashAlgorithmLaws Cid} `{KeyOrderLaws Cid}.
Context `{CidLaws Cid} `{!BlockStore S Cid} `{!BlockStoreLaws S Cid} `{!SphereCodecs Cid} `{!SphereCodecsLaws Cid}.
Notation SphereIpld := (SphereIpld Cid).
Notation SphereMutation := (SphereMutation Cid).
Notation MemoIpld := (MemoIpld Cid).
Notation value := (sphere_value Cid).
#[local] Existing Instance block_ucan_store.
Implicit Types (s : S) (c : Cid) (v : value) (m : SphereMutation).

Record version := mkVersion { ver_cid : Cid; ver_memo : MemoIpld; ver_ipld : SphereIpld; ver_value : value }.
Implicit Types (x y : version).

Definition holds s x : Prop := version_at s (ver_cid x) (ver_memo x) (ver_ipld x) (ver_value x).

(** [y] was made from [x] by the changes [m] of an author in [A]. *)
Definition succeeds (A : string -> Prop) s x m y : Prop :=
  holds s y /\ parent (ver_memo y) = Some (ver_cid x) /\ ver_value y = apply_value m (ver_value x) /\
  identity (ver_ipld y) = identity (ver_ipld x) /\ private (ver_ipld y) = private (ver_ipld x) /\
  lamport_order (ver_memo y) = (lamport_order (ver_memo x) + 1)%N /\
  values (headers (ver_memo y)) CONTENT_TYPE = values (headers (ver_memo x)) CONTENT_TYPE /\
  exists author, A author /\ get_first_header (ver_memo y) AUTHOR = Some author /\ mutation_by m author.

(** The versions made from [x], one after the other. *)
Inductive lineage (A : string -> Prop) s : version -> list (SphereMutation * version) -> Prop :=
  | lineage_nil x : holds s x -> lineage A s x []
  | lineage_cons x m y l : holds s x -> succeeds A s x m y -> lineage A s y l -> lineage A s x ((m, y) :: l).

Fixpoint tip x (l : list (SphereMutation * version)) : version :=
  match l with [] => x | (_, y) :: l' => tip y l' end.

Definition cids (l : list (SphereMutation * version)) : list Cid := (fun my => ver_cid my.2) <$> l.

Lemma holds_mono s s' x : store_le s s' -> holds s x -> holds s' x.
Proof. intros Hle. by apply version_at_mono. Qed.

Lemma succeeds_mono A s s' x m y : store_le s s' -> succeeds A s x m y -> succeeds A s' x m y.
Proof. intros Hle (Hy & Hrest). split; [by eapply holds_mono|done]. Qed.

Lemma lineage_mono A s s' x l : store_le s s' -> lineage A s x l -> lineage A s' x l.
Proof.
  intros Hle. induction 1 as [x Hx|x m y l Hx Hs _ IH]; constructor;
    [by eapply holds_mono|by eapply holds_mono|by eapply succeeds_mono|done].
Qed.

Lemma lineage_head A s x l : lineage A s x l -> holds s x.
Proof. by inversion 1. Qed.

Lemma tip_app x l l' : tip x (l ++ l') = tip (tip x l) l'.
Proof. revert x. induction l as [|[m y] l IH]; intros x; [done|]. apply IH. Qed.

Lemma lineage_app A s x l l' : lineage A s x l -> lineage A s (tip x l) l' -> lineage A s x (l ++ l').
Proof. induction 1 as [x Hx|x m y l Hx Hs _ IH]; intros Hl'; [done|]. cbn. constructor; auto. Qed.

Lemma lineage_snoc A s x l m y : lineage A s x (l ++ [(m, y)]) -> lineage A s x l /\ succeeds A s (tip x l) m y.
Proof.
  revert x. induction l as [|[m1 y1] l IH]; intros x Hl; cbn in Hl; inversion Hl as [|? ? ? ? Hx Hs Hl']; subst.
  - split; [by constructor|done].
  - destruct (IH _ Hl') as [? ?]. split; [by constructor|done].
Qed.

Lemma lineage_tip A s x l : lineage A s x l -> holds s (tip x l).
Proof. induction 1; done. Qed.

(** Walking back from the tip visits the lineage. *)
Lemma lineage_walk A s x l : lineage A s x l -> ver_cid x ∉ cids l -> l <> [] ->
  walk s (ver_cid x) (ver_cid (tip x l)) (reverse ((fun my => (ver_cid my.2, ver_memo my.2)) <$> l)).
Proof.
  induction l as [|[m y] l IH] using rev_ind; intros Hl Hx Hne; [done|]. unfold cids in Hx. rewrite fmap_app in Hx. cbn in Hx.
  apply not_elem_of_app in Hx as [Hx Hy]. apply not_elem_of_cons in Hy as [Hy _].
  apply lineage_snoc in Hl as [Hl ((Hm & Hb & _) & Hp & _)].
  rewrite tip_app, fmap_app, reverse_app. cbn [tip fmap list_fmap reverse rev_append app snd].
  change (reverse [?z]) with [z]. cbn [app]. apply stored_load in Hm. destruct l as [|my l _] using rev_ind.
  - constructor; [done|congruence|done].
  - eapply walk_step; [done|congruence|exact Hp| |].
    + destruct my as [m1 y1]. rewrite tip_app. cbn. intros E. apply Hx. rewrite fmap_app. apply elem_of_app. right.
      rewrite <- E. constructor.
    + apply IH; [done|done|by destruct l].
Qed.

Lemma cids_walk l : ((fun my : SphereMutation * version => (ver_cid my.2, ver_memo my.2)) <$> l).*1 = cids l.
Proof. unfold cids. by rewrite <- list_fmap_compose. Qed.

(** A store that has the memos of a lineage walks it back. *)
Definition memos_at s (l : list (SphereMutation * version)) : Prop :=
  forall m y, (m, y) ∈ l -> stored s (ver_cid y) (ver_memo y).

Lemma lineage_memos A s x l : lineage A s x l -> memos_at s l.
Proof.
  induction 1 as [|x m y l _ Hs _ IH]; [by intros m y ?%elem_of_nil|].
  intros m' y' [[= -> ->]|Hin]%elem_of_cons; [apply Hs|by eapply IH].
Qed.

Lemma lineage_stream A s0 s x l fuel : lineage A s0 x l -> memos_at s l -> ver_cid x ∉ cids l -> l <> [] -> length l <= fuel ->
  timeslice_stream fuel s (exclude_past (slice (ver_cid (tip x l)) (Some (ver_cid x)))) =
    (reverse ((fun my => (ver_cid my.2, ver_memo my.2)) <$> l), Ok tt).
Proof.
  intros Hl Hm Hx Hne Hf. apply stream_exclude; [|by rewrite length_reverse, length_fmap].
  eapply walk_load; [by apply (lineage_walk A s0)|]. intros c memo Hin. rewrite elem_of_reverse in Hin.
  apply list_elem_of_fmap in Hin as ([m y] & [= -> ->] & Hin). exact (stored_load _ _ _ (Hm _ _ Hin)).
Qed.

Lemma lineage_chronological_at A s0 s x l fuel :
  lineage A s0 x l -> memos_at s l -> ver_cid x ∉ cids l -> l <> [] -> length l <= fuel ->
  to_chronological fuel s (exclude_past (slice (ver_cid (tip x l)) (Some (ver_cid x)))) = Ok (cids l).
Proof.
  intros Hl Hm Hx Hne Hf. erewrite to_chronological_spec; [|by apply (lineage_stream A s0)].
  by rewrite fmap_reverse, reverse_involutive, cids_walk.
Qed.

Lemma lineage_chronological A s x l fuel : lineage A s x l -> ver_cid x ∉ cids l -> l <> [] -> length l <= fuel ->
  to_chronological fuel s (exclude_past (slice (ver_cid (tip x l)) (Some (ver_cid x)))) = Ok (cids l).
Proof. intros Hl. eapply lineage_chronological_at; [done|by eapply lineage_memos]. Qed.

(** The slice that [compact] takes, which includes its first version. *)
Lemma lineage_chronological_incl A s x m y l fuel :
  lineage A s x ((m, y) :: l) -> ver_cid y ∉ cids l -> length l < fuel ->
  to_chronological fuel s (include_past (slice (ver_cid (tip y l)) (Some (ver_cid y)))) = Ok (ver_cid y :: cids l).
Proof.
  intros Hl Hy Hf. inversion Hl as [|? ? ? ? Hx ((Hm & _) & _) Hl']; subst. apply stored_load in Hm.
  destruct l as [|my l'] eqn:El.
  - erewrite to_chronological_spec; [|by apply (stream_single s (ver_cid y) (ver_memo y)); [|lia]]. done.
  - rewrite <- El in *. pose proof (lineage_walk A s y l Hl' Hy ltac:(by subst)) as Hw.
    erewrite to_chronological_spec; [|apply (stream_include s (ver_cid y) (ver_memo y) _ _ fuel Hw Hm)].
    + rewrite fmap_app, reverse_app, fmap_reverse, reverse_involutive, cids_walk. done.
    + by rewrite length_reverse, length_fmap.
Qed.

(** *** Keys *)
Context (P : string -> Prop) (Q : Cid -> Prop) (HP : collision_free P) (HQ : collision_free Q).

(** The keys of a value and of a mutation are in [P] and [Q]. *)
Definition value_in v : Prop :=
  (forall k, k ∈ dom (v_content v).1 -> P k) /\ (forall k, k ∈ dom (v_identities v).1 -> P k) /\
  (forall k, k ∈ dom (v_delegations v).1 -> Q k) /\ (forall k, k ∈ dom (v_revocations v).1 -> Q k).

Definition mutation_in m : Prop :=
  Forall (fun op => P (change_key op)) (mutation_changes (content_mutation m)) /\
  Forall (fun op => P (change_key op)) (mutation_changes (identities_mutation m)) /\
  Forall (fun op => Q (change_key op)) (mutation_changes (delegations_mutation m)) /\
  Forall (fun op => Q (change_key op)) (mutation_changes (revocations_mutation m)).

Lemma part_collision_free {K V} `{Countable K} `{HashAlgorithm K} (R : K -> Prop) (g : gmap K V) ch :
  collision_free R -> (forall k, k ∈ dom g -> R k) -> Forall (fun op => R (change_key op)) ch -> changes_collision_free g ch.
Proof.
  intros HR Hg Hch. assert (forall k, k ∈ dom g \/ k ∈ change_key <$> ch -> R k) as Hin.
  { intros k [Hk|Hk]; [auto|]. apply list_elem_of_fmap in Hk as (op & -> & Hop). rewrite Forall_forall in Hch. auto. }
  intros k1 k2 Hk1 Hk2. apply HR; auto.
Qed.

Lemma in_collision_free m v : mutation_in m -> value_in v -> mutation_collision_free m v.
Proof.
  intros (M1 & M2 & M3 & M4) (V1 & V2 & V3 & V4).
  split; [|split; [|split]]; (eapply part_collision_free; [|eassumption|eassumption]); done.
Qed.

Lemma part_in {K V} `{Countable K} (R : K -> Prop) (p : logged K V) mm :
  (forall k, k ∈ dom p.1 -> R k) -> Forall (fun op => R (change_key op)) (mutation_changes mm) ->
  forall k, k ∈ dom (apply_part mm p).1 -> R k.
Proof.
  intros Hp Hm k. rewrite apply_part_fst. intros Hk. apply apply_ops_dom in Hk as [Hk|Hk]; [auto|].
  apply list_elem_of_fmap in Hk as (op & -> & Hop). rewrite Forall_forall in Hm. auto.
Qed.

Lemma apply_value_in m v : mutation_in m -> value_in v -> value_in (apply_value m v).
Proof.
  intros (M1 & M2 & M3 & M4) (V1 & V2 & V3 & V4). split; [|split; [|split]]; cbn; by apply part_in.
Qed.

Lemma derived_in v m m' : derived_from v m m' -> mutation_in m -> mutation_in m'.
Proof.
  intros (D1 & D2 & D3 & D4) (M1 & M2 & M3 & M4). split; [|split; [|split]].
  - destruct D1 as [->|[-> _]]; [done|constructor].
  - destruct D2 as [->|[-> _]]; [done|constructor].
  - destruct D3 as [->|[-> _]]; [done|constructor].
  - destruct D4 as [->|[-> _]]; [done|constructor].
Qed.

(** The versions of [l'] make the changes of those of [l], which start from [x],
    less the parts that changed nothing there. *)
Inductive same_changes : version -> list (SphereMutation * version) -> list (SphereMutation * version) -> Prop :=
  | same_changes_nil x : same_changes x [] []
  | same_changes_cons x m y l m' y' l' :
      derived_from (ver_value x) m m' -> same_changes y l l' -> same_changes x ((m, y) :: l) ((m', y') :: l').
End lineages.

(** ** Signing, hydrating, rebasing and compacting lineages *)
Section rebase.
Context {Key Url Cid S : Type} `{UnicodeLaws}.
Context `{KeyMaterial Key} `{Bs58} `{Base64} `{DagJson UcanHeader} `{DagJson UcanPayload} `{UrlOps Url}.
Context `{Countable Cid} `{HashAlgorithmLaws string} `{HashAlgorithmLaws Cid} `{KeyOrderLaws Cid}.
Context `{CidLaws Cid} `{!BlockStore S Cid} `{!BlockStoreLaws S Cid} `{!SphereCodecs Cid} `{!SphereCodecsLaws Cid}.
Notation SphereIpld := (SphereIpld Cid).
Notation SphereMutation := (SphereMutation Cid).
Notation MemoIpld := (MemoIpld Cid).
Notation value := (sphere_value Cid).
Notation version := (version (Cid := Cid)).
#[local] Existing Instance block_ucan_store.
Implicit Types (s : S) (c : Cid) (v : value) (m : SphereMutation) (x y : version).

(** *** Signing *)

(** The author [did] holds [credential] and can make the proofs that signing with
    [authorization] takes, in [s] and in every larger store. *)
Definition can_sign s clock (credential : Key) (authorization : option (Authorization Cid)) (did : string) : Prop :=
  get_did credential = Ok did /\ (forall b, exists sig, key_sign credential b = Ok sig) /\
  match authorization with
  | None => True
  | Some auth => forall s' rng identity, store_le s s' -> exists witness u jwt, as_ucan s' auth = Ok witness /\
      revision_proof (Url := Url) (Cid := Cid) rng clock identity credential witness = Ok u /\ ucan_encode u = Ok jwt
  end.

Lemma can_sign_mono s s' clock credential authorization did :
  store_le s s' -> can_sign s clock credential authorization did -> can_sign s' clock credential authorization did.
Proof.
  intros Hle (Hd & Hs & Ha). split; [done|]. split; [done|]. destruct authorization as [auth|]; [|done].
  intros s2 rng identity Hle2. apply Ha. by transitivity s'.
Qed.

Lemma lamport_signed_ne : same_name LAMPORT AUTHOR = false /\ same_name LAMPORT PROOF = false /\ same_name LAMPORT SIGNATURE = false.
Proof. by rewrite !same_name_ascii. Qed.

(** Signing a revision stores its memo with the signature, the proof made from
    the authorization and the signer in its headers. *)
Lemma revision_sign_memo s rev rng clock credential authorization did :
  can_sign s clock credential authorization did ->
  exists c' memo' s' sig jwts,
    revision_sign (Url := Url) rng clock rev credential authorization s =
      (Ok c', (mkRevision (Sphere.sphere_identity rev) memo', s')) /\
    store_le s s' /\ stored s' c' memo' /\ parent memo' = parent (revision_memo rev) /\ body memo' = body (revision_memo rev) /\
    key_sign credential (cid_to_bytes (body memo')) = Ok sig /\
    (forall n, values (headers memo') n = signed_values (revision_memo rev) (b64_encode sig) did jwts n) /\
    match authorization with
    | None => jwts = []
    | Some auth => exists witness u jwt, as_ucan s auth = Ok witness /\ ucan_encode u = Ok jwt /\ jwts = [jwt] /\
        revision_proof (Url := Url) (Cid := Cid) rng clock (Sphere.sphere_identity rev) credential witness = Ok u
    end.
Proof.
  intros (Hd & Hs & Ha). destruct (Hs (cid_to_bytes (body (revision_memo rev)))) as [sig Esig].
  assert (exists proof jwts, (match authorization with
    | Some auth => let? witness := as_ucan s auth in
        outcome_map Some (revision_proof (Url := Url) (Cid := Cid) rng clock (Sphere.sphere_identity rev) credential witness)
    | None => Ok None end) = Ok proof /\
    match proof with Some u => exists jwt, ucan_encode u = Ok jwt /\ jwts = [jwt] | None => jwts = [] end /\
    match authorization with
    | None => jwts = []
    | Some auth => exists witness u jwt, as_ucan s auth = Ok witness /\ ucan_encode u = Ok jwt /\ jwts = [jwt] /\
        revision_proof (Url := Url) (Cid := Cid) rng clock (Sphere.sphere_identity rev) credential witness = Ok u
    end) as (proof & jwts & Ep & Hj & Hau).
  { destruct authorization as [auth|]; [|by exists None, []].
    destruct (Ha s rng (Sphere.sphere_identity rev)) as (w & u & jwt & Ew & Eu & Ej); [done|].
    exists (Some u), [jwt]. rewrite Ew. cbn [outcome_bind]. rewrite Eu. split; [done|]. split; [by exists jwt|]. by exists w, u, jwt. }
  destruct (memo_sign_spec (revision_memo rev) credential proof sig did jwts Esig Hd Hj) as (memo' & Em & Hp' & Hb' & Hh').
  destruct (save_spec s memo') as (c' & s' & Es & Hle & Hst). exists c', memo', s', sig, jwts.
  unfold revision_sign. rewrite Ep. cbn [try_with]. rewrite Em. cbn [try_with]. rewrite Es, Hb'. done.
Qed.

Lemma content_type_kept : same_name CONTENT_TYPE AUTHOR = false /\ same_name CONTENT_TYPE PROOF = false /\
  same_name CONTENT_TYPE SIGNATURE = false /\ same_name CONTENT_TYPE LAMPORT = false.
Proof. by rewrite !same_name_ascii. Qed.

(** A signed revision is a version; it names its signer as the author. *)
Lemma revision_sign_spec s c memo ipld rev v rng clock credential authorization did :
  revision_of s c memo ipld rev v -> can_sign s clock credential authorization did ->
  exists c' memo' ipld' rev' s', revision_sign (Url := Url) rng clock rev credential authorization s = (Ok c', (rev', s')) /\
    store_le s s' /\ version_at s' c' memo' ipld' v /\ parent memo' = Some c /\
    get_first_header memo' AUTHOR = Some did /\ lamport_order memo' = (lamport_order memo + 1)%N /\
    values (headers memo') CONTENT_TYPE = values (headers memo) CONTENT_TYPE /\
    identity ipld' = identity ipld /\ private ipld' = private ipld.
Proof.
  intros (Hid & Hp & Hl & Hh & ipld' & Hb & Hv & Hi & Hpr) Hsign.
  destruct (revision_sign_memo s rev rng clock credential authorization did Hsign)
    as (c' & memo' & s' & sig & jwts & Es & Hle & Hst & Hp' & Hb' & _ & Hh' & _).
  eexists c', memo', ipld', _, s'. split; [exact Es|]. split; [done|]. split.
  { split; [done|]. split; [rewrite Hb'; exact (stored_mono _ _ _ _ Hle Hb)|by eapply body_at_mono]. }
  split; [congruence|]. split; [|split; [|split; [|done]]].
  - rewrite get_first_header_values, Hh'. unfold signed_values. by rewrite same_name_refl.
  - rewrite <- Hl, !lamport_order_values, Hh'. unfold signed_values. by destruct lamport_signed_ne as (-> & -> & ->).
  - rewrite Hh'. unfold signed_values. destruct content_type_kept as (-> & -> & -> & _). rewrite Hh. unfold branched_values.
    by destruct content_type_kept as (_ & -> & -> & ->).
Qed.

Context (P : string -> Prop) (Q : Cid -> Prop) (HP : collision_free P) (HQ : collision_free Q).
Notation value_in := (value_in P Q).
Notation mutation_in := (mutation_in P Q).

(** Applying a mutation and signing the revision makes a successor. *)
Lemma commit_spec s x m rng clock credential authorization did :
  holds s x -> value_in (ver_value x) -> mutation_in m -> mutation_by m did ->
  (lamport_order (ver_memo x) + 1 < 2 ^ 32)%N -> can_sign s clock credential authorization did ->
  exists rev s1 y rev' s', apply_mutation_with_cid (ver_cid x) m s = (Ok rev, s1) /\
    revision_sign (Url := Url) rng clock rev credential authorization s1 = (Ok (ver_cid y), (rev', s')) /\
    store_le s s' /\ succeeds (eq did) s' x m y.
Proof.
  intros Hx Hv Hm Hby Hlam Hsign.
  destruct (apply_mutation_spec s (ver_cid x) (ver_memo x) (ver_ipld x) (ver_value x) m Hx) as (rev & s1 & E1 & Hle1 & Hrev).
  { lia. }
  { by apply (in_collision_free P Q HP HQ). }
  destruct (revision_sign_spec s1 _ _ _ rev _ rng clock credential authorization did Hrev (can_sign_mono _ _ _ _ _ _ Hle1 Hsign))
    as (c' & memo' & ipld' & rev' & s2 & E2 & Hle2 & Hver & Hpar & Hauth & Hlam' & Hct & Hid' & Hpr').
  exists rev, s1, (mkVersion c' memo' ipld' (apply_value m (ver_value x))), rev', s2.
  split; [exact E1|]. split; [exact E2|]. split; [by transitivity s1|].
  split; [exact Hver|]. cbn. split_and!; try done. by exists did.
Qed.

(** *** Replaying a lineage *)
Lemma lineage_values A s x l : lineage A s x l -> value_in (ver_value x) -> Forall (fun my => mutation_in my.1) l ->
  value_in (ver_value (tip x l)) /\ lamport_order (ver_memo (tip x l)) = (lamport_order (ver_memo x) + N.of_nat (length l))%N.
Proof.
  induction 1 as [x Hx|x m y l Hx Hs Hl IH]; intros Hv Hm; [by split; [|cbn; lia]|].
  apply Forall_cons_1 in Hm as [Hm Hms]. destruct Hs as (_ & _ & Ev & _ & _ & El & _). cbn [tip]. destruct IH as [Hv' Hl'].
  - rewrite Ev. by apply apply_value_in.
  - done.
  - split; [done|]. rewrite Hl', El. cbn [length]. lia.
Qed.

(** [s] holds, of each version of [l], what its changes from the one before take. *)
Fixpoint deltas_at s x (l : list (SphereMutation * version)) : Prop :=
  match l with
  | [] => True
  | (_, y) :: l' =>
      sparse_version_at s (ver_ipld x) (ver_value x) (ver_cid y) (ver_memo y) (ver_ipld y) (ver_value y) /\ deltas_at s y l'
  end.

Lemma deltas_mono s s' x l : store_le s s' -> deltas_at s x l -> deltas_at s' x l.
Proof.
  intros Hle. revert x. induction l as [|[m y] l IH]; intros x Hd; [done|]. destruct Hd as [Hy Hd].
  split; [by eapply sparse_version_mono|by apply IH].
Qed.

Lemma lineage_deltas A s x l : lineage A s x l -> deltas_at s x l.
Proof. induction 1 as [|x m y l _ Hs _ IH]; [done|]. split; [by apply version_sparse_at, Hs|done]. Qed.

(** Replaying a lineage that another store holds restores it, from its first
    version and its changes. *)
Lemma hydrate_all_sparse A s0 s x l :
  lineage A s0 x l -> holds s x -> deltas_at s x l -> value_in (ver_value x) -> Forall (fun my => mutation_in my.1) l ->
  (lamport_order (ver_memo x) + N.of_nat (length l) < 2 ^ 32)%N ->
  exists s', hydrate_all (cids l) s = (Ok tt, s') /\ store_le s s' /\ lineage A s' x l.
Proof.
  revert x s. induction l as [|[m y] l IH]; intros x s Hl Hx Hd Hv Hm Hlam; [by exists s; split_and!; [..|constructor]|].
  apply Forall_cons_1 in Hm as [Hm Hms]. inversion Hl as [|? ? ? ? Hx0 Hs Hl']; subst.
  pose proof Hs as (Hy & Hp & Ev & Hid & Hpr & El & _ & author & _ & Hau & Hby). cbn [length] in Hlam.
  destruct Hd as [Hsp Hd]. destruct Hx0 as (_ & _ & Hbx), Hy as (_ & _ & Hbyy). rewrite Ev in Hbyy, Hsp.
  destruct (hydrate_sparse s0 s (ver_cid x) (ver_cid y) (ver_memo x) (ver_memo y) (ver_ipld x) (ver_ipld y) (ver_value x) m author
    Hbx Hbyy Hx Hsp Hp Hau Hby Hid Hpr) as (s1 & E1 & Hle1 & Hy1).
  { lia. }
  { by apply (in_collision_free P Q HP HQ). }
  rewrite <- Ev in Hy1. destruct (IH y s1 Hl' Hy1 (deltas_mono _ _ _ _ Hle1 Hd)) as (s2 & E2 & Hle2 & Hlin).
  { rewrite Ev. by apply apply_value_in. }
  { done. }
  { rewrite El. lia. }
  exists s2. unfold cids. cbn [fmap list_fmap hydrate_all snd]. rewrite E1. cbn [try_with]. split; [exact E2|].
  split; [by transitivity s1|]. constructor; [eapply holds_mono; [|exact Hx]; by transitivity s1| |done].
  destruct Hs as (_ & Hs). split; [|done]. by eapply holds_mono.
Qed.

Lemma hydrate_all_spec A s x l :
  lineage A s x l -> value_in (ver_value x) -> Forall (fun my => mutation_in my.1) l ->
  (lamport_order (ver_memo x) + N.of_nat (length l) < 2 ^ 32)%N ->
  exists s', hydrate_all (cids l) s = (Ok tt, s') /\ store_le s s'.
Proof.
  intros Hl Hv Hm Hlam.
  destruct (hydrate_all_sparse A s s x l Hl (lineage_head _ _ _ _ Hl) (lineage_deltas _ _ _ _ Hl) Hv Hm Hlam) as (s' & E & Hle & _).
  by exists s'.
Qed.

(** *** Rebasing *)

Lemma rebase_all_spec rng clock credential authorization did s old l new :
  lineage (eq did) s old l -> holds s new -> value_in (ver_value new) -> Forall (fun my => mutation_in my.1) l ->
  (lamport_order (ver_memo new) + N.of_nat (length l) < 2 ^ 32)%N -> can_sign s clock credential authorization did ->
  exists l' s', rebase_all (Url := Url) rng clock credential authorization (cids l) (ver_cid new) s = (Ok (ver_cid (tip new l')), s') /\
    store_le s s' /\ lineage (eq did) s' new l' /\ same_changes old l l'.
Proof.
  intros Hl. revert s old new Hl. induction l as [|[m y] l IH]; intros s old new Hl Hnew Hv Hm Hlam Hsign.
  { exists [], s. split; [done|]. split; [done|]. split; [by constructor|constructor]. }
  apply Forall_cons_1 in Hm as [Hm Hms]. inversion Hl as [|? ? ? ? Hx Hs Hl']; subst. cbn [length] in Hlam.
  destruct Hs as (Hy & Hp & Ev & _ & _ & _ & _ & author & <- & Hau & Hby). unfold holds in Hy. rewrite Ev in Hy.
  destruct (rebase_version_spec s (ver_cid old) (ver_cid y) (ver_memo old) (ver_memo y) (ver_ipld old) (ver_ipld y)
    (ver_value old) m did (ver_cid new) (ver_memo new) (ver_ipld new) (ver_value new) Hx Hy Hp Hau Hby Hnew)
    as (m' & rev & s1 & E1 & Hle1 & Hdf & Ha & Hby' & Hrev).
  { lia. }
  { by apply (in_collision_free P Q HP HQ). }
  destruct (revision_sign_spec s1 _ _ _ rev _ (rng (length (cids l))) clock credential authorization did Hrev
    (can_sign_mono _ _ _ _ _ _ Hle1 Hsign)) as (c' & memo' & ipld' & rev' & s2 & E2 & Hle2 & Hver & Hpar & Hauth & Hlam' & Hct & Hid' & Hpr').
  assert (store_le s s2) as Hle by by transitivity s1. pose proof (derived_in P Q _ m m' Hdf Hm) as Hm'.
  set (new' := mkVersion c' memo' ipld' (apply_value m' (ver_value new))).
  destruct (IH s2 y new' (lineage_mono _ _ _ _ _ Hle Hl')) as (l' & s3 & E3 & Hle3 & Hlin & Hsame).
  { exact Hver. }
  { by apply apply_value_in. }
  { done. }
  { cbn. rewrite Hlam'. lia. }
  { by eapply can_sign_mono. }
  exists ((m', new') :: l'), s3. unfold cids. cbn [fmap list_fmap rebase_all snd]. rewrite E1. cbn [try_with].
  unfold cids in E2. rewrite E2. cbn [try_with]. cbn [new' ver_cid] in E3. split; [exact E3|].
  split; [by transitivity s2|]. split; [|by constructor].
  constructor; [eapply holds_mono; [|exact Hnew]; by transitivity s2| |done].
  split; [eapply version_at_mono; [exact Hle3|exact Hver]|]. cbn. split_and!; try done. by exists did.
Qed.

Lemma rebase_spec fuel rng clock credential authorization did s old l1 l2 :
  lineage (fun _ => True) s old l1 -> lineage (eq did) s old l2 -> l1 <> [] -> l2 <> [] ->
  ver_cid old ∉ cids l1 -> ver_cid old ∉ cids l2 -> value_in (ver_value old) ->
  Forall (fun my => mutation_in my.1) l1 -> Forall (fun my => mutation_in my.1) l2 ->
  (lamport_order (ver_memo old) + N.of_nat (length l1) + N.of_nat (length l2) < 2 ^ 32)%N ->
  length l1 <= fuel -> length l2 <= fuel -> can_sign s clock credential authorization did ->
  exists l' s', rebase (Url := Url) fuel rng clock (ver_cid (tip old l2)) (ver_cid old) (ver_cid (tip old l1))
      credential authorization s = (Ok (ver_cid (tip (tip old l1) l')), s') /\
    store_le s s' /\ lineage (eq did) s' (tip old l1) l' /\ same_changes old l2 l'.
Proof.
  intros Hl1 Hl2 Hn1 Hn2 Hc1 Hc2 Hv Hm1 Hm2 Hlam Hf1 Hf2 Hsign. unfold rebase, hydrate_timeslice.
  rewrite (lineage_chronological _ s old l1 fuel Hl1 Hc1 Hn1 Hf1). cbn [try_with].
  destruct (hydrate_all_spec _ s old l1 Hl1 Hv Hm1) as (s1 & E1 & Hle1); [lia|]. rewrite E1. cbn [try_with].
  rewrite (lineage_chronological _ s1 old l2 fuel (lineage_mono _ _ _ _ _ Hle1 Hl2) Hc2 Hn2 Hf2). cbn [try_with].
  destruct (lineage_values _ s old l1 Hl1 Hv Hm1) as [Hv1 Hlam1].
  destruct (rebase_all_spec rng clock credential authorization did s1 old l2 (tip old l1)) as (l' & s2 & E2 & Hle2 & Hlin & Hsame).
  - by eapply lineage_mono.
  - eapply holds_mono; [exact Hle1|by eapply lineage_tip].
  - done.
  - done.
  - rewrite Hlam1. lia.
  - by eapply can_sign_mono.
  - exists l', s2. split; [exact E2|]. split; [by transitivity s1|done].
Qed.

(** *** Compacting *)

(** Two values with the same entries; their changelogs may differ. *)
Definition same_maps v v' : Prop :=
  (v_content v).1 = (v_content v').1 /\ (v_identities v).1 = (v_identities v').1 /\
  (v_delegations v).1 = (v_delegations v').1 /\ (v_revocations v).1 = (v_revocations v').1.

Lemma append_part {K V} `{Countable K} (a b : VersionedMapMutation K V) (p : logged K V) :
  (apply_part (append_mutation a b) p).1 = apply_ops (apply_part a p).1 (mutation_changes b).
Proof. rewrite !apply_part_fst. apply append_changes_sound. Qed.

(** Appending a mutation is applying it after the others. *)
Lemma append_value mc m v0 v : same_maps (apply_value mc v0) v ->
  same_maps (apply_value (sphere_mutation_append mc m) v0) (apply_value m v).
Proof.
  intros (E1 & E2 & E3 & E4). unfold same_maps in *. cbn in *. rewrite !append_part, !apply_part_fst in *.
  by rewrite E1, E2, E3, E4.
Qed.

Lemma append_in mc m : mutation_in mc -> mutation_in m -> mutation_in (sphere_mutation_append mc m).
Proof.
  assert (forall K V `{Countable K} (R : K -> Prop) (a b : list (MapOperation K V)),
    Forall (fun op => R (change_key op)) a -> Forall (fun op => R (change_key op)) b ->
    Forall (fun op => R (change_key op)) (append_changes a b)) as Happ.
  { intros K V ? ? R a b Ha Hb. rewrite Forall_forall in *. intros op Hop.
    apply append_changes_elem in Hop as [?|?]; auto. }
  intros (A1 & A2 & A3 & A4) (M1 & M2 & M3 & M4). split; [exact (Happ _ _ _ _ P _ _ A1 M1)|].
  split; [exact (Happ _ _ _ _ P _ _ A2 M2)|]. split; [exact (Happ _ _ _ _ Q _ _ A3 M3)|exact (Happ _ _ _ _ Q _ _ A4 M4)].
Qed.

Lemma append_all_spec A s x l mc v0 did :
  lineage A s x l -> Forall (fun my => mutation_in my.1) l -> same_maps (apply_value mc v0) (ver_value x) ->
  mutation_by mc did -> mutation_in mc ->
  exists mc', append_all s (cids l) mc = Ok mc' /\ same_maps (apply_value mc' v0) (ver_value (tip x l)) /\
    mutation_by mc' did /\ mutation_in mc'.
Proof.
  intros Hl. revert mc. induction Hl as [x Hx|x m y l Hx Hs Hl IH]; intros mc Hm Hsame Hby Hin; [by exists mc|].
  apply Forall_cons_1 in Hm as [Hm Hms]. destruct Hs as (Hy & Hp & Ev & _ & _ & _ & _ & author & _ & Hau & Hmby).
  unfold holds in Hy. rewrite Ev in Hy.
  destruct (derive_mutation_spec s (ver_cid x) (ver_cid y) (ver_memo x) (ver_memo y) (ver_ipld x) (ver_ipld y) (ver_value x) m author
    Hx Hy Hp Hau Hmby) as (m' & Ed & _ & _ & Hv & Hdf).
  destruct (IH (sphere_mutation_append mc m')) as (mc' & E & Hs' & Hby' & Hin').
  - done.
  - rewrite Ev, <- Hv. by apply append_value.
  - by destruct Hby as (? & ? & ? & ?).
  - apply append_in; [done|by eapply derived_in].
  - exists mc'. split; [|done]. unfold append_all, cids. cbn [fmap list_fmap try_fold snd]. rewrite Ed. exact E.
Qed.

Lemma compact_spec A fuel rng clock author authorization did s x m y l :
  lineage A s x ((m, y) :: l) -> ver_cid y ∉ cids l -> value_in (ver_value x) ->
  Forall (fun my => mutation_in my.1) ((m, y) :: l) -> (lamport_order (ver_memo x) + 1 < 2 ^ 32)%N -> length l < fuel ->
  can_sign s clock author authorization did ->
  exists mc z s', compact (Url := Url) fuel rng clock (ver_cid (tip y l)) (ver_cid y) author authorization s = (Ok (ver_cid z), s') /\
    store_le s s' /\ succeeds (eq did) s' x mc z /\ same_maps (ver_value z) (ver_value (tip y l)).
Proof.
  intros Hl Hy Hv Hm Hlam Hf Hsign. pose proof (lineage_chronological_incl A s x m y l fuel Hl Hy Hf) as Ech.
  assert (holds s x) as Hx by by eapply lineage_head.
  assert (get_parent s (ver_cid y) = Ok (Some (ver_cid x))) as Ep.
  { inversion Hl as [|? ? ? ? _ ((Hmy & _) & Hp & _) _]; subst. unfold get_parent, to_memo.
    rewrite (stored_load _ _ _ Hmy). cbn [outcome_bind]. by rewrite Hp. }
  assert (mutation_in (sphere_mutation_new did)) as Hnew by (split; [|split; [|split]]; constructor).
  destruct (append_all_spec A s x ((m, y) :: l) (sphere_mutation_new did) (ver_value x) did Hl Hm) as (mc & Ea & Hsame & Hby & Hin);
    [done|done|done|].
  destruct (commit_spec s x mc rng clock author authorization did Hx Hv Hin Hby Hlam Hsign)
    as (rev & s1 & z & rev' & s2 & E1 & E2 & Hle & Hz).
  exists mc, z, s2. unfold compact. rewrite Ep. cbn [try_with]. rewrite Ech. cbn [try_with].
  rewrite (proj1 Hsign). cbn [try_with]. change (ver_cid y :: cids l) with (cids ((m, y) :: l)).
  rewrite Ea. cbn [try_with]. rewrite E1. cbn [try_with]. rewrite E2. split; [done|]. split; [done|].
  split; [exact Hz|]. destruct Hz as (_ & _ & -> & _). exact Hsame.
Qed.
End rebase.
