(* ===== verification/Bundle.v ===== *)
(** * Bundles

    Model of [noosphere-core/src/data/bundle.rs]: the blocks that say what changed
    in a slice of the history of a sphere, gathered in one store and loaded into
    another.

    [TryBundle] is the trait of that name.  A memo of a sphere is bundled with the
    memos of its new contents, so that the instance for memos is built by
    recursion: [fuel] bounds that nesting, the chunks of a body and the proofs of
    a link record. *)
From stdpp Require Import base gmap list numbers strings pretty.
From Stdlib Require Import Ascii String.
From S2P Require Import Prelude BlockStore HamtNode HamtRep Hamt BTree SphereDb BodyChunk VersionedMap.
From S2P Require Import UcanCapability Ucan UcanChain Authority Memo Sphere SphereHistory.
#[local] Open Scope list_scope.
#[local] Notation length := List.length (only parsing).

(** A [BTreeMap<String, Vec<u8>>]. *)
Definition Bundle : Type := list (string * bytes).

Section bundle.
Context {Cid S : Type} `{CidOps Cid} `{!BlockStore S Cid}.
Implicit Types (s : S) (cid : Cid) (bundle : Bundle).

Definition bundle_default : Bundle := [].
Definition bundle_len bundle : nat := length bundle.
Definition bundle_is_empty bundle : bool := (bundle_len bundle =? 0)%nat.
Definition bundle_contains bundle cid : bool := bool_decide (is_Some (btree_get bundle (cid_to_string cid))).

Definition load_into bundle s : outcome unit * S :=
  for_each_st (fun '(cid_string, block) s =>
    let? cid := cid_of_string (Cid := Cid) cid_string keeping s in put_block_and_links cid block s) bundle s.

Definition bundle_add cid (block : bytes) bundle : bool * Bundle :=
  let cid_string := cid_to_string cid in
  match btree_get bundle cid_string with
  | Some _ => (false, bundle)
  | None => (true, btree_insert bundle cid_string block)
  end.

(** [BTreeMap::append]: the entries of [other] win. *)
Definition bundle_merge bundle (other : Bundle) : Bundle :=
  foldl (fun t e => btree_insert t e.1 e.2) bundle other.

(** ** The trait *)
Class TryBundle (T : Type) := {
  extend_bundle : S -> T -> Bundle -> outcome unit * Bundle;
  extend_bundle_with_cid : S -> Cid -> Bundle -> outcome unit * Bundle;
}.

Definition bundle_of {T} `{!TryBundle T} s (x : T) : outcome unit * Bundle := extend_bundle s x bundle_default.
Definition bundle_with_cid {T} `{!TryBundle T} s cid : outcome unit * Bundle :=
  extend_bundle_with_cid s cid bundle_default.

(** The provided methods. *)
Definition default_extend_bundle {T} `{!BlockCodec T} s (x : T) bundle : outcome unit * Bundle :=
  let? self := block_serialize (Cid := Cid) x keeping bundle in
  (Ok tt, (bundle_add self.1 self.2 bundle).2).

Definition default_extend_with_cid {T} `{!BlockCodec T} (extend : S -> T -> Bundle -> outcome unit * Bundle) s cid bundle
    : outcome unit * Bundle :=
  let? item := load s cid keeping bundle in extend s item bundle.

(** A block that is bundled as it is. *)
Definition add_block s cid bundle : outcome unit * Bundle :=
  let? block := require_block s cid keeping bundle in (Ok tt, (bundle_add cid block bundle).2).

(** *** Chunks of a body *)
Fixpoint chunk_extend_with_cid `{!BlockCodec (BodyChunkIpld Cid)} (fuel : nat) s (next_cid : option Cid) bundle
    : outcome unit * Bundle :=
  match next_cid with
  | None => (Ok tt, bundle)
  | Some cid =>
      match fuel with
      | O => (Diverge, bundle)
      | Datatypes.S fuel' =>
          let? block := require_block s cid keeping bundle in
          let? chunk := of_block block keeping bundle in
          chunk_extend_with_cid fuel' s (chunk_next (chunk : BodyChunkIpld Cid)) (bundle_add cid block bundle).2
      end
  end.

Definition chunk_try_bundle `{!BlockCodec (BodyChunkIpld Cid)} (fuel : nat) : TryBundle (BodyChunkIpld Cid) := {|
  extend_bundle := default_extend_bundle;
  extend_bundle_with_cid s cid := chunk_extend_with_cid fuel s (Some cid);
|}.

(** *** Versioned maps *)
Section map_bundle.
Context {K V : Type} `{!TryBundle V} `{!BlockCodec (ChangelogIpld (MapOperation K V))} `{!BlockCodec (VersionedMapIpld Cid)}.

Definition changelog_extend_with_cid s cid bundle : outcome unit * Bundle :=
  let? block := require_block s cid keeping bundle in
  let? changelog := of_block block keeping bundle in
  let bundle := (bundle_add cid block bundle).2 in
  for_each_st (fun op bundle =>
    match op with
    | Add _ value => extend_bundle s value bundle
    | Remove _ => (Ok tt, bundle)
    end) (log_changes (changelog : ChangelogIpld (MapOperation K V))) bundle.

Definition changelog_try_bundle : TryBundle (ChangelogIpld (MapOperation K V)) := {|
  extend_bundle := default_extend_bundle;
  extend_bundle_with_cid := changelog_extend_with_cid;
|}.

Definition map_extend_bundle s (self : VersionedMapIpld Cid) bundle : outcome unit * Bundle :=
  let? own := block_serialize (Cid := Cid) self keeping bundle in
  let '(r, bundle) := changelog_extend_with_cid s (map_changelog self) bundle in
  let? _ := r keeping bundle in
  (Ok tt, (bundle_add own.1 own.2 bundle).2).

Definition map_try_bundle : TryBundle (VersionedMapIpld Cid) := {|
  extend_bundle := map_extend_bundle;
  extend_bundle_with_cid := default_extend_with_cid map_extend_bundle;
|}.
End map_bundle.

(** *** Links: what they refer to is bundled *)
Definition link_extend_bundle {T} (target : TryBundle T) s (link : Cid) bundle : outcome unit * Bundle :=
  extend_bundle_with_cid (TryBundle := target) s link bundle.

Definition link_try_bundle {T} `{!BlockCodec Cid} (target : TryBundle T) : TryBundle Cid := {|
  extend_bundle := link_extend_bundle target;
  extend_bundle_with_cid := default_extend_with_cid (link_extend_bundle target);
|}.

(** *** Tokens *)
Section token_bundle.
Context `{Base64} `{DagJson UcanHeader} `{DagJson UcanPayload}.
#[local] Existing Instance block_ucan_store.

Definition jwt_extend_with_cid s cid bundle : outcome unit * Bundle := add_block s cid bundle.

(** The loop that bundles a link record and its proofs. *)
Fixpoint record_loop (fuel : nat) s (remaining : list Cid) bundle : outcome unit * Bundle :=
  match vec_pop remaining with
  | None => (Ok tt, bundle)
  | Some (cid, remaining) =>
      match fuel with
      | O => (Diverge, bundle)
      | Datatypes.S fuel' =>
          let? jwt := require_token s cid keeping bundle in
          let? ucan := ucan_from_str jwt keeping bundle in
          let? block := require_block s cid keeping bundle in
          let bundle := (bundle_add cid block bundle).2 in
          match proofs ucan with
          | Some proofs =>
              let? cids := try_map cid_of_string proofs keeping bundle in
              record_loop fuel' s (remaining ++ cids) bundle
          | None => record_loop fuel' s remaining bundle
          end
      end
  end.

Definition record_extend_with_cid (fuel : nat) s cid bundle : outcome unit * Bundle := record_loop fuel s [cid] bundle.

Definition record_extend_bundle (fuel : nat) s (record : Ucan) bundle : outcome unit * Bundle :=
  let? cid := ucan_to_cid (Cid := Cid) record keeping bundle in record_extend_with_cid fuel s cid bundle.

(** *** Entries of the maps of a sphere *)
Definition identity_extend_bundle `{!BlockCodec (IdentityIpld Cid)} (fuel : nat) s (self : IdentityIpld Cid) bundle
    : outcome unit * Bundle :=
  let? own := block_serialize (Cid := Cid) self keeping bundle in
  let bundle := (bundle_add own.1 own.2 bundle).2 in
  match peer_link_record self with
  | Some cid => record_extend_with_cid fuel s cid bundle
  | None => (Ok tt, bundle)
  end.

Definition identity_try_bundle `{!BlockCodec (IdentityIpld Cid)} (fuel : nat) : TryBundle (IdentityIpld Cid) := {|
  extend_bundle := identity_extend_bundle fuel;
  extend_bundle_with_cid := default_extend_with_cid (identity_extend_bundle fuel);
|}.
End token_bundle.

Definition delegation_extend_bundle `{!BlockCodec (DelegationIpld Cid)} s (self : DelegationIpld Cid) bundle
    : outcome unit * Bundle :=
  let? own := block_serialize (Cid := Cid) self keeping bundle in
  add_block s (delegation_jwt self) (bundle_add own.1 own.2 bundle).2.

Definition delegation_try_bundle `{!BlockCodec (DelegationIpld Cid)} : TryBundle (DelegationIpld Cid) := {|
  extend_bundle := delegation_extend_bundle;
  extend_bundle_with_cid := default_extend_with_cid delegation_extend_bundle;
|}.

Definition revocation_try_bundle `{!BlockCodec RevocationIpld} : TryBundle RevocationIpld := {|
  extend_bundle := default_extend_bundle;
  extend_bundle_with_cid := default_extend_with_cid default_extend_bundle;
|}.
End bundle.
Arguments TryBundle Cid S T : clear implicits.

(** The encodings of the entries of a sphere as blocks of their own. *)
Class EntryCodecs (Cid : Type) := {
  chunk_codec :: BlockCodec (BodyChunkIpld Cid);
  link_codec :: BlockCodec Cid;
  identity_codec :: BlockCodec (IdentityIpld Cid);
  delegation_codec :: BlockCodec (DelegationIpld Cid);
  revocation_codec :: BlockCodec RevocationIpld;
}.

Section sphere_bundle.
Context {Cid S : Type} `{Unicode} `{Base64} `{DagJson UcanHeader} `{DagJson UcanPayload}.
Context `{EqDecision Cid} `{HashAlgorithm string} `{HashAlgorithm Cid} `{KeyOrder Cid}.
Context `{CidOps Cid} `{!BlockStore S Cid} `{!SphereCodecs Cid} `{!EntryCodecs Cid}.
Notation SphereIpld := (SphereIpld Cid).
Notation MemoIpld := (MemoIpld Cid).
Notation TryBundle := (TryBundle Cid S).
Implicit Types (s : S) (cid : Cid) (bundle : Bundle) (memo : MemoIpld).

(** [ContentIpld], [IdentitiesIpld], [DelegationsIpld] and [RevocationsIpld]. *)
Definition content_try_bundle (memos : TryBundle MemoIpld) : TryBundle (VersionedMapIpld Cid) :=
  map_try_bundle (K := string) (V := Cid) (TryBundle0 := link_try_bundle memos).
Definition identities_try_bundle (fuel : nat) : TryBundle (VersionedMapIpld Cid) :=
  map_try_bundle (K := string) (V := IdentityIpld Cid) (TryBundle0 := identity_try_bundle fuel).
Definition delegations_try_bundle : TryBundle (VersionedMapIpld Cid) :=
  map_try_bundle (K := Cid) (V := DelegationIpld Cid) (TryBundle0 := delegation_try_bundle).
Definition revocations_try_bundle : TryBundle (VersionedMapIpld Cid) :=
  map_try_bundle (K := Cid) (V := RevocationIpld) (TryBundle0 := revocation_try_bundle).

Definition authority_extend_with_cid s cid bundle : outcome unit * Bundle :=
  let? block := require_block s cid keeping bundle in
  let? ipld := of_block block keeping bundle in
  let '(r, bundle) :=
    extend_bundle_with_cid (TryBundle := delegations_try_bundle) s (delegations (ipld : AuthorityIpld Cid)) bundle in
  let? _ := r keeping bundle in
  let '(r, bundle) := extend_bundle_with_cid (TryBundle := revocations_try_bundle) s (revocations ipld) bundle in
  let? _ := r keeping bundle in
  (Ok tt, (bundle_add cid block bundle).2).

Definition address_book_extend_with_cid (fuel : nat) s cid bundle : outcome unit * Bundle :=
  let? block := require_block s cid keeping bundle in
  let? ipld := of_block block keeping bundle in
  let '(r, bundle) :=
    extend_bundle_with_cid (TryBundle := identities_try_bundle fuel) s (identities (ipld : AddressBookIpld Cid)) bundle in
  let? _ := r keeping bundle in
  (Ok tt, (bundle_add cid block bundle).2).

(** The arm of [MemoIpld::extend_bundle] for a version of a sphere. *)
Definition sphere_extend_bundle (memos : TryBundle MemoIpld) (fuel : nat) s (self_cid : Cid) memo bundle
    : outcome unit * Bundle :=
  let? mutation := derive_mutation s self_cid keeping bundle in
  let? sphere_body := to_body s self_cid keeping bundle in
  let '(r, bundle) := add_block s (body memo) bundle in
  let? _ := r keeping bundle in
  let '(r, bundle) :=
    if no_changes (content_mutation mutation) then (Ok tt, bundle)
    else extend_bundle_with_cid (TryBundle := content_try_bundle memos) s (content (sphere_body : SphereIpld)) bundle in
  let? _ := r keeping bundle in
  let '(r, bundle) :=
    if no_changes (delegations_mutation mutation) && no_changes (revocations_mutation mutation) then (Ok tt, bundle)
    else authority_extend_with_cid s (authority sphere_body) bundle in
  let? _ := r keeping bundle in
  if no_changes (identities_mutation mutation) then (Ok tt, bundle)
  else address_book_extend_with_cid fuel s (address_book sphere_body) bundle.

Definition memo_extend_bundle (memos : TryBundle MemoIpld) (fuel : nat) s memo bundle : outcome unit * Bundle :=
  let? own := block_serialize (Cid := Cid) memo keeping bundle in
  let bundle := (bundle_add own.1 own.2 bundle).2 in
  match get_first_header memo (Header.deref Header.ContentType) with
  | Some value =>
      match ContentType.from_str value with
      | ContentType.Sphere => sphere_extend_bundle memos fuel s own.1 memo bundle
      | _ => chunk_extend_with_cid fuel s (Some (body memo)) bundle
      end
  | None =>
      let? found := get_block s (body memo) keeping bundle in
      let? block := ok_or "Unable to find block" found keeping bundle in
      (Ok tt, (bundle_add (body memo) block bundle).2)
  end.

Fixpoint memo_try_bundle (fuel : nat) : TryBundle MemoIpld :=
  match fuel with
  | O => {| extend_bundle _ _ b := (Diverge, b); extend_bundle_with_cid _ _ b := (Diverge, b) |}
  | Datatypes.S fuel' =>
      {| extend_bundle := memo_extend_bundle (memo_try_bundle fuel') fuel';
         extend_bundle_with_cid := default_extend_with_cid (memo_extend_bundle (memo_try_bundle fuel') fuel') |}
  end.

(** The memos of the slice, from the latest. *)
Definition from_timeslice (fuel : nat) s (t : Timeslice Cid) : outcome Bundle :=
  let '(items, ending) := timeslice_stream fuel s t in
  let '(r, bundle) := for_each_st (fun item => extend_bundle (TryBundle := memo_try_bundle fuel) s item.2) items bundle_default in
  let? _ := r in
  let? _ := ending in Ok bundle.
End sphere_bundle.
