(* ===== verification/BundleProofs.v ===== *)
(** * Facts about bundles

    A bundle delivers to a store what was bundled: [extends f R] says that the
    step [f] of bundling succeeds, and that [R] holds of every store that has the
    blocks of the bundle it leaves.  Bundling the versions made from a version
    [x] delivers, to a store that holds [x], what replaying them takes. *)
From stdpp Require Import base gmap list numbers strings pretty.
From Stdlib Require Import Ascii String.
From S2P Require Import Prelude BlockStore HamtNode HamtRep Hamt HamtSpec BTree SphereDb BodyChunk.
From S2P Require Import VersionedMap UcanCapability Ucan UcanChain Authority Memo.
From S2P Require Import Sphere SphereProofs SphereHistory SphereRebase Bundle.
#[local] Open Scope list_scope.
#[local] Notation length := List.length (only parsing).

Section bundles.
Context {Cid S : Type} `{EqDecision Cid} `{CidLaws Cid} `{!BlockStore S Cid} `{!BlockStoreLaws S Cid}.
Implicit Types (s : S) (c : Cid) (b : bytes) (bundle : Bundle).
Notation step := (Bundle -> outcome unit * Bundle).

(** The entries are in key order, each a sound block under its CID. *)
Definition bundle_wf bundle : Prop :=
  exists m : gmap string bytes, vals_rep bundle m /\
    forall k b, m !! k = Some b -> exists c, k = cid_to_string c /\ sound_block (c, b).

Definition bundled bundle c b : Prop := btree_get bundle (cid_to_string c) = Some b.

(** [s] has every block of the bundle. *)
Definition delivered bundle s : Prop := forall c b, bundled bundle c b -> authentic s c b.

Definition bundle_le bundle bundle' : Prop := forall k b, btree_get bundle k = Some b -> btree_get bundle' k = Some b.

Definition extends (f : step) (R : S -> Prop) : Prop := forall bundle, bundle_wf bundle ->
  exists bundle', f bundle = (Ok tt, bundle') /\ bundle_wf bundle' /\ bundle_le bundle bundle' /\
    forall s, delivered bundle' s -> R s.

Lemma delivered_le bundle bundle' s : bundle_le bundle bundle' -> delivered bundle' s -> delivered bundle s.
Proof. intros Hle Hd c b Hb. by apply Hd, Hle. Qed.

Lemma cid_to_string_inj c c' : cid_to_string c = cid_to_string c' -> c = c'.
Proof. intros E. assert (Ok c = Ok c') as E' by (rewrite <- !cid_of_to_string; by rewrite E). congruence. Qed.

Lemma bundle_add_spec bundle c b : bundle_wf bundle -> sound_block (c, b) ->
  let bundle' := (bundle_add c b bundle).2 in bundle_wf bundle' /\ bundle_le bundle bundle' /\ bundled bundle' c b.
Proof.
  intros (m & Hm & Hok) Hs. unfold bundle_add, bundled, bundle_le. rewrite (btree_get_rep _ _ _ Hm).
  destruct (m !! cid_to_string c) as [b'|] eqn:E; cbn [snd].
  - split; [by exists m|]. split; [done|]. rewrite (btree_get_rep _ _ _ Hm), E. f_equal.
    destruct (Hok _ _ E) as (c' & Ec & Hs'). apply cid_to_string_inj in Ec as <-.
    destruct Hs as [Hs _], Hs' as [Hs' _]. cbn in Hs, Hs'. eapply (derive_cid_inj (Cid := Cid)). by rewrite <- Hs, <- Hs'.
  - pose proof (btree_insert_rep _ _ (cid_to_string c) b Hm) as Hm'. split; [|split].
    + exists (<[cid_to_string c := b]> m). split; [done|]. intros k b' [[<- <-]|[_ Hk]]%lookup_insert_Some; [by exists c|by apply Hok].
    + intros k b' Hk. rewrite (btree_get_rep _ _ _ Hm') . rewrite (btree_get_rep _ _ _ Hm) in Hk.
      rewrite lookup_insert_ne; [done|]. congruence.
    + rewrite (btree_get_rep _ _ _ Hm'). apply lookup_insert_eq.
Qed.

(** *** The algebra of steps *)
Lemma extends_weaken f (R R' : S -> Prop) : extends f R -> (forall s, R s -> R' s) -> extends f R'.
Proof. intros Hf HR bundle Hb. destruct (Hf bundle Hb) as (b' & E & Hb' & Hle & Hd). exists b'. split; [done|]. split; [done|]. split; [done|]. intros s Hs. by apply HR, Hd. Qed.

Lemma extends_done : extends (fun bundle => (Ok tt, bundle)) (fun _ => True).
Proof. intros bundle Hb. exists bundle. split; [done|]. split; [exact Hb|]. split; [intros k b Hk; exact Hk|done]. Qed.

Lemma extends_seq (f g : step) R R' : extends f R -> extends g R' ->
  extends (fun bundle => let '(r, bundle) := f bundle in let? _ := r keeping bundle in g bundle) (fun s => R s /\ R' s).
Proof.
  intros Hf Hg bundle Hb. destruct (Hf bundle Hb) as (b1 & -> & Hb1 & Hle1 & Hd1). cbn [try_with].
  destruct (Hg b1 Hb1) as (b2 & -> & Hb2 & Hle2 & Hd2). exists b2. split; [done|]. split; [done|].
  split; [intros k b Hk; by apply Hle2, Hle1|]. intros s Hd. split; [|auto]. apply Hd1. by eapply delivered_le.
Qed.

Lemma extends_add (f : step) c b R : sound_block (c, b) -> extends f R ->
  extends (fun bundle => f (bundle_add c b bundle).2) (fun s => authentic s c b /\ R s).
Proof.
  intros Hs Hf bundle Hb. destruct (bundle_add_spec bundle c b Hb Hs) as (Hb1 & Hle1 & Hin).
  destruct (Hf _ Hb1) as (b2 & E & Hb2 & Hle2 & Hd2). exists b2. split; [done|]. split; [done|].
  split; [intros k b' Hk; by apply Hle2, Hle1|]. intros s Hd. split; [|auto]. by apply Hd, Hle2.
Qed.

Lemma extends_last (f : step) c b R : sound_block (c, b) -> extends f R ->
  extends (fun bundle => let '(r, bundle) := f bundle in let? _ := r keeping bundle in (Ok tt, (bundle_add c b bundle).2))
    (fun s => R s /\ authentic s c b).
Proof.
  intros Hs Hf. eapply extends_weaken; [apply (extends_seq f (fun bundle => (Ok tt, (bundle_add c b bundle).2))); [exact Hf|]|].
  - apply (extends_add (fun bundle => (Ok tt, bundle)) c b _ Hs extends_done).
  - by intros s (? & ? & _).
Qed.

Lemma extends_each {A} (f : A -> step) (R : A -> S -> Prop) (l : list A) :
  (forall x, x ∈ l -> extends (f x) (R x)) -> extends (for_each_st f l) (fun s => forall x, x ∈ l -> R x s).
Proof.
  induction l as [|x l IH]; intros Hf.
  { eapply extends_weaken; [apply extends_done|]. by intros s _ x ?%elem_of_nil. }
  eapply extends_weaken; [apply (extends_seq (f x) (for_each_st f l)); [apply Hf; left|apply IH; intros y Hy; apply Hf; by right]|].
  intros s [Hx Hl] y [->|Hy]%elem_of_cons; auto.
Qed.

Lemma extends_app {A} (f : A -> step) (l l' : list A) R R' :
  extends (for_each_st f l) R -> extends (for_each_st f l') R' -> extends (for_each_st f (l ++ l')) (fun s => R s /\ R' s).
Proof.
  intros Hl Hl' bundle Hb. destruct (extends_seq _ _ _ _ Hl Hl' bundle Hb) as (b' & E & Hrest). exists b'. split; [|done].
  rewrite <- E. clear. revert bundle. induction l as [|x l IH]; intros bundle; [done|]. cbn [app for_each_st].
  destruct (f x bundle) as [[]?]; cbn [try_with]; [apply IH|done..].
Qed.

(** A bundle loads into any store, which then has its blocks. *)
Lemma load_into_spec bundle s : bundle_wf bundle ->
  exists s', load_into (Cid := Cid) bundle s = (Ok tt, s') /\ store_le s s' /\ delivered bundle s'.
Proof.
  intros (m & Hm & Hok).
  assert (exists blocks : list (Cid * bytes), bundle = prod_map cid_to_string id <$> blocks /\ Forall sound_block blocks) as (blocks & -> & Hs).
  { assert (forall k b, (k, b) ∈ bundle -> exists c, k = cid_to_string c /\ sound_block (c, b)) as Hin.
    { intros k b Hkb. apply Hok. by apply (vals_rep_lookup _ _ _ _ Hm). }
    clear -Hin. induction bundle as [|[k b] bundle IH]; [by exists []|].
    destruct IH as (blocks & -> & Hs); [intros; apply Hin; by right|]. destruct (Hin k b) as (c & -> & Hc); [left|].
    exists ((c, b) :: blocks). by split; [|constructor]. }
  destruct (put_blocks_spec s blocks Hs) as (s' & E & Hle & Hall). exists s'. split; [|split; [done|]].
  - rewrite <- E. unfold load_into. clear -H0. revert s. induction blocks as [|[c b] blocks IH]; intros s; [done|].
    cbn [fmap list_fmap for_each_st prod_map fst snd id]. rewrite cid_of_to_string. cbn [try_with].
    destruct (put_block_and_links c b s) as [[]?]; cbn [try_with]; [apply IH|done|done|done].
  - intros c b Hb. apply Hall. unfold bundled in Hb. rewrite (btree_get_rep _ _ _ Hm) in Hb. apply (vals_rep_lookup _ _ _ _ Hm) in Hb.
    apply list_elem_of_fmap in Hb as ([c' b'] & [= E1 ->] & Hin). by apply cid_to_string_inj in E1 as ->.
Qed.

(** *** Typed blocks *)
Lemma stored_sound {T} `{!BlockCodec T} `{!BlockCodecLaws Cid T} s c (x : T) : stored s c x ->
  exists b, block_of x = Ok b /\ sound_block (c, b) /\ require_block s c = Ok b /\
    forall s', authentic s' c b -> stored s' c x.
Proof.
  intros (b & Hb & -> & Hg). exists b. split; [done|]. split; [|split].
  - split; cbn [fst snd]; [symmetry; apply derive_cid_codec|]. intros _. unfold derive_cid. rewrite cid_codec_new.
    exact (block_references x b Hb).
  - unfold require_block. by rewrite Hg.
  - intros s' Ha. by eapply stored_of_authentic.
Qed.

Lemma serialize_sound {T} `{!BlockCodec T} `{!BlockCodecLaws Cid T} (x : T) :
  exists c b, block_serialize x = Ok (c, b) /\ block_of x = Ok b /\ c = derive_cid DAG_CBOR b /\ sound_block (Cid := Cid) (c, b).
Proof.
  destruct (block_total x) as [b Hb]. exists (derive_cid DAG_CBOR b), b. unfold block_serialize. rewrite Hb.
  split; [done|]. split; [done|]. split; [done|]. split; cbn [fst snd]; [symmetry; apply derive_cid_codec|].
  intros _. unfold derive_cid. rewrite cid_codec_new. exact (block_references x b Hb).
Qed.

(** A token, as [write_token] stores it. *)
Definition token_at s c (jwt : string) : Prop := authentic s c (as_bytes jwt) /\ cid_codec c = RAW.

Lemma token_sound s c jwt : token_at s c jwt -> sound_block (c, as_bytes jwt) /\ require_block s c = Ok (as_bytes jwt).
Proof.
  intros [[Hg Hc] Hr]. split; [|unfold require_block; by rewrite Hg]. split; [done|]. cbn. rewrite Hr. intros _.
  exists []. apply references_raw.
Qed.

Lemma extends_token s c jwt : token_at s c jwt -> extends (add_block s c) (fun s' => token_at s' c jwt).
Proof.
  intros Ht. destruct (token_sound _ _ _ Ht) as [Hs Hr]. unfold add_block. rewrite Hr. cbn [try_with].
  eapply extends_weaken; [apply (extends_add (fun bundle => (Ok tt, bundle)) c _ _ Hs extends_done)|].
  intros s' [Ha _]. split; [done|apply Ht].
Qed.

Lemma extends_block {T} `{!BlockCodec T} `{!BlockCodecLaws Cid T} s c (x : T) : stored s c x ->
  extends (add_block s c) (fun s' => stored s' c x).
Proof.
  intros Hx. destruct (stored_sound _ _ _ Hx) as (b & _ & Hs & Hr & Hst). unfold add_block. rewrite Hr. cbn [try_with].
  eapply extends_weaken; [apply (extends_add (fun bundle => (Ok tt, bundle)) c _ _ Hs extends_done)|].
  intros s' [Ha _]. by apply Hst.
Qed.

(** *** Chunks *)
Lemma extends_chunks `{!BlockCodec (BodyChunkIpld Cid)} `{!BlockCodecLaws Cid (BodyChunkIpld Cid)} s next bs fuel :
  chunks_at s next bs -> length bs <= fuel ->
  extends (chunk_extend_with_cid fuel s next) (fun s' => chunks_at s' next bs).
Proof.
  intros Hc. revert fuel. induction Hc as [|c x next bs Hx _ IH]; intros fuel Hf.
  { eapply extends_weaken; [|intros s' _; constructor]. destruct fuel; apply extends_done. }
  destruct fuel as [|fuel]; cbn in Hf; [lia|]. destruct (stored_sound _ _ _ Hx) as (b & Hb & Hs & Hr & Hst).
  cbn [chunk_extend_with_cid]. rewrite Hr. cbn [try_with]. rewrite (block_roundtrip _ _ Hb). cbn [try_with chunk_next].
  eapply extends_weaken; [apply (extends_add _ c b _ Hs (IH fuel ltac:(lia)))|].
  intros s' [Ha Hn]. eapply chunks_cons; [by apply Hst|done].
Qed.

(** *** Maps *)
Section maps.
Context {K V : Type} `{!TryBundle Cid S V}.
Context `{!BlockCodec (ChangelogIpld (MapOperation K V))} `{!BlockCodecLaws Cid (ChangelogIpld (MapOperation K V))}.
Context `{!BlockCodec (VersionedMapIpld Cid)} `{!BlockCodecLaws Cid (VersionedMapIpld Cid)}.
Context (R : V -> S -> Prop).
Notation Changelog := (ChangelogIpld (MapOperation K V)).

(** [P] holds of the values that the changes add. *)
Definition log_values (P : V -> Prop) (log : Changelog) : Prop := forall k v, Add k v ∈ log_changes log -> P v.

Lemma extends_changelog s c (log : Changelog) :
  stored s c log -> log_values (fun v => extends (extend_bundle s v) (R v)) log ->
  extends (changelog_extend_with_cid (K := K) (V := V) s c) (fun s' => stored s' c log /\ log_values (fun v => R v s') log).
Proof.
  intros Hl Hv. destruct (stored_sound _ _ _ Hl) as (b & Hb & Hs & Hr & Hst).
  unfold changelog_extend_with_cid. rewrite Hr. cbn [try_with]. rewrite (block_roundtrip _ _ Hb). cbn [try_with].
  eapply extends_weaken; [eapply (extends_add _ c b _ Hs), extends_each
    with (R := fun op s' => match op with Add _ v => R v s' | Remove _ => True end)|].
  - intros [k v|k] Hin; [by apply (Hv k)|apply extends_done].
  - intros s' [Ha Hops]. split; [by apply Hst|]. intros k v Hin. exact (Hops _ Hin).
Qed.

Lemma extends_map s c (log : Changelog) :
  log_at s c log -> log_values (fun v => extends (extend_bundle s v) (R v)) log ->
  extends (extend_bundle_with_cid (TryBundle := map_try_bundle (K := K) (V := V)) s c)
    (fun s' => log_at s' c log /\ log_values (fun v => R v s') log).
Proof.
  intros (ipld & Hi & Hl) Hv. cbn [extend_bundle_with_cid map_try_bundle]. unfold default_extend_with_cid.
  rewrite (stored_load _ _ _ Hi). cbn [try_with]. unfold map_extend_bundle.
  destruct (serialize_sound ipld) as (c' & b & -> & Hb & Hc' & Hs). cbn [try_with fst snd].
  assert (c' = c) as -> by (destruct Hi as (b' & Hb' & -> & _); congruence).
  eapply extends_weaken; [apply (extends_last _ c b _ Hs (extends_changelog s _ log Hl Hv))|].
  intros s' [[Hl' Hv'] Ha]. split; [|done]. exists ipld. split; [by eapply stored_of_authentic|done].
Qed.
End maps.

(** *** Link records *)
Section records.
Context `{Base64} `{DagJson UcanHeader} `{DagJson UcanPayload}.
#[local] Existing Instance block_ucan_store.

(** The tokens under the CIDs that remain, and then their proofs, are all there;
    [jwts] lists them in the order in which they are visited. *)
Inductive records_at s : list Cid -> list (Cid * string) -> Prop :=
  | records_none : records_at s [] []
  | records_pop rest c jwt ucan cids l :
      token_at s c jwt -> from_utf8 (as_bytes jwt) = Ok jwt -> ucan_from_str jwt = Ok ucan ->
      try_map cid_of_string (default [] (proofs ucan)) = Ok cids ->
      records_at s (rest ++ cids) l -> records_at s (rest ++ [c]) ((c, jwt) :: l).

Lemma vec_pop_snoc {X} (r : list X) x : vec_pop (r ++ [x]) = Some (x, r).
Proof.
  destruct (vec_pop_cases (r ++ [x])) as [E|(y & r' & E & Hp)]; [by destruct r|].
  apply app_inj_tail in E as [-> ->]. done.
Qed.

Lemma extends_records s remaining l fuel : records_at s remaining l -> length l <= fuel ->
  extends (record_loop fuel s remaining) (fun s' => records_at s' remaining l).
Proof.
  intros Hr. revert fuel. induction Hr as [|rest c jwt ucan cids l Ht Hu Hp Hps _ IH]; intros fuel Hf.
  { eapply extends_weaken; [|intros s' _; constructor]. destruct fuel; apply extends_done. }
  destruct fuel as [|fuel]; cbn in Hf; [lia|]. destruct (token_sound _ _ _ Ht) as [Hs Hrq]. cbn [record_loop].
  rewrite vec_pop_snoc. assert (require_token s c = Ok jwt) as ->.
  { unfold require_token, read_token. rewrite (proj2 Ht). cbn. unfold block_ucan_read. rewrite (proj1 (proj1 Ht)). cbn. by rewrite Hu. }
  cbn [try_with]. rewrite Hp. cbn [try_with]. rewrite Hrq. cbn [try_with].
  eapply extends_weaken with (R := fun s' => authentic s' c (as_bytes jwt) /\ records_at s' (rest ++ cids) l).
  - destruct (proofs ucan) as [ps|].
    + change (try_map cid_of_string ps = Ok cids) in Hps. rewrite Hps. cbn [try_with]. apply (extends_add _ c _ _ Hs (IH fuel ltac:(lia))).
    + injection Hps as <-. rewrite app_nil_r in *. apply (extends_add _ c _ _ Hs (IH fuel ltac:(lia))).
  - intros s' [Ha Hn]. econstructor; [split; [exact Ha|apply Ht]|done|done|done|done].
Qed.
End records.
End bundles.

(** ** Versions of spheres *)
Class EntryCodecsLaws (Cid : Type) `{CidOps Cid} `{!EntryCodecs Cid} := {
  chunk_laws :: BlockCodecLaws Cid (BodyChunkIpld Cid);
  link_laws :: BlockCodecLaws Cid Cid;
  identity_laws :: BlockCodecLaws Cid (IdentityIpld Cid);
  delegation_laws :: BlockCodecLaws Cid (DelegationIpld Cid);
  revocation_laws :: BlockCodecLaws Cid RevocationIpld;
}.

Section sphere_bundles.
Context {Cid S : Type} `{UnicodeLaws} `{Base64} `{DagJson UcanHeader} `{DagJson UcanPayload}.
Context `{Countable Cid} `{HashAlgorithmLaws string} `{HashAlgorithmLaws Cid} `{KeyOrderLaws Cid}.
Context `{CidLaws Cid} `{!BlockStore S Cid} `{!BlockStoreLaws S Cid} `{!SphereCodecs Cid} `{!SphereCodecsLaws Cid}.
Context `{!EntryCodecs Cid} `{!EntryCodecsLaws Cid}.
Notation MemoIpld := (MemoIpld Cid).
Notation SphereMutation := (SphereMutation Cid).
Notation value := (sphere_value Cid).
Notation version := (version (Cid := Cid)).
Implicit Types (s : S) (c : Cid) (v : value) (m : SphereMutation) (x y : version) (n : nat).

(** *** What the entries of a sphere refer to *)

(** A memo with a body of at most [n] chunks. *)
Definition content_memo_at n s c : Prop :=
  exists (memo : MemoIpld) ct bs, stored s c memo /\ get_first_header memo CONTENT_TYPE = Some ct /\
    ContentType.from_str ct <> ContentType.Sphere /\ chunks_at s (Some (body memo)) bs /\ length bs <= n.

(** A peer, with the record of its address and at most [n] proofs of it. *)
Definition identity_at n s (i : IdentityIpld Cid) : Prop :=
  match peer_link_record i with
  | None => True
  | Some c => exists l, records_at s [c] l /\ length l <= n
  end.

Definition delegation_at s (d : DelegationIpld Cid) : Prop := exists jwt, token_at s (delegation_jwt d) jwt.

Definition entries_at n s v : Prop :=
  log_values (content_memo_at n s) (v_content v).2 /\ log_values (identity_at n s) (v_identities v).2 /\
  log_values (delegation_at s) (v_delegations v).2.

Lemma extends_content_memo n s c : content_memo_at n s c ->
  extends (extend_bundle_with_cid (TryBundle := memo_try_bundle (Datatypes.S n)) s c) (fun s' => content_memo_at n s' c).
Proof.
  intros (memo & ct & bs & Hm & Hct & Hns & Hbs & Hn). cbn [memo_try_bundle extend_bundle_with_cid].
  unfold default_extend_with_cid. rewrite (stored_load _ _ _ Hm). cbn [try_with]. unfold memo_extend_bundle.
  destruct (serialize_sound memo) as (c' & b & -> & Hb & Hc' & Hs). cbn [try_with fst snd].
  assert (c' = c) as -> by (destruct Hm as (b' & Hb' & -> & _); congruence).
  fold CONTENT_TYPE. rewrite Hct.
  eapply extends_weaken with (R := fun s' => authentic s' c b /\ chunks_at s' (Some (body memo)) bs);
    [|intros s' [Ha Hbs']; exists memo, ct, bs; split_and!; [by eapply stored_of_authentic|done|done|exact Hbs'|done]].
  assert (forall bundle, match ContentType.from_str ct with
    | ContentType.Sphere => sphere_extend_bundle (memo_try_bundle n) n s c memo bundle
    | _ => chunk_extend_with_cid n s (Some (body memo)) bundle
    end = chunk_extend_with_cid n s (Some (body memo)) bundle) as Hsame by (intros bundle; by destruct (ContentType.from_str ct)).
  intros bundle Hbw. rewrite Hsame. exact (extends_add _ c b _ Hs (extends_chunks s _ bs n Hbs Hn) bundle Hbw).
Qed.

Lemma extends_identity n k s (i : IdentityIpld Cid) : n <= k -> identity_at n s i ->
  extends (extend_bundle (TryBundle := identity_try_bundle k) s i) (fun s' => identity_at n s' i).
Proof.
  intros Hk Hi. cbn [extend_bundle identity_try_bundle]. unfold identity_extend_bundle.
  destruct (serialize_sound i) as (c' & b & -> & Hb & Hc' & Hs). cbn [try_with fst snd]. unfold identity_at in *.
  destruct (peer_link_record i) as [c|].
  - destruct Hi as (l & Hl & Hn). eapply extends_weaken; [apply (extends_add _ c' b _ Hs (extends_records s [c] l k Hl ltac:(lia)))|].
    intros s' [_ Hr]. by exists l.
  - eapply extends_weaken; [apply (extends_add _ c' b _ Hs extends_done)|done].
Qed.

Lemma extends_delegation s (d : DelegationIpld Cid) : delegation_at s d ->
  extends (extend_bundle (TryBundle := delegation_try_bundle) s d) (fun s' => delegation_at s' d).
Proof.
  intros [jwt Hd]. cbn [extend_bundle delegation_try_bundle]. unfold delegation_extend_bundle.
  destruct (serialize_sound d) as (c' & b & -> & Hb & Hc' & Hs). cbn [try_with fst snd].
  eapply extends_weaken; [apply (extends_add _ c' b _ Hs (extends_token s _ jwt Hd))|]. intros s' [_ Hr]. by exists jwt.
Qed.

Lemma extends_revocation s (r : RevocationIpld) :
  extends (extend_bundle (TryBundle := revocation_try_bundle (Cid := Cid)) s r) (fun _ => True).
Proof.
  cbn [extend_bundle revocation_try_bundle]. unfold default_extend_bundle.
  destruct (serialize_sound (Cid := Cid) r) as (c' & b & -> & Hb & Hc' & Hs). cbn [try_with fst snd].
  eapply extends_weaken; [apply (extends_add _ c' b _ Hs extends_done)|done].
Qed.

(** *** The parts of a body *)
Lemma extends_authority s c auth ld lr :
  stored s c auth -> log_at s (delegations auth) ld -> log_at s (revocations auth) lr ->
  log_values (delegation_at s) ld ->
  extends (authority_extend_with_cid s c)
    (fun s' => stored s' c auth /\ log_at s' (delegations auth) ld /\ log_at s' (revocations auth) lr /\
      log_values (delegation_at s') ld).
Proof.
  intros Ha Hd Hr Hv. destruct (stored_sound _ _ _ Ha) as (b & Hb & Hs & Hrq & Hst).
  unfold authority_extend_with_cid. rewrite Hrq. cbn [try_with]. rewrite (block_roundtrip _ _ Hb). cbn [try_with].
  eapply extends_weaken; [apply extends_seq;
    [eapply extends_map; [exact Hd|intros k d Hin; exact (extends_delegation s d (Hv k d Hin))]|
     eapply (extends_last _ c b); [exact Hs|]; eapply extends_map; [exact Hr|intros k r _; apply extends_revocation]]|].
  intros s' ((Hd' & Hv') & (Hr' & _) & Ha'). split; [by apply Hst|]. split; [done|]. split; [done|exact Hv'].
Qed.

Lemma extends_address_book n k s c book li :
  n <= k -> stored s c book -> log_at s (identities book) li -> log_values (identity_at n s) li ->
  extends (address_book_extend_with_cid k s c)
    (fun s' => stored s' c book /\ log_at s' (identities book) li /\ log_values (identity_at n s') li).
Proof.
  intros Hk Ha Hd Hv. destruct (stored_sound _ _ _ Ha) as (b & Hb & Hs & Hrq & Hst).
  unfold address_book_extend_with_cid. rewrite Hrq. cbn [try_with]. rewrite (block_roundtrip _ _ Hb). cbn [try_with].
  eapply extends_weaken; [eapply (extends_last _ c b); [exact Hs|]; eapply extends_map;
    [exact Hd|intros key i Hin; exact (extends_identity n k s i Hk (Hv key i Hin))]|].
  intros s' ((Hi' & Hv') & Ha'). split; [by apply Hst|]. split; [done|exact Hv'].
Qed.

(** A step that is only taken when there are changes. *)
Lemma extends_unless (b : bool) (f : Bundle -> outcome unit * Bundle) (P : Prop) (R : S -> Prop) :
  (b = true -> ~ P) -> (b = false -> extends f R) ->
  extends (fun bundle => if b then (Ok tt, bundle) else f bundle) (fun s => P -> R s).
Proof.
  intros Ht Hf. destruct b; (eapply extends_weaken; [by apply extends_done || apply Hf|]); [|done].
  intros s _ HP. by destruct (Ht eq_refl).
Qed.

Lemma derived_unchanged {K V} `{Countable K} (p : logged K V) (mm mm' : VersionedMapMutation K V) :
  derived_part p mm mm' -> no_changes mm' = true -> apply_part mm p = p.
Proof. intros [->|[_ Hp]] Hn; [|done]. unfold apply_part. by rewrite Hn. Qed.

(** *** A version *)

(** The entries that [v'] has and [v] had not were delivered. *)
Definition fresh_at n s v v' : Prop :=
  (v_content v' <> v_content v -> log_values (content_memo_at n s) (v_content v').2) /\
  (v_identities v' <> v_identities v -> log_values (identity_at n s) (v_identities v').2) /\
  (v_delegations v' <> v_delegations v -> log_values (delegation_at s) (v_delegations v').2).

Definition version_delivered n s x y : Prop :=
  sparse_version_at s (ver_ipld x) (ver_value x) (ver_cid y) (ver_memo y) (ver_ipld y) (ver_value y) /\
  fresh_at n s (ver_value x) (ver_value y).

Definition is_sphere_memo (memo : MemoIpld) : Prop :=
  exists ct, get_first_header memo CONTENT_TYPE = Some ct /\ ContentType.from_str ct = ContentType.Sphere.

Lemma changed_book s ipld ipld' v v' : body_at s ipld v -> body_at s ipld' v' ->
  address_book ipld' <> address_book ipld -> v_identities v' <> v_identities v.
Proof.
  intros (_ & ([i] & Hb & Hi) & _) (_ & ([i'] & Hb' & Hi') & _) Hne E. rewrite E in Hi'. cbn in *.
  assert (i' = i) as -> by exact (part_at_cid _ _ _ _ _ Hi' Hi). apply Hne. exact (stored_inj _ _ _ _ _ Hb' Hb).
Qed.

Lemma changed_authority s ipld ipld' v v' : body_at s ipld v -> body_at s ipld' v' ->
  authority ipld' <> authority ipld -> ~ (v_delegations v' = v_delegations v /\ v_revocations v' = v_revocations v).
Proof.
  intros (_ & _ & ([d r] & Ha & Hd & Hr)) (_ & _ & ([d' r'] & Ha' & Hd' & Hr')) Hne [Ed Er].
  rewrite Ed in Hd'. rewrite Er in Hr'. cbn in *. assert (d' = d) as -> by exact (part_at_cid _ _ _ _ _ Hd' Hd).
  assert (r' = r) as -> by exact (part_at_cid _ _ _ _ _ Hr' Hr). apply Hne. exact (stored_inj _ _ _ _ _ Ha' Ha).
Qed.

(** The arm of [extend_bundle] for a version of a sphere whose contents can be bundled, with
    what becomes of each of them. *)
Lemma extends_sphere_with (R : Cid -> S -> Prop) A n s x m y :
  holds s x -> succeeds A s x m y ->
  log_values (fun c => extends (extend_bundle_with_cid (TryBundle := memo_try_bundle (Datatypes.S n)) s c) (R c)) (v_content (ver_value y)).2 ->
  log_values (identity_at n s) (v_identities (ver_value y)).2 -> log_values (delegation_at s) (v_delegations (ver_value y)).2 ->
  extends (sphere_extend_bundle (memo_try_bundle (Datatypes.S n)) (Datatypes.S n) s (ver_cid y) (ver_memo y))
    (fun s' => stored s' (body (ver_memo y)) (ver_ipld y) /\
      sparse_at s' (ver_ipld x) (ver_ipld y) (ver_value x) (ver_value y) /\
      (v_content (ver_value y) <> v_content (ver_value x) -> log_values (fun c => R c s') (v_content (ver_value y)).2) /\
      (v_identities (ver_value y) <> v_identities (ver_value x) -> log_values (identity_at n s') (v_identities (ver_value y)).2) /\
      (v_delegations (ver_value y) <> v_delegations (ver_value x) -> log_values (delegation_at s') (v_delegations (ver_value y)).2)).
Proof.
  intros Hx (Hy & Hp & Ev & _ & _ & _ & _ & author & _ & Hau & Hby) Hec Hei Hed. unfold holds in Hy. rewrite Ev in *.
  destruct (derive_mutation_spec s _ _ _ _ _ _ _ m author Hx Hy Hp Hau Hby) as (m' & Ed & _ & _ & _ & (D1 & D2 & D3 & D4)).
  destruct Hx as (_ & _ & Hbx), Hy as (Hm & Hb & Hby').
  pose proof (changed_book s _ _ _ _ Hbx Hby') as Hcb. pose proof (changed_authority s _ _ _ _ Hbx Hby') as Hca.
  destruct Hby' as (Hc & (book & Hbk & Hi) & (auth & Hau' & Hd & Hr)).
  unfold sphere_extend_bundle. rewrite Ed. cbn [try_with]. unfold to_body, to_memo. rewrite (stored_load _ _ _ Hm). cbn [outcome_bind].
  rewrite (stored_load _ _ _ Hb). cbn [try_with].
  set (vy := apply_value m (ver_value x)) in *. set (vx := ver_value x) in *.
  eapply extends_weaken; [apply extends_seq; [exact (extends_block s _ _ Hb)|apply extends_seq; [|apply extends_seq]]|].
  - apply (extends_unless _ _ (v_content vy <> v_content vx)).
    + intros Hn Hne. apply Hne. exact (derived_unchanged _ _ _ D1 Hn).
    + intros _. apply (extends_map R); [exact (part_log_at _ _ _ Hc)|]. intros k c Hin. exact (Hec k c Hin).
  - apply (extends_unless _ _ (~ (v_delegations vy = v_delegations vx /\ v_revocations vy = v_revocations vx))).
    + intros [Hn1 Hn2]%andb_true_iff Hne. apply Hne. split; [exact (derived_unchanged _ _ _ D3 Hn1)|exact (derived_unchanged _ _ _ D4 Hn2)].
    + intros _. exact (extends_authority s _ auth _ _ Hau' (part_log_at _ _ _ Hd) (part_log_at _ _ _ Hr) Hed).
  - apply (extends_unless _ _ (v_identities vy <> v_identities vx)).
    + intros Hn Hne. apply Hne. exact (derived_unchanged _ _ _ D2 Hn).
    + intros _. exact (extends_address_book n (Datatypes.S n) s _ book _ (Nat.le_succ_diag_r n) Hbk (part_log_at _ _ _ Hi) Hei).
  - intros s' (Hb' & Hc' & Ha' & Hi'). split; [done|]. split; [split; [|split]|split; [|split]].
    + intros Hne. by apply Hc'.
    + intros Hne. exists book. specialize (Hi' (Hcb Hne)). split; [apply Hi'|]. intros _. apply Hi'.
    + intros Hne. exists auth. specialize (Ha' (Hca Hne)). split; [apply Ha'|]. split; intros _; apply Ha'.
    + intros Hne. by apply Hc'.
    + intros Hne. by apply Hi'.
    + intros Hne. apply Ha'. by intros [E _].
Qed.

(** The memo of such a version. *)
Lemma extends_memo A s x m y n (D : S -> Prop) : succeeds A s x m y -> is_sphere_memo (ver_memo y) ->
  extends (sphere_extend_bundle (memo_try_bundle (Datatypes.S n)) (Datatypes.S n) s (ver_cid y) (ver_memo y)) D ->
  extends (extend_bundle (TryBundle := memo_try_bundle (2 + n)) s (ver_memo y)) (fun s' => stored s' (ver_cid y) (ver_memo y) /\ D s').
Proof.
  intros Hs (ct & Hct & Hsp) He. cbn [memo_try_bundle Nat.add extend_bundle]. unfold memo_extend_bundle.
  destruct (serialize_sound (ver_memo y)) as (c' & b & -> & Hb & Hc' & Hsd). cbn [try_with fst snd].
  assert (stored s (ver_cid y) (ver_memo y)) as Hm by apply Hs.
  assert (c' = ver_cid y) as -> by (destruct Hm as (b' & Hb' & -> & _); congruence).
  fold CONTENT_TYPE. rewrite Hct, Hsp.
  eapply extends_weaken; [apply (extends_add _ _ b _ Hsd He)|]. intros s' (Ha & HD). split; [by eapply stored_of_authentic|done].
Qed.

Lemma extends_version A n s x m y :
  holds s x -> succeeds A s x m y -> is_sphere_memo (ver_memo y) -> entries_at n s (ver_value y) ->
  extends (extend_bundle (TryBundle := memo_try_bundle (2 + n)) s (ver_memo y)) (fun s' => version_delivered n s' x y).
Proof.
  intros Hx Hs Hsp (Hec & Hei & Hed).
  eapply extends_weaken; [apply (extends_memo A s x m y n _ Hs Hsp (extends_sphere_with (fun c s' => content_memo_at n s' c) A n s x m y Hx Hs
    ltac:(intros k c Hin; exact (extends_content_memo n s c (Hec k c Hin))) Hei Hed))|].
  intros s' (Hm & Hbody & Hsparse & Hf). split; [split; [done|by split]|done].
Qed.

Lemma is_sphere_succeeds A s x m y : succeeds A s x m y -> is_sphere_memo (ver_memo x) -> is_sphere_memo (ver_memo y).
Proof.
  intros (_ & _ & _ & _ & _ & _ & Hct & _) (ct & Hc & Hs). exists ct. split; [|done].
  rewrite get_first_header_values in *. by rewrite Hct.
Qed.

Lemma bundle_empty_wf : bundle_wf (Cid := Cid) bundle_default.
Proof. exists ∅. split; [apply btree_empty_rep|]. intros k b Hk. by rewrite lookup_empty in Hk. Qed.

(** A version that links versions of other spheres, such as a gateway makes. *)
Lemma linking_bundle A n s x m y : holds s x -> succeeds A s x m y -> is_sphere_memo (ver_memo x) -> ver_cid x <> ver_cid y ->
  log_values (fun c => exists A' x' m' t, c = ver_cid t /\ holds s x' /\ succeeds A' s x' m' t /\ is_sphere_memo (ver_memo t) /\ entries_at n s (ver_value t))
    (v_content (ver_value y)).2 ->
  log_values (identity_at (Datatypes.S n) s) (v_identities (ver_value y)).2 -> log_values (delegation_at s) (v_delegations (ver_value y)).2 ->
  exists bundle, from_timeslice (3 + n) s (exclude_past (slice (ver_cid y) (Some (ver_cid x)))) = Ok bundle.
Proof.
  intros Hx Hs Hsp Hne Hec Hei Hed. assert (lineage A s x [(m, y)]) as Hl by (constructor; [done|done|constructor; apply Hs]).
  assert (log_values (fun c => extends (extend_bundle_with_cid (TryBundle := memo_try_bundle (2 + n)) s c) (fun _ => True)) (v_content (ver_value y)).2) as Hlinks.
  { intros k c Hin. destruct (Hec k c Hin) as (A' & x' & m' & t & -> & Hx' & Hs' & Hsp' & Ht). cbn [memo_try_bundle Nat.add extend_bundle_with_cid].
    unfold default_extend_with_cid. rewrite (stored_load s _ (ver_memo t)) by apply Hs'. cbn [try_with].
    eapply extends_weaken; [exact (extends_version A' n s x' m' t Hx' Hs' Hsp' Ht)|done]. }
  assert (extends (extend_bundle (TryBundle := memo_try_bundle (3 + n)) s (ver_memo y)) (fun _ => True)) as He.
  { eapply extends_weaken; [apply (extends_memo A s x m y (Datatypes.S n) _ Hs (is_sphere_succeeds _ _ _ _ _ Hs Hsp)
      (extends_sphere_with (fun _ _ => True) A (Datatypes.S n) s x m y Hx Hs Hlinks Hei Hed))|done]. }
  destruct (He _ bundle_empty_wf) as (bundle & Eb & _). exists bundle. unfold from_timeslice.
  pose proof (lineage_stream A s s x [(m, y)] (3 + n) Hl (lineage_memos _ _ _ _ Hl) ltac:(intros ?%list_elem_of_singleton; done) ltac:(done) ltac:(cbn; lia)) as Est.
  cbn [tip] in Est. rewrite Est. cbn [fmap list_fmap reverse rev_append for_each_st snd]. rewrite Eb. done.
Qed.

(** *** A lineage *)
Fixpoint lineage_delivered n s x (l : list (SphereMutation * version)) : Prop :=
  match l with [] => True | (_, y) :: l' => version_delivered n s x y /\ lineage_delivered n s y l' end.

Lemma extends_lineage A n s x l : lineage A s x l -> is_sphere_memo (ver_memo x) ->
  Forall (fun my => entries_at n s (ver_value my.2)) l ->
  extends (for_each_st (fun item => extend_bundle (TryBundle := memo_try_bundle (2 + n)) s item.2)
    (reverse ((fun my => (ver_cid my.2, ver_memo my.2)) <$> l))) (fun s' => lineage_delivered n s' x l).
Proof.
  intros Hl. induction Hl as [x Hx|x m y l Hx Hs _ IH]; intros Hsp He.
  { eapply extends_weaken; [apply extends_done|done]. }
  apply Forall_cons_1 in He as [Hy He]. pose proof (is_sphere_succeeds _ _ _ _ _ Hs Hsp) as Hspy.
  rewrite fmap_cons, reverse_cons. eapply extends_weaken; [eapply extends_app; [exact (IH Hspy He)|]|].
  - apply (extends_each _ (fun _ s' => version_delivered n s' x y)). intros item ->%list_elem_of_singleton. cbn [snd].
    by eapply extends_version.
  - intros s' [Hd Hv]. split; [|done]. apply (Hv _ (list_elem_of_here _ _)).
Qed.

Lemma delivered_deltas n s x l : lineage_delivered n s x l -> deltas_at s x l /\ memos_at s l.
Proof.
  revert x. induction l as [|[m y] l IH]; intros x Hd; [split; [done|by intros m y ?%elem_of_nil]|].
  destruct Hd as [[Hy _] Hd]. destruct (IH y Hd) as [Hdl Hm]. split; [by split|].
  intros m' y' [[= -> ->]|Hin]%elem_of_cons; [apply Hy|by eapply Hm].
Qed.

(** An entry after some changes was there before them or was added by one. *)
Lemma apply_ops_added {K V} `{Countable K} (g : gmap K V) ops k w :
  apply_ops g ops !! k = Some w -> g !! k = Some w \/ Add k w ∈ ops.
Proof.
  revert g. induction ops as [|op ops IH]; intros g Hk; [by left|]. rewrite apply_ops_cons in Hk.
  destruct (IH _ Hk) as [Hop|Hin]; [|right; by right]. rewrite apply_op_lookup in Hop. case_decide as E; [|by left].
  destruct op as [k' v'|k']; [|done]. cbn in E. injection Hop as ->. subst k'. right. left.
Qed.

(** What the latest version has, the first had or was delivered. *)
Lemma lineage_content A n s0 s x l : lineage A s0 x l -> lineage_delivered n s x l ->
  forall slug link, (v_content (ver_value (tip x l))).1 !! slug = Some link ->
    (v_content (ver_value x)).1 !! slug = Some link \/ content_memo_at n s link.
Proof.
  induction 1 as [|x m y l Hx Hs _ IH]; intros Hd slug link Hk; [by left|]. destruct Hd as [[_ [Hf _]] Hd].
  destruct (IH Hd slug link Hk) as [Hy|Hy]; [|by right]. destruct Hs as (_ & _ & Ev & _).
  destruct (decide (v_content (ver_value y) = v_content (ver_value x))) as [E|E]; [left; by rewrite <- E|].
  specialize (Hf E). rewrite Ev in Hf, Hy. cbn [apply_value v_content] in Hf, Hy. rewrite apply_part_fst in Hy.
  destruct (apply_ops_added _ _ _ _ Hy) as [Hg|Hin]; [by left|]. right. apply (Hf slug). unfold apply_part.
  destruct (no_changes (content_mutation m)) eqn:En; [|done]. apply no_changes_true in En. rewrite En in Hin. by apply elem_of_nil in Hin.
Qed.

Lemma content_memo_mono n s s' c : store_le s s' -> content_memo_at n s c -> content_memo_at n s' c.
Proof.
  intros Hle (memo & ct & bs & Hm & Hct & Hns & Hbs & Hn). exists memo, ct, bs.
  split_and!; [by eapply stored_mono|done|done|by eapply chunks_at_mono|done].
Qed.

Context (P : string -> Prop) (Q : Cid -> Prop) (HP : collision_free P) (HQ : collision_free Q).

Lemma bundle_lineage A n s0 s x l :
  lineage A s0 x l -> l <> [] -> ver_cid x ∉ cids l -> length l <= 2 + n ->
  is_sphere_memo (ver_memo x) -> Forall (fun my => entries_at n s0 (ver_value my.2)) l ->
  value_in P Q (ver_value x) -> Forall (fun my => mutation_in P Q my.1) l ->
  (lamport_order (ver_memo x) + N.of_nat (length l) < 2 ^ 32)%N -> holds s x ->
  exists bundle s1 s2, let t := exclude_past (slice (ver_cid (tip x l)) (Some (ver_cid x))) in
    from_timeslice (2 + n) s0 t = Ok bundle /\ load_into (Cid := Cid) bundle s = (Ok tt, s1) /\
    hydrate_timeslice (2 + n) t s1 = (Ok tt, s2) /\ store_le s s2 /\ lineage A s2 x l /\
    forall slug link, (v_content (ver_value (tip x l))).1 !! slug = Some link ->
      (v_content (ver_value x)).1 !! slug = Some link \/ content_memo_at n s2 link.
Proof.
  intros Hl Hne Hx Hlen Hsp He Hv Hm Hlam Hs.
  destruct (extends_lineage A n s0 x l Hl Hsp He _ bundle_empty_wf) as (bundle & Eb & Hwf & _ & Hd).
  destruct (load_into_spec bundle s Hwf) as (s1 & E1 & Hle1 & Hdl). pose proof (Hd s1 Hdl) as Hld.
  destruct (delivered_deltas n s1 x l Hld) as [Hdelta Hmemos].
  destruct (hydrate_all_sparse P Q HP HQ A s0 s1 x l Hl (holds_mono _ _ _ Hle1 Hs) Hdelta Hv Hm Hlam) as (s2 & E2 & Hle2 & Hlin).
  exists bundle, s1, s2. cbv zeta. split; [|split; [exact E1|split; [|split; [by transitivity s1|split; [exact Hlin|]]]]].
  - unfold from_timeslice. rewrite (lineage_stream A s0 s0 x l _ Hl (lineage_memos _ _ _ _ Hl) Hx Hne Hlen), Eb. done.
  - unfold hydrate_timeslice. rewrite (lineage_chronological_at A s0 s1 x l _ Hl Hmemos Hx Hne Hlen). exact E2.
  - intros slug link Hk. destruct (lineage_content A n s0 s1 x l Hl Hld slug link Hk) as [?|Hc]; [by left|right].
    by eapply content_memo_mono.
Qed.
End sphere_bundles.
