(* ===== verification/Stream.v ===== *)
(** * Streams of blocks

    Model of the streams that replicate a sphere: [noosphere-core/src/stream]
    (memo.rs, walk.rs, ledger.rs) over the tapped block store of
    [noosphere-storage/src/tap.rs].

    A computation on a tapped store is the blocks that it reads and what it
    returns.  The tasks that a walk spawns run concurrently; here they run one
    after the other when they are joined, so that the blocks of a stream are
    those of the model up to their order.  The receiver of a tap is open for as
    long as its stream is polled: sending does not fail. *)
From stdpp Require Import base gmap list numbers strings pretty.
From Stdlib Require Import Ascii String.
From S2P Require Import Prelude BlockStore HamtNode HamtRep Hamt BTree SphereDb BodyChunk VersionedMap.
From S2P Require Import UcanCapability Ucan UcanChain Authority Memo Sphere SphereHistory.
#[local] Open Scope list_scope.
#[local] Notation length := List.length (only parsing).

(** ** Tapped reads *)
Definition tapped (Cid A : Type) : Type := list (Cid * bytes) * outcome A.

Section tapped.
Context {Cid : Type}.

Definition tap_lift {A} (m : outcome A) : tapped Cid A := ([], m).

Definition tap_bind {A B} (m : tapped Cid A) (f : A -> tapped Cid B) : tapped Cid B :=
  let '(blocks, r) := m in
  match r with
  | Ok a => let '(blocks', r') := f a in (blocks ++ blocks', r')
  | Err e => (blocks, Err e)
  | Panic w => (blocks, Panic w)
  | Diverge => (blocks, Diverge)
  end.

Fixpoint tap_each {A} (f : A -> tapped Cid unit) (l : list A) : tapped Cid unit :=
  match l with
  | [] => tap_lift (Ok tt)
  | x :: l' => tap_bind (f x) (fun _ => tap_each f l')
  end.

Fixpoint tap_map {A B} (f : A -> tapped Cid B) (l : list A) : tapped Cid (list B) :=
  match l with
  | [] => tap_lift (Ok [])
  | x :: l' => tap_bind (f x) (fun y => tap_bind (tap_map f l') (fun ys => tap_lift (Ok (y :: ys))))
  end.
End tapped.

Notation "'let!' x ':=' m 'in' k" := (tap_bind m (fun x => k))
  (at level 10, x pattern, m at level 100, k at level 200) : rust_scope.

Section tap.
Context {Cid S : Type} `{CidOps Cid} `{!BlockStore S Cid}.
Implicit Types (s : S) (cid : Cid).

(** [BlockStoreTap::get_block]. *)
Definition tap_get_block s cid : tapped Cid (option bytes) :=
  match get_block s cid with
  | Ok (Some block) => ([(cid, block)], Ok (Some block))
  | r => ([], r)
  end.

Definition tap_load {T} `{!BlockCodec T} s cid : tapped Cid T :=
  if negb (cid_codec cid =? DAG_CBOR)%N then tap_lift (Err "Incorrect codec")
  else
    let! found := tap_get_block s cid in
    tap_lift (match found with Some block => of_block block | None => Err "No block found" end).

(** *** Chunks *)
Fixpoint tap_decode `{!BlockCodec (BodyChunkIpld Cid)} (fuel : nat) s (next : option Cid) : tapped Cid unit :=
  match next with
  | None => tap_lift (Ok tt)
  | Some cid =>
      match fuel with
      | O => tap_lift Diverge
      | Datatypes.S fuel' =>
          let! chunk := tap_load s cid in tap_decode fuel' s (chunk_next (chunk : BodyChunkIpld Cid))
      end
  end.

(** *** Tokens *)
Section tap_tokens.
Context `{Base64} `{DagJson UcanHeader} `{DagJson UcanPayload}.

Definition tap_read_token s cid : tapped Cid (option string) :=
  if negb (cid_codec cid =? RAW)%N then tap_lift (Err "Only 'raw' codec supported")
  else
    let! found := tap_get_block s cid in
    match found with
    | Some block => tap_lift (let? token := from_utf8 block in Ok (Some token))
    | None => tap_lift (Err "No UCAN was found for CID")
    end.

Definition tap_require_token s cid : tapped Cid string :=
  let! found := tap_read_token s cid in tap_lift (ok_or "No token found for CID" found).

Definition tap_load_proof s (cid_string : string) : tapped Cid Ucan :=
  let! cid := tap_lift (cid_of_string (Cid := Cid) cid_string) in
  let! jwt := tap_require_token s cid in
  tap_lift (ucan_from_str jwt).

(** [collect_ucan_proofs], for the blocks it reads. *)
Fixpoint tap_collect_proofs (fuel : nat) s (remaining : list Ucan) : tapped Cid unit :=
  match vec_pop remaining with
  | None => tap_lift (Ok tt)
  | Some (ucan, remaining) =>
      match fuel with
      | O => tap_lift Diverge
      | Datatypes.S fuel' =>
          let! loaded := tap_map (tap_load_proof s) (default [] (proofs ucan)) in
          tap_collect_proofs fuel' s (remaining ++ loaded)
      end
  end.

(** [IdentityIpld::link_record]: an unreadable record is no record. *)
Definition tap_link_record s (self : IdentityIpld Cid) : tapped Cid (option Ucan) :=
  match peer_link_record self with
  | Some cid =>
      let '(blocks, r) := tap_read_token s cid in
      (blocks, match r with
               | Ok (Some jwt) =>
                   match ucan_from_str jwt with
                   | Ok record => Ok (Some record)
                   | Err _ => Ok None
                   | Panic w => Panic w
                   | Diverge => Diverge
                   end
               | Ok None | Err _ => Ok None
               | Panic w => Panic w
               | Diverge => Diverge
               end)
  | None => tap_lift (Ok None)
  end.

(** The callbacks for the entries of an address book and of an authority. *)
Definition tap_identity (fuel : nat) s (self : IdentityIpld Cid) : tapped Cid unit :=
  let! link_record := tap_link_record s self in
  match link_record with
  | Some record => tap_collect_proofs fuel s [record]
  | None => tap_lift (Ok tt)
  end.

Definition tap_delegation (fuel : nat) s (self : DelegationIpld Cid) : tapped Cid unit :=
  let! jwt := tap_require_token s (delegation_jwt self) in
  let! ucan := tap_lift (ucan_from_str jwt) in
  tap_collect_proofs fuel s [ucan].
End tap_tokens.

(** *** Maps (stream/walk.rs) *)
Section tap_maps.
Context {K V : Type} `{!BlockCodec (wire_node K V Cid)}.
Context `{!BlockCodec (ChangelogIpld (MapOperation K V))} `{!BlockCodec (VersionedMapIpld Cid)}.

Definition tap_load_node s cid : tapped Cid (node K V Cid) :=
  let! w := tap_load s cid in tap_lift (node_deserialize (w : wire_node K V Cid)).

(** [Node::into_stream] with a callback for each entry. *)
Fixpoint tap_into_stream (callback : K -> V -> tapped Cid unit) (fuel : nat) s (remaining : list (pointer K V Cid))
    : tapped Cid unit :=
  match vec_pop remaining with
  | None => tap_lift (Ok tt)
  | Some (p, remaining') =>
      match fuel with
      | O => tap_lift Diverge
      | Datatypes.S fuel' =>
          match p with
          | Dirty n => tap_into_stream callback fuel' s (remaining' ++ node_pointers n)
          | Link _ (Some n) => tap_into_stream callback fuel' s (remaining' ++ node_pointers n)
          | Link cid None =>
              let! n := tap_load_node s cid in tap_into_stream callback fuel' s (remaining' ++ node_pointers n)
          | Values kvs =>
              let! _ := tap_each (fun kv => callback kv.1 kv.2) kvs in tap_into_stream callback fuel' s remaining'
          end
      end
  end.

Definition walk_versioned_map_elements_and (fuel : nat) s (map : Cid) (callback : K -> V -> tapped Cid unit)
    : tapped Cid unit :=
  let! ipld := tap_load s map in
  let! _ := tap_load (T := ChangelogIpld (MapOperation K V)) s (map_changelog (ipld : VersionedMapIpld Cid)) in
  let! root := tap_load_node s (map_hamt ipld) in
  tap_into_stream callback fuel s (node_pointers root).

Definition walk_versioned_map_elements (fuel : nat) s (map : Cid) : tapped Cid unit :=
  walk_versioned_map_elements_and fuel s map (fun _ _ => tap_lift (Ok tt)).

Definition tap_load_changelog s (map : Cid) : tapped Cid (ChangelogIpld (MapOperation K V)) :=
  let! ipld := tap_load s map in tap_load s (map_changelog (ipld : VersionedMapIpld Cid)).

Definition walk_versioned_map_changes_and s (map : Cid) (callback : K -> V -> tapped Cid unit) : tapped Cid unit :=
  let! changelog := tap_load_changelog s map in
  tap_each (fun op => match op with Add key value => callback key value | Remove _ => tap_lift (Ok tt) end)
    (log_changes changelog).
End tap_maps.
End tap.

(** ** Streams of a sphere (stream/memo.rs) *)
Section memo_streams.
Context {Cid S : Type} `{Unicode} `{Base64} `{DagJson UcanHeader} `{DagJson UcanPayload}.
Context `{EqDecision Cid} `{CidOps Cid} `{!BlockStore S Cid} `{!SphereCodecs Cid} `{!BlockCodec (BodyChunkIpld Cid)}.
Notation SphereIpld := (SphereIpld Cid).
Notation MemoIpld := (MemoIpld Cid).
Implicit Types (s : S) (cid : Cid) (memo : MemoIpld).

(** [Link::load_from] of a link to a memo: a raw block is not one. *)
Definition tap_load_from s (link : Cid) : tapped Cid MemoIpld :=
  if (cid_codec link =? DAG_CBOR)%N then tap_load s link
  else if (cid_codec link =? RAW)%N then
    let! _ := tap_get_block s link in tap_lift (Err "Not a memo")
  else tap_lift (Err "Unsupported codec").

(** The tasks of [walk_memo_body] for a sphere. *)
Definition walk_sphere_body (walk_memo : Cid -> tapped Cid unit) (fuel : nat) s memo (include_content : bool) : tapped Cid unit :=
  let! sphere := tap_load s (body memo) in
  let! book := tap_load s (address_book (sphere : SphereIpld)) in
  let! auth := tap_load s (authority sphere) in
  let! _ := walk_versioned_map_elements_and fuel s (identities (book : AddressBookIpld Cid)) (fun _ => tap_identity fuel s) in
  let! _ := walk_versioned_map_elements_and (K := string) (V := Cid) fuel s (content sphere) (fun _ link =>
    if include_content then walk_memo link else let! _ := tap_load_from s link in tap_lift (Ok tt)) in
  let! _ := walk_versioned_map_elements_and fuel s (delegations (auth : AuthorityIpld Cid)) (fun _ => tap_delegation fuel s) in
  walk_versioned_map_elements (K := Cid) (V := RevocationIpld) fuel s (revocations auth).

Fixpoint walk_memo_body (fuel : nat) s (include_content : bool) (memo_version : Cid) : tapped Cid unit :=
  match fuel with
  | O => tap_lift Diverge
  | Datatypes.S fuel' =>
      let! memo := tap_load s memo_version in
      match content_type (memo : MemoIpld) with
      | Some ContentType.Sphere => walk_sphere_body (walk_memo_body fuel' s true) fuel' s memo include_content
      | Some _ => tap_decode fuel' s (Some (body memo))
      | None => tap_lift (Ok tt)
      end
  end.

(** The blocks of the stream and how it ends. *)
Definition memo_body_stream (fuel : nat) s (memo_version : Cid) (include_content : bool) : list (Cid * bytes) * outcome unit :=
  walk_memo_body fuel s include_content memo_version.

(** The tasks for the parts of a version that are replicated. *)
Definition authority_task (fuel : nat) s (authority : Cid) : tapped Cid unit :=
  let! auth := tap_load s authority in
  let! _ := walk_versioned_map_changes_and s (delegations (auth : AuthorityIpld Cid)) (fun _ => tap_delegation fuel s) in
  let! _ := tap_load_changelog (K := Cid) (V := RevocationIpld) s (revocations auth) in
  tap_lift (Ok tt).

Definition identities_task (fuel : nat) s (identities : Cid) : tapped Cid unit :=
  walk_versioned_map_changes_and s identities (fun _ => tap_identity fuel s).

Definition content_task (fuel : nat) s (include_content : bool) (content : Cid) : tapped Cid unit :=
  walk_versioned_map_changes_and (K := string) (V := Cid) s content (fun _ link =>
    if include_content then walk_memo_body fuel s include_content link
    else let! _ := tap_load_from s link in tap_lift (Ok tt)).

(** The version that was visited before: the CID of its body and the body. *)
Definition previous : Type := option (Cid * SphereIpld).

(** One turn of the loop of [memo_history_stream]: what it leaves for the next
    turn and the tasks it spawns. *)
Definition history_turn (fuel : nat) s (include_content : bool) memo (prev : previous) : tapped Cid (previous * list (tapped Cid unit)) :=
  if bool_decide (fst <$> prev = Some (body memo)) then tap_lift (Ok (prev, []))
  else
    let! sphere_body := tap_load s (body memo) in
    let '(replicate_authority, replicate_address_book, replicate_content) :=
      match prev with
      | Some (_, previous_body) =>
          (negb (bool_decide (authority previous_body = authority (sphere_body : SphereIpld))),
           negb (bool_decide (address_book previous_body = address_book sphere_body)),
           negb (bool_decide (content previous_body = content sphere_body)))
      | None => (true, true, true)
      end in
    let authority_tasks := if (replicate_authority : bool) then [authority_task fuel s (authority sphere_body)] else [] in
    let! identities_tasks :=
      if (replicate_address_book : bool) then
        let! book := tap_load s (address_book sphere_body) in
        tap_lift (Ok [identities_task fuel s (identities (book : AddressBookIpld Cid))])
      else tap_lift (Ok []) in
    let content_tasks := if (replicate_content : bool) then [content_task fuel s include_content (content sphere_body)] else [] in
    tap_lift (Ok (Some (body memo, sphere_body), authority_tasks ++ identities_tasks ++ content_tasks)).

(** The loop, over the history from [from] back to [since]. *)
Fixpoint history_loop (fuel : nat) (task_fuel : nat) s (include_content : bool) (from since : option Cid) (prev : previous)
    (tasks : list (tapped Cid unit)) : tapped Cid (list (tapped Cid unit)) :=
  match from with
  | None => tap_lift (Ok tasks)
  | Some cid =>
      match fuel with
      | O => tap_lift Diverge
      | Datatypes.S fuel' =>
          let! memo := tap_load s cid in
          if bool_decide (since = Some cid) then tap_lift (Ok tasks)
          else
            let! _ := tap_lift (block_serialize (Cid := Cid) (memo : MemoIpld)) in
            let! (prev, new_tasks) := history_turn task_fuel s include_content memo prev in
            let next := if bool_decide (since = parent memo) then None else parent memo in
            history_loop fuel' task_fuel s include_content next since prev (tasks ++ new_tasks)
      end
  end.

Definition memo_history_stream (fuel task_fuel : nat) s (latest : Cid) (since : option Cid) (include_content : bool)
    : list (Cid * bytes) * outcome unit :=
  let! memo := tap_load s latest in
  match content_type (memo : MemoIpld) with
  | Some ContentType.Sphere =>
      let! self := tap_lift (block_serialize (Cid := Cid) memo) in
      let! _ := tap_load (T := SphereIpld) s (body memo) in
      let! tasks := history_loop fuel task_fuel s include_content (Some self.1) since None [] in
      tap_each (fun task => task) tasks
  | _ => tap_lift (Err "History streaming is only supported for spheres")
  end.
End memo_streams.

(** ** The ledger of a stream (stream/ledger.rs) *)
Section ledger.
Context {Cid : Type} `{Countable Cid} `{CidOps Cid}.

Record BlockLedger := mkLedger { ledger_references : gset Cid; ledger_blocks : gset Cid }.

Definition ledger_default : BlockLedger := mkLedger ∅ ∅.

(** A block that cannot be decoded is recorded all the same. *)
Definition ledger_record (self : BlockLedger) (cid : Cid) (block : bytes) : outcome unit * BlockLedger :=
  let self := mkLedger (ledger_references self) ({[cid]} ∪ ledger_blocks self) in
  if (cid_codec cid =? DAG_CBOR)%N || (cid_codec cid =? RAW)%N then
    let? links := references (Cid := Cid) (cid_codec cid) block keeping self in
    (Ok tt, mkLedger (ledger_references self ∪ list_to_set links) (ledger_blocks self))
  else (Ok tt, self).

Definition orphans (self : BlockLedger) : gset Cid := ledger_blocks self ∖ ledger_references self.
Definition missing_references (self : BlockLedger) : gset Cid := ledger_references self ∖ ledger_blocks self.

(** The loop of [record_stream_orphans]: the blocks that pass, how the stream
    ends, and the ledger. *)
Fixpoint record_blocks (self : BlockLedger) (blocks : list (Cid * bytes)) : list (Cid * bytes) * outcome unit * BlockLedger :=
  match blocks with
  | [] => ([], Ok tt, self)
  | (cid, block) :: blocks' =>
      match ledger_record self cid block with
      | (Ok _, self) =>
          let '(passed, r, self) := record_blocks self blocks' in ((cid, block) :: passed, r, self)
      | (failure, self) => ([], failure, self)
      end
  end.

Definition record_stream_orphans (seen : gset Cid) (stream : list (Cid * bytes) * outcome unit)
    : (list (Cid * bytes) * outcome unit) * gset Cid :=
  let '(blocks, ending) := stream in
  let '(passed, r, ledger) := record_blocks ledger_default blocks in
  match r, ending with
  | Ok _, Ok _ => ((passed, Ok tt), seen ∪ orphans ledger)
  | Ok _, failure => ((passed, failure), seen)
  | failure, _ => ((passed, failure), seen)
  end.
End ledger.
