(* ===== verification/StreamProofs.v ===== *)
(** * Facts about streams

    [taps t a R]: the walk [t] returns [a], every block it reads is sound, and [R]
    holds of every store that has those blocks.  The blocks may arrive in any
    order, since [R] is about the set of them. *)
From stdpp Require Import base gmap list numbers strings pretty.
From Stdlib Require Import Ascii String.
From S2P Require Import Prelude BlockStore HamtNode HamtRep HamtProofs HamtPersist Hamt HamtSpec BTree SphereDb BodyChunk Bitfield.
From S2P Require Import VersionedMap UcanCapability Ucan UcanChain Authority Memo.
From S2P Require Import Sphere SphereProofs SphereHistory SphereRebase Bundle BundleProofs Stream.
#[local] Open Scope list_scope.
#[local] Notation length := List.length (only parsing).

Section taps.
Context {Cid S : Type} `{EqDecision Cid} `{CidLaws Cid} `{!BlockStore S Cid} `{!BlockStoreLaws S Cid}.
Implicit Types (s : S) (c : Cid) (b : bytes).

(** [s] has the blocks. *)
Definition has_blocks s (blocks : list (Cid * bytes)) : Prop := forall c b, (c, b) ∈ blocks -> authentic s c b.

Definition taps {A} (t : tapped Cid A) (a : A) (R : S -> Prop) : Prop :=
  exists blocks, t = (blocks, Ok a) /\ Forall sound_block blocks /\ forall s, has_blocks s blocks -> R s.

(** *** The algebra of walks *)
Lemma taps_weaken {A} (t : tapped Cid A) a (R R' : S -> Prop) : taps t a R -> (forall s, R s -> R' s) -> taps t a R'.
Proof. intros (bl & E & Hs & HR) HR'. exists bl. split; [done|]. split; [done|]. intros s Hb. by apply HR', HR. Qed.

Lemma taps_lift {A} (a : A) : taps (tap_lift (Ok a)) a (fun _ => True).
Proof. exists []. by split; [|split; [constructor|]]. Qed.

Lemma taps_bind {A B} (t : tapped Cid A) (f : A -> tapped Cid B) a (y : B) R R' :
  taps t a R -> taps (f a) y R' -> taps (tap_bind t f) y (fun s => R s /\ R' s).
Proof.
  intros (bl & -> & Hs & HR) (bl' & E & Hs' & HR'). exists (bl ++ bl'). cbn. rewrite E. split; [done|].
  split; [by apply Forall_app|]. intros s Hb. split; [apply HR|apply HR']; intros c bs Hin; apply Hb, elem_of_app; auto.
Qed.

Lemma taps_lift_bind {A B} (f : A -> tapped Cid B) a (y : B) R : taps (f a) y R -> taps (tap_bind (tap_lift (Ok a)) f) y R.
Proof. intros Hf. eapply taps_weaken; [eapply taps_bind; [apply taps_lift|exact Hf]|]. by intros s [_ ?]. Qed.

Lemma taps_each {A} (f : A -> tapped Cid unit) (R : A -> S -> Prop) (l : list A) :
  (forall x, x ∈ l -> taps (f x) tt (R x)) -> taps (tap_each f l) tt (fun s => forall x, x ∈ l -> R x s).
Proof.
  induction l as [|x l IH]; intros Hf.
  { eapply taps_weaken; [apply taps_lift|]. by intros s _ x ?%elem_of_nil. }
  cbn [tap_each]. eapply taps_weaken; [eapply taps_bind; [apply Hf; left|apply IH; intros y Hy; apply Hf; by right]|].
  intros s [Hx Hl] y [->|Hy]%elem_of_cons; auto.
Qed.

Lemma taps_each_app {A} (f : A -> tapped Cid unit) (l l' : list A) R R' :
  taps (tap_each f l) tt R -> taps (tap_each f l') tt R' -> taps (tap_each f (l ++ l')) tt (fun s => R s /\ R' s).
Proof.
  intros Hl Hl'. assert (tap_each f (l ++ l') = tap_bind (tap_each f l) (fun _ => tap_each f l')) as ->; [|by eapply taps_bind].
  clear. induction l as [|x l IH]; cbn [app tap_each]; [cbn; by destruct (tap_each f l')|]. rewrite IH.
  destruct (f x) as [bl [[]| | |]]; cbn; [|done..]. destruct (tap_each f l) as [bl' [[]| | |]]; cbn; [|done..].
  destruct (tap_each f l') as [bl'' r]. by rewrite app_assoc.
Qed.

Lemma taps_map {A B} (f : A -> tapped Cid B) (R : A -> S -> Prop) l ys :
  Forall2 (fun x y => taps (f x) y (R x)) l ys -> taps (tap_map f l) ys (fun s => forall x, x ∈ l -> R x s).
Proof.
  induction 1 as [|x y l ys Hx _ IH].
  { eapply taps_weaken; [apply taps_lift|]. by intros s _ x ?%elem_of_nil. }
  cbn [tap_map]. eapply taps_weaken; [eapply taps_bind; [exact Hx|eapply taps_bind; [exact IH|apply taps_lift]]|].
  intros s (Hs & Hl & _) z [->|Hz]%elem_of_cons; auto.
Qed.

Lemma taps_load {T} `{!BlockCodec T} `{!BlockCodecLaws Cid T} s c (x : T) : stored s c x -> taps (tap_load s c) x (fun s' => stored s' c x).
Proof.
  intros Hx. destruct (stored_sound _ _ _ Hx) as (b & Hb & Hs & _ & Hst). exists [(c, b)]. split; [|split; [by constructor|]].
  - destruct Hx as (b' & Hb' & -> & Hg). assert (b' = b) as -> by congruence. unfold tap_load, tap_get_block.
    unfold derive_cid at 1. rewrite cid_codec_new. cbn [N.eqb negb]. rewrite N.eqb_refl. cbn [negb]. rewrite Hg. cbn.
    by rewrite (block_roundtrip _ _ Hb).
  - intros s' Hh. apply Hst, Hh. left.
Qed.

(** *** Chunks *)
Lemma taps_chunks `{!BlockCodec (BodyChunkIpld Cid)} `{!BlockCodecLaws Cid (BodyChunkIpld Cid)} s next bs fuel :
  chunks_at s next bs -> length bs <= fuel -> taps (tap_decode fuel s next) tt (fun s' => chunks_at s' next bs).
Proof.
  intros Hc. revert fuel. induction Hc as [|c x next bs Hx _ IH]; intros fuel Hf.
  { eapply taps_weaken; [|intros s' _; constructor]. destruct fuel; apply taps_lift. }
  destruct fuel as [|fuel]; cbn in Hf; [lia|]. cbn [tap_decode].
  eapply taps_weaken; [eapply taps_bind; [exact (taps_load _ _ _ Hx)|exact (IH fuel ltac:(lia))]|].
  intros s' [Hc Hn]. by eapply chunks_cons.
Qed.

(** *** Tokens *)
Section tokens.
Context `{Base64} `{DagJson UcanHeader} `{DagJson UcanPayload}.
#[local] Existing Instance block_ucan_store.

Lemma taps_read_token s c jwt : token_at s c jwt -> from_utf8 (as_bytes jwt) = Ok jwt ->
  taps (tap_read_token s c) (Some jwt) (fun s' => token_at s' c jwt).
Proof.
  intros Ht Hu. destruct (token_sound _ _ _ Ht) as [Hs _]. destruct Ht as [[Hg Hc] Hr]. exists [(c, as_bytes jwt)].
  split; [|split; [by constructor|]].
  - unfold tap_read_token, tap_get_block. rewrite Hr, Hg. cbn. by rewrite Hu.
  - intros s' Hh. split; [apply Hh; left|done].
Qed.

Lemma taps_require_token s c jwt : token_at s c jwt -> from_utf8 (as_bytes jwt) = Ok jwt ->
  taps (tap_require_token s c) jwt (fun s' => token_at s' c jwt).
Proof.
  intros Ht Hu. unfold tap_require_token. eapply taps_weaken; [eapply taps_bind; [exact (taps_read_token _ _ _ Ht Hu)|apply taps_lift]|].
  by intros s' [? _].
Qed.

(** The token of [ucan] is stored under [c]. *)
Definition ucan_at s c (ucan : Ucan) : Prop :=
  exists jwt, token_at s c jwt /\ from_utf8 (as_bytes jwt) = Ok jwt /\ ucan_from_str jwt = Ok ucan.

Lemma records_ucan s remaining l c : records_at s remaining l -> c ∈ remaining -> exists ucan, ucan_at s c ucan.
Proof.
  induction 1 as [|rest c0 jwt ucan cids l Ht Hu Hp Hps _ IH]; intros Hc; [by apply elem_of_nil in Hc|].
  apply elem_of_app in Hc as [Hc| ->%list_elem_of_singleton]; [|by exists ucan, jwt]. apply IH, elem_of_app. by left.
Qed.

Lemma taps_load_proofs s ps cids : try_map cid_of_string ps = Ok cids -> (forall c, c ∈ cids -> exists ucan, ucan_at s c ucan) ->
  exists us, taps (tap_map (tap_load_proof s) ps) us (fun s' => Forall2 (ucan_at s') cids us) /\ Forall2 (ucan_at s) cids us.
Proof.
  intros Hps. revert cids Hps. induction ps as [|p ps IH]; intros cids Hps Hall.
  { injection Hps as <-. exists []. split; [|constructor]. eapply taps_weaken; [apply taps_lift|]. intros s' _. constructor. }
  rewrite try_map_cons in Hps. destruct (cid_of_string p) as [c| | |] eqn:Ec; try discriminate Hps. cbn [outcome_bind] in Hps.
  destruct (try_map cid_of_string ps) as [cs| | |] eqn:Ecs; try discriminate Hps. injection Hps as <-.
  destruct (IH cs eq_refl) as (us & Hus & Hf); [intros d Hd; apply Hall; by right|].
  destruct (Hall c (list_elem_of_here _ _)) as (u & jwt & Ht & Hu & Hp). exists (u :: us). split; [|constructor; [by exists jwt|done]].
  cbn [tap_map]. eapply taps_weaken; [eapply taps_bind; [|eapply taps_bind; [exact Hus|apply taps_lift]]|].
  - unfold tap_load_proof. rewrite Ec. apply taps_lift_bind. eapply taps_bind; [exact (taps_require_token _ _ _ Ht Hu)|].
    rewrite Hp. apply taps_lift.
  - intros s' ((Ht' & _) & Hus' & _). constructor; [by exists jwt|done].
Qed.

Lemma ucan_at_token s s' c jwt ucan u : token_at s c jwt -> ucan_from_str jwt = Ok ucan -> ucan_at s' c u -> u = ucan /\ token_at s' c jwt.
Proof.
  intros [[_ Hc] Hr] Hp (jwt' & [[Hg' Hc'] Hr'] & Hu' & Hp').
  assert (as_bytes jwt' = as_bytes jwt) as E%as_bytes_inj by (apply (derive_cid_inj (Cid := Cid) (cid_codec c)); transitivity c; [by symmetry|done]).
  subst jwt'. split; [congruence|done].
Qed.

Lemma taps_collect s remaining l us fuel : records_at s remaining l -> Forall2 (ucan_at s) remaining us -> length l <= fuel ->
  taps (tap_collect_proofs fuel s us) tt (fun s' => Forall2 (ucan_at s') remaining us -> records_at s' remaining l).
Proof.
  intros Hr. revert us fuel. induction Hr as [|rest c jwt ucan cids l Ht Hu Hp Hps Hr IH]; intros us fuel Hus Hf.
  { apply Forall2_nil_inv_l in Hus as ->. eapply taps_weaken; [|intros s' _ _; constructor]. destruct fuel; apply taps_lift. }
  destruct fuel as [|fuel]; cbn in Hf; [lia|]. apply Forall2_app_inv_l in Hus as (us1 & us2 & Hus1 & Hus2 & ->).
  apply Forall2_cons_inv_l in Hus2 as (u & us3 & Hua & Hnil & ->). apply Forall2_nil_inv_l in Hnil as ->.
  destruct (ucan_at_token _ _ _ _ _ _ Ht Hp Hua) as [-> _]. cbn [tap_collect_proofs]. rewrite vec_pop_snoc.
  destruct (taps_load_proofs s (default [] (proofs ucan)) cids Hps) as (us' & Htap & Hus').
  { intros d Hd. eapply records_ucan; [exact Hr|]. apply elem_of_app. by right. }
  eapply taps_weaken; [eapply taps_bind; [exact Htap|exact (IH (us1 ++ us') fuel (Forall2_app Hus1 Hus') ltac:(lia))]|].
  intros s' [Hus2 Hrec] Hall. apply Forall2_app_inv in Hall as [Hall1 Hall2]; [|exact (Forall2_length _ _ _ Hus1)].
  apply Forall2_cons_1 in Hall2 as [Hc' _]. destruct (ucan_at_token _ _ _ _ _ _ Ht Hp Hc') as [_ Ht'].
  econstructor; [exact Ht'|done|done|done|]. by apply Hrec, Forall2_app.
Qed.
End tokens.
End taps.

(** ** Maps *)
Section map_taps.
Context {K V Cid S : Type}.
Context `{Countable K} `{EqDecision V} `{KeyOrderLaws K} `{HashAlgorithmLaws K}.
Context `{CidLaws Cid} `{EqDecision Cid} `{!BlockStore S Cid} `{!BlockStoreLaws S Cid}.
Context `{!BlockCodec (wire_node K V Cid)} `{!BlockCodecLaws Cid (wire_node K V Cid)} `{!BlockCodec (VersionedMapIpld Cid)} `{!BlockCodecLaws Cid (VersionedMapIpld Cid)}.
Context `{!BlockCodec (ChangelogIpld (MapOperation K V))} `{!BlockCodecLaws Cid (ChangelogIpld (MapOperation K V))}.
Notation node := (node K V Cid).
Notation pointer := (pointer K V Cid).
Notation w := DEFAULT_BIT_WIDTH.
Implicit Types (s : S) (c : Cid) (m : gmap K V) (p : pointer) (n : node).

(** A pointer of a node that was read from a block. *)
Definition clean p : Prop := match p with Values _ => True | Link _ None => True | _ => False end.

Lemma deserialize_clean (wn : wire_node K V Cid) n : node_deserialize wn = Ok n -> Forall clean (node_pointers n).
Proof.
  unfold node_deserialize. destruct (bitfield_deserialize _); cbn; try done. intros [= <-]. cbn. apply Forall_fmap, Forall_true.
  by intros [].
Qed.

(** What [p] represents over [s], it represents over [s']. *)
Definition transfers s s' p : Prop :=
  forall r d m, pointer_rep (node_rep w r s d) s p m -> pointer_rep (node_rep w r s' d) s' p m.

Lemma node_transfers s s' n r d m : Forall (transfers s s') (node_pointers n) -> node_rep w r s d n m -> node_rep w r s' d n m.
Proof.
  intros Hall. destruct r as [|r]; [done|]. intros (Hb & Hl & Hi). split; [done|]. split; [done|]. intros i Hlt.
  specialize (Hi i Hlt). destruct (mem _ i); [|done]. destruct Hi as (p & Hp & Hr). exists p. split; [done|].
  rewrite Forall_forall in Hall. apply Hall; [by eapply list_elem_of_lookup_2|done].
Qed.

Context (callback : K -> V -> tapped Cid unit) (R : V -> S -> Prop).

Lemma taps_load_node s c (wn : wire_node K V Cid) n : stored s c wn -> node_deserialize wn = Ok n ->
  taps (tap_load_node s c) n (fun s' => stored s' c wn).
Proof.
  intros Hs Hd. unfold tap_load_node. eapply taps_weaken; [eapply taps_bind; [exact (taps_load _ _ _ Hs)|]|].
  - rewrite Hd. apply taps_lift.
  - by intros s' [? _].
Qed.

Lemma taps_into_stream fuel s (ps : list pointer) rms :
  sum_list (pops <$> rms) <= fuel -> Forall2 (item_rep w s) ps rms -> Forall clean ps ->
  (forall k v, (k, v) ∈ mjoin ((fun rm => map_to_list rm.2) <$> rms) -> taps (callback k v) tt (R v)) ->
  taps (tap_into_stream callback fuel s ps) tt (fun s' => Forall (transfers s s') ps /\
    forall k v, (k, v) ∈ mjoin ((fun rm => map_to_list rm.2) <$> rms) -> R v s').
Proof.
  revert ps rms. induction fuel as [|fuel IH]; intros ps rms Hf HF Hcl Hcb;
    (destruct ps as [|p ps _] using rev_ind;
      [apply Forall2_nil_inv_l in HF as ->; eapply taps_weaken; [apply taps_lift|]; intros s' _; split; [constructor|];
       intros k v Hkv; by apply elem_of_nil in Hkv|]);
    apply Forall2_app_inv_l in HF as (rms1 & rms2 & HF & Hp & ->);
    apply Forall2_cons_inv_l in Hp as ([[r d] m] & rms3 & Hp & Hnil & ->);
    apply Forall2_nil_inv_l in Hnil as ->;
    rewrite fmap_app, sum_list_with_app in Hf; cbn in Hf; [lia|].
  apply Forall_app in Hcl as [Hcl Hclp]. apply Forall_cons_1 in Hclp as [Hclp _].
  cbn [tap_into_stream]. rewrite vec_pop_app, entries_snoc in *.
  assert (mjoin ((fun rm : nat * nat * gmap K V => map_to_list rm.2) <$> [(r, d, m)]) = map_to_list m) as Em by (cbn; by rewrite app_nil_r).
  rewrite Em in Hcb |- *. destruct p as [vals|c [n|]|n]; [|done| |done].
  - destruct Hp as (Hne & Hlen & Hv). eapply taps_weaken; [eapply taps_bind; [apply (taps_each _ (fun kv => R kv.2))|apply (IH ps rms1 ltac:(lia) HF Hcl)]|].
    + intros [k v] Hkv. apply (Hcb k v), elem_of_app. right. by rewrite (vals_rep_perm _ _ Hv).
    + intros k v Hkv. apply (Hcb k v), elem_of_app. by left.
    + intros s' [Hvals [Htr Hrest]]. split.
      * apply Forall_app. split; [done|]. constructor; [|constructor]. intros r' d' m'. done.
      * intros k v [Hkv|Hkv]%elem_of_app; [by apply (Hrest k)|]. rewrite (vals_rep_perm _ _ Hv) in Hkv. exact (Hvals _ Hkv).
  - destruct Hp as (Hsz & (wn & n & Hst & Hser & Hde & Hn) & _). cbn [fst snd] in *.
    destruct (into_stream_children w eq_refl ltac:(done) _ _ _ _ _ Hn) as (rms & HF' & Hperm & Hpops).
    pose proof (deserialize_clean _ _ Hde) as Hcln.
    eapply taps_weaken; [eapply taps_bind; [exact (taps_load_node _ _ _ _ Hst Hde)|apply (IH (ps ++ node_pointers n) (rms1 ++ rms))]|].
    + rewrite fmap_app, sum_list_with_app. lia.
    + by apply Forall2_app.
    + by apply Forall_app.
    + intros k v Hkv. apply (Hcb k v). rewrite entries_snoc in Hkv. by rewrite <- Hperm.
    + intros s' [Hst' [Htr Hrest]]. apply Forall_app in Htr as [Htr Htrn]. split.
      * apply Forall_app. split; [done|]. constructor; [|constructor]. intros r' d' m' (Hsz' & (wn' & n' & Hst2 & Hser2 & Hde2 & Hn2) & _).
        assert (wn' = wn) as -> by (apply stored_load in Hst, Hst2; congruence). assert (n' = n) as -> by congruence.
        split; [done|]. split; [|done]. exists wn, n. split; [done|]. split; [done|]. split; [done|]. by apply (node_transfers s).
      * intros k v Hkv. apply (Hrest k). rewrite entries_snoc. by rewrite Hperm.
Qed.

(** Visiting the entries of a version of a map delivers the version. *)
Lemma taps_elements fuel s c (p : logged K V) : part_at s c p -> levels w * size p.1 <= fuel ->
  (forall k v, p.1 !! k = Some v -> taps (callback k v) tt (R v)) ->
  taps (walk_versioned_map_elements_and fuel s c callback) tt (fun s' => part_at s' c p /\ forall k v, p.1 !! k = Some v -> R v s').
Proof.
  intros (ipld & Hi & Hl & Hh) Hf Hcb. destruct (hamt_at_root _ _ _ Hh) as (wn & root & Hst & Hd & Hn).
  destruct (into_stream_children w eq_refl ltac:(done) _ _ _ _ _ Hn) as (rms & HF & Hperm & Hpops).
  unfold walk_versioned_map_elements_and.
  eapply taps_weaken; [eapply taps_bind; [exact (taps_load _ _ _ Hi)|]; eapply taps_bind; [exact (taps_load _ _ _ Hl)|];
    eapply taps_bind; [exact (taps_load_node _ _ _ _ Hst Hd)|apply (taps_into_stream fuel s (node_pointers root) rms)]|].
  - lia.
  - exact HF.
  - exact (deserialize_clean _ _ Hd).
  - intros k v Hkv. apply Hcb. rewrite Hperm in Hkv. by apply elem_of_map_to_list in Hkv.
  - intros s' (Hi' & Hl' & Hst' & Htr & Hr). split.
    + exists ipld. split; [exact Hi'|]. split; [exact Hl'|]. apply (hamt_at_transfer s); [exact Hh|].
      exists wn, root. split; [exact Hst'|]. split; [exact Hd|]. by apply (node_transfers s).
    + intros k v Hkv. apply (Hr k). rewrite Hperm. by apply elem_of_map_to_list.
Qed.

Lemma taps_changelog s c (log : ChangelogIpld (MapOperation K V)) : log_at s c log ->
  taps (tap_load_changelog s c) log (fun s' => log_at s' c log).
Proof.
  intros (ipld & Hi & Hl). unfold tap_load_changelog.
  eapply taps_weaken; [eapply taps_bind; [exact (taps_load _ _ _ Hi)|exact (taps_load _ _ _ Hl)]|].
  intros s' [Hi' Hl']. by exists ipld.
Qed.

(** Visiting its changes delivers its changelog. *)
Lemma taps_changes s c (log : ChangelogIpld (MapOperation K V)) : log_at s c log ->
  (forall k v, Add k v ∈ log_changes log -> taps (callback k v) tt (R v)) ->
  taps (walk_versioned_map_changes_and s c callback) tt (fun s' => log_at s' c log /\ log_values (fun v => R v s') log).
Proof.
  intros Hl Hcb. unfold walk_versioned_map_changes_and.
  eapply taps_weaken; [eapply taps_bind; [exact (taps_changelog _ _ _ Hl)|
    apply (taps_each _ (fun op s' => match op with Add _ v => R v s' | Remove _ => True end))]|].
  - intros [k v|k] Hin; [by apply Hcb|apply taps_lift].
  - intros s' [Hl' Hr]. split; [done|]. intros k v Hin. exact (Hr _ Hin).
Qed.
End map_taps.

(** ** Versions of spheres *)
Section sphere_streams.
Context {Cid S : Type} `{UnicodeLaws} `{Base64} `{DagJson UcanHeader} `{DagJson UcanPayload}.
Context `{Countable Cid} `{HashAlgorithmLaws string} `{HashAlgorithmLaws Cid} `{KeyOrderLaws Cid}.
Context `{CidLaws Cid} `{!BlockStore S Cid} `{!BlockStoreLaws S Cid} `{!SphereCodecs Cid} `{!SphereCodecsLaws Cid}.
Context `{!EntryCodecs Cid} `{!EntryCodecsLaws Cid}.
Notation MemoIpld := (MemoIpld Cid).
Notation SphereMutation := (SphereMutation Cid).
Notation value := (sphere_value Cid).
Notation version := (version (Cid := Cid)).
Implicit Types (s : S) (c : Cid) (v : value) (m : SphereMutation) (x y : version) (n : nat).

(** *** Entries *)
Lemma taps_content n k s c : n <= k -> content_memo_at n s c ->
  taps (walk_memo_body (Datatypes.S k) s true c) tt (fun s' => content_memo_at n s' c).
Proof.
  intros Hk (memo & ct & bs & Hm & Hct & Hns & Hbs & Hn). cbn [walk_memo_body].
  eapply taps_weaken with (R := fun s' => stored s' c memo /\ chunks_at s' (Some (body memo)) bs);
    [|intros s' [Hm' Hbs']; exists memo, ct, bs; by split_and!].
  eapply taps_bind; [exact (taps_load _ _ _ Hm)|]. unfold content_type. fold CONTENT_TYPE. rewrite Hct. cbn [fmap option_fmap option_map].
  pose proof (taps_chunks s _ bs k Hbs ltac:(lia)) as Ht. by destruct (ContentType.from_str ct).
Qed.

(** The token under [c] is there with its proofs, [n] in all. *)
Definition chain_at n s c : Prop := exists l, records_at s [c] l /\ length l <= n.

Lemma chain_ucan n s c : chain_at n s c -> exists ucan, ucan_at s c ucan.
Proof. intros (l & Hl & _). eapply records_ucan; [exact Hl|left]. Qed.

Lemma taps_chain n k s c ucan : n <= k -> chain_at n s c -> ucan_at s c ucan ->
  taps (tap_collect_proofs k s [ucan]) tt (fun s' => ucan_at s' c ucan -> chain_at n s' c).
Proof.
  intros Hk (l & Hl & Hn) Hu. eapply taps_weaken; [apply (taps_collect s [c] l [ucan] k Hl)|].
  - by constructor.
  - lia.
  - intros s' Hr Hu'. exists l. split; [|done]. apply Hr. by constructor.
Qed.

Lemma taps_identity n k s (i : IdentityIpld Cid) : n <= k -> identity_at n s i ->
  taps (tap_identity k s i) tt (fun s' => identity_at n s' i).
Proof.
  intros Hk Hi. unfold tap_identity, tap_link_record, identity_at in *. destruct (peer_link_record i) as [c|].
  - assert (chain_at n s c) as Hc by exact Hi. destruct (chain_ucan _ _ _ Hc) as (u & jwt & Ht & Hu & Hp).
    assert (ucan_at s c u) as Hua by by exists jwt.
    destruct (taps_read_token s c jwt Ht Hu) as (bl & -> & Hs & Hr). rewrite Hp.
    eapply taps_weaken; [eapply (taps_bind _ _ (Some u)); [|exact (taps_chain n k s c u Hk Hc Hua)]|].
    + exists bl. split; [done|]. split; [done|exact Hr].
    + intros s' [Ht' Hch]. apply Hch. by exists jwt.
  - eapply taps_weaken; [apply taps_lift_bind, taps_lift|done].
Qed.

Definition delegation_chain_at n s (d : DelegationIpld Cid) : Prop := chain_at n s (delegation_jwt d).

Lemma taps_delegation n k s (d : DelegationIpld Cid) : n <= k -> delegation_chain_at n s d ->
  taps (tap_delegation k s d) tt (fun s' => delegation_chain_at n s' d).
Proof.
  intros Hk Hc. destruct (chain_ucan _ _ _ Hc) as (u & jwt & Ht & Hu & Hp). assert (ucan_at s (delegation_jwt d) u) as Hua by by exists jwt.
  unfold tap_delegation. eapply taps_weaken; [eapply taps_bind; [exact (taps_require_token _ _ _ Ht Hu)|]|].
  - rewrite Hp. apply taps_lift_bind. exact (taps_chain n k s _ u Hk Hc Hua).
  - intros s' [Ht' Hch]. apply Hch. by exists jwt.
Qed.

Lemma sphere_content_type (memo : MemoIpld) : is_sphere_memo memo -> content_type memo = Some ContentType.Sphere.
Proof. intros (ct & Hct & Hs). unfold content_type. fold CONTENT_TYPE. rewrite Hct. cbn. by rewrite Hs. Qed.

(** *** The body of a version *)

(** The entries of the maps of a value are there, with what they refer to. *)
Definition all_entries_at n s v : Prop :=
  (forall k c, (v_content v).1 !! k = Some c -> content_memo_at n s c) /\
  (forall k i, (v_identities v).1 !! k = Some i -> identity_at n s i) /\
  (forall k d, (v_delegations v).1 !! k = Some d -> delegation_chain_at n s d).

(** The number of entries to visit. *)
Definition value_size v : nat :=
  size (v_content v).1 + size (v_identities v).1 + size (v_delegations v).1 + size (v_revocations v).1.

Lemma taps_sphere_body n k s x :
  n <= k -> levels DEFAULT_BIT_WIDTH * value_size (ver_value x) <= k -> holds s x -> all_entries_at n s (ver_value x) ->
  taps (walk_sphere_body (walk_memo_body (Datatypes.S k) s true) (Datatypes.S k) s (ver_memo x) true) tt
    (fun s' => stored s' (body (ver_memo x)) (ver_ipld x) /\ body_at s' (ver_ipld x) (ver_value x) /\ all_entries_at n s' (ver_value x)).
Proof.
  intros Hk Hsz (Hm & Hb & Hc & (book & Hbk & Hi) & (auth & Hau & Hd & Hr)) (Hec & Hei & Hed). unfold value_size in Hsz.
  unfold walk_sphere_body. eapply taps_weaken.
  - eapply taps_bind; [exact (taps_load _ _ _ Hb)|]. eapply taps_bind; [exact (taps_load _ _ _ Hbk)|].
    eapply taps_bind; [exact (taps_load _ _ _ Hau)|].
    eapply taps_bind; [eapply (taps_elements _ (fun i s' => identity_at n s' i)); [exact Hi|lia|]|].
    { intros key i Hin. eapply taps_identity; [lia|by eapply Hei]. }
    eapply taps_bind; [eapply (taps_elements _ (fun c s' => content_memo_at n s' c)); [exact Hc|lia|]|].
    { intros key c Hin. eapply taps_content; [lia|by eapply Hec]. }
    eapply taps_bind; [eapply (taps_elements _ (fun d s' => delegation_chain_at n s' d)); [exact Hd|lia|]|].
    { intros key d Hin. eapply taps_delegation; [lia|by eapply Hed]. }
    eapply (taps_elements _ (fun _ _ => True)); [exact Hr|lia|]. intros key r _. apply taps_lift.
  - intros s' (Hb' & Hbk' & Hau' & (Hi' & Hei') & (Hc' & Hec') & (Hd' & Hed') & (Hr' & _)). split; [exact Hb'|]. split.
    + split; [exact Hc'|]. split; [exists book; by split|]. exists auth. by split.
    + split; [exact Hec'|]. split; [exact Hei'|exact Hed'].
Qed.

(** The stream of the body of a version delivers it, with its contents, to any
    store. *)
Lemma taps_body_stream n k s x :
  n <= k -> levels DEFAULT_BIT_WIDTH * value_size (ver_value x) <= k -> holds s x -> is_sphere_memo (ver_memo x) ->
  all_entries_at n s (ver_value x) ->
  taps (memo_body_stream (2 + k) s (ver_cid x) true) tt (fun s' => holds s' x /\ all_entries_at n s' (ver_value x)).
Proof.
  intros Hk Hsz Hx Hsp He. unfold memo_body_stream. cbn [Nat.add walk_memo_body].
  eapply taps_weaken; [eapply taps_bind; [exact (taps_load _ _ _ (proj1 Hx))|]|].
  - rewrite (sphere_content_type _ Hsp). exact (taps_sphere_body n k s x Hk Hsz Hx He).
  - intros s' (Hm & Hb & Hv & He'). split; [|exact He']. split; [exact Hm|]. split; [exact Hb|exact Hv].
Qed.

(** *** The history of a version *)

(** What the stream carries of an entry of content: the memo and its body, or the
    memo alone. *)
Definition link_at (include_content : bool) n s c : Prop :=
  if include_content then content_memo_at n s c else exists memo : MemoIpld, stored s c memo.

Lemma taps_load_from s c (memo : MemoIpld) : stored s c memo -> taps (tap_load_from s c) memo (fun s' => stored s' c memo).
Proof.
  intros Hm. unfold tap_load_from. assert (cid_codec c = DAG_CBOR) as -> by (destruct Hm as (b & _ & -> & _); apply cid_codec_new).
  rewrite N.eqb_refl. exact (taps_load _ _ _ Hm).
Qed.

Section changes.
Context (include_content : bool).

(** What the tasks for one version deliver. *)
Definition content_delivered n s y : Prop :=
  log_at s (content (ver_ipld y)) (v_content (ver_value y)).2 /\ log_values (link_at include_content n s) (v_content (ver_value y)).2.

Definition book_delivered n s y : Prop :=
  exists book, stored s (address_book (ver_ipld y)) book /\ log_at s (identities book) (v_identities (ver_value y)).2 /\
    log_values (identity_at n s) (v_identities (ver_value y)).2.

Definition authority_delivered n s y : Prop :=
  exists auth, stored s (authority (ver_ipld y)) auth /\ log_at s (delegations auth) (v_delegations (ver_value y)).2 /\
    log_at s (revocations auth) (v_revocations (ver_value y)).2 /\
    log_values (delegation_chain_at n s) (v_delegations (ver_value y)).2.

Definition changes_delivered n s y : Prop :=
  stored s (body (ver_memo y)) (ver_ipld y) /\ content_delivered n s y /\ book_delivered n s y /\ authority_delivered n s y.

(** The values that the changelogs of a version add are there. *)
Definition added_at n s v : Prop :=
  log_values (link_at include_content n s) (v_content v).2 /\ log_values (identity_at n s) (v_identities v).2 /\
  log_values (delegation_chain_at n s) (v_delegations v).2.

Lemma taps_authority_task n k s y : n <= k -> holds s y -> added_at n s (ver_value y) ->
  taps (authority_task k s (authority (ver_ipld y))) tt (fun s' => authority_delivered n s' y).
Proof.
  intros Hk (_ & _ & _ & _ & (auth & Hau & Hd & Hr)) (_ & _ & Hed). unfold authority_task.
  eapply taps_weaken; [eapply taps_bind; [exact (taps_load _ _ _ Hau)|]; eapply taps_bind;
    [eapply (taps_changes _ (fun d s' => delegation_chain_at n s' d)); [exact (part_log_at _ _ _ Hd)|]|
     eapply taps_bind; [exact (taps_changelog _ _ _ (part_log_at _ _ _ Hr))|apply taps_lift]]|].
  - intros key d Hin. eapply taps_delegation; [done|by eapply Hed].
  - intros s' (Hau' & (Hd' & Hed') & Hr' & _). exists auth. split; [exact Hau'|]. split; [exact Hd'|]. split; [exact Hr'|exact Hed'].
Qed.

Lemma taps_content_task n k s y : n <= k -> holds s y -> added_at n s (ver_value y) ->
  taps (content_task (Datatypes.S k) s include_content (content (ver_ipld y))) tt (fun s' => content_delivered n s' y).
Proof.
  intros Hk (_ & _ & Hc & _) (Hec & _). unfold content_task.
  eapply (taps_changes _ (fun c s' => link_at include_content n s' c)); [exact (part_log_at _ _ _ Hc)|].
  intros key c Hin. specialize (Hec key c Hin). destruct include_content; [by eapply taps_content|]. destruct Hec as [memo Hm].
  eapply taps_weaken; [eapply taps_bind; [exact (taps_load_from _ _ _ Hm)|apply taps_lift]|]. intros s' [Hm' _]. by exists memo.
Qed.

(** A part that two versions share is delivered for both. *)
Lemma content_shared n s0 s y z : holds s0 y -> holds s0 z -> content (ver_ipld z) = content (ver_ipld y) ->
  content_delivered n s z -> content_delivered n s y.
Proof.
  intros (_ & _ & Hy & _) (_ & _ & Hz & _) E. unfold content_delivered. rewrite E in *. by rewrite (part_at_fun s0 _ _ _ Hy Hz).
Qed.

Lemma book_shared n s0 s y z : holds s0 y -> holds s0 z -> address_book (ver_ipld z) = address_book (ver_ipld y) ->
  book_delivered n s z -> book_delivered n s y.
Proof.
  intros (_ & _ & _ & (b & Hb & Hy) & _) (_ & _ & _ & (b' & Hb' & Hz) & _) E. unfold book_delivered. rewrite E in *.
  pose proof (stored_fun _ _ _ _ _ Hb' Hb) as ->. by rewrite (part_at_fun s0 _ _ _ Hy Hz).
Qed.

Lemma authority_shared n s0 s y z : holds s0 y -> holds s0 z -> authority (ver_ipld z) = authority (ver_ipld y) ->
  authority_delivered n s z -> authority_delivered n s y.
Proof.
  intros (_ & _ & _ & _ & (a & Ha & Hd & Hr)) (_ & _ & _ & _ & (a' & Ha' & Hd' & Hr')) E. unfold authority_delivered. rewrite E in *.
  pose proof (stored_fun _ _ _ _ _ Ha' Ha) as ->. by rewrite (part_at_fun s0 _ _ _ Hd Hd'), (part_at_fun s0 _ _ _ Hr Hr').
Qed.

(** The version that the loop visited before, if any. *)
Definition previous_of (z : option version) : previous := (fun z => (body (ver_memo z), ver_ipld z)) <$> z.

Definition previous_delivered n s (z : option version) : Prop :=
  match z with Some z => changes_delivered n s z | None => True end.

(** A task that is only spawned when a part is not shared. *)
Lemma taps_spawn (b : bool) (t : tapped Cid unit) (R R' : S -> Prop) :
  (b = true -> taps t tt R) -> (b = false -> forall s, R' s -> R s) ->
  exists Rt, taps (tap_each (fun task => task) (if b then [t] else [])) tt Rt /\ forall s, Rt s -> R' s -> R s.
Proof.
  intros Ht Hf. destruct b.
  - exists R. split; [|done]. cbn [tap_each]. eapply taps_weaken; [eapply taps_bind; [by apply Ht|apply taps_lift]|]. by intros s [? _].
  - exists (fun _ => True). split; [apply taps_lift|]. intros s _. by apply Hf.
Qed.

Lemma taps_identities_task n k s (li : ChangelogIpld (MapOperation string (IdentityIpld Cid))) c : n <= k -> log_at s c li ->
  log_values (identity_at n s) li ->
  taps (identities_task k s c) tt (fun s' => log_at s' c li /\ log_values (identity_at n s') li).
Proof.
  intros Hk Hl Hv. unfold identities_task. eapply (taps_changes _ (fun i s' => identity_at n s' i)); [exact Hl|].
  intros key i Hin. eapply taps_identity; [done|by eapply Hv].
Qed.

Notation run tasks := (tap_each (fun task => task) tasks).

(** The tasks of a turn, given which parts are replicated. *)
Lemma taps_turn_tasks n k s y (ra rb rc : bool) (D : S -> Prop) :
  n <= k -> holds s y -> added_at n s (ver_value y) ->
  (ra = false -> forall s', D s' -> authority_delivered n s' y) -> (rb = false -> forall s', D s' -> book_delivered n s' y) ->
  (rc = false -> forall s', D s' -> content_delivered n s' y) ->
  exists tasks Rm Rt,
    taps (let authority_tasks := if ra then [authority_task (Datatypes.S k) s (authority (ver_ipld y))] else [] in
      let! identities_tasks :=
        if rb then
          let! book := tap_load s (address_book (ver_ipld y)) in
          tap_lift (Ok [identities_task (Datatypes.S k) s (identities (book : AddressBookIpld Cid))])
        else tap_lift (Ok []) in
      let content_tasks := if rc then [content_task (Datatypes.S k) s include_content (content (ver_ipld y))] else [] in
      tap_lift (Ok (Some (body (ver_memo y), ver_ipld y), authority_tasks ++ identities_tasks ++ content_tasks)))
      (previous_of (Some y), tasks) Rm /\
    taps (run tasks) tt Rt /\
    forall s', Rm s' -> Rt s' -> D s' -> content_delivered n s' y /\ book_delivered n s' y /\ authority_delivered n s' y.
Proof.
  intros Hk Hy He Ha Hb Hc.
  destruct (taps_spawn ra (authority_task (Datatypes.S k) s (authority (ver_ipld y))) _ D
    (fun _ => taps_authority_task n (Datatypes.S k) s y ltac:(lia) Hy He) Ha) as (Ra & Hta & HRa).
  destruct (taps_spawn rc (content_task (Datatypes.S k) s include_content (content (ver_ipld y))) _ D
    (fun _ => taps_content_task n k s y Hk Hy He) Hc) as (Rc & Htc & HRc).
  assert (exists tb Rm Rb, taps (if rb then
          let! book := tap_load s (address_book (ver_ipld y)) in
          tap_lift (Ok [identities_task (Datatypes.S k) s (identities (book : AddressBookIpld Cid))])
        else tap_lift (Ok [])) tb Rm /\ taps (run tb) tt Rb /\ forall s', Rm s' -> Rb s' -> D s' -> book_delivered n s' y)
    as (tb & Rm & Rb & Hmb & Htb & HRb).
  { destruct rb.
    - destruct Hy as (_ & _ & _ & (book & Hbk & Hi) & _). destruct He as (_ & Hei & _). eexists _, _, _. split; [|split].
      + eapply taps_bind; [exact (taps_load _ _ _ Hbk)|apply taps_lift].
      + cbn [tap_each]. eapply taps_bind; [|apply taps_lift].
        exact (taps_identities_task n (Datatypes.S k) s _ _ ltac:(lia) (part_log_at _ _ _ Hi) Hei).
      + intros s' [Hbk' _] [[Hl Hv] _] _. exists book. by split.
    - exists [], (fun _ => True), (fun _ => True). split; [apply taps_lift|]. split; [apply taps_lift|]. intros s' _ _. by apply Hb. }
  eexists _, _, _. cbv zeta. split; [eapply taps_bind; [exact Hmb|apply taps_lift]|].
  split; [eapply taps_each_app; [exact Hta|eapply taps_each_app; [exact Htb|exact Htc]]|].
  intros s' [HRm _] (HA & HB & HC) HD. split; [by apply HRc|]. split; [by apply HRb|by apply HRa].
Qed.

Lemma negb_decide_false (P : Prop) `{!Decision P} : negb (bool_decide P) = false -> P.
Proof. intros E. by apply negb_false_iff, bool_decide_eq_true in E. Qed.

Lemma taps_turn n k s y z : n <= k -> holds s y -> added_at n s (ver_value y) -> (forall z', z = Some z' -> holds s z') ->
  exists tasks Rm Rt,
    taps (history_turn (Datatypes.S k) s include_content (ver_memo y) (previous_of z)) (previous_of (Some y), tasks) Rm /\ taps (run tasks) tt Rt /\
    forall s', Rm s' -> Rt s' -> previous_delivered n s' z -> changes_delivered n s' y.
Proof.
  intros Hk Hy He Hz. unfold history_turn. case_bool_decide as Eb.
  { destruct z as [z|]; [|done]. injection Eb as Eb. specialize (Hz z eq_refl).
    assert (ver_ipld z = ver_ipld y) as Ei.
    { destruct Hy as (_ & Hy & _), Hz as (_ & Hz & _). rewrite Eb in Hz. exact (stored_fun _ _ _ _ _ Hz Hy). }
    exists [], (fun _ => True), (fun _ => True). split; [|split; [apply taps_lift|]].
    - unfold previous_of. cbn [fmap option_fmap option_map]. rewrite Eb, Ei. apply taps_lift.
    - intros s' _ _ (Hb & Hc & Hbk & Ha). unfold changes_delivered. rewrite <- Eb, <- Ei. split; [done|].
      split; [|split]; [eapply content_shared|eapply book_shared|eapply authority_shared]; try eassumption; by rewrite Ei. }
  assert (forall ra rb rc, (ra = false -> forall s', previous_delivered n s' z -> authority_delivered n s' y) ->
    (rb = false -> forall s', previous_delivered n s' z -> book_delivered n s' y) ->
    (rc = false -> forall s', previous_delivered n s' z -> content_delivered n s' y) -> _) as Hparts
    by (intros ra rb rc; exact (taps_turn_tasks n k s y ra rb rc (fun s' => previous_delivered n s' z) Hk Hy He)).
  pose proof (proj1 (proj2 Hy)) as Hb. destruct z as [z|]; cbn [previous_of fmap option_fmap option_map].
  - specialize (Hz z eq_refl).
    destruct (Hparts (negb (bool_decide (authority (ver_ipld z) = authority (ver_ipld y))))
      (negb (bool_decide (address_book (ver_ipld z) = address_book (ver_ipld y))))
      (negb (bool_decide (content (ver_ipld z) = content (ver_ipld y))))) as (tasks & Rm & Rt & Hm & Ht & HR).
    + intros E%negb_decide_false s' (_ & _ & _ & Hd). by eapply authority_shared.
    + intros E%negb_decide_false s' (_ & _ & Hd & _). by eapply book_shared.
    + intros E%negb_decide_false s' (_ & Hd & _). by eapply content_shared.
    + eexists tasks, _, Rt. split; [eapply taps_bind; [exact (taps_load _ _ _ Hb)|exact Hm]|]. split; [exact Ht|].
      intros s' [Hb' HRm] HRt HD. split; [exact Hb'|]. exact (HR s' HRm HRt HD).
  - destruct (Hparts true true true ltac:(done) ltac:(done) ltac:(done)) as (tasks & Rm & Rt & Hm & Ht & HR).
    eexists tasks, _, Rt. split; [eapply taps_bind; [exact (taps_load _ _ _ Hb)|exact Hm]|]. split; [exact Ht|].
    intros s' [Hb' HRm] HRt HD. split; [exact Hb'|]. exact (HR s' HRm HRt HD).
Qed.

(** Everything that the versions of [l] changed was delivered. *)
Definition history_delivered n s (l : list (SphereMutation * version)) : Prop :=
  memos_at s l /\ forall m y, (m, y) ∈ l -> changes_delivered n s y.

Lemma history_delivered_snoc n s l m y : history_delivered n s l -> stored s (ver_cid y) (ver_memo y) -> changes_delivered n s y ->
  history_delivered n s (l ++ [(m, y)]).
Proof.
  intros [Hm Hc] Hy Hd. split; intros m' y' [Hin|[= -> ->]%list_elem_of_singleton]%elem_of_app; [by eapply Hm|done|by eapply Hc|done].
Qed.

Lemma serialize_memo (memo : MemoIpld) s c : stored s c memo -> exists b, block_serialize memo = Ok (c, b).
Proof. intros (b & Hb & -> & _). exists b. unfold block_serialize. by rewrite Hb. Qed.

Lemma tip_in x (l : list (SphereMutation * version)) : l <> [] -> ver_cid (tip x l) ∈ cids l.
Proof.
  destruct l as [|[m y] l _] using rev_ind; [done|]. intros _. rewrite tip_app. unfold cids. rewrite fmap_app. apply elem_of_app. right. left.
Qed.

Lemma taps_history_loop A n k s x l : n <= k -> lineage A s x l -> ver_cid x ∉ cids l ->
  Forall (fun my => added_at n s (ver_value my.2)) l ->
  forall fuel z tasks0, length l <= fuel -> (forall z', z = Some z' -> holds s z') ->
  exists tasks Rm Rt,
    taps (history_loop fuel (Datatypes.S k) s include_content (match l with [] => None | _ => Some (ver_cid (tip x l)) end) (Some (ver_cid x))
      (previous_of z) tasks0) (tasks0 ++ tasks) Rm /\ taps (run tasks) tt Rt /\
    forall s', Rm s' -> Rt s' -> previous_delivered n s' z -> history_delivered n s' l.
Proof.
  intros Hk. induction l as [|[m y] l IH] using rev_ind; intros Hl Hx He fuel z tasks0 Hf Hz.
  { exists [], (fun _ => True), (fun _ => True). rewrite app_nil_r. split; [destruct fuel; apply taps_lift|]. split; [apply taps_lift|].
    intros s' _ _ _. split; intros m y Hin; by apply elem_of_nil in Hin. }
  apply Forall_app in He as [He Hey]. apply Forall_cons_1 in Hey as [Hey _].
  unfold cids in Hx. rewrite fmap_app in Hx. apply not_elem_of_app in Hx as [Hx Hxy]. cbn in Hxy. rewrite list_elem_of_singleton in Hxy.
  apply lineage_snoc in Hl as [Hl Hs]. pose proof Hs as (Hy & Hp & _). rewrite length_app in Hf. cbn [length] in Hf.
  destruct fuel as [|fuel]; [lia|]. rewrite tip_app. cbn [tip].
  assert (match l ++ [(m, y)] with [] => None | _ => Some (ver_cid y) end = Some (ver_cid y)) as -> by by destruct l.
  destruct (taps_turn n k s y z Hk Hy Hey Hz) as (t1 & Rm1 & Rt1 & Hm1 & Ht1 & HR1).
  destruct (IH Hl Hx He fuel (Some y) (tasks0 ++ t1) ltac:(lia)) as (t2 & Rm2 & Rt2 & Hm2 & Ht2 & HR2).
  { intros z' [= <-]. done. }
  assert ((if bool_decide (Some (ver_cid x) = parent (ver_memo y)) then None else parent (ver_memo y)) =
    match l with [] => None | _ => Some (ver_cid (tip x l)) end) as Hnext.
  { rewrite Hp. destruct l as [|my l']; [by rewrite bool_decide_true|]. rewrite bool_decide_false; [done|].
    intros [= E]. apply Hx. rewrite E. by apply (tip_in x (my :: l')). }
  destruct (serialize_memo (ver_memo y) s (ver_cid y) (proj1 Hy)) as [b Eb].
  exists (t1 ++ t2). eexists _, _. split; [|split; [eapply taps_each_app; [exact Ht1|exact Ht2]|]].
  - cbn [history_loop]. eapply taps_bind; [exact (taps_load _ _ _ (proj1 Hy))|]. rewrite bool_decide_false by congruence.
    rewrite Eb. apply taps_lift_bind. eapply taps_bind; [exact Hm1|]. cbn beta iota zeta. rewrite Hnext, app_assoc. exact Hm2.
  - intros s' (Hmy & HRm1 & HRm2) [HRt1 HRt2] HD. pose proof (HR1 s' HRm1 HRt1 HD) as Hdy.
    apply history_delivered_snoc; [|exact Hmy|exact Hdy]. by apply HR2.
Qed.

(** The stream of the history from [x] delivers its changes. *)
Lemma taps_history_stream A n k s x l fuel : n <= k -> lineage A s x l -> l <> [] -> ver_cid x ∉ cids l -> length l <= fuel ->
  is_sphere_memo (ver_memo (tip x l)) -> Forall (fun my => added_at n s (ver_value my.2)) l ->
  taps (memo_history_stream fuel (Datatypes.S k) s (ver_cid (tip x l)) (Some (ver_cid x)) include_content) tt (fun s' => history_delivered n s' l).
Proof.
  intros Hk Hl Hne Hx Hf Hsp He. pose proof (lineage_tip _ _ _ _ Hl) as (Hm & Hb & _).
  destruct (serialize_memo _ _ _ Hm) as [b Eb].
  destruct (taps_history_loop A n k s x l Hk Hl Hx He fuel None [] Hf) as (tasks & Rm & Rt & Hloop & Hrun & HR); [done|].
  assert (match l with [] => None | _ => Some (ver_cid (tip x l)) end = Some (ver_cid (tip x l))) as E by by destruct l.
  rewrite E in Hloop. unfold memo_history_stream.
  eapply taps_weaken; [eapply taps_bind; [exact (taps_load _ _ _ Hm)|]|].
  - rewrite (sphere_content_type _ Hsp), Eb. apply taps_lift_bind. eapply taps_bind; [exact (taps_load _ _ _ Hb)|].
    eapply taps_bind; [exact Hloop|exact Hrun].
  - intros s' (_ & _ & HRm & HRt). by apply HR.
Qed.

(** *** What was delivered is enough to replay the history *)
Lemma history_deltas n s0 s A x l : lineage A s0 x l -> history_delivered n s l -> deltas_at s x l.
Proof.
  induction 1 as [|x m y l Hx Hs _ IH]; intros [Hm Hc]; [done|].
  destruct (Hc m y (list_elem_of_here _ _)) as (Hb & (Hlc & _) & (book & Hbk & Hli & _) & (auth & Hau & Hld & Hlr & _)).
  split; [|apply IH; split; intros m' y' Hin; [by apply (Hm m'); right|by apply (Hc m'); right]].
  split; [exact (Hm m y (list_elem_of_here _ _))|]. split; [exact Hb|]. split; [done|]. split.
  - intros _. exists book. by split.
  - intros _. exists auth. by split.
Qed.
End changes.

Lemma delegation_chain_delegation n s (d : DelegationIpld Cid) : delegation_chain_at n s d -> delegation_at s d.
Proof. intros Hc. destruct (chain_ucan _ _ _ Hc) as (u & jwt & Ht & _). by exists jwt. Qed.

Lemma history_lineage_delivered n s0 s A x l : lineage A s0 x l -> history_delivered true n s l -> lineage_delivered n s x l.
Proof.
  intros Hl Hd. pose proof (history_deltas true n s0 s A x l Hl Hd) as Hdel. destruct Hd as [_ Hc]. revert Hdel Hc.
  induction Hl as [|x m y l Hx Hs _ IH]; intros Hdel Hc; [done|]. destruct Hdel as [Hy Hdel].
  destruct (Hc m y (list_elem_of_here _ _)) as (_ & (_ & Hvc) & (book & _ & _ & Hvi) & (auth & _ & _ & _ & Hvd)).
  split; [split; [exact Hy|]|].
  - split; [done|]. split; [done|]. intros _ key d Hin. eapply delegation_chain_delegation. by eapply Hvd.
  - apply IH; [done|]. intros m' y' Hin. by apply (Hc m'); right.
Qed.

Context (P : string -> Prop) (Q : Cid -> Prop) (HP : collision_free P) (HQ : collision_free Q).

(** A store that holds [x] and what the stream from [x] carries replays it. *)
Lemma delivered_lineage include_content A n s0 s x l :
  lineage A s0 x l -> history_delivered include_content n s l -> holds s x ->
  value_in P Q (ver_value x) -> Forall (fun my => mutation_in P Q my.1) l ->
  (lamport_order (ver_memo x) + N.of_nat (length l) < 2 ^ 32)%N ->
  exists s', hydrate_all (cids l) s = (Ok tt, s') /\ store_le s s' /\ lineage A s' x l.
Proof.
  intros Hl Hd Hs Hv Hm Hlam. apply (hydrate_all_sparse P Q HP HQ A s0); try done. by eapply history_deltas.
Qed.

Lemma is_sphere_tip A s x l : lineage A s x l -> is_sphere_memo (ver_memo x) -> is_sphere_memo (ver_memo (tip x l)).
Proof. induction 1 as [|x m y l Hx Hs _ IH]; intros Hsp; [done|]. apply IH. by eapply is_sphere_succeeds. Qed.

Lemma stream_lineage A n k s0 s x l fuel :
  lineage A s0 x l -> l <> [] -> ver_cid x ∉ cids l -> length l <= fuel -> n <= k ->
  is_sphere_memo (ver_memo x) -> Forall (fun my => added_at true n s0 (ver_value my.2)) l ->
  value_in P Q (ver_value x) -> Forall (fun my => mutation_in P Q my.1) l ->
  (lamport_order (ver_memo x) + N.of_nat (length l) < 2 ^ 32)%N -> holds s x ->
  exists blocks, memo_history_stream fuel (Datatypes.S k) s0 (ver_cid (tip x l)) (Some (ver_cid x)) true = (blocks, Ok tt) /\
    forall blocks', blocks' ≡ₚ blocks ->
    exists s1 s2, put_block_stream s (blocks', Ok tt) = (Ok tt, s1) /\
      hydrate_timeslice fuel (exclude_past (slice (ver_cid (tip x l)) (Some (ver_cid x)))) s1 = (Ok tt, s2) /\
      store_le s s2 /\ lineage A s2 x l /\
      forall slug link, (v_content (ver_value (tip x l))).1 !! slug = Some link ->
        (v_content (ver_value x)).1 !! slug = Some link \/ content_memo_at n s2 link.
Proof.
  intros Hl Hne Hx Hlen Hk Hsp He Hv Hm Hlam Hs. pose proof (is_sphere_tip _ _ _ _ Hl Hsp) as Hspt.
  destruct (taps_history_stream true A n k s0 x l fuel Hk Hl Hne Hx Hlen Hspt He) as (blocks & E & Hsound & Hd). exists blocks. split; [done|].
  intros blocks' Hperm. destruct (put_block_stream_spec s blocks' (Ok tt)) as (s1 & E1 & Hle1 & Hall); [by rewrite Hperm|].
  assert (history_delivered true n s1 l) as Hdel by (apply Hd; intros c b Hin; apply Hall; by rewrite Hperm).
  pose proof (history_lineage_delivered n s0 s1 A x l Hl Hdel) as Hld.
  destruct (delivered_lineage true A n s0 s1 x l Hl Hdel (holds_mono _ _ _ Hle1 Hs) Hv Hm Hlam) as (s2 & E2 & Hle2 & Hlin).
  exists s1, s2. split; [exact E1|]. split; [|split; [by transitivity s1|split; [exact Hlin|]]].
  - unfold hydrate_timeslice. rewrite (lineage_chronological_at A s0 s1 x l _ Hl (proj1 Hdel) Hx Hne Hlen). exact E2.
  - intros slug link Hk'. destruct (lineage_content A n s0 s1 x l Hl Hld slug link Hk') as [?|Hc]; [by left|right].
    by eapply content_memo_mono.
Qed.
End sphere_streams.

(** ** The ledger *)
Section ledger_facts.
Context {Cid : Type} `{Countable Cid} `{CidOps Cid}.
Implicit Types (ledger : BlockLedger (Cid := Cid)) (blocks : list (Cid * bytes)).

(** The links in a block, under the codecs that have links. *)
Definition block_links (cb : Cid * bytes) : list Cid :=
  if (cid_codec cb.1 =? DAG_CBOR)%N || (cid_codec cb.1 =? RAW)%N then
    match references (cid_codec cb.1) cb.2 with Ok links => links | _ => [] end
  else [].

(** The links of the block can be read. *)
Definition readable (cb : Cid * bytes) : Prop :=
  cid_codec cb.1 = DAG_CBOR \/ cid_codec cb.1 = RAW -> exists links : list Cid, references (cid_codec cb.1) cb.2 = Ok links.

Lemma record_blocks_spec blocks ledger : Forall readable blocks ->
  exists ledger', record_blocks ledger blocks = (blocks, Ok tt, ledger') /\
    (forall c, c ∈ ledger_blocks ledger' <-> c ∈ ledger_blocks ledger \/ c ∈ blocks.*1) /\
    (forall c, c ∈ ledger_references ledger' <-> c ∈ ledger_references ledger \/ exists cb, cb ∈ blocks /\ c ∈ block_links cb).
Proof.
  intros Hr. revert ledger. induction Hr as [|[c b] blocks Hcb _ IH]; intros ledger.
  { exists ledger. split; [done|]. split; intros c; [set_solver|]. split; [by left|]. intros [?|(cb & ?%elem_of_nil & _)]; done. }
  assert (exists ledger1, ledger_record ledger c b = (Ok tt, ledger1) /\ ledger_blocks ledger1 = {[c]} ∪ ledger_blocks ledger /\
    ledger_references ledger1 = ledger_references ledger ∪ list_to_set (block_links (c, b))) as (ledger1 & E1 & Hb1 & Hr1).
  { unfold ledger_record, block_links. unfold readable in Hcb. cbn [fst snd] in *.
    destruct ((cid_codec c =? DAG_CBOR)%N || (cid_codec c =? RAW)%N) eqn:Ec.
    - destruct Hcb as [links Hl].
      { apply orb_true_iff in Ec as [E|E]; apply N.eqb_eq in E; auto. }
      rewrite Hl. cbn [try_with]. eexists. split; [done|]. by cbn.
    - eexists. split; [done|]. cbn. split; [done|set_solver]. }
  destruct (IH ledger1) as (ledger' & E & Hb & Hrf). exists ledger'. cbn [record_blocks]. rewrite E1, E. split; [done|]. split.
  - intros d. rewrite Hb, Hb1. set_solver.
  - intros d. rewrite Hrf, Hr1, elem_of_union, elem_of_list_to_set. split.
    + intros [[?|?]|(cb & Hin & Hd)]; [by left|right; exists (c, b); set_solver|right; exists cb; set_solver].
    + intros [?|(cb & [->|Hin]%elem_of_cons & Hd)]; [by left; left|by left; right|by right; exists cb].
Qed.
End ledger_facts.
