(* ===== verification/SphereContext.v ===== *)
(** * Sphere contexts

    Model of [noosphere-core/src/context]: the [SphereContext] through which a
    sphere is read and written (context.rs), the containers of a context and
    [save] (has.rs), cursors (cursor.rs), and the blanket implementations for
    content, petnames, authority and replication.

    A container is threaded through each operation: what an operation changes
    behind a lock or in a cell is in the container it returns.  The clones of a
    database share one storage, which is the database of the container.  The
    gateway is the parameter [GatewayApi]; what changes a gateway is in [Sync].

    [fuel] bounds the chains of proofs, [walk_fuel] the tokens of a chain and the
    pops of the streams over maps, [body_fuel] the chunks of a body; [clock] is
    the time. *)
From stdpp Require Import base gmap list numbers strings pretty.
From Stdlib Require Import Ascii String.
From S2P Require Import Prelude BlockStore HamtNode HamtRep Hamt BTree SphereDb BodyChunk VersionedMap.
From S2P Require Import UcanCapability Ucan UcanChain Authority Memo Sphere SphereHistory Bundle.
#[local] Open Scope list_scope.
#[local] Notation length := List.length (only parsing).

(** ** The gateway, as its clients see it (api/client.rs) *)
Record Author (Key Cid : Type) := mkAuthor { author_key : Key; author_authorization : option (Authorization Cid) }.
Arguments mkAuthor {Key Cid} _ _.
Arguments author_key {Key Cid} _.
Arguments author_authorization {Key Cid} _.

(** What a client keeps of [Client::identify]. *)
Record Session := mkSession { session_gateway : string; session_counterpart : string }.

Record ReplicateParameters (Cid : Type) := mkReplicate { replicate_since : option Cid; replicate_content : bool }.
Arguments mkReplicate {Cid} _ _.
Arguments replicate_since {Cid} _.
Arguments replicate_content {Cid} _.

Notation block_stream Cid := (list (Cid * bytes) * outcome unit)%type.

Class GatewayApi (Net Key Cid : Type) := {
  net_identify : Net -> string -> string -> Author Key Cid -> outcome Session;
  net_replicate : Net -> Session -> Cid -> option (ReplicateParameters Cid) -> outcome (block_stream Cid);
}.

(** The encodings of the values that a context keeps in the database. *)
Class ContextCodecs (Cid : Type) := {
  links_codec :: BlockCodec (list Cid);
  text_codec :: BlockCodec string;
  texts_codec :: BlockCodec (list string);
  byte_codec :: BlockCodec N;
}.

(** Metadata keys (metadata.rs). *)
Definition GATEWAY_URL : string := "gateway_url".
Definition COUNTERPART : string := "counterpart".

(** [signable.proofs.push], in [authorize]. *)
Definition push_proof {Key : Type} (self : Signable Key) (proof : string) : Signable Key :=
  mkSignable (s_issuer self) (s_audience self) (s_capabilities self) (s_expiration self) (s_not_before self) (s_facts self)
    (s_proofs self ++ [proof]) (s_add_nonce self).

(** A container and the version that it is mounted to (cursor.rs). *)
Record SphereCursor (C Cid : Type) := mkCursor { cursor_inner : C; cursor_version : option Cid }.
Arguments mkCursor {C Cid} _ _.
Arguments cursor_inner {C Cid} _.
Arguments cursor_version {C Cid} _.

(** A file and what the decoder of its body yields (content/file.rs). *)
Record SphereFile (Cid : Type) := mkFile {
  file_identity : string;
  file_sphere_version : Cid;
  file_memo_version : Cid;
  file_memo : MemoIpld Cid;
  file_contents : list bytes * outcome unit;
}.
Arguments mkFile {Cid} _ _ _ _ _.
Arguments file_identity {Cid} _.
Arguments file_sphere_version {Cid} _.
Arguments file_memo_version {Cid} _.
Arguments file_memo {Cid} _.
Arguments file_contents {Cid} _.

Section contexts.
Context {Key Url Cid B KV Net : Type} `{Unicode}.
Context `{KeyMaterial Key} `{Bs58} `{Base64} `{DagJson UcanHeader} `{DagJson UcanPayload} `{UrlOps Url}.
Context `{Countable Cid} `{HashAlgorithm string} `{HashAlgorithm Cid} `{KeyOrder Cid}.
Context `{CidOps Cid} `{!BlockStore B Cid} `{Store KV} `{!SphereCodecs Cid} `{!EntryCodecs Cid} `{!ContextCodecs Cid}.
Context `{FastCdc} `{!GatewayApi Net Key Cid}.
Context (supported_keys : list (bytes * (bytes -> outcome Key))).
Context (fuel walk_fuel body_fuel : nat) (clock : N) (net : Net).
Notation SphereDb := (SphereDb B KV).
Notation MemoIpld := (MemoIpld Cid).
Notation SphereMutation := (SphereMutation Cid).
Notation Author := (Author Key Cid).
#[local] Existing Instance block_ucan_store.

(** ** The context *)
Record SphereContext := mkContext {
  ctx_identity : string;
  ctx_origin : string;
  ctx_author : Author;
  ctx_access : option Access;
  ctx_db : SphereDb;
  ctx_client : option Session;
  ctx_mutation : SphereMutation;
}.
Implicit Types (ctx : SphereContext) (db : SphereDb).

Definition with_db ctx db : SphereContext :=
  mkContext (ctx_identity ctx) (ctx_origin ctx) (ctx_author ctx) (ctx_access ctx) db (ctx_client ctx) (ctx_mutation ctx).
Definition with_mutation ctx (m : SphereMutation) : SphereContext :=
  mkContext (ctx_identity ctx) (ctx_origin ctx) (ctx_author ctx) (ctx_access ctx) (ctx_db ctx) (ctx_client ctx) m.
Definition with_access ctx (a : option Access) : SphereContext :=
  mkContext (ctx_identity ctx) (ctx_origin ctx) (ctx_author ctx) a (ctx_db ctx) (ctx_client ctx) (ctx_mutation ctx).
Definition with_client ctx (c : option Session) : SphereContext :=
  mkContext (ctx_identity ctx) (ctx_origin ctx) (ctx_author ctx) (ctx_access ctx) (ctx_db ctx) c (ctx_mutation ctx).

Definition context_new (identity : string) (author : Author) db (origin : option string) : outcome SphereContext :=
  let? author_did := get_did (author_key author) in
  Ok (mkContext identity (default identity origin) author None db None (sphere_mutation_new author_did)).

Definition to_visitor ctx (peer_identity : string) : outcome SphereContext :=
  let? _ := require_version (Cid := Cid) (ctx_db ctx) peer_identity in
  context_new peer_identity (ctx_author ctx) (ctx_db ctx) (Some (ctx_origin ctx)).

Definition context_with_author ctx (author : Author) : outcome SphereContext :=
  context_new (ctx_identity ctx) author (ctx_db ctx) (Some (ctx_origin ctx)).

Definition context_version ctx : outcome Cid := require_version (ctx_db ctx) (ctx_identity ctx).

(** [access]: the cell is filled by the first success. *)
Definition context_access ctx : outcome Access * SphereContext :=
  match ctx_access ctx with
  | Some access => (Ok access, ctx)
  | None =>
      let? access := access_to (Url := Url) supported_keys fuel walk_fuel clock (ctx_db ctx)
        (author_key (ctx_author ctx)) (author_authorization (ctx_author ctx)) (ctx_identity ctx)
        (require_version (ctx_db ctx) (ctx_identity ctx)) (sphere_authority (ctx_db ctx)) keeping ctx in
      (Ok access, with_access ctx (Some access))
  end.

Definition reset_access ctx : SphereContext := with_access ctx None.

Definition configure_gateway_url ctx (url : option string) : outcome unit * SphereContext :=
  let ctx := with_client ctx None in
  let '(r, db) :=
    match url with
    | Some url => db_set_key (ctx_db ctx) GATEWAY_URL url
    | None => db_unset_key (ctx_db ctx) GATEWAY_URL
    end in
  (r, with_db ctx db).

Definition context_client ctx : outcome Session * SphereContext :=
  match ctx_client ctx with
  | Some session => (Ok session, ctx)
  | None =>
      let? gateway_url := db_require_key (ctx_db ctx) GATEWAY_URL keeping ctx in
      let? session := net_identify net (ctx_origin ctx) gateway_url (ctx_author ctx) keeping ctx in
      (Ok session, with_client ctx (Some session))
  end.

(** *** Pending changes *)
Definition update_content ctx (f : VersionedMapMutation string Cid -> VersionedMapMutation string Cid) : SphereContext :=
  let m := ctx_mutation ctx in
  with_mutation ctx (mkSphereMutation (author_did m) (f (content_mutation m)) (identities_mutation m) (delegations_mutation m)
    (revocations_mutation m)).
Definition update_identities ctx
    (f : VersionedMapMutation string (IdentityIpld Cid) -> VersionedMapMutation string (IdentityIpld Cid)) : SphereContext :=
  let m := ctx_mutation ctx in
  with_mutation ctx (mkSphereMutation (author_did m) (content_mutation m) (f (identities_mutation m)) (delegations_mutation m)
    (revocations_mutation m)).
Definition update_delegations ctx
    (f : VersionedMapMutation Cid (DelegationIpld Cid) -> VersionedMapMutation Cid (DelegationIpld Cid)) : SphereContext :=
  let m := ctx_mutation ctx in
  with_mutation ctx (mkSphereMutation (author_did m) (content_mutation m) (identities_mutation m) (f (delegations_mutation m))
    (revocations_mutation m)).
Definition update_revocations ctx
    (f : VersionedMapMutation Cid RevocationIpld -> VersionedMapMutation Cid RevocationIpld) : SphereContext :=
  let m := ctx_mutation ctx in
  with_mutation ctx (mkSphereMutation (author_did m) (content_mutation m) (identities_mutation m) (delegations_mutation m)
    (f (revocations_mutation m))).

(** ** Containers of a context (has.rs) *)
Class HasSphereContext (C : Type) := {
  sphere_context : C -> SphereContext;
  put_context : C -> SphereContext -> C;
  version : C -> outcome Cid;
  wrap : SphereContext -> C;
}.

Class HasMutableSphereContext (C : Type) := {
  has_context :: HasSphereContext C;
  context_save : bytes -> C -> option (list (string * string)) -> outcome Cid * C;
}.

Definition has_unsaved_changes {C} `{!HasSphereContext C} (c : C) : bool :=
  negb (sphere_mutation_is_empty (ctx_mutation (sphere_context c))).

(** The provided [save]; [rng] is the nonce of the proof.  A [flush] that writes
    nothing new is left out. *)
Definition default_save {C} `{!HasSphereContext C} (rng : bytes) (c : C) (additional_headers : option (list (string * string)))
    : outcome Cid * C :=
  let? sphere := version c keeping c in
  let ctx := sphere_context c in
  let '(r, db) := apply_mutation_with_cid sphere (ctx_mutation ctx) (ctx_db ctx) in
  let ctx := with_db ctx db in
  let c := put_context c ctx in
  let? revision := r keeping c in
  let? revision :=
    match additional_headers with
    | Some ((_ :: _) as headers) =>
        Ok (mkRevision (Sphere.sphere_identity revision) (replace_headers (revision_memo revision) headers))
    | _ => if sphere_mutation_is_empty (ctx_mutation ctx) then Err "No changes to save" else Ok revision
    end keeping c in
  let '(r, (_, db)) :=
    revision_sign (Url := Url) rng clock revision (author_key (ctx_author ctx)) (author_authorization (ctx_author ctx)) (ctx_db ctx) in
  let c := put_context c (with_db ctx db) in
  let? new_sphere_version := r keeping c in
  let '(r, db) := set_version db (ctx_identity ctx) new_sphere_version in
  let ctx := with_db ctx db in
  let c := put_context c ctx in
  let? _ := r keeping c in
  (Ok new_sphere_version, put_context c (with_mutation ctx (sphere_mutation_reset (ctx_mutation ctx)))).

#[export] Instance context_has_context : HasSphereContext SphereContext := {|
  sphere_context := fun ctx => ctx;
  put_context := fun _ ctx => ctx;
  version := context_version;
  wrap := fun ctx => ctx;
|}.

#[export] Instance context_has_mutable_context : HasMutableSphereContext SphereContext := {|
  has_context := context_has_context;
  context_save := default_save;
|}.

(** ** Cursors (cursor.rs) *)
Section cursors.
Context {C : Type}.

Definition cursor_to_inner (cursor : SphereCursor C Cid) : C := cursor_inner cursor.
Definition mounted_at (c : C) (sphere_version : Cid) : SphereCursor C Cid := mkCursor c (Some sphere_version).
Definition latest (c : C) : SphereCursor C Cid := mkCursor c None.
Definition mount_at (cursor : SphereCursor C Cid) (sphere_version : Cid) : SphereCursor C Cid :=
  mkCursor (cursor_inner cursor) (Some sphere_version).
Definition unmount (cursor : SphereCursor C Cid) : SphereCursor C Cid := mkCursor (cursor_inner cursor) None.

#[export] Instance cursor_has_context `{!HasSphereContext C} : HasSphereContext (SphereCursor C Cid) := {|
  sphere_context := fun cursor => sphere_context (cursor_inner cursor);
  put_context := fun cursor ctx => mkCursor (put_context (cursor_inner cursor) ctx) (cursor_version cursor);
  version := fun cursor =>
    match cursor_version cursor with
    | Some sphere_version => Ok sphere_version
    | None => version (cursor_inner cursor)
    end;
  wrap := fun ctx => latest (wrap ctx);
|}.

Definition cursor_save `{!HasMutableSphereContext C} (rng : bytes) (cursor : SphereCursor C Cid)
    (additional_headers : option (list (string * string))) : outcome Cid * SphereCursor C Cid :=
  let '(r, c) := context_save rng (cursor_inner cursor) additional_headers in
  let cursor := mkCursor c (cursor_version cursor) in
  let? new_version := r keeping cursor in
  (Ok new_version, match cursor_version cursor with Some _ => mkCursor c (Some new_version) | None => cursor end).

#[export] Instance cursor_has_mutable_context `{!HasMutableSphereContext C} : HasMutableSphereContext (SphereCursor C Cid) := {|
  has_context := cursor_has_context;
  context_save := cursor_save;
|}.

(** [mount] reads the version of the context, not that of the container. *)
Definition mount `{!HasSphereContext C} (cursor : SphereCursor C Cid) : outcome unit * SphereCursor C Cid :=
  let? sphere_version := context_version (sphere_context (cursor_inner cursor)) keeping cursor in
  (Ok tt, mount_at cursor sphere_version).

Definition mounted `{!HasSphereContext C} (c : C) : outcome (SphereCursor C Cid) :=
  let '(r, cursor) := mount (latest c) in let? _ := r in Ok cursor.

Definition rewind `{!HasSphereContext C} (cursor : SphereCursor C Cid) : outcome (option Cid) * SphereCursor C Cid :=
  let? sphere := version cursor keeping cursor in
  let? parent := get_parent (ctx_db (sphere_context cursor)) sphere keeping cursor in
  match parent with
  | Some parent => (Ok (Some parent), mkCursor (cursor_inner cursor) (Some parent))
  | None => (Ok None, cursor)
  end.
End cursors.

(** ** Blanket implementations *)
Section blanket.
Context {C : Type} `{!HasSphereContext C}.
Implicit Types (c : C) (slug name : string).

Definition context_db c : SphereDb := ctx_db (sphere_context c).
Definition put_db c db : C := put_context c (with_db (sphere_context c) db).

(** *** Internal (internal.rs) *)
Definition assert_write_access c : outcome unit * C :=
  let '(r, ctx) := context_access (sphere_context c) in
  let c := put_context c ctx in
  let? access := r keeping c in
  match access with
  | ReadOnly => (Err "Cannot mutate sphere; author only has read access to its contents", c)
  | ReadWrite => (Ok tt, c)
  end.

(** [Link::load_from]. *)
Definition load_from db (link : Cid) : outcome MemoIpld :=
  if (cid_codec link =? DAG_CBOR)%N then load db link
  else if (cid_codec link =? RAW)%N then
    let? found := get_block db link in
    match found with Some _ => Err "Not a memo" | None => Err "No block found" end
  else Err "Unsupported codec".

Definition get_file c (sphere_revision memo_link : Cid) : outcome (SphereFile Cid) * C :=
  let? memo := load_from (context_db c) memo_link keeping c in
  let? found := get_block (context_db c) (body memo) keeping c in
  let '(r, c) :=
    match found with
    | Some _ => (Ok tt, c)
    | None =>
        let '(r, ctx) := context_client (sphere_context c) in
        let c := put_context c ctx in
        let? session := r keeping c in
        let? stream := net_replicate net session memo_link None keeping c in
        let '(r, db) := put_block_stream (context_db c) stream in
        (r, put_db c db)
    end in
  let? _ := r keeping c in
  match get_first_header memo (Header.deref Header.ContentType) with
  | Some _ =>
      (Ok (mkFile (ctx_identity (sphere_context c)) sphere_revision memo_link memo
             (decoder_stream body_fuel (context_db c) (Some (body memo)))), c)
  | None => (Err "No content type specified", c)
  end.

(** *** Content (content/read.rs, content/write.rs) *)
Definition read c slug : outcome (option (SphereFile Cid)) * C :=
  let? revision := version c keeping c in
  let? links := get_content (context_db c) revision keeping c in
  let? found := (vm_get links slug).1 keeping c in
  match found with
  | Some memo =>
      let '(r, c) := get_file c revision memo in
      let? file := r keeping c in (Ok (Some file), c)
  | None => (Ok None, c)
  end.

Definition exists_slug c slug : outcome bool * C :=
  let '(r, c) := read c slug in
  let? found := r keeping c in (Ok (bool_decide (is_Some found)), c).

Definition validate_slug slug : outcome unit :=
  if bool_decide (slug = EmptyString) then Err "Slug must not be empty." else Ok tt.

Definition link_raw c slug (cid : Cid) : outcome unit * C :=
  let '(r, c) := assert_write_access c in
  let? _ := r keeping c in
  let? _ := validate_slug slug keeping c in
  (Ok tt, put_context c (update_content (sphere_context c) (fun m => mutation_set m slug cid))).

Definition link c slug (content_type : string) (body_cid : Cid) (additional_headers : option (list (string * string)))
    : outcome Cid * C :=
  let '(r, c) := assert_write_access c in
  let? _ := r keeping c in
  let? _ := validate_slug slug keeping c in
  let '(r, c) := read c slug in
  let? current_file := r keeping c in
  let? new_memo :=
    match file_memo_version <$> current_file with
    | Some cid => let? memo := branch_from cid (context_db c) in Ok (with_body memo body_cid)
    | None => Ok (mkMemo None [] body_cid)
    end keeping c in
  let new_memo :=
    match additional_headers with Some headers => replace_headers new_memo headers | None => new_memo end in
  let new_memo := replace_first_header new_memo (Header.deref Header.ContentType) content_type in
  let '(r, db) := save (context_db c) new_memo in
  let c := put_db c db in
  let? memo_cid := r keeping c in
  let '(r, c) := link_raw c slug memo_cid in
  let? _ := r keeping c in (Ok memo_cid, c).

(** [value] is what the reader of the content yields. *)
Definition write c slug (content_type : string) (value : outcome bytes) (additional_headers : option (list (string * string)))
    : outcome Cid * C :=
  let '(r, c) := assert_write_access c in
  let? _ := r keeping c in
  let? _ := validate_slug slug keeping c in
  let? b := value keeping c in
  let '(r, db) := store_bytes (Cid := Cid) b (context_db c) in
  let c := put_db c db in
  let? body_cid := r keeping c in
  let header := (Header.deref Header.ContentLength, pretty (N.of_nat (length b))) in
  link c slug content_type body_cid (Some (default [] additional_headers ++ [header])).

Definition remove c slug : outcome (option Cid) * C :=
  let '(r, c) := assert_write_access c in
  let? _ := r keeping c in
  let '(r, c) := read c slug in
  let? current_file := r keeping c in
  match current_file with
  | Some file =>
      (Ok (Some (file_memo_version file)), put_context c (update_content (sphere_context c) (fun m => mutation_remove m slug)))
  | None => (Ok None, c)
  end.

(** *** Petnames (petname/read.rs, petname/write.rs) *)
Definition petname_entry c name : outcome (option (IdentityIpld Cid)) :=
  let? sphere := version c in
  let? ipld := to_body (context_db c) sphere in
  let? identities := get_identities (context_db c) (address_book ipld) in
  (vm_get identities name).1.

Definition get_petname c name : outcome (option string) :=
  let? entry := petname_entry c name in Ok (peer_did <$> entry).

(** [IdentityIpld::link_record]. *)
Definition identity_link_record db (self : IdentityIpld Cid) : outcome (option Ucan) :=
  match peer_link_record self with
  | Some cid =>
      match read_token db cid with
      | Ok (Some jwt) =>
          match ucan_from_str jwt with
          | Ok record => Ok (Some record)
          | Err _ => Ok None
          | Panic w => Panic w
          | Diverge => Diverge
          end
      | Ok None | Err _ => Ok None
      | Panic w => Panic w
      | Diverge => Diverge
      end
  | None => Ok None
  end.

Definition get_petname_record c name : outcome (option Ucan) :=
  let? entry := petname_entry c name in
  match entry with Some identity => identity_link_record (context_db c) identity | None => Ok None end.

Definition resolve_petname c name : outcome (option Cid) :=
  let? record := get_petname_record c name in
  Ok (match record with Some record => get_link record | None => None end).

Definition validate_petname name : outcome unit :=
  if bool_decide (name = EmptyString) then Err "Petname must not be empty."
  else if prefix "did:" name then Err "Petname must not be a DID."
  else Ok tt.

Definition set_petname c name (identity : option string) : outcome unit * C :=
  let '(r, c) := assert_write_access c in
  let? _ := r keeping c in
  let? _ := validate_petname name keeping c in
  if bool_decide (identity = Some (ctx_identity (sphere_context c))) then (Err "Sphere cannot assign itself to a petname.", c)
  else
    let? current_address := get_petname c name keeping c in
    if bool_decide (identity = current_address) then (Ok tt, c)
    else
      (Ok tt, put_context c (update_identities (sphere_context c) (fun m =>
        match identity with
        | Some identity => mutation_set m name (mkIdentity identity None)
        | None => mutation_remove m name
        end))).

(** Reads the previous identity at the version of the context. *)
Definition previous_identity c name : outcome (option (IdentityIpld Cid)) :=
  let? sphere := context_version (sphere_context c) in
  let? ipld := to_body (context_db c) sphere in
  let? identities := get_identities (context_db c) (address_book ipld) in
  (vm_get identities name).1.

Definition set_petname_record c name (record : Ucan) : outcome (option string) * C :=
  let '(r, c) := assert_write_access c in
  let? _ := r keeping c in
  let? _ := validate_petname name keeping c in
  let identity := to_sphere_identity record in
  let? expected_identity := get_petname c name keeping c in
  match expected_identity with
  | None => (Err "Cannot adopt petname record (not assigned to a sphere identity)", c)
  | Some expected_identity =>
      if negb (bool_decide (expected_identity = identity)) then (Err "Cannot adopt petname record; unexpected identity", c)
      else if bool_decide (ctx_identity (sphere_context c) = identity) then (Err "Sphere cannot assign itself to a petname.", c)
      else
        let? existing_record := get_petname_record c name keeping c in
        if match existing_record with Some existing => negb (superceded_by existing record) | None => false end
        then (Err "Previously stored record supercedes provided record.", c)
        else
          let? jwt := ucan_encode record keeping c in
          let '(r, db) := write_token (context_db c) jwt in
          let c := put_db c db in
          let? cid := r keeping c in
          let? previous := previous_identity c name keeping c in
          let c := put_context c (update_identities (sphere_context c) (fun m =>
            mutation_set m name (mkIdentity identity (Some cid)))) in
          (Ok (match previous with
               | Some previous => if bool_decide (identity = peer_did previous) then None else Some (peer_did previous)
               | None => None
               end), c)
  end.

(** *** Authority (authority/read.rs, authority/write.rs) *)
Definition context_verify_authorization c (authorization : Authorization Cid) : outcome unit :=
  let? sphere := version c in
  sphere_verify_authorization (Url := Url) supported_keys fuel walk_fuel clock (context_db c) sphere authorization.

(** The delegations of the version [sphere], in the order of their stream. *)
Definition delegation_entries db (sphere : Cid) : outcome (list (Cid * DelegationIpld Cid) * outcome unit) :=
  let? ipld := to_body db sphere in
  let? delegations := get_delegations db (authority ipld) in
  vm_into_stream walk_fuel delegations.

(** The loop of [get_authorization]: the error of the stream comes after its items. *)
Fixpoint find_delegation db (did : string) (entries : list (Cid * DelegationIpld Cid)) (ending : outcome unit)
    : outcome (option (Authorization Cid)) :=
  match entries with
  | [] => let? _ := ending in Ok None
  | (cid, delegation) :: entries' =>
      let? ucan := delegation_resolve_ucan delegation db in
      if bool_decide (audience ucan = did) then Ok (Some (AuthCid cid)) else find_delegation db did entries' ending
  end.

Definition get_authorization c (did : string) : outcome (option (Authorization Cid)) :=
  let? sphere := version c in
  let? (entries, ending) := delegation_entries (context_db c) sphere in
  find_delegation (context_db c) did entries ending.

Definition get_authorizations_by_name c name : outcome (list (Authorization Cid)) :=
  let? sphere := version c in
  let? (entries, ending) := delegation_entries (context_db c) sphere in
  let? _ := ending in
  Ok ((fun e => AuthCid e.1) <$> filter (fun e : Cid * DelegationIpld Cid => delegation_name e.2 = name) entries).

(** [escalate_authority]; [root_key] is what the mnemonic gives. *)
Definition escalate_authority c (root_key : outcome Key) : outcome C :=
  let? root_key := root_key in
  let root_author := mkAuthor root_key None in
  let? root_identity := get_did root_key in
  if negb (bool_decide (ctx_identity (sphere_context c) = root_identity))
  then Err "Provided mnemonic did not produce the expected credential"
  else let? ctx := context_with_author (sphere_context c) root_author in Ok (wrap ctx).

Definition authorize (rng : bytes) c name (identity : string) : outcome (Authorization Cid) * C :=
  let '(r, c) := assert_write_access c in
  let? _ := r keeping c in
  let author := ctx_author (sphere_context c) in
  let? sphere := version c keeping c in
  let? authorization := ok_or "Authorization is required but none is configured" (author_authorization author) keeping c in
  let? _ := context_verify_authorization c authorization keeping c in
  let? ucan := as_ucan (context_db c) authorization keeping c in
  let? ipld := to_body (context_db c) sphere keeping c in
  let builder := issued_by builder_default (author_key author) in
  let builder := for_audience builder identity in
  let builder := claiming_capability builder (capability_of_view (Url := Url) (generate_capability (Sphere.identity ipld) Authorize)) in
  let builder := with_nonce builder in
  let builder := match expires_at ucan with Some expiry => with_expiration builder expiry | None => builder end in
  let? signable := build clock builder keeping c in
  let? proof := authorization_cid authorization keeping c in
  let signable := push_proof signable (cid_to_string proof) in
  let? signed := sign rng signable keeping c in
  let? jwt := ucan_encode signed keeping c in
  let '(r, db) := delegation_register name jwt (context_db c) in
  let c := put_db c db in
  let? delegation := r keeping c in
  (Ok (AuthCid (delegation_jwt delegation)),
   put_context c (update_delegations (sphere_context c) (fun m => mutation_set m (delegation_jwt delegation) delegation))).

Definition revoke_authorization c (authorization : Authorization Cid) : outcome unit * C :=
  let '(r, c) := assert_write_access c in
  let? _ := r keeping c in
  let key := author_key (ctx_author (sphere_context c)) in
  let? authorizer := is_authorizer_of (Url := Url) supported_keys fuel walk_fuel clock (context_db c) key authorization keeping c in
  if negb authorizer then
    let? _ := get_did key keeping c in (Err "cannot revoke authorization (not a delegating authority)", c)
  else
    let? cid := authorization_cid authorization keeping c in
    let? sphere := context_version (sphere_context c) keeping c in
    let? ipld := to_body (context_db c) sphere keeping c in
    let? delegations := get_delegations (context_db c) (authority ipld) keeping c in
    let? delegation := (vm_get delegations cid).1 keeping c in
    match delegation with
    | None => (Err "No authority has been delegated to the authorization being revoked", c)
    | Some _ =>
        let? revocation := revoke cid key keeping c in
        let ctx := update_delegations (sphere_context c) (fun m => mutation_remove m cid) in
        (Ok tt, put_context c (update_revocations ctx (fun m => mutation_set m cid revocation)))
    end.

(** The loop of [recover_authority]. *)
Definition revoke_entry (key : Key) (entry : Cid * DelegationIpld Cid) ctx : outcome unit * SphereContext :=
  let? revocation := revoke entry.1 key keeping ctx in
  let ctx := update_delegations ctx (fun m => mutation_remove m entry.1) in
  (Ok tt, update_revocations ctx (fun m => mutation_set m entry.1 revocation)).

Definition recover_authority (rng : bytes) c (new_owner : string) : outcome (Authorization Cid) * C :=
  let '(r, c) := assert_write_access c in
  let? _ := r keeping c in
  let key := author_key (ctx_author (sphere_context c)) in
  let? author_did := get_did key keeping c in
  let sphere_identity := ctx_identity (sphere_context c) in
  if negb (bool_decide (author_did = sphere_identity))
  then (Err "Only the root sphere credential can be used to recover authority", c)
  else
    let? sphere := context_version (sphere_context c) keeping c in
    let? (entries, ending) := delegation_entries (context_db c) sphere keeping c in
    let '(r, ctx) := for_each_st (revoke_entry key) entries (sphere_context c) in
    let c := put_context c ctx in
    let? _ := r keeping c in
    let? _ := ending keeping c in
    let builder := issued_by builder_default key in
    let builder := for_audience builder new_owner in
    let builder := with_nonce (with_lifetime builder SPHERE_LIFETIME) in
    let builder := claiming_capability builder (capability_of_view (Url := Url) (generate_capability sphere_identity Authorize)) in
    let? signable := build clock builder keeping c in
    let? ucan := sign rng signable keeping c in
    let? jwt := ucan_encode ucan keeping c in
    let '(r, db) := delegation_register "(OWNER)" jwt (context_db c) in
    let c := put_db c db in
    let? delegation := r keeping c in
    (Ok (AuthCid (delegation_jwt delegation)),
     put_context c (update_delegations (sphere_context c) (fun m => mutation_set m (delegation_jwt delegation) delegation))).

(** *** Replication (replication/write.rs); the lifetime is in seconds. *)
Definition create_link_record (rng : bytes) c (lifetime : option N) : outcome Ucan * C :=
  let '(r, c) := assert_write_access c in
  let? _ := r keeping c in
  let ctx := sphere_context c in
  let author := ctx_author ctx in
  let? sphere_version := context_version ctx keeping c in
  let builder := issued_by builder_default (author_key author) in
  let builder := for_audience builder (ctx_identity ctx) in
  let builder := claiming_capability builder (capability_of_view (Url := Url) (generate_capability (ctx_identity ctx) Publish)) in
  let builder := with_fact builder LINK_RECORD_FACT_NAME (Ok (VString (cid_to_string sphere_version))) in
  let builder := with_nonce builder in
  let builder := match lifetime with Some seconds => with_lifetime builder seconds | None => builder end in
  let? builder :=
    match author_authorization author with
    | Some authorization => let? witness := as_ucan (ctx_db ctx) authorization in Ok (witnessed_by (Cid := Cid) builder witness)
    | None => Ok builder
    end keeping c in
  let? signable := build clock builder keeping c in
  let? link_record := sign rng signable keeping c in
  let? jwt := ucan_encode link_record keeping c in
  let '(r, db) := write_token (ctx_db ctx) jwt in
  let c := put_db c db in
  let? _ := r keeping c in (Ok link_record, c).
End blanket.
End contexts.
