(* ===== verification/SphereContextProofs.v ===== *)
(** * Facts about sphere contexts

    What a container of a context promises the blanket implementations
    ([HasSphereContextLaws]); what each operation does to the pending changes and
    to the database; and what saving makes of them. *)
From stdpp Require Import base gmap list numbers strings pretty.
From Stdlib Require Import Ascii String.
From S2P Require Import Prelude BlockStore HamtNode HamtRep Hamt HamtSpec BTree SphereDb BodyChunk.
From S2P Require Import VersionedMap UcanCapability Ucan UcanChain Authority Memo.
From S2P Require Import Sphere SphereProofs SphereHistory SphereRebase Bundle BundleProofs SphereContext.
#[local] Open Scope list_scope.
#[local] Notation length := List.length (only parsing).

Class ContextCodecsLaws (Cid : Type) `{CidOps Cid} `{!ContextCodecs Cid} := {
  links_laws :: BlockCodecLaws Cid (list Cid);
  text_laws :: BlockCodecLaws Cid string;
  texts_laws :: BlockCodecLaws Cid (list string);
  byte_laws :: BlockCodecLaws Cid N;
}.

(** ** What writing blocks leaves alone *)
Section names.
Context {Cid B KV : Type} `{Countable Cid} `{CidOps Cid} `{!BlockStore B Cid} `{Store KV}.
Context `{!BlockCodec Cid} `{!BlockCodec (list Cid)}.
Notation SphereDb := (SphereDb B KV).
Implicit Types (db : SphereDb).

(** The same versions and the same metadata. *)
Definition same_names db db' : Prop := version_store db' = version_store db /\ metadata_store db' = metadata_store db.

#[export] Instance same_names_preorder : PreOrder same_names.
Proof. split; [by intros db|]. intros a b c [? ?] [? ?]. split; congruence. Qed.

Lemma put_encoded_names db codec block : same_names db (put_encoded (Cid := Cid) db codec block).2.
Proof.
  unfold put_encoded. cbn [put_block db_block_store]. unfold db_put_block. destruct (put_block _ _ _) as [[] blocks]; cbn; try done.
  unfold db_put_links. destruct (references _ _) as [links| | |]; cbn; try done. by destruct (set_key _ _ _) as [[] links'].
Qed.

Lemma save_names {T} `{!BlockCodec T} db (x : T) : same_names db (save (Cid := Cid) db x).2.
Proof. unfold save. destruct (block_of x); cbn; [apply put_encoded_names|done..]. Qed.

Lemma store_chunks_names `{!BlockCodec (BodyChunkIpld Cid)} chunks : forall (next : option Cid) db,
  same_names db (store_chunks chunks next db).2.
Proof.
  induction chunks as [|chunk chunks IH]; intros next db; [done|]. cbn [store_chunks].
  pose proof (save_names db (mkBodyChunk chunk next)) as Hs. destruct (save db _) as [[c| | |] db1]; cbn in *; [|done..].
  transitivity db1; [done|apply IH].
Qed.

Lemma store_bytes_names `{!BlockCodec (BodyChunkIpld Cid)} `{FastCdc} (b : bytes) db :
  same_names db (store_bytes (Cid := Cid) b db).2.
Proof.
  unfold store_bytes. destruct (try_map _ _) as [chunks| | |]; cbn [try_with]; [|done..].
  pose proof (store_chunks_names (reverse chunks) None db) as Hs. destruct (store_chunks _ _ _) as [[next| | |] db1]; done.
Qed.

Lemma same_names_version db db' identity : same_names db db' -> get_version (Cid := Cid) db' identity = get_version db identity.
Proof. intros [Hv _]. unfold get_version. by rewrite Hv. Qed.

Lemma same_names_require db db' identity : same_names db db' -> require_version (Cid := Cid) db' identity = require_version db identity.
Proof. intros [Hv _]. unfold require_version. by rewrite Hv. Qed.
End names.

Section context_facts.
Context {Key Url Cid B KV Net : Type} `{UnicodeLaws}.
Context `{KeyMaterial Key} `{Bs58} `{Base64} `{DagJson UcanHeader} `{DagJson UcanPayload} `{UrlOps Url}.
Context `{Countable Cid} `{HashAlgorithmLaws string} `{HashAlgorithmLaws Cid} `{KeyOrderLaws Cid}.
Context `{CidLaws Cid} `{!BlockStore B Cid} `{!BlockStoreLaws B Cid} `{StoreLaws KV}.
Context `{!SphereCodecs Cid} `{!SphereCodecsLaws Cid} `{!EntryCodecs Cid} `{!EntryCodecsLaws Cid}.
Context `{!ContextCodecs Cid} `{!ContextCodecsLaws Cid} `{FastCdcLaws} `{!GatewayApi Net Key Cid}.
Context (supported_keys : list (bytes * (bytes -> outcome Key))).
Context (fuel walk_fuel body_fuel : nat) (clock : N) (net : Net).
Notation SphereDb := (SphereDb B KV).
Notation version := (SphereRebase.version (Cid := Cid)).
Notation Context := (SphereContext (Key := Key) (Cid := Cid) (B := B) (KV := KV)).
Notation access := (context_access (Url := Url) supported_keys fuel walk_fuel clock).
#[local] Existing Instance block_ucan_store.
Implicit Types (db : SphereDb) (ctx : Context) (x y : version).

(** ** Containers *)

(** A container keeps the context that is put in it, and its version is not
    affected by a context of the same version. *)
Class HasSphereContextLaws (C : Type) `{!HasSphereContext (Key := Key) (Cid := Cid) (B := B) (KV := KV) C} := {
  context_put : forall (c : C) ctx, sphere_context (put_context c ctx) = ctx;
  put_put : forall (c : C) ctx ctx', put_context (put_context c ctx) ctx' = put_context c ctx';
  put_context_id : forall c : C, put_context c (sphere_context c) = c;
  version_put : forall (c : C) ctx, context_version ctx = context_version (sphere_context c) ->
    SphereContext.version (put_context c ctx) = SphereContext.version c;
}.

#[export] Instance context_has_context_laws : HasSphereContextLaws Context.
Proof. split; try done. Qed.

#[export] Instance cursor_has_context_laws {C} `{!HasSphereContext (Key := Key) (Cid := Cid) (B := B) (KV := KV) C}
  `{!HasSphereContextLaws C} : HasSphereContextLaws (SphereCursor C Cid).
Proof.
  split; cbn.
  - intros c ctx. apply context_put.
  - intros c ctx ctx'. by rewrite put_put.
  - intros [c v]. cbn. by rewrite put_context_id.
  - intros [c [v|]] ctx Hv; cbn in *; [done|by apply version_put].
Qed.

(** ** Access *)

(** The author may write. *)
Definition writable ctx : Prop := (access ctx).1 = Ok ReadWrite.

(** Asking for access fills the cell and changes nothing else. *)
Lemma access_spec ctx : exists cell, (access ctx).2 = with_access ctx cell /\
  (writable ctx -> cell = Some ReadWrite).
Proof.
  unfold writable, context_access. destruct ctx as [id origin author cell db client m]. cbn [ctx_access].
  destruct cell as [a|].
  - exists (Some a). split; [done|]. cbn. by intros [= ->].
  - destruct (access_to _ _ _ _ _ _ _ _ _ _) as [a| | |] eqn:E; cbn; [exists (Some a)|exists None..]; split; try done.
    by intros [= ->].
Qed.

(** Once the cell says so, the author may write whatever else has changed. *)
Lemma writable_cell ctx : ctx_access ctx = Some ReadWrite -> writable ctx.
Proof. unfold writable, context_access. by intros ->. Qed.

Section containers.
Context {C : Type} `{!HasSphereContext (Key := Key) (Cid := Cid) (B := B) (KV := KV) C} `{!HasSphereContextLaws C}.
Implicit Types (c : C) (slug name : string).

Lemma assert_write_access_ok c : writable (sphere_context c) ->
  assert_write_access (Url := Url) supported_keys fuel walk_fuel clock c =
    (Ok tt, put_context c (with_access (sphere_context c) (Some ReadWrite))).
Proof.
  intros Hw. unfold assert_write_access. destruct (access_spec (sphere_context c)) as (cell & Hc & Hcell).
  unfold writable in *. rewrite (Hcell Hw) in Hc. destruct (access _) as [r ctx]. cbn in *. by subst.
Qed.

(** Without write access, nothing but the cell changes. *)
Lemma assert_write_access_err c : ~ writable (sphere_context c) ->
  exists cell r, assert_write_access (Url := Url) supported_keys fuel walk_fuel clock c =
    (r, put_context c (with_access (sphere_context c) cell)) /\ r <> Ok tt.
Proof.
  intros Hw. unfold assert_write_access. destruct (access_spec (sphere_context c)) as (cell & Hc & _).
  unfold writable in Hw. destruct (access _) as [r ctx]. cbn in *. subst ctx. exists cell.
  destruct r as [[]| | |]; cbn; eexists; (split; [done|]); try done.
Qed.
End containers.

(** ** Saving *)

(** The latest version that the database knows is [x], and it holds it. *)
Definition at_version ctx x : Prop :=
  get_version (ctx_db ctx) (ctx_identity ctx) = Ok (Some (ver_cid x)) /\ holds (ctx_db ctx) x.

Lemma at_version_context ctx x : at_version ctx x -> context_version ctx = Ok (ver_cid x).
Proof. intros [Hv _]. unfold context_version. by apply require_version_spec. Qed.

Context (P : string -> Prop) (Q : Cid -> Prop) (HP : collision_free P) (HQ : collision_free Q).

(** The pending changes of [ctx] can be committed to [x], by [did]. *)
Record ready ctx x (did : string) : Prop := {
  ready_at : at_version ctx x;
  ready_value : value_in P Q (ver_value x);
  ready_mutation : mutation_in P Q (ctx_mutation ctx);
  ready_by : mutation_by (ctx_mutation ctx) did;
  ready_author : author_did (ctx_mutation ctx) = did;
  ready_sign : can_sign (Url := Url) (ctx_db ctx) clock (author_key (ctx_author ctx)) (author_authorization (ctx_author ctx)) did;
}.

Lemma mutation_reset_in (m : SphereMutation Cid) did : author_did m = did ->
  mutation_in P Q (sphere_mutation_reset m) /\ mutation_by (sphere_mutation_reset m) did /\
  author_did (sphere_mutation_reset m) = did /\ sphere_mutation_is_empty (sphere_mutation_reset m) = true.
Proof. intros <-. split; [|done]. by repeat split. Qed.

Lemma default_save_spec rng ctx x did headers : ready ctx x did -> (lamport_order (ver_memo x) + 1 < 2 ^ 32)%N ->
  has_unsaved_changes ctx = true -> default [] headers = [] ->
  exists y ctx', default_save (Url := Url) clock rng ctx headers = (Ok (ver_cid y), ctx') /\
    store_le (ctx_db ctx) (ctx_db ctx') /\ succeeds (eq did) (ctx_db ctx') x (ctx_mutation ctx) y /\ ready ctx' y did /\
    has_unsaved_changes ctx' = false /\ ctx_identity ctx' = ctx_identity ctx /\ ctx_author ctx' = ctx_author ctx /\
    ctx_access ctx' = ctx_access ctx.
Proof.
  intros [Hat Hv Hm Hby Hau Hs] Hlam Hun Hh. unfold default_save. cbn [SphereContext.version context_has_context sphere_context put_context].
  rewrite (at_version_context _ _ Hat). cbn [try_with]. destruct Hat as [Hver Hx].
  destruct (commit_spec P Q HP HQ (ctx_db ctx) x (ctx_mutation ctx) rng clock _ _ did Hx Hv Hm Hby Hlam Hs)
    as (rev & s1 & y & rev' & s' & E1 & E2 & Hle & Hy).
  rewrite E1. cbn [try_with]. assert (sphere_mutation_is_empty (ctx_mutation ctx) = false) as Hne
    by (unfold has_unsaved_changes in Hun; cbn in Hun; by apply negb_true_iff in Hun).
  replace (match headers with Some ((_ :: _) as headers) => _ | _ => _ end) with (Ok (A := SphereRevision Cid) rev)
    by (cbn; rewrite Hne; by destruct headers as [[|? ?]|]).
  cbn [try_with with_db ctx_author ctx_db ctx_identity ctx_mutation]. rewrite E2. cbn [try_with].
  destruct (set_version_spec s' (ctx_identity ctx) (ver_cid y)) as (db' & E3 & Hsame & _ & Hg & _). rewrite E3. cbn [try_with].
  destruct (mutation_reset_in _ _ Hau) as (M1 & M2 & M3 & M4). apply same_blocks_le in Hsame.
  eexists y, _. split; [done|]. cbn [ctx_db with_mutation with_db ctx_identity ctx_author ctx_access ctx_mutation].
  assert (store_le (ctx_db ctx) db') as Hle' by by transitivity s'.
  split; [done|]. split; [exact (succeeds_mono _ _ _ _ _ _ Hsame Hy)|]. split; [|split; [unfold has_unsaved_changes; by apply negb_false_iff|done]].
  destruct Hy as (Hy & _ & Ev & _). split; cbn; [|rewrite Ev; by apply apply_value_in|done|done|done|exact (can_sign_mono _ _ _ _ _ _ Hle' Hs)].
  split; [done|]. exact (holds_mono _ _ _ Hsame Hy).
Qed.

(** Applying no changes writes one block. *)
Lemma apply_empty_names c (m : SphereMutation Cid) db : sphere_mutation_is_empty m = true ->
  same_names db (apply_mutation_with_cid c m db).2.
Proof.
  unfold sphere_mutation_is_empty. rewrite !andb_true_iff, !Nat.eqb_eq. intros [[[M1 M2] M3] M4].
  unfold apply_mutation_with_cid, apply_content, apply_identities, apply_authority, no_changes.
  rewrite M1, M2, M3, M4. rewrite bool_decide_true by done. cbn [andb].
  destruct (branch_from c db) as [memo| | |]; cbn [try_with]; [|done..].
  destruct (load db (body memo)) as [sphere| | |]; cbn [try_with]; [|done..].
  match goal with |- context [save db ?ipld] => pose proof (save_names (Cid := Cid) db ipld) as Hs; destruct (save db ipld) as [[] db1] end;
    done.
Qed.

Lemma save_nothing rng ctx x did headers : ready ctx x did -> (lamport_order (ver_memo x) + 1 < 2 ^ 32)%N ->
  has_unsaved_changes ctx = false -> default [] headers = [] ->
  exists db', default_save (Url := Url) clock rng ctx headers = (Err "No changes to save", with_db ctx db') /\
    store_le (ctx_db ctx) db' /\ same_names (ctx_db ctx) db'.
Proof.
  intros [Hat Hv Hm Hby Hau Hs] Hlam Hun Hh. unfold default_save. cbn [SphereContext.version context_has_context sphere_context put_context].
  rewrite (at_version_context _ _ Hat). cbn [try_with]. destruct Hat as [Hver Hx].
  assert (sphere_mutation_is_empty (ctx_mutation ctx) = true) as Hne
    by (unfold has_unsaved_changes in Hun; cbn in Hun; by apply negb_false_iff in Hun).
  pose proof (apply_empty_names (ver_cid x) _ (ctx_db ctx) Hne) as Hnames.
  destruct (apply_mutation_spec (ctx_db ctx) (ver_cid x) (ver_memo x) (ver_ipld x) (ver_value x) (ctx_mutation ctx) Hx)
    as (rev & s1 & E1 & Hle & _); [lia|by apply (in_collision_free P Q HP HQ)|].
  rewrite E1 in *. cbn [try_with snd] in *.
  replace (match headers with Some ((_ :: _) as headers) => _ | _ => _ end) with (Err (A := SphereRevision Cid) "No changes to save")
    by (cbn; rewrite Hne; by destruct headers as [[|? ?]|]).
  by exists s1.
Qed.

(** ** Content *)

(** [c] is a memo, of content type [ct], whose body is [b]. *)
Definition file_at db (c : Cid) (ct : string) (b : bytes) : Prop :=
  exists memo bs, stored db c memo /\ get_first_header memo CONTENT_TYPE = Some ct /\
    chunks_at db (Some (body memo)) bs /\ mjoin bs = b /\ length bs <= length b.

(** [c] is a memo that a reader can open. *)
Definition readable db (c : Cid) : Prop :=
  exists memo ct b, stored db c memo /\ get_first_header memo CONTENT_TYPE = Some ct /\ get_block db (body memo) = Ok (Some b).

Lemma file_at_mono db db' c ct b : store_le db db' -> file_at db c ct b -> file_at db' c ct b.
Proof.
  intros Hle (memo & bs & Hm & Hct & Hb & Hj & Hl). exists memo, bs. split; [exact (stored_mono _ _ _ _ Hle Hm)|]. split; [done|].
  split; [by eapply chunks_at_mono|done].
Qed.

Lemma file_readable db c ct b : file_at db c ct b -> readable db c.
Proof.
  intros (memo & bs & Hm & Hct & Hb & _). inversion Hb as [|? ? ? ? (b' & _ & _ & Hg)]; subst. by exists memo, ct, b'.
Qed.

Section content.
Context {C : Type} `{!HasSphereContext (Key := Key) (Cid := Cid) (B := B) (KV := KV) C} `{!HasSphereContextLaws C}.
Implicit Types (c : C) (slug name : string).

Lemma load_from_spec db cid (memo : MemoIpld Cid) : stored db cid memo -> load_from db cid = Ok memo.
Proof.
  intros Hm. unfold load_from. rewrite (stored_load _ _ _ Hm). destruct Hm as (b & _ & -> & _).
  unfold derive_cid at 1. by rewrite cid_codec_new.
Qed.

Lemma get_file_spec c revision cid : readable (context_db c) cid ->
  exists file, get_file body_fuel net c revision cid = (Ok file, c) /\ file_memo_version file = cid /\
    file_sphere_version file = revision /\ file_identity file = ctx_identity (sphere_context c) /\
    stored (context_db c) cid (file_memo file) /\
    file_contents file = decoder_stream body_fuel (context_db c) (Some (body (file_memo file))).
Proof.
  intros (memo & ct & b & Hm & Hct & Hb). unfold get_file. rewrite (load_from_spec _ _ _ Hm). cbn [try_with].
  rewrite Hb. cbn [try_with]. fold CONTENT_TYPE. rewrite Hct. by eexists.
Qed.

(** *** Reading *)
Lemma content_lookup db x slug : holds db x ->
  exists links, get_content db (ver_cid x) = Ok links /\ (vm_get links slug).1 = Ok ((v_content (ver_value x)).1 !! slug).
Proof.
  intros (Hm & Hb & Hc & _). unfold get_content, to_body, to_memo. rewrite (stored_load _ _ _ Hm). cbn [outcome_bind].
  rewrite (stored_load _ _ _ Hb). cbn [outcome_bind]. eexists. split; [done|].
  by destruct (vm_get_spec _ _ _ _ slug (view_at _ _ _ _ Hc)) as (vm & -> & _).
Qed.

Lemma read_spec c x slug : SphereContext.version c = Ok (ver_cid x) -> holds (context_db c) x ->
  match (v_content (ver_value x)).1 !! slug with
  | None => read body_fuel net c slug = (Ok None, c)
  | Some cid => readable (context_db c) cid ->
      exists file, get_file body_fuel net c (ver_cid x) cid = (Ok file, c) /\ read body_fuel net c slug = (Ok (Some file), c)
  end.
Proof.
  intros Hver Hx. unfold read. rewrite Hver. cbn [try_with]. destruct (content_lookup _ x slug Hx) as (links & -> & Eg).
  cbn [try_with]. rewrite Eg. cbn [try_with]. destruct (_ !! slug) as [cid|]; [|done].
  intros Hr. destruct (get_file_spec c (ver_cid x) cid Hr) as (file & E & _). exists file. split; [exact E|]. by rewrite E.
Qed.

(** A file that was written reads back. *)
Lemma read_file c x slug cid ct b : SphereContext.version c = Ok (ver_cid x) -> holds (context_db c) x ->
  (v_content (ver_value x)).1 !! slug = Some cid -> file_at (context_db c) cid ct b -> length b <= body_fuel ->
  exists file bs, read body_fuel net c slug = (Ok (Some file), c) /\ file_memo_version file = cid /\
    file_sphere_version file = ver_cid x /\ get_first_header (file_memo file) CONTENT_TYPE = Some ct /\
    file_contents file = (bs, Ok tt) /\ mjoin bs = b.
Proof.
  intros Hver Hx Hs Hf Hfuel. pose proof (read_spec c x slug Hver Hx) as Hr. rewrite Hs in Hr.
  destruct (Hr (file_readable _ _ _ _ Hf)) as (file & Eg & Er).
  destruct (get_file_spec c (ver_cid x) cid (file_readable _ _ _ _ Hf)) as (file' & Eg' & Hmv & Hsv & _ & Hst & Hc).
  assert (file' = file) as -> by congruence. destruct Hf as (memo & bs & Hm & Hct & Hch & Hj & Hl).
  assert (file_memo file = memo) as Hmemo by (eapply stored_fun; [exact Hst|exact Hm]).
  exists file, bs. split; [exact Er|]. split; [done|]. split; [done|]. rewrite Hmemo. split; [done|]. split; [|done].
  rewrite Hc, Hmemo. apply (decoder_spec _ _ _ Hch). lia.
Qed.

(** *** Writing *)

(** [c] after an author who may write has left [db] and the pending changes [m]. *)
Definition edited c db (m : SphereMutation Cid) : C :=
  put_context c (with_mutation (with_db (with_access (sphere_context c) (Some ReadWrite)) db) m).

(** [db'] has the blocks, versions and metadata of [db]. *)
Definition grown db db' : Prop := store_le db db' /\ same_names db db'.

Lemma edited_edited c db m db' m' : edited (edited c db m) db' m' = edited c db' m'.
Proof. unfold edited. by rewrite context_put, put_put. Qed.

Lemma edited_context c db m :
  sphere_context (edited c db m) = with_mutation (with_db (with_access (sphere_context c) (Some ReadWrite)) db) m.
Proof. apply context_put. Qed.

Lemma edited_db c db m : context_db (edited c db m) = db.
Proof. unfold context_db. by rewrite edited_context. Qed.

Lemma edited_version c db m : same_names (context_db c) db -> SphereContext.version (edited c db m) = SphereContext.version c.
Proof. intros Hs. apply version_put. unfold context_version. cbn. by apply same_names_require. Qed.

Lemma edited_writable c db m : writable (sphere_context (edited c db m)).
Proof. rewrite edited_context. by apply writable_cell. Qed.

Lemma edited_access c : writable (sphere_context c) ->
  assert_write_access (Url := Url) supported_keys fuel walk_fuel clock c =
    (Ok tt, edited c (context_db c) (ctx_mutation (sphere_context c))).
Proof. intros Hw. rewrite assert_write_access_ok by done. unfold edited, context_db. by destruct (sphere_context c). Qed.

Lemma edited_put_db c db m db' : put_db (edited c db m) db' = edited c db' m.
Proof. unfold put_db. rewrite edited_context. unfold edited. by rewrite put_put. Qed.

Lemma edited_put_mutation c db m m' :
  put_context (edited c db m) (with_mutation (sphere_context (edited c db m)) m') = edited c db m'.
Proof. rewrite edited_context. unfold edited. by rewrite put_put. Qed.

Definition with_content (m : SphereMutation Cid) op : SphereMutation Cid :=
  mkSphereMutation (author_did m) (mkMapMutation (mutation_did (content_mutation m)) (mutation_changes (content_mutation m) ++ [op]))
    (identities_mutation m) (delegations_mutation m) (revocations_mutation m).

Lemma link_raw_spec c slug cid : writable (sphere_context c) -> slug <> "" ->
  link_raw (Url := Url) supported_keys fuel walk_fuel clock c slug cid =
    (Ok tt, edited c (context_db c) (with_content (ctx_mutation (sphere_context c)) (Add slug cid))).
Proof.
  intros Hw Hs. unfold link_raw. rewrite edited_access by done. cbn [try_with]. unfold validate_slug.
  rewrite bool_decide_false by done. cbn [try_with]. unfold update_content. rewrite edited_put_mutation, edited_context. done.
Qed.

(** The file at [slug], if there is one, can be opened and succeeded. *)
Definition replaceable db x slug : Prop := forall cid, (v_content (ver_value x)).1 !! slug = Some cid ->
  exists memo ct b, stored db cid memo /\ get_first_header memo CONTENT_TYPE = Some ct /\ authentic db (body memo) b /\ (lamport_order memo < 2 ^ 32 - 1)%N.

Lemma first_header_kept (memo : MemoIpld Cid) n v : get_first_header (replace_first_header memo n v) n = Some v /\
  body (replace_first_header memo n v) = body memo /\ parent (replace_first_header memo n v) = parent memo.
Proof.
  rewrite get_first_header_values, replace_first_header_values, same_name_refl. split; [done|].
  unfold replace_first_header. by destruct (replace_loop _ _ _ _).
Qed.

(** The order number of a file that replaces the one at [slug] is at most [k]. *)
Definition order_below db x slug (k : N) : Prop := forall cid memo, (v_content (ver_value x)).1 !! slug = Some cid ->
  stored (T := MemoIpld Cid) db cid memo -> (lamport_order memo + 1 <= k)%N.

Lemma length_header_kept (memo : MemoIpld Cid) len ct :
  lamport_order (replace_first_header (replace_headers memo [(Header.deref Header.ContentLength, len)]) CONTENT_TYPE ct) = lamport_order memo.
Proof.
  rewrite !lamport_order_values, replace_first_header_values, replace_headers_values, !same_name_ascii by done. done.
Qed.

(** The memo that [link] stores. *)
Lemma link_spec c x slug ct body_cid headers :
  writable (sphere_context c) -> slug <> "" -> SphereContext.version c = Ok (ver_cid x) -> holds (context_db c) x ->
  replaceable (context_db c) x slug ->
  exists memo cid db', link (Url := Url) supported_keys fuel walk_fuel body_fuel clock net c slug ct body_cid headers =
      (Ok cid, edited c db' (with_content (ctx_mutation (sphere_context c)) (Add slug cid))) /\
    grown (context_db c) db' /\ stored db' cid memo /\ body memo = body_cid /\ get_first_header memo CONTENT_TYPE = Some ct /\
    parent memo = (v_content (ver_value x)).1 !! slug /\
    (forall k len, order_below (context_db c) x slug k -> headers = Some [(Header.deref Header.ContentLength, len)] ->
      lamport_order memo <= k)%N.
Proof.
  intros Hw Hs Hver Hx Hrep. unfold link. rewrite edited_access by done. cbn [try_with]. unfold validate_slug.
  rewrite bool_decide_false by done. cbn [try_with]. set (c1 := edited c _ _).
  assert (context_db c1 = context_db c) as Edb by apply edited_db.
  assert (SphereContext.version c1 = Ok (ver_cid x)) as Hver1 by (unfold c1; by rewrite edited_version).
  rewrite <- Edb in Hx, Hrep. pose proof (read_spec c1 x slug Hver1 Hx) as Hr.
  assert (exists file memo0, read body_fuel net c1 slug = (Ok file, c1) /\
    (match file_memo_version <$> file with
     | Some cid => let? memo := branch_from cid (context_db c1) in Ok (with_body memo body_cid)
     | None => Ok (mkMemo None [] body_cid)
     end) = Ok memo0 /\ body memo0 = body_cid /\ parent memo0 = (v_content (ver_value x)).1 !! slug /\
    forall k, order_below (context_db c1) x slug k -> (lamport_order memo0 <= k)%N)
    as (file & memo0 & Er & Em & Hb & Hp & Ho).
  { destruct (_ !! slug) as [cid|] eqn:Ek.
    - destruct (Hrep cid Ek) as (memo & ct0 & b0 & Hm & Hct & Ha & Hl).
      assert (readable (context_db c1) cid) as Hrd by (exists memo, ct0, b0; split; [done|]; split; [done|]; apply Ha).
      destruct (Hr Hrd) as (file & Eg & Er). destruct (get_file_spec c1 (ver_cid x) cid Hrd) as (file' & Eg' & Hmv & _).
      assert (file' = file) as -> by congruence.
      destruct (branch_from_spec (context_db c1) cid memo (stored_load _ _ _ Hm) Hl) as (memo' & Eb & Hp & _ & Hl' & _).
      exists (Some file), (with_body memo' body_cid). split; [exact Er|]. cbn [fmap option_fmap option_map]. rewrite Hmv, Eb.
      split; [done|]. split; [done|]. split; [exact Hp|]. intros k Hk. specialize (Hk cid memo Ek Hm). change (lamport_order memo' <= k)%N. lia.
    - eexists None, _. split; [exact Hr|]. split; [done|]. split; [done|]. split; [done|]. intros k _. apply N.le_0_l. }
  rewrite Er. cbn [try_with]. rewrite Em. cbn [try_with].
  set (memo1 := match headers with Some headers => replace_headers memo0 headers | None => memo0 end).
  assert (body memo1 = body_cid /\ parent memo1 = parent memo0) as [Hb1 Hp1] by (unfold memo1; by destruct headers).
  fold CONTENT_TYPE. destruct (first_header_kept memo1 CONTENT_TYPE ct) as (Hct & Hb2 & Hp2).
  set (memo2 := replace_first_header memo1 CONTENT_TYPE ct) in *.
  destruct (save_spec (context_db c1) memo2) as (cid & db' & Es & Hle & Hst).
  pose proof (save_names (context_db c1) memo2) as Hn. rewrite Es in Hn |- *. cbn [try_with snd] in *.
  exists memo2, cid, db'. unfold c1. rewrite edited_put_db, link_raw_spec by (apply edited_writable || done). cbn [try_with].
  rewrite edited_edited, edited_db, edited_context. cbn [ctx_mutation with_mutation]. rewrite Edb in Hle, Hn.
  split; [done|]. split; [done|]. split; [done|]. split; [congruence|]. split; [done|]. split; [congruence|].
  intros k len Hk ->. unfold memo2, memo1. rewrite length_header_kept. apply Ho. by rewrite Edb.
Qed.

Lemma write_spec c x slug ct b headers :
  writable (sphere_context c) -> slug <> "" -> b <> [] -> SphereContext.version c = Ok (ver_cid x) -> holds (context_db c) x ->
  replaceable (context_db c) x slug ->
  exists cid db', write (Url := Url) supported_keys fuel walk_fuel body_fuel clock net c slug ct (Ok b) headers =
      (Ok cid, edited c db' (with_content (ctx_mutation (sphere_context c)) (Add slug cid))) /\
    grown (context_db c) db' /\ file_at db' cid ct b /\
    forall k memo, order_below (context_db c) x slug k -> headers = None -> stored db' cid memo -> (lamport_order memo <= k)%N.
Proof.
  intros Hw Hs Hb Hver Hx Hrep. unfold write. rewrite edited_access by done. cbn [try_with]. unfold validate_slug.
  rewrite bool_decide_false by done. cbn [try_with]. rewrite edited_db.
  destruct (store_bytes_spec b (context_db c) Hb) as (body_cid & db1 & bs & Eb & Hle1 & Hch & Hj & Hl & _).
  pose proof (store_bytes_names (Cid := Cid) b (context_db c)) as Hn1. rewrite Eb in Hn1 |- *. cbn [try_with snd] in *.
  rewrite edited_put_db. set (c1 := edited c db1 _). assert (context_db c1 = db1) as Edb by apply edited_db.
  destruct (link_spec c1 x slug ct body_cid (Some (default [] headers ++ [(Header.deref Header.ContentLength, pretty (N.of_nat (length b)))])))
    as (memo & cid & db' & El & [Hle2 Hn2] & Hst & Hbody & Hct & _ & Ho).
  - apply edited_writable.
  - done.
  - unfold c1. by rewrite edited_version.
  - rewrite Edb. exact (holds_mono _ _ _ Hle1 Hx).
  - rewrite Edb. intros cid0 Hk. destruct (Hrep cid0 Hk) as (memo & ct0 & b0 & Hm & Hct & Ha & Hlam).
    exists memo, ct0, b0. split; [exact (stored_mono _ _ _ _ Hle1 Hm)|]. split; [done|]. split; [by apply Hle1|done].
  - exists cid, db'. rewrite El. unfold c1. rewrite edited_edited, edited_context. cbn [ctx_mutation with_mutation].
    rewrite Edb in Hle2, Hn2. split; [done|]. split; [split; [by transitivity db1|by transitivity db1]|]. split.
    + exists memo, bs. split; [done|]. split; [done|]. rewrite Hbody. split; [by eapply chunks_at_mono|done].
    + intros k memo' Hk -> Hst'. rewrite <- (stored_fun _ _ _ _ _ Hst Hst'). eapply Ho; [|done]. rewrite Edb. intros cid0 memo0 Hk0 Hst0.
      destruct (Hrep cid0 Hk0) as (memo1 & _ & _ & Hm1 & _). rewrite (stored_fun _ _ _ _ _ Hst0 Hm1). by eapply Hk.
Qed.

Lemma remove_spec c x slug :
  writable (sphere_context c) -> SphereContext.version c = Ok (ver_cid x) -> holds (context_db c) x ->
  (forall cid, (v_content (ver_value x)).1 !! slug = Some cid -> readable (context_db c) cid) ->
  remove (Url := Url) supported_keys fuel walk_fuel body_fuel clock net c slug =
    (Ok ((v_content (ver_value x)).1 !! slug),
     edited c (context_db c) (match (v_content (ver_value x)).1 !! slug with
       | Some _ => with_content (ctx_mutation (sphere_context c)) (Remove slug)
       | None => ctx_mutation (sphere_context c)
       end)).
Proof.
  intros Hw Hver Hx Hrd. unfold remove. rewrite edited_access by done. cbn [try_with]. set (c1 := edited c _ _).
  assert (context_db c1 = context_db c) as Edb by apply edited_db.
  assert (SphereContext.version c1 = Ok (ver_cid x)) as Hver1 by (unfold c1; by rewrite edited_version).
  rewrite <- Edb in Hx, Hrd. pose proof (read_spec c1 x slug Hver1 Hx) as Hr. destruct (_ !! slug) as [cid|].
  - destruct (Hr (Hrd cid eq_refl)) as (file & Eg & Er). destruct (get_file_spec c1 (ver_cid x) cid (Hrd cid eq_refl)) as (file' & Eg' & Hmv & _).
    assert (file' = file) as -> by congruence. rewrite Er. cbn [try_with]. rewrite Hmv. unfold update_content, c1.
    rewrite edited_put_mutation, edited_context. done.
  - rewrite Hr. done.
Qed.

(** *** Petnames *)
Lemma identities_lookup db x name : holds db x ->
  exists ipld ids, to_body db (ver_cid x) = Ok ipld /\ get_identities db (address_book ipld) = Ok ids /\
    (vm_get ids name).1 = Ok ((v_identities (ver_value x)).1 !! name).
Proof.
  intros (Hm & Hb & _ & (book & Hbk & Hi) & _). exists (ver_ipld x). unfold to_body, to_memo, get_identities.
  rewrite (stored_load _ _ _ Hm). cbn [outcome_bind]. rewrite (stored_load _ _ _ Hb), (stored_load _ _ _ Hbk). cbn [outcome_bind].
  eexists. split; [done|]. split; [done|].
  by destruct (vm_get_spec _ _ _ _ name (view_at _ _ _ _ Hi)) as (vm & -> & _).
Qed.

Lemma petname_entry_spec c x name : SphereContext.version c = Ok (ver_cid x) -> holds (context_db c) x ->
  petname_entry c name = Ok ((v_identities (ver_value x)).1 !! name).
Proof.
  intros Hver Hx. unfold petname_entry. rewrite Hver. cbn [outcome_bind].
  destruct (identities_lookup _ x name Hx) as (ipld & ids & -> & Ei & Eg). cbn [outcome_bind]. rewrite Ei. cbn [outcome_bind]. done.
Qed.

Lemma get_petname_spec c x name : SphereContext.version c = Ok (ver_cid x) -> holds (context_db c) x ->
  get_petname c name = Ok (peer_did <$> (v_identities (ver_value x)).1 !! name).
Proof. intros Hver Hx. unfold get_petname. by rewrite (petname_entry_spec c x name Hver Hx). Qed.

Definition with_identity (m : SphereMutation Cid) op : SphereMutation Cid :=
  mkSphereMutation (author_did m) (content_mutation m)
    (mkMapMutation (mutation_did (identities_mutation m)) (mutation_changes (identities_mutation m) ++ [op]))
    (delegations_mutation m) (revocations_mutation m).

(** What assigning [identity] to [name] does to the pending changes. *)
Definition petname_change (name : string) (identity current : option string) (m : SphereMutation Cid) : SphereMutation Cid :=
  if decide (identity = current) then m
  else with_identity m (match identity with Some did => Add name (mkIdentity did None) | None => Remove name end).

Lemma set_petname_spec c x name identity :
  writable (sphere_context c) -> SphereContext.version c = Ok (ver_cid x) -> holds (context_db c) x ->
  validate_petname name = Ok tt -> identity <> Some (ctx_identity (sphere_context c)) ->
  set_petname (Url := Url) supported_keys fuel walk_fuel clock c name identity =
    (Ok tt, edited c (context_db c) (petname_change name identity (peer_did <$> (v_identities (ver_value x)).1 !! name)
      (ctx_mutation (sphere_context c)))).
Proof.
  intros Hw Hver Hx Hval Hid. unfold set_petname. rewrite edited_access by done. cbn [try_with]. rewrite Hval. cbn [try_with].
  rewrite bool_decide_false by (rewrite edited_context; exact Hid).
  rewrite (get_petname_spec _ x name) by (rewrite ?edited_db, ?edited_version; done). cbn [try_with]. unfold petname_change.
  destruct (decide _) as [->|Hne]; [by rewrite bool_decide_true|]. rewrite bool_decide_false by done.
  unfold update_identities. rewrite edited_put_mutation, edited_context. by destruct identity.
Qed.
End content.
End context_facts.
