(* ===== verification/SphereEdits.v ===== *)
(** * Sequences of edits

    An application edits a sphere through its context: it writes and removes
    files, assigns petnames and saves, and any of these may fail.  Whatever the
    sequence, the context stays at a version that its database holds, the saved
    versions form a lineage of the author, and every file can be opened. *)
From stdpp Require Import base gmap list numbers strings pretty.
From Stdlib Require Import Ascii String.
From S2P Require Import Prelude BlockStore HamtNode HamtRep Hamt HamtSpec BTree SphereDb BodyChunk.
From S2P Require Import VersionedMap UcanCapability Ucan UcanChain Authority Memo.
From S2P Require Import Sphere SphereProofs SphereHistory SphereRebase Bundle BundleProofs SphereContext SphereContextProofs.
#[local] Open Scope list_scope.
#[local] Notation length := List.length (only parsing).

Inductive edit : Type :=
  | WriteFile (slug content_type : string) (contents : bytes)
  | RemoveFile (slug : string)
  | SetPetname (name : string) (identity : option string)
  | Save.

#[export] Instance edit_eq_dec : EqDecision edit.
Proof. solve_decision. Defined.

Section edits.
Context {Key Url Cid B KV Net : Type} `{UnicodeLaws}.
Context `{KeyMaterial Key} `{Bs58} `{Base64} `{DagJson UcanHeader} `{DagJson UcanPayload} `{UrlOps Url}.
Context `{Countable Cid} `{HashAlgorithmLaws string} `{HashAlgorithmLaws Cid} `{KeyOrderLaws Cid}.
Context `{CidLaws Cid} `{!BlockStore B Cid} `{!BlockStoreLaws B Cid} `{StoreLaws KV}.
Context `{!SphereCodecs Cid} `{!SphereCodecsLaws Cid} `{!EntryCodecs Cid} `{!EntryCodecsLaws Cid}.
Context `{!ContextCodecs Cid} `{!ContextCodecsLaws Cid} `{FastCdcLaws} `{!GatewayApi Net Key Cid}.
Context (supported_keys : list (bytes * (bytes -> outcome Key))).
Context (fuel walk_fuel body_fuel : nat) (clock : N) (net : Net).
Context (P : string -> Prop) (Q : Cid -> Prop) (HP : collision_free P) (HQ : collision_free Q).
Notation SphereDb := (SphereDb B KV).
Notation version := (SphereRebase.version (Cid := Cid)).
Notation context := (SphereContext (Key := Key) (Cid := Cid) (B := B) (KV := KV)).
Notation ready := (ready (Url := Url) clock P Q).
#[local] Existing Instance block_ucan_store.
Implicit Types (db : SphereDb) (ctx : context) (x y : version).

(** The context that an edit leaves, whatever it returns; [rng] is the nonce of a
    proof. *)
Definition run_edit (rng : bytes) ctx (e : edit) : context :=
  match e with
  | WriteFile slug content_type contents =>
      (write (Url := Url) supported_keys fuel walk_fuel body_fuel clock net ctx slug content_type (Ok contents) None).2
  | RemoveFile slug => (remove (Url := Url) supported_keys fuel walk_fuel body_fuel clock net ctx slug).2
  | SetPetname name identity => (set_petname (Url := Url) supported_keys fuel walk_fuel clock ctx name identity).2
  | Save => (default_save (Url := Url) clock rng ctx None).2
  end.

Definition edit_in (e : edit) : Prop :=
  match e with
  | WriteFile slug _ _ | RemoveFile slug => P slug
  | SetPetname name _ => P name
  | Save => True
  end.

(** ** The invariant *)

(** [cid] is a file that can be opened, of order at most [k]. *)
Definition file_below db (cid : Cid) (k : N) : Prop :=
  exists memo ct b, stored db cid memo /\ get_first_header memo CONTENT_TYPE = Some ct /\ authentic db (body memo) b /\
    (lamport_order memo <= k)%N.

(** So is every file of [x] and every file that [m] adds. *)
Definition files_below db x (m : SphereMutation Cid) (k : N) : Prop :=
  (forall slug cid, (v_content (ver_value x)).1 !! slug = Some cid -> file_below db cid k) /\
  (forall slug cid, Add slug cid ∈ mutation_changes (content_mutation m) -> file_below db cid k).

Record sound ctx x (did : string) (k : N) : Prop := {
  sound_ready : ready ctx x did;
  sound_files : files_below (ctx_db ctx) x (ctx_mutation ctx) k;
}.

Lemma file_below_mono db db' cid k k' : store_le db db' -> (k <= k')%N -> file_below db cid k -> file_below db' cid k'.
Proof.
  intros Hle Hk (memo & ct & b & Hm & Hct & Ha & Hl). exists memo, ct, b. split; [exact (stored_mono _ _ _ _ Hle Hm)|].
  split; [done|]. split; [by apply Hle|lia].
Qed.

Lemma files_below_mono db db' x m k k' : store_le db db' -> (k <= k')%N -> files_below db x m k -> files_below db' x m k'.
Proof. intros Hle Hk [Hx Hm]. split; intros slug cid Hs; eapply file_below_mono; eauto. Qed.

Lemma file_below_readable db cid k : file_below db cid k -> readable db cid.
Proof. intros (memo & ct & b & Hm & Hct & [Hg _] & _). by exists memo, ct, b. Qed.

Lemma file_at_below db cid ct b k : file_at db cid ct b -> (forall memo, stored db cid memo -> (lamport_order memo <= k)%N) ->
  file_below db cid k.
Proof.
  intros (memo & bs & Hm & Hct & Hch & _) Hk. inversion Hch as [|? ? ? ? Hc _]; subst.
  destruct (stored_authentic _ _ _ Hc) as (b' & _ & _ & Ha). exists memo, ct, b'. auto.
Qed.

(** The access cell has no part in it. *)
Lemma sound_access ctx x did k k' cell : sound ctx x did k -> (k <= k')%N -> sound (with_access ctx cell) x did k'.
Proof. intros [[] Hf] Hk. split; [by split|]. by eapply files_below_mono. Qed.

(** Blocks and pending changes may be added. *)
Lemma ready_edited ctx x did db m : ready ctx x did -> grown (ctx_db ctx) db ->
  mutation_in P Q m -> mutation_by m did -> author_did m = did -> ready (edited ctx db m) x did.
Proof.
  intros [[Hv Hx] Hval Hm Hby Hau Hs] [Hle Hn] M1 M2 M3.
  split; cbn; [|done|done|done|done|exact (can_sign_mono _ _ _ _ _ _ Hle Hs)].
  split; cbn; [rewrite <- Hv; by apply same_names_version|exact (holds_mono _ _ _ Hle Hx)].
Qed.

Lemma sound_edited ctx x did k k' db m : sound ctx x did k -> grown (ctx_db ctx) db -> (k <= k')%N ->
  mutation_in P Q m -> mutation_by m did -> author_did m = did ->
  (forall slug cid, Add slug cid ∈ mutation_changes (content_mutation m) ->
    Add slug cid ∈ mutation_changes (content_mutation (ctx_mutation ctx)) \/ file_below db cid k') ->
  sound (edited ctx db m) x did k'.
Proof.
  intros [Hr Hf] Hg Hk M1 M2 M3 Hfile. split; [by apply ready_edited|].
  destruct (files_below_mono _ _ _ _ _ k' (proj1 Hg) Hk Hf) as [F1 F2]. split; [done|]. cbn.
  intros slug cid Hadd. destruct (Hfile slug cid Hadd) as [Hin|Hb]; [by eapply F2|done].
Qed.

(** One more change of content or of a petname. *)
Lemma with_content_in (m : SphereMutation Cid) op did : mutation_in P Q m -> mutation_by m did -> author_did m = did -> P (change_key op) ->
  mutation_in P Q (with_content m op) /\ mutation_by (with_content m op) did /\ author_did (with_content m op) = did.
Proof.
  intros (M1 & M2 & M3 & M4) Hby Hau Hop. split; [|done]. split; [|done]. apply Forall_app. split; [done|]. by constructor.
Qed.

Lemma with_identity_in (m : SphereMutation Cid) op did : mutation_in P Q m -> mutation_by m did -> author_did m = did -> P (change_key op) ->
  mutation_in P Q (with_identity m op) /\ mutation_by (with_identity m op) did /\ author_did (with_identity m op) = did.
Proof.
  intros (M1 & M2 & M3 & M4) Hby Hau Hop. split; [|done]. split; [done|]. split; [|done]. apply Forall_app. split; [done|]. by constructor.
Qed.

(** ** Each edit keeps it *)
Notation writable := (writable (Url := Url) supported_keys fuel walk_fuel clock).

Lemma writable_cases ctx : writable ctx \/ ~ writable ctx.
Proof. unfold SphereContextProofs.writable. destruct (context_access _ _ _ _ _).1 as [[]| | |]; [by left|by right..]. Qed.

(** An author who may not write only fills the cell. *)
Lemma run_edit_denied rng ctx e : ~ writable ctx -> e <> Save -> exists cell, run_edit rng ctx e = with_access ctx cell.
Proof.
  intros Hw He. destruct (assert_write_access_err (Url := Url) (HasSphereContext0 := context_has_context) supported_keys fuel walk_fuel clock ctx Hw) as (cell & r & E & Hr). exists cell.
  destruct e; [..|done]; cbn [run_edit]; unfold write, remove, set_petname; rewrite E;
    (destruct r as [[]| | |]; [by destruct Hr|done..]).
Qed.

(** The context is still at [x], or at a version that was saved from it. *)
Definition steps ctx x did (k : N) ctx' : Prop :=
  store_le (ctx_db ctx) (ctx_db ctx') /\
  (sound ctx' x did k \/ exists m y, succeeds (eq did) (ctx_db ctx') x m y /\ sound ctx' y did k).

Lemma run_write_sound rng ctx x did k slug ct b : sound ctx x did k -> writable ctx -> P slug -> (k < 2 ^ 32 - 1)%N ->
  steps ctx x did (k + 1) (run_edit rng ctx (WriteFile slug ct b)).
Proof.
  intros Hs Hw Hslug Hk. pose proof Hs as [[[Hv Hx] Hval Hm Hby Hau Hsg] [Hf1 Hf2]]. cbn [run_edit].
  assert (steps ctx x did (k + 1) (edited ctx (ctx_db ctx) (ctx_mutation ctx))) as Hsame.
  { split; [done|]. left. eapply sound_edited; [exact Hs|done|lia|done|done|done|by left]. }
  destruct (decide (slug = "")) as [->|Hne].
  { unfold write. rewrite edited_access by done. exact Hsame. }
  destruct (decide (b = [])) as [->|Hb].
  { unfold write. rewrite edited_access by done. cbn [try_with]. unfold validate_slug. rewrite bool_decide_false by done. cbn [try_with].
    rewrite edited_db, store_bytes_empty. cbn [try_with snd]. rewrite edited_put_db. exact Hsame. }
  destruct (write_spec (Url := Url) (HasSphereContext0 := context_has_context) supported_keys fuel walk_fuel body_fuel clock net ctx x slug ct b None Hw Hne Hb) as (cid & db' & E & Hgr & Hfile & Ho).
  - by apply at_version_context.
  - exact Hx.
  - intros cid Hc. destruct (Hf1 _ _ Hc) as (memo & ct0 & b0 & Hm0 & Hct & Ha & Hl). exists memo, ct0, b0.
    split; [done|]. split; [done|]. split; [done|lia].
  - rewrite E. cbn [snd]. destruct (with_content_in (ctx_mutation ctx) (Add slug cid) did Hm Hby Hau Hslug) as (M1 & M2 & M3).
    split; [apply Hgr|]. left. eapply sound_edited; [exact Hs|done|lia|done|done|done|].
    intros slug' cid' [Hin|Hin]%elem_of_app; [by left|]. apply list_elem_of_singleton in Hin as [= -> ->]. right.
    eapply file_at_below; [exact Hfile|]. intros memo Hmemo. apply (Ho (k + 1)%N memo); [|done|done].
    intros cid0 memo0 Hc Hm0. destruct (Hf1 _ _ Hc) as (memo1 & _ & _ & Hm1 & _ & _ & Hl). rewrite (stored_fun _ _ _ _ _ Hm0 Hm1). lia.
Qed.

Lemma run_remove_sound rng ctx x did k slug : sound ctx x did k -> writable ctx -> P slug ->
  steps ctx x did (k + 1) (run_edit rng ctx (RemoveFile slug)).
Proof.
  intros Hs Hw Hslug. pose proof Hs as [[[Hv Hx] Hval Hm Hby Hau Hsg] [Hf1 Hf2]]. cbn [run_edit].
  rewrite (remove_spec (Url := Url) (HasSphereContext0 := context_has_context) supported_keys fuel walk_fuel body_fuel clock net ctx x slug Hw).
  - cbn [snd]. split; [done|]. left. destruct (with_content_in (ctx_mutation ctx) (Remove slug) did Hm Hby Hau Hslug) as (M1 & M2 & M3).
    destruct (_ !! slug); eapply sound_edited; try done; try lia; [|by left].
    intros slug' cid' [Hin|Hin]%elem_of_app; [by left|]. by apply list_elem_of_singleton in Hin.
  - by apply at_version_context.
  - exact Hx.
  - intros cid Hc. eapply file_below_readable, Hf1, Hc.
Qed.

Lemma run_petname_sound rng ctx x did k name identity : sound ctx x did k -> writable ctx -> P name ->
  steps ctx x did (k + 1) (run_edit rng ctx (SetPetname name identity)).
Proof.
  intros Hs Hw Hname. pose proof Hs as [[[Hv Hx] Hval Hm Hby Hau Hsg] [Hf1 Hf2]]. cbn [run_edit].
  assert (steps ctx x did (k + 1) (edited ctx (ctx_db ctx) (ctx_mutation ctx))) as Hsame.
  { split; [done|]. left. eapply sound_edited; [exact Hs|done|lia|done|done|done|by left]. }
  destruct (validate_petname name) as [[]| | |] eqn:Eval.
  2-4: unfold set_petname; rewrite edited_access by done; cbn [try_with]; rewrite Eval; exact Hsame.
  destruct (decide (identity = Some (ctx_identity ctx))) as [Hid|Hid].
  { unfold set_petname. rewrite edited_access by done. cbn [try_with]. rewrite Eval. cbn [try_with].
    rewrite bool_decide_true by exact Hid. exact Hsame. }
  rewrite (set_petname_spec (Url := Url) (HasSphereContext0 := context_has_context) supported_keys fuel walk_fuel clock ctx x name identity Hw (at_version_context _ _ (conj Hv Hx)) Hx Eval Hid).
  cbn [snd]. unfold petname_change. destruct (decide _) as [_|_]; [exact Hsame|]. set (op := match identity with Some _ => _ | None => _ end).
  assert (P (change_key op)) as Hop by (unfold op; by destruct identity).
  destruct (with_identity_in (ctx_mutation ctx) op did Hm Hby Hau Hop) as (M1 & M2 & M3).
  split; [done|]. left. eapply sound_edited; try done; [lia|by left].
Qed.

Lemma run_save_sound rng ctx x did k : sound ctx x did k -> (lamport_order (ver_memo x) + 1 < 2 ^ 32)%N ->
  steps ctx x did k (run_edit rng ctx Save).
Proof.
  intros [Hr Hf] Hlam. cbn [run_edit]. destruct (has_unsaved_changes ctx) eqn:Hun.
  - destruct (default_save_spec (Url := Url) clock P Q HP HQ rng ctx x did None Hr Hlam Hun eq_refl) as (y & ctx' & E & Hle & Hy & Hr' & Hun' & _).
    rewrite E. cbn [snd]. split; [done|]. right. exists (ctx_mutation ctx), y. split; [done|]. split; [done|].
    destruct (files_below_mono _ _ _ _ _ k Hle (N.le_refl k) Hf) as [F1 F2]. pose proof Hy as (_ & _ & Ev & _). split.
    + intros slug cid Hc. rewrite Ev in Hc. cbn in Hc. rewrite apply_part_fst in Hc. apply apply_ops_added in Hc as [Hc|Hc]; eauto.
    + unfold has_unsaved_changes in Hun'. cbn in Hun'. apply negb_false_iff in Hun'. unfold sphere_mutation_is_empty in Hun'.
      rewrite !andb_true_iff, !Nat.eqb_eq in Hun'. destruct Hun' as [[[Hc _] _] _]. apply nil_length_inv in Hc. rewrite Hc.
      by intros ? ? ?%elem_of_nil.
  - destruct (save_nothing (Url := Url) clock P Q HP HQ rng ctx x did None Hr Hlam Hun eq_refl) as (db' & E & Hle & Hn).
    rewrite E. cbn [snd]. split; [done|]. left. destruct Hr as [[Hv Hx] Hval Hm Hby Hau Hs]. split.
    + split; cbn; [|done|done|done|done|exact (can_sign_mono _ _ _ _ _ _ Hle Hs)].
      split; cbn; [rewrite <- Hv; by apply same_names_version|exact (holds_mono _ _ _ Hle Hx)].
    + cbn. eapply files_below_mono; [exact Hle|apply N.le_refl|exact Hf].
Qed.

Lemma steps_weaken ctx x did k k' ctx' : steps ctx x did k ctx' -> (k <= k')%N -> steps ctx x did k' ctx'.
Proof.
  assert (forall x, sound ctx' x did k -> (k <= k')%N -> sound ctx' x did k') as Hw.
  { intros x' [Hr Hf] Hk. split; [done|]. by eapply files_below_mono. }
  intros [Hle [Hs|(m & y & Hy & Hs)]] Hk; (split; [done|]); [left; by apply Hw|]. right. exists m, y. split; [done|]. by apply Hw.
Qed.

Lemma run_edit_sound rng ctx x did k e : sound ctx x did k -> edit_in e -> (k < 2 ^ 32 - 1)%N ->
  (lamport_order (ver_memo x) + 1 < 2 ^ 32)%N -> steps ctx x did (k + 1) (run_edit rng ctx e).
Proof.
  intros Hs He Hk Hlam. destruct (decide (e = Save)) as [->|Hne].
  { eapply steps_weaken; [by apply run_save_sound|lia]. }
  destruct (writable_cases ctx) as [Hw|Hw].
  - destruct e; [by apply run_write_sound|by apply run_remove_sound|by apply run_petname_sound|done].
  - destruct (run_edit_denied rng ctx e Hw Hne) as [cell ->]. split; [done|]. left. eapply sound_access; [exact Hs|lia].
Qed.

(** ** Sequences *)
Definition run_edits (es : list (bytes * edit)) ctx : context := foldl (fun ctx e => run_edit e.1 ctx e.2) ctx es.

Lemma run_edits_sound es : forall ctx x did k, sound ctx x did k -> Forall (fun e => edit_in e.2) es ->
  (k + N.of_nat (length es) < 2 ^ 32)%N -> (lamport_order (ver_memo x) + N.of_nat (length es) < 2 ^ 32)%N ->
  exists l, store_le (ctx_db ctx) (ctx_db (run_edits es ctx)) /\ lineage (eq did) (ctx_db (run_edits es ctx)) x l /\
    sound (run_edits es ctx) (tip x l) did (k + N.of_nat (length es)) /\ length l <= length es.
Proof.
  induction es as [|[rng e] es IH]; intros ctx x did k Hs He Hk Hlam.
  { exists []. cbn. rewrite N.add_0_r. split; [done|]. split; [constructor; apply Hs|]. split; [done|lia]. }
  apply Forall_cons_1 in He as [He Hes]. cbn [length fst snd] in *. unfold run_edits. cbn [foldl fst snd]. fold (run_edits es (run_edit rng ctx e)).
  destruct (run_edit_sound rng ctx x did k e Hs He) as [Hle Hcase]; [lia|lia|].
  replace (k + N.of_nat (S (length es)))%N with (k + 1 + N.of_nat (length es))%N by lia.
  destruct Hcase as [Hs'|(m & y & Hy & Hs')].
  - destruct (IH _ x did (k + 1)%N Hs' Hes) as (l & Hle' & Hl & Hs2 & Hlen); [lia|lia|]. exists l.
    split; [by transitivity (ctx_db (run_edit rng ctx e))|]. split; [done|]. split; [done|lia].
  - pose proof Hy as (_ & _ & _ & _ & _ & El & _).
    destruct (IH _ y did (k + 1)%N Hs' Hes) as (l & Hle' & Hl & Hs2 & Hlen); [lia|rewrite El; lia|]. exists ((m, y) :: l).
    split; [by transitivity (ctx_db (run_edit rng ctx e))|]. split; [|split; [done|cbn; lia]].
    constructor; [|exact (succeeds_mono _ _ _ _ _ _ Hle' Hy)|done].
    eapply holds_mono; [|apply Hs]. by transitivity (ctx_db (run_edit rng ctx e)).
Qed.
End edits.
