(* ===== verification/SphereWalker.v ===== *)
(** * Walking a sphere and its history

    Model of the changelog streams and of the traversal by petname of
    [noosphere-core/src/view/sphere.rs], of the [SphereWalker]
    (context/walker.rs), of [get_assigned_petnames] (context/petname/read.rs) with
    its cache in the metadata of the database, and of the traversal of a cursor
    (context/cursor.rs), which replicates from the gateway what is missing.

    A [try_stream!] is the items that it yields and how it ends.  A [BTreeSet] of
    names is a [gset]. *)
From stdpp Require Import base gmap list numbers strings pretty.
From Stdlib Require Import Ascii String.
From S2P Require Import Prelude BlockStore HamtNode HamtRep Hamt BTree SphereDb BodyChunk VersionedMap.
From S2P Require Import UcanCapability Ucan UcanChain Authority Memo Sphere SphereHistory Bundle SphereContext.
#[local] Open Scope list_scope.
#[local] Notation length := List.length (only parsing).

Notation stream A := (list A * outcome unit)%type.

(** [e?] inside a [try_stream!]. *)
Definition try_stream {A B} (m : outcome A) (k : A -> stream B) : stream B :=
  match m with
  | Ok a => k a
  | Err e => ([], Err e)
  | Panic w => ([], Panic w)
  | Diverge => ([], Diverge)
  end.

(** [fold] over the items of a stream; what the error ends is kept. *)
Definition collect_items {A} (s : stream A) : outcome (list A) :=
  match s.2 with
  | Ok _ | Err _ => Ok s.1
  | Panic w => Panic w
  | Diverge => Diverge
  end.

#[export] Instance ContentType_eq_dec : EqDecision ContentType.t.
Proof. solve_decision. Defined.

(** ** The changelogs of a history (view/sphere.rs) *)
Section changelogs.
Context {Cid S : Type} `{Unicode}.
Context `{EqDecision Cid} `{HashAlgorithm string} `{HashAlgorithm Cid} `{KeyOrder Cid}.
Context `{CidOps Cid} `{!BlockStore S Cid} `{!SphereCodecs Cid}.
Implicit Types (s : S) (cid : Cid).

Section part.
Context {K V : Type} `{!BlockCodec (ChangelogIpld (MapOperation K V))} (s : S) (part : Cid -> outcome (VersionedMap K V Cid S)).

(** One turn of the loop: the changelog of a version whose map is not that of its
    parent. *)
Definition version_changelog (cid : Cid) (parent : option Cid) : outcome (option (ChangelogIpld (MapOperation K V))) :=
  let? parent_sphere := match parent with Some _ => Ok parent | None => get_parent s cid end in
  let? map := part cid in
  let? may_yield_changelog :=
    match parent_sphere with
    | Some parent_sphere => let? parent_map := part parent_sphere in Ok (negb (bool_decide (vm_cid map = vm_cid parent_map)))
    | None => Ok true
    end in
  if may_yield_changelog then
    let? changelog := (vm_load_changelog map).1 in Ok (if changelog_is_empty changelog then None else Some changelog)
  else Ok None.

Fixpoint changelog_loop (history : list Cid) (parent : option Cid) : stream (Cid * ChangelogIpld (MapOperation K V)) :=
  match history with
  | [] => ([], Ok tt)
  | cid :: history' =>
      try_stream (version_changelog cid parent) (fun found =>
        let '(items, r) := changelog_loop history' (Some cid) in
        (match found with Some changelog => (cid, changelog) :: items | None => items end, r))
  end.

(** The history is collected first, newest version first, and an error, if any,
    is its last item. *)
Definition changelog_stream (fuel : nat) cid (since : option Cid) : stream (Cid * ChangelogIpld (MapOperation K V)) :=
  let '(items, r) := into_history_stream fuel s cid since in
  try_stream r (fun _ => changelog_loop (reverse items.*1) None).
End part.

Definition identities_at s cid : outcome (VersionedMap string (IdentityIpld Cid) Cid S) :=
  let? ipld := to_body s cid in get_identities s (address_book ipld).

Definition into_identities_changelog_stream (fuel : nat) s cid (since : option Cid)
    : stream (Cid * ChangelogIpld (MapOperation string (IdentityIpld Cid))) :=
  changelog_stream s (identities_at s) fuel cid since.

Definition into_content_changelog_stream (fuel : nat) s cid (since : option Cid)
    : stream (Cid * ChangelogIpld (MapOperation string Cid)) :=
  changelog_stream s (get_content s) fuel cid since.
End changelogs.

(** The keys that a changelog names. *)
Definition changed_keys {V} (log : ChangelogIpld (MapOperation string V)) : gset string :=
  list_to_set (change_key <$> log_changes log).

Section walker.
Context {Key Url Cid B KV Net : Type} `{Unicode}.
Context `{KeyMaterial Key} `{Bs58} `{Base64} `{DagJson UcanHeader} `{DagJson UcanPayload} `{UrlOps Url}.
Context `{Countable Cid} `{HashAlgorithm string} `{HashAlgorithm Cid} `{KeyOrder Cid}.
Context `{CidOps Cid} `{!BlockStore B Cid} `{Store KV} `{!SphereCodecs Cid} `{!EntryCodecs Cid} `{!ContextCodecs Cid}.
Context `{FastCdc} `{!GatewayApi Net Key Cid}.
Context (fuel walk_fuel body_fuel : nat) (net : Net).
Notation SphereDb := (SphereDb B KV).
#[local] Existing Instance block_ucan_store.
Context {C : Type} `{!HasSphereContext (Key := Key) (Cid := Cid) (B := B) (KV := KV) C}.
Implicit Types (c : C) (db : SphereDb).

(** ** The walker (context/walker.rs); [fuel] bounds the versions of a history *)

(** The loop of [authorization_stream]. *)
Fixpoint authorization_loop db (entries : list (Cid * DelegationIpld Cid)) (ending : outcome unit)
    : stream (string * string * Cid) :=
  match entries with
  | [] => ([], ending)
  | (link, delegation) :: entries' =>
      try_stream (delegation_resolve_ucan delegation db) (fun ucan =>
        let '(items, r) := authorization_loop db entries' ending in
        ((delegation_name delegation, audience ucan, link) :: items, r))
  end.

Definition authorization_stream c : stream (string * string * Cid) :=
  try_stream (version c) (fun sphere =>
    try_stream (delegation_entries walk_fuel (context_db c) sphere) (fun '(entries, ending) =>
      authorization_loop (context_db c) entries ending)).

Definition list_authorizations c : outcome (gset Cid) :=
  let? items := collect_items (authorization_stream c) in Ok (list_to_set items.*2).

Definition petname_stream c : stream (string * IdentityIpld Cid) :=
  try_stream (version c) (fun sphere =>
    try_stream (identities_at (context_db c) sphere) (fun petnames =>
      try_stream (vm_into_stream walk_fuel petnames) (fun entries => entries))).

Definition petname_change_stream c (since : option Cid) : stream (Cid * gset string) :=
  try_stream (version c) (fun sphere =>
    let '(items, r) := into_identities_changelog_stream fuel (context_db c) sphere since in
    ((fun item => (item.1, changed_keys item.2)) <$> items, r)).

Definition list_petnames c : outcome (gset string) :=
  let? items := collect_items (petname_stream c) in Ok (list_to_set items.*1).

Definition petname_changes c (since : option Cid) : outcome (gset string) :=
  let? items := collect_items (petname_change_stream c since) in Ok (⋃ items.*2).

(** The loop of [content_stream], which may replicate bodies. *)
Fixpoint content_loop (sphere : Cid) (entries : list (string * Cid)) (ending : outcome unit) c
    : stream (string * SphereFile Cid) * C :=
  match entries with
  | [] => (([], ending), c)
  | (key, memo) :: entries' =>
      match get_file body_fuel net c sphere memo with
      | (Ok file, c) => let '((items, r), c) := content_loop sphere entries' ending c in (((key, file) :: items, r), c)
      | (Err e, c) => (([], Err e), c)
      | (Panic w, c) => (([], Panic w), c)
      | (Diverge, c) => (([], Diverge), c)
      end
  end.

Definition content_stream c : stream (string * SphereFile Cid) * C :=
  match (let? sphere := version c in
         let? links := get_content (context_db c) sphere in
         let? entries := vm_into_stream walk_fuel links in Ok (sphere, entries)) with
  | Ok (sphere, (entries, ending)) => content_loop sphere entries ending c
  | Err e => (([], Err e), c)
  | Panic w => (([], Panic w), c)
  | Diverge => (([], Diverge), c)
  end.

Definition content_change_stream c (since : option Cid) : stream (Cid * gset string) :=
  try_stream (version c) (fun sphere =>
    let '(items, r) := into_content_changelog_stream fuel (context_db c) sphere since in
    ((fun item => (item.1, changed_keys item.2)) <$> items, r)).

Definition list_slugs c : outcome (gset string) * C :=
  let '(items, c) := content_stream c in
  let? items := collect_items items keeping c in (Ok (list_to_set items.*1), c).

Definition content_changes c (since : option Cid) : outcome (gset string) :=
  let? items := collect_items (content_change_stream c since) in Ok (⋃ items.*2).

(** ** The petnames of a peer (context/petname/read.rs) *)
Definition assigned_petnames_cache_key (origin peer : string) (origin_version : Cid) : string :=
  "noosphere:cache:petname:assigned:" +:+ origin +:+ ":" +:+ peer +:+ ":" +:+ cid_to_string origin_version.

Definition sphere_checkpoint_cache_key (origin : string) (origin_version : Cid) : string :=
  "noosphere:cache:petname:checkpoint:" +:+ origin +:+ ":" +:+ cid_to_string origin_version.

(** The [BTreeMap] from each DID to its petnames. *)
Definition group_petnames (items : list (string * IdentityIpld Cid)) : list (string * list string) :=
  foldl (fun did_petnames item =>
    let did := peer_did item.2 in
    match btree_get did_petnames did with
    | Some petnames => btree_insert did_petnames did (petnames ++ [item.1])
    | None => btree_insert did_petnames did [item.1]
    end) [] items.

Definition get_assigned_petnames c (peer : string) : outcome (list string) * C :=
  let? sphere_version := version c keeping c in
  let origin := ctx_identity (sphere_context c) in
  let? cached := db_get_key (V := list string) (context_db c) (assigned_petnames_cache_key origin peer sphere_version) keeping c in
  match cached with
  | Some names => (Ok names, c)
  | None =>
      let checkpoint_key := sphere_checkpoint_cache_key origin sphere_version in
      let? checkpoint := db_get_key (V := N) (context_db c) checkpoint_key keeping c in
      match checkpoint with
      | Some _ => (Ok [], c)
      | None =>
          let '(items, ending) := petname_stream c in
          let? _ := ending keeping c in
          let did_petnames := group_petnames items in
          let '(r, db) := for_each_st (fun entry db =>
            db_set_key db (assigned_petnames_cache_key origin entry.1 sphere_version) entry.2) did_petnames (context_db c) in
          let c := put_db c db in
          let? _ := r keeping c in
          let '(r, db) := db_set_key (context_db c) checkpoint_key 1%N in
          let c := put_db c db in
          let? _ := r keeping c in
          (Ok (default [] (btree_get did_petnames peer)), c)
      end
  end.

(** ** Traversal by petname (view/sphere.rs) *)

(** Whether the version of a peer that its link record names must be replicated,
    and since which version that can be done. *)
Definition replication_plan db (local_version : option Cid) (link_record_version : Cid) : outcome (bool * option Cid) :=
  if bool_decide (local_version = Some link_record_version) then
    match load db link_record_version with
    | Ok memo =>
        if bool_decide (content_type (memo : MemoIpld Cid) = Some ContentType.Sphere) then
          match load (T := SphereIpld Cid) db (body memo) with
          | Ok _ => Ok (false, local_version)
          | Err _ => Ok (true, None)
          | Panic w => Panic w
          | Diverge => Diverge
          end
        else Err "Resolved content does not refer to a sphere"
    | Err _ => Ok (true, None)
    | Panic w => Panic w
    | Diverge => Diverge
    end
  else Ok (true, local_version).

Section traverse.
Context (replicate : Cid -> option Cid -> C -> outcome unit * C).

Definition traverse_by_petname (sphere : Cid) (petname : string) c : outcome (option Cid) * C :=
  let? identities := identities_at (context_db c) sphere keeping c in
  let? identity := (vm_get identities petname).1 keeping c in
  match identity with
  | None => (Ok None, c)
  | Some identity =>
      let? record := identity_link_record (context_db c) identity keeping c in
      match (match record with Some record => get_link record | None => None end) with
      | None => (Err "No version has been resolved", c)
      | Some link_record_version =>
          let? local_version := get_version (context_db c) (peer_did identity) keeping c in
          let? (replication_required, target_version) := replication_plan (context_db c) local_version link_record_version keeping c in
          if replication_required : bool then
            match replicate link_record_version target_version c with
            | (Ok _, c) => (Ok (Some link_record_version), c)
            | (Err e, c) => (match local_version with Some local_version => Ok (Some local_version) | None => Err e end, c)
            | (Panic w, c) => (Panic w, c)
            | (Diverge, c) => (Diverge, c)
            end
          else (Ok (Some link_record_version), c)
      end
  end.

(** The loop over the path, last petname first; [sphere] is where it has got. *)
Fixpoint traverse_loop (root : Cid) (path : list string) (sphere : option Cid) c : outcome (option Cid) * C :=
  match path with
  | [] => (Ok sphere, c)
  | petname :: path' =>
      let '(r, c) := traverse_by_petname (default root sphere) petname c in
      let? next_sphere := r keeping c in
      match next_sphere with
      | Some _ => traverse_loop root path' next_sphere c
      | None => (Ok None, c)
      end
  end.

Definition sphere_traverse_by_petnames (sphere : Cid) (petname_path : list string) c : outcome (option Cid) * C :=
  traverse_loop sphere (reverse petname_path) None c.
End traverse.

(** ** Traversal of a cursor (context/cursor.rs) *)

(** Whether a block of a replication stream comes too late, and after how many
    blocks; [StreamLatencyGuard] then ends the wait. *)
Context (late : Net -> Session -> Cid -> option (ReplicateParameters Cid) -> option nat).

(** The [select!]: the outcome of [put_block_stream] is dropped. *)
Definition guarded_put db (guard : option nat) (blocks : block_stream Cid) : outcome unit * SphereDb :=
  let '(r, db) :=
    match guard with
    | Some n => put_block_stream db (take n blocks.1, Ok tt)
    | None => put_block_stream db blocks
    end in
  match r, guard with
  | Ok _, Some _ => (Err "Block timed out", db)
  | Ok _, None | Err _, _ => (Ok tt, db)
  | Panic w, _ => (Panic w, db)
  | Diverge, _ => (Diverge, db)
  end.

Definition replicate_peer (peer_version : Cid) (since : option Cid) c : outcome unit * C :=
  let parameters := (fun since => mkReplicate (Some since) false) <$> since in
  let '(r, ctx) := context_client net (sphere_context c) in
  let c := put_context c ctx in
  let? session := r keeping c in
  let? blocks := net_replicate net session peer_version parameters keeping c in
  let '(r, db) := guarded_put (context_db c) (late net session peer_version parameters) blocks in
  let c := put_db c db in
  let? _ := r keeping c in
  match since with
  | None => (Ok tt, c)
  | Some since =>
      let? since_memo := load_from (context_db c) since keeping c in
      let? latest_memo := load_from (context_db c) peer_version keeping c in
      if (lamport_order since_memo <? lamport_order latest_memo)%N then
        let '(r, db) := hydrate_timeslice fuel (exclude_past (slice peer_version (Some since))) (context_db c) in
        (r, put_db c db)
      else (Ok tt, c)
  end.

Definition cursor_traverse_by_petnames (cursor : SphereCursor C Cid) (petname_path : list string)
    : outcome (option (SphereCursor C Cid)) * SphereCursor C Cid :=
  let? sphere := version cursor keeping cursor in
  let '(r, c) := sphere_traverse_by_petnames replicate_peer sphere petname_path (cursor_inner cursor) in
  let cursor := mkCursor c (cursor_version cursor) in
  let? found := r keeping cursor in
  match found with
  | None => (Ok None, cursor)
  | Some peer =>
      let? ipld := to_body (context_db c) peer keeping cursor in
      let peer_identity := Sphere.identity (ipld : SphereIpld Cid) in
      let? local_version := get_version (context_db c) peer_identity keeping cursor in
      let? should_update_version :=
        match local_version with
        | Some since =>
            let? since_memo := to_memo (context_db c) since in
            let? latest_memo := to_memo (context_db c) peer in
            Ok (lamport_order since_memo <? lamport_order latest_memo)%N
        | None => Ok true
        end keeping cursor in
      let '(r, db) :=
        if should_update_version : bool then set_version (context_db c) peer_identity peer else (Ok tt, context_db c) in
      let c := put_db c db in
      let cursor := mkCursor c (cursor_version cursor) in
      let? _ := r keeping cursor in
      let? peer_context := to_visitor (Cid := Cid) (sphere_context c) peer_identity keeping cursor in
      (Ok (Some (mounted_at (wrap peer_context) peer)), cursor)
  end.
End walker.
