(* ===== verification/SphereWalkerProofs.v ===== *)
(** * Facts about walking a sphere

    The changelog streams over a lineage yield the changelogs of the versions that
    changed a map; the petnames of a peer are those that the address book assigns
    to it, before and after they are cached. *)
From stdpp Require Import base gmap list numbers strings pretty.
From Stdlib Require Import Ascii String.
From S2P Require Import Prelude BlockStore HamtNode HamtRep Hamt HamtSpec BTree SphereDb BodyChunk.
From S2P Require Import VersionedMap UcanCapability Ucan UcanChain Authority Memo.
From S2P Require Import Sphere SphereProofs SphereHistory SphereRebase Bundle BundleProofs.
From S2P Require Import SphereContext SphereContextProofs SphereWalker.
#[local] Open Scope list_scope.
#[local] Notation length := List.length (only parsing).

(** ** Changelogs of a lineage *)
Section changelogs.
Context {Cid S : Type} `{UnicodeLaws}.
Context `{Countable Cid} `{HashAlgorithmLaws string} `{HashAlgorithmLaws Cid} `{KeyOrderLaws Cid}.
Context `{CidLaws Cid} `{!BlockStore S Cid} `{!BlockStoreLaws S Cid} `{!SphereCodecs Cid} `{!SphereCodecsLaws Cid}.
Notation version := (SphereRebase.version (Cid := Cid)).
Notation SphereMutation := (SphereMutation Cid).
Notation value := (sphere_value Cid).
Implicit Types (s : S) (c : Cid) (x y : version) (l : list (SphereMutation * version)).

(** The history that a stream collects. *)
Lemma lineage_history A s x l fuel : lineage A s x l -> ver_cid x ∉ cids l -> l <> [] -> length l <= fuel ->
  into_history_stream fuel s (ver_cid (tip x l)) (Some (ver_cid x)) =
    (reverse ((fun my => (ver_cid my.2, ver_memo my.2)) <$> l), Ok tt).
Proof.
  intros Hl Hx Hne Hf. unfold into_history_stream. rewrite (lineage_stream A s s x l fuel Hl (lineage_memos _ _ _ _ Hl) Hx Hne Hf).
  set (items := reverse _). assert (ver_cid x ∉ items.*1) as Hn by (unfold items; by rewrite fmap_reverse, elem_of_reverse, cids_walk).
  assert (until_since (Some (ver_cid x)) items = (items, false)) as ->; [|done].
  clearbody items. induction items as [|[c memo] items IH]; [done|]. cbn in Hn. apply not_elem_of_cons in Hn as [Hc Hn].
  cbn [until_since]. rewrite bool_decide_false by congruence. by rewrite IH.
Qed.

Section part.
Context {V : Type} `{EqDecision V} `{!BlockCodec (wire_node string V Cid)} `{!BlockCodecLaws Cid (wire_node string V Cid)}.
Context `{!BlockCodec (ChangelogIpld (MapOperation string V))} `{!BlockCodecLaws Cid (ChangelogIpld (MapOperation string V))}.
Context (s : S) (part : Cid -> outcome (VersionedMap string V Cid S)).
Context (pv : value -> logged string V) (pm : SphereMutation -> VersionedMapMutation string V).
Context (part_spec : forall x, holds s x -> exists c, part (ver_cid x) = Ok (vm_at c s) /\ part_at s c (pv (ver_value x))).
Context (apply_spec : forall m v, pv (apply_value m v) = apply_part (pm m) (pv v)).
Notation changes m := (mutation_changes (pm m)).

(** What the versions made from [x] say they changed in the map. *)
Fixpoint lineage_logs x l : list (Cid * ChangelogIpld (MapOperation string V)) :=
  match l with
  | [] => []
  | (m, y) :: l' =>
      (if decide (pv (ver_value y) = pv (ver_value x)) then []
       else [(ver_cid y, mkChangelog (Some (mutation_did (pm m))) (changes m))]) ++ lineage_logs y l'
  end.

Lemma version_changelog_spec A x m y parent : holds s x -> succeeds A s x m y -> parent = None \/ parent = Some (ver_cid x) ->
  version_changelog s part (ver_cid y) parent =
    Ok (if decide (pv (ver_value y) = pv (ver_value x)) then None
        else Some (mkChangelog (Some (mutation_did (pm m))) (changes m))).
Proof.
  intros Hx (Hy & Hp & Ev & _) Hpar. unfold version_changelog.
  assert ((match parent with Some _ => Ok parent | None => get_parent s (ver_cid y) end) = Ok (Some (ver_cid x))) as ->.
  { destruct Hpar as [->| ->]; [|done]. unfold get_parent, to_memo. destruct Hy as (Hm & _). rewrite (stored_load _ _ _ Hm).
    cbn [outcome_bind]. by rewrite Hp. }
  cbn [outcome_bind]. destruct (part_spec y Hy) as (cy & -> & Hcy), (part_spec x Hx) as (cx & -> & Hcx). cbn [outcome_bind vm_cid vm_at].
  rewrite Ev, apply_spec in *. destruct (decide _) as [E|E].
  - rewrite E in Hcy. rewrite (part_at_cid _ _ _ _ _ Hcy Hcx), bool_decide_true by done. done.
  - rewrite bool_decide_false by (intros ->; exact (E (part_at_fun _ _ _ _ Hcy Hcx))). cbn [negb].
    pose proof (log_at_get _ _ _ (part_log_at _ _ _ Hcy)) as Hlog. unfold get_changelog in Hlog. cbn [vm_at vm_changelog] in Hlog.
    destruct (vm_load_changelog (vm_at cy s)) as [[log| | |] vm]; cbn [try_with fst] in Hlog; try done. cbn [fst outcome_bind].
    injection Hlog as ->. unfold apply_part in *. destruct (no_changes (pm m)) eqn:En; [done|]. cbn [snd].
    unfold changelog_is_empty. cbn [log_changes]. destruct (changes m) eqn:Ec; [|done]. apply no_changes_true in Ec. congruence.
Qed.

Lemma changelog_loop_spec A x l parent : lineage A s x l -> parent = None \/ parent = Some (ver_cid x) ->
  changelog_loop s part (cids l) parent = (lineage_logs x l, Ok tt).
Proof.
  intros Hl. revert parent. induction Hl as [x Hx|x m y l Hx Hy Hl IH]; intros parent Hpar; [done|].
  change (cids ((m, y) :: l)) with (ver_cid y :: cids l). cbn [changelog_loop]. rewrite (version_changelog_spec A x m y parent Hx Hy Hpar).
  cbn [try_stream]. rewrite (IH (Some (ver_cid y))) by by right. cbn [lineage_logs]. by destruct (decide _).
Qed.

Lemma changelog_stream_spec A x l fuel : lineage A s x l -> ver_cid x ∉ cids l -> l <> [] -> length l <= fuel ->
  changelog_stream s part fuel (ver_cid (tip x l)) (Some (ver_cid x)) = (lineage_logs x l, Ok tt).
Proof.
  intros Hl Hx Hne Hf. unfold changelog_stream. rewrite (lineage_history A s x l fuel Hl Hx Hne Hf). cbn [try_stream].
  rewrite fmap_reverse, reverse_involutive, cids_walk. apply (changelog_loop_spec A); [done|by left].
Qed.

(** The keys that the logs name: all whose value differs, and no key that was not
    in some change. *)
Lemma lineage_logs_complete A x l k : lineage A s x l -> (pv (ver_value (tip x l))).1 !! k <> (pv (ver_value x)).1 !! k ->
  exists c log, (c, log) ∈ lineage_logs x l /\ k ∈ changed_keys log.
Proof.
  induction 1 as [x Hx|x m y l Hx Hy Hl IH]; intros Hk; [done|]. cbn [tip lineage_logs] in *.
  destruct (decide ((pv (ver_value y)).1 !! k = (pv (ver_value x)).1 !! k)) as [E|E].
  - destruct IH as (c & log & Hin & Hkl); [by rewrite E|]. exists c, log. split; [|done]. apply elem_of_app. by right.
  - rewrite decide_False by congruence. eexists _, _. split; [left|]. unfold changed_keys. cbn [log_changes].
    apply elem_of_list_to_set. destruct Hy as (_ & _ & Ev & _). rewrite Ev, apply_spec, apply_part_fst in E. clear -E.
    generalize dependent (pv (ver_value x)).1. generalize (changes m) as ops. induction ops as [|op ops IH]; intros g E; [done|].
    rewrite apply_ops_cons in E. rewrite fmap_cons. apply elem_of_cons. destruct (decide (change_key op = k)) as [->|Hne]; [by left|right].
    apply (IH (apply_op g op)). rewrite apply_op_lookup, decide_False in * by done. done.
Qed.

Lemma lineage_logs_sound x l c log k : (c, log) ∈ lineage_logs x l -> k ∈ changed_keys log ->
  exists m y, (m, y) ∈ l /\ ver_cid y = c /\ k ∈ change_key <$> changes m.
Proof.
  revert x. induction l as [|[m y] l IH]; intros x Hin Hk; [by apply elem_of_nil in Hin|]. cbn [lineage_logs] in Hin.
  apply elem_of_app in Hin as [Hin|Hin].
  - destruct (decide _); [by apply elem_of_nil in Hin|]. apply list_elem_of_singleton in Hin as [= -> ->].
    exists m, y. split; [left|]. split; [done|]. unfold changed_keys in Hk. by apply elem_of_list_to_set in Hk.
  - destruct (IH y Hin Hk) as (m' & y' & ? & ? & ?). exists m', y'. split; [by right|done].
Qed.
End part.

(** The two maps whose changes are walked. *)
Lemma content_part_spec s x : holds s x -> exists c, get_content s (ver_cid x) = Ok (vm_at c s) /\ part_at s c (v_content (ver_value x)).
Proof.
  intros (Hm & Hb & Hc & _). exists (content (ver_ipld x)). split; [|done]. unfold get_content, to_body, to_memo.
  rewrite (stored_load _ _ _ Hm). cbn [outcome_bind]. by rewrite (stored_load _ _ _ Hb).
Qed.

Lemma identities_part_spec s x : holds s x -> exists c, identities_at s (ver_cid x) = Ok (vm_at c s) /\ part_at s c (v_identities (ver_value x)).
Proof.
  intros (Hm & Hb & _ & (book & Hbk & Hi) & _). exists (identities book). split; [|done]. unfold identities_at, to_body, to_memo, get_identities.
  rewrite (stored_load _ _ _ Hm). cbn [outcome_bind]. rewrite (stored_load _ _ _ Hb). cbn [outcome_bind]. by rewrite (stored_load _ _ _ Hbk).
Qed.
End changelogs.

(** ** Walkers *)
Section walkers.
Context {Key Cid B KV : Type} `{UnicodeLaws}.
Context `{Base64} `{DagJson UcanHeader} `{DagJson UcanPayload}.
Context `{Countable Cid} `{HashAlgorithmLaws string} `{HashAlgorithmLaws Cid} `{KeyOrderLaws Cid}.
Context `{CidLaws Cid} `{!BlockStore B Cid} `{!BlockStoreLaws B Cid} `{StoreLaws KV}.
Context `{!SphereCodecs Cid} `{!SphereCodecsLaws Cid} `{!EntryCodecs Cid} `{!EntryCodecsLaws Cid}.
Context `{!ContextCodecs Cid} `{!ContextCodecsLaws Cid}.
Context (fuel walk_fuel : nat).
Context {C : Type} `{!HasSphereContext (Key := Key) (Cid := Cid) (B := B) (KV := KV) C} `{!HasSphereContextLaws C}.
Notation version := (SphereRebase.version (Cid := Cid)).
Implicit Types (c : C) (x y : version).

(** The slugs, or the petnames, that changed since [x]. *)
Definition changed_exactly {V} (pv : sphere_value Cid -> logged string V) (pm : SphereMutation Cid -> VersionedMapMutation string V)
    x (l : list (SphereMutation Cid * version)) (names : gset string) : Prop :=
  (forall k, (pv (ver_value (tip x l))).1 !! k <> (pv (ver_value x)).1 !! k -> k ∈ names) /\
  (forall k, k ∈ names -> exists m y, (m, y) ∈ l /\ k ∈ change_key <$> mutation_changes (pm m)).

Lemma logs_changed {V} `{EqDecision V} (pv : sphere_value Cid -> logged string V) pm A s x l :
  (forall m v, pv (apply_value m v) = apply_part (pm m) (pv v)) -> lineage (S := SphereDb B KV) A s x l ->
  changed_exactly pv pm x l (⋃ ((fun item => (item.1, changed_keys item.2)) <$> lineage_logs pv pm x l).*2).
Proof.
  intros Hap Hl. split.
  - intros k Hk. destruct (lineage_logs_complete s pv pm Hap A x l k Hl Hk) as (c & log & Hin & Hkl).
    apply elem_of_union_list. exists (changed_keys log). split; [|done]. rewrite <- list_fmap_compose.
    apply list_elem_of_fmap. by exists (c, log).
  - intros k (names & Hn & Hk)%elem_of_union_list. rewrite <- list_fmap_compose in Hn. apply list_elem_of_fmap in Hn as ([c log] & -> & Hin).
    destruct (lineage_logs_sound pv pm x l c log k Hin Hk) as (m & y & ? & _ & ?). eauto.
Qed.

Lemma content_changes_spec A c x l : lineage A (context_db c) x l -> SphereContext.version c = Ok (ver_cid (tip x l)) ->
  ver_cid x ∉ cids l -> l <> [] -> length l <= fuel ->
  exists slugs, content_changes fuel c (Some (ver_cid x)) = Ok slugs /\ changed_exactly v_content content_mutation x l slugs.
Proof.
  intros Hl Hv Hx Hne Hf. unfold content_changes, content_change_stream. rewrite Hv. cbn [try_stream]. unfold into_content_changelog_stream.
  rewrite (changelog_stream_spec (context_db c) _ v_content content_mutation (content_part_spec _) (fun _ _ => eq_refl) A x l fuel Hl Hx Hne Hf).
  cbn [collect_items fst snd outcome_bind]. eexists. split; [done|]. by eapply logs_changed.
Qed.

Lemma petname_changes_spec A c x l : lineage A (context_db c) x l -> SphereContext.version c = Ok (ver_cid (tip x l)) ->
  ver_cid x ∉ cids l -> l <> [] -> length l <= fuel ->
  exists names, petname_changes fuel c (Some (ver_cid x)) = Ok names /\ changed_exactly v_identities identities_mutation x l names.
Proof.
  intros Hl Hv Hx Hne Hf. unfold petname_changes, petname_change_stream. rewrite Hv. cbn [try_stream]. unfold into_identities_changelog_stream.
  rewrite (changelog_stream_spec (context_db c) _ v_identities identities_mutation (identities_part_spec _) (fun _ _ => eq_refl) A x l fuel Hl Hx Hne Hf).
  cbn [collect_items fst snd outcome_bind]. eexists. split; [done|]. by eapply logs_changed.
Qed.

(** *** Petnames *)
Lemma vm_into_stream_spec {K V} `{Countable K} `{EqDecision V} `{KeyOrderLaws K} `{HashAlgorithmLaws K}
    `{!BlockCodec (wire_node K V Cid)} `{!BlockCodecLaws Cid (wire_node K V Cid)}
    `{!BlockCodec (ChangelogIpld (MapOperation K V))} `{!BlockCodecLaws Cid (ChangelogIpld (MapOperation K V))}
    (s : SphereDb B KV) (cid : Cid) (p : logged K V) n :
  part_at s cid p -> levels DEFAULT_BIT_WIDTH * size p.1 <= n ->
  exists items, vm_into_stream n (vm_at cid s) = Ok (items, Ok tt) /\ items ≡ₚ map_to_list p.1.
Proof.
  intros Hp Hn. unfold vm_into_stream. destruct (vm_load_hamt_spec _ _ _ _ (view_at _ _ _ _ Hp)) as (h & vm & -> & _ & _ & _ & Hr).
  cbn [fst outcome_bind]. destruct (hamt_into_stream_rep _ _ _ n Hr Hn) as (items & -> & Hperm). by exists items.
Qed.

Lemma petname_stream_spec c x : SphereContext.version c = Ok (ver_cid x) -> holds (context_db c) x ->
  levels DEFAULT_BIT_WIDTH * size (v_identities (ver_value x)).1 <= walk_fuel ->
  exists items, petname_stream walk_fuel c = (items, Ok tt) /\ items ≡ₚ map_to_list (v_identities (ver_value x)).1.
Proof.
  intros Hv Hx Hf. unfold petname_stream. rewrite Hv. cbn [try_stream]. destruct (identities_part_spec _ _ Hx) as (cid & -> & Hp). cbn [try_stream].
  destruct (vm_into_stream_spec _ _ _ walk_fuel Hp Hf) as (items & -> & Hperm). by exists items.
Qed.

(** The petnames that [items] assigns to [did], in their order. *)
Definition names_of (did : string) (items : list (string * IdentityIpld Cid)) : list string :=
  (filter (fun item : string * IdentityIpld Cid => peer_did item.2 = did) items).*1.

Lemma names_of_snoc did items name i : names_of did (items ++ [(name, i)]) =
  names_of did items ++ (if decide (peer_did i = did) then [name] else []).
Proof. unfold names_of. rewrite filter_app, fmap_app. f_equal. cbn. by destruct (decide _). Qed.

Lemma group_petnames_spec items : exists g : gmap string (list string), vals_rep (group_petnames items) g /\
  forall did, g !! did = match names_of did items with [] => None | names => Some names end.
Proof.
  unfold group_petnames. induction items as [|[name i] items (g & Hg & Hl)] using rev_ind.
  { exists ∅. split; [apply btree_empty_rep|]. intros did. by rewrite lookup_empty. }
  rewrite foldl_app. cbn [foldl fst snd]. rewrite (btree_get_rep _ _ _ Hg).
  assert (forall did, did <> peer_did i -> names_of did (items ++ [(name, i)]) = names_of did items) as Hne.
  { intros did Hd. rewrite names_of_snoc, decide_False by done. by rewrite app_nil_r. }
  assert (names_of (peer_did i) (items ++ [(name, i)]) = names_of (peer_did i) items ++ [name]) as Heq by by rewrite names_of_snoc, decide_True.
  rewrite Hl. exists (<[peer_did i := names_of (peer_did i) items ++ [name]]> g). split.
  - destruct (names_of (peer_did i) items) as [|n ns]; by apply btree_insert_rep.
  - intros did. destruct (decide (did = peer_did i)) as [->|Hd].
    + rewrite lookup_insert_eq, Heq. by destruct (names_of (peer_did i) items).
    + rewrite lookup_insert_ne by done. by rewrite Hne.
Qed.

(** *** The cache *)
Lemma append_inj_l (a b b' : string) : a +:+ b = a +:+ b' -> b = b'.
Proof. induction a as [|x a IH]; [done|]. cbn. intros [= E]. by apply IH. Qed.

Lemma append_length (a b : string) : String.length (a +:+ b) = String.length a + String.length b.
Proof. induction a as [|x a IH]; [done|]. change (String.length (String x a +:+ b)) with (S (String.length (a +:+ b))). by rewrite IH. Qed.

Lemma append_inj_r (a a' b : string) : a +:+ b = a' +:+ b -> a = a'.
Proof.
  revert a'. induction a as [|x a IH]; intros [|x' a']; [done|..]; intros E.
  - exfalso. apply (f_equal String.length) in E. rewrite !append_length in E. cbn in E. lia.
  - exfalso. apply (f_equal String.length) in E. rewrite !append_length in E. cbn in E. lia.
  - cbn in E. injection E as -> E. f_equal. by apply IH.
Qed.

Lemma cache_key_inj origin v peer peer' :
  assigned_petnames_cache_key (Cid := Cid) origin peer v = assigned_petnames_cache_key origin peer' v -> peer = peer'.
Proof. unfold assigned_petnames_cache_key. intros E. by apply append_inj_l, append_inj_l, append_inj_l, append_inj_r in E. Qed.

Lemma cache_keys_differ origin v peer :
  assigned_petnames_cache_key (Cid := Cid) origin peer v <> sphere_checkpoint_cache_key origin v.
Proof. unfold assigned_petnames_cache_key, sphere_checkpoint_cache_key. by cbn. Qed.

(** What [x] assigns to [peer]. *)
Definition assigned x (peer : string) : list string := names_of peer (map_to_list (v_identities (ver_value x)).1).

Notation cached db origin peer v := (db_get_key (V := list string) db (assigned_petnames_cache_key origin peer v)).
Notation checkpoint db origin v := (db_get_key (V := N) db (sphere_checkpoint_cache_key origin v)).

(** The cache of the version [x] can be read and agrees with it; after the
    checkpoint it is complete. *)
Record cache_ok (db : SphereDb B KV) (origin : string) x : Prop := {
  cache_reads : forall peer, exists r, cached db origin peer (ver_cid x) = Ok r;
  cache_sound : forall peer names, cached db origin peer (ver_cid x) = Ok (Some names) -> names ≡ₚ assigned x peer;
  checkpoint_reads : exists r, checkpoint db origin (ver_cid x) = Ok r;
  cache_complete : forall n peer, checkpoint db origin (ver_cid x) = Ok (Some n) -> assigned x peer <> [] ->
    exists names, cached db origin peer (ver_cid x) = Ok (Some names);
}.

Lemma names_of_perm did (items items' : list (string * IdentityIpld Cid)) : items ≡ₚ items' -> names_of did items ≡ₚ names_of did items'.
Proof. intros Hp. unfold names_of. by rewrite Hp. Qed.

Lemma db_get_key_ext {V} `{!BlockCodec V} (db db' : SphereDb B KV) key :
  store_read (metadata_store db') (as_bytes key) = store_read (metadata_store db) (as_bytes key) ->
  db_get_key (V := V) db' key = db_get_key db key.
Proof. apply get_key_ext. Qed.

(** The loop that fills the cache. *)
Lemma fill_cache_spec origin (v : Cid) (entries : list (string * list string)) : NoDup entries.*1 -> forall db : SphereDb B KV,
  exists db', for_each_st (fun (entry : string * list string) db => db_set_key db (assigned_petnames_cache_key origin entry.1 v) entry.2) entries db
      = (Ok tt, db') /\ same_blocks db db' /\ version_store db' = version_store db /\
    (forall peer names, (peer, names) ∈ entries -> cached db' origin peer v = Ok (Some names)) /\
    (forall peer, peer ∉ entries.*1 -> cached db' origin peer v = cached db origin peer v) /\
    checkpoint db' origin v = checkpoint db origin v.
Proof.
  induction entries as [|[peer names] entries IH]; intros Hnd db; cbn [fmap list_fmap fst] in *.
  { exists db. split; [done|]. split; [done|]. split; [done|]. split; [by intros ? ? ?%elem_of_nil|done]. }
  apply NoDup_cons in Hnd as [Hn Hnd]. cbn [for_each_st fst snd].
  destruct (db_set_key_spec db (assigned_petnames_cache_key origin peer v) names) as (db1 & -> & Hb1 & Hv1 & Hg1 & Ho1). cbn [try_with].
  destruct (IH Hnd db1) as (db2 & E & Hb2 & Hv2 & Hin & Hout & Hcp). exists db2. split; [exact E|]. split; [|split; [congruence|]].
  { destruct Hb1, Hb2. split; congruence. }
  assert (forall peer', peer' <> peer -> cached db1 origin peer' v = cached db origin peer' v) as Hother.
  { intros peer' Hne. apply db_get_key_ext, Ho1. intros E'. by apply cache_key_inj in E'. }
  split; [|split].
  - intros peer' names' [[= -> ->]|Hin']%elem_of_cons; [|by apply Hin]. by rewrite Hout.
  - intros peer' [Hne Hp]%not_elem_of_cons. rewrite Hout by done. by apply Hother.
  - rewrite Hcp. apply db_get_key_ext, Ho1. intros E'. symmetry in E'. by apply cache_keys_differ in E'.
Qed.

Lemma vals_rep_keys {V} (t : list (string * V)) g : vals_rep t g -> NoDup t.*1.
Proof. intros [Ho _]. by apply ordered_NoDup. Qed.

Lemma elem_of_keys {A V} (t : list (A * V)) k : k ∈ t.*1 -> exists v, (k, v) ∈ t.
Proof. intros ([k' v] & -> & Hin)%list_elem_of_fmap. by exists v. Qed.

Lemma put_db_db c db : context_db (put_db c db) = db.
Proof. unfold context_db, put_db. by rewrite context_put. Qed.

Lemma put_db_put_db c db db' : put_db (put_db c db) db' = put_db c db'.
Proof. unfold put_db. by rewrite context_put, put_put. Qed.

(** Whether it is answered from the cache or not, the answer is what [x] assigns,
    and the cache stays correct. *)
Lemma get_assigned_petnames_spec c x peer : SphereContext.version c = Ok (ver_cid x) -> holds (context_db c) x ->
  cache_ok (context_db c) (ctx_identity (sphere_context c)) x -> levels DEFAULT_BIT_WIDTH * size (v_identities (ver_value x)).1 <= walk_fuel ->
  exists names db', get_assigned_petnames walk_fuel c peer = (Ok names, put_db c db') /\ names ≡ₚ assigned x peer /\
    same_blocks (context_db c) db' /\ version_store db' = version_store (context_db c) /\ cache_ok db' (ctx_identity (sphere_context c)) x.
Proof.
  intros Hv Hx Hok Hf. set (origin := ctx_identity (sphere_context c)) in *. pose proof Hok as [Hr Hs [cp Hcp] Hcomp].
  assert (put_db c (context_db c) = c) as Hsame.
  { unfold put_db, context_db. replace (with_db (sphere_context c) (ctx_db (sphere_context c))) with (sphere_context c) by by destruct (sphere_context c).
    apply put_context_id. }
  unfold get_assigned_petnames. rewrite Hv. cbn [try_with]. fold origin. destruct (Hr peer) as [r Er]. rewrite Er. cbn [try_with].
  destruct r as [names|].
  { exists names, (context_db c). rewrite Hsame. split; [done|]. split; [by apply Hs|done]. }
  rewrite Hcp. cbn [try_with].
  destruct cp as [n|].
  { exists [], (context_db c). rewrite Hsame. split; [done|]. split; [|done]. destruct (assigned x peer) eqn:Ea; [done|].
    destruct (Hcomp n peer Hcp) as [names En]; [by rewrite Ea|congruence]. }
  destruct (petname_stream_spec c x Hv Hx Hf) as (items & -> & Hperm). cbn [try_with].
  destruct (group_petnames_spec items) as (g & Hg & Hl).
  assert (forall did, names_of did items ≡ₚ assigned x did) as Hnames by (intros did; by apply names_of_perm).
  destruct (fill_cache_spec origin (ver_cid x) (group_petnames items)) with (db := context_db c)
    as (db1 & E1 & Hb1 & Hv1 & Hset & Hout & Hcp1). { eapply vals_rep_keys, Hg. }
  rewrite E1. cbn [try_with]. rewrite put_db_db.
  destruct (db_set_key_spec db1 (sphere_checkpoint_cache_key origin (ver_cid x)) 1%N) as (db2 & E2 & Hb2 & Hv2 & Hg2 & Ho2).
  rewrite E2. cbn [try_with]. rewrite put_db_put_db, (btree_get_rep _ _ _ Hg), Hl.
  assert (forall peer', cached db2 origin peer' (ver_cid x) = cached db1 origin peer' (ver_cid x)) as Hc2.
  { intros peer'. apply db_get_key_ext, Ho2, cache_keys_differ. }
  assert (forall peer', names_of peer' items <> [] -> cached db1 origin peer' (ver_cid x) = Ok (Some (names_of peer' items))) as Hfull.
  { intros peer' Hne. apply Hset. apply (vals_rep_lookup _ _ _ _ Hg). rewrite Hl. by destruct (names_of peer' items). }
  assert (forall peer', names_of peer' items = [] -> cached db1 origin peer' (ver_cid x) = cached (context_db c) origin peer' (ver_cid x)) as Hempty.
  { intros peer' He. apply Hout. intros (names & Hin)%elem_of_keys. apply (vals_rep_lookup _ _ _ _ Hg) in Hin. rewrite Hl, He in Hin. done. }
  eexists _, db2. split; [done|]. split; [by destruct (names_of peer items) eqn:En; cbn; rewrite <- Hnames, En|].
  split; [destruct Hb1, Hb2; split; congruence|]. split; [congruence|]. split.
  - intros peer'. rewrite Hc2. destruct (names_of peer' items) eqn:En; [rewrite Hempty by done; apply Hr|rewrite Hfull by by rewrite En]. by eexists.
  - intros peer' names. rewrite Hc2. destruct (decide (names_of peer' items = [])) as [En|En]; [rewrite Hempty by done; apply Hs|].
    rewrite Hfull by done. intros [= <-]. apply Hnames.
  - by eexists.
  - intros n peer' _ Hne. exists (names_of peer' items). rewrite Hc2. apply Hfull. intros En. apply Hne.
    apply Permutation_nil_r. rewrite <- Hnames. by rewrite En.
Qed.
End walkers.
