(* ===== verification/Render.v ===== *)
(** * Rendering a sphere to files

    Model of the renderer of the command line (noosphere-cli/src/native): the
    extensions of files (extension.rs), the layout of a workspace (paths.rs), the
    buffer that flattens changes (render/buffer.rs), the writer of files and links
    (render/writer.rs), the jobs that render one sphere (render/job.rs) and the loop
    that runs them (render/renderer.rs).

    The jobs run as tasks of their own.  A schedule says what the loop meets next: a
    job that has done its work and sent its requests, a job whose end is noticed, or a
    request; every theorem is about all schedules or gives one.  The queue of requests is
    bounded in the source: a job that waits for room in it has not ended yet.  The tasks that a
    buffer is flushed with are independent, and their failures are only logged, so
    they are run one after the other.  The table of MIME types is third-party. *)
From stdpp Require Import base gmap list numbers strings pretty.
From Stdlib Require Import Ascii String.
From S2P Require Import Prelude BlockStore HamtNode HamtRep Hamt BTree SphereDb BodyChunk VersionedMap.
From S2P Require Import UcanCapability Ucan UcanChain Authority Memo Sphere SphereHistory Bundle SphereContext SphereWalker KeyStorage FileTree.
#[local] Open Scope list_scope.
#[local] Notation length := List.length (only parsing).

(** ** Extensions (extension.rs) *)
Class MimeGuess := {
  mime_of_extension : string -> option string;
  extensions_of_mime : string -> option (list string);
}.

Section extensions.
Context {Cid : Type} `{Unicode} `{MimeGuess}.

Definition infer_file_extension (memo : MemoIpld Cid) : outcome (option string) :=
  match get_first_header memo (Header.deref Header.FileExtension) with
  | Some extension => Ok (Some extension)
  | None =>
      Ok (match Memo.content_type memo with
          | Some ContentType.Subtext => Some "subtext"
          | Some ContentType.Sphere => Some "sphere"
          | Some ContentType.Bytes => None
          | Some (ContentType.Unknown content_type) =>
              match extensions_of_mime content_type with
              | Some extensions => head extensions
              | None => None
              end
          | Some ContentType.Cbor => Some "json"
          | Some ContentType.Json => Some "cbor"
          | Some ContentType.Text => Some "txt"
          | None => None
          end)
  end.

Definition infer_content_type (extension : string) : outcome ContentType.t :=
  Ok (if bool_decide (extension = "subtext") then ContentType.Subtext
      else if bool_decide (extension = "sphere") then ContentType.Sphere
      else ContentType.from_str (default "raw/bytes" (mime_of_extension extension))).
End extensions.

(** ** The layout of a workspace (paths.rs) *)
Definition SPHERE_DIRECTORY : string := ".sphere".
Definition STORAGE_DIRECTORY : string := "storage".
Definition CONTENT_DIRECTORY : string := "content".
Definition PEERS_DIRECTORY : string := "peers".
Definition SLUGS_DIRECTORY : string := "slugs".
Definition MOUNT_DIRECTORY : string := "mount".
Definition VERSION_FILE : string := "version".
Definition IDENTITY_FILE : string := "identity".
Definition DEPTH_FILE : string := "depth".
Definition LINK_RECORD_FILE : string := "link_record".

Record SpherePaths := mkPaths {
  sp_root : PathBuf;
  sp_sphere : PathBuf;
  sp_storage : PathBuf;
  sp_slugs : PathBuf;
  sp_content : PathBuf;
  sp_peers : PathBuf;
  sp_version : PathBuf;
  sp_identity : PathBuf;
  sp_depth : PathBuf;
}.

(** [Path::parent]. *)
Definition parent_of (path : PathBuf) : option PathBuf :=
  match last path with
  | None => None
  | Some name => if bool_decide (name = "/") then None else Some (path_parent path)
  end.

Definition has_sphere_directory (m : Machine) (path : PathBuf) : bool :=
  is_absolute path && is_dir m (path_join path SPHERE_DIRECTORY).

Definition paths_new (root : PathBuf) : SpherePaths :=
  let sphere := path_join root SPHERE_DIRECTORY in
  mkPaths root sphere (path_join sphere STORAGE_DIRECTORY) (path_join sphere SLUGS_DIRECTORY) (path_join sphere CONTENT_DIRECTORY)
    (path_join sphere PEERS_DIRECTORY) (path_join sphere VERSION_FILE) (path_join sphere IDENTITY_FILE) (path_join sphere DEPTH_FILE).

Definition paths_initialize (m : Machine) (root : PathBuf) : outcome SpherePaths * Machine :=
  if is_absolute root then
    let paths := paths_new root in
    let '(r, m) :=
      for_each_st (fun directory m => make_dir_all m directory) [sp_storage paths; sp_content paths; sp_peers paths; sp_slugs paths] m in
    let? _ := r keeping m in (Ok paths, m)
  else (Err "Must use an absolute path to initialize sphere directories", m).

(** [n] bounds the ancestors: a path has fewer than components. *)
Fixpoint discover_from (n : nat) (m : Machine) (from : option PathBuf) : option SpherePaths :=
  match from, n with
  | Some directory, Datatypes.S n =>
      if has_sphere_directory m directory then Some (paths_new directory) else discover_from n m (parent_of directory)
  | _, _ => None
  end.

Definition discover_paths (m : Machine) (from : option PathBuf) : option SpherePaths :=
  discover_from (Datatypes.S (length (default [] from))) m from.

Section paths.
Context {Cid : Type} `{Unicode} `{MimeGuess} `{Base64} `{CidOps Cid}.
Implicit Types (self : SpherePaths).

Definition slug_path self (slug : string) : outcome PathBuf := Ok (path_join (sp_slugs self) (b64_encode (as_bytes slug))).

Definition peer_path self (peer : string) (version : Cid) : PathBuf :=
  path_join (sp_peers self) (cid_to_string (derive_cid (Cid := Cid) RAW (as_bytes peer ++ cid_to_bytes version))).

Definition peer_hard_link self (memo_cid : Cid) : PathBuf := path_join (sp_content self) (cid_to_string memo_cid).

Definition file_path (base : PathBuf) (slug : string) (memo : MemoIpld Cid) : outcome PathBuf :=
  let? extension := infer_file_extension memo in
  let file_fragment := match extension with Some extension => slug +:+ "." +:+ extension | None => slug end in
  Ok (path_join base file_fragment).

Definition root_hard_link self (slug : string) (memo : MemoIpld Cid) : outcome PathBuf := file_path (sp_root self) slug memo.

Definition peer_soft_link self (peer : string) (version : Cid) (slug : string) (memo : MemoIpld Cid) : outcome PathBuf :=
  file_path (path_join (peer_path self peer version) MOUNT_DIRECTORY) slug memo.
End paths.

(** ** Flattened changes (render/buffer.rs) *)
Record ChangeBuffer (T : Type) := mkBuffer {
  buffer_capacity : nat;
  buffer_added : gmap string T;
  buffer_removed : gset string;
}.
Arguments mkBuffer {T} _ _ _.
Arguments buffer_capacity {T} _.
Arguments buffer_added {T} _.
Arguments buffer_removed {T} _.

Section buffer.
Context {T : Type}.
Implicit Types (self : ChangeBuffer T).

Definition buffer_new (capacity : nat) : ChangeBuffer T := mkBuffer capacity ∅ ∅.
Definition buffer_is_full self : bool := buffer_capacity self <=? size (buffer_added self) + size (buffer_removed self).
Definition assert_not_full self : outcome unit := if buffer_is_full self then Err "Change buffer is full" else Ok tt.

Definition buffer_add self (key : string) (value : T) : outcome unit * ChangeBuffer T :=
  let? _ := assert_not_full self keeping self in
  (Ok tt, mkBuffer (buffer_capacity self) (<[key := value]> (buffer_added self)) (buffer_removed self ∖ {[key]})).

Definition buffer_remove self (key : string) : outcome unit * ChangeBuffer T :=
  let? _ := assert_not_full self keeping self in
  (Ok tt, mkBuffer (buffer_capacity self) (delete key (buffer_added self)) (buffer_removed self ∪ {[key]})).

Definition buffer_take self : gmap string T * gset string * ChangeBuffer T :=
  (buffer_added self, buffer_removed self, buffer_new (buffer_capacity self)).

(** [flush_to_writer]: a task for every change, whose failure is logged. *)
Definition flush_with (write : string -> T -> Machine -> outcome unit * Machine) (remove : string -> Machine -> outcome unit * Machine)
    self (m : Machine) : ChangeBuffer T * Machine :=
  let '(added, removed, self) := buffer_take self in
  let m := foldl (fun m kv => (write kv.1 kv.2 m).2) m (map_to_list added) in
  (self, foldl (fun m key => (remove key m).2) m (elements removed)).
End buffer.

(** ** Writing files (render/writer.rs) *)
Section render.
Context {Key Url Cid B KV Net : Type} `{Unicode}.
Context `{KeyMaterial Key} `{Bs58} `{Base64} `{DagJson UcanHeader} `{DagJson UcanPayload} `{UrlOps Url}.
Context `{Countable Cid} `{HashAlgorithm string} `{HashAlgorithm Cid} `{KeyOrder Cid}.
Context `{CidOps Cid} `{!BlockStore B Cid} `{Store KV} `{!SphereCodecs Cid} `{!EntryCodecs Cid} `{!ContextCodecs Cid}.
Context `{FastCdc} `{!GatewayApi Net Key Cid} `{MimeGuess}.
Context (fuel walk_fuel body_fuel : nat) (net : Net).
Context (late : Net -> Session -> Cid -> option (ReplicateParameters Cid) -> option nat).
Notation SphereDb := (SphereDb B KV).
Notation context := (SphereContext (Key := Key) (Cid := Cid) (B := B) (KV := KV)).
Notation cursor := (SphereCursor context Cid).
#[local] Existing Instance block_ucan_store.
Implicit Types (m : Machine) (ctx : context).

Inductive JobKind : Type :=
  | Root (force_full_render : bool)
  | Peer (did : string) (cid : Cid) (link_record : Ucan)
  | RefreshPeers.

Record SphereWriter := mkWriter { writer_kind : JobKind; writer_paths : SpherePaths }.
Implicit Types (self : SphereWriter) (slug petname : string).

Definition is_root_writer self : bool := match writer_kind self with Root _ => true | _ => false end.

Definition writer_base self : PathBuf :=
  match writer_kind self with
  | Root _ | RefreshPeers => sp_root (writer_paths self)
  | Peer did cid _ => peer_path (writer_paths self) did cid
  end.

Definition writer_mount self : PathBuf :=
  match writer_kind self with
  | Root _ | RefreshPeers => writer_base self
  | Peer _ _ _ => path_join (writer_base self) MOUNT_DIRECTORY
  end.

Definition writer_private self : PathBuf :=
  match writer_kind self with
  | Root _ | RefreshPeers => sp_sphere (writer_paths self)
  | Peer _ _ _ => writer_base self
  end.

Definition writer_petname self petname : PathBuf := path_join (writer_mount self) ("@" +:+ petname).

Definition write_link_record self m : outcome unit * Machine :=
  match writer_kind self with
  | Peer _ _ link_record =>
      let? jwt := ucan_encode link_record keeping m in write_file m (path_join (writer_private self) LINK_RECORD_FILE) (as_bytes jwt)
  | _ => (Ok tt, m)
  end.

(** Both files are written, whichever fails. *)
Definition write_identity_and_version self (identity : string) (version : Cid) m : outcome unit * Machine :=
  let '(r_identity, m) := write_file m (path_join (writer_private self) IDENTITY_FILE) (as_bytes identity) in
  let '(r_version, m) := write_file m (path_join (writer_private self) VERSION_FILE) (as_bytes (cid_to_string version)) in
  let? _ := r_identity keeping m in
  let? _ := r_version keeping m in (Ok tt, m).

Definition content_hard_link self slug (file : SphereFile Cid) : outcome PathBuf :=
  if is_root_writer self then root_hard_link (writer_paths self) slug (file_memo file)
  else Ok (peer_hard_link (writer_paths self) (file_memo_version file)).

Definition remove_content self slug m : outcome unit * Machine :=
  if is_root_writer self then
    let? slug_path := slug_path (writer_paths self) slug keeping m in
    let? file_path := read_link m slug_path keeping m in
    let '(_, m) := remove_file m slug_path in
    if file_exists m file_path then remove_file m file_path else (Ok tt, m)
  else (Err "Cannot 'remove' individual peer content", m).

Definition symlink_slug self slug (file_path : PathBuf) m : outcome unit * Machine :=
  let? slug_path := slug_path (writer_paths self) slug keeping m in
  let? slug_base := ok_or "Can't resolve parent directory" (parent_of slug_path) keeping m in
  let? relative_file_path := ok_or "Could not resolve relative path" (diff_paths file_path slug_base) keeping m in
  let '(r, m) := if file_exists m slug_path then remove_file m slug_path else (Ok tt, m) in
  let? _ := r keeping m in
  make_symlink relative_file_path m slug_path.

Definition symlink_content self (memo_cid : Cid) (file_path : PathBuf) m : outcome unit * Machine :=
  let? file_directory_path := ok_or "Unable to determine base directory" (parent_of file_path) keeping m in
  let '(r, m) := make_dir_all m file_directory_path in
  let? _ := r keeping m in
  let? relative_peer_content_path :=
    ok_or "Could not resolve relative path" (diff_paths (peer_hard_link (writer_paths self) memo_cid) file_directory_path) keeping m in
  let '(r, m) := if file_exists m file_path then remove_file m file_path else (Ok tt, m) in
  let? _ := r keeping m in
  make_symlink relative_peer_content_path m file_path.

(** The contents are copied as they are decoded. *)
Definition write_content self slug (file : SphereFile Cid) m : outcome unit * Machine :=
  let? hard_link := content_hard_link self slug file keeping m in
  let? file_directory := ok_or "Unable to determine base directory" (parent_of hard_link) keeping m in
  let '(r, m) := make_dir_all m file_directory in
  let? _ := r keeping m in
  let '(r, m) :=
    match try_exists m hard_link with
    | Ok false =>
        let '(r, m) := write_file m hard_link (mjoin (file_contents file).1) in
        let? _ := r keeping m in ((file_contents file).2, m)
    | _ => (Ok tt, m)
    end in
  let? _ := r keeping m in
  if is_root_writer self then symlink_slug self slug hard_link m
  else
    let? path := file_path (writer_mount self) slug (file_memo file) keeping m in
    symlink_content self (file_memo_version file) path m.

Definition unlink_peer self petname m : outcome unit * Machine :=
  let absolute_peer_destination := writer_petname self petname in
  if is_symlink m absolute_peer_destination then remove_file m absolute_peer_destination else (Ok tt, m).

Definition symlink_peer self (peer : string) (version : Cid) petname m : outcome unit * Machine :=
  let absolute_peer_destination := writer_petname self petname in
  let? peer_directory_path := ok_or "Unable to determine base directory" (parent_of absolute_peer_destination) keeping m in
  let '(r, m) := make_dir_all m peer_directory_path in
  let? _ := r keeping m in
  let? relative_peer_source :=
    ok_or "Could not resolve relative path"
      (diff_paths (path_join (peer_path (writer_paths self) peer version) MOUNT_DIRECTORY) (writer_mount self)) keeping m in
  let '(r, m) := unlink_peer self petname m in
  let? _ := r keeping m in
  make_symlink relative_peer_source m absolute_peer_destination.

Definition flush_content self (buffer : ChangeBuffer (SphereFile Cid)) m : ChangeBuffer (SphereFile Cid) * Machine :=
  flush_with (write_content self) (remove_content self) buffer m.

Definition flush_petnames self (buffer : ChangeBuffer (string * Cid)) m : ChangeBuffer (string * Cid) * Machine :=
  flush_with (fun petname peer => symlink_peer self peer.1 peer.2 petname) (unlink_peer self) buffer m.

(** ** Jobs (render/job.rs) *)
Definition CONTENT_CHANGE_BUFFER_CAPACITY : nat := 512.
Definition PETNAME_CHANGE_BUFFER_CAPACITY : nat := 2048.

Record SphereRenderRequest := mkRequest {
  req_petname_path : list string;
  req_peer : string;
  req_version : Cid;
  req_link_record : Ucan;
}.

Definition request_as_id (self : SphereRenderRequest) : string * Cid := (req_peer self, req_version self).

(** The context, the files, and the requests sent so far. *)
Record RenderWorld := mkRender { rw_context : context; rw_machine : Machine; rw_requests : list SphereRenderRequest }.

Record SphereRenderJob := mkJob { job_kind : JobKind; job_paths : SpherePaths; job_petname_path : list string }.
Implicit Types (job : SphereRenderJob).

Definition job_writer job : SphereWriter := mkWriter (job_kind job) (job_paths job).

(** A change is buffered, and a full buffer flushed. *)
Definition buffer_change {T} (flush : ChangeBuffer T -> Machine -> ChangeBuffer T * Machine)
    (change : outcome unit * ChangeBuffer T) m : outcome unit * (ChangeBuffer T * Machine) :=
  let '(r, buffer) := change in
  let? _ := r keeping (buffer, m) in
  (Ok tt, if buffer_is_full buffer then flush buffer m else (buffer, m)).

(** One turn of the loop of [refresh_peers]. *)
Definition refresh_peer job (db : SphereDb) (item : string * IdentityIpld Cid)
    (st : ChangeBuffer (string * Cid) * Machine * list SphereRenderRequest)
    : outcome unit * (ChangeBuffer (string * Cid) * Machine * list SphereRenderRequest) :=
  let '(buffer, m, requests) := st in
  let '(name, identity) := item in
  let did := peer_did identity in
  let? link_record := identity_link_record db identity keeping st in
  match link_record ≫= fun link_record => (fun cid => (link_record, cid)) <$> get_link link_record with
  | None => (Ok tt, st)
  | Some (link_record, cid) =>
      let '(r, (buffer, m)) := buffer_change (flush_petnames (job_writer job)) (buffer_add buffer name (did, cid)) m in
      let? _ := r keeping (buffer, m, requests) in
      (Ok tt, (buffer, m, requests ++ [mkRequest (name :: job_petname_path job) did cid link_record]))
  end.

Definition refresh_peers job (c : cursor) m (requests : list SphereRenderRequest) : outcome unit * (Machine * list SphereRenderRequest) :=
  let '(items, ending) := petname_stream walk_fuel c in
  let '(r, (buffer, m, requests)) :=
    for_each_st (refresh_peer job (context_db c)) items (buffer_new PETNAME_CHANGE_BUFFER_CAPACITY, m, requests) in
  let? _ := r keeping (m, requests) in
  let? _ := ending keeping (m, requests) in
  (Ok tt, ((flush_petnames (job_writer job) buffer m).2, requests)).

Definition full_render job (c : cursor) m (requests : list SphereRenderRequest) : outcome unit * (cursor * Machine * list SphereRenderRequest) :=
  let identity := ctx_identity (sphere_context c) in
  let? version := SphereContext.version c keeping (c, m, requests) in
  let '((items, ending), c) := content_stream walk_fuel body_fuel net c in
  let '(r, (buffer, m)) :=
    for_each_st (fun item '(buffer, m) => buffer_change (flush_content (job_writer job)) (buffer_add buffer item.1 item.2) m)
      items (buffer_new CONTENT_CHANGE_BUFFER_CAPACITY, m) in
  let? _ := r keeping (c, m, requests) in
  let? _ := ending keeping (c, m, requests) in
  let m := (flush_content (job_writer job) buffer m).2 in
  let '(r, (m, requests)) := refresh_peers job c m requests in
  let? _ := r keeping (c, m, requests) in
  let '(r_version, m) := write_identity_and_version (job_writer job) identity version m in
  let '(r_record, m) := write_link_record (job_writer job) m in
  let? _ := r_version keeping (c, m, requests) in
  let? _ := r_record keeping (c, m, requests) in
  (Ok tt, (c, m, requests)).

(** The changes of one slug, and of one version. *)
Definition render_slug job slug (st : cursor * ChangeBuffer (SphereFile Cid) * Machine)
    : outcome unit * (cursor * ChangeBuffer (SphereFile Cid) * Machine) :=
  let '(c, buffer, m) := st in
  let '(r, c) := read body_fuel net c slug in
  let? found := r keeping (c, buffer, m) in
  let change := match found with Some file => buffer_add buffer slug file | None => buffer_remove buffer slug end in
  let '(r, (buffer, m)) := buffer_change (flush_content (job_writer job)) change m in
  (r, (c, buffer, m)).

Definition render_content_version job (item : Cid * gset string) (st : cursor * ChangeBuffer (SphereFile Cid) * Machine)
    : outcome unit * (cursor * ChangeBuffer (SphereFile Cid) * Machine) :=
  let '(c, buffer, m) := st in
  for_each_st (render_slug job) (elements item.2) (mount_at c item.1, buffer, m).

Definition render_petname job (c : cursor) petname (st : ChangeBuffer (string * Cid) * Machine * list SphereRenderRequest)
    : outcome unit * (ChangeBuffer (string * Cid) * Machine * list SphereRenderRequest) :=
  let '(buffer, m, requests) := st in
  let? identity := get_petname c petname keeping st in
  let? link_record :=
    match identity with Some _ => get_petname_record c petname | None => Ok None end keeping st in
  let '(change, requests') :=
    match identity, link_record ≫= fun link_record => (fun version => (link_record, version)) <$> get_link link_record with
    | Some identity, Some (link_record, version) =>
        (buffer_add buffer petname (identity, version),
         requests ++ [mkRequest (job_petname_path job ++ [petname]) identity version link_record])
    | _, _ => (buffer_remove buffer petname, requests)
    end in
  let '(r, (buffer, m)) := buffer_change (flush_petnames (job_writer job)) change m in
  let? _ := r keeping (buffer, m, requests) in (Ok tt, (buffer, m, requests')).

Definition render_petname_version job (item : Cid * gset string) (st : cursor * (ChangeBuffer (string * Cid) * Machine * list SphereRenderRequest))
    : outcome unit * (cursor * (ChangeBuffer (string * Cid) * Machine * list SphereRenderRequest)) :=
  let '(c, st) := st in
  let c := mount_at c item.1 in
  let '(r, st) := for_each_st (render_petname job c) (elements item.2) st in (r, (c, st)).

Definition incremental_render job (since : Cid) ctx m (requests : list SphereRenderRequest)
    : outcome unit * (cursor * Machine * list SphereRenderRequest) :=
  let '(items, ending) := content_change_stream fuel ctx (Some since) in
  let '(r, (c, buffer, m)) :=
    for_each_st (render_content_version job) items (latest ctx, buffer_new CONTENT_CHANGE_BUFFER_CAPACITY, m) in
  let? _ := r keeping (c, m, requests) in
  let? _ := ending keeping (c, m, requests) in
  let m := (flush_content (job_writer job) buffer m).2 in
  let '(items, ending) := petname_change_stream fuel ctx (Some since) in
  let '(r, (c, (buffer, m, requests))) :=
    for_each_st (render_petname_version job) items (c, (buffer_new PETNAME_CHANGE_BUFFER_CAPACITY, m, requests)) in
  let? _ := r keeping (c, m, requests) in
  let? _ := ending keeping (c, m, requests) in
  let m := (flush_petnames (job_writer job) buffer m).2 in
  let identity := ctx_identity (sphere_context c) in
  let? version := SphereContext.version c keeping (c, m, requests) in
  let '(r, m) := write_identity_and_version (job_writer job) identity version m in
  let? _ := r keeping (c, m, requests) in (Ok tt, (c, m, requests)).

(** The context of a peer has the database of the root. *)
Definition job_render job (w : RenderWorld) : outcome unit * RenderWorld :=
  let 'mkRender ctx m requests := w in
  match job_kind job with
  | Root force_full_render =>
      match force_full_render, try_exists m (sp_version (job_paths job)) with
      | false, Ok true =>
          let? text := read_text m (sp_version (job_paths job)) keeping w in
          let? version := cid_of_string text keeping w in
          let '(r, (c, m, requests)) := incremental_render job version ctx m requests in (r, mkRender (cursor_inner c) m requests)
      | _, _ => let '(r, (c, m, requests)) := full_render job (latest ctx) m requests in (r, mkRender (cursor_inner c) m requests)
      end
  | Peer _ _ _ =>
      let '(r, c) := cursor_traverse_by_petnames fuel net late (latest ctx) (job_petname_path job) in
      let w := mkRender (cursor_inner c) m requests in
      let? found := r keeping w in
      match found with
      | Some peer =>
          let '(r, (peer, m, requests)) := full_render job peer m requests in
          (r, mkRender (put_db (cursor_inner c) (context_db peer)) m requests)
      | None => (Err "No peer found", w)
      end
  | RefreshPeers =>
      let '(r, (m, requests)) := refresh_peers job (latest ctx) m requests in (r, mkRender ctx m requests)
  end.

(** ** The renderer (render/renderer.rs) *)
Definition DEFAULT_RENDER_DEPTH : N := 3.

(** The tasks at work, those that have ended and are not joined yet, the jobs that
    were started, and the rest of the world with the queue of requests. *)
Record RenderLoop := mkLoop {
  loop_working : list SphereRenderJob;
  loop_ended : nat;
  loop_started : gset (string * Cid);
  loop_world : RenderWorld;
}.

(** What comes next: the job at some place does its work, the end of a job is noticed,
    or a request is received. *)
Inductive RenderChoice : Type := JobWorks (i : nat) | JobJoined | RequestReceived.

Definition receive (paths : SpherePaths) (render_depth : N) (request : SphereRenderRequest) (l : RenderLoop) : RenderLoop :=
  let 'mkLoop working ended started w := l in
  let job_id := request_as_id request in
  if bool_decide (job_id ∈ started) then l
  else if (render_depth <? N.of_nat (length (req_petname_path request)))%N then l
  else
    let started := {[job_id]} ∪ started in
    if file_exists (rw_machine w) (peer_path paths (req_peer request) (req_version request)) then mkLoop working ended started w
    else
      let kind := Peer (req_peer request) (req_version request) (req_link_record request) in
      mkLoop (working ++ [mkJob kind paths (req_petname_path request)]) ended started w.

(** [None]: what was chosen cannot be next.  The loop goes on while there are jobs. *)
Definition render_turn (paths : SpherePaths) (render_depth : N) (choice : RenderChoice) (l : RenderLoop) : option RenderLoop :=
  let 'mkLoop working ended started w := l in
  match choice with
  | JobWorks i =>
      job ← working !! i;
      Some (mkLoop (take i working ++ drop (Datatypes.S i) working) (Datatypes.S ended) started (job_render job w).2)
  | JobJoined => match ended with O => None | Datatypes.S ended => Some (mkLoop working ended started w) end
  | RequestReceived =>
      match working, ended, rw_requests w with
      | [], O, _ | _, _, [] => None
      | _, _, request :: requests =>
          Some (receive paths render_depth request (mkLoop working ended started (mkRender (rw_context w) (rw_machine w) requests)))
      end
  end.

Definition loop_finished (l : RenderLoop) : bool := bool_decide (loop_working l = []) && (loop_ended l =? 0).

(** The loop under a schedule, which is too short if it ends before the loop. *)
Fixpoint render_loop (paths : SpherePaths) (render_depth : N) (schedule : list RenderChoice) (l : RenderLoop) : option RenderLoop :=
  if loop_finished l then Some l
  else
    match schedule with
    | [] => None
    | choice :: schedule => l ← render_turn paths render_depth choice l; render_loop paths render_depth schedule l
    end.

Definition reset_peers (paths : SpherePaths) m : outcome unit * Machine :=
  let '(_, m) := remove_dir_all m (sp_peers paths) in make_dir_all m (sp_peers paths).

Definition last_render_depth (paths : SpherePaths) m : option N :=
  match read_text m (sp_depth paths) with Ok depth => parse_unsigned (2 ^ 32) depth | _ => None end.

(** The jobs that a rendering begins with. *)
Definition first_jobs (paths : SpherePaths) (force_full_render force_render_peers : bool) : list SphereRenderJob :=
  (if force_render_peers then [mkJob RefreshPeers paths []] else []) ++ [mkJob (Root force_full_render) paths []].

Definition renderer_render (schedule : list RenderChoice) (paths : SpherePaths) (depth : option N) (force_full_render : bool) ctx m
    : outcome unit * (context * Machine) :=
  let '(r, m) := set_current_dir m (sp_root paths) in
  let? _ := r keeping (ctx, m) in
  let last_depth := last_render_depth paths m in
  let render_depth := default (default DEFAULT_RENDER_DEPTH last_depth) depth in
  let force_render_peers :=
    force_full_render || match last_depth with Some last_depth => (last_depth <? render_depth)%N | None => false end in
  let '(r, m) := if force_render_peers then reset_peers paths m else (Ok tt, m) in
  let? _ := r keeping (ctx, m) in
  let jobs := first_jobs paths force_full_render force_render_peers in
  match render_loop paths render_depth schedule (mkLoop jobs 0 ∅ (mkRender ctx m [])) with
  | None => (Diverge, (ctx, m))
  | Some l =>
      let w := loop_world l in
      let '(r, m) := write_file (rw_machine w) (sp_depth paths) (as_bytes (pretty render_depth)) in
      (r, (rw_context w, m))
  end.
End render.
