(* ===== verification/StoreTransfer.v ===== *)
(** * What writing blocks leaves alone

    The operations on maps, spheres and histories write to a store only blocks that
    encode something, under the CID of the block and with their links.  Whatever
    relation this keeps, the operations keep: a database has the same versions and the
    same metadata after them, and a store of authentic blocks stays one.

    A sphere is generated in memory and then persisted to the database of a platform.
    What a version of a sphere needs is a matter of blocks: a store of any other kind
    that has them holds the same version, with the same CIDs.  A store that is only
    written to by the operations on spheres has sound blocks, so that all of it can be
    persisted. *)
From stdpp Require Import base gmap list numbers strings pretty.
From Stdlib Require Import Ascii String.
From S2P Require Import Prelude BlockStore HamtNode HamtRep Hamt BTree SphereDb BodyChunk VersionedMap UcanCapability Ucan UcanChain.
From S2P Require Import Authority Memo Sphere SphereProofs SphereHistory Bundle BundleProofs SphereContext SphereContextProofs Bitfield HamtProofs HamtPersist.
From S2P Require Import HamtSpec UcanProofs SphereRebase.
#[local] Open Scope list_scope.
#[local] Notation length := List.length (only parsing).

Section writes.
Context {Cid S : Type} `{Unicode}.
Context `{Countable Cid} `{HashAlgorithm string} `{HashAlgorithm Cid} `{KeyOrder Cid}.
Context `{CidOps Cid} `{!BlockStore S Cid}.
Context (R : relation S) `{!PreOrder R}.
Context (R_put : forall s codec b (links : list Cid), references codec b = Ok links -> R s (put_encoded (Cid := Cid) s codec b).2).
Implicit Types (s : S) (c : Cid).

(** [f] only writes blocks. *)
Definition writes {A} (f : S -> A * S) : Prop := forall s, R s (f s).2.

Lemma writes_then {A B} (p : outcome A * S) (k : A -> S -> outcome B * S) s : R s p.2 -> (forall a s', R s' (k a s').2) ->
  R s (let '(r, s') := p in let? a := r keeping s' in k a s').2.
Proof. intros Hp Hk. destruct p as [[a| | |] s']; cbn in *; [|done..]. etransitivity; [exact Hp|apply Hk]. Qed.

Lemma writes_try {A B} (m : outcome A) (k : A -> outcome B * S) s : (forall a, m = Ok a -> R s (k a).2) -> R s (let? a := m keeping s in k a).2.
Proof. intros Hk. destruct m; cbn; [by apply Hk|reflexivity..]. Qed.

Lemma writes_each {A} (f : A -> S -> outcome unit * S) l : (forall x, writes (f x)) -> writes (for_each_st f l).
Proof. intros Hf. induction l as [|x l IH]; intros s; [reflexivity|]. cbn [for_each_st]. apply writes_then; [apply Hf|]. intros _ s'. apply IH. Qed.

Lemma writes_put codec b (links : list Cid) : references codec b = Ok links -> writes (fun s => put_encoded (Cid := Cid) s codec b).
Proof. intros Hl s. exact (R_put s codec b links Hl). Qed.

Lemma writes_save {T} `{!BlockCodec T} `{!BlockCodecLaws Cid T} (x : T) : writes (fun s => save (Cid := Cid) s x).
Proof. intros s. unfold save. apply writes_try. intros b Hb. destruct (block_references x b Hb) as [links Hl]. exact (writes_put DAG_CBOR b links Hl s). Qed.

(** *** Maps *)
Section maps.
Context {K V : Type} `{Countable K} `{EqDecision V} `{KeyOrder K} `{HashAlgorithm K}.
Context `{!BlockCodec (wire_node K V Cid)} `{!BlockCodec (ChangelogIpld (MapOperation K V))} `{!BlockCodec (VersionedMapIpld Cid)}.
Context `{!BlockCodecLaws Cid (wire_node K V Cid)} `{!BlockCodecLaws Cid (ChangelogIpld (MapOperation K V))} `{!BlockCodecLaws Cid (VersionedMapIpld Cid)}.

Lemma writes_save_node (n : node K V Cid) : writes (fun s => save_node s n).
Proof. intros s. unfold save_node. apply writes_try. intros w _. apply writes_save. Qed.

Lemma writes_flush (n : node K V Cid) : forall s, R s (flush n s).2.2.
Proof.
  revert n. fix IH 1. intros [b ps] s. cbn [flush].
  match goal with |- context [let '(_, _) := ?f ps s in _] => assert (forall s, R s (f ps s).2.2) as Hps end.
  { induction ps as [|[kvs|c cache|n] ps IHps]; intros s'; [reflexivity|..].
    - specialize (IHps s'). cbn. destruct ((fix flush_pointers (ps : list _) (st : S) := _) ps s') as [r [ps' s2]]. exact IHps.
    - specialize (IHps s'). cbn. destruct ((fix flush_pointers (ps : list _) (st : S) := _) ps s') as [r [ps' s2]]. exact IHps.
    - cbn. pose proof (IH n s') as Hn. destruct (flush n s') as [[[]| | |] [n' s1]]; cbn in *; [|exact Hn..].
      pose proof (writes_save_node n' s1) as Hs. cbn in Hs. destruct (save_node s1 n') as [[c| | |] s2]; cbn in *; [|by etransitivity..].
      specialize (IHps s2). destruct ((fix flush_pointers (ps : list _) (st : S) := _) ps s2) as [r [ps' s3]]. cbn in *.
      by do 2 (etransitivity; [eassumption|]). }
  specialize (Hps s). destruct (_ ps s) as [r [ps' s']]. exact Hps.
Qed.

Lemma writes_hamt_flush (h : Hamt K V Cid S) : R (hamt_store h) (hamt_store (hamt_flush h).2).
Proof.
  unfold hamt_flush. pose proof (writes_flush (hamt_root h) (hamt_store h)) as Hf.
  destruct (flush (hamt_root h) (hamt_store h)) as [[[]| | |] [root s1]]; cbn in *; [|exact Hf..].
  pose proof (writes_save_node root s1) as Hs. cbn in Hs. destruct (save_node s1 root) as [r s2]. cbn in *. by etransitivity.
Qed.

(** Flushing a map into the store and going on. *)
Lemma writes_flush_then {A} (h : Hamt K V Cid S) s (k : Cid -> S -> outcome A * S) : (forall c s', R s' (k c s').2) ->
  R s (let '(r, h') := hamt_flush (with_store h s) in let? c := r keeping hamt_store h' in k c (hamt_store h')).2.
Proof.
  intros Hk. pose proof (writes_hamt_flush (with_store h s)) as Hf. change (hamt_store (with_store h s)) with s in Hf.
  destruct (hamt_flush _) as [[c| | |] h']; cbn in *; [|exact Hf..]. etransitivity; [exact Hf|apply Hk].
Qed.

Lemma writes_map_empty : writes (fun s => map_ipld_empty (K := K) (V := V) s).
Proof. intros s. unfold map_ipld_empty. apply writes_then; [apply writes_save|]. intros c s'.
  apply (writes_flush_then _ s' (fun hamt_cid s => (Ok (mkMapIpld hamt_cid c), s))). reflexivity. Qed.

Lemma writes_at_or_empty (cid : option Cid) : writes (fun s => at_or_empty (K := K) (V := V) cid s).
Proof.
  intros s. unfold at_or_empty, vm_empty. destruct cid as [cid|]; [reflexivity|]. apply writes_then; [apply writes_map_empty|].
  intros ipld s'. apply writes_then; [apply writes_save|]. reflexivity.
Qed.

Lemma writes_apply (cid : option Cid) (m : VersionedMapMutation K V) : writes (fun s => apply_with_cid cid m s).
Proof.
  intros s. unfold apply_with_cid. apply writes_then; [apply writes_at_or_empty|]. intros map s'.
  destruct (get_changelog map) as [rl map']. apply writes_try. intros log _. destruct (vm_load_hamt map') as [rh map2].
  apply writes_try. intros h _. destruct (for_each_st _ _ _) as [r [h' log']]. apply writes_try. intros _ _.
  apply writes_then; [apply writes_save|]. intros c s2.
  apply (writes_flush_then _ s2 (fun hamt_cid s => save s (mkMapIpld hamt_cid c))). intros c' s3. apply writes_save.
Qed.
End maps.

(** *** Spheres *)
Section spheres.
Context `{!SphereCodecs Cid} `{!SphereCodecsLaws Cid}.

Lemma writes_sphere_new did : writes (fun s => sphere_ipld_new did s).
Proof.
  intros s. unfold sphere_ipld_new, address_book_empty, authority_empty. apply writes_then; [apply writes_map_empty|]. intros ipld s1.
  apply writes_then; [apply writes_save|]. intros content s2. apply writes_then.
  { apply writes_then; [apply writes_map_empty|]. intros ids s3. apply writes_then; [apply writes_save|]. reflexivity. }
  intros book s3. apply writes_then; [apply writes_save|]. intros book_cid s4. apply writes_then.
  { apply writes_then; [apply writes_map_empty|]. intros dels s5. apply writes_then; [apply writes_save|]. intros del s6.
    apply writes_then; [apply writes_map_empty|]. intros revs s7. apply writes_then; [apply writes_save|]. reflexivity. }
  intros auth s5. apply writes_then; [apply writes_save|]. reflexivity.
Qed.

Lemma writes_apply_mutation c (m : SphereMutation Cid) : writes (fun s => apply_mutation_with_cid c m s).
Proof.
  intros s. unfold apply_mutation_with_cid. apply writes_try. intros memo _. apply writes_try. intros sphere _.
  apply writes_then; [unfold apply_content; destruct (no_changes _); [reflexivity|apply writes_apply]|]. intros content s1.
  apply writes_then.
  { unfold apply_identities. destruct (no_changes _); [reflexivity|]. apply writes_try. intros book _.
    apply writes_then; [apply writes_apply|]. intros ids s2. apply writes_save. }
  intros book s2. apply writes_then.
  { unfold apply_authority. destruct (no_changes (delegations_mutation m) && _); [reflexivity|]. apply writes_try. intros auth _.
    apply writes_then.
    { destruct (no_changes (delegations_mutation m)); [reflexivity|apply writes_apply]. }
    intros dels s3. apply writes_then.
    { destruct (no_changes (revocations_mutation m)); [reflexivity|apply writes_apply]. }
    intros revs s4. apply writes_save. }
  intros auth s3. apply writes_then; [apply writes_save|]. reflexivity.
Qed.

Lemma writes_hydrate c : writes (fun s => hydrate_with_cid c s).
Proof.
  intros s. unfold hydrate_with_cid. apply writes_try. intros memo _.
  apply writes_then.
  - destruct (parent memo); [reflexivity|]. apply writes_try. intros sphere _. apply writes_then; [apply writes_sphere_new|].
    intros base s1. apply writes_then; [unfold for_body; apply writes_then; [apply writes_save|]; reflexivity|].
    intros dag s2. apply writes_save.
  - intros base s1. apply writes_try. intros m _. apply writes_then; [apply writes_apply_mutation|]. intros rev s2.
    by destruct (bool_decide _).
Qed.

Lemma writes_hydrate_all l : writes (fun s => hydrate_all l s).
Proof.
  induction l as [|c l IH]; intros s; [reflexivity|]. cbn [hydrate_all]. apply writes_then; [apply writes_hydrate|]. intros _ s'. apply IH.
Qed.

Lemma writes_hydrate_timeslice fuel t : writes (fun s => hydrate_timeslice fuel t s).
Proof. intros s. unfold hydrate_timeslice. apply writes_try. intros l _. apply writes_hydrate_all. Qed.

Section signing.
Context {Key Url : Type} `{KeyMaterial Key} `{Bs58} `{Base64} `{DagJson UcanHeader} `{DagJson UcanPayload} `{UrlOps Url}.

Lemma writes_sign rng clock (rev : SphereRevision Cid) (key : Key) auth :
  forall s, R s (revision_sign (Url := Url) rng clock rev key auth s).2.2.
Proof.
  intros s. unfold revision_sign. match goal with |- context [try_with ?m _ _] => destruct m as [proof| | |] end; cbn; [|reflexivity..].
  destruct (memo_sign _ _ _) as [[[]| | |] memo]; cbn; [|reflexivity..].
  pose proof (writes_save memo s) as Hs. cbn in Hs. by destruct (save s memo) as [r s'].
Qed.

Lemma writes_rebase_all rng clock (key : Key) auth l : forall next,
  writes (fun s => rebase_all (Url := Url) rng clock key auth l next s).
Proof.
  induction l as [|c l IH]; intros next s; [reflexivity|]. cbn [rebase_all]. apply writes_then.
  { unfold rebase_version. apply writes_try. intros m _. apply writes_apply_mutation. }
  intros rev s1. pose proof (writes_sign (rng (length l)) clock rev key auth s1) as Hs.
  destruct (revision_sign _ _ _ _ _ _) as [[c'| | |] [rev' s2]]; cbn in *; [|exact Hs..]. etransitivity; [exact Hs|apply IH].
Qed.

Lemma writes_rebase fuel rng clock c old new (key : Key) auth :
  writes (fun s => rebase (Url := Url) fuel rng clock c old new key auth s).
Proof.
  intros s. unfold rebase. apply writes_then; [apply writes_hydrate_timeslice|]. intros _ s1. apply writes_try. intros l _.
  apply writes_rebase_all.
Qed.
End signing.
End spheres.
End writes.

(** ** The versions and the metadata of a database *)
Section names.
Context {Key Url Cid B KV : Type} `{Unicode}.
Context `{KeyMaterial Key} `{Bs58} `{Base64} `{DagJson UcanHeader} `{DagJson UcanPayload} `{UrlOps Url}.
Context `{Countable Cid} `{HashAlgorithm string} `{HashAlgorithm Cid} `{KeyOrder Cid}.
Context `{CidLaws Cid} `{!BlockStore B Cid} `{StoreLaws KV} `{!SphereCodecs Cid} `{!SphereCodecsLaws Cid} `{!EntryCodecs Cid} `{!EntryCodecsLaws Cid}.
Context `{!ContextCodecs Cid} (clock : N).
Notation SphereDb := (SphereDb B KV).
Implicit Types (db : SphereDb).

Lemma names_put_block db (c : Cid) b : same_names db (put_block db c b).2.
Proof. cbn [put_block db_block_store]. unfold db_put_block. by destruct (put_block (block_store db) c b) as [r blocks]. Qed.

Lemma names_put_links db codec (c : Cid) b : same_names db (put_links db codec c b).2.
Proof.
  cbn [put_links db_block_store]. unfold db_put_links. destruct (references codec b) as [links| | |]; cbn; try done.
  by destruct (set_key _ _ _) as [r links'].
Qed.

Lemma names_put db codec b : same_names db (put_encoded (Cid := Cid) db codec b).2.
Proof.
  unfold put_encoded. set (c := derive_cid codec b). pose proof (names_put_block db c b) as Hb.
  destruct (put_block db c b) as [[[]| | |] db1]; cbn [snd] in *; [|done..].
  pose proof (names_put_links db1 codec c b) as Hl. destruct (put_links _ _ _ _) as [[[]| | |] db2]; cbn [snd] in *; by etransitivity.
Qed.

(** Operations that only write blocks. *)
Lemma writes_names {A} (f : SphereDb -> A * SphereDb) :
  (forall R, PreOrder R -> (forall db codec b (links : list Cid), references codec b = Ok links -> R db (put_encoded (Cid := Cid) db codec b).2) ->
    writes R f) -> forall db, same_names db (f db).2.
Proof. intros Hf. apply (Hf same_names _ (fun db codec b _ _ => names_put db codec b)). Qed.

Lemma names_each {A} (f : A -> SphereDb -> outcome unit * SphereDb) l : (forall x db, same_names db (f x db).2) ->
  forall db, same_names db (for_each_st f l db).2.
Proof. intros Hf. exact (writes_each same_names f l Hf). Qed.

Lemma names_put_block_stream (stream : list (Cid * bytes) * outcome unit) db : same_names db (put_block_stream db stream).2.
Proof.
  destruct stream as [blocks ending]. unfold put_block_stream. apply (writes_then same_names); [|done].
  apply names_each. intros [c b] db1. unfold put_block_and_links. apply (writes_then same_names); [apply names_put_block|].
  intros _ db2. destruct (_ =? _)%N; [apply names_put_links|]. by destruct (_ =? _)%N; [apply names_put_links|].
Qed.

Lemma names_hydrate_all (l : list Cid) db : same_names db (hydrate_all l db).2.
Proof. apply (writes_names (hydrate_all l)). intros R HR ?. by apply writes_hydrate_all. Qed.

Lemma names_hydrate_timeslice n (t : Timeslice Cid) db : same_names db (hydrate_timeslice n t db).2.
Proof. apply (writes_names (hydrate_timeslice n t)). intros R HR ?. by apply writes_hydrate_timeslice. Qed.

Lemma names_hydrate (c : Cid) db : same_names db (hydrate_with_cid c db).2.
Proof. apply (writes_names (hydrate_with_cid c)). intros R HR ?. by apply writes_hydrate. Qed.

Lemma names_rebase n rng (c old new : Cid) (key : Key) auth db :
  same_names db (rebase (Url := Url) n rng clock c old new key auth db).2.
Proof. apply (writes_names (rebase (Url := Url) n rng clock c old new key auth)). intros R HR ?. by apply writes_rebase. Qed.

(** Saving writes blocks, and sets the version of the sphere when it succeeds. *)
Lemma default_save_db rng (ctx : SphereContext (Key := Key) (Cid := Cid) (B := B) (KV := KV)) headers :
  exists db, same_names (ctx_db ctx) db /\
    (ctx_db (default_save (Url := Url) clock rng ctx headers).2 = db \/
     exists y : Cid, ctx_db (default_save (Url := Url) clock rng ctx headers).2 = (set_version db (ctx_identity ctx) y).2).
Proof.
  unfold default_save. cbn [SphereContext.version context_has_context sphere_context put_context].
  destruct (context_version ctx) as [x| | |]; cbn [try_with snd]; [|exists (ctx_db ctx); split; [done|by left]..].
  assert (same_names (ctx_db ctx) (apply_mutation_with_cid x (ctx_mutation ctx) (ctx_db ctx)).2) as Hn1
    by (apply (writes_names (apply_mutation_with_cid x (ctx_mutation ctx))); intros R HR ?; by apply writes_apply_mutation).
  destruct (apply_mutation_with_cid _ _ _) as [r db1]. cbn [snd] in Hn1.
  destruct r as [rev| | |]; cbn [try_with snd with_db ctx_db]; [|exists db1; split; [done|by left]..].
  match goal with |- context [try_with ?m _ _] => destruct m as [rev'| | |] end; cbn [try_with snd with_db ctx_db];
    [|exists db1; split; [done|by left]..].
  cbn [ctx_author ctx_identity ctx_mutation with_db].
  pose proof (writes_sign (Url := Url) same_names (fun db codec b _ _ => names_put db codec b) rng clock rev' (author_key (ctx_author ctx))
    (author_authorization (ctx_author ctx)) db1) as Hn2.
  destruct (revision_sign _ _ _ _ _ _) as [r [rev2 db2]]. cbn [snd] in Hn2. exists db2. split; [by transitivity db1|].
  destruct r as [y| | |]; cbn [try_with snd with_db ctx_db]; [|by left..]. right. exists y.
  destruct (set_version db2 (ctx_identity ctx) y) as [r3 db3]. by destruct r3.
Qed.

Lemma default_save_versions rng (ctx : SphereContext (Key := Key) (Cid := Cid) (B := B) (KV := KV)) headers identity :
  identity <> ctx_identity ctx ->
  get_version (Cid := Cid) (ctx_db (default_save (Url := Url) clock rng ctx headers).2) identity = get_version (ctx_db ctx) identity.
Proof.
  intros Hid. destruct (default_save_db rng ctx headers) as (db & Hn & E). apply (same_names_version (Cid := Cid) _ _ identity) in Hn.
  destruct E as [->|[y ->]]; [done|]. destruct (set_version_spec db (ctx_identity ctx) y) as (db3 & -> & _ & _ & _ & Ho).
  cbn [snd]. by rewrite (Ho identity Hid).
Qed.

Lemma default_save_metadata rng (ctx : SphereContext (Key := Key) (Cid := Cid) (B := B) (KV := KV)) headers :
  metadata_store (ctx_db (default_save (Url := Url) clock rng ctx headers).2) = metadata_store (ctx_db ctx).
Proof.
  destruct (default_save_db rng ctx headers) as (db & [_ Hn] & E). destruct E as [->|[y ->]]; [done|].
  destruct (set_version_spec db (ctx_identity ctx) y) as (db3 & -> & _ & Hm & _). cbn [snd]. by rewrite Hm.
Qed.
End names.

(** ** Versions in stores of different kinds *)
(** ** Carrying versions over *)
Section carry.
Context {Cid S1 S2 : Type} `{CidLaws Cid} `{!BlockStore S1 Cid} `{!BlockStore S2 Cid}.

(** [s2] has every authentic block of [s1]. *)
Definition carries (s1 : S1) (s2 : S2) : Prop := forall (c : Cid) b, authentic s1 c b -> authentic s2 c b.

Lemma stored_carry {T} `{!BlockCodec T} `{!BlockCodecLaws Cid T} s1 s2 (c : Cid) (x : T) : carries s1 s2 -> stored s1 c x -> stored s2 c x.
Proof.
  intros Hc (b & Hb & -> & Hg). exists b. split; [done|]. split; [done|]. apply Hc. split; [done|]. symmetry. apply derive_cid_codec.
Qed.
End carry.

Section carry_maps.
Context {K V Cid S1 S2 : Type}.
Context `{Countable K} `{EqDecision V} `{KeyOrderLaws K} `{HashAlgorithmLaws K}.
Context `{CidLaws Cid} `{EqDecision Cid} `{!BlockStore S1 Cid} `{!BlockStoreLaws S1 Cid} `{!BlockStore S2 Cid} `{!BlockStoreLaws S2 Cid}.
Context `{!BlockCodec (wire_node K V Cid)} `{!BlockCodecLaws Cid (wire_node K V Cid)} `{!BlockCodec (VersionedMapIpld Cid)} `{!BlockCodecLaws Cid (VersionedMapIpld Cid)}.
Context `{!BlockCodec (ChangelogIpld (MapOperation K V))} `{!BlockCodecLaws Cid (ChangelogIpld (MapOperation K V))}.
Context (s1 : S1) (s2 : S2) (Hcarry : carries (Cid := Cid) s1 s2).

Lemma node_rep_carry w r d (n : node K V Cid) (m : gmap K V) : node_rep w r s1 d n m -> node_rep w r s2 d n m.
Proof.
  revert d n m. induction r as [|r IH]; intros d n m; [done|]. intros (Hb & Hl & Hi). split_and!; [done|done|]. intros i Hlt.
  specialize (Hi i Hlt). destruct (mem _ i); [|done]. destruct Hi as (p & Hp & Hr). exists p. split; [done|].
  destruct p as [vals|c cache|n']; cbn in *; [done| |naive_solver].
  destruct Hr as (Hs & (wn & n' & Hst & Hser & Hde & Hn) & Hc). split_and!; [done| |by destruct cache; auto].
  exists wn, n'. split; [exact (stored_carry s1 s2 c wn Hcarry Hst)|]. split; [done|]. split; [done|by apply IH].
Qed.

Lemma hamt_at_carry c (m : gmap K V) : hamt_at s1 c m -> hamt_at s2 c m.
Proof.
  intros Hat. pose proof (hamt_at_loads _ _ _ Hat) as (h & _ & Hst & Hh). destruct Hat as [(wn & root & Hs & Hd & Hn) Hc]. split.
  - exists wn, root. split; [exact (stored_carry s1 s2 _ _ Hcarry Hs)|]. split; [done|by apply node_rep_carry].
  - intros h2 Hh2. specialize (Hc h Hh). destruct (hamt_flush h) as [r1 h1'] eqn:E1. cbn in Hc. subst r1.
    destruct (hamt_flush_rep _ _ _ Hh2) as (c2 & h2' & E2 & _). rewrite E2. cbn. f_equal.
    exact (eq_sym (hamt_flush_canonical (S1 := S1) (S2 := S2) _ _ _ _ _ _ _ _ Hh Hh2 E1 E2)).
Qed.

Lemma part_at_carry c (p : gmap K V * ChangelogIpld (MapOperation K V)) : part_at s1 c p -> part_at s2 c p.
Proof.
  intros (ipld & Hi & Hl & Hh). exists ipld. split; [exact (stored_carry s1 s2 _ _ Hcarry Hi)|]. split; [exact (stored_carry s1 s2 _ _ Hcarry Hl)|by apply hamt_at_carry].
Qed.
End carry_maps.

Section carry_versions.
Context {Cid S1 S2 : Type} `{UnicodeLaws}.
Context `{Countable Cid} `{HashAlgorithmLaws string} `{HashAlgorithmLaws Cid} `{KeyOrderLaws Cid}.
Context `{CidLaws Cid} `{!BlockStore S1 Cid} `{!BlockStoreLaws S1 Cid} `{!BlockStore S2 Cid} `{!BlockStoreLaws S2 Cid}.
Context `{!SphereCodecs Cid} `{!SphereCodecsLaws Cid}.
Notation version := (SphereRebase.version (Cid := Cid)).

Lemma holds_carry (s1 : S1) (s2 : S2) (x : version) : carries (Cid := Cid) s1 s2 -> holds s1 x -> holds s2 x.
Proof.
  intros Hc (Hm & Hb & Hcn & (book & Hbk & Hi) & (auth & Ha & Hd & Hr)).
  split; [exact (stored_carry s1 s2 _ _ Hc Hm)|]. split; [exact (stored_carry s1 s2 _ _ Hc Hb)|]. split; [exact (part_at_carry s1 s2 Hc _ _ Hcn)|]. split.
  - exists book. split; [exact (stored_carry s1 s2 _ _ Hc Hbk)|exact (part_at_carry s1 s2 Hc _ _ Hi)].
  - exists auth. split; [exact (stored_carry s1 s2 _ _ Hc Ha)|]. split; [exact (part_at_carry s1 s2 Hc _ _ Hd)|exact (part_at_carry s1 s2 Hc _ _ Hr)].
Qed.
End carry_versions.

(** ** Persisting a store *)
Section persisting.
Context {Cid : Type} `{Countable Cid} `{CidLaws Cid}.
Implicit Types (m : MemoryStore) (c : Cid).

(** Every entry is a sound block under the bytes of its CID. *)
Definition sound_memory m : Prop := forall k b, entries m !! k = Some b -> exists c, k = cid_to_bytes c /\ sound_block (c, b).

Lemma sound_memory_empty : sound_memory memory_store_empty.
Proof. intros k b Hk. cbn in Hk. by rewrite lookup_empty in Hk. Qed.

(** Operations that only write blocks keep a store sound. *)
Lemma sound_memory_put m codec b (links : list Cid) : references codec b = Ok links -> sound_memory m ->
  sound_memory (put_encoded (Cid := Cid) m codec b).2.
Proof.
  intros Hl Hm k b' Hk. change (entries _) with (<[cid_to_bytes (derive_cid (Cid := Cid) codec b) := b]> (entries m)) in Hk.
  destruct (decide (k = cid_to_bytes (derive_cid (Cid := Cid) codec b))) as [->|Hne].
  - rewrite lookup_insert_eq in Hk. injection Hk as <-. exists (derive_cid codec b). split; [done|]. split; cbn [fst snd].
    + symmetry. apply derive_cid_codec.
    + intros _. exists links. unfold derive_cid. by rewrite cid_codec_new.
  - rewrite lookup_insert_ne in Hk by done. by apply Hm.
Qed.

Definition memory_blocks m : list (Cid * bytes) :=
  omap (fun kb => match cid_of_bytes kb.1 with Some c => Some (c, kb.2) | None => None end) (map_to_list (entries m)).

Lemma memory_blocks_spec m c b : sound_memory m -> (c, b) ∈ memory_blocks m <-> get_block m c = Ok (Some b).
Proof.
  intros Hm. unfold memory_blocks. rewrite list_elem_of_omap. cbn [get_block block_store_of_store]. unfold store_get_block. cbn [store_read memory_store]. unfold memory_read. split.
  - intros ([k b'] & Hin & E). cbn in E. destruct (cid_of_bytes k) as [c'|] eqn:Ec; [|done]. injection E as -> ->.
    apply elem_of_map_to_list in Hin. destruct (Hm _ _ Hin) as (c' & -> & _). rewrite cid_of_to_bytes in Ec. injection Ec as ->. by rewrite Hin.
  - intros [= E]. exists (cid_to_bytes c, b). split; [by apply elem_of_map_to_list|]. cbn. by rewrite cid_of_to_bytes.
Qed.

Lemma memory_blocks_sound m : sound_memory m -> Forall sound_block (memory_blocks m).
Proof.
  intros Hm. apply Forall_forall. intros [c b] Hin%memory_blocks_spec; [|done].
  cbn in Hin. unfold store_get_block in Hin. cbn in Hin. unfold memory_read in Hin. injection Hin as Hin.
  destruct (Hm _ _ Hin) as (c' & E & Hs). apply (inj _) in E as ->. done.
Qed.

Context {B KV : Type} `{!BlockStore B Cid} `{!BlockStoreLaws B Cid} `{StoreLaws KV} `{!BlockCodec Cid} `{!BlockCodecLaws Cid Cid}.
Context `{!BlockCodec (list Cid)} `{!BlockCodecLaws Cid (list Cid)}.
Notation SphereDb := (SphereDb B KV).

Lemma persist_stream (db : SphereDb) m : sound_memory m -> persist (Cid := Cid) db m = put_block_stream db (memory_blocks m, Ok tt).
Proof.
  intros Hm. unfold persist, put_block_stream.
  assert (get_stored_cids m = (memory_blocks m).*1) as ->.
  { unfold get_stored_cids, memory_blocks. induction (map_to_list (entries m)) as [|[k b] l IH]; [done|]. cbn. destruct (cid_of_bytes k); cbn; by rewrite IH. }
  assert (forall l, (forall c b, (c, b) ∈ l -> get_block m c = Ok (Some b)) -> forall db : SphereDb,
    for_each_st (fun cid db => let? block := require_block m cid keeping db in put_block_and_links cid block db) l.*1 db =
    for_each_st (fun '(cid, block) => put_block_and_links cid block) l db) as Hext.
  { induction l as [|[c b] l IH]; intros Hl db'; [done|]. cbn [fmap list_fmap for_each_st fst]. unfold require_block.
    rewrite (Hl c b) by left. cbn [outcome_bind ok_or try_with]. destruct (put_block_and_links c b db') as [[[]| | |] db1]; try done.
    cbn [try_with]. apply IH. intros c' b' Hin. apply Hl. by right. }
  rewrite Hext by (intros c b; by apply memory_blocks_spec). by destruct (for_each_st _ _ _) as [[[]| | |] db'].
Qed.

Lemma persist_spec (db : SphereDb) m : sound_memory m ->
  exists db', persist (Cid := Cid) db m = (Ok tt, db') /\ store_le (Cid := Cid) db db' /\ carries (Cid := Cid) m db'.
Proof.
  intros Hm. rewrite (persist_stream db m Hm).
  destruct (put_block_stream_spec db (memory_blocks m) (Ok tt) (memory_blocks_sound m Hm)) as (db' & E & Hle & Hall). exists db'.
  split; [done|]. split; [done|]. intros c b [Hg _]. apply Hall. by apply memory_blocks_spec.
Qed.
End persisting.
