(* ===== verification/StoreWrappers.v ===== *)
(** * Store wrappers

    Model of the stores that wrap another one: [IpfsStore]
    (noosphere-ipfs/src/storage.rs), which looks for a block that it does not have in
    an IPFS node and keeps what it finds there, and [BlockStoreRetry]
    (noosphere-storage/src/retry.rs), which bounds the time of a read and repeats it.
    The gateway reads what it streams to its clients through both.

    A read of an [IpfsStore] changes the store, so it returns the store that it
    leaves.  Time is counted in nanoseconds.  One attempt of a [BlockStoreRetry] is
    how long the read takes, what it answers, and what it leaves behind when it is
    dropped because its time is up.  Timers are exact: they end at their time, and a
    read that answers just then is in time. *)
From stdpp Require Import base gmap list numbers strings.
From Stdlib Require Import String.
From S2P Require Import Prelude BlockStore SphereDb SphereContextProofs Instances.
#[local] Open Scope list_scope.
#[local] Notation length := List.length (only parsing).

(** ** Blocks from IPFS *)

(** [IpfsClient::get_block]. *)
Class IpfsReader (I Cid : Type) := ipfs_get_block : I -> Cid -> outcome (option bytes).

Record IpfsStore (B I : Type) := mkIpfsStore { local_store : B; ipfs_client : option I }.
Arguments mkIpfsStore {B I} _ _.
Arguments local_store {B I} _.
Arguments ipfs_client {B I} _.

Section ipfs_store.
Context {B I Cid : Type} `{!BlockStore B Cid} `{!IpfsReader I Cid}.
Implicit Types (s : IpfsStore B I) (cid : Cid).

Definition ipfs_store_new (block_store : B) (client : option I) : IpfsStore B I := mkIpfsStore block_store client.

Definition ipfs_store_put_block s cid (block : bytes) : outcome unit * IpfsStore B I :=
  let '(r, local) := put_block (local_store s) cid block in (r, mkIpfsStore local (ipfs_client s)).

Definition ipfs_store_get_block s cid : outcome (option bytes) * IpfsStore B I :=
  let? maybe_block := get_block (local_store s) cid keeping s in
  match maybe_block with
  | Some block => (Ok (Some block), s)
  | None =>
      match ipfs_client s with
      | Some client =>
          let? found := ipfs_get_block client cid keeping s in
          match found with
          | Some block =>
              let '(r, s) := ipfs_store_put_block s cid block in
              let? _ := r keeping s in (Ok (Some block), s)
          | None => (Ok None, s)
          end
      | None => (Ok None, s)
      end
  end.

(** The local store after a series of reads, whatever they answered. *)
Definition ipfs_reads (cids : list Cid) s : IpfsStore B I := foldl (fun s cid => (ipfs_store_get_block s cid).2) s cids.
End ipfs_store.

(** ** Retries *)

(** [Duration]: a [u64] of seconds and a fraction. *)
Definition SECOND : N := 1000000000.
Definition DURATION_MAX : N := 2 ^ 64 * SECOND - 1.
Definition duration_add (a b : N) : outcome N :=
  if (a + b <=? DURATION_MAX)%N then Ok (a + b)%N else Panic "overflow when adding durations".
Definition duration_sub (a b : N) : outcome N :=
  if (b <=? a)%N then Ok (a - b)%N else Panic "overflow when subtracting durations".

Inductive Backoff (F : Type) : Type :=
  | Linear (increment ceiling : N)
  | Exponential (exponent : F) (ceiling : N).
Arguments Linear {F} increment ceiling.
Arguments Exponential {F} exponent ceiling.

Record BlockStoreRetry (F : Type) := mkRetry {
  maximum_retries : N;
  attempt_window : N;
  minimum_delay : N;
  backoff : option (Backoff F);
}.
Arguments mkRetry {F} _ _ _ _.
Arguments maximum_retries {F} _.
Arguments attempt_window {F} _.
Arguments minimum_delay {F} _.
Arguments backoff {F} _.

Definition DEFAULT_MAX_RETRIES : N := 2.
Definition DEFAULT_TIMEOUT : N := SECOND.
Definition DEFAULT_MINIMUM_DELAY : N := 100 * 1000000.
Definition DEFAULT_BACKOFF {F} : Backoff F := Linear SECOND (3 * SECOND).

(** [From<S>]. *)
Definition default_retry {F} : BlockStoreRetry F :=
  mkRetry DEFAULT_MAX_RETRIES DEFAULT_TIMEOUT DEFAULT_MINIMUM_DELAY (Some DEFAULT_BACKOFF).

(** An attempt to read from the wrapped store in state [St]. *)
Record Attempt (St : Type) := mkAttempt {
  attempt_time : option N;
  attempt_read : St -> outcome (option bytes) * St;
  attempt_dropped : St -> St;
}.
Arguments mkAttempt {St} _ _ _.
Arguments attempt_time {St} _.
Arguments attempt_read {St} _ _.
Arguments attempt_dropped {St} _ _.

Section retry.
Context {F St : Type}.

(** [Duration::from_secs_f32(duration.as_secs_f32().powf(exponent))]. *)
Context (powf_secs : N -> F -> outcome N).

Definition backoff_step (b : Backoff F) (duration : N) : outcome N :=
  match b with
  | Linear increment ceiling => let? next := duration_add duration increment in Ok (N.min next ceiling)
  | Exponential exponent ceiling => let? next := powf_secs duration exponent in Ok (N.min next ceiling)
  end.

(** The race between the read and the timeout: what the read answered, if it won, and
    the time it took. *)
Definition race (a : Attempt St) (timeout : N) (st : St) : option (outcome (option bytes)) * N * St :=
  let in_time := match attempt_time a with Some t => (t <=? timeout)%N | None => false end in
  if in_time then
    let '(r, st) := attempt_read a st in (Some r, default timeout (attempt_time a), st)
  else (None, timeout, attempt_dropped a st).

(** The loop of [get_block], with the time that has passed. *)
Fixpoint retry_loop (fuel : nat) (r : BlockStoreRetry F) (attempts : nat -> Attempt St) (retry_count : N) (next_timeout : N)
    (elapsed : N) (st : St) : outcome (option bytes) * N * St :=
  match fuel with
  | O => (Diverge, elapsed, st)
  | S fuel =>
      if (maximum_retries r <? retry_count)%N then (Err "Failed to get the block", elapsed, st)
      else
        let '(result, spent, st) := race (attempts (N.to_nat retry_count)) next_timeout st in
        let elapsed := (elapsed + spent)%N in
        let again :=
          let? remaining := duration_sub (attempt_window r) (N.min (N.max spent (minimum_delay r)) (attempt_window r)) in
          let? next_count := if (retry_count + 1 <? 2 ^ 32)%N then Ok (retry_count + 1)%N else Panic "attempt to add with overflow" in
          let? next :=
            match backoff r with
            | Some b => backoff_step b next_timeout
            | None => Ok next_timeout
            end in
          Ok (remaining, next_count, next) in
        match result with
        | Some (Ok maybe_block) => (Ok maybe_block, elapsed, st)
        | Some (Panic w) => (Panic w, elapsed, st)
        | Some Diverge => (Diverge, elapsed, st)
        | Some (Err _) | None =>
            match again with
            | Ok (remaining, next_count, next) => retry_loop fuel r attempts next_count next (elapsed + remaining)%N st
            | Err e => (Err e, elapsed, st)
            | Panic w => (Panic w, elapsed, st)
            | Diverge => (Diverge, elapsed, st)
            end
        end
  end.

Definition retry_get_block (fuel : nat) (r : BlockStoreRetry F) (attempts : nat -> Attempt St) (st : St)
    : outcome (option bytes) * N * St :=
  retry_loop fuel r attempts 0 (attempt_window r) 0 st.
End retry.

(** ** The IPFS store as a local store above an IPFS node

    Operations on a store, and what they answer on blocks put over those of the node,
    of which nothing is kept. *)
Inductive BlockOp (Cid : Type) : Type :=
  | PutBlock (cid : Cid) (block : bytes)
  | GetBlock (cid : Cid).
Arguments PutBlock {Cid} cid block.
Arguments GetBlock {Cid} cid.

Section ipfs_facts.
Context {B I Cid : Type} `{Countable Cid} `{CidOps Cid} `{!BlockStore B Cid} `{!BlockStoreLaws B Cid} `{!IpfsReader I Cid}.
Implicit Types (s : IpfsStore B I) (m : gmap Cid bytes) (client : option I) (cid : Cid) (op : BlockOp Cid).

Definition node_get client cid : outcome (option bytes) :=
  match client with Some i => ipfs_get_block i cid | None => Ok None end.

Definition overlay_get client m cid : outcome (option bytes) :=
  match m !! cid with Some block => Ok (Some block) | None => node_get client cid end.

Definition overlay_step client m op : outcome (option bytes) * gmap Cid bytes :=
  match op with
  | PutBlock cid block => (Ok None, <[cid := block]> m)
  | GetBlock cid => (overlay_get client m cid, m)
  end.

Definition store_step s op : outcome (option bytes) * IpfsStore B I :=
  match op with
  | PutBlock cid block => let '(r, s) := ipfs_store_put_block s cid block in (outcome_map (fun _ => None) r, s)
  | GetBlock cid => ipfs_store_get_block s cid
  end.

(** What a series of operations answers, and the state that it leaves. *)
Fixpoint trace {St} (step : St -> BlockOp Cid -> outcome (option bytes) * St) (st : St) (ops : list (BlockOp Cid))
    : list (outcome (option bytes)) * St :=
  match ops with
  | [] => ([], st)
  | op :: ops =>
      let '(r, st) := step st op in
      let '(rs, st) := trace step st ops in (r :: rs, st)
  end.

(** The local store has what was put, and otherwise only what the node has. *)
Definition caches client (local : B) m : Prop :=
  forall cid, match m !! cid with
    | Some block => get_block local cid = Ok (Some block)
    | None => get_block local cid = Ok None \/
        exists block, node_get client cid = Ok (Some block) /\ get_block local cid = Ok (Some block)
    end.

Lemma caches_put client local m cid block : caches client local m ->
  exists local', put_block local cid block = (Ok tt, local') /\ caches client local' (<[cid := block]> m).
Proof.
  intros Hc. destruct (put_block_spec local cid block) as (local' & E & Hg & Ho). exists local'. split; [done|]. intros c.
  destruct (decide (c = cid)) as [->|Hne]; [by rewrite lookup_insert_eq|]. rewrite lookup_insert_ne by done. specialize (Hc c).
  by rewrite Ho.
Qed.

Lemma caches_fill client local m cid block : caches client local m -> get_block local cid = Ok None ->
  node_get client cid = Ok (Some block) ->
  exists local', put_block local cid block = (Ok tt, local') /\ caches client local' m.
Proof.
  intros Hc Hl Hn. destruct (put_block_spec local cid block) as (local' & E & Hg & Ho). exists local'. split; [done|]. intros c.
  destruct (decide (c = cid)) as [->|Hne]; [|specialize (Hc c); by rewrite Ho].
  specialize (Hc cid). destruct (m !! cid); [congruence|]. right. by exists block.
Qed.

Lemma step_agrees client local m op : caches client local m ->
  exists local', store_step (mkIpfsStore local client) op = ((overlay_step client m op).1, mkIpfsStore local' client) /\
    caches client local' (overlay_step client m op).2.
Proof.
  intros Hc. destruct op as [cid block|cid]; cbn [store_step overlay_step fst snd].
  - destruct (caches_put client local m cid block Hc) as (local' & E & Hc'). exists local'. split; [|done].
    unfold ipfs_store_put_block. cbn. by rewrite E.
  - unfold ipfs_store_get_block, overlay_get. cbn [local_store ipfs_client]. pose proof (Hc cid) as Hcid.
    destruct (m !! cid) as [block|].
    + rewrite Hcid. by exists local.
    + destruct Hcid as [Hl|(block & Hn & Hl)]; rewrite Hl; cbn [try_with]; [|rewrite Hn; by exists local].
      destruct client as [i|]; cbn [node_get] in *; [|by exists local].
      destruct (ipfs_get_block i cid) as [[block|]| | |] eqn:Hn; cbn [try_with]; try by exists local.
      destruct (caches_fill (Some i) local m cid block Hc Hl Hn) as (local' & E & Hc'). exists local'. split; [|done].
      unfold ipfs_store_put_block. cbn. by rewrite E.
Qed.

Lemma trace_agrees client ops local m : caches client local m ->
  exists local', trace store_step (mkIpfsStore local client) ops = ((trace (overlay_step client) m ops).1, mkIpfsStore local' client) /\
    caches client local' (trace (overlay_step client) m ops).2.
Proof.
  revert local m. induction ops as [|op ops IH]; intros local m Hc; cbn [trace]; [by exists local|].
  destruct (step_agrees client local m op Hc) as (local1 & E1 & Hc1). rewrite E1.
  destruct (overlay_step client m op) as [r m1]. destruct (IH local1 m1 Hc1) as (local2 & E2 & Hc2). cbn [fst snd] in *. rewrite E2.
  destruct (trace (overlay_step client) m1 ops) as [rs m2]. by exists local2.
Qed.

Definition has (local : B) cid : Prop := exists block, get_block local cid = Ok (Some block).

Lemma step_has s op cid : has (local_store s) cid -> has (local_store (store_step s op).2) cid.
Proof.
  intros [b Hb]. assert (forall c block, has (local_store (ipfs_store_put_block s c block).2) cid) as Hput.
  { intros c block. unfold ipfs_store_put_block. destruct (put_block_spec (local_store s) c block) as (local' & E & Hg & Ho). rewrite E. cbn.
    destruct (decide (cid = c)) as [->|Hne]; [by exists block|]. exists b. by rewrite Ho. }
  destruct op as [c block|c]; cbn [store_step].
  - specialize (Hput c block). by destruct (ipfs_store_put_block s c block).
  - unfold ipfs_store_get_block. destruct (get_block (local_store s) c) as [[block|]| | |]; try by exists b. cbn [try_with].
    destruct (ipfs_client s) as [i|]; [|by exists b]. destruct (ipfs_get_block i c) as [[block|]| | |]; try by exists b. cbn [try_with].
    specialize (Hput c block). destruct (ipfs_store_put_block s c block) as [[] s']; done.
Qed.

Lemma trace_has ops s cid : has (local_store s) cid -> has (local_store (trace store_step s ops).2) cid.
Proof.
  revert s. induction ops as [|op ops IH]; intros s Hs; [done|]. cbn [trace]. apply (step_has s op) in Hs.
  destruct (store_step s op) as [r s1]. specialize (IH s1 Hs). by destruct (trace store_step s1 ops).
Qed.

(** A block that was read is in the local store. *)
Lemma read_has s cid block : (ipfs_store_get_block s cid).1 = Ok (Some block) -> has (local_store (ipfs_store_get_block s cid).2) cid.
Proof.
  unfold ipfs_store_get_block. destruct (get_block (local_store s) cid) as [[b|]| | |] eqn:El; try done; cbn [try_with]; [by exists b|].
  destruct (ipfs_client s) as [i|]; [|done]. destruct (ipfs_get_block i cid) as [[b|]| | |]; try done. cbn [try_with].
  unfold ipfs_store_put_block. destruct (put_block_spec (local_store s) cid b) as (local' & E & Hg & Ho). rewrite E. cbn. by exists b.
Qed.

Lemma trace_reads ops s cid block : (GetBlock cid, Ok (Some block)) ∈ zip ops (trace store_step s ops).1 ->
  has (local_store (trace store_step s ops).2) cid.
Proof.
  revert s. induction ops as [|op ops IH]; intros s; cbn [trace]; [by intros ?%not_elem_of_nil|].
  destruct (store_step s op) as [r s1] eqn:E. specialize (IH s1). pose proof (trace_has ops s1 cid) as Hh.
  destruct (trace store_step s1 ops) as [rs s2]. cbn in *. intros Hin. inversion Hin as [? ? E1|? ? ? Hin2]; subst; [|by apply IH].
  apply Hh. cbn in E. pose proof (read_has s cid block) as Hr. rewrite E in Hr. by apply Hr.
Qed.

(** A read keeps every block that the store has. *)
Lemma get_block_keeps s cid : store_le (local_store s) (local_store (ipfs_store_get_block s cid).2).
Proof.
  unfold ipfs_store_get_block. destruct (get_block (local_store s) cid) as [[block|]| | |] eqn:El; try done. cbn [try_with].
  destruct (ipfs_client s) as [i|] eqn:Ei; [|done]. destruct (ipfs_get_block i cid) as [[block|]| | |]; try done. cbn [try_with].
  unfold ipfs_store_put_block. destruct (put_block_spec (local_store s) cid block) as (local' & E & Hg & Ho). rewrite E. cbn.
  intros c b [Hb Hd]. split; [|done]. rewrite Ho; [done|]. intros ->. congruence.
Qed.
End ipfs_facts.

(** ** Over the database of a gateway *)
Section ipfs_db.
Context {B KV I Cid : Type} `{Countable Cid} `{CidLaws Cid} `{!BlockStore B Cid} `{!BlockStoreLaws B Cid} `{Store KV} `{!StoreLaws KV}.
Context `{!BlockCodec Cid} `{!BlockCodecLaws Cid Cid} `{!BlockCodec (list Cid)} `{!BlockCodecLaws Cid (list Cid)} `{!IpfsReader I Cid}.
Notation SphereDb := (SphereDb B KV).

(** The database that a stream reads after some reads through IPFS. *)
Definition db_with_ipfs (client : option I) (cids : list Cid) (db : SphereDb) : SphereDb :=
  local_store (ipfs_reads cids (ipfs_store_new db client)).

Lemma get_block_names (s : IpfsStore SphereDb I) (cid : Cid) : same_names (local_store s) (local_store (ipfs_store_get_block s cid).2).
Proof.
  unfold ipfs_store_get_block. destruct (get_block (local_store s) cid) as [[block|]| | |]; try done. cbn [try_with].
  destruct (ipfs_client s) as [i|]; [|done]. destruct (ipfs_get_block i cid) as [[block|]| | |]; try done. cbn [try_with].
  unfold ipfs_store_put_block, put_block. cbn. unfold db_put_block. by destruct (put_block _ _ _) as [[] ?].
Qed.

Lemma ipfs_reads_grow (cids : list Cid) (s : IpfsStore SphereDb I) :
  store_le (Cid := Cid) (local_store s) (local_store (ipfs_reads cids s)) /\ same_names (local_store s) (local_store (ipfs_reads cids s)).
Proof.
  unfold ipfs_reads. revert s. induction cids as [|cid cids IH]; intros s; cbn [foldl]; [done|].
  destruct (IH (ipfs_store_get_block s cid).2) as [H1' H2']. split; etransitivity; [apply get_block_keeps|done|apply get_block_names|done].
Qed.

(** The links of a block that comes from IPFS are not recorded: [IpfsStore] keeps the
    default of [put_links]. *)
Lemma ipfs_block_without_links (s : IpfsStore SphereDb I) (cid cid' : Cid) :
  get_block_links (local_store (ipfs_store_get_block s cid).2) cid' = get_block_links (local_store s) cid'.
Proof.
  unfold ipfs_store_get_block. destruct (get_block (local_store s) cid) as [[block|]| | |]; try done. cbn [try_with].
  destruct (ipfs_client s) as [i|]; [|done]. destruct (ipfs_get_block i cid) as [[block|]| | |]; try done. cbn [try_with].
  unfold ipfs_store_put_block, put_block. cbn. unfold db_put_block. by destruct (put_block _ _ _) as [[] ?].
Qed.

(** Reading through IPFS keeps what a database has; the routes of a gateway rest on it. *)
Lemma db_with_ipfs_grows client cids (db : SphereDb) :
  store_le (Cid := Cid) db (db_with_ipfs client cids db) /\ same_names db (db_with_ipfs client cids db).
Proof. apply (ipfs_reads_grow cids (ipfs_store_new db client)). Qed.
End ipfs_db.

(** ** Retries end in time *)
Section retry_facts.
Context {F St : Type} (powf_secs : N -> F -> outcome N).
Implicit Types (r : BlockStoreRetry F) (attempts : nat -> Attempt St) (st : St) (timeouts : nat -> N).

(** The timeouts of the attempts. *)
Definition next_timeout r (t : N) : outcome N :=
  match backoff r with Some b => backoff_step powf_secs b t | None => Ok t end.

Definition timeouts_of r timeouts (n : nat) : Prop :=
  timeouts 0 = attempt_window r /\ forall i, i < n -> next_timeout r (timeouts i) = Ok (timeouts (S i)).

(** A wrapped store that fails only with errors. *)
Definition fails_cleanly attempts : Prop :=
  forall i st, match (attempt_read (attempts i) st).1 with Ok _ | Err _ => True | _ => False end.

(** The first answer of [n] attempts from the [i]th on: the attempts in turn, each
    with its timeout, without the loop and its clock. *)
Fixpoint first_answer attempts timeouts (n i : nat) st : option (option bytes) * St :=
  match n with
  | O => (None, st)
  | S n =>
      match race (attempts i) (timeouts i) st with
      | (Some (Ok maybe_block), _, st) => (Some maybe_block, st)
      | (_, _, st) => first_answer attempts timeouts n (S i) st
      end
  end.

(** The longest that [n] attempts from the [i]th on can take. *)
Fixpoint longest r timeouts (n i : nat) : N :=
  match n with
  | O => 0
  | S n => N.max (timeouts i) (attempt_window r) + longest r timeouts n (S i)
  end.

Lemma race_spent (a : Attempt St) t st : ((race a t st).1.2 <= t)%N.
Proof.
  unfold race. destruct (attempt_time a) as [s|]; [|done]. destruct (s <=? t)%N eqn:E; [|done].
  destruct (attempt_read a st). cbn. by apply N.leb_le.
Qed.

Lemma race_clean attempts i t st : fails_cleanly attempts ->
  match (race (attempts i) t st).1.1 with Some (Panic _) | Some Diverge => False | _ => True end.
Proof.
  intros Hc. unfold race. destruct (attempt_time (attempts i)) as [s|]; [|done]. destruct (s <=? t)%N; [|done].
  specialize (Hc i st). destruct (attempt_read (attempts i) st) as [[] ?]; try done.
Qed.

Lemma retry_loop_spec r attempts timeouts k : (maximum_retries r + 1 < 2 ^ 32)%N ->
  timeouts_of r timeouts (S (N.to_nat (maximum_retries r))) -> fails_cleanly attempts -> forall fuel i elapsed st,
  i + k = S (N.to_nat (maximum_retries r)) -> k < fuel ->
  exists t, retry_loop powf_secs fuel r attempts (N.of_nat i) (timeouts i) elapsed st =
      (let '(found, st') := first_answer attempts timeouts k i st in
       (match found with Some b => Ok b | None => Err "Failed to get the block" end, (elapsed + t)%N, st')) /\
    (t <= longest r timeouts k i)%N.
Proof.
  intros Hmax [H0 Hnext] Hclean. induction k as [|k IH]; intros fuel i elapsed st Hi Hfuel; (destruct fuel as [|fuel]; [lia|]); cbn [retry_loop first_answer longest].
  - rewrite (proj2 (N.ltb_lt _ _)) by lia. exists 0%N. rewrite N.add_0_r. split; [done|lia].
  - rewrite (proj2 (N.ltb_ge _ _)) by lia. rewrite Nat2N.id.
    pose proof (race_spent (attempts i) (timeouts i) st) as Hs. pose proof (race_clean attempts i (timeouts i) st Hclean) as Hp.
    destruct (race (attempts i) (timeouts i) st) as [[result spent] st1]. cbn [fst snd] in *.
    set (again := outcome_bind _ _). set (rest := N.max _ _).
    assert (again = Ok (attempt_window r - N.min (N.max spent (minimum_delay r)) (attempt_window r), N.of_nat (S i), timeouts (S i))%N) as Ha.
    { unfold again, duration_sub. rewrite (proj2 (N.leb_le _ _)) by lia. cbn [outcome_bind]. rewrite (proj2 (N.ltb_lt _ _)) by lia.
      cbn [outcome_bind]. specialize (Hnext i ltac:(lia)). unfold next_timeout in Hnext. rewrite Hnext. cbn [outcome_bind]. do 3 f_equal. lia. }
    rewrite Ha. destruct (IH fuel (S i) (elapsed + spent + (attempt_window r - N.min (N.max spent (minimum_delay r)) (attempt_window r)))%N st1 ltac:(lia) ltac:(lia))
      as (t & E & Ht).
    assert (exists t', (let '(found, st') := first_answer attempts timeouts k (S i) st1 in
        (match found with Some b => Ok b | None => Err "Failed to get the block" end,
          (elapsed + spent + (attempt_window r - N.min (N.max spent (minimum_delay r)) (attempt_window r)) + t)%N, st')) =
      (let '(found, st') := first_answer attempts timeouts k (S i) st1 in
        (match found with Some b => Ok b | None => Err "Failed to get the block" end, (elapsed + t')%N, st')) /\
      (t' <= rest + longest r timeouts k (S i))%N) as Hrest.
    { exists (spent + (attempt_window r - N.min (N.max spent (minimum_delay r)) (attempt_window r)) + t)%N. split; [|lia].
      destruct (first_answer attempts timeouts k (S i) st1). do 2 f_equal. lia. }
    destruct result as [[b|e|w|]|]; try done.
    + exists spent. split; [done|]. lia.
    + destruct Hrest as (t' & E' & Ht'). exists t'. by rewrite E, E'.
    + destruct Hrest as (t' & E' & Ht'). exists t'. by rewrite E, E'.
Qed.
End retry_facts.

(** ** Theorems *)
Section theorems.
Context {B I Cid F St : Type} `{Countable Cid} `{CidOps Cid} `{!BlockStore B Cid} `{!BlockStoreLaws B Cid} `{!IpfsReader I Cid}.
Context (powf_secs : N -> F -> outcome N).

(** C27: Whatever is put into an [IpfsStore] and read from it, its answers are those of
    the blocks put over the blocks of the node, as if it kept nothing of what it reads;
    and a block that it read once it has in its local store from then on.  The node
    does not change what it answers. *)
Theorem ipfs_store_transparent (client : option I) (local : B) (m : gmap Cid bytes) (ops : list (BlockOp Cid)) :
  (forall cid, get_block local cid = Ok (m !! cid)) ->
  exists local', trace store_step (ipfs_store_new local client) ops = ((trace (overlay_step client) m ops).1, mkIpfsStore local' client) /\
    caches client local' (trace (overlay_step client) m ops).2 /\
    forall cid block, (GetBlock cid, Ok (Some block)) ∈ zip ops (trace (overlay_step client) m ops).1 -> has local' cid.
Proof.
  intros Hm. assert (caches client local m) as Hc by (intros cid; rewrite Hm; destruct (m !! cid); [done|by left]).
  destruct (trace_agrees client ops local m Hc) as (local' & E & Hc'). exists local'. split; [done|]. split; [done|].
  intros cid block Hin. pose proof (trace_reads ops (mkIpfsStore local client) cid block) as Hr. rewrite E in Hr. by apply Hr.
Qed.

(** C28: However the reads of the wrapped store fail or hang, a read with retries ends:
    it gives the first answer that comes within the timeout of its attempt, or the
    error that there was none, and takes at most the sum of the timeouts (or of the
    windows, where they are longer) of its attempts, measured by exact timers.  The
    differences of durations that it computes never underflow. *)
Theorem retry_ends_in_time (r : BlockStoreRetry F) (attempts : nat -> Attempt St) (timeouts : nat -> N) fuel st :
  (maximum_retries r + 1 < 2 ^ 32)%N -> timeouts_of powf_secs r timeouts (S (N.to_nat (maximum_retries r))) -> fails_cleanly attempts ->
  S (N.to_nat (maximum_retries r)) < fuel ->
  exists t, retry_get_block powf_secs fuel r attempts st =
      (let '(found, st') := first_answer attempts timeouts (S (N.to_nat (maximum_retries r))) 0 st in
       (match found with Some b => Ok b | None => Err "Failed to get the block" end, t, st')) /\
    (t <= longest r timeouts (S (N.to_nat (maximum_retries r))) 0)%N.
Proof.
  intros Hmax Ht Hc Hf. unfold retry_get_block. rewrite <- (proj1 Ht).
  destruct (retry_loop_spec powf_secs r attempts timeouts (S (N.to_nat (maximum_retries r))) Hmax Ht Hc fuel 0 0%N st ltac:(lia) Hf) as (t & E & Hl).
  exists t. change 0%N with (N.of_nat 0) at 1. rewrite E. by rewrite N.add_0_l.
Qed.
End theorems.

(** ** Runs *)
#[local] Instance toy_ipfs_node : IpfsReader (list (ToyCid * bytes)) ToyCid :=
  fun node cid => Ok (snd <$> find (fun b => bool_decide (b.1 = cid)) node).

Definition toy_block_cid (b : bytes) : ToyCid := derive_cid RAW b.

Lemma ipfs_store_transparent_witness :
  exists local', trace store_step (ipfs_store_new memory_store_empty (Some [(toy_block_cid [1%N], [1%N])]))
      [GetBlock (toy_block_cid [1%N]); PutBlock (toy_block_cid [2%N]) [2%N]; GetBlock (toy_block_cid [2%N]); GetBlock (toy_block_cid [3%N])] =
    ([Ok (Some [1%N]); Ok None; Ok (Some [2%N]); Ok None], mkIpfsStore local' (Some [(toy_block_cid [1%N], [1%N])])) /\
    has local' (toy_block_cid [1%N]).
Proof.
  destruct (ipfs_store_transparent (Some [(toy_block_cid [1%N], [1%N])]) memory_store_empty ∅
    [GetBlock (toy_block_cid [1%N]); PutBlock (toy_block_cid [2%N]) [2%N]; GetBlock (toy_block_cid [2%N]); GetBlock (toy_block_cid [3%N])])
    as (local' & E & _ & Hh); [intros cid; cbn; unfold store_get_block, store_read, memory_store, memory_read, memory_store_empty, entries; by rewrite !lookup_empty|].
  exists local'. split; [exact E|]. apply (Hh _ [1%N]). vm_compute. left.
Defined.

(** The default policy, over a store that hangs, then fails, then answers. *)
Definition toy_attempts (i : nat) : Attempt unit :=
  match i with
  | 0 => mkAttempt None (fun st => (Ok None, st)) id
  | 1 => mkAttempt (Some (SECOND / 2)%N) (fun st => (Err "broken pipe", st)) id
  | _ => mkAttempt (Some (5 * SECOND / 2)%N) (fun st => (Ok (Some [7%N]), st)) id
  end.

Lemma toy_timeouts : timeouts_of (fun t (_ : unit) => Ok t) default_retry (fun i => N.min (N.of_nat (S i)) 3 * SECOND)%N 3.
Proof. split; [vm_compute; reflexivity|]. intros [|[|[|i]]] Hi; [vm_compute; reflexivity..|lia]. Qed.

Lemma retry_ends_in_time_witness :
  exists t, retry_get_block (fun t (_ : unit) => Ok t) 4 default_retry toy_attempts tt = (Ok (Some [7%N]), t, tt) /\ (t <= 6 * SECOND)%N.
Proof.
  destruct (retry_ends_in_time (fun t (_ : unit) => Ok t) default_retry toy_attempts (fun i => N.min (N.of_nat (S i)) 3 * SECOND)%N 4 tt)
    as (t & E & Ht).
  - vm_compute. reflexivity.
  - exact toy_timeouts.
  - intros [|[|i]] []; exact I.
  - vm_compute. lia.
  - exists t. split; [rewrite E; reflexivity|]. etransitivity; [exact Ht|]. apply N.leb_le. vm_compute. reflexivity.
Defined.
