(* ===== verification/Api.v ===== *)
(** * The gateway API

    What a client and a gateway exchange: the bodies, responses and errors of the
    push route ([noosphere-core/src/api/v0alpha2/data.rs]) and how they become
    synchronization errors ([context/sync/error.rs]); the bearer token and the
    [ucan] headers of a request, and the fetch and push of a client
    ([api/client.rs]); CAR streams ([stream/car.rs]).

    HTTP and the CAR format are third-party.  A CAR stream is what its reader makes
    of it: the roots of the header, unless it cannot be read, and the blocks with
    the way they end.  A [Server] answers requests and may change as it does. *)
From stdpp Require Import base gmap list numbers strings pretty.
From Stdlib Require Import Ascii String.
From S2P Require Import Prelude BlockStore HamtNode HamtRep Hamt BTree SphereDb BodyChunk VersionedMap.
From S2P Require Import UcanCapability Ucan UcanChain Authority Memo Sphere SphereHistory Bundle Stream SphereContext.
#[local] Open Scope list_scope.
#[local] Notation length := List.length (only parsing).

(** ** Results whose error has a type of its own *)
Inductive attempt (E A : Type) : Type :=
  | Done (a : A)
  | Failed (e : E)
  | Panicked (why : string)
  | Diverged.
Arguments Done {E A} a.
Arguments Failed {E A} e.
Arguments Panicked {E A} why.
Arguments Diverged {E A}.

#[export] Instance attempt_eq_dec {E A} `{EqDecision E} `{EqDecision A} : EqDecision (attempt E A).
Proof. solve_decision. Defined.

(** [impl From<anyhow::Error> for E]. *)
Class FromAnyhow (E : Type) := from_anyhow : string -> E.

(** [e?] for an [anyhow::Result] where the error is an [E]. *)
Definition lift {E A} `{FromAnyhow E} (m : outcome A) : attempt E A :=
  match m with
  | Ok a => Done a
  | Err e => Failed (from_anyhow e)
  | Panic w => Panicked w
  | Diverge => Diverged
  end.

Definition attempt_bind {E A B} (m : attempt E A) (f : A -> attempt E B) : attempt E B :=
  match m with
  | Done a => f a
  | Failed e => Failed e
  | Panicked w => Panicked w
  | Diverged => Diverged
  end.

Definition attempt_with {E A B St} (m : attempt E A) (st : St) (k : A -> attempt E B * St) : attempt E B * St :=
  match m with
  | Done a => k a
  | Failed e => (Failed e, st)
  | Panicked w => (Panicked w, st)
  | Diverged => (Diverged, st)
  end.

(** [map_err]. *)
Definition map_err {E E' A} (f : E -> E') (m : attempt E A) : attempt E' A :=
  match m with
  | Done a => Done a
  | Failed e => Failed (f e)
  | Panicked w => Panicked w
  | Diverged => Diverged
  end.

Notation "'let*' x ':=' m 'in' k" := (attempt_bind m (fun x => k))
  (at level 10, x pattern, m at level 100, k at level 200) : rust_scope.
Notation "'let*' x ':=' m 'keeping' st 'in' k" := (attempt_with m st (fun x => k))
  (at level 10, x pattern, m at level 100, st at level 100, k at level 200) : rust_scope.

(** ** Pushing (api/v0alpha2/data.rs) *)
Record PushBody (Cid : Type) := mkPush {
  push_sphere : string;
  local_base : option Cid;
  local_tip : Cid;
  counterpart_tip : option Cid;
  name_record : option string;
}.
Arguments mkPush {Cid} _ _ _ _ _.
Arguments push_sphere {Cid} _.
Arguments local_base {Cid} _.
Arguments local_tip {Cid} _.
Arguments counterpart_tip {Cid} _.
Arguments name_record {Cid} _.

Inductive PushResponse (Cid : Type) : Type :=
  | Accepted (new_tip : Cid)
  | NoChange.
Arguments Accepted {Cid} new_tip.
Arguments NoChange {Cid}.

Inductive PushError : Type :=
  | BrokenUpstream
  | BrokenDownstream
  | UnexpectedBody
  | Conflict
  | MissingHistory
  | UpToDate
  | Internal (message : option string).

#[export] Instance PushError_eq_dec : EqDecision PushError.
Proof. solve_decision. Defined.

#[export] Instance push_error_from_anyhow : FromAnyhow PushError := fun value => Internal (Some value).

(** HTTP statuses. *)
Definition OK : N := 200.
Definition CONFLICT : N := 409.

Definition push_error_status (value : PushError) : N :=
  match value with
  | BrokenUpstream => 502
  | BrokenDownstream => 502
  | UnexpectedBody => 422
  | Conflict => CONFLICT
  | MissingHistory => 424
  | UpToDate => 304
  | Internal _ => 500
  end.

(** The fixed part of the [Display] of an error. *)
Definition push_error_to_string (value : PushError) : string :=
  match value with
  | BrokenUpstream => "Stream of blocks up to the gateway was interrupted"
  | BrokenDownstream => "Stream of blocks down from the gateway was interrupted"
  | UnexpectedBody => "First block in upstream was missing or unexpected type"
  | Conflict => "Pushed history conflicts with canonical history"
  | MissingHistory => "Missing some implied history"
  | UpToDate => "Replica is up to date"
  | Internal _ => "Internal error"
  end.

(** ** Errors of a synchronization (context/sync/error.rs) *)
Inductive SyncError : Type :=
  | SyncConflict
  | SyncOther (message : string).

#[export] Instance SyncError_eq_dec : EqDecision SyncError.
Proof. solve_decision. Defined.

#[export] Instance sync_error_from_anyhow : FromAnyhow SyncError := SyncOther.

Definition sync_error_of_push (value : PushError) : SyncError :=
  match value with
  | Conflict => SyncConflict
  | any => SyncOther (push_error_to_string any)
  end.

(** ** CAR streams (stream/car.rs) *)
Notation car_stream Cid := (outcome (list Cid * block_stream Cid)).

(** [Cid::default] has the identity codec. *)
Class CidDefault (Cid : Type) `{CidOps Cid} := {
  cid_default : Cid;
  cid_default_codec : cid_codec cid_default = 0%N;
}.

Section car.
Context {Cid : Type} `{CidDefault Cid}.

(** The header goes out with the first block, or at the end of an empty stream; an
    error breaks the pipe. *)
Definition to_car_stream (roots : list Cid) (stream : block_stream Cid) : car_stream Cid :=
  let roots := match roots with [] => [cid_default] | _ => roots end in
  let broken := match stream.2 with Err _ => Err "BrokenPipe" | ending => ending end in
  match stream.1 with
  | [] => let? _ := broken in Ok (roots, ([], Ok tt))
  | blocks => Ok (roots, (blocks, broken))
  end.

Definition from_car_stream (car : car_stream Cid) : block_stream Cid :=
  match car with
  | Ok (_, stream) => stream
  | Err e => ([], Err e)
  | Panic w => ([], Panic w)
  | Diverge => ([], Diverge)
  end.

(** [try_next]: the next block, the end of the stream, or its error. *)
Definition try_next (stream : block_stream Cid) : outcome (option (Cid * bytes)) * block_stream Cid :=
  match stream with
  | (block :: blocks, ending) => (Ok (Some block), (blocks, ending))
  | ([], ending) => (let? _ := ending in Ok None, stream)
  end.
End car.

(** ** Requests *)

(** The bearer token and the values of the [ucan] headers (api/headers/ucan.rs). *)
Record Credentials (Cid : Type) := mkCredentials { bearer : string; ucan_headers : list (Cid * string) }.
Arguments mkCredentials {Cid} _ _.
Arguments bearer {Cid} _.
Arguments ucan_headers {Cid} _.

(** The routes of a gateway: [Err] if no response arrives, and else the status of
    the response and its body, read as a CAR stream. *)
Class Server (Net Cid : Type) := {
  serve_fetch : Net -> Credentials Cid -> option Cid -> outcome (N * car_stream Cid) * Net;
  serve_push : Net -> Credentials Cid -> car_stream Cid -> outcome (N * car_stream Cid) * Net;
}.

Class ApiCodecs (Cid : Type) := {
  push_body_codec :: BlockCodec (PushBody Cid);
  push_response_codec :: BlockCodec (PushResponse Cid);
}.

(** ** The client (api/client.rs) *)
Section client.
Context {Key Url Cid S Net : Type} `{Unicode}.
Context `{KeyMaterial Key} `{Bs58} `{Base64} `{DagJson UcanHeader} `{DagJson UcanPayload} `{UrlOps Url}.
Context `{EqDecision Cid} `{CidDefault Cid} `{!BlockStore S Cid} `{!SphereCodecs Cid} `{!BlockCodec (BodyChunkIpld Cid)}.
Context `{!ApiCodecs Cid} `{!Server Net Cid}.
Context (walk_fuel history_fuel : nat) (clock : N).
#[local] Existing Instance block_ucan_store.
Implicit Types (s : S) (net : Net).

(** The loop over the proofs of the authorization; [fuel] bounds their number. *)
Fixpoint header_proofs (fuel : nat) s (proofs_to_search : list string) (headers : list (Cid * string))
    : outcome (list (Cid * string)) :=
  match vec_pop proofs_to_search with
  | None => Ok headers
  | Some (cid_string, proofs_to_search) =>
      match fuel with
      | O => Diverge
      | Datatypes.S fuel' =>
          let? cid := cid_of_string (Cid := Cid) cid_string in
          let? jwt := require_token s cid in
          let? ucan := ucan_from_str jwt in
          header_proofs fuel' s (proofs_to_search ++ default [] (proofs ucan)) (headers ++ [(cid, jwt)])
      end
  end.

(** An authorization that does not resolve is used as a blind proof. *)
Definition authorization_headers s (authorization : Authorization Cid) (authorization_cid : Cid) : outcome (list (Cid * string)) :=
  match as_ucan s authorization with
  | Ok ucan =>
      let? headers := header_proofs walk_fuel s (default [] (proofs ucan)) [] in
      let? jwt := ucan_encode ucan in
      Ok (headers ++ [(authorization_cid, jwt)])
  | Err _ => Ok []
  | Panic w => Panic w
  | Diverge => Diverge
  end.

Definition make_bearer_token (rng : bytes) (gateway_identity : string) (author : Author Key Cid)
    (capability : SphereView) s : outcome (Credentials Cid) :=
  let builder := issued_by builder_default (author_key author) in
  let builder := for_audience builder gateway_identity in
  let builder := with_lifetime builder 120 in
  let builder := claiming_capability builder (capability_of_view (Url := Url) capability) in
  let? signable := build clock (with_nonce builder) in
  let? authorization := ok_or "Authorization is required but none is configured" (author_authorization author) in
  let? cid := authorization_cid authorization in
  let? headers := authorization_headers s authorization cid in
  let signable := push_proof signable (cid_to_string cid) in
  let? ucan := sign rng signable in
  let? jwt := ucan_encode ucan in
  Ok (mkCredentials jwt headers).

(** [Client::fetch]: a root with the identity codec means no changes. *)
Definition client_fetch (rng : bytes) (session : Session) (sphere_identity : string) (author : Author Key Cid) s
    (since : option Cid) net : outcome (option (Cid * block_stream Cid)) * Net :=
  let capability := generate_capability sphere_identity Fetch in
  let? credentials := make_bearer_token rng (session_gateway session) author capability s keeping net in
  let '(r, net) := serve_fetch net credentials since in
  let? (_, car) := r keeping net in
  let? (roots, stream) := car keeping net in
  match roots with
  | tip :: _ => if (cid_codec tip =? 0)%N then (Ok None, net) else (Ok (Some (tip, stream)), net)
  | [] => (Ok None, net)
  end.

(** [Client::make_push_request_stream]. *)
Definition make_push_request_stream s (push_body : PushBody Cid) : car_stream Cid :=
  let stream :=
    match block_serialize (Cid := Cid) push_body with
    | Ok first =>
        let '(blocks, ending) :=
          memo_history_stream history_fuel walk_fuel s (local_tip push_body) (local_base push_body) true in
        (first :: blocks, ending)
    | Err e => ([], Err e)
    | Panic w => ([], Panic w)
    | Diverge => ([], Diverge)
    end in
  to_car_stream [local_tip push_body] stream.

Definition make_push_request s (credentials : Credentials Cid) (push_body : PushBody Cid) net
    : attempt PushError (block_stream Cid) * Net :=
  let '(r, net) := serve_push net credentials (make_push_request_stream s push_body) in
  match r with
  | Ok (status, car) => if (status =? CONFLICT)%N then (Failed Conflict, net) else (Done (from_car_stream car), net)
  | Err _ => (Failed BrokenUpstream, net)
  | Panic w => (Panicked w, net)
  | Diverge => (Diverged, net)
  end.

Definition client_push (rng : bytes) (session : Session) (sphere_identity : string) (author : Author Key Cid)
    (push_body : PushBody Cid) s net : attempt PushError (PushResponse Cid) * (S * Net) :=
  let capability := generate_capability sphere_identity Push in
  let* credentials := lift (make_bearer_token rng (session_gateway session) author capability s) keeping (s, net) in
  let '(r, net) := make_push_request s credentials push_body net in
  let* stream := r keeping (s, net) in
  let '(r, stream) := try_next stream in
  let* next := lift r keeping (s, net) in
  match next with
  | None => (Failed UnexpectedBody, (s, net))
  | Some (_, block) =>
      let* push_response := lift (of_block block) keeping (s, net) in
      let '(r, s) := put_block_stream s stream in
      let* _ := map_err (fun _ => BrokenDownstream) (lift r) keeping (s, net) in
      (Done push_response, (s, net))
  end.
End client.
