(* ===== verification/Sync.v ===== *)
(** * Synchronization

    Model of [noosphere-core/src/context/sync]: the strategy that fetches the history
    of the counterpart sphere of the gateway, rebases the local changes on what it
    links, adopts link records and pushes (strategy.rs), and the retries after a
    conflict (write.rs).

    [C] is the container of the context of the local sphere and [Net] the network
    with the gateway; both are threaded.  [rng] are the random bytes: its first
    argument is the step that draws them. *)
From stdpp Require Import base gmap list numbers strings pretty.
From Stdlib Require Import Ascii String.
From S2P Require Import Prelude BlockStore HamtNode HamtRep Hamt BTree SphereDb BodyChunk VersionedMap.
From S2P Require Import UcanCapability Ucan UcanChain Authority Memo Sphere SphereHistory Bundle Stream SphereContext Api.
#[local] Open Scope list_scope.
#[local] Notation length := List.length (only parsing).

Inductive SyncExtent : Type := FetchOnly | FetchAndPush.

(** (recovery.rs) *)
Inductive SyncRecovery : Type :=
  | RecoverNone
  | RecoverRetry (max_retries : nat).

(** The steps of a synchronization that draw random bytes. *)
Definition RNG_FETCH : nat := 0.
Definition RNG_REBASE : nat := 1.
Definition RNG_SAVE : nat := 2.
Definition RNG_RECORD : nat := 3.
Definition RNG_PUSH : nat := 4.

(** [BTreeMap::append]. *)
Definition btree_append {K V} `{Countable K} `{KeyOrder K} (t t' : list (K * V)) : list (K * V) :=
  foldl (fun t kv => btree_insert t kv.1 kv.2) t t'.

Section sync.
Context {Key Url Cid B KV Net : Type} `{Unicode}.
Context `{KeyMaterial Key} `{Bs58} `{Base64} `{DagJson UcanHeader} `{DagJson UcanPayload} `{UrlOps Url}.
Context `{Countable Cid} `{HashAlgorithm string} `{HashAlgorithm Cid} `{KeyOrder Cid}.
Context `{CidDefault Cid} `{!BlockStore B Cid} `{Store KV} `{!SphereCodecs Cid} `{!EntryCodecs Cid} `{!ContextCodecs Cid}.
Context `{!ApiCodecs Cid} `{!GatewayApi Net Key Cid} `{!Server Net Cid}.
Context (supported_keys : list (bytes * (bytes -> outcome Key))).
Context (fuel walk_fuel history_fuel : nat) (clock : N).
Context {C : Type} `{!HasMutableSphereContext (Key := Key) (Cid := Cid) (B := B) (KV := KV) C}.
Notation SphereDb := (SphereDb B KV).
Notation names := (list (string * IdentityIpld Cid)).
#[local] Existing Instance block_ucan_store.
Implicit Types (c : C) (net : Net) (db : SphereDb) (rng : nat -> nat -> bytes).

(** ** The handshake *)
Definition client_of c net : outcome Session * C :=
  let '(r, ctx) := context_client net (sphere_context c) in (r, put_context c ctx).

Definition handshake c net : outcome (option Cid * string * option Cid) * C :=
  let '(r, c) := client_of c net in
  let? session := r keeping c in
  let counterpart := session_counterpart session in
  let '(r, db) := db_set_key (context_db c) COUNTERPART counterpart in
  let c := put_db c db in
  let? _ := r keeping c in
  let? local_sphere_version := get_version db (ctx_identity (sphere_context c)) keeping c in
  let? counterpart_sphere_version := get_version db counterpart keeping c in
  (Ok (local_sphere_version, counterpart, counterpart_sphere_version), c).

(** ** Fetching *)

(** The loop over the history of the counterpart, oldest version first. *)
Definition hydrate_counterpart (version : Cid) (st : SphereDb * names) : outcome unit * (SphereDb * names) :=
  let '(db, updated_names) := st in
  let '(r, db) := hydrate_with_cid version db in
  let? _ := r keeping (db, updated_names) in
  let? added :=
    let? sphere := to_body db version in
    let? identities := get_identities db (address_book sphere) in
    (get_added identities).1 keeping (db, updated_names) in
  (Ok tt, (db, btree_append updated_names added)).

(** The version of [identity] that a version of the counterpart links. *)
Definition linked_version db (counterpart : Cid) (identity : string) : outcome (option Cid) :=
  let? links := get_content db counterpart in (vm_get links identity).1.

(** The tip of the local history, given what the counterpart linked before and
    links now. *)
Definition reconcile (rng : nat -> bytes) (author : Author Key Cid) (local_sphere_tip old_base new_base : option Cid) db
    : outcome Cid * SphereDb :=
  match local_sphere_tip, old_base, new_base with
  | Some current_tip, Some old_base, Some new_base =>
      if negb (bool_decide (old_base = new_base))
      then rebase (Url := Url) history_fuel rng clock current_tip old_base new_base (author_key author) (author_authorization author) db
      else (Ok current_tip, db)
  | None, old_base, Some new_base =>
      let '(r, db) := hydrate_timeslice history_fuel (exclude_past (slice new_base old_base)) db in
      let? _ := r keeping db in (Ok new_base, db)
  | Some current_tip, _, _ => (Ok current_tip, db)
  | None, _, None => (Err "Missing local history for sphere after sync!", db)
  end.

(** What is left to do once a tip and its blocks arrive. *)
Definition incorporate_fetched rng c (local_sphere_tip : option Cid) (counterpart : string) (counterpart_base : option Cid)
    (counterpart_tip : Cid) (stream : block_stream Cid) : outcome (Cid * Cid * names) * C :=
  let identity := ctx_identity (sphere_context c) in
  let '(r, db) := put_block_stream (context_db c) stream in
  let c := put_db c db in
  let? _ := r keeping c in
  let '(history, ending) := into_history_stream history_fuel db counterpart_tip counterpart_base in
  let? _ := ending keeping c in
  let '(r, (db, updated_names)) := for_each_st hydrate_counterpart (reverse history.*1) (db, []) in
  let c := put_db c db in
  let? _ := r keeping c in
  let? old_base :=
    match counterpart_base with
    | Some counterpart_base => linked_version db counterpart_base identity
    | None => Ok None
    end keeping c in
  let? new_base := linked_version db counterpart_tip identity keeping c in
  let '(r, db) := reconcile (rng RNG_REBASE) (ctx_author (sphere_context c)) local_sphere_tip old_base new_base db in
  let c := put_db c db in
  let? local_tip := r keeping c in
  let '(r, db) := set_version db identity local_tip in
  let c := put_db c db in
  let? _ := r keeping c in
  let '(r, db) := set_version db counterpart counterpart_tip in
  let c := put_db c db in
  let? _ := r keeping c in
  (Ok (local_tip, counterpart_tip, updated_names), c).

Definition fetch_remote_changes rng c (local_sphere_tip : option Cid) (counterpart : string) (counterpart_base : option Cid) net
    : outcome (Cid * Cid * names) * (C * Net) :=
  let identity := ctx_identity (sphere_context c) in
  let '(r, c) := client_of c net in
  let? session := r keeping (c, net) in
  let '(r, net) :=
    client_fetch (Url := Url) walk_fuel clock (rng RNG_FETCH 0) session (ctx_origin (sphere_context c)) (ctx_author (sphere_context c))
      (context_db c) counterpart_base net in
  let? fetch_response := r keeping (c, net) in
  match fetch_response with
  | None =>
      let? local_tip := require_version (context_db c) identity keeping (c, net) in
      let? counterpart_base := ok_or "Counterpart sphere history is missing!" counterpart_base keeping (c, net) in
      (Ok (local_tip, counterpart_base, []), (c, net))
  | Some (counterpart_tip, stream) =>
      let '(r, c) := incorporate_fetched rng c local_sphere_tip counterpart counterpart_base counterpart_tip stream in
      (r, (c, net))
  end.

(** ** Adopting link records *)

(** One name; a record that cannot be adopted is passed over. *)
Definition adopt_name (entry : string * IdentityIpld Cid) c : outcome unit * C :=
  let '(name, address) := entry in
  let? record := identity_link_record (context_db c) address keeping c in
  match record with
  | None => (Ok tt, c)
  | Some link_record =>
      let? identity := get_petname c name keeping c in
      match identity with
      | None => (Ok tt, c)
      | Some identity =>
          if negb (bool_decide (identity = peer_did address)) then (Ok tt, c)
          else
            let? resolved := resolve_petname c name keeping c in
            if bool_decide (resolved = get_link link_record) then (Ok tt, c)
            else
              let '(r, c) := set_petname_record (Url := Url) supported_keys fuel walk_fuel clock c name link_record in
              (match r with Ok _ | Err _ => Ok tt | Panic w => Panic w | Diverge => Diverge end, c)
      end
  end.

Definition adopt_names rng c (updated_names : names) : outcome (option Cid) * C :=
  match updated_names with
  | [] => (Ok None, c)
  | _ =>
      let '(r, c) := for_each_st adopt_name updated_names c in
      let? _ := r keeping c in
      if has_unsaved_changes c then
        let '(r, c) := context_save (rng RNG_SAVE 0) c None in
        let? version := r keeping c in (Ok (Some version), c)
      else (Ok None, c)
  end.

(** ** Pushing *)
Definition push_local_changes rng c (local_sphere_tip : Cid) (counterpart : string) (counterpart_sphere_tip : Cid) net
    : attempt SyncError unit * (C * Net) :=
  let '(r, c) := create_link_record (Url := Url) supported_keys fuel walk_fuel clock (rng RNG_RECORD 0) c (Some 120%N) in
  let* link_record := lift r keeping (c, net) in
  let* jwt := lift (ucan_encode link_record) keeping (c, net) in
  let identity := ctx_identity (sphere_context c) in
  let* local_sphere_base := lift (linked_version (context_db c) counterpart_sphere_tip identity) keeping (c, net) in
  if bool_decide (local_sphere_base = Some local_sphere_tip) then (Done tt, (c, net))
  else
    let '(r, c) := client_of c net in
    let* session := lift r keeping (c, net) in
    let push_body := mkPush identity local_sphere_base local_sphere_tip (Some counterpart_sphere_tip) (Some jwt) in
    let '(r, (db, net)) :=
      client_push (Url := Url) walk_fuel history_fuel clock (rng RNG_PUSH 0) session (ctx_origin (sphere_context c))
        (ctx_author (sphere_context c)) push_body (context_db c) net in
    let c := put_db c db in
    let* result := map_err sync_error_of_push r keeping (c, net) in
    match result with
    | NoChange => (Failed (SyncOther "Gateway already up to date!"), (c, net))
    | Accepted new_tip =>
        let '(r, db) := hydrate_timeslice history_fuel (exclude_past (slice new_tip (Some counterpart_sphere_tip))) db in
        let c := put_db c db in
        let* _ := lift r keeping (c, net) in
        let '(r, db) := set_version db counterpart new_tip in
        let c := put_db c db in
        let* _ := lift r keeping (c, net) in
        (Done tt, (c, net))
    end.

(** ** A synchronization *)
Definition rollback c (original_sphere_version : option Cid) (counterpart : string) (original_counterpart_version : option Cid)
    : outcome unit * C :=
  let restore (identity : string) (version : option Cid) c : outcome unit * C :=
    match version with
    | Some version => let '(r, db) := set_version (context_db c) identity version in (r, put_db c db)
    | None => (Ok tt, c)
    end in
  let '(r, c) := restore (ctx_identity (sphere_context c)) original_sphere_version c in
  let? _ := r keeping c in
  restore counterpart original_counterpart_version c.

(** The block that [sync] takes the [result] from: a [?] in it leaves [sync]. *)
Definition sync_steps rng (extent : SyncExtent) c (local_version : option Cid) (counterpart : string) (counterpart_version : option Cid) net
    : attempt SyncError (outcome Cid) * (C * Net) :=
  let '(r, (c, net)) := fetch_remote_changes rng c local_version counterpart counterpart_version net in
  let* (local_tip, counterpart_tip, updated_names) := lift r keeping (c, net) in
  let '(r, c) := adopt_names rng c updated_names in
  let* adopted := lift r keeping (c, net) in
  let local_tip := default local_tip adopted in
  let '(r, (c, net)) :=
    match extent with
    | FetchAndPush => push_local_changes rng c local_tip counterpart counterpart_tip net
    | FetchOnly => (Done tt, (c, net))
    end in
  let* _ := r keeping (c, net) in
  (Done (Ok local_tip), (c, net)).

Definition sync rng (extent : SyncExtent) c net : attempt SyncError Cid * (C * Net) :=
  let '(r, c) := handshake c net in
  let* (local_version, counterpart, counterpart_version) := lift r keeping (c, net) in
  let '(r, (c, net)) := sync_steps rng extent c local_version counterpart counterpart_version net in
  let* result := r keeping (c, net) in
  let '(r, c) :=
    match result with
    | Ok _ => (Ok tt, c)
    | _ => rollback c local_version counterpart counterpart_version
    end in
  let* _ := lift r keeping (c, net) in
  (lift result, (c, net)).

(** ** Retries (write.rs) *)

(** The loop of [sync_with_options]: [retries] are left. *)
Fixpoint sync_retrying (rng : nat -> nat -> nat -> bytes) (extent : SyncExtent) (retries : nat) c net
    : attempt SyncError Cid * (C * Net) :=
  let '(r, (c, net)) := sync (rng retries) extent c net in
  match r with
  | Failed SyncConflict =>
      match retries with
      | O => (Failed SyncConflict, (c, net))
      | Datatypes.S retries => sync_retrying rng extent retries c net
      end
  | other => (other, (c, net))
  end.

Definition sync_with_options (rng : nat -> nat -> nat -> bytes) (extent : SyncExtent) (recovery : SyncRecovery) c net
    : attempt SyncError Cid * (C * Net) :=
  let '(r, (c, net)) :=
    match recovery with
    | RecoverNone => sync (rng 0) extent c net
    | RecoverRetry max_retries => sync_retrying rng extent max_retries c net
    end in
  let* version := r keeping (c, net) in
  (Done version, (put_context c (reset_access (sphere_context c)), net)).

(** [SphereSync::sync]. *)
Definition sphere_sync (rng : nat -> nat -> nat -> bytes) c net : attempt SyncError Cid * (C * Net) :=
  sync_with_options rng FetchAndPush (RecoverRetry 3) c net.
End sync.
