(* ===== verification/Gateway.v ===== *)
(** * The gateway

    Model of the handlers of [noosphere-gateway]: pushing ([handlers/v0alpha2/push.rs]),
    fetching ([handlers/v0alpha1/fetch.rs]) and the manager of a single sphere
    ([single_tenant/gateway_manager.rs]).

    A gateway has a sphere of its own, which links the DID of the counterpart (the
    sphere of the client) to the latest version that was pushed and mirrors its
    petnames.  [C] is the container of the context of that sphere.  Jobs are
    submitted to workers; here they are the list of what was submitted.

    [IpfsStore] and [BlockStoreRetry] add the blocks that they find on IPFS to the
    database: the store that a stream reads, [with_ipfs], is the database with such
    blocks.
    [merge] is that of [tokio_stream], whose order is not determined. *)
From stdpp Require Import base gmap list numbers strings pretty.
From Stdlib Require Import Ascii String.
From S2P Require Import Prelude BlockStore HamtNode HamtRep Hamt BTree SphereDb BodyChunk VersionedMap.
From S2P Require Import UcanCapability Ucan UcanChain Authority Memo Sphere SphereHistory Bundle Stream SphereContext Api.
#[local] Open Scope list_scope.
#[local] Notation length := List.length (only parsing).

(** The scope of a request (extractors/scope.rs). *)
Record GatewayScope := mkScope {
  scope_counterpart : string;
  scope_gateway : string;
  scope_gateway_identity : string;
}.

(** The jobs of a gateway (jobs/job.rs). *)
Inductive GatewayJob (Cid : Type) : Type :=
  | CompactHistory (identity : string)
  | IpfsSyndication (identity : string) (name_publish_on_success : option Ucan)
  | NameSystemResolveAll (identity : string)
  | NameSystemResolveSince (identity : string) (since : option Cid)
  | NameSystemPublish (identity : string) (record : Ucan)
  | NameSystemRepublish (identity : string).
Arguments CompactHistory {Cid} _.
Arguments IpfsSyndication {Cid} _ _.
Arguments NameSystemResolveAll {Cid} _.
Arguments NameSystemResolveSince {Cid} _ _.
Arguments NameSystemPublish {Cid} _ _.
Arguments NameSystemRepublish {Cid} _.

Class StreamMerge (Cid : Type) := merge : block_stream Cid -> block_stream Cid -> block_stream Cid.

Section gateway.
Context {Key Url Cid B KV Net : Type} `{Unicode}.
Context `{KeyMaterial Key} `{Bs58} `{Base64} `{DagJson UcanHeader} `{DagJson UcanPayload} `{UrlOps Url}.
Context `{Countable Cid} `{HashAlgorithm string} `{HashAlgorithm Cid} `{KeyOrder Cid}.
Context `{CidDefault Cid} `{!BlockStore B Cid} `{Store KV} `{!SphereCodecs Cid} `{!EntryCodecs Cid} `{!ContextCodecs Cid}.
Context `{!ApiCodecs Cid} `{!StreamMerge Cid}.
Context (supported_keys : list (bytes * (bytes -> outcome Key))).
Context (fuel walk_fuel history_fuel : nat) (clock : N).
Notation SphereDb := (SphereDb B KV).
Notation SphereContext := (SphereContext (Key := Key) (Cid := Cid) (B := B) (KV := KV)).
#[local] Existing Instance block_ucan_store.
Implicit Types (db : SphereDb).

(** ** Pushing *)
Section push.
Context {C : Type} `{!HasMutableSphereContext (Key := Key) (Cid := Cid) (B := B) (KV := KV) C}.
Implicit Types (c : C) (push_body : PushBody Cid).

(** The checks of [verify_history] on the body. *)
Definition check_history c push_body : attempt PushError unit :=
  let* gateway_sphere_tip := lift (context_version (sphere_context c)) in
  if negb (bool_decide (Some gateway_sphere_tip = counterpart_tip push_body)) then Failed Conflict
  else
    let* local_sphere_base_cid := lift (get_version (context_db c) (push_sphere push_body)) in
    match local_sphere_base_cid, local_base push_body with
    | Some mine, theirs =>
        let conflict :=
          match theirs with
          | Some cid => negb (bool_decide (cid = mine))
          | None => true
          end in
        if conflict then Failed Conflict
        else if bool_decide (local_tip push_body = mine) then Failed UpToDate
        else Done tt
    | None, Some _ => Failed MissingHistory
    | None, None => Done tt
    end.

(** The body is the first block of the stream; the rest of the stream is left. *)
Definition verify_history c (stream : block_stream Cid) : attempt PushError (PushBody Cid) * block_stream Cid :=
  let '(r, stream) := try_next stream in
  let* next := lift r keeping stream in
  match next with
  | None => (Failed UnexpectedBody, stream)
  | Some (_, first_block) =>
      let* push_body := lift (of_block first_block) keeping stream in
      let* _ := check_history c push_body keeping stream in
      (Done push_body, stream)
  end.

(** An error of the history comes last, and is first in the reversed loop. *)
Definition incorporate_history (scope : GatewayScope) c push_body (stream : block_stream Cid) : attempt PushError unit * C :=
  let counterpart := scope_counterpart scope in
  let '(r, db) := put_block_stream (context_db c) stream in
  let c := put_db c db in
  let* _ := lift r keeping c in
  let '(history, ending) := into_history_stream history_fuel db (local_tip push_body) (local_base push_body) in
  let* _ := lift ending keeping c in
  let '(r, db) := hydrate_all (reverse history.*1) db in
  let c := put_db c db in
  let* _ := lift r keeping c in
  let '(r, db) := set_version db counterpart (local_tip push_body) in
  let c := put_db c db in
  let* _ := lift r keeping c in
  let '(r, c) := link_raw (Url := Url) supported_keys fuel walk_fuel clock c counterpart (local_tip push_body) in
  let* _ := lift r keeping c in (Done tt, c).

(** What the loop of [synchronize_names] has seen. *)
Record seen_names := mkSeen { updated_names : gset string; removed_names : gset string }.

Notation Identities := (VersionedMap string (IdentityIpld Cid) Cid SphereDb).

(** One operation of a changelog. *)
Definition synchronize_name (my_names : Identities) (operation : MapOperation string (IdentityIpld Cid)) (st : seen_names * C)
    : outcome unit * (seen_names * C) :=
  let '(mkSeen updated removed, c) := st in
  match operation with
  | Add key value =>
      if bool_decide (key ∈ updated) || bool_decide (key ∈ removed) then (Ok tt, st)
      else
        let? my_value := (vm_get my_names key).1 keeping st in
        let c :=
          if negb (bool_decide (my_value = Some value))
          then put_context c (update_identities (sphere_context c) (fun m => mutation_set m key value))
          else c in
        (Ok tt, (mkSeen ({[key]} ∪ updated) removed, c))
  | Remove key =>
      let removed := {[key]} ∪ removed in
      if bool_decide (key ∈ updated) then (Ok tt, (mkSeen updated removed, c))
      else
        let c := put_context c (update_identities (sphere_context c) (fun m => mutation_remove m key)) in
        (Ok tt, (mkSeen ({[key]} ∪ updated) removed, c))
  end.

(** One version of the pushed history. *)
Definition synchronize_version (my_names : Identities) db (version : Cid) (st : seen_names * C)
    : outcome unit * (seen_names * C) :=
  let? changed_names :=
    let? sphere := to_body db version in
    let? identities := get_identities db (address_book sphere) in
    (vm_load_changelog identities).1 keeping st in
  for_each_st (synchronize_name my_names) (log_changes changed_names) st.

(** The loop ends, without an error, where the history has one. *)
Definition synchronize_names c push_body : attempt PushError unit * C :=
  let* my_names :=
    lift (let? my_sphere := SphereContext.version c in
      let? sphere := to_body (context_db c) my_sphere in get_identities (context_db c) (address_book sphere)) keeping c in
  let db := context_db c in
  let '(history, ending) := into_history_stream history_fuel db (local_tip push_body) (local_base push_body) in
  let '(r, (_, c)) := for_each_st (synchronize_version my_names db) history.*1 (mkSeen ∅ ∅, c) in
  let* _ := lift r keeping c in
  match ending with
  | Ok _ | Err _ => (Done tt, c)
  | Panic w => (Panicked w, c)
  | Diverge => (Diverged, c)
  end.

(** [rng] is the nonce of the proof. *)
Definition update_gateway_sphere (rng : bytes) c push_body : attempt PushError (Cid * block_stream Cid) * C :=
  let '(r, cursor) := cursor_save rng (latest c) None in
  let c := cursor_inner cursor in
  let* next_version := lift r keeping c in
  (Done (next_version,
     memo_history_stream history_fuel walk_fuel (context_db c) next_version (counterpart_tip push_body) false), c).

(** The jobs; a name record that cannot be read submits no syndication. *)
Definition notify_name_resolver (scope : GatewayScope) : list (GatewayJob Cid) := [NameSystemResolveAll (scope_gateway scope)].

Definition notify_ipfs_syndicator (scope : GatewayScope) push_body : list (GatewayJob Cid) :=
  match name_record push_body with
  | Some jwt =>
      match ucan_from_str jwt with
      | Ok record => [IpfsSyndication (scope_gateway scope) (Some record)]
      | _ => []
      end
  | None => [IpfsSyndication (scope_gateway scope) None]
  end.

(** The response, the jobs submitted, and the gateway's sphere. *)
Definition push_invoke (rng : bytes) (scope : GatewayScope) c (stream : block_stream Cid)
    : attempt PushError (car_stream Cid * list (GatewayJob Cid)) * C :=
  let '(r, stream) := verify_history c stream in
  let* push_body := r keeping c in
  let '(r, c) := incorporate_history scope c push_body stream in
  let* _ := r keeping c in
  let '(r, c) := synchronize_names c push_body in
  let* _ := r keeping c in
  let '(r, c) := update_gateway_sphere rng c push_body in
  let* (next_version, new_blocks) := r keeping c in
  let jobs := notify_name_resolver scope ++ notify_ipfs_syndicator scope push_body in
  let stream :=
    match block_serialize (Cid := Cid) (Accepted next_version) with
    | Ok first => (first :: new_blocks.1, new_blocks.2)
    | Err e => ([], Err e)
    | Panic w => ([], Panic w)
    | Diverge => ([], Diverge)
    end in
  (Done (to_car_stream [next_version] stream, jobs), c).
End push.

(** ** Fetching *)
Definition counterpart_version db (sphere : Cid) (counterpart : string) : outcome (option Cid) :=
  let? links := get_content db sphere in (vm_get links counterpart).1.

Definition generate_fetch_stream {S : Type} `{!BlockStore S Cid} (store : S) db (counterpart identity : string) (since : option Cid)
    : outcome (car_stream Cid) :=
  let? latest := require_version db identity in
  if bool_decide (Some latest = since) then Ok (to_car_stream [] ([], Ok tt))
  else
    let stream := memo_history_stream history_fuel walk_fuel store latest since false in
    let? latest_counterpart := counterpart_version db latest counterpart in
    match latest_counterpart with
    | Some latest_counterpart =>
        let? since_counterpart :=
          match since with
          | Some since => counterpart_version db since counterpart
          | None => Ok None
          end in
        Ok (to_car_stream [latest]
              (merge stream (memo_history_stream history_fuel walk_fuel store latest_counterpart since_counterpart false)))
    | None => Ok (to_car_stream [latest] stream)
    end.

(** ** The gateway of a single sphere *)
Section single_tenant.
Context {C : Type} `{!HasMutableSphereContext (Key := Key) (Cid := Cid) (B := B) (KV := KV) C}.

(** The database with what reading a stream finds on IPFS. *)
Context (with_ipfs : SphereDb -> SphereDb).

Record Gateway := mkGateway { gateway_context : C; gateway_scope : GatewayScope; gateway_jobs : list (GatewayJob Cid) }.
Implicit Types (gateway : Gateway).

(** [try_authorize] with the stores of the manager, which are those of the context
    of the gateway: the tokens of the headers stay in its blocks. *)
Definition gateway_authorize gateway (credentials : Credentials Cid) (ability : SphereAbility) : outcome C * Gateway :=
  let db := context_db (gateway_context gateway) in
  let blocks := (write_header_tokens (ucan_headers credentials) (block_store db)).2 in
  let c := put_db (gateway_context gateway) (mkDb blocks (link_store db) (version_store db) (metadata_store db)) in
  (try_authorize (Key := Key) (Url := Url) supported_keys fuel clock (ucan_headers credentials) (bearer credentials)
     (Ok (block_store db)) (Ok c) (scope_counterpart (gateway_scope gateway)) ability,
   mkGateway c (gateway_scope gateway) (gateway_jobs gateway)).

(** The status of a refused request. *)
Definition refusal (status : string) : N :=
  if bool_decide (status = "UNAUTHORIZED") then 401
  else if bool_decide (status = "BAD_REQUEST") then 400
  else 500.

Definition fetch_route gateway (credentials : Credentials Cid) (since : option Cid) : outcome (N * car_stream Cid) * Gateway :=
  let '(r, gateway) := gateway_authorize gateway credentials Fetch in
  match r with
  | Ok c =>
      let db := context_db c in
      let store := with_ipfs db in
      match generate_fetch_stream store db (scope_counterpart (gateway_scope gateway)) (ctx_identity (sphere_context c)) since with
      | Ok car => (Ok (OK, car), mkGateway (put_db c store) (gateway_scope gateway) (gateway_jobs gateway))
      | Err _ => (Ok (500%N, Err "No CAR stream"), gateway)
      | Panic w => (Panic w, gateway)
      | Diverge => (Diverge, gateway)
      end
  | Err status => (Ok (refusal status, Err "No CAR stream"), gateway)
  | Panic w => (Panic w, gateway)
  | Diverge => (Diverge, gateway)
  end.

Definition push_route (rng : bytes) gateway (credentials : Credentials Cid) (body : car_stream Cid)
    : outcome (N * car_stream Cid) * Gateway :=
  let '(r, gateway) := gateway_authorize gateway credentials Push in
  match r with
  | Ok c =>
      let '(r, c) := push_invoke rng (gateway_scope gateway) c (from_car_stream body) in
      let after jobs := mkGateway c (gateway_scope gateway) (gateway_jobs gateway ++ jobs) in
      match r with
      | Done (car, jobs) => (Ok (OK, car), after jobs)
      | Failed error => (Ok (push_error_status error, Err "No CAR stream"), after [])
      | Panicked w => (Panic w, after [])
      | Diverged => (Diverge, after [])
      end
  | Err status => (Ok (refusal status, Err "No CAR stream"), gateway)
  | Panic w => (Panic w, gateway)
  | Diverge => (Diverge, gateway)
  end.
End single_tenant.
End gateway.
