(* ===== verification/GatewayProofs.v ===== *)
(** * Facts about the gateway

    What a gateway makes of a push that it accepts: the history that it holds
    afterwards, the petnames that it mirrors, and the version of its own sphere.

    A gateway takes over the petnames of the history that is pushed to it from the
    changelogs of its versions.  Where no version changes a name twice, the names
    that were changed have at the gateway the entries of the last version. *)
From stdpp Require Import base gmap list numbers strings pretty.
From Stdlib Require Import Ascii String.
From S2P Require Import Prelude BlockStore HamtNode HamtRep Hamt HamtSpec BTree SphereDb BodyChunk VersionedMap.
From S2P Require Import UcanCapability Ucan UcanChain Authority Memo Sphere SphereProofs SphereHistory SphereRebase.
From S2P Require Import Bundle BundleProofs Stream StreamProofs SphereContext SphereContextProofs SphereEdits SphereWalker SphereWalkerProofs StoreTransfer Api Gateway.
#[local] Open Scope list_scope.
#[local] Notation length := List.length (only parsing).

(** ** The first change to a key *)
Section mirroring.
Context {K V : Type} `{Countable K} `{EqDecision V}.
Implicit Types (ops : list (MapOperation K V)) (seen : gset K) (mine g : gmap K V).

Definition change_value (op : MapOperation K V) : option V := match op with Add _ v => Some v | Remove _ => None end.

Fixpoint first_change ops (k : K) : option (MapOperation K V) :=
  match ops with
  | [] => None
  | op :: ops' => if decide (change_key op = k) then Some op else first_change ops' k
  end.

(** The operations that [synchronize_names] records, of those it reads. *)
Fixpoint mirror mine seen ops : list (MapOperation K V) :=
  match ops with
  | [] => []
  | op :: ops' =>
      if decide (change_key op ∈ seen) then mirror mine seen ops'
      else
        let rest := mirror mine ({[change_key op]} ∪ seen) ops' in
        match op with
        | Add k v => if decide (mine !! k = Some v) then rest else op :: rest
        | Remove _ => op :: rest
        end
  end.

Definition keys_of ops : gset K := list_to_set (change_key <$> ops).

Lemma mirror_app mine seen ops ops' :
  mirror mine seen (ops ++ ops') = mirror mine seen ops ++ mirror mine (keys_of ops ∪ seen) ops'.
Proof.
  revert seen. induction ops as [|op ops IH]; intros seen; cbn [mirror app].
  { f_equal. unfold keys_of. set_solver. }
  unfold keys_of. cbn. fold (keys_of ops). case_decide as Hk.
  { rewrite IH. do 2 f_equal. set_solver. }
  rewrite IH. replace (keys_of ops ∪ ({[change_key op]} ∪ seen)) with ({[change_key op]} ∪ keys_of ops ∪ seen) by set_solver.
  destruct op as [k v|k]; [|done]. by case_decide.
Qed.

Lemma mirror_lookup mine seen ops g k : (forall k, k ∉ seen -> g !! k = mine !! k) ->
  apply_ops g (mirror mine seen ops) !! k =
    if decide (k ∈ seen) then g !! k else match first_change ops k with Some op => change_value op | None => g !! k end.
Proof.
  revert seen g. induction ops as [|op ops IH]; intros seen g Hg; cbn [mirror first_change]; [by case_decide|].
  case_decide as Hop.
  { rewrite IH by done. case_decide as Hk; [done|]. rewrite decide_False; [done|]. by intros <-. }
  assert (forall g', (forall k', change_key op <> k' -> g' !! k' = g !! k') -> g' !! change_key op = change_value op ->
    apply_ops g' (mirror mine ({[change_key op]} ∪ seen) ops) !! k =
      if decide (k ∈ seen) then g !! k
      else match (if decide (change_key op = k) then Some op else first_change ops k) with Some op => change_value op | None => g !! k end) as Hnext.
  { intros g' Hother Hsame. rewrite IH.
    - destruct (decide (change_key op = k)) as [<-|Hne].
      + rewrite decide_True, decide_False by set_solver. done.
      + rewrite Hother by done. destruct (decide (k ∈ seen)); [rewrite decide_True by set_solver|rewrite decide_False by set_solver]; done.
    - intros k' Hk'. rewrite Hother by set_solver. apply Hg. set_solver. }
  assert (apply_ops (apply_op g op) (mirror mine ({[change_key op]} ∪ seen) ops) !! k =
      if decide (k ∈ seen) then g !! k
      else match (if decide (change_key op = k) then Some op else first_change ops k) with Some op => change_value op | None => g !! k end) as Happ.
  { apply Hnext; [intros k' Hne; rewrite apply_op_lookup; by rewrite decide_False|]. rewrite apply_op_lookup, decide_True by done. by destruct op. }
  cbv zeta. destruct op as [k' v|k']; [|exact Happ].
  destruct (decide (mine !! k' = Some v)) as [Hm|Hm]; [|exact Happ].
  apply Hnext; [done|]. cbn. by rewrite Hg.
Qed.

Lemma first_change_None ops k : first_change ops k = None <-> k ∉ change_key <$> ops.
Proof.
  induction ops as [|op ops IH]; cbn; [split; [intros _ ?%elem_of_nil|]; done|]. rewrite not_elem_of_cons. case_decide; naive_solver.
Qed.

Lemma first_change_app ops ops' k :
  first_change (ops ++ ops') k = match first_change ops k with Some op => Some op | None => first_change ops' k end.
Proof. induction ops as [|op ops IH]; cbn; [done|]. by case_decide. Qed.

(** What replaying changes leaves, if no key is changed twice. *)
Lemma apply_ops_first g ops k : NoDup (change_key <$> ops) ->
  apply_ops g ops !! k = match first_change ops k with Some op => change_value op | None => g !! k end.
Proof.
  revert g. induction ops as [|op ops IH]; intros g Hn; cbn [first_change]; [done|]. rewrite apply_ops_cons.
  cbn in Hn. apply NoDup_cons in Hn as [Hop Hn]. rewrite IH, apply_op_lookup by done. case_decide as E.
  - subst k. apply first_change_None in Hop. rewrite Hop. by destruct op.
  - done.
Qed.
End mirroring.

Class ApiCodecsLaws (Cid : Type) `{CidOps Cid} `{!ApiCodecs Cid} := {
  push_body_laws :: BlockCodecLaws Cid (PushBody Cid);
  push_response_laws :: BlockCodecLaws Cid (PushResponse Cid);
}.

Section gateway_facts.
Context {Key Url Cid B KV : Type} `{UnicodeLaws}.
Context `{KeyMaterial Key} `{Bs58} `{Base64} `{DagJson UcanHeader} `{DagJson UcanPayload} `{UrlOps Url}.
Context `{Countable Cid} `{HashAlgorithmLaws string} `{HashAlgorithmLaws Cid} `{KeyOrderLaws Cid}.
Context `{CidLaws Cid} `{!CidDefault Cid} `{!BlockStore B Cid} `{!BlockStoreLaws B Cid} `{StoreLaws KV}.
Context `{!SphereCodecs Cid} `{!SphereCodecsLaws Cid} `{!EntryCodecs Cid} `{!EntryCodecsLaws Cid}.
Context `{!ContextCodecs Cid} `{!ContextCodecsLaws Cid} `{!ApiCodecs Cid} `{!ApiCodecsLaws Cid} `{!StreamMerge Cid}.
Context (supported_keys : list (bytes * (bytes -> outcome Key))).
Context (fuel walk_fuel history_fuel : nat) (clock : N).
Notation SphereDb := (SphereDb B KV).
Notation version := (SphereRebase.version (Cid := Cid)).
Notation context := (SphereContext (Key := Key) (Cid := Cid) (B := B) (KV := KV)).
Notation SphereMutation := (SphereMutation Cid).
#[local] Existing Instance block_ucan_store.
Implicit Types (db : SphereDb) (ctx : context) (x y g : version) (l : list (SphereMutation * version)).

(** ** Petnames *)
Lemma identities_view db x : holds db x ->
  exists ipld ids, to_body db (ver_cid x) = Ok ipld /\ get_identities db (address_book ipld) = Ok ids /\
    (forall name, (vm_get ids name).1 = Ok ((v_identities (ver_value x)).1 !! name)) /\
    (vm_load_changelog ids).1 = Ok (v_identities (ver_value x)).2.
Proof.
  intros (Hm & Hb & _ & (book & Hbk & Hi) & _). exists (ver_ipld x). unfold to_body, to_memo, get_identities.
  rewrite (stored_load _ _ _ Hm). cbn [outcome_bind]. rewrite (stored_load _ _ _ Hb), (stored_load _ _ _ Hbk). cbn [outcome_bind].
  eexists. split; [done|]. split; [done|]. split.
  - intros name. by destruct (vm_get_spec _ _ _ _ name (view_at _ _ _ _ Hi)) as (vm & -> & _).
  - destruct Hi as (ipld & Hi & Hlog & _). unfold vm_load_changelog, vm_to_body, vm_at. cbn. rewrite (stored_load _ _ _ Hi). cbn.
    unfold ipld_load_changelog. by rewrite (stored_load _ _ _ Hlog).
Qed.

Definition with_names (m : SphereMutation) ops : SphereMutation :=
  mkSphereMutation (author_did m) (content_mutation m)
    (mkMapMutation (mutation_did (identities_mutation m)) (mutation_changes (identities_mutation m) ++ ops))
    (delegations_mutation m) (revocations_mutation m).

Lemma with_names_nil m : with_names m [] = m.
Proof. unfold with_names. rewrite app_nil_r. by destruct m as [? ? [] ? ?]. Qed.

Lemma with_names_app m ops ops' : with_names (with_names m ops) ops' = with_names m (ops ++ ops').
Proof. unfold with_names. cbn. by rewrite app_assoc. Qed.

Definition named ctx ops : context := with_mutation ctx (with_names (ctx_mutation ctx) ops).

Lemma named_nil ctx : named ctx [] = ctx.
Proof. unfold named. rewrite with_names_nil. by destruct ctx. Qed.

Lemma named_app ctx ops ops' : named (named ctx ops) ops' = named ctx (ops ++ ops').
Proof. unfold named. cbn. by rewrite with_names_app. Qed.

Notation changes_of log := (log_changes (log : ChangelogIpld (MapOperation string (IdentityIpld Cid)))).
#[local] Instance plain : HasMutableSphereContext (Key := Key) (Cid := Cid) (B := B) (KV := KV) context :=
  context_has_mutable_context (Url := Url) clock.

Lemma synchronize_name_spec my_names mine op (updated removed : gset string) ctx : removed ⊆ updated ->
  (forall name, (vm_get my_names name).1 = Ok (mine !! name)) ->
  exists removed', synchronize_name my_names op (mkSeen updated removed, ctx) =
      (Ok tt, (mkSeen (keys_of [op] ∪ updated) removed', named ctx (mirror mine updated [op]))) /\ removed' ⊆ keys_of [op] ∪ updated.
Proof.
  intros Hsub Hget. unfold synchronize_name, keys_of. destruct op as [k v|k]; cbn [mirror change_key fmap list_fmap list_to_set foldr].
  - destruct (decide (k ∈ updated)) as [Hk|Hk].
    + rewrite bool_decide_true by done. cbn [orb]. exists removed. rewrite named_nil. split; [|set_solver].
      by replace ({[k]} ∪ ∅ ∪ updated) with updated by set_solver.
    + rewrite !bool_decide_false by set_solver. cbn [orb]. rewrite Hget. cbn [try_with]. exists removed.
      split; [|set_solver]. replace ({[k]} ∪ ∅ ∪ updated) with ({[k]} ∪ updated) by set_solver.
      destruct (decide (mine !! k = Some v)); [rewrite bool_decide_true by done|rewrite bool_decide_false by done]; cbn [negb]; [by rewrite named_nil|done].
  - exists ({[k]} ∪ removed). split; [|set_solver]. replace ({[k]} ∪ ∅ ∪ updated) with ({[k]} ∪ updated) by set_solver.
    destruct (decide (k ∈ updated)) as [Hk|Hk]; [rewrite bool_decide_true by done|by rewrite bool_decide_false by done].
    rewrite named_nil. by replace ({[k]} ∪ updated) with updated by set_solver.
Qed.

Lemma synchronize_ops_spec my_names mine ops : (forall name, (vm_get my_names name).1 = Ok (mine !! name)) ->
  forall (updated removed : gset string) ctx, removed ⊆ updated ->
  exists removed', for_each_st (synchronize_name my_names) ops (mkSeen updated removed, ctx) =
      (Ok tt, (mkSeen (keys_of ops ∪ updated) removed', named ctx (mirror mine updated ops))) /\ removed' ⊆ keys_of ops ∪ updated.
Proof.
  intros Hget. induction ops as [|op ops IH]; intros updated removed ctx Hsub.
  { exists removed. cbn. rewrite named_nil. unfold keys_of. cbn. split; [|set_solver]. by replace (∅ ∪ updated) with updated by set_solver. }
  destruct (synchronize_name_spec my_names mine op updated removed ctx Hsub Hget) as (r1 & E1 & Hr1). cbn [for_each_st].
  rewrite E1. cbn [try_with]. destruct (IH (keys_of [op] ∪ updated) r1 (named ctx (mirror mine updated [op])) Hr1) as (r2 & E2 & Hr2).
  exists r2. rewrite E2, named_app. change (op :: ops) with ([op] ++ ops). rewrite mirror_app.
  replace (keys_of ([op] ++ ops) ∪ updated) with (keys_of ops ∪ (keys_of [op] ∪ updated)) by (unfold keys_of; cbn; set_solver). done.
Qed.

(** The changes that the versions of [l] carry in their changelogs, newest first. *)
Definition pushed_changes l : list (MapOperation string (IdentityIpld Cid)) :=
  mjoin ((fun my => changes_of (v_identities (ver_value my.2)).2) <$> reverse l).

Lemma synchronize_versions_spec db my_names mine (ys : list version) : (forall name, (vm_get my_names name).1 = Ok (mine !! name)) ->
  Forall (holds db) ys -> forall (updated removed : gset string) ctx, removed ⊆ updated ->
  let ops := mjoin ((fun y => changes_of (v_identities (ver_value y)).2) <$> ys) in
  exists seen, for_each_st (synchronize_version my_names db) (ver_cid <$> ys) (mkSeen updated removed, ctx) =
      (Ok tt, (seen, named ctx (mirror mine updated ops))).
Proof.
  intros Hget Hys. induction Hys as [|y ys Hy Hys IH]; intros updated removed ctx Hsub ops.
  { eexists. unfold ops. cbn. by rewrite named_nil. }
  destruct (identities_view db y Hy) as (ipld & ids & Eb & Ei & _ & Elog).
  cbn [fmap list_fmap for_each_st]. unfold synchronize_version at 1. rewrite Eb. cbn [outcome_bind]. rewrite Ei. cbn [outcome_bind].
  rewrite Elog. cbn [try_with].
  destruct (synchronize_ops_spec my_names mine (changes_of (v_identities (ver_value y)).2) Hget updated removed ctx Hsub) as (r1 & E1 & Hr1).
  rewrite E1. cbn [try_with]. destruct (IH _ r1 (named ctx (mirror mine updated (changes_of (v_identities (ver_value y)).2))) Hr1) as (seen & E2).
  exists seen. rewrite E2, named_app. unfold ops. cbn [fmap list_fmap]. cbn [mjoin list_join]. by rewrite mirror_app.
Qed.

Lemma lineage_holds A db x l : lineage A db x l -> Forall (holds db) (snd <$> l).
Proof. induction 1 as [|x m y l _ Hs _ IH]; constructor; [apply Hs|exact IH]. Qed.

Lemma synchronize_names_spec A ctx g x l body : at_version ctx g -> lineage A (ctx_db ctx) x l ->
  ver_cid x ∉ cids l -> l <> [] -> length l <= history_fuel -> local_tip body = ver_cid (tip x l) -> local_base body = Some (ver_cid x) ->
  synchronize_names history_fuel ctx body =
    (Done tt, named ctx (mirror (v_identities (ver_value g)).1 ∅ (pushed_changes l))).
Proof.
  intros Hat Hl Hx Hne Hf Ht Hb. unfold synchronize_names. cbn [SphereContext.version has_context plain context_has_mutable_context context_has_context].
  rewrite (at_version_context _ _ Hat). cbn [outcome_bind]. destruct (identities_view _ g (proj2 Hat)) as (ipld & ids & Eb & Ei & Hget & _).
  unfold context_db. cbn [sphere_context context_has_context]. rewrite Eb. cbn [outcome_bind]. rewrite Ei. cbn [lift attempt_with].
  rewrite Ht, Hb, (lineage_history A _ x l history_fuel Hl Hx Hne Hf), fmap_reverse, cids_walk.
  replace (reverse (cids l)) with (ver_cid <$> reverse (snd <$> l)) by (rewrite fmap_reverse, <- list_fmap_compose; done).
  destruct (synchronize_versions_spec (ctx_db ctx) ids _ (reverse (snd <$> l)) Hget) with (updated := ∅ : gset string) (removed := ∅ : gset string) (ctx := ctx)
    as (seen & E); [by apply Forall_reverse, (lineage_holds A _ x)|done|].
  rewrite E. cbn [lift attempt_with]. unfold pushed_changes. do 4 f_equal. rewrite <- fmap_reverse, <- list_fmap_compose. done.
Qed.

(** ** What a store keeps as it grows *)
Lemma records_mono db db' remaining records : store_le db db' -> records_at db remaining records -> records_at db' remaining records.
Proof. intros Hle. induction 1 as [|? ? ? ? ? ? [Ha ?]]; econstructor; try eassumption. split; [by apply Hle|done]. Qed.

Lemma identity_mono n db db' (i : IdentityIpld Cid) : store_le db db' -> identity_at n db i -> identity_at n db' i.
Proof.
  intros Hle. unfold identity_at. destruct (peer_link_record i); [|done]. intros (records & Hr & Hn). exists records.
  split; [by eapply records_mono|done].
Qed.

Lemma delegation_chain_mono n db db' (d : DelegationIpld Cid) : store_le db db' -> delegation_chain_at n db d -> delegation_chain_at n db' d.
Proof. intros Hle (records & Hr & Hn). exists records. split; [by eapply records_mono|done]. Qed.

(** The versions of a lineage differ from the one it starts from. *)
Lemma lineage_orders A db x l : lineage A db x l -> Forall (fun my => (lamport_order (ver_memo x) < lamport_order (ver_memo my.2))%N) l.
Proof.
  induction 1 as [|x m y l _ Hs _ IH]; constructor; cbn; destruct Hs as (_ & _ & _ & _ & _ & Ho & _); [lia|].
  eapply Forall_impl; [exact IH|]. intros [m' z]. cbn. lia.
Qed.

Lemma lineage_fresh A db x l : lineage A db x l -> ver_cid x ∉ cids l.
Proof.
  intros Hl Hin. unfold cids in Hin. apply list_elem_of_fmap in Hin as ([m y] & E & Hin). cbn in E.
  pose proof (proj1 (Forall_forall _ _) (lineage_orders A db x l Hl) _ Hin) as Ho. cbn in Ho.
  pose proof (lineage_memos _ _ _ _ Hl m y Hin) as Hy. pose proof (lineage_head _ _ _ _ Hl) as (Hx & _).
  rewrite E in Hx. rewrite (stored_fun _ _ _ _ _ Hx Hy) in Ho. lia.
Qed.

(** The history that a store with its memos streams. *)
Lemma history_stream_at A (s0 db : SphereDb) x l n : lineage A s0 x l -> memos_at db l -> ver_cid x ∉ cids l -> l <> [] -> length l <= n ->
  into_history_stream n db (ver_cid (tip x l)) (Some (ver_cid x)) = (reverse ((fun my => (ver_cid my.2, ver_memo my.2)) <$> l), Ok tt).
Proof.
  intros Hl Hm Hx Hne Hf. pose proof (lineage_history A s0 x l n Hl Hx Hne Hf) as Hh. revert Hh. unfold into_history_stream.
  by rewrite (lineage_stream A s0 s0 x l n Hl (lineage_memos _ _ _ _ Hl) Hx Hne Hf), (lineage_stream A s0 db x l n Hl Hm Hx Hne Hf).
Qed.

(** ** A push *)
Context (P : string -> Prop) (Q : Cid -> Prop) (HP : collision_free P) (HQ : collision_free Q).

(** The author may write, also when the database has grown. *)
Definition lasting_access ctx : Prop := forall db, store_le (ctx_db ctx) db ->
  get_version (Cid := Cid) db (ctx_identity ctx) = get_version (ctx_db ctx) (ctx_identity ctx) ->
  writable (Url := Url) supported_keys fuel walk_fuel clock (with_db ctx db).

(** [l] is a history of the counterpart, made from [x], that can be sent from [s0]. *)
Record sendable (A : string -> Prop) (n : nat) (s0 : SphereDb) x l : Prop := {
  send_lineage : lineage A s0 x l;
  send_some : l <> [];
  send_length : length l <= history_fuel;
  send_sphere : is_sphere_memo (ver_memo x);
  send_added : Forall (fun my => added_at true n s0 (ver_value my.2)) l;
  send_value : value_in P Q (ver_value x);
  send_mutations : Forall (fun my => mutation_in P Q my.1) l;
  send_orders : (lamport_order (ver_memo x) + N.of_nat (length l) < 2 ^ 32)%N;
  send_depth : n < walk_fuel;
}.

(** The history as it is streamed. *)
Lemma sendable_stream A n s0 x l : sendable A n s0 x l ->
  exists blocks, memo_history_stream history_fuel walk_fuel s0 (ver_cid (tip x l)) (Some (ver_cid x)) true = (blocks, Ok tt) /\
    Forall sound_block blocks /\ forall db, has_blocks db blocks -> history_delivered true n db l.
Proof.
  intros [Hl Hne Hlen Hsp Hadd Hv Hm Ho Hd]. destruct walk_fuel as [|k]; [lia|].
  exact (taps_history_stream true A n k s0 x l history_fuel ltac:(lia) Hl Hne (lineage_fresh _ _ _ _ Hl) Hlen (is_sphere_tip _ _ _ _ Hl Hsp) Hadd).
Qed.

Lemma incorporate_history_spec A n s0 ctx x l scope body blocks :
  sendable A n s0 x l -> holds (ctx_db ctx) x -> lasting_access ctx ->
  scope_counterpart scope <> "" -> scope_counterpart scope <> ctx_identity ctx ->
  local_tip body = ver_cid (tip x l) -> local_base body = Some (ver_cid x) ->
  Forall sound_block blocks -> (forall db, has_blocks db blocks -> history_delivered true n db l) ->
  exists db', incorporate_history (Url := Url) supported_keys fuel walk_fuel history_fuel clock scope ctx body (blocks, Ok tt) =
      (Done tt, edited ctx db' (with_content (ctx_mutation ctx) (Add (scope_counterpart scope) (ver_cid (tip x l))))) /\
    store_le (ctx_db ctx) db' /\ lineage A db' x l /\
    Forall (fun my => log_values (identity_at n db') (v_identities (ver_value my.2)).2) l /\
    get_version db' (scope_counterpart scope) = Ok (Some (ver_cid (tip x l))) /\
    forall identity, identity <> scope_counterpart scope -> get_version (Cid := Cid) db' identity = get_version (ctx_db ctx) identity.
Proof.
  intros [Hl Hne Hlen Hsp Hadd Hv Hm Ho Hd] Hx Hw Hc Hid Ht Hb Hsound Hdel. unfold incorporate_history.
  change (context_db ctx) with (ctx_db ctx). destruct (put_block_stream_spec (ctx_db ctx) blocks (Ok tt) Hsound) as (db1 & E1 & Hle1 & Hall).
  pose proof (names_put_block_stream (blocks, Ok tt) (ctx_db ctx)) as Hn1. rewrite E1 in Hn1 |- *. cbn [lift attempt_with snd] in *.
  specialize (Hdel db1 Hall). rewrite Ht, Hb.
  rewrite (history_stream_at A s0 db1 x l history_fuel Hl (proj1 Hdel) (lineage_fresh _ _ _ _ Hl) Hne Hlen). cbn [lift attempt_with].
  rewrite fmap_reverse, reverse_involutive, cids_walk.
  destruct (delivered_lineage P Q HP HQ true A n s0 db1 x l Hl Hdel (holds_mono _ _ _ Hle1 Hx) Hv Hm Ho) as (db2 & E2 & Hle2 & Hl2).
  pose proof (names_hydrate_all (cids l) db1) as Hn2. rewrite E2 in Hn2 |- *. cbn [lift attempt_with snd] in *.
  destruct (set_version_spec db2 (scope_counterpart scope) (ver_cid (tip x l))) as (db3 & E3 & Hsame & _ & Hg & Hother). rewrite E3.
  cbn [lift attempt_with]. apply same_blocks_le in Hsame as Hle3.
  assert (store_le (ctx_db ctx) db3) as Hle by (transitivity db1; [done|]; by transitivity db2).
  assert (forall identity, identity <> scope_counterpart scope -> get_version (Cid := Cid) db3 identity = get_version (ctx_db ctx) identity) as Hver.
  { intros identity Hi. rewrite (Hother identity Hi). rewrite (same_names_version _ _ _ Hn2). by apply same_names_version. }
  change (put_db (put_db (put_db ctx db1) db2) db3) with (with_db ctx db3).
  cbn [has_context plain context_has_mutable_context].
  rewrite (link_raw_spec (Url := Url) (HasSphereContext0 := context_has_context) supported_keys fuel walk_fuel clock) by first [done|apply Hw; [done|by apply Hver]].
  cbn [lift attempt_with]. exists db3. split; [done|]. split; [done|]. split; [exact (lineage_mono _ _ _ _ _ Hle3 Hl2)|].
  split; [|by split]. apply Forall_forall. intros [m y] Hin. destruct Hdel as [_ Hdel]. destruct (Hdel m y Hin) as (_ & _ & (book & _ & _ & Hids) & _).
  intros k v Hk. eapply identity_mono; [|by eapply Hids]. by transitivity db2.
Qed.

(** The gateway's own sphere is at [g], with nothing pending, and [gdid] writes it. *)
Record serving ctx g (gdid : string) (n : nat) : Prop := {
  serving_ready : ready (Url := Url) clock P Q ctx g gdid;
  serving_idle : sphere_mutation_is_empty (ctx_mutation ctx) = true;
  serving_access : lasting_access ctx;
  serving_sphere : is_sphere_memo (ver_memo g);
  serving_added : added_at false n (ctx_db ctx) (ver_value g);
  serving_order : (lamport_order (ver_memo g) + 1 < 2 ^ 32)%N;
}.

Definition mirrored g l : list (MapOperation string (IdentityIpld Cid)) := mirror (v_identities (ver_value g)).1 ∅ (pushed_changes l).

(** The changes that a push makes to the sphere of the gateway. *)
Definition push_mutation (m : SphereMutation) (counterpart : string) x l g : SphereMutation :=
  with_names (with_content m (Add counterpart (ver_cid (tip x l)))) (mirrored g l).

Lemma mirror_in {K V} `{Countable K} `{EqDecision V} (mine : gmap K V) seen ops op : op ∈ mirror mine seen ops -> op ∈ ops.
Proof.
  revert seen. induction ops as [|op' ops IH]; intros seen; cbn [mirror]; [done|]. cbv zeta.
  case_decide; [intros Hin; right; by eapply IH|]. destruct op' as [k v|k].
  - case_decide; [intros Hin; right; by eapply IH|]. intros [->|Hin]%elem_of_cons; [left|right; by eapply IH].
  - intros [->|Hin]%elem_of_cons; [left|right; by eapply IH].
Qed.

Lemma pushed_in l op : op ∈ pushed_changes l -> exists my, my ∈ l /\ op ∈ changes_of (v_identities (ver_value my.2)).2.
Proof.
  unfold pushed_changes. intros Hin. apply list_elem_of_join in Hin as (ops & Hop & Hin).
  apply list_elem_of_fmap in Hin as (my & -> & Hin). rewrite elem_of_reverse in Hin. by exists my.
Qed.

Lemma idle_changes (m : SphereMutation) : sphere_mutation_is_empty m = true ->
  mutation_changes (content_mutation m) = [] /\ mutation_changes (identities_mutation m) = [] /\
  mutation_changes (delegations_mutation m) = [] /\ mutation_changes (revocations_mutation m) = [].
Proof.
  unfold sphere_mutation_is_empty. rewrite !andb_true_iff, !Nat.eqb_eq. intros [[[M1 M2] M3] M4].
  by repeat split; apply length_zero_iff_nil.
Qed.

(** The entries that the push adds to the gateway's sphere can be streamed. *)
Lemma push_added db n g x l m counterpart y : sphere_mutation_is_empty m = true ->
  added_at false n db (ver_value g) -> (exists memo : MemoIpld Cid, stored db (ver_cid (tip x l)) memo) ->
  Forall (fun my => log_values (identity_at n db) (v_identities (ver_value my.2)).2) l ->
  ver_value y = apply_value (push_mutation m counterpart x l g) (ver_value g) -> added_at false n db (ver_value y).
Proof.
  intros Hm (Hc & Hi & Hd) Htip Hids ->. destruct (idle_changes m Hm) as (M1 & M2 & M3 & M4).
  unfold added_at, apply_value, apply_part, push_mutation, with_names, with_content, no_changes. cbn -[mirrored]. rewrite M1, M2, M3. cbn -[mirrored].
  split; [|split; [|done]].
  - intros k c [= -> ->]%list_elem_of_singleton. exact Htip.
  - destruct (mirrored g l) as [|op ops] eqn:E; [done|]. cbn. intros k v Hin. rewrite <- E in Hin. apply mirror_in, pushed_in in Hin as (my & Hmy & Hin).
    rewrite Forall_forall in Hids. exact (Hids my Hmy k v Hin).
Qed.

Lemma push_mutation_in ctx g gdid n x l counterpart : serving ctx g gdid n -> P counterpart ->
  Forall (fun op => P (change_key op)) (pushed_changes l) ->
  let m := push_mutation (ctx_mutation ctx) counterpart x l g in
  mutation_in P Q m /\ mutation_by m gdid /\ author_did m = gdid.
Proof.
  intros [[_ _ (M1 & M2 & M3 & M4) Hby Hau _] _ _ _ _ _] Hp Hl m. split; [|done].
  split; [|split; [|done]]; cbn; apply Forall_app; (split; [done|]); [by constructor|].
  apply Forall_forall. intros op Hin%mirror_in. rewrite Forall_forall in Hl. auto.
Qed.

(** Saving the changes of a push. *)
Lemma update_gateway_sphere_spec rng ctx ctx1 g gdid n x l body counterpart db :
  serving ctx g gdid n -> P counterpart -> Forall (fun op => P (change_key op)) (pushed_changes l) ->
  ctx1 = edited ctx db (push_mutation (ctx_mutation ctx) counterpart x l g) -> store_le (ctx_db ctx) db ->
  get_version (Cid := Cid) db (ctx_identity ctx) = get_version (ctx_db ctx) (ctx_identity ctx) ->
  holds db (tip x l) -> Forall (fun my => log_values (identity_at n db) (v_identities (ver_value my.2)).2) l ->
  counterpart_tip body = Some (ver_cid g) -> 0 < history_fuel -> n < walk_fuel ->
  exists y ctx2 blocks, update_gateway_sphere (Key := Key) walk_fuel history_fuel rng ctx1 body = (Done (ver_cid y, (blocks, Ok tt)), ctx2) /\
    Forall sound_block blocks /\ store_le db (ctx_db ctx2) /\
    succeeds (eq gdid) (ctx_db ctx2) g (push_mutation (ctx_mutation ctx) counterpart x l g) y /\
    ready (Url := Url) clock P Q ctx2 y gdid /\ has_unsaved_changes ctx2 = false /\ ctx_identity ctx2 = ctx_identity ctx /\
    ctx_author ctx2 = ctx_author ctx /\ ctx_access ctx2 = Some ReadWrite /\
    (forall identity, identity <> ctx_identity ctx -> get_version (Cid := Cid) (ctx_db ctx2) identity = get_version db identity) /\
    added_at false n (ctx_db ctx2) (ver_value y) /\
    forall db', has_blocks db' blocks -> history_delivered false n db' [(push_mutation (ctx_mutation ctx) counterpart x l g, y)].
Proof.
  intros Hs Hp Hpl -> Hle Hver Htip Hids Hct Hhf Hwf. pose proof Hs as [[Hat Hval Hm Hby Hau Hsg] Hidle Hacc Hsp Hadd Ho].
  set (m := push_mutation (ctx_mutation ctx) counterpart x l g). set (ctx1 := edited ctx db m).
  destruct (push_mutation_in ctx g gdid n x l counterpart Hs Hp Hpl) as (Hmin & Hmby & Hmau). fold m in Hmin, Hmby, Hmau.
  assert (ready (Url := Url) clock P Q ctx1 g gdid) as Hr1.
  { destruct Hat as [Hv Hg]. split; cbn; [|done|done|done|done|exact (can_sign_mono _ _ _ _ _ _ Hle Hsg)].
    split; cbn; [congruence|exact (holds_mono _ _ _ Hle Hg)]. }
  assert (has_unsaved_changes ctx1 = true) as Hun.
  { unfold has_unsaved_changes. cbn [sphere_context context_has_context]. change (ctx_mutation ctx1) with m. unfold sphere_mutation_is_empty, m, push_mutation.
    cbn. rewrite length_app. cbn. replace (_ + 1 =? 0) with false by (symmetry; apply Nat.eqb_neq; lia). done. }
  destruct (default_save_spec clock P Q HP HQ rng ctx1 g gdid None Hr1 Ho Hun eq_refl) as (y & ctx2 & Es & Hle2 & Hy & Hr2 & Hun2 & Hid2 & Hau2 & Hac2).
  assert (added_at false n (ctx_db ctx2) (ver_value y)) as Hay.
  { eapply (push_added _ n g x l (ctx_mutation ctx) counterpart); [done|..|apply Hy].
    - destruct Hadd as (Ac & Ai & Ad). assert (store_le (ctx_db ctx) (ctx_db ctx2)) as Hle3 by (by transitivity db). split; [|split].
      + intros k c Hk. destruct (Ac k c Hk) as [memo Hmemo]. exists memo. by eapply stored_mono.
      + intros k i Hk. eapply identity_mono; [exact Hle3|by eapply Ai].
      + intros k d Hk. eapply delegation_chain_mono; [exact Hle3|by eapply Ad].
    - exists (ver_memo (tip x l)). eapply stored_mono; [exact Hle2|apply Htip].
    - eapply Forall_impl; [exact Hids|]. intros my Hmy k i Hk. eapply identity_mono; [exact Hle2|by eapply Hmy]. }
  assert (lineage (eq gdid) (ctx_db ctx2) g [(m, y)]) as Hlin.
  { constructor; [|exact Hy|constructor; apply Hy]. eapply holds_mono; [|apply Hat]. by transitivity db. }
  destruct walk_fuel as [|k] eqn:Ek; [lia|]. rewrite <- Ek in *.
  destruct (taps_history_stream false (eq gdid) n k (ctx_db ctx2) g [(m, y)] history_fuel ltac:(lia) Hlin ltac:(done)
    (lineage_fresh _ _ _ _ Hlin) ltac:(cbn; lia) (is_sphere_tip _ _ _ _ Hlin Hsp)) as (blocks & Eb & Hsound & Hdel); [by constructor|].
  exists y, ctx2, blocks. split.
  { unfold update_gateway_sphere, cursor_save. cbn [cursor_inner latest context_save plain context_has_mutable_context]. rewrite Es.
    cbn [try_with cursor_inner cursor_version latest lift attempt_with]. rewrite Hct. do 2 f_equal. f_equal. rewrite Ek. exact Eb. }
  split; [done|]. split; [done|]. split; [done|]. split; [done|]. split; [done|]. split; [done|]. split; [done|]. split; [done|].
  split; [|by split]. intros identity Hi. pose proof (default_save_versions (Url := Url) clock rng ctx1 None identity) as Hv.
  rewrite Es in Hv. apply Hv. exact Hi.
Qed.

(** *** The checks *)

(** What the gateway demands of a push. *)
Definition acceptable ctx (body : PushBody Cid) (gtip : Cid) (mine : option Cid) : Prop :=
  counterpart_tip body = Some gtip /\ local_base body = mine /\ (forall c, mine = Some c -> local_tip body <> c).

Lemma check_history_spec ctx body gtip mine : context_version ctx = Ok gtip ->
  get_version (ctx_db ctx) (push_sphere body) = Ok mine ->
  check_history ctx body =
    if decide (counterpart_tip body = Some gtip) then
      match mine, local_base body with
      | Some mine, Some theirs => if decide (theirs = mine) then if decide (local_tip body = mine) then Failed UpToDate else Done tt else Failed Conflict
      | Some _, None => Failed Conflict
      | None, Some _ => Failed MissingHistory
      | None, None => Done tt
      end
    else Failed Conflict.
Proof.
  intros Hv Hm. unfold check_history. cbn [sphere_context has_context plain context_has_mutable_context context_has_context].
  rewrite Hv. cbn [lift attempt_bind]. destruct (decide (counterpart_tip body = Some gtip)) as [E|E].
  - rewrite bool_decide_true by done. cbn [negb]. unfold context_db. cbn [sphere_context context_has_context]. rewrite Hm. cbn [lift attempt_bind].
    destruct mine as [mine|]; [|done]. destruct (local_base body) as [theirs|]; [|done].
    destruct (decide (theirs = mine)); [rewrite bool_decide_true by done|by rewrite bool_decide_false by done]. cbn [negb].
    destruct (decide (local_tip body = mine)); [by rewrite bool_decide_true|by rewrite bool_decide_false].
  - by rewrite bool_decide_false by congruence.
Qed.

Lemma check_history_done ctx body gtip mine : context_version ctx = Ok gtip ->
  get_version (ctx_db ctx) (push_sphere body) = Ok mine -> check_history ctx body = Done tt <-> acceptable ctx body gtip mine.
Proof.
  intros Hv Hm. rewrite (check_history_spec ctx body gtip mine Hv Hm). unfold acceptable.
  destruct (decide _) as [E|E]; [|split; [done|]; by intros [? _]].
  destruct mine as [mine|], (local_base body) as [theirs|]; try (split; [done|]; by intros (_ & ? & _)).
  destruct (decide (theirs = mine)) as [->|Hne]; [|split; [done|]; intros (_ & [= ->] & _); done].
  destruct (decide (local_tip body = mine)) as [Ht|Ht]; split; try done.
  - intros (_ & _ & Hn). by destruct (Hn mine).
  - intros _. split; [done|]. split; [done|]. by intros c [= <-].
Qed.

(** The request of a client, as the gateway reads it. *)
Lemma push_request_stream A n (s0 : SphereDb) x l body : sendable A n s0 x l ->
  local_tip body = ver_cid (tip x l) -> local_base body = Some (ver_cid x) ->
  exists first blocks, from_car_stream (make_push_request_stream walk_fuel history_fuel s0 body) = (first :: blocks, Ok tt) /\
    of_block first.2 = Ok body /\ Forall sound_block blocks /\ forall db, has_blocks db blocks -> history_delivered true n db l.
Proof.
  intros Hs Ht Hb. destruct (sendable_stream A n s0 x l Hs) as (blocks & E & Hsound & Hdel).
  destruct (block_total (Cid := Cid) body) as [b Eb]. exists (derive_cid DAG_CBOR b, b), blocks. split; [|split; [|done]].
  - unfold make_push_request_stream, block_serialize. rewrite Eb. cbn [outcome_bind]. rewrite Ht, Hb, E. done.
  - cbn. by apply (block_roundtrip (Cid := Cid)).
Qed.

(** *** The whole push *)
Lemma push_invoke_spec A rng scope ctx g gdid n (s0 : SphereDb) x l body :
  serving ctx g gdid n -> sendable A n s0 x l -> holds (ctx_db ctx) x ->
  P (scope_counterpart scope) -> scope_counterpart scope <> "" -> scope_counterpart scope <> ctx_identity ctx ->
  Forall (fun op => P (change_key op)) (pushed_changes l) ->
  check_history ctx body = Done tt -> local_tip body = ver_cid (tip x l) -> local_base body = Some (ver_cid x) ->
  counterpart_tip body = Some (ver_cid g) ->
  let m := push_mutation (ctx_mutation ctx) (scope_counterpart scope) x l g in
  exists y ctx' first blocks jobs,
    push_invoke (Url := Url) supported_keys fuel walk_fuel history_fuel clock rng scope ctx
      (from_car_stream (make_push_request_stream walk_fuel history_fuel s0 body)) =
      (Done (Ok ([ver_cid y], (first :: blocks, Ok tt)), jobs), ctx') /\
    of_block first.2 = Ok (Accepted (ver_cid y)) /\ Forall sound_block blocks /\
    (forall db', has_blocks db' blocks -> history_delivered false n db' [(m, y)]) /\
    store_le (ctx_db ctx) (ctx_db ctx') /\ lineage A (ctx_db ctx') x l /\ succeeds (eq gdid) (ctx_db ctx') g m y /\
    get_version (ctx_db ctx') (scope_counterpart scope) = Ok (Some (ver_cid (tip x l))) /\
    ready (Url := Url) clock P Q ctx' y gdid /\ has_unsaved_changes ctx' = false /\ added_at false n (ctx_db ctx') (ver_value y) /\
    ctx_identity ctx' = ctx_identity ctx /\ ctx_access ctx' = Some ReadWrite.
Proof.
  intros Hs Hsend Hx Hp Hne Hid Hpl Hchk Ht Hb Hct m. pose proof Hs as [Hr Hidle Hacc Hsp Hadd Ho].
  destruct (push_request_stream A n s0 x l body Hsend Ht Hb) as (first & blocks0 & Ef & Eo & Hsound0 & Hdel0).
  unfold push_invoke. rewrite Ef. unfold verify_history, try_next. destruct first as [c0 b0]. cbn [lift attempt_with snd] in *. rewrite Eo.
  cbn [lift attempt_with]. rewrite Hchk. cbn [attempt_with].
  destruct (incorporate_history_spec A n s0 ctx x l scope body blocks0 Hsend Hx Hacc Hne Hid Ht Hb Hsound0 Hdel0)
    as (db1 & E1 & Hle1 & Hl1 & Hids & Hv1 & Hver1).
  rewrite E1. cbn [attempt_with]. set (ctx1 := edited _ _ _).
  pose proof Hsend as [Hl Hsome Hlen _ _ _ _ _ Hdepth]. pose proof (lineage_fresh _ _ _ _ Hl) as Hfresh.
  assert (get_version (Cid := Cid) db1 (ctx_identity ctx) = get_version (ctx_db ctx) (ctx_identity ctx)) as Hvg by (apply Hver1; done).
  assert (at_version ctx1 g) as Hat1.
  { destruct (ready_at _ _ _ _ _ _ Hr) as [Hv Hg]. split; cbn; [by rewrite Hvg|exact (holds_mono _ _ _ Hle1 Hg)]. }
  rewrite (synchronize_names_spec A ctx1 g x l body Hat1 Hl1 Hfresh Hsome Hlen Ht Hb). cbn [attempt_with].
  destruct (update_gateway_sphere_spec rng ctx (named ctx1 (mirrored g l)) g gdid n x l body (scope_counterpart scope) db1 Hs Hp Hpl
    ltac:(done) Hle1 Hvg (lineage_tip _ _ _ _ Hl1) Hids Hct) as (y & ctx2 & blocks & E2 & Hsound & Hle2 & Hy & Hr2 & Hun & Hid2 & _ & Hac2 & Hver2 & Hay & Hdel);
    [destruct l; [done|cbn in Hlen; lia]|done|].
  unfold mirrored in E2. rewrite E2. cbn [attempt_with].
  destruct (block_total (Cid := Cid) (Accepted (ver_cid y))) as [b Eb]. unfold block_serialize. rewrite Eb. cbn [outcome_bind to_car_stream fst snd].
  exists y, ctx2, (derive_cid DAG_CBOR b, b), blocks. eexists. split; [done|]. split; [by apply (block_roundtrip (Cid := Cid))|].
  split; [done|]. split; [done|]. split; [by transitivity db1|]. split; [exact (lineage_mono _ _ _ _ _ Hle2 Hl1)|]. split; [done|].
  split; [by rewrite Hver2|]. split; [done|]. split; [done|]. split; [done|]. by split.
Qed.
End gateway_facts.

(** ** The petnames of a gateway *)
Section logs.
Context {K V : Type} `{Countable K} `{EqDecision V}.
Notation part := (gmap K V * ChangelogIpld (MapOperation K V))%type.
Implicit Types (p : part) (m : VersionedMapMutation K V).

(** The changelog of a map says what became of the keys it names. *)
Definition log_faithful p : Prop := forall k op, first_change (log_changes p.2) k = Some op -> p.1 !! k = change_value op.

Lemma apply_part_faithful m p : log_faithful p -> NoDup (change_key <$> mutation_changes m) -> log_faithful (apply_part m p).
Proof.
  intros Hp Hn k op. unfold apply_part. destruct (no_changes m); [apply Hp|]. cbn. intros E. by rewrite apply_ops_first, E.
Qed.

(** A key that the new changelog does not name keeps its value. *)
Lemma apply_part_kept m p k : NoDup (change_key <$> mutation_changes m) ->
  first_change (log_changes (apply_part m p).2) k = None -> (apply_part m p).1 !! k = p.1 !! k.
Proof. intros Hn. unfold apply_part. destruct (no_changes m); [done|]. cbn. intros E. by rewrite apply_ops_first, E. Qed.
Lemma keys_of_first (ops : list (MapOperation K V)) (name : K) : name ∈ keys_of ops <-> is_Some (first_change ops name).
Proof.
  unfold keys_of. rewrite elem_of_list_to_set. pose proof (first_change_None ops name) as Hn. destruct (first_change ops name) as [op|].
  - split; [by eexists|]. intros _. destruct (decide (name ∈ change_key <$> ops)) as [Hin|Hin]; [done|]. by apply Hn in Hin.
  - split; [intros Hin; by destruct (proj1 Hn eq_refl)|by intros [? ?]].
Qed.

End logs.

Section mirrored.
Context {Cid B KV : Type} `{UnicodeLaws}.
Context `{Countable Cid} `{HashAlgorithmLaws string} `{HashAlgorithmLaws Cid} `{KeyOrderLaws Cid}.
Context `{CidLaws Cid} `{!BlockStore B Cid} `{!BlockStoreLaws B Cid} `{StoreLaws KV} `{!BlockCodec (list Cid)}.
Context `{!SphereCodecs Cid} `{!SphereCodecsLaws Cid}.
Notation SphereDb := (SphereDb B KV).
Notation version := (SphereRebase.version (Cid := Cid)).
Notation SphereMutation := (SphereMutation Cid).
Implicit Types (db : SphereDb) (x y g : version) (l : list (SphereMutation * version)).

Notation ids x := (v_identities (ver_value x)).

(** No version of [l] changes a name twice. *)
Definition names_once l : Prop := Forall (fun my => NoDup (change_key <$> mutation_changes (identities_mutation my.1))) l.

Lemma pushed_changes_snoc l m y : pushed_changes (l ++ [(m, y)]) = log_changes (ids y).2 ++ pushed_changes l.
Proof. unfold pushed_changes. by rewrite reverse_snoc. Qed.

(** The last version has what the changes pushed last say, and otherwise what the
    first version has. *)
Lemma pushed_changes_spec A db x l : lineage A db x l -> names_once l -> log_faithful (ids x) ->
  log_faithful (ids (tip x l)) /\ forall name,
    match first_change (pushed_changes l) name with
    | Some op => (ids (tip x l)).1 !! name = change_value op
    | None => (ids (tip x l)).1 !! name = (ids x).1 !! name
    end.
Proof.
  intros Hl Hn Hx. induction l as [|[m y] l IH] using rev_ind; [done|].
  apply lineage_snoc in Hl as [Hl (_ & _ & Ev & _)]. unfold names_once in Hn. rewrite Forall_app, Forall_singleton in Hn. destruct Hn as [Hn Hm].
  destruct (IH Hl Hn) as [Hf Hnames]. rewrite tip_app. cbn [tip]. cbn in Hm.
  assert (ids y = apply_part (identities_mutation m) (ids (tip x l))) as Ey by by rewrite Ev. split; [rewrite Ey; by apply apply_part_faithful|].
  intros name. rewrite pushed_changes_snoc, first_change_app. specialize (Hnames name). rewrite Ey.
  destruct (first_change (log_changes (apply_part _ _).2) name) as [op|] eqn:E.
  - by apply (apply_part_faithful _ _ Hf Hm).
  - rewrite (apply_part_kept _ _ _ Hm E). exact Hnames.
Qed.

(** What the push leaves at the gateway. *)
Lemma push_mutation_names (m : SphereMutation) counterpart x l g y : sphere_mutation_is_empty m = true ->
  ver_value y = apply_value (push_mutation m counterpart x l g) (ver_value g) ->
  forall name, (ids y).1 !! name =
    match first_change (pushed_changes l) name with Some op => change_value op | None => (ids g).1 !! name end.
Proof.
  intros Hm -> name. cbn [apply_value v_identities]. rewrite apply_part_fst. destruct (idle_changes m Hm) as (_ & Hi & _).
  unfold push_mutation. cbn [with_names identities_mutation mutation_changes with_content]. rewrite Hi. cbn [app]. unfold mirrored.
  rewrite mirror_lookup by done. by rewrite decide_False by set_solver.
Qed.

Lemma push_links (m : SphereMutation) counterpart x l g y : sphere_mutation_is_empty m = true ->
  ver_value y = apply_value (push_mutation m counterpart x l g) (ver_value g) ->
  (v_content (ver_value y)).1 = <[counterpart := ver_cid (tip x l)]> (v_content (ver_value g)).1.
Proof.
  intros Hm ->. cbn [apply_value v_content]. rewrite apply_part_fst. destruct (idle_changes m Hm) as (Hc & _).
  unfold push_mutation. cbn [with_names content_mutation mutation_changes with_content]. by rewrite Hc.
Qed.
End mirrored.
