(* ===== verification/WorkerQueue.v ===== *)
(** * The worker queue of a gateway

    Model of [noosphere-gateway/src/jobs/worker_queue]: requests (worker.rs), workers
    and the orchestrator (orchestrator.rs), and the queue around them (queue.rs,
    builder.rs) as a system of steps: jobs are submitted, worker threads finish or
    die, time passes, and the orchestrator takes one message or one timeout check per
    turn, as its [select!] does.

    What a job does is left to its processor, so a thread may answer anything.  A
    thread that is aborted stops at once; what it has sent stays in the channel.

    What happens to jobs as the queue runs, and when the queue goes on running. *)
From stdpp Require Import base list numbers strings.
From Stdlib Require Import String.
From S2P Require Import Prelude.
#[local] Open Scope list_scope.
#[local] Notation length := List.length (only parsing).

Section worker_queue.
Context {Job : Type}.

(** What a processor returns: an error, or perhaps a job to be queued next. *)
Notation result := (string + option Job)%type.

(** ** Requests *)
Record JobRequest := mkRequest { request_job : Job; attempt : nat; start_time : option N }.

Definition request_new (job : Job) : JobRequest := mkRequest job 0 None.

Definition mark_attempt_start (now : N) (r : JobRequest) : JobRequest := mkRequest (request_job r) (S (attempt r)) (Some now).

Definition mark_attempt_failed (retries : nat) (r : JobRequest) : bool * JobRequest :=
  (attempt r <=? retries, mkRequest (request_job r) (attempt r) None).

(** ** Workers *)

(** [inbox] are the jobs sent to the thread that it has not answered, [alive] says
    whether the thread is there to receive them. *)
Record Worker := mkWorker { active_job : option JobRequest; inbox : list Job; alive : bool }.

Definition worker_spawn : Worker := mkWorker None [] true.

Definition idle (w : Worker) : bool := match active_job w with None => true | Some _ => false end.

Definition job_elapsed_time (now : N) (w : Worker) : option N :=
  match active_job w with
  | Some r =>
      match start_time r with
      | Some start => if (start <=? now)%N then Some (now - start)%N else None
      | None => None
      end
  | None => None
  end.

Definition worker_clear (w : Worker) : option JobRequest * Worker := (active_job w, mkWorker None (inbox w) (alive w)).

Definition process_job (now : N) (w : Worker) (r : JobRequest) : outcome unit * Worker :=
  if negb (idle w) then (Err "Worker is not idle, cannot process new jobs.", w)
  else
    let w := mkWorker (Some (mark_attempt_start now r)) (inbox w) (alive w) in
    if alive w then (Ok tt, mkWorker (active_job w) (inbox w ++ [request_job r]) true) else (Err "Error sending job.", w).

Definition terminate (w : Worker) : option JobRequest * Worker := (active_job w, mkWorker None [] false).

(** ** The orchestrator *)
Record Orchestrator := mkOrchestrator { workers : list Worker; retries : nat; timeout : N; job_queue : list JobRequest }.

Definition with_queue (o : Orchestrator) (q : list JobRequest) : Orchestrator := mkOrchestrator (workers o) (retries o) (timeout o) q.
Definition with_workers (o : Orchestrator) (ws : list Worker) : Orchestrator := mkOrchestrator ws (retries o) (timeout o) (job_queue o).

Definition orchestrator_new (worker_count retries : nat) (timeout : N) : outcome Orchestrator :=
  if worker_count =? 0 then Err "worker_count must be greater than 0."
  else Ok (mkOrchestrator (replicate worker_count worker_spawn) retries timeout []).

(** The loop of [process_queue]. *)
Fixpoint give_jobs (now : N) (ws : list Worker) (q : list JobRequest) : outcome unit * (list Worker * list JobRequest) :=
  match ws with
  | [] => (Ok tt, ([], q))
  | w :: ws' =>
      if idle w then
        match q with
        | [] => (Ok tt, (ws, q))
        | r :: q' =>
            let '(res, w) := process_job now w r in
            let? _ := res keeping (w :: ws', q') in
            let '(res, (ws', q')) := give_jobs now ws' q' in (res, (w :: ws', q'))
        end
      else let '(res, (ws', q')) := give_jobs now ws' q in (res, (w :: ws', q'))
  end.

Definition process_queue (now : N) (o : Orchestrator) : outcome unit * Orchestrator :=
  match job_queue o with
  | [] => (Ok tt, o)
  | q => let '(res, (ws, q)) := give_jobs now (workers o) q in (res, with_queue (with_workers o ws) q)
  end.

Definition process_failed_job (o : Orchestrator) (r : JobRequest) : Orchestrator :=
  let '(again, r) := mark_attempt_failed (retries o) r in
  if again then with_queue o (job_queue o ++ [r]) else o.

Definition process_result (o : Orchestrator) (worker_id : nat) (res : result) : outcome unit * Orchestrator :=
  let? worker := ok_or "Worker index out of bounds." (workers o !! worker_id) keeping o in
  let '(cleared, worker) := worker_clear worker in
  let o := with_workers o (<[worker_id := worker]> (workers o)) in
  let? job_request := ok_or "Worker result found for a worker without a job." cleared keeping o in
  match res with
  | inr (Some next_job) => (Ok tt, with_queue o (job_queue o ++ [request_new next_job]))
  | inl _ => (Ok tt, process_failed_job o job_request)
  | inr None => (Ok tt, o)
  end.

(** The workers whose jobs have run into the timeout. *)
Definition overdue (now : N) (o : Orchestrator) (index : nat) : bool :=
  match workers o !! index with
  | Some w => match job_elapsed_time now w with Some elapsed => (timeout o <=? elapsed)%N | None => false end
  | None => false
  end.

Definition timed_out (now : N) (o : Orchestrator) : list nat :=
  filter (fun index => overdue now o index = true) (seq 0 (length (workers o))).

Definition cycle_worker (o : Orchestrator) (index : nat) : option JobRequest * Orchestrator :=
  match workers o !! index with
  | Some old_worker => ((terminate old_worker).1, with_workers o (<[index := worker_spawn]> (workers o)))
  | None => (None, o)
  end.

Definition process_timed_out_job (o : Orchestrator) (index : nat) : Orchestrator :=
  let '(active, o) := cycle_worker o index in
  match active with Some r => process_failed_job o r | None => o end.

Definition process_timed_out_jobs (now : N) (o : Orchestrator) : Orchestrator :=
  foldl process_timed_out_job o (timed_out now o).

Definition get_timeout_check_duration (now : N) (o : Orchestrator) : N :=
  foldl (fun max_duration w => match job_elapsed_time now w with Some elapsed => N.min max_duration elapsed | None => max_duration end)
    (timeout o) (workers o).
End worker_queue.
Arguments JobRequest : clear implicits.
Arguments Worker : clear implicits.
Arguments Orchestrator : clear implicits.

Section queues.
Context {Job : Type}.
Notation result := (string + option Job)%type.

(** ** The queue *)

(** The channels of requests and responses, the time and when the timeouts are to be
    checked next; [status] is how the loop of the orchestrator ended, if it has. *)
Record WorkerQueue := mkQueue {
  orchestrator : Orchestrator Job;
  requests : list Job;
  responses : list (nat * result);
  now : N;
  check_at : N;
  status : outcome unit;
}.

Definition queue_spawn (worker_count : nat) (retries : option nat) (timeout : option N) : outcome WorkerQueue :=
  let? o := orchestrator_new worker_count (default 0 retries) (default 300%N timeout) in
  Ok (mkQueue o [] [] 0 (get_timeout_check_duration 0 o) (Ok tt)).

(** (builder.rs) *)
Record WorkerQueueBuilder (Context : Type) := mkBuilder {
  builder_worker_count : nat;
  builder_retries : option nat;
  builder_timeout : option N;
  builder_context : option Context;
}.

Definition queue_build {Context} (b : WorkerQueueBuilder Context) : outcome WorkerQueue :=
  if builder_worker_count Context b <? 1 then Err "worker_count must be greater than 0."
  else
    match builder_context Context b with
    | None => Err "context must be provided."
    | Some _ => queue_spawn (builder_worker_count Context b) (builder_retries Context b) (builder_timeout Context b)
    end.

(** The end of a turn of the loop in [start]: the branch taken left [o]. *)
Definition end_turn (q : WorkerQueue) (requests : list Job) (responses : list (nat * result)) (branch : outcome unit * Orchestrator Job) : WorkerQueue :=
  let '(r, o) := (let '(r, o) := branch in let? _ := r keeping o in process_queue (now q) o) in
  mkQueue o requests responses (now q) (now q + get_timeout_check_duration (now q) o) r.

Inductive event :=
  | Submit (job : Job)              (* [WorkerQueue::submit] *)
  | Elapse (time : N)
  | Answer (worker_id : nat) (res : result) (* a thread has processed its job *)
  | Crash (worker_id : nat)         (* a processor panics, which ends its thread *)
  | Receive                         (* a turn of the orchestrator, for a request, *)
  | Respond                         (* for a response, *)
  | CheckTimeouts.                  (* or for the timeout check *)

Definition with_worker (q : WorkerQueue) (worker_id : nat) (w : Worker Job) (responses : list (nat * result)) : WorkerQueue :=
  mkQueue (with_workers (orchestrator q) (<[worker_id := w]> (workers (orchestrator q)))) (requests q) responses (now q) (check_at q) (status q).

(** The next state, if the event can happen.  Nothing happens any more once the loop
    has ended: the threads and the receiver of the requests are gone. *)
Definition step (q : WorkerQueue) (e : event) : option WorkerQueue :=
  match status q with
  | Ok _ =>
      match e with
      | Submit job => Some (mkQueue (orchestrator q) (requests q ++ [job]) (responses q) (now q) (check_at q) (Ok tt))
      | Elapse time => Some (mkQueue (orchestrator q) (requests q) (responses q) (now q + time) (check_at q) (Ok tt))
      | Answer worker_id res =>
          w ← workers (orchestrator q) !! worker_id;
          match inbox w with
          | _ :: rest => Some (with_worker q worker_id (mkWorker (active_job w) rest (alive w)) (responses q ++ [(worker_id, res)]))
          | [] => None
          end
      | Crash worker_id =>
          w ← workers (orchestrator q) !! worker_id;
          match inbox w with
          | _ :: _ => Some (with_worker q worker_id (mkWorker (active_job w) [] false) (responses q))
          | [] => None
          end
      | Receive =>
          match requests q with
          | job :: rest =>
              let o := orchestrator q in
              Some (end_turn q rest (responses q) (Ok tt, with_queue o (job_queue o ++ [request_new job])))
          | [] => None
          end
      | Respond =>
          match responses q with
          | (worker_id, res) :: rest => Some (end_turn q (requests q) rest (process_result (orchestrator q) worker_id res))
          | [] => None
          end
      | CheckTimeouts =>
          if (check_at q <=? now q)%N
          then Some (end_turn q (requests q) (responses q) (Ok tt, process_timed_out_jobs (now q) (orchestrator q)))
          else None
      end
  | _ => None
  end.

Definition run (q : WorkerQueue) (es : list event) : option WorkerQueue := foldl (fun q e => q ← q; step q e) (Some q) es.

(** ** What becomes of the jobs *)

(** The jobs that an event brings in: submitted, or asked for by another job. *)
Definition brought (q : WorkerQueue) (e : event) : list Job :=
  match e with
  | Submit job => [job]
  | Respond => match responses q with (_, inr (Some next_job)) :: _ => [next_job] | _ => [] end
  | _ => []
  end.

(** The last attempt of a job is over. *)
Definition given_up (o : Orchestrator Job) (r : JobRequest Job) : list (Job * (bool * nat)) :=
  if (mark_attempt_failed (retries o) r).1 then [] else [(request_job r, (false, attempt r))].

(** The request of a worker. *)
Definition request_at (o : Orchestrator Job) (index : nat) : option (JobRequest Job) := w ← workers o !! index; active_job w.

(** The jobs that an event settles, done or given up, and after how many attempts. *)
Definition settled (q : WorkerQueue) (e : event) : list (Job * (bool * nat)) :=
  let o := orchestrator q in
  match e with
  | Respond =>
      match responses q with
      | (worker_id, res) :: _ =>
          match request_at o worker_id with
          | Some r => match res with inr _ => [(request_job r, (true, attempt r))] | inl _ => given_up o r end
          | None => []
          end
      | [] => []
      end
  | CheckTimeouts =>
      mjoin ((fun index => from_option (given_up o) [] (request_at o index)) <$> timed_out (now q) o)
  | _ => []
  end.

(** The jobs that are waiting, and those at work. *)
Definition waiting (q : WorkerQueue) : list Job := requests q ++ (request_job <$> job_queue (orchestrator q)).
Definition at_work (q : WorkerQueue) : list Job := request_job <$> omap active_job (workers (orchestrator q)).

(** All that a run of events brings and settles. *)
Fixpoint history (q : WorkerQueue) (es : list event) : list Job * list (Job * (bool * nat)) :=
  match es with
  | [] => ([], [])
  | e :: es =>
      match step q e with
      | Some q' => let '(b, s) := history q' es in (brought q e ++ b, settled q e ++ s)
      | None => ([], [])
      end
  end.
End queues.
Arguments WorkerQueue : clear implicits.
Arguments event : clear implicits.

(** ** Facts about the worker queue *)
Section facts.
Context {Job : Type}.
Notation result := (string + option Job)%type.
Implicit Types (w : Worker Job) (ws : list (Worker Job)) (r : JobRequest Job) (o : Orchestrator Job) (q : WorkerQueue Job) (js : list (JobRequest Job)).

(** ** The jobs of workers and requests *)
Definition job_of w : list Job := request_job <$> option_list (active_job w).
Definition jobs_at ws : list Job := request_job <$> omap active_job ws.
Definition jobs_in o : list Job := (request_job <$> job_queue o) ++ jobs_at (workers o).

Lemma jobs_at_cons w ws : jobs_at (w :: ws) = job_of w ++ jobs_at ws.
Proof. unfold jobs_at, job_of. cbn. by destruct (active_job w). Qed.

Lemma jobs_at_insert ws i w w' : ws !! i = Some w -> jobs_at (<[i := w']> ws) ++ job_of w ≡ₚ jobs_at ws ++ job_of w'.
Proof.
  revert i. induction ws as [|v ws IH]; intros [|i] Hi; [done..| |].
  - injection Hi as ->. change (<[0 := w']> (w :: ws)) with (w' :: ws). rewrite !jobs_at_cons. solve_Permutation.
  - change (<[S i := w']> (v :: ws)) with (v :: <[i := w']> ws). rewrite !jobs_at_cons, <- !app_assoc, (IH i Hi). done.
Qed.

Lemma give_jobs_perm now ws js : let '(_, (ws', js')) := give_jobs now ws js in
  (request_job <$> js') ++ jobs_at ws' ≡ₚ (request_job <$> js) ++ jobs_at ws.
Proof.
  revert js. induction ws as [|w ws IH]; intros js; cbn [give_jobs]; [done|]. destruct (idle w) eqn:Ei.
  - destruct js as [|r js]; [done|]. unfold process_job. rewrite Ei. cbn [negb].
    assert (job_of w = []) as Ew by (unfold idle, job_of in *; by destruct (active_job w)). destruct w as [act ib al]. cbn [alive inbox active_job].
    destruct al; cbn [try_with].
    + specialize (IH js). destruct (give_jobs now ws js) as [res [ws' js']]. rewrite !jobs_at_cons, Ew. cbn. rewrite <- IH. solve_Permutation.
    + rewrite !jobs_at_cons, Ew. cbn. solve_Permutation.
  - specialize (IH js). destruct (give_jobs now ws js) as [res [ws' js']]. rewrite !jobs_at_cons.
    rewrite Permutation_app_comm, <- app_assoc, (Permutation_app_comm _ (request_job <$> js')), IH. solve_Permutation.
Qed.

Lemma process_queue_perm now o : jobs_in (process_queue now o).2 ≡ₚ jobs_in o.
Proof.
  unfold process_queue. destruct (job_queue o) as [|r js] eqn:E; [done|]. pose proof (give_jobs_perm now (workers o) (r :: js)) as Hp.
  destruct (give_jobs now (workers o) (r :: js)) as [res [ws' js']]. unfold jobs_in. cbn [snd with_queue with_workers job_queue workers]. by rewrite Hp, E.
Qed.

Lemma process_failed_perm o r : jobs_in (process_failed_job o r) ++ (given_up o r).*1 ≡ₚ request_job r :: jobs_in o.
Proof.
  unfold process_failed_job, given_up, mark_attempt_failed, jobs_in. cbn [fst]. destruct (attempt r <=? retries o); cbn.
  - rewrite fmap_app. cbn. solve_Permutation.
  - solve_Permutation.
Qed.

Lemma request_at_job o i w : workers o !! i = Some w -> from_option (fun r => [request_job r]) [] (request_at o i) = job_of w.
Proof. intros Hi. unfold request_at, job_of. rewrite Hi. cbn. by destruct (active_job w). Qed.

Lemma process_result_perm o i res : (process_result o i res).1 = Ok tt -> exists r, request_at o i = Some r /\
  jobs_in (process_result o i res).2 ++ match res with inr _ => [request_job r] | inl _ => (given_up o r).*1 end ≡ₚ
    match res with inr (Some next_job) => [next_job] | _ => [] end ++ jobs_in o.
Proof.
  unfold process_result, request_at. destruct (workers o !! i) as [w|] eqn:Ei; cbn [ok_or try_with]; [|done]. unfold worker_clear.
  set (w' := mkWorker None (inbox w) (alive w)). pose proof (jobs_at_insert _ i w w' Ei) as Hp. change (job_of w') with (@nil Job) in Hp. rewrite app_nil_r in Hp.
  unfold job_of in Hp. cbn [mbind option_bind]. destruct (active_job w) as [r|]; cbn [ok_or try_with]; [|done]. cbn [option_list fmap list_fmap] in Hp. intros E. exists r. split; [done|].
  set (o' := with_workers o (<[i := w']> (workers o))).
  assert (request_job r :: jobs_in o' ≡ₚ jobs_in o) as Ho.
  { unfold jobs_in, o'. cbn [with_workers job_queue workers]. rewrite <- Hp. solve_Permutation. }
  destruct res as [e|[next_job|]]; cbn [snd].
  - change (given_up o r) with (given_up o' r). by rewrite process_failed_perm.
  - unfold jobs_in. cbn [with_queue job_queue workers]. rewrite fmap_app. cbn. rewrite <- Ho. unfold jobs_in. solve_Permutation.
  - cbn. rewrite <- Ho. solve_Permutation.
Qed.

(** ** Timeouts *)
Lemma timed_out_one o i :
  jobs_in (process_timed_out_job o i) ++ (from_option (given_up o) [] (request_at o i)).*1 ≡ₚ jobs_in o /\
  retries (process_timed_out_job o i) = retries o /\
  forall j, j <> i -> request_at (process_timed_out_job o i) j = request_at o j.
Proof.
  unfold process_timed_out_job, cycle_worker, request_at. destruct (workers o !! i) as [w|] eqn:Ei; cbn [mbind option_bind]; [|by rewrite app_nil_r].
  pose proof (jobs_at_insert _ i w worker_spawn Ei) as Hp. change (job_of worker_spawn) with (@nil Job) in Hp. rewrite app_nil_r in Hp.
  unfold job_of in Hp. cbn [terminate fst]. set (o' := with_workers o (<[i := worker_spawn]> (workers o))).
  assert (forall o2, workers o2 = workers o' -> forall j, j <> i -> request_at o2 j = request_at o j) as Hother.
  { intros o2 E j Hj. unfold request_at. rewrite E. cbn. by rewrite list_lookup_insert_ne. }
  destruct (active_job w) as [r|]; cbn [option_list fmap list_fmap from_option] in *.
  - split; [|split].
    + change (given_up o r) with (given_up o' r). rewrite process_failed_perm. unfold jobs_in, o'. cbn [with_workers job_queue workers].
      rewrite <- Hp. solve_Permutation.
    + unfold process_failed_job, mark_attempt_failed. by destruct (_ <=? _).
    + apply Hother. unfold process_failed_job, mark_attempt_failed. by destruct (_ <=? _).
  - split; [|split; [done|by apply Hother]]. rewrite app_nil_r in *. unfold jobs_in, o'. cbn [with_workers job_queue workers]. by rewrite Hp.
Qed.

Lemma timed_out_all l o : NoDup l ->
  jobs_in (foldl process_timed_out_job o l) ++ (mjoin ((fun i => from_option (given_up o) [] (request_at o i)) <$> l)).*1 ≡ₚ jobs_in o.
Proof.
  revert o. induction l as [|i l IH]; intros o Hn; cbn [foldl]; [cbn; by rewrite app_nil_r|].
  apply NoDup_cons in Hn as [Hi Hn]. destruct (timed_out_one o i) as (Hp & Hr & Ho). rewrite <- Hp, <- (IH (process_timed_out_job o i) Hn).
  assert (mjoin ((fun j => from_option (given_up (process_timed_out_job o i)) [] (request_at (process_timed_out_job o i) j)) <$> l) =
    mjoin ((fun j => from_option (given_up o) [] (request_at o j)) <$> l)) as ->.
  { f_equal. apply list_fmap_ext. intros k j Hk. rewrite Ho by (intros ->; apply Hi; by eapply list_elem_of_lookup_2).
    destruct (request_at o j); [|done]. cbn. unfold given_up. by rewrite Hr. }
  cbn [fmap list_fmap mjoin list_join]. rewrite fmap_app. solve_Permutation.
Qed.

Lemma timed_out_NoDup now o : NoDup (timed_out now o).
Proof. apply NoDup_filter, NoDup_seq. Qed.

(** ** Steps *)
Definition held q : list Job := waiting q ++ at_work q.

Lemma held_jobs q : held q ≡ₚ requests q ++ jobs_in (orchestrator q).
Proof. unfold held, waiting, at_work, jobs_in, jobs_at. by rewrite <- app_assoc. Qed.

Lemma end_turn_held q rs resps o res : held (end_turn q rs resps (res, o)) ≡ₚ rs ++ jobs_in o.
Proof.
  rewrite held_jobs. unfold end_turn. destruct res; cbn [try_with]; [|done..].
  pose proof (process_queue_perm (now q) o) as Hp. destruct (process_queue (now q) o) as [r' o']. cbn in *. by rewrite Hp.
Qed.

Lemma end_turn_status q rs resps o res : status (end_turn q rs resps (res, o)) = Ok tt -> res = Ok tt.
Proof. unfold end_turn. destruct res as [[]| | |]; cbn [try_with]; done. Qed.

(** Every job is kept until it is settled. *)
Lemma step_held q e q' : step q e = Some q' -> status q' = Ok tt -> held q' ++ (settled q e).*1 ≡ₚ brought q e ++ held q.
Proof.
  unfold step. destruct (status q) as [[]| | |] eqn:Eq; [|done..]. destruct e as [job|time|i res|i| | |]; cbn [settled brought fmap list_fmap].
  - intros [= <-] _. rewrite !held_jobs, app_nil_r. cbn. solve_Permutation.
  - intros [= <-] _. by rewrite app_nil_r.
  - destruct (workers _ !! i) as [w|] eqn:Ei; cbn; [|done]. destruct (inbox w) as [|j rest]; [done|]. intros [= <-] _.
    rewrite !held_jobs, app_nil_r. unfold jobs_in. cbn. pose proof (jobs_at_insert _ i w (mkWorker (active_job w) rest (alive w)) Ei) as Hp.
    change (job_of (mkWorker (active_job w) rest (alive w))) with (job_of w) in Hp. apply Permutation_app_inv_r in Hp. by rewrite Hp.
  - destruct (workers _ !! i) as [w|] eqn:Ei; cbn; [|done]. destruct (inbox w) as [|j rest]; [done|]. intros [= <-] _.
    rewrite !held_jobs, app_nil_r. unfold jobs_in. cbn. pose proof (jobs_at_insert _ i w (mkWorker (active_job w) [] false) Ei) as Hp.
    change (job_of (mkWorker (active_job w) [] false)) with (job_of w) in Hp. apply Permutation_app_inv_r in Hp. by rewrite Hp.
  - destruct (requests q) as [|job rest] eqn:Er; [done|]. intros [= <-] _. rewrite app_nil_r, end_turn_held, held_jobs, Er.
    unfold jobs_in. cbn. rewrite fmap_app. cbn. solve_Permutation.
  - destruct (responses q) as [|[i res] rest] eqn:Er; [done|]. intros [= <-] Hs.
    destruct (process_result (orchestrator q) i res) as [r o] eqn:Ep. apply end_turn_status in Hs. subst r.
    destruct (process_result_perm (orchestrator q) i res) as (r & Hr & Hp); [by rewrite Ep|]. rewrite Ep in Hp. cbn in Hp.
    rewrite end_turn_held, held_jobs, Hr. destruct res as [e|[next_job|]]; cbn in *; rewrite <- app_assoc, Hp; solve_Permutation.
  - destruct (check_at q <=? now q)%N; [|done]. intros [= <-] _. rewrite end_turn_held, held_jobs, <- app_assoc.
    unfold process_timed_out_jobs. by rewrite timed_out_all by apply timed_out_NoDup.
Qed.

(** ** Attempts *)
Definition attempted o w : Prop := forall r, active_job w = Some r -> 1 <= attempt r <= S (retries o).
Definition attempts_ok o : Prop := Forall (fun r => attempt r <= retries o) (job_queue o) /\ Forall (attempted o) (workers o).

Lemma give_jobs_attempts now o ws js : Forall (fun r => attempt r <= retries o) js -> Forall (attempted o) ws ->
  let '(_, (ws', js')) := give_jobs now ws js in Forall (fun r => attempt r <= retries o) js' /\ Forall (attempted o) ws'.
Proof.
  revert js. induction ws as [|w ws IH]; intros js Hj Hw; cbn [give_jobs]; [done|]. apply Forall_cons_1 in Hw as [Hw Hws]. destruct (idle w) eqn:Ei.
  - destruct js as [|r js]; [by split; [|constructor]|]. apply Forall_cons_1 in Hj as [Hr Hj]. unfold process_job. rewrite Ei. cbn [negb].
    destruct w as [act ib al]. cbn [alive inbox active_job].
    assert (forall ib' al', attempted o (mkWorker (Some (mark_attempt_start now r)) ib' al')) as Hnew by (intros ? ? r' [= <-]; cbn; lia).
    destruct al; cbn [try_with]; [|by split; [|constructor]]. specialize (IH js Hj Hws). destruct (give_jobs now ws js) as [res [ws' js']].
    destruct IH. by split; [|constructor].
  - specialize (IH js Hj Hws). destruct (give_jobs now ws js) as [res [ws' js']]. destruct IH. by split; [|constructor].
Qed.

Lemma process_queue_attempts now o : attempts_ok o -> attempts_ok (process_queue now o).2 /\ retries (process_queue now o).2 = retries o.
Proof.
  intros [Hj Hw]. unfold process_queue. destruct (job_queue o) as [|r js] eqn:E; [split; [split; cbn; [by rewrite E|done]|done]|].
  pose proof (give_jobs_attempts now o (workers o) (r :: js) Hj Hw) as Hg. destruct (give_jobs now (workers o) (r :: js)) as [res [ws' js']]. done.
Qed.

Lemma process_failed_attempts o r : attempts_ok o -> attempts_ok (process_failed_job o r) /\ retries (process_failed_job o r) = retries o.
Proof.
  intros [Hj Hw]. unfold process_failed_job, mark_attempt_failed. destruct (attempt r <=? retries o) eqn:E; [|done]. apply Nat.leb_le in E.
  split; [split; cbn|done]; [|done]. apply Forall_app. split; [done|]. by constructor.
Qed.

(** What is settled was attempted at least once, and given up after all attempts. *)
Definition settled_ok (retries : nat) (s : Job * (bool * nat)) : Prop := 1 <= s.2.2 <= S retries /\ (s.2.1 = false -> s.2.2 = S retries).

Lemma given_up_ok o r : 1 <= attempt r <= S (retries o) -> Forall (settled_ok (retries o)) (given_up o r).
Proof.
  intros Hr. unfold given_up, mark_attempt_failed. cbn [fst]. destruct (attempt r <=? retries o) eqn:E; [constructor|].
  apply Nat.leb_gt in E. constructor; [|constructor]. split; cbn; lia.
Qed.

Lemma request_at_attempted o i r : attempts_ok o -> request_at o i = Some r -> 1 <= attempt r <= S (retries o).
Proof.
  intros [_ Hw]. unfold request_at. destruct (workers o !! i) as [w|] eqn:E; cbn; [|done]. rewrite Forall_forall in Hw.
  by apply (Hw w (list_elem_of_lookup_2 _ _ _ E)).
Qed.

Lemma replaced_attempts o i w : attempts_ok o -> active_job w = None -> attempts_ok (with_workers o (<[i := w]> (workers o))).
Proof. intros [Hj Hw] E. split; cbn; [done|]. apply Forall_insert; [done|]. intros r. by rewrite E. Qed.

Lemma timed_out_attempts o i : attempts_ok o -> attempts_ok (process_timed_out_job o i) /\ retries (process_timed_out_job o i) = retries o.
Proof.
  intros Ho. unfold process_timed_out_job, cycle_worker. destruct (workers o !! i) as [w|]; [|done]. cbn [terminate fst].
  pose proof (replaced_attempts o i worker_spawn Ho eq_refl) as Hr. destruct (active_job w) as [r|]; [|done].
  exact (process_failed_attempts _ r Hr).
Qed.

Lemma timeouts_attempts l o : attempts_ok o -> attempts_ok (foldl process_timed_out_job o l) /\ retries (foldl process_timed_out_job o l) = retries o.
Proof.
  revert o. induction l as [|i l IH]; intros o Ho; cbn [foldl]; [done|]. destruct (timed_out_attempts o i Ho) as [H1 H2].
  rewrite <- H2. by apply IH.
Qed.

Lemma process_result_attempts o i res : attempts_ok o -> attempts_ok (process_result o i res).2 /\ retries (process_result o i res).2 = retries o.
Proof.
  intros Ho. unfold process_result. destruct (workers o !! i) as [w|]; cbn [ok_or try_with]; [|done]. unfold worker_clear.
  pose proof (replaced_attempts o i (mkWorker None (inbox w) (alive w)) Ho eq_refl) as [Hj Hw].
  destruct (active_job w) as [r|]; cbn [ok_or try_with]; [|done]. destruct res as [e|[next_job|]]; cbn [snd]; [|..].
  - exact (process_failed_attempts _ r (conj Hj Hw)).
  - split; [split; cbn; [|done]|done]. apply Forall_app. split; [done|]. constructor; [cbn; lia|constructor].
  - done.
Qed.

Lemma end_turn_attempts q rs resps branch : attempts_ok branch.2 ->
  attempts_ok (orchestrator (end_turn q rs resps branch)) /\ retries (orchestrator (end_turn q rs resps branch)) = retries branch.2.
Proof.
  destruct branch as [res o]. intros Ho. unfold end_turn. destruct res; cbn [try_with]; [|done..].
  destruct (process_queue_attempts (now q) o Ho) as [H1 H2]. by destruct (process_queue (now q) o).
Qed.

Lemma step_attempts q e q' : attempts_ok (orchestrator q) -> step q e = Some q' ->
  attempts_ok (orchestrator q') /\ retries (orchestrator q') = retries (orchestrator q) /\
  Forall (settled_ok (retries (orchestrator q))) (settled q e).
Proof.
  intros Ho. unfold step. destruct (status q) as [[]| | |]; [|done..]. set (o := orchestrator q) in *.
  assert (forall i w w', workers o !! i = Some w -> active_job w' = active_job w -> attempts_ok (with_workers o (<[i := w']> (workers o)))) as Hsame.
  { intros i w w' Hi E. destruct Ho as [Hj Hw]. split; [done|]. cbn. apply Forall_insert; [done|]. intros r Hr. rewrite E in Hr.
    rewrite Forall_forall in Hw. exact (Hw w (list_elem_of_lookup_2 _ _ _ Hi) r Hr). }
  destruct e as [job|time|i res|i| | |]; cbn [settled].
  - intros [= <-]. done.
  - intros [= <-]. done.
  - fold o. destruct (workers o !! i) as [w|] eqn:Ei; cbn; [|done]. destruct (inbox w) as [|j rest]; [done|]. intros [= <-].
    split; [|done]. by apply (Hsame i w).
  - fold o. destruct (workers o !! i) as [w|] eqn:Ei; cbn; [|done]. destruct (inbox w) as [|j rest]; [done|]. intros [= <-].
    split; [|done]. by apply (Hsame i w).
  - destruct (requests q) as [|job rest]; [done|]. intros [= <-].
    destruct (end_turn_attempts q rest (responses q) (Ok tt, with_queue o (job_queue o ++ [request_new job]))) as [H1 H2]; [|by rewrite H2].
    destruct Ho as [Hj Hw]. split; cbn; [|done]. apply Forall_app. split; [done|]. constructor; [cbn; lia|constructor].
  - destruct (responses q) as [|[i res] rest]; [done|]. intros [= <-]. destruct (process_result_attempts o i res Ho) as [H1 H2].
    destruct (end_turn_attempts q (requests q) rest (process_result o i res) H1) as [H3 H4]. rewrite H4, H2. split; [done|]. split; [done|].
    fold o. destruct (request_at o i) as [r|] eqn:Er; [|constructor]. pose proof (request_at_attempted o i r Ho Er) as Hr.
    destruct res; [by apply given_up_ok|]. constructor; [|constructor]. by split.
  - destruct (check_at q <=? now q)%N; [|done]. intros [= <-]. destruct (timeouts_attempts (timed_out (now q) o) o Ho) as [H1 H2].
    destruct (end_turn_attempts q (requests q) (responses q) (Ok tt, process_timed_out_jobs (now q) o) H1) as [H3 H4]. rewrite H4.
    split; [done|]. split; [exact H2|]. fold o. apply Forall_forall. intros s (l & Hs & Hl)%list_elem_of_join.
    apply list_elem_of_fmap in Hl as (i & -> & _). destruct (request_at o i) as [r|] eqn:Er; cbn in Hs; [|by apply elem_of_nil in Hs].
    pose proof (given_up_ok o r (request_at_attempted o i r Ho Er)) as Hg. rewrite Forall_forall in Hg. by apply Hg.
Qed.

(** ** A queue that goes on *)

(** The responses of a worker that are on their way. *)
Definition from_worker (resps : list (nat * result)) (i : nat) : list (nat * result) := filter (fun p => p.1 = i) resps.

(** The thread of a worker is at the job that the orchestrator thinks it is at, or
    has answered, or has died over it; without a job it is ready for one. *)
Definition served (resps : list (nat * result)) (i : nat) w : Prop :=
  match active_job w with
  | None => alive w = true /\ inbox w = [] /\ from_worker resps i = []
  | Some r =>
      (alive w = true /\ inbox w = [request_job r] /\ from_worker resps i = []) \/
      (inbox w = [] /\ length (from_worker resps i) = (if alive w then 1 else 0))
  end.

Definition all_served ws resps : Prop := (forall i w, ws !! i = Some w -> served resps i w) /\ Forall (fun p => p.1 < length ws) resps.

(** No job waits while a worker is idle. *)
Definition all_busy o : Prop := job_queue o = [] \/ Forall (fun w => idle w = false) (workers o).

Definition going q : Prop := status q = Ok tt /\ all_served (workers (orchestrator q)) (responses q) /\ all_busy (orchestrator q).

(** What [process_queue] makes of a worker. *)
Definition given w w' : Prop :=
  w' = w \/ idle w = true /\ exists r, active_job w' = Some r /\ inbox w' = [request_job r] /\ alive w' = true.

Lemma give_jobs_ready now ws js : Forall (fun w => idle w = true -> alive w = true /\ inbox w = []) ws ->
  exists ws' js', give_jobs now ws js = (Ok tt, (ws', js')) /\ Forall2 given ws ws' /\ (js' = [] \/ Forall (fun w => idle w = false) ws').
Proof.
  intros Hws. revert js. induction Hws as [|w ws Hw Hws IH]; intros js; cbn [give_jobs]; [exists [], js; by split_and!; [|constructor|right]|].
  destruct (idle w) eqn:Ei.
  - destruct js as [|r js].
    + exists (w :: ws), []. split_and!; [done| |by left]. apply Forall2_same_length_lookup_2; [done|]. intros i a b Ha Hb. left. congruence.
    + unfold process_job. rewrite Ei. cbn [negb]. destruct (Hw eq_refl) as [Ha Hi]. destruct w as [act ib al]. cbn in Ha, Hi. subst. cbn [alive inbox active_job try_with app].
      destruct (IH js) as (ws' & js' & -> & H2 & Hb). eexists _, js'. split; [done|]. split; [|destruct Hb; [by left|right; by constructor]].
      constructor; [|done]. right. split; [done|]. by eexists.
  - destruct (IH js) as (ws' & js' & -> & H2 & Hb). exists (w :: ws'), js'. split; [done|]. split; [by constructor; [left|]|].
    destruct Hb; [by left|right; by constructor].
Qed.

Lemma served_idle resps i w : served resps i w -> idle w = true -> alive w = true /\ inbox w = [] /\ from_worker resps i = [].
Proof. unfold served, idle. by destruct (active_job w). Qed.

Lemma process_queue_going now o resps : all_served (workers o) resps ->
  exists o', process_queue now o = (Ok tt, o') /\ all_served (workers o') resps /\ all_busy o'.
Proof.
  intros [Hs Hl]. unfold process_queue. destruct (job_queue o) as [|r js] eqn:E; [exists o; split; [done|]; split; [by split|by left]|].
  destruct (give_jobs_ready now (workers o) (r :: js)) as (ws' & js' & -> & H2 & Hb).
  { apply Forall_forall. intros w (i & Hi)%list_elem_of_lookup_1 Hidle. by destruct (served_idle _ _ _ (Hs i w Hi) Hidle) as (? & ? & _). }
  eexists. split; [done|]. cbn. split; [|done]. split; [|by rewrite <- (Forall2_length _ _ _ H2)].
  intros i w' Hi. destruct (Forall2_lookup_r _ _ _ _ _ H2 Hi) as (w & Hw & [->|(Hidle & r' & Er & Eb & Ea)]); [by apply Hs|].
  destruct (served_idle _ _ _ (Hs i w Hw) Hidle) as (_ & _ & Hn). unfold served. rewrite Er. left. done.
Qed.

Lemma end_turn_going q rs resps o : all_served (workers o) resps -> going (end_turn q rs resps (Ok tt, o)).
Proof.
  intros Hs. unfold end_turn. cbn [try_with]. destruct (process_queue_going (now q) o resps Hs) as (o' & -> & H1 & H2). done.
Qed.

Lemma all_served_insert ws resps resps' i w w' : ws !! i = Some w -> all_served ws resps ->
  Forall (fun p => p.1 < length ws) resps' -> (forall j, j <> i -> from_worker resps' j = from_worker resps j) ->
  (served resps i w -> served resps' i w') -> all_served (<[i := w']> ws) resps'.
Proof.
  intros Hi [Hs _] Hl Hother Hnew. split; [|by rewrite length_insert]. intros j v Hj. destruct (decide (j = i)) as [->|Hne].
  - rewrite list_lookup_insert_eq in Hj by (by eapply lookup_lt_Some). injection Hj as <-. by apply Hnew, Hs.
  - rewrite list_lookup_insert_ne in Hj by done. specialize (Hs j v Hj). unfold served in *. by rewrite Hother.
Qed.

(** An event that catches no job over its timeout. *)
Definition in_time q (e : event Job) : Prop := match e with CheckTimeouts => timed_out (now q) (orchestrator q) = [] | _ => True end.

Lemma step_going q e q' : going q -> in_time q e -> step q e = Some q' -> going q'.
Proof.
  intros (Hst & Hs & Hb) Ht. unfold step. rewrite Hst. set (o := orchestrator q) in *. destruct e as [job|time|i res|i| | |].
  - intros [= <-]. done.
  - intros [= <-]. done.
  - fold o. destruct (workers o !! i) as [w|] eqn:Ei; cbn; [|done]. destruct (inbox w) as [|j rest] eqn:Ein; [done|]. intros [= <-].
    assert (idle (mkWorker (active_job w) rest (alive w)) = idle w) as Hidle by done.
    split; [done|]. split.
    + cbn. eapply all_served_insert; [exact Ei|exact Hs| | |].
      * apply Forall_app. split; [apply Hs|]. constructor; [cbn; by eapply lookup_lt_Some|constructor].
      * intros j' Hj. unfold from_worker. rewrite filter_app, filter_cons_False by (cbn; congruence). by rewrite filter_nil, app_nil_r.
      * unfold served. cbn. rewrite Ein. destruct (active_job w) as [r|]; [|by intros (_ & ? & _)].
        intros [(Ha & [= -> ->] & Hn)|[? _]]; [|done]. right. split; [done|]. unfold from_worker in *. rewrite filter_app, Hn, filter_cons_True by done. by rewrite Ha.
    + destruct Hb as [Hb|Hb]; [by left|right]. cbn. apply Forall_insert; [done|]. rewrite Forall_forall in Hb. cbn. exact (Hb w (list_elem_of_lookup_2 _ _ _ Ei)).
  - fold o. destruct (workers o !! i) as [w|] eqn:Ei; cbn; [|done]. destruct (inbox w) as [|j rest] eqn:Ein; [done|]. intros [= <-].
    split; [done|]. split.
    + cbn. eapply all_served_insert; [exact Ei|exact Hs|apply Hs|done|].
      unfold served. cbn. rewrite Ein. destruct (active_job w) as [r|]; [|by intros (_ & ? & _)].
      intros [(Ha & [= -> ->] & Hn)|[? _]]; [|done]. right. by rewrite Hn.
    + destruct Hb as [Hb|Hb]; [by left|right]. cbn. apply Forall_insert; [done|]. rewrite Forall_forall in Hb. cbn. exact (Hb w (list_elem_of_lookup_2 _ _ _ Ei)).
  - destruct (requests q) as [|job rest]; [done|]. intros [= <-]. by apply end_turn_going.
  - destruct (responses q) as [|[i res] rest] eqn:Er; [done|]. intros [= <-].
    destruct Hs as [Hs Hl]. apply Forall_cons_1 in Hl as [Hi Hl]. cbn in Hi. apply lookup_lt_is_Some in Hi as [w Hi].
    assert (from_worker ((i, res) :: rest) i = (i, res) :: from_worker rest i) as Hmine by (unfold from_worker; by rewrite filter_cons_True).
    pose proof (Hs i w Hi) as Hw. unfold served in Hw. rewrite Hmine in Hw. destruct (active_job w) as [r|] eqn:Ea; [|by destruct Hw as (_ & _ & ?)].
    destruct Hw as [(_ & _ & ?)|[Hin Hlen]]; [done|]. cbn in Hlen. destruct (alive w) eqn:Eal; [|done].
    assert (from_worker rest i = []) as Hnone by (apply length_zero_iff_nil; lia).
    unfold process_result. fold o. rewrite Hi. cbn [ok_or try_with]. unfold worker_clear. rewrite Ea. cbn [ok_or try_with].
    assert (all_served (<[i := mkWorker None (inbox w) (alive w)]> (workers o)) rest) as Hs'.
    { eapply all_served_insert; [exact Hi|exact (conj Hs (Forall_cons_2 (fun p => p.1 < length (workers o)) (i, res) rest ltac:(by eapply lookup_lt_Some) Hl))|exact Hl| |].
      - intros j Hj. unfold from_worker. by rewrite filter_cons_False by (cbn; congruence).
      - intros _. unfold served. cbn. by rewrite Eal, Hin, Hnone. }
    destruct res as [e|[next_job|]]; apply end_turn_going; [|done|done]. unfold process_failed_job, mark_attempt_failed. by destruct (_ <=? _).
  - destruct (check_at q <=? now q)%N; [|done]. intros [= <-]. unfold process_timed_out_jobs. cbn in Ht. fold o in Ht. fold o. rewrite Ht. cbn [foldl]. by apply end_turn_going.
Qed.
End facts.
