(* ===== verification/Jobs.v ===== *)
(** * The jobs of a gateway

    Model of [noosphere-gateway/src/jobs/processors] and of the dispatch of jobs
    ([jobs/job_processor.rs], [jobs/job_context.rs], [single_tenant]): compacting the
    history of the sphere of the gateway (cleanup.rs), publishing and resolving link
    records (name_system.rs), and syndicating to IPFS (syndication.rs).

    [C] is the container of the context of that sphere, [N] and [I] the name system and
    the IPFS node behind their clients; all are threaded.  A node that accepts a CAR
    has read the whole stream. *)
From stdpp Require Import base gmap list numbers strings pretty.
From Stdlib Require Import Ascii String.
From S2P Require Import Prelude BlockStore HamtNode HamtRep Hamt BTree SphereDb BodyChunk VersionedMap.
From S2P Require Import UcanCapability Ucan UcanChain Authority Memo Sphere SphereHistory Bundle Stream SphereContext Api Gateway.
#[local] Open Scope list_scope.
#[local] Notation length := List.length (only parsing).

(** The name system as a client sees it (noosphere-ns/src/name_resolver.rs). *)
Class NameResolver (N : Type) := {
  publish : N -> Ucan -> outcome unit * N;
  resolve : N -> string -> outcome (option Ucan);
}.

(** An IPFS node (noosphere-ipfs/src/client/mod.rs). *)
Class IpfsClient (I Cid : Type) `{Countable Cid} := {
  server_identity : I -> outcome string;
  syndicate_blocks : I -> car_stream Cid -> outcome unit * I;
  pin_blocks : I -> gset Cid -> outcome unit * I;
}.

(** The last version that was syndicated to a node, and since when the record is kept. *)
Record SyndicationCheckpoint (Cid : Type) := mkCheckpoint {
  last_syndicated_counterpart_version : option Cid;
  syndication_epoch : N;
}.
Arguments mkCheckpoint {Cid} _ _.
Arguments last_syndicated_counterpart_version {Cid} _.
Arguments syndication_epoch {Cid} _.

Definition MAX_SYNDICATION_CHECKPOINT_LIFETIME : N := 60 * 60 * 24 * 90.

Section checkpoints.
Context {Cid : Type} (clock : N).

Definition checkpoint_new : SyndicationCheckpoint Cid := mkCheckpoint None clock.

Definition lifetime (self : SyndicationCheckpoint Cid) : outcome N :=
  if (clock <? syndication_epoch self)%N then Panic "attempt to subtract with overflow" else Ok (clock - syndication_epoch self)%N.

Definition checkpoint_is_expired (self : SyndicationCheckpoint Cid) : outcome bool :=
  let? lifetime := lifetime self in Ok (MAX_SYNDICATION_CHECKPOINT_LIFETIME <? lifetime)%N.
End checkpoints.

Section jobs.
Context {Key Url Cid B KV Net N I : Type} `{Unicode}.
Context `{KeyMaterial Key} `{Bs58} `{Base64} `{DagJson UcanHeader} `{DagJson UcanPayload} `{UrlOps Url}.
Context `{Countable Cid} `{HashAlgorithm string} `{HashAlgorithm Cid} `{KeyOrder Cid}.
Context `{CidDefault Cid} `{!BlockStore B Cid} `{Store KV} `{!SphereCodecs Cid} `{!EntryCodecs Cid} `{!ContextCodecs Cid}.
Context `{FastCdc} `{!GatewayApi Net Key Cid} `{!NameResolver N} `{!IpfsClient I Cid} `{!BlockCodec (SyndicationCheckpoint Cid)}.
Context (supported_keys : list (bytes * (bytes -> outcome Key))).
Context (fuel walk_fuel history_fuel body_fuel : nat) (clock : BinNums.N) (net : Net).
Context {C : Type} `{!HasMutableSphereContext (Key := Key) (Cid := Cid) (B := B) (KV := KV) C}.
Notation SphereDb := (SphereDb B KV).
Notation GatewayJob := (GatewayJob Cid).
Notation Checkpoint := (SyndicationCheckpoint Cid).
#[local] Existing Instance block_ucan_store.
Implicit Types (c : C) (db : SphereDb) (ns : N) (ipfs : I).

(** A warning instead of an error. *)
Definition warned {A} (r : outcome A) : outcome unit :=
  match r with Ok _ | Err _ => Ok tt | Panic w => Panic w | Diverge => Diverge end.

(** [LinkRecord]'s [PartialEq]. *)
Definition record_eq (self other : Ucan) : bool :=
  match ucan_encode self, ucan_encode other with
  | Ok encoded_a, Ok encoded_b => bool_decide (encoded_a = encoded_b)
  | _, _ => false
  end.

(** ** Compaction (cleanup.rs) *)
Definition operation_key {V} (op : MapOperation string V) : string := match op with Add key _ => key | Remove key => key end.

Definition counterpart_changed db (counterpart : string) (cid : Cid) : outcome bool :=
  let? content := get_content db cid in
  let? changelog := (get_changelog content).1 in
  Ok (0 <? length (filter (fun op => operation_key op = counterpart) (log_changes changelog))).

(** The walk back: the oldest version to be compacted, and how many there are. *)
Fixpoint compaction_bound db (counterpart : string) (items : list (Cid * MemoIpld Cid)) (ending : outcome unit)
    (compact_until : option Cid) (version_count : nat) : outcome (option Cid * nat) :=
  match items with
  | [] => let? _ := ending in Ok (compact_until, version_count)
  | (cid, _) :: items' =>
      let? changed := counterpart_changed db counterpart cid in
      if changed then Ok (compact_until, version_count)
      else compaction_bound db counterpart items' ending (Some cid) (S version_count)
  end.

Definition compact_sphere (rng : bytes) c : outcome (option GatewayJob) * C :=
  let cursor := latest (Cid := Cid) c in
  let author := ctx_author (sphere_context cursor) in
  let sphere_identity := ctx_identity (sphere_context cursor) in
  let? counterpart := db_require_key (V := string) (context_db cursor) COUNTERPART keeping c in
  let? sphere := version cursor keeping c in
  let '(items, ending) := into_history_stream history_fuel (context_db cursor) sphere None in
  let? (compact_until, _) := compaction_bound (context_db cursor) counterpart items ending None 0 keeping c in
  match compact_until with
  | None => (Ok None, c)
  | Some compact_until =>
      let? cursor_version := version cursor keeping c in
      let? latest_version := context_version (sphere_context cursor) keeping c in
      if negb (bool_decide (cursor_version = latest_version))
      then (Err "Could not compact history; history advanced since job began", c)
      else
        let '(r, db) := compact (Url := Url) history_fuel rng clock latest_version compact_until
          (author_key author) (author_authorization author) (context_db c) in
        let c := put_db c db in
        let? new_tip := r keeping c in
        let '(r, db) := set_version db sphere_identity new_tip in
        let c := put_db c db in
        let? _ := r keeping c in (Ok None, c)
  end.

(** ** The name system (name_system.rs) *)
Definition counterpart_link_record_key (counterpart_identity : string) : string := ("link_record/" ++ counterpart_identity)%string.

Definition set_counterpart_record (rng : bytes) c (record : Ucan) : outcome unit * C :=
  let? counterpart_identity := db_require_key (V := string) (context_db c) COUNTERPART keeping c in
  let cursor := latest c in
  let? jwt := ucan_encode record keeping c in
  let '(r, cursor) := write (Url := Url) supported_keys fuel walk_fuel body_fuel clock net cursor
    (counterpart_link_record_key counterpart_identity) (ContentType.deref ContentType.Text) (Ok (as_bytes jwt)) None in
  let? _ := r keeping cursor_inner cursor in
  let '(r, cursor) := cursor_save rng cursor None in
  let? _ := r keeping cursor_inner cursor in (Ok tt, cursor_inner cursor).

(** [read_to_end]. *)
Definition read_contents (contents : list bytes * outcome unit) : outcome bytes :=
  let '(chunks, ending) := contents in let? _ := ending in Ok (mjoin chunks).

Definition get_counterpart_record c : outcome (option Ucan) * C :=
  let? counterpart_identity := db_require_key (V := string) (context_db c) COUNTERPART keeping c in
  let '(r, c) := read body_fuel net c (counterpart_link_record_key counterpart_identity) in
  let? found := r keeping c in
  match found with
  | Some file =>
      let? b := read_contents (file_contents file) keeping c in
      let? buffer := from_utf8 b keeping c in
      let? record := ucan_from_str buffer keeping c in (Ok (Some record), c)
  | None => (Ok None, c)
  end.

Definition name_system_publish (rng : bytes) c ns (record : Ucan) : outcome (option GatewayJob) * (C * N) :=
  let '(r, c) := set_counterpart_record rng c record in
  let? _ := warned r keeping (c, ns) in
  if has_publishable_timeframe clock record then
    let '(r, ns) := publish ns record in
    let? _ := r keeping (c, ns) in (Ok None, (c, ns))
  else (Err "Record is expired and cannot be published.", (c, ns)).

Definition name_system_republish c ns : outcome (option GatewayJob) * (C * N) :=
  let '(r, c) := get_counterpart_record c in
  match r with
  | Ok (Some record) =>
      let '(r, ns) := publish ns record in
      let? _ := r keeping (c, ns) in (Ok None, (c, ns))
  | Ok None | Err _ => (Ok None, (c, ns))
  | Panic w => (Panic w, (c, ns))
  | Diverge => (Diverge, (c, ns))
  end.

(** A name that cannot be resolved is passed over. *)
Definition fetch_record ns (identity : string) : outcome (option Ucan) :=
  match resolve ns identity with
  | Err _ => Ok None
  | r => r
  end.

(** One name in the loop of [resolve_all]. *)
Definition resolve_name ns (entry : string * IdentityIpld Cid) c : outcome unit * C :=
  let '(name, identity) := entry in
  let? last_known_record := identity_link_record (context_db c) identity keeping c in
  let? fetched := fetch_record ns (peer_did identity) keeping c in
  match fetched with
  | None => (Ok tt, c)
  | Some record =>
      let next_record :=
        match last_known_record with
        | Some last_known_record => if superceded_by last_known_record record then Some record else None
        | None => Some record
        end in
      match next_record with
      | Some record =>
          let same := match last_known_record with Some last_known_record => record_eq last_known_record record | None => false end in
          if same then (Ok tt, c)
          else
            let? current_record := get_petname_record c name keeping c in
            let current := match current_record with Some current_record => bool_decide (get_link (Cid := Cid) current_record = get_link record) | None => false end in
            if current then (Ok tt, c)
            else
              let '(r, c) := set_petname_record (Url := Url) supported_keys fuel walk_fuel clock c name record in
              (warned r, c)
      | None => (Ok tt, c)
      end
  end.

Definition resolve_all (rng : bytes) ns c (stream : list (string * IdentityIpld Cid) * outcome unit) : outcome unit * C :=
  let '(names, ending) := stream in
  let '(r, c) := for_each_st (resolve_name ns) names c in
  let? _ := r keeping c in
  let? _ := ending keeping c in
  if has_unsaved_changes c then
    let '(r, c) := context_save rng c None in
    let? _ := r keeping c in (Ok tt, c)
  else (Ok tt, c).

Definition name_system_resolve_all (rng : bytes) c ns : outcome (option GatewayJob) * C :=
  let? name_stream :=
    let? sphere := version c in
    let? ipld := to_body (context_db c) sphere in
    let? names := get_identities (context_db c) (address_book ipld) in
    vm_into_stream walk_fuel names keeping c in
  let '(r, c) := resolve_all rng ns c name_stream in
  let? _ := r keeping c in (Ok None, c).

(** The names that the loop of [name_system_resolve_since] has collected. *)
Record collected_names := mkCollected { names_to_resolve : list (string * IdentityIpld Cid); names_to_ignore : gset string }.

Definition collect_name (st : collected_names) (operation : MapOperation string (IdentityIpld Cid)) : collected_names :=
  match operation with
  | Add key value =>
      if negb (bool_decide (key ∈ names_to_ignore st)) && negb (bool_decide (is_Some (btree_get (names_to_resolve st) key)))
      then mkCollected (btree_insert (names_to_resolve st) key value) (names_to_ignore st)
      else st
  | Remove key => mkCollected (names_to_resolve st) ({[key]} ∪ names_to_ignore st)
  end.

Definition collect_version db (st : collected_names) (version : Cid) : outcome collected_names :=
  let? sphere := to_body db version in
  let? names := get_identities db (address_book sphere) in
  let? changelog := (vm_load_changelog names).1 in
  Ok (foldl collect_name st (log_changes changelog)).

Definition name_system_resolve_since (rng : bytes) c ns (since : option Cid) : outcome (option GatewayJob) * C :=
  let? sphere := version c keeping c in
  let '(history, ending) := into_history_stream history_fuel (context_db c) sphere since in
  let? collected := try_fold (collect_version (context_db c)) (mkCollected [] ∅) history.*1 keeping c in
  let? _ := ending keeping c in
  let '(r, c) := resolve_all rng ns c (names_to_resolve collected, Ok tt) in
  let? _ := r keeping c in (Ok None, c).

(** ** Syndication (syndication.rs) *)
Definition checkpoint_key (kubo_identity : string) : string := ("syndication/kubo/" ++ kubo_identity)%string.

Definition read_checkpoint c (kubo_identity : string) : outcome Checkpoint * C :=
  let '(r, c) := read body_fuel net c (checkpoint_key kubo_identity) in
  let? found := r keeping c in
  match found with
  | Some file =>
      match content_type (file_memo file) with
      | Some ContentType.Cbor =>
          let? b := read_contents (file_contents file) keeping c in
          let? current_checkpoint :=
            match of_block b with
            | Err _ => Ok (checkpoint_new clock)
            | r => r
            end keeping c in
          let? expired := checkpoint_is_expired clock current_checkpoint keeping c in
          (Ok (if expired then checkpoint_new clock else current_checkpoint), c)
      | _ => (Ok (checkpoint_new clock), c)
      end
  | None => (Ok (checkpoint_new clock), c)
  end.

(** One revision: the checkpoint moves when its blocks are accepted and pinned. *)
Definition syndicate_revision db (cid : Cid) (st : Checkpoint * I) : outcome unit * (Checkpoint * I) :=
  let '(checkpoint, ipfs) := st in
  let '(stream, orphans) := record_stream_orphans ∅ (memo_body_stream walk_fuel db cid true) in
  let '(r, ipfs) := syndicate_blocks ipfs (to_car_stream [cid] stream) in
  match r with
  | Ok _ =>
      let '(r, ipfs) := pin_blocks ipfs (orphans ∖ {[cid]}) in
      match r with
      | Ok _ => (Ok tt, (mkCheckpoint (Some cid) (syndication_epoch checkpoint), ipfs))
      | failed => (warned failed, (checkpoint, ipfs))
      end
  | failed => (warned failed, (checkpoint, ipfs))
  end.

Definition syndicate_to_ipfs (rng : bytes) c ipfs (name_publish_on_success : option Ucan)
    : outcome (option GatewayJob) * (C * I) :=
  let? kubo_identity :=
    match server_identity ipfs with Err _ => Err "IPFS client could not identify itself" | r => r end keeping (c, ipfs) in
  let db := context_db c in
  let? counterpart_identity := db_require_key (V := string) db COUNTERPART keeping (c, ipfs) in
  let? counterpart_revision :=
    let? sphere := version c in
    let? content := get_content db sphere in
    (vm_require content counterpart_identity).1 keeping (c, ipfs) in
  let sphere_identity := ctx_identity (sphere_context c) in
  let '(r, c) := read_checkpoint c kubo_identity in
  let? syndication_checkpoint := r keeping (c, ipfs) in
  if bool_decide (Some counterpart_revision = last_syndicated_counterpart_version syndication_checkpoint) then (Ok None, (c, ipfs))
  else
    let? timeline := to_chronological history_fuel (context_db c)
      (exclude_past (slice counterpart_revision (last_syndicated_counterpart_version syndication_checkpoint))) keeping (c, ipfs) in
    let '(r, (syndication_checkpoint, ipfs)) :=
      for_each_st (syndicate_revision (context_db c)) timeline (syndication_checkpoint, ipfs) in
    let? _ := r keeping (c, ipfs) in
    let cursor := latest c in
    let? (_, b) := block_serialize (Cid := Cid) syndication_checkpoint keeping (c, ipfs) in
    let '(r, cursor) := write (Url := Url) supported_keys fuel walk_fuel body_fuel clock net cursor
      (checkpoint_key kubo_identity) (ContentType.deref ContentType.Cbor) (Ok b) None in
    let? _ := r keeping (cursor_inner cursor, ipfs) in
    let '(r, cursor) := cursor_save rng cursor None in
    let? _ := r keeping (cursor_inner cursor, ipfs) in
    (Ok (NameSystemPublish sphere_identity <$> name_publish_on_success), (cursor_inner cursor, ipfs)).

(** ** Dispatch *)
Record GatewayJobContext := mkJobContext { job_sphere : C; job_scope : GatewayScope; name_resolver : N; ipfs_client : I }.

(** [SingleTenantContextResolver::get_context]. *)
Definition get_context (context : GatewayJobContext) (did : string) : outcome C :=
  if bool_decide (scope_gateway (job_scope context) = did) then Ok (job_sphere context)
  else Err "No sphere context found with gateway identity".

Definition process_gateway_job (rng : bytes) (context : GatewayJobContext) (job : GatewayJob)
    : outcome (option GatewayJob) * GatewayJobContext :=
  let after c ns ipfs := mkJobContext c (job_scope context) ns ipfs in
  let ns := name_resolver context in
  let ipfs := ipfs_client context in
  match job with
  | CompactHistory identity =>
      let? c := get_context context identity keeping context in
      let '(r, c) := compact_sphere rng c in (r, after c ns ipfs)
  | IpfsSyndication identity name_publish_on_success =>
      let? c := get_context context identity keeping context in
      let '(r, (c, ipfs)) := syndicate_to_ipfs rng c ipfs name_publish_on_success in (r, after c ns ipfs)
  | NameSystemResolveAll identity =>
      let? c := get_context context identity keeping context in
      let '(r, c) := name_system_resolve_all rng c ns in (r, after c ns ipfs)
  | NameSystemResolveSince identity since =>
      let? c := get_context context identity keeping context in
      let '(r, c) := name_system_resolve_since rng c ns since in (r, after c ns ipfs)
  | NameSystemPublish identity record =>
      let? c := get_context context identity keeping context in
      let '(r, (c, ns)) := name_system_publish rng c ns record in (r, after c ns ipfs)
  | NameSystemRepublish identity =>
      let? c := get_context context identity keeping context in
      let '(r, (c, ns)) := name_system_republish c ns in (r, after c ns ipfs)
  end.
End jobs.

(** The jobs that the scheduler of a gateway submits, and the seconds between two of
    them (single_tenant/job_client.rs). *)
Definition periodic_jobs {Cid} (gateway : string) : list (GatewayJob Cid * N) :=
  [(CompactHistory gateway, 60 * 60); (NameSystemResolveAll gateway, 60); (IpfsSyndication gateway None, 60 * 5);
   (NameSystemRepublish gateway, 60 * 5)]%N.
