(* ===== verification/JobProofs.v ===== *)
(** * Facts about the jobs of a gateway

    How far compaction goes and what it leaves, which records a resolution adopts,
    and where the checkpoint of a syndication ends. *)
From stdpp Require Import base gmap list numbers strings pretty.
From Stdlib Require Import Ascii String.
From S2P Require Import Prelude BlockStore HamtNode HamtRep Hamt HamtSpec BTree SphereDb BodyChunk.
From S2P Require Import VersionedMap UcanCapability Ucan UcanChain Authority AuthorityProofs Memo.
From S2P Require Import Sphere SphereProofs SphereHistory SphereRebase Bundle BundleProofs.
From S2P Require Import Stream StreamProofs SphereContext SphereContextProofs SphereEdits SphereWalker SphereWalkerProofs StoreTransfer Api Gateway Jobs.
#[local] Open Scope list_scope.
#[local] Notation length := List.length (only parsing).

(** A client of a node answers every request, with a result or with an error, and the node
    keeps its identity. *)
Class NodeReplies (I Cid : Type) `{Countable Cid} `{!IpfsClient I Cid} := {
  syndicate_replies : forall ipfs (car : car_stream Cid), (exists u, (syndicate_blocks ipfs car).1 = Ok u) \/ exists e, (syndicate_blocks ipfs car).1 = Err e;
  pin_replies : forall ipfs (cids : gset Cid), (exists u, (pin_blocks ipfs cids).1 = Ok u) \/ exists e, (pin_blocks ipfs cids).1 = Err e;
  syndicate_identity : forall ipfs car, server_identity (syndicate_blocks ipfs car).2 = server_identity ipfs;
  pin_identity : forall ipfs (cids : gset Cid), server_identity (pin_blocks ipfs cids).2 = server_identity ipfs;
}.

Section job_facts.
Context {Key Url Cid B KV Net NS I : Type} `{UnicodeLaws}.
Context `{KeyMaterial Key} `{Bs58} `{Base64} `{DagJson UcanHeader} `{DagJson UcanPayload} `{UrlOps Url}.
Context `{Countable Cid} `{HashAlgorithmLaws string} `{HashAlgorithmLaws Cid} `{KeyOrderLaws Cid}.
Context `{CidLaws Cid} `{!CidDefault Cid} `{!BlockStore B Cid} `{!BlockStoreLaws B Cid} `{StoreLaws KV}.
Context `{!SphereCodecs Cid} `{!SphereCodecsLaws Cid} `{!EntryCodecs Cid} `{!EntryCodecsLaws Cid}.
Context `{!ContextCodecs Cid} `{!ContextCodecsLaws Cid} `{FastCdcLaws} `{!GatewayApi Net Key Cid}.
Context `{!NameResolver NS} `{!IpfsClient I Cid} `{!NodeReplies I Cid}.
Context `{!BlockCodec (SyndicationCheckpoint Cid)} `{!BlockCodecLaws Cid (SyndicationCheckpoint Cid)}.
Context (supported_keys : list (bytes * (bytes -> outcome Key))).
Context (fuel walk_fuel history_fuel body_fuel : nat) (clock : N) (net : Net).
Notation SphereDb := (SphereDb B KV).
Notation context := (SphereContext (Key := Key) (Cid := Cid) (B := B) (KV := KV)).
Notation version := (SphereRebase.version (Cid := Cid)).
Notation SphereMutation := (SphereMutation Cid).
#[local] Existing Instance block_ucan_store.
#[local] Instance plain : HasMutableSphereContext (Key := Key) (Cid := Cid) (B := B) (KV := KV) context :=
  context_has_mutable_context (Url := Url) clock.
Implicit Types (ctx : context) (db : SphereDb) (x y : version) (l : list (SphereMutation * version)).

(** The sphere that the gateway serves. *)
Definition serves db (counterpart : string) : Prop := db_require_key db COUNTERPART = Ok counterpart.

(** ** Compaction *)

(** The changelog of the content of [x] mentions the slug. *)
Definition mentions (slug : string) x : Prop := slug ∈ (operation_key <$> log_changes (v_content (ver_value x)).2).

#[export] Instance mentions_dec slug x : Decision (mentions slug x).
Proof. unfold mentions. apply _. Defined.

Lemma operations_of_key {V} (key : string) (ops : list (MapOperation string V)) :
  (0 <? length (filter (fun op => operation_key op = key) ops)) = bool_decide (key ∈ (operation_key <$> ops)).
Proof.
  induction ops as [|op ops IH]; [done|]. rewrite fmap_cons. destruct (decide (operation_key op = key)) as [E|E].
  - rewrite filter_cons_True by done. cbn. symmetry. apply bool_decide_eq_true. rewrite E. apply list_elem_of_here.
  - rewrite filter_cons_False, IH by done. apply bool_decide_ext. rewrite elem_of_cons. naive_solver.
Qed.

Lemma counterpart_changed_spec db counterpart x : holds db x ->
  counterpart_changed db counterpart (ver_cid x) = Ok (bool_decide (mentions counterpart x)).
Proof.
  intros (Hm & Hb & Hc & _). unfold counterpart_changed, get_content, to_body, to_memo. rewrite (stored_load _ _ _ Hm). cbn [outcome_bind].
  rewrite (stored_load _ _ _ Hb). cbn [outcome_bind]. rewrite (log_at_get _ _ _ (part_log_at _ _ _ Hc)). cbn [outcome_bind]. f_equal.
  rewrite operations_of_key. by apply bool_decide_ext.
Qed.

(** The history of the last version goes back to [x], and further if [x] has a parent. *)
Lemma timeline_back A db x l n : lineage A db x l -> length l < n ->
  exists rest r, timeline_stream n db (Some (ver_cid (tip x l))) None true =
    (reverse ((fun my => (ver_cid my.2, ver_memo my.2)) <$> l) ++ (ver_cid x, ver_memo x) :: rest, r) /\
    (parent (ver_memo x) = None -> rest = [] /\ r = Ok tt).
Proof.
  revert n. induction l as [|[m y] l IH] using rev_ind; intros [|n] Hl Hn; try (rewrite ?length_app in Hn; cbn in Hn; lia).
  - apply lineage_head in Hl as (Hm & _). cbn [timeline_stream tip]. rewrite (stored_load _ _ _ Hm).
    destruct (timeline_stream n db _ None true) as [items r] eqn:E. exists items, r. split; [done|]. intros Hp. rewrite Hp in E.
    rewrite (bool_decide_eq_false_2 (None = Some (ver_cid x))) in E by done. by destruct n; injection E as <- <-.
  - apply lineage_snoc in Hl as [Hl ((Hm & _) & Hp & _)]. rewrite tip_app. cbn [timeline_stream tip]. rewrite (stored_load _ _ _ Hm), Hp.
    rewrite length_app in Hn. cbn in Hn. destruct (IH n Hl ltac:(lia)) as (rest & r & E & Hr).
    rewrite (bool_decide_eq_false_2 (None = Some (ver_cid y))), (bool_decide_eq_false_2 (None = Some (ver_cid (tip x l)))) by done.
    cbn [andb]. rewrite E. exists rest, r. by rewrite fmap_app, reverse_app.
Qed.

Lemma history_back A db x l n : lineage A db x l -> length l < n ->
  exists rest r, into_history_stream n db (ver_cid (tip x l)) None =
    (reverse ((fun my => (ver_cid my.2, ver_memo my.2)) <$> l) ++ (ver_cid x, ver_memo x) :: rest, r).
Proof.
  intros Hl Hn. destruct (timeline_back A db x l n Hl Hn) as (rest & r & E & _).
  unfold into_history_stream, timeslice_stream. cbn [exclude_past slice past future slice_exclude_past]. rewrite E.
  assert (forall items, until_since (Cid := Cid) None items = (items, false)) as ->; [|by exists rest, r].
  induction items as [|[? ?] items IH]; [done|]. cbn. by rewrite IH.
Qed.

(** All versions, from the first one. *)
Lemma chronological_all A db x l n : lineage A db x l -> length l < n -> parent (ver_memo x) = None ->
  to_chronological n db (exclude_past (slice (ver_cid (tip x l)) None)) = Ok (ver_cid x :: cids l).
Proof.
  intros Hl Hn Hp. destruct (timeline_back A db x l n Hl Hn) as (rest & r & E & Hr). destruct (Hr Hp) as [-> ->].
  unfold to_chronological, timeslice_stream. cbn [exclude_past slice past future slice_exclude_past]. rewrite E. cbn [outcome_bind].
  rewrite chronological_rev, fmap_app, reverse_app, fmap_reverse, reverse_involutive. cbn. by rewrite cids_walk.
Qed.

(** The walk stops at the first version, from the last one, that mentions the counterpart. *)
Lemma compaction_bound_spec db counterpart x l rest r : holds db x -> mentions counterpart x ->
  Forall (fun my => holds db my.2 /\ ~ mentions counterpart my.2) l -> forall found count,
  compaction_bound db counterpart (reverse ((fun my => (ver_cid my.2, ver_memo my.2)) <$> l) ++ (ver_cid x, ver_memo x) :: rest) r found count =
    Ok (match l with [] => found | (_, y) :: _ => Some (ver_cid y) end, length l + count).
Proof.
  intros Hx Hm. induction l as [|[m y] l IH] using rev_ind; intros Hl found count.
  { cbn. rewrite (counterpart_changed_spec _ _ _ Hx). cbn. by rewrite bool_decide_eq_true_2. }
  apply Forall_app in Hl as [Hl [[Hy Hny] _]%Forall_cons]. rewrite fmap_app, reverse_app. cbn.
  rewrite (counterpart_changed_spec _ _ _ Hy). cbn. rewrite bool_decide_eq_false_2 by done. rewrite IH by done.
  rewrite length_app. cbn. do 2 f_equal; [by destruct l as [|[? ?] ?]|lia].
Qed.

Context (P : string -> Prop) (Q : Cid -> Prop) (HP : collision_free P) (HQ : collision_free Q).

Lemma same_maps_in v v' : same_maps v v' -> value_in P Q v' -> value_in P Q v.
Proof. intros (E1 & E2 & E3 & E4). unfold value_in. by rewrite E1, E2, E3, E4. Qed.

Lemma versions_held A db x l : lineage A db x l -> Forall (fun my => holds db my.2) l.
Proof. induction 1 as [|x m y l Hx Hy Hl IH]; constructor; [|done]. by destruct Hy. Qed.

(** What compaction leaves of a context whose last versions [l], from [x], do not
    mention the counterpart. *)
Lemma compact_sphere_spec rng ctx A counterpart x l did :
  lineage A (ctx_db ctx) x l -> mentions counterpart x -> Forall (fun my => ~ mentions counterpart my.2) l ->
  serves (ctx_db ctx) counterpart -> ready (Url := Url) clock P Q ctx (tip x l) did ->
  NoDup (cids l) -> value_in P Q (ver_value x) -> Forall (fun my => mutation_in P Q my.1) l ->
  (lamport_order (ver_memo x) + 1 < 2 ^ 32)%N -> length l < history_fuel ->
  match l with
  | [] => compact_sphere (Url := Url) history_fuel clock rng ctx = (Ok None, ctx)
  | _ => exists mc z db, compact_sphere (Url := Url) history_fuel clock rng ctx = (Ok None, with_db ctx db) /\
      store_le (ctx_db ctx) db /\ get_version db (ctx_identity ctx) = Ok (Some (ver_cid z)) /\
      succeeds (eq did) db x mc z /\ same_maps (ver_value z) (ver_value (tip x l)) /\ ready (Url := Url) clock P Q (with_db ctx db) z did
  end.
Proof.
  intros Hl Hx Hnm Hcp [Hat Hv Hm Hby Hau Hs] Hnd Hvx Hin Hlam Hf. unfold compact_sphere.
  cbn [SphereContext.version context_db sphere_context has_context plain context_has_mutable_context context_has_context cursor_has_context latest
    cursor_inner cursor_version].
  change (context_db (latest ctx)) with (ctx_db ctx). change (context_db ctx) with (ctx_db ctx). rewrite Hcp. cbn [try_with]. rewrite (at_version_context _ _ Hat). cbn [try_with].
  destruct (history_back A _ x l history_fuel Hl Hf) as (rest & r & E). rewrite E.
  rewrite (compaction_bound_spec _ counterpart x l rest r (lineage_head _ _ _ _ Hl) Hx (proj2 (Forall_and _ _) (conj (versions_held _ _ _ _ Hl) Hnm))).
  cbn [try_with]. destruct l as [|[m y] l]; [done|]. rewrite bool_decide_eq_true_2 by done. cbn [negb].
  pose proof Hnd as [Hny _]%NoDup_cons. cbn [tip] in *. cbn [length] in Hf.
  destruct (compact_spec P Q HP HQ A history_fuel rng clock (author_key (ctx_author ctx)) (author_authorization (ctx_author ctx)) did
    (ctx_db ctx) x m y l Hl Hny Hvx Hin Hlam ltac:(lia) Hs) as (mc & z & s' & -> & Hle & Hz & Hsame). cbn [try_with].
  destruct (set_version_spec s' (ctx_identity ctx) (ver_cid z)) as (db & -> & Hsb & _ & Hg & _). cbn [try_with].
  apply same_blocks_le in Hsb. apply (succeeds_mono _ _ _ _ _ _ Hsb) in Hz. exists mc, z, db. split; [done|].
  assert (store_le (ctx_db ctx) db) as Hle' by by transitivity s'. split; [done|]. split; [done|]. split; [done|]. split; [done|].
  split; cbn; [|exact (same_maps_in _ _ Hsame Hv)|done|done|done|exact (can_sign_mono _ _ _ _ _ _ Hle' Hs)]. split; [done|]. by destruct Hz.
Qed.

(** ** Files that jobs keep in the sphere *)
Notation writable := (writable (Url := Url) supported_keys fuel walk_fuel clock).
Notation ready := (ready (Url := Url) clock P Q).

Lemma nothing_pending ctx : has_unsaved_changes (HasSphereContext0 := context_has_context) ctx = false -> mutation_changes (content_mutation (ctx_mutation ctx)) = [] /\
  mutation_changes (identities_mutation (ctx_mutation ctx)) = [].
Proof.
  unfold has_unsaved_changes, sphere_mutation_is_empty. cbn. intros Hun%negb_false_iff. rewrite !andb_true_iff, !Nat.eqb_eq in Hun.
  destruct Hun as [[[H1' H2'] _] _]. by split; apply nil_length_inv.
Qed.

(** The file that a job wrote is the only change of the version that it saved. *)
Record kept ctx ctx' x y (did slug : string) (ct : string) (b : bytes) : Prop := {
  kept_grown : store_le (ctx_db ctx) (ctx_db ctx');
  kept_ready : ready ctx' y did;
  kept_writable : writable ctx';
  kept_saved : has_unsaved_changes ctx' = false;
  kept_identity : ctx_identity ctx' = ctx_identity ctx;
  kept_metadata : metadata_store (ctx_db ctx') = metadata_store (ctx_db ctx);
  kept_parent : parent (ver_memo y) = Some (ver_cid x);
  kept_names : (v_identities (ver_value y)).1 = (v_identities (ver_value x)).1;
  kept_content : exists cid, (v_content (ver_value y)).1 = <[slug := cid]> (v_content (ver_value x)).1;
  kept_file : exists file bs, read body_fuel net ctx' slug = (Ok (Some file), ctx') /\
    get_first_header (file_memo file) CONTENT_TYPE = Some ct /\ file_contents file = (bs, Ok tt) /\ mjoin bs = b;
}.

Lemma file_kept rng ctx x did slug ct b : ready ctx x did -> writable ctx -> has_unsaved_changes ctx = false ->
  (lamport_order (ver_memo x) + 1 < 2 ^ 32)%N -> P slug -> slug <> "" -> b <> [] -> length b <= body_fuel -> replaceable (ctx_db ctx) x slug ->
  exists cid cursor y ctx', write (Url := Url) supported_keys fuel walk_fuel body_fuel clock net (latest (Cid := Cid) ctx) slug ct (Ok b) None = (Ok cid, cursor) /\
    cursor_save rng cursor None = (Ok (ver_cid y), latest (Cid := Cid) ctx') /\ kept ctx ctx' x y did slug ct b.
Proof.
  intros Hr Hw Hun Hlam HPs Hne Hb Hf Hrep. pose proof Hr as [[Hver Hx] Hval Hm Hby Hau Hs].
  destruct (write_spec (Url := Url) (HasSphereContext0 := cursor_has_context (HasSphereContext0 := context_has_context)) supported_keys fuel walk_fuel body_fuel clock net (latest ctx) x slug ct b None Hw Hne Hb)
    as (cid & db1 & Ew & Hg & Hfile & _); [by apply at_version_context|done|done|].
  destruct (with_content_in P Q (ctx_mutation ctx) (Add slug cid) did Hm Hby Hau HPs) as (M1 & M2 & M3).
  set (ctx1 := edited ctx db1 (with_content (ctx_mutation ctx) (Add slug cid))).
  assert (ready ctx1 x did) as Hr1 by by apply ready_edited.
  assert (has_unsaved_changes ctx1 = true) as Hun1.
  { unfold has_unsaved_changes, sphere_mutation_is_empty. cbn. rewrite length_app, Nat.add_1_r. done. }
  destruct (default_save_spec (Url := Url) clock P Q HP HQ rng ctx1 x did None Hr1 Hlam Hun1 eq_refl)
    as (y & ctx2 & Es & Hle & Hy & Hr2 & Hun2 & Hid & _ & Hac).
  pose proof (default_save_metadata (Url := Url) clock rng ctx1 None) as Hmeta. rewrite Es in Hmeta. cbn [snd] in Hmeta.
  exists cid, (latest ctx1), y, ctx2. split; [exact Ew|]. split.
  { unfold cursor_save. cbn [context_save plain context_has_mutable_context cursor_inner latest]. by rewrite Es. }
  pose proof Hy as (_ & Hp & Ev & _). destruct (nothing_pending ctx Hun) as [Hn1 Hn2].
  assert ((v_content (ver_value y)).1 = <[slug := cid]> (v_content (ver_value x)).1) as Hc.
  { rewrite Ev. cbn. rewrite apply_part_fst. cbn. by rewrite Hn1. }
  split; [|done|apply writable_cell; by rewrite Hac|done|by rewrite Hid|rewrite Hmeta; apply Hg|done| |by exists cid|].
  - transitivity db1; [apply Hg|exact Hle].
  - rewrite Ev. cbn. rewrite apply_part_fst. cbn. by rewrite Hn2.
  - destruct Hr2 as [Hat2 _ _ _ _ _].
    destruct (read_file (HasSphereContext0 := context_has_context) body_fuel net ctx2 y slug cid ct b (at_version_context _ _ Hat2) (proj2 Hat2))
      as (file & bs & Er & _ & _ & Hct & Hfc & Hj); [by rewrite Hc, lookup_insert_eq|exact (file_at_mono _ _ _ _ _ Hle Hfile)|done|].
    by exists file, bs.
Qed.

Lemma kept_counterpart ctx ctx' x y did slug ct b : kept ctx ctx' x y did slug ct b ->
  db_require_key (V := string) (ctx_db ctx') COUNTERPART = db_require_key (ctx_db ctx) COUNTERPART.
Proof. intros [_ _ _ _ _ Hm _ _ _ _]. unfold db_require_key, db_get_key. by rewrite Hm. Qed.

(** ** The record of the counterpart *)
Notation set_counterpart_record := (set_counterpart_record (Url := Url) supported_keys fuel walk_fuel body_fuel clock net).
Notation get_counterpart_record := (get_counterpart_record body_fuel net).

Lemma set_counterpart_record_spec rng ctx x did counterpart record jwt :
  ready ctx x did -> writable ctx -> has_unsaved_changes ctx = false -> (lamport_order (ver_memo x) + 1 < 2 ^ 32)%N ->
  serves (ctx_db ctx) counterpart -> P (counterpart_link_record_key counterpart) ->
  replaceable (ctx_db ctx) x (counterpart_link_record_key counterpart) ->
  ucan_encode record = Ok jwt -> jwt <> "" -> length (as_bytes jwt) <= body_fuel ->
  exists y ctx', set_counterpart_record rng ctx record = (Ok tt, ctx') /\
    kept ctx ctx' x y did (counterpart_link_record_key counterpart) "text/plain" (as_bytes jwt).
Proof.
  intros Hr Hw Hun Hlam Hcp HPs Hrep Hj Hne Hf. unfold set_counterpart_record. change (context_db ctx) with (ctx_db ctx).
  rewrite Hcp. cbn [try_with]. rewrite Hj. cbn [try_with].
  destruct (file_kept rng ctx x did (counterpart_link_record_key counterpart) "text/plain" (as_bytes jwt)) as (cid & cursor & y & ctx' & E & Es & Hk);
    try done; [by destruct jwt|].
  change (ContentType.deref ContentType.Text) with "text/plain". rewrite E. cbn [try_with]. rewrite Es. cbn [try_with]. by exists y, ctx'.
Qed.

Lemma get_counterpart_record_spec ctx ctx' x y did counterpart record jwt :
  serves (ctx_db ctx) counterpart ->
  kept ctx ctx' x y did (counterpart_link_record_key counterpart) "text/plain" (as_bytes jwt) ->
  from_utf8 (as_bytes jwt) = Ok jwt -> ucan_from_str jwt = Ok record -> get_counterpart_record ctx' = (Ok (Some record), ctx').
Proof.
  intros Hcp Hk Hu Hj. unfold get_counterpart_record. change (context_db ctx') with (ctx_db ctx'). rewrite (kept_counterpart _ _ _ _ _ _ _ _ Hk), Hcp.
  cbn [try_with]. destruct (kept_file _ _ _ _ _ _ _ _ Hk) as (file & bs & Er & _ & Hfc & Hb). unfold plain in Er |- *. cbn [has_context context_has_mutable_context] in Er |- *. rewrite Er. cbn [try_with].
  rewrite Hfc. cbn [read_contents try_with outcome_bind]. rewrite Hb, Hu. cbn [try_with]. by rewrite Hj.
Qed.

(** ** Syndication *)

(** The blocks of a revision can be read. *)
Definition streams db (cid : Cid) : Prop := (record_stream_orphans ∅ (memo_body_stream walk_fuel db cid true)).1.2 = Ok tt.

(** They can for a version that is held with its contents. *)
Lemma version_streams n k db x : walk_fuel = 2 + k -> n <= k -> levels DEFAULT_BIT_WIDTH * value_size (ver_value x) <= k -> holds db x ->
  is_sphere_memo (ver_memo x) -> all_entries_at n db (ver_value x) -> streams db (ver_cid x).
Proof.
  intros Hw Hk Hsz Hx Hsp He. destruct (taps_body_stream n k db x Hk Hsz Hx Hsp He) as (blocks & E & Hs & _). unfold streams. rewrite Hw, E.
  unfold record_stream_orphans. destruct (record_blocks_spec blocks ledger_default) as (ledger & -> & _); [|done].
  eapply Forall_impl; [exact Hs|]. intros [c b] [_ Hr] Hc. cbn in *. by apply Hr.
Qed.

(** The node is offered revisions, oldest first, and takes some of them: the CAR of a revision
    has all of its blocks, and what the blocks leave unreferenced is pinned, apart from the
    revision itself, after the node has accepted the CAR. *)
Inductive offered db : I -> list Cid -> list Cid -> I -> Prop :=
  | offered_nothing ipfs : offered db ipfs [] [] ipfs
  | offered_refused ipfs cid blocks orphans e ipfs1 vs taken ipfs' :
      record_stream_orphans ∅ (memo_body_stream walk_fuel db cid true) = ((blocks, Ok tt), orphans) ->
      syndicate_blocks ipfs (to_car_stream [cid] (blocks, Ok tt)) = (Err e, ipfs1) ->
      offered db ipfs1 vs taken ipfs' -> offered db ipfs (cid :: vs) taken ipfs'
  | offered_unpinned ipfs cid blocks orphans u e ipfs1 ipfs2 vs taken ipfs' :
      record_stream_orphans ∅ (memo_body_stream walk_fuel db cid true) = ((blocks, Ok tt), orphans) ->
      syndicate_blocks ipfs (to_car_stream [cid] (blocks, Ok tt)) = (Ok u, ipfs1) ->
      pin_blocks ipfs1 (orphans ∖ {[cid]}) = (Err e, ipfs2) ->
      offered db ipfs2 vs taken ipfs' -> offered db ipfs (cid :: vs) taken ipfs'
  | offered_taken ipfs cid blocks orphans u u' ipfs1 ipfs2 vs taken ipfs' :
      record_stream_orphans ∅ (memo_body_stream walk_fuel db cid true) = ((blocks, Ok tt), orphans) ->
      syndicate_blocks ipfs (to_car_stream [cid] (blocks, Ok tt)) = (Ok u, ipfs1) ->
      pin_blocks ipfs1 (orphans ∖ {[cid]}) = (Ok u', ipfs2) ->
      offered db ipfs2 vs taken ipfs' -> offered db ipfs (cid :: vs) (cid :: taken) ipfs'.

(** The checkpoint after the revisions [taken]. *)
Definition advanced (checkpoint : SyndicationCheckpoint Cid) (taken : list Cid) : SyndicationCheckpoint Cid :=
  mkCheckpoint (match last taken with Some cid => Some cid | None => last_syndicated_counterpart_version checkpoint end) (syndication_epoch checkpoint).

Lemma advanced_cons checkpoint cid taken :
  advanced (mkCheckpoint (Some cid) (syndication_epoch checkpoint)) taken = advanced checkpoint (cid :: taken).
Proof. unfold advanced. rewrite last_cons. by destruct (last taken). Qed.

Lemma offered_identity db ipfs vs taken ipfs' : offered db ipfs vs taken ipfs' -> server_identity (Cid := Cid) ipfs' = server_identity (Cid := Cid) ipfs.
Proof.
  induction 1 as [|ipfs cid bl orph e ipfs1 vs taken ipfs' _ E1 _ IH|ipfs cid bl orph u e ipfs1 ipfs2 vs taken ipfs' _ E1 E2 _ IH
    |ipfs cid bl orph u u' ipfs1 ipfs2 vs taken ipfs' _ E1 E2 _ IH]; [done|rewrite IH..].
  - by rewrite <- (syndicate_identity ipfs (to_car_stream [cid] (bl, Ok tt))), E1.
  - by rewrite <- (syndicate_identity ipfs (to_car_stream [cid] (bl, Ok tt))), E1, <- (pin_identity ipfs1 (orph ∖ {[cid]})), E2.
  - by rewrite <- (syndicate_identity ipfs (to_car_stream [cid] (bl, Ok tt))), E1, <- (pin_identity ipfs1 (orph ∖ {[cid]})), E2.
Qed.

(** The node's answers decide what is taken. *)
Lemma offered_fun db ipfs vs taken1 taken2 ipfs1 ipfs2 : offered db ipfs vs taken1 ipfs1 -> offered db ipfs vs taken2 ipfs2 -> taken1 = taken2 /\ ipfs1 = ipfs2.
Proof.
  intros Ho. revert taken2 ipfs2. induction Ho; intros taken2 ipfs2' Ho2; inversion Ho2; subst;
    repeat match goal with E1 : ?t = _, E2 : ?t = _ |- _ => rewrite E1 in E2; simplify_eq end; try done;
    match goal with Hn : offered _ _ _ _ ipfs2' |- _ => destruct (IHHo _ _ Hn) as [-> ->]; done end.
Qed.

Lemma offered_sublist db ipfs vs taken ipfs' : offered db ipfs vs taken ipfs' -> taken `sublist_of` vs.
Proof. induction 1; [constructor|by constructor..]. Qed.

Lemma syndicate_revisions_spec db vs checkpoint ipfs : Forall (streams db) vs ->
  exists taken ipfs', for_each_st (syndicate_revision walk_fuel db) vs (checkpoint, ipfs) = (Ok tt, (advanced checkpoint taken, ipfs')) /\
    offered db ipfs vs taken ipfs'.
Proof.
  intros Hs. revert checkpoint ipfs. induction Hs as [|cid vs Hc Hs IH]; intros checkpoint ipfs.
  { exists [], ipfs. split; [by destruct checkpoint|constructor]. }
  cbn [for_each_st]. unfold syndicate_revision at 1. unfold streams in Hc.
  destruct (record_stream_orphans _ _) as [[blocks ending] orphans] eqn:Eo. cbn in Hc. subst ending.
  pose proof (syndicate_replies ipfs (to_car_stream [cid] (blocks, Ok tt))) as Hr. destruct (syndicate_blocks _ _) as [r1 ipfs1] eqn:E1. cbn [fst] in Hr.
  destruct Hr as [[u ->]|[e ->]].
  - pose proof (pin_replies ipfs1 (orphans ∖ {[cid]})) as Hp. destruct (pin_blocks _ _) as [r2 ipfs2] eqn:E2. cbn [fst] in Hp.
    destruct Hp as [[u' ->]|[e ->]]; cbn [warned try_with].
    + destruct (IH (mkCheckpoint (Some cid) (syndication_epoch checkpoint)) ipfs2) as (taken & ipfs' & -> & Ho).
      exists (cid :: taken), ipfs'. rewrite advanced_cons. split; [done|]. by eapply offered_taken.
    + destruct (IH checkpoint ipfs2) as (taken & ipfs' & -> & Ho). exists taken, ipfs'. split; [done|]. by eapply offered_unpinned.
  - cbn [warned try_with]. destruct (IH checkpoint ipfs1) as (taken & ipfs' & -> & Ho). exists taken, ipfs'. split; [done|]. by eapply offered_refused.
Qed.

(** The last version of a timeline is where it was taken. *)
Lemma chronological_last n db (future : Cid) past vs :
  to_chronological n db (exclude_past (slice future past)) = Ok vs -> last vs = Some future.
Proof.
  unfold to_chronological, timeslice_stream. destruct n as [|n]; [done|]. cbn. destruct (load db future) as [memo| | |]; [|done..].
  destruct (timeline_stream n db _ past true) as [items r]. destruct r as [[]| | |]; [|done..]. cbn [outcome_bind]. intros [= <-].
  change (foldl _ _ items) with (foldl (fun chronological (item : Cid * MemoIpld Cid) => item.1 :: chronological) [] ((future, memo) :: items)).
  rewrite chronological_rev. by rewrite fmap_cons, reverse_cons, last_snoc.
Qed.

Lemma read_checkpoint_fresh ctx kubo_identity checkpoint :
  (read_checkpoint body_fuel clock net ctx kubo_identity).1 = Ok checkpoint -> checkpoint_is_expired clock checkpoint = Ok false.
Proof.
  assert (checkpoint_is_expired clock (checkpoint_new (Cid := Cid) clock) = Ok false) as Hnew.
  { unfold checkpoint_is_expired, lifetime. cbn. rewrite N.ltb_irrefl. cbn. by rewrite N.sub_diag. }
  unfold read_checkpoint. destruct (read _ _ _ _) as [[[file|]| | |] ctx']; cbn [try_with fst]; [|by intros [= <-]|done..].
  destruct (content_type _) as [[]|]; cbn [fst]; try by intros [= <-]. destruct (read_contents _) as [b| | |]; cbn [try_with fst]; [|done..].
  destruct (match of_block b with Err _ => _ | r => r end) as [cp| | |]; cbn [try_with fst]; [|done..].
  destruct (checkpoint_is_expired clock cp) as [[]| | |] eqn:E; cbn [try_with fst]; try done; by intros [= <-].
Qed.

Notation syndicate_to_ipfs := (syndicate_to_ipfs (Url := Url) supported_keys fuel walk_fuel history_fuel body_fuel clock net).
Notation read_checkpoint := (read_checkpoint body_fuel clock net).

Lemma content_require db x slug cid : holds db x -> (v_content (ver_value x)).1 !! slug = Some cid ->
  (let? content := get_content db (ver_cid x) in (vm_require content slug).1) = Ok cid.
Proof.
  intros Hx Hc. destruct (content_lookup db x slug Hx) as (links & -> & E). cbn [outcome_bind]. unfold vm_require.
  destruct (vm_get links slug) as [r vm]. cbn in E. rewrite E, Hc. done.
Qed.

(** Nothing is sent when the version is the one of the checkpoint. *)
Lemma syndicate_nothing rng ctx (ipfs : I) record x (counterpart kubo : string) revision epoch :
  at_version ctx x -> server_identity (Cid := Cid) ipfs = Ok kubo -> serves (ctx_db ctx) counterpart ->
  (v_content (ver_value x)).1 !! counterpart = Some revision -> read_checkpoint ctx kubo = (Ok (mkCheckpoint (Some revision) epoch), ctx) ->
  syndicate_to_ipfs rng ctx ipfs record = (Ok None, (ctx, ipfs)).
Proof.
  intros Hat Hid Hcp Hc Hrd. unfold syndicate_to_ipfs. rewrite Hid. cbn [try_with]. change (context_db ctx) with (ctx_db ctx). rewrite Hcp.
  cbn [try_with]. change (SphereContext.version ctx) with (context_version ctx).
  rewrite (at_version_context _ _ Hat). cbn [outcome_bind]. rewrite (content_require _ _ _ _ (proj2 Hat) Hc). cbn [try_with].
  rewrite Hrd. cbn [try_with last_syndicated_counterpart_version]. by rewrite bool_decide_eq_true_2.
Qed.

(** The checkpoints that a syndication of [vs] can leave fit in a file. *)
Definition checkpoints_fit (checkpoint : SyndicationCheckpoint Cid) (vs : list Cid) : Prop := forall revision b,
  revision = last_syndicated_counterpart_version checkpoint \/ (exists cid, cid ∈ vs /\ revision = Some cid) ->
  block_of (mkCheckpoint revision (syndication_epoch checkpoint)) = Ok b -> b <> [] /\ length b <= body_fuel.

Lemma advanced_fits checkpoint db ipfs vs taken ipfs' : checkpoints_fit checkpoint vs -> offered db ipfs vs taken ipfs' ->
  exists b, block_of (advanced checkpoint taken) = Ok b /\ b <> [] /\ length b <= body_fuel.
Proof.
  intros Hfit Ho. destruct (block_total (Cid := Cid) (advanced checkpoint taken)) as [b Eb]. exists b. split; [done|].
  refine (Hfit _ b _ Eb).
  destruct (last taken) as [cid|] eqn:El; [|by left]. right. exists cid. split; [|done].
  eapply elem_of_sublist; [|exact (offered_sublist _ _ _ _ _ Ho)]. apply last_Some_elem_of. exact El.
Qed.

Lemma syndicate_spec rng ctx (ipfs : I) record x did (counterpart kubo : string) revision checkpoint vs :
  ready ctx x did -> writable ctx -> has_unsaved_changes ctx = false -> (lamport_order (ver_memo x) + 1 < 2 ^ 32)%N ->
  server_identity (Cid := Cid) ipfs = Ok kubo -> serves (ctx_db ctx) counterpart ->
  (v_content (ver_value x)).1 !! counterpart = Some revision -> read_checkpoint ctx kubo = (Ok checkpoint, ctx) ->
  last_syndicated_counterpart_version checkpoint <> Some revision ->
  to_chronological history_fuel (ctx_db ctx) (exclude_past (slice revision (last_syndicated_counterpart_version checkpoint))) = Ok vs ->
  Forall (streams (ctx_db ctx)) vs -> P (checkpoint_key kubo) -> replaceable (ctx_db ctx) x (checkpoint_key kubo) ->
  checkpoints_fit checkpoint vs ->
  exists y ctx' ipfs' taken b, syndicate_to_ipfs rng ctx ipfs record = (Ok (NameSystemPublish (ctx_identity ctx) <$> record), (ctx', ipfs')) /\
    offered (ctx_db ctx) ipfs vs taken ipfs' /\ block_of (advanced checkpoint taken) = Ok b /\
    kept ctx ctx' x y did (checkpoint_key kubo) "application/cbor" b /\
    read_checkpoint ctx' kubo = (Ok (advanced checkpoint taken), ctx').
Proof.
  intros Hr Hw Hun Hlam Hid Hcp Hc Hrd Hne Hvs Hst HPk Hrep Hfit. pose proof Hr as [Hat _ _ _ _ _]. unfold syndicate_to_ipfs.
  rewrite Hid. cbn [try_with]. change (context_db ctx) with (ctx_db ctx). rewrite Hcp. cbn [try_with].
  change (SphereContext.version ctx) with (context_version ctx).
  rewrite (at_version_context _ _ Hat). cbn [outcome_bind]. rewrite (content_require _ _ _ _ (proj2 Hat) Hc). cbn [try_with].
  pose proof (read_checkpoint_fresh ctx kubo checkpoint (f_equal fst Hrd)) as Hfresh.
  rewrite Hrd. cbn [try_with].
  rewrite bool_decide_eq_false_2 by congruence. change (context_db ctx) with (ctx_db ctx). rewrite Hvs. cbn [try_with]. destruct (syndicate_revisions_spec _ _ checkpoint ipfs Hst) as (taken & ipfs' & -> & Ho). cbn [try_with].
  destruct (advanced_fits _ _ _ _ _ _ Hfit Ho) as (b & Hb & Hb0 & Hbf). unfold block_serialize. rewrite Hb. cbn [outcome_bind try_with].
  destruct (file_kept rng ctx x did (checkpoint_key kubo) "application/cbor" b) as (cid & cursor & y & ctx' & E & Es & Hk); try done.
  change (ContentType.deref ContentType.Cbor) with "application/cbor". rewrite E. cbn [try_with]. rewrite Es. cbn [try_with].
  exists y, ctx', ipfs', taken, b. split; [done|]. split; [done|]. split; [done|]. split; [done|]. destruct (kept_file _ _ _ _ _ _ _ _ Hk) as (file & bs & Er & Hct & Hfc & Hj).
  unfold read_checkpoint. unfold plain in Er |- *. cbn [has_context context_has_mutable_context] in Er |- *. rewrite Er. cbn [try_with].
  unfold content_type. fold CONTENT_TYPE. rewrite Hct. change (ContentType.from_str <$> _) with (Some ContentType.Cbor).
  cbn match. rewrite Hfc. cbn [read_contents outcome_bind try_with]. rewrite Hj, (block_roundtrip (Cid := Cid) _ _ Hb). cbn [try_with].
  unfold checkpoint_is_expired, lifetime in Hfresh |- *. cbn [syndication_epoch advanced]. by rewrite Hfresh.
Qed.

(** The versions [vs] of the counterpart, from [v] on, that are still to be syndicated. *)
Definition unsyndicated (checkpoint : SyndicationCheckpoint Cid) (v : version) l (vs : list version) : Prop :=
  (last_syndicated_counterpart_version checkpoint = Some (ver_cid v) /\ l <> [] /\ ver_cid v ∉ cids l /\ vs = l.*2) \/
  (last_syndicated_counterpart_version checkpoint = None /\ parent (ver_memo v) = None /\ vs = v :: l.*2).

Lemma cids_snd l : cids l = ver_cid <$> l.*2.
Proof. unfold cids. by rewrite <- list_fmap_compose. Qed.

Lemma tip_cid v l : l <> [] -> ver_cid (tip v l) ∈ cids l.
Proof.
  intros Hne. destruct l as [|[m y] l] using rev_ind; [done|]. rewrite tip_app. unfold cids. rewrite fmap_app. apply elem_of_app. right. left.
Qed.

Lemma unsyndicated_timeline A db checkpoint v l vs : lineage A db v l -> unsyndicated checkpoint v l vs -> length vs <= history_fuel ->
  last_syndicated_counterpart_version checkpoint <> Some (ver_cid (tip v l)) /\
  to_chronological history_fuel db (exclude_past (slice (ver_cid (tip v l)) (last_syndicated_counterpart_version checkpoint))) = Ok (ver_cid <$> vs).
Proof.
  intros Hl [(E & Hne & Hv & ->)|(E & Hp & ->)] Hf; rewrite E.
  - rewrite length_fmap in Hf. split.
    + intros [= Heq]. apply Hv. rewrite Heq. by apply tip_cid.
    + rewrite <- cids_snd. exact (lineage_chronological A db v l history_fuel Hl Hv Hne Hf).
  - cbn in Hf. rewrite length_fmap in Hf. split; [done|]. rewrite fmap_cons, <- cids_snd. apply (chronological_all A); [done|lia|done].
Qed.
End job_facts.
