(* ===== verification/SphereFixtures.v ===== *)
(** * Concrete parameters for spheres

    Keys, codecs and letter case for the runs of the theorems about memos,
    versioned maps and spheres, on the CIDs of [Instances] and the keys of
    [UcanInstances].

    A small sphere over the concrete parameters below, in any store
    of blocks: its first version, versions made from it, and the encodings that
    the components around a sphere need. *)
From stdpp Require Import base gmap list numbers strings countable pretty.
From Stdlib Require Import Ascii String.
From S2P Require Import Prelude Bitfield BlockStore HamtNode HamtRep Hamt HamtSpec BTree Instances VersionedMap.
From S2P Require Import UcanCapability Ucan UcanProofs UcanInstances Authority Memo Sphere SphereProofs SphereDb.
From S2P Require Import BodyChunk UcanChain SphereHistory SphereRebase.
#[local] Open Scope list_scope.
#[local] Notation length := List.length (only parsing).

#[export] Instance toy_unicode : Unicode := lower_string.
#[export] Instance toy_unicode_laws : UnicodeLaws.
Proof. by intros s. Qed.

(** ** Keys of maps *)

(** The first 32 bytes of a string, padded with zeros. *)
Definition toy_string_hash (s : string) : list N := take 32 (as_bytes s ++ replicate 32 0%N).

#[export] Instance toy_hash_string : HashAlgorithm string := toy_string_hash.
#[export] Instance toy_hash_string_laws : HashAlgorithmLaws string.
Proof.
  split. intros s. unfold hamt_hash, toy_hash_string, toy_string_hash. split.
  - rewrite length_take, length_app, length_replicate. lia.
  - apply Forall_take, Forall_app. split; [|by apply Forall_replicate].
    induction s as [|a s IH]; constructor; [apply N_ascii_bounded|done].
Qed.

#[export] Instance toy_hash_cid : HashAlgorithm ToyCid := fun c => toy_hash (Npos (encode c)).
#[export] Instance toy_hash_cid_laws : HashAlgorithmLaws ToyCid.
Proof. split. intros c. apply (hamt_hash_wf (K := N)). Qed.

#[export] Instance toy_order_cid : KeyOrder ToyCid := fun a b => (encode a <? encode b)%positive.
#[export] Instance toy_order_cid_laws : KeyOrderLaws ToyCid.
Proof.
  split; unfold key_ltb, toy_order_cid.
  - intros k. apply Pos.ltb_irrefl.
  - intros a b c. rewrite !Pos.ltb_lt. lia.
  - intros a b. rewrite !Pos.ltb_ge. intros Hab Hba. apply (inj encode). lia.
Qed.

(** ** Blocks *)
#[export] Instance MapOperation_countable {K V} `{Countable K} `{Countable V} : Countable (MapOperation K V).
Proof.
  refine (inj_countable'
    (fun op => match op with Add k v => inl (k, v) | Remove k => inr k end)
    (fun x => match x with inl (k, v) => Add k v | inr k => Remove k end) _).
  by intros [].
Defined.

#[export] Instance ChangelogIpld_countable {Op} `{Countable Op} : Countable (ChangelogIpld Op).
Proof. refine (inj_countable' (fun l => (log_did l, log_changes l)) (fun p => mkChangelog p.1 p.2) _). by intros []. Defined.

#[export] Instance VersionedMapIpld_eq_dec {Cid} `{EqDecision Cid} : EqDecision (VersionedMapIpld Cid).
Proof. solve_decision. Defined.
#[export] Instance VersionedMapIpld_countable {Cid} `{Countable Cid} : Countable (VersionedMapIpld Cid).
Proof. refine (inj_countable' (fun l => (map_hamt l, map_changelog l)) (fun p => mkMapIpld p.1 p.2) _). by intros []. Defined.

#[export] Instance IdentityIpld_countable {Cid} `{Countable Cid} : Countable (IdentityIpld Cid).
Proof. refine (inj_countable' (fun l => (peer_did l, peer_link_record l)) (fun p => mkIdentity p.1 p.2) _). by intros []. Defined.

#[export] Instance DelegationIpld_countable {Cid} `{Countable Cid} : Countable (DelegationIpld Cid).
Proof. refine (inj_countable' (fun l => (delegation_name l, delegation_jwt l)) (fun p => mkDelegation p.1 p.2) _). by intros []. Defined.

#[export] Instance RevocationIpld_countable : Countable RevocationIpld.
Proof.
  refine (inj_countable' (fun l => (rev_iss l, rev_revoke l, rev_challenge l)) (fun p => mkRevocation p.1.1 p.1.2 p.2) _).
  by intros [].
Defined.

#[export] Instance AddressBookIpld_eq_dec {Cid} `{EqDecision Cid} : EqDecision (AddressBookIpld Cid).
Proof. solve_decision. Defined.
#[export] Instance AddressBookIpld_countable {Cid} `{Countable Cid} : Countable (AddressBookIpld Cid).
Proof. refine (inj_countable' identities mkAddressBook _). by intros []. Defined.

#[export] Instance AuthorityIpld_eq_dec {Cid} `{EqDecision Cid} : EqDecision (AuthorityIpld Cid).
Proof. solve_decision. Defined.
#[export] Instance AuthorityIpld_countable {Cid} `{Countable Cid} : Countable (AuthorityIpld Cid).
Proof. refine (inj_countable' (fun l => (delegations l, revocations l)) (fun p => mkAuthorityIpld p.1 p.2) _). by intros []. Defined.

#[export] Instance SphereIpld_eq_dec {Cid} `{EqDecision Cid} : EqDecision (SphereIpld Cid).
Proof. solve_decision. Defined.
#[export] Instance SphereIpld_countable {Cid} `{Countable Cid} : Countable (SphereIpld Cid).
Proof.
  refine (inj_countable' (fun l => (identity l, content l, address_book l, authority l, private l))
    (fun p => mkSphereIpld p.1.1.1.1 p.1.1.1.2 p.1.1.2 p.1.2 p.2) _).
  by intros [].
Defined.

#[export] Instance MemoIpld_eq_dec {Cid} `{EqDecision Cid} : EqDecision (MemoIpld Cid).
Proof. solve_decision. Defined.
#[export] Instance MemoIpld_countable {Cid} `{Countable Cid} : Countable (MemoIpld Cid).
Proof. refine (inj_countable' (fun l => (parent l, headers l, body l)) (fun p => mkMemo p.1.1 p.1.2 p.2) _). by intros []. Defined.

#[export] Instance toy_sphere_codecs : SphereCodecs ToyCid := {}.
#[export] Instance toy_sphere_codecs_laws : SphereCodecsLaws ToyCid.
Proof. split; apply toy_codec_laws. Qed.

(** ** DAG-JSON of payloads *)
Fixpoint value_to_tree (v : Value) : gen_tree (bool + Z + string) :=
  match v with
  | VNull => GenNode 0 []
  | VBool b => GenLeaf (inl (inl b))
  | VNumber n => GenLeaf (inl (inr n))
  | VString s => GenLeaf (inr s)
  | VArray vs => GenNode 1 (map value_to_tree vs)
  | VObject obj => GenNode 2 (map (fun kv => GenNode 0 [GenLeaf (inr kv.1); value_to_tree kv.2]) obj)
  end.

Fixpoint tree_to_value (t : gen_tree (bool + Z + string)) : Value :=
  match t with
  | GenLeaf (inl (inl b)) => VBool b
  | GenLeaf (inl (inr n)) => VNumber n
  | GenLeaf (inr s) => VString s
  | GenNode 1 ts => VArray (map tree_to_value ts)
  | GenNode 2 ts =>
      VObject (map (fun t => match t with
                             | GenNode _ [GenLeaf (inr k); t'] => (k, tree_to_value t')
                             | _ => (EmptyString, VNull)
                             end) ts)
  | _ => VNull
  end.

Lemma tree_of_value v : tree_to_value (value_to_tree v) = v.
Proof.
  revert v. fix IH 1. intros [|b|n|s|vs|obj]; cbn; [done..| |]; f_equal.
  - induction vs as [|v vs IHvs]; [done|]. cbn. by rewrite IH, IHvs.
  - induction obj as [|[k v] obj IHo]; [done|]. cbn. by rewrite IH, IHo.
Qed.

#[export] Instance Value_countable : Countable Value := inj_countable' value_to_tree tree_to_value tree_of_value.

#[export] Instance Capabilities_countable : Countable Capabilities.
Proof. refine (inj_countable' capabilities_map mkCapabilities _). by intros []. Defined.

#[export] Instance UcanPayload_countable : Countable UcanPayload.
Proof.
  refine (inj_countable' (fun p => (ucv p, iss p, aud p, exp p, nbf p, nnc p, cap p, fct p, prf p))
    (fun '(a, b, c, d, e, f, g, h, i) => mkPayload a b c d e f g h i) _).
  by intros [].
Defined.

#[export] Instance countable_payload_json : DagJson UcanPayload := {
  to_dag_json := toy_block_of;
  from_dag_json := toy_of_block;
}.
#[export] Instance countable_payload_json_laws : DagJsonLaws UcanPayload.
Proof. intros x b E. cbn in *. injection E as <-. unfold toy_of_block. by rewrite decode_encode. Qed.

(** ** Fixtures for runs *)
Section sphere_fixtures.
Context {S : Type} `{!BlockStore S ToyCid} `{!BlockStoreLaws S ToyCid}.
Notation toy_version := (version (Cid := ToyCid)).
Notation toy_mutation := (SphereMutation ToyCid).
Notation toy_sign := (can_sign (Url := ToyUrl) (Key := N) (Cid := ToyCid) (S := S)).
#[local] Existing Instance block_ucan_store.

Definition toy_slugs (k : string) : Prop := k ∈ ["foo"; "bar"].
Definition toy_jwts (c : ToyCid) : Prop := False.

Lemma toy_slugs_free : collision_free toy_slugs.
Proof. apply collision_free_list. apply (bool_decide_unpack _). vm_compute. exact I. Qed.

Lemma toy_jwts_free : collision_free toy_jwts.
Proof. by intros ? ? []. Qed.

Lemma toy_can_sign s clock k : toy_sign s clock k None (toy_did k).
Proof. split; [done|]. split; [|done]. intros b. by eexists. Qed.

(** Set one slug. *)
Definition toy_link (n : N) : ToyCid := (DAG_CBOR, [n]).
Definition set_slug (author : N) (slug : string) (n : N) : toy_mutation :=
  let did := toy_did author in
  mkSphereMutation did (mutation_set (map_mutation_new did) slug (toy_link n)) (map_mutation_new did) (map_mutation_new did)
    (map_mutation_new did).

Lemma set_slug_in author slug n : toy_slugs slug -> mutation_in toy_slugs toy_jwts (set_slug author slug n).
Proof. intros Hs. by split; [constructor|split; [|split]]; [|constructor..]. Qed.

Lemma set_slug_by author slug n : mutation_by (set_slug author slug n) (toy_did author).
Proof. done. Qed.

(** A sphere of the key 1 without any content. *)
Lemma toy_genesis (s0 : S) : exists (s : S) (x : toy_version), holds s x /\ ver_value x = empty_value /\
  lamport_order (ver_memo x) = 0%N /\ identity (ver_ipld x) = toy_did 1 /\ get_header (ver_memo x) CONTENT_TYPE = ["noo/sphere"] /\
  parent (ver_memo x) = None.
Proof.
  destruct (sphere_ipld_new_spec (Cid := ToyCid) (toy_did 1) s0) as (ipld & s1 & _ & _ & Hv & Hid & _).
  destruct (save_spec (Cid := ToyCid) s1 ipld) as (cb & s2 & _ & Hle2 & Hb).
  destruct (save_spec (Cid := ToyCid) s2 (mkMemo None [("Content-Type", "noo/sphere")] cb)) as (c & s3 & _ & Hle3 & Hm).
  exists s3, (mkVersion c (mkMemo None [("Content-Type", "noo/sphere")] cb) ipld empty_value).
  split; [|by split_and!].
  split; [exact Hm|]. split; [exact (stored_mono _ _ _ _ Hle3 Hb)|]. eapply body_at_mono; [|exact Hv]. by transitivity s2.
Qed.

Lemma empty_value_in : value_in toy_slugs toy_jwts empty_value.
Proof. split; [|split; [|split]]; cbn; intros k; rewrite dom_empty_L; by intros ?%elem_of_empty. Qed.

(** One more version on top of a lineage. *)
Lemma toy_extend (s : S) (x : toy_version) author slug n :
  holds s x -> value_in toy_slugs toy_jwts (ver_value x) -> toy_slugs slug -> (lamport_order (ver_memo x) < 1000)%N ->
  exists y s', store_le s s' /\ succeeds (eq (toy_did author)) s' x (set_slug author slug n) y.
Proof.
  intros Hx Hv Hs Hl.
  destruct (commit_spec (Url := ToyUrl) toy_slugs toy_jwts toy_slugs_free toy_jwts_free s x (set_slug author slug n) [] 10 author None
    (toy_did author) Hx Hv (set_slug_in _ _ _ Hs) (set_slug_by _ _ _)) as (rev & s1 & y & rev' & s' & _ & _ & Hle & Hy).
  - lia.
  - apply toy_can_sign.
  - by exists y, s'.
Qed.

Lemma succeeds_in (A : string -> Prop) (s : S) (x y : toy_version) m :
  succeeds A s x m y -> value_in toy_slugs toy_jwts (ver_value x) -> mutation_in toy_slugs toy_jwts m ->
  value_in toy_slugs toy_jwts (ver_value y).
Proof. intros (_ & _ & -> & _) Hv Hm. by apply apply_value_in. Qed.

(** Versions of different order have different CIDs. *)
Lemma lamport_cid (s : S) (x y : toy_version) :
  holds s x -> holds s y -> lamport_order (ver_memo x) <> lamport_order (ver_memo y) -> ver_cid x <> ver_cid y.
Proof.
  intros (Hx & _) (Hy & _) Hne E. apply stored_load in Hx, Hy. rewrite E in Hx. congruence.
Qed.

Lemma succeeds_cid (A : string -> Prop) (s : S) (x y : toy_version) m : holds s x -> succeeds A s x m y -> ver_cid x ∉ cids [(m, y)].
Proof.
  intros Hx Hs. unfold cids. cbn. rewrite list_elem_of_singleton. destruct Hs as (Hy & _ & _ & _ & _ & Hl & _).
  eapply lamport_cid; [done|done|]. rewrite Hl. lia.
Qed.

Lemma succeeds_weaken (A B : string -> Prop) (s : S) (x y : toy_version) m :
  (forall a, A a -> B a) -> succeeds A s x m y -> succeeds B s x m y.
Proof. intros HAB (? & ? & ? & ? & ? & ? & ? & a & Ha & ?). split_and!; try done. exists a. auto. Qed.

(** The first version of a sphere, one by the key 2 that sets a slug, and two
    versions made from it: the key 3 changes the slug, the key 2 sets another. *)
Lemma toy_fork (s : S) : exists (s : S) (x y y2 y3 : toy_version), holds s x /\ ver_value x = empty_value /\
  lamport_order (ver_memo x) = 0%N /\ succeeds (eq (toy_did 2)) s x (set_slug 2 "foo" 1) y /\
  succeeds (eq (toy_did 3)) s y (set_slug 3 "foo" 2) y2 /\ succeeds (eq (toy_did 2)) s y (set_slug 2 "bar" 3) y3.
Proof.
  destruct (toy_genesis s) as (s0 & x & Hx & Ev & El & _). assert (value_in toy_slugs toy_jwts (ver_value x)) as Hv
    by (rewrite Ev; apply empty_value_in).
  assert (toy_slugs "foo") as Hfoo by constructor. assert (toy_slugs "bar") as Hbar by (right; left).
  destruct (toy_extend s0 x 2 "foo" 1 Hx Hv Hfoo) as (y & s1 & Hle1 & Hy); [lia|].
  assert (value_in toy_slugs toy_jwts (ver_value y)) as Hvy by (eapply succeeds_in; [done|done|by apply set_slug_in]).
  pose proof Hy as (Hyh & _ & _ & _ & _ & Hly & _).
  destruct (toy_extend s1 y 3 "foo" 2 Hyh Hvy Hfoo) as (y2 & s2 & Hle2 & Hy2); [lia|].
  destruct (toy_extend s2 y 2 "bar" 3 (holds_mono _ _ _ Hle2 Hyh) Hvy Hbar) as (y3 & s3 & Hle3 & Hy3); [lia|].
  assert (store_le s1 s3) as Hle13 by by transitivity s2. assert (store_le s0 s3) as Hle03 by by transitivity s1.
  exists s3, x, y, y2, y3. split; [exact (holds_mono _ _ _ Hle03 Hx)|]. split; [done|]. split; [done|].
  split; [exact (succeeds_mono _ _ _ _ _ _ Hle13 Hy)|]. split; [exact (succeeds_mono _ _ _ _ _ _ Hle3 Hy2)|exact Hy3].
Qed.

Lemma toy_fork_in (s : S) (x y : toy_version) : ver_value x = empty_value ->
  succeeds (eq (toy_did 2)) s x (set_slug 2 "foo" 1) y ->
  value_in toy_slugs toy_jwts (ver_value x) /\ value_in toy_slugs toy_jwts (ver_value y).
Proof.
  intros Ev Hy. assert (value_in toy_slugs toy_jwts (ver_value x)) as Hv by (rewrite Ev; apply empty_value_in).
  split; [done|]. eapply succeeds_in; [done|done|]. apply set_slug_in. constructor.
Qed.

Lemma toy_lineage (A : string -> Prop) (s : S) (x y : toy_version) m : holds s x -> succeeds A s x m y -> lineage A s x [(m, y)].
Proof. intros Hx Hs. constructor; [done|done|]. constructor. apply Hs. Qed.

End sphere_fixtures.
