(* ===== verification/SphereTheorems.v ===== *)
(** * The properties of memos, versioned maps and spheres *)
From stdpp Require Import base gmap list numbers strings pretty.
From Stdlib Require Import Ascii String.
From S2P Require Import Prelude BlockStore HamtNode HamtRep Hamt HamtSpec BTree VersionedMap.
From S2P Require Import UcanCapability Ucan UcanChain UcanProofs Authority Memo.
From S2P Require Import Sphere SphereProofs SphereHistory SphereRebase.
From S2P Require Import Instances UcanInstances SphereFixtures.
#[local] Open Scope list_scope.
#[local] Notation length := List.length (only parsing).

(** ** Versioned maps *)
Section map_theorems.
Context {K V Cid S : Type}.
Context `{Countable K} `{EqDecision V} `{KeyOrderLaws K} `{HashAlgorithmLaws K}.
Context `{CidLaws Cid} `{EqDecision Cid} `{!BlockStore S Cid} `{!BlockStoreLaws S Cid}.
Context `{!BlockCodec (wire_node K V Cid)} `{!BlockCodecLaws Cid (wire_node K V Cid)} `{!BlockCodec (VersionedMapIpld Cid)} `{!BlockCodecLaws Cid (VersionedMapIpld Cid)}.
Context `{!BlockCodec (ChangelogIpld (MapOperation K V))} `{!BlockCodecLaws Cid (ChangelogIpld (MapOperation K V))}.

(** Applying a mutation to a version of a map makes a version that reads as
    the old entries with the changes replayed in order, whose changelog is exactly
    the mutation under its author, and leaves the old version readable as before. *)
Theorem map_mutation_replays (s : S) (c : Cid) (m : gmap K V) log (mutation : VersionedMapMutation K V) :
  map_at s c m log -> changes_collision_free m (mutation_changes mutation) ->
  exists c' s', apply_with_cid (Some c) mutation s = (Ok c', s') /\
    (forall k, (vm_get (vm_at c' s') k).1 = Ok (apply_ops m (mutation_changes mutation) !! k)) /\
    (get_changelog (vm_at c' s')).1 = Ok (mkChangelog (Some (mutation_did mutation)) (mutation_changes mutation)) /\
    (forall k, (vm_get (vm_at c s') k).1 = Ok (m !! k)).
Proof.
  intros Hm Hcf. destruct (apply_with_cid_spec s c m log mutation Hm Hcf) as (c' & s' & E & Hle & Hat).
  exists c', s'. split; [done|]. split; [|split].
  - intros k. by destruct (vm_get_spec _ _ _ _ k (view_at _ _ _ _ Hat)) as (vm & -> & _).
  - by destruct (get_changelog_spec _ _ _ _ (view_at _ _ _ _ Hat)) as (vm & -> & _).
  - intros k. by destruct (vm_get_spec _ _ _ _ k (view_at _ _ _ _ (map_at_mono _ _ _ _ _ Hle Hm))) as (vm & -> & _).
Qed.

(** The CID of a version depends only on its entries and on the mutation
    that made it: two stores that agree on the entries of a version reach the
    same CID by the same mutation, whatever led to those entries. *)
Theorem map_mutation_deterministic (s1 s2 : S) (c1 c2 : Cid) (m : gmap K V) log1 log2 (mutation : VersionedMapMutation K V) :
  map_at s1 c1 m log1 -> map_at s2 c2 m log2 -> changes_collision_free m (mutation_changes mutation) ->
  exists c s1' s2', apply_with_cid (Some c1) mutation s1 = (Ok c, s1') /\ apply_with_cid (Some c2) mutation s2 = (Ok c, s2').
Proof.
  intros H1' H2' Hcf. destruct (apply_with_cid_spec s1 c1 m log1 mutation H1' Hcf) as (d1 & s1' & E1 & _ & A1).
  destruct (apply_with_cid_spec s2 c2 m log2 mutation H2' Hcf) as (d2 & s2' & E2 & _ & A2).
  exists d1, s1', s2'. split; [done|]. by rewrite (map_at_cid _ _ _ _ _ _ A1 A2).
Qed.

(** Appending changes to a compacted list keeps at most one change per key
    and does to any map what the two lists do one after the other. *)
Theorem append_changes_compacts (m : gmap K V) (destination source : list (MapOperation K V)) :
  apply_ops m (append_changes destination source) = apply_ops (apply_ops m destination) source /\
  NoDup (change_key <$> append_changes [] source).
Proof. split; [apply append_changes_sound|]. apply append_changes_keys. constructor. Qed.
End map_theorems.

(** ** Memos and spheres *)
Section sphere_theorems.
Context {Key Url Cid S : Type} `{UnicodeLaws}.
Context `{KeyMaterial Key} `{Bs58} `{Base64} `{DagJson UcanHeader} `{DagJson UcanPayload} `{UrlOps Url}.
Context `{Countable Cid} `{HashAlgorithmLaws string} `{HashAlgorithmLaws Cid} `{KeyOrderLaws Cid}.
Context `{CidLaws Cid} `{!BlockStore S Cid} `{!BlockStoreLaws S Cid} `{!SphereCodecs Cid} `{!SphereCodecsLaws Cid}.
Notation version := (version (Cid := Cid)).
Notation SphereMutation := (SphereMutation Cid).
#[local] Existing Instance block_ucan_store.
Implicit Types (s : S) (x y : version) (m : SphereMutation).

(** The memo that branches from a stored one points to it, has the next
    order number, no signature and no proof, and every other header, under any
    spelling of its name, as it was; at the largest order number the increment
    overflows. *)
Theorem branch_succeeds_parent s (c : Cid) memo :
  load s c = Ok memo ->
  (lamport_order memo = 2 ^ 32 - 1 /\ branch_from c s = Panic "attempt to add with overflow")%N \/
  exists memo', branch_from c s = Ok memo' /\ parent memo' = Some c /\ body memo' = body memo /\
    lamport_order memo' = (lamport_order memo + 1)%N /\
    forall name, get_header memo' name =
      (if same_name name "lamport-order" then [pretty (lamport_order memo + 1)%N]
       else if same_name name "signature" || same_name name "proof" then []
       else get_header memo name).
Proof.
  intros El. pose proof (lamport_order_bound memo) as Hb.
  destruct (decide (lamport_order memo = 2 ^ 32 - 1)%N) as [E|E].
  { left. split; [done|]. by apply (branch_from_overflow s c memo). }
  right. destruct (branch_from_spec s c memo El) as (memo' & Ebr & Hp & Hbody & Hl & Hh); [lia|].
  exists memo'. split_and!; try done. intros name. rewrite !get_header_values, Hh. unfold branched_values.
  assert (forall a b, is_ascii a = true -> is_ascii b = true -> lower_string a = lower_string b ->
    same_name name a = same_name name b) as Hsame.
  { intros a b Ha Hb' E'. unfold same_name. rewrite (to_lowercase_ascii a Ha), (to_lowercase_ascii b Hb'), E'. done. }
  by rewrite (Hsame LAMPORT "lamport-order"), (Hsame SIGNATURE "signature"), (Hsame PROOF "proof").
Qed.

Context (P : string -> Prop) (Q : Cid -> Prop) (HP : collision_free P) (HQ : collision_free Q).
Notation value_in := (value_in P Q).
Notation mutation_in := (mutation_in P Q).

(** Applying a mutation to a sphere version and signing the revision stores
    a successor of it: a version whose maps are the old ones with the changes
    replayed, whose parent is the old version, with the next order number, the
    same identity and the signer as its author. *)
Theorem commit_makes_successor s x m rng clock (credential : Key) authorization did :
  holds s x -> value_in (ver_value x) -> mutation_in m -> mutation_by m did ->
  (lamport_order (ver_memo x) + 1 < 2 ^ 32)%N -> can_sign (Url := Url) s clock credential authorization did ->
  exists rev s1 y rev' s', apply_mutation_with_cid (ver_cid x) m s = (Ok rev, s1) /\
    revision_sign (Url := Url) rng clock rev credential authorization s1 = (Ok (ver_cid y), (rev', s')) /\
    store_le s s' /\ succeeds (eq did) s' x m y.
Proof. by apply (commit_spec P Q HP HQ). Qed.

(** C4: hydrating a version replays the changes derived from its changelogs on
    its parent and arrives at the CID of the body it has, so it succeeds on every
    version that was made by committing a mutation of its author. *)
Theorem hydrate_reproduces_version A s x m y :
  holds s x -> succeeds A s x m y -> value_in (ver_value x) -> mutation_in m ->
  (lamport_order (ver_memo x) + 1 < 2 ^ 32)%N ->
  exists s', hydrate_with_cid (ver_cid y) s = (Ok tt, s') /\ store_le s s'.
Proof.
  intros Hx (Hy & Hp & Ev & Hid & Hpr & _ & _ & author & _ & Hau & Hby) Hv Hm Hlam. unfold holds in Hy. rewrite Ev in Hy.
  eapply hydrate_spec; [exact Hx|exact Hy|done..|lia|]. by apply (in_collision_free P Q HP HQ).
Qed.

(** Deriving the mutation of a version gives, part by part, the mutation
    that made it or, where that changed nothing, no changes; replayed on the
    parent it gives the version. *)
Theorem derive_inverts_commit A s x m y :
  holds s x -> succeeds A s x m y ->
  exists m', derive_mutation s (ver_cid y) = Ok m' /\ derived_from (ver_value x) m m' /\
    apply_value m' (ver_value x) = ver_value y.
Proof.
  intros Hx (Hy & Hp & Ev & _ & _ & _ & _ & author & _ & Hau & Hby). unfold holds in Hy. rewrite Ev in Hy.
  destruct (derive_mutation_spec s _ _ _ _ _ _ _ m author Hx Hy Hp Hau Hby) as (m' & E & _ & _ & Hv & Hdf).
  exists m'. by rewrite Ev.
Qed.

(** C8: rebasing local versions [l2] that diverged from the received versions
    [l1] after [old] hydrates the received ones and replays the local changes, one
    version per local version and in the same order, on top of the last received
    version. *)
Theorem rebase_replays_changes fuel rng clock (credential : Key) authorization did s old l1 l2 :
  lineage (fun _ => True) s old l1 -> lineage (eq did) s old l2 -> l1 <> [] -> l2 <> [] ->
  ver_cid old ∉ cids l1 -> ver_cid old ∉ cids l2 -> value_in (ver_value old) ->
  Forall (fun my => mutation_in my.1) l1 -> Forall (fun my => mutation_in my.1) l2 ->
  (lamport_order (ver_memo old) + N.of_nat (length l1) + N.of_nat (length l2) < 2 ^ 32)%N ->
  length l1 <= fuel -> length l2 <= fuel -> can_sign (Url := Url) s clock credential authorization did ->
  exists l' s', rebase (Url := Url) fuel rng clock (ver_cid (tip old l2)) (ver_cid old) (ver_cid (tip old l1))
      credential authorization s = (Ok (ver_cid (tip (tip old l1) l')), s') /\
    store_le s s' /\ lineage (eq did) s' (tip old l1) l' /\ same_changes old l2 l'.
Proof. by apply (rebase_spec P Q HP HQ). Qed.

(** Compacting the versions from [y] to the last one replaces them by one
    version, made from the parent of [y] and signed by the author, that has the
    same content, identities, delegations and revocations as the last one. *)
Theorem compact_preserves_maps A fuel rng clock (author : Key) authorization did s x m y l :
  lineage A s x ((m, y) :: l) -> ver_cid y ∉ cids l -> value_in (ver_value x) ->
  Forall (fun my => mutation_in my.1) ((m, y) :: l) -> (lamport_order (ver_memo x) + 1 < 2 ^ 32)%N -> length l < fuel ->
  can_sign (Url := Url) s clock author authorization did ->
  exists mc z s', compact (Url := Url) fuel rng clock (ver_cid (tip y l)) (ver_cid y) author authorization s = (Ok (ver_cid z), s') /\
    store_le s s' /\ succeeds (eq did) s' x mc z /\ same_maps (ver_value z) (ver_value (tip y l)).
Proof. by apply (compact_spec P Q HP HQ). Qed.

(** Rebasing when there are no local versions, the current version being the
    old base itself, replays the change that made the old base on top of the
    received versions: a slug that the old base set has its old link again, even
    if the received versions changed it. *)
Theorem rebase_without_changes_reverts fuel rng clock (credential : Key) authorization did s x m old l1 k a :
  holds s x -> succeeds (eq did) s x m old -> lineage (fun _ => True) s old l1 -> l1 <> [] -> ver_cid old ∉ cids l1 ->
  value_in (ver_value x) -> mutation_in m -> Forall (fun my => mutation_in my.1) l1 ->
  (lamport_order (ver_memo old) + N.of_nat (length l1) + 1 < 2 ^ 32)%N -> length l1 <= fuel ->
  can_sign (Url := Url) s clock credential authorization did ->
  mutation_changes (content_mutation m) = [Add k a] -> (v_content (ver_value x)).1 !! k <> Some a ->
  exists z s', rebase (Url := Url) fuel rng clock (ver_cid old) (ver_cid old) (ver_cid (tip old l1))
      credential authorization s = (Ok (ver_cid z), s') /\
    holds s' z /\ parent (ver_memo z) = Some (ver_cid (tip old l1)) /\ (v_content (ver_value z)).1 !! k = Some a.
Proof.
  intros Hx Hs Hl1 Hn1 Hc1 Hv Hm Hm1 Hlam Hf Hsign Hmc Hk. pose proof Hs as ((Hmo & _) & _ & Evo & _).
  assert (value_in (ver_value old)) as Hvo by (rewrite Evo; by apply apply_value_in).
  unfold rebase, hydrate_timeslice. rewrite (lineage_chronological _ s old l1 fuel Hl1 Hc1 Hn1 Hf). cbn [try_with].
  destruct (hydrate_all_spec P Q HP HQ _ s old l1 Hl1 Hvo Hm1) as (s1 & E1 & Hle1); [lia|]. rewrite E1. cbn [try_with].
  assert (0 < fuel) as Hf0 by (destruct l1; [done|cbn in Hf; lia]).
  rewrite (to_chronological_spec s1 (exclude_past (slice (ver_cid old) (Some (ver_cid old)))) fuel _
    (stream_single s1 _ _ true fuel (stored_load _ _ _ (stored_mono _ _ _ _ Hle1 Hmo)) Hf0)). cbn [try_with].
  destruct (lineage_values P Q _ s old l1 Hl1 Hvo Hm1) as [Hv1 Hlam1].
  destruct (rebase_all_spec P Q HP HQ (Url := Url) rng clock credential authorization did s1 x [(m, old)] (tip old l1))
    as (l' & s2 & E2 & Hle2 & Hlin & Hsame).
  - constructor; [by eapply holds_mono|by eapply succeeds_mono|]. constructor. eapply holds_mono; [exact Hle1|]. by apply Hs.
  - eapply holds_mono; [exact Hle1|by eapply lineage_tip].
  - done.
  - by constructor.
  - rewrite Hlam1. cbn [length]. lia.
  - by eapply can_sign_mono.
  - inversion Hsame as [|? ? ? ? m' z l2 Hdf Hsame']; subst. inversion Hsame'; subst. cbn [tip] in E2.
    inversion Hlin as [|? ? ? ? _ (Hz & Hp & Ez & _) _]; subst. exists z, s2. split; [exact E2|]. split; [done|]. split; [done|].
    rewrite Ez. cbn. rewrite apply_part_fst. destruct Hdf as ([->|[_ Hno]] & _).
    + rewrite Hmc. cbn. apply lookup_insert_eq.
    + destruct Hk. rewrite <- Hno, apply_part_fst, Hmc. cbn. apply lookup_insert_eq.
Qed.

(** A walk through a history visits the versions from the newest: all of it
    without a past bound; from the future bound to the past bound, both included;
    or without the past bound when that is excluded and the bounds differ. *)
Theorem timeslice_walks_history s (c p : Cid) mp pre post fuel :
  history s c (pre ++ (p, mp) :: post) -> p ∉ pre.*1 -> pre <> [] -> length (pre ++ (p, mp) :: post) <= fuel ->
  timeslice_stream fuel s (slice c None) = (pre ++ (p, mp) :: post, Ok tt) /\
  timeslice_stream fuel s (include_past (slice c (Some p))) = (pre ++ [(p, mp)], Ok tt) /\
  timeslice_stream fuel s (exclude_past (slice c (Some p))) = (pre, Ok tt) /\
  to_chronological fuel s (exclude_past (slice c (Some p))) = Ok (reverse pre.*1).
Proof.
  intros Hh Hp Hne Hf. rewrite length_app in Hf. cbn in Hf. destruct (history_walk s c pre p mp post Hh Hp Hne) as [Hw Hl].
  assert (timeslice_stream fuel s (exclude_past (slice c (Some p))) = (pre, Ok tt)) as Ee
    by (apply stream_exclude; [done|lia]).
  split_and!; [|by apply stream_include; [..|lia]|done|by apply to_chronological_spec].
  apply stream_history; [done|]. rewrite length_app. cbn. lia.
Qed.

(** ** Signatures *)
Context (supported_keys : list (bytes * (bytes -> outcome Key))).
Notation ctors := (key_constructors (did_parser_new supported_keys)).

(** What [verify_signature] has read before it looks for a proof. *)
Lemma verify_signature_headers fuel clock s c memo ipld sig proof :
  stored s c memo -> stored s (body memo) ipld ->
  expect_header memo CONTENT_TYPE "noo/sphere" = Ok tt -> b64_decode (b64_encode sig) = Some sig ->
  values (headers memo) SIGNATURE = [b64_encode sig] -> values (headers memo) PROOF = proof ->
  verify_signature (Url := Url) supported_keys fuel clock s c =
    match head proof with
    | Some proof_header =>
        let? ucan := ucan_from_str proof_header in
        let '(r, did_parser) := did_parse (did_parser_new supported_keys) (audience ucan) in
        let? credential := r in
        let? _ := key_verify credential (cid_to_bytes (body memo)) sig in
        let? now_time := publish_time ucan in
        let? proof := (from_ucan (Url := Url) fuel clock now_time s ucan did_parser).1 in
        let? infos := reduce_capabilities (Url := Url) proof in
        if grants (Url := Url) (identity ipld) Push infos then Ok tt
        else Err "Proof did not enable signer to sign this sphere"
    | None =>
        let? credential := (did_parse (did_parser_new supported_keys) (identity ipld)).1 in
        key_verify credential (cid_to_bytes (body memo)) sig
    end.
Proof.
  intros Hm Hb Hct Hrt Hs Hp.
  unfold verify_signature, to_body, to_memo. rewrite (stored_load _ _ _ Hm). cbn [outcome_bind]. fold CONTENT_TYPE.
  change (ContentType.deref ContentType.Sphere) with "noo/sphere". rewrite Hct. cbn [outcome_bind].
  rewrite !get_header_values. fold SIGNATURE PROOF. rewrite Hs, Hp. cbn [head ok_or outcome_bind]. unfold base64_decode.
  rewrite Hrt. cbn [ok_or outcome_bind]. rewrite (stored_load _ _ _ Hb). done.
Qed.

Lemma signature_headers_ne : same_name SIGNATURE AUTHOR = false /\ same_name SIGNATURE PROOF = false /\
  same_name PROOF AUTHOR = false.
Proof. by rewrite !same_name_ascii. Qed.

(** The headers of a signed revision of a sphere. *)
Lemma signed_revision_headers (s : S) c memo ipld rev v (memo' : MemoIpld Cid) sig did jwts :
  revision_of s c memo ipld rev v -> "noo/sphere" ∈ get_header memo CONTENT_TYPE ->
  (forall n, values (headers memo') n = signed_values (revision_memo rev) sig did jwts n) ->
  expect_header memo' CONTENT_TYPE "noo/sphere" = Ok tt /\ values (headers memo') SIGNATURE = [sig] /\
  values (headers memo') PROOF = jwts.
Proof.
  intros (_ & _ & _ & Hh & _) Hct Hs. destruct content_type_kept as (K1 & K2 & K3 & K4), signature_headers_ne as (N1 & N2 & N3).
  split_and!.
  - apply expect_header_values. rewrite Hs. unfold signed_values. rewrite K1, K2, K3, Hh. unfold branched_values.
    by rewrite K2, K3, K4.
  - rewrite Hs. unfold signed_values. by rewrite N1, N2, same_name_refl.
  - rewrite Hs. unfold signed_values. by rewrite N3, same_name_refl.
Qed.

(** A revision of a sphere that the sphere's own key signs, without an
    authorization, passes [verify_signature]. *)
Theorem identity_signature_verifies `{!Base64Laws} s c memo ipld rev v rng clock (credential : Key) :
  revision_of s c memo ipld rev v -> "noo/sphere" ∈ get_header memo CONTENT_TYPE ->
  key_resolves ctors credential -> get_did credential = Ok (identity ipld) ->
  can_sign (Url := Url) s clock credential None (identity ipld) ->
  exists c' rev' s', revision_sign (Url := Url) rng clock rev credential None s = (Ok c', (rev', s')) /\
    forall fuel clock', verify_signature (Url := Url) supported_keys fuel clock' s' c' = Ok tt.
Proof.
  intros Hrev Hct (did & k' & Ed & Er & Hver) Hid Hsign.
  destruct (revision_sign_memo s rev rng clock credential None _ Hsign)
    as (c' & memo' & s' & sig & jwts & Es & Hle & Hst & _ & Hb' & Esig & Hh & ->).
  destruct (signed_revision_headers s c memo ipld rev v memo' _ _ _ Hrev Hct Hh) as (He & Hsg & Hpf).
  destruct Hrev as (_ & _ & _ & _ & ipld' & Hb & _ & Hi & _). rewrite <- Hb' in Hb.
  eexists c', _, s'. split; [exact Es|]. intros fuel clock'.
  rewrite (verify_signature_headers fuel clock' s' c' memo' ipld' sig [] Hst (stored_mono _ _ _ _ Hle Hb) He
    (b64_roundtrip sig) Hsg Hpf). cbn [head].
  assert (did = identity ipld') as -> by congruence.
  destruct (did_parse_spec (did_parser_new supported_keys) (identity ipld') (did_parser_new_ok _)) as (p' & -> & _).
  cbn [fst]. rewrite Er. cbn [outcome_bind]. by apply Hver.
Qed.

Lemma revision_proof_inv rng clock identity (credential : Key) witness u :
  revision_proof (Url := Url) (Cid := Cid) rng clock identity credential witness = Ok u ->
  signed_data_wf u /\ audience u = identity.
Proof.
  unfold revision_proof, witnessed_by. set (cap := capability_of_view _). destruct (ucan_to_cid witness); cbn -[sign cap];
    (destruct (clock + 120 <? 2 ^ 64)%N; [|done]); cbn -[sign cap]; intros Hs;
    by destruct (sign_inv _ _ _ Hs) as (? & _ & _ & _ & _ & ? & _).
Qed.

(** A revision that an author signs with an authorization never passes
    [verify_signature]: the proof is addressed to the sphere, so the signature of
    the author is checked against the key of the sphere, which rejects it. *)
Theorem delegated_signature_rejected `{!Base64Laws} `{!DagJsonLaws UcanHeader} `{!DagJsonLaws UcanPayload}
    s c memo ipld rev v rng clock (credential : Key) auth did sphere_key e :
  revision_of s c memo ipld rev v -> "noo/sphere" ∈ get_header memo CONTENT_TYPE ->
  resolve ctors (identity ipld) = Ok sphere_key ->
  (forall data sig, key_sign credential data = Ok sig -> key_verify sphere_key data sig = Err e) ->
  can_sign (Url := Url) s clock credential (Some auth) did ->
  exists c' rev' s', revision_sign (Url := Url) rng clock rev credential (Some auth) s = (Ok c', (rev', s')) /\
    forall fuel clock', verify_signature (Url := Url) supported_keys fuel clock' s' c' = Err e.
Proof.
  intros Hrev Hct Er Hrej Hsign.
  destruct (revision_sign_memo s rev rng clock credential (Some auth) did Hsign)
    as (c' & memo' & s' & sig & jwts & Es & Hle & Hst & _ & Hb' & Esig & Hh & w & u & jwt & _ & Ej & -> & Eu).
  destruct (signed_revision_headers s c memo ipld rev v memo' _ _ _ Hrev Hct Hh) as (He & Hsg & Hpf).
  destruct Hrev as (Hsi & _ & _ & _ & ipld' & Hb & _ & Hi & _). rewrite <- Hb' in Hb.
  eexists c', _, s'. split; [exact Es|]. intros fuel clock'.
  rewrite (verify_signature_headers fuel clock' s' c' memo' ipld' sig [jwt] Hst (stored_mono _ _ _ _ Hle Hb) He
    (b64_roundtrip sig) Hsg Hpf). cbn [head].
  destruct (revision_proof_inv _ _ _ _ _ _ Eu) as [Hwf Haud]. rewrite (ucan_encode_decode u jwt Hwf Ej). cbn [outcome_bind].
  rewrite Haud, Hsi.
  destruct (did_parse_spec (did_parser_new supported_keys) (identity ipld) (did_parser_new_ok _)) as (p' & -> & _).
  rewrite Er. cbn [outcome_bind]. by rewrite (Hrej _ _ Esig).
Qed.
End sphere_theorems.

(** ** Runs *)
Section map_runs.
#[local] Open Scope N_scope.
Notation toy_log := (ChangelogIpld (MapOperation N N)).

Definition toy_changes : list (MapOperation N N) := [Add 1 10; Add 257 20; Remove 1; Add 2 30].
Definition toy_map_mutation : VersionedMapMutation N N := mkMapMutation "did:author" toy_changes.

Lemma toy_empty_map : exists (s : MemoryStore) (c : ToyCid), map_at s c (∅ : gmap N N) (changelog_default : toy_log).
Proof. destruct (vm_empty_spec (K := N) (V := N) memory_store_empty) as (c & s & _ & _ & Hm). by exists s, c. Qed.

Lemma toy_changes_free : changes_collision_free (∅ : gmap N N) toy_changes.
Proof.
  intros k1 k2. rewrite dom_empty_L. intros [[]%elem_of_empty|Hk1] [[]%elem_of_empty|Hk2].
  revert k1 k2 Hk1 Hk2. apply collision_free_list. apply (bool_decide_unpack _). vm_compute. exact I.
Qed.

Lemma map_mutation_replays_witness :
  exists (s : MemoryStore) (c c' : ToyCid) s', apply_with_cid (Some c) toy_map_mutation s = (Ok c', s') /\
    (vm_get (vm_at c' s' : VersionedMap N N _ _) 1).1 = Ok None /\ (vm_get (vm_at c' s' : VersionedMap N N _ _) 257).1 = Ok (Some 20).
Proof.
  destruct toy_empty_map as (s & c & Hm). exists s, c.
  destruct (map_mutation_replays s c ∅ changelog_default toy_map_mutation Hm toy_changes_free) as (c' & s' & E & Hget & _).
  exists c', s'. split; [exact E|]. split; rewrite Hget; vm_compute; reflexivity.
Defined.

Lemma map_mutation_deterministic_witness :
  exists (s : MemoryStore) (c c' : ToyCid) s1 s2, apply_with_cid (Some c) toy_map_mutation s = (Ok c', s1) /\
    apply_with_cid (Some c) toy_map_mutation s = (Ok c', s2).
Proof.
  destruct toy_empty_map as (s & c & Hm). exists s, c.
  destruct (map_mutation_deterministic s s c c ∅ changelog_default changelog_default toy_map_mutation Hm Hm toy_changes_free)
    as (c' & s1 & s2 & E1 & E2). by exists c', s1, s2.
Defined.
End map_runs.

Section sphere_runs.
Notation toy_version := (version (Cid := ToyCid)).
Notation toy_mutation := (SphereMutation ToyCid).
Notation toy_sign := (can_sign (Url := ToyUrl) (Key := N) (Cid := ToyCid) (S := MemoryStore)).
#[local] Existing Instance block_ucan_store.

Lemma branch_succeeds_parent_witness :
  exists (s : MemoryStore) (c : ToyCid) memo', branch_from c s = Ok memo' /\ parent memo' = Some c /\ lamport_order memo' = 1%N.
Proof.
  destruct (toy_genesis memory_store_empty) as (s & x & (Hm & _) & _ & El & _). exists s, (ver_cid x).
  destruct (branch_succeeds_parent s (ver_cid x) (ver_memo x) (stored_load _ _ _ Hm)) as [[E _]|(memo' & E & Hp & _ & Hl & _)].
  - rewrite El in E. discriminate E.
  - exists memo'. rewrite Hl, El. split; [exact E|]. split; [exact Hp|reflexivity].
Defined.

Lemma commit_makes_successor_witness :
  exists (s s' : MemoryStore) (x y : toy_version), store_le s s' /\ succeeds (eq (toy_did 2)) s' x (set_slug 2 "foo" 1) y.
Proof.
  destruct (toy_genesis memory_store_empty) as (s & x & Hx & Ev & El & _).
  destruct (commit_makes_successor (Url := ToyUrl) toy_slugs toy_jwts toy_slugs_free toy_jwts_free s x (set_slug 2 "foo" 1) [] 10 2%N None
    (toy_did 2) Hx) as (rev & s1 & y & rev' & s' & _ & _ & Hle & Hy).
  - rewrite Ev. apply empty_value_in.
  - apply set_slug_in. constructor.
  - apply set_slug_by.
  - rewrite El. reflexivity.
  - apply toy_can_sign.
  - exists s, s', x, y. split; [exact Hle|exact Hy].
Defined.

Lemma hydrate_reproduces_version_witness :
  exists (s s' : MemoryStore) (y : toy_version), hydrate_with_cid (ver_cid y) s = (Ok tt, s').
Proof.
  destruct (toy_fork memory_store_empty) as (s & x & y & _ & _ & Hx & Ev & El & Hy & _).
  destruct (hydrate_reproduces_version toy_slugs toy_jwts toy_slugs_free toy_jwts_free _ s x _ y Hx Hy) as (s' & E & _).
  - rewrite Ev. apply empty_value_in.
  - apply set_slug_in. constructor.
  - rewrite El. reflexivity.
  - exists s, s', y. exact E.
Defined.

Lemma derive_inverts_commit_witness :
  exists (s : MemoryStore) (x y : toy_version) m', derive_mutation s (ver_cid y) = Ok m' /\
    apply_value m' (ver_value x) = ver_value y.
Proof.
  destruct (toy_fork memory_store_empty) as (s & x & y & _ & _ & Hx & _ & _ & Hy & _).
  destruct (derive_inverts_commit _ s x _ y Hx Hy) as (m' & E & _ & Hv). exists s, x, y, m'. split; [exact E|exact Hv].
Defined.

Lemma rebase_replays_changes_witness :
  exists (s s' : MemoryStore) (y y2 y3 z : toy_version),
    rebase (Url := ToyUrl) 1 (fun _ => []) 10 (ver_cid y3) (ver_cid y) (ver_cid y2) 2%N None s = (Ok (ver_cid z), s').
Proof.
  destruct (toy_fork memory_store_empty) as (s & x & y & y2 & y3 & Hx & Ev & El & Hy & Hy2 & Hy3).
  destruct (toy_fork_in s x y Ev Hy) as [_ Hvy]. pose proof Hy as (Hyh & _ & _ & _ & _ & Hly & _).
  destruct (rebase_replays_changes (Url := ToyUrl) toy_slugs toy_jwts toy_slugs_free toy_jwts_free 1 (fun _ => []) 10 2%N None (toy_did 2)
    s y [(set_slug 3 "foo" 2, y2)] [(set_slug 2 "bar" 3, y3)]) as (l' & s' & E & _).
  - apply toy_lineage; [exact Hyh|]. eapply succeeds_weaken; [|exact Hy2]. done.
  - apply toy_lineage; [exact Hyh|exact Hy3].
  - done.
  - done.
  - eapply succeeds_cid; [exact Hyh|exact Hy2].
  - eapply succeeds_cid; [exact Hyh|exact Hy3].
  - exact Hvy.
  - constructor; [|constructor]. apply set_slug_in. constructor.
  - constructor; [|constructor]. apply set_slug_in. right. left.
  - rewrite Hly, El. reflexivity.
  - cbn. lia.
  - cbn. lia.
  - apply toy_can_sign.
  - exists s, s', y, y2, y3, (tip y2 l'). exact E.
Defined.

Lemma compact_preserves_maps_witness :
  exists (s s' : MemoryStore) (x y y3 z : toy_version) mc,
    compact (Url := ToyUrl) 2 [] 10 (ver_cid y3) (ver_cid y) 2%N None s = (Ok (ver_cid z), s') /\
    succeeds (eq (toy_did 2)) s' x mc z /\ same_maps (ver_value z) (ver_value y3).
Proof.
  destruct (toy_fork memory_store_empty) as (s & x & y & y2 & y3 & Hx & Ev & El & Hy & Hy2 & Hy3).
  destruct (toy_fork_in s x y Ev Hy) as [Hvx _]. pose proof Hy as (Hyh & _ & _ & _ & _ & Hly & _).
  destruct (compact_preserves_maps (Url := ToyUrl) toy_slugs toy_jwts toy_slugs_free toy_jwts_free (eq (toy_did 2)) 2 [] 10 2%N None
    (toy_did 2) s x (set_slug 2 "foo" 1) y [(set_slug 2 "bar" 3, y3)]) as (mc & z & s' & E & _ & Hz & Hm).
  - constructor; [exact Hx|exact Hy|]. apply toy_lineage; [exact Hyh|exact Hy3].
  - eapply succeeds_cid; [exact Hyh|exact Hy3].
  - exact Hvx.
  - constructor; [|constructor; [|constructor]]; apply set_slug_in; [constructor|right; left].
  - rewrite El. reflexivity.
  - cbn. lia.
  - apply toy_can_sign.
  - exists s, s', x, y, y3, z, mc. split; [exact E|]. split; [exact Hz|exact Hm].
Defined.

Lemma rebase_without_changes_reverts_witness :
  exists (s s' : MemoryStore) (y y2 z : toy_version),
    (v_content (ver_value y2)).1 !! "foo" = Some (toy_link 2) /\
    rebase (Url := ToyUrl) 1 (fun _ => []) 10 (ver_cid y) (ver_cid y) (ver_cid y2) 2%N None s = (Ok (ver_cid z), s') /\
    parent (ver_memo z) = Some (ver_cid y2) /\ (v_content (ver_value z)).1 !! "foo" = Some (toy_link 1).
Proof.
  destruct (toy_fork memory_store_empty) as (s & x & y & y2 & y3 & Hx & Ev & El & Hy & Hy2 & Hy3).
  destruct (toy_fork_in s x y Ev Hy) as [Hvx Hvy]. pose proof Hy as (Hyh & _ & Eyv & _ & _ & Hly & _).
  destruct (rebase_without_changes_reverts (Url := ToyUrl) toy_slugs toy_jwts toy_slugs_free toy_jwts_free 1 (fun _ => []) 10 2%N None
    (toy_did 2) s x (set_slug 2 "foo" 1) y [(set_slug 3 "foo" 2, y2)] "foo" (toy_link 1) Hx Hy) as (z & s' & E & _ & Hp & Hk).
  - apply toy_lineage; [exact Hyh|]. eapply succeeds_weaken; [|exact Hy2]. done.
  - done.
  - eapply succeeds_cid; [exact Hyh|exact Hy2].
  - exact Hvx.
  - apply set_slug_in. constructor.
  - constructor; [|constructor]. apply set_slug_in. constructor.
  - rewrite Hly, El. reflexivity.
  - cbn. lia.
  - apply toy_can_sign.
  - reflexivity.
  - rewrite Ev. done.
  - exists s, s', y, y2, z. split; [|split; [exact E|split; [exact Hp|exact Hk]]].
    destruct Hy2 as (_ & _ & -> & _). rewrite Eyv, Ev. vm_compute. reflexivity.
Defined.

Lemma timeslice_walks_history_witness :
  exists (s : MemoryStore) (c p : ToyCid), to_chronological 2 s (exclude_past (slice c (Some p))) = Ok [c].
Proof.
  destruct (save_spec (Cid := ToyCid) memory_store_empty (mkMemo None [] (toy_link 1))) as (g & s2 & _ & Hle2 & Hg).
  destruct (save_spec (Cid := ToyCid) s2 (mkMemo (Some g) [("Lamport-Order", "1")] (toy_link 1))) as (d & s3 & _ & Hle3 & Hd).
  apply (stored_mono _ _ _ _ Hle3), stored_load in Hg. apply stored_load in Hd.
  destruct (timeslice_walks_history s3 d g (mkMemo None [] (toy_link 1))
    [(d, mkMemo (Some g) [("Lamport-Order", "1")] (toy_link 1))] [] 2) as (_ & _ & _ & E).
  - eapply history_step; [exact Hd|reflexivity|]. by apply history_first.
  - cbn. rewrite list_elem_of_singleton. intros E. rewrite E, Hd in Hg. discriminate Hg.
  - done.
  - cbn. lia.
  - exists s3, d, g. exact E.
Defined.

Lemma identity_signature_verifies_witness :
  exists (s : MemoryStore) (c : ToyCid), verify_signature (Url := ToyUrl) (Key := N) toy_keys 4 10 s c = Ok tt.
Proof.
  destruct (toy_genesis memory_store_empty) as (s & x & Hx & Ev & El & Eid & Ect & _).
  assert ("noo/sphere" ∈ get_header (ver_memo x) CONTENT_TYPE) as Hct by (rewrite Ect; constructor).
  destruct (apply_mutation_spec s (ver_cid x) (ver_memo x) (ver_ipld x) (ver_value x) (set_slug 1 "foo" 1) Hx) as (rev & s1 & _ & _ & Hrev).
  { rewrite El. reflexivity. }
  { apply (in_collision_free toy_slugs toy_jwts toy_slugs_free toy_jwts_free); [apply set_slug_in; constructor|].
    rewrite Ev. apply empty_value_in. }
  destruct (identity_signature_verifies (Url := ToyUrl) toy_keys s1 _ _ _ rev _ [] 10 1%N Hrev Hct) as (c' & rev' & s' & _ & E).
  - exists (toy_did 1), 1%N. split; [reflexivity|]. split; [vm_compute; reflexivity|].
    intros data sig Hs. injection Hs as <-. cbn. by rewrite bool_decide_true.
  - rewrite Eid. reflexivity.
  - rewrite Eid. apply toy_can_sign.
  - exists s', c'. apply E.
Defined.

(** An authorization that can be used to sign, whatever it says. *)
Definition toy_authorization : Authorization ToyCid :=
  AuthUcan (mkUcan (mkHeader "EdDSA" "JWT") (mkPayload UCAN_VERSION (toy_did 1) (toy_did 2) None None None (mkCapabilities []) None None) [] []).

Lemma toy_can_sign_authorized s k : toy_sign s 10 k (Some toy_authorization) (toy_did k).
Proof.
  split; [done|]. split; [intros b; by eexists|]. intros s' rng did _. eexists _, _, _. split; [reflexivity|].
  split; reflexivity.
Qed.

Lemma delegated_signature_rejected_witness :
  exists (s : MemoryStore) (c : ToyCid),
    verify_signature (Url := ToyUrl) (Key := N) toy_keys 4 10 s c = Err "Could not verify signature".
Proof.
  destruct (toy_genesis memory_store_empty) as (s & x & Hx & Ev & El & Eid & Ect & _).
  assert ("noo/sphere" ∈ get_header (ver_memo x) CONTENT_TYPE) as Hct by (rewrite Ect; constructor).
  destruct (apply_mutation_spec s (ver_cid x) (ver_memo x) (ver_ipld x) (ver_value x) (set_slug 2 "foo" 1) Hx) as (rev & s1 & _ & _ & Hrev).
  { rewrite El. reflexivity. }
  { apply (in_collision_free toy_slugs toy_jwts toy_slugs_free toy_jwts_free); [apply set_slug_in; constructor|].
    rewrite Ev. apply empty_value_in. }
  destruct (delegated_signature_rejected (Url := ToyUrl) toy_keys s1 _ _ _ rev _ [] 10 2%N toy_authorization (toy_did 2) 1%N
    "Could not verify signature" Hrev Hct) as (c' & rev' & s' & _ & E).
  - rewrite Eid. vm_compute. reflexivity.
  - intros data sig Hs. injection Hs as <-. cbn. by rewrite bool_decide_false.
  - apply toy_can_sign_authorized.
  - exists s', c'. apply E.
Defined.
End sphere_runs.
