(* ===== verification/SphereGenesis.v ===== *)
(** * Creating a sphere

    [Sphere::generate] makes a sphere for an owner: an empty version, a token that
    the key of the sphere issues to the owner, and a second version that records
    the token as a delegation.  The facts here follow that token through the whole
    program: it is built and signed, kept as a block and as a delegation of the
    version, and later validated, found in the authority of the version and
    reduced to the capabilities it grants. *)
From stdpp Require Import base gmap list numbers strings pretty.
From Stdlib Require Import Ascii String.
From S2P Require Import Prelude BlockStore HamtNode HamtRep Hamt HamtSpec BTree VersionedMap.
From S2P Require Import UcanCapability Ucan UcanChain UcanProofs Authority AuthorityProofs.
From S2P Require Import Memo Sphere SphereProofs SphereHistory SphereRebase.
From S2P Require Import Instances UcanInstances SphereFixtures.
#[local] Open Scope list_scope.
#[local] Notation length := List.length (only parsing).

(** ** A token without proofs that claims one capability over a sphere *)
Section root_token.
Context {Key Url St Cid : Type}.
Context `{KeyMaterial Key} `{Bs58} `{Base64} `{DagJson UcanHeader} `{DagJson UcanPayload}.
Context `{UrlLaws Url} `{CidOps Cid} `{UcanStore St Cid}.
Implicit Types (u : Ucan) (s : St).

(** [u] is what the key of the sphere [did] signs to hand [ability] to [owner]. *)
Definition root_token u (did owner : string) (ability : SphereAbility) : Prop :=
  issuer u = did /\ audience u = owner /\ proofs u = None /\
  capabilities_iter (capabilities u) = [capability_of_view (Url := Url) (generate_capability did ability)].

Definition json_total : Prop :=
  (forall x : UcanHeader, exists b, to_dag_json x = Ok b) /\ (forall x : UcanPayload, exists b, to_dag_json x = Ok b).

Lemma sign_total rng (sg : Signable Key) did caps :
  json_total -> get_did (s_issuer sg) = Ok did -> capabilities_of_vec (s_capabilities sg) = Ok caps ->
  (forall b, exists sig, key_sign (s_issuer sg) b = Ok sig) ->
  exists u jwt, sign rng sg = Ok u /\ ucan_encode u = Ok jwt.
Proof.
  intros [Hh Hp] Hd Hc Hs. unfold sign, ucan_payload. rewrite Hd. cbn [outcome_bind]. rewrite Hc. cbn [outcome_bind expect].
  set (pl := mkPayload _ _ _ _ _ _ _ _ _). destruct (Hh (ucan_header sg)) as [bh Eh], (Hp pl) as [bp Ep].
  unfold ucan_encode, jwt_base64_encode. rewrite Eh. cbn [outcome_bind]. rewrite Ep. cbn [outcome_bind].
  destruct (Hs (as_bytes (b64_encode bh +:+ "." +:+ b64_encode bp))) as [sig Es]. eexists _, _.
  rewrite Es. split; [done|]. cbn [outcome_bind header payload]. rewrite Eh. cbn [outcome_bind]. by rewrite Ep.
Qed.

Lemma one_capability (c : Capability) : is_object (cap_caveat c) = true ->
  exists caps, capabilities_of_vec [c] = Ok caps /\ capabilities_iter caps = [c].
Proof.
  intros Hc. eexists. unfold capabilities_of_vec, try_fold, push_capability. cbn. rewrite Hc. cbn. split; [done|].
  by destruct c.
Qed.

Lemma no_redelegations u did ability n :
  capabilities_iter (capabilities u) = [capability_of_view (Url := Url) (generate_capability did ability)] ->
  collect_redelegations (Url := Url) u n = Ok [].
Proof.
  intros Hc. unfold collect_redelegations. rewrite Hc. cbn [omap list_omap].
  assert (parse_capability (Url := Url) (S := ProofSelection) (A := ProofAction)
    (capability_of_view (Url := Url) (generate_capability did ability)) = None) as ->; [|done].
  unfold parse_capability, parse. destruct (url_parse _) as [u'|]; [|done]. cbn [mbind option_bind].
  assert (ability_of_string (A := ProofAction) (cap_ability (capability_of_view (Url := Url) (generate_capability did ability))) = None)
    as -> by by destruct ability.
  by destruct (if bool_decide _ then _ else _).
Qed.

(** Its chain is the token alone. *)
Lemma root_chain fuel clock s (supported_keys : list (bytes * (bytes -> outcome Key))) u did owner ability :
  root_token u did owner ability -> 0 < fuel ->
  validation clock None (key_constructors (did_parser_new supported_keys)) u = Ok tt ->
  (from_ucan (Url := Url) (Cid := Cid) fuel clock None s u (did_parser_new supported_keys)).1 = Ok (mkChain u [] []).
Proof.
  intros Hu Hf Hv.
  assert (chain_valid (Url := Url) (Cid := Cid) clock None s (key_constructors (did_parser_new supported_keys)) u (mkChain u [] [])) as Hc.
  { destruct Hu as (_ & _ & Hp & Hc). constructor; [done| |by eapply no_redelegations]. rewrite Hp. constructor. }
  destruct (from_ucan_complete clock None s _ fuel u (did_parser_new supported_keys) _ (conj (did_parser_new_ok _) eq_refl) Hc)
    as (p & -> & _); [cbn; lia|done].
Qed.

(** It grants what it claims, with the sphere as the originator. *)
Lemma root_grants u did owner ability required :
  root_token u did owner ability -> opaque_path did = true -> did <> "*" ->
  sphere_ability_rank required <= sphere_ability_rank ability ->
  exists infos, reduce_capabilities (Url := Url) (mkChain u [] []) = Ok infos /\ grants (Url := Url) did required infos = true.
Proof.
  intros (Hi & _ & _ & Hc) Hp Hs Hr.
  destruct (reduce_step (Url := Url) (S := SphereReference) (A := SphereAbility) u [] [] []) as (r & E & _ & Hnil); [constructor..|].
  rewrite (Hnil eq_refl) in E. cbn zeta in E. rewrite E. unfold self_infos, self_views. rewrite Hc. cbn [map_while].
  rewrite (parse_generate_capability did ability Hp Hs). cbn. eexists. split; [done|].
  apply grants_spec. eexists. split; [constructor|]. cbn [originators info_capability]. split; [rewrite Hi; by apply elem_of_singleton|].
  unfold view_enables. cbn. unfold sphere_reference_contains. by rewrite !bool_decide_true.
Qed.
End root_token.

(** ** The sphere *)
Section genesis.
Context {Key Url Cid S : Type} `{UnicodeLaws}.
Context `{KeyMaterial Key} `{Bs58} `{Base64} `{DagJson UcanHeader} `{DagJson UcanPayload} `{UrlLaws Url}.
Context `{Countable Cid} `{HashAlgorithmLaws string} `{HashAlgorithmLaws Cid} `{KeyOrderLaws Cid}.
Context `{CidLaws Cid} `{!BlockStore S Cid} `{!BlockStoreLaws S Cid} `{!SphereCodecs Cid} `{!SphereCodecsLaws Cid}.
Notation version := (version (Cid := Cid)).
#[local] Existing Instance block_ucan_store.
Implicit Types (s : S) (x y : version) (v : sphere_value Cid).

(** What a version holds, as [verify_authorization] looks it up. *)
Lemma sphere_authority_spec s x : holds s x ->
  exists a, sphere_authority s (ver_cid x) = Ok a /\ authority_identity a = identity (ver_ipld x) /\
    (forall c, get_delegation a c = Ok ((v_delegations (ver_value x)).1 !! c)) /\
    (forall c, get_revocation a c = Ok ((v_revocations (ver_value x)).1 !! c)).
Proof.
  intros (Hm & Hb & _ & _ & (auth & Ha & Hd & Hr)). unfold sphere_authority, to_body, to_memo.
  rewrite (stored_load _ _ _ Hm). cbn [outcome_bind]. rewrite (stored_load _ _ _ Hb). cbn [outcome_bind].
  unfold get_delegations, get_revocations. rewrite (stored_load _ _ _ Ha). cbn [outcome_bind].
  eexists. split; [done|]. cbn [authority_identity get_delegation get_revocation]. split; [done|].
  split; intros c; [by destruct (vm_get_spec _ _ _ _ c (view_at _ _ _ _ Hd)) as (vm & -> & _)|].
  by destruct (vm_get_spec _ _ _ _ c (view_at _ _ _ _ Hr)) as (vm & -> & _).
Qed.

(** The first version, before the delegation of the owner. *)
Lemma genesis_spec s ipld (key : Key) did : body_at s ipld empty_value -> get_did key = Ok did ->
  (forall b, exists sig, key_sign key b = Ok sig) ->
  exists memo s1 memo' c s2, for_body s ipld = (Ok memo, s1) /\
    memo_sign (push_header (push_header memo (Header.deref Header.ContentType) (ContentType.deref ContentType.Sphere))
      (Header.deref Header.Version) (Version.to_string Version.V0)) key None = (Ok tt, memo') /\
    save s1 memo' = (Ok c, s2) /\ store_le s s2 /\ holds s2 (mkVersion c memo' ipld empty_value) /\
    parent memo' = None /\ lamport_order memo' = 0%N /\ values (headers memo') CONTENT_TYPE = ["noo/sphere"].
Proof.
  intros Hv Hd Hs. destruct (save_spec s ipld) as (cb & s1 & E1 & Hle1 & Hb).
  set (memo0 := push_header (push_header (mkMemo None [] cb) (Header.deref Header.ContentType) (ContentType.deref ContentType.Sphere))
    (Header.deref Header.Version) (Version.to_string Version.V0)).
  destruct (Hs (cid_to_bytes (body memo0))) as [sig Esig].
  destruct (memo_sign_spec memo0 key None sig did [] Esig Hd eq_refl) as (memo' & Em & Hp & Hbody & Hh).
  destruct (save_spec s1 memo') as (c & s2 & E2 & Hle2 & Hm).
  exists (mkMemo None [] cb), s1, memo', c, s2. unfold for_body. rewrite E1. cbn [try_with]. split; [done|]. split; [exact Em|].
  split; [exact E2|]. split; [by transitivity s1|]. split; [|split; [by rewrite Hp|split]].
  - split; [exact Hm|]. cbn [ver_memo ver_ipld ver_value]. rewrite Hbody.
    split; [exact (stored_mono _ _ _ _ Hle2 Hb)|]. eapply body_at_mono; [|exact Hv]. by transitivity s1.
  - rewrite lamport_order_values, Hh. unfold signed_values. destruct lamport_signed_ne as (-> & -> & ->).
    cbn [memo0 push_header with_headers headers app]. rewrite !values_cons. cbn [fst snd].
    by rewrite !same_name_ascii.
  - rewrite Hh. unfold signed_values. rewrite !same_name_ascii by done. cbn [bool_decide].
    cbn [memo0 push_header with_headers headers app]. rewrite !values_cons. cbn [fst snd].
    by rewrite !same_name_ascii by done.
Qed.

(** The change that records the token of the owner, kept at [jwt]. *)
Definition owner_mutation (did : string) (jwt : Cid) : SphereMutation Cid :=
  mkSphereMutation did (map_mutation_new did) (map_mutation_new did)
    (mutation_set (map_mutation_new did) jwt (mkDelegation "(OWNER)" jwt)) (map_mutation_new did).

Lemma owner_mutation_in did jwt : mutation_in (fun _ => False) (eq jwt) (owner_mutation did jwt).
Proof. split; [constructor|]. split; [constructor|]. split; [by constructor|constructor]. Qed.

Lemma empty_in P Q : value_in P Q (empty_value (Cid := Cid)).
Proof. split; [|split; [|split]]; cbn; intros k; rewrite dom_empty_L; by intros ?%elem_of_empty. Qed.

(** The token of the owner, as [generate] builds and signs it. *)
Definition owner_signable (clock : N) (key : Key) (did owner : string) : outcome (Signable Key) :=
  build clock (claiming_capability (with_lifetime (for_audience (issued_by builder_default key) owner) SPHERE_LIFETIME)
    (capability_of_view (Url := Url) (generate_capability did Authorize))).

Lemma owner_token_spec rng clock (key : Key) did owner :
  json_total -> get_did key = Ok did -> (forall b, exists sig, key_sign key b = Ok sig) ->
  (clock + SPHERE_LIFETIME < 2 ^ 64)%N ->
  exists sg u jwt,
    owner_signable clock key did owner = Ok sg /\
    sign rng sg = Ok u /\ ucan_encode u = Ok jwt /\ root_token (Url := Url) u did owner Authorize /\
    s_issuer sg = key /\ s_expiration sg = Some (clock + SPHERE_LIFETIME)%N /\ s_not_before sg = None.
Proof.
  intros Hj Hd Hs Hl. set (cap := capability_of_view (Url := Url) (generate_capability did Authorize)).
  destruct (one_capability cap eq_refl) as (caps & Ec & Hi).
  exists (mkSignable key owner [cap] (Some (clock + SPHERE_LIFETIME)%N) None [] [] false).
  destruct (sign_total rng (mkSignable key owner [cap] (Some (clock + SPHERE_LIFETIME)%N) None [] [] false) did caps Hj Hd Ec Hs)
    as (u & jwt & Eu & Ej).
  exists u, jwt. split; [|split; [done|split; [done|split; [|done]]]].
  - unfold owner_signable, build, implied_expiration. cbn -[N.ltb SPHERE_LIFETIME cap]. apply N.ltb_lt in Hl. by rewrite Hl.
  - destruct (sign_inv _ _ _ Eu) as (_ & _ & Hid & _ & _ & Ha & Hp & Hc). cbn [s_issuer s_audience s_proofs s_capabilities] in *.
    split; [congruence|]. split; [done|]. split; [by rewrite Hp|]. assert (capabilities u = caps) as -> by congruence. done.
Qed.

(** [generate] makes two versions; the second has nothing but the delegation. *)
Lemma generate_spec rng clock (key : Key) mnemonic did owner s :
  json_total -> get_did key = Ok did -> (forall b, exists sig, key_sign key b = Ok sig) ->
  (clock + SPHERE_LIFETIME < 2 ^ 64)%N ->
  exists sg u jwt x y s',
    generate (Url := Url) rng clock key (Ok mnemonic) owner s = (Ok (ver_cid y, AuthUcan u, mnemonic), s') /\
    store_le s s' /\ owner_signable clock key did owner = Ok sg /\
    sign rng sg = Ok u /\ ucan_encode u = Ok jwt /\ root_token (Url := Url) u did owner Authorize /\
    s_issuer sg = key /\ s_expiration sg = Some (clock + SPHERE_LIFETIME)%N /\ s_not_before sg = None /\
    authentic (Cid := Cid) s' (derive_cid RAW (as_bytes jwt)) (as_bytes jwt) /\
    holds s' x /\ ver_value x = empty_value /\ parent (ver_memo x) = None /\ lamport_order (ver_memo x) = 0%N /\ identity (ver_ipld x) = did /\
    values (headers (ver_memo x)) CONTENT_TYPE = ["noo/sphere"] /\
    succeeds (eq did) s' x (owner_mutation did (derive_cid RAW (as_bytes jwt))) y.
Proof.
  intros Hj Hd Hs Hl. destruct (owner_token_spec rng clock key did owner Hj Hd Hs Hl) as (sg & u & jwt & Eb & Eu & Ej & Hu & Hsg).
  destruct (sphere_ipld_new_spec did s) as (ipld & s1 & E1 & Hle1 & Hv & Hid & _).
  destruct (genesis_spec s1 ipld key did Hv Hd Hs) as (memo & s2 & memo' & c & s3 & E2 & Em & E3 & Hle3 & Hx & Hp & Hlam & Hct).
  destruct (put_encoded_spec s3 RAW (as_bytes jwt) [] (references_raw _)) as (s4 & E4 & Hle4 & Hau).
  set (cj := derive_cid (Cid := Cid) RAW (as_bytes jwt)) in *. set (x := mkVersion c memo' ipld empty_value) in *.
  assert (exists memo'', memo_sign memo' key None = (Ok tt, memo'')) as [memo'' Em2].
  { destruct (Hs (cid_to_bytes (body memo'))) as [sig Esig].
    destruct (memo_sign_spec memo' key None sig did [] Esig Hd eq_refl) as (memo'' & ? & _). by exists memo''. }
  destruct (commit_spec (Url := Url) (fun _ => False) (eq cj)) with (s := s4) (x := x) (m := owner_mutation did cj) (rng := rng) (clock := clock)
    (credential := key) (authorization := @None (Authorization Cid)) (did := did)
    as (rev & s5 & y & rev' & s6 & E5 & E6 & Hle6 & Hy); [by intros ? ? []|by intros ? ? <- <-|..].
  { exact (holds_mono _ _ _ Hle4 Hx). }
  { apply empty_in. }
  { apply owner_mutation_in. }
  { done. }
  { cbn [x ver_memo]. rewrite Hlam. done. }
  { done. }
  exists sg, u, jwt, x, y, s6. split.
  - unfold generate. cbn [try_with]. rewrite Hd. cbn [try_with]. rewrite E1. cbn [try_with]. rewrite E2. cbn [try_with].
    unfold owner_signable in Eb. rewrite Eb. cbn [try_with]. rewrite Eu. cbn [try_with]. rewrite Em. cbn [try_with]. rewrite E3. cbn [try_with].
    rewrite Ej. cbn [try_with]. unfold delegation_register, write_token. cbn [ucan_write block_ucan_store block_ucan_write].
    rewrite E4. cbn [try_with]. rewrite Em2. cbn [try_with]. cbn [x ver_cid] in E5.
    change (mkSphereMutation _ _ _ _ _) with (owner_mutation did cj). rewrite E5. cbn [try_with]. rewrite E6. done.
  - split; [by transitivity s1; [|transitivity s3; [|transitivity s4]]|]. split; [done|]. split; [done|]. split; [done|]. split; [done|].
    destruct Hsg as (? & ? & ?). split; [done|]. split; [done|]. split; [done|]. split; [by apply Hle6|].
    split; [|done]. eapply holds_mono; [|exact Hx]. by transitivity s4.
Qed.

Context (supported_keys : list (bytes * (bytes -> outcome Key))).
Notation ctors := (key_constructors (did_parser_new supported_keys)).

(** A version that has the token [u] among its delegations, and no revocations,
    authorizes it. *)
Lemma recorded_root_verifies fuel walk_fuel clock s y u did owner ability jwt (k : Key) :
  holds s y -> identity (ver_ipld y) = did -> root_token (Url := Url) u did owner ability ->
  validation clock None ctors u = Ok tt -> ucan_encode u = Ok jwt -> resolve ctors did = Ok k ->
  is_Some ((v_delegations (ver_value y)).1 !! derive_cid RAW (as_bytes jwt)) -> (v_revocations (ver_value y)).1 = ∅ ->
  0 < fuel -> 0 < walk_fuel ->
  sphere_verify_authorization (Url := Url) supported_keys fuel walk_fuel clock s (ver_cid y) (AuthUcan u) = Ok tt.
Proof.
  intros Hy Hid Hu Hv Ej Hk [d Hd] Hr Hf Hw. destruct (sphere_authority_spec s y Hy) as (a & Ea & Hai & Hdel & Hrev).
  unfold sphere_verify_authorization, verify_authorization, as_proof_chain.
  rewrite (root_chain fuel clock s supported_keys u did owner ability Hu Hf Hv). cbn [outcome_bind]. rewrite Ea. cbn [outcome_bind].
  unfold to_credential. rewrite Hai, Hid.
  destruct (did_parse_spec (did_parser_new supported_keys) did (did_parser_new_ok _)) as (p & -> & _). cbn [fst].
  rewrite Hk. cbn [outcome_bind]. apply verify_links_delegations.
  - cbn. lia.
  - intros c. rewrite Hrev, Hr. by rewrite lookup_empty.
  - intros l c Hl Hin. apply list_elem_of_singleton in Hl as ->. apply in_chain_links in Hin. cbn in Hin.
    apply list_elem_of_singleton in Hin as ->. exists (derive_cid RAW (as_bytes jwt)), d. unfold ucan_to_cid. cbn [chain_ucan].
    rewrite Ej. split; [done|]. by rewrite Hdel, Hd.
Qed.

(** C13: [Sphere::generate] succeeds with any key that can sign, and returns a
    version of a sphere under the key's own DID that has no content, no petnames
    and no revocations, on top of a first version; until the token it returns
    expires, that version authorizes the token, and the owner, holding it, has
    read-write access to the sphere. *)
Theorem generate_gives_owner_access fuel walk_fuel rng clock now (sphere_key owner_key : Key) mnemonic sphere_did owner_did s :
  json_total -> key_resolves ctors sphere_key -> get_did sphere_key = Ok sphere_did -> opaque_path sphere_did = true ->
  sphere_did <> "*" -> (forall b, exists sig, key_sign sphere_key b = Ok sig) -> get_did owner_key = Ok owner_did ->
  (clock + SPHERE_LIFETIME < 2 ^ 64)%N -> (now <= clock + SPHERE_LIFETIME)%N -> 0 < fuel -> 0 < walk_fuel ->
  exists y u s',
    generate (Url := Url) rng clock sphere_key (Ok mnemonic) owner_did s = (Ok (ver_cid y, AuthUcan u, mnemonic), s') /\
    store_le s s' /\ holds s' y /\ identity (ver_ipld y) = sphere_did /\
    (v_content (ver_value y)).1 = ∅ /\ (v_identities (ver_value y)).1 = ∅ /\ (v_revocations (ver_value y)).1 = ∅ /\
    issuer u = sphere_did /\ audience u = owner_did /\
    sphere_verify_authorization (Url := Url) supported_keys fuel walk_fuel now s' (ver_cid y) (AuthUcan u) = Ok tt /\
    access_to (Url := Url) supported_keys fuel walk_fuel now s' owner_key (Some (AuthUcan u)) sphere_did (Ok (ver_cid y))
      (sphere_authority s') = Ok ReadWrite.
Proof.
  intros Hj Hk Hd Hp Hstar Hs Ho Hl Hnow Hf Hw.
  destruct (generate_spec rng clock sphere_key mnemonic sphere_did owner_did s Hj Hd Hs Hl)
    as (sg & u & jwt & x & y & s' & E & Hle & _ & Eu & Ej & Hu & Hiss & Hexp & Hnbf & _ & Hx & Ex & _ & _ & Hidx & _ & Hy).
  destruct Hy as (Hy & _ & Ev & Hid & _). rewrite Hidx in Hid. rewrite Ex in Ev.
  assert (validation now None ctors u = Ok tt) as Hv.
  { eapply signed_validates; [rewrite Hiss; exact Hk|exact Eu|rewrite Hexp; exact Hnow|by rewrite Hnbf]. }
  destruct Hk as (did & k' & Ed & Ek & _). assert (did = sphere_did) as -> by congruence.
  assert (sphere_verify_authorization (Url := Url) supported_keys fuel walk_fuel now s' (ver_cid y) (AuthUcan u) = Ok tt) as Hver.
  { eapply recorded_root_verifies; [exact Hy|exact Hid|exact Hu|exact Hv|exact Ej|exact Ek|..|done|done]; rewrite Ev; [|done].
    cbn [apply_value v_delegations]. rewrite apply_part_fst. cbn. rewrite lookup_insert_eq. by eexists. }
  exists y, u, s'. rewrite Ev. destruct (Hu) as (Hi & Ha & _). split_and!; try done.
  unfold access_to. rewrite Ho. cbn [outcome_bind]. case_bool_decide; [done|]. cbn [as_ucan outcome_bind].
  rewrite bool_decide_true by done. cbn [negb]. unfold sphere_verify_authorization in Hver. rewrite Hver.
  rewrite (root_chain fuel now s' supported_keys u sphere_did owner_did Authorize Hu Hf Hv).
  destruct (root_grants u sphere_did owner_did Authorize Push Hu Hp Hstar ltac:(cbn; lia)) as (infos & -> & Hg).
  cbn [outcome_bind]. by rewrite Hg.
Qed.
End genesis.

(** ** A run *)
Section genesis_runs.
#[local] Existing Instance block_ucan_store.

(** An encoding of every header. *)
#[local] Instance UcanHeader_countable : Countable UcanHeader.
Proof. refine (inj_countable' (fun h => (alg h, typ h)) (fun p => mkHeader p.1 p.2) _). by intros []. Defined.

#[local] Instance countable_header_json : DagJson UcanHeader := {
  to_dag_json := toy_block_of;
  from_dag_json := toy_of_block;
}.

Lemma generate_gives_owner_access_witness :
  exists (y : version (Cid := ToyCid)) (u : Ucan) (s' : MemoryStore),
    generate (Url := ToyUrl) [] 10 1%N (Ok "mnemonic") (toy_did 2) memory_store_empty = (Ok (ver_cid y, AuthUcan u, "mnemonic"), s') /\
    access_to (Url := ToyUrl) toy_keys 1 1 20 s' 2%N (Some (AuthUcan u)) (toy_did 1) (Ok (ver_cid y)) (sphere_authority s')
      = Ok ReadWrite.
Proof.
  destruct (generate_gives_owner_access (Url := ToyUrl) (S := MemoryStore) (Cid := ToyCid) toy_keys 1 1 [] 10 20 1%N 2%N "mnemonic"
    (toy_did 1) (toy_did 2) memory_store_empty) as (y & u & s' & E & _ & _ & _ & _ & _ & _ & _ & _ & _ & Ha).
  - split; intros x; eexists; reflexivity.
  - exists (toy_did 1), 1%N. split; [reflexivity|]. split; [vm_compute; reflexivity|].
    intros data sig Hs. injection Hs as <-. cbn. by rewrite bool_decide_true.
  - reflexivity.
  - vm_compute. reflexivity.
  - apply (bool_decide_unpack (toy_did 1 <> "*")). vm_compute. exact I.
  - intros b. eexists. reflexivity.
  - reflexivity.
  - reflexivity.
  - discriminate.
  - lia.
  - lia.
  - exists y, u, s'. split; [exact E|exact Ha].
Defined.
End genesis_runs.
