(* ===== verification/ContextAuthority.v ===== *)
(** * Delegating authority through a context

    Tokens that hand on authority over a sphere, to any depth: each claims one
    capability of the sphere and has the token of the one who hands it on for its
    proof.  An author who holds such a token authorizes another key, and the
    token is recorded with the next save; the other key then has write access.  A
    revoked authorization does not verify any more.  A link record that the
    author makes is accepted.

    With the key of the sphere itself, [recover_authority] revokes every
    delegation and authorizes a new owner.  After the next save the new owner is
    the only one who has authority. *)
From stdpp Require Import base gmap list numbers strings pretty.
From Stdlib Require Import Ascii String.
From S2P Require Import Prelude BlockStore HamtNode HamtRep Hamt HamtSpec BTree SphereDb BodyChunk VersionedMap.
From S2P Require Import UcanCapability Ucan UcanChain UcanProofs Authority AuthorityProofs Memo.
From S2P Require Import Sphere SphereProofs SphereHistory SphereRebase SphereGenesis Bundle BundleProofs SphereContext SphereContextProofs SphereEdits SphereWalkerProofs.
#[local] Open Scope list_scope.
#[local] Notation length := List.length (only parsing).

(** The alphabet of base 64 is ASCII. *)
Class Base64Ascii `{Base64} := b64_ascii : forall b, is_ascii (b64_encode b) = true.

Lemma ascii_utf8 s : is_ascii s = true -> utf8_valid (as_bytes s) = true.
Proof.
  induction s as [|a s IH]; [done|]. unfold is_ascii. cbn [string_forallb]. rewrite andb_true_iff, N.ltb_lt. intros [Ha Hs].
  cbn [as_bytes utf8_valid]. unfold between at 1. assert ((0 <=? N_of_ascii a) && (N_of_ascii a <=? 127) = true)%N as ->
    by (rewrite andb_true_iff, !N.leb_le; lia). by apply IH.
Qed.

Lemma is_ascii_app a b : is_ascii (a +:+ b) = is_ascii a && is_ascii b.
Proof.
  induction a as [|x a IH]; [done|]. change (is_ascii (String x a +:+ b)) with ((N_of_ascii x <? 128)%N && is_ascii (a +:+ b)).
  rewrite IH, andb_assoc. done.
Qed.

(** ** Chains that hand on authority over a sphere *)
Section chains.
Context {Url : Type} `{UrlLaws Url}.

Inductive sphere_chain (did : string) : SphereAbility -> ProofChain -> Prop :=
  | sphere_chain_root u ability :
      issuer u = did -> capabilities_iter (capabilities u) = [capability_of_view (Url := Url) (generate_capability did ability)] ->
      sphere_chain did ability (mkChain u [] [])
  | sphere_chain_link u ability p ability' :
      sphere_chain did ability' p -> sphere_ability_rank ability <= sphere_ability_rank ability' ->
      capabilities_iter (capabilities u) = [capability_of_view (Url := Url) (generate_capability did ability)] ->
      sphere_chain did ability (mkChain u [p] []).

Lemma generate_enables did a b : view_enables (Url := Url) (generate_capability did a) (generate_capability did b) = true <->
  sphere_ability_rank b <= sphere_ability_rank a.
Proof.
  unfold view_enables. cbn. unfold sphere_reference_contains. rewrite (bool_decide_true (did = did)) by done.
  rewrite andb_true_r. cbn [andb]. apply bool_decide_eq_true.
Qed.

(** It reduces to one capability, which the sphere itself originates. *)
Lemma sphere_chain_reduces did ability c : sphere_chain did ability c -> opaque_path did = true -> did <> "*" ->
  exists i, reduce_capabilities (Url := Url) c = Ok [i] /\ originators i = {[did]} /\ info_capability i = generate_capability did ability.
Proof.
  intros Hc Hp Hs. induction Hc as [u ability Hi Hcap|u ability p ability' Hc (i & Er & Ho & Hv) Hr Hcap].
  - destruct (reduce_step (Url := Url) (S := SphereReference) (A := SphereAbility) u [] [] []) as (r & E & _ & Hnil); [constructor..|].
    rewrite (Hnil eq_refl) in E. cbn zeta in E. rewrite E. unfold self_infos, self_views. rewrite Hcap. cbn [map_while].
    rewrite (parse_generate_capability did ability Hp Hs). cbn. eexists. split; [done|]. cbn. by rewrite Hi.
  - destruct (reduce_step (Url := Url) (S := SphereReference) (A := SphereAbility) u [p] [] [[i]]) as (r & E & _ & Hnil);
      [by repeat constructor|constructor|].
    rewrite (Hnil eq_refl) in E. cbn zeta in E. rewrite E. unfold self_infos, self_views. rewrite Hcap. cbn [map_while].
    rewrite (parse_generate_capability did ability Hp Hs). cbn [fmap list_fmap length app merge_infos].
    eexists. split; [done|]. cbn [originators info_capability]. split; [|done].
    unfold ancestral_infos. cbn [imap mjoin list_join].
    rewrite decide_False by done.
    unfold find_originators. rewrite (decide_False (P := 0 ∈ [])) by apply not_elem_of_nil. cbn [app]. rewrite filter_cons, Hv.
    rewrite (decide_True (P := view_enables (Url := Url) (generate_capability did ability') (generate_capability did ability) = true))
      by by apply generate_enables.
    cbn [fmap list_fmap filter list_filter union_list foldr]. rewrite Ho, union_empty_r_L, decide_False by set_solver. done.
Qed.
End chains.

Section tokens.
Context {Key Cid S : Type}.
Context `{KeyMaterial Key} `{Bs58} `{Base64Laws} `{!Base64Ascii} `{DagJsonLaws UcanHeader} `{DagJsonLaws UcanPayload}.
Context `{EqDecision Cid} `{CidLaws Cid} `{!BlockStore S Cid} `{!BlockStoreLaws S Cid}.
#[local] Existing Instance block_ucan_store.
Implicit Types (s : S) (c : Cid).

(** ** Tokens in a block store *)
Lemma ucan_encode_ascii u jwt : ucan_encode u = Ok jwt -> is_ascii jwt = true.
Proof.
  unfold ucan_encode, jwt_base64_encode. destruct (to_dag_json (header u)); cbn [outcome_bind]; try done.
  destruct (to_dag_json (payload u)); cbn [outcome_bind]; try done. intros [= <-].
  by rewrite !is_ascii_app, !b64_ascii.
Qed.

(** Where a token is kept. *)
Definition token_cid (jwt : string) : Cid := derive_cid RAW (as_bytes jwt).

Lemma token_readable s u jwt : signed_data_wf u -> ucan_encode u = Ok jwt -> authentic s (token_cid jwt) (as_bytes jwt) ->
  require_token s (token_cid jwt) = Ok jwt /\ ucan_from_str jwt = Ok u /\ ucan_to_cid u = Ok (token_cid jwt).
Proof.
  intros Hwf Ej [Hg _]. split; [|split; [by apply ucan_encode_decode|unfold ucan_to_cid; by rewrite Ej]].
  unfold require_token, read_token. unfold token_cid at 1, derive_cid. rewrite cid_codec_new. cbn [negb N.eqb RAW Pos.eqb].
  cbn [ucan_read block_ucan_store]. unfold block_ucan_read. rewrite Hg. cbn [outcome_bind fmap option_fmap option_map].
  unfold from_utf8. rewrite (ascii_utf8 _ (ucan_encode_ascii _ _ Ej)). cbn [outcome_bind ok_or]. by rewrite string_of_as_bytes.
Qed.

Lemma write_token_spec s jwt :
  exists s', write_token s jwt = (Ok (token_cid jwt), s') /\ store_le s s' /\ authentic s' (token_cid jwt) (as_bytes jwt).
Proof.
  destruct (put_encoded_spec s RAW (as_bytes jwt) [] (references_raw _)) as (s' & E & Hle & Ha). by exists s'.
Qed.
End tokens.

(** ** Handing on the authority of a token *)
Section handing.
Context {Key Url Cid S : Type}.
Context `{KeyMaterial Key} `{Bs58} `{Base64Laws} `{!Base64Ascii} `{DagJsonLaws UcanHeader} `{DagJsonLaws UcanPayload} `{UrlLaws Url}.
Context `{EqDecision Cid} `{CidLaws Cid} `{!BlockStore S Cid}.
Context (supported_keys : list (bytes * (bytes -> outcome Key))) (clock : N).
Notation ctors := (key_constructors (did_parser_new supported_keys)).
Notation valid := (chain_valid (Key := Key) (Url := Url) (Cid := Cid)).
#[local] Existing Instance block_ucan_store.
Implicit Types (s : S) (c : ProofChain).

(** A token whose proof is the token at [cid]. *)
Record hands_on (sg : Signable Key) (cid : Cid) c (identity : string) (ability : SphereAbility) : Prop := {
  hands_key : key_resolves ctors (s_issuer sg);
  hands_issuer : get_did (s_issuer sg) = Ok (audience (chain_ucan c));
  hands_proof : s_proofs sg = [cid_to_string cid];
  hands_capability : s_capabilities sg = [capability_of_view (Url := Url) (generate_capability identity ability)];
  hands_begin : s_not_before sg = None /\ not_before (chain_ucan c) = None;
  hands_end : match expires_at (chain_ucan c) with
              | Some e => exists e', s_expiration sg = Some e' /\ (e' <= e)%N
              | None => True
              end;
}.

(** Such a token heads a chain wherever the token at [cid] does. *)
Lemma hands_on_valid now rng sg s cid c identity ability u token u' :
  hands_on sg cid c identity ability -> sign rng sg = Ok u ->
  match s_expiration sg with Some e => (default clock now <= e)%N | None => True end ->
  require_token s cid = Ok token -> ucan_from_str token = Ok u' -> valid clock now s ctors u' c ->
  valid clock now s ctors u (mkChain u [c] []).
Proof.
  intros [Hk Hi Hp Hcap [Hb Hb'] He] Es Hexp Et Eu Hv.
  destruct (sign_inv _ _ _ Es) as (Hwf & _ & Hiss & Hue & Hub & _ & Hup & Hcaps). rewrite Hp in Hup. cbn in Hup.
  destruct (one_capability (capability_of_view (Url := Url) (generate_capability identity ability)) eq_refl) as (caps & Ec & Hit).
  assert (capabilities_iter (capabilities u) = [capability_of_view (Url := Url) (generate_capability identity ability)]) as Hci by (rewrite Hcap in Hcaps; congruence).
  constructor; [| |by eapply no_redelegations].
  - eapply signed_validates; [done|exact Es|done|by rewrite Hb].
  - rewrite Hup. cbn. constructor; [|constructor]. exists cid, token, u'.
    split; [apply cid_of_to_string|]. split; [done|]. split; [done|]. split; [done|]. unfold validate_link_to.
    rewrite bool_decide_true by congruence.
    unfold lifetime_encompasses, lifetime_begins_before, lifetime_ends_after. unfold not_before, expires_at in *.
    rewrite Hb', Hue. destruct (exp (payload (chain_ucan c))) as [e|]; [|done].
    destruct He as (e' & -> & He'). cbn. apply N.leb_le in He'. by rewrite He'.
Qed.
End handing.

(** ** Handing on authority *)
Section delegation.
Context {Key Url Cid B KV Net : Type} `{UnicodeLaws}.
Context `{KeyMaterial Key} `{Bs58} `{Base64Laws} `{!Base64Ascii} `{DagJsonLaws UcanHeader} `{DagJsonLaws UcanPayload} `{UrlLaws Url}.
Context `{Countable Cid} `{HashAlgorithmLaws string} `{HashAlgorithmLaws Cid} `{KeyOrderLaws Cid}.
Context `{CidLaws Cid} `{!BlockStore B Cid} `{!BlockStoreLaws B Cid} `{StoreLaws KV}.
Context `{!SphereCodecs Cid} `{!SphereCodecsLaws Cid} `{!EntryCodecs Cid} `{!EntryCodecsLaws Cid}.
Context `{!ContextCodecs Cid} `{!ContextCodecsLaws Cid}.
Context (supported_keys : list (bytes * (bytes -> outcome Key))).
Context (fuel walk_fuel : nat) (clock : N).
Notation SphereDb := (SphereDb B KV).
Notation version := (SphereRebase.version (Cid := Cid)).
Notation context := (SphereContext (Key := Key) (Cid := Cid) (B := B) (KV := KV)).
Notation ctors := (key_constructors (did_parser_new supported_keys)).
Notation valid := (chain_valid (Key := Key) (Url := Url) (Cid := Cid)).
#[local] Existing Instance block_ucan_store.
Implicit Types (db : SphereDb) (ctx : context) (x y : version) (c : ProofChain).

(** The token at [cid] heads the chain [c], in [db] and as it grows. *)
Definition durable now db (cid : Cid) c : Prop := forall db', store_le db db' ->
  exists token u, require_token db' cid = Ok token /\ ucan_from_str token = Ok u /\ valid clock now db' ctors u c.

Lemma durable_mono now db db' cid c : store_le db db' -> durable now db cid c -> durable now db' cid c.
Proof. intros Hle Hd db2 Hle2. apply Hd. by transitivity db'. Qed.

(** Every token of [c] is a delegation of [x] that is not revoked. *)
Definition recorded x c : Prop := forall c', in_chain c' c -> exists cid d,
  ucan_to_cid (chain_ucan c') = Ok cid /\ (v_delegations (ver_value x)).1 !! cid = Some d /\
  (v_revocations (ver_value x)).1 !! cid = None.

Lemma durable_ucan now db cid c : durable now db cid c -> as_ucan db (AuthCid cid) = Ok (chain_ucan c).
Proof.
  intros Hd. destruct (Hd db) as (token & u & Et & Eu & Hv); [done|]. cbn. rewrite Et. cbn [outcome_bind].
  by rewrite (chain_valid_ucan _ _ _ _ _ _ Hv).
Qed.

Lemma durable_chain db cid c : durable None db cid c -> chain_depth c <= fuel ->
  as_proof_chain (Url := Url) supported_keys fuel clock db (AuthCid cid) = Ok c.
Proof.
  intros Hd Hf. destruct (Hd db) as (token & u & Et & Eu & Hv); [done|]. cbn. unfold from_cid, try_from_token_string.
  rewrite Et. cbn [try_with]. rewrite Eu. cbn [try_with].
  destruct (from_ucan_complete clock None db ctors fuel u (did_parser_new supported_keys) c) as (p & -> & _); done.
Qed.

(** An authorization whose chain is recorded verifies. *)
Lemma recorded_verifies db x cid c k : holds db x -> resolve ctors (Sphere.identity (ver_ipld x)) = Ok k ->
  durable None db cid c -> recorded x c -> chain_depth c <= fuel -> chain_size c <= walk_fuel ->
  sphere_verify_authorization (Url := Url) supported_keys fuel walk_fuel clock db (ver_cid x) (AuthCid cid) = Ok tt.
Proof.
  intros Hx Hk Hd Hr Hf Hw. destruct (sphere_authority_spec db x Hx) as (a & Ea & Hai & Hdel & Hrev).
  unfold sphere_verify_authorization, verify_authorization. rewrite (durable_chain db cid c Hd Hf). cbn [outcome_bind].
  rewrite Ea. cbn [outcome_bind]. unfold to_credential. rewrite Hai.
  destruct (did_parse_spec (did_parser_new supported_keys) (Sphere.identity (ver_ipld x)) (did_parser_new_ok _)) as (p & -> & _). cbn [fst].
  rewrite Hk. cbn [outcome_bind]. apply verify_links_recorded.
  - cbn. lia.
  - intros l c' ->%list_elem_of_singleton Hin. destruct (Hr c' Hin) as (cid' & d & E & Hd' & Hr'). exists cid', d.
    rewrite Hdel, Hrev, Hd', Hr'. done.
Qed.

(** And the key that it is addressed to has write access with it. *)
Lemma recorded_access db x cid c k (key : Key) did identity ability : holds db x -> Sphere.identity (ver_ipld x) = identity ->
  resolve ctors identity = Ok k ->
  durable None db cid c -> recorded x c -> chain_depth c <= fuel -> chain_size c <= walk_fuel ->
  sphere_chain (Url := Url) identity ability c -> 1 <= sphere_ability_rank ability -> opaque_path identity = true -> identity <> "*" ->
  get_did key = Ok did -> audience (chain_ucan c) = did ->
  access_to (Url := Url) supported_keys fuel walk_fuel clock db key (Some (AuthCid cid)) identity (Ok (ver_cid x)) (sphere_authority db)
    = Ok ReadWrite.
Proof.
  intros Hx Hid Hk Hd Hr Hf Hw Hch Hab Hop Hstar Hkey Haud. unfold access_to. rewrite Hkey. cbn [outcome_bind].
  case_bool_decide; [done|]. rewrite (durable_ucan _ _ _ _ Hd). cbn [outcome_bind]. rewrite bool_decide_true by done. cbn [negb].
  rewrite <- Hid in Hk. pose proof (recorded_verifies db x cid c k Hx Hk Hd Hr Hf Hw) as Hver. unfold sphere_verify_authorization in Hver.
  rewrite Hver. destruct (Hd db) as (token & u & _ & _ & Hv); [done|]. rewrite (chain_valid_ucan _ _ _ _ _ _ Hv).
  destruct (from_ucan_complete clock None db ctors fuel u (did_parser_new supported_keys) c) as (p & -> & _); [done..|].
  cbn [fst]. destruct (sphere_chain_reduces identity ability c Hch Hop Hstar) as (i & -> & Ho & Hv'). cbn [outcome_bind].
  assert (grants (Url := Url) identity Push [i] = true) as ->; [|done]. apply grants_spec. exists i. split; [constructor|].
  rewrite Ho, Hv'. split; [by apply elem_of_singleton|]. apply generate_enables. destruct ability; cbn in *; lia.
Qed.

Notation hands_on := (hands_on (Url := Url) supported_keys).

Lemma hands_on_chain now rng sg db cid c identity ability ability' u jwt :
  hands_on sg cid c identity ability -> sphere_chain (Url := Url) identity ability' c ->
  sphere_ability_rank ability <= sphere_ability_rank ability' -> durable now db cid c ->
  match s_expiration sg with Some e => (default clock now <= e)%N | None => True end ->
  sign rng sg = Ok u -> ucan_encode u = Ok jwt -> authentic (Cid := Cid) db (token_cid jwt) (as_bytes jwt) ->
  durable now db (token_cid jwt) (mkChain u [c] []) /\ sphere_chain (Url := Url) identity ability (mkChain u [c] []).
Proof.
  intros Hh Hch Hr Hd Hexp Es Ej Ha. pose proof Hh as [_ _ _ Hcap _ _].
  destruct (sign_inv _ _ _ Es) as (Hwf & _ & _ & _ & _ & _ & _ & Hcaps).
  destruct (one_capability (capability_of_view (Url := Url) (generate_capability identity ability)) eq_refl) as (caps & Ec & Hit).
  assert (capabilities_iter (capabilities u) = [capability_of_view (Url := Url) (generate_capability identity ability)]) as Hci by (rewrite Hcap in Hcaps; congruence).
  split; [|by eapply sphere_chain_link]. intros db' Hle.
  destruct (token_readable db' u jwt Hwf Ej (Hle _ _ Ha)) as (Et & Eu & _). exists jwt, u. split; [done|]. split; [done|].
  destruct (Hd db' Hle) as (token & u' & Et' & Eu' & Hv). by eapply hands_on_valid.
Qed.

Definition with_delegation (m : SphereMutation Cid) op : SphereMutation Cid :=
  mkSphereMutation (author_did m) (content_mutation m) (identities_mutation m)
    (mkMapMutation (mutation_did (delegations_mutation m)) (mutation_changes (delegations_mutation m) ++ [op]))
    (revocations_mutation m).

(** What an author who hands on the authority of the token at [cid] needs. *)
Record delegate ctx x (cid : Cid) c (did identity : string) : Prop := {
  delegate_at : at_version ctx x;
  delegate_writable : writable (Url := Url) supported_keys fuel walk_fuel clock ctx;
  delegate_authorization : author_authorization (ctx_author ctx) = Some (AuthCid cid);
  delegate_did : get_did (author_key (ctx_author ctx)) = Ok did;
  delegate_key : key_resolves ctors (author_key (ctx_author ctx));
  delegate_signs : forall b, exists sig, key_sign (author_key (ctx_author ctx)) b = Ok sig;
  delegate_sphere : Sphere.identity (ver_ipld x) = identity /\ ctx_identity ctx = identity /\ exists k, resolve ctors identity = Ok k;
  delegate_durable : durable None (ctx_db ctx) cid c;
  delegate_recorded : recorded x c;
  delegate_chain : sphere_chain (Url := Url) identity Authorize c;
  delegate_audience : audience (chain_ucan c) = did;
  delegate_begin : not_before (chain_ucan c) = None;
  delegate_cid : ucan_to_cid (chain_ucan c) = Ok cid;
}.

Lemma durable_live now db cid c : durable now db cid c ->
  match expires_at (chain_ucan c) with Some e => (default clock now <= e)%N | None => True end.
Proof.
  intros Hd. destruct (Hd db) as (token & u & _ & _ & Hv); [done|]. rewrite (chain_valid_ucan _ _ _ _ _ _ Hv).
  destruct Hv as [u ps rs Hv _ _]. unfold validation, is_expired in Hv. unfold expires_at.
  destruct (exp (payload u)) as [e|]; [|done]. destruct (N.ltb_spec e (default clock now)); [done|lia].
Qed.

(** [authorize] stores and adds to the pending changes a token for [other]. *)
Lemma authorize_spec rng ctx x cid c did identity name other :
  json_total -> delegate ctx x cid c did identity -> chain_depth c <= fuel -> chain_size c <= walk_fuel ->
  exists u cid' db', authorize (Url := Url) supported_keys fuel walk_fuel clock rng ctx name other =
      (Ok (AuthCid cid'), edited ctx db' (with_delegation (ctx_mutation ctx) (Add cid' (mkDelegation name cid')))) /\
    grown (ctx_db ctx) db' /\ durable None db' cid' (mkChain u [c] []) /\ ucan_to_cid u = Ok cid' /\
    sphere_chain (Url := Url) identity Authorize (mkChain u [c] []) /\ issuer u = did /\ audience u = other /\ not_before u = None.
Proof.
  intros Hj [[Hver Hx] Hw Hau Hdid Hkey Hsig (Hid & Hcid & k & Hk) Hd Hrec Hch Haud Hbeg _] Hf Hwf.
  unfold authorize. rewrite edited_access by done. cbn [try_with]. set (ctx1 := edited ctx _ _).
  assert (sphere_context ctx1 = with_access ctx (Some ReadWrite)) as Ectx by (unfold ctx1; by destruct ctx).
  assert (SphereContext.version ctx1 = Ok (ver_cid x)) as Hver1 by (cbn; by apply (at_version_context _ _ (conj Hver Hx))).
  rewrite Hver1. cbn [try_with]. rewrite Ectx. cbn [with_access ctx_author]. rewrite Hau. cbn [ok_or try_with].
  unfold context_verify_authorization. rewrite Hver1. cbn [outcome_bind].
  assert (context_db ctx1 = ctx_db ctx) as Edb by (unfold context_db; by rewrite Ectx). rewrite Edb.
  rewrite <- Hid in Hk. rewrite (recorded_verifies (ctx_db ctx) x cid c k Hx Hk Hd Hrec Hf Hwf). cbn [try_with].
  rewrite (durable_ucan _ _ _ _ Hd). cbn [try_with]. destruct Hx as (Hm & Hb & Hbody). unfold to_body, to_memo.
  rewrite (stored_load _ _ _ Hm). cbn [outcome_bind]. rewrite (stored_load _ _ _ Hb). cbn [try_with]. rewrite Hid.
  set (cap := capability_of_view (Url := Url) (generate_capability identity Authorize)).
  set (sg := mkSignable (author_key (ctx_author ctx)) other [cap] (expires_at (chain_ucan c)) None [] [cid_to_string cid] true).
  assert (build clock (match expires_at (chain_ucan c) with
    | Some expiry => with_expiration (with_nonce (claiming_capability (for_audience (issued_by builder_default (author_key (ctx_author ctx))) other) cap)) expiry
    | None => with_nonce (claiming_capability (for_audience (issued_by builder_default (author_key (ctx_author ctx))) other) cap)
    end) = Ok (mkSignable (author_key (ctx_author ctx)) other [cap] (expires_at (chain_ucan c)) None [] [] true)) as ->
    by by destruct (expires_at (chain_ucan c)).
  cbn [try_with authorization_cid]. change (push_proof _ _) with sg. destruct (one_capability cap eq_refl) as (caps & Ecap & _).
  destruct (sign_total rng sg did caps Hj Hdid Ecap Hsig) as (u & jwt & Es & Ej). rewrite Es. cbn [try_with]. rewrite Ej. cbn [try_with].
  unfold delegation_register. destruct (write_token_spec (ctx_db ctx) jwt) as (db' & Ew & Hle & Ha).
  pose proof (put_encoded_names (Cid := Cid) (ctx_db ctx) RAW (as_bytes jwt)) as Hn.
  unfold write_token in Ew |- *. cbn [ucan_write block_ucan_store block_ucan_write] in Ew |- *. rewrite Ew in Hn |- *. cbn [try_with snd] in *.
  exists u, (token_cid jwt), db'. cbn [delegation_jwt]. unfold ctx1. rewrite edited_put_db. unfold update_delegations.
  rewrite edited_put_mutation, edited_context. split; [done|]. split; [done|].
  destruct (sign_inv _ _ _ Es) as (Hwf' & _ & Hiss & _ & Hnb & Ha' & _).
  destruct (hands_on_chain None rng sg db' cid c identity Authorize Authorize u jwt) as [Hd' Hch']; try done.
  - split; cbn; try done; [congruence|]. destruct (expires_at (chain_ucan c)) as [e|]; [|done]. exists e. split; [done|lia].
  - by eapply durable_mono.
  - cbn. by apply (durable_live None _ _ _ Hd).
  - split; [done|]. destruct (token_readable db' u jwt Hwf' Ej Ha) as (_ & _ & Hc). split; [done|]. split; [done|].
    cbn in Hiss. split; [congruence|]. split; [done|]. exact Hnb.
Qed.

(** A change of the delegations of [x] alone, as it is saved. *)
Lemma recorded_saved (A : string -> Prop) db x m y u cid' name c : succeeds A db x m y -> recorded x c ->
  mutation_changes (delegations_mutation m) = [Add cid' (mkDelegation name cid')] ->
  mutation_changes (revocations_mutation m) = [] -> ucan_to_cid u = Ok cid' -> (v_revocations (ver_value x)).1 !! cid' = None ->
  recorded y (mkChain u [c] []).
Proof.
  intros (_ & _ & Ev & _) Hr Hmd Hmr Hu Hnr c' Hin. rewrite Ev. cbn [apply_value v_delegations v_revocations].
  rewrite !apply_part_fst, Hmd, Hmr. cbn. inversion Hin as [|? p ? Hp Hc]; subst.
  - exists cid', (mkDelegation name cid'). split; [done|]. by rewrite lookup_insert_eq.
  - cbn in Hp. apply list_elem_of_singleton in Hp as ->. destruct (Hr c' Hc) as (cid & d & E & Hd & Hrev).
    destruct (decide (cid' = cid)) as [->|Hne].
    + exists cid, (mkDelegation name cid). split; [done|]. by rewrite lookup_insert_eq.
    + exists cid, d. split; [done|]. by rewrite lookup_insert_ne.
Qed.

(** ** Revoking *)
Definition with_revocation (m : SphereMutation Cid) (cid : Cid) (rev : RevocationIpld) : SphereMutation Cid :=
  mkSphereMutation (author_did m) (content_mutation m) (identities_mutation m)
    (mkMapMutation (mutation_did (delegations_mutation m)) (mutation_changes (delegations_mutation m) ++ [Remove cid]))
    (mkMapMutation (mutation_did (revocations_mutation m)) (mutation_changes (revocations_mutation m) ++ [Add cid rev])).

Lemma delegations_lookup db x cid : holds db x ->
  exists ipld dels, to_body db (ver_cid x) = Ok ipld /\ get_delegations db (authority ipld) = Ok dels /\
    (vm_get dels cid).1 = Ok ((v_delegations (ver_value x)).1 !! cid).
Proof.
  intros (Hm & Hb & _ & _ & (auth & Ha & Hd & _)). exists (ver_ipld x). unfold to_body, to_memo, get_delegations.
  rewrite (stored_load _ _ _ Hm). cbn [outcome_bind]. rewrite (stored_load _ _ _ Hb), (stored_load _ _ _ Ha). cbn [outcome_bind].
  eexists. split; [done|]. split; [done|]. by destruct (vm_get_spec _ _ _ _ cid (view_at _ _ _ _ Hd)) as (vm & -> & _).
Qed.

Lemma revoke_authorization_spec ctx x auth cid d did :
  at_version ctx x -> writable (Url := Url) supported_keys fuel walk_fuel clock ctx ->
  is_authorizer_of (Url := Url) supported_keys fuel walk_fuel clock (ctx_db ctx) (author_key (ctx_author ctx)) auth = Ok true ->
  authorization_cid auth = Ok cid -> (v_delegations (ver_value x)).1 !! cid = Some d ->
  get_did (author_key (ctx_author ctx)) = Ok did -> (forall b, exists sig, key_sign (author_key (ctx_author ctx)) b = Ok sig) ->
  exists rev, revoke_authorization (Url := Url) supported_keys fuel walk_fuel clock ctx auth =
      (Ok tt, edited ctx (ctx_db ctx) (with_revocation (ctx_mutation ctx) cid rev)) /\
    revoke cid (author_key (ctx_author ctx)) = Ok rev.
Proof.
  intros Hat Hw Hau Hc Hd Hdid Hsig. pose proof Hat as [_ Hx]. unfold revoke_authorization. rewrite edited_access by done. cbn [try_with].
  set (ctx1 := edited ctx _ _). assert (sphere_context ctx1 = with_access ctx (Some ReadWrite)) as Ectx by (unfold ctx1; by destruct ctx).
  assert (context_db ctx1 = ctx_db ctx) as Edb by (unfold context_db; by rewrite Ectx). rewrite Edb, Ectx.
  cbn [with_access ctx_author]. rewrite Hau. cbn [try_with negb]. rewrite Hc. cbn [try_with].
  unfold context_version. cbn [ctx_db ctx_identity with_access]. rewrite (at_version_context _ _ Hat : require_version _ _ = _). cbn [try_with].
  destruct (delegations_lookup (ctx_db ctx) x cid Hx) as (ipld & dels & -> & Ed & El). cbn [try_with]. rewrite Ed. cbn [try_with].
  rewrite El, Hd. cbn [try_with]. destruct (Hsig (make_challenge_payload cid)) as [sig Esig]. unfold revoke. rewrite Hdid. cbn [outcome_bind].
  rewrite Esig. cbn [outcome_bind try_with]. eexists. split; [|done]. unfold update_delegations, update_revocations, ctx1. by destruct ctx.
Qed.

(** Once its delegation is gone, neither the token nor what was handed on from it
    is authorized. *)
Lemma unrecorded_rejected db x auth c c' cid k : holds db x -> resolve ctors (Sphere.identity (ver_ipld x)) = Ok k ->
  as_proof_chain (Url := Url) supported_keys fuel clock db auth = Ok c -> chain_size c <= walk_fuel ->
  (forall c', in_chain c' c -> exists cid, ucan_to_cid (chain_ucan c') = Ok cid /\
    (is_Some ((v_delegations (ver_value x)).1 !! cid) -> (v_revocations (ver_value x)).1 !! cid = None)) ->
  in_chain c' c -> ucan_to_cid (chain_ucan c') = Ok cid -> (v_delegations (ver_value x)).1 !! cid = None ->
  sphere_verify_authorization (Url := Url) supported_keys fuel walk_fuel clock db (ver_cid x) auth = Err "Not found in sphere authority".
Proof.
  intros Hx Hk Ec Hw Hall Hin Hc Hn. destruct (sphere_authority_spec db x Hx) as (a & Ea & Hai & Hdel & Hrev).
  unfold sphere_verify_authorization, verify_authorization. rewrite Ec. cbn [outcome_bind].
  rewrite Ea. cbn [outcome_bind]. unfold to_credential. rewrite Hai.
  destruct (did_parse_spec (did_parser_new supported_keys) (Sphere.identity (ver_ipld x)) (did_parser_new_ok _)) as (p & -> & _). cbn [fst].
  rewrite Hk. cbn [outcome_bind]. apply verify_links_unrecorded.
  - cbn. lia.
  - intros l c2 ->%list_elem_of_singleton Hin2. destruct (Hall c2 Hin2) as (cid2 & E2 & Hr2). exists cid2. split; [done|].
    rewrite Hdel, Hrev. destruct (_ !! cid2) as [d|] eqn:Ed; [|by left]. right. exists d. split; [done|]. f_equal. by apply Hr2.
  - exists c, c', cid. split; [by apply list_elem_of_singleton|]. split; [done|]. split; [done|]. by rewrite Hdel, Hn.
Qed.

(** ** Link records *)

(** A chain that is valid now is valid at any time before its head expires. *)
Lemma valid_at db u c t : valid clock None db ctors u c ->
  match expires_at u with Some e => (t <= e)%N | None => True end -> valid clock (Some t) db ctors u c.
Proof.
  revert u. induction c as [u0 ps rs IH] using ProofChain_ind'. intros u Hv Ht. inversion Hv as [? ? ? Hval HF Hr]; subst.
  constructor; [| |done].
  - unfold validation, is_expired in *. unfold expires_at in Ht. cbn [default from_option id] in *.
    destruct (exp (payload u0)) as [e|]; [|exact Hval]. destruct (N.ltb_spec e t); [lia|]. destruct (e <? clock)%N; [done|exact Hval].
  - clear Hval Hv Hr. induction HF as [|s p ss ps (cid & token & u' & E1 & E2 & E3 & Hp & Hl) _ IHF]; [constructor|].
    apply Forall_cons_1 in IH as [IHp IHps]. constructor; [|by apply IHF]. exists cid, token, u'. split_and!; try done.
    apply IHp; [done|]. apply validate_link_ok in Hl as [_ Hl]. rewrite (chain_valid_ucan _ _ _ _ _ _ Hp) in Hl.
    unfold lifetime_encompasses, lifetime_ends_after in Hl. apply andb_true_iff in Hl as [_ Hl]. unfold expires_at in *.
    destruct (exp (payload u')) as [e'|]; [|done]. destruct (exp (payload u0)) as [e|]; [|done]. apply N.leb_le in Hl. lia.
Qed.

Lemma durable_at db cid c t : durable None db cid c ->
  match expires_at (chain_ucan c) with Some e => (t <= e)%N | None => True end -> durable (Some t) db cid c.
Proof.
  intros Hd Ht db' Hle. destruct (Hd db' Hle) as (token & u & Et & Eu & Hv). exists token, u. split; [done|]. split; [done|].
  apply valid_at; [done|]. by rewrite <- (chain_valid_ucan _ _ _ _ _ _ Hv).
Qed.

Lemma sign_facts rng (sg : Signable Key) u : sign rng sg = Ok u ->
  fct (payload u) = if bool_decide (s_facts sg = []) then None else Some (s_facts sg).
Proof.
  unfold sign, ucan_payload. destruct (get_did _); cbn [outcome_bind expect]; try done.
  destruct (capabilities_of_vec _); cbn [outcome_bind expect]; try done.
  destruct (jwt_base64_encode (ucan_header sg)); cbn [outcome_bind]; try done.
  match goal with |- context [jwt_base64_encode ?pl] => destruct (jwt_base64_encode pl) end; cbn [outcome_bind]; try done.
  destruct (key_sign _ _); cbn [outcome_bind]; try done. by intros [= <-].
Qed.

(** A record that heads a chain from the sphere itself, and that names a version,
    is accepted. *)
Lemma record_accepted db record c identity (v : Cid) e :
  valid clock (Some (e - 1)%N) db ctors record c -> sphere_chain (Url := Url) identity Publish c -> chain_depth c <= fuel ->
  opaque_path identity = true -> identity <> "*" -> audience record = identity -> get_link record = Some v ->
  not_before record = None -> expires_at record = Some e -> (1 <= e)%N ->
  link_record_validate (Url := Url) (Cid := Cid) supported_keys fuel clock db record = Ok tt.
Proof.
  intros Hv Hch Hf Hop Hstar Ha Hl Hnb He He1. unfold link_record_validate. rewrite Hl. unfold publish_time. rewrite Hnb, He.
  destruct (N.eqb_spec e 0); [lia|]. cbn [outcome_bind].
  destruct (from_ucan_complete clock (Some (e - 1)%N) db ctors fuel record (did_parser_new supported_keys) c) as (p & -> & Hp); [done..|].
  cbn [outcome_bind]. destruct (sphere_chain_reduces identity Publish c Hch Hop Hstar) as (i & -> & Ho & Hi). cbn [outcome_bind].
  unfold to_sphere_identity. rewrite Ha.
  assert (grants (Url := Url) identity Publish [i] = true) as ->.
  { apply grants_spec. exists i. split; [constructor|]. rewrite Ho, Hi. split; [by apply elem_of_singleton|]. by apply generate_enables. }
  cbn [negb]. destruct Hp as [Hp Hct]. unfold check_signature.
  destruct (did_parse_spec p (iss (payload record)) Hp) as (p' & -> & _). rewrite Hct.
  destruct Hv as [u ps rs Hval _ _]. unfold validation in Hval. destruct (is_expired _ _ _); [done|]. destruct (is_too_early _ _); [done|].
  change (iss (payload u)) with (issuer u). destruct (resolve ctors (issuer u)) as [key| | |]; cbn [outcome_bind try_with fst] in *; try done.
  by rewrite Hval.
Qed.

(** [create_link_record] makes such a record, for the latest version. *)
Lemma create_link_record_spec rng ctx x cid c did identity seconds :
  json_total -> delegate ctx x cid c did identity -> chain_depth c < fuel -> opaque_path identity = true -> identity <> "*" ->
  (1 <= clock + seconds)%N -> (clock + seconds < 2 ^ 64)%N ->
  match expires_at (chain_ucan c) with Some e => (clock + seconds <= e)%N | None => True end ->
  exists record jwt db', create_link_record (Url := Url) supported_keys fuel walk_fuel clock rng ctx (Some seconds) =
      (Ok record, edited ctx db' (ctx_mutation ctx)) /\
    grown (ctx_db ctx) db' /\ get_link record = Some (ver_cid x) /\ to_sphere_identity record = identity /\ issuer record = did /\
    ucan_encode record = Ok jwt /\ authentic db' (token_cid jwt) (as_bytes jwt) /\
    forall db2, store_le db' db2 ->
      link_record_validate (Url := Url) (Cid := Cid) supported_keys fuel clock db2 record = Ok tt.
Proof.
  intros Hj [Hat Hw Hau Hdid Hkey Hsig (Hid & Hcid & _) Hd Hrec Hch Haud Hbeg Hself] Hf Hop Hstar Hs1 Hs2 Hexp.
  unfold create_link_record. rewrite edited_access by done. cbn [try_with]. set (ctx1 := edited ctx _ _).
  assert (sphere_context ctx1 = with_access ctx (Some ReadWrite)) as Ectx by (unfold ctx1; by destruct ctx). rewrite Ectx.
  cbn [ctx_author ctx_identity ctx_db with_access]. unfold context_version. cbn [ctx_db ctx_identity with_access].
  rewrite (at_version_context _ _ Hat : require_version _ _ = _). cbn [try_with]. rewrite Hau.
  rewrite (durable_ucan _ _ _ _ Hd). cbn [try_with outcome_bind]. unfold witnessed_by. rewrite Hself. rewrite Hcid.
  set (cap := capability_of_view (Url := Url) (generate_capability identity Publish)).
  set (facts := btree_insert [] LINK_RECORD_FACT_NAME (VString (cid_to_string (ver_cid x)))).
  set (sg := mkSignable (author_key (ctx_author ctx)) identity [cap] (Some (clock + seconds)%N) None facts [cid_to_string cid] true).
  match goal with |- context [build clock ?b] => assert (build clock b = Ok sg) as -> end.
  { unfold build, implied_expiration. cbn -[N.ltb cap btree_insert]. apply N.ltb_lt in Hs2. by rewrite Hs2. }
  cbn [try_with]. destruct (one_capability cap eq_refl) as (caps & Ecap & _).
  destruct (sign_total rng sg did caps Hj Hdid Ecap Hsig) as (u & jwt & Es & Ej). rewrite Es. cbn [try_with]. rewrite Ej. cbn [try_with].
  destruct (write_token_spec (ctx_db ctx) jwt) as (db' & Ew & Hle & Ha).
  pose proof (put_encoded_names (Cid := Cid) (ctx_db ctx) RAW (as_bytes jwt)) as Hn.
  unfold write_token in Ew |- *. cbn [ucan_write block_ucan_store block_ucan_write] in Ew |- *. rewrite Ew in Hn |- *. cbn [try_with snd] in *.
  exists u, jwt, db'. unfold ctx1. rewrite edited_put_db. split; [done|]. split; [done|].
  destruct (sign_inv _ _ _ Es) as (_ & _ & Hiss & He & Hnb & Ha' & _). cbn in Hiss, He, Hnb, Ha'.
  assert (get_link u = Some (ver_cid x)) as Hlink.
  { unfold get_link. rewrite (sign_facts _ _ _ Es). cbn -[cid_to_string cid_of_string]. rewrite decide_True by done. cbn -[cid_to_string cid_of_string]. by rewrite cid_of_to_string. }
  split; [done|]. split; [done|]. split; [congruence|]. split; [done|]. split; [done|]. intros db2 Hle2.
  assert (store_le (ctx_db ctx) db2) as Hle02 by by transitivity db'.
  destruct (hands_on_chain (Some (clock + seconds - 1)%N) rng sg db2 cid c identity Publish Authorize u jwt) as [Hd' Hch']; try done.
  - split; cbn; try done; [congruence|]. destruct (expires_at (chain_ucan c)) as [e|]; [|done]. exists (clock + seconds)%N. done.
  - cbn. lia.
  - eapply durable_mono; [exact Hle02|]. apply durable_at; [done|]. destruct (expires_at (chain_ucan c)); [lia|done].
  - cbn. lia.
  - by apply Hle2.
  - destruct (Hd' db2) as (token & u' & Et & Eu & Hv); [done|]. pose proof (chain_valid_ucan _ _ _ _ _ _ Hv) as Hu'. cbn in Hu'. subst u'.
    eapply record_accepted; [exact Hv|exact Hch'|cbn; lia|done..].
Qed.

(** ** The owner of a new sphere *)

(** An author who holds such a token can sign with it. *)
Lemma delegate_can_sign ctx x cid c did identity : json_total -> delegate ctx x cid c did identity -> (clock + 120 < 2 ^ 64)%N ->
  can_sign (Url := Url) (ctx_db ctx) clock (author_key (ctx_author ctx)) (author_authorization (ctx_author ctx)) did.
Proof.
  intros Hj [_ _ Hau Hdid _ Hsig _ Hd _ _ _ _ Hself] Hc. split; [done|]. split; [done|]. rewrite Hau. intros db' rng identity' Hle.
  exists (chain_ucan c). unfold revision_proof, witnessed_by. rewrite Hself.
  set (cap := capability_of_view (Url := Url) (generate_capability identity' Publish)). destruct (one_capability cap eq_refl) as (caps & Ecap & _).
  destruct (sign_total rng (mkSignable (author_key (ctx_author ctx)) identity' [cap] (Some (clock + 120)%N) None [] [cid_to_string cid] true)
    did caps Hj Hdid Ecap Hsig) as (u & jwt & Es & Ej).
  exists u, jwt. split; [exact (durable_ucan _ _ _ _ (durable_mono _ _ _ _ _ Hle Hd))|]. split; [|done].
  unfold build, implied_expiration. cbn -[N.ltb cap]. apply N.ltb_lt in Hc. rewrite Hc. exact Es.
Qed.

Context (sphere_key owner_key : Key) (identity did : string).
Context (Hidentity : get_did sphere_key = Ok identity) (Hsphere : key_resolves ctors sphere_key).
Context (Hsphere_signs : forall b, exists sig, key_sign sphere_key b = Ok sig).
Context (Hdid : get_did owner_key = Ok did) (Howner : key_resolves ctors owner_key).
Context (Howner_signs : forall b, exists sig, key_sign owner_key b = Ok sig).
Context (Hpath : opaque_path identity = true) (Hstar : identity <> "*").

(** A context of the owner, at a version that [generate] made, in any database that
    has the version and the token. *)
Lemma root_delegate ctx y rng start sg u jwt :
  at_version ctx y -> authentic (ctx_db ctx) (token_cid jwt) (as_bytes jwt) ->
  ctx_identity ctx = identity -> ctx_author ctx = mkAuthor owner_key (Some (AuthCid (token_cid jwt))) -> ctx_access ctx = None ->
  Sphere.identity (ver_ipld y) = identity -> ver_value y = apply_value (owner_mutation identity (token_cid jwt)) empty_value ->
  sign rng sg = Ok u -> ucan_encode u = Ok jwt -> root_token (Url := Url) u identity did Authorize ->
  s_issuer sg = sphere_key -> s_expiration sg = Some (start + SPHERE_LIFETIME)%N -> s_not_before sg = None ->
  (clock <= start + SPHERE_LIFETIME)%N -> 0 < fuel -> 0 < walk_fuel ->
  delegate ctx y (token_cid jwt) (mkChain u [] []) did identity.
Proof.
  intros [Hver Hy] Hau Hcid Hauth Hacc Hid Ev Eu Ej (Hi & Ha & Hp & Hcap) Hiss Hexp Hnbf Hnow Hf Hw.
  destruct (sign_inv _ _ _ Eu) as (Hwf & _ & _ & He & Hnb & _ & _ & _).
  assert (durable None (ctx_db ctx) (token_cid jwt) (mkChain u [] [])) as Hd.
  { intros db' Hle'. destruct (token_readable db' u jwt Hwf Ej (Hle' _ _ Hau)) as (Et & Eu' & _). exists jwt, u.
    split; [done|]. split; [done|]. constructor; [|by rewrite Hp; constructor|by eapply no_redelegations].
    eapply signed_validates; [rewrite Hiss; exact Hsphere|exact Eu|rewrite Hexp; exact Hnow|by rewrite Hnbf]. }
  assert (recorded y (mkChain u [] [])) as Hrec.
  { intros c' Hin. apply in_chain_links in Hin. cbn in Hin. apply list_elem_of_singleton in Hin as ->.
    exists (token_cid jwt), (mkDelegation "(OWNER)" (token_cid jwt)). unfold ucan_to_cid. cbn [chain_ucan]. rewrite Ej. split; [done|].
    rewrite Ev. cbn [apply_value v_delegations v_revocations]. rewrite !apply_part_fst. cbn. by rewrite lookup_insert_eq. }
  assert (sphere_chain (Url := Url) identity Authorize (mkChain u [] [])) as Hch by by constructor.
  pose proof Hsphere as (identity' & k & Ed & Ek & _). assert (identity' = identity) as -> by congruence. rewrite Hcid in Hver.
  split; rewrite ?Hauth; cbn [author_key author_authorization chain_ucan]; try done.
  - split; [by rewrite Hcid|done].
  - unfold writable, context_access. rewrite Hacc, Hauth, Hcid. cbn [author_key author_authorization].
    rewrite (require_version_spec _ _ _ Hver).
    rewrite (recorded_access (ctx_db ctx) y (token_cid jwt) (mkChain u [] []) k owner_key did identity Authorize); cbn; try done; lia.
  - split; [done|]. split; [done|]. by exists k.
  - unfold not_before in *. congruence.
  - unfold ucan_to_cid. by rewrite Ej.
Qed.

(** A context of the owner, at the version that [generate] made. *)
Lemma owner_delegate rng start mnemonic db :
  json_total -> (start + SPHERE_LIFETIME < 2 ^ 64)%N -> (clock <= start + SPHERE_LIFETIME)%N -> 0 < fuel -> 0 < walk_fuel ->
  exists sg u jwt y db1 db2 ctx,
    generate (Url := Url) rng start sphere_key (Ok mnemonic) did db = (Ok (ver_cid y, AuthUcan u, mnemonic), db1) /\
    set_version db1 identity (ver_cid y) = (Ok tt, db2) /\
    context_new identity (mkAuthor owner_key (Some (AuthCid (token_cid jwt)))) db2 None = Ok ctx /\
    owner_signable (Url := Url) start sphere_key identity did = Ok sg /\ sign rng sg = Ok u /\ ucan_encode u = Ok jwt /\
    delegate ctx y (token_cid jwt) (mkChain u [] []) did identity /\ ctx_mutation ctx = sphere_mutation_new did /\
    ver_value y = apply_value (owner_mutation identity (token_cid jwt)) empty_value /\ lamport_order (ver_memo y) = 1%N /\
    expires_at u = Some (start + SPHERE_LIFETIME)%N /\ values (headers (ver_memo y)) CONTENT_TYPE = ["noo/sphere"].
Proof.
  intros Hj Hl Hnow Hf Hw.
  destruct (generate_spec rng start sphere_key mnemonic identity did db Hj Hidentity Hsphere_signs Hl)
    as (sg & u & jwt & x & y & db1 & E & Hle & Esg & Eu & Ej & Hu & Hiss & Hexp & Hnbf & Hau & Hx & Ex & _ & Hlam & Hidx & Hctx & Hy).
  destruct (set_version_spec db1 identity (ver_cid y)) as (db2 & E2 & Hsame & _ & Hver & _). apply same_blocks_le in Hsame.
  destruct Hy as (Hy & _ & Ev & Hid & _ & Hl' & Hct & _). rewrite Hctx in Hct. rewrite Hidx in Hid. rewrite Ex in Ev. rewrite Hlam in Hl'.
  destruct (sign_inv _ _ _ Eu) as (_ & _ & _ & He & _). fold (token_cid (Cid := Cid) jwt) in Hau, Ev.
  exists sg, u, jwt, y, db1, db2. unfold context_new. cbn [author_key]. rewrite Hdid. cbn [outcome_bind]. eexists.
  split; [exact E|]. split; [exact E2|]. split; [done|]. split; [done|]. split; [done|]. split; [done|].
  split; [|split; [done|split; [done|split; [lia|split; [unfold expires_at in *; congruence|done]]]]].
  eapply root_delegate; cbn; try done; [split; [done|exact (holds_mono _ _ _ Hsame Hy)]|by apply Hsame].
Qed.
End delegation.

(** ** Recovering the authority over a sphere *)
(** ** Removing and adding the entries of a map *)
Section ops.
Context {K V : Type} `{Countable K}.

Lemma apply_removes (ks : list K) : forall (g : gmap K V) k,
  apply_ops g (Remove <$> ks) !! k = if decide (k ∈ ks) then None else g !! k.
Proof.
  induction ks as [|k' ks IH]; intros g k; [done|]. rewrite fmap_cons, apply_ops_cons, IH, apply_op_lookup. cbn [change_key].
  destruct (decide (k ∈ ks)) as [Hin|Hin].
  - rewrite decide_True; [done|by right].
  - destruct (decide (k' = k)) as [->|Hne]; [rewrite decide_True; [done|by left]|]. rewrite decide_False; [done|]. set_solver.
Qed.

Lemma apply_adds (kvs : list (K * V)) : forall (g : gmap K V) k,
  (k ∈ kvs.*1 -> is_Some (apply_ops g ((fun kv => Add kv.1 kv.2) <$> kvs) !! k)) /\
  (k ∉ kvs.*1 -> apply_ops g ((fun kv => Add kv.1 kv.2) <$> kvs) !! k = g !! k).
Proof.
  induction kvs as [|[k' v] kvs IH]; intros g k; [split; [by intros ?%elem_of_nil|done]|].
  rewrite !fmap_cons. cbn [fst snd]. destruct (IH (apply_op g (Add k' v)) k) as [Hin Hout]. rewrite apply_ops_cons. split.
  - intros [->|Hk]%elem_of_cons; [|auto]. destruct (decide (k' ∈ kvs.*1)) as [Hk'|Hk']; [auto|]. rewrite Hout by done.
    rewrite apply_op_lookup. cbn. rewrite decide_True by done. by eexists.
  - intros [Hne Hk]%not_elem_of_cons. rewrite Hout by done. rewrite apply_op_lookup. cbn. by rewrite decide_False.
Qed.
End ops.

Section recovery.
Context {Key Url Cid B KV Net : Type} `{UnicodeLaws}.
Context `{KeyMaterial Key} `{Bs58} `{Base64Laws} `{!Base64Ascii} `{DagJsonLaws UcanHeader} `{DagJsonLaws UcanPayload} `{UrlLaws Url}.
Context `{Countable Cid} `{HashAlgorithmLaws string} `{HashAlgorithmLaws Cid} `{KeyOrderLaws Cid}.
Context `{CidLaws Cid} `{!BlockStore B Cid} `{!BlockStoreLaws B Cid} `{StoreLaws KV}.
Context `{!SphereCodecs Cid} `{!SphereCodecsLaws Cid} `{!EntryCodecs Cid} `{!EntryCodecsLaws Cid}.
Context `{!ContextCodecs Cid} `{!ContextCodecsLaws Cid}.
Context (supported_keys : list (bytes * (bytes -> outcome Key))).
Context (fuel walk_fuel : nat) (clock : N).
Notation SphereDb := (SphereDb B KV).
Notation version := (SphereRebase.version (Cid := Cid)).
Notation context := (SphereContext (Key := Key) (Cid := Cid) (B := B) (KV := KV)).
Notation ctors := (key_constructors (did_parser_new supported_keys)).
#[local] Existing Instance block_ucan_store.
Implicit Types (db : SphereDb) (ctx : context) (x y : version) (c : ProofChain).

(** The pending changes after the delegations [keys] are revoked by [revs]. *)
Definition with_revocations (m : SphereMutation Cid) (keys : list Cid) (revs : list (Cid * RevocationIpld)) : SphereMutation Cid :=
  mkSphereMutation (author_did m) (content_mutation m) (identities_mutation m)
    (mkMapMutation (mutation_did (delegations_mutation m)) (mutation_changes (delegations_mutation m) ++ (Remove <$> keys)))
    (mkMapMutation (mutation_did (revocations_mutation m))
      (mutation_changes (revocations_mutation m) ++ ((fun kv => Add kv.1 kv.2) <$> revs))).

Lemma with_revocations_app m keys revs keys' revs' :
  with_revocations (with_revocations m keys revs) keys' revs' = with_revocations m (keys ++ keys') (revs ++ revs').
Proof. unfold with_revocations. cbn. by rewrite !fmap_app, !app_assoc. Qed.

Lemma revoke_entries_spec (key : Key) did : get_did key = Ok did -> (forall b, exists sig, key_sign key b = Ok sig) ->
  forall (entries : list (Cid * DelegationIpld Cid)) ctx, exists revs, revs.*1 = entries.*1 /\
    for_each_st (revoke_entry key) entries ctx = (Ok tt, with_mutation ctx (with_revocations (ctx_mutation ctx) entries.*1 revs)).
Proof.
  intros Hd Hs. induction entries as [|[cid d] entries IH]; intros ctx.
  { exists []. split; [done|]. cbn. unfold with_revocations. cbn. rewrite !app_nil_r. by destruct ctx as [? ? ? ? ? ? [? [] [] [] []]]. }
  destruct (Hs (make_challenge_payload cid)) as [sig Esig].
  assert (exists rev, revoke_entry key (cid, d) ctx = (Ok tt, with_mutation ctx (with_revocations (ctx_mutation ctx) [cid] [(cid, rev)]))) as [rev E1].
  { unfold revoke_entry, revoke. cbn [fst]. rewrite Hd. cbn [outcome_bind]. rewrite Esig. cbn [outcome_bind try_with]. eexists. by destruct ctx. }
  destruct (IH (with_mutation ctx (with_revocations (ctx_mutation ctx) [cid] [(cid, rev)]))) as (revs & Ek & E2).
  exists ((cid, rev) :: revs). split; [by rewrite !fmap_cons, Ek|]. cbn [for_each_st]. rewrite E1. cbn [try_with]. rewrite E2.
  cbn [ctx_mutation with_mutation]. rewrite with_revocations_app. by destruct ctx.
Qed.

(** The delegations of a version, as they are streamed. *)
Lemma delegation_entries_spec db x : holds db x -> levels DEFAULT_BIT_WIDTH * size (v_delegations (ver_value x)).1 <= walk_fuel ->
  exists entries, delegation_entries walk_fuel db (ver_cid x) = Ok (entries, Ok tt) /\ entries ≡ₚ map_to_list (v_delegations (ver_value x)).1.
Proof.
  intros (Hm & Hb & _ & _ & (auth & Ha & Hd & _)) Hf. unfold delegation_entries, to_body, to_memo, get_delegations.
  rewrite (stored_load _ _ _ Hm). cbn [outcome_bind]. rewrite (stored_load _ _ _ Hb). cbn [outcome_bind]. rewrite (stored_load _ _ _ Ha).
  cbn [outcome_bind]. by destruct (vm_into_stream_spec _ _ _ walk_fuel Hd Hf) as (entries & -> & Hp); exists entries.
Qed.

(** What the author who recovers needs: the key of the sphere. *)
Record root ctx x (identity : string) : Prop := {
  root_at : at_version ctx x;
  root_sphere : Sphere.identity (ver_ipld x) = identity /\ ctx_identity ctx = identity;
  root_did : get_did (author_key (ctx_author ctx)) = Ok identity;
  root_key : key_resolves ctors (author_key (ctx_author ctx));
  root_signs : forall b, exists sig, key_sign (author_key (ctx_author ctx)) b = Ok sig;
  root_authorization : author_authorization (ctx_author ctx) = None;
  root_access : ctx_access ctx <> Some ReadOnly;
}.

Lemma root_writable ctx x identity : root ctx x identity -> writable (Url := Url) supported_keys fuel walk_fuel clock ctx.
Proof.
  intros [_ [_ Hid] Hdid _ _ _ Hacc]. unfold writable, context_access. destruct (ctx_access ctx) as [[]|] eqn:E; [done|done|].
  unfold access_to. rewrite Hdid. cbn [outcome_bind]. rewrite bool_decide_true by done. done.
Qed.

Lemma recover_authority_spec rng ctx x identity owner :
  json_total -> root ctx x identity -> levels DEFAULT_BIT_WIDTH * size (v_delegations (ver_value x)).1 <= walk_fuel ->
  (clock + SPHERE_LIFETIME < 2 ^ 64)%N ->
  exists entries revs u cid' db',
    recover_authority (Url := Url) supported_keys fuel walk_fuel clock rng ctx owner =
      (Ok (AuthCid cid'), edited ctx db' (with_delegation (with_revocations (ctx_mutation ctx) entries.*1 revs) (Add cid' (mkDelegation "(OWNER)" cid')))) /\
    grown (ctx_db ctx) db' /\ revs.*1 = entries.*1 /\ entries ≡ₚ map_to_list (v_delegations (ver_value x)).1 /\
    durable (Url := Url) supported_keys clock None db' cid' (mkChain u [] []) /\ ucan_to_cid u = Ok cid' /\
    sphere_chain (Url := Url) identity Authorize (mkChain u [] []) /\ audience u = owner /\ expires_at u = Some (clock + SPHERE_LIFETIME)%N.
Proof.
  intros Hj Hroot Hf Hl. pose proof (root_writable _ _ _ Hroot) as Hw. destruct Hroot as [Hat [Hsid Hid] Hdid Hkey Hsig _ _]. pose proof Hat as [_ Hx].
  unfold recover_authority. rewrite edited_access by done. cbn [try_with]. set (ctx1 := edited ctx _ _).
  assert (sphere_context ctx1 = with_access ctx (Some ReadWrite)) as Ectx by (unfold ctx1; by destruct ctx). rewrite Ectx.
  cbn [ctx_author ctx_identity with_access]. rewrite Hdid. cbn [try_with]. rewrite Hid, bool_decide_true by done. cbn [negb].
  unfold context_version. cbn [ctx_db ctx_identity with_access]. rewrite (at_version_context _ _ Hat : require_version _ _ = _). cbn [try_with].
  assert (context_db ctx1 = ctx_db ctx) as Edb by (unfold context_db; by rewrite Ectx). rewrite Edb.
  destruct (delegation_entries_spec (ctx_db ctx) x Hx Hf) as (entries & -> & Hp). cbn [try_with].
  destruct (revoke_entries_spec (author_key (ctx_author ctx)) identity Hdid Hsig entries (with_access ctx (Some ReadWrite))) as (revs & Ek & ->).
  cbn [try_with ctx_mutation with_access].
  set (cap := capability_of_view (Url := Url) (generate_capability identity Authorize)).
  set (sg := mkSignable (author_key (ctx_author ctx)) owner [cap] (Some (clock + SPHERE_LIFETIME)%N) None [] [] true).
  match goal with |- context [build clock ?b] => assert (build clock b = Ok sg) as -> end.
  { unfold build, implied_expiration. cbn -[N.ltb cap SPHERE_LIFETIME]. apply N.ltb_lt in Hl. by rewrite Hl. }
  cbn [try_with]. destruct (one_capability cap eq_refl) as (caps & Ecap & Hit).
  destruct (sign_total rng sg identity caps Hj Hdid Ecap Hsig) as (u & jwt & Es & Ej). rewrite Es. cbn [try_with]. rewrite Ej. cbn [try_with].
  unfold delegation_register. destruct (write_token_spec (ctx_db ctx) jwt) as (db' & Ew & Hle & Ha).
  pose proof (put_encoded_names (Cid := Cid) (ctx_db ctx) RAW (as_bytes jwt)) as Hn.
  unfold write_token in Ew |- *. cbn [ucan_write block_ucan_store block_ucan_write] in Ew |- *.
  match goal with |- context [context_db ?c'] => change (context_db c') with (ctx_db ctx) end.
  rewrite Ew in Hn |- *. cbn [try_with snd] in *.
  exists entries, revs, u, (token_cid jwt), db'. cbn [delegation_jwt]. split; [by destruct ctx|]. split; [done|]. split; [done|]. split; [done|].
  destruct (sign_inv _ _ _ Es) as (Hwf & _ & Hiss & He & Hnb & Haud & Hpr & Hcaps). cbn in Hiss, He, Hnb, Haud, Hpr. cbn [sg s_capabilities] in Hcaps.
  assert (capabilities u = caps) as Hcu by congruence. rewrite <- Hcu in Hit.
  destruct (token_readable db' u jwt Hwf Ej Ha) as (_ & _ & Hc). split; [|split; [done|split; [|done]]].
  - intros db2 Hle2. destruct (token_readable db2 u jwt Hwf Ej (Hle2 _ _ Ha)) as (Et & Eu' & _). exists jwt, u. split; [done|]. split; [done|].
    constructor; [|by rewrite Hpr; constructor|by eapply no_redelegations].
    apply (signed_validates clock None ctors rng sg u Hkey Es); [cbn -[SPHERE_LIFETIME]; lia|done].
  - constructor; [congruence|done].
Qed.

(** What the saved recovery makes of the authority. *)
Lemma recovered_value (A : string -> Prop) db x did (entries : list (Cid * DelegationIpld Cid)) revs cid' d y :
  succeeds A db x (with_delegation (with_revocations (sphere_mutation_new did) entries.*1 revs) (Add cid' d)) y ->
  revs.*1 = entries.*1 -> entries ≡ₚ map_to_list (v_delegations (ver_value x)).1 ->
  (v_delegations (ver_value y)).1 = {[cid' := d]} /\
  (forall cid, is_Some ((v_delegations (ver_value x)).1 !! cid) -> is_Some ((v_revocations (ver_value y)).1 !! cid)) /\
  (forall cid, (v_delegations (ver_value x)).1 !! cid = None ->
    (v_revocations (ver_value y)).1 !! cid = (v_revocations (ver_value x)).1 !! cid).
Proof.
  intros (_ & _ & Ev & _) Ek Hp. rewrite Ev. cbn [apply_value v_delegations v_revocations]. rewrite !apply_part_fst.
  cbn [with_delegation with_revocations sphere_mutation_new map_mutation_new delegations_mutation revocations_mutation mutation_changes app].
  assert (forall cid, cid ∈ entries.*1 <-> is_Some ((v_delegations (ver_value x)).1 !! cid)) as Hin.
  { intros cid. rewrite Hp, list_elem_of_fmap. split.
    - intros ([k e] & -> & Hk%elem_of_map_to_list). by eexists.
    - intros [e He]. exists (cid, e). split; [done|]. by apply elem_of_map_to_list. }
  split; [|split].
  - rewrite apply_ops_app. apply map_eq. intros cid. cbn. destruct (decide (cid = cid')) as [->|Hne]; [by rewrite lookup_insert_eq, lookup_singleton_eq|].
    rewrite lookup_insert_ne, lookup_singleton_ne by done. rewrite apply_removes. destruct (decide _) as [_|Hn]; [done|].
    destruct (_ !! cid) eqn:E; [|done]. destruct Hn. apply Hin. by eexists.
  - intros cid Hc. apply apply_adds. rewrite Ek. by apply Hin.
  - intros cid Hc. apply apply_adds. rewrite Ek, Hin, Hc. by intros [? ?].
Qed.
End recovery.
