(* ===== verification/ClientProofs.v ===== *)
(** * Facts about the requests of a client

    The headers of a request carry the whole chain of tokens that the authorization
    of the author rests on; a gateway of the sphere, whatever it has in its store,
    authorizes the request. *)
From stdpp Require Import base gmap list numbers strings pretty.
From Stdlib Require Import Ascii String.
From S2P Require Import Prelude BlockStore HamtNode HamtRep Hamt HamtSpec BTree SphereDb BodyChunk.
From S2P Require Import VersionedMap UcanCapability Ucan UcanChain UcanProofs.
From S2P Require Import Authority AuthorityProofs Memo Sphere SphereProofs SphereHistory SphereRebase.
From S2P Require Import SphereGenesis Bundle BundleProofs Stream SphereContext SphereContextProofs ContextAuthority Api.
#[local] Open Scope list_scope.
#[local] Notation length := List.length (only parsing).

Section requests.
Context {Key Url Cid S G : Type}.
Context `{KeyMaterial Key} `{Bs58} `{Base64Laws} `{!Base64Ascii} `{DagJsonLaws UcanHeader} `{DagJsonLaws UcanPayload} `{UrlLaws Url}.
Context `{EqDecision Cid} `{CidLaws Cid} `{!BlockStore S Cid} `{!BlockStore G Cid} `{!BlockStoreLaws G Cid}.
Context (supported_keys : list (bytes * (bytes -> outcome Key))) (fuel walk_fuel : nat) (clock : N).
Notation ctors := (key_constructors (did_parser_new supported_keys)).
Notation valid := (chain_valid (Key := Key) (Url := Url) (Cid := Cid)).
#[local] Existing Instance block_ucan_store.
Implicit Types (s : S) (g : G) (c : ProofChain).

Lemma token_at_require {T} `{!BlockStore T Cid} (s : T) cid jwt : token_at s cid jwt -> from_utf8 (as_bytes jwt) = Ok jwt ->
  require_token s cid = Ok jwt.
Proof.
  intros [[Hg _] Hr] Hu. unfold require_token, read_token. rewrite Hr. cbn [negb N.eqb RAW Pos.eqb ucan_read block_ucan_store].
  unfold block_ucan_read. rewrite Hg. cbn [outcome_bind fmap option_fmap option_map]. by rewrite Hu.
Qed.

(** The loop over the proofs collects the records. *)
Lemma header_proofs_spec s remaining records : records_at s remaining records ->
  forall n strings headers, try_map (cid_of_string (Cid := Cid)) strings = Ok remaining -> length records <= n ->
  header_proofs n s strings headers = Ok (headers ++ records).
Proof.
  induction 1 as [|rest cid jwt ucan cids l Ht Hu Ef Ec _ IH]; intros n strings headers Es Hn.
  { apply try_map_Forall2 in Es. apply Forall2_nil_inv_r in Es as ->. rewrite app_nil_r. by destruct n. }
  apply try_map_Forall2 in Es. apply Forall2_app_inv_r in Es as (s1 & s2 & Hs1 & Hs2 & ->).
  apply Forall2_cons_inv_r in Hs2 as (str & s3 & Estr & Hs3 & ->). apply Forall2_nil_inv_r in Hs3 as ->.
  destruct n as [|n]; [cbn in Hn; lia|]. cbn [header_proofs]. rewrite vec_pop_snoc, Estr. cbn [outcome_bind].
  rewrite (token_at_require s cid jwt Ht Hu). cbn [outcome_bind]. rewrite Ef. cbn [outcome_bind]. rewrite (IH n).
  - by rewrite <- app_assoc.
  - apply try_map_Forall2, Forall2_app; [done|]. by apply try_map_Forall2.
  - cbn in Hn. lia.
Qed.

(** Every record has its proofs among the records. *)
Lemma records_closed s remaining records : records_at s remaining records ->
  (forall cid, cid ∈ remaining -> cid ∈ records.*1) /\
  (forall cid jwt, (cid, jwt) ∈ records -> token_at s cid jwt /\ from_utf8 (as_bytes jwt) = Ok jwt /\
    exists ucan cids, ucan_from_str jwt = Ok ucan /\ try_map cid_of_string (default [] (proofs ucan)) = Ok cids /\
      forall cid', cid' ∈ cids -> cid' ∈ records.*1).
Proof.
  induction 1 as [|rest cid jwt ucan cids l Ht Hu Ef Ec _ [IHr IHl]].
  { split; [by intros ? ?%elem_of_nil|by intros ? ? ?%elem_of_nil]. }
  split.
  - intros cid' [Hin|Hin%list_elem_of_singleton]%elem_of_app; [right; apply IHr, elem_of_app; by left|]. subst. left.
  - intros cid' jwt' [[= -> ->]|Hin]%elem_of_cons.
    + split; [done|]. split; [done|]. exists ucan, cids. split; [done|]. split; [done|].
      intros cid'' Hin. right. apply IHr, elem_of_app. by right.
    + destruct (IHl _ _ Hin) as (Ht' & Hu' & ucan' & cids' & Ef' & Ec' & Hcl). split; [done|]. split; [done|].
      exists ucan', cids'. split; [done|]. split; [done|]. intros cid'' Hc. right. by apply Hcl.
Qed.

(** A chain is valid wherever its tokens are. *)
Lemma valid_transfer s g remaining records : records_at s remaining records ->
  (forall cid jwt, (cid, jwt) ∈ records -> token_at g cid jwt) ->
  forall c u cids now, valid clock now s ctors u c -> try_map cid_of_string (default [] (proofs u)) = Ok cids ->
  (forall cid, cid ∈ cids -> cid ∈ records.*1) -> valid clock now g ctors u c.
Proof.
  intros Hrec Hg. destruct (records_closed _ _ _ Hrec) as [_ Hcl]. induction c as [u0 ps rs IH] using ProofChain_ind'.
  intros u cids now Hv Hc Hin. inversion Hv as [? ? ? Hval HF Hr]; subst. constructor; [done| |done].
  apply try_map_Forall2 in Hc. clear Hval Hv Hr. revert cids Hc Hin.
  induction HF as [|str p strs ps (cid & token & u' & E1 & E2 & E3 & Hp & Hl) _ IHF]; intros cids Hc Hin; [constructor|].
  apply Forall_cons_1 in IH as [IHp IHps]. apply Forall2_cons_inv_l in Hc as (cid' & cids' & Ecid & Hc & ->).
  assert (cid' = cid) as -> by congruence. constructor; [|eapply IHF; [done|exact Hc|intros ? ?; apply Hin; by right]].
  specialize (Hin cid (list_elem_of_here _ _)) as Hk. apply list_elem_of_fmap in Hk as ([cid2 jwt] & Ek & Hk). cbn in Ek. subst cid2.
  destruct (Hcl _ _ Hk) as (Ht & Hu & ucan & cids2 & Ef & Ec2 & Hcl2).
  rewrite (token_at_require s cid jwt Ht Hu) in E2. injection E2 as ->. assert (ucan = u') as -> by congruence.
  exists cid, token, u'. split; [done|]. split; [by apply token_at_require; [apply Hg|]|]. split; [done|]. split; [|done].
  eapply IHp; [done|exact Ec2|exact Hcl2].
Qed.

(** The gateway keeps the tokens of the headers. *)
Lemma write_headers_spec records : forall g,
  (forall cid jwt, (cid, jwt) ∈ records -> cid = token_cid jwt) ->
  exists g', write_header_tokens (Cid := Cid) records g = (Ok tt, g') /\ store_le g g' /\
    forall cid jwt, (cid, jwt) ∈ records -> token_at g' cid jwt.
Proof.
  induction records as [|[cid jwt] records IH]; intros g Hs.
  { exists g. split; [done|]. split; [done|]. by intros ? ? ?%elem_of_nil. }
  destruct (write_token_spec g jwt) as (g1 & E1 & Hle1 & Ha). cbn [write_header_tokens]. rewrite E1. cbn [try_with].
  rewrite (Hs cid jwt (list_elem_of_here _ _)), bool_decide_true by done. cbn [negb].
  destruct (IH g1) as (g2 & E2 & Hle2 & Hall); [intros ? ? ?; apply Hs; by right|]. exists g2. split; [done|].
  split; [by transitivity g1|]. intros cid' jwt' [[= -> ->]|Hin]%elem_of_cons; [|by apply Hall].
  split; [by apply Hle2|]. unfold token_cid, derive_cid. apply cid_codec_new.
Qed.

Lemma token_at_cid s cid jwt : token_at s cid jwt -> cid = token_cid jwt.
Proof. intros [[_ Hc] Hr]. rewrite Hr in Hc. exact Hc. Qed.

(** What an author who makes requests for a sphere needs: an authorization whose
    chain starts at the sphere and is in the store. *)
Record requester s (author : Author Key Cid) (identity did : string) (cid : Cid) c (records : list (Cid * string)) : Prop := {
  requester_authorization : author_authorization author = Some (AuthCid cid);
  requester_did : get_did (author_key author) = Ok did;
  requester_key : key_resolves ctors (author_key author);
  requester_signs : forall b, exists sig, key_sign (author_key author) b = Ok sig;
  requester_chain : sphere_chain (Url := Url) identity Authorize c;
  requester_audience : audience (chain_ucan c) = did;
  requester_begin : not_before (chain_ucan c) = None;
  requester_end : match expires_at (chain_ucan c) with Some e => (clock + 120 <= e)%N | None => True end;
  requester_clock : (clock + 120 < 2 ^ 64)%N;
  requester_records : records_at s [cid] records;
  requester_valid : valid clock None s ctors (chain_ucan c) c;
  requester_ucan : as_ucan s (AuthCid cid) = Ok (chain_ucan c);
  requester_encodes : exists jwt, (cid, jwt) ∈ records /\ ucan_encode (chain_ucan c) = Ok jwt;
  requester_size : length records <= walk_fuel;
  requester_depth : chain_depth c < fuel;
  requester_path : opaque_path identity = true /\ identity <> "*";
}.

Lemma records_head s cid records : records_at s [cid] records ->
  exists jwt ucan cids rest, records = (cid, jwt) :: rest /\ token_at s cid jwt /\ from_utf8 (as_bytes jwt) = Ok jwt /\
    ucan_from_str jwt = Ok ucan /\ try_map cid_of_string (default [] (proofs ucan)) = Ok cids /\ records_at s cids rest.
Proof.
  inversion 1 as [|rest0 cid0 jwt ucan cids l Ht Hu Ef Ec Hr E]; subst. destruct rest0 as [|? [|]]; try done. injection E as ->.
  exists jwt, ucan, cids, l. by split_and!.
Qed.

(** The headers are the records of the chain. *)
Lemma requester_headers s author identity did cid c records : requester s author identity did cid c records ->
  exists headers, authorization_headers walk_fuel s (AuthCid cid) cid = Ok headers /\ headers ≡ₚ records.
Proof.
  intros [_ _ _ _ _ _ _ _ _ Hrec _ Hu (jwt & Hin & Ej) Hsize _ _]. unfold authorization_headers. rewrite Hu.
  destruct (records_head _ _ _ Hrec) as (jwt0 & ucan & cids & rest & -> & Ht & Hu8 & Ef & Ec & Hrest).
  assert (ucan = chain_ucan c) as ->.
  { cbn in Hu. rewrite (token_at_require s cid jwt0 Ht Hu8) in Hu. cbn [outcome_bind] in Hu. congruence. }
  rewrite (header_proofs_spec s cids rest Hrest walk_fuel _ [] Ec) by (cbn in Hsize; lia). cbn [outcome_bind app]. rewrite Ej. cbn [outcome_bind].
  eexists. split; [done|]. destruct (records_closed _ _ _ Hrec) as [_ Hcl]. destruct (Hcl _ _ Hin) as (Ht' & _).
  assert (jwt0 = jwt) as ->.
  { apply token_at_cid in Ht, Ht'. rewrite Ht in Ht'. unfold token_cid in Ht'. by apply derive_cid_inj, as_bytes_inj in Ht'. }
  by rewrite Permutation_app_comm.
Qed.

Lemma bearer_spec rng s author identity did cid c records gateway ability : json_total -> requester s author identity did cid c records ->
  exists u jwt headers, make_bearer_token (Url := Url) walk_fuel clock rng gateway author (generate_capability identity ability) s =
      Ok (mkCredentials jwt headers) /\ headers ≡ₚ records /\ ucan_from_str jwt = Ok u /\
    sphere_chain (Url := Url) identity ability (mkChain u [c] []) /\
    forall g, (forall cid jwt, (cid, jwt) ∈ records -> token_at g cid jwt) -> valid clock None g ctors u (mkChain u [c] []).
Proof.
  intros Hj Hq. destruct (requester_headers s author identity did cid c records Hq) as (headers & Eh & Hperm).
  pose proof Hq as [Hau Hdid Hkey Hsig Hch Haud Hbeg Hend Hclk Hrec Hv Hu (jwt0 & Hin & _) Hsize Hdepth Hpath]. unfold make_bearer_token.
  set (cap := capability_of_view (Url := Url) (generate_capability identity ability)).
  assert (build clock (with_nonce (claiming_capability (with_lifetime (for_audience (issued_by builder_default (author_key author)) gateway) 120) cap))
    = Ok (mkSignable (author_key author) gateway [cap] (Some (clock + 120)%N) None [] [] true)) as ->.
  { unfold build, implied_expiration. cbn. destruct (N.ltb_spec (clock + 120) (2 ^ 64)); [done|lia]. }
  cbn [outcome_bind]. rewrite Hau. cbn [ok_or outcome_bind authorization_cid]. rewrite Eh. cbn [outcome_bind].
  set (sg := push_proof _ _). destruct (one_capability cap eq_refl) as (caps & Ecap & Hit).
  destruct (sign_total rng sg did caps Hj Hdid Ecap Hsig) as (u & jwt & Es & Ej). rewrite Es. cbn [outcome_bind]. rewrite Ej. cbn [outcome_bind].
  destruct (sign_inv _ _ _ Es) as (Hwf & _ & _ & _ & _ & _ & _ & Hcaps).
  assert (hands_on (Url := Url) supported_keys sg cid c identity ability) as Hh.
  { split; cbn; try done; [congruence|]. destruct (expires_at (chain_ucan c)) as [e|]; [|done]. exists (clock + 120)%N. split; [done|lia]. }
  exists u, jwt, headers. split; [done|]. split; [done|]. split; [by apply ucan_encode_decode|]. split.
  - eapply sphere_chain_link; [exact Hch|destruct ability; cbn; lia|]. change (s_capabilities sg) with [cap] in Hcaps. rewrite Ecap in Hcaps. injection Hcaps as <-. exact Hit.
  - intros g Hg. destruct (records_closed _ _ _ Hrec) as [_ Hcl]. destruct (Hcl _ _ Hin) as (Ht & Hu8 & ucan & cids & Ef & Ec & Hsub).
    assert (ucan = chain_ucan c) as ->.
    { cbn in Hu. rewrite (token_at_require s cid jwt0 Ht Hu8) in Hu. cbn [outcome_bind] in Hu. congruence. }
    eapply hands_on_valid; [exact Hh|exact Es|cbn; lia|exact (token_at_require g cid jwt0 (Hg _ _ Hin) Hu8)|exact Ef|].
    eapply valid_transfer; [exact Hrec|exact Hg|exact Hv|exact Ec|exact Hsub].
Qed.

(** A gateway of the sphere authorizes the request, whatever it holds. *)
Lemma request_authorized {Context : Type} rng s author identity did cid c records gateway ability g (ctx : Context) :
  json_total -> requester s author identity did cid c records ->
  exists credentials g', make_bearer_token (Url := Url) walk_fuel clock rng gateway author (generate_capability identity ability) s =
      Ok credentials /\
    write_header_tokens (ucan_headers credentials) g = (Ok tt, g') /\ store_le g g' /\
    try_authorize (Key := Key) (Url := Url) supported_keys fuel clock (ucan_headers credentials) (bearer credentials) (Ok g) (Ok ctx) identity ability
      = Ok ctx.
Proof.
  intros Hj Hq. destruct (bearer_spec rng s author identity did cid c records gateway ability Hj Hq)
    as (u & jwt & headers & Em & Hperm & Eu & Hch & Hval).
  pose proof Hq as [_ _ _ _ _ _ _ _ _ Hrec _ _ _ _ Hdepth [Hop Hstar]]. destruct (records_closed _ _ _ Hrec) as [_ Hcl].
  destruct (write_headers_spec headers g) as (g' & Ew & Hle & Hall).
  { intros cid' jwt' Hin. rewrite Hperm in Hin. eapply token_at_cid. by apply (Hcl _ _ Hin). }
  exists (mkCredentials jwt headers), g'. split; [done|]. split; [done|]. split; [done|]. cbn [ucan_headers bearer].
  assert (valid clock None g' ctors u (mkChain u [c] [])) as Hv by (apply Hval; intros cid' jwt' Hin; apply Hall; by rewrite Hperm).
  unfold try_authorize, header_as_proof_chain. rewrite Ew. cbn [outcome_bind]. unfold try_from_token_string. rewrite Eu. cbn [try_with].
  destruct (from_ucan_complete clock None g' ctors fuel u (did_parser_new supported_keys) (mkChain u [c] [])) as (p & -> & Hp);
    [done|done|cbn; lia|]. cbn [outcome_bind].
  cbn [chain_ucan]. destruct (validate_spec clock None ctors u p Hp) as (p' & -> & _).
  inversion Hv as [? ? ? Hvu _ _]; subst. rewrite Hvu. cbn [fst outcome_bind].
  destruct (sphere_chain_reduces identity ability (mkChain u [c] []) Hch Hop Hstar) as (i & -> & Ho & Hi). cbn [outcome_bind].
  assert (grants (Url := Url) identity ability [i] = true) as ->; [|done]. apply grants_spec. exists i. split; [constructor|].
  rewrite Ho, Hi. split; [by apply elem_of_singleton|]. by apply generate_enables.
Qed.
End requests.
