(* ===== verification/NameResolution.v ===== *)
(** * Resolving the names of an address book

    Which link records a resolution adopts, name by name, and the version that it
    saves. *)
From stdpp Require Import base gmap list numbers strings pretty.
From Stdlib Require Import Ascii String.
From S2P Require Import Prelude BlockStore HamtNode HamtRep Hamt HamtSpec BTree SphereDb BodyChunk.
From S2P Require Import VersionedMap UcanCapability Ucan UcanChain UcanProofs.
From S2P Require Import Authority AuthorityProofs Memo Sphere SphereProofs SphereHistory SphereRebase.
From S2P Require Import Bundle BundleProofs Stream StreamProofs SphereContext SphereContextProofs SphereEdits SphereWalker SphereWalkerProofs.
From S2P Require Import StoreTransfer Api ContextAuthority ClientProofs Gateway GatewayProofs Jobs JobProofs.
#[local] Open Scope list_scope.
#[local] Notation length := List.length (only parsing).

(** A name system answers, and the records it answers with can be written as tokens. *)
Class NameResolverLaws (N : Type) `{!NameResolver N} `{Base64} `{DagJson UcanHeader} `{DagJson UcanPayload} := {
  resolve_answers : forall (ns : N) did, (exists r, resolve ns did = Ok r) \/ exists e, resolve ns did = Err e;
  resolve_encodes : forall (ns : N) did record, resolve ns did = Ok (Some record) ->
    exists jwt, ucan_encode record = Ok jwt /\ from_utf8 (as_bytes jwt) = Ok jwt /\ ucan_from_str jwt = Ok record;
}.

Section resolution.
Context {Key Url Cid B KV NS : Type} `{UnicodeLaws}.
Context `{KeyMaterial Key} `{Bs58} `{Base64} `{DagJson UcanHeader} `{DagJson UcanPayload} `{UrlOps Url}.
Context `{Countable Cid} `{HashAlgorithmLaws string} `{HashAlgorithmLaws Cid} `{KeyOrderLaws Cid}.
Context `{CidLaws Cid} `{!CidDefault Cid} `{!BlockStore B Cid} `{!BlockStoreLaws B Cid} `{StoreLaws KV}.
Context `{!SphereCodecs Cid} `{!SphereCodecsLaws Cid} `{!EntryCodecs Cid} `{!EntryCodecsLaws Cid}.
Context `{!ContextCodecs Cid} `{!ContextCodecsLaws Cid} `{!NameResolver NS} `{!NameResolverLaws NS}.
Context (supported_keys : list (bytes * (bytes -> outcome Key))).
Context (fuel walk_fuel : nat) (clock : N).
Notation SphereDb := (SphereDb B KV).
Notation context := (SphereContext (Key := Key) (Cid := Cid) (B := B) (KV := KV)).
Notation version := (SphereRebase.version (Cid := Cid)).
Notation SphereMutation := (SphereMutation Cid).
Notation writable := (writable (Url := Url) supported_keys fuel walk_fuel clock).
#[local] Existing Instance block_ucan_store.
#[local] Instance plain : HasMutableSphereContext (Key := Key) (Cid := Cid) (B := B) (KV := KV) context :=
  context_has_mutable_context (Url := Url) clock.
Implicit Types (ctx : context) (db : SphereDb) (x y : version) (ns : NS) (e : IdentityIpld Cid) (name : string).

(** ** Records *)

(** The record of [e] is in the database. *)
Definition record_held db e : Prop := forall cid, peer_link_record e = Some cid ->
  exists jwt record, token_at db cid jwt /\ from_utf8 (as_bytes jwt) = Ok jwt /\ ucan_from_str jwt = Ok record.

(** The record that is known of [e]. *)
Definition known db e : option Ucan := match identity_link_record db e with Ok record => record | _ => None end.

Lemma known_spec db e : record_held db e -> identity_link_record db e = Ok (known db e) /\
  forall db', store_le db db' -> identity_link_record db' e = Ok (known db e).
Proof.
  intros Hh. assert (exists r, forall db', store_le db db' -> identity_link_record db' e = Ok r) as [r Hr].
  { unfold identity_link_record. destruct (peer_link_record e) as [cid|] eqn:E; [|by exists None].
    destruct (Hh cid E) as (jwt & record & [Ha Hc] & Hu & Hj). exists (Some record). intros db' Hle. apply Hle in Ha as [Hg _].
    unfold read_token. rewrite Hc. cbn [negb N.eqb RAW Pos.eqb ucan_read block_ucan_store]. unfold block_ucan_read. rewrite Hg.
    cbn [outcome_bind fmap option_fmap option_map]. rewrite Hu. cbn [outcome_bind]. by rewrite Hj. }
  pose proof (Hr db (reflexivity db)) as Hk. unfold known. by rewrite Hk.
Qed.

Lemma record_held_mono db db' e : store_le db db' -> record_held db e -> record_held db' e.
Proof.
  intros Hle Hh cid E. destruct (Hh cid E) as (jwt & record & [Ha Hc] & Hu & Hj). exists jwt, record. split; [|done]. split; [by apply Hle|done].
Qed.

(** The record that is adopted for a name, if one is: the name system has it, for the
    sphere that the name is assigned to, it supercedes the one that is known and links
    another version; a sphere does not name itself. *)
Definition adoption ns (self : string) db name e : option Ucan :=
  match resolve ns (peer_did e) with
  | Ok (Some record) =>
      let newer := match known db e with
        | Some old => superceded_by old record && negb (record_eq old record) && negb (bool_decide (get_link (Cid := Cid) old = get_link record))
        | None => true
        end in
      let valid := match validate_petname name with Ok _ => true | _ => false end in
      if newer && valid && bool_decide (peer_did e = to_sphere_identity record) && negb (bool_decide (self = peer_did e)) then Some record else None
  | _ => None
  end.

(** The entry of the name afterwards. *)
Definition renewal ns (self : string) db name e : option (IdentityIpld Cid) :=
  record ← adoption ns self db name e;
  match ucan_encode record with Ok jwt => Some (mkIdentity (peer_did e) (Some (token_cid jwt))) | _ => None end.

Lemma adoption_renewal ns self db name e record : adoption ns self db name e = Some record ->
  exists jwt, ucan_encode record = Ok jwt /\ from_utf8 (as_bytes jwt) = Ok jwt /\ ucan_from_str jwt = Ok record /\
    renewal ns self db name e = Some (mkIdentity (peer_did e) (Some (token_cid jwt))).
Proof.
  intros Ha. pose proof Ha as Ha'. unfold adoption in Ha'. destruct (resolve ns (peer_did e)) as [[r|]| | |] eqn:Er; [|done..].
  assert (r = record) as -> by (destruct (_ && _); congruence). destruct (resolve_encodes ns _ _ Er) as (jwt & Ej & Hu & Hp).
  exists jwt. split; [done|]. split; [done|]. split; [done|]. unfold renewal. rewrite Ha. cbn. by rewrite Ej.
Qed.

(** ** One name *)

(** [ctx'] is [ctx] with more blocks and the pending changes [m]. *)
Record evolved ctx ctx' (m : SphereMutation) : Prop := {
  evolved_db : grown (Cid := Cid) (ctx_db ctx) (ctx_db ctx');
  evolved_mutation : ctx_mutation ctx' = m;
  evolved_identity : ctx_identity ctx' = ctx_identity ctx;
  evolved_author : ctx_author ctx' = ctx_author ctx;
  evolved_writable : writable ctx';
}.

Lemma evolved_edited ctx db m : grown (Cid := Cid) (ctx_db ctx) db -> evolved ctx (edited ctx db m) m.
Proof. intros Hg. split; [done..|]. by apply (edited_writable (Url := Url) (HasSphereContext0 := context_has_context) supported_keys fuel walk_fuel clock). Qed.

Lemma evolved_trans ctx ctx1 ctx2 m1 m2 : evolved ctx ctx1 m1 -> evolved ctx1 ctx2 m2 -> evolved ctx ctx2 m2.
Proof.
  intros [[L1 N1] M1 I1 A1 W1] [[L2 N2] M2 I2 A2 W2]. split; [|done|congruence|congruence|done].
  split; [by transitivity (ctx_db ctx1)|by transitivity (ctx_db ctx1)].
Qed.

Lemma evolved_at ctx ctx' m x : evolved ctx ctx' m -> at_version ctx x -> at_version ctx' x.
Proof.
  intros [[Hle Hn] _ Hi _ _] [Hv Hx]. split; [|exact (holds_mono _ _ _ Hle Hx)]. rewrite Hi, <- Hv. by apply same_names_version.
Qed.

(** [set_petname_record], for the sphere that the name is assigned to. *)
Lemma set_petname_record_spec ctx x name e record jwt :
  writable ctx -> at_version ctx x -> (v_identities (ver_value x)).1 !! name = Some e -> record_held (ctx_db ctx) e ->
  validate_petname name = Ok tt -> peer_did e = to_sphere_identity record -> ctx_identity ctx <> peer_did e ->
  match known (ctx_db ctx) e with Some old => superceded_by old record = true | None => True end -> ucan_encode record = Ok jwt ->
  exists db, set_petname_record (Url := Url) (HasSphereContext0 := context_has_context) supported_keys fuel walk_fuel clock ctx name record =
      (Ok None, edited ctx db (with_identity (ctx_mutation ctx) (Add name (mkIdentity (peer_did e) (Some (token_cid jwt)))))) /\
    grown (Cid := Cid) (ctx_db ctx) db /\ token_at db (token_cid jwt) jwt.
Proof.
  intros Hw Hat Hn Hh Hval Hid Hself Hold Hj. unfold set_petname_record.
  rewrite (edited_access (Url := Url) (HasSphereContext0 := context_has_context) supported_keys fuel walk_fuel clock) by done. cbn [try_with]. rewrite Hval. cbn [try_with].
  set (ctx1 := edited ctx (ctx_db ctx) (ctx_mutation ctx)). change (edited ctx (context_db ctx) _) with ctx1.
  assert (at_version ctx1 x) as Hat1 by exact Hat.
  rewrite (get_petname_spec (HasSphereContext0 := context_has_context) ctx1 x name (at_version_context _ _ Hat1) (proj2 Hat1)). rewrite Hn. cbn [try_with fmap option_fmap option_map].
  rewrite bool_decide_eq_true_2 by done. cbn [negb]. rewrite bool_decide_eq_false_2 by (rewrite <- Hid; exact Hself).
  unfold get_petname_record. rewrite (petname_entry_spec (HasSphereContext0 := context_has_context) ctx1 x name (at_version_context _ _ Hat1) (proj2 Hat1)), Hn.
  cbn [outcome_bind]. change (context_db ctx1) with (ctx_db ctx). rewrite (proj1 (known_spec _ _ Hh)). cbn [try_with].
  replace (match known (ctx_db ctx) e with Some existing => negb (superceded_by existing record) | None => false end) with false
    by (destruct (known _ _); [by rewrite Hold|done]).
  rewrite Hj. cbn [try_with]. destruct (write_token_spec (ctx_db ctx) jwt) as (db & Ew & Hle & Ha).
  pose proof (put_encoded_names (Cid := Cid) (ctx_db ctx) RAW (as_bytes jwt)) as Hnames.
  unfold write_token in Ew |- *. cbn [ucan_write block_ucan_store block_ucan_write] in Ew |- *. rewrite Ew in Hnames |- *. cbn [try_with snd] in *.
  unfold previous_identity. change (sphere_context (put_db ctx1 db)) with (with_db ctx1 db). change (context_db (put_db ctx1 db)) with db.
  assert (at_version (with_db ctx1 db) x) as Hat2.
  { destruct Hat as [Hv Hx]. split; [|exact (holds_mono _ _ _ Hle Hx)]. cbn. rewrite <- Hv. by apply same_names_version. }
  rewrite (at_version_context _ _ Hat2). cbn [outcome_bind].
  destruct (identities_lookup db x name (proj2 Hat2)) as (ipld & ids & -> & Ei & Eg). cbn [outcome_bind]. rewrite Ei. cbn [outcome_bind].
  rewrite Eg, Hn. cbn [try_with]. rewrite bool_decide_eq_true_2 by done. exists db. rewrite Hid. split; [done|]. split; [done|].
  split; [done|]. unfold token_cid, derive_cid. apply cid_codec_new.
Qed.

(** The record may be set for the name. *)
Definition settable (self : string) name e (record : Ucan) : bool :=
  match validate_petname name with Ok _ => true | _ => false end && bool_decide (peer_did e = to_sphere_identity record) && negb (bool_decide (self = peer_did e)).

Definition with_record (m : SphereMutation) name (e' : option (IdentityIpld Cid)) : SphereMutation :=
  match e' with Some e' => with_identity m (Add name e') | None => m end.

Lemma set_petname_record_tried ctx x name e record jwt :
  writable ctx -> at_version ctx x -> (v_identities (ver_value x)).1 !! name = Some e -> record_held (ctx_db ctx) e ->
  match known (ctx_db ctx) e with Some old => superceded_by old record = true | None => True end ->
  ucan_encode record = Ok jwt -> from_utf8 (as_bytes jwt) = Ok jwt -> ucan_from_str jwt = Ok record ->
  let e' := if settable (ctx_identity ctx) name e record then Some (mkIdentity (peer_did e) (Some (token_cid jwt))) else None in
  exists r ctx', set_petname_record (Url := Url) (HasSphereContext0 := context_has_context) supported_keys fuel walk_fuel clock ctx name record = (r, ctx') /\
    warned r = Ok tt /\ evolved ctx ctx' (with_record (ctx_mutation ctx) name e') /\ (forall e'', e' = Some e'' -> record_held (ctx_db ctx') e'') /\
    (e' = None -> ctx_db ctx' = ctx_db ctx).
Proof.
  intros Hw Hat Hn Hh Hold Hj Hu Hp. cbv zeta. unfold settable.
  assert (evolved ctx (edited ctx (ctx_db ctx) (ctx_mutation ctx)) (ctx_mutation ctx)) as Hsame by by apply evolved_edited.
  destruct (validate_petname name) as [[]| | |] eqn:Hval; cbn [andb].
  2-4: eexists _, _; unfold set_petname_record; rewrite (edited_access (Url := Url) (HasSphereContext0 := context_has_context) supported_keys fuel walk_fuel clock) by done;
       cbn [try_with]; rewrite Hval; split; [reflexivity|]; split; [|by split_and!].
  2: done.
  2-3: unfold validate_petname in Hval; destruct (bool_decide _); [done|]; by destruct (prefix _ _).
  assert (at_version (edited ctx (ctx_db ctx) (ctx_mutation ctx)) x) as Hat1 by exact Hat.
  case_bool_decide as Hid; [case_bool_decide as Hself|]; cbn [andb negb].
  - eexists _, _. unfold set_petname_record. rewrite (edited_access (Url := Url) (HasSphereContext0 := context_has_context) supported_keys fuel walk_fuel clock) by done.
    cbn [try_with]. rewrite Hval. cbn [try_with]. change (edited ctx (context_db ctx) _) with (edited ctx (ctx_db ctx) (ctx_mutation ctx)).
    rewrite (get_petname_spec (HasSphereContext0 := context_has_context) _ x name (at_version_context _ _ Hat1) (proj2 Hat1)), Hn. cbn [try_with fmap option_fmap option_map].
    rewrite bool_decide_eq_true_2 by done. cbn [negb]. rewrite bool_decide_eq_true_2 by (rewrite <- Hid; exact Hself). split; [reflexivity|]. split; [done|]. by split_and!.
  - destruct (set_petname_record_spec ctx x name e record jwt Hw Hat Hn Hh Hval Hid Hself Hold Hj) as (db & E & Hg & Ht).
    eexists _, _. split; [exact E|]. split; [done|]. split; [by apply evolved_edited|]. split; [|done]. intros e'' [= <-] cid [= <-]. by exists jwt, record.
  - eexists _, _. unfold set_petname_record. rewrite (edited_access (Url := Url) (HasSphereContext0 := context_has_context) supported_keys fuel walk_fuel clock) by done.
    cbn [try_with]. rewrite Hval. cbn [try_with]. change (edited ctx (context_db ctx) _) with (edited ctx (ctx_db ctx) (ctx_mutation ctx)).
    rewrite (get_petname_spec (HasSphereContext0 := context_has_context) _ x name (at_version_context _ _ Hat1) (proj2 Hat1)), Hn. cbn [try_with fmap option_fmap option_map].
    rewrite bool_decide_eq_false_2 by done. split; [reflexivity|]. split; [done|]. by split_and!.
Qed.

Lemma resolve_name_spec ns ctx x name e :
  writable ctx -> at_version ctx x -> (v_identities (ver_value x)).1 !! name = Some e -> record_held (ctx_db ctx) e ->
  exists ctx', resolve_name (Url := Url) supported_keys fuel walk_fuel clock ns (name, e) ctx = (Ok tt, ctx') /\
    evolved ctx ctx' (with_record (ctx_mutation ctx) name (renewal ns (ctx_identity ctx) (ctx_db ctx) name e)) /\
    (forall e', renewal ns (ctx_identity ctx) (ctx_db ctx) name e = Some e' -> record_held (ctx_db ctx') e') /\
    (renewal ns (ctx_identity ctx) (ctx_db ctx) name e = None -> ctx_db ctx' = ctx_db ctx).
Proof.
  intros Hw Hat Hn Hh. unfold resolve_name. change (context_db ctx) with (ctx_db ctx). rewrite (proj1 (known_spec _ _ Hh)). cbn [try_with].
  assert (evolved ctx ctx (ctx_mutation ctx)) as Hsame by by split.
  unfold fetch_record, renewal, adoption. destruct (resolve_answers ns (peer_did e)) as [[[record|] Er]|[err Er]]; rewrite Er; cbn [try_with];
    [|by exists ctx..].
  destruct (resolve_encodes ns _ _ Er) as (jwt & Hj & Hu & Hp).
  assert (get_petname_record (HasSphereContext0 := context_has_context) ctx name = Ok (known (ctx_db ctx) e)) as Hrec.
  { unfold get_petname_record. rewrite (petname_entry_spec (HasSphereContext0 := context_has_context) ctx x name (at_version_context _ _ Hat) (proj2 Hat)), Hn.
    cbn [outcome_bind]. exact (proj1 (known_spec _ _ Hh)). }
  pose proof (set_petname_record_tried ctx x name e record jwt Hw Hat Hn Hh) as Hset. unfold plain. cbn [has_context context_has_mutable_context]. rewrite Hrec.
  destruct (known (ctx_db ctx) e) as [old|].
  - destruct (superceded_by old record) eqn:Hsup; cbn [andb]; [|by exists ctx]. destruct (record_eq old record); cbn [andb negb]; [by exists ctx|].
    cbn [try_with]. case_bool_decide as Hlink; cbn [andb negb]; [by exists ctx|].
    destruct (Hset eq_refl Hj Hu Hp) as (r & ctx' & -> & -> & Hev & Hnew & Hsm). exists ctx'. split; [done|]. unfold settable in Hev, Hnew, Hsm.
    destruct (_ && _); cbn; [rewrite Hj|]; by split_and!.
  - cbn [try_with andb]. destruct (Hset Logic.I Hj Hu Hp) as (r & ctx' & -> & -> & Hev & Hnew & Hsm). exists ctx'. split; [done|]. unfold settable in Hev, Hnew, Hsm.
    destruct (_ && _); cbn; [rewrite Hj|]; by split_and!.
Qed.

(** ** All names *)
Lemma renewal_grown ns self db db' name e : record_held db e -> store_le db db' -> renewal ns self db' name e = renewal ns self db name e.
Proof.
  intros Hh Hle. unfold renewal, adoption. assert (known db' e = known db e) as ->; [|done]. destruct (known_spec db e Hh) as [_ Hk].
  unfold known at 1. by rewrite (Hk db' Hle).
Qed.

Definition with_records ns (self : string) db (m : SphereMutation) (entries : list (string * IdentityIpld Cid)) : SphereMutation :=
  foldl (fun m ne => with_record m ne.1 (renewal ns self db ne.1 ne.2)) m entries.

Lemma resolve_names_spec ns x db entries : forall ctx, writable ctx -> at_version ctx x -> store_le db (ctx_db ctx) ->
  Forall (fun ne => (v_identities (ver_value x)).1 !! ne.1 = Some ne.2 /\ record_held db ne.2) entries ->
  exists ctx', for_each_st (resolve_name (Url := Url) supported_keys fuel walk_fuel clock ns) entries ctx = (Ok tt, ctx') /\
    evolved ctx ctx' (with_records ns (ctx_identity ctx) db (ctx_mutation ctx) entries) /\
    Forall (fun ne => forall e', renewal ns (ctx_identity ctx) db ne.1 ne.2 = Some e' -> record_held (ctx_db ctx') e') entries /\
    (Forall (fun ne => renewal ns (ctx_identity ctx) db ne.1 ne.2 = None) entries -> ctx_db ctx' = ctx_db ctx).
Proof.
  induction entries as [|[name e] entries IH]; intros ctx Hw Hat Hle Hall.
  { exists ctx. split; [done|]. split; [by split|]. split; [constructor|done]. }
  apply Forall_cons in Hall as [[Hn Hh] Hall]. cbn in Hn, Hh. cbn [for_each_st].
  destruct (resolve_name_spec ns ctx x name e Hw Hat Hn (record_held_mono _ _ _ Hle Hh)) as (ctx1 & E & Hev & Hnew & Hsm).
  rewrite (renewal_grown ns _ db (ctx_db ctx) name e Hh Hle) in Hev, Hnew, Hsm. unfold plain in E |- *. rewrite E. cbn [try_with].
  pose proof Hev as [[Hle1 _] Hm1 Hi1 _ Hw1].
  destruct (IH ctx1 Hw1 (evolved_at _ _ _ _ Hev Hat) ltac:(by transitivity (ctx_db ctx)) Hall) as (ctx2 & E2 & Hev2 & Hnew2 & Hsm2).
  unfold plain in E2. rewrite E2, Hi1, Hm1 in *. exists ctx2. split; [done|]. split; [exact (evolved_trans _ _ _ _ _ Hev Hev2)|].
  split; [|by intros [Hn1 Hn2]%Forall_cons; rewrite Hsm2, Hsm].
  constructor; [|done]. intros e' He'. destruct Hev2 as [[Hle2 _] _ _ _ _]. exact (record_held_mono _ _ _ Hle2 (Hnew e' He')).
Qed.

(** The changes that the records make. *)
Definition record_changes ns (self : string) db (entries : list (string * IdentityIpld Cid)) : list (MapOperation string (IdentityIpld Cid)) :=
  omap (fun ne => Add ne.1 <$> renewal ns self db ne.1 ne.2) entries.

Lemma with_records_parts ns self db entries : forall m, let m' := with_records ns self db m entries in
  mutation_changes (identities_mutation m') = mutation_changes (identities_mutation m) ++ record_changes ns self db entries /\
  mutation_did (identities_mutation m') = mutation_did (identities_mutation m) /\ author_did m' = author_did m /\
  content_mutation m' = content_mutation m /\ delegations_mutation m' = delegations_mutation m /\ revocations_mutation m' = revocations_mutation m.
Proof.
  induction entries as [|[name e] entries IH]; intros m; [by rewrite app_nil_r|]. cbn [with_records foldl fst snd]. cbv zeta.
  destruct (IH (with_record m name (renewal ns self db name e))) as (E & E2 & E3 & E4 & E5 & E6). cbv zeta in *. unfold with_records in *.
  rewrite E, E2, E3, E4, E5, E6. unfold record_changes. cbn. destruct (renewal ns self db name e); cbn; [|done]. by rewrite <- app_assoc.
Qed.

Lemma record_changes_first ns self db entries : NoDup entries.*1 ->
  NoDup (change_key <$> record_changes ns self db entries) /\
  (forall name e, (name, e) ∈ entries -> first_change (record_changes ns self db entries) name = Add name <$> renewal ns self db name e) /\
  (forall name, name ∉ entries.*1 -> first_change (record_changes ns self db entries) name = None /\ name ∉ (change_key <$> record_changes ns self db entries)).
Proof.
  induction entries as [|[name e] entries IH]; intros Hnd.
  { split; [constructor|]. split; [by intros ? ? ?%elem_of_nil|]. intros name _. split; [done|]. apply not_elem_of_nil. }
  cbn in Hnd. apply NoDup_cons in Hnd as [Hnn Hnd]. destruct (IH Hnd) as (H1' & H2' & H3'). unfold record_changes in *. cbn.
  destruct (renewal ns self db name e) as [e'|] eqn:Ee; cbn.
  - split; [constructor; [apply (H3' name Hnn)|done]|]. split.
    + intros n e0 [[= -> ->]|Hin]%elem_of_cons; [by rewrite decide_True, Ee|]. rewrite decide_False by (intros Heq; apply Hnn, list_elem_of_fmap; by exists (n, e0)). by apply H2'.
    + intros n [Hne Hni]%not_elem_of_cons. rewrite decide_False by done. destruct (H3' n Hni) as [-> Hk]. split; [done|]. by apply not_elem_of_cons.
  - split; [done|]. split.
    + intros n e0 [[= -> ->]|Hin]%elem_of_cons; [|by apply H2']. rewrite Ee. apply (H3' name Hnn).
    + intros n [Hne Hni]%not_elem_of_cons. by apply H3'.
Qed.

(** The address book afterwards. *)
Lemma record_changes_apply ns self db (g : gmap string (IdentityIpld Cid)) entries name : entries ≡ₚ map_to_list g ->
  apply_ops g (record_changes ns self db entries) !! name = (e ← g !! name; Some (default e (renewal ns self db name e))).
Proof.
  intros Hp. assert (NoDup entries.*1) as Hnd by (rewrite Hp; apply NoDup_fst_map_to_list).
  destruct (record_changes_first ns self db entries Hnd) as (H1' & H2' & H3'). rewrite apply_ops_first by done.
  destruct (g !! name) as [e|] eqn:Eg.
  - rewrite (H2' name e) by (rewrite Hp; by apply elem_of_map_to_list). cbn. by destruct (renewal _ _ _ _ _).
  - destruct (H3' name) as [-> _]; [|done]. rewrite Hp. intros ([n e] & -> & Hin)%list_elem_of_fmap. cbn in Eg. apply elem_of_map_to_list in Hin. congruence.
Qed.

(** ** The job *)
Context (P : string -> Prop) (Q : Cid -> Prop) (HP : collision_free P) (HQ : collision_free Q).
Notation ready := (ready (Url := Url) clock P Q).

Lemma ready_evolved ctx ctx' m x did : ready ctx x did -> evolved ctx ctx' m -> mutation_in P Q m -> mutation_by m did -> author_did m = did ->
  ready ctx' x did.
Proof.
  intros [Hat Hv _ _ _ Hs] Hev M1 M2 M3. pose proof Hev as [[Hle _] Hm' _ Ha _].
  split; [exact (evolved_at _ _ _ _ Hev Hat)|done|by rewrite Hm'..|]. rewrite Ha. exact (can_sign_mono _ _ _ _ _ _ Hle Hs).
Qed.

(** What is left of a context after a resolution: at [y], whose address book has the
    records that were adopted and which is else like [x]. *)
Record resolved ns ctx ctx' x y (did : string) : Prop := {
  resolved_grown : store_le (ctx_db ctx) (ctx_db ctx');
  resolved_ready : ready ctx' y did;
  resolved_saved : has_unsaved_changes ctx' = false;
  resolved_idle : (forall name e, (v_identities (ver_value x)).1 !! name = Some e -> renewal ns (ctx_identity ctx) (ctx_db ctx) name e = None) ->
    y = x /\ ctx_db ctx' = ctx_db ctx;
  resolved_version : forall name e e', (v_identities (ver_value x)).1 !! name = Some e ->
    renewal ns (ctx_identity ctx) (ctx_db ctx) name e = Some e' -> parent (ver_memo y) = Some (ver_cid x);
  resolved_names : forall name, (v_identities (ver_value y)).1 !! name =
    (e ← (v_identities (ver_value x)).1 !! name; Some (default e (renewal ns (ctx_identity ctx) (ctx_db ctx) name e)));
  resolved_held : forall name e, (v_identities (ver_value y)).1 !! name = Some e -> record_held (ctx_db ctx') e;
  resolved_content : (v_content (ver_value y)).1 = (v_content (ver_value x)).1;
  resolved_delegations : (v_delegations (ver_value y)).1 = (v_delegations (ver_value x)).1;
  resolved_revocations : (v_revocations (ver_value y)).1 = (v_revocations (ver_value x)).1;
}.

(** Changes are pending after the names exactly when a record was adopted. *)
Lemma record_changes_pending ns self db (g : gmap string (IdentityIpld Cid)) entries m : entries ≡ₚ map_to_list g ->
  sphere_mutation_is_empty m = true ->
  (sphere_mutation_is_empty (with_records ns self db m entries) = true <-> forall name e, g !! name = Some e -> renewal ns self db name e = None).
Proof.
  intros Hp Hm. destruct (idle_changes m Hm) as (M1 & M2 & M3 & M4).
  destruct (with_records_parts ns self db entries m) as (P1 & _ & _ & P4 & P5 & P6).
  unfold sphere_mutation_is_empty. rewrite P1, P4, P5, P6, M1, M2, M3, M4. cbn [app length]. rewrite !andb_true_r, Nat.eqb_refl, andb_true_l, Nat.eqb_eq.
  rewrite length_zero_iff_nil. unfold record_changes. split.
  - intros Hz name e He. destruct (renewal ns self db name e) as [e'|] eqn:Er; [|done]. exfalso.
    assert (Add name e' ∈ omap (fun ne => Add ne.1 <$> renewal ns self db ne.1 ne.2) entries) as Hin.
    { apply list_elem_of_omap. exists (name, e). split; [rewrite Hp; by apply elem_of_map_to_list|]. cbn. by rewrite Er. }
    rewrite Hz in Hin. by apply elem_of_nil in Hin.
  - intros Hn. destruct (omap _ _) as [|op ops] eqn:Eo; [done|]. exfalso.
    assert (op ∈ omap (fun ne => Add ne.1 <$> renewal ns self db ne.1 ne.2) entries) as Hin by (rewrite Eo; left).
    apply list_elem_of_omap in Hin as ([name e] & Hin & Eop). rewrite Hp in Hin. apply elem_of_map_to_list in Hin. cbn in Eop. by rewrite (Hn _ _ Hin) in Eop.
Qed.

Lemma resolve_all_spec rng ns ctx x did entries :
  ready ctx x did -> writable ctx -> has_unsaved_changes ctx = false -> (lamport_order (ver_memo x) + 1 < 2 ^ 32)%N ->
  entries ≡ₚ map_to_list (v_identities (ver_value x)).1 ->
  (forall name e, (v_identities (ver_value x)).1 !! name = Some e -> record_held (ctx_db ctx) e) ->
  exists y ctx', resolve_all (Url := Url) supported_keys fuel walk_fuel clock rng ns ctx (entries, Ok tt) = (Ok tt, ctx') /\
    resolved ns ctx ctx' x y did.
Proof.
  intros Hr Hw Hun Hlam Hp Hheld. pose proof Hr as [Hat Hv Hm Hby Hau Hs].
  assert (Forall (fun ne => (v_identities (ver_value x)).1 !! ne.1 = Some ne.2 /\ record_held (ctx_db ctx) ne.2) entries) as Hall.
  { rewrite Hp. apply Forall_forall. intros [name e] Hin. apply elem_of_map_to_list in Hin. split; [done|]. by eapply Hheld. }
  destruct (resolve_names_spec ns x (ctx_db ctx) entries ctx Hw Hat (reflexivity _) Hall) as (ctx1 & E & Hev & Hnew & Hsm).
  destruct (with_records_parts ns (ctx_identity ctx) (ctx_db ctx) entries (ctx_mutation ctx)) as (P1 & P2 & P3 & P4 & P5 & P6).
  assert (sphere_mutation_is_empty (ctx_mutation ctx) = true) as Hidle by (apply negb_false_iff; exact Hun).
  pose proof (record_changes_pending ns (ctx_identity ctx) (ctx_db ctx) _ entries _ Hp Hidle) as Hpend.
  set (m := with_records _ _ _ _ _) in *. destruct (idle_changes _ Hidle) as (Hn1 & Hn2 & Hn3 & Hn4). rewrite Hn2 in P1. cbn [app] in P1.
  assert (Forall (fun op => P (change_key op)) (record_changes ns (ctx_identity ctx) (ctx_db ctx) entries)) as HPn.
  { apply Forall_forall. intros op ([name e] & Hin & Eop)%list_elem_of_omap. cbn in Eop. destruct (renewal _ _ _ _ _); [|done].
    injection Eop as <-. rewrite Hp in Hin. apply elem_of_map_to_list in Hin. destruct Hv as (_ & Hvi & _). apply Hvi, elem_of_dom. by exists e. }
  assert (ready ctx1 x did) as Hr1.
  { eapply ready_evolved; [exact Hr|exact Hev| | |by rewrite P3].
    - destruct Hm as (M1 & M2 & M3 & M4). unfold mutation_in. rewrite P1, P4, P5, P6. done.
    - unfold mutation_by in *. by rewrite P2, P4, P5, P6. }
  pose proof Hev as [[Hle1 _] Hm1 Hi1 _ Hw1].
  assert (forall ne e', ne ∈ entries -> renewal ns (ctx_identity ctx) (ctx_db ctx) ne.1 ne.2 = Some e' -> record_held (ctx_db ctx1) e') as Hnew'.
  { intros ne e' Hin. rewrite Forall_forall in Hnew. by apply Hnew. }
  unfold resolve_all. unfold plain in E |- *. rewrite E. cbn [try_with]. cbn [has_context context_has_mutable_context context_save].
  destruct (has_unsaved_changes (HasSphereContext0 := context_has_context) ctx1) eqn:Hun1.
  - destruct (default_save_spec (Url := Url) clock P Q HP HQ rng ctx1 x did None Hr1 Hlam Hun1 eq_refl) as (y & ctx2 & Es & Hle2 & Hy & Hr2 & Hun2 & Hi2 & _ & Hac).
    rewrite Es. cbn [try_with]. exists y, ctx2. split; [done|]. pose proof Hy as (_ & Hpa & Ev & _).
    assert (forall name, (v_identities (ver_value y)).1 !! name =
      (e ← (v_identities (ver_value x)).1 !! name; Some (default e (renewal ns (ctx_identity ctx) (ctx_db ctx) name e)))) as Hnames.
    { intros name. rewrite Ev, Hm1. cbn. rewrite apply_part_fst, P1. by apply record_changes_apply. }
    assert (sphere_mutation_is_empty m = false) as Hm0 by (rewrite <- Hm1; apply negb_true_iff; exact Hun1).
    split; [by transitivity (ctx_db ctx1)|done|done| |done|done| |..].
    + intros Hno%Hpend. congruence.
    + intros name e Hn. rewrite Hnames in Hn. destruct (_ !! name) as [e0|] eqn:E0; [|done]. cbn in Hn. injection Hn as <-.
      destruct (renewal ns (ctx_identity ctx) (ctx_db ctx) name e0) as [e'|] eqn:Er; cbn.
      * eapply record_held_mono; [exact Hle2|]. eapply (Hnew' (name, e0)); [|done]. rewrite Hp. by apply elem_of_map_to_list.
      * eapply record_held_mono; [exact Hle2|]. eapply record_held_mono; [exact Hle1|]. by eapply Hheld.
    + rewrite Ev, Hm1. cbn. rewrite apply_part_fst, P4, Hn1. done.
    + rewrite Ev, Hm1. cbn. rewrite apply_part_fst, P5, Hn3. done.
    + rewrite Ev, Hm1. cbn. rewrite apply_part_fst, P6, Hn4. done.
  - exists x, ctx1. split; [done|]. assert (sphere_mutation_is_empty m = true) as Hm0 by (rewrite <- Hm1; apply negb_false_iff; exact Hun1).
    destruct (nothing_pending ctx1 Hun1) as [_ Hz]. rewrite Hm1, P1 in Hz.
    assert (forall name, (v_identities (ver_value x)).1 !! name =
      (e ← (v_identities (ver_value x)).1 !! name; Some (default e (renewal ns (ctx_identity ctx) (ctx_db ctx) name e)))) as Hnames.
    { intros name. rewrite <- (record_changes_apply ns (ctx_identity ctx) (ctx_db ctx) _ entries name Hp), Hz. done. }
    split; [done|done|done| | |done| |done..].
    { intros Hno. split; [done|]. apply Hsm. rewrite Hp. apply Forall_forall. intros [name e] Hin. apply (Hno name e). by apply elem_of_map_to_list. }
    { intros name e e' He Er. rewrite (proj1 Hpend Hm0 name e He) in Er. done. }
    intros name e Hn. eapply record_held_mono; [exact Hle1|]. by eapply Hheld.
Qed.

Lemma name_system_resolve_all_spec rng ns ctx x did :
  ready ctx x did -> writable ctx -> has_unsaved_changes ctx = false -> (lamport_order (ver_memo x) + 1 < 2 ^ 32)%N ->
  (forall name e, (v_identities (ver_value x)).1 !! name = Some e -> record_held (ctx_db ctx) e) ->
  levels DEFAULT_BIT_WIDTH * size (v_identities (ver_value x)).1 <= walk_fuel ->
  exists y ctx', name_system_resolve_all (Url := Url) supported_keys fuel walk_fuel clock rng ctx ns = (Ok None, ctx') /\
    resolved ns ctx ctx' x y did.
Proof.
  intros Hr Hw Hun Hlam Hheld Hf. pose proof Hr as [Hat _ _ _ _ _]. unfold name_system_resolve_all.
  change (SphereContext.version ctx) with (context_version ctx). rewrite (at_version_context _ _ Hat). cbn [outcome_bind].
  change (context_db ctx) with (ctx_db ctx). pose proof (proj2 Hat) as (Hm & Hb & _ & (book & Hbk & Hi) & _).
  unfold to_body, to_memo, get_identities. rewrite (stored_load _ _ _ Hm). cbn [outcome_bind]. rewrite (stored_load _ _ _ Hb). cbn [outcome_bind].
  rewrite (stored_load _ _ _ Hbk). cbn [outcome_bind]. destruct (vm_into_stream_spec _ _ _ walk_fuel Hi Hf) as (items & -> & Hp). cbn [try_with].
  destruct (resolve_all_spec rng ns ctx x did items Hr Hw Hun Hlam Hp Hheld) as (y & ctx' & E & Hres). exists y, ctx'.
  unfold plain in E |- *. rewrite E. done.
Qed.
End resolution.
