(* ===== verification/SyncProofs.v ===== *)
(** * Facts about synchronization

    A client and the gateway of its sphere, connected: what each of them holds after
    a synchronization, and how conflicts are retried. *)
From stdpp Require Import base gmap list numbers strings pretty.
From Stdlib Require Import Ascii String.
From S2P Require Import Prelude BlockStore HamtNode HamtRep Hamt HamtSpec BTree SphereDb BodyChunk.
From S2P Require Import VersionedMap UcanCapability Ucan UcanChain UcanProofs.
From S2P Require Import Authority AuthorityProofs Memo Sphere SphereProofs SphereHistory SphereRebase.
From S2P Require Import SphereGenesis Bundle BundleProofs Stream StreamProofs SphereContext SphereContextProofs SphereEdits SphereWalker SphereWalkerProofs.
From S2P Require Import ContextAuthority StoreTransfer Api ClientProofs Gateway GatewayProofs Sync.
#[local] Open Scope list_scope.
#[local] Notation length := List.length (only parsing).

(** ** Retries *)
Section retries.
Context {Key Url Cid B KV Net : Type} `{Unicode}.
Context `{KeyMaterial Key} `{Bs58} `{Base64} `{DagJson UcanHeader} `{DagJson UcanPayload} `{UrlOps Url}.
Context `{Countable Cid} `{HashAlgorithm string} `{HashAlgorithm Cid} `{KeyOrder Cid}.
Context `{CidDefault Cid} `{!BlockStore B Cid} `{Store KV} `{!SphereCodecs Cid} `{!EntryCodecs Cid} `{!ContextCodecs Cid}.
Context `{!ApiCodecs Cid} `{!GatewayApi Net Key Cid} `{!Server Net Cid}.
Context (supported_keys : list (bytes * (bytes -> outcome Key))).
Context (fuel walk_fuel history_fuel : nat) (clock : N).
Context {C : Type} `{!HasMutableSphereContext (Key := Key) (Cid := Cid) (B := B) (KV := KV) C}.
Notation sync := (sync (Url := Url) supported_keys fuel walk_fuel history_fuel clock).
Notation sync_retrying := (sync_retrying (Url := Url) supported_keys fuel walk_fuel history_fuel clock).

(** [n] synchronizations in a row, from the [r]th on, that end in a conflict. *)
Inductive conflicts (rng : nat -> nat -> nat -> bytes) (extent : SyncExtent) : nat -> nat -> C * Net -> C * Net -> Prop :=
  | conflicts_none r st : conflicts rng extent r 0 st st
  | conflicts_more r n c net st st' : sync (rng r) extent c net = (Failed SyncConflict, st) ->
      conflicts rng extent (pred r) n st st' -> conflicts rng extent r (Datatypes.S n) (c, net) st'.

Lemma sync_retrying_spec rng extent retries : forall c net,
  exists n c' net' r st, n <= retries /\ conflicts rng extent retries n (c, net) (c', net') /\
    sync (rng (retries - n)) extent c' net' = (r, st) /\ sync_retrying rng extent retries c net = (r, st) /\
    (r = Failed SyncConflict -> n = retries).
Proof.
  induction retries as [|retries IH]; intros c net; cbn [Sync.sync_retrying].
  - destruct (sync (rng 0) extent c net) as [r [c' net']] eqn:E. exists 0, c, net, r, (c', net'). split; [done|]. split; [constructor|].
    split; [done|]. split; [|done]. by destruct r as [|[]| |].
  - destruct (sync (rng (Datatypes.S retries)) extent c net) as [r [c1 net1]] eqn:E. destruct (decide (r = Failed SyncConflict)) as [->|Hr].
    + destruct (IH c1 net1) as (n & c' & net' & r & st & Hn & Hc & Es & Er & Hl). exists (Datatypes.S n), c', net', r, st.
      split; [lia|]. split; [by econstructor|]. split; [done|]. split; [done|]. intros Hf. by rewrite (Hl Hf).
    + exists 0, c, net, r, (c1, net1). split; [lia|]. split; [constructor|]. split; [done|]. split; [|done].
      destruct r as [|[]| |]; done.
Qed.
End retries.

(** ** A client and its gateway *)
Section connected.
Context {Key Url Cid B KV : Type} `{UnicodeLaws}.
Context `{KeyMaterial Key} `{Bs58} `{Base64Laws} `{!Base64Ascii} `{DagJsonLaws UcanHeader} `{DagJsonLaws UcanPayload} `{UrlLaws Url}.
Context `{Countable Cid} `{HashAlgorithmLaws string} `{HashAlgorithmLaws Cid} `{KeyOrderLaws Cid}.
Context `{CidLaws Cid} `{!CidDefault Cid} `{!BlockStore B Cid} `{!BlockStoreLaws B Cid} `{StoreLaws KV}.
Context `{!SphereCodecs Cid} `{!SphereCodecsLaws Cid} `{!EntryCodecs Cid} `{!EntryCodecsLaws Cid}.
Context `{!ContextCodecs Cid} `{!ContextCodecsLaws Cid} `{!ApiCodecs Cid} `{!ApiCodecsLaws Cid} `{!StreamMerge Cid}.
Context (supported_keys : list (bytes * (bytes -> outcome Key))).
Context (fuel walk_fuel history_fuel : nat) (clock : N).
Context (P : string -> Prop) (Q : Cid -> Prop) (HP : collision_free P) (HQ : collision_free Q).
Notation SphereDb := (SphereDb B KV).
Notation version := (SphereRebase.version (Cid := Cid)).
Notation context := (SphereContext (Key := Key) (Cid := Cid) (B := B) (KV := KV)).
Notation SphereMutation := (SphereMutation Cid).
Notation gateway := (Gateway (Cid := Cid) (C := context)).
Notation lasting_access := (lasting_access (Url := Url) supported_keys fuel walk_fuel clock).
Notation serving := (serving (Url := Url) supported_keys fuel walk_fuel clock P Q).
Notation sendable := (sendable walk_fuel history_fuel P Q).
Notation delegate := (delegate (Url := Url) supported_keys fuel walk_fuel clock).
Notation requester := (requester (Url := Url) supported_keys fuel walk_fuel clock).
#[local] Existing Instance block_ucan_store.
Implicit Types (db : SphereDb) (ctx gctx : context) (x y g : version) (l : list (SphereMutation * version)) (gw : gateway).
#[local] Instance plain_context : HasMutableSphereContext (Key := Key) (Cid := Cid) (B := B) (KV := KV) context :=
  context_has_mutable_context (Url := Url) clock.

Context (gateway_rng : bytes) (with_ipfs : SphereDb -> SphereDb).
Context (ipfs_grows : forall db, grown (Cid := Cid) db (with_ipfs db)).

(** The network is the gateway itself. *)
#[local] Instance gateway_server : Server gateway Cid := {|
  serve_fetch := fetch_route (Url := Url) supported_keys fuel walk_fuel history_fuel clock with_ipfs;
  serve_push := push_route (Url := Url) supported_keys fuel walk_fuel history_fuel clock gateway_rng;
|}.

(** *** Growing stores *)
Lemma lasting_grown ctx db : lasting_access ctx -> store_le (ctx_db ctx) db ->
  get_version (Cid := Cid) db (ctx_identity ctx) = get_version (ctx_db ctx) (ctx_identity ctx) -> lasting_access (with_db ctx db).
Proof. intros Ha Hle Hv db' Hle' Hv'. apply (Ha db'); [by transitivity db|]. cbn in Hv'. congruence. Qed.

Lemma added_mono b n db db' v : store_le db db' -> added_at b n db v -> added_at (Cid := Cid) b n db' v.
Proof.
  intros Hle (Hc & Hi & Hd). split; [|split].
  - intros k c Hk. specialize (Hc k c Hk). destruct b; cbn in *; [by eapply content_memo_mono|]. destruct Hc as [memo Hm]. exists memo. by eapply stored_mono.
  - intros k i Hk. eapply identity_mono; [exact Hle|by eapply Hi].
  - intros k d Hk. eapply delegation_chain_mono; [exact Hle|by eapply Hd].
Qed.

Lemma serving_grown ctx db g gdid n : serving ctx g gdid n -> grown (Cid := Cid) (ctx_db ctx) db -> serving (with_db ctx db) g gdid n.
Proof.
  intros [[[Hv Hg] Hval Hm Hby Hau Hs] Hi Ha Hsp Hadd Ho] [Hle Hn].
  assert (get_version (Cid := Cid) db (ctx_identity ctx) = get_version (ctx_db ctx) (ctx_identity ctx)) as Hv' by by apply same_names_version.
  split; cbn; [|done|by apply lasting_grown|done|by eapply added_mono|done].
  split; cbn; [|done|done|done|done|exact (can_sign_mono _ _ _ _ _ _ Hle Hs)].
  split; cbn; [congruence|exact (holds_mono _ _ _ Hle Hg)].
Qed.

Lemma sendable_mono A n db db' x l : store_le db db' -> sendable A n db x l -> sendable A n db' x l.
Proof.
  intros Hle [Hl Hne Hlen Hsp Hadd Hv Hm Ho Hd]. split; try done; [by eapply lineage_mono|].
  eapply Forall_impl; [exact Hadd|]. intros my. by apply added_mono.
Qed.

Lemma requester_mono db db' author identity did cid c records : store_le db db' ->
  requester db author identity did cid c records -> requester db' author identity did cid c records.
Proof.
  intros Hle [? ? ? ? ? ? ? ? ? Hrec Hv Hu He ? ? ?]. pose proof (records_mono _ _ _ _ Hle Hrec) as Hrec'.
  destruct (records_closed _ _ _ Hrec) as [Hin Hcl]. destruct (records_closed _ _ _ Hrec') as [_ Hcl'].
  destruct (records_head _ _ _ Hrec) as (jwt & ucan & cids & rest & -> & Ht & Hu8 & Ef & Ec & _).
  assert (ucan = UcanChain.chain_ucan c) as ->.
  { cbn in Hu. rewrite (token_at_require db cid jwt Ht Hu8) in Hu. cbn [outcome_bind] in Hu. congruence. }
  split; try done.
  - eapply (valid_transfer (G := SphereDb) (S := SphereDb) supported_keys clock db db'); [exact Hrec| |exact Hv|exact Ec|].
    + intros cid' jwt' Hin'. by apply (Hcl' _ _ Hin').
    + destruct (Hcl cid jwt (list_elem_of_here _ _)) as (_ & _ & u' & cids' & Ef' & Ec' & Hsub). congruence || by assert (cids' = cids) as <- by congruence.
  - cbn. destruct (Hcl' cid jwt (list_elem_of_here _ _)) as (Ht' & _). by rewrite (token_at_require db' cid jwt Ht' Hu8).
Qed.

Lemma delegate_grown ctx db x cid c did identity : delegate ctx x cid c did identity -> lasting_access ctx -> store_le (ctx_db ctx) db ->
  get_version (Cid := Cid) db (ctx_identity ctx) = get_version (ctx_db ctx) (ctx_identity ctx) ->
  delegate (with_db ctx db) x cid c did identity.
Proof.
  intros [[Hv Hx] ? ? ? ? ? ? Hd ? ? ? ? ?] Ha Hle Hver. split; cbn; try done.
  - split; cbn; [congruence|exact (holds_mono _ _ _ Hle Hx)].
  - by apply Ha.
  - by eapply durable_mono.
Qed.

(** *** The handshake *)
Context `{!GatewayApi gateway Key Cid}.

Lemma handshake_spec ctx gw session (t v : option Cid) : ctx_client ctx = Some session ->
  get_version (ctx_db ctx) (ctx_identity ctx) = Ok t -> get_version (ctx_db ctx) (session_counterpart session) = Ok v ->
  exists db, handshake ctx gw = (Ok (t, session_counterpart session, v), with_db ctx db) /\ same_blocks (ctx_db ctx) db /\
    forall identity, get_version (Cid := Cid) db identity = get_version (ctx_db ctx) identity.
Proof.
  intros Hc Ht Hg. unfold handshake, client_of, context_client. cbn [sphere_context put_context has_context plain_context context_has_mutable_context context_has_context].
  rewrite Hc. cbn [try_with]. change (context_db ctx) with (ctx_db ctx).
  destruct (db_set_key_spec (ctx_db ctx) COUNTERPART (session_counterpart session)) as (db & E & Hsame & Hv & _). rewrite E. cbn [try_with].
  assert (forall identity, get_version (Cid := Cid) db identity = get_version (ctx_db ctx) identity) as Hver
    by (intros identity; unfold get_version; by rewrite Hv).
  exists db. change (put_db ctx db) with (with_db ctx db). cbn [ctx_identity with_db].
  rewrite (Hver (ctx_identity ctx)), (Hver (session_counterpart session)), Ht. cbn [try_with]. rewrite Hg. cbn [try_with]. by split.
Qed.

(** *** Requests *)
Definition at_db gw db : gateway := mkGateway (with_db (gateway_context gw) db) (gateway_scope gw) (gateway_jobs gw).

(** The gateway lets its counterpart through, and keeps the tokens of the request. *)
Lemma gateway_authorized rng gw (s : SphereDb) author did cid c records name ability : json_total ->
  requester s author (scope_counterpart (gateway_scope gw)) did cid c records ->
  exists credentials db, make_bearer_token (Url := Url) walk_fuel clock rng name author
      (generate_capability (scope_counterpart (gateway_scope gw)) ability) s = Ok credentials /\
    gateway_authorize (Url := Url) supported_keys fuel clock gw credentials ability = (Ok (with_db (gateway_context gw) db), at_db gw db) /\
    grown (Cid := Cid) (ctx_db (gateway_context gw)) db.
Proof.
  intros Hj Hq. set (gdb := ctx_db (gateway_context gw)).
  destruct (request_authorized (Url := Url) supported_keys fuel walk_fuel clock rng s author (scope_counterpart (gateway_scope gw)) did cid c records name ability
    (block_store gdb) (gateway_context gw) Hj Hq) as (credentials & blocks & Em & Ew & Hle & _).
  set (db := mkDb blocks (link_store gdb) (version_store gdb) (metadata_store gdb)).
  destruct (request_authorized (Url := Url) supported_keys fuel walk_fuel clock rng s author (scope_counterpart (gateway_scope gw)) did cid c records name ability
    (block_store gdb) (with_db (gateway_context gw) db) Hj Hq) as (credentials' & blocks' & Em' & _ & _ & Ea).
  assert (credentials' = credentials) as -> by congruence. exists credentials, db. split; [done|]. split; [|split; [|done]].
  - unfold gateway_authorize. change (context_db (gateway_context gw)) with gdb. rewrite Ew. cbn [snd]. exact (f_equal (fun r => (r, at_db gw db)) Ea).
  - intros c' b [Hg Hc]. split; [|done]. cbn in *. unfold db_get_block in *. cbn. destruct (Hle c' b) as [? _]; [by split|done].
Qed.

(** A fetch since the version that the gateway is at. *)
Lemma fetch_nothing rng gw (s : SphereDb) author did cid c records session (g : Cid) : json_total ->
  requester s author (scope_counterpart (gateway_scope gw)) did cid c records ->
  get_version (ctx_db (gateway_context gw)) (ctx_identity (gateway_context gw)) = Ok (Some g) ->
  exists db, client_fetch (Url := Url) walk_fuel clock rng session (scope_counterpart (gateway_scope gw)) author s (Some g) gw =
      (Ok None, at_db gw db) /\ grown (Cid := Cid) (ctx_db (gateway_context gw)) db.
Proof.
  intros Hj Hq Hg. destruct (gateway_authorized rng gw s author did cid c records (session_gateway session) Fetch Hj Hq)
    as (credentials & db & Em & Ea & Hgr). unfold client_fetch. rewrite Em. cbn [try_with serve_fetch gateway_server].
  unfold fetch_route. rewrite Ea. change (context_db (with_db (gateway_context gw) db)) with db. unfold generate_fetch_stream.
  cbn [sphere_context has_context plain_context context_has_mutable_context context_has_context ctx_identity with_db].
  rewrite (require_version_spec _ _ g); [|by rewrite (same_names_version _ _ _ (proj2 Hgr))]. cbn [outcome_bind].
  rewrite bool_decide_true by done. cbn [to_car_stream fst snd outcome_bind try_with]. rewrite cid_default_codec. cbn [N.eqb].
  exists (with_ipfs db). split; [done|]. destruct Hgr as [H1' H2'], (ipfs_grows db) as [H3' H4']. by split; etransitivity.
Qed.

(** *** Pushing *)

(** What a push that is accepted makes of a gateway: it holds the history pushed and
    points to its end, and its own sphere is at [y], made from [g] by the push. *)
Record accepted (A : string -> Prop) (n : nat) gw gw' x l g (gdid : string) y : Prop := {
  accepted_scope : gateway_scope gw' = gateway_scope gw;
  accepted_store : store_le (ctx_db (gateway_context gw)) (ctx_db (gateway_context gw'));
  accepted_history : lineage A (ctx_db (gateway_context gw')) x l;
  accepted_tip : get_version (ctx_db (gateway_context gw')) (scope_counterpart (gateway_scope gw)) = Ok (Some (ver_cid (tip x l)));
  accepted_version : succeeds (eq gdid) (ctx_db (gateway_context gw')) g
    (push_mutation (ctx_mutation (gateway_context gw)) (scope_counterpart (gateway_scope gw)) x l g) y;
  accepted_ready : ready (Url := Url) clock P Q (gateway_context gw') y gdid;
  accepted_idle : has_unsaved_changes (gateway_context gw') = false;
  accepted_added : added_at false n (ctx_db (gateway_context gw')) (ver_value y);
  accepted_identity : ctx_identity (gateway_context gw') = ctx_identity (gateway_context gw);
}.

Lemma tip_fresh A db x l : lineage A db x l -> l <> [] -> ver_cid (tip x l) <> ver_cid x.
Proof.
  intros Hl Hne E. apply (lineage_fresh _ _ _ _ Hl). rewrite <- E. by apply tip_in.
Qed.

Lemma client_push_spec A rng gw (db : SphereDb) author did cid c records session x l g gdid n record :
  let identity := scope_counterpart (gateway_scope gw) in
  json_total -> requester db author identity did cid c records -> sendable A n db x l -> serving (gateway_context gw) g gdid n ->
  holds (ctx_db (gateway_context gw)) x -> get_version (ctx_db (gateway_context gw)) identity = Ok (Some (ver_cid x)) ->
  P identity -> identity <> "" -> identity <> ctx_identity (gateway_context gw) ->
  Forall (fun op => P (change_key op)) (pushed_changes l) ->
  exists y db' gw', client_push (Url := Url) walk_fuel history_fuel clock rng session identity author
      (mkPush identity (Some (ver_cid x)) (ver_cid (tip x l)) (Some (ver_cid g)) record) db gw = (Done (Accepted (ver_cid y)), (db', gw')) /\
    grown (Cid := Cid) db db' /\ accepted A n gw gw' x l g gdid y /\
    history_delivered false n db' [(push_mutation (ctx_mutation (gateway_context gw)) identity x l g, y)].
Proof.
  intros identity Hj Hq Hsend Hs Hx Hver Hp Hne Hid Hpl. set (body := mkPush _ _ _ _ _).
  destruct (gateway_authorized rng gw db author did cid c records (session_gateway session) Push Hj Hq) as (credentials & gdb & Em & Ea & Hgr).
  pose proof (serving_grown _ _ _ _ _ Hs Hgr) as Hs'. set (ctx := with_db (gateway_context gw) gdb) in *.
  assert (get_version (ctx_db ctx) identity = Ok (Some (ver_cid x))) as Hver' by (cbn; by rewrite (same_names_version _ _ _ (proj2 Hgr))).
  destruct (push_invoke_spec (Url := Url) supported_keys fuel walk_fuel history_fuel clock P Q HP HQ A gateway_rng (gateway_scope gw) ctx g gdid n db x l body
    Hs' Hsend (holds_mono _ _ _ (proj1 Hgr) Hx) Hp Hne Hid Hpl) as (y & ctx' & first & blocks & jobs & Ei & Eo & Hsound & Hdel & Hle & Hl & Hy & Htip & Hr & Hun & Hadd & Hid' & _);
    [|done..|].
  { apply (check_history_done (Url := Url) clock ctx body (ver_cid g) (Some (ver_cid x))); [|done|].
    - apply at_version_context. by destruct Hs' as [[Hat _ _ _ _ _] _ _ _ _ _].
    - split; [done|]. split; [done|]. intros c' [= <-]. destruct Hsend as [Hl0 Hsome _ _ _ _ _ _ _]. exact (tip_fresh _ _ _ _ Hl0 Hsome). }
  destruct (put_block_stream_spec db blocks (Ok tt) Hsound) as (db' & Ep & Hle' & Hall).
  pose proof (names_put_block_stream (blocks, Ok tt) db) as Hn. rewrite Ep in Hn. cbn [snd] in Hn.
  exists y, db', (mkGateway ctx' (gateway_scope gw) (gateway_jobs gw ++ jobs)). split; [|split; [by split|split; [split; cbn; try done|by apply Hdel]]].
  - fold identity in Em. unfold client_push. rewrite Em. cbn [lift attempt_with]. unfold make_push_request. cbn [serve_push gateway_server].
    unfold push_route. rewrite Ea. fold ctx. cbn [gateway_scope gateway_jobs at_db]. unfold plain_context. unfold GatewayProofs.plain in Ei. rewrite Ei. cbn [N.eqb OK CONFLICT Pos.eqb from_car_stream attempt_with]. unfold try_next. destruct first as [c0 b0].
    cbn [lift attempt_with snd] in *. rewrite Eo. cbn [lift attempt_with]. rewrite Ep. done.
  - etransitivity; [exact (proj1 Hgr)|exact Hle].
Qed.

(** *** A client with new versions, and a gateway that waits for them *)

(** The client has made [l] from [x], the last version that the gateway has of its
    sphere, and both know the version [g] of the gateway's sphere. *)
Record paired (A : string -> Prop) (n : nat) ctx gw (session : Session) x l g (did gdid : string) (cid : Cid) (c : ProofChain)
    (records : list (Cid * string)) : Prop := {
  paired_session : ctx_client ctx = Some session;
  paired_counterpart : session_counterpart session = ctx_identity (gateway_context gw);
  paired_identity : ctx_identity ctx = scope_counterpart (gateway_scope gw);
  paired_origin : ctx_origin ctx = ctx_identity ctx;
  paired_names : ctx_identity ctx <> "" /\ ctx_identity ctx <> ctx_identity (gateway_context gw);
  paired_keys : P (ctx_identity ctx) /\ Forall (fun op => P (change_key op)) (pushed_changes l);
  paired_delegate : delegate ctx (tip x l) cid c did (ctx_identity ctx);
  paired_access : lasting_access ctx;
  paired_requester : requester (ctx_db ctx) (ctx_author ctx) (ctx_identity ctx) did cid c records;
  paired_sendable : sendable A n (ctx_db ctx) x l;
  paired_known : get_version (ctx_db ctx) (ctx_identity (gateway_context gw)) = Ok (Some (ver_cid g)) /\ holds (ctx_db ctx) g;
  paired_serving : serving (gateway_context gw) g gdid n;
  paired_base : get_version (ctx_db (gateway_context gw)) (ctx_identity ctx) = Ok (Some (ver_cid x)) /\
    holds (ctx_db (gateway_context gw)) x;
  paired_link : (v_content (ver_value g)).1 !! ctx_identity ctx = Some (ver_cid x);
}.

Lemma paired_grown A n ctx gw session x l g did gdid cid c records db gdb :
  paired A n ctx gw session x l g did gdid cid c records -> store_le (ctx_db ctx) db ->
  (forall identity, get_version (Cid := Cid) db identity = get_version (ctx_db ctx) identity) ->
  grown (Cid := Cid) (ctx_db (gateway_context gw)) gdb ->
  paired A n (with_db ctx db) (at_db gw gdb) session x l g did gdid cid c records.
Proof.
  intros [? ? ? ? ? ? Hd Ha Hq Hs [Hv Hg] Hsv [Hx Hxh] ?] Hle Hver Hgr. split; cbn; try done.
  - by apply delegate_grown.
  - by apply lasting_grown.
  - by eapply requester_mono.
  - by eapply sendable_mono.
  - split; [congruence|exact (holds_mono _ _ _ Hle Hg)].
  - by apply serving_grown.
  - split; [by rewrite (same_names_version _ _ _ (proj2 Hgr))|exact (holds_mono _ _ _ (proj1 Hgr) Hxh)].
Qed.

Lemma linked_version_spec db g identity : holds db g -> linked_version db (ver_cid g) identity = Ok ((v_content (ver_value g)).1 !! identity).
Proof. intros Hg. unfold linked_version. destruct (content_lookup db g identity Hg) as (links & -> & E). exact E. Qed.

(** What a synchronization leaves at the client. *)
Record synchronized ctx ctx' (counterpart : string) t g m (gdid : string) y : Prop := {
  synchronized_store : store_le (ctx_db ctx) (ctx_db ctx');
  synchronized_at : at_version ctx' t;
  synchronized_identity : ctx_identity ctx' = ctx_identity ctx;
  synchronized_counterpart : get_version (ctx_db ctx') counterpart = Ok (Some (ver_cid y));
  synchronized_history : lineage (eq gdid) (ctx_db ctx') g [(m, y)];
}.

Lemma push_local_changes_spec A n rng ctx gw session x l g did gdid cid c records : json_total ->
  paired A n ctx gw session x l g did gdid cid c records ->
  exists y ctx' gw', push_local_changes (Url := Url) supported_keys fuel walk_fuel history_fuel clock rng ctx (ver_cid (tip x l))
      (ctx_identity (gateway_context gw)) (ver_cid g) gw = (Done tt, (ctx', gw')) /\
    accepted A n gw gw' x l g gdid y /\
    synchronized ctx ctx' (ctx_identity (gateway_context gw)) (tip x l) g
      (push_mutation (ctx_mutation (gateway_context gw)) (ctx_identity ctx) x l g) gdid y.
Proof.
  intros Hj [Hse Hco Hid Hor [Hn1 Hn2] [Hp Hpl] Hd Ha Hq Hs [Hgv Hg] Hsv [Hxv Hx] Hlk].
  pose proof Hq as [_ _ _ _ _ _ _ Hend Hclk _ _ _ _ _ Hdepth [Hop Hstar]].
  destruct (create_link_record_spec (Url := Url) supported_keys fuel walk_fuel clock (rng RNG_RECORD 0) ctx (tip x l) cid c did (ctx_identity ctx) 120
    Hj Hd Hdepth Hop Hstar ltac:(lia) Hclk Hend) as (record & jwt & db1 & Er & [Hle1 Hsn1] & _ & _ & _ & Ej & _).
  unfold push_local_changes. cbn [has_context plain_context context_has_mutable_context]. rewrite Er. cbn [lift attempt_with]. rewrite Ej. cbn [lift attempt_with].
  set (ctx1 := edited ctx db1 (ctx_mutation ctx)). change (context_db ctx1) with db1. change (ctx_identity (sphere_context ctx1)) with (ctx_identity ctx).
  rewrite (linked_version_spec db1 g) by exact (holds_mono _ _ _ Hle1 Hg). rewrite Hlk. cbn [lift attempt_with].
  pose proof Hs as [Hl Hsome Hlen _ _ _ _ _ _]. rewrite bool_decide_false by (intros [= E]; by apply (tip_fresh _ _ _ _ Hl Hsome)).
  unfold client_of, context_client. change (ctx_client (sphere_context ctx1)) with (ctx_client ctx). rewrite Hse. cbn [lift attempt_with].
  change (put_context ctx1 (sphere_context ctx1)) with ctx1. change (ctx_origin (sphere_context ctx1)) with (ctx_origin ctx).
  change (ctx_author (sphere_context ctx1)) with (ctx_author ctx). change (context_db ctx1) with db1. rewrite Hor, Hid in *.
  destruct (client_push_spec A (rng RNG_PUSH 0) gw db1 (ctx_author ctx) did cid c records session x l g gdid n (Some jwt) Hj
    (requester_mono _ _ _ _ _ _ _ _ Hle1 Hq) (sendable_mono _ _ _ _ _ _ Hle1 Hs) Hsv Hx Hxv Hp Hn1 Hn2 Hpl) as (y & db2 & gw' & Ep & [Hle2 Hsn2] & Hacc & Hdel).
  rewrite Ep. cbn [map_err attempt_with].
  set (m := push_mutation _ _ x l g) in *.
  assert (lineage (eq gdid) (ctx_db (gateway_context gw')) g [(m, y)]) as Hlin.
  { pose proof (accepted_version _ _ _ _ _ _ _ _ _ Hacc) as Hy. constructor; [|exact Hy|constructor; apply Hy].
    eapply holds_mono; [apply Hacc|]. by destruct Hsv as [[[_ ?] _ _ _ _ _] _ _ _ _ _]. }
  destruct (push_mutation_in (Url := Url) supported_keys fuel walk_fuel clock P Q (gateway_context gw) g gdid n x l _ Hsv Hp Hpl) as (Hmin & _).
  pose proof Hsv as [[_ Hval _ _ _ _] _ _ _ _ Ho].
  assert (store_le (ctx_db ctx) db2) as Hle02 by (by transitivity db1).
  destruct (delivered_lineage P Q HP HQ false (eq gdid) n (ctx_db (gateway_context gw')) db2 g [(m, y)] Hlin Hdel (holds_mono _ _ _ Hle02 Hg) Hval
    ltac:(by constructor) ltac:(cbn; lia)) as (db3 & Eh & Hle3 & Hlin3).
  assert (1 <= history_fuel) as Hone by (clear -Hsome Hlen; destruct l; [done|cbn in Hlen; lia]).
  pose proof (lineage_chronological_at (eq gdid) (ctx_db (gateway_context gw')) db2 g [(m, y)] history_fuel Hlin (proj1 Hdel) (lineage_fresh _ _ _ _ Hlin)
    ltac:(done) Hone) as Et. change (tip g [(m, y)]) with y in Et. unfold hydrate_timeslice. rewrite Et. cbn [try_with].
  pose proof (names_hydrate_all (cids [(m, y)]) db2) as Hsn3. rewrite Eh in Hsn3 |- *. cbn [lift attempt_with snd] in *.
  destruct (set_version_spec db3 (ctx_identity (gateway_context gw)) (ver_cid y)) as (db4 & E4 & Hsame & _ & Hv4 & Ho4). rewrite E4. cbn [lift attempt_with].
  apply same_blocks_le in Hsame. exists y. eexists _, gw'. split; [done|]. split; [done|].
  assert (store_le (ctx_db ctx) db4) as Hle04 by (transitivity db3; [by transitivity db2|done]).
  split; cbn; [done| |done|done|exact (lineage_mono _ _ _ _ _ Hsame Hlin3)].
  destruct Hd as [[Hv Ht] _ _ _ _ _ _ _ _ _ _ _ _]. split; cbn; [|exact (holds_mono _ _ _ Hle04 Ht)].
  rewrite Ho4 by congruence. rewrite (same_names_version _ _ _ Hsn3), (same_names_version _ _ _ Hsn2), (same_names_version _ _ _ Hsn1). exact Hv.
Qed.

Lemma sync_spec A n rng ctx gw session x l g did gdid cid c records : json_total ->
  paired A n ctx gw session x l g did gdid cid c records ->
  exists y ctx' gw', sync (Url := Url) supported_keys fuel walk_fuel history_fuel clock rng FetchAndPush ctx gw =
      (Done (ver_cid (tip x l)), (ctx', gw')) /\
    accepted A n gw gw' x l g gdid y /\
    synchronized ctx ctx' (ctx_identity (gateway_context gw)) (tip x l) g
      (push_mutation (ctx_mutation (gateway_context gw)) (ctx_identity ctx) x l g) gdid y.
Proof.
  intros Hj Hpa. pose proof Hpa as [Hse Hco Hid Hor _ _ [[Hv _] _ _ _ _ _ _ _ _ _ _ _ _] _ _ _ [Hgv _] _ _ _].
  destruct (handshake_spec ctx gw session (Some (ver_cid (tip x l))) (Some (ver_cid g)) Hse Hv) as (db1 & Eh & Hsame & Hver); [by rewrite Hco|].
  apply same_blocks_le in Hsame as Hle1. unfold sync. rewrite Eh. cbn [lift attempt_with].
  pose proof (paired_grown A n ctx gw session x l g did gdid cid c records db1 (ctx_db (gateway_context gw)) Hpa Hle1 Hver (conj (reflexivity _) (reflexivity _))) as Hpa1.
  pose proof Hpa1 as [_ _ _ _ _ _ _ _ Hq _ _ Hsv _ _]. pose proof Hsv as [[[Hgg _] _ _ _ _ _] _ _ _ _ _].
  unfold sync_steps, fetch_remote_changes, client_of, context_client. cbn [sphere_context put_context has_context plain_context context_has_mutable_context context_has_context].
  change (ctx_client (with_db ctx db1)) with (ctx_client ctx). rewrite Hse. cbn [try_with].
  change (ctx_origin (with_db ctx db1)) with (ctx_origin ctx). change (context_db (with_db ctx db1)) with db1.
  cbn [ctx_author ctx_identity ctx_db with_db at_db gateway_context] in Hq, Hgg. rewrite Hor, Hid in *.
  destruct (fetch_nothing (rng RNG_FETCH 0) gw db1 (ctx_author ctx) did cid c records session (ver_cid g) Hj Hq Hgg) as (gdb & Ef & Hgr).
  change (ctx_author (with_db ctx db1)) with (ctx_author ctx). rewrite Ef. cbn [try_with].
  rewrite (require_version_spec db1 _ (ver_cid (tip x l))) by (cbn; rewrite Hid, Hver; exact Hv). cbn [try_with ok_or lift attempt_with adopt_names default].
  destruct (push_local_changes_spec A n rng (with_db ctx db1) (at_db gw gdb) session x l g did gdid cid c records Hj) as (y & ctx' & gw' & Ep & Hacc & Hsy).
  { apply paired_grown; done. }
  rewrite Hco. cbn [at_db gateway_context ctx_identity with_db] in Ep. rewrite Ep. cbn [attempt_with lift]. exists y, ctx', gw'. split; [done|]. split.
  - destruct Hacc. split; cbn in *; try done. etransitivity; [exact (proj1 Hgr)|done].
  - destruct Hsy. split; cbn in *; try done; [by transitivity db1|congruence].
Qed.
End connected.
