(* ===== verification/Routes.v ===== *)
(** * The other routes of a gateway

    Model of the handlers of [noosphere-gateway/src/handlers/v0alpha1]: telling the
    DID of a gateway (did.rs), identifying it (identify.rs), replicating a version
    (replicate.rs) and the deprecated push (push.rs); and of the requests that a
    client makes to the first three ([Client::identify] and [Client::replicate] of
    [noosphere-core/src/api/client.rs]).

    Extracting the parts of a request and encoding the parts of a response is the
    work of [axum] and [reqwest]: a route has the extracted values as arguments.  As
    in [Gateway], the store that a stream reads is the database with the blocks that
    were found on IPFS. *)
From stdpp Require Import base gmap list numbers strings pretty.
From Stdlib Require Import Ascii String.
From S2P Require Import Prelude BlockStore HamtNode HamtRep Hamt BTree SphereDb BodyChunk VersionedMap.
From S2P Require Import UcanCapability Ucan UcanChain Authority Memo Sphere SphereHistory Bundle Stream SphereContext Api Gateway.
#[local] Open Scope list_scope.
#[local] Notation length := List.length (only parsing).

(** ** What is replicated (api/v0alpha1/data.rs) *)
Inductive ReplicationMode (Cid : Type) : Type :=
  | ReplicateCid (cid : Cid)
  | ReplicateDid (did : string).
Arguments ReplicateCid {Cid} cid.
Arguments ReplicateDid {Cid} did.

Definition mode_to_string {Cid} `{CidOps Cid} (mode : ReplicationMode Cid) : string :=
  match mode with
  | ReplicateCid cid => cid_to_string cid
  | ReplicateDid did => did
  end.

(** The [AsQuery] of the parameters. *)
Definition replicate_query {Cid} `{CidOps Cid} (params : ReplicateParameters Cid) : option string :=
  let since := match replicate_since params with Some since => ["since=" +:+ cid_to_string since] | None => [] end in
  let content := if replicate_content params then ["include_content=true"] else [] in
  match since ++ content with
  | [] => None
  | query => Some (String.concat "&" query)
  end.

(** Two responses that refer to the same gateway. *)
Definition shares_identity_with (self other : IdentifyResponse) : bool :=
  bool_decide (gateway_identity self = gateway_identity other) && bool_decide (Authority.sphere_identity self = Authority.sphere_identity other).

(** ** The routes, as a client sees them

    A response is its status and its body: a text, a document that may not be
    readable, or a CAR stream. *)
Class SessionServer (Net Cid : Type) := {
  serve_did : Net -> outcome (N * string) * Net;
  serve_identify : Net -> Credentials Cid -> outcome (N * outcome IdentifyResponse) * Net;
  serve_replicate : Net -> Credentials Cid -> string -> ReplicateParameters Cid -> outcome (N * car_stream Cid) * Net;
}.

(** ** The client *)
Section session_client.
Context {Key Url Cid S Net : Type} `{Unicode}.
Context `{KeyMaterial Key} `{Bs58} `{Base64} `{DagJson UcanHeader} `{DagJson UcanPayload} `{UrlOps Url}.
Context `{EqDecision Cid} `{CidOps Cid} `{!BlockStore S Cid} `{!SessionServer Net Cid}.
Context (fuel walk_fuel : nat) (clock : N).
#[local] Existing Instance block_ucan_store.
Implicit Types (s : S) (net : Net).

(** [Client::identify]: what the client keeps is the identity of the gateway and
    that of its sphere. *)
Definition client_identify (rng : bytes) (identity : string) (author : Author Key Cid) (did_parser : DidParser Key) s net
    : outcome Session * Net :=
  let '(r, net) := serve_did net in
  let? (status, gateway) := r keeping net in
  if negb (status =? OK)%N then (Err "Unable to look up gateway identity", net)
  else
    let? credentials :=
      make_bearer_token (Url := Url) walk_fuel clock rng gateway author (generate_capability identity Fetch) s keeping net in
    let '(r, net) := serve_identify net credentials in
    let? (_, document) := r keeping net in
    let? response := document keeping net in
    let? _ := identify_verify (Url := Url) fuel clock s response did_parser keeping net in
    (Ok (mkSession (gateway_identity response) (Authority.sphere_identity response)), net).

(** [Client::replicate]: the root of the stream, and its blocks.  The parameters
    default to those of a request without a query. *)
Definition client_replicate (rng : bytes) (session : Session) (identity : string) (author : Author Key Cid) s
    (mode : ReplicationMode Cid) (params : option (ReplicateParameters Cid)) net : outcome (Cid * block_stream Cid) * Net :=
  let capability := generate_capability identity Fetch in
  let? credentials := make_bearer_token (Url := Url) walk_fuel clock rng (session_gateway session) author capability s keeping net in
  let '(r, net) := serve_replicate net credentials (mode_to_string mode) (default (mkReplicate None false) params) in
  let? (_, car) := r keeping net in
  let? (roots, stream) := car keeping net in
  match roots with
  | root :: _ =>
      let ending := match stream.2 with Err _ => Err "Replication stream ended prematurely" | ending => ending end in
      (Ok (root, (stream.1, ending)), net)
  | [] => (Err "Missing replication root", net)
  end.
End session_client.

(** ** The gateway *)
Section routes.
Context {Key Url Cid B KV : Type} `{Unicode}.
Context `{KeyMaterial Key} `{Bs58} `{Base64} `{DagJson UcanHeader} `{DagJson UcanPayload} `{UrlOps Url}.
Context `{Countable Cid} `{HashAlgorithm string} `{HashAlgorithm Cid} `{KeyOrder Cid}.
Context `{CidDefault Cid} `{!BlockStore B Cid} `{Store KV} `{!SphereCodecs Cid} `{!EntryCodecs Cid} `{!ContextCodecs Cid}.
Context (supported_keys : list (bytes * (bytes -> outcome Key))).
Context (fuel walk_fuel history_fuel : nat) (clock : N).
Notation SphereDb := (SphereDb B KV).
#[local] Existing Instance block_ucan_store.
Context {C : Type} `{!HasMutableSphereContext (Key := Key) (Cid := Cid) (B := B) (KV := KV) C}.
Notation Gateway := (Gateway (Cid := Cid) (C := C)).
Implicit Types (gateway : Gateway) (c : C).

Definition INTERNAL_SERVER_ERROR : N := 500.
Definition BAD_REQUEST : N := 400.
Definition FORBIDDEN : N := 403.

(** [map_err] to a status: what is not an error goes on. *)
Definition or_status {A R} (m : outcome A) (status : N) (respond : N -> outcome (N * R) * Gateway) (gateway : Gateway)
    (k : A -> outcome (N * R) * Gateway) : outcome (N * R) * Gateway :=
  match m with
  | Ok a => k a
  | Err _ => respond status
  | Panic w => (Panic w, gateway)
  | Diverge => (Diverge, gateway)
  end.

Definition did_route gateway : outcome (N * string) * Gateway :=
  (Ok (OK, scope_gateway_identity (gateway_scope gateway)), gateway).

Definition identify_route gateway (credentials : Credentials Cid) : outcome (N * outcome IdentifyResponse) * Gateway :=
  let '(r, gateway) := gateway_authorize (Url := Url) supported_keys fuel clock gateway credentials Fetch in
  match r with
  | Ok c =>
      let respond status := (Ok (status, Err "No document"), gateway) in
      let ctx := sphere_context c in
      let identified :=
        let? authorization :=
          ok_or "Authorization is required but none is configured" (author_authorization (ctx_author ctx)) in
        let? ucan := as_ucan (ctx_db ctx) authorization in
        identify_sign (ctx_identity ctx) (author_key (ctx_author ctx)) ucan in
      or_status identified INTERNAL_SERVER_ERROR respond gateway (fun response => (Ok (OK, Ok response), gateway))
  | Err status => (Ok (refusal status, Err "No document"), gateway)
  | Panic w => (Panic w, gateway)
  | Diverge => (Diverge, gateway)
  end.

(** *** Replication *)
Definition refers_to_sphere (memo : MemoIpld Cid) : bool :=
  match content_type memo with Some ContentType.Sphere => true | _ => false end.

Definition is_allowed_to_replicate_incrementally (since_memo latest_memo : MemoIpld Cid) : outcome bool :=
  if negb (refers_to_sphere since_memo) || negb (refers_to_sphere latest_memo) then Ok false
  else if (lamport_order latest_memo <=? lamport_order since_memo)%N then Ok false
  else
    match require_proof since_memo, require_proof latest_memo with
    | Ok since_ucan, Ok latest_ucan => Ok (bool_decide (audience since_ucan = audience latest_ucan))
    | Panic w, _ => Panic w
    | Diverge, _ => Diverge
    | Ok _, Panic w => Panic w
    | Ok _, Diverge => Diverge
    | Err _, _ | _, Err _ => Ok false
    end.

Definition starts_with_did (link_or_did : string) : bool := String.prefix "did:" link_or_did.

Definition requested_version (db : SphereDb) (link_or_did : string) : outcome Cid :=
  if starts_with_did link_or_did then require_version db link_or_did else cid_of_string link_or_did.

(** The stream, or the status of the refusal. *)
Definition replication_stream (store : SphereDb) (memo_version : Cid) (params : ReplicateParameters Cid)
    : outcome (N + car_stream Cid) :=
  let whole :=
    to_car_stream [memo_version] (memo_body_stream walk_fuel store memo_version (replicate_content params)) in
  match replicate_content params, replicate_since params with
  | false, Some since =>
      match load store since, load store memo_version with
      | Ok since_memo, Ok latest_memo =>
          if (lamport_order (since_memo : MemoIpld Cid) <? lamport_order (latest_memo : MemoIpld Cid))%N then
            let? allowed := is_allowed_to_replicate_incrementally since_memo latest_memo in
            if allowed : bool then
              Ok (inr (to_car_stream [memo_version]
                (memo_history_stream history_fuel walk_fuel store memo_version (Some since) false)))
            else Ok (inl BAD_REQUEST)
          else Ok (inr whole)
      | Panic w, _ => Panic w
      | Diverge, _ => Diverge
      | Ok _, Panic w => Panic w
      | Ok _, Diverge => Diverge
      | Err _, _ | _, Err _ => Ok (inl INTERNAL_SERVER_ERROR)
      end
  | _, _ => Ok (inr whole)
  end.

Context (with_ipfs : SphereDb -> SphereDb).

Definition replicate_route gateway (credentials : Credentials Cid) (link_or_did : string) (params : ReplicateParameters Cid)
    : outcome (N * car_stream Cid) * Gateway :=
  let '(r, gateway) := gateway_authorize (Url := Url) supported_keys fuel clock gateway credentials Fetch in
  match r with
  | Ok c =>
      let respond status := (Ok (status, Err "No CAR stream"), gateway) in
      or_status (requested_version (context_db c) link_or_did) INTERNAL_SERVER_ERROR respond gateway (fun memo_version =>
        let store := with_ipfs (context_db c) in
        let gateway := mkGateway (put_db c store) (gateway_scope gateway) (gateway_jobs gateway) in
        match replication_stream store memo_version params with
        | Ok (inr car) => (Ok (OK, car), gateway)
        | Ok (inl status) => (Ok (status, Err "No CAR stream"), gateway)
        | Err e => (Err e, gateway)
        | Panic w => (Panic w, gateway)
        | Diverge => (Diverge, gateway)
        end)
  | Err status => (Ok (refusal status, Err "No CAR stream"), gateway)
  | Panic w => (Panic w, gateway)
  | Diverge => (Diverge, gateway)
  end.
End routes.

(** ** The deprecated push (api/v0alpha1/data.rs and handlers/v0alpha1/push.rs) *)
Module V0alpha1.
Record PushBody (Cid : Type) := mkPush {
  push_sphere : string;
  local_base : option Cid;
  local_tip : Cid;
  counterpart_tip : option Cid;
  blocks : Bundle;
  name_record : option string;
}.
Arguments mkPush {Cid} _ _ _ _ _ _.
Arguments push_sphere {Cid} _.
Arguments local_base {Cid} _.
Arguments local_tip {Cid} _.
Arguments counterpart_tip {Cid} _.
Arguments blocks {Cid} _.
Arguments name_record {Cid} _.

Inductive PushResponse (Cid : Type) : Type :=
  | Accepted (new_tip : Cid) (blocks : Bundle)
  | NoChange.
Arguments Accepted {Cid} new_tip blocks.
Arguments NoChange {Cid}.

Inductive PushError : Type :=
  | Conflict
  | MissingHistory
  | UpToDate
  | Internal (error : string).

#[export] Instance push_error_from_anyhow : FromAnyhow PushError := Internal.

Definition push_error_status (error : PushError) : N :=
  match error with
  | Conflict => 409
  | MissingHistory => 422
  | UpToDate => 400
  | Internal _ => 500
  end.

Section push.
Context {Key Url Cid B KV : Type} `{Unicode}.
Context `{KeyMaterial Key} `{Bs58} `{Base64} `{DagJson UcanHeader} `{DagJson UcanPayload} `{UrlOps Url}.
Context `{Countable Cid} `{HashAlgorithm string} `{HashAlgorithm Cid} `{KeyOrder Cid}.
Context `{CidDefault Cid} `{!BlockStore B Cid} `{Store KV} `{!SphereCodecs Cid} `{!EntryCodecs Cid} `{!ContextCodecs Cid}.
Context (supported_keys : list (bytes * (bytes -> outcome Key))).
Context (fuel walk_fuel history_fuel : nat) (clock : N).
#[local] Existing Instance block_ucan_store.
Context {C : Type} `{!HasMutableSphereContext (Key := Key) (Cid := Cid) (B := B) (KV := KV) C}.
Notation Gateway := (Gateway (Cid := Cid) (C := C)).
Implicit Types (c : C) (request_body : PushBody Cid).

Definition verify_history c request_body : attempt PushError unit :=
  let* gateway_sphere_tip := lift (context_version (sphere_context c)) in
  if negb (bool_decide (Some gateway_sphere_tip = counterpart_tip request_body)) then Failed Conflict
  else
    let* local_sphere_base_cid := lift (get_version (context_db c) (push_sphere request_body)) in
    match local_sphere_base_cid, local_base request_body with
    | Some mine, theirs =>
        let conflict :=
          match theirs with
          | Some cid => negb (bool_decide (cid = mine))
          | None => true
          end in
        if conflict then Failed Conflict
        else if bool_decide (local_tip request_body = mine) then Failed UpToDate
        else Done tt
    | None, Some _ => Failed MissingHistory
    | None, None => Done tt
    end.

Definition incorporate_history (scope : GatewayScope) c request_body : attempt PushError unit * C :=
  let counterpart := scope_counterpart scope in
  let '(r, db) := load_into (Cid := Cid) (blocks request_body) (context_db c) in
  let c := put_db c db in
  let* _ := lift r keeping c in
  let '(history, ending) := into_history_stream history_fuel db (local_tip request_body) (local_base request_body) in
  let* _ := lift ending keeping c in
  let '(r, db) := hydrate_all (reverse history.*1) db in
  let c := put_db c db in
  let* _ := lift r keeping c in
  let '(r, db) := set_version db counterpart (local_tip request_body) in
  let c := put_db c db in
  let* _ := lift r keeping c in
  let '(r, c) := link_raw (Url := Url) supported_keys fuel walk_fuel clock c counterpart (local_tip request_body) in
  let* _ := lift r keeping c in (Done tt, c).

Notation Identities := (VersionedMap string (IdentityIpld Cid) Cid (SphereDb B KV)).

(** One operation of a changelog, with the names updated and removed so far. *)
Definition synchronize_operation (my_names : Identities) (operation : MapOperation string (IdentityIpld Cid)) (st : gset string * gset string * C)
    : outcome unit * (gset string * gset string * C) :=
  let '(updated_names, removed_names, c) := st in
  match operation with
  | Add key value =>
      if bool_decide (key ∈ updated_names) || bool_decide (key ∈ removed_names) then (Ok tt, st)
      else
        let? my_value := (vm_get my_names key).1 keeping st in
        let c :=
          if bool_decide (my_value = Some value) then c
          else put_context c (update_identities (sphere_context c) (fun identities => mutation_set identities key value)) in
        (Ok tt, ({[key]} ∪ updated_names, removed_names, c))
  | Remove key =>
      let removed_names := {[key]} ∪ removed_names in
      if bool_decide (key ∈ updated_names) then (Ok tt, (updated_names, removed_names, c))
      else
        let c := put_context c (update_identities (sphere_context c) (fun identities => mutation_remove identities key)) in
        (Ok tt, ({[key]} ∪ updated_names, removed_names, c))
  end.

(** The walk over the history: it ends at the first error of the stream, but an error
    within a version is one of the push. *)
Fixpoint synchronize_history (my_names : Identities) (db : SphereDb B KV) (history : list Cid) (st : gset string * gset string * C)
    : outcome unit * (gset string * gset string * C) :=
  match history with
  | [] => (Ok tt, st)
  | version :: history' =>
      let? sphere := to_body db version keeping st in
      let? identities := get_identities db (address_book sphere) keeping st in
      let? changed_names := (vm_load_changelog identities).1 keeping st in
      let '(r, st) := for_each_st (synchronize_operation my_names) (log_changes changed_names) st in
      let? _ := r keeping st in
      synchronize_history my_names db history' st
  end.

Definition synchronize_names c request_body : attempt PushError unit * C :=
  let* my_sphere := lift (SphereContext.version c) keeping c in
  let db := context_db c in
  let* my_names := lift (let? sphere := to_body db my_sphere in get_identities db (address_book sphere)) keeping c in
  let '(history, ending) := into_history_stream history_fuel db (local_tip request_body) (local_base request_body) in
  let '(r, (_, c)) := synchronize_history my_names db history.*1 (∅, ∅, c) in
  let* _ := lift r keeping c in
  match ending with
  | Ok _ | Err _ => (Done tt, c)
  | Panic w => (Panicked w, c)
  | Diverge => (Diverged, c)
  end.

(** [Sphere::bundle_until_ancestor] (view/sphere.rs). *)
Definition bundle_until_ancestor (db : SphereDb B KV) (sphere : Cid) (ancestor : option Cid) : outcome Bundle :=
  from_timeslice history_fuel db (exclude_past (slice sphere ancestor)).

Definition update_gateway_sphere (rng : bytes) c : attempt PushError (Cid * Bundle) * C :=
  let* previous_version := lift (SphereContext.version c) keeping c in
  let '(r, cursor) := cursor_save rng (latest c) None in
  let c := cursor_inner cursor in
  let* next_version := lift r keeping c in
  let* bundle :=
    lift (let? sphere := SphereContext.version c in
      bundle_until_ancestor (context_db c) sphere (Some previous_version)) keeping c in
  (Done (next_version, bundle), c).

Definition notify_name_resolver (scope : GatewayScope) request_body : list (GatewayJob Cid) :=
  [NameSystemResolveSince (scope_gateway scope) (local_base request_body)].

Definition notify_ipfs_syndicator (scope : GatewayScope) request_body : list (GatewayJob Cid) :=
  match name_record request_body with
  | Some jwt =>
      match ucan_from_str jwt with
      | Ok record => [IpfsSyndication (scope_gateway scope) (Some record)]
      | _ => []
      end
  | None => [IpfsSyndication (scope_gateway scope) None]
  end.

Definition push_invoke (rng : bytes) (scope : GatewayScope) c request_body
    : attempt PushError (PushResponse Cid * list (GatewayJob Cid)) * C :=
  let* _ := verify_history c request_body keeping c in
  let '(r, c) := incorporate_history scope c request_body in
  let* _ := r keeping c in
  let '(r, c) := synchronize_names c request_body in
  let* _ := r keeping c in
  let '(r, c) := update_gateway_sphere rng c in
  let* (next_version, new_blocks) := r keeping c in
  let jobs := notify_name_resolver scope request_body ++ notify_ipfs_syndicator scope request_body in
  (Done (Accepted next_version new_blocks, jobs), c).

(** A body for another sphere is refused before the request is authorized. *)
Definition push_route (rng : bytes) (gateway : Gateway) (credentials : Credentials Cid) request_body
    : outcome (N * option (PushResponse Cid)) * Gateway :=
  if negb (bool_decide (push_sphere request_body = scope_counterpart (gateway_scope gateway))) then (Ok (FORBIDDEN, None), gateway)
  else
    let '(r, gateway) := gateway_authorize (Url := Url) supported_keys fuel clock gateway credentials Push in
    match r with
    | Ok c =>
        let '(r, c) := push_invoke rng (gateway_scope gateway) c request_body in
        let after jobs := mkGateway c (gateway_scope gateway) (gateway_jobs gateway ++ jobs) in
        match r with
        | Done (response, jobs) => (Ok (OK, Some response), after jobs)
        | Failed error => (Ok (push_error_status error, None), after [])
        | Panicked w => (Panic w, after [])
        | Diverged => (Diverge, after [])
        end
    | Err status => (Ok (refusal status, None), gateway)
    | Panic w => (Panic w, gateway)
    | Diverge => (Diverge, gateway)
    end.
End push.
End V0alpha1.
