(* ===== verification/RouteProofs.v ===== *)
(** * Facts about the routes of a gateway

    When a version may be the base of a replication, what such a replication brings,
    how the two push routes relate, and how a client recognizes its gateway. *)
From stdpp Require Import base gmap list numbers strings pretty.
From Stdlib Require Import Ascii String.
From S2P Require Import Prelude BlockStore HamtNode HamtRep Hamt HamtSpec BTree SphereDb BodyChunk.
From S2P Require Import VersionedMap UcanCapability Ucan UcanChain UcanProofs.
From S2P Require Import Authority AuthorityProofs Memo Sphere SphereProofs SphereHistory SphereRebase SphereGenesis.
From S2P Require Import SphereTheorems Bundle BundleProofs Stream StreamProofs SphereContext SphereContextProofs SphereEdits SphereWalker SphereWalkerProofs.
From S2P Require Import ContextAuthority StoreTransfer Api ClientProofs Gateway GatewayProofs Sync SyncProofs Routes.
#[local] Open Scope list_scope.
#[local] Notation length := List.length (only parsing).

(** ** Proofs in the headers of a memo *)
Section proof_headers.
Context {Key Url Cid S : Type} `{UnicodeLaws}.
Context `{KeyMaterial Key} `{Bs58} `{Base64Laws} `{DagJsonLaws UcanHeader} `{DagJsonLaws UcanPayload} `{UrlOps Url}.
Context `{Countable Cid} `{HashAlgorithmLaws string} `{HashAlgorithmLaws Cid} `{KeyOrderLaws Cid}.
Context `{CidLaws Cid} `{!BlockStore S Cid} `{!BlockStoreLaws S Cid} `{!SphereCodecs Cid} `{!SphereCodecsLaws Cid}.
Notation version := (SphereRebase.version (Cid := Cid)).
#[local] Existing Instance block_ucan_store.
Implicit Types (s : S) (x y : version) (memo : MemoIpld Cid).

(** What a memo that is signed without a proof has in its headers. *)
Lemma unproven_memo memo (key : Key) memo' : memo_sign memo key None = (Ok tt, memo') -> get_proof memo' = Ok None.
Proof.
  unfold memo_sign. destruct (key_sign key (cid_to_bytes (body memo))) as [sig| | |] eqn:Es; cbn [try_with]; intros E; try discriminate E.
  destruct (get_did key) as [did| | |] eqn:Ed; cbn [try_with] in E; try discriminate E.
  destruct (memo_sign_spec memo key None sig did [] Es Ed eq_refl) as (memo2 & E2 & _ & _ & Hh).
  unfold memo_sign in E2. rewrite Es in E2. cbn [try_with] in E2. rewrite Ed in E2. cbn [try_with] in E2.
  assert (memo2 = memo') as -> by congruence. unfold get_proof. rewrite get_first_header_values. fold PROOF. rewrite Hh.
  unfold signed_values. destruct signature_headers_ne as (_ & _ & ->). by rewrite same_name_refl.
Qed.

Context (P : string -> Prop) (Q : Cid -> Prop) (HP : collision_free P) (HQ : collision_free Q).

(** A version that is committed with an authorization has a proof for the sphere. *)
Lemma delegated_commit s x m clock (credential : Key) auth did :
  holds s x -> is_sphere_memo (ver_memo x) -> value_in P Q (ver_value x) -> mutation_in P Q m -> mutation_by m did ->
  (lamport_order (ver_memo x) + 1 < 2 ^ 32)%N -> can_sign (Url := Url) s clock credential (Some auth) did ->
  exists y s' u, store_le s s' /\ succeeds (eq did) s' x m y /\ require_proof (ver_memo y) = Ok u /\ audience u = identity (ver_ipld x).
Proof.
  intros Hx Hsp Hv Hm Hby Hlam Hsign.
  destruct (commit_spec (Url := Url) P Q HP HQ s x m [] clock credential (Some auth) did Hx Hv Hm Hby Hlam Hsign)
    as (rev & s1 & y & rev' & s' & E1 & E2 & Hle & Hy).
  destruct (apply_mutation_spec s (ver_cid x) (ver_memo x) (ver_ipld x) (ver_value x) m Hx) as (rev0 & s0 & E0 & Hle0 & Hrev);
    [lia|by apply (in_collision_free P Q HP HQ)|]. assert (rev0 = rev /\ s0 = s1) as [-> ->] by (split; congruence).
  destruct (revision_sign_memo (Url := Url) s1 rev [] clock credential (Some auth) did (can_sign_mono _ _ _ _ _ _ Hle0 Hsign))
    as (c' & memo' & s2 & sig & jwts & Es & _ & Hst & _ & _ & _ & Hh & w & u & jwt & _ & Ej & -> & Eu).
  assert (c' = ver_cid y) as -> by congruence. assert (s2 = s') as -> by congruence.
  assert (ver_memo y = memo') as Em by exact (stored_fun _ _ _ _ _ (proj1 (proj1 Hy)) Hst).
  destruct Hrev as (Hsi & _). destruct (revision_proof_inv _ _ _ _ _ _ Eu) as [Hwf Haud].
  exists y, s', u. split; [done|]. split; [done|]. split; [|congruence].
  unfold require_proof, get_proof. rewrite Em, get_first_header_values. fold PROOF. rewrite Hh. unfold signed_values.
  destruct signature_headers_ne as (_ & _ & ->). rewrite same_name_refl. cbn [head]. by rewrite (ucan_encode_decode u jwt Hwf Ej).
Qed.
End proof_headers.

(** ** A client and its gateway *)
Section sessions.
Context {Key Url Cid B KV : Type} `{UnicodeLaws}.
Context `{KeyMaterial Key} `{Bs58} `{Base64Laws} `{!Base64Ascii} `{DagJsonLaws UcanHeader} `{DagJsonLaws UcanPayload} `{UrlLaws Url}.
Context `{Countable Cid} `{HashAlgorithmLaws string} `{HashAlgorithmLaws Cid} `{KeyOrderLaws Cid}.
Context `{CidLaws Cid} `{!CidDefault Cid} `{!BlockStore B Cid} `{!BlockStoreLaws B Cid} `{StoreLaws KV}.
Context `{!SphereCodecs Cid} `{!SphereCodecsLaws Cid} `{!EntryCodecs Cid} `{!EntryCodecsLaws Cid}.
Context `{!ContextCodecs Cid} `{!ContextCodecsLaws Cid}.
Context (supported_keys : list (bytes * (bytes -> outcome Key))).
Context (fuel walk_fuel history_fuel : nat) (clock : N).
Notation SphereDb := (SphereDb B KV).
Notation version := (SphereRebase.version (Cid := Cid)).
Notation context := (SphereContext (Key := Key) (Cid := Cid) (B := B) (KV := KV)).
Notation SphereMutation := (SphereMutation Cid).
Notation gateway := (Gateway (Cid := Cid) (C := context)).
Notation requester := (requester (Url := Url) supported_keys fuel walk_fuel clock).
#[local] Existing Instance block_ucan_store.
Implicit Types (db : SphereDb) (ctx : context) (x y : version) (l : list (SphereMutation * version)) (gw : gateway).
#[local] Instance plain_session_context : HasMutableSphereContext (Key := Key) (Cid := Cid) (B := B) (KV := KV) context :=
  context_has_mutable_context (Url := Url) clock.
Context (with_ipfs : SphereDb -> SphereDb).
Context (ipfs_grows : forall db, grown (Cid := Cid) db (with_ipfs db)).
Notation replication_stream := (replication_stream walk_fuel history_fuel).
Notation at_db := (at_db (Key := Key) (B := B) (KV := KV)).

(** The network is the gateway itself. *)
#[export] Instance gateway_session_server : SessionServer gateway Cid := {|
  serve_did := did_route;
  serve_identify := identify_route (Url := Url) supported_keys fuel clock;
  serve_replicate := replicate_route (Url := Url) supported_keys fuel walk_fuel history_fuel clock with_ipfs;
|}.

(** *** Requests to replicate *)

(** The response to an authorized request for a version. *)
Definition replication_response gw db (r : outcome (N + car_stream Cid)) : outcome (N * car_stream Cid) * gateway :=
  match r with
  | Ok (inr car) => (Ok (OK, car), at_db gw db)
  | Ok (inl status) => (Ok (status, Err "No CAR stream"), at_db gw db)
  | Err e => (Err e, at_db gw db)
  | Panic w => (Panic w, at_db gw db)
  | Diverge => (Diverge, at_db gw db)
  end.

Lemma replicate_route_spec rng gw (s : SphereDb) author did cid c records name (v : Cid) params : json_total ->
  requester s author (scope_counterpart (gateway_scope gw)) did cid c records -> starts_with_did (cid_to_string v) = false ->
  exists credentials db, make_bearer_token (Url := Url) walk_fuel clock rng name author
      (generate_capability (scope_counterpart (gateway_scope gw)) Fetch) s = Ok credentials /\
    grown (Cid := Cid) (ctx_db (gateway_context gw)) db /\
    serve_replicate gw credentials (cid_to_string v) params = replication_response gw db (replication_stream db v params).
Proof.
  intros Hj Hq Hv. destruct (gateway_authorized (Url := Url) supported_keys fuel walk_fuel clock rng gw s author did cid c records name Fetch Hj Hq)
    as (credentials & db & Em & Ea & Hgr). exists credentials, (with_ipfs db). split; [done|]. split.
  { destruct Hgr as [H1' H2'], (ipfs_grows db) as [H3' H4']. by split; etransitivity. }
  cbn [serve_replicate gateway_session_server]. unfold replicate_route, plain_session_context. unfold plain_context in Ea. rewrite Ea.
  unfold requested_version. rewrite Hv, cid_of_to_string. cbn [or_status]. done.
Qed.

(** A base that is older but not allowed. *)
Lemma replication_refused db since v (since_memo latest_memo : MemoIpld Cid) : stored db since since_memo -> stored db v latest_memo ->
  (lamport_order since_memo < lamport_order latest_memo)%N -> is_allowed_to_replicate_incrementally since_memo latest_memo = Ok false ->
  replication_stream db v (mkReplicate (Some since) false) = Ok (inl BAD_REQUEST).
Proof.
  intros Hs Hl Ho Ha. unfold Routes.replication_stream. cbn [replicate_content replicate_since].
  rewrite (stored_load _ _ _ Hs), (stored_load _ _ _ Hl), (proj2 (N.ltb_lt _ _) Ho), Ha. done.
Qed.

Lemma refers_to_sphere_spec (memo : MemoIpld Cid) : is_sphere_memo memo -> refers_to_sphere memo = true.
Proof. intros Hs. unfold refers_to_sphere. by rewrite (sphere_content_type memo Hs). Qed.

(** Versions of the same sphere, the base before the other, with proofs. *)
Lemma replication_allowed (since_memo latest_memo : MemoIpld Cid) u u' : is_sphere_memo since_memo -> is_sphere_memo latest_memo ->
  (lamport_order since_memo < lamport_order latest_memo)%N -> require_proof since_memo = Ok u -> require_proof latest_memo = Ok u' ->
  audience u = audience u' -> is_allowed_to_replicate_incrementally since_memo latest_memo = Ok true.
Proof.
  intros Hs Hl Ho Hu Hu' Ha. unfold is_allowed_to_replicate_incrementally. rewrite !refers_to_sphere_spec by done. cbn [negb orb].
  rewrite (proj2 (N.leb_gt _ _) Ho), Hu, Hu'. by rewrite bool_decide_true.
Qed.

Lemma replication_needs_proof (since_memo latest_memo : MemoIpld Cid) : get_proof since_memo = Ok None ->
  is_allowed_to_replicate_incrementally since_memo latest_memo = Ok false.
Proof.
  intros Hp. unfold is_allowed_to_replicate_incrementally. destruct (negb _ || negb _); [done|]. destruct (_ <=? _)%N; [done|].
  unfold require_proof. rewrite Hp. done.
Qed.

(** *** Identification *)

(** The gateway keeps its sphere with a token [c] of that sphere, which checks out
    against the store [s] of a client. *)
Record custodian (s : SphereDb) ctx (gdid : string) (auth : Authorization Cid) c : Prop := {
  custodian_authorization : author_authorization (ctx_author ctx) = Some auth;
  custodian_ucan : forall db, store_le (ctx_db ctx) db -> as_ucan db auth = Ok (UcanChain.chain_ucan c);
  custodian_token : exists jwt, ucan_encode (UcanChain.chain_ucan c) = Ok jwt /\ ucan_from_str jwt = Ok (UcanChain.chain_ucan c);
  custodian_did : get_did (author_key (ctx_author ctx)) = Ok gdid;
  custodian_key : key_resolves (key_constructors (did_parser_new supported_keys)) (author_key (ctx_author ctx));
  custodian_signs : forall b, exists sig, key_sign (author_key (ctx_author ctx)) b = Ok sig;
  custodian_audience : audience (UcanChain.chain_ucan c) = gdid;
  custodian_chain : exists ability, sphere_chain (Url := Url) (ctx_identity ctx) ability c /\ sphere_ability_rank Push <= sphere_ability_rank ability;
  custodian_valid : chain_valid (Url := Url) (Cid := Cid) clock None s (key_constructors (did_parser_new supported_keys)) (UcanChain.chain_ucan c) c;
  custodian_depth : chain_depth c <= fuel;
  custodian_path : opaque_path (ctx_identity ctx) = true /\ ctx_identity ctx <> "*";
}.

(** What the gateway signs, the client accepts. *)
Lemma identify_verified (s : SphereDb) ctx gdid auth c : custodian s ctx gdid auth c ->
  exists response, identify_sign (ctx_identity ctx) (author_key (ctx_author ctx)) (UcanChain.chain_ucan c) = Ok response /\
    gateway_identity response = gdid /\ Authority.sphere_identity response = ctx_identity ctx /\
    identify_verify (Url := Url) fuel clock s response (did_parser_new supported_keys) = Ok tt.
Proof.
  intros [_ _ (jwt & Ej & Ed) Hdid (did & key & Hdid' & Hr & Hver) Hs Haud (ability & Hch & Hrank) Hv Hdepth [Hop Hstar]].
  assert (did = gdid) as -> by congruence. destruct (Hs (as_bytes gdid ++ as_bytes (ctx_identity ctx))) as [sig Esig].
  unfold identify_sign. rewrite Hdid. cbn [outcome_bind]. rewrite Esig. cbn [outcome_bind]. rewrite Ej. cbn [outcome_bind].
  eexists. split; [done|]. split; [done|]. split; [done|]. unfold identify_verify. cbn [gateway_identity Authority.sphere_identity id_signature id_proof].
  destruct (did_parse_spec (did_parser_new supported_keys) gdid (did_parser_new_ok _)) as (p & -> & Hp). rewrite Hr. cbn [outcome_bind].
  unfold base64_decode. rewrite b64_roundtrip. cbn [ok_or outcome_bind]. rewrite (Hver _ _ Esig). cbn [outcome_bind].
  unfold try_from_token_string. rewrite Ed. cbn [try_with].
  destruct (from_ucan_complete clock None s _ fuel (UcanChain.chain_ucan c) p c Hp Hv Hdepth) as (p' & -> & _). cbn [fst outcome_bind].
  rewrite bool_decide_true by done. cbn [negb].
  destruct (sphere_chain_reduces (ctx_identity ctx) ability c Hch Hop Hstar) as (i & -> & Ho & Hi). cbn [outcome_bind].
  assert (grants (Url := Url) (ctx_identity ctx) Push [i] = true) as ->; [|done]. apply grants_spec. exists i. split; [constructor|].
  rewrite Ho, Hi. split; [by apply elem_of_singleton|]. by apply generate_enables.
Qed.

Lemma lineage_tip_order A db x l : lineage A db x l -> l <> [] -> (lamport_order (ver_memo x) < lamport_order (ver_memo (tip x l)))%N.
Proof.
  intros Hl Hne. pose proof (lineage_orders A db x l Hl) as Ho. rewrite Forall_forall in Ho.
  destruct l as [|[m y] l _] using rev_ind; [done|]. rewrite tip_app. apply (Ho (m, y)). apply elem_of_app. right. left.
Qed.
End sessions.

(** ** The two push routes *)
Section pushes.
Context {Key Url Cid B KV : Type} `{Unicode}.
Context `{KeyMaterial Key} `{Bs58} `{Base64} `{DagJson UcanHeader} `{DagJson UcanPayload} `{UrlOps Url}.
Context `{Countable Cid} `{HashAlgorithm string} `{HashAlgorithm Cid} `{KeyOrder Cid}.
Context `{CidLaws Cid} `{!CidDefault Cid} `{!BlockStore B Cid} `{Store KV} `{!SphereCodecs Cid} `{!EntryCodecs Cid} `{!ContextCodecs Cid}.
Context `{!ApiCodecs Cid}.
Context (supported_keys : list (bytes * (bytes -> outcome Key))).
Context (fuel walk_fuel history_fuel : nat) (clock : N).
Notation SphereDb := (SphereDb B KV).
Notation context := (SphereContext (Key := Key) (Cid := Cid) (B := B) (KV := KV)).
#[local] Existing Instance block_ucan_store.
#[local] Instance plain_push_context : HasMutableSphereContext (Key := Key) (Cid := Cid) (B := B) (KV := KV) context :=
  context_has_mutable_context (Url := Url) clock.
Implicit Types (ctx : context) (body : V0alpha1.PushBody Cid) (blocks : list (Cid * bytes)).

#[local] Existing Instance V0alpha1.push_error_from_anyhow.

(** The error of one API as an error of the other. *)
Definition error_of_v1 (error : V0alpha1.PushError) : PushError :=
  match error with
  | V0alpha1.Conflict => Conflict
  | V0alpha1.MissingHistory => MissingHistory
  | V0alpha1.UpToDate => UpToDate
  | V0alpha1.Internal e => Internal (Some e)
  end.

(** The body without the blocks, which follow it in a stream. *)
Definition body_of_v1 body : PushBody Cid :=
  mkPush (V0alpha1.push_sphere body) (V0alpha1.local_base body) (V0alpha1.local_tip body) (V0alpha1.counterpart_tip body)
    (V0alpha1.name_record body).

Definition as_bundle blocks : Bundle := (fun cb => (cid_to_string cb.1, cb.2)) <$> blocks.

Lemma lift_error {A} (m : outcome A) : map_err error_of_v1 (lift m) = lift m.
Proof. by destruct m. Qed.

Lemma error_of_v1_inj e e' : error_of_v1 e = error_of_v1 e' -> e = e'.
Proof. by destruct e, e'; intros [=]; subst. Qed.

Lemma load_as_stream blocks : forall db : SphereDb, load_into (Cid := Cid) (as_bundle blocks) db = put_block_stream db (blocks, Ok tt).
Proof.
  unfold load_into, put_block_stream. induction blocks as [|[c b] blocks IH]; intros db; [done|]. cbn [as_bundle fmap list_fmap for_each_st fst snd].
  rewrite cid_of_to_string. cbn [try_with]. destruct (put_block_and_links c b db) as [[[]| | |] db1]; cbn [try_with]; [apply IH|done..].
Qed.

Lemma verify_agrees ctx body : check_history ctx (body_of_v1 body) = map_err error_of_v1 (V0alpha1.verify_history ctx body).
Proof.
  unfold check_history, V0alpha1.verify_history, body_of_v1. cbn [counterpart_tip push_sphere local_base local_tip].
  destruct (context_version (sphere_context ctx)); cbn [lift attempt_bind map_err]; try done. case_bool_decide; cbn [negb]; [|done].
  destruct (get_version (context_db ctx) (V0alpha1.push_sphere body)) as [[mine|]| | |]; cbn [lift attempt_bind map_err]; try done;
    destruct (V0alpha1.local_base body); cbn [map_err]; try done. case_bool_decide; cbn [negb]; [|done]. by case_bool_decide.
Qed.

(** The steps that both routes take, up to the labels of their errors. *)
Definition relabelled {A} (r1 : attempt V0alpha1.PushError A * context) (r2 : attempt PushError A * context) : Prop :=
  r2 = (map_err error_of_v1 r1.1, r1.2).

Lemma relabelled_done {A} (a : A) ctx : relabelled (Done a, ctx) (Done a, ctx).
Proof. done. Qed.

Lemma relabelled_lift {A C} (m : outcome A) ctx (k1 : A -> attempt V0alpha1.PushError C * context) k2 :
  (forall a, m = Ok a -> relabelled (k1 a) (k2 a)) -> relabelled (attempt_with (lift m) ctx k1) (attempt_with (lift m) ctx k2).
Proof. intros Hk. destruct m; [by apply Hk|done..]. Qed.

Lemma incorporate_agrees scope ctx body blocks : V0alpha1.blocks body = as_bundle blocks ->
  relabelled (V0alpha1.incorporate_history (Url := Url) supported_keys fuel walk_fuel history_fuel clock scope ctx body)
    (incorporate_history (Url := Url) supported_keys fuel walk_fuel history_fuel clock scope ctx (body_of_v1 body) (blocks, Ok tt)).
Proof.
  intros Hb. unfold V0alpha1.incorporate_history, incorporate_history. rewrite Hb, load_as_stream. cbn [local_tip local_base body_of_v1].
  destruct (put_block_stream _ _) as [r db]. apply relabelled_lift. intros [] _.
  destruct (into_history_stream _ _ _ _) as [history ending]. apply relabelled_lift. intros [] _.
  destruct (hydrate_all _ _) as [r1 db1]. apply relabelled_lift. intros [] _.
  destruct (set_version _ _ _) as [r2 db2]. apply relabelled_lift. intros [] _.
  destruct (link_raw _ _ _ _ _ _ _) as [r3 ctx3]. apply relabelled_lift. intros []. done.
Qed.

(** The sets of names that one walk keeps in a record and the other in a pair. *)
Definition unpacked (st : seen_names * context) : gset string * gset string * context := (updated_names st.1, removed_names st.1, st.2).

Notation Identities := (VersionedMap string (IdentityIpld Cid) Cid SphereDb).

Lemma operation_agrees (names : Identities) op st : let '(r, st') := synchronize_name names op st in
  V0alpha1.synchronize_operation names op (unpacked st) = (r, unpacked st').
Proof.
  destruct st as [[updated removed] ctx]. cbn [synchronize_name V0alpha1.synchronize_operation unpacked fst snd Gateway.updated_names Gateway.removed_names].
  destruct op as [key value|key]; [|by case_bool_decide]. destruct (_ || _); [done|]. destruct (vm_get names key).1; cbn [try_with]; [|done..]. by case_bool_decide.
Qed.

Lemma operations_agree (names : Identities) ops : forall st, let '(r, st') := for_each_st (synchronize_name names) ops st in
  for_each_st (V0alpha1.synchronize_operation names) ops (unpacked st) = (r, unpacked st').
Proof.
  induction ops as [|op ops IH]; intros st; [done|]. cbn [for_each_st]. pose proof (operation_agrees names op st) as Ho.
  destruct (synchronize_name names op st) as [r st1]. rewrite Ho. destruct r as [[]| | |]; cbn [try_with]; [apply IH|done..].
Qed.

Lemma walks_agree (names : Identities) (db : SphereDb) history : forall st, let '(r, st') := for_each_st (synchronize_version names db) history st in
  V0alpha1.synchronize_history names db history (unpacked st) = (r, unpacked st').
Proof.
  induction history as [|version history IH]; intros st; [done|]. cbn [for_each_st V0alpha1.synchronize_history]. unfold synchronize_version at 1.
  destruct (to_body db version) as [sphere| | |]; cbn [outcome_bind try_with]; [|done..].
  destruct (get_identities db (address_book sphere)) as [identities| | |]; cbn [outcome_bind try_with]; [|done..].
  destruct (vm_load_changelog identities).1 as [changed| | |]; cbn [try_with]; [|done..].
  pose proof (operations_agree names (log_changes changed) st) as Ho. destruct (for_each_st (synchronize_name names) _ st) as [r st1]. rewrite Ho.
  destruct r as [[]| | |]; cbn [try_with]; [apply IH|done..].
Qed.

Lemma synchronize_agrees ctx body :
  relabelled (V0alpha1.synchronize_names history_fuel ctx body) (synchronize_names history_fuel ctx (body_of_v1 body)).
Proof.
  unfold V0alpha1.synchronize_names, synchronize_names. cbn [local_tip local_base body_of_v1].
  destruct (SphereContext.version ctx) as [mine| | |]; cbn [outcome_bind lift attempt_with]; [|done..]. apply relabelled_lift. intros names _.
  destruct (into_history_stream _ _ _ _) as [history ending]. pose proof (walks_agree names (context_db ctx) history.*1 (mkSeen ∅ ∅, ctx)) as Hw.
  change (unpacked (mkSeen ∅ ∅, ctx)) with (∅ : gset string, ∅ : gset string, ctx) in Hw.
  destruct (for_each_st _ _ _) as [r [seen ctx']]. rewrite Hw. cbn [unpacked snd]. apply relabelled_lift. intros [] _. by destruct ending.
Qed.

(** Mirroring names changes nothing but the pending changes. *)
Definition same_place ctx ctx' : Prop := ctx_db ctx' = ctx_db ctx /\ ctx_identity ctx' = ctx_identity ctx.

Lemma synchronize_name_place names op seen ctx : same_place ctx (synchronize_name names op (seen, ctx)).2.2.
Proof.
  destruct seen as [updated removed]. unfold synchronize_name. destruct op as [key value|key].
  - destruct (_ || _); [done|]. destruct (vm_get names key).1; cbn [try_with]; try done. by destruct (negb _).
  - by case_bool_decide.
Qed.

Lemma for_each_place {A} (f : A -> seen_names * context -> outcome unit * (seen_names * context)) l :
  (forall a seen ctx, same_place ctx (f a (seen, ctx)).2.2) -> forall seen ctx, same_place ctx (for_each_st f l (seen, ctx)).2.2.
Proof.
  intros Hf. induction l as [|a l IH]; intros seen ctx; [done|]. cbn [for_each_st]. pose proof (Hf a seen ctx) as Ha.
  destruct (f a (seen, ctx)) as [r [seen' ctx']]. destruct r as [[]| | |]; cbn [try_with]; [|exact Ha..].
  destruct (IH seen' ctx') as [E1 E2], Ha as [E3 E4]. split; cbn [snd] in *; congruence.
Qed.

Lemma synchronize_place ctx push_body ctx' : synchronize_names history_fuel ctx push_body = (Done tt, ctx') ->
  exists v, context_version ctx = Ok v /\ context_version ctx' = Ok v.
Proof.
  unfold synchronize_names. change (SphereContext.version ctx) with (context_version ctx). intros E.
  destruct (context_version ctx) as [v| | |] eqn:Ev; cbn [outcome_bind lift attempt_with] in E; try discriminate E. exists v. split; [done|].
  destruct (let? sphere := _ in _) as [names| | |]; cbn [lift attempt_with] in E; try discriminate E.
  destruct (into_history_stream _ _ _ _) as [history ending].
  pose proof (for_each_place (synchronize_version names (context_db ctx)) history.*1) as Hp. specialize (Hp ltac:(
    intros a seen c; unfold synchronize_version; destruct (let? sphere := _ in _); cbn [try_with]; try done;
    apply for_each_place; intros; apply synchronize_name_place) (mkSeen ∅ ∅) ctx).
  destruct (for_each_st _ _ _) as [r [seen ctx1]]. cbn [snd] in Hp. destruct r; cbn [lift attempt_with] in E; try discriminate E.
  assert (ctx1 = ctx') as -> by (destruct ending; congruence). destruct Hp as [E1 E2]. unfold context_version in *. by rewrite E1, E2.
Qed.
End pushes.
