(* ===== verification/Builder.v ===== *)
(** * Opening spheres

    Model of [noosphere/src/sphere/builder]: the workflows that end in a context for
    a sphere, which is created (create.rs), joined (join.rs), opened (open.rs) or
    recovered from a gateway (recover.rs), and the builder that selects and
    configures them (mod.rs).

    The databases of a platform are a map from the paths where they are stored; what
    opening the database at a path gives belongs to the platform ([open_storage]).
    The clones of a database share one storage: what a workflow does to the database
    is found at its path from then on, whether it succeeds or not.

    [rng] is the nonce of a token, [sphere_key] the key that [Sphere::generate] makes,
    [one_time_key] the key that a recovery makes and [backup_id] the name that it gives
    to the old database.

    Model of [noosphere/src/noosphere.rs]: a [NoosphereContext] keeps the configuration
    of an application and a channel to every sphere that it has open; creating,
    joining, recovering and reaching a sphere go through the builder.  A channel
    (sphere/channel.rs) has a side for reading and one for writing.

    The world is what outlives the application: its files, the databases of its
    spheres and the network. *)
From stdpp Require Import base gmap list numbers strings pretty.
From Stdlib Require Import Ascii String.
From S2P Require Import Prelude BlockStore HamtNode HamtRep Hamt BTree SphereDb BodyChunk VersionedMap UcanCapability Ucan UcanChain.
From S2P Require Import Authority Memo Sphere SphereHistory Bundle SphereContext Api Gateway Routes KeyStorage.
#[local] Open Scope list_scope.
#[local] Notation length := List.length (only parsing).

(** Metadata keys (metadata.rs). *)
Definition IDENTITY : string := "identity".
Definition USER_KEY_NAME : string := "user_key_name".
Definition AUTHORIZATION : string := "authorization".

Inductive SphereInitialization : Type :=
  | InitCreate
  | InitJoin (sphere_identity : string)
  | InitRecover (sphere_identity : string)
  | InitOpen (sphere_identity : option string).

(** [TryFrom<(PathBuf, bool, Option<Did>)> for StorageLayout]. *)
Definition layout_try_from (storage_path : PathBuf) (scoped_storage_layout : bool) (sphere_identity : option string)
    : outcome StorageLayout :=
  if scoped_storage_layout then
    let? identity := ok_or "A sphere identity must be provided!" sphere_identity in Ok (ScopedLayout storage_path identity)
  else Ok (UnscopedLayout storage_path).

(** The storage of a platform, with its configuration: what opening what is at a path
    gives, with a URL to read missing blocks from. *)
Class Platform (Db Config : Type) := {
  open_storage : PathBuf -> Config -> option string -> option Db -> outcome Db;
  default_config : Config;
}.

Definition unwrap {A} (r : outcome A) : outcome A := expect "called `Result::unwrap()` on an `Err` value" r.

Section builder.
Context {Key Url Cid B KV Net K Config : Type} `{Unicode}.
Context `{KeyMaterial Key} `{Bs58} `{Base64} `{DagJson UcanHeader} `{DagJson UcanPayload} `{UrlOps Url}.
Context `{Countable Cid} `{HashAlgorithm string} `{HashAlgorithm Cid} `{KeyOrder Cid}.
Context `{CidOps Cid} `{!BlockStore B Cid} `{Store KV} `{!SphereCodecs Cid} `{!EntryCodecs Cid} `{!ContextCodecs Cid}.
Context `{FastCdc} `{!GatewayApi Net Key Cid} `{!SessionServer Net Cid} `{Bip39} `{!Ed25519 Key} `{!KeyStorage K Key}.
Context `{!Platform (SphereDb B KV) Config}.
Context (fuel walk_fuel body_fuel : nat) (clock : N).
Notation SphereDb := (SphereDb B KV).
Notation context := (SphereContext (Key := Key) (Cid := Cid) (B := B) (KV := KV)).
Notation Disk := (gmap PathBuf SphereDb).
#[local] Existing Instance block_ucan_store.
Implicit Types (db : SphereDb) (disk : Disk) (net : Net).

Inductive SphereContextBuilderArtifacts : Type :=
  | SphereCreated (context : context) (mnemonic : string)
  | SphereOpened (context : context).

Definition artifacts_require_mnemonic (self : SphereContextBuilderArtifacts) : outcome string :=
  match self with
  | SphereCreated _ mnemonic => Ok mnemonic
  | SphereOpened _ => Err "The sphere builder artifacts do not include a mnemonic!"
  end.

Definition context_of_artifacts (artifacts : SphereContextBuilderArtifacts) : context :=
  match artifacts with
  | SphereCreated context _ => context
  | SphereOpened context => context
  end.

Record SphereContextBuilder := mkSphereBuilder {
  b_initialization : SphereInitialization;
  b_scoped_storage_layout : bool;
  b_gateway_api : option string;
  b_ipfs_gateway_url : option string;
  b_storage_path : option PathBuf;
  b_authorization : option (Authorization Cid);
  b_key_storage : option K;
  b_key_name : option string;
  b_mnemonic : option string;
  b_storage_config : option Config;
}.
Implicit Types (builder self : SphereContextBuilder).

Definition sphere_builder_default : SphereContextBuilder := mkSphereBuilder InitCreate false None None None None None None None None.

(** *** Configuration *)
Definition with_initialization self init : SphereContextBuilder :=
  mkSphereBuilder init (b_scoped_storage_layout self) (b_gateway_api self) (b_ipfs_gateway_url self) (b_storage_path self)
    (b_authorization self) (b_key_storage self) (b_key_name self) (b_mnemonic self) (b_storage_config self).
Definition join_sphere self (sphere_identity : string) : SphereContextBuilder := with_initialization self (InitJoin sphere_identity).
Definition create_sphere self : SphereContextBuilder := with_initialization self InitCreate.
Definition recover_sphere self (sphere_id : string) : SphereContextBuilder := with_initialization self (InitRecover sphere_id).
Definition open_sphere self (sphere_identity : option string) : SphereContextBuilder := with_initialization self (InitOpen sphere_identity).

Definition syncing_to self (gateway_url : option string) : SphereContextBuilder :=
  mkSphereBuilder (b_initialization self) (b_scoped_storage_layout self) gateway_url (b_ipfs_gateway_url self) (b_storage_path self)
    (b_authorization self) (b_key_storage self) (b_key_name self) (b_mnemonic self) (b_storage_config self).
Definition reading_ipfs_from self (ipfs_gateway_url : option string) : SphereContextBuilder :=
  mkSphereBuilder (b_initialization self) (b_scoped_storage_layout self) (b_gateway_api self) ipfs_gateway_url (b_storage_path self)
    (b_authorization self) (b_key_storage self) (b_key_name self) (b_mnemonic self) (b_storage_config self).
Definition using_scoped_storage_layout self : SphereContextBuilder :=
  mkSphereBuilder (b_initialization self) true (b_gateway_api self) (b_ipfs_gateway_url self) (b_storage_path self)
    (b_authorization self) (b_key_storage self) (b_key_name self) (b_mnemonic self) (b_storage_config self).
Definition at_storage_path self (path : PathBuf) : SphereContextBuilder :=
  mkSphereBuilder (b_initialization self) (b_scoped_storage_layout self) (b_gateway_api self) (b_ipfs_gateway_url self) (Some path)
    (b_authorization self) (b_key_storage self) (b_key_name self) (b_mnemonic self) (b_storage_config self).
Definition authorized_by self (authorization : option (Authorization Cid)) : SphereContextBuilder :=
  mkSphereBuilder (b_initialization self) (b_scoped_storage_layout self) (b_gateway_api self) (b_ipfs_gateway_url self) (b_storage_path self)
    authorization (b_key_storage self) (b_key_name self) (b_mnemonic self) (b_storage_config self).
Definition using_mnemonic self (mnemonic : option string) : SphereContextBuilder :=
  mkSphereBuilder (b_initialization self) (b_scoped_storage_layout self) (b_gateway_api self) (b_ipfs_gateway_url self) (b_storage_path self)
    (b_authorization self) (b_key_storage self) (b_key_name self) mnemonic (b_storage_config self).
Definition reading_keys_from self (key_storage : K) : SphereContextBuilder :=
  mkSphereBuilder (b_initialization self) (b_scoped_storage_layout self) (b_gateway_api self) (b_ipfs_gateway_url self) (b_storage_path self)
    (b_authorization self) (Some key_storage) (b_key_name self) (b_mnemonic self) (b_storage_config self).
Definition using_key self (key_name : string) : SphereContextBuilder :=
  mkSphereBuilder (b_initialization self) (b_scoped_storage_layout self) (b_gateway_api self) (b_ipfs_gateway_url self) (b_storage_path self)
    (b_authorization self) (b_key_storage self) (Some key_name) (b_mnemonic self) (b_storage_config self).
Definition with_storage_config self (storage_config : Config) : SphereContextBuilder :=
  mkSphereBuilder (b_initialization self) (b_scoped_storage_layout self) (b_gateway_api self) (b_ipfs_gateway_url self) (b_storage_path self)
    (b_authorization self) (b_key_storage self) (b_key_name self) (b_mnemonic self) (Some storage_config).

Definition require_storage_path self : outcome PathBuf := ok_or "Storage path required but not configured" (b_storage_path self).
Definition require_gateway_api self : outcome string := ok_or "Gateway API URL required but not configured" (b_gateway_api self).
Definition require_mnemonic self : outcome string := ok_or "Mnemonic required but not configured" (b_mnemonic self).
Definition require_key_storage self : outcome K := ok_or "Key storage required but not configured" (b_key_storage self).
Definition require_key_name self : outcome string := ok_or "Key name required but not configured" (b_key_name self).

(** *** Databases *)
Definition create_platform_storage (layout : StorageLayout) (ipfs_gateway_url : option string) (storage_config : option Config) disk
    : outcome (PathBuf * SphereDb) * Disk :=
  let path := resolve_path (layout_path layout) in
  let? db := open_storage path (default default_config storage_config) ipfs_gateway_url (disk !! path) keeping disk in
  (Ok (path, db), <[path := db]> disk).

(** The database, and where it is. *)
Definition generate_db (storage_path : PathBuf) (scoped_storage_layout : bool) (sphere_identity : option string)
    (ipfs_gateway_url : option string) (storage_config : option Config) disk : outcome (PathBuf * SphereDb) * Disk :=
  let? storage_layout := layout_try_from storage_path scoped_storage_layout sphere_identity keeping disk in
  create_platform_storage storage_layout ipfs_gateway_url storage_config disk.

(** What [f] does to the database at [path]. *)
Definition on_database {A} (path : PathBuf) db (f : SphereDb -> outcome A * SphereDb) disk : outcome A * Disk :=
  let '(r, db) := f db in (r, <[path := db]> disk).

(** The end of most workflows. *)
Definition sync_to_gateway builder (ctx : context) : outcome unit * context :=
  match b_gateway_api builder with
  | Some _ => configure_gateway_url ctx (b_gateway_api builder)
  | None => (Ok tt, ctx)
  end.

(** *** create.rs *)
Definition get_identity {S} `{!BlockStore S Cid} (s : S) (cid : Cid) : outcome string :=
  let? sphere := to_body s cid in Ok (identity sphere).

Definition create_in_db builder (owner_key : Key) (key_name : string) (memory_store : MemoryStore) (sphere : Cid) (authorization : Authorization Cid)
    (mnemonic sphere_did : string) db : outcome SphereContextBuilderArtifacts * SphereDb :=
  let '(r, db) := persist (Cid := Cid) db memory_store in
  let? _ := r keeping db in
  let '(r, db) := set_version db sphere_did sphere in
  let? _ := r keeping db in
  let '(r, db) := db_set_key db IDENTITY sphere_did in
  let? _ := r keeping db in
  let '(r, db) := db_set_key db USER_KEY_NAME key_name in
  let? _ := r keeping db in
  let? cid := authorization_cid authorization keeping db in
  let '(r, db) := db_set_key db AUTHORIZATION cid in
  let? _ := r keeping db in
  let? ctx := context_new sphere_did (mkAuthor owner_key (Some authorization)) db None keeping db in
  let '(r, ctx) := sync_to_gateway builder ctx in
  let? _ := r keeping ctx_db ctx in
  (Ok (SphereCreated ctx mnemonic), ctx_db ctx).

Definition create_a_sphere (rng : bytes) (sphere_key : Key) builder disk : outcome SphereContextBuilderArtifacts * Disk :=
  let? storage_path := require_storage_path builder keeping disk in
  let? key_storage := ok_or "No key storage configured!" (b_key_storage builder) keeping disk in
  let? key_name := ok_or "No key name configured!" (b_key_name builder) keeping disk in
  let? owner_key := storage_require_key key_storage key_name keeping disk in
  let? owner_did := get_did owner_key keeping disk in
  let '(r, memory_store) :=
    generate (Url := Url) rng clock sphere_key (ed25519_key_to_mnemonic sphere_key) owner_did memory_store_empty in
  let? generated := unwrap r keeping disk in
  let '(sphere, authorization, mnemonic) := generated in
  let? sphere_did := unwrap (get_identity memory_store sphere) keeping disk in
  let '(r, disk) :=
    generate_db storage_path (b_scoped_storage_layout builder) (Some sphere_did) (b_ipfs_gateway_url builder) (b_storage_config builder) disk in
  let? (path, db) := r keeping disk in
  on_database path db (create_in_db builder owner_key key_name memory_store sphere authorization mnemonic sphere_did) disk.

(** *** join.rs *)
Definition join_in_db builder (user_key : Key) (key_name sphere_identity : string) db : outcome SphereContextBuilderArtifacts * SphereDb :=
  let '(r, db) := db_set_key db IDENTITY sphere_identity in
  let? _ := r keeping db in
  let '(r, db) := db_set_key db USER_KEY_NAME key_name in
  let? _ := r keeping db in
  let '(r, db) :=
    match b_authorization builder with
    | Some authorization => let? cid := authorization_cid authorization keeping db in db_set_key db AUTHORIZATION cid
    | None => (Ok tt, db)
    end in
  let? _ := r keeping db in
  let? ctx := context_new sphere_identity (mkAuthor user_key (b_authorization builder)) db None keeping db in
  let '(r, ctx) := sync_to_gateway builder ctx in
  let? _ := r keeping ctx_db ctx in
  (Ok (SphereOpened ctx), ctx_db ctx).

Definition join_a_sphere builder (sphere_identity : string) disk : outcome SphereContextBuilderArtifacts * Disk :=
  let? key_storage := ok_or "No key storage configured!" (b_key_storage builder) keeping disk in
  let? key_name := ok_or "No key name configured!" (b_key_name builder) keeping disk in
  let? storage_path := require_storage_path builder keeping disk in
  let? user_key := storage_require_key key_storage key_name keeping disk in
  let '(r, disk) :=
    generate_db storage_path (b_scoped_storage_layout builder) (Some sphere_identity) (b_ipfs_gateway_url builder) (b_storage_config builder) disk in
  let? (path, db) := r keeping disk in
  on_database path db (join_in_db builder user_key key_name sphere_identity) disk.

(** *** open.rs *)
Definition open_in_db builder db : outcome SphereContextBuilderArtifacts * SphereDb :=
  let? user_key_name := db_require_key (V := string) db USER_KEY_NAME keeping db in
  let? found := db_get_key (V := Cid) db AUTHORIZATION keeping db in
  let authorization := AuthCid <$> found in
  match b_key_storage builder with
  | None => (Err "Unable to resolve sphere author", db)
  | Some key_storage =>
      let? key := storage_require_key key_storage user_key_name keeping db in
      let? sphere_identity := db_require_key (V := string) db IDENTITY keeping db in
      let? ctx := context_new sphere_identity (mkAuthor key authorization) db None keeping db in
      let '(r, ctx) := sync_to_gateway builder ctx in
      let? _ := r keeping ctx_db ctx in
      (Ok (SphereOpened ctx), ctx_db ctx)
  end.

Definition open_a_sphere builder (sphere_identity : option string) disk : outcome SphereContextBuilderArtifacts * Disk :=
  let? storage_path := require_storage_path builder keeping disk in
  let '(r, disk) :=
    generate_db storage_path (b_scoped_storage_layout builder) sphere_identity (b_ipfs_gateway_url builder) (b_storage_config builder) disk in
  let? (path, db) := r keeping disk in
  on_database path db (open_in_db builder) disk.

(** *** recover.rs *)

(** The existing database is moved away. *)
Definition backup_database (database_root : PathBuf) (backup_id : string) disk : outcome unit * Disk :=
  match disk !! resolve_path database_root with
  | None => (Ok tt, disk)
  | Some db =>
      let backup_root := resolve_path (with_extension database_root backup_id) in
      match disk !! backup_root with
      | Some _ => (Err "Directory not empty", disk)
      | None => (Ok tt, <[backup_root := db]> (delete (resolve_path database_root) disk))
      end
  end.

(** An authorization to fetch for an hour, from the key of the sphere. *)
Definition one_time_authorization (rng : bytes) (root_key one_time_key : Key) (sphere_identity : string) : outcome (Authorization Cid) :=
  let? one_time_key_identity := get_did one_time_key in
  let builder := issued_by builder_default root_key in
  let builder := for_audience builder one_time_key_identity in
  let builder := claiming_capability builder (capability_of_view (Url := Url) (generate_capability sphere_identity Fetch)) in
  let builder := with_lifetime builder (60 * 60) in
  let? signable := build clock (with_nonce builder) in
  let? ucan := sign rng signable in
  Ok (AuthUcan ucan).

(** The sphere of the gateway, with its content, in which the user's sphere is found
    under its own identity. *)
Definition replicate_gateway_sphere (rng : bytes) (sphere_identity : string) (session : Session) (author : Author Key Cid) net db
    : outcome Cid * (SphereDb * Net) :=
  let gateway_sphere_identity := session_counterpart session in
  let '(r, net) :=
    client_replicate (Url := Url) walk_fuel clock rng session sphere_identity author db (ReplicateDid gateway_sphere_identity)
      (Some (mkReplicate None true)) net in
  let? (gateway_root, stream) := r keeping (db, net) in
  let '(r, db) := put_block_stream db stream in
  let? _ := r keeping (db, net) in
  let '(r, db) := set_version db gateway_sphere_identity gateway_root in
  let? _ := r keeping (db, net) in
  let? ctx := context_new gateway_sphere_identity author db None keeping (db, net) in
  let '(r, cursor) := read body_fuel net (latest ctx) sphere_identity in
  let db := ctx_db (sphere_context cursor) in
  let? file := r keeping (db, net) in
  let? file := ok_or "Gateway pointer to user sphere not found" file keeping (db, net) in
  (Ok (file_memo_version file), (db, net)).

Definition recover_in_db (rng : bytes) builder (key_storage : K) (local_key_name local_key_did user_sphere_identity : string) (one_time_key : Key)
    (authorization : Authorization Cid) net db : outcome SphereContextBuilderArtifacts * (SphereDb * Net) :=
  let '(r, db) := db_set_key db IDENTITY user_sphere_identity in
  let? _ := r keeping (db, net) in
  let? gateway_api := require_gateway_api builder keeping (db, net) in
  let '(r, db) := db_set_key db GATEWAY_URL gateway_api in
  let? _ := r keeping (db, net) in
  let author := mkAuthor one_time_key (Some authorization) in
  let? ctx := context_new user_sphere_identity author db None keeping (db, net) in
  let '(r, ctx) := context_client net ctx in
  let? session := r keeping (ctx_db ctx, net) in
  let '(r, (db, net)) := replicate_gateway_sphere rng user_sphere_identity session author net (ctx_db ctx) in
  let? sphere_version := r keeping (db, net) in
  let '(r, db) := set_version db user_sphere_identity sphere_version in
  let? _ := r keeping (db, net) in
  let? found := get_authorization walk_fuel (with_db ctx db) local_key_did keeping (db, net) in
  let? authorization := ok_or ("No authorization for key '" +:+ local_key_name +:+ "' found!") found keeping (db, net) in
  let '(r, db) := db_set_key db USER_KEY_NAME local_key_name in
  let? _ := r keeping (db, net) in
  let? cid := authorization_cid authorization keeping (db, net) in
  let '(r, db) := db_set_key db AUTHORIZATION cid in
  let? _ := r keeping (db, net) in
  let? local_key := storage_require_key key_storage local_key_name keeping (db, net) in
  let? ctx := context_new user_sphere_identity (mkAuthor local_key (Some authorization)) db None keeping (db, net) in
  (Ok (SphereOpened ctx), (ctx_db ctx, net)).

Definition recover_a_sphere (rng rng' : bytes) (backup_id : string) (one_time_key : Key) builder (user_sphere_identity : string) disk net
    : outcome SphereContextBuilderArtifacts * (Disk * Net) :=
  let? key_storage := require_key_storage builder keeping (disk, net) in
  let? local_key_name := require_key_name builder keeping (disk, net) in
  let? local_key := storage_require_key key_storage local_key_name keeping (disk, net) in
  let? local_key_did := get_did local_key keeping (disk, net) in
  let? storage_path := require_storage_path builder keeping (disk, net) in
  let? storage_layout := layout_try_from storage_path (b_scoped_storage_layout builder) (Some user_sphere_identity) keeping (disk, net) in
  let '(r, disk) := backup_database (layout_path storage_layout) backup_id disk in
  let? _ := r keeping (disk, net) in
  let? mnemonic := require_mnemonic builder keeping (disk, net) in
  let? root_key := restore_ed25519_key mnemonic keeping (disk, net) in
  let? authorization := one_time_authorization rng root_key one_time_key user_sphere_identity keeping (disk, net) in
  let '(r, disk) :=
    generate_db storage_path (b_scoped_storage_layout builder) (Some user_sphere_identity) (b_ipfs_gateway_url builder) (b_storage_config builder) disk in
  let? (path, db) := r keeping (disk, net) in
  let '(r, (db, net)) :=
    recover_in_db rng' builder key_storage local_key_name local_key_did user_sphere_identity one_time_key authorization net db in
  (r, (<[path := db]> disk, net)).

(** *** [SphereContextBuilder::build] *)
Definition sphere_build (rng rng' : bytes) (sphere_key : Key) (backup_id : string) builder disk net
    : outcome SphereContextBuilderArtifacts * (Disk * Net) :=
  match b_initialization builder with
  | InitCreate => let '(r, disk) := create_a_sphere rng sphere_key builder disk in (r, (disk, net))
  | InitJoin sphere_identity => let '(r, disk) := join_a_sphere builder sphere_identity disk in (r, (disk, net))
  | InitRecover sphere_identity => recover_a_sphere rng rng' backup_id sphere_key builder sphere_identity disk net
  | InitOpen sphere_identity => let '(r, disk) := open_a_sphere builder sphere_identity disk in (r, (disk, net))
  end.
End builder.

(** ** The high-level API *)
Inductive NoosphereStoragePath : Type :=
  | ScopedStorage (path : PathBuf)
  | UnscopedStorage (path : PathBuf).

Record NoosphereStorage (Config : Type) := mkStorage { storage_strategy : NoosphereStoragePath; storage_configuration : Config }.
Arguments mkStorage {Config} _ _.
Arguments storage_strategy {Config} _.
Arguments storage_configuration {Config} _.

Inductive NoosphereSecurity : Type :=
  | Insecure (path : PathBuf)
  | Opaque.

Record NoosphereNetwork := Http { network_gateway_api : option string; network_ipfs_gateway_url : option string }.

Record NoosphereContextConfiguration (Config : Type) := mkConfiguration {
  storage : NoosphereStorage Config;
  security : NoosphereSecurity;
  network : NoosphereNetwork;
}.
Arguments mkConfiguration {Config} _ _ _.
Arguments storage {Config} _.
Arguments security {Config} _.
Arguments network {Config} _.

Record SphereReceipt := mkReceipt { receipt_identity : string; receipt_mnemonic : string }.

Section runtime.
Context {Key Url Cid B KV Net Config : Type} `{Unicode}.
Context `{KeyMaterial Key} `{Bs58} `{Base64} `{DagJson UcanHeader} `{DagJson UcanPayload} `{UrlOps Url}.
Context `{Countable Cid} `{HashAlgorithm string} `{HashAlgorithm Cid} `{KeyOrder Cid}.
Context `{CidOps Cid} `{!BlockStore B Cid} `{Store KV} `{!SphereCodecs Cid} `{!EntryCodecs Cid} `{!ContextCodecs Cid}.
Context `{FastCdc} `{!GatewayApi Net Key Cid} `{!SessionServer Net Cid} `{Bip39} `{!Ed25519 Key}.
Context `{!Platform (SphereDb B KV) Config}.
Context (walk_fuel body_fuel : nat) (clock : N).
Notation context := (SphereContext (Key := Key) (Cid := Cid) (B := B) (KV := KV)).
Notation K := (InsecureKeyStorage * FileSystem)%type.
Notation builder := (SphereContextBuilder (Cid := Cid) (K := K) (Config := Config)).
Notation Configuration := (NoosphereContextConfiguration Config).

(** *** Channels *)
Record SphereChannel := mkChannel { channel_immutable : SphereCursor context Cid; channel_mutable : context }.

Definition channel_new (immutable : SphereCursor context Cid) (mutable : context) : SphereChannel := mkChannel immutable mutable.

(** *** The world *)
Record World := mkWorld { w_files : FileSystem; w_databases : gmap PathBuf (SphereDb B KV); w_net : Net }.

(** *** The API *)
Record NoosphereContext := mkNoosphere { configuration : Configuration; sphere_channels : gmap string SphereChannel }.
Implicit Types (self : NoosphereContext) (w : World).

Definition noosphere_new (configuration : Configuration) : NoosphereContext := mkNoosphere configuration ∅.

Definition with_channel self (identity : string) (ctx : context) : NoosphereContext :=
  mkNoosphere (configuration self) (<[identity := channel_new (latest ctx) ctx]> (sphere_channels self)).

(** [PlatformKeyStorage::new]; its directory is made if it does not exist. *)
Definition noosphere_key_storage self w : outcome K * World :=
  match security (configuration self) with
  | Insecure path =>
      let '(r, fs) := insecure_new path (w_files w) in
      let w := mkWorld fs (w_databases w) (w_net w) in
      let? keys := r keeping w in (Ok (keys, fs), w)
  | Opaque => (Err "Unsupported configuration!", w)
  end.

Definition sphere_storage_path self : PathBuf :=
  match storage_strategy (storage (configuration self)) with
  | ScopedStorage path => path
  | UnscopedStorage path => path
  end.

Definition gateway_api self : option string := network_gateway_api (network (configuration self)).
Definition ipfs_gateway_url self : option string := network_ipfs_gateway_url (network (configuration self)).

Definition noosphere_create_key (generated : Key) self (key_name : string) w : outcome unit * World :=
  if bool_decide (key_name = EmptyString) then (Err "Key name must not be empty.", w)
  else
    let '(r, w) := noosphere_key_storage self w in
    let? (keys, fs) := r keeping w in
    let '(r, fs) := insecure_create_key generated keys fs key_name in
    let w := mkWorld fs (w_databases w) (w_net w) in
    let? _ := r keeping w in (Ok tt, w).

Definition noosphere_has_key self (key_name : string) w : outcome bool * World :=
  let '(r, w) := noosphere_key_storage self w in
  let? keys := r keeping w in
  let? found := read_key (Key := Key) keys key_name keeping w in
  (Ok (bool_decide (is_Some found)), w).

(** What every workflow configures; the layout is always scoped. *)
Definition configured self (b : builder) (keys : K) : builder :=
  let b := at_storage_path b (sphere_storage_path self) in
  let b := with_storage_config b (storage_configuration (storage (configuration self))) in
  let b := reading_keys_from (using_scoped_storage_layout b) keys in
  reading_ipfs_from (syncing_to b (gateway_api self)) (ipfs_gateway_url self).

Definition run_builder (rng rng' : bytes) (new_key : Key) (backup_id : string) (b : builder) w
    : outcome (SphereContextBuilderArtifacts (Key := Key) (Cid := Cid) (B := B) (KV := KV)) * World :=
  let '(r, (databases, net)) := sphere_build (Url := Url) walk_fuel body_fuel clock rng rng' new_key backup_id b (w_databases w) (w_net w) in
  (r, mkWorld (w_files w) databases net).

Definition noosphere_create_sphere (rng : bytes) (sphere_key : Key) self (owner_key_name : string) w
    : outcome SphereReceipt * (NoosphereContext * World) :=
  let '(r, w) := noosphere_key_storage self w in
  let? keys := r keeping (self, w) in
  let b := using_key (configured self (create_sphere sphere_builder_default) keys) owner_key_name in
  let '(r, w) := run_builder rng [] sphere_key EmptyString b w in
  let? artifacts := r keeping (self, w) in
  let? mnemonic := artifacts_require_mnemonic artifacts keeping (self, w) in
  let ctx := context_of_artifacts artifacts in
  let sphere_identity := ctx_identity ctx in
  (Ok (mkReceipt sphere_identity mnemonic), (with_channel self sphere_identity ctx, w)).

Definition noosphere_join_sphere (new_key : Key) self (sphere_identity local_key_name : string) (authorization : option (Authorization Cid)) w
    : outcome unit * (NoosphereContext * World) :=
  let '(r, w) := noosphere_key_storage self w in
  let? keys := r keeping (self, w) in
  let b := authorized_by (using_key (configured self (join_sphere sphere_builder_default sphere_identity) keys) local_key_name) authorization in
  let '(r, w) := run_builder [] [] new_key EmptyString b w in
  let? artifacts := r keeping (self, w) in
  let ctx := context_of_artifacts artifacts in
  (Ok tt, (with_channel self (ctx_identity ctx) ctx, w)).

Definition noosphere_recover_sphere (rng rng' : bytes) (one_time_key : Key) (backup_id : string) self (local_key_name sphere_id mnemonic : string) w
    : outcome unit * (NoosphereContext * World) :=
  let self := mkNoosphere (configuration self) (delete sphere_id (sphere_channels self)) in
  let '(r, w) := noosphere_key_storage self w in
  let? keys := r keeping (self, w) in
  let b := using_key (using_mnemonic (configured self (recover_sphere sphere_builder_default sphere_id) keys) (Some mnemonic)) local_key_name in
  let '(r, w) := run_builder rng rng' one_time_key backup_id b w in
  let? artifacts := r keeping (self, w) in
  let ctx := context_of_artifacts artifacts in
  (Ok tt, (with_channel self (ctx_identity ctx) ctx, w)).

Definition get_sphere_channel (new_key : Key) self (sphere_identity : string) w : outcome SphereChannel * (NoosphereContext * World) :=
  let found channels :=
    ok_or "Context was not initialized!" (channels !! sphere_identity : option SphereChannel) in
  match sphere_channels self !! sphere_identity with
  | Some _ => (found (sphere_channels self), (self, w))
  | None =>
      let '(r, w) := noosphere_key_storage self w in
      let? keys := r keeping (self, w) in
      let b := configured self (open_sphere sphere_builder_default (Some sphere_identity)) keys in
      let '(r, w) := run_builder [] [] new_key EmptyString b w in
      let? artifacts := r keeping (self, w) in
      let self := with_channel self sphere_identity (context_of_artifacts artifacts) in
      (found (sphere_channels self), (self, w))
  end.
End runtime.
