(* ===== verification/BuilderProofs.v ===== *)
(** * Facts about opening spheres

    The sphere that is generated in memory and persisted is a version that the
    database holds, with the token of its owner; the metadata that a workflow leaves
    is what opening the sphere reads. *)
From stdpp Require Import base gmap list numbers strings pretty.
From Stdlib Require Import Ascii String.
From S2P Require Import Prelude BlockStore HamtNode HamtRep HamtProofs HamtPersist Hamt HamtSpec BTree SphereDb BodyChunk VersionedMap.
From S2P Require Import UcanCapability Ucan UcanChain UcanProofs Authority AuthorityProofs Memo Sphere SphereProofs.
From S2P Require Import SphereHistory SphereRebase SphereGenesis Bundle BundleProofs SphereContext SphereContextProofs.
From S2P Require Import StoreTransfer ContextAuthority Api Gateway Routes KeyStorage Builder.
#[local] Open Scope list_scope.
#[local] Notation length := List.length (only parsing).

(** ** A generated sphere has sound blocks *)
Section generated.
Context {Key Url Cid : Type} `{UnicodeLaws}.
Context `{KeyMaterial Key} `{Bs58} `{Base64} `{DagJson UcanHeader} `{DagJson UcanPayload} `{UrlOps Url}.
Context `{Countable Cid} `{HashAlgorithm string} `{HashAlgorithm Cid} `{KeyOrder Cid} `{CidLaws Cid}.
Context `{!SphereCodecs Cid} `{!SphereCodecsLaws Cid}.
#[local] Existing Instance block_ucan_store.

Definition keeps_sound (m m' : MemoryStore) : Prop := sound_memory (Cid := Cid) m -> sound_memory (Cid := Cid) m'.

#[export] Instance keeps_sound_preorder : PreOrder keeps_sound.
Proof. split; [intros m Hm; exact Hm|intros a b c Hab Hbc Hm; apply Hbc, Hab, Hm]. Qed.

Lemma keeps_sound_put m codec b (links : list Cid) : references codec b = Ok links -> keeps_sound m (put_encoded (Cid := Cid) m codec b).2.
Proof. intros Hl Hm. by apply (sound_memory_put m codec b links). Qed.

Lemma generate_sound rng clock (key : Key) mnemonic owner : writes keeps_sound (fun s => generate (Url := Url) (Cid := Cid) rng clock key mnemonic owner s).
Proof.
  intros s. pose proof keeps_sound_put as Hput. unfold generate. cbn beta. apply (writes_try keeps_sound). intros mn _. apply (writes_try keeps_sound). intros did _.
  apply (writes_then keeps_sound); [apply (writes_sphere_new keeps_sound Hput)|]. intros ipld s1. apply (writes_then keeps_sound).
  { unfold for_body. apply (writes_then keeps_sound); [apply (writes_save keeps_sound Hput)|]. reflexivity. }
  intros memo s2. apply (writes_try keeps_sound). intros sg _. apply (writes_try keeps_sound). intros u _.
  destruct (memo_sign _ key None) as [r memo']. apply (writes_try keeps_sound). intros _ _.
  apply (writes_then keeps_sound); [apply (writes_save keeps_sound Hput)|]. intros c s3. apply (writes_try keeps_sound). intros jwt _. apply (writes_then keeps_sound).
  { unfold delegation_register, write_token. cbn [ucan_write block_ucan_store block_ucan_write].
    apply (writes_then keeps_sound); [apply (Hput s3 RAW (as_bytes jwt) []); apply references_raw|]. reflexivity. }
  intros del s4. destruct (memo_sign memo' key None) as [r2 memo2]. apply (writes_try keeps_sound). intros _ _.
  apply (writes_then keeps_sound); [apply (writes_apply_mutation keeps_sound Hput)|]. intros rev s5.
  pose proof (writes_sign (Url := Url) keeps_sound Hput rng clock rev key None s5) as Hs.
  destruct (revision_sign _ _ _ _ _ _) as [[c'| | |] [rev' s6]]; exact Hs.
Qed.
End generated.

(** ** The database of a sphere *)
Section opening.
Context {Key Url Cid B KV Net K Config : Type} `{UnicodeLaws}.
Context `{KeyMaterial Key} `{Bs58} `{Base64Laws} `{!Base64Ascii} `{DagJsonLaws UcanHeader} `{DagJsonLaws UcanPayload} `{UrlLaws Url}.
Context `{Countable Cid} `{HashAlgorithmLaws string} `{HashAlgorithmLaws Cid} `{KeyOrderLaws Cid}.
Context `{CidLaws Cid} `{!BlockStore B Cid} `{!BlockStoreLaws B Cid} `{StoreLaws KV}.
Context `{!SphereCodecs Cid} `{!SphereCodecsLaws Cid} `{!EntryCodecs Cid} `{!EntryCodecsLaws Cid}.
Context `{!ContextCodecs Cid} `{!ContextCodecsLaws Cid}.
Context `{Bip39Laws} `{Ed25519Laws Key} `{!KeyStorage K Key} `{!Platform (SphereDb B KV) Config}.
Notation SphereDb := (SphereDb B KV).
Notation version := (SphereRebase.version (Cid := Cid)).
Notation context := (SphereContext (Key := Key) (Cid := Cid) (B := B) (KV := KV)).
Notation builder := (SphereContextBuilder (Cid := Cid) (K := K) (Config := Config)).
Notation Disk := (gmap PathBuf SphereDb).
#[local] Existing Instance block_ucan_store.
Implicit Types (db : SphereDb) (ctx : context) (x y : version) (b : builder) (disk : Disk).

(** What a platform promises: a database that is opened again has at least the blocks
    it had, and its versions and metadata; a new one has no metadata. *)
Class PlatformLaws := {
  open_existing : forall path config url db, exists db', open_storage path config url (Some db) = Ok db' /\ grown (Cid := Cid) db db';
  open_new : forall path config url, exists db, open_storage path config url None = Ok db /\
    forall key, store_read (metadata_store db) key = Ok None;
}.

(** What opening reads. *)
Record registered db (identity key_name : string) (authorization : option Cid) : Prop := {
  registered_identity : db_get_key db IDENTITY = Ok (Some identity);
  registered_key : db_get_key db USER_KEY_NAME = Ok (Some key_name);
  registered_authorization : db_get_key db AUTHORIZATION = Ok authorization;
}.

Lemma metadata_read {V} `{!BlockCodec V} db db' key :
  store_read (metadata_store db') (as_bytes key) = store_read (metadata_store db) (as_bytes key) -> db_get_key (V := V) db' key = db_get_key db key.
Proof. unfold db_get_key, get_key. by intros ->. Qed.

Lemma registered_grown db db' i n a : same_names db db' -> registered db i n a -> registered db' i n a.
Proof. intros [_ Hm] [H1' H2' H3']. split; unfold db_get_key in *; by rewrite Hm. Qed.

(** The last step changes nothing but the URL of the gateway. *)
Lemma sync_to_gateway_spec b ctx : exists db', sync_to_gateway b ctx = (Ok tt, with_db (match b_gateway_api b with Some _ => with_client ctx None | None => ctx end) db') /\
  same_blocks (ctx_db ctx) db' /\ version_store db' = version_store (ctx_db ctx) /\
  forall i n a, registered (ctx_db ctx) i n a -> registered db' i n a.
Proof.
  unfold sync_to_gateway. destruct (b_gateway_api b) as [url|]; [|exists (ctx_db ctx); split; [by destruct ctx|done]].
  unfold configure_gateway_url. destruct (db_set_key_spec (ctx_db ctx) GATEWAY_URL url) as (db' & E & Hs & Hv & _ & Ho).
  cbn [with_client ctx_db]. rewrite E. exists db'. split; [done|]. split; [done|]. split; [done|].
  intros i n a [H1' H2' H3']. split; (erewrite metadata_read; [eassumption|by apply Ho]).
Qed.

(** What the context is after it. *)
Lemma synced_context b ctx db' : let ctx' := with_db (match b_gateway_api b with Some _ => with_client ctx None | None => ctx end) db' in
  ctx_identity ctx' = ctx_identity ctx /\ ctx_author ctx' = ctx_author ctx /\ ctx_access ctx' = ctx_access ctx /\ ctx_db ctx' = db' /\
  ctx_mutation ctx' = ctx_mutation ctx.
Proof. cbn. by destruct (b_gateway_api b). Qed.

Lemma set_keys_spec db (identity key_name : string) (cid : Cid) :
  exists db1 db2 db3, db_set_key db IDENTITY identity = (Ok tt, db1) /\ db_set_key db1 USER_KEY_NAME key_name = (Ok tt, db2) /\
    db_set_key db2 AUTHORIZATION cid = (Ok tt, db3) /\ same_blocks db db3 /\ version_store db3 = version_store db /\
    registered db3 identity key_name (Some cid).
Proof.
  destruct (db_set_key_spec db IDENTITY identity) as (db1 & E1 & Hs1 & Hv1 & Hg1 & Ho1).
  destruct (db_set_key_spec db1 USER_KEY_NAME key_name) as (db2 & E2 & Hs2 & Hv2 & Hg2 & Ho2).
  destruct (db_set_key_spec db2 AUTHORIZATION cid) as (db3 & E3 & Hs3 & Hv3 & Hg3 & Ho3).
  exists db1, db2, db3. split; [done|]. split; [done|]. split; [done|]. split; [destruct Hs1, Hs2, Hs3; split; congruence|].
  split; [congruence|]. split; [| |done].
  - rewrite (metadata_read db1 db3); [done|]. rewrite Ho3 by done. by apply Ho2.
  - rewrite (metadata_read db2 db3); [done|]. by apply Ho3.
Qed.

(** *** Creating *)
Lemma create_in_db_spec b (key : Key) did name m (sphere cid : Cid) authorization mnemonic identity db :
  sound_memory (Cid := Cid) m -> get_did key = Ok did -> authorization_cid authorization = Ok cid ->
  exists ctx, create_in_db b key name m sphere authorization mnemonic identity db = (Ok (SphereCreated ctx mnemonic), ctx_db ctx) /\
    ctx_identity ctx = identity /\ ctx_author ctx = mkAuthor key (Some authorization) /\
    store_le (Cid := Cid) db (ctx_db ctx) /\ carries (Cid := Cid) m (ctx_db ctx) /\
    get_version (ctx_db ctx) identity = Ok (Some sphere) /\ registered (ctx_db ctx) identity name (Some cid).
Proof.
  intros Hm Hd Hc. unfold create_in_db. destruct (persist_spec db m Hm) as (db1 & E1 & Hle1 & Hcar). rewrite E1. cbn [try_with].
  destruct (set_version_spec db1 identity sphere) as (db2 & E2 & Hs2 & _ & Hv & _). rewrite E2. cbn [try_with].
  destruct (set_keys_spec db2 identity name cid) as (db3 & db4 & db5 & E3 & E4 & E5 & Hs5 & Hv5 & Hr). rewrite E3. cbn [try_with].
  rewrite E4. cbn [try_with]. rewrite Hc. cbn [try_with]. rewrite E5. cbn [try_with]. unfold context_new. cbn [author_key]. rewrite Hd.
  cbn [outcome_bind try_with]. set (ctx := mkContext _ _ _ _ _ _ _).
  destruct (sync_to_gateway_spec b ctx) as (db' & E & Hs' & Hv' & Hreg). rewrite E. cbn [try_with].
  destruct (synced_context b ctx db') as (Hi & Ha & _ & Hdb & _). eexists. split; [done|]. rewrite Hi, Ha, Hdb. split; [done|]. split; [done|].
  assert (store_le db1 db') as Hle by (apply same_blocks_le; destruct Hs2, Hs5, Hs'; cbn in *; split; congruence).
  split; [by transitivity db1|]. split; [intros c bl Hcb; by apply Hle, Hcar|]. split; [|by apply Hreg].
  change (ctx_db ctx) with db5 in Hv'. unfold get_version in *. by rewrite Hv', Hv5.
Qed.

(** *** Opening *)
Lemma open_in_db_spec b ks name (key : Key) did identity auth db :
  b_key_storage b = Some ks -> read_key ks name = Ok (Some key) -> get_did key = Ok did -> registered db identity name auth ->
  exists ctx, open_in_db b db = (Ok (SphereOpened ctx), ctx_db ctx) /\
    ctx_identity ctx = identity /\ ctx_author ctx = mkAuthor key (AuthCid <$> auth) /\ ctx_access ctx = None /\
    ctx_mutation ctx = sphere_mutation_new did /\ store_le (Cid := Cid) db (ctx_db ctx) /\
    version_store (ctx_db ctx) = version_store db /\ registered (ctx_db ctx) identity name auth.
Proof.
  intros Hks Hk Hd [R1 R2 R3]. unfold open_in_db, db_require_key. rewrite R2. cbn [outcome_bind ok_or try_with]. rewrite R3. cbn [try_with].
  rewrite Hks. unfold storage_require_key. rewrite Hk. cbn [outcome_bind try_with]. rewrite R1. cbn [outcome_bind ok_or try_with].
  unfold context_new. cbn [author_key]. rewrite Hd. cbn [outcome_bind try_with]. set (ctx := mkContext _ _ _ _ _ _ _).
  destruct (sync_to_gateway_spec b ctx) as (db' & E & Hs' & Hv' & Hreg). rewrite E. cbn [try_with].
  destruct (synced_context b ctx db') as (Hi & Ha & Hac & Hdb & Hmu). eexists. split; [done|]. rewrite Hi, Ha, Hac, Hdb, Hmu.
  split; [done|]. split; [done|]. split; [done|]. split; [done|]. split; [by apply same_blocks_le|]. split; [done|]. by apply Hreg.
Qed.

(** *** Databases *)
Lemma generate_db_existing `{!PlatformLaws} path scoped identity url config disk layout db :
  layout_try_from path scoped identity = Ok layout -> disk !! resolve_path (layout_path layout) = Some db ->
  exists db', generate_db path scoped identity url config disk =
    (Ok (resolve_path (layout_path layout), db'), <[resolve_path (layout_path layout) := db']> disk) /\ grown (Cid := Cid) db db'.
Proof.
  intros Hl Hdb. unfold generate_db. rewrite Hl. cbn [try_with]. unfold create_platform_storage. rewrite Hdb.
  destruct (open_existing (resolve_path (layout_path layout)) (default default_config config) url db) as (db' & -> & Hg). by exists db'.
Qed.

Lemma generate_db_total `{!PlatformLaws} path scoped identity url config disk layout : layout_try_from path scoped identity = Ok layout ->
  exists db, generate_db path scoped identity url config disk =
    (Ok (resolve_path (layout_path layout), db), <[resolve_path (layout_path layout) := db]> disk).
Proof.
  intros Hl. unfold generate_db. rewrite Hl. cbn [try_with]. unfold create_platform_storage.
  destruct (disk !! _) as [db|].
  - destruct (open_existing (resolve_path (layout_path layout)) (default default_config config) url db) as (db' & -> & _). by exists db'.
  - destruct (open_new (resolve_path (layout_path layout)) (default default_config config) url) as (db' & -> & _). by exists db'.
Qed.

(** A sphere that is registered in the database of its place opens. *)
Lemma opens_registered `{!PlatformLaws} b identity path layout ks name (key : Key) did auth db sphere_identity disk :
  b_storage_path b = Some path -> layout_try_from path (b_scoped_storage_layout b) identity = Ok layout ->
  disk !! resolve_path (layout_path layout) = Some db -> registered db sphere_identity name auth ->
  b_key_storage b = Some ks -> read_key ks name = Ok (Some key) -> get_did key = Ok did ->
  exists ctx, open_a_sphere b identity disk = (Ok (SphereOpened ctx), <[resolve_path (layout_path layout) := ctx_db ctx]> disk) /\
    ctx_identity ctx = sphere_identity /\ ctx_author ctx = mkAuthor key (AuthCid <$> auth) /\ ctx_access ctx = None /\
    ctx_mutation ctx = sphere_mutation_new did /\ store_le (Cid := Cid) db (ctx_db ctx) /\
    version_store (ctx_db ctx) = version_store db /\ registered (ctx_db ctx) sphere_identity name auth.
Proof.
  intros Hp Hl Hdb Hr Hks Hk Hd. unfold open_a_sphere, require_storage_path. rewrite Hp. cbn [ok_or try_with].
  destruct (generate_db_existing path _ identity (b_ipfs_gateway_url b) (b_storage_config b) disk layout db Hl Hdb) as (db' & -> & [Hle Hn]). cbn [try_with].
  destruct (open_in_db_spec b ks name key did sphere_identity auth db' Hks Hk Hd (registered_grown _ _ _ _ _ Hn Hr))
    as (ctx & E & Hi & Ha & Hac & Hm & Hle' & Hv & Hr'). unfold on_database. rewrite E. exists ctx. rewrite insert_insert_eq.
  split; [done|]. split; [done|]. split; [done|]. split; [done|]. split; [done|]. split; [by transitivity db'|].
  split; [|done]. rewrite Hv. apply Hn.
Qed.

(** *** The whole workflow *)
Lemma get_identity_spec {S} `{!BlockStore S Cid} `{!BlockStoreLaws S Cid} (s : S) y : holds s y -> get_identity s (ver_cid y) = Ok (identity (ver_ipld y)).
Proof.
  intros (Hm & Hb & _). unfold get_identity, to_body, to_memo. rewrite (stored_load _ _ _ Hm). cbn [outcome_bind].
  by rewrite (stored_load _ _ _ Hb).
Qed.

(** What a created sphere has in its database: the version and the token, and what
    opening it reads. *)
Record created db (identity did name : string) (sphere_key : Key) (start : N) y (u : Ucan) (jwt : string) : Prop := {
  created_holds : holds db y;
  created_version : get_version db identity = Ok (Some (ver_cid y));
  created_token : authentic (Cid := Cid) db (token_cid jwt) (as_bytes jwt);
  created_registered : registered db identity name (Some (token_cid jwt));
  created_identity : Sphere.identity (ver_ipld y) = identity;
  created_value : ver_value y = apply_value (owner_mutation identity (token_cid jwt)) empty_value;
  created_encoded : ucan_encode u = Ok jwt;
  created_root : root_token (Url := Url) u identity did Authorize;
  created_signed : exists rng sg, sign rng sg = Ok u /\ s_issuer sg = sphere_key /\
    s_expiration sg = Some (start + SPHERE_LIFETIME)%N /\ s_not_before sg = None;
}.

Lemma created_grown db db' i did n key start y u jwt : grown (Cid := Cid) db db' -> created db i did n key start y u jwt -> created db' i did n key start y u jwt.
Proof.
  intros [Hle Hn] [C1 C2 C3 C4 C5 C6 C7 C8 C9]. split; try done.
  - exact (holds_mono _ _ _ Hle C1).
  - by rewrite (same_names_version _ _ _ Hn).
  - by apply Hle.
  - by eapply registered_grown.
Qed.

Lemma create_a_sphere_spec `{!PlatformLaws} start rng b path layout ks name (owner_key sphere_key : Key) did identity mnemonic disk :
  json_total -> (start + SPHERE_LIFETIME < 2 ^ 64)%N ->
  b_storage_path b = Some path -> layout_try_from path (b_scoped_storage_layout b) (Some identity) = Ok layout ->
  b_key_storage b = Some ks -> b_key_name b = Some name -> read_key ks name = Ok (Some owner_key) -> get_did owner_key = Ok did ->
  get_did sphere_key = Ok identity -> (forall d, exists sig, key_sign sphere_key d = Ok sig) -> ed25519_key_to_mnemonic sphere_key = Ok mnemonic ->
  exists y u jwt ctx, create_a_sphere (Url := Url) start rng sphere_key b disk =
      (Ok (SphereCreated ctx mnemonic), <[resolve_path (layout_path layout) := ctx_db ctx]> disk) /\
    ctx_identity ctx = identity /\ created (ctx_db ctx) identity did name sphere_key start y u jwt.
Proof.
  intros Hj Hl Hp Hlay Hks Hn Hk Hd Hid Hs Hmn. unfold create_a_sphere, require_storage_path. rewrite Hp. cbn [ok_or try_with].
  rewrite Hks, Hn. cbn [ok_or try_with]. unfold storage_require_key. rewrite Hk. cbn [outcome_bind try_with]. rewrite Hd. cbn [try_with]. rewrite Hmn.
  destruct (generate_spec (Url := Url) (Cid := Cid) (S := MemoryStore) rng start sphere_key mnemonic identity did memory_store_empty Hj Hid Hs Hl)
    as (sg & u & jwt & x & y & m & E & _ & _ & Eu & Ej & Hu & Hiss & Hexp & Hnbf & Hau & _ & Ex & _ & _ & Hidx & _ & Hy).
  destruct Hy as (Hy & _ & Ev & Hidy & _). rewrite Hidx in Hidy. rewrite Ex in Ev. fold (token_cid (Cid := Cid) jwt) in Hau, Ev.
  assert (sound_memory (Cid := Cid) m) as Hsound.
  { pose proof (generate_sound (Url := Url) (Cid := Cid) rng start sphere_key (Ok mnemonic) did memory_store_empty sound_memory_empty) as Hg.
    cbn beta in Hg. by rewrite E in Hg. }
  rewrite E. cbn [unwrap expect try_with]. rewrite (get_identity_spec m y Hy), Hidy. cbn [unwrap expect try_with].
  destruct (generate_db_total path (b_scoped_storage_layout b) (Some identity) (b_ipfs_gateway_url b) (b_storage_config b) disk layout Hlay) as (db & ->).
  cbn [try_with]. assert (authorization_cid (AuthUcan u) = Ok (token_cid jwt)) as Hc by (cbn [authorization_cid]; by rewrite Ej).
  destruct (create_in_db_spec b owner_key did name m (ver_cid y) (token_cid jwt) (AuthUcan u) mnemonic identity db Hsound Hd Hc)
    as (ctx & Ec & Hci & _ & _ & Hcar & Hver & Hreg).
  exists y, u, jwt, ctx. unfold on_database. rewrite Ec, insert_insert_eq. split; [done|]. split; [done|].
  split; try done; [exact (holds_carry m (ctx_db ctx) y Hcar Hy)|exact (Hcar _ _ Hau)|]. by exists rng, sg.
Qed.

(** A created sphere opens for its owner, with the authority of the token. *)
Lemma opens_created `{!PlatformLaws} (supported_keys : list (bytes * (bytes -> outcome Key))) fuel walk_fuel clock
    start b identity' path layout ks name (owner_key sphere_key : Key) did identity y u jwt db disk :
  key_resolves (key_constructors (did_parser_new supported_keys)) sphere_key -> get_did sphere_key = Ok identity ->
  (forall d, exists sig, key_sign sphere_key d = Ok sig) ->
  key_resolves (key_constructors (did_parser_new supported_keys)) owner_key -> get_did owner_key = Ok did ->
  (forall d, exists sig, key_sign owner_key d = Ok sig) ->
  opaque_path identity = true -> identity <> "*" -> (clock <= start + SPHERE_LIFETIME)%N -> 0 < fuel -> 0 < walk_fuel ->
  created db identity did name sphere_key start y u jwt ->
  b_storage_path b = Some path -> layout_try_from path (b_scoped_storage_layout b) identity' = Ok layout ->
  disk !! resolve_path (layout_path layout) = Some db -> b_key_storage b = Some ks -> read_key ks name = Ok (Some owner_key) ->
  exists ctx, open_a_sphere b identity' disk = (Ok (SphereOpened ctx), <[resolve_path (layout_path layout) := ctx_db ctx]> disk) /\
    delegate (Url := Url) supported_keys fuel walk_fuel clock ctx y (token_cid jwt) (mkChain u [] []) did identity /\
    ctx_mutation ctx = sphere_mutation_new did.
Proof.
  intros Hsk Hid Hss Hok Hd Hos Hop Hstar Hnow Hf Hw [C1 C2 C3 C4 C5 C6 C7 C8 (rng & sg & Eu & Hi & He & Hn)] Hp Hl Hdb Hks Hk.
  destruct (opens_registered b identity' path layout ks name owner_key did (Some (token_cid jwt)) db identity disk Hp Hl Hdb C4 Hks Hk Hd)
    as (ctx & E & Hci & Ha & Hac & Hm & Hle & Hv & _). exists ctx. split; [done|]. split; [|done].
  eapply (root_delegate supported_keys fuel walk_fuel clock sphere_key owner_key identity did); try eassumption.
  - split; [rewrite Hci; unfold get_version in *; by rewrite Hv|exact (holds_mono _ _ _ Hle C1)].
  - by apply Hle.
Qed.

(** *** Joining *)
Lemma join_in_db_spec b (key : Key) did name identity auth (cid : Cid) db :
  get_did key = Ok did -> b_authorization b = Some auth -> authorization_cid auth = Ok cid ->
  exists ctx, join_in_db b key name identity db = (Ok (SphereOpened ctx), ctx_db ctx) /\
    ctx_identity ctx = identity /\ ctx_author ctx = mkAuthor key (Some auth) /\ store_le (Cid := Cid) db (ctx_db ctx) /\
    version_store (ctx_db ctx) = version_store db /\ registered (ctx_db ctx) identity name (Some cid).
Proof.
  intros Hd Ha Hc. unfold join_in_db. destruct (set_keys_spec db identity name cid) as (db1 & db2 & db3 & E1 & E2 & E3 & Hs & Hv & Hr).
  rewrite E1. cbn [try_with]. rewrite E2. cbn [try_with]. rewrite Ha. cbn match. rewrite Hc. cbn [try_with]. rewrite E3. cbn [try_with].
  unfold context_new. cbn [author_key]. rewrite Hd. cbn [outcome_bind try_with]. set (ctx := mkContext _ _ _ _ _ _ _).
  destruct (sync_to_gateway_spec b ctx) as (db' & E & Hs' & Hv' & Hreg). rewrite E. cbn [try_with].
  destruct (synced_context b ctx db') as (Hi & Hau & _ & Hdb & _). eexists. split; [done|]. rewrite Hi, Hau, Hdb. split; [done|]. split; [done|].
  split; [apply same_blocks_le; destruct Hs, Hs'; cbn in *; split; congruence|]. split; [cbn in Hv'; congruence|by apply Hreg].
Qed.

Lemma join_a_sphere_spec `{!PlatformLaws} b path layout ks name (key : Key) did identity auth (cid : Cid) disk :
  b_storage_path b = Some path -> layout_try_from path (b_scoped_storage_layout b) (Some identity) = Ok layout ->
  b_key_storage b = Some ks -> b_key_name b = Some name -> read_key ks name = Ok (Some key) -> get_did key = Ok did ->
  b_authorization b = Some auth -> authorization_cid auth = Ok cid ->
  exists ctx, join_a_sphere b identity disk = (Ok (SphereOpened ctx), <[resolve_path (layout_path layout) := ctx_db ctx]> disk) /\
    ctx_identity ctx = identity /\ ctx_author ctx = mkAuthor key (Some auth) /\ registered (ctx_db ctx) identity name (Some cid).
Proof.
  intros Hp Hl Hks Hn Hk Hd Ha Hc. unfold join_a_sphere, require_storage_path. rewrite Hks, Hn, Hp. cbn [ok_or try_with].
  unfold storage_require_key. rewrite Hk. cbn [outcome_bind try_with].
  destruct (generate_db_total path (b_scoped_storage_layout b) (Some identity) (b_ipfs_gateway_url b) (b_storage_config b) disk layout Hl) as (db & ->).
  cbn [try_with]. destruct (join_in_db_spec b key did name identity auth cid db Hd Ha Hc) as (ctx & E & Hi & Hau & _ & _ & Hr).
  exists ctx. unfold on_database. rewrite E, insert_insert_eq. done.
Qed.

(** A database that names no key does not open. *)
Lemma unregistered_does_not_open b db : db_get_key (V := string) db USER_KEY_NAME = Ok None -> open_in_db (Cid := Cid) b db = (Err "No value found", db).
Proof. intros Hn. unfold open_in_db, db_require_key. by rewrite Hn. Qed.
End opening.

(** ** Recovering *)
Section recovering.
Context {Key Url Cid B KV Net K Config : Type} `{UnicodeLaws}.
Context `{KeyMaterial Key} `{Bs58} `{Base64Laws} `{!Base64Ascii} `{DagJsonLaws UcanHeader} `{DagJsonLaws UcanPayload} `{UrlLaws Url}.
Context `{Countable Cid} `{HashAlgorithmLaws string} `{HashAlgorithmLaws Cid} `{KeyOrderLaws Cid}.
Context `{CidLaws Cid} `{!BlockStore B Cid} `{!BlockStoreLaws B Cid} `{StoreLaws KV}.
Context `{!SphereCodecs Cid} `{!SphereCodecsLaws Cid} `{!EntryCodecs Cid} `{!EntryCodecsLaws Cid}.
Context `{!ContextCodecs Cid} `{!ContextCodecsLaws Cid} `{FastCdc} `{!GatewayApi Net Key Cid} `{!SessionServer Net Cid}.
Context `{Bip39} `{!Ed25519 Key} `{!KeyStorage K Key} `{!Platform (SphereDb B KV) Config}.
Context (walk_fuel body_fuel : nat) (clock : N).
Notation SphereDb := (SphereDb B KV).
Notation version := (SphereRebase.version (Cid := Cid)).
Notation builder := (SphereContextBuilder (Cid := Cid) (K := K) (Config := Config)).
#[local] Existing Instance block_ucan_store.
Implicit Types (db : SphereDb) (g y : version) (b : builder) (net : Net).

(** The key that a mnemonic restores can authorize a recovery, and the recovery can
    ask the gateway with that authorization. *)
Lemma one_time_spec rng (root_key one_time_key : Key) root did identity : json_total -> get_did root_key = Ok root ->
  (forall d, exists sig, key_sign root_key d = Ok sig) -> get_did one_time_key = Ok did -> (clock + 60 * 60 < 2 ^ 64)%N ->
  exists u jwt, one_time_authorization (Url := Url) (Cid := Cid) clock rng root_key one_time_key identity = Ok (AuthUcan u) /\
    ucan_encode u = Ok jwt /\ proofs u = None /\ issuer u = root /\ audience u = did.
Proof.
  intros Hj Hr Hs Hd Hc. set (cap := capability_of_view (Url := Url) (generate_capability identity Fetch)).
  destruct (one_capability cap eq_refl) as (caps & Ec & _).
  set (sg := mkSignable root_key did [cap] (Some (clock + 60 * 60)%N) None [] [] true).
  destruct (sign_total rng sg root caps Hj Hr Ec Hs) as (u & jwt & Eu & Ej). exists u, jwt.
  unfold one_time_authorization. rewrite Hd. cbn [outcome_bind]. match goal with |- context [build clock ?b] => assert (build clock b = Ok sg) as -> end.
  { unfold build, implied_expiration. cbn -[N.ltb cap N.mul]. apply N.ltb_lt in Hc. by rewrite Hc. }
  cbn [outcome_bind]. rewrite Eu. cbn [outcome_bind]. split; [done|]. split; [done|].
  destruct (sign_inv _ _ _ Eu) as (_ & _ & Hi & _ & _ & Ha & Hp & _). cbn in Hi, Ha, Hp. split; [done|]. split; [congruence|done].
Qed.

Lemma one_time_bearer rng gateway identity (one_time_key : Key) did u jwt db : json_total -> get_did one_time_key = Ok did ->
  (forall d, exists sig, key_sign one_time_key d = Ok sig) -> (clock + 120 < 2 ^ 64)%N -> ucan_encode u = Ok jwt -> proofs u = None ->
  exists credentials, make_bearer_token (Url := Url) walk_fuel clock rng gateway (mkAuthor one_time_key (Some (AuthUcan u)))
    (generate_capability identity Fetch) db = Ok (credentials : Credentials Cid).
Proof.
  intros Hj Hd Hs Hc Ej Hp. unfold make_bearer_token. cbn [author_key author_authorization].
  set (cap := capability_of_view (Url := Url) (generate_capability identity Fetch)). destruct (one_capability cap eq_refl) as (caps & Ec & _).
  match goal with |- context [build clock ?b] => assert (build clock b = Ok (mkSignable one_time_key gateway [cap] (Some (clock + 120)%N) None [] [] true)) as -> end.
  { unfold build, implied_expiration. cbn -[N.ltb cap]. apply N.ltb_lt in Hc. by rewrite Hc. }
  cbn [outcome_bind ok_or authorization_cid]. rewrite Ej. cbn [outcome_bind]. unfold authorization_headers. cbn [as_ucan]. rewrite Hp. cbn [default from_option].
  assert (header_proofs walk_fuel db [] [] = Ok (@nil (Cid * string))) as -> by by destruct walk_fuel.
  cbn [outcome_bind]. rewrite Ej. cbn [outcome_bind]. set (sg := push_proof _ _).
  destruct (sign_total rng sg did caps Hj Hd Ec Hs) as (u' & jwt' & -> & Ej'). cbn [outcome_bind]. rewrite Ej'. by eexists.
Qed.

Lemma find_delegation_spec db (did : string) (tokens : Cid -> Ucan) (entries : list (Cid * DelegationIpld Cid)) :
  (forall e, e ∈ entries -> delegation_resolve_ucan e.2 db = Ok (tokens e.1)) -> (exists e, e ∈ entries /\ audience (tokens e.1) = did) ->
  exists cid, cid ∈ entries.*1 /\ audience (tokens cid) = did /\ find_delegation db did entries (Ok tt) = Ok (Some (AuthCid cid)).
Proof.
  intros Ht. induction entries as [|[cid d] entries IH]; intros (e & He & Ha); [by apply elem_of_nil in He|].
  pose proof (Ht (cid, d) ltac:(by left)) as E. cbn [fst snd] in E. cbn [find_delegation]. rewrite E. cbn [outcome_bind]. case_bool_decide as Hd.
  - exists cid. split; [by left|]. done.
  - destruct IH as (cid' & Hin & Ha' & E'); [intros e' ?; apply Ht; by right| |exists cid'; split; [by right|done]].
    apply elem_of_cons in He as [->|He]; [done|by exists e].
Qed.

(** The blocks bring the version [g] of the gateway's sphere and the version [y] of the
    user's, with its tokens, to any database. *)
Record delivers (blocks : list (Cid * bytes)) g y (tokens : Cid -> Ucan) : Prop := {
  delivers_sound : Forall sound_block blocks;
  delivers_versions : forall db, (forall c bl, (c, bl) ∈ blocks -> authentic db c bl) -> holds db g /\ holds db y;
  delivers_tokens : forall db cid d, (forall c bl, (c, bl) ∈ blocks -> authentic db c bl) ->
    (v_delegations (ver_value y)).1 !! cid = Some d -> delegation_resolve_ucan d db = Ok (tokens cid);
}.

Context (identity : string) (session : Session) (author : Author Key Cid) (net net' : Net) (rng : bytes).
Context (g y : version) (tokens : Cid -> Ucan) (blocks : list (Cid * bytes)).
Context (Hrep : forall db : SphereDb, client_replicate (Url := Url) walk_fuel clock rng session identity author db
  (ReplicateDid (session_counterpart session)) (Some (mkReplicate None true)) net = (Ok (ver_cid g, (blocks, Ok tt)), net')).
Context (Hdel : delivers blocks g y tokens) (Hlink : (v_content (ver_value g)).1 !! identity = Some (ver_cid y)).
Context (Hct : is_Some (get_first_header (ver_memo y) CONTENT_TYPE)) (Hauthor : exists d, get_did (author_key author) = Ok d).

Lemma replicate_gateway_spec db :
  exists db', replicate_gateway_sphere (Url := Url) walk_fuel body_fuel clock rng identity session author net db = (Ok (ver_cid y), (db', net')) /\
    store_le (Cid := Cid) db db' /\ metadata_store db' = metadata_store db /\ forall c bl, (c, bl) ∈ blocks -> authentic (Cid := Cid) db' c bl.
Proof.
  unfold replicate_gateway_sphere. rewrite Hrep. cbn [try_with].
  destruct (put_block_stream_spec db blocks (Ok tt) (delivers_sound _ _ _ _ Hdel)) as (db1 & E1 & Hle1 & Hall).
  pose proof (names_put_block_stream (blocks, Ok tt) db) as Hn. rewrite E1 in Hn |- *. cbn [try_with snd] in *.
  destruct (set_version_spec db1 (session_counterpart session) (ver_cid g)) as (db2 & E2 & Hs2 & Hm2 & Hv2 & _). rewrite E2. cbn [try_with].
  apply same_blocks_le in Hs2. destruct Hauthor as [d Hd]. unfold context_new. rewrite Hd. cbn [outcome_bind try_with]. set (ctx := mkContext _ _ _ _ _ _ _).
  assert (forall c bl, (c, bl) ∈ blocks -> authentic db2 c bl) as Hall2 by (intros; apply Hs2; auto).
  destruct (delivers_versions _ _ _ _ Hdel db2 Hall2) as [Hg (Hym & Hyb & _)].
  pose proof (read_spec body_fuel net' (latest ctx) g identity) as Hr. cbn [SphereContext.version cursor_has_context context_has_context cursor_version latest cursor_inner] in Hr.
  specialize (Hr (require_version_spec _ _ _ Hv2) Hg). rewrite Hlink in Hr. destruct Hct as [ct Hct'].
  assert (readable (context_db (latest ctx)) (ver_cid y)) as Hread.
  { destruct Hyb as (bb & _ & _ & Hyg). exists (ver_memo y), ct, bb. split; [exact Hym|]. split; [done|exact Hyg]. }
  destruct (Hr Hread) as (file & Ef & ->). cbn [try_with ok_or].
  destruct (get_file_spec body_fuel net' (latest ctx) (ver_cid g) (ver_cid y) Hread) as (file' & Ef' & Hfv & _).
  assert (file' = file) as -> by congruence. rewrite Hfv. exists db2. split; [done|]. split; [by transitivity db1|].
  split; [|done]. rewrite Hm2. apply Hn.
Qed.

Context (b : builder) (url name did : string) (ks : K) (key : Key).
Context (Hurl : b_gateway_api b = Some url) (Hsession : net_identify net identity url author = Ok session).
Context (Hread : read_key ks name = Ok (Some key)) (Hdid : get_did key = Ok did).
Context (Hfuel : levels DEFAULT_BIT_WIDTH * size (v_delegations (ver_value y)).1 <= walk_fuel).
Context (Hmine : exists cid d, (v_delegations (ver_value y)).1 !! cid = Some d /\ audience (tokens cid) = did).

Lemma get_authorization_spec (ctx : SphereContext (Key := Key) (Cid := Cid) (B := B) (KV := KV)) :
  at_version ctx y -> (forall c bl, (c, bl) ∈ blocks -> authentic (Cid := Cid) (ctx_db ctx) c bl) ->
  exists cid, get_authorization walk_fuel ctx did = Ok (Some (AuthCid cid)) /\
    is_Some ((v_delegations (ver_value y)).1 !! cid) /\ audience (tokens cid) = did.
Proof.
  intros [Hv Hy] Hall. unfold get_authorization. cbn [SphereContext.version context_has_context]. unfold context_version.
  rewrite (require_version_spec _ _ _ Hv). cbn [outcome_bind]. change (context_db ctx) with (ctx_db ctx).
  destruct (delegation_entries_spec walk_fuel (ctx_db ctx) y Hy Hfuel) as (entries & -> & Hp). cbn [outcome_bind].
  destruct (find_delegation_spec (ctx_db ctx) did tokens entries) as (cid & Hin & Ha & ->).
  - intros [cid d] Hin. rewrite Hp in Hin. apply elem_of_map_to_list in Hin. by apply (delivers_tokens _ _ _ _ Hdel (ctx_db ctx) cid d).
  - destruct Hmine as (cid & d & Hl & Ha). exists (cid, d). split; [|done]. rewrite Hp. by apply elem_of_map_to_list.
  - exists cid. split; [done|]. split; [|done]. apply list_elem_of_fmap in Hin as ([cid' d] & -> & Hin). rewrite Hp in Hin.
    apply elem_of_map_to_list in Hin. by exists d.
Qed.

Lemma recover_in_db_spec one_time_key authorization db : author = mkAuthor one_time_key (Some authorization) ->
  exists ctx cid, recover_in_db (Url := Url) walk_fuel body_fuel clock rng b ks name did identity one_time_key authorization net db =
      (Ok (SphereOpened ctx), (ctx_db ctx, net')) /\
    at_version ctx y /\ ctx_identity ctx = identity /\ ctx_author ctx = mkAuthor key (Some (AuthCid cid)) /\ ctx_access ctx = None /\
    is_Some ((v_delegations (ver_value y)).1 !! cid) /\ audience (tokens cid) = did /\
    registered (ctx_db ctx) identity name (Some cid).
Proof.
  intros Eau. unfold recover_in_db. destruct (db_set_key_spec db IDENTITY identity) as (db1 & E1 & _ & _ & Hg1 & _). rewrite E1. cbn [try_with].
  unfold require_gateway_api. rewrite Hurl. cbn [ok_or try_with].
  destruct (db_set_key_spec db1 GATEWAY_URL url) as (db2 & E2 & _ & _ & Hg2 & Ho2). rewrite E2. cbn [try_with]. rewrite <- Eau.
  destruct Hauthor as [d Hd]. unfold context_new at 1. rewrite Hd. cbn [outcome_bind try_with].
  unfold context_client. cbn [ctx_client ctx_db ctx_origin ctx_author default from_option]. unfold db_require_key. rewrite Hg2. cbn [outcome_bind ok_or try_with].
  rewrite Hsession. cbn [try_with]. cbn [with_client ctx_db].
  destruct (replicate_gateway_spec db2) as (db3 & -> & Hle3 & Hm3 & Hall3). cbn [try_with].
  destruct (set_version_spec db3 identity (ver_cid y)) as (db4 & E4 & Hs4 & Hm4 & Hv4 & _). rewrite E4. cbn [try_with]. apply same_blocks_le in Hs4.
  assert (forall c bl, (c, bl) ∈ blocks -> authentic db4 c bl) as Hall4 by (intros; apply Hs4; auto).
  destruct (delivers_versions _ _ _ _ Hdel db4 Hall4) as [_ Hy4].
  match goal with |- context [get_authorization walk_fuel ?c did] => destruct (get_authorization_spec c) as (cid & -> & Hin & Ha); [split; done|done|] end.
  cbn [try_with ok_or].
  destruct (db_set_key_spec db4 USER_KEY_NAME name) as (db5 & E5 & Hs5 & Hv5 & Hg5 & Ho5). rewrite E5. cbn [try_with authorization_cid].
  destruct (db_set_key_spec db5 AUTHORIZATION cid) as (db6 & E6 & Hs6 & Hv6 & Hg6 & Ho6). rewrite E6. cbn [try_with].
  unfold storage_require_key. rewrite Hread. cbn [outcome_bind try_with]. unfold context_new. cbn [author_key]. rewrite Hdid. cbn [outcome_bind try_with].
  eexists _, cid. split; [done|]. cbn [ctx_db ctx_identity ctx_author ctx_access].
  assert (store_le db4 db6) as Hle by (apply same_blocks_le; destruct Hs5, Hs6; split; congruence).
  split; [split; cbn; [unfold get_version in *; by rewrite Hv6, Hv5|exact (holds_mono _ _ _ Hle Hy4)]|].
  split; [done|]. split; [done|]. split; [done|]. split; [done|]. split; [done|]. split; [| |done].
  - rewrite (metadata_read db1 db6); [done|]. rewrite Ho6, Ho5, Hm4, Hm3 by done. by apply Ho2.
  - rewrite (metadata_read db5 db6); [done|]. by apply Ho6.
Qed.
End recovering.
