(* ===== verification/Workspace.v ===== *)
(** * The workspace of the command line

    Model of noosphere-cli/src/native: reading the files of a workspace and comparing
    them with the sphere (content.rs), the workspace (workspace.rs) and the commands
    that change a sphere (commands/sphere): create, join, save, status, sync, render,
    follow, authorize, revoke and the configuration.

    What a command prints is left out, except for the rows of the status; what the
    user types is an argument.  [to_slug] belongs to the subtext crate.  The clones of
    the context and of its database are handles on the one of the workspace. *)
From stdpp Require Import base gmap list numbers strings pretty.
From Stdlib Require Import Ascii String.
From S2P Require Import Prelude BlockStore HamtNode HamtRep Hamt BTree SphereDb BodyChunk VersionedMap.
From S2P Require Import UcanCapability Ucan UcanChain Authority Memo Sphere SphereHistory Bundle SphereContext SphereWalker.
From S2P Require Import Api Sync Gateway Routes KeyStorage Builder FileTree Render.
#[local] Open Scope list_scope.
#[local] Notation length := List.length (only parsing).

Class ToSlug := to_slug : string -> option string.

(** ** Content (content.rs) *)
Record FileReference (Cid : Type) := mkFileReference {
  ref_cid : Cid;
  ref_content_type : ContentType.t;
  ref_extension : option string;
}.
Arguments mkFileReference {Cid} _ _ _.
Arguments ref_cid {Cid} _.
Arguments ref_content_type {Cid} _.
Arguments ref_extension {Cid} _.

Record ContentChanges := mkChanges {
  changes_new : list (string * option ContentType.t);
  changes_updated : list (string * option ContentType.t);
  changes_removed : list (string * option ContentType.t);
  changes_unchanged : gset string;
}.

Definition changes_empty (changes : ContentChanges) : bool :=
  bool_decide (changes_new changes = []) && bool_decide (changes_updated changes = []) && bool_decide (changes_removed changes = []).

Record Content (Cid : Type) := mkContent { matched : list (string * FileReference Cid); ignored : gset string }.
Arguments mkContent {Cid} _ _.
Arguments matched {Cid} _.
Arguments ignored {Cid} _.

(** The globs [@*] and [.*], whose star also stands for separators. *)
Definition ignore_pattern (relative_path : string) : bool := starts_with "@" relative_path || starts_with "." relative_path.

Definition path_to_string (path : PathBuf) : string := String.concat "/" path.

Section content.
Context {Cid S : Type} `{MimeGuess} `{ToSlug} `{FastCdc} `{CidOps Cid} `{!BlockStore S Cid} `{!BlockCodec (BodyChunkIpld Cid)}.
Implicit Types (m : Machine) (s : S).

(** The content that was found, the directories that are left to read, each with the
    prefix of its slugs, and the store of the bodies. *)
Definition reading : Type := Content Cid * list (option string * list PathBuf) * S.

Definition read_entry m (root_path : PathBuf) (slug_prefix : option string) (path : PathBuf) (st : reading) : outcome unit * reading :=
  let '(content, directories, s) := st in
  let? relative_path := ok_or "Could not determine relative path" (diff_paths path root_path) keeping st in
  let relative := path_to_string relative_path in
  if ignore_pattern relative then (Ok tt, st)
  else if is_dir m path then
    let? entries := list_dir m path keeping st in (Ok tt, (content, directories ++ [(Some relative, entries)], s))
  else
    match file_stem path with
    | None => (Ok tt, st)
    | Some name =>
        let name := match slug_prefix with Some prefix => prefix +:+ "/" +:+ name | None => name end in
        match to_slug name with
        | Some slug =>
            if bool_decide (slug = name) then
              let extension := extension path in
              let? content_type :=
                match extension with Some extension => infer_content_type extension | None => Ok ContentType.Bytes end keeping st in
              let? file_bytes := read_file m path keeping st in
              let '(r, s) := store_bytes (Cid := Cid) file_bytes s in
              let? body_cid := r keeping (content, directories, s) in
              let reference := mkFileReference body_cid content_type extension in
              (Ok tt, (mkContent (btree_insert (matched content) slug reference) (ignored content), directories, s))
            else (Ok tt, st)
        | None => (Ok tt, st)
        end
    end.

(** [n] bounds the directories that are read. *)
Fixpoint read_directories (n : nat) m (root_path : PathBuf) (st : reading) : outcome (Content Cid) * S :=
  let '(content, directories, s) := st in
  match vec_pop directories with
  | None => (Ok content, s)
  | Some ((slug_prefix, directory), directories) =>
      match n with
      | O => (Diverge, s)
      | Datatypes.S n =>
          let '(r, (content, directories, s)) :=
            for_each_st (read_entry m root_path slug_prefix) directory (content, directories, s) in
          let? _ := r keeping s in read_directories n m root_path (content, directories, s)
      end
  end.

Definition read_all (n : nat) m (paths : SpherePaths) s : outcome (Content Cid) * S :=
  let root_path := sp_root paths in
  let? directory := list_dir m root_path keeping s in
  read_directories n m root_path (mkContent [] ∅, [(None, directory)], s).

(** One file of the sphere is compared with the one in the workspace. *)
Definition compare_file `{EqDecision Cid} `{Unicode} (content : Content Cid) (changes : ContentChanges) (item : string * SphereFile Cid)
    : ContentChanges :=
  let '(slug, sphere_file) := item in
  let 'mkChanges new updated removed unchanged := changes in
  if bool_decide (slug ∈ ignored content) then changes
  else
    match btree_get (matched content) slug with
    | Some reference =>
        if bool_decide (body (file_memo sphere_file) = ref_cid reference) then mkChanges new updated removed ({[slug]} ∪ unchanged)
        else mkChanges new (btree_insert updated slug (Some (ref_content_type reference))) removed unchanged
    | None => mkChanges new updated (btree_insert removed slug (Memo.content_type (file_memo sphere_file))) unchanged
    end.

Definition compare_new (changes : ContentChanges) (item : string * FileReference Cid) : ContentChanges :=
  let '(slug, reference) := item in
  let 'mkChanges new updated removed unchanged := changes in
  if bool_decide (is_Some (btree_get updated slug)) || bool_decide (is_Some (btree_get removed slug)) || bool_decide (slug ∈ unchanged)
  then changes
  else mkChanges (btree_insert new slug (Some (ref_content_type reference))) updated removed unchanged.
End content.

(** ** The status (commands/sphere/status.rs) *)
Definition status_section (name : string) (entries : list (string * option ContentType.t)) (st : list (string * string * string) * nat * nat)
    : list (string * string * string) * nat * nat :=
  foldl (fun '(section, max_name_length, max_content_type_length) '(slug, content_type) =>
    let content_type := match content_type with Some content_type => ContentType.deref content_type | None => "Unknown" end in
    (section ++ [(slug, content_type, name)], max_name_length `max` String.length slug,
     max_content_type_length `max` String.length content_type)) st entries.

Definition status_rows (content_changes : ContentChanges) : list (string * string * string) * nat * nat :=
  status_section "Removed" (changes_removed content_changes)
    (status_section "New" (changes_new content_changes)
      (status_section "Updated" (changes_updated content_changes) ([], 7, 16))).

(** ** The workspace (workspace.rs) *)
Section workspace.
Context {Key Url Cid B KV Net K Config : Type} `{Unicode}.
Context `{KeyMaterial Key} `{Bs58} `{Base64} `{DagJson UcanHeader} `{DagJson UcanPayload} `{UrlOps Url}.
Context `{Countable Cid} `{HashAlgorithm string} `{HashAlgorithm Cid} `{KeyOrder Cid}.
Context `{CidDefault Cid} `{!BlockStore B Cid} `{Store KV} `{!SphereCodecs Cid} `{!EntryCodecs Cid} `{!ContextCodecs Cid}.
Context `{FastCdc} `{!ApiCodecs Cid} `{!GatewayApi Net Key Cid} `{!Server Net Cid} `{!SessionServer Net Cid} `{Bip39} `{!Ed25519 Key} `{!KeyStorage K Key}.
Context `{!Platform (SphereDb B KV) Config} `{MimeGuess} `{ToSlug}.
Context (supported_keys : list (bytes * (bytes -> outcome Key))).
Context (fuel walk_fuel body_fuel history_fuel directory_fuel : nat) (clock : N).
Context (late : Net -> Session -> Cid -> option (ReplicateParameters Cid) -> option nat).
Notation SphereDb := (SphereDb B KV).
Notation context := (SphereContext (Key := Key) (Cid := Cid) (B := B) (KV := KV)).
Notation builder := (SphereContextBuilder (Cid := Cid) (K := K) (Config := Config)).
#[local] Existing Instance block_ucan_store.
Implicit Types (m : Machine) (ctx : context).

Record Workspace := mkWorkspace {
  ws_sphere_paths : option SpherePaths;
  ws_key_storage : K;
  ws_sphere_context : option context;
  ws_working_directory : PathBuf;
  ws_storage_config : option Config;
}.

(** The files, the databases of the platform and the network. *)
Record CliWorld := mkCli { cli_machine : Machine; cli_databases : gmap PathBuf SphereDb; cli_net : Net }.
Implicit Types (self : Workspace) (w : CliWorld).

Definition with_context self (ctx : option context) : Workspace :=
  mkWorkspace (ws_sphere_paths self) (ws_key_storage self) ctx (ws_working_directory self) (ws_storage_config self).
Definition with_machine w m : CliWorld := mkCli m (cli_databases w) (cli_net w).

Definition require_sphere_paths self : outcome SpherePaths :=
  ok_or "Sphere paths not discovered for this location" (ws_sphere_paths self).

(** [any_key] stands for the keys that opening a sphere does not make. *)
Definition workspace_context (any_key : Key) self w : outcome context * (Workspace * CliWorld) :=
  match ws_sphere_context self with
  | Some ctx => (Ok ctx, (self, w))
  | None =>
      let? paths := require_sphere_paths self keeping (self, w) in
      let b : builder := reading_keys_from (at_storage_path (open_sphere sphere_builder_default None) (sp_root paths)) (ws_key_storage self) in
      let b := match ws_storage_config self with Some storage_config => with_storage_config b storage_config | None => b end in
      let '(r, (databases, net)) :=
        sphere_build (Url := Url) walk_fuel body_fuel clock [] [] any_key EmptyString b (cli_databases w) (cli_net w) in
      let w := mkCli (cli_machine w) databases net in
      let? artifacts := r keeping (self, w) in
      let ctx := context_of_artifacts artifacts in (Ok ctx, (with_context self (Some ctx), w))
  end.

(** What is done to the context is done to that of the workspace. *)
Definition on_context {A} (any_key : Key) (f : context -> outcome A * context) self w : outcome A * (Workspace * CliWorld) :=
  let '(r, (self, w)) := workspace_context any_key self w in
  let? ctx := r keeping (self, w) in
  let '(r, ctx) := f ctx in (r, (with_context self (Some ctx), w)).

(** The database is on the disk from the start. *)
Definition release_sphere_context self w : Workspace * CliWorld :=
  let databases :=
    match ws_sphere_paths self, ws_sphere_context self with
    | Some paths, Some ctx => <[resolve_path (layout_path (UnscopedLayout (sp_root paths))) := ctx_db ctx]> (cli_databases w)
    | _, _ => cli_databases w
    end in
  (with_context self None, mkCli (cli_machine w) databases (cli_net w)).

Definition is_sphere_initialized self w : bool :=
  match ws_sphere_paths self with Some paths => file_exists (cli_machine w) (sp_sphere paths) | None => false end.

Definition ensure_sphere_initialized self w : outcome unit :=
  let? paths := require_sphere_paths self in
  if file_exists (cli_machine w) (sp_sphere paths) then Ok tt else Err "Expected the sphere directory to exist!".

Definition ensure_sphere_uninitialized self w : outcome unit :=
  match ws_sphere_paths self with
  | Some paths => if file_exists (cli_machine w) (sp_sphere paths) then Err "A sphere is already initialized" else Ok tt
  | None => Ok tt
  end.

Definition workspace_initialize (sphere_paths : SpherePaths) self w : outcome Workspace :=
  let? _ := ensure_sphere_uninitialized self w in
  Ok (mkWorkspace (Some sphere_paths) (ws_key_storage self) (ws_sphere_context self) (ws_working_directory self) (ws_storage_config self)).

(** [key_storage] is the key storage at the given or at the default directory. *)
Definition workspace_new (working_directory : PathBuf) (key_storage : outcome K) (storage_config : option Config) w : outcome Workspace :=
  let sphere_paths := discover_paths (cli_machine w) (Some working_directory) in
  let? key_storage := key_storage in
  Ok (mkWorkspace sphere_paths key_storage None working_directory storage_config).

(** The loop of [describe_closest_sphere]; [n] bounds the ancestors. *)
Fixpoint closest_sphere (n : nat) (paths : SpherePaths) m (sphere_base : PathBuf) : outcome (option (string * Cid * option Ucan)) :=
  match parent_of sphere_base, n with
  | Some parent, Datatypes.S n =>
      if bool_decide (parent = sp_peers paths) || bool_decide (parent = sp_root paths) then
        let? identity := read_text m (path_join sphere_base IDENTITY_FILE) in
        let? version := read_text m (path_join sphere_base VERSION_FILE) in
        let link_record :=
          match read_text m (path_join sphere_base LINK_RECORD_FILE) with
          | Ok link_record => ok_of (ucan_from_str link_record)
          | _ => None
          end in
        let? version := cid_of_string version in Ok (Some (identity, version, link_record))
      else closest_sphere n paths m parent
  | _, _ => Ok None
  end.

Definition describe_closest_sphere (starting_from : option PathBuf) self w : outcome (option (string * Cid * option Ucan)) :=
  let? sphere_paths := require_sphere_paths self in
  let start := default (ws_working_directory self) starting_from in
  let? _ := metadata (cli_machine w) start in
  let? canonical := canonical (cli_machine w) start in
  closest_sphere (length canonical) sphere_paths (cli_machine w) canonical.

Definition workspace_render (schedule : list RenderChoice) (any_key : Key) (depth : option N) (force_full : bool) self w
    : outcome unit * (Workspace * CliWorld) :=
  let '(r, (self, w)) := workspace_context any_key self w in
  let? ctx := r keeping (self, w) in
  let? paths := require_sphere_paths self keeping (self, w) in
  let '(r, (ctx, m)) := renderer_render fuel walk_fuel body_fuel (cli_net w) late schedule paths depth force_full ctx (cli_machine w) in
  (r, (with_context self (Some ctx), with_machine w m)).

(** *** Changes of the files (content.rs) *)
Definition read_changes (any_key : Key) self w
    : outcome (option (Content Cid * ContentChanges * MemoryStore)) * (Workspace * CliWorld) :=
  let? paths := require_sphere_paths self keeping (self, w) in
  let '(r, new_blocks) := read_all directory_fuel (cli_machine w) paths memory_store_empty in
  let? file_content := r keeping (self, w) in
  let '(r, (self, w)) := workspace_context any_key self w in
  let? ctx := r keeping (self, w) in
  let '((items, ending), ctx) := content_stream walk_fuel body_fuel (cli_net w) ctx in
  let self := with_context self (Some ctx) in
  let changes := foldl (compare_file file_content) (mkChanges [] [] [] ∅) items in
  let? _ := ending keeping (self, w) in
  let changes := foldl compare_new changes (matched file_content) in
  (Ok (if changes_empty changes then None else Some (file_content, changes, new_blocks)), (self, w)).

(** *** Saving (commands/sphere/save.rs) *)
Definition save_block (entry : bytes * bytes) (db : SphereDb) : outcome unit * SphereDb :=
  let '(cid_bytes, block) := entry in
  let? cid := ok_or "Failed to parse CID" (cid_of_bytes cid_bytes) keeping db in
  let '(r, db) := db_put_block db cid block in
  let? _ := r keeping db in db_put_links db DAG_CBOR cid block.

Definition save_file (net : Net) (content : Content Cid) (change : string * option ContentType.t) ctx : outcome unit * context :=
  let slug := change.1 in
  match btree_get (matched content) slug with
  | Some reference =>
      let headers := (fun extension => [(Header.deref Header.FileExtension, extension)]) <$> ref_extension reference in
      let '(r, ctx) :=
        link (Url := Url) supported_keys fuel walk_fuel body_fuel clock net ctx slug (ContentType.deref (ref_content_type reference))
          (ref_cid reference) headers in
      let? _ := r keeping ctx in (Ok tt, ctx)
  | None => (Ok tt, ctx)
  end.

Definition remove_saved (net : Net) (change : string * option ContentType.t) ctx : outcome unit * context :=
  let '(r, ctx) := remove (Url := Url) supported_keys fuel walk_fuel body_fuel clock net ctx change.1 in
  let? _ := r keeping ctx in (Ok tt, ctx).

Definition stage_changes (net : Net) (found : Content Cid * ContentChanges * MemoryStore) ctx : outcome unit * context :=
  let '(content, content_changes, memory_store) := found in
  let '(r, db) := for_each_st save_block (map_to_list (entries memory_store)) (ctx_db ctx) in
  let ctx := with_db ctx db in
  let? _ := r keeping ctx in
  let '(r, ctx) := for_each_st (save_file net content) (changes_new content_changes ++ changes_updated content_changes) ctx in
  let? _ := r keeping ctx in
  for_each_st (remove_saved net) (changes_removed content_changes) ctx.

(** [save] as far as the version that it makes; [rng] is the nonce of its proof. *)
Definition save_version (any_key : Key) (rng : bytes) self w : outcome Cid * (Workspace * CliWorld) :=
  let? _ := ensure_sphere_initialized self w keeping (self, w) in
  let '(r, (self, w)) := workspace_context any_key self w in
  let? ctx := r keeping (self, w) in
  let unsaved := has_unsaved_changes ctx in
  let '(r, (self, w)) := read_changes any_key self w in
  let? found := r keeping (self, w) in
  let '(r, (self, w)) :=
    match found with
    | Some found => on_context any_key (stage_changes (cli_net w) found) self w
    | None => (Ok tt, (self, w))
    end in
  let? _ := r keeping (self, w) in
  if unsaved || bool_decide (is_Some found) then
    on_context any_key (fun ctx =>
      let '(r, c) := cursor_save (HasMutableSphereContext0 := context_has_mutable_context (Url := Url) clock) rng (latest ctx) None in
      (r, cursor_inner c)) self w
  else (Err "No changes to save", (self, w)).

Definition save_command (schedule : list RenderChoice) (any_key : Key) (rng : bytes) (render_depth : option N) self w
    : outcome unit * (Workspace * CliWorld) :=
  let '(r, (self, w)) := save_version any_key rng self w in
  let? _ := r keeping (self, w) in
  workspace_render schedule any_key render_depth false self w.

(** *** Status: the identity, the version and the changes *)
Definition status_command (any_key : Key) (only_id : bool) self w : outcome (string * option (Cid * option ContentChanges)) * (Workspace * CliWorld) :=
  let? _ := ensure_sphere_initialized self w keeping (self, w) in
  let '(r, (self, w)) := workspace_context any_key self w in
  let? ctx := r keeping (self, w) in
  if only_id then (Ok (ctx_identity ctx, None), (self, w))
  else
    let? cid := context_version ctx keeping (self, w) in
    let '(r, (self, w)) := read_changes any_key self w in
    let? found := r keeping (self, w) in
    (Ok (ctx_identity ctx, Some (cid, (fun found => found.1.2) <$> found)), (self, w)).

(** *** Synchronizing (commands/sphere/sync.rs) *)
Definition sync_outcome {A} (r : attempt SyncError A) : outcome A :=
  match r with
  | Done a => Ok a
  | Failed SyncConflict => Err "Sphere history conflict"
  | Failed (SyncOther e) => Err e
  | Panicked why => Panic why
  | Diverged => Diverge
  end.

Definition sync_context (rng : nat -> nat -> nat -> bytes) (recovery : SyncRecovery) (net : Net) ctx : outcome unit * (context * Net) :=
  let '(r, (ctx, net)) :=
    sync_with_options (Url := Url) (HasMutableSphereContext0 := context_has_mutable_context (Url := Url) clock) supported_keys fuel walk_fuel history_fuel
      clock rng FetchAndPush recovery ctx net in
  let? _ := sync_outcome r keeping (ctx, net) in (Ok tt, (ctx, net)).

Definition sync_command (schedule : list RenderChoice) (any_key : Key) (rng : nat -> nat -> nat -> bytes) (auto_retry : nat) (render_depth : option N) self w
    : outcome unit * (Workspace * CliWorld) :=
  let? _ := ensure_sphere_initialized self w keeping (self, w) in
  let '(r, (self, w)) := read_changes any_key self w in
  let? found := r keeping (self, w) in
  if match found with Some (_, content_changes, _) => negb (changes_empty content_changes) | None => false end then
    (Err "You have unsaved local changes; save or revert them before syncing!", (self, w))
  else
    let '(r, (self, w)) := workspace_context any_key self w in
    let? ctx := r keeping (self, w) in
    let '(r, (ctx, net)) := sync_context rng (RecoverRetry auto_retry) (cli_net w) ctx in
    let self := with_context self (Some ctx) in
    let w := mkCli (cli_machine w) (cli_databases w) net in
    let? _ := r keeping (self, w) in
    workspace_render schedule any_key render_depth false self w.

Definition render_command (schedule : list RenderChoice) (any_key : Key) (render_depth : option N) self w : outcome unit * (Workspace * CliWorld) :=
  workspace_render schedule any_key render_depth true self w.

(** *** Creating and joining (commands/sphere/mod.rs) *)
Definition sphere_create (rng : bytes) (sphere_key : Key) (owner_key : string) self w
    : outcome (string * string) * (Workspace * CliWorld) :=
  let? _ := ensure_sphere_uninitialized self w keeping (self, w) in
  let '(r, m) := paths_initialize (cli_machine w) (ws_working_directory self) in
  let w := with_machine w m in
  let? sphere_paths := r keeping (self, w) in
  let b : builder :=
    using_key (reading_keys_from (at_storage_path (create_sphere sphere_builder_default) (sp_root sphere_paths)) (ws_key_storage self)) owner_key in
  let '(r, (databases, net)) :=
    sphere_build (Url := Url) walk_fuel body_fuel clock rng [] sphere_key EmptyString b (cli_databases w) (cli_net w) in
  let w := mkCli (cli_machine w) databases net in
  let? artifacts := r keeping (self, w) in
  let? mnemonic := artifacts_require_mnemonic artifacts keeping (self, w) in
  let sphere_identity := ctx_identity (context_of_artifacts artifacts) in
  let? self' := workspace_initialize sphere_paths self w keeping (self, w) in
  (Ok (sphere_identity, mnemonic), (self', w)).

(** ASCII blanks around what the user types are dropped. *)
Definition is_blank (a : ascii) : bool := bool_decide (a ∈ [" "; "009"; "010"; "011"; "012"; "013"]%char).

Fixpoint trim_start (s : string) : string :=
  match s with String a s' => if is_blank a then trim_start s' else s | EmptyString => s end.
Definition trim (s : string) : string := String.rev (trim_start (String.rev (trim_start s))).

(** [typed] is what is read if no authorization is given. *)
Definition sphere_join (schedule : list RenderChoice) (any_key : Key) (rng : nat -> nat -> nat -> bytes) (local_key : string)
    (authorization : option string) (typed sphere_identity gateway_url : string) (render_depth : option N) self w : outcome unit * (Workspace * CliWorld) :=
  let? _ := ensure_sphere_uninitialized self w keeping (self, w) in
  let? key := storage_require_key (Key := Key) (ws_key_storage self) local_key keeping (self, w) in
  let? _ := get_did key keeping (self, w) in
  let cid_string := default typed authorization in
  let? cid :=
    match cid_of_string (trim cid_string) with
    | Err _ => Err "Could not parse the authorization identity as a CID"
    | r => r
    end keeping (self, w) in
  let '(r, m) := paths_initialize (cli_machine w) (ws_working_directory self) in
  let w := with_machine w m in
  let? sphere_paths := r keeping (self, w) in
  let b : builder :=
    authorized_by (using_key (reading_keys_from (at_storage_path (join_sphere sphere_builder_default sphere_identity) (sp_root sphere_paths))
      (ws_key_storage self)) local_key) (Some (AuthCid cid)) in
  let '(r, (databases, net)) :=
    sphere_build (Url := Url) walk_fuel body_fuel clock [] [] any_key EmptyString b (cli_databases w) (cli_net w) in
  let w := mkCli (cli_machine w) databases net in
  let? artifacts := r keeping (self, w) in
  let path := resolve_path (layout_path (UnscopedLayout (sp_root sphere_paths))) in
  let '(r, ctx) := configure_gateway_url (context_of_artifacts artifacts) (Some gateway_url) in
  let? _ := r keeping (self, mkCli (cli_machine w) (<[path := ctx_db ctx]> (cli_databases w)) (cli_net w)) in
  let '(r, (ctx, net)) := sync_context rng (RecoverRetry 3) (cli_net w) ctx in
  let w := mkCli (cli_machine w) (<[path := ctx_db ctx]> (cli_databases w)) net in
  let? _ := r keeping (self, w) in
  let? self' := workspace_initialize sphere_paths self w keeping (self, w) in
  workspace_render schedule any_key render_depth true self' w.

(** *** Following (commands/sphere/follow.rs); [profile] is what the profile of the
    closest sphere says, [typed_did] and [typed_name] what the user types *)
Definition follow_context (rng : bytes) (name did : string) (record : option Ucan) ctx : outcome unit * context :=
  let '(r, ctx) := set_petname (Url := Url) supported_keys fuel walk_fuel clock ctx name (Some did) in
  let? _ := r keeping ctx in
  match record with
  | Some link_record =>
      let '(r, ctx) := default_save (Url := Url) clock rng ctx None in
      let? _ := r keeping ctx in
      let '(r, ctx) := set_petname_record (Url := Url) supported_keys fuel walk_fuel clock ctx name link_record in
      let? _ := r keeping ctx in (Ok tt, ctx)
  | None => (Ok tt, ctx)
  end.

Definition follow_add (schedule : list RenderChoice) (any_key : Key) (rng rng' : bytes) (profile : string -> Cid -> outcome (option string))
    (typed_did typed_name : string) (name did : option string) self w : outcome unit * (Workspace * CliWorld) :=
  let? _ := ensure_sphere_initialized self w keeping (self, w) in
  let '(r, (self, w)) := workspace_context any_key self w in
  let? ctx := r keeping (self, w) in
  let sphere_identity := ctx_identity ctx in
  let? closest_sphere_details := describe_closest_sphere None self w keeping (self, w) in
  let did :=
    match did, closest_sphere_details with
    | Some did, _ => did
    | None, Some (closest_sphere_identity, _, _) =>
        if bool_decide (closest_sphere_identity <> sphere_identity) then closest_sphere_identity else trim typed_did
    | None, None => trim typed_did
    end in
  let? name :=
    match name with
    | Some name => Ok name
    | None =>
        let? name :=
          match closest_sphere_details with
          | Some (closest_sphere_identity, closest_sphere_version, _) =>
              if bool_decide (closest_sphere_identity = did) then profile closest_sphere_identity closest_sphere_version else Ok None
          | None => Ok None
          end in
        Ok (default (trim typed_name) name)
    end keeping (self, w) in
  let record :=
    match closest_sphere_details with
    | Some (closest_sphere_identity, _, Some link_record) => if bool_decide (closest_sphere_identity = did) then Some link_record else None
    | _ => None
    end in
  let '(r, (self, w)) := on_context any_key (follow_context rng name did record) self w in
  let? _ := r keeping (self, w) in
  save_command schedule any_key rng' None self w.

Definition unfollow_all (names : list string) ctx : outcome unit * context :=
  for_each_st (fun name ctx => set_petname (Url := Url) supported_keys fuel walk_fuel clock ctx name None) names ctx.

Definition follow_remove (schedule : list RenderChoice) (any_key : Key) (rng : bytes) (by_name by_sphere_id : option string) self w
    : outcome unit * (Workspace * CliWorld) :=
  let? _ := ensure_sphere_initialized self w keeping (self, w) in
  let '(r, (self, w)) :=
    match by_name, by_sphere_id with
    | Some _, Some _ => (Err "Can only unfollow by name or by sphere ID, not both", (self, w))
    | None, None =>
        let? found := describe_closest_sphere None self w keeping (self, w) in
        let? (closest_sphere_identity, _, _) := ok_or "Couldn't resolve local sphere and/or version" found keeping (self, w) in
        let '(r, (self, w)) := workspace_context any_key self w in
        let? ctx := r keeping (self, w) in
        if bool_decide (closest_sphere_identity = ctx_identity ctx) then (Err "Unable to determine which sphere to unfollow", (self, w))
        else (Ok (Some closest_sphere_identity), (self, w))
    | _, _ => (Ok by_sphere_id, (self, w))
    end in
  let? by_sphere_id := r keeping (self, w) in
  let '(r, (self, w)) :=
    on_context any_key (fun ctx =>
      match by_name, by_sphere_id with
      | Some name, _ => unfollow_all [name] ctx
      | None, Some sphere_identity =>
          let '(r, ctx) := get_assigned_petnames walk_fuel ctx sphere_identity in
          let? names := r keeping ctx in
          if bool_decide (names = []) then (Err "Not following sphere", ctx) else unfollow_all names ctx
      | None, None => (Ok tt, ctx)
      end) self w in
  let? _ := r keeping (self, w) in
  save_command schedule any_key rng None self w.

Definition rename_context (rng : bytes) (from to : string) ctx : outcome unit * context :=
  let? current := get_petname ctx from keeping ctx in
  let? current_peer_identity := ok_or "The nickname is not assigned to any sphere you are following" current keeping ctx in
  if bool_decide (to = EmptyString) then (Err "The new name was empty or not specified; not renaming..", ctx)
  else
    let '(r, ctx) := set_petname (Url := Url) supported_keys fuel walk_fuel clock ctx from None in
    let? _ := r keeping ctx in
    let '(r, ctx) := set_petname (Url := Url) supported_keys fuel walk_fuel clock ctx to (Some current_peer_identity) in
    let? _ := r keeping ctx in
    let? record := get_petname_record ctx from keeping ctx in
    match record with
    | Some current_peer_link_record =>
        let '(r, ctx) := default_save (Url := Url) clock rng ctx None in
        let? _ := r keeping ctx in
        let '(r, ctx) := set_petname_record (Url := Url) supported_keys fuel walk_fuel clock ctx to current_peer_link_record in
        let? _ := r keeping ctx in (Ok tt, ctx)
    | None => (Ok tt, ctx)
    end.

Definition follow_rename (schedule : list RenderChoice) (any_key : Key) (rng rng' : bytes) (typed from : string) (to : option string) self w
    : outcome unit * (Workspace * CliWorld) :=
  let? _ := ensure_sphere_initialized self w keeping (self, w) in
  let '(r, (self, w)) := on_context any_key (rename_context rng from (default (trim typed) to)) self w in
  let? _ := r keeping (self, w) in
  save_command schedule any_key rng' None self w.

(** *** Authorizations (commands/sphere/auth.rs); [random_name] is the generated name *)
Definition auth_add (schedule : list RenderChoice) (any_key : Key) (rng rng' : bytes) (random_name did : string) (name : option string) self w
    : outcome Cid * (Workspace * CliWorld) :=
  let? _ := ensure_sphere_initialized self w keeping (self, w) in
  let '(r, (self, w)) :=
    on_context any_key (fun ctx =>
      let? current_authorization := get_authorization walk_fuel ctx did keeping ctx in
      match current_authorization with
      | Some authorization => ((let? _ := authorization_cid authorization in Err "Already authorized to access the sphere"), ctx)
      | None =>
          let '(r, ctx) := authorize (Url := Url) supported_keys fuel walk_fuel clock rng ctx (default random_name name) did in
          let? new_authorization := r keeping ctx in
          (authorization_cid new_authorization, ctx)
      end) self w in
  let? new_authorization_cid := r keeping (self, w) in
  let '(r, (self, w)) := save_command schedule any_key rng' None self w in
  let? _ := r keeping (self, w) in (Ok new_authorization_cid, (self, w)).

Definition auth_revoke (schedule : list RenderChoice) (any_key : Key) (rng : bytes) (name : string) self w : outcome unit * (Workspace * CliWorld) :=
  let? _ := ensure_sphere_initialized self w keeping (self, w) in
  let '(r, (self, w)) :=
    on_context any_key (fun ctx =>
      let? authorizations := get_authorizations_by_name walk_fuel ctx name keeping ctx in
      if bool_decide (authorizations = []) then (Err "There is no authorization of that name", ctx)
      else
        for_each_st (fun authorization ctx => revoke_authorization (Url := Url) supported_keys fuel walk_fuel clock ctx authorization) authorizations ctx)
      self w in
  let? _ := r keeping (self, w) in
  save_command schedule any_key rng None self w.

(** *** Configuration (commands/sphere/config.rs) *)
Inductive ConfigSetCommand : Type :=
  | SetGatewayUrl (url : string)
  | SetCounterpart (did : string).

Inductive ConfigGetCommand : Type := GetGatewayUrl | GetCounterpart.

Definition config_set (any_key : Key) (command : ConfigSetCommand) self w : outcome unit * (Workspace * CliWorld) :=
  let? _ := ensure_sphere_initialized self w keeping (self, w) in
  on_context any_key (fun ctx =>
    let '(r, db) :=
      match command with
      | SetGatewayUrl url => db_set_key (ctx_db ctx) GATEWAY_URL url
      | SetCounterpart did => db_set_key (ctx_db ctx) COUNTERPART did
      end in
    (r, with_db ctx db)) self w.

Definition config_get (any_key : Key) (command : ConfigGetCommand) self w : outcome (option string) * (Workspace * CliWorld) :=
  let? _ := ensure_sphere_initialized self w keeping (self, w) in
  on_context any_key (fun ctx =>
    (db_get_key (ctx_db ctx) match command with GetGatewayUrl => GATEWAY_URL | GetCounterpart => COUNTERPART end, ctx)) self w.
End workspace.
