(* ===== verification/WorkspaceProofs.v ===== *)
(** * Facts about workspaces

    What reading a workspace finds, how it is compared with the sphere, and what
    saving makes of the difference. *)
From stdpp Require Import base gmap list numbers strings pretty.
From Stdlib Require Import Ascii String.
From S2P Require Import Prelude BlockStore HamtNode HamtRep Hamt HamtSpec BTree SphereDb BodyChunk VersionedMap.
From S2P Require Import UcanCapability Ucan UcanChain Authority Memo Sphere SphereProofs SphereHistory SphereRebase Bundle BundleProofs.
From S2P Require Import SphereContext SphereContextProofs SphereEdits SphereWalker SphereWalkerProofs StoreTransfer.
From S2P Require Import Api Sync Gateway Routes KeyStorage Builder FileTree Render Workspace.
#[local] Open Scope list_scope.
#[local] Notation length := List.length (only parsing).

(** ** Paths *)
Lemma path_parent_snoc (p : PathBuf) n : path_parent (p ++ [n]) = p.
Proof. unfold path_parent. rewrite length_app. cbn. rewrite Nat.add_1_r. cbn [pred]. by rewrite take_app_length. Qed.

Lemma file_name_snoc (p : PathBuf) n : file_name (p ++ [n]) = file_name [n].
Proof. unfold file_name. by rewrite last_snoc. Qed.

Lemma diff_loop_under (base path : PathBuf) : diff_loop (base ++ path) base = Some path.
Proof. induction base as [|a base IH]; [by destruct path|]. cbn. by rewrite bool_decide_true. Qed.

Lemma diff_under (base path : PathBuf) : is_absolute base = true -> diff_paths (base ++ path) base = Some path.
Proof.
  intros Hb. unfold diff_paths. assert (is_absolute (base ++ path) = true) as ->.
  { destruct base as [|a base]; [done|]. exact Hb. }
  rewrite Hb. apply diff_loop_under.
Qed.

(** ** What a workspace holds *)
Inductive FsTree : Type :=
  | FsFile (b : bytes)
  | FsDir (entries : list (string * FsTree)).

Section files_of.
Context `{ToSlug}.

Definition prefix_of (rel : PathBuf) : option string := if bool_decide (rel = []) then None else Some (path_to_string rel).

(** The slug of the file at [rel], if it has one. *)
Definition slug_at (rel : PathBuf) : option string :=
  name ← file_stem rel;
  let name := match prefix_of (path_parent rel) with Some prefix => prefix +:+ "/" +:+ name | None => name end in
  slug ← to_slug name; if bool_decide (slug = name) then Some slug else None.

(** The files that have slugs, with their extensions and contents. *)
Fixpoint files_of (rel : PathBuf) (t : FsTree) : list (string * (option string * bytes)) :=
  match t with
  | FsFile b => match slug_at rel with Some slug => [(slug, (extension rel, b))] | None => [] end
  | FsDir es =>
      (fix go (es : list (string * FsTree)) :=
         match es with
         | [] => []
         | (n, t) :: es => (if ignore_pattern (path_to_string (rel ++ [n])) then [] else files_of (rel ++ [n]) t) ++ go es
         end) es
  end.

Fixpoint directories_of (rel : PathBuf) (t : FsTree) : nat :=
  match t with
  | FsFile _ => 0
  | FsDir es =>
      S ((fix go (es : list (string * FsTree)) :=
         match es with
         | [] => 0
         | (n, t) :: es => (if ignore_pattern (path_to_string (rel ++ [n])) then 0 else directories_of (rel ++ [n]) t) + go es
         end) es)
  end.

(** What one entry adds: a file, or a directory that is read later. *)
Definition entry_files (rel : PathBuf) (e : string * FsTree) : list (string * (option string * bytes)) :=
  if ignore_pattern (path_to_string (rel ++ [e.1])) then []
  else match e.2 with FsFile _ => files_of (rel ++ [e.1]) e.2 | FsDir _ => [] end.
Definition entry_directories (rel : PathBuf) (e : string * FsTree) : list (PathBuf * list (string * FsTree)) :=
  if ignore_pattern (path_to_string (rel ++ [e.1])) then []
  else match e.2 with FsFile _ => [] | FsDir es => [(rel ++ [e.1], es)] end.

Definition rest_files (pending : list (PathBuf * list (string * FsTree))) : list (string * (option string * bytes)) :=
  pending ≫= fun d => files_of d.1 (FsDir d.2).
Definition rest_directories (pending : list (PathBuf * list (string * FsTree))) : nat :=
  sum_list_with (fun d => directories_of d.1 (FsDir d.2)) pending.

Lemma rest_files_app l l' : rest_files (l ++ l') = rest_files l ++ rest_files l'.
Proof. apply bind_app. Qed.
Lemma rest_directories_app l l' : rest_directories (l ++ l') = rest_directories l + rest_directories l'.
Proof. apply sum_list_with_app. Qed.

Lemma files_of_dir rel es : files_of rel (FsDir es) ≡ₚ (es ≫= entry_files rel) ++ rest_files (es ≫= entry_directories rel).
Proof.
  induction es as [|[n t] es IH]; [done|].
  change (files_of rel (FsDir ((n, t) :: es))) with
    ((if ignore_pattern (path_to_string (rel ++ [n])) then [] else files_of (rel ++ [n]) t) ++ files_of rel (FsDir es)).
  rewrite IH. rewrite !bind_cons, rest_files_app. set (F := es ≫= _). set (D := es ≫= _). unfold entry_files, entry_directories. cbn [fst snd].
  destruct (ignore_pattern _); [done|]. destruct t as [b|es']; [by rewrite <- app_assoc|].
  unfold rest_files at 2. cbn [mbind list_bind fst snd]. rewrite app_nil_r. cbn [app]. rewrite !app_assoc. apply Permutation_app_tail.
  apply Permutation_app_comm.
Qed.

Lemma directories_of_dir rel es : directories_of rel (FsDir es) = S (rest_directories (es ≫= entry_directories rel)).
Proof.
  induction es as [|[n t] es IH]; [done|].
  change (directories_of rel (FsDir ((n, t) :: es))) with
    (S ((if ignore_pattern (path_to_string (rel ++ [n])) then 0 else directories_of (rel ++ [n]) t) + pred (directories_of rel (FsDir es)))).
  rewrite IH. cbn [pred]. rewrite bind_cons, rest_directories_app. set (D := es ≫= _). unfold entry_directories. cbn [fst snd].
  destruct (ignore_pattern _); [done|]. destruct t as [b|es']; [done|]. unfold rest_directories at 2. cbn [sum_list_with fst snd]. lia.
Qed.
End files_of.

(** The files of [m] under [root ++ rel]. *)
Inductive in_workspace (m : Machine) (root : PathBuf) : PathBuf -> FsTree -> Prop :=
  | in_file rel b : is_dir m (root ++ rel) = false -> read_file m (root ++ rel) = Ok b -> in_workspace m root rel (FsFile b)
  | in_dir rel es : is_dir m (root ++ rel) = true -> list_dir m (root ++ rel) = Ok ((fun n => (root ++ rel) ++ [n]) <$> es.*1) ->
      (forall n t, (n, t) ∈ es -> ignore_pattern (path_to_string (rel ++ [n])) = false -> in_workspace m root (rel ++ [n]) t) ->
      in_workspace m root rel (FsDir es).

(** ** Reading *)
Section reading.
Context {Cid : Type} `{Countable Cid} `{CidLaws Cid} `{MimeGuess} `{ToSlug} `{FastCdcLaws}.
Context `{!BlockCodec (BodyChunkIpld Cid)} `{!BlockCodecLaws Cid (BodyChunkIpld Cid)}.
Notation pending := (list (PathBuf * list (string * FsTree))).
Notation files := (list (string * (option string * bytes))).
Implicit Types (s : MemoryStore) (c : Cid) (fs : files).

(** A store of nothing but blocks in DAG-CBOR. *)
Definition cbor_memory s : Prop := forall k b, entries s !! k = Some b ->
  exists c links, k = cid_to_bytes c /\ c = derive_cid DAG_CBOR b /\ references (Cid := Cid) DAG_CBOR b = Ok links.

Lemma cbor_memory_sound s : cbor_memory s -> sound_memory (Cid := Cid) s.
Proof.
  intros Hs k b Hk. destruct (Hs k b Hk) as (c & links & -> & Hc & Hl). exists c. split; [done|]. split; cbn [fst snd].
  - rewrite Hc at 2. unfold derive_cid at 2. by rewrite cid_codec_new.
  - intros _. exists links. rewrite Hc. unfold derive_cid. by rewrite cid_codec_new.
Qed.

Lemma cbor_memory_save {T} `{!BlockCodec T} `{!BlockCodecLaws Cid T} s (x : T) : cbor_memory s -> cbor_memory (BlockStore.save (Cid := Cid) s x).2.
Proof.
  intros Hs. unfold BlockStore.save. destruct (block_of x) as [b| | |] eqn:Hb; cbn [try_with snd]; [|done..].
  destruct (block_references (Cid := Cid) x b Hb) as [links Hl]. intros k b' Hk.
  change (entries _) with (<[cid_to_bytes (derive_cid (Cid := Cid) DAG_CBOR b) := b]> (entries s)) in Hk.
  apply lookup_insert_Some in Hk as [[<- <-]|[_ Hk]]; [by exists (derive_cid DAG_CBOR b), links|by apply Hs].
Qed.

Lemma cbor_memory_bytes s b : cbor_memory s -> cbor_memory (store_bytes (Cid := Cid) b s).2.
Proof.
  intros Hs. unfold store_bytes. destruct (try_map _ _) as [chunks| | |]; cbn [try_with snd]; [|done..].
  assert (forall l (next : option Cid) s, cbor_memory s -> cbor_memory (store_chunks l next s).2) as Hch.
  { clear s Hs. induction l as [|x l IH]; intros next s Hs; [done|]. cbn [store_chunks]. pose proof (cbor_memory_save s (mkBodyChunk x next) Hs) as Hs1.
    destruct (BlockStore.save s _) as [[c| | |] s1]; cbn [try_with snd] in *; [by apply IH|done..]. }
  specialize (Hch (reverse chunks) None s Hs). destruct (store_chunks _ _ _) as [[next| | |] s1]; done.
Qed.

Definition type_of_extension (ext : option string) : ContentType.t :=
  match ext with
  | Some ext => match infer_content_type ext with Ok t => t | _ => ContentType.Bytes end
  | None => ContentType.Bytes
  end.

(** [ref] stands for a file with extension and contents [f]. *)
Definition describes s (ref : FileReference Cid) (f : option string * bytes) : Prop :=
  ref_extension ref = f.1 /\ ref_content_type ref = type_of_extension f.1 /\
  exists bs, chunks_at s (Some (ref_cid ref)) bs /\ mjoin bs = f.2 /\ length bs <= length f.2.

Lemma describes_mono s s' ref f : store_le (Cid := Cid) s s' -> describes s ref f -> describes s' ref f.
Proof. intros Hle (He & Ht & bs & Hc & Hb). split; [done|]. split; [done|]. exists bs. split; [by eapply chunks_at_mono|done]. Qed.

(** [content] has the files [fs], and no other. *)
Definition lists_files s (content : Content Cid) fs (g : gmap string (FileReference Cid)) : Prop :=
  vals_rep (matched content) g /\ ignored content = ∅ /\
  (forall slug f, (slug, f) ∈ fs -> exists ref, g !! slug = Some ref /\ describes s ref f) /\
  (forall slug, is_Some (g !! slug) -> slug ∈ fs.*1).

Lemma lists_files_insert s s' content fs g slug ref f : lists_files s content fs g -> store_le (Cid := Cid) s s' -> slug ∉ fs.*1 -> describes s' ref f ->
  lists_files s' (mkContent (btree_insert (matched content) slug ref) (ignored content)) (fs ++ [(slug, f)]) (<[slug := ref]> g).
Proof.
  intros (Hv & Hi & Hf & Hg) Hle Hn Hd. split; [by apply btree_insert_rep|]. split; [done|]. split.
  - intros slug' f' [Hin|Hin]%elem_of_app.
    + destruct (Hf _ _ Hin) as (ref' & Hr & Hd'). exists ref'. split; [|by eapply describes_mono].
      rewrite lookup_insert_ne; [done|]. intros <-. apply Hn. apply list_elem_of_fmap. by eexists (_, _).
    + apply list_elem_of_singleton in Hin as [= -> ->]. exists ref. by rewrite lookup_insert_eq.
  - intros slug'. rewrite fmap_app, elem_of_app. intros [r Hr]. apply lookup_insert_Some in Hr as [[<- _]|[_ Hr]].
    + right. cbn. by left.
    + left. apply Hg. by eexists.
Qed.

Context (m : Machine) (root : PathBuf) (Hroot : is_absolute root = true).
Notation in_workspace := (in_workspace m root).

Lemma in_dir_inv rel es : in_workspace rel (FsDir es) ->
  list_dir m (root ++ rel) = Ok ((fun n => (root ++ rel) ++ [n]) <$> es.*1) /\
  forall n t, (n, t) ∈ es -> ignore_pattern (path_to_string (rel ++ [n])) = false -> in_workspace (rel ++ [n]) t.
Proof. by inversion 1. Qed.

Definition stack_of (l : pending) : list (option string * list PathBuf) :=
  (fun d => (prefix_of d.1, (fun n => (root ++ d.1) ++ [n]) <$> d.2.*1)) <$> l.

Lemma read_entry_spec rel e content (l : pending) s fs g :
  (ignore_pattern (path_to_string (rel ++ [e.1])) = false -> in_workspace (rel ++ [e.1]) e.2) ->
  lists_files s content fs g -> cbor_memory s -> NoDup (fs ++ entry_files rel e).*1 -> Forall (fun f => f.2.2 <> []) (entry_files rel e) ->
  exists content' s' g', read_entry m root (prefix_of rel) ((root ++ rel) ++ [e.1]) (content, stack_of l, s) =
      (Ok tt, (content', stack_of (l ++ entry_directories rel e), s')) /\
    store_le (Cid := Cid) s s' /\ cbor_memory s' /\ lists_files s' content' (fs ++ entry_files rel e) g'.
Proof.
  destruct e as [n t]. cbn [fst snd]. intros Hin Hl Hs. unfold entry_files, entry_directories, read_entry. cbn [fst snd].
  rewrite <- app_assoc, diff_under by done. cbn [ok_or try_with]. destruct (ignore_pattern _).
  { intros _ _. exists content, s, g. by rewrite !app_nil_r. }
  specialize (Hin eq_refl). inversion Hin as [rel' b Hd Hr E E'|rel' es Hd Hls _ E E']; subst; clear Hin.
  - rewrite Hd, app_nil_r. cbn [files_of]. unfold slug_at, file_stem, extension. rewrite app_assoc, !(file_name_snoc (root ++ _)), <- app_assoc.
    rewrite !(file_name_snoc rel), path_parent_snoc. destruct (file_name [n]) as [name|]; cbn [fmap option_fmap option_map mbind option_bind].
    2:{ intros _ _. exists content, s, g. by rewrite app_nil_r. }
    destruct (to_slug _) as [slug|]; cbn [mbind option_bind]; [case_bool_decide|]; cycle 1.
    { intros _ _. exists content, s, g. by rewrite app_nil_r. }
    { intros _ _. exists content, s, g. by rewrite app_nil_r. }
    intros Hnd Hne. apply Forall_cons in Hne as [Hne _]. cbn [fst snd] in Hne.
    set (ext := (split_extension name).2) in *.
    assert (match ext with Some ext => infer_content_type ext | None => Ok ContentType.Bytes end = Ok (type_of_extension ext)) as -> by (by destruct ext).
    cbn [try_with]. rewrite Hr. cbn [try_with]. destruct (store_bytes_spec b s Hne) as (c & s' & bs & E & Hle & Hch & Hj & Hlen & _).
    pose proof (cbor_memory_bytes s b Hs) as Hs'. rewrite E in Hs' |- *. cbn [try_with snd] in *.
    eexists _, s', _. split; [done|]. split; [done|]. split; [done|]. eapply lists_files_insert; [done|done| |].
    + rewrite fmap_app in Hnd. apply NoDup_app in Hnd as (_ & Hnd & _). intros Hs2. apply (Hnd _ Hs2). cbn. by left.
    + split; [done|]. split; [done|]. by exists bs.
  - rewrite Hd. cbn [files_of]. rewrite Hls. cbn [try_with]. intros _ _. exists content, s, g. rewrite app_nil_r. split; [|done].
    unfold stack_of. rewrite fmap_app. cbn [fmap list_fmap fst snd]. do 4 f_equal. unfold prefix_of. rewrite bool_decide_false; [done|]. by destruct rel.
Qed.

Lemma read_entries_spec rel es : forall content (l : pending) s fs g,
  (forall n t, (n, t) ∈ es -> ignore_pattern (path_to_string (rel ++ [n])) = false -> in_workspace (rel ++ [n]) t) ->
  lists_files s content fs g -> cbor_memory s -> NoDup (fs ++ (es ≫= entry_files rel)).*1 -> Forall (fun f => f.2.2 <> []) (es ≫= entry_files rel) ->
  exists content' s' g', for_each_st (read_entry m root (prefix_of rel)) ((fun n => (root ++ rel) ++ [n]) <$> es.*1) (content, stack_of l, s) =
      (Ok tt, (content', stack_of (l ++ (es ≫= entry_directories rel)), s')) /\
    store_le (Cid := Cid) s s' /\ cbor_memory s' /\ lists_files s' content' (fs ++ (es ≫= entry_files rel)) g'.
Proof.
  induction es as [|[n t] es IH]; intros content l s fs g Hin Hl Hs.
  { intros _ _. exists content, s, g. cbn. by rewrite !app_nil_r. }
  rewrite !bind_cons, !app_assoc, Forall_app. intros Hnd [Hne1 Hne2].
  destruct (read_entry_spec rel (n, t) content l s fs g (Hin n t ltac:(by left)) Hl Hs) as (content1 & s1 & g1 & E1 & Hle1 & Hs1 & Hl1); [|done|].
  { rewrite fmap_app in Hnd. by apply NoDup_app in Hnd as [? _]. }
  destruct (IH content1 (l ++ entry_directories rel (n, t)) s1 (fs ++ entry_files rel (n, t)) g1) as (content2 & s2 & g2 & E2 & Hle2 & Hs2 & Hl2); try done.
  { intros n' t' Hin'. apply Hin. by right. }
  exists content2, s2, g2. cbn [fmap list_fmap for_each_st fst] in E1 |- *. rewrite E1. cbn [try_with]. rewrite E2. rewrite <- !app_assoc.
  split; [done|]. split; [by transitivity s1|]. split; [done|]. by rewrite app_assoc.
Qed.

Lemma read_directories_spec n : forall (l : pending) content s fs g,
  Forall (fun d => in_workspace d.1 (FsDir d.2)) l -> rest_directories l <= n -> lists_files s content fs g -> cbor_memory s ->
  NoDup (fs ++ rest_files l).*1 -> Forall (fun f => f.2.2 <> []) (rest_files l) ->
  exists content' s' fs' g', read_directories n m root (content, stack_of l, s) = (Ok content', s') /\
    store_le (Cid := Cid) s s' /\ cbor_memory s' /\ lists_files s' content' fs' g' /\ fs' ≡ₚ fs ++ rest_files l.
Proof.
  induction n as [|n IH]; intros l content s fs g Hin Hn Hl Hs Hnd Hne.
  - destruct l as [|[rel es] l]; [|unfold rest_directories in Hn; cbn in Hn; lia]. exists content, s, fs, g. cbn. by rewrite app_nil_r.
  - destruct (vec_pop_cases l) as [->|([rel es] & r & -> & _)].
    { exists content, s, fs, g. cbn. by rewrite app_nil_r. }
    rewrite rest_files_app, fmap_app in *. apply Forall_app in Hin as [Hin1 Hin2]. apply Forall_cons in Hin2 as [Hin2 _]. cbn [fst snd] in Hin2.
    apply in_dir_inv in Hin2 as [_ Hch]. rewrite rest_directories_app in Hn. unfold rest_directories at 2 in Hn.
    cbn [sum_list_with fst snd] in Hn. rewrite directories_of_dir in Hn. unfold rest_files at 2 in Hnd. unfold rest_files at 2 in Hne.
    cbn [mbind list_bind fst snd] in Hnd, Hne. rewrite app_nil_r in Hnd, Hne.
    pose proof (files_of_dir rel es) as Hp.
    assert (fs ++ rest_files r ++ files_of rel (FsDir es) ≡ₚ (fs ++ (es ≫= entry_files rel)) ++ rest_files (r ++ (es ≫= entry_directories rel))) as Hall.
    { rewrite Hp, rest_files_app, <- !app_assoc. apply Permutation_app_head. rewrite Permutation_app_comm, <- app_assoc. apply Permutation_app_head, Permutation_app_comm. }
    assert (NoDup ((fs ++ (es ≫= entry_files rel)) ++ rest_files (r ++ (es ≫= entry_directories rel))).*1) as Hnd'.
    { rewrite <- Hall. by rewrite !fmap_app in *. }
    apply Forall_app in Hne as [Hne1 Hne2]. rewrite Hp in Hne2. apply Forall_app in Hne2 as [Hne2 Hne3].
    destruct (read_entries_spec rel es content r s fs g Hch Hl Hs) as (content1 & s1 & g1 & E1 & Hle1 & Hs1 & Hl1); [|done|].
    { rewrite fmap_app in Hnd'. by apply NoDup_app in Hnd' as [? _]. }
    destruct (IH (r ++ (es ≫= entry_directories rel)) content1 s1 (fs ++ (es ≫= entry_files rel)) g1) as (content2 & s2 & fs2 & g2 & E2 & Hle2 & Hs2 & Hl2 & Hp2); try done.
    { apply Forall_app. split; [done|]. apply Forall_forall. intros [rel' es'] ([n' t'] & Hd' & Hin')%list_elem_of_bind.
      unfold entry_directories in Hd'. cbn [fst snd] in *. destruct (ignore_pattern _) eqn:Hi; [by apply elem_of_nil in Hd'|].
      destruct t' as [b'|es'']; [by apply elem_of_nil in Hd'|]. apply list_elem_of_singleton in Hd' as [= -> ->]. by apply Hch. }
    { rewrite rest_directories_app. lia. }
    { rewrite rest_files_app. by apply Forall_app. }
    exists content2, s2, fs2, g2. split; [|split; [by transitivity s1|]; split; [done|]; split; [done|]].
    + cbn [read_directories]. unfold stack_of. rewrite fmap_app. cbn [fmap list_fmap fst snd]. unfold vec_pop. rewrite reverse_snoc, reverse_involutive.
      fold (stack_of r). change (list_fmap _ _ ?f ?x) with (f <$> x) in *. rewrite E1. cbn [try_with]. exact E2.
    + rewrite Hp2, <- Hall. unfold rest_files at 3. cbn [mbind list_bind fst snd]. by rewrite app_nil_r.
Qed.

(** The files of a workspace, each with its slug. *)
Lemma read_all_spec n paths es : sp_root paths = root -> in_workspace [] (FsDir es) -> directories_of [] (FsDir es) <= n ->
  NoDup (files_of [] (FsDir es)).*1 -> Forall (fun f => f.2.2 <> []) (files_of [] (FsDir es)) ->
  exists content s g, read_all n m paths memory_store_empty = (Ok content, s) /\ cbor_memory s /\ lists_files s content (files_of [] (FsDir es)) g.
Proof.
  intros Hp Hin Hn Hnd Hne. unfold read_all. rewrite Hp.
  destruct (in_dir_inv _ _ Hin) as [Hls _]. rewrite app_nil_r in Hls. rewrite Hls. cbn [try_with].
  destruct (read_directories_spec n [([], es)] (mkContent [] ∅) memory_store_empty [] ∅) as (content & s & fs & g & E & _ & Hs & Hl & Hpm).
  - by constructor.
  - unfold rest_directories. cbn [sum_list_with fst snd]. lia.
  - split; [apply btree_empty_rep|]. split; [done|]. split; [by intros ? ? ?%elem_of_nil|]. intros slug. rewrite lookup_empty. by intros [].
  - intros k b Hk. cbn in Hk. by rewrite lookup_empty in Hk.
  - cbn [app]. unfold rest_files. cbn [mbind list_bind fst snd]. by rewrite app_nil_r.
  - unfold rest_files. cbn [mbind list_bind fst snd]. by rewrite app_nil_r.
  - exists content, s, g. unfold stack_of in E. cbn [fmap list_fmap fst snd] in E. rewrite app_nil_r in E. split; [exact E|]. split; [done|].
    unfold rest_files in Hpm. cbn [app mbind list_bind fst snd] in Hpm. rewrite app_nil_r in Hpm. destruct Hl as (Hv & Hi & Hf & Hg). split; [done|]. split; [done|]. split.
    + intros slug f. rewrite <- Hpm. apply Hf.
    + intros slug Hs'. rewrite <- Hpm. by apply Hg.
Qed.
End reading.

(** ** Comparing *)
Lemma vals_rep_keys_dom {V} (t : list (string * V)) g slug : vals_rep t g -> slug ∈ dom g <-> slug ∈ t.*1.
Proof.
  intros Hv. rewrite elem_of_dom, list_elem_of_fmap. split.
  - intros [v Hg]. exists (slug, v). split; [done|]. by apply (vals_rep_lookup _ _ _ _ Hv).
  - intros ([s v] & -> & Hin). exists v. by apply (vals_rep_lookup _ _ _ _ Hv).
Qed.

Section comparing.
Context {Cid : Type} `{Countable Cid} `{Unicode}.
Implicit Types (content : Content Cid) (g : gmap string (FileReference Cid)) (done items : list (string * SphereFile Cid)).

(** What became of the slugs that were looked at. *)
Definition file_body (file : SphereFile Cid) : Cid := body (file_memo file).

Record compared g done (changes : ContentChanges) (added : gset string) : Prop := {
  compared_new : exists gN, vals_rep (changes_new changes) gN /\ dom gN = added;
  compared_updated : exists gU, vals_rep (changes_updated changes) gU /\
    forall slug, slug ∈ dom gU <-> exists file ref, (slug, file) ∈ done /\ g !! slug = Some ref /\ file_body file <> ref_cid ref;
  compared_removed : exists gR, vals_rep (changes_removed changes) gR /\
    forall slug, slug ∈ dom gR <-> exists file, (slug, file) ∈ done /\ g !! slug = None;
  compared_unchanged : forall slug, slug ∈ changes_unchanged changes <->
    exists file ref, (slug, file) ∈ done /\ g !! slug = Some ref /\ file_body file = ref_cid ref;
}.

Ltac snoc_solver := setoid_rewrite elem_of_app; setoid_rewrite list_elem_of_singleton; naive_solver.

Lemma compare_file_spec content g done changes item : vals_rep (matched content) g -> ignored content = ∅ ->
  compared g done changes ∅ -> compared g (done ++ [item]) (compare_file content changes item) ∅.
Proof.
  intros Hv Hi [HN (gU & HU & EU) (gR & HR & ER) EX]. destruct item as [slug file], changes as [new updated removed unchanged].
  unfold compare_file. rewrite Hi, bool_decide_false by set_solver. rewrite (btree_get_rep _ _ slug Hv). cbn in *.
  destruct (g !! slug) as [ref|] eqn:Hg; [case_bool_decide as Hb|]; split; cbn; try done.
  - exists gU. split; [done|]. intros s. rewrite EU. clear -Hg Hb. snoc_solver.
  - exists gR. split; [done|]. intros s. rewrite ER. clear -Hg Hb. snoc_solver.
  - intros s. rewrite elem_of_union, elem_of_singleton, EX. clear -Hg Hb. snoc_solver.
  - eexists. split; [by apply btree_insert_rep|]. intros s. rewrite dom_insert, elem_of_union, elem_of_singleton, EU. clear -Hg Hb. snoc_solver.
  - exists gR. split; [done|]. intros s. rewrite ER. clear -Hg Hb. snoc_solver.
  - intros s. rewrite EX. clear -Hg Hb. snoc_solver.
  - exists gU. split; [done|]. intros s. rewrite EU. clear -Hg. snoc_solver.
  - eexists. split; [by apply btree_insert_rep|]. intros s. rewrite dom_insert, elem_of_union, elem_of_singleton, ER. clear -Hg. snoc_solver.
  - intros s. rewrite EX. clear -Hg. snoc_solver.
Qed.

Lemma compare_files_spec content g items : forall done changes, vals_rep (matched content) g -> ignored content = ∅ ->
  compared g done changes ∅ -> compared g (done ++ items) (foldl (compare_file content) changes items) ∅.
Proof.
  induction items as [|item items IH]; intros done changes Hv Hi Hc; [by rewrite app_nil_r|].
  change (item :: items) with ([item] ++ items) at 1. rewrite app_assoc. cbn [foldl]. apply IH; [done|done|]. by apply compare_file_spec.
Qed.

Lemma compare_new_spec g done changes added (entry : string * FileReference Cid) : compared g done changes added -> g !! entry.1 = Some entry.2 ->
  compared g done (compare_new changes entry) (if decide (entry.1 ∈ done.*1) then added else {[entry.1]} ∪ added).
Proof.
  intros [(gN & HN & EN) (gU & HU & EU) (gR & HR & ER) EX] Hg. destruct entry as [slug ref], changes as [new updated removed unchanged]. cbn [fst snd] in *.
  cbn in EN, EU, ER, EX, HN, HU, HR. unfold compare_new. rewrite (btree_get_rep _ _ slug HU), (btree_get_rep _ _ slug HR).
  assert ((bool_decide (is_Some (gU !! slug)) || bool_decide (is_Some (gR !! slug)) || bool_decide (slug ∈ unchanged)) = true <-> slug ∈ done.*1) as Hseen.
  { rewrite !orb_true_iff, !bool_decide_eq_true, <- !elem_of_dom, EU, ER, EX. rewrite list_elem_of_fmap. split.
    - intros [[(f & _ & Hf & _)|(f & Hf & _)]|(f & _ & Hf & _)]; by exists (slug, f).
    - intros ([slug' f] & -> & Hf). cbn [fst] in *. destruct (decide (file_body f = ref_cid ref)); [right|left; left]; eauto. }
  destruct (_ || _ || _); case_decide as Hd.
  - split; cbn; eauto.
  - destruct Hd. by apply Hseen.
  - apply Hseen in Hd. done.
  - split; cbn; eauto. eexists. split; [by apply btree_insert_rep|]. by rewrite dom_insert_L, EN.
Qed.

Lemma compare_news_spec g done entries : forall changes added, compared g done changes added -> (forall e, e ∈ entries -> g !! e.1 = Some e.2) ->
  compared g done (foldl compare_new changes entries) (list_to_set (filter (fun slug => slug ∉ done.*1) entries.*1) ∪ added).
Proof.
  induction entries as [|e entries IH]; intros changes added Hc He; [by rewrite fmap_nil, filter_nil, list_to_set_nil, union_empty_l_L|].
  cbn [foldl]. specialize (compare_new_spec g done changes added e Hc (He e ltac:(by left))) as Hc'.
  apply IH in Hc'; [|intros e' He'; apply He; by right].
  rewrite fmap_cons, filter_cons. case_decide as Hd; case_decide as Hd'; try done.
  rewrite list_to_set_cons, <- union_assoc_L, (union_comm_L {[e.1]}), <- union_assoc_L, (union_comm_L added). exact Hc'.
Qed.

(** The changes of a workspace. *)
Lemma changes_spec content g items : vals_rep (matched content) g -> ignored content = ∅ ->
  compared g items (foldl compare_new (foldl (compare_file content) (mkChanges [] [] [] ∅) items) (matched content)) (dom g ∖ list_to_set items.*1).
Proof.
  intros Hv Hi. assert (compared g [] (mkChanges [] [] [] ∅) ∅) as H0'.
  { split; cbn.
    - exists ∅. split; [apply btree_empty_rep|by rewrite dom_empty_L].
    - exists ∅. split; [apply btree_empty_rep|]. intros slug. rewrite dom_empty_L. split; [by intros ?%elem_of_empty|]. by intros (? & ? & ?%elem_of_nil & _).
    - exists ∅. split; [apply btree_empty_rep|]. intros slug. rewrite dom_empty_L. split; [by intros ?%elem_of_empty|]. by intros (? & ?%elem_of_nil & _).
    - intros slug. split; [by intros ?%elem_of_empty|]. by intros (? & ? & ?%elem_of_nil & _). }
  apply (compare_files_spec content g items [] _ Hv Hi) in H0'. cbn [app] in H0'.
  apply (compare_news_spec g items (matched content)) in H0'.
  - replace (dom g ∖ list_to_set items.*1) with ((list_to_set (filter (fun slug => slug ∉ items.*1) (matched content).*1) : gset string) ∪ ∅); [done|].
    apply set_eq. intros slug. rewrite union_empty_r_L, elem_of_list_to_set, list_elem_of_filter, elem_of_difference, elem_of_list_to_set, elem_of_dom.
    split.
    + intros [Hn ([s r] & -> & Hin)%list_elem_of_fmap]. split; [|done]. exists r. by apply (vals_rep_lookup _ _ _ _ Hv).
    + intros [[r Hr] Hn]. split; [done|]. apply list_elem_of_fmap. exists (slug, r). split; [done|]. by apply (vals_rep_lookup _ _ _ _ Hv).
  - intros [s r] Hin. cbn. by apply (vals_rep_lookup _ _ _ _ Hv).
Qed.
End comparing.

(** ** Saving *)

(** A CID names the same chunks in all stores. *)
Lemma chunks_agree {Cid S1 S2} `{CidLaws Cid} `{!BlockStore S1 Cid} `{!BlockStore S2 Cid} `{!BlockCodec (BodyChunkIpld Cid)} `{!BlockCodecLaws Cid (BodyChunkIpld Cid)}
    (s1 : S1) (s2 : S2) (next : option Cid) bs bs' : chunks_at s1 next bs -> chunks_at s2 next bs' -> bs = bs'.
Proof.
  intros Hb. revert bs'. induction Hb as [|c b next bs (x & Hx & Hc & _) _ IH]; intros bs' Hb'; [by inversion Hb'|].
  inversion Hb' as [|c' b' next' bs'' (x' & Hx' & Hc' & _) Hbs]; subst.
  assert (x = x') as <- by (by apply (derive_cid_inj (Cid := Cid) DAG_CBOR)). apply block_roundtrip in Hx, Hx'.
  rewrite Hx in Hx'. injection Hx' as <- <-. f_equal. by apply IH.
Qed.

Lemma chunks_at_carry {Cid S1 S2} `{CidLaws Cid} `{!BlockStore S1 Cid} `{!BlockStore S2 Cid} `{!BlockCodec (BodyChunkIpld Cid)} `{!BlockCodecLaws Cid (BodyChunkIpld Cid)}
    (s1 : S1) (s2 : S2) (next : option Cid) bs : carries (Cid := Cid) s1 s2 -> chunks_at s1 next bs -> chunks_at s2 next bs.
Proof. intros Hc. induction 1 as [|c b next bs Hb _ IH]; [constructor|]. eapply chunks_cons; [exact (stored_carry s1 s2 _ _ Hc Hb)|done]. Qed.

(** A list of changes with one change per key. *)
Lemma apply_ops_other {K V} `{Countable K} (m : gmap K V) (ops : list (MapOperation K V)) k :
  k ∉ change_key <$> ops -> apply_ops m ops !! k = m !! k.
Proof.
  revert m. induction ops as [|op ops IH]; intros m; [done|]. rewrite fmap_cons, not_elem_of_cons. intros [Hk Hops].
  rewrite apply_ops_cons, IH by done. rewrite apply_op_lookup. by rewrite decide_False.
Qed.

Lemma apply_ops_once {K V} `{Countable K} (m : gmap K V) (ops : list (MapOperation K V)) op : NoDup (change_key <$> ops) -> op ∈ ops ->
  apply_ops m ops !! change_key op = match op with Add _ v => Some v | Remove _ => None end.
Proof.
  revert m. induction ops as [|op' ops IH]; intros m; [by intros _ ?%elem_of_nil|]. rewrite fmap_cons, NoDup_cons. intros [Hn Hd] [->|Hin]%elem_of_cons.
  - rewrite apply_ops_cons, apply_ops_other by done. rewrite apply_op_lookup. by rewrite decide_True.
  - rewrite apply_ops_cons. by apply IH.
Qed.

Section saving.
Context {Key Url Cid B KV Net K Config : Type} `{UnicodeLaws}.
Context `{KeyMaterial Key} `{Bs58} `{Base64} `{DagJson UcanHeader} `{DagJson UcanPayload} `{UrlOps Url}.
Context `{Countable Cid} `{HashAlgorithmLaws string} `{HashAlgorithmLaws Cid} `{KeyOrderLaws Cid}.
Context `{CidLaws Cid} `{!CidDefault Cid} `{!BlockStore B Cid} `{!BlockStoreLaws B Cid} `{StoreLaws KV}.
Context `{!SphereCodecs Cid} `{!SphereCodecsLaws Cid} `{!EntryCodecs Cid} `{!EntryCodecsLaws Cid}.
Context `{!ContextCodecs Cid} `{!ContextCodecsLaws Cid} `{FastCdcLaws} `{!ApiCodecs Cid}.
Context `{!GatewayApi Net Key Cid} `{!Server Net Cid} `{!SessionServer Net Cid} `{Bip39} `{!Ed25519 Key} `{!KeyStorage K Key}.
Context `{!Platform (SphereDb B KV) Config} `{MimeGuess} `{ToSlug}.
Context (supported_keys : list (bytes * (bytes -> outcome Key))).
Context (fuel walk_fuel body_fuel directory_fuel : nat) (clock : N).
Context (P : string -> Prop) (Q : Cid -> Prop) (HP : collision_free P) (HQ : collision_free Q).
Notation SphereDb := (SphereDb B KV).
Notation version := (SphereRebase.version (Cid := Cid)).
Notation context := (SphereContext (Key := Key) (Cid := Cid) (B := B) (KV := KV)).
Notation ready := (ready (Url := Url) clock P Q).
Notation writable := (writable (Url := Url) supported_keys fuel walk_fuel clock).
#[local] Existing Instance block_ucan_store.
Implicit Types (db : SphereDb) (ctx : context) (x y : version) (net : Net).

(** Every file of [x] is there, and can be replaced. *)
Definition complete db x : Prop := forall slug cid, (v_content (ver_value x)).1 !! slug = Some cid ->
  exists memo ct bs, stored db cid memo /\ get_first_header memo CONTENT_TYPE = Some ct /\ chunks_at db (Some (body memo)) bs /\
    length bs <= length (mjoin bs) /\ (lamport_order memo < 2 ^ 32 - 1)%N.

Lemma complete_mono db db' x : store_le db db' -> complete db x -> complete db' x.
Proof.
  intros Hle Hx slug cid Hc. destruct (Hx slug cid Hc) as (memo & ct & bs & Hm & Hct & Hb & Hl & Ho). exists memo, ct, bs.
  split; [exact (stored_mono _ _ _ _ Hle Hm)|]. split; [done|]. split; [by eapply chunks_at_mono|done].
Qed.

Lemma complete_replaceable db x slug : complete db x -> replaceable db x slug.
Proof.
  intros Hx cid Hc. destruct (Hx slug cid Hc) as (memo & ct & bs & Hm & Hct & Hb & _ & Ho). inversion Hb as [|? ? ? ? Hs _]; subst.
  destruct (stored_authentic _ _ _ Hs) as (block & _ & _ & Ha). by exists memo, ct, block.
Qed.

Lemma complete_readable db x slug cid : complete db x -> (v_content (ver_value x)).1 !! slug = Some cid -> readable db cid.
Proof. intros Hx Hc. destruct (complete_replaceable db x slug Hx cid Hc) as (memo & ct & b & Hm & Hct & [Hg _] & _). by exists memo, ct, b. Qed.

(** *** The files of a version *)
Section items.
Context {C : Type} `{!HasSphereContext (Key := Key) (Cid := Cid) (B := B) (KV := KV) C}.
Implicit Types (c : C).

Definition opened db (it : string * SphereFile Cid) : Prop :=
  stored db (file_memo_version it.2) (file_memo it.2) /\ file_contents it.2 = decoder_stream body_fuel db (Some (body (file_memo it.2))).

Lemma content_loop_spec net (sphere : Cid) (l : list (string * Cid)) c : (forall slug cid, (slug, cid) ∈ l -> readable (context_db c) cid) ->
  exists items, content_loop body_fuel net sphere l (Ok tt) c = ((items, Ok tt), c) /\
    (fun it => (it.1, file_memo_version it.2)) <$> items = l /\ Forall (opened (context_db c)) items.
Proof.
  induction l as [|[slug cid] l IH]; intros Hl; [by exists []|].
  cbn [content_loop]. destruct (get_file_spec body_fuel net c sphere cid (Hl slug cid ltac:(by left))) as (file & -> & Hv & _ & _ & Hs & Hc).
  destruct IH as (items & -> & E & Hst); [intros slug' cid' Hin; apply (Hl slug'); by right|].
  exists ((slug, file) :: items). split; [done|]. split; [cbn; by rewrite Hv, E|]. constructor; [|done]. unfold opened. cbn [snd]. by rewrite Hv.
Qed.

Lemma content_items_spec net c x : SphereContext.version c = Ok (ver_cid x) -> holds (context_db c) x ->
  (forall slug cid, (v_content (ver_value x)).1 !! slug = Some cid -> readable (context_db c) cid) ->
  levels DEFAULT_BIT_WIDTH * size (v_content (ver_value x)).1 <= walk_fuel ->
  exists items, content_stream walk_fuel body_fuel net c = ((items, Ok tt), c) /\
    (fun it => (it.1, file_memo_version it.2)) <$> items ≡ₚ map_to_list (v_content (ver_value x)).1 /\ Forall (opened (context_db c)) items.
Proof.
  intros Hv Hx Hr Hf. unfold content_stream. rewrite Hv. cbn [outcome_bind].
  destruct (content_part_spec _ _ Hx) as (cid & Ec & Hp). rewrite Ec. cbn [outcome_bind].
  destruct (vm_into_stream_spec _ _ _ walk_fuel Hp Hf) as (entries & -> & Hperm). cbn [outcome_bind].
  destruct (content_loop_spec net (ver_cid x) entries c) as (items & E & Hmap & Hst).
  { intros slug cid' Hin. rewrite Hperm in Hin. apply elem_of_map_to_list in Hin. by eapply Hr. }
  exists items. split; [exact E|]. split; [by rewrite Hmap|done].
Qed.
End items.

Lemma content_stream_spec net ctx x : at_version ctx x ->
  (forall slug cid, (v_content (ver_value x)).1 !! slug = Some cid -> readable (ctx_db ctx) cid) ->
  levels DEFAULT_BIT_WIDTH * size (v_content (ver_value x)).1 <= walk_fuel ->
  exists items, content_stream walk_fuel body_fuel net ctx = ((items, Ok tt), ctx) /\
    (fun it => (it.1, file_memo_version it.2)) <$> items ≡ₚ map_to_list (v_content (ver_value x)).1 /\
    (forall it, it ∈ items -> stored (ctx_db ctx) (file_memo_version it.2) (file_memo it.2)).
Proof.
  intros Hat Hx Hf. destruct (content_items_spec (HasSphereContext0 := context_has_context) net ctx x (at_version_context _ _ Hat) (proj2 Hat) Hx Hf) as (items & E & Hp & Ho).
  exists items. split; [exact E|]. split; [done|]. intros it Hin. by apply (proj1 (Forall_forall _ _) Ho).
Qed.

(** *** The blocks of the bodies *)
Lemma save_blocks_spec (s : MemoryStore) db : cbor_memory (Cid := Cid) s ->
  exists db', for_each_st (save_block (Cid := Cid)) (map_to_list (entries s)) db = (Ok tt, db') /\ grown db db' /\ carries (Cid := Cid) s db'.
Proof.
  intros Hs. pose proof (cbor_memory_sound s Hs) as Hm.
  assert (forall l, (forall k b, (k, b) ∈ l -> entries s !! k = Some b) -> forall db, for_each_st (save_block (Cid := Cid)) l db =
    for_each_st (fun '(cid, block) => put_block_and_links cid block)
      (omap (fun kb => match cid_of_bytes kb.1 with Some c => Some (c, kb.2) | None => None end) l) db) as Hext.
  { induction l as [|[k b] l IH]; intros Hl db0; [done|]. destruct (Hs k b (Hl k b ltac:(by left))) as (c & links & -> & Hc & _).
    cbn [for_each_st omap list_omap fst snd save_block]. rewrite cid_of_to_bytes. cbn [ok_or try_with for_each_st].
    assert (cid_codec c = DAG_CBOR) as Hcodec by (rewrite Hc; apply cid_codec_new). unfold put_block_and_links. rewrite Hcodec, N.eqb_refl. cbn [put_block put_links db_block_store].
    destruct (db_put_block db0 c b) as [[[]| | |] db1]; cbn [try_with]; try done. destruct (db_put_links db1 DAG_CBOR c b) as [[[]| | |] db2]; cbn [try_with]; try done.
    apply IH. intros k' b' Hin. apply Hl. by right. }
  rewrite Hext by (intros k b; apply elem_of_map_to_list).
  destruct (put_block_stream_spec db (memory_blocks s) (Ok tt) (memory_blocks_sound s Hm)) as (db' & E & Hle & Hall).
  pose proof (names_put_block_stream (memory_blocks s, Ok tt) db) as Hn. rewrite E in Hn. cbn [snd] in Hn. unfold put_block_stream in E.
  fold (memory_blocks (Cid := Cid) s). destruct (for_each_st _ (memory_blocks s) db) as [[[]| | |] db1]; cbn [try_with] in E; try done. injection E as ->.
  exists db'. split; [done|]. split; [done|]. intros c b [Hg _]. apply Hall. by apply memory_blocks_spec.
Qed.

(** *** The changes, one by one *)

(** The author may write, also when there are more blocks. *)
Definition may_write ctx : Prop := forall db, grown (ctx_db ctx) db -> writable (with_db ctx db).

Lemma may_write_now ctx : may_write ctx -> writable ctx.
Proof. intros Hw. specialize (Hw (ctx_db ctx) ltac:(done)). by destruct ctx. Qed.

(** [ctx'] is [ctx] with blocks and changes added. *)
Record staged ctx db (mt : SphereMutation Cid) ctx' : Prop := {
  staged_db : ctx_db ctx' = db;
  staged_mutation : ctx_mutation ctx' = mt;
  staged_identity : ctx_identity ctx' = ctx_identity ctx;
  staged_author : ctx_author ctx' = ctx_author ctx;
  staged_write : may_write ctx';
}.

Lemma staged_edited ctx db mt ctx' db' mt' : staged ctx db mt ctx' -> staged ctx db' mt' (edited ctx' db' mt').
Proof. intros [H1' H2' H3' H4' H5']. split; [done|done|exact H3'|exact H4'|]. intros db'' _. by apply writable_cell. Qed.

(** [cid] is a memo of the file that [ref] stands for. *)
Definition linked db (cid : Cid) (ref : FileReference Cid) : Prop :=
  exists memo, stored db cid memo /\ body memo = ref_cid ref /\ get_first_header memo CONTENT_TYPE = Some (ContentType.deref (ref_content_type ref)).

Lemma linked_mono db db' cid ref : store_le db db' -> linked db cid ref -> linked db' cid ref.
Proof. intros Hle (memo & Hm & Hb). exists memo. split; [exact (stored_mono _ _ _ _ Hle Hm)|done]. Qed.

Definition adds db (g : gmap string (FileReference Cid)) (change : string * option ContentType.t) (op : MapOperation string Cid) : Prop :=
  exists cid ref, op = Add change.1 cid /\ g !! change.1 = Some ref /\ linked db cid ref.

Context (net : Net) (x : version) (content : Content Cid) (g : gmap string (FileReference Cid)).
Context (Hcontent : vals_rep (matched content) g) (Hnamed : g !! "" = None).
Notation with_changes := (foldl with_content).

Lemma save_files_spec l : forall ctx0 ctx db mt, staged ctx0 db mt ctx -> SphereContext.version ctx0 = Ok (ver_cid x) -> grown (ctx_db ctx0) db ->
  holds db x -> complete db x -> (forall change, change ∈ l -> is_Some (g !! change.1)) ->
  exists ctx' db' ops, for_each_st (save_file (Url := Url) supported_keys fuel walk_fuel body_fuel clock net content) l ctx = (Ok tt, ctx') /\
    staged ctx0 db' (with_changes mt ops) ctx' /\ grown db db' /\ Forall2 (adds db' g) l ops.
Proof.
  induction l as [|[slug ct] l IH]; intros ctx0 ctx db mt Hst Hver Hgr Hx Hc Hg.
  { exists ctx, db, []. split; [done|]. split; [done|]. by split. }
  destruct (Hg (slug, ct) ltac:(by left)) as [ref Href]. cbn [for_each_st fst] in *. unfold save_file at 1. cbn [fst].
  rewrite (btree_get_rep _ _ slug Hcontent), Href. set (headers := _ <$> ref_extension ref).
  pose proof Hst as [Edb Emt Eid Eau Hw].
  assert (SphereContext.version ctx = Ok (ver_cid x)) as Hver1.
  { rewrite <- Hver. cbn. unfold context_version. rewrite Eid, Edb. by apply same_names_require, Hgr. }
  destruct (link_spec (Url := Url) (HasSphereContext0 := context_has_context) supported_keys fuel walk_fuel body_fuel clock net ctx x slug
    (ContentType.deref (ref_content_type ref)) (ref_cid ref) headers) as (memo & cid & db1 & El & Hgr1 & Hm & Hb & Hct & _).
  - by apply may_write_now.
  - intros ->. by rewrite Hnamed in Href.
  - done.
  - change (context_db ctx) with (ctx_db ctx). by rewrite Edb.
  - change (context_db ctx) with (ctx_db ctx). rewrite Edb. by apply complete_replaceable.
  - rewrite El. cbn [try_with]. change (context_db ctx) with (ctx_db ctx) in Hgr1. change (ctx_mutation (sphere_context ctx)) with (ctx_mutation ctx) in *.
    rewrite Edb in Hgr1. rewrite Emt in *. destruct Hgr1 as [Hle1 Hn1].
    destruct (IH ctx0 (edited ctx db1 (with_content mt (Add slug cid))) db1 (with_content mt (Add slug cid))) as (ctx' & db' & ops & E & Hst' & Hgr' & Hops).
    + by eapply staged_edited.
    + done.
    + destruct Hgr as [Hle Hn]. split; [by transitivity db|by transitivity db].
    + exact (holds_mono _ _ _ Hle1 Hx).
    + by eapply complete_mono.
    + intros change Hin. apply Hg. by right.
    + exists ctx', db', (Add slug cid :: ops). split; [exact E|]. split; [done|]. split; [|constructor; [|done]].
      * destruct Hgr' as [Hle' Hn']. split; [by transitivity db1|by transitivity db1].
      * exists cid, ref. split; [done|]. split; [done|]. eapply linked_mono; [apply Hgr'|]. by exists memo.
Qed.

Lemma remove_files_spec l : forall ctx0 ctx db mt, staged ctx0 db mt ctx -> SphereContext.version ctx0 = Ok (ver_cid x) -> grown (ctx_db ctx0) db ->
  holds db x -> complete db x -> (forall change, change ∈ l -> is_Some ((v_content (ver_value x)).1 !! change.1)) ->
  exists ctx', for_each_st (remove_saved (Url := Url) supported_keys fuel walk_fuel body_fuel clock net) l ctx = (Ok tt, ctx') /\
    staged ctx0 db (with_changes mt (Remove <$> l.*1)) ctx'.
Proof.
  induction l as [|[slug ct] l IH]; intros ctx0 ctx db mt Hst Hver Hgr Hx Hc Hin.
  { by exists ctx. }
  destruct (Hin (slug, ct) ltac:(by left)) as [cid Hcid]. cbn [for_each_st fst] in *. unfold remove_saved at 1. cbn [fst].
  pose proof Hst as [Edb Emt Eid Eau Hw].
  assert (SphereContext.version ctx = Ok (ver_cid x)) as Hver1.
  { rewrite <- Hver. cbn. unfold context_version. rewrite Eid, Edb. by apply same_names_require, Hgr. }
  rewrite (remove_spec (Url := Url) (HasSphereContext0 := context_has_context) supported_keys fuel walk_fuel body_fuel clock net ctx x slug (may_write_now _ Hw) Hver1).
  - rewrite Hcid. cbn [try_with]. change (context_db ctx) with (ctx_db ctx). change (ctx_mutation (sphere_context ctx)) with (ctx_mutation ctx). rewrite Edb, Emt.
    destruct (IH ctx0 (edited ctx db (with_content mt (Remove slug))) db (with_content mt (Remove slug))) as (ctx' & E & Hst'); [|done..| |].
    + by eapply staged_edited.
    + intros change Hc'. apply Hin. by right.
    + by exists ctx'.
  - change (context_db ctx) with (ctx_db ctx). by rewrite Edb.
  - change (context_db ctx) with (ctx_db ctx). rewrite Edb. intros cid'. by apply complete_readable.
Qed.

Lemma with_changes_spec ops : forall (mt : SphereMutation Cid),
  mutation_changes (content_mutation (with_changes mt ops)) = mutation_changes (content_mutation mt) ++ ops /\
  mutation_did (content_mutation (with_changes mt ops)) = mutation_did (content_mutation mt) /\
  author_did (with_changes mt ops) = author_did mt /\ identities_mutation (with_changes mt ops) = identities_mutation mt /\
  delegations_mutation (with_changes mt ops) = delegations_mutation mt /\ revocations_mutation (with_changes mt ops) = revocations_mutation mt.
Proof.
  induction ops as [|op ops IH]; intros mt; [by rewrite app_nil_r|]. cbn [foldl]. destruct (IH (with_content mt op)) as (-> & -> & -> & -> & -> & ->).
  cbn. by rewrite <- app_assoc.
Qed.

Notation C := (v_content (ver_value x)).1.

(** [items] are the files of [x]. *)
Definition lists_version db (items : list (string * SphereFile Cid)) : Prop :=
  (fun it => (it.1, file_memo_version it.2)) <$> items ≡ₚ map_to_list C /\
  forall it, it ∈ items -> stored db (file_memo_version it.2) (file_memo it.2).

Lemma listed db items slug : lists_version db items ->
  (is_Some (C !! slug) <-> slug ∈ items.*1) /\
  forall file, (slug, file) ∈ items -> C !! slug = Some (file_memo_version file) /\ stored db (file_memo_version file) (file_memo file).
Proof.
  intros [Hp Hs].
  assert (forall file, (slug, file) ∈ items -> C !! slug = Some (file_memo_version file)) as Hin.
  { intros file Hin. apply elem_of_map_to_list. rewrite <- Hp. apply list_elem_of_fmap. by exists (slug, file). }
  split; [split|].
  - intros [cid Hc]. apply elem_of_map_to_list in Hc. rewrite <- Hp in Hc. apply list_elem_of_fmap in Hc as ([s file] & [= -> ->] & Hf).
    apply list_elem_of_fmap. by exists (s, file).
  - intros ([s file] & -> & Hf)%list_elem_of_fmap. eexists. by apply Hin.
  - intros file Hf. split; [by apply Hin|]. by apply (Hs (slug, file)).
Qed.

(** The files [C'] are those that [g] stands for. *)
Definition mirrors db (C' : gmap string Cid) : Prop :=
  (forall slug ref, g !! slug = Some ref -> exists cid memo, C' !! slug = Some cid /\ stored db cid memo /\ body memo = ref_cid ref /\
    (C !! slug = Some cid \/ get_first_header memo CONTENT_TYPE = Some (ContentType.deref (ref_content_type ref)))) /\
  forall slug, is_Some (C' !! slug) -> is_Some (g !! slug).

Lemma mirrors_mono db db' C' : store_le db db' -> mirrors db C' -> mirrors db' C'.
Proof.
  intros Hle [Hf Hg]. split; [|done]. intros slug ref Hr. destruct (Hf slug ref Hr) as (cid & memo & Hc & Hm & Hb). exists cid, memo.
  split; [done|]. split; [exact (stored_mono _ _ _ _ Hle Hm)|done].
Qed.

(** If all is unchanged, the files are mirrored already. *)
Lemma unchanged_mirrors db items changes : lists_version db items -> compared g items changes (dom g ∖ list_to_set items.*1) -> changes_empty changes = true ->
  mirrors db C.
Proof.
  intros Hl [(gN & HN & EN) (gU & HU & EU) (gR & HR & ER) EX]. unfold changes_empty. rewrite !andb_true_iff, !bool_decide_eq_true. intros [[Enew Eup] Erm].
  rewrite Enew in HN. rewrite Eup in HU. rewrite Erm in HR. destruct HN as [_ ->], HU as [_ ->], HR as [_ ->]. cbn [list_to_map foldr] in *. rewrite dom_empty_L in *.
  split.
  - intros slug ref Hr. destruct (listed db items slug Hl) as [Hk Hf].
    assert (slug ∈ items.*1) as Hin.
    { destruct (decide (slug ∈ items.*1)) as [|Hn]; [done|]. assert (slug ∈ dom g ∖ list_to_set items.*1) as Hin.
      { apply elem_of_difference. rewrite elem_of_dom, elem_of_list_to_set. by split; [eexists|]. }
      rewrite <- EN in Hin. by apply elem_of_empty in Hin. }
    apply list_elem_of_fmap in Hin as ([s file] & -> & Hin). cbn [fst] in *. destruct (Hf file Hin) as [Hc Hs].
    exists (file_memo_version file), (file_memo file). split; [done|]. split; [done|]. split; [|by left].
    destruct (decide (file_body file = ref_cid ref)) as [|Hb]; [done|]. exfalso. apply (not_elem_of_empty (C := gset string) s). apply EU. eauto.
  - intros slug Hs. destruct (listed db items slug Hl) as [Hk Hf]. apply Hk in Hs. apply list_elem_of_fmap in Hs as ([s file] & -> & Hin). cbn [fst] in *.
    destruct (g !! s) eqn:Hg; [done|]. exfalso. apply (not_elem_of_empty (C := gset string) s). apply ER. eauto.
Qed.

Lemma adds_keys db l ops : Forall2 (adds db g) l ops -> change_key <$> ops = l.*1.
Proof. induction 1 as [|change op l ops (cid & ref & -> & _) _ IH]; [done|]. cbn. by rewrite IH. Qed.

(** One change for every slug that differs. *)
Lemma changes_mirror db db0 items changes ops : lists_version db0 items -> store_le db0 db -> compared g items changes (dom g ∖ list_to_set items.*1) ->
  Forall2 (adds db g) (changes_new changes ++ changes_updated changes) ops ->
  let all := ops ++ (Remove <$> (changes_removed changes).*1) in
  mirrors db (apply_ops C all) /\ (forall op, op ∈ all -> is_Some (g !! change_key op) \/ is_Some (C !! change_key op)).
Proof.
  intros Hl Hle [(gN & HN & EN) (gU & HU & EU) (gR & HR & ER) EX] Hadds all. pose proof (adds_keys _ _ _ Hadds) as Hkeys. rewrite fmap_app in Hkeys.
  assert (forall slug, slug ∈ (changes_new changes).*1 <-> is_Some (g !! slug) /\ slug ∉ items.*1) as KN.
  { intros slug. rewrite <- (vals_rep_keys_dom _ _ slug HN), EN, elem_of_difference, elem_of_dom, elem_of_list_to_set. done. }
  assert (forall slug, slug ∈ (changes_updated changes).*1 <-> exists file ref, (slug, file) ∈ items /\ g !! slug = Some ref /\ file_body file <> ref_cid ref) as KU.
  { intros slug. by rewrite <- (vals_rep_keys_dom _ _ slug HU), EU. }
  assert (forall slug, slug ∈ (changes_removed changes).*1 <-> exists file, (slug, file) ∈ items /\ g !! slug = None) as KR.
  { intros slug. by rewrite <- (vals_rep_keys_dom _ _ slug HR), ER. }
  assert (forall slug file, (slug, file) ∈ items -> slug ∈ items.*1) as Hitem.
  { intros slug file Hin. apply list_elem_of_fmap. by exists (slug, file). }
  assert (change_key <$> all = (changes_new changes).*1 ++ (changes_updated changes).*1 ++ (changes_removed changes).*1) as Hall.
  { unfold all. rewrite fmap_app, Hkeys, <- app_assoc, <- list_fmap_compose. do 2 f_equal. change (id <$> (changes_removed changes).*1 = (changes_removed changes).*1). apply list_fmap_id. }
  assert (NoDup (change_key <$> all)) as Hnd.
  { rewrite Hall. apply NoDup_app. split; [by eapply vals_rep_keys|]. split; [|apply NoDup_app; split; [by eapply vals_rep_keys|]; split; [|by eapply vals_rep_keys]].
    - intros slug [_ Hn]%KN [(f & _ & Hin & _)%KU|(f & Hin & _)%KR]%elem_of_app; eauto.
    - intros slug (f & r & _ & Hr & _)%KU (f' & _ & Hr')%KR. congruence. }
  split; [split|].
  - intros slug ref Hr. destruct (decide (slug ∈ (changes_new changes).*1 ++ (changes_updated changes).*1)) as [Hin|Hout].
    + rewrite <- fmap_app in Hin. apply list_elem_of_fmap in Hin as (change & -> & Hin). apply list_elem_of_lookup in Hin as [i Hi].
      destruct (Forall2_lookup_l _ _ _ _ _ Hadds Hi) as (op & Hop & cid & ref' & -> & Hg' & memo & Hm & Hb & Hct).
      rewrite Hr in Hg'. injection Hg' as <-. apply list_elem_of_lookup_2 in Hop. exists cid, memo. split; [|by auto].
      apply (apply_ops_once C all (Add change.1 cid) Hnd). apply elem_of_app. by left.
    + rewrite not_elem_of_app, KN, KU in Hout. destruct Hout as [Hn Hu]. destruct (listed db0 items slug Hl) as [Hk Hf].
      assert (slug ∈ items.*1) as Hin by (destruct (decide (slug ∈ items.*1)); [done|]; exfalso; apply Hn; by split; [eexists|]).
      apply list_elem_of_fmap in Hin as ([s file] & -> & Hin). cbn [fst] in *. destruct (Hf file Hin) as [Hc Hs].
      exists (file_memo_version file), (file_memo file). split; [|split; [exact (stored_mono _ _ _ _ Hle Hs)|split; [|by left]]].
      * rewrite apply_ops_other; [done|]. rewrite Hall, !not_elem_of_app, KN, KU, KR. split; [done|]. split; [done|]. intros (f & _ & Hg'). congruence.
      * destruct (decide (file_body file = ref_cid ref)) as [|Hb]; [done|]. exfalso. apply Hu. eauto.
  - intros slug Hs. destruct (g !! slug) as [ref|] eqn:Hg; [done|]. exfalso. destruct (listed db0 items slug Hl) as [Hk Hf].
    destruct (decide (slug ∈ (changes_removed changes).*1)) as [Hin|Hout].
    + pose proof (apply_ops_once C all (Remove slug) Hnd) as E. cbn [change_key] in E. rewrite E in Hs; [by destruct Hs|].
      apply elem_of_app. right. apply list_elem_of_fmap. by exists slug.
    + rewrite apply_ops_other in Hs.
      * apply Hk in Hs. apply list_elem_of_fmap in Hs as ([s file] & -> & Hin). cbn [fst] in *. apply Hout, KR. eauto.
      * rewrite Hall, !not_elem_of_app, KN, KU. split; [by intros [[? ?] _]; congruence|]. split; [|done]. intros (f & r & _ & Hr & _). congruence.
  - intros op Hop. apply (list_elem_of_fmap_2 change_key) in Hop. rewrite Hall, !elem_of_app, KN, KU, KR in Hop.
    destruct Hop as [[? _]|[(f & r & _ & Hr & _)|(f & Hin & _)]]; [by left|left; by eexists|right]. destruct (listed db0 items (change_key op) Hl) as [Hk _]. apply Hk. eauto.
Qed.

Lemma stage_changes_spec ctx s items changes : at_version ctx x -> complete (ctx_db ctx) x -> may_write ctx -> cbor_memory (Cid := Cid) s ->
  lists_version (ctx_db ctx) items -> compared g items changes (dom g ∖ list_to_set items.*1) ->
  exists ctx' db' ops,
    stage_changes (Url := Url) supported_keys fuel walk_fuel body_fuel clock net (content, changes, s) ctx = (Ok tt, ctx') /\
    staged ctx db' (with_changes (ctx_mutation ctx) ops) ctx' /\ grown (ctx_db ctx) db' /\ carries (Cid := Cid) s db' /\ mirrors db' (apply_ops C ops) /\
    (forall op, op ∈ ops -> is_Some (g !! change_key op) \/ is_Some (C !! change_key op)) /\ (changes_empty changes = false -> ops <> []).
Proof.
  intros Hat Hc Hw Hs Hl Hcmp. unfold stage_changes. destruct (save_blocks_spec s (ctx_db ctx) Hs) as (db1 & -> & Hgr1 & Hcar). cbn [try_with].
  pose proof Hcmp as [(gN & HN & EN) (gU & HU & EU) (gR & HR & ER) EX]. pose proof Hgr1 as [Hle1 Hn1].
  destruct (save_files_spec (changes_new changes ++ changes_updated changes) ctx (with_db ctx db1) db1 (ctx_mutation ctx)) as (ctx2 & db2 & ops & -> & Hst2 & Hgr2 & Hops).
  - split; [done..|]. intros db' [Hle' Hn']. apply (Hw db'). split; [by transitivity db1|by transitivity db1].
  - by apply at_version_context.
  - done.
  - exact (holds_mono _ _ _ Hle1 (proj2 Hat)).
  - by eapply complete_mono.
  - intros change [Hin|Hin]%elem_of_app; apply (list_elem_of_fmap_2 fst) in Hin.
    + rewrite <- (vals_rep_keys_dom _ _ _ HN), EN, elem_of_difference, elem_of_dom in Hin. by destruct Hin.
    + rewrite <- (vals_rep_keys_dom _ _ _ HU), EU in Hin. destruct Hin as (f & r & _ & Hr & _). by eexists.
  - cbn [try_with]. destruct Hgr2 as [Hle2 Hn2]. assert (grown (ctx_db ctx) db2) as Hgr by (split; [by transitivity db1|by transitivity db1]).
    destruct (remove_files_spec (changes_removed changes) ctx ctx2 db2 _ Hst2) as (ctx3 & -> & Hst3).
    + by apply at_version_context.
    + done.
    + exact (holds_mono _ _ _ (proj1 Hgr) (proj2 Hat)).
    + eapply complete_mono; [apply Hgr|done].
    + intros change Hin. apply (list_elem_of_fmap_2 fst) in Hin. rewrite <- (vals_rep_keys_dom _ _ _ HR), ER in Hin. destruct Hin as (f & Hin & _).
      destruct (listed _ _ change.1 Hl) as [_ Hf]. destruct (Hf f Hin) as [-> _]. by eexists.
    + rewrite <- foldl_app in Hst3. destruct (changes_mirror db2 (ctx_db ctx) items changes ops Hl (proj1 Hgr) Hcmp Hops) as [Hmir Hin].
      eexists ctx3, db2, _. split; [done|]. split; [exact Hst3|]. split; [done|]. split; [|split; [done|split; [done|]]].
      * intros c b Ha. by apply Hle2, Hcar.
      * intros He Hnil. apply app_nil in Hnil as [-> Hrm]. apply Forall2_nil_inv_r in Hops. apply app_nil in Hops as [Hnew Hup].
        apply fmap_nil_inv, fmap_nil_inv in Hrm. unfold changes_empty in He. by rewrite Hnew, Hup, Hrm in He.
Qed.

(** A version that mirrors the files has no changes. *)
Lemma mirrored_no_changes db items changes (C' : gmap string Cid) : mirrors db C' ->
  (fun it => (it.1, file_memo_version it.2)) <$> items ≡ₚ map_to_list C' -> (forall it, it ∈ items -> stored db (file_memo_version it.2) (file_memo it.2)) ->
  compared g items changes (dom g ∖ list_to_set items.*1) -> changes_empty changes = true.
Proof.
  intros [Hf Hg] Hp Hs [(gN & HN & EN) (gU & HU & EU) (gR & HR & ER) EX].
  assert (forall slug file, (slug, file) ∈ items -> C' !! slug = Some (file_memo_version file)) as Hin.
  { intros slug file Hin. apply elem_of_map_to_list. rewrite <- Hp. apply list_elem_of_fmap. by exists (slug, file). }
  assert (forall {V} (t : list (string * V)) (g' : gmap string V), vals_rep t g' -> (forall slug, slug ∉ dom g') -> t = []) as Hnil.
  { intros V t g' Hv Hd. destruct t as [|[slug v] t]; [done|]. exfalso. apply (Hd slug). apply (vals_rep_keys_dom _ _ _ Hv). by left. }
  unfold changes_empty. rewrite (Hnil _ _ _ HN), (Hnil _ _ _ HU), (Hnil _ _ _ HR); [done|..].
  - intros slug (file & Hf' & Hn)%ER. destruct (Hg slug) as [ref Hr]; [eexists; by apply Hin|congruence].
  - intros slug (file & ref & Hf' & Hr & Hb)%EU. destruct (Hf slug ref Hr) as (cid & memo & Hc & Hm & Hbody & _). rewrite (Hin _ _ Hf') in Hc. injection Hc as <-.
    specialize (Hs (slug, file) Hf'). cbn [snd] in Hs. apply Hb. unfold file_body. by rewrite (stored_fun _ _ _ _ _ Hs Hm).
  - intros slug. rewrite EN, elem_of_difference, elem_of_dom, elem_of_list_to_set. intros [[ref Hr] Hn]. apply Hn.
    destruct (Hf slug ref Hr) as (cid & memo & Hc & _). apply elem_of_map_to_list in Hc. rewrite <- Hp in Hc. apply list_elem_of_fmap in Hc as ([s file] & [= -> ->] & Hin').
    apply list_elem_of_fmap. by exists (s, file).
Qed.

(** The files that are mirrored can be opened. *)
Lemma mirrors_files db (s : MemoryStore) files (C' : gmap string Cid) : mirrors db C' -> complete db x -> lists_files s content files g ->
  (carries (Cid := Cid) s db \/ C' = C) ->
  (forall slug f, (slug, f) ∈ files -> exists cid ct, C' !! slug = Some cid /\ file_at db cid ct f.2 /\
    (C !! slug = Some cid \/ ct = ContentType.deref (type_of_extension f.1))) /\
  (forall slug, is_Some (C' !! slug) -> slug ∈ files.*1).
Proof.
  intros [Hf Hg] Hc (Hv & _ & Hfiles & Hkeys) Hcar.
  split.
  - intros slug f Hin. destruct f as [ext b]. destruct (Hfiles _ _ Hin) as (ref & Hr & He & Ht & bs & Hbs & Hj & Hl). cbn [fst snd] in *. subst b.
    assert (g !! slug = Some ref) as Hr' by (destruct Hv, Hcontent; congruence).
    destruct (Hf slug ref Hr') as (cid & memo & Hcid & Hm & Hb & Hct). exists cid.
    destruct (decide (C !! slug = Some cid)) as [Hold|Hnew].
    + destruct (Hc slug cid Hold) as (memo' & ct & bs' & Hm' & Hct' & Hbs' & _). rewrite <- (stored_fun _ _ _ _ _ Hm Hm') in Hct', Hbs'. exists ct.
      rewrite Hb in Hbs'. rewrite <- (chunks_agree _ _ _ _ _ Hbs Hbs') in Hbs'. split; [done|]. split; [|by left]. exists memo, bs. rewrite Hb. auto.
    + destruct Hct as [|Hct]; [done|]. rewrite Ht in Hct. exists (ContentType.deref (type_of_extension ext)). split; [done|]. split; [|by right].
      exists memo, bs. rewrite Hb. split; [done|]. split; [done|].
      split; [|done]. destruct Hcar as [Hcar|E]; [exact (chunks_at_carry s db _ _ Hcar Hbs)|]. congruence.
  - intros slug Hs. apply Hg in Hs. apply Hkeys. destruct Hv, Hcontent. congruence.
Qed.
End saving.
