(* ===== verification/RenderProofs.v ===== *)
(** * Facts about rendering

    What the writer of the root sphere makes of one slug, where its links lead, what a
    buffer of changes comes to, and the files after a full rendering. *)
From stdpp Require Import base gmap list numbers strings pretty.
From Stdlib Require Import Ascii String.
From S2P Require Import Prelude BlockStore HamtNode HamtRep Hamt HamtSpec BTree SphereDb BodyChunk VersionedMap.
From S2P Require Import UcanCapability Ucan UcanProofs UcanChain Authority Memo Sphere SphereProofs SphereHistory SphereRebase Bundle BundleProofs.
From S2P Require Import SphereContext SphereContextProofs SphereEdits SphereWalker SphereWalkerProofs StoreTransfer.
From S2P Require Import Api Sync Gateway Routes KeyStorage Builder FileTree Render Workspace WorkspaceProofs.
#[local] Open Scope list_scope.
#[local] Notation length := List.length (only parsing).

(** ** Directories that are made and emptied *)
Section directories.
Implicit Types (m : Machine) (t : FileTree) (p q : PathBuf).

Lemma dir_at_parent t p name : dir_at t (p ++ [name]) -> p <> [] -> dir_at t p.
Proof.
  intros Hp Hne. assert (p = take (S (pred (length p))) (p ++ [name])) as ->; [|by apply dir_at_take].
  destruct p as [|x p]; [done|]. cbn [List.length pred]. symmetry. apply (take_app_length (x :: p)).
Qed.

Lemma prefix_take p q : p `prefix_of` q <-> take (length p) q = p.
Proof.
  split.
  - intros [k ->]. apply take_app_length.
  - intros E. exists (drop (length p) q). rewrite <- E at 1. symmetry. apply take_drop.
Qed.

Lemma dir_at_along t t' p : dir_at t p -> (forall q, q `prefix_of` p -> t !! q = Some Directory -> t' !! q = Some Directory) -> dir_at t' p.
Proof.
  intros Hp. induction Hp as [|p name Hp IH Hn Hd]; intros Ht; constructor; auto. apply IH. intros q Hq. apply Ht. by apply prefix_app_r.
Qed.

Lemma prefixes_snoc p name : prefixes (p ++ [name]) = prefixes p ++ [p ++ [name]].
Proof.
  unfold prefixes. rewrite length_app. cbn [List.length]. rewrite seq_app, fmap_app. f_equal.
  - apply list_fmap_ext. intros i n Hn. apply lookup_seq in Hn as [-> Hn]. rewrite take_app_le by lia. done.
  - cbn. f_equal. apply take_ge. rewrite length_app. cbn. lia.
Qed.

Lemma for_each_kept {A S} (f : A -> S -> outcome unit * S) l1 l2 s : Forall (fun x => f x s = (Ok tt, s)) l1 ->
  for_each_st f (l1 ++ l2) s = for_each_st f l2 s.
Proof. induction 1 as [|x l1 Hx _ IH]; [done|]. cbn [for_each_st app]. rewrite Hx. cbn [try_with]. exact IH. Qed.

Lemma make_dir_all_new m p name : dir_at (tree m) p -> plain_component name -> tree m !! (p ++ [name]) = None ->
  make_dir_all m (p ++ [name]) = (Ok tt, set_tree m (<[p ++ [name] := Directory]> (tree m))).
Proof.
  intros Hp Hn Hnone. unfold make_dir_all. rewrite prefixes_snoc, for_each_kept.
  - cbn [for_each_st]. assert (is_dir m (p ++ [name]) = false) as ->.
    { unfold is_dir, metadata. rewrite canonical_in by (done || by rewrite Hnone). cbn [outcome_bind]. by rewrite node_at_snoc, Hnone. }
    unfold make_dir. rewrite located_in by done. cbn [try_with]. by rewrite node_at_snoc, Hnone.
  - apply Forall_forall. intros q (n & -> & Hin)%list_elem_of_fmap. apply elem_of_seq in Hin. destruct n as [|n]; [lia|]. by rewrite is_dir_dir by by apply dir_at_take.
Qed.

(** The tree with an empty directory at [p]. *)
Definition emptied p t : FileTree := <[p := Directory]> (filter (fun kv : PathBuf * FileNode => take (length p) kv.1 <> p) t).

Lemma emptied_other p t q : ~ p `prefix_of` q -> emptied p t !! q = t !! q.
Proof.
  intros Hq. assert (p <> q) as Hne by (by intros ->; apply Hq). unfold emptied. rewrite lookup_insert_ne by done. rewrite prefix_take in Hq.
  rewrite map_lookup_filter. destruct (t !! q) as [node|]; [|done]. cbn. by case_guard.
Qed.

Lemma emptied_below p t q : p `prefix_of` q -> q <> p -> emptied p t !! q = None.
Proof.
  intros Hq%prefix_take Hne. unfold emptied. rewrite lookup_insert_ne by done. rewrite map_lookup_filter. destruct (t !! q) as [node|]; [|done].
  cbn. by case_guard.
Qed.

Lemma directory_emptied m p name : dir_at (tree m) (p ++ [name]) -> p <> [] -> plain_component name ->
  remove_dir_all m (p ++ [name]) = (Ok tt, set_tree m (filter (fun kv : PathBuf * FileNode => take (length (p ++ [name])) kv.1 <> p ++ [name]) (tree m))) /\
  make_dir_all (set_tree m (filter (fun kv : PathBuf * FileNode => take (length (p ++ [name])) kv.1 <> p ++ [name]) (tree m))) (p ++ [name]) =
    (Ok tt, set_tree m (emptied (p ++ [name]) (tree m))).
Proof.
  intros Hd Hne Hn. assert (dir_at (tree m) p) as Hp by by apply (dir_at_parent (tree m) p name).
  split.
  - unfold remove_dir_all. rewrite located_in by done. cbn [try_with]. by rewrite node_at_dir.
  - rewrite make_dir_all_new; [done| |done|].
    + apply (dir_at_along _ _ _ Hp). intros q Hq Hqd. cbn [tree set_tree]. rewrite map_lookup_filter, Hqd. cbn. rewrite option_guard_True; [done|].
      intros E. apply (f_equal List.length) in E. apply prefix_length in Hq. rewrite length_take, length_app in E. cbn in E. lia.
    + cbn [tree set_tree]. rewrite map_lookup_filter. destruct (_ !! _); [|done]. cbn. rewrite option_guard_False; [done|]. intros Hg. apply Hg. apply firstn_all.
Qed.
End directories.

(** ** Rendered files *)
Section root_writer.
Context {Cid : Type} `{Unicode} `{Base64} `{MimeGuess} `{Countable Cid} `{CidOps Cid}.
Implicit Types (m : Machine) (file : SphereFile Cid) (slug f : string).

Lemma one_plain name : one_component name -> plain_component name.
Proof. intros Hn. split; [by apply one_not_root|]. by destruct Hn as (_ & _ & ? & _). Qed.

(** A workspace two directories below [top], with the directory of slug links. *)
Record workspace_at m (top : PathBuf) (a b : string) : Prop := {
  workspace_dir : dir_at (tree m) (top ++ [a; b]);
  workspace_slugs : dir_at (tree m) (top ++ [a; b; ".sphere"; "slugs"]);
  workspace_current : current_dir m = top ++ [a; b];
}.

Context (top : PathBuf) (a b : string) (slug f : string) (force : bool).
Context (Htop : top <> []) (Hf : plain_component f) (Hslug : one_component (b64_encode (as_bytes slug))).
Notation root := (top ++ [a; b]).
Notation slugs := (top ++ [a; b; ".sphere"; "slugs"]).
Notation paths := (paths_new root).
Notation writer := (mkWriter (Cid := Cid) (Root force) paths).
Notation link_name := (b64_encode (as_bytes slug)).

Lemma slug_path_in : slug_path paths slug = Ok (slugs ++ [link_name]).
Proof.
  unfold slug_path, paths_new, SPHERE_DIRECTORY, SLUGS_DIRECTORY. cbn [sp_slugs]. rewrite (join_one root ".sphere") by done. rewrite (join_one (root ++ [".sphere"]) "slugs") by done.
  rewrite join_one by done. by rewrite <- !app_assoc.
Qed.

Lemma plain_sphere : plain_component ".sphere" /\ plain_component "slugs".
Proof. done. Qed.

(** The directories around the link of a slug. *)
Lemma workspace_dirs t : dir_at t slugs -> dir_at t (root ++ [".sphere"]) /\ dir_at t root /\ dir_at t (top ++ [a]) /\ dir_at t top.
Proof.
  intros Hd. assert (dir_at t (root ++ [".sphere"])) as H1'.
  { apply (dir_at_parent _ _ "slugs"); [by rewrite <- !app_assoc|by destruct top]. }
  assert (dir_at t root) as H2' by (apply (dir_at_parent _ _ ".sphere"); [done|by destruct top]).
  assert (dir_at t (top ++ [a])) as H3' by (apply (dir_at_parent _ _ b); [by rewrite <- app_assoc|by destruct top]).
  split; [done|]. split; [done|]. split; [done|]. by apply (dir_at_parent _ _ a).
Qed.

(** Where the link of a slug leads, from where it is and from the workspace. *)
Lemma link_from_slugs links t : dir_at t slugs -> follow links t slugs [".."; ".."; f] = follow links t root [f].
Proof.
  intros Hd. destruct (workspace_dirs t Hd) as (H1' & H2' & _). replace slugs with ((root ++ [".sphere"]) ++ ["slugs"]) in * by (by rewrite <- !app_assoc).
  rewrite (follow_up links t _ "slugs") by (done || by destruct top). apply follow_up; [done|by destruct top].
Qed.

Lemma link_from_root links t rest : dir_at t slugs -> follow links t root (".." :: ".." :: rest) = follow links t top rest.
Proof.
  intros Hd. destruct (workspace_dirs t Hd) as (_ & H2' & H3' & _). replace root with ((top ++ [a]) ++ [b]) in * by (by rewrite <- !app_assoc).
  rewrite (follow_up links t _ b) by (done || by destruct top). by apply follow_up.
Qed.

Lemma parent_of_snoc (p : PathBuf) name : name <> "/" -> parent_of (p ++ [name]) = Some p.
Proof. intros Hn. unfold parent_of. rewrite last_snoc, bool_decide_false by done. by rewrite path_parent_snoc. Qed.

Lemma diff_loop_strip (base p q : PathBuf) : diff_loop (base ++ p) (base ++ q) = diff_loop p q.
Proof. induction base as [|x base IH]; [done|]. cbn. by rewrite bool_decide_true. Qed.

Lemma dir_at_absolute t p : dir_at t p -> exists q, p = "/" :: q.
Proof. induction 1 as [|p name _ [q ->] _ _]; [by eexists|]. by exists (q ++ [name]). Qed.

Context (Hfs : f <> ".sphere").

(** What is at the place of a file: nothing, or a file. *)
Definition file_or_nothing (t : FileTree) (p : PathBuf) : Prop := t !! p = None \/ exists old, t !! p = Some (Regular old).

Lemma file_or_nothing_no_link t p target : file_or_nothing t p -> t !! p <> Some (Symlink target).
Proof. by intros [->|[old ->]]. Qed.

Lemma diff_to_file t : dir_at t slugs -> diff_paths (root ++ [f]) slugs = Some [".."; ".."; f].
Proof.
  intros Hd. destruct (workspace_dirs t Hd) as (_ & H2' & _). destruct (dir_at_absolute _ _ Hd) as [q Hq], (dir_at_absolute _ _ H2') as [q' Hq'].
  unfold diff_paths. rewrite Hq' at 1. rewrite Hq at 1. cbn [is_absolute app Bool.eqb].
  replace slugs with (root ++ [".sphere"; "slugs"]) by (by rewrite <- !app_assoc). rewrite diff_loop_strip. cbn. by rewrite bool_decide_false.
Qed.

(** The link of a slug is made, or made again. *)
Lemma symlink_slug_spec m : dir_at (tree m) slugs -> (exists old, tree m !! (root ++ [f]) = Some (Regular old)) ->
  tree m !! (slugs ++ [link_name]) = None \/ tree m !! (slugs ++ [link_name]) = Some (Symlink [".."; ".."; f]) ->
  symlink_slug writer slug (root ++ [f]) m = (Ok tt, set_tree m (<[slugs ++ [link_name] := Symlink [".."; ".."; f]]> (tree m))).
Proof.
  intros Hd [old Hold] Hlink. destruct (workspace_dirs _ Hd) as (_ & Hroot & _). pose proof (one_plain _ Hslug) as Hplain. unfold symlink_slug. cbn [writer_paths].
  rewrite slug_path_in. cbn [try_with]. rewrite parent_of_snoc by apply Hplain. cbn [ok_or try_with]. rewrite (diff_to_file _ Hd). cbn [ok_or try_with].
  destruct Hlink as [Hn|Hl].
  - assert (file_exists m (slugs ++ [link_name]) = false) as ->.
    { unfold file_exists, metadata. rewrite canonical_in by (done || by rewrite Hn). cbn [outcome_bind]. by rewrite node_at_snoc, Hn. }
    cbn [try_with]. unfold make_symlink. rewrite located_in by done. cbn [try_with]. by rewrite node_at_snoc, Hn.
  - assert (file_exists m (slugs ++ [link_name]) = true) as ->.
    { unfold file_exists, metadata, canonical. rewrite follow_dir by done. unfold MAX_LINKS. rewrite (follow_link 39 _ _ _ [".."; ".."; f]) by done.
      rewrite link_from_slugs by done. rewrite follow_end by (done || by rewrite Hold). cbn [outcome_bind]. by rewrite node_at_snoc, Hold. }
    unfold remove_file. rewrite located_in by done. cbn [try_with]. rewrite node_at_snoc, Hl by done. cbn [try_with].
    assert (dir_at (delete (slugs ++ [link_name]) (tree m)) slugs) as Hd'.
    { apply (dir_at_mono _ _ _ Hd). intros q Hq. rewrite lookup_delete_ne; [done|]. intros <-. congruence. }
    unfold make_symlink. rewrite located_in by done. cbn [try_with tree set_tree]. rewrite node_at_snoc, lookup_delete_eq by done. by rewrite insert_delete_eq.
Qed.

(** A file is written only where there is none. *)
Lemma write_content_spec m file : dir_at (tree m) slugs -> root_hard_link paths slug (file_memo file) = Ok (root ++ [f]) ->
  file_or_nothing (tree m) (root ++ [f]) -> (file_contents file).2 = Ok tt ->
  tree m !! (slugs ++ [link_name]) = None \/ tree m !! (slugs ++ [link_name]) = Some (Symlink [".."; ".."; f]) ->
  write_content writer slug file m = (Ok tt, set_tree m (<[slugs ++ [link_name] := Symlink [".."; ".."; f]]>
    (match tree m !! (root ++ [f]) with Some _ => tree m | None => <[root ++ [f] := Regular (mjoin (file_contents file).1)]> (tree m) end))).
Proof.
  intros Hd Hpath Hfile Hend Hlink. destruct (workspace_dirs _ Hd) as (_ & Hroot & _). unfold write_content, content_hard_link. cbn [is_root_writer writer_kind writer_paths].
  rewrite Hpath. cbn [try_with]. rewrite parent_of_snoc by apply Hf. cbn [ok_or try_with]. rewrite make_dir_all_dir by done. cbn [try_with].
  pose proof (fun target => file_or_nothing_no_link _ _ target Hfile) as Hnl.
  unfold try_exists, metadata. rewrite canonical_in by done. cbn [outcome_bind]. rewrite node_at_snoc by done.
  destruct Hfile as [Hn|[old Hold]]; [rewrite Hn|rewrite Hold]; cbn [ok_or].
  - rewrite bool_decide_true by done. unfold write_file. rewrite canonical_in by done. cbn [try_with]. rewrite node_at_snoc, Hn, Hend by done. cbn [try_with].
    set (t1 := <[root ++ [f] := _]> (tree m)). assert (slugs ++ [link_name] <> root ++ [f]) as Hne.
    { intros E. apply (f_equal List.length) in E. rewrite !length_app in E. cbn in E. lia. }
    rewrite symlink_slug_spec; cbn [tree set_tree].
    + done.
    + apply (dir_at_mono _ _ _ Hd). intros q Hq. unfold t1. rewrite lookup_insert_ne; [done|]. intros <-. congruence.
    + eexists. unfold t1. by rewrite lookup_insert_eq.
    + unfold t1. by rewrite lookup_insert_ne.
  - rewrite symlink_slug_spec; [done|done|by eexists|done].
Qed.

(** The link is followed from the workspace, not from where it is. *)
Lemma remove_content_spec m : workspace_at m top a b -> tree m !! (slugs ++ [link_name]) = Some (Symlink [".."; ".."; f]) -> file_or_nothing (tree m) (top ++ [f]) ->
  remove_content writer slug m = (Ok tt, set_tree m (delete (top ++ [f]) (delete (slugs ++ [link_name]) (tree m)))).
Proof.
  intros [_ Hd Hcur] Hlink Hfile. pose proof (one_plain _ Hslug) as Hplain. unfold remove_content. cbn [is_root_writer writer_kind writer_paths].
  rewrite slug_path_in. cbn [try_with]. unfold read_link, symlink_metadata. rewrite located_in by done. cbn [outcome_bind]. rewrite node_at_snoc, Hlink by done.
  cbn [ok_or outcome_bind try_with]. unfold remove_file at 1. rewrite located_in by done. cbn [try_with]. rewrite node_at_snoc, Hlink by done.
  set (t1 := delete (slugs ++ [link_name]) (tree m)). assert (slugs ++ [link_name] <> top ++ [f]) as Hne.
  { intros E. apply (f_equal List.length) in E. rewrite !length_app in E. cbn in E. lia. }
  assert (t1 !! (top ++ [f]) = tree m !! (top ++ [f])) as Et by (unfold t1; by rewrite lookup_delete_ne).
  assert (dir_at t1 slugs) as Hd1.
  { apply (dir_at_mono _ _ _ Hd). intros q Hq. unfold t1. rewrite lookup_delete_ne; [done|]. intros <-. congruence. }
  destruct (workspace_dirs _ Hd1) as (_ & _ & _ & Htop1).
  assert (file_exists (set_tree m t1) [".."; ".."; f] = bool_decide (is_Some (tree m !! (top ++ [f])))) as ->.
  { unfold file_exists, metadata, canonical. cbn [tree set_tree current_dir]. rewrite Hcur, link_from_root by done.
    rewrite follow_end by (done || (intros target; rewrite Et; by apply file_or_nothing_no_link)). cbn [outcome_bind]. rewrite node_at_snoc, Et by done.
    destruct (tree m !! (top ++ [f])); cbn [ok_or]; symmetry; [by apply bool_decide_true|apply bool_decide_false; by intros []]. }
  destruct Hfile as [Hn|[old Hold]].
  - rewrite Hn, bool_decide_false by (by intros []). rewrite (delete_id t1) by (by rewrite Et). done.
  - rewrite Hold, bool_decide_true by (by eexists). unfold remove_file, located, file_name. cbn [last]. destruct Hf as [Hf1 Hf2]. rewrite !bool_decide_false by done. cbn [orb].
    unfold path_parent. cbn [List.length pred take]. unfold canonical. cbn [tree set_tree current_dir]. rewrite Hcur, link_from_root, follow_nil by done. cbn [outcome_bind].
    rewrite node_at_dir by done. cbn [try_with]. rewrite node_at_snoc, Et, Hold by done. done.
Qed.
End root_writer.

(** ** A full rendering *)
Section full_rendering.
Context {Cid : Type} `{Unicode} `{Base64Laws} `{MimeGuess} `{Countable Cid} `{CidOps Cid}.
Notation item := (string * SphereFile Cid)%type.
Implicit Types (m : Machine) (it : item) (l : list item) (t : FileTree).

(** The name that a slug with a memo has as a file. *)
Definition rendered_name (slug : string) (memo : MemoIpld Cid) : string :=
  match infer_file_extension memo with Ok (Some extension) => slug +:+ "." +:+ extension | _ => slug end.

Definition link_of (slug : string) : string := b64_encode (as_bytes slug).

Context (top : PathBuf) (a b : string) (force : bool) (Htop : top <> []).
Notation root := (top ++ [a; b]).
Notation slugs := (top ++ [a; b; ".sphere"; "slugs"]).
Notation paths := (paths_new root).
Notation writer := (mkWriter (Cid := Cid) (Root force) paths).

Definition item_name it : string := rendered_name it.1 (file_memo it.2).
Definition file_place it : PathBuf := root ++ [item_name it].
Definition link_place it : PathBuf := slugs ++ [link_of it.1].
Definition item_contents it : bytes := mjoin (file_contents it.2).1.

(** The file of the item is one of the workspace's own directory. *)
Record placeable it : Prop := {
  placeable_name : one_component (item_name it);
  placeable_outside : item_name it <> ".sphere";
  placeable_link : one_component (link_of it.1);
  placeable_contents : (file_contents it.2).2 = Ok tt;
}.

Lemma item_path it : placeable it -> root_hard_link paths it.1 (file_memo it.2) = Ok (file_place it).
Proof.
  intros [Hn _ _ _]. unfold root_hard_link, file_path, file_place, item_name, rendered_name in *. cbn [sp_root paths_new] in *.
  assert (exists e, infer_file_extension (file_memo it.2) = Ok e) as [e Ee] by (unfold infer_file_extension; destruct (get_first_header _ _); by eexists).
  rewrite Ee in *. cbn [outcome_bind]. by destruct e; rewrite join_one.
Qed.

(** [t] is [t0] with the items of [l], and nothing else changed. *)
Record rendered t0 l t : Prop := {
  rendered_file it : it ∈ l -> t !! file_place it = Some (Regular (item_contents it));
  rendered_link it : it ∈ l -> t !! link_place it = Some (Symlink [".."; ".."; item_name it]);
  rendered_other p : (forall it, it ∈ l -> p <> file_place it /\ p <> link_place it) -> t !! p = t0 !! p;
}.

Lemma places_apart it it' : link_place it <> file_place it'.
Proof. intros E. apply (f_equal List.length) in E. unfold link_place, file_place in E. rewrite !length_app in E. cbn in E. lia. Qed.

(** The items have names and slugs of their own, where there was nothing. *)
Record distinct t0 l : Prop := {
  distinct_names : NoDup (item_name <$> l);
  distinct_slugs : NoDup l.*1;
  distinct_new it : it ∈ l -> t0 !! file_place it = None /\ t0 !! link_place it = None;
}.

Lemma link_place_inj it it' : link_place it = link_place it' -> it.1 = it'.1.
Proof.
  unfold link_place. intros [_ [= E]]%app_inj_2; [|done]. apply (f_equal b64_decode) in E. unfold link_of in E. rewrite !b64_roundtrip in E.
  injection E as E. by apply as_bytes_inj.
Qed.

Lemma file_place_inj it it' : file_place it = file_place it' -> item_name it = item_name it'.
Proof. unfold file_place. by intros [_ [= E]]%app_inj_2. Qed.

Lemma distinct_head t0 it l it' : distinct t0 (it :: l) -> it' ∈ l -> file_place it <> file_place it' /\ link_place it <> link_place it'.
Proof.
  intros [Hn Hs _] Hin. cbn in Hn, Hs. apply NoDup_cons in Hn as [Hn _], Hs as [Hs _]. split.
  - intros E%file_place_inj. apply Hn. rewrite E. by apply list_elem_of_fmap_2.
  - intros E%link_place_inj. apply Hs. rewrite E. by apply list_elem_of_fmap_2.
Qed.

Lemma distinct_perm t0 l l' : l ≡ₚ l' -> distinct t0 l -> distinct t0 l'.
Proof. intros Hp [Hn Hs Ht]. split; [by rewrite <- Hp|by rewrite <- Hp|]. intros it. rewrite <- Hp. apply Ht. Qed.

Lemma rendered_perm t0 l l' t : l ≡ₚ l' -> rendered t0 l t -> rendered t0 l' t.
Proof.
  intros Hp [Hf Hl Ho]. split; intros it; rewrite <- ?Hp; [by apply Hf|by apply Hl|]. intros Hn. apply Ho. intros it'. rewrite Hp. apply Hn.
Qed.

Lemma rendered_write t0 l it m : dir_at t0 slugs -> rendered t0 l (tree m) -> placeable it -> distinct t0 (it :: l) ->
  exists t, write_content writer it.1 it.2 m = (Ok tt, set_tree m t) /\ rendered t0 (it :: l) t.
Proof.
  intros Hd [Hf Hl Ho] Hit Hdis. pose proof (item_path it Hit) as Hpath. pose proof Hit as [Hname Hout Hlink Hend].
  assert (forall p, (forall it', it' ∈ l -> p <> file_place it' /\ p <> link_place it') -> t0 !! p = None -> tree m !! p = None) as Hfree.
  { intros p Hp Hp0. by rewrite Ho. }
  destruct (distinct_new _ _ Hdis it) as [Hn1 Hn2]; [by left|].
  assert (tree m !! file_place it = None) as E1.
  { apply Hfree; [|done]. intros it' Hin. split; [by apply (distinct_head _ _ _ _ Hdis Hin)|]. intros E. by apply (places_apart it' it). }
  assert (tree m !! link_place it = None) as E2.
  { apply Hfree; [|done]. intros it' Hin. split; [apply places_apart|by apply (distinct_head _ _ _ _ Hdis Hin)]. }
  assert (dir_at (tree m) slugs) as Hdm.
  { eapply dir_at_mono; [exact Hd|]. intros q Hq. rewrite Ho; [done|]. intros it' Hin. destruct (distinct_new _ _ Hdis it') as [Ha Hb]; [by right|].
    split; intros ->; congruence. }
  eexists. split.
  { apply (write_content_spec top a b it.1 (item_name it) force Htop (one_plain _ Hname) Hlink Hout m it.2 Hdm Hpath); [by left|done|by left]. }
  fold (file_place it) (link_of it.1) (link_place it). rewrite E1. split.
  - intros it' [->|Hin]%elem_of_cons; [by rewrite lookup_insert_ne by apply places_apart; rewrite lookup_insert_eq|].
    rewrite !lookup_insert_ne; [by apply Hf| |apply places_apart]. by apply (distinct_head _ _ _ _ Hdis Hin).
  - intros it' [->|Hin]%elem_of_cons; [by rewrite lookup_insert_eq|]. rewrite !lookup_insert_ne; [by apply Hl| |by apply (distinct_head _ _ _ _ Hdis Hin)].
    intros E. by apply (places_apart it' it).
  - intros p Hp. destruct (Hp it) as [Hp1 Hp2]; [by left|]. rewrite !lookup_insert_ne by done. apply Ho. intros it' Hin. apply Hp. by right.
Qed.

Lemma rendered_writes t0 : dir_at t0 slugs -> forall l' l m, rendered t0 l (tree m) -> Forall placeable l' -> distinct t0 (l' ++ l) ->
  exists t, foldl (fun m kv => (write_content writer kv.1 kv.2 m).2) m l' = set_tree m t /\ rendered t0 (l' ++ l) t.
Proof.
  intros Hd. induction l' as [|it l' IH]; intros l m Hr Hp Hdis.
  { exists (tree m). split; [by destruct m|done]. }
  apply Forall_cons in Hp as [Hit Hp]. destruct (rendered_write t0 l it m Hd Hr Hit) as (t & E & Hr1).
  { destruct Hdis as [Hn Hs Ht]. rewrite fmap_app in Hn, Hs. cbn in Hn, Hs. apply NoDup_cons in Hn as [Hn Hn'], Hs as [Hs Hs'].
    apply NoDup_app in Hn' as (_ & _ & Hn'), Hs' as (_ & _ & Hs').
    split; [cbn; apply NoDup_cons; split; [set_solver|done]..|]. intros it'. rewrite elem_of_cons. intros Hin. apply Ht. rewrite elem_of_app, elem_of_cons. naive_solver. }
  cbn [foldl]. rewrite E. cbn [snd]. destruct (IH (it :: l) (set_tree m t)) as (t' & E' & Hr2); [done|done| |].
  { eapply distinct_perm; [|exact Hdis]. apply Permutation_middle. }
  exists t'. split; [exact E'|]. eapply rendered_perm; [|exact Hr2]. symmetry. apply Permutation_middle.
Qed.

(** Everything that was buffered, but not written. *)
Definition waiting (buffer : ChangeBuffer (SphereFile Cid)) : list item := map_to_list (buffer_added buffer).

Lemma flush_content_spec t0 l buffer m : dir_at t0 slugs -> rendered t0 l (tree m) -> Forall placeable (waiting buffer) -> distinct t0 (waiting buffer ++ l) ->
  buffer_removed buffer = ∅ -> exists t, flush_content writer buffer m = (buffer_new (buffer_capacity buffer), set_tree m t) /\ rendered t0 (waiting buffer ++ l) t.
Proof.
  intros Hd Hr Hp Hdis Hrem. destruct (rendered_writes t0 Hd (waiting buffer) l m Hr Hp Hdis) as (t & E & Hr').
  exists t. split; [|done]. unfold flush_content, flush_with, buffer_take. fold (waiting buffer). rewrite E, Hrem, elements_empty. done.
Qed.

Lemma waiting_add buffer it : it.1 ∉ (waiting buffer).*1 ->
  waiting (mkBuffer (buffer_capacity buffer) (<[it.1 := it.2]> (buffer_added buffer)) (buffer_removed buffer ∖ {[it.1]})) ≡ₚ it :: waiting buffer /\
  size (<[it.1 := it.2]> (buffer_added buffer)) = S (size (buffer_added buffer)).
Proof.
  intros Hn. assert (buffer_added buffer !! it.1 = None) as E.
  { destruct (_ !! _) as [v|] eqn:E; [|done]. destruct Hn. apply list_elem_of_fmap. exists (it.1, v). split; [done|]. by apply elem_of_map_to_list. }
  split; [|by apply map_size_insert_None]. unfold waiting. cbn [buffer_added]. destruct it. by apply map_to_list_insert.
Qed.

(** The loop of a full rendering, which writes whenever the buffer is full. *)
Lemma content_loop_rendered t0 : dir_at t0 slugs -> forall l' l buffer m, rendered t0 l (tree m) -> Forall placeable (l' ++ waiting buffer) ->
  distinct t0 (l' ++ waiting buffer ++ l) -> buffer_removed buffer = ∅ -> size (buffer_added buffer) < buffer_capacity buffer ->
  exists l2 buffer2 t2,
    for_each_st (fun it '(buffer, m) => buffer_change (flush_content writer) (buffer_add buffer it.1 it.2) m) l' (buffer, m) = (Ok tt, (buffer2, set_tree m t2)) /\
    rendered t0 l2 t2 /\ waiting buffer2 ++ l2 ≡ₚ l' ++ waiting buffer ++ l /\ Forall placeable (waiting buffer2) /\ buffer_removed buffer2 = ∅.
Proof.
  intros Hd. induction l' as [|it l' IH]; intros l buffer m Hr Hp Hdis Hrem Hcap.
  { exists l, buffer, (tree m). cbn [app] in *. split; [by destruct m|done]. }
  cbn [app] in Hp, Hdis. apply Forall_cons in Hp as [Hit Hp]. cbn [for_each_st]. unfold buffer_change at 1, buffer_add, assert_not_full, buffer_is_full at 1.
  assert ((buffer_capacity buffer <=? size (buffer_added buffer) + size (buffer_removed buffer)) = false) as ->.
  { apply Nat.leb_gt. rewrite Hrem, size_empty. lia. }
  cbn [try_with]. destruct (waiting_add buffer it) as [Hw Hsz].
  { destruct Hdis as [_ Hs _]. cbn in Hs. apply NoDup_cons in Hs as [Hs _]. rewrite !fmap_app in Hs. set_solver. }
  set (buffer1 := mkBuffer _ _ _) in *. assert (buffer_removed buffer1 = ∅) as Hrem1 by (cbn; rewrite Hrem; set_solver).
  assert (Forall placeable (waiting buffer1)) as Hp1. { rewrite Hw. constructor; [done|]. by apply Forall_app in Hp as [_ ?]. }
  assert (distinct t0 (l' ++ waiting buffer1 ++ l)) as Hdis1.
  { eapply distinct_perm; [|exact Hdis]. rewrite Hw. cbn. apply Permutation_middle. }
  unfold buffer_is_full. cbn [buffer_capacity buffer1]. destruct (_ <=? _) eqn:Hfull.
  - destruct (flush_content_spec t0 l buffer1 m Hd Hr Hp1) as (t1 & -> & Hr1); [|done|].
    { destruct Hdis1 as [Hn Hs Ht]. rewrite fmap_app in Hn, Hs. apply NoDup_app in Hn as (_ & _ & Hn), Hs as (_ & _ & Hs). split; [done..|].
      intros it' Hin. apply Ht. apply elem_of_app. by right. }
    cbn [buffer_capacity buffer1].
    destruct (IH (waiting buffer1 ++ l) (buffer_new (buffer_capacity buffer)) (set_tree m t1)) as (l2 & buffer2 & t2 & E & Hr2 & Hperm & Hrest); try done.
    + unfold waiting at 1. cbn [buffer_added buffer_new]. rewrite map_to_list_empty, app_nil_r. by apply Forall_app in Hp as [? _].
    + cbn [buffer_added buffer_capacity buffer_new]. rewrite map_size_empty. lia.
    + exists l2, buffer2, t2. split; [exact E|]. split; [done|]. split; [|done]. rewrite Hperm. unfold waiting at 1. cbn [buffer_added buffer_new].
      rewrite map_to_list_empty, Hw. cbn. by rewrite <- Permutation_middle.
  - destruct (IH l buffer1 m) as (l2 & buffer2 & t2 & E & Hr2 & Hperm & Hrest); try done.
    + apply Forall_app. split; [by apply Forall_app in Hp as [? _]|done].
    + apply Nat.leb_gt in Hfull. change (buffer_removed buffer1) with (buffer_removed buffer ∖ {[it.1]}) in *. cbn in Hfull |- *. lia.
    + exists l2, buffer2, t2. split; [exact E|]. split; [done|]. split; [|done]. rewrite Hperm, Hw. cbn. by rewrite <- Permutation_middle.
Qed.
End full_rendering.
