(* ===== verification/Dht.v ===== *)
(** * A node of the distributed hash table

    Model of [noosphere-ns/src/dht]: the requests and responses (rpc.rs, types.rs,
    errors.rs), the node that sends requests (node.rs) and the processor that answers
    them (processor.rs), a loop that takes one message, one event of the network or
    one tick of a timer at a time.

    The swarm is that of [libp2p]: its operations, and which events it emits, are
    parameters ([SwarmOps]); [SwarmLaws] is what its documentation says of them, with
    the configuration of swarm.rs.  A message is answered through a channel of its
    own; here it has a number, and the processor keeps the answers that it has sent. *)
From stdpp Require Import base gmap list numbers strings.
From Stdlib Require Import String.
From S2P Require Import Prelude BlockStore.
#[local] Open Scope list_scope.
#[local] Notation length := List.length (only parsing).

(** ** Types (types.rs) *)
Record NetworkInfo := mkNetworkInfo { num_peers : N; num_connections : N; num_pending : N; num_established : N }.

Record DhtRecord := mkDhtRecord { record_key : bytes; record_value : option bytes }.

(** ** Requests and responses (rpc.rs) *)
Inductive DhtRequest (Addr : Type) : Type :=
  | AddPeers (peers : list Addr)
  | StartListening (address : Addr)
  | StopListening
  | Bootstrap
  | GetAddresses (external : bool)
  | GetPeers
  | GetNetworkInfo
  | GetRecord (key : bytes)
  | PutRecord (key value : bytes) (quorum : N)
  | StartProviding (key : bytes)
  | GetProviders (key : bytes).
Arguments AddPeers {Addr} peers.
Arguments StartListening {Addr} address.
Arguments StopListening {Addr}.
Arguments Bootstrap {Addr}.
Arguments GetAddresses {Addr} external.
Arguments GetPeers {Addr}.
Arguments GetNetworkInfo {Addr}.
Arguments GetRecord {Addr} key.
Arguments PutRecord {Addr} key value quorum.
Arguments StartProviding {Addr} key.
Arguments GetProviders {Addr} key.

Inductive DhtResponse (Peer Addr : Type) : Type :=
  | Success
  | Address (address : Addr)
  | GotAddresses (addresses : list Addr)
  | GotNetworkInfo (info : NetworkInfo)
  | GotPeers (peers : list Peer)
  | GotRecord (record : DhtRecord)
  | DidPutRecord (key : bytes)
  | GotProviders (providers : list Peer).
Arguments Success {Peer Addr}.
Arguments Address {Peer Addr} address.
Arguments GotAddresses {Peer Addr} addresses.
Arguments GotNetworkInfo {Peer Addr} info.
Arguments GotPeers {Peer Addr} peers.
Arguments GotRecord {Peer Addr} record.
Arguments DidPutRecord {Peer Addr} key.
Arguments GotProviders {Peer Addr} providers.

(** ** Errors (errors.rs); those of [libp2p] are kept as text. *)
Inductive DhtError : Type :=
  | DhtMessageError (message : string)
  | IO (kind : string)
  | ValidationError (value : bytes)
  | LibP2PTransportError (error : string)
  | LibP2PStorageError (error : string)
  | LibP2PGetRecordError (error : string)
  | LibP2PBootstrapError (error : string)
  | LibP2PPutRecordError (error : string)
  | LibP2PAddProviderError (error : string)
  | LibP2PGetProvidersError (error : string)
  | NotConnected
  | NoKnownPeers.

(** ** The swarm *)
Record Record_ := mkRecord { kad_key : bytes; kad_value : bytes }.

Inductive Quorum : Type := QuorumOne | QuorumN (n : positive).

Inductive GetRecordError : Type := NotFound (key : bytes) | GetRecordOther (error : string).

Inductive QueryResult (Peer : Type) : Type :=
  | FoundRecord (record : Record_)
  | RecordsFinished
  | GetRecordFailed (error : GetRecordError)
  | PutRecordOk (key : bytes)
  | PutRecordFailed (error : string)
  | StartProvidingOk
  | StartProvidingFailed (error : string)
  | FoundProviders (providers : list Peer)
  | ProvidersFinished
  | GetProvidersFailed (error : string)
  | OtherResult.
Arguments FoundRecord {Peer} record.
Arguments RecordsFinished {Peer}.
Arguments GetRecordFailed {Peer} error.
Arguments PutRecordOk {Peer} key.
Arguments PutRecordFailed {Peer} error.
Arguments StartProvidingOk {Peer}.
Arguments StartProvidingFailed {Peer} error.
Arguments FoundProviders {Peer} providers.
Arguments ProvidersFinished {Peer}.
Arguments GetProvidersFailed {Peer} error.
Arguments OtherResult {Peer}.

(** The events of a swarm; those that are not handled are [OtherEvent]. *)
Inductive DhtSwarmEvent (Peer Addr Listener Query : Type) : Type :=
  | NewListenAddr (listener : Listener) (address : Addr)
  | OutboundQueryProgressed (id : Query) (result : QueryResult Peer)
  | InboundPutRecord (source : Peer) (record : option Record_)
  | IdentifyReceived (peer : Peer) (protocols : list string) (listen_addrs : list Addr)
  | OtherEvent.
Arguments NewListenAddr {Peer Addr Listener Query} listener address.
Arguments OutboundQueryProgressed {Peer Addr Listener Query} id result.
Arguments InboundPutRecord {Peer Addr Listener Query} source record.
Arguments IdentifyReceived {Peer Addr Listener Query} peer protocols listen_addrs.
Arguments OtherEvent {Peer Addr Listener Query}.

(** A bucket of the routing table: its range, and its peers with their addresses and
    whether they are connected. *)
Record KBucket (Peer Addr Range : Type) := mkBucket { bucket_range : Range; bucket_entries : list (Peer * list Addr * bool) }.
Arguments mkBucket {Peer Addr Range} _ _.
Arguments bucket_range {Peer Addr Range} _.
Arguments bucket_entries {Peer Addr Range} _.

(** The name of the protocol in [kad]. *)
Definition KAD_PROTOCOL_NAME : string := "/ipfs/kad/1.0.0".

(** [Multiaddr]: the peer at its end and the rest, and an address with a peer. *)
Class AddrOps (Peer Addr : Type) := {
  addr_pop : Addr -> option Peer * Addr;
  addr_push : Addr -> Peer -> Addr;
}.

Class SwarmOps (Peer Addr Listener Query Range Sw : Type) := {
  network_info : Sw -> NetworkInfo;
  connected_peers : Sw -> list Peer;
  swarm_listeners : Sw -> list Addr;
  external_addresses : Sw -> list Addr;
  listen_on : Sw -> Addr -> (Listener + string) * Sw;
  remove_listener : Sw -> Listener -> bool * Sw;
  dial : Sw -> Peer -> list Addr -> (unit + string) * Sw;
  kbuckets : Sw -> list (KBucket Peer Addr Range);
  kad_get_providers : Sw -> bytes -> Query * Sw;
  kad_start_providing : Sw -> bytes -> (Query + string) * Sw;
  kad_get_record : Sw -> bytes -> Query * Sw;
  kad_put_record : Sw -> Record_ -> Quorum -> (Query + string) * Sw;
  kad_store_put : Sw -> Record_ -> (unit + string) * Sw;
  kad_bootstrap : Sw -> (Query + string) * Sw;
  kad_add_address : Sw -> Peer -> Addr -> Sw;
  (** [select_next_some] *)
  emits : Sw -> DhtSwarmEvent Peer Addr Listener Query -> Sw -> Prop;
}.
#[global] Hint Mode SwarmOps - - - - - ! : typeclass_instances.

(** ** The processor (processor.rs) *)
Record DhtMessage (Addr : Type) := mkMessage { message_id : nat; message_request : DhtRequest Addr }.
Arguments mkMessage {Addr} _ _.
Arguments message_id {Addr} _.
Arguments message_request {Addr} _.

Section dht.
Context {Peer Addr Listener Query Range Sw : Type} `{EqDecision Peer} `{EqDecision Listener} `{Countable Query} `{EqDecision Range}.
Context `{!AddrOps Peer Addr} `{!SwarmOps Peer Addr Listener Query Range Sw}.
Notation DhtMessage := (DhtMessage Addr).
Notation DhtRequest := (DhtRequest Addr).
Notation DhtResponse := (DhtResponse Peer Addr).
Notation event := (DhtSwarmEvent Peer Addr Listener Query).
Notation answer := (DhtResponse + DhtError)%type.

(** The validator of the records, if there is one. *)
Context (validator : option (bytes -> outcome bool)).

Record DhtProcessor := mkProcessor {
  peer_id : Peer;
  swarm : Sw;
  requests : gmap Query DhtMessage;
  kad_last_range : option Range;
  active_listener : option Listener;
  pending_listener_request : option DhtMessage;
  answers : list (nat * answer);
}.
Implicit Types (p : DhtProcessor) (message : DhtMessage).

(** [DhtProcessor::spawn]: the processor of a swarm. *)
Definition processor_new (peer_id : Peer) (swarm : Sw) : DhtProcessor := mkProcessor peer_id swarm ∅ None None None [].

Definition with_swarm p (s : Sw) : DhtProcessor :=
  mkProcessor (peer_id p) s (requests p) (kad_last_range p) (active_listener p) (pending_listener_request p) (answers p).
Definition with_requests p (r : gmap Query DhtMessage) : DhtProcessor :=
  mkProcessor (peer_id p) (swarm p) r (kad_last_range p) (active_listener p) (pending_listener_request p) (answers p).
Definition with_last_range p (r : option Range) : DhtProcessor :=
  mkProcessor (peer_id p) (swarm p) (requests p) r (active_listener p) (pending_listener_request p) (answers p).
Definition with_listener p (l : option Listener) : DhtProcessor :=
  mkProcessor (peer_id p) (swarm p) (requests p) (kad_last_range p) l (pending_listener_request p) (answers p).
Definition with_pending p (m : option DhtMessage) : DhtProcessor :=
  mkProcessor (peer_id p) (swarm p) (requests p) (kad_last_range p) (active_listener p) m (answers p).

(** [Message::respond]. *)
Definition respond message (response : answer) p : DhtProcessor :=
  mkProcessor (peer_id p) (swarm p) (requests p) (kad_last_range p) (active_listener p) (pending_listener_request p)
    (answers p ++ [(message_id message, response)]).

(** [store_request!]. *)
Definition store_request message (result : Query + DhtError) p : DhtProcessor :=
  match result with
  | inl query_id => with_requests p (<[query_id := message]> (requests p))
  | inr e => respond message (inr e) p
  end.

(** [self.requests.remove(&id)], and the answer if there was a message. *)
Definition settle (id : Query) (response : DhtMessage -> outcome answer) p : outcome unit * DhtProcessor :=
  match requests p !! id with
  | Some message =>
      let p := with_requests p (delete id (requests p)) in
      let? r := response message keeping p in (Ok tt, respond message r p)
  | None => (Ok tt, p)
  end.

Definition validate (data : bytes) : outcome bool :=
  match validator with Some v => v data | None => Ok true end.

(** *** Listening *)
Definition stop_listening p : outcome unit * DhtProcessor :=
  match active_listener p with
  | Some listener =>
      let p := with_listener p None in
      let '(removed, s) := remove_listener (swarm p) listener in
      let p := with_swarm p s in
      if removed then (Ok tt, p) else (Panic "assertion failed: self.swarm.remove_listener(active_listener)", p)
  | None => (Ok tt, p)
  end.

(** [listen]: the error of the transport, if it cannot. *)
Definition listen (address : Addr) p : outcome (option DhtError) * DhtProcessor :=
  let '(r, p) := stop_listening p in
  let? _ := r keeping p in
  match listen_on (swarm p) address with
  | (inl listener, s) => (Ok None, with_listener (with_swarm p s) (Some listener))
  | (inr e, s) => (Ok (Some (LibP2PTransportError e)), with_swarm p s)
  end.

(** *** Peers *)
Definition add_peer (address : Addr) p : DhtProcessor :=
  match addr_pop address with
  | (Some peer, addr) =>
      if bool_decide (peer = peer_id p) then p else with_swarm p (kad_add_address (swarm p) peer addr)
  | (None, _) => p
  end.

Definition add_peers (peers : list Addr) p : DhtProcessor := foldl (fun p address => add_peer address p) p peers.

(** No known peers are not an error. *)
Definition execute_bootstrap p : DhtProcessor := with_swarm p (kad_bootstrap (swarm p)).2.

Definition first_disconnected (entries : list (Peer * list Addr * bool)) : option (Peer * list Addr) :=
  match filter (fun e => negb e.2) entries with
  | (peer, addresses, _) :: _ => Some (peer, addresses)
  | [] => None
  end.

(** The loop over the buckets ends with what its last bucket to have one found. *)
Definition next_to_dial (last_range : option Range) (buckets : list (KBucket Peer Addr Range)) : option (Peer * list Addr * Range) :=
  foldl (fun to_dial bucket =>
    if bool_decide (last_range = Some (bucket_range bucket)) then to_dial
    else
      match first_disconnected (bucket_entries bucket) with
      | Some (peer, addresses) => Some (peer, addresses, bucket_range bucket)
      | None => to_dial
      end) None buckets.

Definition dial_next_peer p : DhtProcessor :=
  match next_to_dial (kad_last_range p) (kbuckets (swarm p)) with
  | Some (peer, addresses, range) => with_last_range (with_swarm p (dial (swarm p) peer addresses).2) (Some range)
  | None => p
  end.

(** *** Messages *)
Definition quorum_of (quorum : N) : Quorum :=
  match quorum with
  | N0 => QuorumOne
  | Npos xH => QuorumOne
  | Npos n => QuorumN n
  end.

Definition put_record message (key value : bytes) (quorum : N) p : outcome unit * DhtProcessor :=
  let? valid := validate value keeping p in
  if valid : bool then
    let record := mkRecord key value in
    if (quorum =? 0)%N then
      let '(stored, s) := kad_store_put (swarm p) record in
      let p := with_swarm p s in
      (Ok tt, respond message (match stored with
                               | inl _ => inl (DidPutRecord key)
                               | inr _ => inr (DhtMessageError "Could not store record.")
                               end) p)
    else
      let '(r, s) := kad_put_record (swarm p) record (quorum_of quorum) in
      (Ok tt, store_request message (match r with inl id => inl id | inr e => inr (LibP2PStorageError e) end) (with_swarm p s))
  else (Ok tt, respond message (inr (ValidationError value)) p).

Definition start_listening message (address : Addr) p : outcome unit * DhtProcessor :=
  let '(r, p) := listen address p in
  let? failed := r keeping p in
  match failed with
  | Some e => (Ok tt, respond message (inr e) p)
  | None =>
      let p :=
        match pending_listener_request p with
        | Some current_pending =>
            respond current_pending (inr (DhtMessageError "Subsequent listener request overrides previous request.")) p
        | None => p
        end in
      (Ok tt, with_pending p (Some message))
  end.

Definition process_message message p : outcome unit * DhtProcessor :=
  match message_request message with
  | AddPeers peers => (Ok tt, respond message (inl Success) (add_peers peers p))
  | StartListening address => start_listening message address p
  | StopListening =>
      let '(r, p) := stop_listening p in
      let? _ := r keeping p in (Ok tt, respond message (inl Success) p)
  | GetAddresses external =>
      let listeners := if external then external_addresses (swarm p) else swarm_listeners (swarm p) in
      (Ok tt, respond message (inl (GotAddresses listeners)) p)
  | Bootstrap => (Ok tt, respond message (inl Success) (execute_bootstrap p))
  | GetProviders key =>
      let '(id, s) := kad_get_providers (swarm p) key in
      (Ok tt, store_request message (inl id) (with_swarm p s))
  | GetNetworkInfo => (Ok tt, respond message (inl (GotNetworkInfo (network_info (swarm p)))) p)
  | GetPeers => (Ok tt, respond message (inl (GotPeers (connected_peers (swarm p)))) p)
  | StartProviding key =>
      let '(r, s) := kad_start_providing (swarm p) key in
      (Ok tt, store_request message (match r with inl id => inl id | inr e => inr (LibP2PStorageError e) end) (with_swarm p s))
  | GetRecord key =>
      let '(id, s) := kad_get_record (swarm p) key in
      (Ok tt, store_request message (inl id) (with_swarm p s))
  | PutRecord key value quorum => put_record message key value quorum p
  end.

(** *** Events *)
Definition process_query_result (id : Query) (result : QueryResult Peer) p : outcome unit * DhtProcessor :=
  match result with
  | FoundRecord record =>
      settle id (fun _ =>
        let? is_valid := validate (kad_value record) in
        Ok (inl (GotRecord (mkDhtRecord (kad_key record) (if is_valid : bool then Some (kad_value record) else None))))) p
  | RecordsFinished =>
      settle id (fun message =>
        match message_request message with
        | GetRecord key => Ok (inl (GotRecord (mkDhtRecord key None)))
        | _ => Panic "Request must be GetRecord"
        end) p
  | GetRecordFailed (NotFound key) => settle id (fun _ => Ok (inl (GotRecord (mkDhtRecord key None)))) p
  | GetRecordFailed (GetRecordOther e) => settle id (fun _ => Ok (inr (LibP2PGetRecordError e))) p
  | PutRecordOk key => settle id (fun _ => Ok (inl (DidPutRecord key))) p
  | PutRecordFailed e => settle id (fun _ => Ok (inr (LibP2PPutRecordError e))) p
  | StartProvidingOk => settle id (fun _ => Ok (inl Success)) p
  | StartProvidingFailed e => settle id (fun _ => Ok (inr (LibP2PAddProviderError e))) p
  | FoundProviders providers =>
      match providers with
      | [] => (Ok tt, p)
      | _ => settle id (fun _ => Ok (inl (GotProviders providers))) p
      end
  | ProvidersFinished => settle id (fun _ => Ok (inl (GotProviders []))) p
  | GetProvidersFailed e => settle id (fun _ => Ok (inr (LibP2PGetProvidersError e))) p
  | OtherResult => (Ok tt, p)
  end.

(** A record from a peer that cannot be stored, or is not valid, is dropped. *)
Definition process_inbound_put (record : option Record_) p : outcome unit * DhtProcessor :=
  match record with
  | Some rec =>
      let? valid := validate (kad_value rec) keeping p in
      (Ok tt, if valid : bool then with_swarm p (kad_store_put (swarm p) rec).2 else p)
  | None => (Ok tt, p)
  end.

Definition process_new_listen_addr (listener : Listener) (address : Addr) p : DhtProcessor :=
  match active_listener p, pending_listener_request p with
  | Some active, Some pending =>
      if bool_decide (listener = active)
      then respond pending (inl (Address (addr_push address (peer_id p)))) (with_pending p None)
      else p
  | _, _ => p
  end.

Definition process_identify_event (peer : Peer) (protocols : list string) (listen_addrs : list Addr) p : DhtProcessor :=
  if existsb (fun protocol => bool_decide (protocol = KAD_PROTOCOL_NAME)) protocols
  then with_swarm p (foldl (fun s addr => kad_add_address s peer addr) (swarm p) listen_addrs)
  else p.

Definition process_swarm_event (e : event) p : outcome unit * DhtProcessor :=
  match e with
  | NewListenAddr listener address => (Ok tt, process_new_listen_addr listener address p)
  | OutboundQueryProgressed id result => process_query_result id result p
  | InboundPutRecord _ record => process_inbound_put record p
  | IdentifyReceived peer protocols addrs => (Ok tt, process_identify_event peer protocols addrs p)
  | OtherEvent => (Ok tt, p)
  end.

(** ** The loop: one turn of its [select!] *)
Inductive turn : DhtProcessor -> option DhtMessage -> outcome unit * DhtProcessor -> Prop :=
  | turn_message p m : turn p (Some m) (process_message m p)
  | turn_event p e s : emits (swarm p) e s -> turn p None (process_swarm_event e (with_swarm p s))
  | turn_bootstrap p : turn p None (Ok tt, execute_bootstrap p)
  | turn_dial p : turn p None (Ok tt, dial_next_peer p).

(** The turns of a processor, and the messages it took. *)
Inductive runs (p : DhtProcessor) : list DhtMessage -> DhtProcessor -> Prop :=
  | runs_none : runs p [] p
  | runs_turn ms p' m p'' : runs p ms p' -> turn p' m (Ok tt, p'') -> runs p (ms ++ option_list m) p''.

(** ** The node (node.rs)

    A call is the request that it sends and what it makes of the answer
    ([ensure_response!]). *)
Record DhtCall (A : Type) := mkCall { call_request : DhtRequest; call_result : DhtResponse -> option A }.
Arguments mkCall {A} _ _.
Arguments call_request {A} _.
Arguments call_result {A} _.

(** [send_request] and [ensure_response!]. *)
Definition call_answer {A} (call : DhtCall A) (a : answer) : A + DhtError :=
  match a with
  | inl response =>
      match call_result call response with
      | Some r => inl r
      | None => inr (DhtMessageError "Unexpected")
      end
  | inr e => inr e
  end.

Definition expect_success (r : DhtResponse) : option unit := match r with Success => Some tt | _ => None end.
Definition expect_addresses (r : DhtResponse) : option (list Addr) := match r with GotAddresses a => Some a | _ => None end.

Definition node_addresses : DhtCall (list Addr) := mkCall (GetAddresses false) expect_addresses.
Definition node_external_addresses : DhtCall (list Addr) := mkCall (GetAddresses false) expect_addresses.
Definition node_add_peers (peers : list Addr) : DhtCall unit := mkCall (AddPeers peers) expect_success.
Definition node_listen (address : Addr) : DhtCall Addr :=
  mkCall (StartListening address) (fun r => match r with Address a => Some a | _ => None end).
Definition node_stop_listening : DhtCall unit := mkCall StopListening expect_success.
Definition node_bootstrap : DhtCall unit := mkCall Bootstrap expect_success.
Definition node_network_info : DhtCall NetworkInfo :=
  mkCall GetNetworkInfo (fun r => match r with GotNetworkInfo i => Some i | _ => None end).
Definition node_peers : DhtCall (list Peer) := mkCall GetPeers (fun r => match r with GotPeers l => Some l | _ => None end).
Definition node_put_record (key value : bytes) (quorum : N) : DhtCall bytes :=
  mkCall (PutRecord key value quorum) (fun r => match r with DidPutRecord key => Some key | _ => None end).
Definition node_get_record (key : bytes) : DhtCall DhtRecord :=
  mkCall (GetRecord key) (fun r => match r with GotRecord rec => Some rec | _ => None end).
Definition node_start_providing (key : bytes) : DhtCall unit := mkCall (StartProviding key) expect_success.
Definition node_get_providers (key : bytes) : DhtCall (list Peer) :=
  mkCall (GetProviders key) (fun r => match r with GotProviders l => Some l | _ => None end).
End dht.
Arguments mkCall {Peer Addr A} _ _.
Arguments call_request {Peer Addr A} _.
Arguments call_result {Peer Addr A} _.
