(* ===== verification/DhtProofs.v ===== *)
(** * Facts about a node of the distributed hash table

    What the swarm is assumed to do ([SwarmLaws]), and what holds after any number of
    turns of a processor: every message it took is answered or waits in one place, the
    answers fit their requests, and the records it keeps are valid. *)
From stdpp Require Import base gmap list numbers strings.
From Stdlib Require Import String.
From S2P Require Import Prelude BlockStore Dht.
#[local] Open Scope list_scope.
#[local] Notation length := List.length (only parsing).

Inductive query_kind : Type := RecordQuery | PutQuery | ProvidingQuery | ProvidersQuery | BootstrapQuery.

Definition result_kind {Peer} (r : QueryResult Peer) : option query_kind :=
  match r with
  | FoundRecord _ | RecordsFinished | GetRecordFailed _ => Some RecordQuery
  | PutRecordOk _ | PutRecordFailed _ => Some PutQuery
  | StartProvidingOk | StartProvidingFailed _ => Some ProvidingQuery
  | FoundProviders _ | ProvidersFinished | GetProvidersFailed _ => Some ProvidersQuery
  | OtherResult => None
  end.

(** ** The swarm

    [listening], [issued] and [stored_record] are the listeners that are open, the
    queries that were started, and the records that are kept.  The swarm never reuses
    the identifier of a query, reports only results of queries of their kind, and
    ([FilterBoth]) keeps no record but those it is told to; listeners may close and
    records may expire by themselves. *)
Class SwarmView (Listener Query Sw : Type) `{Countable Query} := {
  listening : Sw -> Listener -> Prop;
  issued : Sw -> gmap Query query_kind;
  stored_record : Sw -> bytes -> option bytes;
}.
#[global] Hint Mode SwarmView - - ! - - : typeclass_instances.

Section views.
Context {Listener Query Sw : Type} `{Countable Query} `{!SwarmView Listener Query Sw}.
Implicit Types (s : Sw).

Definition same_listeners s s' : Prop := forall l, listening s' l <-> listening s l.
Definition same_records s s' : Prop := forall k, stored_record s' k = stored_record s k.
Definition quiet s s' : Prop := same_listeners s s' /\ issued s ⊆ issued s' /\ same_records s s'.
Definition asked (kind : query_kind) s (id : Query) s' : Prop :=
  issued s !! id = None /\ <[id := kind]> (issued s) ⊆ issued s' /\ same_listeners s s'.
Definition put_in s (rec : Record_) s' : Prop :=
  forall k, stored_record s' k = if decide (k = kad_key rec) then Some (kad_value rec) else stored_record s k.

#[export] Instance quiet_preorder : PreOrder quiet.
Proof.
  split.
  - intros s. by split; [|split].
  - intros s1 s2 s3 (Hl & Hi & Hr) (Hl' & Hi' & Hr'). split; [|split; [by transitivity (issued s2)|intros k; by rewrite Hr', Hr]].
    intros l. by rewrite (Hl' l), (Hl l).
Qed.
End views.

Class SwarmLaws (Peer Addr Listener Query Range Sw : Type) `{Countable Query} `{!SwarmOps Peer Addr Listener Query Range Sw}
    `{!SwarmView Listener Query Sw} := {
  listen_on_law : forall (s : Sw) (a : Addr),
    match listen_on s a with
    | (inl l, s') => issued s ⊆ issued s' /\ same_records s s' /\
        (forall l', listening s' l' <-> l' = l \/ listening s l')
    | (inr _, s') => quiet s s'
    end;
  remove_listener_law : forall (s : Sw) (l : Listener), let '(r, s') := remove_listener s l in
    (r = true <-> listening s l) /\ issued s ⊆ issued s' /\ same_records s s' /\
    (forall l', listening s' l' <-> l' <> l /\ listening s l');
  dial_law : forall (s : Sw) (peer : Peer) (addrs : list Addr), quiet s (dial s peer addrs).2;
  get_providers_law : forall (s : Sw) (key : bytes), let '(id, s') := kad_get_providers s key in
    asked ProvidersQuery s id s' /\ same_records s s';
  start_providing_law : forall (s : Sw) (key : bytes),
    match kad_start_providing s key with
    | (inl id, s') => asked ProvidingQuery s id s' /\ same_records s s'
    | (inr _, s') => quiet s s'
    end;
  get_record_law : forall (s : Sw) (key : bytes), let '(id, s') := kad_get_record s key in
    asked RecordQuery s id s' /\ same_records s s';
  put_record_law : forall (s : Sw) rec quorum,
    match kad_put_record s rec quorum with
    | (inl id, s') => asked PutQuery s id s' /\ put_in s rec s'
    | (inr _, s') => quiet s s'
    end;
  store_put_law : forall (s : Sw) rec,
    match kad_store_put s rec with
    | (inl _, s') => put_in s rec s' /\ issued s ⊆ issued s' /\ same_listeners s s'
    | (inr _, s') => quiet s s'
    end;
  bootstrap_law : forall (s : Sw), quiet s (kad_bootstrap s).2;
  add_address_law : forall (s : Sw) (peer : Peer) (addr : Addr), quiet s (kad_add_address s peer addr);
  emits_law : forall (s : Sw) (e : DhtSwarmEvent Peer Addr Listener Query) (s' : Sw), emits s e s' ->
    issued s ⊆ issued s' /\ (forall k v, stored_record s' k = Some v -> stored_record s k = Some v) /\
    match e with
    | OutboundQueryProgressed id r => forall kind, result_kind r = Some kind -> issued s' !! id = Some kind
    | _ => True
    end;
}.

Section facts.
Context {Peer Addr Listener Query Range Sw : Type} `{EqDecision Peer} `{EqDecision Listener} `{Countable Query} `{EqDecision Range}.
Context `{!AddrOps Peer Addr} `{!SwarmOps Peer Addr Listener Query Range Sw} `{!SwarmView Listener Query Sw}.
Context `{!SwarmLaws Peer Addr Listener Query Range Sw}.
Context (validator : option (bytes -> outcome bool)).
Notation DhtMessage := (DhtMessage Addr).
Notation DhtRequest := (DhtRequest Addr).
Notation DhtResponse := (DhtResponse Peer Addr).
Notation processor := (DhtProcessor (Peer := Peer) (Addr := Addr) (Listener := Listener) (Query := Query) (Range := Range) (Sw := Sw)).
Notation turn := (turn (Peer := Peer) (Addr := Addr) (Listener := Listener) (Query := Query) (Range := Range) (Sw := Sw) validator).
Notation runs := (runs (Peer := Peer) (Addr := Addr) (Listener := Listener) (Query := Query) (Range := Range) (Sw := Sw) validator).
Implicit Types (p : processor) (m : DhtMessage) (ms : list DhtMessage) (s : Sw) (id : Query).

(** *** Answers that fit *)

(** The call of the node that sends a request. *)
Definition call_of (r : DhtRequest) : { A : Type & DhtCall (Peer := Peer) (Addr := Addr) A } :=
  match r with
  | AddPeers peers => existT _ (node_add_peers peers)
  | StartListening address => existT _ (node_listen address)
  | StopListening => existT _ node_stop_listening
  | Bootstrap => existT _ node_bootstrap
  | GetAddresses external => existT _ (mkCall (GetAddresses external) expect_addresses)
  | GetPeers => existT _ node_peers
  | GetNetworkInfo => existT _ node_network_info
  | GetRecord key => existT _ (node_get_record key)
  | PutRecord key value quorum => existT _ (node_put_record key value quorum)
  | StartProviding key => existT _ (node_start_providing key)
  | GetProviders key => existT _ (node_get_providers key)
  end.

(** The call gets a result from the response, not [Unexpected]. *)
Definition fits (r : DhtRequest) (response : DhtResponse) : Prop := is_Some (call_result (projT2 (call_of r)) response).

Definition request_kind (r : DhtRequest) : option query_kind :=
  match r with
  | GetRecord _ => Some RecordQuery
  | PutRecord _ _ _ => Some PutQuery
  | StartProviding _ => Some ProvidingQuery
  | GetProviders _ => Some ProvidersQuery
  | _ => None
  end.

(** *** What is true of a processor that took the messages [ms] *)
Definition waiting p : list nat :=
  (message_id <$> (map_to_list (requests p)).*2) ++ (message_id <$> option_list (pending_listener_request p)).

Record sound p ms : Prop := {
  sound_accounts : message_id <$> ms ≡ₚ (answers p).*1 ++ waiting p;
  sound_requests : forall id m, requests p !! id = Some m -> m ∈ ms /\
    exists kind, issued (swarm p) !! id = Some kind /\ request_kind (message_request m) = Some kind;
  sound_pending : forall m, pending_listener_request p = Some m -> m ∈ ms /\ exists a, message_request m = StartListening a;
  sound_answers : forall n r, (n, inl r) ∈ answers p -> exists m, m ∈ ms /\ message_id m = n /\ fits (message_request m) r;
  sound_records : forall k v, stored_record (swarm p) k = Some v -> validate validator v = Ok true;
}.

(** The swarm may move on by itself. *)
Definition moved (s s' : Sw) : Prop := issued s ⊆ issued s' /\ forall k v, stored_record s' k = Some v -> validate validator v = Ok true \/ stored_record s k = Some v.

Lemma quiet_moved s s' : quiet s s' -> moved s s'.
Proof. intros (_ & Hi & Hr). split; [done|]. intros k v. rewrite Hr. by right. Qed.

Lemma sound_swarm p ms s : sound p ms -> moved (swarm p) s -> sound (with_swarm p s) ms.
Proof.
  intros [Ha Hr Hp Hs Hv] [Hi Hm]. split; try done; cbn.
  - intros id m E. destruct (Hr id m E) as (Hin & kind & Hk & Hkind). split; [done|]. exists kind. split; [|done]. by eapply lookup_weaken.
  - intros k v E. destruct (Hm k v E) as [?|E']; [done|by eapply Hv].
Qed.

(** A message that is answered at once. *)
Lemma sound_respond p ms m r : sound p ms -> (forall x, r = inl x -> fits (message_request m) x) -> sound (respond m r p) (ms ++ [m]).
Proof.
  intros [Ha Hr Hp Hs Hv] Hf. split; cbn.
  - rewrite fmap_app, Ha, fmap_app. cbn. unfold waiting. cbn. solve_Permutation.
  - intros id m' E. destruct (Hr id m' E) as [Hin Hk]. split; [apply elem_of_app; by left|done].
  - intros m' E. destruct (Hp m' E) as [Hin Hk]. split; [apply elem_of_app; by left|done].
  - intros n x [Hin|[= -> Hx]%list_elem_of_singleton]%elem_of_app.
    + destruct (Hs n x Hin) as (m' & Hin' & Hx). exists m'. split; [apply elem_of_app; by left|done].
    + exists m. split; [apply elem_of_app; right; by left|]. split; [done|by apply Hf].
  - done.
Qed.

(** A message that waits for its query. *)
Lemma sound_store p ms m s id kind : sound p ms -> issued (swarm p) !! id = None -> issued s !! id = Some kind -> request_kind (message_request m) = Some kind ->
  moved (swarm p) s -> sound (with_requests (with_swarm p s) (<[id := m]> (requests p))) (ms ++ [m]).
Proof.
  intros Hso Hfresh Hid Hk Hmv. pose proof (sound_swarm _ _ _ Hso Hmv) as [Ha Hr Hp Hs Hv]. cbn in *.
  assert (requests p !! id = None) as Hnone.
  { destruct (requests p !! id) as [m'|] eqn:E; [|done]. destruct (sound_requests _ _ Hso _ _ E) as (_ & kind' & Hk' & _). congruence. }
  split; cbn.
  - rewrite fmap_app, Ha. unfold waiting. cbn. rewrite (map_to_list_insert _ _ _ Hnone). cbn. solve_Permutation.
  - intros id' m' [[<- <-]|[Hne E]]%lookup_insert_Some.
    + split; [apply elem_of_app; right; by left|]. by exists kind.
    + destruct (Hr id' m' E) as [Hin Hk']. split; [apply elem_of_app; by left|done].
  - intros m' E. destruct (Hp m' E) as [Hin Hk']. split; [apply elem_of_app; by left|done].
  - intros n x Hin. destruct (Hs n x Hin) as (m' & Hin' & Hx). exists m'. split; [apply elem_of_app; by left|done].
  - done.
Qed.

(** The answer to a message that waited. *)
Lemma sound_settle p ms id response p' : sound p ms -> settle id response p = (Ok tt, p') ->
  (forall m r, requests p !! id = Some m -> response m = Ok (inl r) -> fits (message_request m) r) -> sound p' ms.
Proof.
  intros [Ha Hr Hp Hs Hv] E Hf. unfold settle in E. destruct (requests p !! id) as [m|] eqn:Em; [|by injection E as <-].
  destruct (response m) as [r| | |] eqn:Er; cbn [try_with] in E; try discriminate E. injection E as <-. split; cbn.
  - rewrite Ha, fmap_app. unfold waiting. cbn. rewrite <- (map_to_list_delete _ _ _ Em). cbn. solve_Permutation.
  - intros id' m' [Hne E]%lookup_delete_Some. by apply Hr.
  - done.
  - intros n x [Hin|[= -> Hx]%list_elem_of_singleton]%elem_of_app; [by apply Hs|]. exists m. split; [by eapply Hr|]. split; [done|].
    apply Hf; [done|by rewrite Er, Hx].
  - done.
Qed.

(** *** Operations *)
Lemma sound_listener p ms l : sound p ms -> sound (with_listener p l) ms.
Proof. by intros [Ha Hr Hp Hs Hv]. Qed.

Lemma sound_last_range p ms r : sound p ms -> sound (with_last_range p r) ms.
Proof. by intros [Ha Hr Hp Hs Hv]. Qed.

Lemma moved_same s (s' : Sw) : issued s ⊆ issued s' -> same_records s s' -> moved s s'.
Proof. intros Hi Hr. split; [done|]. intros k v. rewrite Hr. by right. Qed.

Lemma moved_put s rec (s' : Sw) : issued s ⊆ issued s' -> put_in s rec s' -> validate validator (kad_value rec) = Ok true -> moved s s'.
Proof. intros Hi Hr Hv. split; [done|]. intros k v. rewrite Hr. case_decide; [intros [= <-]; by left|by right]. Qed.

Lemma asked_issued kind s id (s' : Sw) : asked kind s id s' -> issued s !! id = None /\ issued s' !! id = Some kind /\ issued s ⊆ issued s'.
Proof.
  intros (Hn & Hi & _). split; [done|]. split; [eapply lookup_weaken; [apply lookup_insert_eq|exact Hi]|].
  etransitivity; [by apply insert_subseteq|exact Hi].
Qed.

Lemma stop_listening_spec p r p' : stop_listening p = (r, p') ->
  exists s, p' = with_listener (with_swarm p s) None /\ issued (swarm p) ⊆ issued s /\ same_records (swarm p) s /\
    match r with
    | Ok _ => True
    | Panic _ => exists l, active_listener p = Some l /\ ~ listening (swarm p) l
    | _ => False
    end.
Proof.
  unfold stop_listening. destruct (active_listener p) as [l|] eqn:El; intros E.
  - cbn in E. pose proof (remove_listener_law (swarm p) l) as Hl. destruct (remove_listener (swarm p) l) as [removed s].
    destruct Hl as (Hr & Hi & Hs & _). destruct removed; injection E as <- <-; exists s; split; try done.
    split; [done|]. split; [done|]. exists l. split; [done|]. intros Hin. by apply Hr in Hin.
  - injection E as <- <-. exists (swarm p). split; [|done]. destruct p. cbn in *. by subst.
Qed.

Lemma sound_stop p ms p' r : sound p ms -> stop_listening p = (r, p') -> sound p' ms.
Proof.
  intros Hs E. destruct (stop_listening_spec _ _ _ E) as (s & -> & Hi & Hr & _). apply sound_listener, sound_swarm; [done|by apply moved_same].
Qed.

Lemma listen_spec p address r p' : listen address p = (r, p') ->
  exists s l, p' = with_listener (with_swarm p s) l /\ issued (swarm p) ⊆ issued s /\ same_records (swarm p) s /\
    match r with
    | Ok _ => True
    | Panic _ => exists l, active_listener p = Some l /\ ~ listening (swarm p) l
    | _ => False
    end.
Proof.
  unfold listen. destruct (stop_listening p) as [r1 p1] eqn:E1. destruct (stop_listening_spec _ _ _ E1) as (s1 & -> & Hi & Hr & Hm).
  destruct r1 as [[]| | |]; cbn [try_with]; intros E; try by injection E as <- <-; exists s1, None.
  cbn in E. pose proof (listen_on_law s1 address) as Hl. destruct (listen_on s1 address) as [[l|e] s2].
  - destruct Hl as (Hi' & Hr' & _). injection E as <- <-. exists s2, (Some l). split; [done|]. split; [by transitivity (issued s1)|].
    split; [|done]. intros k. by rewrite (Hr' k), (Hr k).
  - destruct Hl as (_ & Hi' & Hr'). injection E as <- <-. exists s2, None. split; [done|]. split; [by transitivity (issued s1)|].
    split; [|done]. intros k. by rewrite (Hr' k), (Hr k).
Qed.

Lemma add_peers_spec peers : forall p, exists s, add_peers peers p = with_swarm p s /\ quiet (swarm p) s.
Proof.
  unfold add_peers. induction peers as [|a peers IH]; intros p; cbn [foldl]; [exists (swarm p); by destruct p|].
  assert (exists s, add_peer a p = with_swarm p s /\ quiet (swarm p) s) as (s & -> & Hs).
  { unfold add_peer. destruct (addr_pop a) as [[peer|] addr]; [|exists (swarm p); by destruct p].
    case_bool_decide; [exists (swarm p); by destruct p|]. eexists. split; [done|]. apply add_address_law. }
  destruct (IH (with_swarm p s)) as (s' & -> & Hs'). exists s'. split; [done|]. by transitivity s.
Qed.

Lemma dial_next_spec p : exists s r, dial_next_peer p = with_last_range (with_swarm p s) r /\ quiet (swarm p) s.
Proof.
  unfold dial_next_peer. destruct (next_to_dial _ _) as [[[peer addrs] range]|].
  - eexists _, _. split; [done|]. apply dial_law.
  - exists (swarm p), (kad_last_range p). by destruct p.
Qed.

(** A request that is stored, or refused. *)
Lemma sound_store_request p ms m kind (r : Query + string) (label : string -> DhtError) s :
  sound p ms -> request_kind (message_request m) = Some kind -> moved (swarm p) s ->
  match r with inl id => asked kind (swarm p) id s | inr _ => True end ->
  sound (store_request m (match r with inl id => inl id | inr e => inr (label e) end) (with_swarm p s)) (ms ++ [m]).
Proof.
  intros Hs Hk Hm Hr. destruct r as [id|e]; cbn [store_request].
  - destruct (asked_issued _ _ _ _ Hr) as (Hn & Hi & _). exact (sound_store p ms m s id kind Hs Hn Hi Hk Hm).
  - apply sound_respond; [by apply sound_swarm|done].
Qed.

Lemma put_record_sound p ms m key value quorum p' : message_request m = PutRecord key value quorum -> sound p ms ->
  put_record validator m key value quorum p = (Ok tt, p') -> sound p' (ms ++ [m]).
Proof.
  intros Hm Hs. unfold put_record. destruct (validate validator value) as [[]| | |] eqn:Ev; cbn [try_with]; intros E; try discriminate E.
  - destruct (N.eqb_spec quorum 0) as [->|Hq].
    + pose proof (store_put_law (swarm p) (mkRecord key value)) as Hl. destruct (kad_store_put _ _) as [[[]|e] s]; injection E as <-.
      * destruct Hl as (Hput & Hi & _). apply sound_respond; [apply sound_swarm; [done|by eapply moved_put]|]. intros x [= <-]. unfold fits. rewrite Hm. by eexists.
      * apply sound_respond; [by apply sound_swarm; [|apply quiet_moved]|done].
    + pose proof (put_record_law (swarm p) (mkRecord key value) (quorum_of quorum)) as Hl. destruct (kad_put_record _ _ _) as [r s]. injection E as <-.
      apply (sound_store_request _ _ _ PutQuery); [done|by rewrite Hm| |].
      * destruct r; [|by apply quiet_moved]. destruct Hl as [Ha Hput]. eapply moved_put; [by destruct (asked_issued _ _ _ _ Ha) as (_ & _ & ?)|exact Hput|done].
      * destruct r; [by destruct Hl|done].
  - injection E as <-. by apply sound_respond.
Qed.

Lemma start_listening_sound p ms m address p' : message_request m = StartListening address -> sound p ms ->
  start_listening m address p = (Ok tt, p') -> sound p' (ms ++ [m]).
Proof.
  intros Hm Hs. unfold start_listening. destruct (listen address p) as [r p1] eqn:E1.
  destruct (listen_spec _ _ _ _ E1) as (s & l & -> & Hi & Hr & _). 
  pose proof (sound_listener _ _ l (sound_swarm _ _ _ Hs (moved_same _ _ Hi Hr))) as Hs1.
  destruct r as [[e|]| | |]; cbn [try_with]; intros E; try discriminate E; injection E as <-; [by apply sound_respond|].
  destruct Hs1 as [Ha Hrq Hp Hsa Hv]. unfold waiting in Ha. cbn in Ha, Hrq, Hp, Hsa, Hv |- *.
  destruct (pending_listener_request p) as [current|]; cbn in Ha.
  - destruct (Hp current eq_refl) as [Hin _]. split; cbn.
    + rewrite fmap_app, Ha, fmap_app. unfold waiting. cbn. solve_Permutation.
    + intros id m' E. destruct (Hrq id m' E) as [Hin' Hk]. split; [apply elem_of_app; by left|done].
    + intros m' [= <-]. split; [apply elem_of_app; right; by left|by exists address].
    + intros n x [Hx|[=]%list_elem_of_singleton]%elem_of_app. destruct (Hsa n x Hx) as (m' & Hin' & Hf). exists m'.
      split; [apply elem_of_app; by left|done].
    + done.
  - split; cbn.
    + rewrite fmap_app, Ha. unfold waiting. cbn. solve_Permutation.
    + intros id m' E. destruct (Hrq id m' E) as [Hin' Hk]. split; [apply elem_of_app; by left|done].
    + intros m' [= <-]. split; [apply elem_of_app; right; by left|by exists address].
    + intros n x Hx. destruct (Hsa n x Hx) as (m' & Hin' & Hf). exists m'. split; [apply elem_of_app; by left|done].
    + done.
Qed.

Lemma process_message_sound p ms m p' : sound p ms -> process_message validator m p = (Ok tt, p') -> sound p' (ms ++ [m]).
Proof.
  intros Hs. unfold process_message. destruct (message_request m) eqn:Em; intros E.
  - injection E as <-. destruct (add_peers_spec peers p) as (s & -> & Hq). apply sound_respond; [by apply sound_swarm; [|apply quiet_moved]|].
    intros x [= <-]. unfold fits. rewrite Em. by eexists.
  - by eapply start_listening_sound.
  - destruct (stop_listening p) as [r p1] eqn:E1. destruct r as [[]| | |]; cbn [try_with] in E; try discriminate E. injection E as <-.
    apply sound_respond; [by eapply sound_stop|]. intros x [= <-]. unfold fits. rewrite Em. by eexists.
  - injection E as <-. apply sound_respond; [apply sound_swarm; [done|apply quiet_moved, bootstrap_law]|]. intros x [= <-]. unfold fits. rewrite Em. by eexists.
  - injection E as <-. apply sound_respond; [done|]. intros x [= <-]. unfold fits. rewrite Em. by eexists.
  - injection E as <-. apply sound_respond; [done|]. intros x [= <-]. unfold fits. rewrite Em. by eexists.
  - injection E as <-. apply sound_respond; [done|]. intros x [= <-]. unfold fits. rewrite Em. by eexists.
  - pose proof (get_record_law (swarm p) key) as Hl. destruct (kad_get_record _ _) as [id s]. injection E as <-. destruct Hl as [Ha Hr].
    destruct (asked_issued _ _ _ _ Ha) as (Hn & Hi & Hsub). refine (sound_store p ms m s id _ Hs Hn Hi _ (moved_same _ _ Hsub Hr)). by rewrite Em.
  - by eapply put_record_sound.
  - pose proof (start_providing_law (swarm p) key) as Hl. destruct (kad_start_providing _ _) as [r s]. injection E as <-.
    apply (sound_store_request _ _ _ ProvidingQuery); [done|by rewrite Em| |].
    + destruct r; [|by apply quiet_moved]. destruct Hl as [Ha Hr]. by apply moved_same; [destruct (asked_issued _ _ _ _ Ha) as (_ & _ & ?)|].
    + destruct r; [by destruct Hl|done].
  - pose proof (get_providers_law (swarm p) key) as Hl. destruct (kad_get_providers _ _) as [id s]. injection E as <-. destruct Hl as [Ha Hr].
    destruct (asked_issued _ _ _ _ Ha) as (Hn & Hi & Hsub). refine (sound_store p ms m s id _ Hs Hn Hi _ (moved_same _ _ Hsub Hr)). by rewrite Em.
Qed.

(** *** Events *)

(** The message that waits for a query asked for what the query finds. *)
Lemma waiting_kind p ms id m kind : sound p ms -> requests p !! id = Some m -> issued (swarm p) !! id = Some kind ->
  request_kind (message_request m) = Some kind.
Proof. intros Hs Em Hk. destruct (sound_requests _ _ Hs id m Em) as (_ & kind' & Hk' & ->). congruence. Qed.

Lemma query_result_sound p ms id result p' : sound p ms ->
  (forall kind, result_kind result = Some kind -> issued (swarm p) !! id = Some kind) ->
  process_query_result validator id result p = (Ok tt, p') -> sound p' ms.
Proof.
  intros Hs Hk E.
  assert (forall m, requests p !! id = Some m -> forall kind, result_kind result = Some kind -> request_kind (message_request m) = Some kind) as Hreq.
  { intros m Em kind Hkind. by eapply waiting_kind; [..|apply Hk]. }
  assert (forall response, settle id response p = (Ok tt, p') ->
    (forall m r, requests p !! id = Some m -> response m = Ok (inl r) -> fits (message_request m) r) -> sound p' ms) as Hsettle
    by (intros response; by apply sound_settle).
  destruct result as [record| |[key|e]|key|e| |e|[|peer providers]| |e|]; cbn in E; try (by injection E as <-).
  all: refine (Hsettle _ E _); intros m r Em Er; specialize (Hreq m Em _ eq_refl); unfold fits;
    destruct (message_request m); try discriminate Hreq; cbn in Er; try discriminate Er; try (injection Er as <-; by eexists).
  destruct (validate validator (kad_value record)); cbn in Er; try discriminate Er. injection Er as <-. by eexists.
Qed.

Lemma process_event_sound p ms e s p' : sound p ms -> emits (swarm p) e s ->
  process_swarm_event validator e (with_swarm p s) = (Ok tt, p') -> sound p' ms.
Proof.
  intros Hs He. destruct (emits_law _ _ _ He) as (Hi & Hr & Hk).
  assert (sound (with_swarm p s) ms) as Hs' by (apply sound_swarm; [done|split; [done|intros k v ?; right; by apply Hr]]).
  destruct e as [listener address|id result|source record|peer protocols addrs|]; cbn [process_swarm_event]; intros E.
  - injection E as <-. unfold process_new_listen_addr. cbn. destruct Hs' as [Ha Hrq Hp Hsa Hv].
    destruct (active_listener p) as [active|]; [|by split]. unfold waiting in *. cbn in *. destruct (pending_listener_request p) as [pending|] eqn:Ep; [|by split; unfold waiting; cbn; rewrite ?Ep].
    case_bool_decide; [|by split; unfold waiting; cbn; rewrite ?Ep]. destruct (Hp pending eq_refl) as (Hin & a & Hreq).
    split; cbn; try done.
    + rewrite Ha, fmap_app. unfold waiting. cbn. solve_Permutation.
    + intros n x [Hx|[= -> ->]%list_elem_of_singleton]%elem_of_app; [by apply Hsa|]. exists pending. split; [done|]. split; [done|]. unfold fits. rewrite Hreq. by eexists.
  - by eapply query_result_sound.
  - unfold process_inbound_put in E. destruct record as [rec|]; [|by injection E as <-].
    destruct (validate validator (kad_value rec)) as [[]| | |] eqn:Ev; cbn [try_with] in E; try discriminate E; injection E as <-; [|done].
    apply sound_swarm; [done|]. pose proof (store_put_law (swarm (with_swarm p s)) rec) as Hl. destruct (kad_store_put _ _) as [[[]|e] s2]; [|by apply quiet_moved].
    destruct Hl as (Hput & Hi' & _). by eapply moved_put.
  - injection E as <-. unfold process_identify_event. destruct (existsb _ _); [|done]. apply sound_swarm; [done|]. apply quiet_moved.
    generalize (swarm (with_swarm p s)). clear - SwarmLaws0. induction addrs as [|a addrs IH]; intros s0; [done|]. cbn [foldl]. etransitivity; [|apply IH]. apply add_address_law.
  - by injection E as <-.
Qed.

Lemma turn_sound p ms (om : option DhtMessage) p' : sound p ms -> turn p om (Ok tt, p') -> sound p' (ms ++ option_list om).
Proof.
  intros Hs Ht. inversion Ht as [? ? E|? ? ? He E|? E|? E]; subst; cbn [option_list]; rewrite ?app_nil_r.
  - by eapply process_message_sound.
  - by eapply process_event_sound.
  - apply sound_swarm; [done|]. apply quiet_moved, bootstrap_law.
  - destruct (dial_next_spec p) as (s & r & -> & Hq). apply sound_last_range, sound_swarm; [done|by apply quiet_moved].
Qed.

Lemma sound_new me s : (forall k v, stored_record s k = Some v -> validate validator v = Ok true) -> sound (processor_new me s) [].
Proof.
  intros Hv. split; try done.
  intros n r Hin. by apply elem_of_nil in Hin.
Qed.

Lemma runs_sound p ms p' : sound p [] -> runs p ms p' -> sound p' ms.
Proof. intros Hs. induction 1 as [|ms p' m p'' _ IH Ht]; [done|]. by eapply turn_sound. Qed.

(** *** Panics *)
Definition listener_closed p : Prop := exists l, active_listener p = Some l /\ ~ listening (swarm p) l.
Definition validation_panics : Prop := exists data w, validate validator data = Panic w.

Lemma settle_panics p id response w p' : settle id response p = (Panic w, p') ->
  exists m, requests p !! id = Some m /\ response m = Panic w.
Proof.
  unfold settle. destruct (requests p !! id) as [m|]; [|done]. destruct (response m) eqn:Er; cbn [try_with]; intros [=]. subst. by exists m.
Qed.

Lemma message_panics p m w p' : process_message validator m p = (Panic w, p') -> listener_closed p \/ validation_panics.
Proof.
  unfold process_message. destruct (message_request m); intros E; try discriminate E.
  - unfold start_listening in E. destruct (listen address p) as [r p1] eqn:E1. destruct (listen_spec _ _ _ _ E1) as (s & l & _ & _ & _ & Hm).
    destruct r as [[]| | |]; cbn [try_with] in E; try discriminate E. by left.
  - destruct (stop_listening p) as [r p1] eqn:E1. destruct (stop_listening_spec _ _ _ E1) as (s & _ & _ & _ & Hm).
    destruct r as [[]| | |]; cbn [try_with] in E; try discriminate E. by left.
  - by destruct (kad_get_record _ _).
  - unfold put_record in E. destruct (validate validator value) as [[]| | |] eqn:Ev; cbn [try_with] in E; try discriminate E.
    + destruct (quorum =? 0)%N; [by destruct (kad_store_put _ _)|by destruct (kad_put_record _ _ _)].
    + right. by exists value, why.
  - by destruct (kad_start_providing _ _).
  - by destruct (kad_get_providers _ _).
Qed.

Lemma event_panics p ms e s w p' : sound p ms -> emits (swarm p) e s -> process_swarm_event validator e (with_swarm p s) = (Panic w, p') -> validation_panics.
Proof.
  intros Hs He. destruct (emits_law _ _ _ He) as (Hi & Hr & Hk).
  assert (sound (with_swarm p s) ms) as Hs' by (apply sound_swarm; [done|split; [done|intros k v ?; right; by apply Hr]]).
  destruct e as [listener address|id result|source record|peer protocols addrs|]; cbn [process_swarm_event]; intros E; try discriminate E.
  - destruct result as [record| |[key|e]|key|e| |e|[|peer providers]| |e|]; cbn in E; try discriminate E;
      try (apply settle_panics in E as (m & _ & E); discriminate E).
    + apply settle_panics in E as (m & _ & E). destruct (validate validator (kad_value record)) as [| |w'|] eqn:Ev; cbn in E; try discriminate E. by exists (kad_value record), w'.
    + apply settle_panics in E as (m & Em & E). pose proof (waiting_kind _ _ _ _ _ Hs' Em (Hk _ eq_refl)) as Hkind. by destruct (message_request m).
  - unfold process_inbound_put in E. destruct record as [rec|]; [|discriminate E].
    destruct (validate validator (kad_value rec)) as [| |w'|] eqn:Ev; cbn [try_with] in E; try discriminate E. by exists (kad_value rec), w'.
Qed.

Lemma turn_panics p ms (om : option DhtMessage) w p' : sound p ms -> turn p om (Panic w, p') -> listener_closed p \/ validation_panics.
Proof.
  intros Hs Ht. inversion Ht as [? ? E|? ? ? He E|? E|? E]; subst; [by eapply message_panics|right; by eapply event_panics].
Qed.
End facts.
