(* ===== verification/NameSystem.v ===== *)
(** * The name system

    Model of [noosphere-ns/src]: the validator of the records that a node keeps
    (validator.rs), the name system as a client of its node (name_system.rs,
    dht_client.rs, name_resolver.rs), adding peers over HTTP (server/client.rs), and
    waiting for a record (utils.rs); with the conversions between link records and
    bytes of [noosphere-core/src/data/address.rs].

    A call of the name system is a request to its node and what it makes of the
    answer; the node is that of [Dht]. *)
From stdpp Require Import base gmap list numbers strings.
From Stdlib Require Import String.
From S2P Require Import Prelude BlockStore BTree UcanCapability Ucan UcanChain Authority Dht.
#[local] Open Scope list_scope.
#[local] Notation length := List.length (only parsing).

(** ** Link records as bytes (data/address.rs) *)
Section link_records.
Context `{Base64} `{DagJson UcanHeader} `{DagJson UcanPayload}.

Definition link_record_of_bytes (value : bytes) : outcome Ucan :=
  let? text := from_utf8 value in ucan_from_str text.

Definition link_record_to_bytes (record : Ucan) : outcome bytes :=
  let? jwt := ucan_encode record in Ok (as_bytes jwt).
End link_records.

Section name_system.
Context {Key Url St Cid Peer Addr : Type}.
Context `{KeyMaterial Key} `{Bs58} `{Base64} `{DagJson UcanHeader} `{DagJson UcanPayload}.
Context `{UrlOps Url} `{CidOps Cid} `{UcanStore St Cid} `{EqDecision Cid} `{!AddrOps Peer Addr}.
Context (supported_keys : list (bytes * (bytes -> outcome Key))).
Notation DhtCall := (DhtCall (Peer := Peer) (Addr := Addr)).

(** ** The validator (validator.rs) *)
Definition record_validate (fuel : nat) (clock : N) (store : St) (record_value : bytes) : outcome bool :=
  match link_record_of_bytes record_value with
  | Ok record =>
      match link_record_validate (Url := Url) supported_keys fuel clock store record with
      | Ok _ => Ok true
      | Err _ => Ok false
      | Panic w => Panic w
      | Diverge => Diverge
      end
  | Err _ => Ok false
  | Panic w => Panic w
  | Diverge => Diverge
  end.

(** The [Display] of an error: a message is kept without the quotes that its debug
    form adds, and an error of [libp2p] is its debug form. *)
Definition dht_error_to_string (e : DhtError) : string :=
  match e with
  | NotConnected => "DHT not running"
  | NoKnownPeers => "no known peers"
  | DhtMessageError m => m
  | ValidationError _ => "validation error"
  | IO m | LibP2PBootstrapError m
  | LibP2PTransportError m | LibP2PStorageError m | LibP2PGetRecordError m | LibP2PPutRecordError m
  | LibP2PAddProviderError m | LibP2PGetProvidersError m => m
  end.

(** ** The name system (name_system.rs)

    What a call to the node returned, as a result of the name system. *)
Definition of_dht {A} (r : A + DhtError) : outcome A :=
  match r with inl a => Ok a | inr e => Err (dht_error_to_string e) end.

(** [NameSystem::put_record]: the call to make, unless the record cannot be encoded. *)
Definition put_record_call (record : Ucan) (quorum : N) : outcome (DhtCall bytes) :=
  let identity := to_sphere_identity record in
  let? record_bytes := link_record_to_bytes record in
  Ok (node_put_record (as_bytes identity) record_bytes quorum).

Definition put_record_result (r : bytes + DhtError) : outcome unit :=
  let? _ := of_dht r in Ok tt.

(** [NameSystem::get_record]. *)
Definition get_record_call (identity : string) : DhtCall DhtRecord := node_get_record (as_bytes identity).

Definition get_record_result (r : DhtRecord + DhtError) : outcome (option Ucan) :=
  let? record := of_dht r in
  match record_value record with
  | Some value => let? record := link_record_of_bytes value in Ok (Some record)
  | None => Ok None
  end.

(** [NameSystem::address]: the first address, with the peer. *)
Definition address_result (peer : Peer) (r : list Addr + DhtError) : outcome (option Addr) :=
  let? addresses := of_dht r in
  match addresses with
  | address :: _ => Ok (Some (addr_push address peer))
  | [] => Ok None
  end.

(** ** Resolving names (name_resolver.rs) *)
Definition publish_call (record : Ucan) : outcome (DhtCall bytes) := put_record_call record 0.
Definition resolve_call (identity : string) : DhtCall DhtRecord := get_record_call identity.

(** ** Over HTTP (server/client.rs): one peer at a time. *)
Definition http_add_peers (peers : list Addr) : outcome Addr :=
  if (1 <? length peers)%nat then Err "Only one peer may be added at a time over HTTP."
  else
    match peers with
    | address :: _ => Ok address
    | [] => Panic "called `Option::unwrap()` on a `None` value"
    end.

(** ** Waiting for a record (utils.rs)

    [resolved i] is what the [i]th attempt resolves. *)
Fixpoint poll_for_record (resolved : nat -> outcome (option Ucan)) (link : Cid) (attempts : nat) (i : nat) : outcome unit :=
  match attempts with
  | O => Err "Name record not published after the timeout"
  | S attempts =>
      let? record := resolved i in
      match record with
      | Some record =>
          match get_link (Cid := Cid) record with
          | Some record_link => if bool_decide (record_link = link) then Ok tt else poll_for_record resolved link attempts (S i)
          | None => poll_for_record resolved link attempts (S i)
          end
      | None => poll_for_record resolved link attempts (S i)
      end
  end.

Definition wait_for_record (resolved : nat -> outcome (option Ucan)) (link : Cid) (timeout : option nat) : outcome unit :=
  poll_for_record resolved link (default 5 timeout) 0.
End name_system.
