(* ===== verification/ContextFixtures.v ===== *)
(** * Fixtures for contexts

    Concrete parameters for the database, bodies, bundles and contexts, on those
    of [SphereFixtures], and two contexts at the first versions of a sphere: one
    of the sphere's own key and one of its owner. *)
From stdpp Require Import base gmap list numbers strings pretty countable.
From Stdlib Require Import Ascii String.
From S2P Require Import Prelude BlockStore HamtNode HamtRep Hamt HamtSpec BTree SphereDb BodyChunk.
From S2P Require Import VersionedMap UcanCapability Ucan UcanChain UcanProofs.
From S2P Require Import Authority Memo Sphere SphereProofs SphereHistory SphereRebase SphereGenesis.
From S2P Require Import Bundle BundleProofs SphereContext SphereContextProofs SphereEdits ContextAuthority.
From S2P Require Import Instances UcanInstances SphereFixtures.
#[local] Open Scope list_scope.
#[local] Notation length := List.length (only parsing).

(** ** Codecs *)
#[export] Instance BodyChunkIpld_eq_dec {Cid} `{EqDecision Cid} : EqDecision (BodyChunkIpld Cid).
Proof. solve_decision. Defined.
#[export] Instance BodyChunkIpld_countable {Cid} `{Countable Cid} : Countable (BodyChunkIpld Cid).
Proof. refine (inj_countable' (fun l => (chunk_bytes l, chunk_next l)) (fun p => mkBodyChunk p.1 p.2) _). by intros []. Defined.

#[export] Instance toy_entry_codecs : EntryCodecs ToyCid := {}.
#[export] Instance toy_entry_codecs_laws : EntryCodecsLaws ToyCid.
Proof. split; apply toy_codec_laws. Qed.

#[export] Instance toy_context_codecs : ContextCodecs ToyCid := {}.
#[export] Instance toy_context_codecs_laws : ContextCodecsLaws ToyCid.
Proof. split; apply toy_codec_laws. Qed.

(** An encoding of every header. *)
#[export] Instance UcanHeader_countable : Countable UcanHeader.
Proof. refine (inj_countable' (fun h => (alg h, typ h)) (fun p => mkHeader p.1 p.2) _). by intros []. Defined.

#[export] Instance countable_header_json : DagJson UcanHeader := {
  to_dag_json := toy_block_of;
  from_dag_json := toy_of_block;
}.
#[export] Instance countable_header_json_laws : DagJsonLaws UcanHeader.
Proof. intros x b E. cbn in *. injection E as <-. unfold toy_of_block. by rewrite decode_encode. Qed.

Lemma toy_json_total : json_total.
Proof. split; intros x; by eexists. Qed.

#[export] Instance toy_base64_ascii : Base64Ascii.
Proof.
  intros b. cbn. unfold toy_encode, is_ascii. induction (encode b) as [p IH|p IH|]; cbn [pos_to_string string_forallb]; by rewrite ?IH.
Qed.

(** ** Chunks of at most one byte *)
Definition toy_chunks (b : bytes) : list (nat * nat) := (fun i => (i, 1)) <$> seq 0 (length b).

#[export] Instance toy_fastcdc : FastCdc := { minimum_min := 64; fastcdc b _ _ _ := toy_chunks b }.

Lemma toy_chunks_consecutive n : forall start, consecutive start (start + n) ((fun i => (i, 1)) <$> seq start n).
Proof.
  induction n as [|n IH]; intros start; cbn; [lia|]. split; [done|]. split; [lia|].
  replace (start + S n) with ((start + 1) + n) by lia. rewrite Nat.add_1_r. apply (IH (S start)).
Qed.

#[export] Instance toy_fastcdc_laws : FastCdcLaws.
Proof.
  split; cbn; unfold toy_chunks.
  - intros b _ _ _. apply (toy_chunks_consecutive (length b) 0).
  - intros b _ _ max Hmax. apply Forall_fmap, Forall_forall. intros i _. cbn. lia.
Qed.

(** ** A gateway that cannot be reached *)
#[export] Instance toy_gateway : GatewayApi unit N ToyCid := {
  net_identify _ _ _ _ := Err "unreachable";
  net_replicate _ _ _ _ := Err "unreachable";
}.

(** ** Keys *)
Notation toy_ctors := (key_constructors (did_parser_new toy_keys)).

Lemma toy_key_1 : key_resolves toy_ctors 1%N.
Proof.
  exists (toy_did 1), 1%N. split; [done|]. split; [vm_compute; reflexivity|]. intros data sig [= <-]. cbn. by rewrite bool_decide_true.
Qed.

Lemma toy_key_2 : key_resolves toy_ctors 2%N.
Proof.
  exists (toy_did 2), 2%N. split; [done|]. split; [vm_compute; reflexivity|]. intros data sig [= <-]. cbn. by rewrite bool_decide_true.
Qed.

Lemma toy_key_did (k : N) : get_did k = Ok (toy_did k).
Proof. done. Qed.

Lemma toy_signs (k : N) b : exists sig, key_sign k b = Ok sig.
Proof. by eexists. Qed.

Lemma toy_path : opaque_path (toy_did 1) = true.
Proof. vm_compute. reflexivity. Qed.

Lemma toy_not_star : toy_did 1 <> "*".
Proof. done. Qed.

(** ** A context of the sphere's own key *)
Notation ToyDb := (SphereDb MemoryStore MemoryStore).
Notation ToyContext := (SphereContext (Key := N) (Cid := ToyCid) (B := MemoryStore) (KV := MemoryStore)).
Notation toy_version := (SphereRebase.version (Cid := ToyCid)).

Definition toy_db : ToyDb := mkDb memory_store_empty memory_store_empty memory_store_empty memory_store_empty.

Definition toy_context (db : ToyDb) : ToyContext :=
  mkContext (toy_did 1) (toy_did 1) (mkAuthor 1%N None) None db None (sphere_mutation_new (toy_did 1)).

Notation toy_sound := (sound (Url := ToyUrl) 10 toy_slugs toy_jwts).
Notation toy_writable := (writable (Url := ToyUrl) toy_keys 4 4 10).

Lemma toy_context_writable db : toy_writable (toy_context db).
Proof. unfold writable, context_access, access_to. cbn. by rewrite bool_decide_true. Qed.

Lemma toy_context_sound : exists (db : ToyDb) (x : toy_version), toy_sound (toy_context db) x (toy_did 1) 0 /\
  ver_value x = empty_value /\ lamport_order (ver_memo x) = 0%N /\ is_sphere_memo (ver_memo x).
Proof.
  destruct (toy_genesis toy_db) as (db1 & x & Hx & Ev & Hl & Hid & Hct & _).
  destruct (set_version_spec db1 (toy_did 1) (ver_cid x)) as (db2 & _ & Hsame & _ & Hver & _). apply same_blocks_le in Hsame.
  exists db2, x. split; [|split; [done|split; [done|]]].
  - split; [split|].
    + split; [exact Hver|exact (holds_mono _ _ _ Hsame Hx)].
    + cbn. rewrite Ev. apply empty_value_in.
    + split_and!; apply Forall_nil; exact I.
    + done.
    + done.
    + exact (toy_can_sign db2 10 1%N).
    + split; cbn; [rewrite Ev; intros slug cid; cbn; by rewrite lookup_empty|by intros slug cid ?%elem_of_nil].
  - exists "noo/sphere". split; [|done]. rewrite get_first_header_values, <- get_header_values, Hct. done.
Qed.

(** A file is written and saved. *)
Lemma file_content_memo (db : ToyDb) cid ct b : file_at db cid ct b -> ContentType.from_str ct <> ContentType.Sphere ->
  content_memo_at (length b) db cid.
Proof. intros (memo & bs & Hm & Hct & Hch & _ & Hl) Hns. by exists memo, ct, bs. Qed.

Lemma toy_written : exists (db0 db : ToyDb) (x y : toy_version) m, holds db0 x /\ ver_value x = empty_value /\
  lamport_order (ver_memo x) = 0%N /\ is_sphere_memo (ver_memo x) /\ succeeds (eq (toy_did 1)) db x m y /\ holds db x /\
  mutation_in toy_slugs toy_jwts m /\ exists cid, content_memo_at 2 db cid /\ file_at db cid "text/plain" [104; 105]%N /\
    m = with_content (sphere_mutation_new (toy_did 1)) (Add "foo" cid) /\ get_version db (toy_did 1) = Ok (Some (ver_cid y)).
Proof.
  destruct toy_context_sound as (db0 & x & Hs & Ev & Hl & Hsp). pose proof Hs as [Hr _]. pose proof Hr as [[Hver Hx] _ _ _ _ _].
  destruct (write_spec (Url := ToyUrl) (HasSphereContext0 := context_has_context) toy_keys 4 4 4 10 tt (toy_context db0) x "foo" "text/plain"
    [104; 105]%N None (toy_context_writable db0)) as (cid & db1 & _ & [Hle Hn] & Hf & _).
  { done. } { done. } { by apply (at_version_context _ _ (conj Hver Hx)). } { done. }
  { intros cid. rewrite Ev. cbn. by rewrite lookup_empty. }
  set (m := with_content (sphere_mutation_new (toy_did 1)) (Add "foo" cid)).
  assert (toy_sound (edited (toy_context db0) db1 m) x (toy_did 1) 4294967295) as [Hr1 _].
  { eapply sound_edited; [exact Hs|by split|lia|..].
    - split_and!; [|apply Forall_nil; exact I..]. constructor; [constructor|constructor].
    - done.
    - done.
    - cbn. intros slug cid' [= -> ->]%list_elem_of_singleton. right. eapply file_at_below; [exact Hf|]. intros memo _.
      pose proof (lamport_order_bound memo). lia. }
  destruct (default_save_spec (Url := ToyUrl) 10 toy_slugs toy_jwts toy_slugs_free toy_jwts_free [] (edited (toy_context db0) db1 m) x (toy_did 1) None Hr1)
    as (y & ctx' & _ & Hle' & Hy & Hr' & _ & Hid & _); [by rewrite Hl|done|done|].
  cbn in Hle', Hid. exists db0, (ctx_db ctx'), x, y, m. split; [done|]. split; [done|]. split; [done|]. split; [done|]. split; [exact Hy|].
  split; [exact (holds_mono _ _ _ (transitivity Hle Hle') Hx)|]. split; [apply Hr1|]. exists cid.
  assert (file_at (ctx_db ctx') cid "text/plain" [104; 105]%N) as Hf' by exact (file_at_mono _ _ _ _ _ Hle' Hf).
  split; [by apply (file_content_memo _ _ _ _ Hf')|]. split; [done|]. split; [done|]. rewrite <- Hid. apply Hr'.
Qed.

(** ** A context of the owner of a sphere *)

(** The token that [generate] gives to the owner. *)
Definition toy_owner_jwt : string :=
  match (let? sg := owner_signable (Url := ToyUrl) 10 1%N (toy_did 1) (toy_did 2) in let? u := sign [] sg in ucan_encode u) with
  | Ok jwt => jwt
  | _ => EmptyString
  end.
Definition toy_owner_cid : ToyCid := token_cid toy_owner_jwt.

(** A hash that tells this token from any other. *)
Definition toy_hash_token : HashAlgorithm ToyCid := fun c => replicate 32 (if decide (c = toy_owner_cid) then 0 else 1)%N.

Lemma toy_hash_token_laws : @HashAlgorithmLaws ToyCid toy_hash_token.
Proof. split. intros c. unfold hamt_hash, toy_hash_token. split; [by rewrite length_replicate|]. apply Forall_replicate. by destruct (decide _). Qed.

Section owner.
#[local] Existing Instance toy_hash_token.
#[local] Existing Instance toy_hash_token_laws.

Lemma toy_tokens_free c : collision_free (fun k => k = toy_owner_cid \/ k = c).
Proof.
  unfold collision_free, hamt_hash, toy_hash_token. intros a b Ha Hb E.
  destruct (decide (a = toy_owner_cid)), (decide (b = toy_owner_cid)); [congruence|done|done|]. naive_solver.
Qed.

Lemma toy_owner : exists (ctx : ToyContext) (y : toy_version) u,
  delegate (Url := ToyUrl) toy_keys 4 4 20 ctx y toy_owner_cid (mkChain u [] []) (toy_did 2) (toy_did 1) /\
  ctx_mutation ctx = sphere_mutation_new (toy_did 2) /\
  ver_value y = apply_value (owner_mutation (toy_did 1) toy_owner_cid) empty_value /\ lamport_order (ver_memo y) = 1%N /\
  expires_at u = Some (10 + SPHERE_LIFETIME)%N /\ ucan_encode u = Ok toy_owner_jwt /\ is_sphere_memo (ver_memo y).
Proof.
  destruct (owner_delegate (Key := N) (Url := ToyUrl) (Cid := ToyCid) toy_keys 4 4 20 1%N 2%N (toy_did 1) (toy_did 2) (toy_key_did 1) toy_key_1 (toy_signs 1) (toy_key_did 2) toy_key_2
    (toy_signs 2) toy_path toy_not_star [] 10 "mnemonic" toy_db toy_json_total)
    as (sg & u & jwt & y & db1 & db2 & ctx & _ & _ & _ & Esg & Eu & Ej & Hd & Hm & Hv & Hl & He & Hct); [done|done|lia|lia|].
  assert (toy_owner_jwt = jwt) as Hjwt by (unfold toy_owner_jwt; rewrite Esg; cbn [outcome_bind]; rewrite Eu; cbn [outcome_bind]; by rewrite Ej).
  exists ctx, y, u. unfold toy_owner_cid. rewrite Hjwt. split_and!; try done.
  exists "noo/sphere". by rewrite get_first_header_values, Hct.
Qed.
End owner.
