(* ===== verification/GatewayFixtures.v ===== *)
(** * Fixtures for synchronization

    A client whose sphere has a new version, and the gateway of that sphere, on the
    parameters of [ContextFixtures].

    A name system and an IPFS node in memory, and the sphere of a gateway that links
    the first version of its counterpart and has a petname. *)
From stdpp Require Import base gmap list numbers strings pretty countable.
From Stdlib Require Import Ascii String.
From S2P Require Import Prelude BlockStore HamtNode HamtRep Hamt HamtSpec BTree SphereDb BodyChunk VersionedMap.
From S2P Require Import UcanCapability Ucan UcanChain UcanProofs Authority AuthorityProofs Memo Sphere.
From S2P Require Import SphereProofs SphereHistory SphereRebase SphereGenesis Bundle BundleProofs Stream StreamProofs SphereContext SphereContextProofs SphereEdits.
From S2P Require Import ContextAuthority Api ClientProofs Gateway GatewayProofs Sync SyncProofs Instances UcanInstances SphereFixtures ContextFixtures.
From S2P Require Import Jobs JobProofs NameResolution.
#[local] Open Scope list_scope.
#[local] Notation length := List.length (only parsing).

(** ** Messages *)
#[export] Instance PushBody_eq_dec {Cid} `{EqDecision Cid} : EqDecision (PushBody Cid).
Proof. solve_decision. Defined.
#[export] Instance PushBody_countable {Cid} `{Countable Cid} : Countable (PushBody Cid).
Proof.
  refine (inj_countable' (fun b => (push_sphere b, local_base b, local_tip b, counterpart_tip b, name_record b))
    (fun '(a, b, c, d, e) => mkPush a b c d e) _).
  by intros [].
Defined.

#[export] Instance PushResponse_eq_dec {Cid} `{EqDecision Cid} : EqDecision (PushResponse Cid).
Proof. solve_decision. Defined.
#[export] Instance PushResponse_countable {Cid} `{Countable Cid} : Countable (PushResponse Cid).
Proof.
  refine (inj_countable' (fun r => match r with Accepted c => Some c | NoChange => None end)
    (fun r => match r with Some c => Accepted c | None => NoChange end) _).
  by intros [].
Defined.

#[export] Instance toy_api_codecs : ApiCodecs ToyCid := {}.
#[export] Instance toy_api_codecs_laws : ApiCodecsLaws ToyCid.
Proof. split; apply toy_codec_laws. Qed.

#[export] Instance toy_cid_default : CidDefault ToyCid := { cid_default := (0%N, []); cid_default_codec := eq_refl }.

(** One stream after the other. *)
#[export] Instance toy_merge : StreamMerge ToyCid := fun a b => (a.1 ++ b.1, let? _ := a.2 in b.2).

Notation ToyGateway := (Gateway (Cid := ToyCid) (C := ToyContext)).

#[export] Instance toy_gateway_api : GatewayApi ToyGateway N ToyCid := {
  net_identify gw _ _ _ := Ok (mkSession (toy_did 3) (ctx_identity (gateway_context gw)));
  net_replicate _ _ _ _ := Err "not served";
}.

(** ** The sphere of the gateway *)
Section pair.
#[local] Existing Instance toy_hash_token.
#[local] Existing Instance toy_hash_token_laws.
#[local] Existing Instance block_ucan_store.

Definition pair_names (k : string) : Prop := k ∈ ["foo"; toy_did 1].
Definition pair_tokens (c : ToyCid) : Prop := c = toy_owner_cid \/ c = toy_owner_cid.

Lemma pair_names_free : collision_free pair_names.
Proof. apply collision_free_list. apply (bool_decide_unpack _). vm_compute. exact I. Qed.

Lemma pair_tokens_free : collision_free pair_tokens.
Proof. exact (toy_tokens_free toy_owner_cid). Qed.

(** The key 3 keeps a sphere that links a version of the sphere of the key 1. *)
Definition link_mutation (c : ToyCid) : SphereMutation ToyCid := with_content (sphere_mutation_new (toy_did 3)) (Add (toy_did 1) c).

Lemma link_mutation_in c : mutation_in pair_names pair_tokens (link_mutation c).
Proof. split_and!; cbn; [|constructor..]. constructor; [right; left|constructor]. Qed.

Lemma toy_gateway_sphere (db : ToyDb) (c : ToyCid) : exists db' (g : toy_version), store_le db db' /\ holds db' g /\
  ver_value g = apply_value (link_mutation c) empty_value /\ lamport_order (ver_memo g) = 1%N /\ is_sphere_memo (ver_memo g).
Proof.
  destruct (sphere_ipld_new_spec (Cid := ToyCid) (toy_did 3) db) as (ipld & s1 & _ & Hle1 & Hv & Hid & _).
  destruct (genesis_spec s1 ipld 3%N (toy_did 3) Hv (toy_key_did 3) (toy_signs 3)) as (memo & s2 & memo' & c' & s3 & _ & _ & _ & Hle3 & Hx & _ & Hl & Hct).
  set (x := mkVersion c' memo' ipld empty_value) in *.
  destruct (commit_spec (Url := ToyUrl) pair_names pair_tokens pair_names_free pair_tokens_free s3 x (link_mutation c) [] 20 3%N None (toy_did 3) Hx)
    as (rev & s4 & y & rev' & s5 & _ & _ & Hle5 & Hy).
  - apply empty_in.
  - apply link_mutation_in.
  - done.
  - cbn. rewrite Hl. done.
  - apply (toy_can_sign s3 20 3%N).
  - exists s5, y. split; [by transitivity s1; [|transitivity s3]|]. pose proof Hy as (Hh & _ & Ev & _ & _ & Hlam & Hc & _).
    split; [done|]. split; [done|]. split; [rewrite Hlam; cbn; by rewrite Hl|]. exists "noo/sphere". rewrite get_first_header_values, Hc. cbn [x ver_memo]. by rewrite Hct.
Qed.

(** ** The pair *)
Definition toy_session : Session := mkSession (toy_did 3) (toy_did 3).

Definition client_context (db : ToyDb) : ToyContext :=
  mkContext (toy_did 1) (toy_did 1) (mkAuthor 2%N (Some (AuthCid toy_owner_cid))) (Some ReadWrite) db (Some toy_session)
    (sphere_mutation_new (toy_did 2)).

Definition gateway_at (db : ToyDb) : ToyGateway :=
  mkGateway (mkContext (toy_did 3) (toy_did 3) (mkAuthor 3%N None) None db None (sphere_mutation_new (toy_did 3)))
    (mkScope (toy_did 1) (toy_did 3) (toy_did 3)) [].

(** The client gives the petname "foo" to the key 4. *)
Definition name_mutation : SphereMutation ToyCid :=
  with_names (sphere_mutation_new (toy_did 2)) [Add "foo" (mkIdentity (toy_did 4) None)].

Lemma set_versions (db : ToyDb) (a b : ToyCid) : exists db', same_blocks db db' /\
  get_version db' (toy_did 1) = Ok (Some a) /\ get_version db' (toy_did 3) = Ok (Some b).
Proof.
  destruct (set_version_spec db (toy_did 1) a) as (db1 & _ & Hs1 & _ & Ha & _).
  destruct (set_version_spec db1 (toy_did 3) b) as (db2 & _ & Hs2 & _ & Hb & Ho). exists db2. split; [|split; [|done]].
  - destruct Hs1, Hs2. split; congruence.
  - rewrite Ho by done. exact Ha.
Qed.

Lemma toy_gateway_serving (db : ToyDb) (g : toy_version) c : holds db g -> get_version db (toy_did 3) = Ok (Some (ver_cid g)) ->
  ver_value g = apply_value (link_mutation c) empty_value -> lamport_order (ver_memo g) = 1%N -> is_sphere_memo (ver_memo g) ->
  (exists memo : MemoIpld ToyCid, stored db c memo) ->
  serving (Url := ToyUrl) toy_keys 4 4 20 pair_names pair_tokens (gateway_context (gateway_at db)) g (toy_did 3) 1.
Proof.
  intros Hg Hv Ev Hl Hsp Hc. split; cbn; [|done| |done| |by rewrite Hl].
  - split; [by split| |split_and!; by apply Forall_nil|done|done|apply (toy_can_sign db 20 3%N)].
    rewrite Ev. apply apply_value_in; [apply link_mutation_in|apply empty_in].
  - intros db' _ _. unfold writable, context_access, access_to. cbn. by rewrite bool_decide_true.
  - rewrite Ev. split; [|split]; cbn; [|by intros ? ? ?%elem_of_nil..]. by intros k c' [= -> ->]%list_elem_of_singleton.
Qed.

(** The owner makes requests with the token of the sphere. *)
Lemma toy_requester (db : ToyDb) u (cid : ToyCid) jwt :
  durable (Url := ToyUrl) toy_keys 20 None db cid (mkChain u [] []) -> ucan_encode u = Ok jwt ->
  sphere_chain (Url := ToyUrl) (toy_did 1) Authorize (mkChain u [] []) -> audience u = toy_did 2 -> not_before u = None ->
  expires_at u = Some (10 + SPHERE_LIFETIME)%N -> authentic db cid (as_bytes jwt) -> cid_codec cid = RAW ->
  requester (Url := ToyUrl) toy_keys 4 4 20 db (mkAuthor 2%N (Some (AuthCid cid))) (toy_did 1) (toy_did 2) cid
    (mkChain u [] []) [(cid, jwt)].
Proof.
  intros Hd Ej Hch Haud Hnb He Hau Hc. assert (token_at db cid jwt) as Ht by by split.
  assert (from_utf8 (as_bytes jwt) = Ok jwt) as Hu8.
  { unfold from_utf8. by rewrite (ascii_utf8 _ (ucan_encode_ascii u _ Ej)), string_of_as_bytes. }
  destruct (Hd db (reflexivity _)) as (token & u' & Et & Eu & Hv). rewrite (token_at_require db _ _ Ht Hu8) in Et. injection Et as <-.
  pose proof (chain_valid_ucan _ _ _ _ _ _ Hv) as Hu'. cbn in Hu'. subst u'.
  assert (try_map (cid_of_string (Cid := ToyCid)) (default [] (proofs u)) = Ok []) as Hp.
  { inversion Hv as [? ? ? _ HF _]; subst. apply Forall2_nil_inv_r in HF. by rewrite HF. }
  pose proof (durable_ucan (Url := ToyUrl) toy_keys 20 None db cid _ Hd) as Hucan.
  split; cbn [author_authorization author_key chain_ucan]; try done.
  - exact toy_key_2.
  - exact (toy_signs 2).
  - cbn [UcanChain.chain_ucan]. rewrite He. done.
  - change [cid] with ([] ++ [cid]). econstructor; [done|done|done|exact Hp|constructor].
  - exists jwt. split; [left|done].
  - cbn. lia.
  - cbn. lia.
Qed.

(** What the client holds as it grows. *)
Lemma toy_client (db : ToyDb) (ctx : ToyContext) (x t : toy_version) u (cid : ToyCid) :
  delegate (Url := ToyUrl) toy_keys 4 4 20 ctx x cid (mkChain u [] []) (toy_did 2) (toy_did 1) -> store_le (ctx_db ctx) db ->
  get_version db (toy_did 1) = Ok (Some (ver_cid t)) -> succeeds (eq (toy_did 2)) db x name_mutation t ->
  delegate (Url := ToyUrl) toy_keys 4 4 20
    (mkContext (toy_did 1) (toy_did 1) (mkAuthor 2%N (Some (AuthCid cid))) (Some ReadWrite) db (Some toy_session) (sphere_mutation_new (toy_did 2)))
    t cid (mkChain u [] []) (toy_did 2) (toy_did 1).
Proof.
  intros [_ _ _ _ _ _ (Hid & _ & Hk) Hd Hr Hch Haud Hnb Hc] Hle Hv (Ht & _ & Ev & Hit & _). split; cbn [ctx_author author_key author_authorization ctx_identity ctx_db]; try done.
  - exact toy_key_2.
  - exact (toy_signs 2).
  - split; [congruence|done].
  - by eapply durable_mono.
  - intros c' Hin. destruct (Hr c' Hin) as (cid' & d & E & Ed & Er). exists cid', d. rewrite Ev. done.
Qed.

Lemma name_mutation_in : mutation_in pair_names pair_tokens name_mutation.
Proof. split_and!; cbn; [constructor| |constructor..]. constructor; [left|constructor]. Qed.

Lemma owner_cid : toy_owner_cid = token_cid toy_owner_jwt.
Proof. reflexivity. Qed.

#[local] Opaque toy_owner_cid toy_owner_jwt.

Notation toy_paired := (paired (Url := ToyUrl) toy_keys 4 4 4 20 pair_names pair_tokens (eq (toy_did 2)) 1).

(** The client has given a petname since its last synchronization. *)
Lemma toy_pair : exists (db gdb : ToyDb) (x t g : toy_version) u,
  toy_paired (client_context db) (gateway_at gdb) toy_session x [(name_mutation, t)] g (toy_did 2) (toy_did 3) toy_owner_cid (mkChain u [] [])
    [(toy_owner_cid, toy_owner_jwt)] /\
  v_identities (ver_value g) = (∅, changelog_default) /\ v_identities (ver_value x) = (∅, changelog_default) /\ (v_identities (ver_value t)).1 = {[ "foo" := mkIdentity (toy_did 4) None ]} /\
  entries_at 1 gdb (ver_value t).
Proof.
  destruct toy_owner as (ctx & x & u & Hd & _ & Hv & Hl & He & Ej & Hsp).
  destruct (write_token_spec (ctx_db ctx) toy_owner_jwt) as (db1 & _ & Hle1 & Hau). rewrite <- owner_cid in Hau.
  destruct (toy_gateway_sphere db1 (ver_cid x)) as (db2 & g & Hle2 & Hg & Evg & Hlg & Hspg).
  destruct (set_versions db2 (ver_cid x) (ver_cid g)) as (gdb & Hsame3 & Hgx & Hgg). apply same_blocks_le in Hsame3 as Hle3.
  assert (store_le (ctx_db ctx) gdb) as Hle by (transitivity db1; [done|]; by transitivity db2).
  pose proof Hd as [[_ Hx] _ _ _ _ _ _ Hdur _ Hch Haud Hnb _].
  pose proof (delegate_can_sign (Url := ToyUrl) toy_keys 4 4 20 ctx x _ _ _ _ toy_json_total Hd ltac:(done)) as Hsign.
  assert (value_in pair_names pair_tokens (ver_value x)) as Hvx.
  { rewrite Hv. apply apply_value_in; [|apply empty_in]. split_and!; cbn; [constructor..| |constructor]. constructor; [by left|constructor]. }
  destruct (commit_spec (Url := ToyUrl) pair_names pair_tokens pair_names_free pair_tokens_free gdb x name_mutation [] 20 _ _ (toy_did 2)
    (holds_mono _ _ _ Hle Hx) Hvx name_mutation_in ltac:(done) ltac:(rewrite Hl; done) (can_sign_mono _ _ _ _ _ _ Hle Hsign))
    as (rev & db4 & t & rev' & db5 & _ & _ & Hle5 & Ht).
  destruct (set_versions db5 (ver_cid t) (ver_cid g)) as (db & Hsame & Hcx & Hcg). apply same_blocks_le in Hsame as Hle6.
  assert (store_le gdb db) as Hgd by (by transitivity db5). assert (store_le (ctx_db ctx) db) as Hd0 by (by transitivity gdb).
  assert (succeeds (eq (toy_did 2)) db x name_mutation t) as Ht' by exact (succeeds_mono _ _ _ _ _ _ Hle6 Ht).
  assert (authentic db toy_owner_cid (as_bytes toy_owner_jwt)) as Hau' by (apply Hgd, Hle3, Hle2, Hau).
  pose proof (toy_requester db u toy_owner_cid toy_owner_jwt (durable_mono _ _ _ _ _ _ _ Hd0 Hdur) Ej Hch Haud Hnb He Hau'
    ltac:(rewrite owner_cid; apply (cid_codec_new (Cid := ToyCid)))) as Hq.
  pose proof (toy_client db ctx x t u toy_owner_cid Hd Hd0 Hcx Ht') as Hcl.
  pose proof (toy_gateway_serving gdb g (ver_cid x) (holds_mono _ _ _ Hle3 Hg) Hgg Evg Hlg Hspg
    (ex_intro _ (ver_memo x) (proj1 (holds_mono _ _ _ Hle Hx)))) as Hsv.
  pose proof (holds_mono _ _ _ Hle3 Hg) as Hg3.
  assert (pushed_changes [(name_mutation, t)] = [Add "foo" (mkIdentity (toy_did 4) None)]) as Hpush.
  { destruct Ht' as (_ & _ & Ev & _). unfold pushed_changes. cbn. by rewrite Ev. }
  exists db, gdb, x, t, g, u. split; [split; try done|split; [|split; [|split]]].
  - split; [right; left|]. rewrite Hpush. constructor; [left|constructor].
  - split; cbn [length]; try done.
    + constructor; [exact (holds_mono _ _ _ Hd0 Hx)|exact Ht'|constructor; apply Ht'].
    + lia.
    + constructor; [|constructor]. cbn [snd]. destruct Ht' as (_ & _ & -> & _). rewrite Hv. split; [|split]; cbn; [by intros ? ? ?%elem_of_nil| |].
      * intros k i [= -> ->]%list_elem_of_singleton. done.
      * intros k d [= -> ->]%list_elem_of_singleton. exists [(toy_owner_cid, toy_owner_jwt)]. split; [apply Hq|done].
    + constructor; [exact name_mutation_in|constructor].
    + rewrite Hl. done.
    + lia.
  - split; [done|]. exact (holds_mono _ _ _ Hgd Hg3).
  - split; [done|]. exact (holds_mono _ _ _ Hle Hx).
  - rewrite Evg. exact (lookup_insert_eq (∅ : gmap string ToyCid) (toy_did 1) (ver_cid x)).
  - by rewrite Evg.
  - by rewrite Hv.
  - destruct Ht' as (_ & _ & -> & _). by rewrite Hv.
  - destruct Ht' as (_ & _ & -> & _). rewrite Hv. split; [|split]; cbn; [by intros ? ? ?%elem_of_nil| |].
    + intros k i [= -> ->]%list_elem_of_singleton. done.
    + intros k d [= -> ->]%list_elem_of_singleton. exists toy_owner_jwt. split; [apply Hle3, Hle2, Hau|]. rewrite owner_cid. apply (cid_codec_new (Cid := ToyCid)).
Qed.
End pair.

(** ** Fixtures for the jobs of a gateway *)
#[export] Instance SyndicationCheckpoint_eq_dec {Cid} `{EqDecision Cid} : EqDecision (SyndicationCheckpoint Cid).
Proof. solve_decision. Defined.
#[export] Instance SyndicationCheckpoint_countable {Cid} `{Countable Cid} : Countable (SyndicationCheckpoint Cid).
Proof. refine (inj_countable' (fun c => (last_syndicated_counterpart_version c, syndication_epoch c)) (fun p => mkCheckpoint p.1 p.2) _). by intros []. Defined.

(** ** A node: the roots of the CARs that it took *)
Notation ToyNode := (list ToyCid).

#[export] Instance toy_node : IpfsClient ToyNode ToyCid := {
  server_identity _ := Ok "node";
  syndicate_blocks node car :=
    match car with
    | Ok (roots, (_, Ok _)) => (Ok tt, node ++ roots)
    | _ => (Err "The CAR cannot be read", node)
    end;
  pin_blocks node _ := (Ok tt, node);
}.

#[export] Instance toy_node_replies : NodeReplies ToyNode ToyCid.
Proof.
  split; cbn.
  - intros node [[roots [blocks [[]| | |]]]| | |]; [left; by exists tt|right; by eexists..].
  - intros node _. left. by exists tt.
  - done.
  - done.
Qed.

(** ** A name system: the records that it has, and those published *)
Definition encodes (record : Ucan) : Prop := exists jwt, ucan_encode record = Ok jwt /\ from_utf8 (as_bytes jwt) = Ok jwt /\ ucan_from_str jwt = Ok record.

Record ToyNames := mkNames { records : string -> option Ucan; published : list Ucan; records_encode : forall did record, records did = Some record -> encodes record }.

#[export] Instance toy_names : NameResolver ToyNames := {
  publish ns record := (Ok tt, mkNames (records ns) (published ns ++ [record]) (records_encode ns));
  resolve ns did := Ok (records ns did);
}.

#[export] Instance toy_names_laws : NameResolverLaws ToyNames.
Proof.
  split; cbn.
  - intros ns did. left. by eexists.
  - intros ns did record [= E]. exact (records_encode ns did record E).
Qed.

(** A record of the sphere [did]. *)
Lemma toy_record (did : string) (expiry : N) : exists u jwt, ucan_encode u = Ok jwt /\ from_utf8 (as_bytes jwt) = Ok jwt /\ ucan_from_str jwt = Ok u /\
  jwt <> "" /\ to_sphere_identity u = did /\ expires_at u = Some expiry.
Proof.
  destruct (capabilities_of_vec []) as [caps| | |] eqn:Ec; try (vm_compute in Ec; discriminate Ec).
  destruct (sign_total [] (mkSignable 1%N did [] (Some expiry) None [] [] false) (toy_did 1) caps toy_json_total) as (u & jwt & Es & Ej);
    [done|done|apply toy_signs|].
  destruct (sign_inv _ _ _ Es) as (Hwf & _ & _ & He & _ & Ha & _). exists u, jwt. split; [done|]. split.
  { unfold from_utf8. by rewrite (ascii_utf8 _ (ucan_encode_ascii u _ Ej)), string_of_as_bytes. }
  split; [by apply ucan_encode_decode|]. split; [|done].
  unfold ucan_encode in Ej. destruct (jwt_base64_encode (header u)) as [h| | |]; try done. cbn [outcome_bind] in Ej.
  destruct (jwt_base64_encode (payload u)) as [p| | |]; try done. cbn [outcome_bind] in Ej. injection Ej as <-. by destruct h.
Qed.

(** ** The sphere of the gateway *)

(** The counterpart is the sphere of the key 1; the key 4 has the petname "foo". *)
Definition job_names (k : string) : Prop :=
  k ∈ ["foo"; "bar"; toy_did 1; counterpart_link_record_key (toy_did 1); checkpoint_key "node"].

Lemma job_names_free : collision_free job_names.
Proof. apply collision_free_list. apply (bool_decide_unpack _). vm_compute. exact I. Qed.

Definition served_mutation (c : ToyCid) : SphereMutation ToyCid :=
  with_identity (with_content (sphere_mutation_new (toy_did 3)) (Add (toy_did 1) c)) (Add "foo" (mkIdentity (toy_did 4) None)).

Lemma served_mutation_in c : mutation_in job_names toy_jwts (served_mutation c).
Proof. split_and!; cbn; [| |constructor..]; (constructor; [|constructor]); cbn; unfold job_names; set_solver. Qed.

Definition serving_context (db : ToyDb) : ToyContext :=
  mkContext (toy_did 3) (toy_did 3) (mkAuthor 3%N None) None db None (sphere_mutation_new (toy_did 3)).

Lemma serving_writable db : toy_writable (serving_context db).
Proof. unfold writable, context_access, access_to. cbn. by rewrite bool_decide_true. Qed.

Notation job_ready := (ready (Url := ToyUrl) 10 job_names toy_jwts).

(** A version of the gateway's sphere on top of [x]. *)
Lemma serving_commit (db : ToyDb) (x : toy_version) m : holds db x -> value_in job_names toy_jwts (ver_value x) -> mutation_in job_names toy_jwts m ->
  mutation_by m (toy_did 3) -> (lamport_order (ver_memo x) < 1000)%N -> exists db' y, store_le db db' /\ succeeds (eq (toy_did 3)) db' x m y.
Proof.
  intros Hx Hv Hm Hby Hl.
  destruct (commit_spec (Url := ToyUrl) job_names toy_jwts job_names_free toy_jwts_free db x m [] 10 3%N None (toy_did 3) Hx Hv Hm Hby)
    as (rev & s1 & y & rev2 & s2 & _ & _ & Hle & Hy).
  - lia.
  - apply (toy_can_sign db 10 3%N).
  - by exists s2, y.
Qed.

(** The version and the counterpart in the database. *)
Lemma serving_at (db : ToyDb) (x : toy_version) : holds db x -> value_in job_names toy_jwts (ver_value x) ->
  exists db', store_le db db' /\ job_ready (serving_context db') x (toy_did 3) /\ serves db' (toy_did 1).
Proof.
  intros Hx Hv. destruct (set_version_spec db (toy_did 3) (ver_cid x)) as (db1 & _ & Hs1 & _ & Hg & _).
  destruct (db_set_key_spec (Cid := ToyCid) db1 COUNTERPART (toy_did 1)) as (db2 & _ & Hs2 & Hvs & Hk & _).
  apply same_blocks_le in Hs1, Hs2. assert (store_le db db2) as Hle by by transitivity db1. exists db2. split; [done|]. split.
  - split; cbn; [|done|split_and!; by apply Forall_nil|done|done|apply (toy_can_sign db2 10 3%N)].
    split; [|exact (holds_mono _ _ _ Hle Hx)]. cbn. unfold get_version. rewrite Hvs. exact Hg.
  - change (db_require_key (V := string) db2 COUNTERPART = Ok (toy_did 1)). unfold db_require_key. by rewrite Hk.
Qed.

(** The first version of the counterpart, and the version of the gateway that links it. *)
Lemma toy_serving : exists (db : ToyDb) (v x : toy_version), holds db v /\ holds db x /\ ver_value v = empty_value /\
  parent (ver_memo v) = None /\ is_sphere_memo (ver_memo v) /\
  ver_value x = apply_value (served_mutation (ver_cid v)) empty_value /\ lamport_order (ver_memo x) = 1%N.
Proof.
  destruct (toy_genesis toy_db) as (db0 & v & Hv & Ev & _ & _ & Hct & Hp).
  destruct (sphere_ipld_new_spec (Cid := ToyCid) (toy_did 3) db0) as (ipld & s1 & _ & Hle1 & Hb & Hid & _).
  destruct (genesis_spec s1 ipld 3%N (toy_did 3) Hb (toy_key_did 3) (toy_signs 3)) as (memo & s2 & memo' & c' & s3 & _ & _ & _ & Hle3 & Hx & _ & Hl & _).
  destruct (serving_commit s3 (mkVersion c' memo' ipld empty_value) (served_mutation (ver_cid v)) Hx (empty_in _ _) (served_mutation_in _) ltac:(done))
    as (db & x & Hle & Hxx); [cbn; rewrite Hl; done|].
  exists db, v, x. pose proof Hxx as (Hh & _ & Evx & _ & _ & Hlx & _).
  split; [eapply holds_mono; [|exact Hv]; by transitivity s1; [|transitivity s3]|].
  split; [done|]. split; [done|]. split; [done|]. split; [|split; [done|rewrite Hlx; cbn; by rewrite Hl]].
  exists "noo/sphere". split; [|done]. rewrite get_first_header_values, <- get_header_values, Hct. done.
Qed.
