(* ===== verification/ReplicationTheorems.v ===== *)
(** * The properties of the database, of bodies, and of what is sent between stores *)
From stdpp Require Import base gmap list numbers strings pretty relations.
From Stdlib Require Import Ascii String.
From S2P Require Import Prelude BlockStore HamtNode HamtRep Hamt HamtSpec BTree SphereDb BodyChunk.
From S2P Require Import VersionedMap UcanCapability Ucan UcanChain Authority Memo.
From S2P Require Import Sphere SphereProofs SphereHistory SphereRebase.
From S2P Require Import Bundle BundleProofs Stream StreamProofs SphereContext SphereContextProofs SphereEdits.
From S2P Require Import Instances UcanInstances SphereFixtures ContextFixtures.
#[local] Open Scope list_scope.
#[local] Notation length := List.length (only parsing).

(** ** The database *)
Section database.
Context {Cid B KV : Type} `{Countable Cid} `{CidLaws Cid} `{!BlockStore B Cid} `{!BlockStoreLaws B Cid} `{StoreLaws KV}.
Context `{!BlockCodec Cid} `{!BlockCodecLaws Cid Cid} `{!BlockCodec (list Cid)} `{!BlockCodecLaws Cid (list Cid)}.
Notation SphereDb := (SphereDb B KV).
Implicit Types (db : SphereDb) (c : Cid).

(** What a client can write: a value under the CID of its encoding, a block or the links of
    a block by themselves, a stream of blocks, the blocks of a memory store, and the names of
    versions and metadata. *)
Inductive DbWrite : Type :=
  | Save (codec : N) (block : bytes)
  | PutBlock (c : Cid) (block : bytes)
  | PutLinks (codec : N) (c : Cid) (block : bytes)
  | PutStream (blocks : list (Cid * bytes)) (ending : outcome unit)
  | Persist (m : MemoryStore)
  | SetVersion (identity : string) (version : Cid)
  | SetKey (V : Type) (codec : BlockCodec V) (key : string) (value : V)
  | UnsetKey (key : string).

(** The database after a write, whether the write succeeds or fails. *)
Definition db_write db (op : DbWrite) : SphereDb :=
  match op with
  | Save codec block => (put_encoded (Cid := Cid) db codec block).2
  | PutBlock c block => (db_put_block db c block).2
  | PutLinks codec c block => (db_put_links db codec c block).2
  | PutStream blocks ending => (put_block_stream db (blocks, ending)).2
  | Persist m => (persist (Cid := Cid) db m).2
  | SetVersion identity version => (set_version db identity version).2
  | SetKey V codec key value => (db_set_key db key value).2
  | UnsetKey key => (db_unset_key db key).2
  end.

(** Blocks of these CIDs have links. *)
Definition linking c : bool := (cid_codec c =? DAG_CBOR)%N || (cid_codec c =? RAW)%N.

Definition links_readable (codec : N) (block : bytes) : bool := match references (Cid := Cid) codec block with Ok _ => true | _ => false end.

(** The CIDs whose links are not to be relied on, after blocks were brought with their links:
    the first one whose links cannot be read ends it. *)
Fixpoint brought (blocks : list (Cid * bytes)) (bare : gset Cid) : gset Cid :=
  match blocks with
  | [] => bare
  | (c, block) :: blocks =>
      if linking c then if links_readable (cid_codec c) block then brought blocks (bare ∖ {[c]}) else {[c]} ∪ bare
      else brought blocks bare
  end.

(** The blocks of a memory store in the order of a persist, up to one that is missing. *)
Fixpoint found_blocks (m : MemoryStore) (cids : list Cid) : list (Cid * bytes) :=
  match cids with
  | [] => []
  | c :: cids => match require_block m c with Ok block => (c, block) :: found_blocks m cids | _ => [] end
  end.

(** The CIDs whose links are not to be relied on after a write: those of a block put by
    itself, of a block whose links cannot be read, and of links that are put for another block
    than the one that is held. *)
Definition left_bare db (op : DbWrite) (bare : gset Cid) : gset Cid :=
  match op with
  | Save codec block => brought [(derive_cid codec block, block)] bare
  | PutBlock c block => {[c]} ∪ bare
  | PutLinks codec c block =>
      if links_readable codec block then
        if bool_decide (get_block db c = Ok (Some block)) && (codec =? cid_codec c)%N then bare ∖ {[c]} else {[c]} ∪ bare
      else bare
  | PutStream blocks _ => brought blocks bare
  | Persist m => brought (found_blocks m (get_stored_cids m)) bare
  | _ => bare
  end.

Fixpoint db_writes db (ops : list DbWrite) (bare : gset Cid) : SphereDb * gset Cid :=
  match ops with
  | [] => (db, bare)
  | op :: ops => db_writes (db_write db op) ops (left_bare db op bare)
  end.

(** The links of every block are recorded, apart from those of [bare]. *)
Definition recorded_but (bare : gset Cid) db : Prop := forall c b, get_block db c = Ok (Some b) -> linking c = true -> c ∉ bare ->
  exists links : list Cid, references (cid_codec c) b = Ok links /\ get_block_links db c = Ok (Some links).

Lemma put_block_but bare db c b : recorded_but bare db -> recorded_but ({[c]} ∪ bare) (db_put_block db c b).2.
Proof.
  intros Hr c' b'. unfold db_put_block. destruct (put_block_spec (block_store db) c b) as (s' & -> & Hg & Ho). cbn [snd]. cbn [get_block db_block_store].
  unfold db_get_block. cbn [block_store]. intros Hg' Hl Hn. rewrite Ho in Hg' by set_solver. apply (Hr c' b' Hg' Hl). set_solver.
Qed.

(** Links that are put for a CID concern no other one. *)
Lemma put_links_other db codec c b c' : c' <> c -> get_block_links (Cid := Cid) (db_put_links db codec c b).2 c' = get_block_links db c'.
Proof.
  intros Hne. unfold db_put_links. destruct (references codec b) as [links| | |]; [|done..]. cbn [try_with].
  destruct (set_key_spec (Cid := Cid) (link_store db) (link_key c) links) as (kv & -> & _ & Ho). cbn [snd]. unfold get_block_links. cbn [link_store].
  apply get_key_ext, Ho. by intros E%link_key_inj.
Qed.

Lemma put_links_blocks db codec c b : block_store (db_put_links (Cid := Cid) db codec c b).2 = block_store db.
Proof. unfold db_put_links. destruct (references codec b) as [links| | |]; [|done..]. cbn [try_with]. by destruct (set_key _ _ _). Qed.

Lemma put_links_but bare db codec c b : recorded_but bare db -> recorded_but (left_bare db (PutLinks codec c b) bare) (db_put_links db codec c b).2.
Proof.
  intros Hr c' b'. cbn [get_block db_block_store left_bare]. unfold db_get_block at 1. rewrite put_links_blocks. intros Hg Hl Hn.
  destruct (decide (c' = c)) as [->|Hne]; [|rewrite put_links_other by done; apply (Hr c' b' Hg Hl); repeat case_match; set_solver].
  unfold links_readable in Hn. unfold db_put_links. destruct (references codec b) as [links| | |] eqn:Er; [|by apply (Hr c b')..]. cbn [try_with].
  destruct (set_key_spec (Cid := Cid) (link_store db) (link_key c) links) as (kv & -> & Hk & _). cbn [snd].
  case_bool_decide as Hb; cbn [andb] in Hn; [|set_solver]. destruct (N.eqb_spec codec (cid_codec c)) as [->|]; [|set_solver].
  exists links. split; [|exact Hk]. cbn in Hb. unfold db_get_block in Hb. congruence.
Qed.

Lemma put_both_but bare db c b : recorded_but bare db ->
  let '(r, db') := put_block_and_links c b db in
  (if linking c && negb (links_readable (cid_codec c) b) then r <> Ok tt /\ recorded_but ({[c]} ∪ bare) db'
   else r = Ok tt /\ recorded_but (if linking c then bare ∖ {[c]} else bare) db').
Proof.
  intros Hr. unfold put_block_and_links, linking. pose proof (put_block_but bare db c b Hr) as H1'. cbn [put_block put_links db_block_store].
  unfold db_put_block in H1' |- *. destruct (put_block_spec (block_store db) c b) as (s' & E & Hg & Ho). rewrite E in H1' |- *. cbn [try_with snd] in H1' |- *.
  set (db1 := mkDb s' _ _ _) in *. assert (get_block db1 c = Ok (Some b)) as Hg1 by exact Hg.
  assert (forall codec, cid_codec c = codec -> let '(r, db') := db_put_links db1 codec c b in
    if negb (links_readable (cid_codec c) b) then r <> Ok tt /\ recorded_but ({[c]} ∪ bare) db' else r = Ok tt /\ recorded_but (bare ∖ {[c]}) db') as Hput.
  { intros codec <-. pose proof (put_links_but _ db1 (cid_codec c) c b H1') as H2'. cbn [left_bare] in H2'. unfold db_put_links, links_readable in *.
    destruct (references (cid_codec c) b) as [links| | |]; cbn [try_with negb snd] in *; [|by split..].
    destruct (set_key_spec (Cid := Cid) (link_store db1) (link_key c) links) as (kv & Ek & _). rewrite Ek in H2' |- *. cbn [snd] in H2'. split; [done|].
    rewrite bool_decide_eq_true_2, N.eqb_refl in H2' by done. cbn [andb] in H2'. intros c' b' Hc' Hl' Hn'. apply (H2' c' b' Hc' Hl'). set_solver. }
  destruct (N.eqb_spec (cid_codec c) DAG_CBOR) as [Ec|Ec]; cbn [orb andb]; [by apply Hput|].
  destruct (N.eqb_spec (cid_codec c) RAW) as [Er|Er]; cbn [orb andb]; [by apply Hput|]. split; [done|]. intros c' b' Hc' Hl' Hn'. apply (H1' c' b' Hc' Hl').
  intros [->%elem_of_singleton|Hin]%elem_of_union; [|done]. unfold linking in Hl'. apply orb_true_iff in Hl' as [?%N.eqb_eq|?%N.eqb_eq]; done.
Qed.

Lemma puts_but blocks : forall bare db, recorded_but bare db ->
  recorded_but (brought blocks bare) (for_each_st (fun '(c, b) => put_block_and_links (Cid := Cid) c b) blocks db).2.
Proof.
  induction blocks as [|[c b] blocks IH]; intros bare db Hr; [done|]. cbn [for_each_st brought]. pose proof (put_both_but bare db c b Hr) as Hp.
  destruct (put_block_and_links c b db) as [r db1]. destruct (linking c); cbn [andb] in Hp; [destruct (links_readable _ _); cbn [negb] in Hp|].
  - destruct Hp as [-> Hp]. cbn [try_with]. by apply IH.
  - destruct Hp as [Hne Hp]. by destruct r as [[]| | |].
  - destruct Hp as [-> Hp]. cbn [try_with]. by apply IH.
Qed.

Lemma persist_but (m : MemoryStore) cids : forall bare db, recorded_but bare db -> recorded_but (brought (found_blocks m cids) bare)
  (for_each_st (fun c db => let? block := require_block m c keeping db in put_block_and_links (Cid := Cid) c block db) cids db).2.
Proof.
  induction cids as [|c cids IH]; intros bare db Hr; [done|]. cbn [for_each_st found_blocks]. destruct (require_block m c) as [b| | |]; cbn [try_with]; [|done..].
  cbn [brought]. pose proof (put_both_but bare db c b Hr) as Hp.
  destruct (put_block_and_links c b db) as [r db1]. destruct (linking c); cbn [andb] in Hp; [destruct (links_readable _ _); cbn [negb] in Hp|].
  - destruct Hp as [-> Hp]. cbn [try_with]. by apply IH.
  - destruct Hp as [Hne Hp]. by destruct r as [[]| | |].
  - destruct Hp as [-> Hp]. cbn [try_with]. by apply IH.
Qed.

Lemma same_blocks_but bare db db' : same_blocks db db' -> recorded_but bare db -> recorded_but bare db'.
Proof.
  intros [Hb Hl] Hr c b Hg. cbn in Hg. unfold db_get_block in Hg. rewrite Hb in Hg.
  unfold get_block_links. rewrite Hl. by apply Hr.
Qed.

(** A value is saved as its block is brought. *)
Lemma put_encoded_both db codec b : linking (derive_cid codec b) = true ->
  (put_encoded (Cid := Cid) db codec b).2 = (put_block_and_links (derive_cid (Cid := Cid) codec b) b db).2.
Proof.
  unfold linking, put_encoded, put_block_and_links, derive_cid. rewrite cid_codec_new. intros Hl. destruct (put_block _ _ _) as [[[]| | |] db1]; cbn [try_with]; try done.
  destruct (N.eqb_spec codec DAG_CBOR) as [->|]; [by destruct (put_links _ _ _ _) as [[[]| | |] db2]|].
  destruct (N.eqb_spec codec RAW) as [->|]; [by destruct (put_links _ _ _ _) as [[[]| | |] db2]|done].
Qed.

Lemma save_but bare db codec b : recorded_but bare db -> recorded_but (brought [(derive_cid codec b, b)] bare) (put_encoded (Cid := Cid) db codec b).2.
Proof.
  intros Hr. cbn [brought]. destruct (linking (derive_cid codec b)) eqn:Hl.
  - rewrite put_encoded_both by done. pose proof (puts_but [(derive_cid codec b, b)] bare db Hr) as Hp. cbn [for_each_st brought] in Hp. rewrite Hl in Hp.
    destruct (put_block_and_links _ b db) as [r db1]. by destruct r as [[]| | |].
  - unfold put_encoded. pose proof (put_block_but bare db (derive_cid codec b) b Hr) as H1'. cbn [put_block put_links db_block_store].
    assert (forall db', recorded_but ({[derive_cid codec b]} ∪ bare) db' -> recorded_but bare db') as Hdrop.
    { intros db' Hd c' b' Hc' Hl' Hn'. apply (Hd c' b' Hc' Hl'). intros [->%elem_of_singleton|?]%elem_of_union; congruence. }
    pose proof (put_links_but _ _ codec (derive_cid codec b) b H1') as H2'. destruct (db_put_block db _ b) as [[[]| | |] db1]; cbn [snd] in *; [|by apply Hdrop..].
    assert (recorded_but bare (db_put_links db1 codec (derive_cid codec b) b).2) as Hl2.
    { apply Hdrop. intros c' b' Hc' Hl' Hn'. apply (H2' c' b' Hc' Hl'). cbn [left_bare]. repeat case_match; set_solver. }
    by destruct (db_put_links db1 codec _ b) as [[[]| | |] db2].
Qed.

(** Writes that bring every block with its links, and only blocks whose links can be read. *)
Definition with_links (cb : Cid * bytes) : Prop := linking cb.1 = true -> links_readable (cid_codec cb.1) cb.2 = true.

Definition tidy (op : DbWrite) : Prop :=
  match op with
  | Save codec block => with_links (derive_cid codec block, block)
  | PutBlock _ _ | PutLinks _ _ _ => False
  | PutStream blocks _ => Forall with_links blocks
  | Persist m => Forall with_links (found_blocks m (get_stored_cids m))
  | _ => True
  end.

Lemma brought_tidy blocks : Forall with_links blocks -> brought blocks ∅ = ∅.
Proof.
  induction 1 as [|[c b] blocks Hb _ IH]; [done|]. cbn [brought]. unfold with_links in Hb. cbn [fst snd] in Hb. destruct (linking c); [|done].
  rewrite Hb by done. by replace (∅ ∖ {[c]}) with (∅ : gset Cid) by set_solver.
Qed.

Lemma tidy_leaves_none db op : tidy op -> left_bare db op ∅ = ∅.
Proof.
  destruct op; cbn [tidy left_bare]; try done; intros Ht; apply brought_tidy; [|done..]. by constructor.
Qed.

Lemma tidy_writes ops : forall db, Forall tidy ops -> (db_writes db ops ∅).2 = ∅.
Proof.
  induction ops as [|op ops IH]; intros db Ht; [done|]. apply Forall_cons in Ht as [Hop Ht]. cbn [db_writes]. rewrite tidy_leaves_none by done. by apply IH.
Qed.

Lemma db_write_but bare db op : recorded_but bare db -> recorded_but (left_bare db op bare) (db_write db op).
Proof.
  intros Hr. destruct op as [codec b|c b|codec c b|blocks r|m|identity c|V codec key v|key]; cbn [db_write left_bare].
  - by apply save_but.
  - by apply put_block_but.
  - by apply (put_links_but bare).
  - unfold put_block_stream. pose proof (puts_but blocks bare db Hr) as Hp. destruct (for_each_st _ blocks db) as [[[]| | |] db1]; exact Hp.
  - by apply persist_but.
  - eapply same_blocks_but; [|exact Hr]. unfold set_version. by destruct (set_key _ _ _).
  - eapply same_blocks_but; [|exact Hr]. unfold db_set_key. by destruct (set_key _ _ _).
  - eapply same_blocks_but; [|exact Hr]. unfold db_unset_key. by destruct (unset_key _ _).
Qed.

Lemma writes_but ops : forall db bare, recorded_but bare db -> recorded_but (db_writes db ops bare).2 (db_writes db ops bare).1.
Proof. induction ops as [|op ops IH]; intros db bare Hr; [done|]. cbn [db_writes]. apply IH. by apply db_write_but. Qed.

(** C24: whatever sequence of values, blocks, links, streams of blocks, persisted stores,
    versions and metadata a client writes, and whichever of the writes fail because the links
    of a block cannot be read, the database has exactly the links of every block that it holds
    under a codec with links, apart from the blocks that were last put by themselves, without
    their links, or whose links cannot be read, or for whose CID the links of another block
    were put.  When every block comes with its links and the links can be read, there are no
    such blocks.  The stores that the database is made of do what they are told. *)
Theorem links_always_recorded db ops : recorded_but ∅ db ->
  let '(db', bare) := db_writes db ops ∅ in recorded_but bare db' /\ (Forall tidy ops -> bare = ∅).
Proof.
  intros Hr. pose proof (writes_but ops db ∅ Hr) as Hw. pose proof (tidy_writes ops db) as Ht. by destruct (db_writes db ops ∅).
Qed.

(** Walking the links from a root ends, within one pop for the root and one for
    each link of a CID that can come up, and yields exactly the CIDs that can be
    reached through CIDs the predicate accepts, each of them once, even if the
    links have cycles. *)
Theorem link_walk_exact db (predicate : Cid -> outcome bool) (U : gset Cid) c fuel :
  queryable db predicate -> closed db U -> c ∈ U -> 1 + pending db U ∅ <= fuel ->
  exists items, query_links fuel db c predicate = (items, Ok tt) /\ NoDup items /\ forall d, d ∈ items <-> linked db predicate c d.
Proof. apply query_links_spec. Qed.
End database.

(** ** Bodies *)
Section bodies.
Context {S Cid : Type} `{EqDecision Cid} `{CidLaws Cid} `{!BlockStore S Cid} `{!BlockStoreLaws S Cid}.
Context `{!BlockCodec (BodyChunkIpld Cid)} `{!BlockCodecLaws Cid (BodyChunkIpld Cid)} `{FastCdcLaws}.

(** C38: bytes that are not empty are stored as chunks of at least one byte and at
    most a mebibyte, and every store that has the chunks reads the same bytes
    back, one step for each byte at most. *)
Theorem body_chunks_bounded (b : bytes) (s : S) : b <> [] ->
  exists (c : Cid) s' bs, store_bytes b s = (Ok c, s') /\ store_le s s' /\ chunks_at s' (Some c) bs /\
    Forall (fun chunk => 0 < length chunk /\ (N.of_nat (length chunk) <= BODY_CHUNK_MAX_SIZE)%N) bs /\
    forall s2 fuel, store_le s' s2 -> length b <= fuel -> read_body fuel s2 c = Ok b.
Proof.
  intros Hb. destruct (store_bytes_spec b s Hb) as (c & s' & bs & E & Hle & Hat & Hj & Hlen & Hsz). exists c, s', bs.
  split; [done|]. split; [done|]. split; [done|]. split; [done|]. intros s2 fuel Hle2 Hf. unfold read_body.
  rewrite (decoder_spec s2 (Some c) bs (chunks_at_mono _ _ _ _ Hle2 Hat) fuel) by lia. cbn [outcome_bind]. by rewrite Hj.
Qed.
End bodies.

(** ** What is sent between stores *)
Section replication.
Context {Cid S : Type} `{UnicodeLaws} `{Base64} `{DagJson UcanHeader} `{DagJson UcanPayload}.
Context `{Countable Cid} `{HashAlgorithmLaws string} `{HashAlgorithmLaws Cid} `{KeyOrderLaws Cid}.
Context `{CidLaws Cid} `{!BlockStore S Cid} `{!BlockStoreLaws S Cid} `{!SphereCodecs Cid} `{!SphereCodecsLaws Cid}.
Context `{!EntryCodecs Cid} `{!EntryCodecsLaws Cid}.
Notation SphereMutation := (SphereMutation Cid).
Notation version := (SphereRebase.version (Cid := Cid)).
Implicit Types (s : S) (x y : version) (l : list (SphereMutation * version)) (n : nat).

(** The stream of the body of a version, put into any store in any order,
    leaves the whole version there: its maps, the memos and bodies of its
    contents, and the tokens of its petnames and delegations with their proofs. *)
Theorem body_stream_delivers_version n k s x :
  n <= k -> levels DEFAULT_BIT_WIDTH * value_size (ver_value x) <= k -> holds s x -> is_sphere_memo (ver_memo x) ->
  all_entries_at n s (ver_value x) ->
  exists blocks, memo_body_stream (2 + k) s (ver_cid x) true = (blocks, Ok tt) /\
    forall blocks' s0, blocks' ≡ₚ blocks -> exists s1, put_block_stream s0 (blocks', Ok tt) = (Ok tt, s1) /\
      store_le s0 s1 /\ holds s1 x /\ all_entries_at n s1 (ver_value x).
Proof.
  intros Hk Hsz Hx Hsp He. destruct (taps_body_stream n k s x Hk Hsz Hx Hsp He) as (blocks & E & Hsound & HR). exists blocks.
  split; [exact E|]. intros blocks' s0 Hperm.
  destruct (put_block_stream_spec s0 blocks' (Ok tt)) as (s1 & E1 & Hle1 & Hall); [by rewrite Hperm|].
  exists s1. split; [done|]. split; [done|]. apply HR. intros c b Hin. apply Hall. by rewrite Hperm.
Qed.

Context (P : string -> Prop) (Q : Cid -> Prop) (HP : collision_free P) (HQ : collision_free Q).

(** C9: a bundle of the versions since [x], loaded into a store that holds [x]
    and hydrated there, restores every one of them: the receiver has the same
    lineage as the sender, with the memos and bodies of what was added since [x] and the
    last version still links. *)
Theorem bundle_restores_lineage A n s0 s x l :
  lineage A s0 x l -> l <> [] -> ver_cid x ∉ cids l -> length l <= 2 + n ->
  is_sphere_memo (ver_memo x) -> Forall (fun my => entries_at n s0 (ver_value my.2)) l ->
  value_in P Q (ver_value x) -> Forall (fun my => mutation_in P Q my.1) l ->
  (lamport_order (ver_memo x) + N.of_nat (length l) < 2 ^ 32)%N -> holds s x ->
  exists bundle s1 s2, let t := exclude_past (slice (ver_cid (tip x l)) (Some (ver_cid x))) in
    from_timeslice (2 + n) s0 t = Ok bundle /\ load_into (Cid := Cid) bundle s = (Ok tt, s1) /\
    hydrate_timeslice (2 + n) t s1 = (Ok tt, s2) /\ store_le s s2 /\ lineage A s2 x l /\
    forall slug link, (v_content (ver_value (tip x l))).1 !! slug = Some link ->
      (v_content (ver_value x)).1 !! slug = Some link \/ content_memo_at n s2 link.
Proof. apply (bundle_lineage P Q HP HQ). Qed.

(** So does the stream of the history since [x], whatever the order in which
    its blocks arrive. *)
Theorem history_stream_restores_lineage A n k s0 s x l fuel :
  lineage A s0 x l -> l <> [] -> ver_cid x ∉ cids l -> length l <= fuel -> n <= k ->
  is_sphere_memo (ver_memo x) -> Forall (fun my => added_at true n s0 (ver_value my.2)) l ->
  value_in P Q (ver_value x) -> Forall (fun my => mutation_in P Q my.1) l ->
  (lamport_order (ver_memo x) + N.of_nat (length l) < 2 ^ 32)%N -> holds s x ->
  exists blocks, memo_history_stream fuel (Datatypes.S k) s0 (ver_cid (tip x l)) (Some (ver_cid x)) true = (blocks, Ok tt) /\
    forall blocks', blocks' ≡ₚ blocks ->
    exists s1 s2, put_block_stream s (blocks', Ok tt) = (Ok tt, s1) /\
      hydrate_timeslice fuel (exclude_past (slice (ver_cid (tip x l)) (Some (ver_cid x)))) s1 = (Ok tt, s2) /\
      store_le s s2 /\ lineage A s2 x l /\
      forall slug link, (v_content (ver_value (tip x l))).1 !! slug = Some link ->
        (v_content (ver_value x)).1 !! slug = Some link \/ content_memo_at n s2 link.
Proof. apply (stream_lineage P Q HP HQ). Qed.
End replication.

Section ledgers.
Context {Cid : Type} `{Countable Cid} `{CidOps Cid}.

(** [record_stream_orphans] lets every block of a stream pass, and when the
    stream ends it adds to the orphans exactly the blocks that no block of the
    stream refers to; a stream that fails adds none. *)
Theorem orphans_exact (seen : gset Cid) (blocks : list (Cid * bytes)) (e : string) : Forall StreamProofs.readable blocks ->
  (exists found, record_stream_orphans seen (blocks, Ok tt) = ((blocks, Ok tt), seen ∪ found) /\
    forall c, c ∈ found <-> c ∈ blocks.*1 /\ ~ exists cb, cb ∈ blocks /\ c ∈ block_links cb) /\
  record_stream_orphans seen (blocks, Err e) = ((blocks, Err e), seen).
Proof.
  intros Hr. unfold record_stream_orphans. destruct (record_blocks_spec blocks ledger_default Hr) as (ledger & E & Hb & Hrf).
  rewrite E. split; [|done]. exists (orphans ledger). split; [done|]. intros c. unfold orphans. rewrite elem_of_difference, Hb, Hrf.
  cbn. split; [intros [[Hc%elem_of_empty|Hc] Hn]; [done|]; naive_solver|]. intros [Hc Hn]. split; [by right|].
  intros [Hc'%elem_of_empty|Hc']; [done|naive_solver].
Qed.
End ledgers.

(** ** Runs *)
Section runs.
#[local] Open Scope N_scope.
#[local] Open Scope list_scope.

Lemma toy_db_recorded : recorded_but (Cid := ToyCid) ∅ toy_db.
Proof. intros c b Hg. vm_compute in Hg. discriminate Hg. Qed.

(** A value is saved, and a block is put by itself. *)
Definition toy_saved : ToyCid := (DAG_CBOR, [Npos (encode [1; 2]%N)]).
Definition toy_writes : list (DbWrite (Cid := ToyCid)) :=
  [Save DAG_CBOR [Npos (encode [1; 2]%N)]; PutBlock (RAW, [7]%N) [7]%N; SetVersion "sphere" toy_saved].

Lemma links_always_recorded_witness :
  exists (db : ToyDb) bare, db_writes toy_db toy_writes ∅ = (db, bare) /\ recorded_but (Cid := ToyCid) bare db /\
    toy_saved ∉ bare /\ get_block_links db toy_saved = Ok (Some []) /\
    get_block db (RAW, [7]%N) = Ok (Some [7]%N) /\ (RAW, [7]%N) ∈ bare /\ get_block_links (Cid := ToyCid) db (RAW, [7]%N) = Ok None.
Proof.
  pose proof (links_always_recorded (Cid := ToyCid) toy_db toy_writes toy_db_recorded) as Hw.
  exists (db_writes toy_db toy_writes ∅).1, (db_writes toy_db toy_writes ∅).2. split; [by destruct (db_writes _ _ _)|].
  split; [by destruct (db_writes toy_db toy_writes ∅) as [db bare]; destruct Hw|].
  split; [apply (bool_decide_unpack (toy_saved ∉ _)); vm_compute; exact I|]. split; [vm_compute; reflexivity|]. split; [vm_compute; reflexivity|].
  split; [apply (bool_decide_unpack ((RAW, [7]%N) ∈ _)); vm_compute; exact I|vm_compute; reflexivity].
Defined.

(** A root that refers to itself and to another block. *)
Definition cyclic_links : MemoryStore :=
  (set_key memory_store_empty (link_key (Cid := ToyCid) (DAG_CBOR, [])) [(DAG_CBOR, [1]); (DAG_CBOR, [])]).2.
Definition cyclic_db : ToyDb := mkDb memory_store_empty cyclic_links memory_store_empty memory_store_empty.

Lemma cyclic_links_of (c : ToyCid) :
  get_block_links cyclic_db c = Ok (if decide (c = (DAG_CBOR, [])) then Some [(DAG_CBOR, [1]); (DAG_CBOR, [])] else None).
Proof.
  destruct (set_key_spec (Cid := ToyCid) memory_store_empty (link_key (Cid := ToyCid) (DAG_CBOR, [])) [(DAG_CBOR, [1]); (DAG_CBOR, [])] : _)
    as (kv & E & Hg & Ho).
  unfold get_block_links, cyclic_db, cyclic_links. cbn [link_store]. rewrite E. cbn [snd]. destruct (decide _) as [->|Hne]; [exact Hg|].
  rewrite (get_key_ext memory_store_empty kv).
  - done.
  - apply Ho. intros Ek. by apply Hne, link_key_inj.
Qed.

Lemma link_walk_exact_witness :
  exists items, query_links 3 cyclic_db ((DAG_CBOR, []) : ToyCid) (fun _ => Ok true) = (items, Ok tt) /\ NoDup items /\
    forall d, d ∈ items <-> linked cyclic_db (fun _ => Ok true) ((DAG_CBOR, []) : ToyCid) d.
Proof.
  apply (link_walk_exact cyclic_db (fun _ => Ok true) {[(DAG_CBOR, []); (DAG_CBOR, [1])]} (DAG_CBOR, []) 3).
  - split; [by eexists|]. intros c. rewrite cyclic_links_of. by eexists.
  - intros c d Hc. unfold links_of. rewrite cyclic_links_of. destruct (decide _); [|by intros ?%elem_of_nil]. set_solver.
  - set_solver.
  - unfold pending. vm_compute. lia.
Defined.

Lemma body_chunks_bounded_witness :
  exists (c : ToyCid) s', store_bytes [1; 2; 3] memory_store_empty = (Ok c, s') /\ read_body 3 s' c = Ok [1; 2; 3].
Proof.
  destruct (body_chunks_bounded (Cid := ToyCid) [1; 2; 3] memory_store_empty ltac:(discriminate)) as (c & s' & bs & E & _ & _ & _ & Hr).
  exists c, s'. split; [exact E|]. apply Hr; [reflexivity|cbn; lia].
Defined.

Lemma orphans_exact_witness :
  exists found : gset ToyCid, record_stream_orphans ∅ ([((RAW, [1]), [1])], Ok tt) = (([((RAW, [1]), [1])], Ok tt), ∅ ∪ found) /\
    (RAW, [1]) ∈ found.
Proof.
  destruct (orphans_exact (Cid := ToyCid) ∅ [((RAW, [1]), [1])] "") as [(found & E & Hf) _].
  - constructor; [|constructor]. intros _. by exists [].
  - exists found. split; [exact E|]. apply Hf. split; [constructor|]. intros (cb & ->%list_elem_of_singleton & Hc). by apply elem_of_nil in Hc.
Defined.

(** The version that writes a file, as it is sent. *)
Lemma toy_sent : exists (db0 db : ToyDb) (x y : toy_version) m, holds db0 x /\ lineage (eq (toy_did 1)) db x [(m, y)] /\
  ver_cid x ∉ cids [(m, y)] /\ is_sphere_memo (ver_memo x) /\ lamport_order (ver_memo x) = 0%N /\
  value_in toy_slugs toy_jwts (ver_value x) /\ mutation_in toy_slugs toy_jwts m /\
  entries_at 2 db (ver_value y) /\ added_at true 2 db (ver_value y) /\ is_sphere_memo (ver_memo y) /\ all_entries_at 2 db (ver_value y) /\
  value_size (ver_value y) = 1%nat.
Proof.
  destruct toy_written as (db0 & db & x & y & m & Hx0 & Ev & Hl & Hsp & Hy & Hx & Hm & cid & Hc & _ & Em & _).
  pose proof Hy as (_ & _ & Evy & _). rewrite Ev, Em in Evy.
  assert (log_values (content_memo_at 2 db) (v_content (ver_value y)).2) as Hlog.
  { rewrite Evy. cbn. by intros k c [= -> ->]%list_elem_of_singleton. }
  assert (log_values (identity_at 2 db) (v_identities (ver_value y)).2) as Hlog2 by (rewrite Evy; cbn; by intros k c ?%elem_of_nil).
  exists db0, db, x, y, m. split; [done|]. split; [by apply toy_lineage|]. split; [exact (succeeds_cid _ db x y m Hx Hy)|]. split; [done|]. split; [done|].
  split; [rewrite Ev; apply empty_value_in|]. split; [done|].
  split; [split; [done|split; [done|rewrite Evy; cbn; by intros k c ?%elem_of_nil]]|].
  split; [split; [done|split; [done|rewrite Evy; cbn; by intros k c ?%elem_of_nil]]|].
  split; [exact (is_sphere_succeeds _ db x m y Hy Hsp)|]. rewrite Evy. split; [|by vm_compute].
  split; [|split]; intros k c Hk; [|discriminate Hk..].
  cbn in Hk. rewrite apply_part_fst in Hk. cbn in Hk. apply lookup_insert_Some in Hk as [[_ <-]|[_ Hk]]; [done|discriminate Hk].
Qed.

Lemma body_stream_delivers_version_witness :
  exists (db s1 : ToyDb) (y : toy_version) blocks, memo_body_stream 66 db (ver_cid y) true = (blocks, Ok tt) /\
    put_block_stream toy_db (blocks, Ok tt) = (Ok tt, s1) /\ holds s1 y.
Proof.
  destruct toy_sent as (db0 & db & x & y & m & _ & Hl & _ & _ & _ & _ & _ & _ & _ & Hsp & He & Hsz). exists db.
  destruct (body_stream_delivers_version (S := ToyDb) 2 64 db y) as (blocks & E & Hput).
  - lia.
  - rewrite Hsz. vm_compute. lia.
  - by inversion Hl as [|? ? ? ? _ (Hy & _)].
  - exact Hsp.
  - exact He.
  - destruct (Hput blocks toy_db (reflexivity _)) as (s1 & E1 & _ & Hy & _). exists s1, y, blocks. split; [exact E|]. split; [exact E1|exact Hy].
Defined.

Lemma bundle_restores_lineage_witness :
  exists (db0 db s1 s2 : ToyDb) (x y : toy_version) m bundle,
    from_timeslice 4 db (exclude_past (slice (ver_cid y) (Some (ver_cid x)))) = Ok bundle /\
    load_into (Cid := ToyCid) bundle db0 = (Ok tt, s1) /\
    hydrate_timeslice 4 (exclude_past (slice (ver_cid y) (Some (ver_cid x)))) s1 = (Ok tt, s2) /\ lineage (eq (toy_did 1)) s2 x [(m, y)].
Proof.
  destruct toy_sent as (db0 & db & x & y & m & Hx0 & Hl & Hx & Hsp & Hlam & Hv & Hm & He & _).
  destruct (bundle_restores_lineage toy_slugs toy_jwts toy_slugs_free toy_jwts_free (eq (toy_did 1)) 2 db db0 x [(m, y)] Hl)
    as (bundle & s1 & s2 & E1 & E2 & E3 & _ & Hl2 & _); [done|done|cbn; lia|done|by constructor|done|by constructor|by rewrite Hlam|done|].
  exists db0, db, s1, s2, x, y, m, bundle. split; [exact E1|]. split; [exact E2|]. split; [exact E3|exact Hl2].
Defined.

Lemma history_stream_restores_lineage_witness :
  exists (db0 db s1 s2 : ToyDb) (x y : toy_version) m blocks,
    memo_history_stream 1 3 db (ver_cid y) (Some (ver_cid x)) true = (blocks, Ok tt) /\
    put_block_stream db0 (reverse blocks, Ok tt) = (Ok tt, s1) /\
    hydrate_timeslice 1 (exclude_past (slice (ver_cid y) (Some (ver_cid x)))) s1 = (Ok tt, s2) /\ lineage (eq (toy_did 1)) s2 x [(m, y)].
Proof.
  destruct toy_sent as (db0 & db & x & y & m & Hx0 & Hl & Hx & Hsp & Hlam & Hv & Hm & _ & He & _).
  destruct (history_stream_restores_lineage toy_slugs toy_jwts toy_slugs_free toy_jwts_free (eq (toy_did 1)) 2 2 db db0 x [(m, y)] 1 Hl)
    as (blocks & E & Hput); [done|done|cbn; lia|lia|done|by constructor|done|by constructor|by rewrite Hlam|done|].
  destruct (Hput (reverse blocks) (reverse_Permutation _)) as (s1 & s2 & E1 & E2 & _ & Hl2 & _).
  exists db0, db, s1, s2, x, y, m, blocks. split; [exact E|]. split; [exact E1|]. split; [exact E2|exact Hl2].
Defined.
End runs.
