(* ===== verification/ContextTheorems.v ===== *)
(** * The properties of sphere contexts *)
From stdpp Require Import base gmap list numbers strings pretty.
From Stdlib Require Import Ascii String.
From S2P Require Import Prelude BlockStore HamtNode HamtRep Hamt HamtSpec BTree SphereDb BodyChunk.
From S2P Require Import VersionedMap UcanCapability Ucan UcanChain Authority Memo.
From S2P Require Import Sphere SphereProofs SphereHistory SphereRebase.
From S2P Require Import Bundle BundleProofs SphereContext SphereContextProofs SphereEdits SphereWalker SphereWalkerProofs.
From S2P Require Import Instances UcanInstances SphereFixtures ContextFixtures.
#[local] Open Scope list_scope.
#[local] Notation length := List.length (only parsing).

Section context_theorems.
Context {Key Url Cid B KV Net : Type} `{UnicodeLaws}.
Context `{KeyMaterial Key} `{Bs58} `{Base64} `{DagJson UcanHeader} `{DagJson UcanPayload} `{UrlOps Url}.
Context `{Countable Cid} `{HashAlgorithmLaws string} `{HashAlgorithmLaws Cid} `{KeyOrderLaws Cid}.
Context `{CidLaws Cid} `{!BlockStore B Cid} `{!BlockStoreLaws B Cid} `{StoreLaws KV}.
Context `{!SphereCodecs Cid} `{!SphereCodecsLaws Cid} `{!EntryCodecs Cid} `{!EntryCodecsLaws Cid}.
Context `{!ContextCodecs Cid} `{!ContextCodecsLaws Cid} `{FastCdcLaws} `{!GatewayApi Net Key Cid}.
Context (supported_keys : list (bytes * (bytes -> outcome Key))).
Context (fuel walk_fuel body_fuel : nat) (clock : N) (net : Net).
Notation version := (SphereRebase.version (Cid := Cid)).
Notation context := (SphereContext (Key := Key) (Cid := Cid) (B := B) (KV := KV)).
Notation writable := (writable (Url := Url) supported_keys fuel walk_fuel clock).
Notation write := (write (Url := Url) supported_keys fuel walk_fuel body_fuel clock net).
Notation save := (default_save (Url := Url) clock).
Notation read := (read body_fuel net).
Implicit Types (ctx : context) (x y : version) (slug name : string).

(** ** Without write access *)



(** ** Content *)
Context (P : string -> Prop) (Q : Cid -> Prop) (HP : collision_free P) (HQ : collision_free Q).
Notation ready := (ready (Url := Url) clock P Q).

(** The memo that a slug is linked to. *)
Definition linked_memo {C} `{!HasSphereContext (Key := Key) (Cid := Cid) (B := B) (KV := KV) C} (c : C) slug : outcome (option Cid) :=
  let? file := (read c slug).1 in Ok (file_memo_version <$> file).

Lemma linked_memo_spec {C} `{!HasSphereContext (Key := Key) (Cid := Cid) (B := B) (KV := KV) C} `{!HasSphereContextLaws C} (c : C) x slug :
  SphereContext.version c = Ok (ver_cid x) -> holds (context_db c) x ->
  (forall cid, (v_content (ver_value x)).1 !! slug = Some cid -> readable (context_db c) cid) ->
  linked_memo c slug = Ok ((v_content (ver_value x)).1 !! slug).
Proof.
  intros Hv Hx Hr. unfold linked_memo. pose proof (read_spec body_fuel net c x slug Hv Hx) as Hrd.
  destruct (_ !! slug) as [cid|]; [|by rewrite Hrd].
  destruct (Hrd (Hr cid eq_refl)) as (file & Eg & ->). cbn.
  destruct (get_file_spec body_fuel net c (ver_cid x) cid (Hr cid eq_refl)) as (file' & Eg' & <- & _).
  by assert (file' = file) as -> by congruence.
Qed.

Lemma linked_memo_at ctx x slug : at_version ctx x ->
  (forall cid, (v_content (ver_value x)).1 !! slug = Some cid -> readable (ctx_db ctx) cid) ->
  linked_memo ctx slug = Ok ((v_content (ver_value x)).1 !! slug).
Proof. intros Hat. exact (linked_memo_spec (HasSphereContext0 := context_has_context) ctx x slug (at_version_context _ _ Hat) (proj2 Hat)). Qed.

(** C22: what is written to a slug and saved is read back: the bytes and the content
    type are those written, under the memo that [write] returned, at the version
    that [save] returned; every other slug is linked as before. *)
Theorem write_save_read ctx x did rng slug ct b :
  ready ctx x did -> writable ctx -> has_unsaved_changes ctx = false -> (lamport_order (ver_memo x) + 1 < 2 ^ 32)%N ->
  P slug -> slug <> "" -> b <> [] -> length b <= body_fuel -> (forall slug, replaceable (ctx_db ctx) x slug) ->
  exists cid ctx1 y ctx2, write ctx slug ct (Ok b) None = (Ok cid, ctx1) /\ save rng ctx1 None = (Ok (ver_cid y), ctx2) /\
    store_le (ctx_db ctx) (ctx_db ctx2) /\ ready ctx2 y did /\
    (exists file bs, read ctx2 slug = (Ok (Some file), ctx2) /\ file_memo_version file = cid /\ file_sphere_version file = ver_cid y /\
      get_first_header (file_memo file) CONTENT_TYPE = Some ct /\ file_contents file = (bs, Ok tt) /\ mjoin bs = b) /\
    forall slug', slug' <> slug -> linked_memo ctx2 slug' = linked_memo ctx slug'.
Proof.
  intros Hr Hw Hun Hlam HPs Hne Hb Hf Hrep. pose proof Hr as [[Hver Hx] Hval Hm Hby Hau Hs].
  destruct (write_spec (Url := Url) (HasSphereContext0 := context_has_context) supported_keys fuel walk_fuel body_fuel clock net ctx x slug ct b None Hw Hne Hb)
    as (cid & db1 & Ew & Hg & Hfile & _); [by apply at_version_context|done|done|].
  destruct (with_content_in P Q (ctx_mutation ctx) (Add slug cid) did Hm Hby Hau HPs) as (M1 & M2 & M3).
  set (ctx1 := edited ctx db1 (with_content (ctx_mutation ctx) (Add slug cid))).
  assert (ready ctx1 x did) as Hr1 by by apply ready_edited.
  assert (has_unsaved_changes ctx1 = true) as Hun1.
  { unfold has_unsaved_changes, sphere_mutation_is_empty. cbn. rewrite length_app, Nat.add_1_r. done. }
  destruct (default_save_spec (Url := Url) clock P Q HP HQ rng ctx1 x did None Hr1 Hlam Hun1 eq_refl)
    as (y & ctx2 & Es & Hle & Hy & Hr2 & _).
  exists cid, ctx1, y, ctx2. split; [exact Ew|]. split; [exact Es|].
  assert (store_le (ctx_db ctx) (ctx_db ctx2)) as Hle2 by (transitivity db1; [apply Hg|exact Hle]).
  split; [done|]. split; [done|]. pose proof Hr2 as [Hat2 _ _ _ _ _]. pose proof Hy as (_ & _ & Ev & _).
  assert (mutation_changes (content_mutation (ctx_mutation ctx)) = []) as Hnil.
  { unfold has_unsaved_changes in Hun. cbn in Hun. apply negb_false_iff in Hun. unfold sphere_mutation_is_empty in Hun.
    rewrite !andb_true_iff, !Nat.eqb_eq in Hun. by apply nil_length_inv, Hun. }
  assert (forall slug', (v_content (ver_value y)).1 !! slug' = if decide (slug' = slug) then Some cid else (v_content (ver_value x)).1 !! slug') as Hc.
  { intros slug'. rewrite Ev. cbn. rewrite apply_part_fst. cbn. rewrite Hnil. cbn. destruct (decide _) as [->|Hn]; [by rewrite lookup_insert_eq|].
    by rewrite lookup_insert_ne. }
  split.
  - destruct (read_file (HasSphereContext0 := context_has_context) body_fuel net ctx2 y slug cid ct b (at_version_context _ _ Hat2) (proj2 Hat2))
      as (file & bs & Er & ? & ? & ? & ? & ?); [by rewrite Hc, decide_True|exact (file_at_mono _ _ _ _ _ Hle Hfile)|done|].
    exists file, bs. done.
  - assert (forall db slug' c, store_le (ctx_db ctx) db -> (v_content (ver_value x)).1 !! slug' = Some c -> readable db c) as Hrd.
    { intros db slug' c Hle' Hc'. destruct (Hrep slug' c Hc') as (memo & ct' & b' & Hm' & Hct & Ha & _). exists memo, ct', b'.
      split; [exact (stored_mono _ _ _ _ Hle' Hm')|]. split; [done|]. apply (Hle' _ _ Ha). }
    intros slug' Hn. rewrite (linked_memo_at ctx x), (linked_memo_at ctx2 y); try done.
    + by rewrite Hc, decide_False.
    + intros c. rewrite Hc, decide_False by done. by apply Hrd.
    + intros c. by apply Hrd.
Qed.

(** C5: whatever sequence of writes, removals, petnames and saves an application
    runs, with whatever errors, the context is at a version that its database
    holds, the versions that were saved form a lineage of the author on top of the
    one it started from, and every slug can be read. *)
Theorem edits_keep_context_sound (es : list (bytes * edit)) ctx x did k :
  sound (Url := Url) clock P Q ctx x did k -> Forall (fun e => edit_in P e.2) es ->
  (k + N.of_nat (length es) < 2 ^ 32)%N -> (lamport_order (ver_memo x) + N.of_nat (length es) < 2 ^ 32)%N ->
  let ctx' := run_edits (Url := Url) supported_keys fuel walk_fuel body_fuel clock net es ctx in
  exists l, store_le (ctx_db ctx) (ctx_db ctx') /\ lineage (eq did) (ctx_db ctx') x l /\ length l <= length es /\
    sound (Url := Url) clock P Q ctx' (tip x l) did (k + N.of_nat (length es)) /\
    forall slug, linked_memo ctx' slug = Ok ((v_content (ver_value (tip x l))).1 !! slug).
Proof.
  intros Hs He Hk Hlam ctx'.
  destruct (run_edits_sound (Url := Url) supported_keys fuel walk_fuel body_fuel clock net P Q HP HQ es ctx x did k Hs He Hk Hlam) as (l & Hle & Hl & Hs' & Hlen).
  exists l. split; [done|]. split; [done|]. split; [done|]. split; [done|]. destruct Hs' as [Hr' [Hf _]]. intros slug.
  apply linked_memo_at; [apply Hr'|]. intros cid Hc. eapply file_below_readable, Hf, Hc.
Qed.

(** A write of no bytes fails, since the body of a file has at least one
    chunk, and leaves the pending changes as they were. *)
Theorem empty_write_rejected ctx slug ct headers : writable ctx -> slug <> "" ->
  write ctx slug ct (Ok []) headers =
    (Err "No CID; did you try to store zero bytes?", with_access ctx (Some ReadWrite)).
Proof.
  intros Hw Hs. unfold SphereContext.write. rewrite edited_access by done. cbn [try_with]. unfold validate_slug.
  rewrite bool_decide_false by done. cbn [try_with]. rewrite edited_db, store_bytes_empty. cbn [try_with snd]. rewrite edited_put_db.
  unfold edited. by destruct ctx.
Qed.

(** ** Petnames *)

(** Unassigning a petname that was assigned since the last save does nothing:
    the change is compared with the saved version, where the petname is not
    assigned, so the pending assignment remains and the next save makes it. *)
Theorem pending_petname_not_unset ctx x did rng name peer :
  ready ctx x did -> writable ctx -> (lamport_order (ver_memo x) + 1 < 2 ^ 32)%N -> P name -> validate_petname name = Ok tt ->
  peer <> ctx_identity ctx -> (v_identities (ver_value x)).1 !! name = None ->
  exists ctx1 ctx2 y ctx3,
    set_petname (Url := Url) supported_keys fuel walk_fuel clock ctx name (Some peer) = (Ok tt, ctx1) /\
    set_petname (Url := Url) supported_keys fuel walk_fuel clock ctx1 name None = (Ok tt, ctx2) /\
    save rng ctx2 None = (Ok (ver_cid y), ctx3) /\ get_petname ctx3 name = Ok (Some peer).
Proof.
  intros Hr Hw Hlam HPn Hval Hself Hnone. pose proof Hr as [[Hver Hx] _ Hm Hby Hau _].
  set (m := with_identity (ctx_mutation ctx) (Add name (mkIdentity peer None))). set (ctx1 := edited ctx (ctx_db ctx) m).
  assert (set_petname (Url := Url) supported_keys fuel walk_fuel clock ctx name (Some peer) = (Ok tt, ctx1)) as E1.
  { rewrite (set_petname_spec (Url := Url) (HasSphereContext0 := context_has_context) supported_keys fuel walk_fuel clock ctx x name (Some peer) Hw
      (at_version_context _ _ (conj Hver Hx)) Hx Hval) by by intros [= E]. rewrite Hnone. done. }
  assert (set_petname (Url := Url) supported_keys fuel walk_fuel clock ctx1 name None = (Ok tt, ctx1)) as E2.
  { rewrite (set_petname_spec (Url := Url) (HasSphereContext0 := context_has_context) supported_keys fuel walk_fuel clock ctx1 x name None); try done.
    - rewrite Hnone. by destruct ctx.
    - exact (at_version_context ctx x (conj Hver Hx)). }
  destruct (with_identity_in P Q (ctx_mutation ctx) (Add name (mkIdentity peer None)) did Hm Hby Hau HPn) as (M1 & M2 & M3).
  destruct (default_save_spec (Url := Url) clock P Q HP HQ rng ctx1 x did None) as (y & ctx3 & Es & Hle & Hy & Hr3 & _).
  { by apply ready_edited. } { done. }
  { unfold has_unsaved_changes, sphere_mutation_is_empty. cbn. rewrite length_app, Nat.add_1_r, andb_false_r. done. } { done. }
  exists ctx1, ctx1, y, ctx3. split; [done|]. split; [done|]. split; [exact Es|]. pose proof Hr3 as [Hat3 _ _ _ _ _].
  rewrite (get_petname_spec (HasSphereContext0 := context_has_context) ctx3 y name (at_version_context _ _ Hat3) (proj2 Hat3)).
  destruct Hy as (_ & _ & -> & _). change (ctx_mutation ctx1) with m. cbn [apply_value v_identities]. rewrite apply_part_fst.
  unfold m. cbn [with_identity identities_mutation mutation_changes]. rewrite apply_ops_app. cbn. by rewrite lookup_insert_eq.
Qed.
End context_theorems.

(** ** Cursors and walkers *)
Section walker_theorems.
Context {Key Url Cid B KV Net : Type} `{UnicodeLaws}.
Context `{KeyMaterial Key} `{Bs58} `{Base64} `{DagJson UcanHeader} `{DagJson UcanPayload} `{UrlOps Url}.
Context `{Countable Cid} `{HashAlgorithmLaws string} `{HashAlgorithmLaws Cid} `{KeyOrderLaws Cid}.
Context `{CidLaws Cid} `{!BlockStore B Cid} `{!BlockStoreLaws B Cid} `{StoreLaws KV}.
Context `{!SphereCodecs Cid} `{!SphereCodecsLaws Cid} `{!EntryCodecs Cid} `{!EntryCodecsLaws Cid}.
Context `{!ContextCodecs Cid} `{!ContextCodecsLaws Cid} `{FastCdcLaws} `{!GatewayApi Net Key Cid}.
Context (fuel walk_fuel body_fuel : nat) (clock : N) (net : Net).
Notation version := (SphereRebase.version (Cid := Cid)).
Notation context := (SphereContext (Key := Key) (Cid := Cid) (B := B) (KV := KV)).
Implicit Types (ctx : context) (x y : version) (slug name : string).
Context (P : string -> Prop) (Q : Cid -> Prop) (HP : collision_free P) (HQ : collision_free Q).

(** A cursor that is mounted to a version reads that version, whatever the
    context has saved since, and an unmounted one the latest; mounting takes the
    latest version, rewinding goes to its parent; and saving through a mounted
    cursor commits to the latest version and mounts the one that was made. *)
Theorem cursors_read_their_version A ctx x m y slug did rng :
  ready (Url := Url) clock P Q ctx y did -> succeeds A (ctx_db ctx) x m y -> holds (ctx_db ctx) x ->
  (forall cid, (v_content (ver_value x)).1 !! slug = Some cid \/ (v_content (ver_value y)).1 !! slug = Some cid -> readable (ctx_db ctx) cid) ->
  has_unsaved_changes ctx = true -> (lamport_order (ver_memo y) + 1 < 2 ^ 32)%N ->
  linked_memo body_fuel net (mounted_at ctx (ver_cid x)) slug = Ok ((v_content (ver_value x)).1 !! slug) /\
  linked_memo body_fuel net (latest ctx) slug = Ok ((v_content (ver_value y)).1 !! slug) /\
  mounted ctx = Ok (mounted_at ctx (ver_cid y)) /\
  rewind (mounted_at ctx (ver_cid y)) = (Ok (Some (ver_cid x)), mounted_at ctx (ver_cid x)) /\
  exists z ctx', 
      cursor_save (HasMutableSphereContext0 := context_has_mutable_context (Url := Url) clock) rng (mounted_at ctx (ver_cid x)) None = (Ok (ver_cid z), mounted_at ctx' (ver_cid z)) /\
    succeeds (eq did) (ctx_db ctx') y (ctx_mutation ctx) z.
Proof.
  intros Hr Hs Hx Hrd Hun Hlam. pose proof Hr as [Hat _ _ _ _ _]. pose proof (at_version_context _ _ Hat) as Hver.
  pose proof Hs as (Hy & Hp & _).
  split; [|split; [|split; [|split]]].
  - apply (linked_memo_spec (HasSphereContext0 := cursor_has_context (C := context)) body_fuel net (mounted_at ctx (ver_cid x)) x); [done|done|]. auto.
  - apply (linked_memo_spec (HasSphereContext0 := cursor_has_context (C := context)) body_fuel net (latest ctx) y); [done|done|]. auto.
  - unfold mounted, mount. cbn. by rewrite Hver.
  - unfold rewind. cbn [SphereContext.version cursor_has_context mounted_at cursor_version try_with sphere_context cursor_inner context_has_context].
    unfold get_parent, to_memo. destruct Hy as (Hm & _). rewrite (stored_load _ _ _ Hm). cbn [outcome_bind try_with]. by rewrite Hp.
  - destruct (default_save_spec (Url := Url) clock P Q HP HQ rng ctx y did None Hr Hlam Hun eq_refl) as (z & ctx' & Es & _ & Hz & _).
    exists z, ctx'. split; [|exact Hz]. unfold cursor_save. cbn [context_save context_has_mutable_context cursor_inner mounted_at].
    rewrite Es. done.
Qed.

Context {C : Type} `{!HasSphereContext (Key := Key) (Cid := Cid) (B := B) (KV := KV) C} `{!HasSphereContextLaws C}.
Implicit Types (c : C).

(** The changes since an earlier version, of content and of petnames, name
    every slug and every petname whose entry is not what it was then, and nothing
    that no version since then changed. *)
Theorem changes_since_exact A c x l : lineage A (context_db c) x l -> SphereContext.version c = Ok (ver_cid (tip x l)) ->
  ver_cid x ∉ cids l -> l <> [] -> length l <= fuel ->
  exists slugs names, content_changes fuel c (Some (ver_cid x)) = Ok slugs /\ petname_changes fuel c (Some (ver_cid x)) = Ok names /\
    changed_exactly v_content content_mutation x l slugs /\ changed_exactly v_identities identities_mutation x l names.
Proof.
  intros Hl Hv Hx Hne Hf. destruct (content_changes_spec fuel A c x l Hl Hv Hx Hne Hf) as (slugs & Es & Hs).
  destruct (petname_changes_spec fuel A c x l Hl Hv Hx Hne Hf) as (names & En & Hn). by exists slugs, names.
Qed.

(** The petnames that a version assigns to a peer are the same whether they
    come from the cache or from the address book, and asking keeps the cache
    correct: neither the blocks nor the versions of the database change. *)
Theorem assigned_petnames_cached c x peer : SphereContext.version c = Ok (ver_cid x) -> holds (context_db c) x ->
  cache_ok (context_db c) (ctx_identity (sphere_context c)) x -> levels DEFAULT_BIT_WIDTH * size (v_identities (ver_value x)).1 <= walk_fuel ->
  exists names db', get_assigned_petnames walk_fuel c peer = (Ok names, put_db c db') /\ names ≡ₚ assigned x peer /\
    same_blocks (context_db c) db' /\ version_store db' = version_store (context_db c) /\ cache_ok db' (ctx_identity (sphere_context c)) x.
Proof. intros Hv Hx Hok Hf. exact (get_assigned_petnames_spec walk_fuel c x peer Hv Hx Hok Hf). Qed.
End walker_theorems.

(** ** Runs *)
Section runs.
Notation toy_linked := (linked_memo (Key := N) (Cid := ToyCid) (B := MemoryStore) (KV := MemoryStore) 4 tt).



Lemma empty_write_rejected_witness :
  write (Url := ToyUrl) toy_keys 4 4 4 10 tt (toy_context toy_db) "foo" "text/plain" (Ok []) None =
    (Err "No CID; did you try to store zero bytes?", with_access (toy_context toy_db) (Some ReadWrite)).
Proof. apply (empty_write_rejected (Url := ToyUrl) toy_keys 4 4 4 10 tt); [apply toy_context_writable|discriminate]. Defined.

Lemma write_save_read_witness :
  exists (db : ToyDb) cid v ctx1 ctx2 file,
    write (Url := ToyUrl) toy_keys 4 4 4 10 tt (toy_context db) "foo" "text/plain" (Ok [104; 105]%N) None = (Ok cid, ctx1) /\
    default_save (Url := ToyUrl) 10 [] ctx1 None = (Ok v, ctx2) /\
    (read 4 tt ctx2 "foo").1 = Ok (Some file) /\ mjoin (file_contents file).1 = [104; 105]%N.
Proof.
  destruct toy_context_sound as (db & x & [Hr _] & Ev & Hl & _). exists db.
  destruct (write_save_read (Url := ToyUrl) toy_keys 4 4 4 10 tt toy_slugs toy_jwts toy_slugs_free toy_jwts_free (toy_context db) x (toy_did 1) []
    "foo" "text/plain" [104; 105]%N Hr (toy_context_writable db) eq_refl)
    as (cid & ctx1 & y & ctx2 & Ew & Es & _ & _ & (file & bs & Er & _ & _ & _ & Ef & Hj) & _).
  - rewrite Hl. reflexivity.
  - constructor.
  - discriminate.
  - discriminate.
  - cbn. lia.
  - intros slug cid. rewrite Ev. cbn. by rewrite lookup_empty.
  - exists cid, (ver_cid y), ctx1, ctx2, file. split; [exact Ew|]. split; [exact Es|]. rewrite Er. split; [reflexivity|]. rewrite Ef. exact Hj.
Defined.

Lemma edits_keep_context_sound_witness :
  exists (db : ToyDb) (x : toy_version) l,
    let ctx := run_edits (Url := ToyUrl) toy_keys 4 4 4 10 tt
      [([], WriteFile "foo" "text/plain" [104%N]); ([], Save); ([], RemoveFile "foo"); ([], SetPetname "bar" (Some (toy_did 2))); ([], Save)]
      (toy_context db) in
    lineage (eq (toy_did 1)) (ctx_db ctx) x l /\ toy_sound ctx (tip x l) (toy_did 1) 5.
Proof.
  destruct toy_context_sound as (db & x & Hs & _ & Hl & _). exists db, x.
  destruct (edits_keep_context_sound (Url := ToyUrl) toy_keys 4 4 4 10 tt toy_slugs toy_jwts toy_slugs_free toy_jwts_free
    [([], WriteFile "foo" "text/plain" [104%N]); ([], Save); ([], RemoveFile "foo"); ([], SetPetname "bar" (Some (toy_did 2))); ([], Save)]
    (toy_context db) x (toy_did 1) 0 Hs) as (l & _ & Hlin & _ & Hs' & _).
  - repeat constructor.
  - reflexivity.
  - rewrite Hl. reflexivity.
  - exists l. split; [exact Hlin|exact Hs'].
Defined.

Lemma pending_petname_not_unset_witness :
  exists (db : ToyDb) ctx1 ctx2 v ctx3,
    set_petname (Url := ToyUrl) toy_keys 4 4 10 (toy_context db) "bar" (Some (toy_did 2)) = (Ok tt, ctx1) /\
    set_petname (Url := ToyUrl) toy_keys 4 4 10 ctx1 "bar" None = (Ok tt, ctx2) /\
    default_save (Url := ToyUrl) 10 [] ctx2 None = (Ok v, ctx3) /\ get_petname ctx3 "bar" = Ok (Some (toy_did 2)).
Proof.
  destruct toy_context_sound as (db & x & [Hr _] & Ev & Hl & _). exists db.
  destruct (pending_petname_not_unset (Url := ToyUrl) toy_keys 4 4 10 toy_slugs toy_jwts toy_slugs_free toy_jwts_free (toy_context db) x (toy_did 1) []
    "bar" (toy_did 2) Hr (toy_context_writable db)) as (ctx1 & ctx2 & y & ctx3 & E1 & E2 & Es & Eg).
  - rewrite Hl. reflexivity.
  - right. left.
  - reflexivity.
  - apply (bool_decide_unpack (toy_did 2 <> toy_did 1)). vm_compute. exact I.
  - rewrite Ev. reflexivity.
  - exists ctx1, ctx2, (ver_cid y), ctx3. split; [exact E1|]. split; [exact E2|]. split; [exact Es|exact Eg].
Defined.

(** The context after a file was saved, about to remove another one. *)
Lemma toy_pending : exists (ctx : ToyContext) (x y : toy_version) m cid, ready (Url := ToyUrl) 10 toy_slugs toy_jwts ctx y (toy_did 1) /\
  succeeds (eq (toy_did 1)) (ctx_db ctx) x m y /\ holds (ctx_db ctx) x /\ readable (ctx_db ctx) cid /\ has_unsaved_changes ctx = true /\
  lamport_order (ver_memo x) = 0%N /\ ver_cid x ∉ cids [(m, y)] /\
  (v_content (ver_value x)).1 = ∅ /\ (v_content (ver_value y)).1 = {["foo" := cid]} /\ (v_identities (ver_value y)).1 = ∅.
Proof.
  destruct toy_written as (db0 & db & x & y & m & _ & Ev & Hl & _ & Hy & Hx & Hm & cid & _ & Hf & Em & Hver).
  exists (with_mutation (toy_context db) (with_content (sphere_mutation_new (toy_did 1)) (Remove "bar"))), x, y, m, cid.
  pose proof Hy as (Hyh & _ & Evy & _). split_and!; try done.
  - split; cbn; try done.
    + rewrite Evy. apply apply_value_in; [done|rewrite Ev; apply empty_value_in].
    + split_and!; [|apply Forall_nil; exact I..]. constructor; [right; left|constructor].
    + exact (toy_can_sign db 10 1%N).
  - exact (file_readable _ _ _ _ Hf).
  - exact (succeeds_cid _ db x y m Hx Hy).
  - by rewrite Ev.
  - by rewrite Evy, Ev, Em.
  - by rewrite Evy, Ev, Em.
Qed.

Lemma cursors_read_their_version_witness :
  exists (ctx : ToyContext) (x y : toy_version) cid, toy_linked (mounted_at ctx (ver_cid x)) "foo" = Ok None /\
    toy_linked (latest ctx) "foo" = Ok (Some cid) /\ mounted ctx = Ok (mounted_at ctx (ver_cid y)) /\
    rewind (mounted_at ctx (ver_cid y)) = (Ok (Some (ver_cid x)), mounted_at ctx (ver_cid x)).
Proof.
  destruct toy_pending as (ctx & x & y & m & cid & Hr & Hy & Hx & Hf & Hun & Hl & _ & Ex & Ey & _). exists ctx, x, y, cid.
  destruct (cursors_read_their_version (Url := ToyUrl) 4 10 tt toy_slugs toy_jwts toy_slugs_free toy_jwts_free (eq (toy_did 1)) ctx x m y "foo" (toy_did 1) []
    Hr Hy Hx) as (E1 & E2 & E3 & E4 & _).
  - rewrite Ex, Ey. intros cid' [Hc|Hc]; [discriminate Hc|]. by apply lookup_singleton_Some in Hc as [_ <-].
  - exact Hun.
  - destruct Hy as (_ & _ & _ & _ & _ & -> & _). rewrite Hl. reflexivity.
  - rewrite Ex in E1. rewrite Ey in E2. split; [exact E1|]. split; [exact E2|]. split; [exact E3|exact E4].
Defined.

Lemma changes_since_exact_witness :
  exists (ctx : ToyContext) (x : toy_version) slugs, content_changes 1 ctx (Some (ver_cid x)) = Ok slugs /\ "foo" ∈ slugs.
Proof.
  destruct toy_pending as (ctx & x & y & m & cid & [Hat _ _ _ _ _] & Hy & Hx & _ & _ & _ & Hcid & Ex & Ey & _).
  destruct (changes_since_exact (HasSphereContext0 := context_has_context) 1 (eq (toy_did 1)) ctx x [(m, y)]) as (slugs & names & E & _ & [Hc _] & _).
  - exact (toy_lineage _ (ctx_db ctx) x y m Hx Hy).
  - exact (at_version_context _ _ Hat).
  - exact Hcid.
  - discriminate.
  - cbn. lia.
  - exists ctx, x, slugs. split; [exact E|]. apply Hc. cbn [tip]. by rewrite Ex, Ey, lookup_singleton_eq.
Defined.

Lemma assigned_petnames_cached_witness :
  exists (ctx : ToyContext) names db', get_assigned_petnames 4 ctx (toy_did 2) = (Ok names, put_db ctx db') /\ names = [].
Proof.
  destruct toy_context_sound as (db & x & [[[Hver Hx] _ _ _ _ _] _] & Ev & _).
  set (db1 := mkDb (block_store db) (link_store db) (version_store db) memory_store_empty).
  assert (holds db1 x) as Hx1 by exact (holds_mono db db1 x (same_blocks_le (Cid := ToyCid) db db1 (conj eq_refl eq_refl)) Hx).
  destruct (assigned_petnames_cached (HasSphereContext0 := context_has_context) 4 (toy_context db1) x (toy_did 2)) as (names & db' & E & Hp & _).
  - exact (at_version_context (toy_context db1) x (conj Hver Hx1)).
  - exact Hx1.
  - split.
    + intros peer. by exists None.
    + intros peer names Hc. discriminate Hc.
    + by exists None.
    + intros n peer Hc. discriminate Hc.
  - rewrite Ev. vm_compute. lia.
  - exists (toy_context db1), names, db'. split; [exact E|]. unfold assigned in Hp. rewrite Ev in Hp. by apply Permutation_nil_r in Hp.
Defined.
End runs.
