(* ===== verification/DelegationTheorems.v ===== *)
(** * The properties of delegation through contexts *)
From stdpp Require Import base gmap list numbers strings pretty.
From Stdlib Require Import Ascii String.
From S2P Require Import Prelude BlockStore HamtNode HamtRep Hamt HamtSpec BTree SphereDb BodyChunk.
From S2P Require Import VersionedMap UcanCapability Ucan UcanChain UcanProofs.
From S2P Require Import Authority AuthorityProofs Memo Sphere SphereProofs SphereHistory SphereRebase.
From S2P Require Import SphereGenesis Bundle BundleProofs SphereContext SphereContextProofs SphereEdits ContextAuthority.
From S2P Require Import Instances UcanInstances SphereFixtures ContextFixtures.
#[local] Open Scope list_scope.
#[local] Notation length := List.length (only parsing).

Section delegation_theorems.
Context {Key Url Cid B KV Net : Type} `{UnicodeLaws}.
Context `{KeyMaterial Key} `{Bs58} `{Base64Laws} `{!Base64Ascii} `{DagJsonLaws UcanHeader} `{DagJsonLaws UcanPayload} `{UrlLaws Url}.
Context `{Countable Cid} `{HashAlgorithmLaws string} `{HashAlgorithmLaws Cid} `{KeyOrderLaws Cid}.
Context `{CidLaws Cid} `{!BlockStore B Cid} `{!BlockStoreLaws B Cid} `{StoreLaws KV}.
Context `{!SphereCodecs Cid} `{!SphereCodecsLaws Cid} `{!EntryCodecs Cid} `{!EntryCodecsLaws Cid}.
Context `{!ContextCodecs Cid} `{!ContextCodecsLaws Cid}.
Context (supported_keys : list (bytes * (bytes -> outcome Key))).
Context (fuel walk_fuel : nat) (clock : N).
Notation SphereDb := (SphereDb B KV).
Notation version := (SphereRebase.version (Cid := Cid)).
Notation context := (SphereContext (Key := Key) (Cid := Cid) (B := B) (KV := KV)).
Notation ctors := (key_constructors (did_parser_new supported_keys)).
Notation delegate := (delegate (Url := Url) supported_keys fuel walk_fuel clock).
Notation durable := (durable (Url := Url) supported_keys clock).
#[local] Existing Instance block_ucan_store.
Implicit Types (ctx : context) (x y : version) (c : ProofChain).

Context (P : string -> Prop) (Q : Cid -> Prop) (HP : collision_free P).

(** A change of the authority, on top of a version. *)
Lemma delegate_ready (Q' : Cid -> Prop) ctx x cid c did identity db m : json_total -> delegate ctx x cid c did identity -> (clock + 120 < 2 ^ 64)%N ->
  value_in P Q' (ver_value x) -> grown (ctx_db ctx) db -> mutation_in P Q' m -> mutation_by m did -> author_did m = did ->
  ready (Url := Url) clock P Q' (edited ctx db m) x did.
Proof.
  intros Hj Hdel Hc Hv [Hle Hn] M1 M2 M3. pose proof (delegate_can_sign _ _ _ _ _ _ _ _ _ _ Hj Hdel Hc) as Hs.
  destruct Hdel as [[Hver Hx] _ _ _ _ _ _ _ _ _ _ _ _].
  split; cbn; [|done|done|done|done|exact (can_sign_mono _ _ _ _ _ _ Hle Hs)].
  split; cbn; [rewrite <- Hver; by apply same_names_version|exact (holds_mono _ _ _ Hle Hx)].
Qed.

(** C21: an author who was authorized can authorize another key: once the token is
    recorded by the next save, the other key has write access with it, and can
    authorize further keys in the same way. *)
Theorem authorized_key_gains_access rng rng' ctx x cid c did identity name (other_key : Key) other :
  json_total -> delegate ctx x cid c did identity -> chain_depth c < fuel -> chain_size c < walk_fuel ->
  ctx_mutation ctx = sphere_mutation_new did -> value_in P Q (ver_value x) -> (lamport_order (ver_memo x) + 1 < 2 ^ 32)%N ->
  (clock + 120 < 2 ^ 64)%N -> opaque_path identity = true -> identity <> "*" ->
  get_did other_key = Ok other -> key_resolves ctors other_key -> (forall b, exists sig, key_sign other_key b = Ok sig) ->
  exists cid' ctx1, authorize (Url := Url) supported_keys fuel walk_fuel clock rng ctx name other = (Ok (AuthCid cid'), ctx1) /\
    ((v_revocations (ver_value x)).1 !! cid' = None -> collision_free (fun k => Q k \/ k = cid') ->
      exists u y ctx2 ctx3, default_save (Url := Url) clock rng' ctx1 None = (Ok (ver_cid y), ctx2) /\
        context_new identity (mkAuthor other_key (Some (AuthCid cid'))) (ctx_db ctx2) None = Ok ctx3 /\
        (context_access (Url := Url) supported_keys fuel walk_fuel clock ctx3).1 = Ok ReadWrite /\
        delegate ctx3 y cid' (mkChain u [c] []) other identity).
Proof.
  intros Hj Hdel Hf Hw Hm Hv Hlam Hc Hop Hstar Hother Hokey Hosig.
  destruct (authorize_spec (Url := Url) supported_keys fuel walk_fuel clock rng ctx x cid c did identity name other Hj Hdel)
    as (u & cid' & db' & Ea & Hg & Hd' & Hu & Hch' & _ & Haud & Hnb); [lia|lia|].
  eexists cid', _. split; [exact Ea|]. intros Hrev HQ'. rewrite Hm.
  set (m := with_delegation (sphere_mutation_new did) (Add cid' (mkDelegation name cid'))).
  assert (mutation_in P (fun k => Q k \/ k = cid') m) as Hmi.
  { split_and!; try apply Forall_nil; try exact I. constructor; [by right|constructor]. }
  assert (value_in P (fun k => Q k \/ k = cid') (ver_value x)) as Hvi by (destruct Hv as (? & ? & ? & ?); split_and!; auto).
  destruct (default_save_spec (Url := Url) clock P (fun k => Q k \/ k = cid') HP HQ' rng' (edited ctx db' m) x did None)
    as (y & ctx2 & Es & Hle & Hy & Hr2 & _ & Hid2 & _); [|done|done|done|].
  { by apply (delegate_ready (fun k => Q k \/ k = cid') ctx x cid c did identity). }
  cbn in Hid2, Hle. destruct Hdel as [Hat _ Hau Hdid Hkey Hsig (Hid & Hcid & k & Hk) Hd Hrec Hch Haud0 Hbeg Hself].
  pose proof Hr2 as [[Hver2 Hx2] _ _ _ _ _]. pose proof Hy as (_ & _ & _ & Hidy & _). rewrite Hid in Hidy. rewrite Hid2, Hcid in Hver2.
  assert (recorded y (mkChain u [c] [])) as Hrec' by exact (recorded_saved _ _ x m y u cid' name c Hy Hrec eq_refl eq_refl Hu Hrev).
  assert (durable None (ctx_db ctx2) cid' (mkChain u [c] [])) as Hd2 by (eapply durable_mono; [exact Hle|exact Hd']).
  exists u, y, ctx2. unfold context_new. cbn [author_key]. rewrite Hother. cbn [outcome_bind]. eexists. split; [exact Es|]. split; [done|].
  assert ((context_access (Url := Url) supported_keys fuel walk_fuel clock
    (mkContext identity (default identity None) (mkAuthor other_key (Some (AuthCid cid'))) None (ctx_db ctx2) None (sphere_mutation_new other))).1
    = Ok ReadWrite) as Hacc.
  { unfold context_access. cbn [ctx_access ctx_db ctx_author ctx_identity author_key author_authorization].
    rewrite (require_version_spec _ _ _ Hver2).
    rewrite (recorded_access supported_keys fuel walk_fuel clock (ctx_db ctx2) y cid' (mkChain u [c] []) k other_key other identity Authorize); cbn; try done; lia. }
  split; [exact Hacc|]. split; cbn; try done.
  split; [done|]. split; [done|]. by exists k.
Qed.

(** An author who issued a token of the chain may revoke it. *)
Lemma issuer_authorizes (db : SphereDb) cid c c' (key : Key) did : durable None db cid c -> chain_depth c <= fuel -> chain_size c <= walk_fuel ->
  get_did key = Ok did -> in_chain c' c -> issuer (chain_ucan c') = did ->
  is_authorizer_of (Url := Url) supported_keys fuel walk_fuel clock db key (AuthCid cid) = Ok true.
Proof.
  intros Hd Hf Hw Hk Hin Hi. unfold is_authorizer_of. rewrite (durable_chain _ _ _ _ _ _ Hd Hf). cbn [outcome_bind]. rewrite Hk. cbn [outcome_bind].
  destruct (is_authorizer_loop_spec walk_fuel did [c]) as (b & -> & Hb); [cbn; lia|]. f_equal. apply Hb.
  exists c, c'. split_and!; [by apply list_elem_of_singleton|done|done].
Qed.

(** What the saved revocation leaves of the delegations. *)
Lemma revoked_value (A : string -> Prop) (db : SphereDb) x did cid' rev y : succeeds A db x (with_revocation (sphere_mutation_new did) cid' rev) y ->
  (v_delegations (ver_value y)).1 = delete cid' (v_delegations (ver_value x)).1 /\
  (v_revocations (ver_value y)).1 = <[cid' := rev]> (v_revocations (ver_value x)).1.
Proof. intros (_ & _ & Ev & _). rewrite Ev. cbn [apply_value v_delegations v_revocations]. by rewrite !apply_part_fst. Qed.

(** An authorization that does not verify gives no write access. *)
Lemma rejected_access (db : SphereDb) y cid c (key : Key) did identity e : durable None db cid c -> get_did key = Ok did -> did <> identity ->
  sphere_verify_authorization (Url := Url) supported_keys fuel walk_fuel clock db (ver_cid y) (AuthCid cid) = Err e ->
  access_to (Url := Url) supported_keys fuel walk_fuel clock db key (Some (AuthCid cid)) identity (Ok (ver_cid y)) (sphere_authority db) = Ok ReadOnly.
Proof.
  intros Hd Hk Hne Hv. unfold access_to. rewrite Hk. cbn [outcome_bind]. rewrite bool_decide_false by done.
  rewrite (durable_ucan _ _ _ _ _ _ Hd). cbn [outcome_bind]. destruct (negb _); [done|]. unfold sphere_verify_authorization in Hv. by rewrite Hv.
Qed.

Context (HQ : collision_free Q).

(** C12: an author who issued a token of an authorization can revoke it: the next
    save takes it from the delegations and records the revocation, and from that
    version on neither the authorization nor any authorization that was handed on
    from it verifies, so no key has write access with them. *)
Theorem revocation_ends_authority rng ctx x did identity k cid' c' :
  ready (Url := Url) clock P Q ctx x did -> writable (Url := Url) supported_keys fuel walk_fuel clock ctx ->
  ctx_mutation ctx = sphere_mutation_new did -> (lamport_order (ver_memo x) + 1 < 2 ^ 32)%N ->
  Sphere.identity (ver_ipld x) = identity -> resolve ctors identity = Ok k ->
  durable None (ctx_db ctx) cid' c' -> ucan_to_cid (chain_ucan c') = Ok cid' -> recorded x c' ->
  chain_depth c' <= fuel -> chain_size c' <= walk_fuel -> issuer (chain_ucan c') = did ->
  exists ctx1 y ctx2, revoke_authorization (Url := Url) supported_keys fuel walk_fuel clock ctx (AuthCid cid') = (Ok tt, ctx1) /\
    default_save (Url := Url) clock rng ctx1 None = (Ok (ver_cid y), ctx2) /\
    forall cid2 c2 (key : Key) did2, durable None (ctx_db ctx2) cid2 c2 -> in_chain c' c2 -> recorded x c2 ->
      chain_depth c2 <= fuel -> chain_size c2 <= walk_fuel -> get_did key = Ok did2 -> did2 <> identity ->
      sphere_verify_authorization (Url := Url) supported_keys fuel walk_fuel clock (ctx_db ctx2) (ver_cid y) (AuthCid cid2)
        = Err "Not found in sphere authority" /\
      access_to (Url := Url) supported_keys fuel walk_fuel clock (ctx_db ctx2) key (Some (AuthCid cid2)) identity (Ok (ver_cid y))
        (sphere_authority (ctx_db ctx2)) = Ok ReadOnly.
Proof.
  intros Hr Hwr Hm Hlam Hid Hk Hd' Hu' Hrec' Hf Hw Hi. pose proof Hr as [Hat Hv _ _ _ (Hdid & Hsig & _)].
  destruct (Hrec' c' (in_chain_here c')) as (cid0 & d & E0 & Hdl & _). assert (cid0 = cid') as -> by congruence.
  destruct (revoke_authorization_spec (Url := Url) supported_keys fuel walk_fuel clock ctx x (AuthCid cid') cid' d did Hat Hwr) as (rev & Er & _); try done.
  { eapply issuer_authorizes; [exact Hd'|done|done|done|apply in_chain_here|done]. }
  rewrite Hm in Er. set (m := with_revocation (sphere_mutation_new did) cid' rev) in *.
  assert (Q cid') as Hq. { destruct Hv as (_ & _ & Hv & _). apply Hv, elem_of_dom. by eexists. }
  destruct (default_save_spec (Url := Url) clock P Q HP HQ rng (edited ctx (ctx_db ctx) m) x did None)
    as (y & ctx2 & Es & Hle & Hy & Hr2 & _); [|done|done|done|].
  { apply ready_edited; try done. split_and!; try (apply Forall_nil; exact I); (constructor; [exact Hq|constructor]). }
  eexists _, y, ctx2. split; [exact Er|]. split; [exact Es|]. intros cid2 c2 key did2 Hd2 Hin Hrec2 Hf2 Hw2 Hkey Hne.
  destruct (revoked_value _ _ _ _ _ _ _ Hy) as [Edel Erev]. pose proof Hy as (Hyh & _ & _ & Hidy & _). rewrite Hid in Hidy.
  assert (sphere_verify_authorization (Url := Url) supported_keys fuel walk_fuel clock (ctx_db ctx2) (ver_cid y) (AuthCid cid2)
    = Err "Not found in sphere authority") as Hver.
  { eapply (unrecorded_rejected _ _ _ _ _ y _ c2 c' cid' k); [exact Hyh|by rewrite Hidy|exact (durable_chain _ _ _ _ _ _ Hd2 Hf2)|done| |done|done|].
    - intros c3 Hin3. destruct (Hrec2 c3 Hin3) as (cid3 & d3 & E3 & _ & Hr3). exists cid3. split; [done|]. rewrite Edel, Erev.
      destruct (decide (cid3 = cid')) as [->|Hn3]; [rewrite lookup_delete_eq; by intros [? ?]|]. by rewrite lookup_insert_ne.
    - rewrite Edel. apply lookup_delete_eq. }
  split; [exact Hver|]. by eapply rejected_access.
Qed.

(** The link record that an authorized author makes names the sphere and its
    latest version, and every peer that has the tokens accepts it. *)
Theorem created_link_record_accepted rng ctx x cid c did identity seconds :
  json_total -> delegate ctx x cid c did identity -> chain_depth c < fuel -> opaque_path identity = true -> identity <> "*" ->
  (1 <= clock + seconds)%N -> (clock + seconds < 2 ^ 64)%N ->
  match expires_at (chain_ucan c) with Some e => (clock + seconds <= e)%N | None => True end ->
  exists record jwt ctx', create_link_record (Url := Url) supported_keys fuel walk_fuel clock rng ctx (Some seconds) = (Ok record, ctx') /\
    store_le (ctx_db ctx) (ctx_db ctx') /\ ctx_mutation ctx' = ctx_mutation ctx /\
    get_link record = Some (ver_cid x) /\ to_sphere_identity record = identity /\ issuer record = did /\
    ucan_encode record = Ok jwt /\ authentic (ctx_db ctx') (token_cid (Cid := Cid) jwt) (as_bytes jwt) /\
    forall db2, store_le (ctx_db ctx') db2 ->
      link_record_validate (Url := Url) (Cid := Cid) supported_keys fuel clock db2 record = Ok tt.
Proof.
  intros Hj Hdel Hf Hop Hstar Hs1 Hs2 He.
  destruct (create_link_record_spec (Url := Url) supported_keys fuel walk_fuel clock rng ctx x cid c did identity seconds Hj Hdel Hf Hop Hstar Hs1 Hs2 He)
    as (record & jwt & db' & E & Hg & Hl & Hi & Hiss & Ej & Ha & Hval).
  eexists record, jwt, _. split; [exact E|]. split; [apply Hg|]. split; [done|]. by split_and!.
Qed.

Lemma ucan_to_cid_total u : json_total -> exists cid : Cid, ucan_to_cid u = Ok cid.
Proof.
  intros [Hh Hp]. unfold ucan_to_cid, ucan_encode, jwt_base64_encode. destruct (Hh (header u)) as [b ->], (Hp (payload u)) as [b' ->].
  cbn [outcome_bind]. by eexists.
Qed.

Lemma recovery_in x (entries : list (Cid * DelegationIpld Cid)) revs did cid' d : value_in P Q (ver_value x) ->
  entries ≡ₚ map_to_list (v_delegations (ver_value x)).1 -> revs.*1 = entries.*1 ->
  mutation_in P (fun k => Q k \/ k = cid') (with_delegation (with_revocations (sphere_mutation_new did) entries.*1 revs) (Add cid' d)).
Proof.
  intros (_ & _ & Hv & _) Hp Ek.
  assert (Forall Q entries.*1) as Hall.
  { apply Forall_forall. intros k. rewrite Hp, list_elem_of_fmap. intros ([k' e] & -> & Hk%elem_of_map_to_list). apply Hv, elem_of_dom. by eexists. }
  split_and!; [apply Forall_nil; exact I..| |]; cbn.
  - apply Forall_app. split; [|constructor; [by right|constructor]]. apply Forall_fmap. eapply Forall_impl; [exact Hall|]. cbn. by left.
  - rewrite <- Ek, Forall_fmap in Hall. apply Forall_fmap. eapply Forall_impl; [exact Hall|]. cbn. by left.
Qed.

(** C20: recovering with the key of the sphere replaces all authority: after the
    next save the new owner's token is the only delegation and gives write
    access, every former delegation is revoked, and no authorization whose chain
    has a former delegation verifies or gives write access. *)
Theorem recovery_replaces_authority rng rng' ctx x identity (owner_key : Key) owner :
  json_total -> root supported_keys ctx x identity -> ctx_mutation ctx = sphere_mutation_new identity -> value_in P Q (ver_value x) ->
  (lamport_order (ver_memo x) + 1 < 2 ^ 32)%N -> (clock + SPHERE_LIFETIME < 2 ^ 64)%N ->
  levels DEFAULT_BIT_WIDTH * size (v_delegations (ver_value x)).1 <= walk_fuel -> 0 < fuel -> 0 < walk_fuel ->
  opaque_path identity = true -> identity <> "*" -> get_did owner_key = Ok owner ->
  exists u cid' ctx1, recover_authority (Url := Url) supported_keys fuel walk_fuel clock rng ctx owner = (Ok (AuthCid cid'), ctx1) /\
    store_le (ctx_db ctx) (ctx_db ctx1) /\ durable None (ctx_db ctx1) cid' (mkChain u [] []) /\
    expires_at u = Some (clock + SPHERE_LIFETIME)%N /\
    ((v_delegations (ver_value x)).1 !! cid' = None -> (v_revocations (ver_value x)).1 !! cid' = None ->
     collision_free (fun k => Q k \/ k = cid') ->
      exists y ctx2, default_save (Url := Url) clock rng' ctx1 None = (Ok (ver_cid y), ctx2) /\
        dom (v_delegations (ver_value y)).1 = {[cid']} /\
        (forall cid, is_Some ((v_delegations (ver_value x)).1 !! cid) -> is_Some ((v_revocations (ver_value y)).1 !! cid)) /\
        access_to (Url := Url) supported_keys fuel walk_fuel clock (ctx_db ctx2) owner_key (Some (AuthCid cid')) identity (Ok (ver_cid y))
          (sphere_authority (ctx_db ctx2)) = Ok ReadWrite /\
        forall cid2 c2 c3 cid3 (key : Key) did2, durable None (ctx_db ctx2) cid2 c2 -> chain_depth c2 <= fuel -> chain_size c2 <= walk_fuel ->
          in_chain c3 c2 -> ucan_to_cid (chain_ucan c3) = Ok cid3 -> is_Some ((v_delegations (ver_value x)).1 !! cid3) ->
          get_did key = Ok did2 -> did2 <> identity ->
          sphere_verify_authorization (Url := Url) supported_keys fuel walk_fuel clock (ctx_db ctx2) (ver_cid y) (AuthCid cid2)
            = Err "Not found in sphere authority" /\
          access_to (Url := Url) supported_keys fuel walk_fuel clock (ctx_db ctx2) key (Some (AuthCid cid2)) identity (Ok (ver_cid y))
            (sphere_authority (ctx_db ctx2)) = Ok ReadOnly).
Proof.
  intros Hj Hroot Hm Hv Hlam Hl Hsz Hf Hw Hop Hstar Hown.
  destruct (recover_authority_spec (Url := Url) supported_keys fuel walk_fuel clock rng ctx x identity owner Hj Hroot Hsz Hl)
    as (entries & revs & u & cid' & db' & Er & Hg & Ek & Hp & Hd & Hu & Hch & Haud & Hexp).
  eexists u, cid', _. split; [exact Er|]. split; [apply Hg|]. split; [exact Hd|]. split; [done|]. intros Hnd Hnr HQ'. rewrite Hm.
  set (m := with_delegation (with_revocations _ _ _) _). destruct Hroot as [[Hver Hx] [Hsid Hid] Hdid Hkey Hsig Hau _].
  destruct (default_save_spec (Url := Url) clock P (fun k => Q k \/ k = cid') HP HQ' rng' (edited ctx db' m) x identity None)
    as (y & ctx2 & Es & Hle & Hy & _); [|done| |done|].
  2: { unfold has_unsaved_changes, sphere_mutation_is_empty. cbn. by rewrite length_app, Nat.add_1_r. }
  { destruct Hg as [Hle Hn]. split; cbn; try done.
    - split; cbn; [rewrite <- Hver; by apply same_names_version|exact (holds_mono _ _ _ Hle Hx)].
    - destruct Hv as (? & ? & ? & ?). split_and!; auto.
    - by apply (recovery_in x).
    - split; [done|]. split; [done|]. by rewrite Hau. }
  exists y, ctx2. split; [exact Es|]. destruct (recovered_value _ _ _ _ _ _ _ _ _ Hy Ek Hp) as (Edel & Hrev & Hkept).
  split; [by rewrite Edel, dom_singleton_L|]. split; [done|].
  pose proof Hy as (Hyh & _ & _ & Hidy & _). rewrite Hsid in Hidy. destruct Hkey as (did' & k & Ed & Ekk & _).
  assert (did' = identity) as -> by congruence.
  assert (durable None (ctx_db ctx2) cid' (mkChain u [] [])) as Hd2 by (eapply durable_mono; [exact Hle|exact Hd]).
  split.
  { eapply (recorded_access _ _ _ _ _ y cid' (mkChain u [] []) k owner_key owner identity Authorize); cbn; try done; try lia.
    intros c Hin. apply in_chain_links in Hin. cbn in Hin. apply list_elem_of_singleton in Hin as ->. exists cid'. eexists. split; [done|].
    rewrite Edel, lookup_singleton_eq. split; [done|]. by rewrite Hkept. }
  intros cid2 c2 c3 cid3 key did2 Hd' Hf2 Hw2 Hin Hc3 Hold Hk2 Hne.
  assert (sphere_verify_authorization (Url := Url) supported_keys fuel walk_fuel clock (ctx_db ctx2) (ver_cid y) (AuthCid cid2)
    = Err "Not found in sphere authority") as Hverr.
  { eapply (unrecorded_rejected _ _ _ _ _ y _ c2 c3 cid3 k); [exact Hyh|by rewrite Hidy|exact (durable_chain _ _ _ _ _ _ Hd' Hf2)|done| |done|done|].
    - intros c4 _. destruct (ucan_to_cid_total (chain_ucan c4) Hj) as [cid4 E4]. exists cid4. split; [done|]. rewrite Edel.
      intros [? [<- _]%lookup_singleton_Some]. by rewrite Hkept.
    - rewrite Edel. apply lookup_singleton_ne. intros <-. rewrite Hnd in Hold. by destruct Hold. }
  split; [exact Hverr|]. by eapply rejected_access.
Qed.
End delegation_theorems.

(** ** Runs *)
Section runs.
#[local] Existing Instance toy_hash_token.
#[local] Existing Instance toy_hash_token_laws.
#[local] Existing Instance block_ucan_store.
Notation toy_no_slug := (fun _ : string => False).
Notation toy_owner_token := (fun k : ToyCid => k = toy_owner_cid).

Lemma toy_no_slug_free : collision_free toy_no_slug.
Proof. by intros ? ? []. Qed.

Lemma toy_owner_token_free : collision_free toy_owner_token.
Proof. by intros ? ? -> ->. Qed.

Lemma toy_owner_value_in (y : toy_version) : ver_value y = apply_value (owner_mutation (toy_did 1) toy_owner_cid) empty_value ->
  value_in toy_no_slug toy_owner_token (ver_value y).
Proof.
  intros ->. apply apply_value_in; [|apply empty_in]. destruct (owner_mutation_in (toy_did 1) toy_owner_cid) as (? & ? & H3 & ?).
  split_and!; try done. eapply Forall_impl; [exact H3|]. by intros ? <-.
Qed.

Lemma toy_owner_delegations (y : toy_version) : ver_value y = apply_value (owner_mutation (toy_did 1) toy_owner_cid) empty_value ->
  (v_delegations (ver_value y)).1 = {[toy_owner_cid := mkDelegation "(OWNER)" toy_owner_cid]}.
Proof. intros ->. cbn [apply_value v_delegations]. by rewrite apply_part_fst. Qed.

(** The context of the sphere's own key, next to that of the owner. *)
Definition root_context (ctx : ToyContext) : ToyContext :=
  mkContext (toy_did 1) (toy_did 1) (mkAuthor 1%N None) None (ctx_db ctx) None (sphere_mutation_new (toy_did 1)).

Lemma authorized_key_gains_access_witness :
  exists (ctx : ToyContext) cid' ctx1 v ctx2 ctx3,
    authorize (Url := ToyUrl) toy_keys 4 4 20 [] ctx "friend" (toy_did 3) = (Ok (AuthCid cid'), ctx1) /\
    default_save (Url := ToyUrl) 20 [] ctx1 None = (Ok v, ctx2) /\
    context_new (toy_did 1) (mkAuthor 3%N (Some (AuthCid cid'))) (ctx_db ctx2) None = Ok ctx3 /\
    (context_access (Url := ToyUrl) toy_keys 4 4 20 ctx3).1 = Ok ReadWrite.
Proof.
  destruct toy_owner as (ctx & y & u & Hd & Hm & Hv & Hl & _).
  destruct (authorized_key_gains_access (Url := ToyUrl) toy_keys 4 4 20 toy_no_slug toy_owner_token toy_no_slug_free [] [] ctx y toy_owner_cid
    (mkChain u [] []) (toy_did 2) (toy_did 1) "friend" 3%N (toy_did 3) toy_json_total Hd) as (cid' & ctx1 & Ea & Hsave).
  - cbn. lia.
  - cbn. lia.
  - exact Hm.
  - exact (toy_owner_value_in y Hv).
  - rewrite Hl. reflexivity.
  - reflexivity.
  - exact toy_path.
  - exact toy_not_star.
  - reflexivity.
  - exists (toy_did 3), 3%N. split; [reflexivity|]. split; [vm_compute; reflexivity|]. intros data sig [= <-]. cbn. by rewrite bool_decide_true.
  - exact (toy_signs 3).
  - destruct Hsave as (u' & y' & ctx2 & ctx3 & Es & Ec & Hacc & _).
    + rewrite Hv. reflexivity.
    + exact (toy_tokens_free cid').
    + exists ctx, cid', ctx1, (ver_cid y'), ctx2, ctx3. split; [exact Ea|]. split; [exact Es|]. split; [exact Ec|exact Hacc].
Defined.

Lemma root_context_ready (ctx : ToyContext) (y : toy_version) u :
  delegate (Url := ToyUrl) toy_keys 4 4 20 ctx y toy_owner_cid (mkChain u [] []) (toy_did 2) (toy_did 1) ->
  ver_value y = apply_value (owner_mutation (toy_did 1) toy_owner_cid) empty_value ->
  ready (Url := ToyUrl) 20 toy_no_slug toy_owner_token (root_context ctx) y (toy_did 1) /\ root toy_keys (root_context ctx) y (toy_did 1).
Proof.
  intros [[Hver Hx] _ _ _ _ _ (Hid & Hcid & _) _ _ _ _ _ _] Hv. rewrite Hcid in Hver. split.
  - split; cbn; try done; [by apply toy_owner_value_in|]. exact (toy_can_sign (ctx_db ctx) 20 1%N).
  - split; cbn; try done; [|apply toy_signs]. exact toy_key_1.
Qed.

Lemma revocation_ends_authority_witness :
  exists (ctx ctx1 : ToyContext) v ctx2,
    revoke_authorization (Url := ToyUrl) toy_keys 4 4 20 (root_context ctx) (AuthCid toy_owner_cid) = (Ok tt, ctx1) /\
    default_save (Url := ToyUrl) 20 [] ctx1 None = (Ok v, ctx2).
Proof.
  destruct toy_owner as (ctx & y & u & Hd & Hm & Hv & Hl & _). destruct (root_context_ready ctx y u Hd Hv) as [Hr Hroot].
  destruct Hd as [_ _ _ _ _ _ (Hid & _) Hdur Hrec Hch Haud _ Hself].
  destruct (revocation_ends_authority (Url := ToyUrl) toy_keys 4 4 20 toy_no_slug toy_owner_token toy_no_slug_free toy_owner_token_free []
    (root_context ctx) y (toy_did 1) (toy_did 1) 1%N toy_owner_cid (mkChain u [] []) Hr) as (ctx1 & y' & ctx2 & Er & Es & _).
  - exact (root_writable toy_keys 4 4 20 _ _ _ Hroot).
  - reflexivity.
  - rewrite Hl. reflexivity.
  - exact Hid.
  - vm_compute. reflexivity.
  - exact Hdur.
  - exact Hself.
  - exact Hrec.
  - cbn. lia.
  - cbn. lia.
  - by inversion Hch.
  - exists ctx, ctx1, (ver_cid y'), ctx2. split; [exact Er|exact Es].
Defined.

Lemma created_link_record_accepted_witness :
  exists (ctx : ToyContext) record ctx', create_link_record (Url := ToyUrl) toy_keys 4 4 20 [] ctx (Some 30%N) = (Ok record, ctx') /\
    link_record_validate (Url := ToyUrl) (Cid := ToyCid) toy_keys 4 20 (ctx_db ctx') record = Ok tt.
Proof.
  destruct toy_owner as (ctx & y & u & Hd & _ & _ & _ & He & _). exists ctx.
  destruct (created_link_record_accepted (Url := ToyUrl) toy_keys 4 4 20 [] ctx y toy_owner_cid (mkChain u [] []) (toy_did 2) (toy_did 1) 30
    toy_json_total Hd) as (record & jwt & ctx' & Ec & _ & _ & _ & _ & _ & _ & _ & Hval).
  - cbn. lia.
  - exact toy_path.
  - exact toy_not_star.
  - lia.
  - reflexivity.
  - cbn [chain_ucan]. rewrite He. vm_compute. discriminate.
  - exists record, ctx'. split; [exact Ec|]. apply Hval. reflexivity.
Defined.

Lemma recovery_replaces_authority_witness :
  exists (ctx ctx1 : ToyContext) cid' v ctx2,
    recover_authority (Url := ToyUrl) toy_keys 4 64 20 [] (root_context ctx) (toy_did 3) = (Ok (AuthCid cid'), ctx1) /\
    default_save (Url := ToyUrl) 20 [] ctx1 None = (Ok v, ctx2) /\
    access_to (Url := ToyUrl) toy_keys 4 64 20 (ctx_db ctx2) 3%N (Some (AuthCid cid')) (toy_did 1) (Ok v) (sphere_authority (ctx_db ctx2)) = Ok ReadWrite.
Proof.
  destruct toy_owner as (ctx & y & u & Hd & Hm & Hv & Hl & He & _). destruct (root_context_ready ctx y u Hd Hv) as [Hr Hroot].
  destruct (recovery_replaces_authority (Url := ToyUrl) toy_keys 4 64 20 toy_no_slug toy_owner_token toy_no_slug_free [] [] (root_context ctx) y
    (toy_did 1) 3%N (toy_did 3) toy_json_total Hroot) as (u' & cid' & ctx1 & Ea & Hle & Hdur & He' & Hsave).
  - reflexivity.
  - exact (toy_owner_value_in y Hv).
  - rewrite Hl. reflexivity.
  - reflexivity.
  - rewrite (toy_owner_delegations y Hv), map_size_singleton. vm_compute. lia.
  - lia.
  - lia.
  - exact toy_path.
  - exact toy_not_star.
  - reflexivity.
  - destruct Hsave as (y' & ctx2 & Es & _ & _ & Hacc & _).
    + rewrite (toy_owner_delegations y Hv). apply lookup_singleton_ne. intros <-.
      destruct Hd as [_ _ _ _ _ _ _ Hdur0 _ _ _ _ _].
      pose proof (durable_ucan _ _ _ _ _ _ Hdur) as E1. pose proof (durable_ucan _ _ _ _ _ _ (durable_mono _ _ _ _ _ _ _ Hle Hdur0)) as E2.
      rewrite E2 in E1. injection E1 as <-. rewrite He' in He. discriminate He.
    + rewrite Hv. reflexivity.
    + exact (toy_tokens_free cid').
    + exists ctx, ctx1, cid', (ver_cid y'), ctx2. split; [exact Ea|]. split; [exact Es|exact Hacc].
Defined.
End runs.
