(* ===== verification/SyncTheorems.v ===== *)
(** * Theorems about synchronization

    What a client and a gateway hold after a synchronization, which pushes a gateway
    refuses, which requests it authorizes, and what becomes of conflicts and errors. *)
From stdpp Require Import base gmap list numbers strings pretty.
From Stdlib Require Import Ascii String.
From S2P Require Import Prelude BlockStore HamtNode HamtRep Hamt HamtSpec BTree SphereDb BodyChunk.
From S2P Require Import VersionedMap UcanCapability Ucan UcanChain UcanProofs.
From S2P Require Import Authority AuthorityProofs Memo Sphere SphereProofs SphereHistory SphereRebase.
From S2P Require Import SphereGenesis Bundle BundleProofs Stream StreamProofs SphereContext SphereContextProofs SphereEdits SphereWalker SphereWalkerProofs.
From S2P Require Import ContextAuthority StoreTransfer Api ClientProofs Gateway GatewayProofs Sync SyncProofs.
From S2P Require Import Instances UcanInstances SphereFixtures ContextFixtures GatewayFixtures.
#[local] Open Scope list_scope.
#[local] Notation length := List.length (only parsing).

(** ** A client and its gateway *)
Section pairs.
Context {Key Url Cid B KV : Type} `{UnicodeLaws}.
Context `{KeyMaterial Key} `{Bs58} `{Base64Laws} `{!Base64Ascii} `{DagJsonLaws UcanHeader} `{DagJsonLaws UcanPayload} `{UrlLaws Url}.
Context `{Countable Cid} `{HashAlgorithmLaws string} `{HashAlgorithmLaws Cid} `{KeyOrderLaws Cid}.
Context `{CidLaws Cid} `{!CidDefault Cid} `{!BlockStore B Cid} `{!BlockStoreLaws B Cid} `{StoreLaws KV}.
Context `{!SphereCodecs Cid} `{!SphereCodecsLaws Cid} `{!EntryCodecs Cid} `{!EntryCodecsLaws Cid}.
Context `{!ContextCodecs Cid} `{!ContextCodecsLaws Cid} `{!ApiCodecs Cid} `{!ApiCodecsLaws Cid} `{!StreamMerge Cid}.
Notation context := (SphereContext (Key := Key) (Cid := Cid) (B := B) (KV := KV)).
Notation gateway := (Gateway (Cid := Cid) (C := context)).
Context `{!GatewayApi gateway Key Cid}.
Context (supported_keys : list (bytes * (bytes -> outcome Key))).
Context (fuel walk_fuel history_fuel : nat) (clock : N).
Notation SphereDb := (SphereDb B KV).
Notation version := (SphereRebase.version (Cid := Cid)).
Notation SphereMutation := (SphereMutation Cid).
#[local] Existing Instance block_ucan_store.
#[local] Instance plain_contexts : HasMutableSphereContext (Key := Key) (Cid := Cid) (B := B) (KV := KV) context :=
  context_has_mutable_context (Url := Url) clock.
Implicit Types (ctx : context) (gw : gateway) (x y g : version) (l : list (SphereMutation * version)).
Notation sync_with server := (sync (Url := Url) (Server0 := server) supported_keys fuel walk_fuel history_fuel clock).
Notation gateway_server := (gateway_server (Url := Url) supported_keys fuel walk_fuel history_fuel clock).

(** C3: A client that has made versions since its last synchronization synchronizes
    with its gateway: the synchronization ends with the client's last version; the
    gateway then holds the whole history pushed, points to its end, and its own
    sphere has a new version that links it; the client holds that version of the
    gateway's sphere and points to it. *)
Theorem sync_delivers (P : string -> Prop) (Q : Cid -> Prop) (HP : collision_free P) (HQ : collision_free Q) gateway_rng with_ipfs
    (ipfs_grows : forall db, grown (Cid := Cid) db (with_ipfs db)) A n rng ctx gw session x l g did gdid cid c records :
  json_total ->
  paired (Url := Url) supported_keys fuel walk_fuel history_fuel clock P Q A n ctx gw session x l g did gdid cid c records ->
  exists y ctx' gw',
    sync_with (gateway_server gateway_rng with_ipfs) rng FetchAndPush ctx gw = (Done (ver_cid (tip x l)), (ctx', gw')) /\
    accepted (Url := Url) clock P Q A n gw gw' x l g gdid y /\
    synchronized ctx ctx' (ctx_identity (gateway_context gw)) (tip x l) g
      (push_mutation (ctx_mutation (gateway_context gw)) (ctx_identity ctx) x l g) gdid y /\
    (v_content (ver_value y)).1 !! ctx_identity ctx = Some (ver_cid (tip x l)).
Proof.
  intros Hj Hp. destruct (sync_spec (Url := Url) supported_keys fuel walk_fuel history_fuel clock P Q HP HQ gateway_rng with_ipfs ipfs_grows
    A n rng ctx gw session x l g did gdid cid c records Hj Hp) as (y & ctx' & gw' & E & Ha & Hs).
  exists y, ctx', gw'. split; [exact E|]. split; [done|]. split; [done|]. destruct Hp as [_ _ Hid _ _ _ _ _ _ _ _ [_ Hidle _ _ _ _] _ _].
  destruct Ha as [_ _ _ _ (_ & _ & Ev & _) _ _ _ _]. rewrite (push_links _ _ _ _ _ _ Hidle Ev), Hid. apply lookup_insert_eq.
Qed.

(** C10: The gateway that is sent a history [l] made from the version [x] that it has of
    the client's sphere, by a client that knows the version [g] of its own sphere,
    accepts it, and its own sphere comes to a version [y] in which every petname that
    the history changed has the entry of the last version pushed, and every other
    petname the entry it had; so if the two agreed on every petname before, they
    agree again.  It is assumed that no version of the history changes a petname
    twice, and that the changelog of [x], which the versions that change no petname
    keep, says what [x] has. *)
Theorem push_mirrors_names (P : string -> Prop) (Q : Cid -> Prop) (HP : collision_free P) (HQ : collision_free Q) A n rng scope ctx (s0 : SphereDb) x l g gdid record :
  serving (Url := Url) supported_keys fuel walk_fuel clock P Q ctx g gdid n -> sendable walk_fuel history_fuel P Q A n s0 x l ->
  holds (ctx_db ctx) x -> get_version (ctx_db ctx) (scope_counterpart scope) = Ok (Some (ver_cid x)) ->
  P (scope_counterpart scope) -> scope_counterpart scope <> "" -> scope_counterpart scope <> ctx_identity ctx ->
  Forall (fun op => P (change_key op)) (pushed_changes l) -> names_once l -> log_faithful (v_identities (ver_value x)) ->
  let body := mkPush (scope_counterpart scope) (Some (ver_cid x)) (ver_cid (tip x l)) (Some (ver_cid g)) record in
  exists y ctx' first blocks jobs,
    push_invoke (Url := Url) supported_keys fuel walk_fuel history_fuel clock rng scope ctx
      (from_car_stream (make_push_request_stream walk_fuel history_fuel s0 body)) = (Done (Ok ([ver_cid y], (first :: blocks, Ok tt)), jobs), ctx') /\
    of_block first.2 = Ok (Accepted (ver_cid y)) /\ at_version ctx' y /\
    (forall name, (v_identities (ver_value y)).1 !! name =
       if decide (name ∈ keys_of (pushed_changes l)) then (v_identities (ver_value (tip x l))).1 !! name
       else (v_identities (ver_value g)).1 !! name) /\
    ((v_identities (ver_value g)).1 = (v_identities (ver_value x)).1 ->
     (v_identities (ver_value y)).1 = (v_identities (ver_value (tip x l))).1).
Proof.
  intros Hs Hsend Hx Hver Hp Hne Hid Hpl Hn Hlog body. pose proof Hs as [Hr Hidle _ _ _ _]. pose proof Hsend as [Hl0 Hsome _ _ _ _ _ _ _].
  destruct (push_invoke_spec (Url := Url) supported_keys fuel walk_fuel history_fuel clock P Q HP HQ A rng scope ctx g gdid n s0 x l body
    Hs Hsend Hx Hp Hne Hid Hpl) as (y & ctx' & first & blocks & jobs & Ei & Eo & _ & _ & _ & Hl & (_ & _ & Ev & _) & _ & Hr' & _); [|done..|].
  { apply (check_history_done (Url := Url) clock ctx body (ver_cid g) (Some (ver_cid x))); [by apply at_version_context, Hr|done|].
    split; [done|]. split; [done|]. intros c' [= <-]. exact (tip_fresh _ _ _ _ Hl0 Hsome). }
  exists y, ctx', first, blocks, jobs. split; [exact Ei|]. split; [done|]. split; [apply Hr'|].
  destruct (pushed_changes_spec A _ x l Hl Hn Hlog) as [_ Hnames]. pose proof (push_mutation_names _ _ _ _ _ _ Hidle Ev) as Hy. split.
  - intros name. rewrite Hy. specialize (Hnames name). pose proof (keys_of_first (pushed_changes l) name) as Hk.
    destruct (first_change (pushed_changes l) name) as [op|].
    + rewrite decide_True by (apply Hk; by eexists). by rewrite Hnames.
    + by rewrite decide_False by (intros Hin; by destruct (proj1 Hk Hin)).
  - intros E. apply map_eq. intros name. rewrite Hy. specialize (Hnames name). destruct (first_change _ _); [done|congruence].
Qed.

(** C11: A push is refused by the check of its history, and the gateway left as it is,
    exactly if it is not made from the version that the gateway's sphere is at and from
    the version that the gateway has of the sphere pushed, or brings nothing new; which
    of these it is decides the error. *)
Theorem push_refused rng scope ctx (body : PushBody Cid) first blocks ending gtip mine :
  context_version ctx = Ok gtip -> get_version (ctx_db ctx) (push_sphere body) = Ok mine -> of_block first.2 = Ok body ->
  (acceptable ctx body gtip mine <-> check_history ctx body = Done tt) /\
  (~ acceptable ctx body gtip mine ->
   push_invoke (Url := Url) supported_keys fuel walk_fuel history_fuel clock rng scope ctx (first :: blocks, ending) =
     (Failed (if decide (counterpart_tip body = Some gtip) then
                match mine, local_base body with
                | Some mine, Some theirs => if decide (theirs = mine) then UpToDate else Conflict
                | Some _, None => Conflict
                | None, _ => MissingHistory
                end
              else Conflict), ctx)).
Proof.
  intros Hv Hm Ho. pose proof (check_history_done (Url := Url) clock ctx body gtip mine Hv Hm) as Hd. split; [by symmetry|].
  intros Hna. unfold push_invoke, verify_history, try_next. destruct first as [c0 b0]. cbn [snd] in Ho. cbn [lift attempt_with]. rewrite Ho. cbn [lift attempt_with].
  pose proof (check_history_spec (Url := Url) clock ctx body gtip mine Hv Hm) as Hs. rewrite <- Hd in Hna.
  unfold GatewayProofs.plain in Hs, Hna. unfold plain_contexts. rewrite Hs in Hna |- *. destruct (decide _); [|done].
  destruct mine as [mine|], (local_base body) as [theirs|]; try done. destruct (decide (theirs = mine)); [|done]. by destruct (decide _).
Qed.

(** The gateway authorizes every request of an author whose authorization comes
    from the sphere that the gateway serves, whatever tokens it has seen before: the
    headers of the request carry the whole chain. *)
Theorem counterpart_authorized rng gw (s : SphereDb) author did cid c records name ability :
  json_total -> requester (Url := Url) supported_keys fuel walk_fuel clock s author (scope_counterpart (gateway_scope gw)) did cid c records ->
  exists credentials gw',
    make_bearer_token (Url := Url) walk_fuel clock rng name author (generate_capability (scope_counterpart (gateway_scope gw)) ability) s
      = Ok credentials /\
    gateway_authorize (Url := Url) supported_keys fuel clock gw credentials ability = (Ok (gateway_context gw'), gw') /\
    grown (Cid := Cid) (ctx_db (gateway_context gw)) (ctx_db (gateway_context gw')) /\ gateway_jobs gw' = gateway_jobs gw.
Proof.
  intros Hj Hq. destruct (gateway_authorized (Url := Url) supported_keys fuel walk_fuel clock rng gw s author did cid c records name ability Hj Hq)
    as (credentials & db & Em & Ea & Hg). exists credentials, (at_db gw db). by split_and!.
Qed.
End pairs.

(** ** Conflicts and errors *)
Section attempts.
Context {Key Url Cid B KV Net : Type} `{Unicode}.
Context `{KeyMaterial Key} `{Bs58} `{Base64} `{DagJson UcanHeader} `{DagJson UcanPayload} `{UrlOps Url}.
Context `{Countable Cid} `{HashAlgorithm string} `{HashAlgorithm Cid} `{KeyOrder Cid}.
Context `{CidDefault Cid} `{!BlockStore B Cid} `{Store KV} `{!SphereCodecs Cid} `{!EntryCodecs Cid} `{!ContextCodecs Cid}.
Context `{!ApiCodecs Cid} `{!GatewayApi Net Key Cid} `{!Server Net Cid}.
Context (supported_keys : list (bytes * (bytes -> outcome Key))).
Context (fuel walk_fuel history_fuel : nat) (clock : N).
Context {C : Type} `{!HasMutableSphereContext (Key := Key) (Cid := Cid) (B := B) (KV := KV) C}.
Notation sync := (sync (Url := Url) supported_keys fuel walk_fuel history_fuel clock).
Notation sync_steps := (sync_steps (Url := Url) supported_keys fuel walk_fuel history_fuel clock).
Notation sync_with_options := (sync_with_options (Url := Url) supported_keys fuel walk_fuel history_fuel clock).
Notation conflicts := (conflicts (Url := Url) supported_keys fuel walk_fuel history_fuel clock).

(** A synchronization with retries makes at most one attempt more than the retries
    it may make; it goes on after a conflict and after nothing else, and gives the
    result of its last attempt, which is a conflict only if no retry is left. *)
Theorem sync_attempts_bounded rng extent retries (c : C) (net : Net) :
  exists n c1 net1 r c2 net2, n <= retries /\ conflicts rng extent retries n (c, net) (c1, net1) /\
    sync (rng (retries - n)) extent c1 net1 = (r, (c2, net2)) /\ (r = Failed SyncConflict -> n = retries) /\
    sync_with_options rng extent (RecoverRetry retries) c net =
      (r, (match r with Done _ => put_context c2 (reset_access (sphere_context c2)) | _ => c2 end, net2)).
Proof.
  destruct (sync_retrying_spec (Url := Url) supported_keys fuel walk_fuel history_fuel clock rng extent retries c net)
    as (n & c1 & net1 & r & [c2 net2] & Hn & Hc & Es & Er & Hl). exists n, c1, net1, r, c2, net2. split_and!; try done.
  unfold Sync.sync_with_options. rewrite Er. by destruct r.
Qed.

(** [sync] with [undo] in the place of [rollback]. *)
Definition sync_undoing (undo : C -> option Cid -> string -> option Cid -> outcome unit * C) rng extent (c : C) (net : Net)
    : attempt SyncError Cid * (C * Net) :=
  let '(r, c) := handshake c net in
  let* (local_version, counterpart, counterpart_version) := lift r keeping (c, net) in
  let '(r, (c, net)) := sync_steps rng extent c local_version counterpart counterpart_version net in
  let* result := r keeping (c, net) in
  let '(r, c) :=
    match result with
    | Ok _ => (Ok tt, c)
    | _ => undo c local_version counterpart counterpart_version
    end in
  let* _ := lift r keeping (c, net) in
  (lift result, (c, net)).

Lemma sync_steps_result rng extent (c : C) lv cp cv (net : Net) r st :
  sync_steps rng extent c lv cp cv net = (Done r, st) -> exists tip, r = Ok tip.
Proof.
  unfold Sync.sync_steps. destruct (fetch_remote_changes _ _ _ _ _ _ _ _ _) as [[[[local_tip counterpart_tip] names]| | |] [c1 net1]]; cbn [lift attempt_with]; [|done..].
  destruct (adopt_names _ _ _ _ _ _ _) as [[adopted| | |] c2]; cbn [lift attempt_with]; [|done..].
  destruct (match extent with FetchOnly => _ | FetchAndPush => _ end) as [[[]| | |] [c3 net3]]; cbn [attempt_with]; [|done..].
  intros [= <- <-]. by eexists.
Qed.

(** A synchronization never rolls back: every error leaves it before the result is
    looked at, so that it does the same with anything in the place of the rollback,
    and a push that fails leaves the versions that the fetch recorded. *)
Theorem sync_never_rolls_back undo rng extent (c : C) (net : Net) : sync rng extent c net = sync_undoing undo rng extent c net.
Proof.
  unfold Sync.sync, sync_undoing. destruct (handshake c net) as [[[[lv cp] cv]| | |] c1]; cbn [lift attempt_with]; [|done..].
  destruct (sync_steps rng extent c1 lv cp cv net) as [[r| | |] [c2 net2]] eqn:E; cbn [attempt_with]; [|done..].
  by destruct (sync_steps_result _ _ _ _ _ _ _ _ _ E) as [tip ->].
Qed.
End attempts.

(** ** Runs *)
Section runs.
#[local] Existing Instance toy_hash_token.
#[local] Existing Instance toy_hash_token_laws.
#[local] Existing Instance block_ucan_store.
#[local] Opaque toy_owner_cid toy_owner_jwt.
#[local] Instance toy_plain : HasMutableSphereContext (Key := N) (Cid := ToyCid) (B := MemoryStore) (KV := MemoryStore) ToyContext :=
  context_has_mutable_context (Url := ToyUrl) 20.

(** IPFS knows nothing more. *)
Notation toy_server := (gateway_server (Url := ToyUrl) toy_keys 4 4 4 20 [] (fun db : ToyDb => db)).
Notation toy_sync := (sync (Url := ToyUrl) (Server0 := toy_server) toy_keys 4 4 4 20 (fun _ _ => []) FetchAndPush).

Lemma ipfs_knows_nothing (db : ToyDb) : grown (Cid := ToyCid) db db.
Proof. by split. Qed.

Lemma sync_delivers_witness : exists (db gdb : ToyDb) (t y : toy_version) ctx' gw',
  toy_sync (client_context db) (gateway_at gdb) = (Done (ver_cid t), (ctx', gw')) /\
  (v_content (ver_value y)).1 !! toy_did 1 = Some (ver_cid t) /\ get_version (ctx_db ctx') (toy_did 3) = Ok (Some (ver_cid y)).
Proof.
  destruct toy_pair as (db & gdb & x & t & g & u & Hp & _).
  destruct (sync_delivers (Url := ToyUrl) toy_keys 4 4 4 20 pair_names pair_tokens pair_names_free pair_tokens_free [] (fun db => db) ipfs_knows_nothing
    (eq (toy_did 2)) 1 (fun _ _ => []) (client_context db) (gateway_at gdb) toy_session x [(name_mutation, t)] g (toy_did 2) (toy_did 3) toy_owner_cid (mkChain u [] [])
    [(toy_owner_cid, toy_owner_jwt)] toy_json_total Hp) as (y & ctx' & gw' & E & _ & Hs & Hl).
  exists db, gdb, t, y, ctx', gw'. split; [exact E|]. split; [exact Hl|]. exact (synchronized_counterpart _ _ _ _ _ _ _ _ Hs).
Defined.

Lemma push_mirrors_names_witness : exists (db gdb : ToyDb) (t y : toy_version) body ctx' response,
  push_invoke (Url := ToyUrl) toy_keys 4 4 4 20 [] (gateway_scope (gateway_at gdb)) (gateway_context (gateway_at gdb))
    (from_car_stream (make_push_request_stream 4 4 db body)) = (Done response, ctx') /\
  local_tip body = ver_cid t /\ at_version ctx' y /\ (v_identities (ver_value t)).1 = {[ "foo" := mkIdentity (toy_did 4) None ]} /\
  (v_identities (ver_value y)).1 = (v_identities (ver_value t)).1.
Proof.
  destruct toy_pair as (db & gdb & x & t & g & u & Hp & Hg & Hx & Ht & _).
  destruct Hp as [_ _ Hid _ [Hn1 Hn2] [Hk1 Hk2] _ _ _ Hsend _ Hsv [Hv Hxh] _].
  destruct (push_mirrors_names (Url := ToyUrl) toy_keys 4 4 4 20 pair_names pair_tokens pair_names_free pair_tokens_free (eq (toy_did 2)) 1 []
    (gateway_scope (gateway_at gdb)) (gateway_context (gateway_at gdb)) db x [(name_mutation, t)] g (toy_did 3) None)
    as (y & ctx' & first & blocks & jobs & E & _ & Hat & _ & Hy).
  - exact Hsv.
  - exact Hsend.
  - exact Hxh.
  - exact Hv.
  - exact Hk1.
  - exact Hn1.
  - exact Hn2.
  - exact Hk2.
  - constructor; [cbn; apply NoDup_singleton|constructor].
  - rewrite Hx. done.
  - exists db, gdb, t, y, (mkPush (toy_did 1) (Some (ver_cid x)) (ver_cid t) (Some (ver_cid g)) None), ctx', (Ok ([ver_cid y], (first :: blocks, Ok tt)), jobs).
    split; [exact E|]. split; [reflexivity|]. split; [exact Hat|]. split; [exact Ht|]. apply Hy. by rewrite Hg, Hx.
Defined.

Lemma push_refused_witness : exists (gdb : ToyDb) first,
  push_invoke (Url := ToyUrl) toy_keys 4 4 4 20 [] (gateway_scope (gateway_at gdb)) (gateway_context (gateway_at gdb)) ([first], Ok tt) =
    (Failed Conflict, gateway_context (gateway_at gdb)).
Proof.
  destruct toy_pair as (db & gdb & x & t & g & u & Hp & _). destruct Hp as [_ _ _ _ _ _ _ _ _ _ _ Hs [Hv _] _].
  set (body := mkPush (toy_did 1) None (ver_cid t) None None). destruct (block_total (Cid := ToyCid) body) as [b Eb].
  exists gdb, (derive_cid DAG_CBOR b, b).
  destruct (push_refused (Url := ToyUrl) toy_keys 4 4 4 20 [] (gateway_scope (gateway_at gdb)) (gateway_context (gateway_at gdb)) body
    (derive_cid DAG_CBOR b, b) [] (Ok tt) (ver_cid g) (Some (ver_cid x))) as [_ Hr].
  - apply at_version_context. by destruct Hs as [[Hat _ _ _ _ _] _ _ _ _ _].
  - exact Hv.
  - exact (block_roundtrip (Cid := ToyCid) _ _ Eb).
  - refine (eq_trans (Hr _) _); [by intros [? _]|]. by rewrite decide_False.
Defined.

Lemma counterpart_authorized_witness : exists (db gdb : ToyDb) credentials gw',
  make_bearer_token (Url := ToyUrl) 4 20 [] (toy_did 3) (ctx_author (client_context db)) (generate_capability (toy_did 1) Push) db = Ok credentials /\
  gateway_authorize (Url := ToyUrl) toy_keys 4 20 (gateway_at gdb) credentials Push = (Ok (gateway_context gw'), gw').
Proof.
  destruct toy_pair as (db & gdb & x & t & g & u & Hp & _). destruct Hp as [_ _ _ _ _ _ _ _ Hq _ _ _ _ _].
  destruct (counterpart_authorized (Url := ToyUrl) toy_keys 4 4 20 [] (gateway_at gdb) db (ctx_author (client_context db)) (toy_did 2) toy_owner_cid
    (mkChain u [] []) [(toy_owner_cid, toy_owner_jwt)] (toy_did 3) Push toy_json_total Hq) as (credentials & gw' & Em & Ea & _).
  exists db, gdb, credentials, gw'. split; [exact Em|exact Ea].
Defined.
End runs.
