(* ===== verification/JobTheorems.v ===== *)
(** * Theorems about the jobs of a gateway and its worker queue

    What compaction keeps, which versions it does not reach, which link records a
    resolution adopts, how far a syndication gets, and what is published. *)
From stdpp Require Import base list numbers strings sorting gmap pretty countable.
From Stdlib Require Import String Ascii.
From S2P Require Import Prelude BlockStore HamtNode HamtRep Hamt HamtSpec BTree SphereDb BodyChunk VersionedMap.
From S2P Require Import UcanCapability Ucan UcanChain UcanProofs Authority AuthorityProofs Memo Sphere SphereProofs SphereHistory SphereRebase.
From S2P Require Import SphereGenesis Bundle BundleProofs Stream StreamProofs SphereContext SphereContextProofs SphereEdits SphereWalker SphereWalkerProofs ContextAuthority.
From S2P Require Import StoreTransfer Api ClientProofs Gateway GatewayProofs Jobs JobProofs NameResolution Instances UcanInstances SphereFixtures ContextFixtures.
From S2P Require Import GatewayFixtures.
#[local] Open Scope list_scope.
#[local] Notation length := List.length (only parsing).

Section gateway_jobs.
Context {Key Url Cid B KV Net NS I : Type} `{UnicodeLaws}.
Context `{KeyMaterial Key} `{Bs58} `{Base64} `{DagJson UcanHeader} `{DagJson UcanPayload} `{UrlOps Url}.
Context `{Countable Cid} `{HashAlgorithmLaws string} `{HashAlgorithmLaws Cid} `{KeyOrderLaws Cid}.
Context `{CidLaws Cid} `{!CidDefault Cid} `{!BlockStore B Cid} `{!BlockStoreLaws B Cid} `{StoreLaws KV}.
Context `{!SphereCodecs Cid} `{!SphereCodecsLaws Cid} `{!EntryCodecs Cid} `{!EntryCodecsLaws Cid}.
Context `{!ContextCodecs Cid} `{!ContextCodecsLaws Cid} `{FastCdcLaws} `{!GatewayApi Net Key Cid}.
Context `{!NameResolver NS} `{!NameResolverLaws NS} `{!IpfsClient I Cid} `{!NodeReplies I Cid}.
Context `{!BlockCodec (SyndicationCheckpoint Cid)} `{!BlockCodecLaws Cid (SyndicationCheckpoint Cid)}.
Context (supported_keys : list (bytes * (bytes -> outcome Key))).
Context (fuel walk_fuel history_fuel body_fuel : nat) (clock : N) (net : Net).
Notation context := (SphereContext (Key := Key) (Cid := Cid) (B := B) (KV := KV)).
Notation version := (SphereRebase.version (Cid := Cid)).
Notation SphereMutation := (SphereMutation Cid).
Notation writable := (writable (Url := Url) supported_keys fuel walk_fuel clock).
#[local] Existing Instance block_ucan_store.
#[local] Instance plain_jobs : HasMutableSphereContext (Key := Key) (Cid := Cid) (B := B) (KV := KV) context :=
  context_has_mutable_context (Url := Url) clock.
Implicit Types (ctx : context) (x y : version) (l : list (SphereMutation * version)).
Context (P : string -> Prop) (Q : Cid -> Prop) (HP : collision_free P) (HQ : collision_free Q).
Notation ready := (ready (Url := Url) clock P Q).
Notation compact_sphere := (compact_sphere (Url := Url) history_fuel clock).

(** Compaction replaces all versions since the last one whose changelog mentions the
    counterpart by a single version with the same content, petnames and authority, whose
    parent is that version, and makes it the version of the sphere.  When the last version
    mentions the counterpart itself, nothing happens. *)
Theorem compaction_stops_at_counterpart rng ctx A (counterpart : string) x l did :
  lineage A (ctx_db ctx) x l -> mentions counterpart x -> Forall (fun my => ~ mentions counterpart my.2) l ->
  serves (ctx_db ctx) counterpart -> ready ctx (tip x l) did ->
  NoDup (cids l) -> value_in P Q (ver_value x) -> Forall (fun my => mutation_in P Q my.1) l ->
  (lamport_order (ver_memo x) + 1 < 2 ^ 32)%N -> length l < history_fuel ->
  (l = [] -> compact_sphere rng ctx = (Ok None, ctx)) /\
  (l <> [] -> exists mc z db, compact_sphere rng ctx = (Ok None, with_db ctx db) /\ store_le (ctx_db ctx) db /\
    get_version db (ctx_identity ctx) = Ok (Some (ver_cid z)) /\ succeeds (eq did) db x mc z /\
    same_maps (ver_value z) (ver_value (tip x l)) /\ ready (with_db ctx db) z did).
Proof.
  intros Hl Hx Hn Hc Hr Hnd Hv Hm Hlam Hf.
  pose proof (compact_sphere_spec history_fuel clock P Q HP HQ rng ctx A counterpart x l did Hl Hx Hn Hc Hr Hnd Hv Hm Hlam Hf) as H0'.
  split; intros E; destruct l; done.
Qed.

(** Changes that leave the content alone leave its changelog. *)
Lemma mentions_kept A (db : SphereDb B KV) counterpart x l : lineage A db x l -> mentions counterpart x ->
  Forall (fun my => mutation_changes (content_mutation my.1) = []) l -> mentions counterpart (tip x l).
Proof.
  induction 1 as [x Hx|x m y l Hx Hy Hl IH]; intros Hm Hall; [done|]. apply Forall_cons_1 in Hall as [Hc Hall]. cbn [tip]. apply IH; [|done].
  destruct Hy as (_ & _ & Ev & _). unfold mentions. rewrite Ev. cbn. unfold apply_part. cbn in Hc.
  by rewrite (proj2 (no_changes_true _) Hc).
Qed.

(** Versions that only change petnames are never compacted when they follow a push: the
    content of such a version, and with it the changelog that is looked at, is still that of
    the version that linked the counterpart, so that the walk stops at the last version and
    the job leaves everything as it is. *)
Theorem petname_changes_not_compacted rng ctx A (counterpart : string) x l did :
  lineage A (ctx_db ctx) x l -> mentions counterpart x -> Forall (fun my => mutation_changes (content_mutation my.1) = []) l ->
  serves (ctx_db ctx) counterpart -> ready ctx (tip x l) did ->
  (lamport_order (ver_memo (tip x l)) + 1 < 2 ^ 32)%N -> 0 < history_fuel ->
  compact_sphere rng ctx = (Ok None, ctx).
Proof.
  intros Hl Hx Hn Hc Hr Hlam Hf. pose proof (mentions_kept _ _ _ _ _ Hl Hx Hn) as Ht. pose proof (lineage_tip _ _ _ _ Hl) as Hh.
  exact (compact_sphere_spec history_fuel clock P Q HP HQ rng ctx A counterpart (tip x l) [] did (lineage_nil _ _ _ Hh) Ht (Forall_nil_2 _) Hc Hr
    (NoDup_nil_2) (ready_value _ _ _ _ _ _ Hr) (Forall_nil_2 _) Hlam Hf).
Qed.

(** C34: resolving the address book of a sphere whose known link records are in the database
    gives a name the record that the name system has for its sphere, exactly when that record
    is of the sphere that the name is assigned to, supercedes the one that is known, if there
    is one, differs from it and links another version, the petname is a valid one, and the
    sphere does not name itself.  The new records are in the database.  No name is added,
    removed or given to another sphere, and the content, the delegations and the revocations
    stay as they are.  If some name has a new record, a version is saved on top of the last
    one; if none has, nothing is written and the version stays. *)
Theorem resolution_adopts_newer_records rng (ns : NS) ctx x did :
  ready ctx x did -> writable ctx -> has_unsaved_changes ctx = false -> (lamport_order (ver_memo x) + 1 < 2 ^ 32)%N ->
  (forall name e, (v_identities (ver_value x)).1 !! name = Some e -> record_held (ctx_db ctx) e) ->
  levels DEFAULT_BIT_WIDTH * size (v_identities (ver_value x)).1 <= walk_fuel ->
  exists y ctx', name_system_resolve_all (Url := Url) supported_keys fuel walk_fuel clock rng ctx ns = (Ok None, ctx') /\
    store_le (ctx_db ctx) (ctx_db ctx') /\ ready ctx' y did /\ has_unsaved_changes ctx' = false /\
    (forall name, (v_identities (ver_value y)).1 !! name =
      (e ← (v_identities (ver_value x)).1 !! name; Some (default e (renewal ns (ctx_identity ctx) (ctx_db ctx) name e)))) /\
    (forall name e, (v_identities (ver_value y)).1 !! name = Some e -> record_held (ctx_db ctx') e) /\
    (v_content (ver_value y)).1 = (v_content (ver_value x)).1 /\
    (v_delegations (ver_value y)).1 = (v_delegations (ver_value x)).1 /\ (v_revocations (ver_value y)).1 = (v_revocations (ver_value x)).1 /\
    (forall name e e', (v_identities (ver_value x)).1 !! name = Some e ->
      renewal ns (ctx_identity ctx) (ctx_db ctx) name e = Some e' -> parent (ver_memo y) = Some (ver_cid x)) /\
    ((forall name e, (v_identities (ver_value x)).1 !! name = Some e -> renewal ns (ctx_identity ctx) (ctx_db ctx) name e = None) ->
      y = x /\ ctx_db ctx' = ctx_db ctx).
Proof.
  intros Hr Hw Hun Hlam Hh Hf.
  destruct (name_system_resolve_all_spec supported_keys fuel walk_fuel clock P Q HP HQ rng ns ctx x did Hr Hw Hun Hlam Hh Hf) as (y & ctx' & E & Hres).
  exists y, ctx'. split; [exact E|]. by destruct Hres.
Qed.

Notation syndicate_to_ipfs := (syndicate_to_ipfs (Url := Url) supported_keys fuel walk_fuel history_fuel body_fuel clock net).
Notation kept := (kept (Url := Url) supported_keys fuel walk_fuel body_fuel clock net P Q).


(** The checkpoint moves past a revision that the node did not take: when the node refuses
    a revision and takes the next one, the checkpoint is at the next one, and the refused
    revision is not among those of the following syndication. *)
Theorem refused_revision_skipped (db : SphereDb B KV) (ipfs ipfs1 ipfs' : I) checkpoint (refused taken : Cid) error :
  syndicate_blocks ipfs (to_car_stream [refused] (record_stream_orphans ∅ (memo_body_stream walk_fuel db refused true)).1) = (Err error, ipfs1) ->
  streams walk_fuel db taken -> offered walk_fuel db ipfs1 [taken] [taken] ipfs' ->
  for_each_st (syndicate_revision walk_fuel db) [refused; taken] (checkpoint, ipfs) =
    (Ok tt, (mkCheckpoint (Some taken) (syndication_epoch checkpoint), ipfs')).
Proof.
  intros Hr Ht Ho. cbn [for_each_st]. unfold syndicate_revision at 1. destruct (record_stream_orphans ∅ _) as [stream orphans]. cbn [fst] in Hr.
  rewrite Hr. cbn [warned try_with].
  destruct (syndicate_revisions_spec walk_fuel db [taken] checkpoint ipfs1 (Forall_cons_2 _ _ _ Ht (Forall_nil_2 _))) as (taken' & ipfs'' & E & Ho').
  cbn [for_each_st] in E. rewrite E. destruct (offered_fun _ _ _ _ _ _ _ _ Ho Ho') as [<- <-]. done.
Qed.

Notation publish_job := (name_system_publish (Url := Url) supported_keys fuel walk_fuel body_fuel clock net).
Notation republish_job := (name_system_republish body_fuel net).

(** Publishing a link record keeps it in the sphere of the gateway, and publishes it
    only if it has begun and has not expired; but every republication after that publishes
    the record that was kept, without looking at its time, so that a record which was refused
    as expired is published all the same.  Republishing leaves the sphere as it is. *)
Theorem refused_record_republished rng ctx (ns : NS) x did (counterpart jwt : string) record :
  ready ctx x did -> writable ctx -> has_unsaved_changes ctx = false -> (lamport_order (ver_memo x) + 1 < 2 ^ 32)%N ->
  serves (ctx_db ctx) counterpart -> P (counterpart_link_record_key counterpart) ->
  replaceable (ctx_db ctx) x (counterpart_link_record_key counterpart) ->
  ucan_encode record = Ok jwt -> jwt <> "" -> length (as_bytes jwt) <= body_fuel ->
  from_utf8 (as_bytes jwt) = Ok jwt -> ucan_from_str jwt = Ok record ->
  exists y ctx', kept ctx ctx' x y did (counterpart_link_record_key counterpart) "text/plain" (as_bytes jwt) /\
    publish_job rng ctx ns record =
      (if has_publishable_timeframe clock record
       then (let '(r, ns') := publish ns record in (outcome_map (fun _ => None) r, (ctx', ns')))
       else (Err "Record is expired and cannot be published.", (ctx', ns))) /\
    forall ns' : NS, republish_job ctx' ns' = (let '(r, ns'') := publish ns' record in (outcome_map (fun _ => None) r, (ctx', ns''))).
Proof.
  intros Hr Hw Hun Hlam Hcp HPk Hrep Hj Hne Hf Hu Hp.
  destruct (set_counterpart_record_spec supported_keys fuel walk_fuel body_fuel clock net P Q HP HQ rng ctx x did counterpart record jwt Hr Hw Hun Hlam Hcp HPk
    Hrep Hj Hne Hf) as (y & ctx' & E & Hk). exists y, ctx'. split; [exact Hk|]. split.
  - unfold name_system_publish. unfold JobProofs.plain in E. unfold plain_jobs. rewrite E. cbn [warned try_with].
    destruct (has_publishable_timeframe clock record); [|done]. destruct (publish ns record) as [r ns']. by destruct r.
  - intros ns'. unfold name_system_republish.
    pose proof (get_counterpart_record_spec supported_keys fuel walk_fuel body_fuel clock net P Q ctx ctx' x y did counterpart record jwt Hcp Hk Hu Hp) as Eg.
    unfold JobProofs.plain in Eg. unfold plain_jobs. rewrite Eg. destruct (publish ns' record) as [r ns'']. by destruct r.
Qed.
End gateway_jobs.

(** ** Runs *)
Section job_runs.
#[local] Existing Instance block_ucan_store.
#[local] Instance toy_jobs : HasMutableSphereContext (Key := N) (Cid := ToyCid) (B := MemoryStore) (KV := MemoryStore) ToyContext :=
  context_has_mutable_context (Url := ToyUrl) 10.

Definition slug_mutation (c : ToyCid) : SphereMutation ToyCid := with_content (sphere_mutation_new (toy_did 3)) (Add "bar" c).

Lemma slug_mutation_in c : mutation_in job_names toy_jwts (slug_mutation c).
Proof. split_and!; cbn; [|constructor..]. constructor; [|constructor]. cbn. unfold job_names. set_solver. Qed.

Lemma served_value_in c : value_in job_names toy_jwts (apply_value (served_mutation c) empty_value).
Proof. apply apply_value_in; [apply served_mutation_in|apply empty_in]. Qed.

(** A version on top of the one that links the counterpart. *)
Lemma toy_after_push m : mutation_in job_names toy_jwts m -> mutation_by m (toy_did 3) -> exists (db : ToyDb) (v x y : toy_version),
  holds db x /\ ver_value x = apply_value (served_mutation (ver_cid v)) empty_value /\ lamport_order (ver_memo x) = 1%N /\
  lineage (eq (toy_did 3)) db x [(m, y)] /\ job_ready (serving_context db) y (toy_did 3) /\ serves db (toy_did 1) /\
  lamport_order (ver_memo y) = 2%N /\ ver_value y = apply_value m (ver_value x).
Proof.
  intros Hm Hby. destruct toy_serving as (db0 & v & x & Hv & Hx & Evv & Hp & Hsp & Evx & Hl).
  destruct (serving_commit db0 x m Hx) as (db1 & y & Hle1 & Hy); [rewrite Evx; apply served_value_in|done|done|rewrite Hl; lia|].
  pose proof Hy as (Hyh & _ & Evy & _ & _ & Hly & _).
  destruct (serving_at db1 y Hyh) as (db & Hle & Hr & Hs); [rewrite Evy, Evx; apply apply_value_in; [done|apply served_value_in]|].
  assert (holds db x) as Hx' by exact (holds_mono _ _ _ (transitivity Hle1 Hle) Hx).
  exists db, v, x, y. split; [done|]. split; [done|]. split; [done|]. split; [|split; [done|split; [done|split; [rewrite Hly, Hl; done|done]]]].
  constructor; [done|exact (succeeds_mono _ _ _ _ _ _ Hle Hy)|]. constructor. exact (holds_mono _ _ _ Hle Hyh).
Qed.

Lemma compaction_stops_at_counterpart_witness : exists (db db' : ToyDb) (x y z : toy_version),
  compact_sphere (Url := ToyUrl) 2 10 [] (serving_context db) = (Ok None, serving_context db') /\
  get_version db' (toy_did 3) = Ok (Some (ver_cid z)) /\ parent (ver_memo z) = Some (ver_cid x) /\
  (v_content (ver_value z)).1 = (v_content (ver_value y)).1.
Proof.
  destruct (toy_after_push (slug_mutation (toy_link 1)) (slug_mutation_in _) ltac:(done)) as (db & v & x & y & Hx & Evx & Hl & Hlin & Hr & Hs & Hly & Evy).
  destruct (compaction_stops_at_counterpart (Url := ToyUrl) 2 10 job_names toy_jwts job_names_free toy_jwts_free [] (serving_context db) (eq (toy_did 3))
    (toy_did 1) x [(slug_mutation (toy_link 1), y)] (toy_did 3) Hlin) as [_ Hc].
  - unfold mentions. rewrite Evx. left.
  - constructor; [|constructor]. unfold mentions. cbn [snd]. rewrite Evy. cbn. intros [E|E]%elem_of_cons; [|by apply elem_of_nil in E]. vm_compute in E. discriminate E.
  - exact Hs.
  - exact Hr.
  - apply NoDup_singleton.
  - rewrite Evx. apply served_value_in.
  - constructor; [apply slug_mutation_in|constructor].
  - rewrite Hl. done.
  - cbn. lia.
  - destruct (Hc ltac:(done)) as (mc & z & db' & E & _ & Hg & (_ & Hp & _) & (Hsame & _) & _). exists db, db', x, y, z. split; [exact E|]. split; [exact Hg|].
    split; [exact Hp|exact Hsame].
Defined.

Definition petname_mutation : SphereMutation ToyCid := with_identity (sphere_mutation_new (toy_did 3)) (Add "bar" (mkIdentity (toy_did 5) None)).

Lemma petname_changes_not_compacted_witness : exists (db : ToyDb) (x y : toy_version),
  job_ready (serving_context db) y (toy_did 3) /\ parent (ver_memo y) = Some (ver_cid x) /\
  compact_sphere (Url := ToyUrl) 1 10 [] (serving_context db) = (Ok None, serving_context db).
Proof.
  assert (mutation_in job_names toy_jwts petname_mutation) as Hm.
  { split_and!; cbn; [constructor| |constructor..]. constructor; [|constructor]. cbn. unfold job_names. set_solver. }
  destruct (toy_after_push petname_mutation Hm ltac:(done)) as (db & v & x & y & Hx & Evx & Hl & Hlin & Hr & Hs & Hly & Evy).
  exists db, x, y. split; [exact Hr|]. split; [by inversion Hlin as [|? ? ? ? _ (_ & Hp & _)]|].
  apply (petname_changes_not_compacted (Url := ToyUrl) 1 10 job_names toy_jwts job_names_free toy_jwts_free [] (serving_context db) (eq (toy_did 3))
    (toy_did 1) x [(petname_mutation, y)] (toy_did 3) Hlin).
  - unfold mentions. rewrite Evx. left.
  - constructor; [done|constructor].
  - exact Hs.
  - exact Hr.
  - cbn [tip]. rewrite Hly. done.
  - lia.
Defined.

(** The version that links the counterpart is the last one. *)
Lemma toy_pushed : exists (db : ToyDb) (v x : toy_version), job_ready (serving_context db) x (toy_did 3) /\ serves db (toy_did 1) /\
  holds db v /\ ver_value v = empty_value /\ parent (ver_memo v) = None /\ is_sphere_memo (ver_memo v) /\
  ver_value x = apply_value (served_mutation (ver_cid v)) empty_value /\ lamport_order (ver_memo x) = 1%N.
Proof.
  destruct toy_serving as (db0 & v & x & Hv & Hx & Evv & Hp & Hsp & Evx & Hl).
  destruct (serving_at db0 x Hx) as (db & Hle & Hr & Hs); [rewrite Evx; apply served_value_in|].
  exists db, v, x. split_and!; try done. exact (holds_mono _ _ _ Hle Hv).
Qed.

Lemma resolution_adopts_newer_records_witness : exists (db : ToyDb) (ns : ToyNames) (x y : toy_version) ctx' cid,
  name_system_resolve_all (Url := ToyUrl) toy_keys 4 64 10 [] (serving_context db) ns = (Ok None, ctx') /\
  (v_identities (ver_value x)).1 !! "foo" = Some (mkIdentity (toy_did 4) None) /\
  (v_identities (ver_value y)).1 !! "foo" = Some (mkIdentity (toy_did 4) (Some cid)).
Proof.
  destruct toy_pushed as (db & v & x & Hr & Hs & Hv & Evv & Hp & Hsp & Evx & Hl).
  destruct (toy_record (toy_did 4) 100) as (u & jwt & Ej & Hu & Hj & _ & Hid & _).
  assert (forall did record, (if decide (did = toy_did 4) then Some u else None) = Some record -> encodes record) as Henc.
  { intros did record E. destruct (decide _); [|done]. injection E as <-. by exists jwt. }
  set (ns := mkNames (fun did => if decide (did = toy_did 4) then Some u else None) [] Henc).
  destruct (resolution_adopts_newer_records (Url := ToyUrl) toy_keys 4 64 10 job_names toy_jwts job_names_free toy_jwts_free [] ns (serving_context db) x (toy_did 3) Hr)
    as (y & ctx' & E & _ & _ & _ & Hn & _).
  - apply serving_writable.
  - reflexivity.
  - rewrite Hl. done.
  - rewrite Evx. cbn. intros name e He cid Hcid. rewrite apply_part_fst in He. cbn in He. apply lookup_insert_Some in He as [[_ <-]|[_ He]]; [done|]. by rewrite lookup_empty in He.
  - rewrite Evx. vm_compute. lia.
  - exists db, ns, x, y, ctx', (token_cid jwt). split; [exact E|].
    assert ((v_identities (ver_value x)).1 !! "foo" = Some (mkIdentity (toy_did 4) None)) as Hf by (rewrite Evx; reflexivity).
    split; [exact Hf|]. rewrite Hn, Hf. cbn [mbind option_bind]. f_equal. unfold renewal, adoption. cbn [peer_did resolve toy_names records ns].
    rewrite decide_True by done. cbn [known]. change (known _ _) with (None : option Ucan). cbn match. cbn [andb].
    rewrite bool_decide_eq_true_2 by done. change (validate_petname "foo") with (Ok tt). rewrite bool_decide_eq_false_2 by done.
    cbn [andb negb mbind option_bind]. by rewrite Ej.
Defined.

(** No file is at a slug that the version does not have. *)
Lemma not_there_replaceable (db : ToyDb) (x : toy_version) c slug : ver_value x = apply_value (served_mutation c) empty_value -> slug <> toy_did 1 ->
  replaceable db x slug.
Proof.
  intros Ev Hne cid. rewrite Ev. cbn. rewrite apply_part_fst. cbn. rewrite lookup_insert_ne by done. by rewrite lookup_empty.
Qed.


Lemma toy_offer walk_fuel (db : ToyDb) (node : ToyNode) cid : streams walk_fuel db cid -> offered walk_fuel db node [cid] [cid] (node ++ [cid]).
Proof.
  intros Hst. unfold streams in Hst. destruct (record_stream_orphans _ _) as [[bl en] orph] eqn:E. cbn in Hst. subst en.
  eapply (offered_taken walk_fuel db node cid bl orph tt tt); [exact E|by destruct bl|reflexivity|constructor].
Qed.


Lemma refused_revision_skipped_witness : exists (db : ToyDb) (v : toy_version) (missing : ToyCid),
  for_each_st (syndicate_revision 3 db) [missing; ver_cid v] (checkpoint_new 10, [] : ToyNode) =
    (Ok tt, (mkCheckpoint (Some (ver_cid v)) 10, [ver_cid v])).
Proof.
  destruct toy_pushed as (db & v & x & Hr & Hs & Hv & Evv & Hp & Hsp & Evx & Hl).
  assert (levels DEFAULT_BIT_WIDTH * value_size (ver_value v) = 0) as Hsz by (rewrite Evv; vm_compute; reflexivity).
  assert (all_entries_at 0 db (ver_value v)) as He by (rewrite Evv; split_and!; intros ? ? Hk; discriminate Hk).
  assert (streams 3 db (ver_cid v)) as Hst by (apply (version_streams 3 0 1 db v); [done|lia|rewrite Hsz; lia|done..]).
  exists db, v, (RAW, []).
  eapply (refused_revision_skipped 3 db [] [] [ver_cid v] (checkpoint_new 10) (RAW, []) (ver_cid v)).
  - reflexivity.
  - exact Hst.
  - exact (toy_offer 3 db [] (ver_cid v) Hst).
Defined.

(** A record that has expired. *)
Lemma refused_record_republished_witness : exists (db : ToyDb) (ns ns' : ToyNames) ctx' record n,
  name_system_publish (Url := ToyUrl) toy_keys 4 4 n 10 tt [] (serving_context db) ns record =
    (Err "Record is expired and cannot be published.", (ctx', ns)) /\
  name_system_republish n tt ctx' ns = (Ok None, (ctx', ns')) /\ published ns' = published ns ++ [record].
Proof.
  destruct toy_pushed as (db & v & x & Hr & Hs & Hv & Evv & Hp & Hsp & Evx & Hl).
  destruct (toy_record (toy_did 1) 5) as (u & jwt & Ej & Hu & Hj & Hne & _ & He).
  set (ns := mkNames (fun _ => None) [] ltac:(discriminate)).
  destruct (refused_record_republished (Url := ToyUrl) toy_keys 4 4 (length (as_bytes jwt)) 10 tt job_names toy_jwts job_names_free toy_jwts_free [] (serving_context db)
    ns x (toy_did 3) (toy_did 1) jwt u Hr (serving_writable db) eq_refl) as (y & ctx' & _ & Epub & Erep).
  - rewrite Hl. done.
  - exact Hs.
  - unfold job_names. set_solver.
  - by apply (not_there_replaceable db x (ver_cid v)).
  - exact Ej.
  - exact Hne.
  - lia.
  - exact Hu.
  - exact Hj.
  - eexists db, ns, _, ctx', u, (length (as_bytes jwt)). split.
    + refine (eq_trans Epub _). unfold has_publishable_timeframe, is_expired. unfold expires_at in He. by rewrite He.
    + split; [exact (Erep ns)|reflexivity].
Defined.
End job_runs.

(** ** The worker queue *)
From S2P Require Import WorkerQueue.

Section runs.
Context {Job : Type}.
Implicit Types (q : WorkerQueue Job) (e : event Job).

Lemma run_none es : foldl (fun (q : option (WorkerQueue Job)) e => q ← q; step q e) None es = None.
Proof. induction es as [|e es IH]; [done|exact IH]. Qed.

Lemma run_cons q e es : run q (e :: es) = (q' ← step q e; run q' es).
Proof. unfold run. cbn. destruct (step q e); [done|apply run_none]. Qed.

Lemma step_status q e q' : step q e = Some q' -> status q = Ok tt.
Proof. unfold step. by destruct (status q) as [[]| | |]. Qed.

Lemma run_status q es q' : run q es = Some q' -> status q' = Ok tt -> status q = Ok tt.
Proof.
  destruct es as [|e es]; [by intros [= <-]|]. rewrite run_cons. destruct (step q e) eqn:Hs; [|done]. intros _ _. by eapply step_status.
Qed.

(** A run that has ended stays as it is. *)
Lemma run_stopped q es q' : status q <> Ok tt -> run q es = Some q' -> q' = q.
Proof.
  intros Hn. destruct es as [|e es]; [by intros [= <-]|]. rewrite run_cons. destruct (step q e) eqn:Hs; [|done]. by apply step_status in Hs.
Qed.

(** The jobs and the attempts over a whole run, from any state. *)
Lemma run_accounts q es q' : attempts_ok (orchestrator q) -> run q es = Some q' -> status q' = Ok tt ->
  let '(b, s) := history q es in
  held q' ++ s.*1 ≡ₚ b ++ held q /\ Forall (settled_ok (retries (orchestrator q))) s /\ attempts_ok (orchestrator q') /\ retries (orchestrator q') = retries (orchestrator q).
Proof.
  revert q. induction es as [|e es IH]; intros q Ha Hr Hs.
  { injection Hr as <-. cbn. by rewrite app_nil_r. }
  rewrite run_cons in Hr. cbn. destruct (step q e) as [q1|] eqn:He; [|done]. cbn in Hr.
  destruct (step_attempts q e q1 Ha He) as (Ha1 & Hn & Hs1). specialize (IH q1 Ha1 Hr Hs).
  pose proof (step_held q e q1 He (run_status _ _ _ Hr Hs)) as Hh.
  destruct (history q1 es) as [b s]. destruct IH as (Hp & Hss & Haq & Hrq). split_and!; [| |done|congruence].
  - rewrite fmap_app. rewrite (Permutation_app_comm (settled q e).*1), app_assoc, Hp, <- app_assoc, Hh, !app_assoc. by rewrite (Permutation_app_comm b).
  - apply Forall_app. split; [done|congruence].
Qed.
End runs.

Lemma spawn_attempts {Job} n r t (q : WorkerQueue Job) : queue_spawn n r t = Ok q ->
  attempts_ok (orchestrator q) /\ retries (orchestrator q) = default 0 r /\ held q = [].
Proof.
  unfold queue_spawn, orchestrator_new. destruct (n =? 0); [done|]. intros [= <-]. unfold held, waiting, at_work. cbn. split_and!; [|done|].
  - split; [constructor|]. apply Forall_replicate. by intros x.
  - by induction n as [|n IH].
Qed.

Lemma spawn_going {Job} n r t (q : WorkerQueue Job) : queue_spawn n r t = Ok q -> going q.
Proof.
  unfold queue_spawn, orchestrator_new. destruct (n =? 0); [done|]. intros [= <-]. split; [done|]. split; [|by left]. split; [|constructor].
  cbn. intros i w [-> _]%lookup_replicate. done.
Qed.

(** C36: no job is lost and none is run too often.  Whatever the worker threads answer, however
    they die and whenever the orchestrator takes its turns: while the queue runs, the jobs
    submitted and the jobs asked for by other jobs are exactly those that wait, those at work
    and those settled in the books of the orchestrator (where a late answer counts for the
    worker that replaced the one it is from), each as many times as it was brought.  A job is settled after at least
    one attempt and at most one more than the configured retries, and given up only when all
    of those have failed. *)
Theorem jobs_accounted {Job} (n : nat) (r : option nat) (t : option N) (q0 q : WorkerQueue Job) (es : list (event Job)) :
  queue_spawn n r t = Ok q0 -> run q0 es = Some q -> status q = Ok tt ->
  (history q0 es).1 ≡ₚ waiting q ++ at_work q ++ (history q0 es).2.*1 /\
  Forall (fun '(_, (finished, attempts)) => 1 <= attempts <= S (default 0 r) /\ (finished = false -> attempts = S (default 0 r))) (history q0 es).2 /\
  Forall (fun job_request => attempt job_request <= default 0 r) (job_queue (orchestrator q)).
Proof.
  intros Hq Hr Hs. destruct (spawn_attempts n r t q0 Hq) as (Ha & Hn & He).
  pose proof (run_accounts q0 es q Ha Hr Hs) as H. rewrite Hn, He in H. destruct (history q0 es) as [b s].
  destruct H as (Hp & Hss & [Hj _] & Hrq). cbn. split_and!.
  - rewrite app_nil_r in Hp. rewrite <- Hp. unfold held. by rewrite app_assoc.
  - clear -Hss. induction Hss as [|[? [? ?]] s Hx _ IH]; [constructor|]. constructor; [exact Hx|exact IH].
  - by rewrite Hrq in Hj.
Qed.

(** No check of the timeouts in the run finds a job that has run into the timeout. *)
Fixpoint timely {Job} (q : WorkerQueue Job) (es : list (event Job)) : Prop :=
  match es with
  | [] => True
  | e :: es => in_time q e /\ match step q e with Some q' => timely q' es | None => True end
  end.

Lemma run_going {Job} (q : WorkerQueue Job) es q' : going q -> timely q es -> run q es = Some q' -> going q'.
Proof.
  revert q. induction es as [|e es IH]; intros q Hg Ht Hr; [by injection Hr as <-|].
  rewrite run_cons in Hr. cbn in Ht. destruct Ht as [Hi Ht]. destruct (step q e) as [q1|] eqn:He; [|done].
  exact (IH q1 (step_going q e q1 Hg Hi He) Ht Hr).
Qed.

(** While no job is found over its time, the orchestrator never stops, whatever the
    processors return and however their threads die, and it leaves no work undone: whenever a
    request waits in its queue, every worker has a job. *)
Theorem queue_keeps_going {Job} (n : nat) (r : option nat) (t : option N) (q0 q : WorkerQueue Job) (es : list (event Job)) :
  queue_spawn n r t = Ok q0 -> timely q0 es -> run q0 es = Some q ->
  status q = Ok tt /\ (job_queue (orchestrator q) <> [] -> Forall (fun w => idle w = false) (workers (orchestrator q))).
Proof.
  intros Hq Ht Hr. destruct (run_going q0 es q (spawn_going n r t q0 Hq) Ht Hr) as (Hs & _ & [Hb|Hb]); by split.
Qed.

(** A job that is done just as it is timed out stops the queue for good.  With the
    configuration of the gateway, five workers, one retry and three minutes: the answer of the
    thread that is terminated stays in the channel and is taken for the answer of the thread
    that replaces it, so that the answer of the replacement finds no job, and the loop of the
    orchestrator ends with that error.  Nothing happens in the queue after that. *)
Theorem late_answer_stops_queue {Job} (job : Job) :
  exists q0 q : WorkerQueue Job,
  queue_spawn 5 (Some 1) (Some 180%N) = Ok q0 /\
  run q0 [Submit job; Receive; Elapse 180; Answer 0 (inr None); CheckTimeouts; Respond; Answer 0 (inr None); Respond] = Some q /\
  status q = Err "Worker result found for a worker without a job." /\
  forall e, step q e = None.
Proof. do 2 eexists. split; [reflexivity|]. split; [vm_compute; reflexivity|]. split; [reflexivity|]. by intros []. Qed.

(** One worker and two attempts for each job: the first job fails twice and is given up, the second
    asks for a third. *)
Definition toy_run : list (event nat) :=
  [Submit 1; Submit 2; Receive; Receive; Answer 0 (inl "failed"); Respond; Answer 0 (inr (Some 3)); Respond; Answer 0 (inl "failed"); Respond].

Lemma jobs_accounted_witness : exists q0 q : WorkerQueue nat,
  queue_spawn 1 (Some 1) None = Ok q0 /\ run q0 toy_run = Some q /\ status q = Ok tt /\ timely q0 toy_run /\
  history q0 toy_run = ([1; 2; 3], [(2, (true, 1)); (1, (false, 2))]) /\
  (history q0 toy_run).1 ≡ₚ waiting q ++ at_work q ++ (history q0 toy_run).2.*1.
Proof.
  eexists _, _. split; [reflexivity|]. split; [vm_compute; reflexivity|]. split; [reflexivity|]. split; [vm_compute; tauto|].
  split; [vm_compute; reflexivity|].
  refine (proj1 (jobs_accounted 1 (Some 1) None _ _ toy_run _ _ _)); vm_compute; reflexivity.
Defined.

Lemma queue_keeps_going_witness : exists q0 q : WorkerQueue nat,
  queue_spawn 1 (Some 1) None = Ok q0 /\ run q0 toy_run = Some q /\ status q = Ok tt.
Proof.
  eexists _, _. split; [reflexivity|]. split; [vm_compute; reflexivity|].
  refine (proj1 (queue_keeps_going 1 (Some 1) None _ _ toy_run _ _ _)); vm_compute; first [reflexivity|tauto].
Defined.
