(* ===== verification/RouteTheorems.v ===== *)
(** * Theorems about the routes of a gateway

    How a client identifies its gateway, what replicating a version brings and which
    base it refuses, and that the deprecated push does the work of the current one. *)
From stdpp Require Import base gmap list numbers strings pretty.
From Stdlib Require Import Ascii String.
From S2P Require Import Prelude BlockStore HamtNode HamtRep Hamt HamtSpec BTree SphereDb BodyChunk.
From S2P Require Import VersionedMap UcanCapability Ucan UcanChain UcanProofs.
From S2P Require Import Authority AuthorityProofs Memo Sphere SphereProofs SphereHistory SphereRebase SphereGenesis.
From S2P Require Import Bundle BundleProofs Stream StreamProofs SphereContext SphereContextProofs SphereEdits SphereWalker SphereWalkerProofs.
From S2P Require Import ContextAuthority StoreTransfer Api ClientProofs Gateway GatewayProofs Sync SyncProofs Routes RouteProofs.
From S2P Require Import Instances UcanInstances SphereFixtures ContextFixtures GatewayFixtures.
#[local] Open Scope list_scope.
#[local] Notation length := List.length (only parsing).

Section routes.
Context {Key Url Cid B KV : Type} `{UnicodeLaws}.
Context `{KeyMaterial Key} `{Bs58} `{Base64Laws} `{!Base64Ascii} `{DagJsonLaws UcanHeader} `{DagJsonLaws UcanPayload} `{UrlLaws Url}.
Context `{Countable Cid} `{HashAlgorithmLaws string} `{HashAlgorithmLaws Cid} `{KeyOrderLaws Cid}.
Context `{CidLaws Cid} `{!CidDefault Cid} `{!BlockStore B Cid} `{!BlockStoreLaws B Cid} `{StoreLaws KV}.
Context `{!SphereCodecs Cid} `{!SphereCodecsLaws Cid} `{!EntryCodecs Cid} `{!EntryCodecsLaws Cid}.
Context `{!ContextCodecs Cid} `{!ContextCodecsLaws Cid}.
Notation context := (SphereContext (Key := Key) (Cid := Cid) (B := B) (KV := KV)).
Notation gateway := (Gateway (Cid := Cid) (C := context)).
Context (supported_keys : list (bytes * (bytes -> outcome Key))).
Context (fuel walk_fuel history_fuel : nat) (clock : N).
Notation SphereDb := (SphereDb B KV).
Notation version := (SphereRebase.version (Cid := Cid)).
Notation SphereMutation := (SphereMutation Cid).
#[local] Existing Instance block_ucan_store.
Implicit Types (ctx : context) (gw : gateway) (x y : version) (l : list (SphereMutation * version)).
Notation requester := (requester (Url := Url) supported_keys fuel walk_fuel clock).
Notation session_server := (gateway_session_server (Url := Url) supported_keys fuel walk_fuel history_fuel clock).
Notation replicate_from server := (client_replicate (Url := Url) (SessionServer0 := server) walk_fuel clock).
Notation identify_with server := (client_identify (Url := Url) (SessionServer0 := server) fuel walk_fuel clock).

(** C7: A client that holds an older version of a sphere replicates the latest one
    from its gateway since that version.  If both versions carry proofs for the same
    sphere, the gateway sends a stream that, put into the store of the client in any
    order and hydrated, gives the client the whole history from the one to the
    other. *)
Theorem replication_catches_up (P : string -> Prop) (Q : Cid -> Prop) (HP : collision_free P) (HQ : collision_free Q) with_ipfs
    (ipfs_grows : forall db, grown (Cid := Cid) db (with_ipfs db)) A n rng gw (s : SphereDb) author did cid c records session x l u u' :
  json_total -> requester s author (scope_counterpart (gateway_scope gw)) did cid c records ->
  lineage A (ctx_db (gateway_context gw)) x l -> l <> [] -> length l <= history_fuel -> n < walk_fuel -> is_sphere_memo (ver_memo x) ->
  Forall (fun my => added_at false n (ctx_db (gateway_context gw)) (ver_value my.2)) l ->
  value_in P Q (ver_value x) -> Forall (fun my => mutation_in P Q my.1) l ->
  (lamport_order (ver_memo x) + N.of_nat (length l) < 2 ^ 32)%N -> starts_with_did (cid_to_string (ver_cid (tip x l))) = false ->
  require_proof (ver_memo x) = Ok u -> require_proof (ver_memo (tip x l)) = Ok u' -> audience u = audience u' -> holds s x ->
  exists blocks gw',
    replicate_from (session_server with_ipfs) rng session (scope_counterpart (gateway_scope gw)) author s
        (ReplicateCid (ver_cid (tip x l))) (Some (mkReplicate (Some (ver_cid x)) false)) gw =
      (Ok (ver_cid (tip x l), (blocks, Ok tt)), gw') /\
    forall blocks', blocks' ≡ₚ blocks -> exists s1 s2, put_block_stream s (blocks', Ok tt) = (Ok tt, s1) /\
      hydrate_timeslice history_fuel (exclude_past (slice (ver_cid (tip x l)) (Some (ver_cid x)))) s1 = (Ok tt, s2) /\
      store_le s s2 /\ lineage A s2 x l.
Proof.
  intros Hj Hq Hl Hne Hlen Hn Hsp Hadd Hv Hm Hlam Hd Hu Hu' Ha Hx.
  destruct (replicate_route_spec (Url := Url) supported_keys fuel walk_fuel history_fuel clock with_ipfs ipfs_grows rng gw s author did cid c records
    (session_gateway session) (ver_cid (tip x l)) (mkReplicate (Some (ver_cid x)) false) Hj Hq Hd) as (credentials & db & Em & [Hle _] & Er).
  pose proof (lineage_mono _ _ _ _ _ Hle Hl) as Hl'. pose proof (lineage_fresh _ _ _ _ Hl) as Hfresh.
  pose proof (lineage_tip_order _ _ _ _ Hl Hne) as Ho. pose proof (is_sphere_tip _ _ _ _ Hl Hsp) as Hspt.
  assert (exists k, walk_fuel = Datatypes.S k) as [k Ek] by (exists (pred walk_fuel); lia).
  destruct (taps_history_stream false A n k db x l history_fuel) as (blocks & E & Hsound & Hdel);
    [lia|done|done|done|done|done| |rewrite <- Ek in E]. { eapply Forall_impl; [exact Hadd|]. intros my. by apply added_mono. }
  exists blocks, (at_db gw db). split.
  - unfold client_replicate. rewrite Em. cbn [try_with mode_to_string from_option id]. rewrite Er.
    unfold replication_stream. cbn [replicate_content replicate_since].
    rewrite (stored_load _ _ _ (proj1 (lineage_head _ _ _ _ Hl'))), (stored_load _ _ _ (proj1 (lineage_tip _ _ _ _ Hl'))).
    rewrite (proj2 (N.ltb_lt _ _) Ho), (replication_allowed _ _ u u') by done. cbn [outcome_bind]. rewrite E.
    destruct blocks; done.
  - intros blocks' Hperm. destruct (put_block_stream_spec s blocks' (Ok tt)) as (s1 & E1 & Hle1 & Hall); [by rewrite Hperm|].
    assert (history_delivered false n s1 l) as Hd1 by (apply Hdel; intros c' b Hin; apply Hall; by rewrite Hperm).
    destruct (delivered_lineage P Q HP HQ false A n db s1 x l Hl' Hd1 (holds_mono _ _ _ Hle1 Hx) Hv Hm Hlam) as (s2 & E2 & Hle2 & Hlin).
    exists s1, s2. split; [done|]. split; [|split; [by transitivity s1|done]].
    unfold hydrate_timeslice. by rewrite (lineage_chronological_at A db s1 x l _ Hl' (proj1 Hd1) Hfresh Hne Hlen).
Qed.

(** A version that was signed without a proof, as the key of the sphere signs the
    versions that [Sphere::generate] makes, is refused as the base of a replication:
    a client that holds such a version of a sphere gets an error when it replicates
    any later one since it. *)
Theorem unproven_base_refused with_ipfs (ipfs_grows : forall db, grown (Cid := Cid) db (with_ipfs db))
    rng gw (s : SphereDb) author did cid c records session since (v : Cid) (memo since_memo latest_memo : MemoIpld Cid) (key : Key) :
  json_total -> requester s author (scope_counterpart (gateway_scope gw)) did cid c records ->
  memo_sign memo key None = (Ok tt, since_memo) -> stored (ctx_db (gateway_context gw)) since since_memo ->
  stored (ctx_db (gateway_context gw)) v latest_memo -> (lamport_order since_memo < lamport_order latest_memo)%N ->
  starts_with_did (cid_to_string v) = false ->
  exists gw', replicate_from (session_server with_ipfs) rng session (scope_counterpart (gateway_scope gw)) author s (ReplicateCid v)
      (Some (mkReplicate (Some since) false)) gw = (Err "No CAR stream", gw') /\
    grown (Cid := Cid) (ctx_db (gateway_context gw)) (ctx_db (gateway_context gw')).
Proof.
  intros Hj Hq Hsign Hs Hl Ho Hd.
  destruct (replicate_route_spec (Url := Url) supported_keys fuel walk_fuel history_fuel clock with_ipfs ipfs_grows rng gw s author did cid c records
    (session_gateway session) v (mkReplicate (Some since) false) Hj Hq Hd) as (credentials & db & Em & Hgr & Er).
  exists (at_db gw db). split; [|exact Hgr]. unfold client_replicate. rewrite Em. cbn [try_with mode_to_string from_option id]. rewrite Er.
  rewrite (replication_refused walk_fuel history_fuel db since v since_memo latest_memo); [done|by eapply stored_mono, Hs; apply Hgr|by eapply stored_mono, Hl; apply Hgr|done|].
  apply replication_needs_proof. by eapply unproven_memo.
Qed.

(** C18: A client that asks the gateway of its sphere who it is gets a response that
    verifies, and begins a session with the key of that gateway and the sphere that
    the gateway keeps. *)
Theorem handshake_identifies with_ipfs rng gw (s : SphereDb) author did cid c records auth gc :
  json_total -> requester s author (scope_counterpart (gateway_scope gw)) did cid c records ->
  custodian (Url := Url) supported_keys fuel clock s (gateway_context gw) (scope_gateway_identity (gateway_scope gw)) auth gc ->
  exists gw', identify_with (session_server with_ipfs) rng (scope_counterpart (gateway_scope gw)) author (did_parser_new supported_keys) s gw =
      (Ok (mkSession (scope_gateway_identity (gateway_scope gw)) (ctx_identity (gateway_context gw))), gw') /\
    grown (Cid := Cid) (ctx_db (gateway_context gw)) (ctx_db (gateway_context gw')).
Proof.
  intros Hj Hq Hc. destruct (gateway_authorized (Url := Url) supported_keys fuel walk_fuel clock rng gw s author did cid c records
    (scope_gateway_identity (gateway_scope gw)) Fetch Hj Hq) as (credentials & db & Em & Ea & Hgr).
  destruct (identify_verified (Url := Url) supported_keys fuel clock s _ _ _ _ Hc) as (response & Es & Eg & Ei & Ev).
  exists (at_db gw db). split; [|exact Hgr]. unfold client_identify. cbn [serve_did gateway_session_server did_route try_with].
  change (negb (OK =? OK)%N) with false. cbv iota. rewrite Em. cbn [try_with serve_identify gateway_session_server].
  unfold identify_route, plain_session_context. unfold plain_context in Ea. rewrite Ea.
  cbn [sphere_context context_has_mutable_context context_has_context has_context ctx_author with_db ctx_db ctx_identity].
  rewrite (custodian_authorization _ _ _ _ _ _ _ _ Hc). cbn [ok_or outcome_bind]. rewrite (custodian_ucan _ _ _ _ _ _ _ _ Hc db (proj1 Hgr)).
  cbn [outcome_bind]. rewrite Es. cbn [or_status try_with]. rewrite Ev. cbn [try_with]. by rewrite Eg, Ei.
Qed.
End routes.

Section push_routes.
Context {Key Url Cid B KV : Type} `{Unicode}.
Context `{KeyMaterial Key} `{Bs58} `{Base64} `{DagJson UcanHeader} `{DagJson UcanPayload} `{UrlOps Url}.
Context `{Countable Cid} `{HashAlgorithm string} `{HashAlgorithm Cid} `{KeyOrder Cid}.
Context `{CidLaws Cid} `{!CidDefault Cid} `{!BlockStore B Cid} `{Store KV} `{!SphereCodecs Cid} `{!EntryCodecs Cid} `{!ContextCodecs Cid}.
Context `{!ApiCodecs Cid} `{!ApiCodecsLaws Cid}.
Context (supported_keys : list (bytes * (bytes -> outcome Key))).
Context (fuel walk_fuel history_fuel : nat) (clock : N).
Notation context := (SphereContext (Key := Key) (Cid := Cid) (B := B) (KV := KV)).
#[local] Existing Instance block_ucan_store.
#[local] Existing Instance V0alpha1.push_error_from_anyhow.
#[local] Instance plain_route_context : HasMutableSphereContext (Key := Key) (Cid := Cid) (B := B) (KV := KV) context :=
  context_has_mutable_context (Url := Url) clock.

(** The routines behind the two routes leave the sphere of the gateway in the same state, and
    refuse for the same reason or make the same version. *)
Lemma push_invokes_agree rng scope (ctx : context) (body : V0alpha1.PushBody Cid) (blocks : list (Cid * bytes)) first :
  of_block first.2 = Ok (body_of_v1 body) -> V0alpha1.blocks body = as_bundle blocks ->
  exists (r : attempt V0alpha1.PushError Cid) ctx' previous response,
    (forall v, r = Done v -> of_block response.2 = Ok (Accepted v) /\ exists ctx0, context_version ctx0 = Ok previous /\
      incorporate_history (Url := Url) supported_keys fuel walk_fuel history_fuel clock scope ctx (body_of_v1 body) (blocks, Ok tt) = (Done tt, ctx0)) /\
    V0alpha1.push_invoke (Url := Url) supported_keys fuel walk_fuel history_fuel clock rng scope ctx body =
      (let* v := r in
       let* bundle := lift (let? sphere := context_version ctx' in
         V0alpha1.bundle_until_ancestor history_fuel (ctx_db ctx') sphere (Some previous)) in
       Done (V0alpha1.Accepted v bundle,
         NameSystemResolveSince (scope_gateway scope) (V0alpha1.local_base body) :: notify_ipfs_syndicator scope (body_of_v1 body)), ctx') /\
    push_invoke (Url := Url) supported_keys fuel walk_fuel history_fuel clock rng scope ctx (first :: blocks, Ok tt) =
      (let* v := map_err error_of_v1 r in
       let new_blocks := memo_history_stream history_fuel walk_fuel (ctx_db ctx') v (V0alpha1.counterpart_tip body) false in
       Done (to_car_stream [v] (response :: new_blocks.1, new_blocks.2),
         NameSystemResolveAll (scope_gateway scope) :: notify_ipfs_syndicator scope (body_of_v1 body)), ctx').
Proof.
  intros Hf Hb. unfold push_invoke, V0alpha1.push_invoke, verify_history. destruct first as [c0 b0]. cbn [try_next lift attempt_with snd] in *.
  rewrite Hf. cbn [lift attempt_with]. pose proof (verify_agrees (Url := Url) clock ctx body) as Hverify. unfold plain_push_context in Hverify.
  unfold plain_route_context. rewrite Hverify. set (none := (c0, []) : Cid * bytes).
  destruct (V0alpha1.verify_history ctx body) as [[]|e|w|]; cbn [map_err attempt_with];
    [|exists (Failed e), ctx, c0, none; done|exists (Panicked w), ctx, c0, none; done|exists Diverged, ctx, c0, none; done].
  pose proof (incorporate_agrees (Url := Url) supported_keys fuel walk_fuel history_fuel clock scope ctx body blocks Hb) as Hinc.
  unfold relabelled, plain_push_context in Hinc. rewrite Hinc.
  destruct (V0alpha1.incorporate_history _ _ _ _ _ _ _ _) as [[[]|e|w|] ctx1]; cbn [fst snd map_err attempt_with];
    [|exists (Failed e), ctx1, c0, none; done|exists (Panicked w), ctx1, c0, none; done|exists Diverged, ctx1, c0, none; done].
  pose proof (synchronize_agrees (Url := Url) history_fuel clock ctx1 body) as Hsync. unfold relabelled, plain_push_context in Hsync.
  rewrite Hsync. destruct (V0alpha1.synchronize_names _ _ _) as [[[]|e|w|] ctx2]; cbn [fst snd map_err attempt_with] in *;
    [|exists (Failed e), ctx2, c0, none; done|exists (Panicked w), ctx2, c0, none; done|exists Diverged, ctx2, c0, none; done].
  destruct (synchronize_place (Url := Url) history_fuel clock ctx1 (body_of_v1 body) ctx2 Hsync) as (previous & Ev0 & Ev).
  unfold V0alpha1.update_gateway_sphere, update_gateway_sphere. change (SphereContext.version ctx2) with (context_version ctx2). rewrite Ev.
  cbn [lift attempt_with]. destruct (cursor_save rng (latest ctx2) None) as [r [ctx3 cv]].
  destruct r as [v|e|w|]; [|exists (Failed (V0alpha1.Internal e)), ctx3, previous, none; done|exists (Panicked w), ctx3, previous, none; done
    |exists Diverged, ctx3, previous, none; done].
  destruct (block_total (Cid := Cid) (Accepted v)) as [b Eb]. exists (Done v), ctx3, previous, (derive_cid DAG_CBOR b, b).
  split; [intros v' [= <-]; split; [exact (block_roundtrip (Cid := Cid) _ _ Eb)|by exists ctx1]|]. cbn [cursor_inner lift attempt_with map_err attempt_bind].
  unfold block_serialize. rewrite Eb. cbn [outcome_bind fst snd body_of_v1 counterpart_tip]. change (SphereContext.version ctx3) with (context_version ctx3). split; [|done].
  by destruct (let? sphere := context_version ctx3 in _) as [bundle|e|w|].
Qed.

Notation gateway := (Gateway (Cid := Cid) (C := context)).
Implicit Types (gw : gateway).

(** What the deprecated route and the current one make of the same push. *)
Inductive same_push gw (body : V0alpha1.PushBody Cid) : outcome (N * option (V0alpha1.PushResponse Cid)) * gateway -> outcome (N * car_stream Cid) * gateway -> Prop :=
  (** It is not authorized. *)
  | push_unauthorized status gw' : gateway_scope gw' = gateway_scope gw -> gateway_jobs gw' = gateway_jobs gw ->
      same_push gw body (Ok (status, None), gw') (Ok (status, Err "No CAR stream"), gw')
  (** It is refused for the same reason, for which the two have statuses of their own. *)
  | push_rejected error ctx' : same_push gw body
      (Ok (V0alpha1.push_error_status error, None), mkGateway ctx' (gateway_scope gw) (gateway_jobs gw))
      (Ok (push_error_status (error_of_v1 error), Err "No CAR stream"), mkGateway ctx' (gateway_scope gw) (gateway_jobs gw))
  (** It is accepted: the same version is made, and sent with its blocks in one answer or the
      other; other names are asked to be resolved, and the same is syndicated. *)
  | push_accepted v bundle response ending blocks ctx' : of_block response.2 = Ok (Accepted v) -> same_push gw body
      (Ok (OK, Some (V0alpha1.Accepted v bundle)), mkGateway ctx' (gateway_scope gw) (gateway_jobs gw ++
        NameSystemResolveSince (scope_gateway (gateway_scope gw)) (V0alpha1.local_base body) :: notify_ipfs_syndicator (gateway_scope gw) (body_of_v1 body)))
      (Ok (OK, to_car_stream [v] (response :: blocks, ending)), mkGateway ctx' (gateway_scope gw) (gateway_jobs gw ++
        NameSystemResolveAll (scope_gateway (gateway_scope gw)) :: notify_ipfs_syndicator (gateway_scope gw) (body_of_v1 body)))
  (** The deprecated one has made the version too, but cannot bundle its blocks, and fails
      without asking for any job. *)
  | push_unanswered v e response ending blocks ctx' previous : of_block response.2 = Ok (Accepted v) ->
      (let? sphere := context_version ctx' in V0alpha1.bundle_until_ancestor history_fuel (ctx_db ctx') sphere (Some previous)) = Err e -> same_push gw body
      (Ok (V0alpha1.push_error_status (V0alpha1.Internal e), None), mkGateway ctx' (gateway_scope gw) (gateway_jobs gw))
      (Ok (OK, to_car_stream [v] (response :: blocks, ending)), mkGateway ctx' (gateway_scope gw) (gateway_jobs gw ++
        NameSystemResolveAll (scope_gateway (gateway_scope gw)) :: notify_ipfs_syndicator (gateway_scope gw) (body_of_v1 body)))
  (** The deprecated one does not return. *)
  | push_stopped r1 r2 gw1 gw2 : (forall answer, r1 <> Ok answer) -> gateway_context gw1 = gateway_context gw2 -> same_push gw body (r1, gw1) (r2, gw2).

Notation push_v1 := (V0alpha1.push_route (Url := Url) supported_keys fuel walk_fuel history_fuel clock).
Notation push_v2 := (push_route (Url := Url) supported_keys fuel walk_fuel history_fuel clock).

(** C31: The deprecated push route and the current one, sent the same body and blocks with
    the same credentials.  The deprecated one forbids a push of another sphere than the one that
    the gateway serves before anything else.  Any other push leaves the sphere of the gateway in
    the same state, whichever route it takes: either both refuse it, for the same reason, or
    both make the same version.  They differ in the statuses of some refusals, in the names that
    they ask to be resolved and in the form of their answers; and the deprecated route fails
    after it has made the version, without asking for any job, when it cannot bundle the blocks
    of its answer ([same_push]). *)
Theorem push_routes_agree rng gw (credentials : Credentials Cid) (body : V0alpha1.PushBody Cid) roots (blocks : list (Cid * bytes)) first :
  of_block first.2 = Ok (body_of_v1 body) -> V0alpha1.blocks body = as_bundle blocks ->
  (V0alpha1.push_sphere body <> scope_counterpart (gateway_scope gw) -> push_v1 rng gw credentials body = (Ok (FORBIDDEN, None), gw)) /\
  (V0alpha1.push_sphere body = scope_counterpart (gateway_scope gw) ->
   same_push gw body (push_v1 rng gw credentials body) (push_v2 rng gw credentials (Ok (roots, (first :: blocks, Ok tt))))).
Proof.
  intros Hf Hb. unfold V0alpha1.push_route, push_route. split; intros Hs; [by rewrite bool_decide_false|]. rewrite bool_decide_true by done. cbn [negb].
  assert (gateway_scope (gateway_authorize (Url := Url) supported_keys fuel clock gw credentials Push).2 = gateway_scope gw /\
    gateway_jobs (gateway_authorize (Url := Url) supported_keys fuel clock gw credentials Push).2 = gateway_jobs gw) as [Es Ej] by done.
  destruct (gateway_authorize _ _ _ gw credentials Push) as [[ctx|status|w|] gw']; cbn [snd] in Es, Ej; [|by constructor|by constructor|by constructor].
  rewrite Es, Ej. destruct (push_invokes_agree rng (gateway_scope gw) ctx body blocks first Hf Hb) as (r & ctx' & previous & response & Hresp & E1 & E2).
  cbn [from_car_stream]. rewrite E1, E2. destruct r as [v|error|w|]; cbn [attempt_bind map_err].
  - destruct (let? sphere := context_version ctx' in _) as [bundle|e|w|] eqn:Ebundle; cbn [lift attempt_bind].
    + apply push_accepted. by apply (Hresp v).
    + rewrite app_nil_r. eapply (push_unanswered gw body v e); [by apply (Hresp v)|exact Ebundle].
    + by constructor.
    + by constructor.
  - rewrite app_nil_r. apply push_rejected.
  - by constructor.
  - by constructor.
Qed.
End push_routes.

(** ** Runs *)
Section runs.
#[local] Existing Instance toy_hash_token.
#[local] Existing Instance toy_hash_token_laws.
#[local] Existing Instance block_ucan_store.
#[local] Opaque toy_owner_cid toy_owner_jwt.
#[local] Instance toy_plain_route : HasMutableSphereContext (Key := N) (Cid := ToyCid) (B := MemoryStore) (KV := MemoryStore) ToyContext :=
  context_has_mutable_context (Url := ToyUrl) 20.
Notation toy_server := (gateway_session_server (Url := ToyUrl) toy_keys 4 4 4 20 (fun db : ToyDb => db)).

Lemma toy_not_did (c : ToyCid) : starts_with_did (cid_to_string c) = false.
Proof. unfold starts_with_did. cbn [cid_to_string toy_cid_ops]. by destruct (encode c). Qed.

Lemma toy_ipfs_empty (db : ToyDb) : grown (Cid := ToyCid) db db.
Proof. by split. Qed.

(** The owner of the sphere gives a petname, twice. *)
Lemma toy_named_twice : exists (s gdb : ToyDb) (y z : toy_version) u p q,
  requester (Url := ToyUrl) toy_keys 4 4 20 s (mkAuthor 2%N (Some (AuthCid toy_owner_cid))) (toy_did 1) (toy_did 2) toy_owner_cid (mkChain u [] [])
    [(toy_owner_cid, toy_owner_jwt)] /\
  holds s y /\ succeeds (eq (toy_did 2)) gdb y name_mutation z /\ store_le s gdb /\ is_sphere_memo (ver_memo y) /\
  value_in pair_names pair_tokens (ver_value y) /\ lamport_order (ver_memo y) = 2%N /\ added_at false 1 gdb (ver_value z) /\
  require_proof (ver_memo y) = Ok p /\ require_proof (ver_memo z) = Ok q /\ audience p = audience q.
Proof.
  destruct toy_owner as (ctx & x & u & Hd & _ & Hv & Hl & He & Ej & Hsp).
  destruct (write_token_spec (ctx_db ctx) toy_owner_jwt) as (db1 & _ & Hle1 & Hau). rewrite <- owner_cid in Hau.
  pose proof Hd as [[_ Hx] _ Hauth _ _ _ _ Hdur _ Hch Haud Hnb _]. 
  pose proof (delegate_can_sign (Url := ToyUrl) toy_keys 4 4 20 ctx x _ _ _ _ toy_json_total Hd ltac:(done)) as Hsign. rewrite Hauth in Hsign.
  assert (value_in pair_names pair_tokens (ver_value x)) as Hvx.
  { rewrite Hv. apply apply_value_in; [|apply empty_in]. split_and!; cbn; [constructor..| |constructor]. constructor; [by left|constructor]. }
  destruct (delegated_commit (Url := ToyUrl) pair_names pair_tokens pair_names_free pair_tokens_free db1 x name_mutation 20 _ (AuthCid toy_owner_cid) (toy_did 2)
    (holds_mono _ _ _ Hle1 Hx) Hsp Hvx name_mutation_in ltac:(done) ltac:(rewrite Hl; done) (can_sign_mono _ _ _ _ _ _ Hle1 Hsign))
    as (y & db2 & p & Hle2 & Hy & Hpy & Hay).
  pose proof Hy as (Hhy & _ & Evy & Hiy & _ & Hly & _). rewrite Hl in Hly.
  pose proof (is_sphere_succeeds _ db2 x name_mutation y Hy Hsp) as Hspy.
  assert (value_in pair_names pair_tokens (ver_value y)) as Hvy by (rewrite Evy; by apply apply_value_in; [apply name_mutation_in|]).
  assert (store_le (ctx_db ctx) db2) as Hle12 by by transitivity db1.
  destruct (delegated_commit (Url := ToyUrl) pair_names pair_tokens pair_names_free pair_tokens_free db2 y name_mutation 20 _ (AuthCid toy_owner_cid) (toy_did 2)
    Hhy Hspy Hvy name_mutation_in ltac:(done) ltac:(rewrite Hly; done) (can_sign_mono _ _ _ _ _ _ Hle12 Hsign))
    as (z & db3 & q & Hle3 & Hz & Hpz & Haz).
  pose proof (toy_requester db2 u toy_owner_cid toy_owner_jwt (durable_mono _ _ _ _ _ _ _ Hle12 Hdur) Ej Hch Haud Hnb He (Hle2 _ _ Hau)
    ltac:(rewrite owner_cid; apply (cid_codec_new (Cid := ToyCid)))) as Hq.
  exists db2, db3, y, z, u, p, q. split; [exact Hq|]. split; [done|]. split; [done|]. split; [done|]. split; [done|]. split; [done|].
  split; [by rewrite Hly|]. split; [|split; [done|split; [done|congruence]]].
  destruct Hz as (_ & _ & -> & _). rewrite Evy, Hv. split; [|split]; cbn; [by intros ? ? ?%elem_of_nil| |].
  - intros k i [= -> ->]%list_elem_of_singleton. done.
  - intros k d [= -> ->]%list_elem_of_singleton. exists [(toy_owner_cid, toy_owner_jwt)]. split; [|done].
    destruct Hq as [_ _ _ _ _ _ _ _ _ Hrec _ _ _ _ _ _]. exact (records_mono _ _ _ _ Hle3 Hrec).
Qed.

Lemma replication_catches_up_witness : exists (s s1 s2 gdb : ToyDb) (x y : toy_version) blocks gw',
  client_replicate (Url := ToyUrl) (SessionServer0 := toy_server) 4 20 [] toy_session (toy_did 1) (mkAuthor 2%N (Some (AuthCid toy_owner_cid))) s
    (ReplicateCid (ver_cid y)) (Some (mkReplicate (Some (ver_cid x)) false)) (gateway_at gdb) = (Ok (ver_cid y, (blocks, Ok tt)), gw') /\
  put_block_stream s (blocks, Ok tt) = (Ok tt, s1) /\
  hydrate_timeslice 4 (exclude_past (slice (ver_cid y) (Some (ver_cid x)))) s1 = (Ok tt, s2) /\ lineage (eq (toy_did 2)) s2 x [(name_mutation, y)].
Proof.
  destruct toy_named_twice as (s & gdb & x & y & u & p & q & Hq & Hx & Hy & Hle & Hsp & Hv & Hl & Hadd & Hp & Hp' & Ha).
  destruct (replication_catches_up (Url := ToyUrl) toy_keys 4 4 4 20 pair_names pair_tokens pair_names_free pair_tokens_free (fun db => db) toy_ipfs_empty
    (eq (toy_did 2)) 1 [] (gateway_at gdb) s _ _ _ _ _ toy_session x [(name_mutation, y)] p q toy_json_total Hq) as (blocks & gw' & E & Hput).
  - constructor; [exact (holds_mono _ _ _ Hle Hx)|exact Hy|constructor; apply Hy].
  - discriminate.
  - cbn. lia.
  - lia.
  - exact Hsp.
  - constructor; [exact Hadd|constructor].
  - exact Hv.
  - constructor; [exact name_mutation_in|constructor].
  - by rewrite Hl.
  - apply toy_not_did.
  - exact Hp.
  - exact Hp'.
  - exact Ha.
  - exact Hx.
  - destruct (Hput blocks (reflexivity _)) as (s1 & s2 & E1 & E2 & _ & Hlin).
    exists s, s1, s2, gdb, x, y, blocks, gw'. split; [exact E|]. split; [exact E1|]. split; [exact E2|exact Hlin].
Defined.

Lemma unproven_base_refused_witness : exists (s gdb : ToyDb) (since v : ToyCid) gw',
  client_replicate (Url := ToyUrl) (SessionServer0 := toy_server) 4 20 [] toy_session (toy_did 1) (mkAuthor 2%N (Some (AuthCid toy_owner_cid))) s
    (ReplicateCid v) (Some (mkReplicate (Some since) false)) (gateway_at gdb) = (Err "No CAR stream", gw').
Proof.
  destruct toy_named_twice as (s & _ & _ & _ & u & _ & _ & Hq & _).
  destruct (sphere_ipld_new_spec (Cid := ToyCid) (toy_did 3) toy_db) as (ipld & s1 & _ & Hle1 & Hv & Hid & _).
  destruct (genesis_spec s1 ipld 3%N (toy_did 3) Hv (toy_key_did 3) (toy_signs 3)) as (memo & s2 & memo' & c' & s3 & _ & Hsign & _ & Hle3 & Hx & _ & Hl & Hct).
  destruct (commit_spec (Url := ToyUrl) pair_names pair_tokens pair_names_free pair_tokens_free s3 (mkVersion c' memo' ipld empty_value) name_mutation [] 20 2%N None (toy_did 2) Hx)
    as (rev & s4 & y & rev' & gdb & _ & _ & Hle5 & Hy); [apply empty_in|apply name_mutation_in|done|by cbn; rewrite Hl|apply (toy_can_sign s3 20 2%N)|].
  destruct (unproven_base_refused (Url := ToyUrl) toy_keys 4 4 4 20 (fun db => db) toy_ipfs_empty [] (gateway_at gdb) s _ _ _ _ _ toy_session c' (ver_cid y)
    _ memo' (ver_memo y) 3%N toy_json_total Hq Hsign) as (gw' & E & _).
  - exact (stored_mono _ _ _ _ Hle5 (proj1 Hx)).
  - apply Hy.
  - destruct Hy as (_ & _ & _ & _ & _ & -> & _). cbn [ver_memo]. lia.
  - apply toy_not_did.
  - exists s, gdb, c', (ver_cid y), gw'. exact E.
Defined.

Lemma toy_key_3 : key_resolves toy_ctors 3%N.
Proof.
  exists (toy_did 3), 3%N. split; [done|]. split; [vm_compute; reflexivity|]. intros data sig [= <-]. cbn. by rewrite bool_decide_true.
Qed.

Lemma toy_key_4 : key_resolves toy_ctors 4%N.
Proof.
  exists (toy_did 4), 4%N. split; [done|]. split; [vm_compute; reflexivity|]. intros data sig [= <-]. cbn. by rewrite bool_decide_true.
Qed.

(** The key 4 keeps the sphere of the key 3. *)
Lemma toy_custodian (s : ToyDb) : exists (ctx : ToyContext) auth u, ctx_identity ctx = toy_did 3 /\
  custodian (Url := ToyUrl) toy_keys 4 20 s ctx (toy_did 4) auth (mkChain u [] []).
Proof.
  destruct (owner_delegate (Key := N) (Url := ToyUrl) (Cid := ToyCid) toy_keys 4 4 20 3%N 4%N (toy_did 3) (toy_did 4) (toy_key_did 3) toy_key_3 (toy_signs 3)
    (toy_key_did 4) toy_key_4 (toy_signs 4) ltac:(vm_compute; reflexivity) ltac:(done) [] 10 "mnemonic" toy_db toy_json_total)
    as (sg & u & jwt & y & db1 & db2 & ctx & _ & _ & _ & Esg & Eu & Ej & Hd & _); [done|done|lia|lia|].
  destruct Hd as [_ _ Hauth Hdid Hkey Hsig (_ & Hid & _) Hdur _ Hch Haud _ _].
  exists ctx, (AuthCid (token_cid jwt)), u. split; [done|]. rewrite <- Hid in Hch.
  destruct (Hdur _ (reflexivity _)) as (_ & u0 & _ & _ & Hv). pose proof (chain_valid_ucan _ _ _ _ _ _ Hv) as Hu0. cbn in Hu0. subst u0.
  split; cbn [UcanChain.chain_ucan]; try done.
  - intros db Hle. destruct (Hdur db Hle) as (token & u0 & Et & E0 & Hv0). pose proof (chain_valid_ucan _ _ _ _ _ _ Hv0) as Hu0. cbn in Hu0. subst u0.
    cbn [as_ucan]. rewrite Et. exact E0.
  - exists jwt. split; [done|]. destruct (sign_inv _ _ _ Eu) as (Hwf & _). by apply ucan_encode_decode.
  - exists Authorize. split; [done|]. cbn. lia.
  - inversion Hv as [? ? ? Hvu HF Hr]; subst. apply Forall2_nil_inv_r in HF. constructor; [done|by rewrite HF|done].
  - cbn. lia.
  - by rewrite Hid.
Qed.

Lemma handshake_identifies_witness : exists (s : ToyDb) (gw gw' : ToyGateway),
  client_identify (Url := ToyUrl) (SessionServer0 := toy_server) 4 4 20 [] (toy_did 1) (mkAuthor 2%N (Some (AuthCid toy_owner_cid)))
    (did_parser_new toy_keys) s gw = (Ok (mkSession (toy_did 4) (toy_did 3)), gw').
Proof.
  destruct toy_named_twice as (s & _ & _ & _ & u & _ & _ & Hq & _). destruct (toy_custodian s) as (ctx & auth & gu & Hid & Hc).
  destruct (handshake_identifies (Url := ToyUrl) toy_keys 4 4 4 20 (fun db => db) [] (mkGateway ctx (mkScope (toy_did 1) (toy_did 3) (toy_did 4)) []) s
    _ _ _ _ _ auth (mkChain gu [] []) toy_json_total Hq Hc) as (gw' & E & _).
  exists s, (mkGateway ctx (mkScope (toy_did 1) (toy_did 3) (toy_did 4)) []), gw'. cbn [gateway_context gateway_scope scope_gateway_identity] in E. rewrite Hid in E. exact E.
Defined.

Lemma toy_entries_mono n (db db' : ToyDb) v : store_le db db' -> entries_at n db v -> entries_at n db' v.
Proof.
  intros Hle (Hc & Hi & Hd). split; [|split].
  - intros k c Hk. eapply content_memo_mono; [exact Hle|by eapply Hc].
  - intros k i Hk. eapply identity_mono; [exact Hle|by eapply Hi].
  - intros k e Hk. destruct (Hd k e Hk) as (jwt & Ha & Hr). exists jwt. by split; [apply Hle|].
Qed.

(** The deprecated route can bundle the version that the push makes. *)
Lemma toy_push_bundled (db : ToyDb) (x t g y : toy_version) (m : SphereMutation ToyCid) : sphere_mutation_is_empty m = true ->
  lineage (eq (toy_did 2)) db x [(name_mutation, t)] -> is_sphere_memo (ver_memo x) -> entries_at 1 db (ver_value t) ->
  holds db g -> is_sphere_memo (ver_memo g) -> succeeds (eq (toy_did 3)) db g (push_mutation m (toy_did 1) x [(name_mutation, t)] g) y ->
  added_at false 1 db (ver_value y) ->
  exists bundle, V0alpha1.bundle_until_ancestor 4 db (ver_cid y) (Some (ver_cid g)) = Ok bundle.
Proof.
  intros Hm Hl Hsp Hent Hg Hspg Hy (_ & Hi & Hdl). inversion Hl as [|? ? ? ? Hx Ht Hrest]; subst. apply (linking_bundle (eq (toy_did 3)) 1 db g _ y Hg Hy Hspg).
  - assert (lineage (eq (toy_did 3)) db g [(push_mutation m (toy_did 1) x [(name_mutation, t)] g, y)]) as Hly by (constructor; [done|done|constructor; apply Hy]).
    intros E. apply (lineage_fresh _ _ _ _ Hly). rewrite E. by apply list_elem_of_singleton.
  - destruct Hy as (_ & _ & -> & _). destruct (idle_changes m Hm) as (Hc & _).
    intros k c. cbn [apply_value v_content]. unfold push_mutation. cbn [with_names content_mutation mutation_changes with_content]. rewrite Hc.
    cbn. intros [= -> ->]%list_elem_of_singleton. exists (eq (toy_did 2)), x, name_mutation, t. split; [done|]. split; [done|]. split; [done|].
    split; [exact (is_sphere_succeeds _ _ _ _ _ Ht Hsp)|done].
  - intros k i Hin. specialize (Hi k i Hin). unfold identity_at in *. destruct (peer_link_record i); [|done]. destruct Hi as (l' & ? & ?). exists l'. split; [done|lia].
  - intros k e Hin. destruct (StreamProofs.chain_ucan _ _ _ (Hdl k e Hin)) as (u & jwt & Htok & _). by exists jwt.
Qed.

(** An accepted push: both routes answer with the version that the gateway comes to,
    which links the history pushed. *)
Lemma push_routes_agree_witness : exists (gdb : ToyDb) (y : toy_version) credentials body roots blocks first bundle car gw1 gw2,
  V0alpha1.push_route (Url := ToyUrl) toy_keys 4 4 4 20 [] (gateway_at gdb) credentials body = (Ok (OK, Some (V0alpha1.Accepted (ver_cid y) bundle)), gw1) /\
  push_route (Url := ToyUrl) toy_keys 4 4 4 20 [] (gateway_at gdb) credentials (Ok (roots, (first :: blocks, Ok tt))) = (Ok (OK, Ok ([ver_cid y], car)), gw2) /\
  same_push 4 (gateway_at gdb) body (V0alpha1.push_route (Url := ToyUrl) toy_keys 4 4 4 20 [] (gateway_at gdb) credentials body) (Ok (OK, Ok ([ver_cid y], car)), gw2) /\
  at_version (gateway_context gw2) y /\ (v_content (ver_value y)).1 !! toy_did 1 = Some (V0alpha1.local_tip body).
Proof.
  destruct toy_pair as (db & gdb & x & t & g & u & Hp & Hg & Hx & Ht & Hent). destruct Hp as [_ _ Hid _ [Hn1 Hn2] [Hk1 Hk2] _ _ Hq Hsend _ Hsv [Hv Hxh] _].
  destruct (gateway_authorized (Url := ToyUrl) toy_keys 4 4 20 [] (gateway_at gdb) db _ _ _ _ _ (toy_did 3) Push toy_json_total Hq) as (credentials & gdb' & _ & Ea & Hgr).
  pose proof (serving_grown (Url := ToyUrl) _ _ _ _ _ _ _ _ _ _ _ Hsv Hgr) as Hs'. set (ctx := with_db (gateway_context (gateway_at gdb)) gdb') in *.
  set (body := mkPush (toy_did 1) (Some (ver_cid x)) (ver_cid t) (Some (ver_cid g)) None).
  destruct (push_request_stream 4 4 pair_names pair_tokens (eq (toy_did 2)) 1 db x [(name_mutation, t)] body Hsend) as (first & blocks & Ef & Eo & Hsound & Hdel); [done..|].
  destruct (push_invoke_spec (Url := ToyUrl) toy_keys 4 4 4 20 pair_names pair_tokens pair_names_free pair_tokens_free (eq (toy_did 2)) [] (gateway_scope (gateway_at gdb)) ctx g
    (toy_did 3) 1 db x [(name_mutation, t)] body Hs' Hsend (holds_mono _ _ _ (proj1 Hgr) Hxh)) as (y & ctx' & answer & car & jobs & Ei & Hrest); [done..| |done|done|done|].
  { apply (check_history_done (Url := ToyUrl) 20 ctx body (ver_cid g) (Some (ver_cid x))).
    - apply at_version_context. by destruct Hs' as [[Hat _ _ _ _ _] _ _ _ _ _].
    - change (get_version gdb' (toy_did 1) = Ok (Some (ver_cid x))). rewrite (same_names_version _ _ _ (proj2 Hgr)). exact Hv.
    - split; [done|]. split; [done|]. intros c' [= <-]. destruct Hsend as [Hl0 Hsome _ _ _ _ _ _ _]. exact (tip_fresh _ _ _ _ Hl0 Hsome). }
  destruct Hrest as (_ & _ & _ & Hle & Hlin & Hy & _ & Hr & _ & Hadd & _). pose proof Hy as (_ & _ & Ev & _). pose proof Hsv as [_ Hidle _ _ _ _]. pose proof (push_links _ _ _ _ _ _ Hidle Ev) as Hlink.
  rewrite Ef in Ei. set (v1 := V0alpha1.mkPush (toy_did 1) (Some (ver_cid x)) (ver_cid t) (Some (ver_cid g)) (as_bundle blocks) None).
  assert (push_route (Url := ToyUrl) toy_keys 4 4 4 20 [] (gateway_at gdb) credentials (Ok ([], (first :: blocks, Ok tt))) =
    (Ok (OK, Ok ([ver_cid y], (answer :: car, Ok tt))), mkGateway ctx' (gateway_scope (gateway_at gdb)) (gateway_jobs (gateway_at gdb) ++ jobs))) as E2.
  { unfold push_route, toy_plain_route. unfold SyncProofs.plain_context in Ea. unfold GatewayProofs.plain in Ei. rewrite Ea. fold ctx. cbn [from_car_stream at_db gateway_scope gateway_jobs]. rewrite Ei. done. }
  destruct (push_routes_agree (Url := ToyUrl) toy_keys 4 4 4 20 [] (gateway_at gdb) credentials v1 [] blocks first Eo eq_refl) as [_ Hsame].
  specialize (Hsame eq_refl). unfold plain_route_context in *. unfold toy_plain_route in E2. rewrite E2 in Hsame.
  destruct (push_invokes_agree (Url := ToyUrl) toy_keys 4 4 4 20 [] (gateway_scope (gateway_at gdb)) ctx v1 blocks first Eo eq_refl)
    as (r & ctx'' & previous & response & Hresp & E1 & E2').
  unfold plain_route_context in *. unfold GatewayProofs.plain in *. rewrite E2' in Ei. assert (ctx'' = ctx' /\ r = Done (ver_cid y)) as [-> ->].
  { destruct r; cbn [map_err attempt_bind to_car_stream] in Ei; try discriminate Ei. injection Ei. intros. by subst. }
  destruct (Hresp _ eq_refl) as (_ & ctx0 & Ev0 & Einc).
  destruct (incorporate_history_spec (Url := ToyUrl) toy_keys 4 4 4 20 pair_names pair_tokens pair_names_free pair_tokens_free (eq (toy_did 2)) 1 db ctx x [(name_mutation, t)]
    (gateway_scope (gateway_at gdb)) body blocks Hsend (holds_mono _ _ _ (proj1 Hgr) Hxh)) as (db1 & Einc' & Hle1 & _ & _ & _ & Hver); [apply Hs'|done|done|done|done|exact Hsound|exact Hdel|].
  unfold GatewayProofs.plain in Einc'. change (body_of_v1 v1) with body in Einc. rewrite Einc' in Einc. injection Einc as <-.
  assert (previous = ver_cid g) as ->.
  { pose proof Hs' as [[[Hgv Hgh] _ _ _ _ _] _ _ _ _ _]. enough (at_version (edited ctx db1 (with_content (ctx_mutation ctx) (Add (toy_did 1) (ver_cid t)))) g) as Hat.
    { pose proof (eq_trans (eq_sym Ev0) (at_version_context _ _ Hat)) as E. by injection E. }
    split; [|exact (holds_mono _ _ _ Hle1 Hgh)]. exact (eq_trans (Hver (toy_did 3) (not_eq_sym Hn2)) Hgv). }
  pose proof Hsv as [[[_ Hgh] _ _ _ _ _] _ _ Hspg _ _]. assert (store_le gdb (ctx_db ctx')) as Hle0 by (etransitivity; [exact (proj1 Hgr)|exact Hle]).
  destruct (toy_push_bundled (ctx_db ctx') x t g y (ctx_mutation ctx) Hidle Hlin (send_sphere _ _ _ _ _ _ _ _ _ Hsend) (toy_entries_mono _ _ _ _ Hle0 Hent)
    (holds_mono _ _ _ Hle0 Hgh) Hspg Hy Hadd) as [bundle Eb].
  pose proof (ready_at _ _ _ _ _ _ Hr) as Hat. cbn [attempt_bind] in E1. rewrite (at_version_context _ _ Hat) in E1. cbn [outcome_bind] in E1. rewrite Eb in E1.
  cbn [lift attempt_bind] in E1. exists gdb, y. do 9 eexists. split; [|split; [exact E2|split; [exact Hsame|]]].
  - unfold V0alpha1.push_route, toy_plain_route. unfold SyncProofs.plain_context in Ea. rewrite bool_decide_true by done. cbn [negb]. rewrite Ea. change (gateway_scope (at_db (gateway_at gdb) gdb')) with (gateway_scope (gateway_at gdb)). rewrite E1. reflexivity.
  - split; [exact Hat|]. rewrite Hlink. apply lookup_insert_eq.
Defined.
End runs.
