(* ===== verification/NameSystemTheorems.v ===== *)
(** * Theorems about the name system

    What any run of a node guarantees, which records it keeps and hands out, and what
    ends it. *)
From stdpp Require Import base gmap list numbers strings fin_maps.
From Stdlib Require Import String.
From S2P Require Import Prelude BlockStore BTree UcanCapability Ucan UcanChain UcanProofs Authority Dht DhtProofs NameSystem.
From S2P Require Import ContextAuthority Instances UcanInstances UcanFixtures.
#[local] Open Scope list_scope.
#[local] Notation length := List.length (only parsing).

Section node.
Context {Peer Addr Listener Query Range Sw : Type} `{EqDecision Peer} `{EqDecision Listener} `{Countable Query} `{EqDecision Range}.
Context `{!AddrOps Peer Addr} `{!SwarmOps Peer Addr Listener Query Range Sw} `{!SwarmView Listener Query Sw}.
Context `{!SwarmLaws Peer Addr Listener Query Range Sw}.
Context (validator : option (bytes -> outcome bool)).
Notation DhtMessage := (DhtMessage Addr).
Notation processor := (DhtProcessor (Peer := Peer) (Addr := Addr) (Listener := Listener) (Query := Query) (Range := Range) (Sw := Sw)).
Notation turn := (turn (Peer := Peer) (Addr := Addr) (Listener := Listener) (Query := Query) (Range := Range) (Sw := Sw) validator).
Notation runs := (runs (Peer := Peer) (Addr := Addr) (Listener := Listener) (Query := Query) (Range := Range) (Sw := Sw) validator).
Implicit Types (p : processor) (m : DhtMessage) (ms : list DhtMessage) (s : Sw).

(** The records that a swarm starts with. *)
Definition starts_valid s : Prop := forall k v, stored_record s k = Some v -> validate validator v = Ok true.

(** C19: However long a node runs, every message that it took is either answered or
    waits for one query or for the listener, and in no two of these places; so no
    message is answered twice. *)
Theorem messages_accounted (me : Peer) s ms p : starts_valid s -> NoDup (message_id <$> ms) -> runs (processor_new me s) ms p ->
  message_id <$> ms ≡ₚ (answers p).*1 ++ waiting p /\ NoDup ((answers p).*1 ++ waiting p).
Proof.
  intros Hv Hn Hr. pose proof (runs_sound validator _ _ _ (sound_new validator me s Hv) Hr) as [Ha _ _ _ _].
  split; [done|]. by rewrite <- Ha.
Qed.

(** C32: Every response of a node is of the kind that the call which sent the request
    expects, so no call fails with [Unexpected]. *)
Theorem answers_fit_calls (me : Peer) s ms p n r : starts_valid s -> runs (processor_new me s) ms p -> (n, inl r) ∈ answers p ->
  exists m, m ∈ ms /\ message_id m = n /\ is_Some (call_result (projT2 (call_of (message_request m))) r).
Proof. intros Hv Hr. apply (sound_answers validator _ _ (runs_sound validator _ _ _ (sound_new validator me s Hv) Hr)). Qed.

(** C25: A node keeps only records that its validator, a function of the record alone,
    accepted, whether they were put by its own client or came from peers. *)
Theorem only_valid_records_kept (me : Peer) s ms p k v : starts_valid s -> runs (processor_new me s) ms p ->
  stored_record (swarm p) k = Some v -> validate validator v = Ok true.
Proof. intros Hv Hr. apply (sound_records validator _ _ (runs_sound validator _ _ _ (sound_new validator me s Hv) Hr)). Qed.

(** The only ways for a running node to panic are a listener that closed by itself
    and a validator that panics: the message of a finished record query is always a
    request for a record. *)
Theorem panics_only_so (me : Peer) s ms p (om : option DhtMessage) w p' : starts_valid s -> runs (processor_new me s) ms p ->
  turn p om (Panic w, p') ->
  (exists l, active_listener p = Some l /\ ~ listening (swarm p) l) \/ exists data w', validate validator data = Panic w'.
Proof.
  intros Hv Hr Ht. exact (turn_panics validator p ms om w p' (runs_sound validator _ _ _ (sound_new validator me s Hv) Hr) Ht).
Qed.

(** When the listener of a node closes by itself the node does not notice, and the
    next request to stop listening or to listen elsewhere makes it panic, which ends
    its loop. *)
Theorem closed_listener_ends_node p l s m : active_listener p = Some l -> ~ listening s l -> emits (swarm p) OtherEvent s ->
  message_request m = StopListening \/ (exists a, message_request m = StartListening a) ->
  process_swarm_event validator OtherEvent (with_swarm p s) = (Ok tt, with_swarm p s) /\
  exists w p', process_message validator m (with_swarm p s) = (Panic w, p').
Proof.
  intros Hl Hc He Hm. split; [done|].
  assert (exists w p', stop_listening (with_swarm p s) = (Panic w, p')) as (w & p' & E).
  { unfold stop_listening. cbn. rewrite Hl. pose proof (remove_listener_law s l) as Hr. destruct (remove_listener s l) as [[] s'].
    - destruct Hr as [Hr _]. destruct Hc. by apply Hr.
    - by eexists _, _. }
  exists w, p'. unfold process_message. destruct Hm as [->|[a ->]]; [by rewrite E|]. unfold start_listening, listen. by rewrite E.
Qed.

(** Of the buckets with disconnected peers only the last two are ever dialed. *)
Lemma next_to_dial_last (last : option Range) buckets (b : KBucket Peer Addr Range) e : first_disconnected (bucket_entries b) = Some e ->
  last <> Some (bucket_range b) -> next_to_dial last (buckets ++ [b]) = Some (e, bucket_range b).
Proof. intros He Hl. unfold next_to_dial. rewrite foldl_app. cbn. rewrite bool_decide_false by done. rewrite He. by destruct e. Qed.

Lemma early_buckets_never_dialed (last : option Range) buckets (b1 b2 : KBucket Peer Addr Range) e1 e2 peer addrs range :
  first_disconnected (bucket_entries b1) = Some e1 -> first_disconnected (bucket_entries b2) = Some e2 -> bucket_range b1 <> bucket_range b2 ->
  next_to_dial last (buckets ++ [b1; b2]) = Some (peer, addrs, range) -> range = bucket_range b1 \/ range = bucket_range b2.
Proof.
  intros H1 H2 Hne. destruct (decide (last = Some (bucket_range b2))) as [->|Hl].
  - change [b1; b2] with ([b1] ++ [b2]). rewrite app_assoc. unfold next_to_dial at 1. rewrite foldl_app. cbn [foldl].
    rewrite (bool_decide_true (Some (bucket_range b2) = Some (bucket_range b2))) by done.
    change (foldl _ None (buckets ++ [b1])) with (next_to_dial (Some (bucket_range b2)) (buckets ++ [b1])).
    rewrite (next_to_dial_last _ _ _ _ H1) by congruence. intros E. injection E as _ <-. by left.
  - change [b1; b2] with ([b1] ++ [b2]). rewrite app_assoc, (next_to_dial_last _ _ _ _ H2) by done. intros E. injection E as _ <-. by right.
Qed.
End node.

(** ** Records *)
Section records.
Context {Key Url St Cid : Type}.
Context `{KeyMaterial Key} `{Bs58} `{Base64Laws} `{!Base64Ascii} `{DagJsonLaws UcanHeader} `{DagJsonLaws UcanPayload}.
Context `{UrlOps Url} `{CidOps Cid} `{UcanStore St Cid} `{EqDecision Cid}.
Context {Peer Addr Listener Query Range Sw : Type} `{EqDecision Peer} `{EqDecision Listener} `{Countable Query} `{EqDecision Range}.
Context `{!AddrOps Peer Addr} `{!SwarmOps Peer Addr Listener Query Range Sw} `{!SwarmView Listener Query Sw}.
Context `{!SwarmLaws Peer Addr Listener Query Range Sw}.
Context (supported_keys : list (bytes * (bytes -> outcome Key))).
Context (fuel : nat) (clock : N) (store : St).
Notation processor := (DhtProcessor (Peer := Peer) (Addr := Addr) (Listener := Listener) (Query := Query) (Range := Range) (Sw := Sw)).
Notation validator := (Some (record_validate (Url := Url) (Cid := Cid) supported_keys fuel clock store)).
Implicit Types (p : processor) (record : Ucan).

(** A record that was parsed or signed, and so is the same when it is read again. *)
Definition readable record (value : bytes) : Prop := link_record_to_bytes record = Ok value /\ link_record_of_bytes value = Ok record.

Lemma signed_readable record jwt : signed_data_wf record -> ucan_encode record = Ok jwt -> readable record (as_bytes jwt).
Proof.
  intros Hwf Ej. unfold readable, link_record_to_bytes, link_record_of_bytes. rewrite Ej. split; [done|].
  unfold from_utf8. rewrite (ascii_utf8 _ (ucan_encode_ascii record _ Ej)), string_of_as_bytes. cbn [outcome_bind]. by apply ucan_encode_decode.
Qed.

Lemma record_validates record value : readable record value ->
  link_record_validate (Url := Url) (Cid := Cid) supported_keys fuel clock store record = Ok tt -> validate validator value = Ok true.
Proof. intros [_ Hr] Hv. cbn. unfold record_validate. by rewrite Hr, Hv. Qed.

(** The answer to a request for a record, when the query finds one. *)
Lemma found_record p id m key record value : requests p !! id = Some m -> message_request m = GetRecord key -> readable record value ->
  link_record_validate (Url := Url) (Cid := Cid) supported_keys fuel clock store record = Ok tt ->
  exists a, process_query_result validator id (FoundRecord (mkRecord key value)) p =
      (Ok tt, respond m a (with_requests p (delete id (requests p)))) /\
    get_record_result (call_answer (node_get_record key) a) = Ok (Some record).
Proof.
  intros Em _ Hr Hv. eexists. split.
  - cbn [process_query_result]. unfold settle. rewrite Em. cbn [kad_value]. rewrite (record_validates _ _ Hr Hv). done.
  - cbn. unfold get_record_result. cbn. by rewrite (proj2 Hr).
Qed.

(** C26: A link record that validates and is published at a node that has room for it is
    kept there under the identity of its sphere; and when a later query for that
    identity finds it, the name resolves to the record. *)
Theorem published_record_resolves p record value m p1 (m' : DhtMessage Addr) : readable record value ->
  link_record_validate (Url := Url) (Cid := Cid) supported_keys fuel clock store record = Ok tt ->
  (exists call : DhtCall (Peer := Peer) (Addr := Addr) bytes, publish_call record = Ok call /\ message_request m = call_request call) ->
  message_request m' = call_request (resolve_call (Addr := Addr) (Peer := Peer) (to_sphere_identity record)) ->
  (kad_store_put (swarm p) (mkRecord (as_bytes (to_sphere_identity record)) value)).1 = inl tt ->
  process_message validator m p = (Ok tt, p1) ->
  (exists a, answers p1 = answers p ++ [(message_id m, a)] /\
     put_record_result (call_answer (node_put_record (Peer := Peer) (Addr := Addr) (as_bytes (to_sphere_identity record)) value 0) a) = Ok tt) /\
  stored_record (swarm p1) (as_bytes (to_sphere_identity record)) = Some value /\
  exists id p2, process_message validator m' p1 = (Ok tt, p2) /\
    stored_record (swarm p2) (as_bytes (to_sphere_identity record)) = Some value /\
    exists a p3, process_query_result validator id (FoundRecord (mkRecord (as_bytes (to_sphere_identity record)) value)) p2 = (Ok tt, p3) /\
      answers p3 = answers p2 ++ [(message_id m', a)] /\
      get_record_result (call_answer (resolve_call (Peer := Peer) (Addr := Addr) (to_sphere_identity record)) a) = Ok (Some record).
Proof.
  intros Hr Hv (call & Ec & Em) Em' Hroom E. unfold publish_call, put_record_call in Ec. rewrite (proj1 Hr) in Ec. injection Ec as <-. cbn in Em, Em'.
  set (key := as_bytes (to_sphere_identity record)) in *. unfold process_message in E. rewrite Em in E. unfold put_record in E.
  rewrite (record_validates _ _ Hr Hv) in E. cbn in E. pose proof (store_put_law (swarm p) (mkRecord key value)) as Hput.
  destruct (kad_store_put (swarm p) (mkRecord key value)) as [[[]|e] s1]; [|discriminate Hroom]. injection E as <-. destruct Hput as (Hput & _).
  assert (stored_record s1 key = Some value) as Hst by (rewrite (Hput key); cbn; by rewrite decide_True).
  split; [eexists; split; [done|]; done|]. split; [exact Hst|].
  unfold process_message. rewrite Em'. cbn [swarm respond with_swarm]. pose proof (get_record_law s1 key) as Hg.
  destruct (kad_get_record s1 key) as [id s2] eqn:Eg. destruct Hg as [_ Hrec]. eexists id, _. split; [done|].
  split; [cbn; by rewrite (Hrec key)|].
  destruct (found_record (store_request m' (inl id) (with_swarm (respond m (inl (DidPutRecord key)) (with_swarm p s1)) s2)) id m' key record value)
    as (a & Ea & Ha); [cbn; apply lookup_insert_eq|done|done|done|]. exists a. eexists. split; [exact Ea|]. split; [done|exact Ha].
Qed.

(** C37: A node does not compare the key of a record with the sphere that the record is
    for: a peer that sends a valid record of its own sphere under the identity of
    another sphere replaces the record of that sphere, and the name of that sphere
    resolves to the foreign record. *)
Theorem foreign_record_replaces p (source : Peer) record value (identity : string) id (m : DhtMessage Addr) s : readable record value ->
  link_record_validate (Url := Url) (Cid := Cid) supported_keys fuel clock store record = Ok tt -> to_sphere_identity record <> identity ->
  emits (swarm p) (InboundPutRecord source (Some (mkRecord (as_bytes identity) value))) s ->
  (kad_store_put s (mkRecord (as_bytes identity) value)).1 = inl tt ->
  requests p !! id = Some m -> message_request m = call_request (resolve_call (Peer := Peer) (Addr := Addr) identity) ->
  exists p1, process_swarm_event validator (InboundPutRecord source (Some (mkRecord (as_bytes identity) value))) (with_swarm p s) = (Ok tt, p1) /\
    stored_record (swarm p1) (as_bytes identity) = Some value /\
    exists a p2, process_query_result validator id (FoundRecord (mkRecord (as_bytes identity) value)) p1 = (Ok tt, p2) /\
      answers p2 = answers p ++ [(message_id m, a)] /\
      get_record_result (call_answer (resolve_call (Peer := Peer) (Addr := Addr) identity) a) = Ok (Some record).
Proof.
  intros Hr Hv Hne He Hroom Em Hreq. eexists. cbn [process_swarm_event process_inbound_put kad_value]. rewrite (record_validates _ _ Hr Hv). cbn [try_with].
  split; [done|]. split.
  - cbn. pose proof (store_put_law s (mkRecord (as_bytes identity) value)) as Hput. destruct (kad_store_put _ _) as [[[]|e] s1]; [|discriminate Hroom].
    destruct Hput as (Hput & _). cbn. rewrite (Hput (as_bytes identity)). cbn. by rewrite decide_True.
  - destruct (found_record (with_swarm (with_swarm p s) (kad_store_put (swarm (with_swarm p s)) (mkRecord (as_bytes identity) value)).2) id m (as_bytes identity) record value)
      as (a & Ea & Ha); [done..|]. exists a. eexists. split; [exact Ea|]. split; [done|exact Ha].
Qed.

Lemma poll_for_record_exact (resolved : nat -> outcome (option Ucan)) (link : Cid) attempts i :
  poll_for_record resolved link attempts i = Ok tt <->
  exists j record, i <= j < i + attempts /\ resolved j = Ok (Some record) /\ get_link record = Some link /\
    forall k, i <= k < j -> exists r, resolved k = Ok r.
Proof.
  revert i. induction attempts as [|attempts IH]; intros i; cbn [poll_for_record].
  { split; [done|]. intros (j & _ & Hj & _). lia. }
  assert (forall r, resolved i = Ok r -> ~ (exists record, r = Some record /\ get_link record = Some link) ->
    poll_for_record resolved link attempts (S i) = Ok tt <->
    exists j record, i <= j < i + S attempts /\ resolved j = Ok (Some record) /\ get_link record = Some link /\
      forall k, i <= k < j -> exists r, resolved k = Ok r) as Hnext.
  { intros r Er Hno. rewrite IH. split.
    - intros (j & record & Hj & E & Hl & Hk). exists j, record. split; [lia|]. split; [done|]. split; [done|]. intros k Hk'.
      destruct (decide (k = i)) as [->|]; [by exists r|]. apply Hk. lia.
    - intros (j & record & Hj & E & Hl & Hk). exists j, record. split; [|split; [done|split; [done|intros k Hk'; apply Hk; lia]]].
      destruct (decide (j = i)) as [->|]; [|lia]. destruct Hno. exists record. split; [congruence|done]. }
  assert (forall e, (forall r, resolved i <> Ok r) -> e <> Ok tt -> e = Ok tt <->
    exists j record, i <= j < i + S attempts /\ resolved j = Ok (Some record) /\ get_link record = Some link /\
      forall k, i <= k < j -> exists r, resolved k = Ok r) as Hstop.
  { intros e Hi He. split; [done|]. intros (j & record & Hj & E & _ & Hk). destruct (decide (j = i)) as [->|]; [by apply Hi in E|].
    destruct (Hk i) as [r Er]; [lia|]. by apply Hi in Er. }
  destruct (resolved i) as [[record|]| | |] eqn:Er; cbn [outcome_bind].
  - destruct (get_link record) as [l|] eqn:El.
    + case_bool_decide as Heq; [|apply (Hnext _ eq_refl); intros (r & [= <-] & ?); congruence].
      split; [|done]. intros _. exists i, record. split; [lia|]. split; [done|]. split; [by rewrite El, Heq|]. intros k Hk. lia.
    + apply (Hnext _ eq_refl). intros (r & [= <-] & ?). congruence.
  - apply (Hnext _ eq_refl). by intros (r & [=] & _).
  - by apply Hstop.
  - by apply Hstop.
  - by apply Hstop.
Qed.

(** [wait_for_record] makes at most as many attempts as the timeout has seconds,
    five if there is none, and succeeds exactly if one of them resolves a record of the
    awaited link and none before fails. *)
Theorem wait_for_record_exact (resolved : nat -> outcome (option Ucan)) (link : Cid) (timeout : option nat) :
  wait_for_record resolved link timeout = Ok tt <->
  exists j record, j < default 5 timeout /\ resolved j = Ok (Some record) /\ get_link record = Some link /\
    forall k, k < j -> exists r, resolved k = Ok r.
Proof.
  unfold wait_for_record. rewrite poll_for_record_exact. split; intros (j & record & Hj & E & El & Hk); exists j, record.
  - split; [lia|]. split; [done|]. split; [done|]. intros k ?. apply Hk. lia.
  - split; [lia|]. split; [done|]. split; [done|]. intros k ?. apply Hk. lia.
Qed.
End records.

(** ** Runs

    A swarm that knows only itself: its listeners may close and its records expire at
    any time, and a query reports any result of its kind. *)
Record ToySwarm := mkToySwarm { toy_listeners : gset nat; toy_queries : gmap nat query_kind; toy_records : gmap bytes bytes }.

Definition toy_ask (kind : query_kind) (s : ToySwarm) : nat * ToySwarm :=
  let id := fresh (dom (toy_queries s)) in (id, mkToySwarm (toy_listeners s) (<[id := kind]> (toy_queries s)) (toy_records s)).

Definition toy_put (s : ToySwarm) (rec : Record_) : ToySwarm :=
  mkToySwarm (toy_listeners s) (toy_queries s) (<[kad_key rec := kad_value rec]> (toy_records s)).

#[export] Instance toy_addr_ops : AddrOps N (list N) := {
  addr_pop a := match a with [] => (None, []) | peer :: rest => (Some peer, rest) end;
  addr_push a peer := peer :: a;
}.

#[export] Instance toy_swarm_ops : SwarmOps N (list N) nat nat N ToySwarm := {
  network_info _ := mkNetworkInfo 0 0 0 0;
  connected_peers _ := [];
  swarm_listeners s := (fun l => [N.of_nat l]) <$> elements (toy_listeners s);
  external_addresses _ := [];
  listen_on s _ := let l := fresh (toy_listeners s) in (inl l, mkToySwarm ({[l]} ∪ toy_listeners s) (toy_queries s) (toy_records s));
  remove_listener s l := (bool_decide (l ∈ toy_listeners s), mkToySwarm (toy_listeners s ∖ {[l]}) (toy_queries s) (toy_records s));
  dial s _ _ := (inl tt, s);
  kbuckets _ := [];
  kad_get_providers s _ := toy_ask ProvidersQuery s;
  kad_start_providing s _ := let '(id, s) := toy_ask ProvidingQuery s in (inl id, s);
  kad_get_record s _ := toy_ask RecordQuery s;
  kad_put_record s rec _ := let '(id, s) := toy_ask PutQuery s in (inl id, toy_put s rec);
  kad_store_put s rec := (inl tt, toy_put s rec);
  kad_bootstrap s := (inr "no known peers", s);
  kad_add_address s _ _ := s;
  emits s e s' := toy_queries s' = toy_queries s /\ toy_records s' ⊆ toy_records s /\
    match e with
    | OutboundQueryProgressed id r => forall kind, result_kind r = Some kind -> toy_queries s' !! id = Some kind
    | _ => True
    end;
}.

#[export] Instance toy_swarm_view : SwarmView nat nat ToySwarm := {
  listening s l := l ∈ toy_listeners s;
  issued := toy_queries;
  stored_record s k := toy_records s !! k;
}.

Lemma toy_asked kind s : let '(id, s') := toy_ask kind s in asked kind s id s' /\ same_records s s'.
Proof. cbn. split; [|done]. split; [|done]. apply not_elem_of_dom, is_fresh. Qed.

Lemma toy_put_in s rec : put_in s rec (toy_put s rec).
Proof.
  intros k. cbn. destruct (decide (k = kad_key rec)) as [->|]; [apply lookup_insert_eq|by apply lookup_insert_ne].
Qed.

#[export] Instance toy_swarm_laws : SwarmLaws N (list N) nat nat N ToySwarm.
Proof.
  split.
  - intros s a. cbn. split; [done|]. split; [done|]. set_solver.
  - intros s l. cbn. rewrite bool_decide_eq_true. split; [done|]. split; [done|]. split; [done|]. set_solver.
  - intros s peer addrs. reflexivity.
  - intros s key. apply toy_asked.
  - intros s key. apply (toy_asked ProvidingQuery s).
  - intros s key. apply toy_asked.
  - intros s rec quorum. split; [apply (toy_asked PutQuery s)|apply (toy_put_in s)].
  - intros s rec. split; [apply toy_put_in|by split].
  - intros s. reflexivity.
  - intros s peer addr. reflexivity.
  - intros s e s' (Hq & Hr & He). split; [cbn; by rewrite Hq|]. split; [|done]. intros k v E. exact (lookup_weaken _ _ k v E Hr).
Qed.

Section runs.
Notation ToyProcessor := (DhtProcessor (Peer := N) (Addr := list N) (Listener := nat) (Query := nat) (Range := N) (Sw := ToySwarm)).
Notation toy_message := (mkMessage (Addr := list N)).
Definition toy_swarm : ToySwarm := mkToySwarm ∅ ∅ ∅.
Definition accept_all : option (bytes -> outcome bool) := Some (fun _ => Ok true).

(** A node that is asked for a record, listens, and is told that the record was not
    found. *)
Definition toy_started : ToyProcessor :=
  (process_message accept_all (toy_message 2 (StartListening [7%N]))
    (process_message accept_all (toy_message 1 (GetRecord [1%N])) (processor_new 5%N toy_swarm)).2).2.
Definition toy_told : ToyProcessor :=
  (process_swarm_event accept_all (OutboundQueryProgressed 0 (GetRecordFailed (NotFound [1%N]))) (with_swarm toy_started (swarm toy_started))).2.
Notation toy_messages := [toy_message 1 (GetRecord [1%N]); toy_message 2 (StartListening [7%N])].

Lemma toy_starts_valid v : starts_valid (Listener := nat) (Query := nat) v toy_swarm.
Proof. by intros k v' [=]. Qed.

Lemma toy_runs : runs accept_all (processor_new 5%N toy_swarm) toy_messages toy_started.
Proof.
  apply (runs_turn accept_all _ [toy_message 1 (GetRecord [1%N])] (process_message accept_all (toy_message 1 (GetRecord [1%N])) (processor_new 5%N toy_swarm)).2
    (Some (toy_message 2 (StartListening [7%N])))); [|exact (turn_message accept_all _ (toy_message 2 (StartListening [7%N])))].
  apply (runs_turn accept_all _ [] (processor_new 5%N toy_swarm) (Some (toy_message 1 (GetRecord [1%N])))); [constructor|].
  exact (turn_message accept_all _ (toy_message 1 (GetRecord [1%N]))).
Qed.

Lemma toy_runs_told : runs accept_all (processor_new 5%N toy_swarm) toy_messages toy_told.
Proof.
  rewrite <- (app_nil_r toy_messages). eapply (runs_turn _ _ _ _ None); [exact toy_runs|].
  refine (turn_event accept_all toy_started (OutboundQueryProgressed 0 (GetRecordFailed (NotFound [1%N]))) _ _).
  split; [done|]. split; [done|]. intros kind [= <-]. vm_compute. reflexivity.
Qed.

Lemma messages_accounted_witness : answers toy_told = [(1, inl (GotRecord (mkDhtRecord [1%N] None)))] /\ waiting toy_told = [2] /\
  [1; 2] ≡ₚ (answers toy_told).*1 ++ waiting toy_told.
Proof.
  split; [vm_compute; reflexivity|]. split; [vm_compute; reflexivity|].
  destruct (messages_accounted accept_all 5%N toy_swarm toy_messages toy_told) as [Hp _].
  - apply toy_starts_valid.
  - cbn. repeat constructor; set_solver.
  - exact toy_runs_told.
  - exact Hp.
Defined.

Lemma answers_fit_calls_witness : exists m : DhtMessage (list N), m ∈ toy_messages /\ message_id m = 1 /\
  is_Some (call_result (projT2 (call_of (Peer := N) (message_request m))) (GotRecord (mkDhtRecord [1%N] None))).
Proof.
  apply (answers_fit_calls accept_all 5%N toy_swarm toy_messages toy_told 1 (GotRecord (mkDhtRecord [1%N] None))).
  - apply toy_starts_valid.
  - exact toy_runs_told.
  - left.
Defined.

Lemma only_valid_records_kept_witness :
  let p := (process_message accept_all (toy_message 1 (PutRecord [1%N] [2%N] 0)) (processor_new 5%N toy_swarm)).2 in
  stored_record (SwarmView := toy_swarm_view) (swarm p) [1%N] = Some [2%N] /\ validate accept_all [2%N] = Ok true.
Proof.
  split; [vm_compute; reflexivity|].
  apply (only_valid_records_kept accept_all 5%N toy_swarm ([] ++ option_list (Some (toy_message 1 (PutRecord [1%N] [2%N] 0))))
    (process_message accept_all (toy_message 1 (PutRecord [1%N] [2%N] 0)) (processor_new 5%N toy_swarm)).2 [1%N]).
  - apply toy_starts_valid.
  - eapply runs_turn; [constructor|exact (turn_message accept_all _ (toy_message 1 (PutRecord [1%N] [2%N] 0)))].
  - vm_compute. reflexivity.
Defined.

(** The swarm without the listener. *)
Definition toy_closed : ToySwarm := mkToySwarm ∅ (toy_queries (swarm toy_started)) (toy_records (swarm toy_started)).

Lemma toy_closes : emits (SwarmOps := toy_swarm_ops) (swarm toy_started) OtherEvent toy_closed.
Proof. by split; [|split]. Qed.

Lemma panics_only_so_witness : exists w p',
  process_message accept_all (toy_message 3 StopListening) (with_swarm toy_started toy_closed) = (Panic w, p') /\
  ((exists l, active_listener (with_swarm toy_started toy_closed) = Some l /\ ~ listening (SwarmView := toy_swarm_view) toy_closed l) \/
   exists data w', validate accept_all data = Panic w').
Proof.
  eexists _, _. split; [vm_compute; reflexivity|].
  apply (panics_only_so accept_all 5%N toy_swarm (toy_messages ++ option_list None) (with_swarm toy_started toy_closed) (Some (toy_message 3 StopListening))
    "assertion failed: self.swarm.remove_listener(active_listener)" (with_listener (with_swarm toy_started toy_closed) None)).
  - apply toy_starts_valid.
  - eapply runs_turn; [exact toy_runs|]. exact (turn_event accept_all toy_started OtherEvent toy_closed toy_closes).
  - exact (turn_message accept_all (with_swarm toy_started toy_closed) (toy_message 3 StopListening)).
Defined.

Lemma closed_listener_ends_node_witness : exists w p',
  process_message accept_all (toy_message 3 StopListening) (with_swarm toy_started toy_closed) = (Panic w, p').
Proof.
  apply (closed_listener_ends_node accept_all toy_started 0 toy_closed (toy_message 3 StopListening)).
  - vm_compute. reflexivity.
  - cbn. set_solver.
  - exact toy_closes.
  - left. reflexivity.
Defined.

(** A record of the sphere of the fixtures, and what validates records here. *)
Definition toy_record : Ucan := ucan_of record_signable.
Definition toy_value : bytes := match link_record_to_bytes toy_record with Ok value => value | _ => [] end.
Notation toy_validator := (Some (record_validate (Url := ToyUrl) (Cid := string) toy_keys 4 10 toy_store)).

Lemma toy_record_readable : readable toy_record toy_value.
Proof. split; vm_compute; reflexivity. Qed.

Lemma toy_record_valid : link_record_validate (Url := ToyUrl) (Cid := string) toy_keys 4 10 toy_store toy_record = Ok tt.
Proof. vm_compute. reflexivity. Qed.

Lemma published_record_resolves_witness : exists p1 id p2 a p3,
  process_message toy_validator (toy_message 1 (PutRecord (as_bytes (to_sphere_identity toy_record)) toy_value 0)) (processor_new 5%N toy_swarm)
    = (Ok tt, p1) /\
  process_message toy_validator (toy_message 2 (GetRecord (as_bytes (to_sphere_identity toy_record)))) p1 = (Ok tt, p2) /\
  process_query_result toy_validator id (FoundRecord (mkRecord (as_bytes (to_sphere_identity toy_record)) toy_value)) p2 = (Ok tt, p3) /\
  get_record_result (call_answer (resolve_call (Peer := N) (Addr := list N) (to_sphere_identity toy_record)) a) = Ok (Some toy_record).
Proof.
  destruct (process_message toy_validator (toy_message 1 (PutRecord (as_bytes (to_sphere_identity toy_record)) toy_value 0)) (processor_new 5%N toy_swarm))
    as [r p1] eqn:E. assert (r = Ok tt) as -> by (change r with (fst (r, p1)); rewrite <- E; vm_compute; reflexivity).
  destruct (published_record_resolves (Url := ToyUrl) (Cid := string) toy_keys 4 10 toy_store (processor_new 5%N toy_swarm) toy_record toy_value
    (toy_message 1 (PutRecord (as_bytes (to_sphere_identity toy_record)) toy_value 0)) p1
    (toy_message 2 (GetRecord (as_bytes (to_sphere_identity toy_record))))) as (_ & _ & id & p2 & E2 & _ & a & p3 & E3 & _ & Ha).
  - exact toy_record_readable.
  - exact toy_record_valid.
  - eexists. split; [unfold publish_call, put_record_call; rewrite (proj1 toy_record_readable); reflexivity|reflexivity].
  - reflexivity.
  - reflexivity.
  - exact E.
  - exists p1, id, p2, a, p3. split; [reflexivity|]. split; [exact E2|]. split; [exact E3|exact Ha].
Defined.

Lemma foreign_record_replaces_witness : to_sphere_identity toy_record <> "did:key:other" /\ exists p1,
  process_swarm_event toy_validator (InboundPutRecord 9%N (Some (mkRecord (as_bytes "did:key:other") toy_value)))
    (process_message toy_validator (toy_message 1 (GetRecord (as_bytes "did:key:other"))) (processor_new 5%N toy_swarm)).2 = (Ok tt, p1) /\
  stored_record (SwarmView := toy_swarm_view) (swarm p1) (as_bytes "did:key:other") = Some toy_value.
Proof.
  split; [vm_compute; discriminate|].
  set (p := (process_message toy_validator (toy_message 1 (GetRecord (as_bytes "did:key:other"))) (processor_new 5%N toy_swarm)).2).
  destruct (foreign_record_replaces (Url := ToyUrl) (Cid := string) toy_keys 4 10 toy_store p 9%N toy_record toy_value "did:key:other" 0
    (toy_message 1 (GetRecord (as_bytes "did:key:other"))) (swarm p)) as (p1 & E & Hst & _).
  - exact toy_record_readable.
  - exact toy_record_valid.
  - vm_compute. discriminate.
  - by split; [|split].
  - reflexivity.
  - vm_compute. reflexivity.
  - reflexivity.
  - exists p1. split; [exact E|exact Hst].
Defined.
End runs.
