(* ===== verification/RuntimeTheorems.v ===== *)
(** * The properties of the high-level API *)
From stdpp Require Import base gmap list numbers strings pretty.
From Stdlib Require Import Ascii String.
From S2P Require Import Prelude BlockStore HamtNode HamtRep HamtProofs HamtPersist Hamt HamtSpec BTree SphereDb BodyChunk VersionedMap.
From S2P Require Import UcanCapability Ucan UcanChain UcanProofs Authority AuthorityProofs Memo Sphere SphereProofs.
From S2P Require Import SphereHistory SphereRebase SphereGenesis Bundle BundleProofs SphereContext SphereContextProofs.
From S2P Require Import StoreTransfer ContextAuthority Api Gateway Routes KeyStorage Builder BuilderProofs.
#[local] Open Scope list_scope.
#[local] Notation length := List.length (only parsing).

Section runtime_theorems.
Context {Key Url Cid B KV Net Config : Type} `{UnicodeLaws}.
Context `{KeyMaterial Key} `{Bs58} `{Base64Laws} `{!Base64Ascii} `{DagJsonLaws UcanHeader} `{DagJsonLaws UcanPayload} `{UrlLaws Url}.
Context `{Countable Cid} `{HashAlgorithmLaws string} `{HashAlgorithmLaws Cid} `{KeyOrderLaws Cid}.
Context `{CidLaws Cid} `{!BlockStore B Cid} `{!BlockStoreLaws B Cid} `{StoreLaws KV}.
Context `{!SphereCodecs Cid} `{!SphereCodecsLaws Cid} `{!EntryCodecs Cid} `{!EntryCodecsLaws Cid}.
Context `{!ContextCodecs Cid} `{!ContextCodecsLaws Cid}.
Context `{FastCdc} `{!GatewayApi Net Key Cid} `{!SessionServer Net Cid}.
Context `{Bip39Laws} `{Ed25519Laws Key} `{!Platform (SphereDb B KV) Config} `{!PlatformLaws (Cid := Cid)}.
Context (supported_keys : list (bytes * (bytes -> outcome Key))).
Context (fuel walk_fuel body_fuel : nat).
Notation ctors := (key_constructors (did_parser_new supported_keys)).
Notation noosphere := (NoosphereContext (Key := Key) (Cid := Cid) (B := B) (KV := KV) (Config := Config)).
Notation world := (World (B := B) (KV := KV) (Net := Net)).
#[local] Existing Instance block_ucan_store.
Implicit Types (self : noosphere) (w : world).

(** Making the directory of the keys again changes nothing. *)
Lemma insecure_new_again path fs keys fs' : insecure_new path fs = (Ok keys, fs') -> insecure_new path fs' = (Ok keys, fs').
Proof.
  unfold insecure_new, create_dir_all. destruct (existsb _ _) eqn:E; [done|]. cbn [try_with]. intros [= <- <-]. cbn [fs_files fs_directories].
  rewrite E. cbn [try_with]. by rewrite (assoc_L (∪)), (idemp_L (∪)).
Qed.

Lemma key_storage_again self self' w keys w' : security (configuration self') = security (configuration self) ->
  noosphere_key_storage self w = (Ok keys, w') -> forall (databases : gmap PathBuf (SphereDb B KV)) (net : Net),
  noosphere_key_storage self' (mkWorld (w_files w') databases net) = (Ok keys, mkWorld (w_files w') databases net).
Proof.
  unfold noosphere_key_storage. intros ->. destruct (security _) as [path|]; [|done]. intros Hk databases net.
  destruct (insecure_new path (w_files w)) as [[ks| | |] fs'] eqn:E; cbn [try_with] in Hk; try done. injection Hk as <- <-. cbn [w_files].
  by rewrite (insecure_new_again _ _ _ _ E).
Qed.

(** The place of a sphere in the storage of an application. *)
Definition sphere_root self (identity : string) : PathBuf := resolve_path (get_scoped_path (sphere_storage_path self) identity).

(** How an application that starts again opens a sphere. *)
Definition reopening self (identity : string) (keys : InsecureKeyStorage * FileSystem) : SphereContextBuilder (Cid := Cid) (K := InsecureKeyStorage * FileSystem) (Config := Config) :=
  configured (noosphere_new (configuration self) : noosphere) (open_sphere sphere_builder_default (Some identity)) keys.

Lemma channel_opens (clock : N) (any_key : Key) self (identity : string) w (keys : InsecureKeyStorage * FileSystem) w0 (databases databases' : gmap PathBuf (SphereDb B KV)) (net : Net) r :
  noosphere_key_storage self w = (Ok keys, w0) -> open_a_sphere (reopening self identity keys) (Some identity) databases = (r, databases') ->
  match r with
  | Ok (SphereOpened ctx) | Ok (SphereCreated ctx _) =>
      get_sphere_channel (Url := Url) walk_fuel body_fuel clock any_key (noosphere_new (configuration self)) identity (mkWorld (w_files w0) databases net) =
        (Ok (channel_new (latest ctx) ctx), (with_channel (noosphere_new (configuration self)) identity ctx, mkWorld (w_files w0) databases' net))
  | Err e =>
      get_sphere_channel (Url := Url) walk_fuel body_fuel clock any_key (noosphere_new (configuration self)) identity (mkWorld (w_files w0) databases net) =
        (Err e, (noosphere_new (configuration self), mkWorld (w_files w0) databases' net))
  | _ => True
  end.
Proof.
  intros Hkeys E. unfold get_sphere_channel. cbn [noosphere_new sphere_channels]. rewrite lookup_empty.
  rewrite (key_storage_again self (noosphere_new (configuration self)) w keys w0 eq_refl Hkeys databases net). cbn [try_with].
  unfold run_builder, sphere_build. change (b_initialization _) with (InitOpen (Some identity)). cbn match. cbn [w_databases].
  unfold reopening in E. rewrite E. destruct r as [[ctx m|ctx]| | |]; cbn [try_with context_of_artifacts with_channel sphere_channels]; try done;
    by rewrite lookup_insert_eq.
Qed.

(** C14: A sphere that an application creates is there when it starts again: the
    receipt names the sphere and has the mnemonic of its key; the new application
    reaches the sphere by its identity, at the version that was created, with the
    owner's key and with the authority to change it and to hand that on, until the
    token of the owner expires.  The databases of other spheres stay as they are. *)
Theorem created_sphere_survives_restart clock start rng (owner_key sphere_key any_key : Key) did identity self name w keys w0 :
  json_total -> noosphere_key_storage self w = (Ok keys, w0) -> read_key keys name = Ok (Some owner_key) ->
  get_did owner_key = Ok did -> key_resolves ctors owner_key -> (forall d, exists sig, key_sign owner_key d = Ok sig) ->
  get_did sphere_key = Ok identity -> key_resolves ctors sphere_key -> (forall d, exists sig, key_sign sphere_key d = Ok sig) ->
  (exists m, ed25519_key_to_mnemonic sphere_key = Ok m) -> opaque_path identity = true -> identity <> "*" ->
  (start + SPHERE_LIFETIME < 2 ^ 64)%N -> (clock <= start + SPHERE_LIFETIME)%N -> 0 < fuel -> 0 < walk_fuel ->
  exists receipt self1 w1 channel self2 w2 y u jwt,
    noosphere_create_sphere (Url := Url) walk_fuel body_fuel start rng sphere_key self name w = (Ok receipt, (self1, w1)) /\
    receipt_identity receipt = identity /\ restore_ed25519_key (receipt_mnemonic receipt) = Ok sphere_key /\
    get_sphere_channel (Url := Url) walk_fuel body_fuel clock any_key (noosphere_new (configuration self)) identity w1 = (Ok channel, (self2, w2)) /\
    delegate (Url := Url) supported_keys fuel walk_fuel clock (channel_mutable channel) y (token_cid jwt) (mkChain u [] []) did identity /\
    ver_value y = apply_value (owner_mutation identity (token_cid jwt)) empty_value /\
    forall path, path <> sphere_root self identity -> w_databases w2 !! path = w_databases w !! path.
Proof.
  intros Hj Hkeys Hread Hd Hok Hos Hid Hsk Hss [m Hm] Hop Hstar Hl Hnow Hf Hw.
  assert (w_databases w0 = w_databases w /\ w_net w0 = w_net w) as [Hdb0 Hnet0].
  { unfold noosphere_key_storage in Hkeys. destruct (security _); [|done]. destruct (insecure_new _ _) as [[?| | |] ?]; cbn in Hkeys; try done.
    by injection Hkeys as <- <-. }
  unfold noosphere_create_sphere. rewrite Hkeys. cbn [try_with]. set (b := using_key _ name).
  destruct (create_a_sphere_spec (Url := Url) (Cid := Cid) start rng b (sphere_storage_path self) (ScopedLayout (sphere_storage_path self) identity) keys name
    owner_key sphere_key did identity m (w_databases w0)) as (y & u & jwt & ctx & E & Hci & Hc); try done.
  unfold run_builder, sphere_build. change (b_initialization b) with InitCreate. cbn match. rewrite E. cbn [try_with artifacts_require_mnemonic context_of_artifacts].
  rewrite Hci. set (databases := <[_ := ctx_db ctx]> (w_databases w0)).
  destruct (opens_created (Url := Url) supported_keys fuel walk_fuel clock start (reopening self identity keys) (Some identity) (sphere_storage_path self)
    (ScopedLayout (sphere_storage_path self) identity) keys name owner_key sphere_key did identity y u jwt (ctx_db ctx) databases) as (ctx2 & E2 & Hdel & _);
    try done; [by unfold databases; rewrite lookup_insert_eq|].
  pose proof (channel_opens clock any_key self identity w keys w0 databases _ (w_net w0) _ Hkeys E2) as Hch. cbn match in Hch.
  eexists (mkReceipt identity m), _, _, _, _, _, y, u, jwt. split; [done|]. split; [done|]. split; [by apply restore_mnemonic|].
  split; [exact Hch|]. split; [exact Hdel|].
  split; [by destruct Hc|]. intros path Hpath. cbn [w_databases]. unfold databases. unfold sphere_root in Hpath. cbn [layout_path].
  by rewrite !lookup_insert_ne, Hdb0.
Qed.

(** A key that joins a sphere with an authorization has the sphere when the
    application starts again: the channel to it is a context of the same sphere, with
    the same key and with the CID of the authorization. *)
Theorem joined_sphere_survives_restart clock (key any_key : Key) did identity self name auth (cid : Cid) w keys w0 :
  noosphere_key_storage self w = (Ok keys, w0) -> read_key keys name = Ok (Some key) -> get_did key = Ok did ->
  authorization_cid auth = Ok cid ->
  exists self1 w1 channel self2 w2,
    noosphere_join_sphere (Url := Url) walk_fuel body_fuel clock any_key self identity name (Some auth) w = (Ok tt, (self1, w1)) /\
    get_sphere_channel (Url := Url) walk_fuel body_fuel clock any_key (noosphere_new (configuration self)) identity w1 = (Ok channel, (self2, w2)) /\
    ctx_identity (channel_mutable channel) = identity /\ ctx_author (channel_mutable channel) = mkAuthor key (Some (AuthCid cid)).
Proof.
  intros Hkeys Hread Hd Hc. unfold noosphere_join_sphere. rewrite Hkeys. cbn [try_with]. set (b := authorized_by _ _).
  destruct (join_a_sphere_spec (Cid := Cid) b (sphere_storage_path self) (ScopedLayout (sphere_storage_path self) identity) keys name key did identity auth cid (w_databases w0))
    as (ctx & E & Hci & _ & Hr); try done.
  unfold run_builder at 1, sphere_build at 1. change (b_initialization b) with (InitJoin identity). cbn match. rewrite E. cbn [try_with context_of_artifacts].
  set (databases := <[_ := ctx_db ctx]> (w_databases w0)).
  destruct (opens_registered (Cid := Cid) (reopening self identity keys) (Some identity) (sphere_storage_path self) (ScopedLayout (sphere_storage_path self) identity)
    keys name key did (Some cid) (ctx_db ctx) identity databases) as (ctx2 & E2 & Hi2 & Ha2 & _); try done; [by unfold databases; rewrite lookup_insert_eq|].
  pose proof (channel_opens clock any_key self identity w keys w0 databases _ (w_net w0) _ Hkeys E2) as Hch. cbn match in Hch.
  eexists _, _, _, _, _. split; [done|]. split; [exact Hch|done].
Qed.

(** ** Recovering *)

(** Where a recovery moves the old database of a sphere. *)
Definition backup_root self (identity backup_id : string) : PathBuf :=
  resolve_path (with_extension (get_scoped_path (sphere_storage_path self) identity) backup_id).

Definition backed_up self (identity backup_id : string) (databases : gmap PathBuf (SphereDb B KV)) : gmap PathBuf (SphereDb B KV) :=
  match databases !! sphere_root self identity with
  | Some db => <[backup_root self identity backup_id := db]> (delete (sphere_root self identity) databases)
  | None => databases
  end.

Lemma backup_spec self (identity backup_id : string) (databases : gmap PathBuf (SphereDb B KV)) : databases !! backup_root self identity backup_id = None ->
  backup_database (get_scoped_path (sphere_storage_path self) identity) backup_id databases = (Ok tt, backed_up self identity backup_id databases).
Proof.
  intros Hb. unfold backup_database, backed_up. fold (sphere_root self identity) (backup_root self identity backup_id).
  rewrite Hb. by destruct (databases !! sphere_root self identity).
Qed.

Lemma backed_up_root self (identity backup_id : string) (databases : gmap PathBuf (SphereDb B KV)) : databases !! backup_root self identity backup_id = None ->
  backup_root self identity backup_id <> sphere_root self identity ->
  backed_up self identity backup_id databases !! sphere_root self identity = None /\
  backed_up self identity backup_id databases !! backup_root self identity backup_id = databases !! sphere_root self identity.
Proof.
  intros Hb Hne. unfold backed_up. destruct (databases !! sphere_root self identity) as [db|] eqn:E; [|done].
  rewrite lookup_insert_ne, lookup_delete_eq, lookup_insert_eq by done. done.
Qed.

Lemma key_storage_world self w keys w0 : noosphere_key_storage self w = (Ok keys, w0) -> w_databases w0 = w_databases w /\ w_net w0 = w_net w.
Proof.
  unfold noosphere_key_storage. intros Hkeys. destruct (security _); [|done]. destruct (insecure_new _ _) as [[?| | |] ?]; cbn in Hkeys; try done.
  by injection Hkeys as <- <-.
Qed.

(** What a recovery does, once the key is read: the old database is moved away, and what
    the mnemonic gives is used in a new one. *)
Lemma recovery_steps clock rng rng' (key one_time_key : Key) did identity backup_id mnemonic self name w keys w0 :
  noosphere_key_storage self w = (Ok keys, w0) -> read_key keys name = Ok (Some key) -> get_did key = Ok did ->
  w_databases w !! backup_root self identity backup_id = None -> backup_root self identity backup_id <> sphere_root self identity ->
  let self0 : noosphere := mkNoosphere (configuration self) (delete identity (sphere_channels self)) in
  let moved := backed_up self identity backup_id (w_databases w) in
  let at_end databases net : world := mkWorld (w_files w0) databases net in
  exists b new, b_gateway_api b = gateway_api self /\ (forall k, store_read (metadata_store new) k = Ok None) /\
    noosphere_recover_sphere (Url := Url) walk_fuel body_fuel clock rng rng' one_time_key backup_id self name identity mnemonic w =
      (let? authorization := (let? root_key := restore_ed25519_key mnemonic in
         one_time_authorization (Url := Url) clock rng root_key one_time_key identity) keeping (self0, at_end moved (w_net w)) in
       let '(r, (db, net)) := recover_in_db (Url := Url) (Config := Config) walk_fuel body_fuel clock rng' b keys name did identity one_time_key authorization (w_net w) new in
       let w1 := at_end (<[sphere_root self identity := db]> moved) net in
       let? artifacts := r keeping (self0, w1) in
       (Ok tt, (with_channel self0 (ctx_identity (context_of_artifacts artifacts)) (context_of_artifacts artifacts), w1))).
Proof.
  intros Hkeys Hread Hd Hbk Hne self0 moved at_end.
  destruct (key_storage_world _ _ _ _ Hkeys) as [Hdb0 Hnet0]. destruct (backed_up_root _ _ _ _ Hbk Hne) as [Hr0 Hb0].
  assert (noosphere_key_storage self0 w = (Ok keys, w0)) as Hkeys0 by exact Hkeys.
  unfold noosphere_recover_sphere. fold self0. rewrite Hkeys0. cbn [try_with]. set (b := using_key _ name).
  destruct (open_new (Cid := Cid) (sphere_root self identity) (default default_config (b_storage_config b)) (b_ipfs_gateway_url b)) as (new & Enew & Hm).
  exists b, new. split; [done|]. split; [exact Hm|].
  unfold run_builder at 1, sphere_build at 1. change (b_initialization b) with (InitRecover identity). cbn match.
  unfold recover_a_sphere. change (require_key_storage b) with (Ok keys). change (require_key_name b) with (Ok name). cbn [try_with].
  unfold storage_require_key at 1. rewrite Hread. cbn [outcome_bind try_with]. rewrite Hd. cbn [try_with].
  change (require_storage_path b) with (Ok (sphere_storage_path self)). cbn [try_with]. change (b_scoped_storage_layout b) with true.
  cbn [layout_try_from ok_or outcome_bind try_with layout_path]. rewrite Hdb0, (backup_spec self identity backup_id _ Hbk). fold moved. cbn [try_with].
  change (require_mnemonic b) with (Ok mnemonic). cbn [try_with]. rewrite Hnet0.
  destruct (restore_ed25519_key mnemonic) as [root_key| | |]; cbn [outcome_bind try_with]; [|done..].
  destruct (one_time_authorization _ _ _ _ _) as [authorization| | |]; cbn [try_with]; [|done..].
  unfold generate_db. cbn [layout_try_from ok_or outcome_bind try_with]. unfold create_platform_storage. cbn [layout_path].
  fold (sphere_root self identity). fold moved in Hr0. rewrite Hr0, Enew. cbn [try_with].
  destruct (recover_in_db _ _ _ _ _ _ _ _ _ _ _ _ _) as [r [db net]]. rewrite insert_insert_eq. done.
Qed.

(** C15: A recovery gives the user the sphere that the gateway has: if the gateway
    replicates its own sphere, in which the user's is linked, and the user's last
    version has a delegation to the local key, then the application has the sphere at
    that version, with the local key and such a delegation as its authorization, now
    and when it starts again; and the old database is kept where it was moved. *)
Theorem recovery_restores_sphere clock rng rng' (key root_key one_time_key any_key : Key) did one_time_did identity backup_id mnemonic authorization
    session url net' g y tokens blocks self name w keys w0 :
  noosphere_key_storage self w = (Ok keys, w0) -> read_key keys name = Ok (Some key) -> get_did key = Ok did ->
  restore_ed25519_key mnemonic = Ok root_key -> get_did one_time_key = Ok one_time_did ->
  one_time_authorization (Url := Url) clock rng root_key one_time_key identity = Ok authorization ->
  gateway_api self = Some url -> net_identify (w_net w) identity url (mkAuthor one_time_key (Some authorization)) = Ok session ->
  (forall db : SphereDb B KV, client_replicate (Url := Url) walk_fuel clock rng' session identity (mkAuthor one_time_key (Some authorization)) db
    (ReplicateDid (session_counterpart session)) (Some (mkReplicate None true)) (w_net w) = (Ok (ver_cid g, (blocks, Ok tt)), net')) ->
  delivers (B := B) (KV := KV) blocks g y tokens -> (v_content (ver_value g)).1 !! identity = Some (ver_cid y) ->
  is_Some (get_first_header (ver_memo y) CONTENT_TYPE) -> levels DEFAULT_BIT_WIDTH * size (v_delegations (ver_value y)).1 <= walk_fuel ->
  (exists cid d, (v_delegations (ver_value y)).1 !! cid = Some d /\ audience (tokens cid) = did) ->
  w_databases w !! backup_root self identity backup_id = None -> backup_root self identity backup_id <> sphere_root self identity ->
  exists self1 w1 channel channel' self2 w2 cid,
    noosphere_recover_sphere (Url := Url) walk_fuel body_fuel clock rng rng' one_time_key backup_id self name identity mnemonic w = (Ok tt, (self1, w1)) /\
    sphere_channels self1 !! identity = Some channel /\ at_version (channel_mutable channel) y /\
    ctx_author (channel_mutable channel) = mkAuthor key (Some (AuthCid cid)) /\
    is_Some ((v_delegations (ver_value y)).1 !! cid) /\ audience (tokens cid) = did /\
    get_sphere_channel (Url := Url) walk_fuel body_fuel clock any_key (noosphere_new (configuration self)) identity w1 = (Ok channel', (self2, w2)) /\
    at_version (channel_mutable channel') y /\ ctx_author (channel_mutable channel') = mkAuthor key (Some (AuthCid cid)) /\
    w_databases w1 !! backup_root self identity backup_id = w_databases w !! sphere_root self identity.
Proof.
  intros Hkeys Hread Hd Hroot Hone Hauth Hurl Hsession Hrep Hdel Hlink Hct Hfuel Hmine Hbk Hne. destruct (backed_up_root _ _ _ _ Hbk Hne) as [Hr0 Hb0].
  destruct (recovery_steps clock rng rng' key one_time_key did identity backup_id mnemonic self name w keys w0 Hkeys Hread Hd Hbk Hne) as (b & db & Hb & _ & ->).
  rewrite Hroot. cbn [outcome_bind]. rewrite Hauth. cbn [try_with]. rewrite <- Hb in Hurl.
  destruct (recover_in_db_spec (Url := Url) walk_fuel body_fuel clock identity session (mkAuthor one_time_key (Some authorization)) (w_net w) net' rng' g y tokens blocks
    Hrep Hdel Hlink Hct (ex_intro _ _ Hone) b url name did keys key Hurl Hsession Hread Hd Hfuel Hmine one_time_key authorization db eq_refl)
    as (ctx & cid & -> & Hat & Hci & Hca & _ & Hin & Ha & Hreg). cbn [try_with context_of_artifacts]. rewrite Hci.
  set (databases := <[_ := ctx_db ctx]> (backed_up _ _ _ _)).
  destruct (opens_registered (Cid := Cid) (reopening self identity keys) (Some identity) (sphere_storage_path self) (ScopedLayout (sphere_storage_path self) identity)
    keys name key did (Some cid) (ctx_db ctx) identity databases) as (ctx2 & E2 & Hi2 & Ha2 & _ & _ & Hle2 & Hv2 & _); try done; [by unfold databases; rewrite lookup_insert_eq|].
  pose proof (channel_opens clock any_key self identity w keys w0 databases _ net' _ Hkeys E2) as Hch. cbn match in Hch.
  eexists _, _, (channel_new (latest ctx) ctx), _, _, _, cid. split; [done|]. cbn [with_channel sphere_channels]. rewrite lookup_insert_eq.
  split; [done|]. split; [done|]. split; [done|]. split; [done|]. split; [done|]. split; [exact Hch|]. split; [|split; [done|]].
  - cbn [channel_mutable channel_new]. destruct Hat as [Hv Hy]. split; [|exact (holds_mono _ _ _ Hle2 Hy)].
    rewrite Hi2, <- Hci. unfold get_version in *. by rewrite Hv2.
  - cbn [w_databases]. unfold databases. rewrite lookup_insert_ne; [done|]. cbn [layout_path]. by apply not_eq_sym.
Qed.

(** A sphere without a registered key does not open. *)
Lemma unregistered_channel (clock : N) (any_key : Key) self (identity : string) w (keys : InsecureKeyStorage * FileSystem) w0
    (databases : gmap PathBuf (SphereDb B KV)) (net : Net) :
  noosphere_key_storage self w = (Ok keys, w0) ->
  (forall db, databases !! sphere_root self identity = Some db -> db_get_key (V := string) db USER_KEY_NAME = Ok None) ->
  exists w2, get_sphere_channel (Url := Url) walk_fuel body_fuel clock any_key (noosphere_new (configuration self)) identity
    (mkWorld (w_files w0) databases net) = (Err "No value found", (noosphere_new (configuration self), w2)).
Proof.
  intros Hkeys Hdb.
  assert (exists databases', open_a_sphere (reopening self identity keys) (Some identity) databases = (Err "No value found", databases')) as [databases' E].
  { unfold open_a_sphere. change (require_storage_path _) with (Ok (A := PathBuf) (sphere_storage_path self)). cbn [try_with].
    change (b_scoped_storage_layout _) with true. unfold generate_db. cbn [layout_try_from ok_or outcome_bind try_with]. unfold create_platform_storage. cbn [layout_path].
    fold (sphere_root self identity). destruct (databases !! sphere_root self identity) as [db|] eqn:El.
    - destruct (open_existing (Cid := Cid) (sphere_root self identity) (default default_config (b_storage_config (reopening self identity keys)))
        (b_ipfs_gateway_url (reopening self identity keys)) db) as (db' & -> & [_ [_ Hm]]). cbn [try_with]. unfold on_database.
      rewrite unregistered_does_not_open; [by eexists|]. unfold db_get_key in *. rewrite Hm. by apply Hdb.
    - destruct (open_new (Cid := Cid) (sphere_root self identity) (default default_config (b_storage_config (reopening self identity keys)))
        (b_ipfs_gateway_url (reopening self identity keys))) as (db' & -> & Hm). cbn [try_with]. unfold on_database.
      rewrite unregistered_does_not_open; [by eexists|]. unfold db_get_key, get_key. by rewrite Hm. }
  pose proof (channel_opens clock any_key self identity w keys w0 databases databases' net _ Hkeys E) as Hch. cbn match in Hch. by eexists.
Qed.

(** *** A recovery that fails *)

(** No key is registered for the sphere. *)
Definition keyless (db : SphereDb B KV) : Prop := store_read (metadata_store db) (as_bytes USER_KEY_NAME) = Ok None.

Lemma keyless_metadata (db db' : SphereDb B KV) : metadata_store db' = metadata_store db -> keyless db -> keyless db'.
Proof. unfold keyless. by intros ->. Qed.

Lemma keyless_set_key {V} `{!BlockCodec V} `{!BlockCodecLaws Cid V} db key (v : V) : key <> USER_KEY_NAME -> keyless db ->
  exists db', db_set_key db key v = (Ok tt, db') /\ keyless db'.
Proof.
  intros Hne Hk. destruct (db_set_key_spec (Cid := Cid) db key v) as (db' & E & _ & _ & _ & Ho). exists db'. split; [done|]. unfold keyless. by rewrite Ho.
Qed.

(** Reading writes blocks at most. *)
Lemma context_client_db net (ctx : SphereContext (Key := Key) (Cid := Cid) (B := B) (KV := KV)) :
  metadata_store (ctx_db (context_client net ctx).2) = metadata_store (ctx_db ctx).
Proof.
  unfold context_client. destruct (ctx_client ctx); [done|]. destruct (db_require_key _ _); cbn [try_with]; [|done..].
  by destruct (net_identify _ _ _ _).
Qed.

Lemma read_metadata net (ctx : SphereContext (Key := Key) (Cid := Cid) (B := B) (KV := KV)) slug :
  metadata_store (ctx_db (sphere_context (read body_fuel net (latest ctx) slug).2)) = metadata_store (ctx_db ctx).
Proof.
  unfold read. destruct (SphereContext.version _); cbn [try_with]; [|done..]. destruct (get_content _ _); cbn [try_with]; [|done..].
  destruct (vm_get _ _).1 as [[memo|]| | |]; cbn [try_with]; [|done..]. unfold get_file.
  destruct (load_from _ _) as [m| | |]; cbn [try_with]; [|done..]. destruct (get_block _ _) as [[bl|]| | |]; cbn [try_with]; [by destruct (get_first_header _ _)| |done..].
  pose proof (context_client_db net ctx) as Hc. change (sphere_context (latest ctx)) with ctx.
  destruct (context_client net ctx) as [r ctx']. cbn [snd] in Hc. destruct r as [session| | |]; cbn [try_with]; [|done..].
  destruct (net_replicate _ _ _ _) as [stream| | |]; cbn [try_with]; [|done..]. change (context_db (put_context (latest ctx) ctx')) with (ctx_db ctx').
  pose proof (names_put_block_stream stream (ctx_db ctx')) as [_ Hn]. destruct (put_block_stream _ _) as [r db]. cbn [snd] in Hn.
  destruct r; cbn [try_with]; [destruct (get_first_header _ _)|..]; cbn; congruence.
Qed.

Lemma replicate_metadata clock rng (identity : string) session author net db :
  metadata_store (replicate_gateway_sphere (Url := Url) walk_fuel body_fuel clock rng identity session author net db).2.1 = metadata_store db.
Proof.
  unfold replicate_gateway_sphere. destruct (client_replicate _ _ _ _ _ _ _ _ _ _) as [[[root stream]| | |] net1]; cbn [try_with]; [|done..].
  pose proof (names_put_block_stream stream db) as [_ Hn]. destruct (put_block_stream db stream) as [[[]| | |] db1]; cbn [try_with snd fst] in *; [|done..].
  destruct (set_version_spec db1 (session_counterpart session) root) as (db2 & E2 & _ & Hm & _). rewrite E2. cbn [try_with].
  unfold context_new. destruct (get_did _) as [did| | |]; cbn [outcome_bind try_with fst snd]; [|congruence..]. set (ctx := mkContext _ _ _ _ _ _ _).
  pose proof (read_metadata net1 ctx identity) as Hr. destruct (read _ _ _ _) as [r cursor]. cbn [snd] in Hr.
  destruct r as [[file|]| | |]; cbn [try_with ok_or fst snd]; rewrite Hr; cbn [ctx_db ctx]; congruence.
Qed.

Lemma get_authorization_cid (ctx : SphereContext (Key := Key) (Cid := Cid) (B := B) (KV := KV)) (did : string) authorization :
  get_authorization walk_fuel ctx did = Ok (Some authorization) -> exists cid, authorization = AuthCid cid.
Proof.
  unfold get_authorization. destruct (SphereContext.version ctx); cbn [outcome_bind]; try done. destruct (delegation_entries _ _ _) as [[entries ending]| | |]; cbn [outcome_bind]; try done.
  induction entries as [|[cid delegation] entries IH]; cbn [find_delegation]; [by destruct ending|].
  destruct (delegation_resolve_ucan _ _); cbn [outcome_bind]; try done. case_bool_decide; [|done]. intros [= <-]. by exists cid.
Qed.

(** A recovery that fails in the new database leaves it without a key. *)
Lemma recover_in_db_fails clock rng b (keys : InsecureKeyStorage * FileSystem) name did identity (one_time_key key : Key) authorization net db e db' net' :
  read_key keys name = Ok (Some key) -> get_did key = Ok did -> keyless db ->
  recover_in_db (Url := Url) (Config := Config) walk_fuel body_fuel clock rng b keys name did identity one_time_key authorization net db = (Err e, (db', net')) -> keyless db'.
Proof.
  intros Hread Hd Hk. unfold recover_in_db.
  destruct (keyless_set_key db IDENTITY identity ltac:(done) Hk) as (db1 & -> & Hk1). cbn [try_with].
  destruct (require_gateway_api b) as [url| | |]; cbn [try_with]; [|intros Hfail; by inversion Hfail; subst|done..].
  destruct (keyless_set_key db1 GATEWAY_URL url ltac:(done) Hk1) as (db2 & -> & Hk2). cbn [try_with].
  destruct (context_new _ _ db2 None) as [ctx| | |] eqn:Ec; cbn [try_with]; [|intros Hfail; by inversion Hfail; subst|done..].
  assert (ctx_db ctx = db2) as Edb by (unfold context_new in Ec; cbn [author_key] in Ec; destruct (get_did one_time_key); cbn in Ec; by inversion Ec).
  pose proof (context_client_db net ctx) as Hcl. destruct (context_client net ctx) as [r ctx1]. cbn [snd] in Hcl.
  assert (keyless (ctx_db ctx1)) as Hk3 by (eapply keyless_metadata; [exact Hcl|by rewrite Edb]).
  destruct r as [session| | |]; cbn [try_with]; [|intros Hfail; by inversion Hfail; subst|done..].
  pose proof (replicate_metadata clock rng identity session (mkAuthor one_time_key (Some authorization)) net (ctx_db ctx1)) as Hr.
  destruct (replicate_gateway_sphere _ _ _ _ _ _ _ _ _) as [r [db3 net1]]. cbn [fst snd] in Hr.
  assert (keyless db3) as Hk4 by by eapply keyless_metadata.
  destruct r as [v| | |]; cbn [try_with]; [|intros Hfail; by inversion Hfail; subst|done..].
  destruct (set_version_spec db3 identity v) as (db4 & E4 & _ & Hm4 & _). rewrite E4. cbn [try_with].
  assert (keyless db4) as Hk5 by by eapply keyless_metadata.
  destruct (get_authorization _ _ _) as [[a|]| | |] eqn:Ea; cbn [try_with ok_or]; [|intros Hfail; by inversion Hfail; subst|intros Hfail; by inversion Hfail; subst|done..].
  apply get_authorization_cid in Ea as [cid ->].
  destruct (db_set_key_spec (Cid := Cid) db4 USER_KEY_NAME name) as (db5 & -> & _). cbn [try_with authorization_cid].
  destruct (db_set_key_spec (Cid := Cid) db5 AUTHORIZATION cid) as (db6 & -> & _). cbn [try_with].
  unfold storage_require_key. rewrite Hread. cbn [outcome_bind try_with]. unfold context_new. cbn [author_key]. by rewrite Hd.
Qed.

(** Where a recovery that fails leaves the databases and the application. *)
Lemma recovery_fails clock rng rng' (key one_time_key : Key) did identity backup_id mnemonic e self name w keys w0 self1 w1 :
  noosphere_key_storage self w = (Ok keys, w0) -> read_key keys name = Ok (Some key) -> get_did key = Ok did ->
  w_databases w !! backup_root self identity backup_id = None -> backup_root self identity backup_id <> sphere_root self identity ->
  noosphere_recover_sphere (Url := Url) walk_fuel body_fuel clock rng rng' one_time_key backup_id self name identity mnemonic w = (Err e, (self1, w1)) ->
  self1 = mkNoosphere (configuration self) (delete identity (sphere_channels self)) /\ w_files w1 = w_files w0 /\
  (forall db, w_databases w1 !! sphere_root self identity = Some db -> keyless db) /\
  w_databases w1 !! backup_root self identity backup_id = w_databases w !! sphere_root self identity.
Proof.
  intros Hkeys Hread Hd Hbk Hne Hfail. destruct (backed_up_root _ _ _ _ Hbk Hne) as [Hr0 Hb0].
  destruct (recovery_steps clock rng rng' key one_time_key did identity backup_id mnemonic self name w keys w0 Hkeys Hread Hd Hbk Hne) as (b & new & _ & Hm & E).
  rewrite E in Hfail. destruct (let? root_key := _ in _) as [authorization|e1| |]; cbn [try_with] in Hfail; [|inversion Hfail; subst|done..].
  - destruct (recover_in_db _ _ _ _ _ _ _ _ _ _ _ _ _) as [[artifacts|e1| |] [db2 net2]] eqn:Er; cbn [try_with] in Hfail; [done|inversion Hfail; subst|done..].
    split; [done|]. split; [done|]. cbn [w_databases]. split; [|by rewrite lookup_insert_ne].
    intros db. rewrite lookup_insert_eq. intros [= <-]. by eapply recover_in_db_fails; [exact Hread|exact Hd|exact (Hm _)|exact Er].
  - split; [done|]. split; [done|]. split; [|done]. intros db. cbn [w_databases]. by rewrite Hr0.
Qed.

(** The gateway refuses what the mnemonic gives. *)
Lemma recovery_refused clock rng rng' (key root_key one_time_key : Key) did one_time_did identity backup_id mnemonic authorization session url e net' self name w keys w0 :
  noosphere_key_storage self w = (Ok keys, w0) -> read_key keys name = Ok (Some key) -> get_did key = Ok did ->
  w_databases w !! backup_root self identity backup_id = None -> backup_root self identity backup_id <> sphere_root self identity ->
  restore_ed25519_key mnemonic = Ok root_key -> get_did one_time_key = Ok one_time_did ->
  one_time_authorization (Url := Url) clock rng root_key one_time_key identity = Ok authorization ->
  gateway_api self = Some url -> net_identify (w_net w) identity url (mkAuthor one_time_key (Some authorization)) = Ok session ->
  (forall db : SphereDb B KV, client_replicate (Url := Url) walk_fuel clock rng' session identity (mkAuthor one_time_key (Some authorization)) db
    (ReplicateDid (session_counterpart session)) (Some (mkReplicate None true)) (w_net w) = (Err e, net')) ->
  exists self1 w1, noosphere_recover_sphere (Url := Url) walk_fuel body_fuel clock rng rng' one_time_key backup_id self name identity mnemonic w = (Err e, (self1, w1)).
Proof.
  intros Hkeys Hread Hd Hbk Hne Hroot Hone Hauth Hurl Hsession Hrep.
  destruct (recovery_steps clock rng rng' key one_time_key did identity backup_id mnemonic self name w keys w0 Hkeys Hread Hd Hbk Hne) as (b & new & Hb & _ & ->).
  rewrite Hroot. cbn [outcome_bind]. rewrite Hauth. cbn [try_with]. unfold recover_in_db.
  destruct (db_set_key_spec (Cid := Cid) new IDENTITY identity) as (db1 & -> & _). cbn [try_with]. unfold require_gateway_api. rewrite Hb, Hurl. cbn [ok_or try_with].
  destruct (db_set_key_spec (Cid := Cid) db1 GATEWAY_URL url) as (db2 & -> & _ & _ & Hg2 & _). cbn [try_with].
  unfold context_new at 1. cbn [author_key]. rewrite Hone. cbn [outcome_bind try_with].
  unfold context_client. cbn [ctx_client ctx_db ctx_origin ctx_author default from_option]. unfold db_require_key. rewrite Hg2. cbn [outcome_bind ok_or try_with].
  rewrite Hsession. cbn [try_with]. unfold replicate_gateway_sphere. rewrite Hrep. cbn [try_with]. by eexists _, _.
Qed.

(** Opening a sphere does not depend on whether the directory of the keys is there already. *)
Lemma channel_key_storage (clock : N) (any_key : Key) self (identity : string) w keys w0 : noosphere_key_storage self w = (Ok keys, w0) ->
  get_sphere_channel (Url := Url) walk_fuel body_fuel clock any_key (noosphere_new (configuration self)) identity w =
  get_sphere_channel (Url := Url) walk_fuel body_fuel clock any_key (noosphere_new (configuration self)) identity (mkWorld (w_files w0) (w_databases w) (w_net w)).
Proof.
  intros Hkeys. destruct (key_storage_world _ _ _ _ Hkeys) as [<- <-]. unfold get_sphere_channel. cbn [noosphere_new sphere_channels]. rewrite lookup_empty.
  rewrite (key_storage_again self (noosphere_new (configuration self)) w keys w0 eq_refl Hkeys (w_databases w0) (w_net w0)).
  change (noosphere_key_storage (noosphere_new (configuration self)) w) with (noosphere_key_storage self w). rewrite Hkeys. by destruct w0.
Qed.

(** C40: A recovery moves the old database of a sphere away before it checks what it
    needs.  If it fails, for whatever reason (the words are not a mnemonic or the
    mnemonic of another key, there is no gateway, the gateway refuses or breaks off,
    the sphere has no delegation to the local key), an application that could open the
    sphere before has no channel to it any more and cannot open it when it starts
    again; the old database is only where it was moved to. *)
Theorem failed_recovery_hides_sphere clock rng rng' (key one_time_key any_key : Key) did identity backup_id mnemonic e self name w keys w0 channel selfo wo self1 w1 :
  noosphere_key_storage self w = (Ok keys, w0) -> read_key keys name = Ok (Some key) -> get_did key = Ok did ->
  get_sphere_channel (Url := Url) walk_fuel body_fuel clock any_key (noosphere_new (configuration self)) identity w = (Ok channel, (selfo, wo)) ->
  w_databases w !! backup_root self identity backup_id = None -> backup_root self identity backup_id <> sphere_root self identity ->
  noosphere_recover_sphere (Url := Url) walk_fuel body_fuel clock rng rng' one_time_key backup_id self name identity mnemonic w = (Err e, (self1, w1)) ->
  sphere_channels self1 !! identity = None /\
  (exists db, w_databases w !! sphere_root self identity = Some db /\ w_databases w1 !! backup_root self identity backup_id = Some db) /\
  exists self2 w2,
    get_sphere_channel (Url := Url) walk_fuel body_fuel clock any_key (noosphere_new (configuration self)) identity w1 = (Err "No value found", (self2, w2)).
Proof.
  intros Hkeys Hread Hd Hopen Hbk Hne Hfail.
  destruct (recovery_fails clock rng rng' key one_time_key did identity backup_id mnemonic e self name w keys w0 self1 w1 Hkeys Hread Hd Hbk Hne Hfail)
    as (-> & Hfiles & Hroot & Hback). split; [apply lookup_delete_eq|]. split.
  - destruct (w_databases w !! sphere_root self identity) as [db|] eqn:Edb; [by exists db|]. exfalso.
    destruct (unregistered_channel clock any_key self identity w keys w0 (w_databases w) (w_net w) Hkeys) as (w2 & E2); [congruence|].
    rewrite (channel_key_storage clock any_key self identity w keys w0 Hkeys) in Hopen. congruence.
  - destruct (unregistered_channel clock any_key self identity w keys w0 (w_databases w1) (w_net w1) Hkeys) as (w2 & E2).
    + intros db Edb. unfold db_get_key, get_key. by rewrite (Hroot db Edb).
    + eexists _, w2. rewrite <- E2, <- Hfiles. by destruct w1.
Qed.
End runtime_theorems.

(** ** Runs *)
From S2P Require Import Instances UcanInstances SphereFixtures ContextFixtures.

(** A platform that keeps databases in memory. *)
#[local] Instance toy_platform : Platform ToyDb unit := {
  open_storage _ _ _ found := Ok (default toy_db found);
  default_config := tt;
}.
#[local] Instance toy_platform_laws : PlatformLaws (Cid := ToyCid).
Proof.
  split.
  - intros path config url db. exists db. split; [done|]. split; [done|]. split; done.
  - intros path config url. exists toy_db. split; [done|]. intros key. reflexivity.
Qed.

(** A network whose gateway replicates one stream. *)
Definition ToyNet : Type := ToyCid * list (ToyCid * bytes).
#[local] Instance toy_net_gateway : GatewayApi ToyNet N ToyCid := {
  net_identify _ _ _ _ := Ok (mkSession (toy_did 3) (toy_did 3));
  net_replicate _ _ _ _ := Err "not served";
}.
#[local] Instance toy_net_server : SessionServer ToyNet ToyCid := {
  serve_did net := (Ok (OK, toy_did 3), net);
  serve_identify net _ := (Err "not served", net);
  serve_replicate net _ _ _ := (Ok (OK, Ok ([net.1], (net.2, Ok tt))), net);
}.

Definition toy_configuration (gateway : option string) : NoosphereContextConfiguration unit :=
  mkConfiguration (mkStorage (ScopedStorage ["/"; "spheres"]) tt) (Insecure toy_home) (Http gateway None).
Definition toy_noosphere (gateway : option string) : NoosphereContext (Key := N) (Cid := ToyCid) (B := MemoryStore) (KV := MemoryStore) (Config := unit) :=
  noosphere_new (toy_configuration gateway).

(** The files after a key was created. *)
Definition toy_files : FileSystem := w_files (noosphere_create_key 2%N (toy_noosphere None) "owner" (mkWorld toy_fs (∅ : gmap PathBuf ToyDb) tt)).2.
Definition toy_world {Net : Type} (databases : gmap PathBuf ToyDb) (net : Net) : World (B := MemoryStore) (KV := MemoryStore) (Net := Net) :=
  mkWorld toy_files databases net.

Lemma toy_world_keys {Net : Type} gateway databases (net : Net) :
  noosphere_key_storage (toy_noosphere gateway) (toy_world databases net) = (Ok (toy_insecure, toy_files), toy_world databases net).
Proof. vm_compute. reflexivity. Qed.

Lemma toy_owner_key : read_key (Key := N) (toy_insecure, toy_files) "owner" = Ok (Some 2%N).
Proof. vm_compute. reflexivity. Qed.

Lemma created_sphere_survives_restart_witness :
  exists receipt self1 w1 channel self2 w2,
    noosphere_create_sphere (Url := ToyUrl) 4 4 10 [] 1%N (toy_noosphere None) "owner" (toy_world ∅ ((0%N, @nil N), [])) = (Ok receipt, (self1, w1)) /\
    receipt_identity receipt = toy_did 1 /\
    get_sphere_channel (Url := ToyUrl) 4 4 20 3%N (toy_noosphere None) (toy_did 1) w1 = (Ok channel, (self2, w2)) /\
    writable (Url := ToyUrl) toy_keys 4 4 20 (channel_mutable channel).
Proof.
  destruct (created_sphere_survives_restart (Url := ToyUrl) (Cid := ToyCid) toy_keys 4 4 4 20 10 [] 2%N 1%N 3%N (toy_did 2) (toy_did 1) (toy_noosphere None) "owner"
    (toy_world ∅ ((0%N, @nil N), [])) (toy_insecure, toy_files) (toy_world ∅ ((0%N, @nil N), [])))
    as (receipt & self1 & w1 & channel & self2 & w2 & y & u & jwt & E & Hi & _ & Eg & Hd & _).
  - exact toy_json_total.
  - apply toy_world_keys.
  - exact toy_owner_key.
  - reflexivity.
  - exact toy_key_2.
  - exact (toy_signs 2).
  - reflexivity.
  - exact toy_key_1.
  - exact (toy_signs 1).
  - eexists. reflexivity.
  - exact toy_path.
  - exact toy_not_star.
  - reflexivity.
  - discriminate.
  - lia.
  - lia.
  - exists receipt, self1, w1, channel, self2, w2. split; [exact E|]. split; [exact Hi|]. split; [exact Eg|]. by destruct Hd.
Defined.

Lemma joined_sphere_survives_restart_witness :
  exists self1 w1 channel self2 w2,
    noosphere_join_sphere (Url := ToyUrl) 4 4 10 3%N (toy_noosphere None) (toy_did 1) "owner" (Some (AuthCid ((85, [7])%N : ToyCid))) (toy_world ∅ ((0%N, @nil N), [])) =
      (Ok tt, (self1, w1)) /\
    get_sphere_channel (Url := ToyUrl) 4 4 10 3%N (toy_noosphere None) (toy_did 1) w1 = (Ok channel, (self2, w2)) /\
    ctx_author (channel_mutable channel) = mkAuthor 2%N (Some (AuthCid (85, [7])%N)).
Proof.
  destruct (joined_sphere_survives_restart (Url := ToyUrl) (Cid := ToyCid) 4 4 10 2%N 3%N (toy_did 2) (toy_did 1) (toy_noosphere None) "owner"
    (AuthCid (85, [7])%N) (85, [7])%N (toy_world ∅ ((0%N, @nil N), [])) (toy_insecure, toy_files) (toy_world ∅ ((0%N, @nil N), [])))
    as (self1 & w1 & channel & self2 & w2 & E & Eg & _ & Ha).
  - apply toy_world_keys.
  - exact toy_owner_key.
  - reflexivity.
  - reflexivity.
  - exists self1, w1, channel, self2, w2. split; [exact E|]. split; [exact Eg|exact Ha].
Defined.

(** Where the toy sphere is stored. *)
Definition toy_root : PathBuf := ["/"; "spheres"; toy_did 1].


(** A network whose gateway lets nobody in. *)
Inductive ToyWall := toy_wall.
#[local] Instance toy_wall_gateway : GatewayApi ToyWall N ToyCid := {
  net_identify _ _ _ _ := Ok (mkSession (toy_did 3) (toy_did 3));
  net_replicate _ _ _ _ := Err "not served";
}.
#[local] Instance toy_wall_server : SessionServer ToyWall ToyCid := {
  serve_did net := (Ok (OK, toy_did 3), net);
  serve_identify net _ := (Err "not served", net);
  serve_replicate net _ _ _ := (Ok (401%N, Err "No CAR stream"), net);
}.

(** An application that has joined the sphere of the key 1, and its recovery with the
    mnemonic of the key 5. *)
Definition toy_joined : World (B := MemoryStore) (KV := MemoryStore) (Net := ToyWall) :=
  (noosphere_join_sphere (Url := ToyUrl) 4 4 10 3%N (toy_noosphere (Some "https://gateway")) (toy_did 1) "owner" (Some (AuthCid ((85, [7])%N : ToyCid)))
    (toy_world ∅ toy_wall)).2.2.

Lemma toy_joined_opens : exists channel self' w',
  get_sphere_channel (Url := ToyUrl) 4 4 10 3%N (toy_noosphere (Some "https://gateway")) (toy_did 1) toy_joined = (Ok channel, (self', w')).
Proof.
  assert (match (get_sphere_channel (Url := ToyUrl) 4 4 10 3%N (toy_noosphere (Some "https://gateway")) (toy_did 1) toy_joined).1 with Ok _ => true | _ => false end = true) as E
    by (vm_compute; reflexivity).
  destruct (get_sphere_channel _ _ _ _ _ _ _) as [[channel| | |] [self' w']]; [|discriminate E..]. by exists channel, self', w'.
Qed.

Lemma toy_joined_keys : noosphere_key_storage (toy_noosphere (Some "https://gateway")) toy_joined = (Ok (toy_insecure, toy_files), toy_joined).
Proof. vm_compute. reflexivity. Qed.

Lemma toy_backup_free : w_databases toy_joined !! backup_root (toy_noosphere (Some "https://gateway")) (toy_did 1) "backup" = None.
Proof. vm_compute. reflexivity. Qed.

Lemma toy_backup_apart : backup_root (toy_noosphere (Some "https://gateway")) (toy_did 1) "backup" <> sphere_root (toy_noosphere (Some "https://gateway")) (toy_did 1).
Proof.
  apply (bool_decide_unpack (backup_root (toy_noosphere None) (toy_did 1) "backup" <> sphere_root (toy_noosphere None) (toy_did 1))). vm_compute. exact I.
Qed.

Lemma failed_recovery_hides_sphere_witness :
  exists channel self0 w0 self1 w1 self2 w2,
    get_sphere_channel (Url := ToyUrl) 4 4 10 3%N (toy_noosphere (Some "https://gateway")) (toy_did 1) toy_joined = (Ok channel, (self0, w0)) /\
    noosphere_recover_sphere (Url := ToyUrl) 4 4 10 [] [] 4%N "backup" (toy_noosphere (Some "https://gateway")) "owner" (toy_did 1) (toy_encode [5%N]) toy_joined =
      (Err "No CAR stream", (self1, w1)) /\
    restore_ed25519_key (Key := N) (toy_encode [5%N]) = Ok 5%N /\
    get_sphere_channel (Url := ToyUrl) 4 4 10 3%N (toy_noosphere (Some "https://gateway")) (toy_did 1) w1 = (Err "No value found", (self2, w2)).
Proof.
  destruct toy_joined_opens as (channel & self0 & w0 & Eo). assert (restore_ed25519_key (Key := N) (toy_encode [5%N]) = Ok 5%N) as Hroot by (vm_compute; reflexivity).
  destruct (one_time_spec (Url := ToyUrl) (Cid := ToyCid) 10 [] 5%N 4%N (toy_did 5) (toy_did 4) (toy_did 1) toy_json_total (toy_key_did 5) (toy_signs 5) (toy_key_did 4) eq_refl)
    as (u4 & jwt4 & Eauth & Ej4 & Hp4 & _).
  destruct (recovery_refused (Url := ToyUrl) (Cid := ToyCid) 4 4 10 [] [] 2%N 5%N 4%N (toy_did 2) (toy_did 4) (toy_did 1) "backup" (toy_encode [5%N]) (AuthUcan u4)
    (mkSession (toy_did 3) (toy_did 3)) "https://gateway" "No CAR stream" toy_wall (toy_noosphere (Some "https://gateway")) "owner" toy_joined (toy_insecure, toy_files) toy_joined
    toy_joined_keys toy_owner_key (toy_key_did 2) toy_backup_free toy_backup_apart Hroot (toy_key_did 4) Eauth) as (self1 & w1 & Er); [reflexivity|reflexivity| |].
  { intros db. unfold client_replicate.
    destruct (one_time_bearer (Url := ToyUrl) 4 10 [] (session_gateway (mkSession (toy_did 3) (toy_did 3))) (toy_did 1) 4%N (toy_did 4) u4 jwt4 db toy_json_total (toy_key_did 4) (toy_signs 4) eq_refl Ej4 Hp4)
      as (credentials & ->). cbn [try_with serve_replicate toy_wall_server]. by destruct (w_net toy_joined). }
  destruct (failed_recovery_hides_sphere (Url := ToyUrl) (Cid := ToyCid) 4 4 10 [] [] 2%N 4%N 3%N (toy_did 2) (toy_did 1) "backup" (toy_encode [5%N]) "No CAR stream"
    (toy_noosphere (Some "https://gateway")) "owner" toy_joined (toy_insecure, toy_files) toy_joined channel self0 w0 self1 w1
    toy_joined_keys toy_owner_key (toy_key_did 2) Eo toy_backup_free toy_backup_apart Er) as (_ & _ & self2 & w2 & E2).
  exists channel, self0, w0, self1, w1, self2, w2. split; [exact Eo|]. split; [exact Er|]. split; [exact Hroot|exact E2].
Defined.

(** A store with a sphere of key 1, owned by key 2, and a version of a sphere of key 3
    that links it. *)
Definition link_mutation (identity : string) (cid : ToyCid) : SphereMutation ToyCid :=
  mkSphereMutation (toy_did 3) (mutation_set (map_mutation_new (toy_did 3)) identity cid) (map_mutation_new (toy_did 3)) (map_mutation_new (toy_did 3))
    (map_mutation_new (toy_did 3)).

Lemma toy_lifetime : (10 + SPHERE_LIFETIME < 2 ^ 64)%N.
Proof. reflexivity. Qed.

Lemma toy_replica : exists (blocks : list (ToyCid * bytes)) (g y : toy_version) (u : Ucan) (cid : ToyCid),
  delivers (B := MemoryStore) (KV := MemoryStore) blocks g y (fun _ => u) /\ (v_content (ver_value g)).1 !! toy_did 1 = Some (ver_cid y) /\
  is_Some (get_first_header (ver_memo y) CONTENT_TYPE) /\ size (v_delegations (ver_value y)).1 = 1 /\
  is_Some ((v_delegations (ver_value y)).1 !! cid) /\ audience u = toy_did 2.
Proof.
  destruct (generate_spec (Url := ToyUrl) (Cid := ToyCid) (S := MemoryStore) [] 10 1%N "mnemonic" (toy_did 1) (toy_did 2) memory_store_empty toy_json_total (toy_key_did 1) (toy_signs 1) toy_lifetime)
    as (sg & u & jwt & x0 & y & m1 & E1 & _ & _ & Eu & Ej & (_ & Haud & _) & _ & _ & _ & Hau & _ & Ex0 & _ & _ & _ & Hct0 & (Hy & _ & Ev & _ & _ & _ & Hct & _)).
  destruct (generate_spec (Url := ToyUrl) (Cid := ToyCid) (S := MemoryStore) [] 10 3%N "mnemonic" (toy_did 3) (toy_did 3) m1 toy_json_total (toy_key_did 3) (toy_signs 3) toy_lifetime)
    as (sg2 & u2 & jwt2 & x & y2 & m2 & E2 & Hle2 & _ & _ & _ & _ & _ & _ & _ & _ & Hx & Ex & _ & Hlam & _).
  destruct (commit_spec (Url := ToyUrl) (fun k => k = toy_did 1) (fun _ => False)) with (s := m2) (x := x) (m := link_mutation (toy_did 1) (ver_cid y)) (rng := @nil N)
    (clock := 10%N) (credential := 3%N) (authorization := @None (Authorization ToyCid)) (did := toy_did 3)
    as (rev & s3 & g & rev' & m3 & E3 & E4 & Hle3 & Hg & _ & Eg & _).
  { by intros ? ? -> ->. }
  { by intros ? ? []. }
  { exact Hx. }
  { rewrite Ex. apply empty_in. }
  { split; [by constructor|]. split; [constructor|]. split; constructor. }
  { split; [reflexivity|]. repeat split; reflexivity. }
  { rewrite Hlam. reflexivity. }
  { split; [reflexivity|]. split; [exact (toy_signs 3)|exact I]. }
  assert (sound_memory (Cid := ToyCid) m3) as Hm3.
  { pose proof (generate_sound (Url := ToyUrl) (Cid := ToyCid) [] 10 1%N (Ok "mnemonic") (toy_did 2) memory_store_empty sound_memory_empty) as S1.
    cbn beta in S1. rewrite E1 in S1. pose proof (generate_sound (Url := ToyUrl) (Cid := ToyCid) [] 10 3%N (Ok "mnemonic") (toy_did 3) m1 S1) as S2.
    cbn beta in S2. rewrite E2 in S2. cbn [snd] in S2.
    pose proof (writes_apply_mutation (keeps_sound (Cid := ToyCid)) keeps_sound_put (ver_cid x) (link_mutation (toy_did 1) (ver_cid y)) m2 S2) as S3.
    cbn beta in S3. rewrite E3 in S3. pose proof (writes_sign (Url := ToyUrl) (keeps_sound (Cid := ToyCid)) keeps_sound_put [] 10 rev 3%N None s3 S3) as S4. by rewrite E4 in S4. }
  exists (memory_blocks m3), g, y, u, (token_cid jwt). rewrite Ex in Eg. rewrite Ex0 in Ev. fold (token_cid (Cid := ToyCid) jwt) in Ev.
  assert (store_le (Cid := ToyCid) m1 m3) as Hle by by transitivity m2.
  split; [|split; [|split; [|split; [|split; [|exact Haud]]]]].
  - split; [by apply memory_blocks_sound| |].
    + intros db Hall. assert (carries (Cid := ToyCid) m3 db) as Hc by (intros c b [Hcb _]; apply Hall; by apply memory_blocks_spec).
      split; [exact (holds_carry m3 db g Hc Hg)|exact (holds_carry m3 db y Hc (holds_mono _ _ _ Hle Hy))].
    + intros db cid d Hall Hd. assert (carries (Cid := ToyCid) m3 db) as Hc by (intros c b [Hcb _]; apply Hall; by apply memory_blocks_spec).
      rewrite Ev in Hd. cbn [apply_value v_delegations] in Hd. rewrite apply_part_fst in Hd. cbn in Hd. apply lookup_insert_Some in Hd as [[_ <-]|[_ Hd]]; [|by rewrite lookup_empty in Hd].
      destruct (sign_inv _ _ _ Eu) as (Hwf & _). destruct (token_readable db u jwt Hwf Ej (Hc _ _ (Hle _ _ Hau))) as (Et & Eu' & _).
      unfold delegation_resolve_ucan. cbn [delegation_jwt].
      etransitivity; [exact (f_equal (fun r => let? token := r in ucan_from_str token) Et)|exact Eu'].
  - rewrite Eg. cbn [apply_value v_content]. rewrite apply_part_fst. cbn. by rewrite lookup_insert_eq.
  - rewrite get_first_header_values, Hct, Hct0. by eexists.
  - rewrite Ev. cbn [apply_value v_delegations]. rewrite apply_part_fst. cbn. by rewrite map_size_insert_None.
  - rewrite Ev. cbn [apply_value v_delegations]. rewrite apply_part_fst. cbn. rewrite lookup_insert_eq. by eexists.
Qed.

Lemma recovery_restores_sphere_witness :
  exists (net : ToyNet) (y : toy_version) self1 w1 channel cid,
    noosphere_recover_sphere (Url := ToyUrl) 100 4 10 [] [] 4%N "backup" (toy_noosphere (Some "https://gateway")) "owner" (toy_did 1) (toy_encode [1%N])
      (toy_world {[toy_root := toy_db]} net) = (Ok tt, (self1, w1)) /\
    sphere_channels self1 !! toy_did 1 = Some channel /\ at_version (channel_mutable channel) y /\
    ctx_author (channel_mutable channel) = mkAuthor 2%N (Some (AuthCid cid)).
Proof.
  destruct toy_replica as (blocks & g & y & u & cid0 & Hdel & Hlink & Hct & Hsize & [d Hd] & Haud).
  destruct (one_time_spec (Url := ToyUrl) (Cid := ToyCid) 10 [] 1%N 4%N (toy_did 1) (toy_did 4) (toy_did 1) toy_json_total (toy_key_did 1) (toy_signs 1) (toy_key_did 4) eq_refl)
    as (u4 & jwt4 & Eauth & Ej4 & Hp4 & _).
  destruct (recovery_restores_sphere (Url := ToyUrl) (Cid := ToyCid) 100 4 10 [] [] 2%N 1%N 4%N 3%N (toy_did 2) (toy_did 4) (toy_did 1) "backup" (toy_encode [1%N])
    (AuthUcan u4) (mkSession (toy_did 3) (toy_did 3)) "https://gateway" ((ver_cid g, blocks) : ToyNet) g y (fun _ => u) blocks
    (toy_noosphere (Some "https://gateway")) "owner" (toy_world {[toy_root := toy_db]} ((ver_cid g, blocks) : ToyNet)) (toy_insecure, toy_files)
    (toy_world {[toy_root := toy_db]} ((ver_cid g, blocks) : ToyNet))) as (self1 & w1 & channel & _ & _ & _ & cid & E & Hch & Hat & Ha & _).
  - apply toy_world_keys.
  - exact toy_owner_key.
  - reflexivity.
  - vm_compute. reflexivity.
  - reflexivity.
  - exact Eauth.
  - reflexivity.
  - reflexivity.
  - intros db. unfold client_replicate.
    destruct (one_time_bearer (Url := ToyUrl) 100 10 [] (session_gateway (mkSession (toy_did 3) (toy_did 3))) (toy_did 1) 4%N (toy_did 4) u4 jwt4 db toy_json_total (toy_key_did 4) (toy_signs 4) eq_refl Ej4 Hp4)
      as (credentials & ->). reflexivity.
  - exact Hdel.
  - exact Hlink.
  - exact Hct.
  - rewrite Hsize. apply Nat.leb_le. vm_compute. reflexivity.
  - exists cid0, d. split; [exact Hd|exact Haud].
  - vm_compute. reflexivity.
  - exact toy_backup_apart.
  - exists (ver_cid g, blocks), y, self1, w1, channel, cid. split; [exact E|]. split; [exact Hch|]. split; [exact Hat|exact Ha].
Defined.
