(* ===== verification/WorkspaceTheorems.v ===== *)
(** * The properties of workspaces and of rendering *)
From stdpp Require Import base gmap list numbers strings pretty.
From Stdlib Require Import Ascii String.
From S2P Require Import Prelude BlockStore HamtNode HamtRep Hamt HamtSpec BTree SphereDb BodyChunk VersionedMap.
From S2P Require Import UcanCapability Ucan UcanProofs UcanChain Authority Memo Sphere SphereProofs SphereHistory SphereRebase Bundle BundleProofs.
From S2P Require Import SphereContext SphereContextProofs SphereEdits SphereWalker SphereWalkerProofs StoreTransfer.
From S2P Require Import Api Sync Gateway Routes KeyStorage Builder FileTree Render Workspace WorkspaceProofs RenderProofs.
#[local] Open Scope list_scope.
#[local] Notation length := List.length (only parsing).

(** ** Saving a workspace *)
Section save_theorem.
Context {Key Url Cid B KV Net K Config : Type} `{UnicodeLaws}.
Context `{KeyMaterial Key} `{Bs58} `{Base64} `{DagJson UcanHeader} `{DagJson UcanPayload} `{UrlOps Url}.
Context `{Countable Cid} `{HashAlgorithmLaws string} `{HashAlgorithmLaws Cid} `{KeyOrderLaws Cid}.
Context `{CidLaws Cid} `{!CidDefault Cid} `{!BlockStore B Cid} `{!BlockStoreLaws B Cid} `{StoreLaws KV}.
Context `{!SphereCodecs Cid} `{!SphereCodecsLaws Cid} `{!EntryCodecs Cid} `{!EntryCodecsLaws Cid}.
Context `{!ContextCodecs Cid} `{!ContextCodecsLaws Cid} `{FastCdcLaws} `{!ApiCodecs Cid}.
Context `{!GatewayApi Net Key Cid} `{!Server Net Cid} `{!SessionServer Net Cid} `{Bip39} `{!Ed25519 Key} `{!KeyStorage K Key}.
Context `{!Platform (SphereDb B KV) Config} `{MimeGuess} `{ToSlug}.
Context (supported_keys : list (bytes * (bytes -> outcome Key))).
Context (fuel walk_fuel body_fuel directory_fuel : nat) (clock : N).
Context (P : string -> Prop) (Q : Cid -> Prop) (HP : collision_free P) (HQ : collision_free Q).
Notation SphereDb := (SphereDb B KV).
Notation version := (SphereRebase.version (Cid := Cid)).
Notation context := (SphereContext (Key := Key) (Cid := Cid) (B := B) (KV := KV)).
Notation Workspace := (Workspace (Key := Key) (Cid := Cid) (B := B) (KV := KV) (K := K) (Config := Config)).
Notation CliWorld := (CliWorld (B := B) (KV := KV) (Net := Net)).
Notation ready := (ready (Url := Url) clock P Q).
Notation may_write := (may_write (Url := Url) supported_keys fuel walk_fuel clock).
Notation read_changes := (read_changes (Url := Url) (Key := Key) (Cid := Cid) (B := B) (KV := KV) (Net := Net) (K := K) (Config := Config) walk_fuel body_fuel directory_fuel clock).
#[local] Existing Instance block_ucan_store.
Implicit Types (ctx : context) (x y : version) (self : Workspace) (w : CliWorld).

Lemma with_context_same self ctx : ws_sphere_context self = Some ctx -> with_context self (Some ctx) = self.
Proof. by destruct self; cbn; intros ->. Qed.

Lemma read_changes_spec any_key self w ctx x paths content s g : ws_sphere_paths self = Some paths -> ws_sphere_context self = Some ctx ->
  read_all directory_fuel (cli_machine w) paths memory_store_empty = (Ok content, s) -> vals_rep (matched content) g -> ignored content = ∅ ->
  at_version ctx x -> (forall slug cid, (v_content (ver_value x)).1 !! slug = Some cid -> readable (ctx_db ctx) cid) ->
  levels DEFAULT_BIT_WIDTH * size (v_content (ver_value x)).1 <= walk_fuel ->
  exists items changes, read_changes any_key self w = (Ok (if changes_empty changes then None else Some (content, changes, s)), (self, w)) /\
    compared g items changes (dom g ∖ list_to_set items.*1) /\ lists_version x (ctx_db ctx) items.
Proof.
  intros Hp Hctx Hr Hv Hi Hat Hrd Hf. unfold Workspace.read_changes, require_sphere_paths. rewrite Hp. cbn [ok_or try_with]. rewrite Hr. cbn [try_with].
  unfold workspace_context. rewrite Hctx. cbn [try_with].
  destruct (content_stream_spec walk_fuel body_fuel (cli_net w) ctx x Hat Hrd Hf) as (items & -> & Hl). cbn [try_with]. rewrite (with_context_same _ _ Hctx).
  exists items, (foldl compare_new (foldl (compare_file content) (mkChanges [] [] [] ∅) items) (matched content)).
  split; [done|]. split; [by apply changes_spec|done].
Qed.

(** The files of a workspace are in the version [y], and nothing has changed since. *)
Definition in_step any_key self w x (files : list (string * (option string * bytes))) ctx y : Prop :=
  (forall slug ext b, (slug, (ext, b)) ∈ files -> exists cid ct, (v_content (ver_value y)).1 !! slug = Some cid /\ file_at (ctx_db ctx) cid ct b /\
    ((v_content (ver_value x)).1 !! slug = Some cid \/ ct = ContentType.deref (type_of_extension ext))) /\
  (forall slug, is_Some ((v_content (ver_value y)).1 !! slug) -> slug ∈ files.*1) /\
  status_command (Url := Url) walk_fuel body_fuel directory_fuel clock any_key false self w = (Ok (ctx_identity ctx, Some (ver_cid y, None)), (self, w)).

Lemma mirrored_in_step any_key self w ctx x y paths content s g files : ws_sphere_paths self = Some paths -> file_exists (cli_machine w) (sp_sphere paths) = true ->
  read_all directory_fuel (cli_machine w) paths memory_store_empty = (Ok content, s) -> lists_files s content files g -> NoDup files.*1 ->
  levels DEFAULT_BIT_WIDTH * length files <= walk_fuel ->
  ws_sphere_context self = Some ctx -> at_version ctx y -> complete (ctx_db ctx) x -> mirrors x g (ctx_db ctx) (v_content (ver_value y)).1 ->
  carries (Cid := Cid) s (ctx_db ctx) \/ (v_content (ver_value y)).1 = (v_content (ver_value x)).1 -> in_step any_key self w x files ctx y.
Proof.
  intros Hp Hinit Hread Hl Hnd Hf Hc Hat Hcomp Hmir Hcar. pose proof Hl as (Hv & Hi & _).
  destruct (mirrors_files x content g Hv (ctx_db ctx) s files _ Hmir Hcomp Hl Hcar) as [Hfiles Hk].
  split; [intros slug ext b; apply (Hfiles slug (ext, b))|]. split; [done|]. unfold status_command, ensure_sphere_initialized, require_sphere_paths. rewrite Hp.
  cbn [ok_or outcome_bind]. rewrite Hinit. cbn [try_with]. unfold workspace_context. rewrite Hc. cbn [try_with]. rewrite (at_version_context _ _ Hat). cbn [try_with].
  destruct (read_changes_spec any_key self w ctx y paths content s g Hp Hc Hread Hv Hi Hat) as (items & changes & -> & Hcmp & [Hlist Hstored]).
  - intros slug cid Hcid. destruct (elem_of_keys files slug) as [f Hf']; [apply Hk; by eexists|].
    destruct (Hfiles slug f Hf') as (cid' & ct & Hcid' & Hfa & _). rewrite Hcid in Hcid'. injection Hcid' as <-. by eapply file_readable.
  - etransitivity; [|exact Hf]. apply Nat.mul_le_mono_l. rewrite <- size_dom, <- (length_fmap fst), <- (size_list_to_set (C := gset string)) by done.
    apply subseteq_size. intros slug Hs'. apply elem_of_list_to_set, Hk. by apply elem_of_dom.
  - by rewrite (mirrored_no_changes x g (ctx_db ctx) items changes _ Hmir Hlist Hstored Hcmp).
Qed.

(** The version that is made of staged changes. *)
Lemma save_staged rng ctx ctx1 x did db ops : ready ctx x did -> (lamport_order (ver_memo x) + 1 < 2 ^ 32)%N ->
  mutation_changes (content_mutation (ctx_mutation ctx)) = [] ->
  staged (Url := Url) supported_keys fuel walk_fuel clock ctx db (foldl with_content (ctx_mutation ctx) ops) ctx1 -> grown (ctx_db ctx) db ->
  (forall op, op ∈ ops -> P (change_key op)) -> has_unsaved_changes ctx = true \/ ops <> [] ->
  exists y ctx2, default_save (Url := Url) clock rng ctx1 None = (Ok (ver_cid y), ctx2) /\ store_le db (ctx_db ctx2) /\ at_version ctx2 y /\
    (v_content (ver_value y)).1 = apply_ops (v_content (ver_value x)).1 ops.
Proof.
  intros [[Hver Hx] Hval (M1 & M2 & M3 & M4) (B1 & B2 & B3 & B4) Hau Hsign] Hlam Hpend [Edb Em Eid Eau _] [Hle Hn] Hops Hun.
  destruct (with_changes_spec ops (ctx_mutation ctx)) as (Wc & Wd & Wa & Wi & We & Wr). rewrite Hpend in Wc. cbn [app] in Wc.
  assert (ready ctx1 x did) as Hr1.
  { split; rewrite ?Em, ?Eau, ?Edb.
    - split; rewrite Edb; [rewrite Eid, <- Hver; by apply same_names_version|exact (holds_mono _ _ _ Hle Hx)].
    - done.
    - split; [rewrite Wc; by apply Forall_forall|]. by rewrite Wi, We, Wr.
    - split; [by rewrite Wd|]. by rewrite Wi, We, Wr.
    - by rewrite Wa.
    - exact (can_sign_mono _ _ _ _ _ _ Hle Hsign). }
  destruct (default_save_spec (Url := Url) clock P Q HP HQ rng ctx1 x did None Hr1 Hlam) as (y & ctx2 & E & Hle2 & Hy & Hr2 & _); [|done|].
  { unfold has_unsaved_changes in *. cbn in *. rewrite Em. unfold sphere_mutation_is_empty in *. rewrite Wc, Wi, We, Wr. rewrite Hpend in Hun. cbn [List.length] in Hun.
    destruct ops; [|done]. by destruct Hun. }
  exists y, ctx2. split; [done|]. split; [by rewrite <- Edb|]. split; [by apply Hr2|]. destruct Hy as (_ & _ & -> & _). rewrite Em. cbn. by rewrite apply_part_fst, Wc.
Qed.

(** C16: Saving a workspace, in which no two files have one slug and no file is empty,
    makes the sphere what the files are: whether there is a new version or nothing to
    save, every file with a slug is in the sphere with the contents that it has, under
    a new memo of the content type of its extension or under the memo that it had;
    slugs without a file are gone; and the status that follows reports no changes
    ([in_step]). *)
Theorem save_records_workspace any_key rng self w ctx x did paths es : let files := files_of [] (FsDir es) in
  ws_sphere_paths self = Some paths -> is_absolute (sp_root paths) = true -> file_exists (cli_machine w) (sp_sphere paths) = true ->
  in_workspace (cli_machine w) (sp_root paths) [] (FsDir es) -> directories_of [] (FsDir es) <= directory_fuel ->
  NoDup files.*1 -> Forall (fun f => f.2.2 <> []) files -> (forall slug, slug ∈ files.*1 -> P slug /\ slug <> "") ->
  ws_sphere_context self = Some ctx -> ready ctx x did -> may_write ctx -> complete (ctx_db ctx) x ->
  mutation_changes (content_mutation (ctx_mutation ctx)) = [] -> (lamport_order (ver_memo x) + 1 < 2 ^ 32)%N ->
  levels DEFAULT_BIT_WIDTH * size (v_content (ver_value x)).1 <= walk_fuel -> levels DEFAULT_BIT_WIDTH * length files <= walk_fuel ->
  exists r self' ctx' y,
    save_version (Url := Url) supported_keys fuel walk_fuel body_fuel directory_fuel clock any_key rng self w = (r, (self', w)) /\
    (r = Ok (ver_cid y) \/ r = Err "No changes to save" /\ y = x) /\
    ws_sphere_context self' = Some ctx' /\ at_version ctx' y /\ in_step any_key self' w x files ctx' y.
Proof.
  intros files Hpaths Habs Hinit Hin Hdir Hnd Hne Hslugs Hctx Hrdy Hw Hcomp Hpend Hlam Hfx Hfy.
  destruct (read_all_spec (Cid := Cid) (cli_machine w) (sp_root paths) Habs directory_fuel paths es eq_refl Hin Hdir Hnd Hne) as (content & s & g & Hread & Hs & Hl).
  pose proof Hl as (Hv & Hi & Hfiles & Hkeys). pose proof (ready_at _ _ _ _ _ _ Hrdy) as Hat.
  assert (g !! "" = None) as Hnamed.
  { destruct (g !! "") as [ref|] eqn:Hg; [|done]. destruct (Hslugs "") as [_ []]; [|done]. apply Hkeys. by eexists. }
  destruct (read_changes_spec any_key self w ctx x paths content s g Hpaths Hctx Hread Hv Hi Hat) as (items & changes & Hch & Hcmp & Hlist); [|done|].
  { intros slug cid. by apply complete_readable. }
  unfold save_version, ensure_sphere_initialized, require_sphere_paths. rewrite Hpaths. cbn [ok_or outcome_bind]. rewrite Hinit. cbn [try_with].
  unfold workspace_context at 1. rewrite Hctx. cbn [try_with]. rewrite Hch. cbn [try_with].
  assert (forall op : MapOperation string Cid, is_Some (g !! change_key op) \/ is_Some ((v_content (ver_value x)).1 !! change_key op) -> P (change_key op)) as HinP.
  { intros op [Hg|Hc]; [by apply Hslugs, Hkeys|]. destruct (ready_value _ _ _ _ _ _ Hrdy) as [Hval _]. by apply Hval, elem_of_dom. }
  destruct (changes_empty changes) eqn:Hempty; cbn [try_with].
  - pose proof (unchanged_mirrors x g (ctx_db ctx) items changes Hlist Hcmp Hempty) as Hmir. rewrite (bool_decide_false (is_Some None)) by (by intros []). rewrite orb_false_r.
    destruct (has_unsaved_changes ctx) eqn:Hun.
    + destruct (save_staged rng ctx ctx x did (ctx_db ctx) [] Hrdy Hlam Hpend) as (y & ctx2 & Es & Hle & Hy & Hcy); [by split|done|by intros ? ?%elem_of_nil|by left|].
      cbn in Hcy. unfold on_context, workspace_context. rewrite Hctx. cbn [try_with]. unfold cursor_save. cbn [context_save context_has_mutable_context cursor_inner latest].
      rewrite Es. cbn [try_with cursor_inner cursor_version]. eexists _, _, ctx2, y. split; [done|]. split; [by left|]. split; [done|]. split; [done|].
      eapply mirrored_in_step; try done; [by eapply complete_mono| |by right]. rewrite Hcy. by eapply mirrors_mono.
    + exists (Err "No changes to save"), self, ctx, x. split; [done|]. split; [by right|]. split; [done|]. split; [done|]. eapply mirrored_in_step; try done. by right.
  - destruct (stage_changes_spec (Url := Url) supported_keys fuel walk_fuel body_fuel clock (cli_net w) x content g Hv Hnamed ctx s items changes Hat Hcomp Hw Hs Hlist Hcmp)
      as (ctx1 & db1 & ops & Est & Hst & Hgr & Hcar & Hmir & Hops & Hnil).
    unfold on_context at 1, workspace_context at 1. rewrite Hctx. cbn [try_with]. rewrite Est. cbn [try_with].
    rewrite (bool_decide_true (is_Some (Some _))) by (by eexists). rewrite orb_true_r.
    destruct (save_staged rng ctx ctx1 x did db1 ops Hrdy Hlam Hpend Hst Hgr) as (y & ctx2 & Es & Hle & Hy & Hcy); [by auto|by right; apply Hnil|].
    unfold on_context, workspace_context. cbn [with_context ws_sphere_context try_with]. unfold cursor_save. cbn [context_save context_has_mutable_context cursor_inner latest].
    rewrite Es. cbn [try_with cursor_inner cursor_version]. eexists _, _, ctx2, y. split; [done|]. split; [by left|]. split; [done|]. split; [done|].
    eapply mirrored_in_step; try done.
    + eapply complete_mono; [|exact Hcomp]. etransitivity; [apply Hgr|done].
    + rewrite Hcy. by eapply mirrors_mono.
    + left. intros c b Ha. by apply Hle, Hcar.
Qed.
End save_theorem.

(** ** Rendering a sphere *)
Section render_theorems.
Context {Key Url Cid B KV Net : Type} `{UnicodeLaws}.
Context `{KeyMaterial Key} `{Bs58} `{Base64Laws} `{DagJson UcanHeader} `{DagJson UcanPayload} `{UrlOps Url}.
Context `{Countable Cid} `{HashAlgorithmLaws string} `{HashAlgorithmLaws Cid} `{KeyOrderLaws Cid}.
Context `{CidLaws Cid} `{!BlockStore B Cid} `{!BlockStoreLaws B Cid} `{StoreLaws KV}.
Context `{!SphereCodecs Cid} `{!SphereCodecsLaws Cid} `{!EntryCodecs Cid} `{!EntryCodecsLaws Cid}.
Context `{!ContextCodecs Cid} `{!ContextCodecsLaws Cid} `{FastCdcLaws} `{!GatewayApi Net Key Cid} `{MimeGuess}.
Context (fuel walk_fuel body_fuel : nat) (net : Net) (late : Net -> Session -> Cid -> option (ReplicateParameters Cid) -> option nat).
Notation SphereDb := (SphereDb B KV).
Notation version := (SphereRebase.version (Cid := Cid)).
Notation context := (SphereContext (Key := Key) (Cid := Cid) (B := B) (KV := KV)).
Notation job_render := (job_render (Key := Key) fuel walk_fuel body_fuel net late).
Notation full_render := (full_render (Key := Key) walk_fuel body_fuel net).
#[local] Existing Instance block_ucan_store.
Implicit Types (db : SphereDb) (ctx : context) (x : version) (m : Machine) (t : FileTree).
Context (top : PathBuf) (a b : string) (force : bool) (Htop : top <> []).
Notation root := (top ++ [a; b]).
Notation sphere := (top ++ [a; b; ".sphere"]).
Notation slugs := (top ++ [a; b; ".sphere"; "slugs"]).
Notation paths := (paths_new root).
Notation file_of slug memo := (root ++ [rendered_name slug memo]).
Notation link_at slug := (slugs ++ [link_of slug]).









Notation version_file := (sphere ++ ["version"]).
Notation identity_file := (sphere ++ ["identity"]).
Notation depth_file := (sphere ++ ["depth"]).
Notation peers := (top ++ [a; b; ".sphere"; "peers"]).











(** ** The rendering loop of a sphere without peers *)
Notation refresh_job := (mkJob (Cid := Cid) RefreshPeers paths []).
Notation root_job := (mkJob (Cid := Cid) (Root force) paths []).
Notation RenderLoop := (RenderLoop (Key := Key) (Cid := Cid) (B := B) (KV := KV)).
Notation RenderWorld := (RenderWorld (Key := Key) (Cid := Cid) (B := B) (KV := KV)).
Notation render_loop := (render_loop (Key := Key) (B := B) (KV := KV) fuel walk_fuel body_fuel net late paths).
Implicit Types (l : RenderLoop).




(** ** A whole rendering *)
Notation renderer_render := (renderer_render (Key := Key) fuel walk_fuel body_fuel net late).













(** What the root job writes, apart from the content. *)
Notation with_root_files ctx x t := (<[version_file := Regular (as_bytes (cid_to_string (ver_cid x)))]> (<[identity_file := Regular (as_bytes (ctx_identity ctx))]> t)).


End render_theorems.

(** ** Rendering again *)
Section rerender_theorems.
Context {Cid : Type} `{Unicode} `{Base64} `{MimeGuess} `{Countable Cid} `{CidOps Cid}.
Implicit Types (m : Machine) (file : SphereFile Cid).
Context (top : PathBuf) (a b : string) (slug f : string) (force : bool).
Notation root := (top ++ [a; b]).
Notation slugs := (top ++ [a; b; ".sphere"; "slugs"]).
Notation paths := (paths_new root).
Notation writer := (mkWriter (Cid := Cid) (Root force) paths).

(** [f] is the file of the slug in a workspace without its link. *)
Record first_time m : Prop := {
  first_top : top <> [];
  first_workspace : workspace_at m top a b;
  first_file : one_component f /\ f <> ".sphere";
  first_link : one_component (link_of slug) /\ tree m !! (slugs ++ [link_of slug]) = None;
}.

Definition holds_file m (p : PathBuf) (contents : bytes) : Prop := tree m !! p = Some (Regular contents).

Lemma write_first m file : first_time m -> root_hard_link paths slug (file_memo file) = Ok (root ++ [f]) -> (file_contents file).2 = Ok tt ->
  file_or_nothing (tree m) (root ++ [f]) ->
  exists m', write_content writer slug file m = (Ok tt, m') /\ workspace_at m' top a b /\ tree m' !! (slugs ++ [link_of slug]) = Some (Symlink [".."; ".."; f]) /\
    holds_file m' (root ++ [f]) (match tree m !! (root ++ [f]) with Some (Regular old) => old | _ => mjoin (file_contents file).1 end) /\
    forall p, p <> root ++ [f] -> p <> slugs ++ [link_of slug] -> tree m' !! p = tree m !! p.
Proof.
  intros [Htop [Hw Hd Hcur] [Hf Hfs] [Hl Hn]] Hpath Hend Hfile. eexists. split.
  { apply (write_content_spec top a b slug f force Htop (one_plain _ Hf) Hl Hfs m file Hd Hpath Hfile Hend). by left. }
  fold (link_of slug). assert (slugs ++ [link_of slug] <> root ++ [f]) as Hne.
  { intros E. apply (f_equal List.length) in E. rewrite !length_app in E. cbn in E. lia. }
  set (t1 := match tree m !! (root ++ [f]) with Some _ => _ | None => _ end).
  assert (forall p, p <> root ++ [f] -> t1 !! p = tree m !! p) as Ht1.
  { intros p Hp. unfold t1. destruct (tree m !! (root ++ [f])); [done|]. by rewrite lookup_insert_ne. }
  assert (forall q, tree m !! q = Some Directory -> (<[slugs ++ [link_of slug] := Symlink [".."; ".."; f]]> t1) !! q = Some Directory) as Hmono.
  { intros q Hq. rewrite lookup_insert_ne by (intros <-; congruence). rewrite Ht1; [done|]. intros ->. destruct Hfile as [Hf'|[? Hf']]; congruence. }
  split; [|split; [|split]].
  - split; [by apply (dir_at_mono (tree m))..|done].
  - cbn [tree set_tree]. by rewrite lookup_insert_eq.
  - unfold holds_file. cbn [tree set_tree]. rewrite lookup_insert_ne by done. unfold t1. destruct Hfile as [Hf'|[old Hf']]; rewrite Hf'; [by rewrite lookup_insert_eq|done].
  - intros p Hp1 Hp2. cbn [tree set_tree]. rewrite lookup_insert_ne by done. by apply Ht1.
Qed.

(** C39: Rendering does not remove what it wrote: when a slug that was rendered is
    removed from the sphere, its link goes, but the file stays, and the next save
    would put the slug back.  The link is followed from the workspace and not from
    the directory it is in: a file of the same name two directories above the
    workspace is deleted instead. *)
Theorem removed_content_stays m file : first_time m -> root_hard_link paths slug (file_memo file) = Ok (root ++ [f]) -> (file_contents file).2 = Ok tt ->
  tree m !! (root ++ [f]) = None -> file_or_nothing (tree m) (top ++ [f]) ->
  exists m1 m2, write_content writer slug file m = (Ok tt, m1) /\ remove_content writer slug m1 = (Ok tt, m2) /\
    tree m2 !! (slugs ++ [link_of slug]) = None /\ holds_file m2 (root ++ [f]) (mjoin (file_contents file).1) /\ tree m2 !! (top ++ [f]) = None.
Proof.
  intros Hfirst Hpath Hend Hnew Habove. destruct (write_first m file Hfirst Hpath Hend) as (m1 & E1 & Hw1 & Hl1 & Hf1 & Ho1); [by left|]. rewrite Hnew in Hf1.
  destruct Hfirst as [Htop _ [Hf Hfs] [Hl _]]. assert (top ++ [f] <> root ++ [f] /\ top ++ [f] <> slugs ++ [link_of slug] /\ slugs ++ [link_of slug] <> root ++ [f]) as (Hne1 & Hne2 & Hne3).
  { split; [|split]; intros E; apply (f_equal List.length) in E; rewrite !length_app in E; cbn in E; lia. }
  eexists m1, _. split; [done|]. split.
  { apply (remove_content_spec top a b slug f force Htop (one_plain _ Hf) Hl m1 Hw1 Hl1). unfold file_or_nothing. by rewrite Ho1. }
  fold (link_of slug). cbn [tree set_tree]. split; [|split].
  - by rewrite lookup_delete_ne, lookup_delete_eq.
  - unfold holds_file. cbn [tree set_tree]. by rewrite !lookup_delete_ne.
  - by rewrite lookup_delete_eq.
Qed.

(** A file that is there is not written: the writer reports success, and the file
    keeps the contents that it had, whatever the sphere has for the slug. *)
Theorem existing_file_kept m file old : first_time m -> root_hard_link paths slug (file_memo file) = Ok (root ++ [f]) -> (file_contents file).2 = Ok tt ->
  holds_file m (root ++ [f]) old ->
  exists m', write_content writer slug file m = (Ok tt, m') /\ holds_file m' (root ++ [f]) old.
Proof.
  intros Hfirst Hpath Hend Hold. destruct (write_first m file Hfirst Hpath Hend) as (m1 & E1 & _ & _ & Hf1 & _); [right; by eexists|].
  unfold holds_file in Hold. rewrite Hold in Hf1. by exists m1.
Qed.
End rerender_theorems.

(** ** The rendering loop *)
Section loop_theorems.
Context {Key Cid B KV Net : Type} `{Unicode}.
Context `{KeyMaterial Key} `{Base64} `{DagJson UcanHeader} `{DagJson UcanPayload}.
Context `{Countable Cid} `{HashAlgorithm string} `{HashAlgorithm Cid} `{KeyOrder Cid}.
Context `{CidOps Cid} `{!BlockStore B Cid} `{Store KV} `{!SphereCodecs Cid} `{!EntryCodecs Cid} `{!ContextCodecs Cid}.
Context `{!GatewayApi Net Key Cid} `{MimeGuess}.
Context (fuel walk_fuel body_fuel : nat) (net : Net) (late : Net -> Session -> Cid -> option (ReplicateParameters Cid) -> option nat).
Context (paths : SpherePaths) (render_depth : N).
Notation RenderLoop := (RenderLoop (Key := Key) (Cid := Cid) (B := B) (KV := KV)).
Notation job_render := (job_render (Key := Key) fuel walk_fuel body_fuel net late).
Notation render_turn := (render_turn (Key := Key) (B := B) (KV := KV) fuel walk_fuel body_fuel net late paths render_depth).
Notation render_loop := (render_loop (Key := Key) (B := B) (KV := KV) fuel walk_fuel body_fuel net late paths render_depth).
Notation Job := (SphereRenderJob (Cid := Cid)).
Implicit Types (l : RenderLoop) (job : Job) (schedule : list RenderChoice) (done : list Job).

(** The version of a peer that a job renders. *)
Definition job_id job : option (string * Cid) := match job_kind job with Peer did cid _ => Some (did, cid) | _ => None end.

Definition within_depth job : Prop := (N.of_nat (length (job_petname_path job)) <= render_depth)%N.

(** The jobs that do their work under a schedule, as far as it can be followed. *)
Fixpoint worked schedule l : list Job :=
  match schedule with
  | [] => []
  | choice :: schedule =>
      match render_turn choice l with
      | None => []
      | Some l' => match choice with JobWorks i => option_list (loop_working l !! i) | _ => [] end ++ worked schedule l'
      end
  end.

(** The jobs so far are of different peers or versions, all of them marked. *)
Record marked done l : Prop := {
  marked_once : NoDup (omap job_id (done ++ loop_working l));
  marked_started id : id ∈ omap job_id (done ++ loop_working l) -> id ∈ loop_started l;
  marked_depth : Forall within_depth (done ++ loop_working l);
}.

Lemma marked_perm done done' (working working' : list Job) ended ended' started w w' : done ++ working ≡ₚ done' ++ working' ->
  marked done (mkLoop working ended started w) -> marked done' (mkLoop working' ended' started w').
Proof. intros Hp [H1' H2' H3']. cbn in *. split; cbn; [by rewrite <- Hp|intros id; rewrite <- Hp; apply H2'|by rewrite <- Hp]. Qed.

Lemma marked_receive done request l : marked done l -> marked done (receive paths render_depth request l).
Proof.
  destruct l as [working ended started w]. intros [H1' H2' H3']. unfold receive. cbn in *. case_bool_decide as Hs; [done|].
  destruct (_ <? _)%N eqn:Hdep; [done|]. apply N.ltb_ge in Hdep.
  destruct (file_exists _ _); split; cbn; try done.
  - intros id Hid. apply elem_of_union. right. by apply H2'.
  - rewrite app_assoc, omap_app. apply NoDup_app. split; [done|]. split; [|apply NoDup_singleton].
    intros id Hid ->%list_elem_of_singleton. by apply Hs, H2'.
  - intros id. rewrite app_assoc, omap_app, elem_of_app. intros [Hid|Hid].
    + apply elem_of_union. right. by apply H2'.
    + apply list_elem_of_singleton in Hid as ->. set_solver.
  - rewrite app_assoc. apply Forall_app. split; [done|]. by constructor.
Qed.

Lemma marked_turn done choice l l' : marked done l -> render_turn choice l = Some l' ->
  marked (done ++ match choice with JobWorks i => option_list (loop_working l !! i) | _ => [] end) l'.
Proof.
  destruct l as [working ended started w]. intros Hm. unfold render_turn. cbn [loop_working]. destruct choice as [i| |].
  - destruct (working !! i) as [job|] eqn:Hi; [|done]. intros [= <-]. eapply marked_perm; [|exact Hm].
    rewrite <- (take_drop_middle _ _ _ Hi) at 1. cbn [option_list]. rewrite <- (app_assoc done). apply Permutation_app_head. change (option_list (Some job)) with [job]. cbn [app]. symmetry. apply Permutation_middle.
  - destruct ended; [done|]. intros [= <-]. rewrite app_nil_r. by eapply marked_perm.
  - assert (forall request requests, rw_requests w = request :: requests ->
      marked done (receive paths render_depth request (mkLoop working ended started (mkRender (rw_context w) (rw_machine w) requests)))) as Hr.
    { intros request requests _. apply marked_receive. by eapply marked_perm. }
    rewrite app_nil_r. destruct working, ended, (rw_requests w) as [|request requests] eqn:E; try done; intros [= <-]; by apply Hr.
Qed.

Lemma marked_worked schedule : forall done l, marked done l -> NoDup (omap job_id (done ++ worked schedule l)) /\ Forall within_depth (done ++ worked schedule l).
Proof.
  induction schedule as [|choice schedule IH]; intros done l Hm; cbn [worked]; [|destruct (render_turn choice l) as [l'|] eqn:E].
  - destruct Hm as [H1' _ H3']. rewrite app_nil_r. rewrite omap_app in H1'. apply NoDup_app in H1' as (? & _). by apply Forall_app in H3' as [? _].
  - rewrite app_assoc. by eapply IH, marked_turn.
  - destruct Hm as [H1' _ H3']. rewrite app_nil_r. rewrite omap_app in H1'. apply NoDup_app in H1' as (? & _). by apply Forall_app in H3' as [? _].
Qed.

(** C29: Whatever the order in which jobs end and requests arrive, no version of a peer
    is rendered by two jobs, at once or one after the other, and no job is deeper
    than the render depth. *)
Theorem peers_rendered_once schedule force force_peers w :
  let jobs := worked schedule (mkLoop (first_jobs paths force force_peers) 0 ∅ w) in NoDup (omap job_id jobs) /\ Forall within_depth jobs.
Proof.
  apply (marked_worked schedule []). split; cbn.
  - destruct force_peers; constructor.
  - by destruct force_peers; intros id ?%elem_of_nil.
  - unfold within_depth. destruct force_peers; repeat constructor; cbn; lia.
Qed.

(** The loop ends with the last job, not with the last request: when the only job
    left has asked for a peer, there is a schedule on which the loop is over before
    the request is received, and the peer is not rendered. *)
Theorem queued_peer_dropped job started w w' request : job_render job w = (Ok tt, w') -> rw_requests w' = [request] ->
  exists schedule, render_loop schedule (mkLoop [job] 0 started w) = Some (mkLoop [] 0 started w') /\ worked schedule (mkLoop [job] 0 started w) = [job].
Proof.
  intros E Hr. exists [JobWorks 0; JobJoined]. cbn -[Render.job_render]. by rewrite E.
Qed.
End loop_theorems.

(** ** Runs *)
From S2P Require Import Instances UcanInstances SphereFixtures ContextFixtures GatewayFixtures.

Section runs.
#[local] Instance toy_mime : MimeGuess := { mime_of_extension _ := None; extensions_of_mime _ := None }.
#[local] Instance toy_slugs_kept : ToSlug := Some.
#[local] Instance silent_server : Server unit ToyCid := { serve_fetch n _ _ := (Err "unreachable", n); serve_push n _ _ := (Err "unreachable", n) }.
#[local] Instance silent_session : SessionServer unit ToyCid :=
  { serve_did n := (Err "unreachable", n); serve_identify n _ := (Err "unreachable", n); serve_replicate n _ _ _ := (Err "unreachable", n) }.
#[local] Instance one_key : KeyStorage unit N := fun _ _ => Ok (Some 1%N).
#[local] Instance memory_platform : Platform ToyDb unit := { open_storage _ _ _ found := Ok (default toy_db found); default_config := tt }.

(** A file of a sphere that is at its first version with content. *)
Lemma toy_filed : exists (ctx : ToyContext) (y : toy_version) cid memo, ready (Url := ToyUrl) 10 toy_slugs toy_jwts ctx y (toy_did 1) /\
  (v_content (ver_value y)).1 = {["foo" := cid]} /\ (v_identities (ver_value y)).1 = ∅ /\ lamport_order (ver_memo y) = 1%N /\
  stored (ctx_db ctx) cid memo /\ memo = mkMemo None [(CONTENT_TYPE, "text/plain")] (body memo) /\ file_at (ctx_db ctx) cid "text/plain" [104; 105]%N /\
  mutation_changes (content_mutation (ctx_mutation ctx)) = [] /\ ctx_author ctx = mkAuthor 1%N None /\ ctx_identity ctx = toy_did 1 /\ ctx_access ctx = None.
Proof.
  destruct toy_context_sound as (db0 & x & [[[Hver Hx] Hv _ _ _ _] _] & Ev & Hl & _).
  destruct (store_bytes_spec (Cid := ToyCid) [104; 105]%N db0) as (body_cid & db1 & bs & Eb & Hle1 & Hch & Hj & Hlen & _); [done|].
  pose proof (store_bytes_names (Cid := ToyCid) [104; 105]%N db0) as Hn1. rewrite Eb in Hn1. cbn [snd] in Hn1.
  set (memo := mkMemo (Cid := ToyCid) None [(CONTENT_TYPE, "text/plain")] body_cid).
  destruct (save_spec db1 memo) as (cid & db2 & Es & Hle2 & Hst). pose proof (save_names db1 memo) as Hn2. rewrite Es in Hn2. cbn [snd] in Hn2.
  assert (same_names db0 db2) as Hn by (by transitivity db1). assert (store_le db0 db2) as Hle by (by transitivity db1).
  assert (get_version db2 (toy_did 1) = Ok (Some (ver_cid x))) as Hver2 by (rewrite <- Hver; by apply same_names_version).
  set (m := with_content (sphere_mutation_new (toy_did 1)) (Add "foo" cid)).
  set (ctx := with_mutation (toy_context db2) m).
  assert (ready (Url := ToyUrl) 10 toy_slugs toy_jwts ctx x (toy_did 1)) as Hr.
  { split; cbn; try done.
    - split; [exact Hver2|exact (holds_mono _ _ _ Hle Hx)].
    - split_and!; [|apply Forall_nil; exact I..]. constructor; [constructor|constructor].
    - exact (toy_can_sign db2 10 1%N). }
  destruct (default_save_spec (Url := ToyUrl) 10 toy_slugs toy_jwts toy_slugs_free toy_jwts_free [] ctx x (toy_did 1) None Hr)
    as (y & ctx' & _ & Hle' & Hy & Hr' & Hm' & Hid & Hau & Hac); [by rewrite Hl|done|done|].
  pose proof Hy as (_ & _ & Evy & _ & _ & Hly & _). exists ctx', y, cid, memo. split; [done|]. rewrite Evy, Ev. split; [done|]. split; [done|]. split; [by rewrite Hly, Hl|].
  cbn in Hle'. split; [exact (stored_mono _ _ _ _ Hle' Hst)|]. split; [done|]. split.
  - exists memo, bs. split; [exact (stored_mono _ _ _ _ Hle' Hst)|]. split; [done|]. split; [|done]. eapply chunks_at_mono; [exact Hle'|]. exact (chunks_at_mono _ _ _ _ Hle2 Hch).
  - split; [|by rewrite Hid, Hau, Hac]. unfold has_unsaved_changes in Hm'. cbn in Hm'. apply negb_false_iff in Hm'. unfold sphere_mutation_is_empty in Hm'.
    by destruct (mutation_changes (content_mutation (ctx_mutation ctx'))).
Qed.

(** A workspace two directories below the root, with the directories that a sphere has. *)
Definition toy_tree : FileTree := list_to_map
  [(["/"; "home"], Directory); (["/"; "home"; "notes"], Directory); (["/"; "home"; "notes"; ".sphere"], Directory);
   (["/"; "home"; "notes"; ".sphere"; "slugs"], Directory); (["/"; "home"; "notes"; ".sphere"; "peers"], Directory);
   (["/"; "home"; "notes"; ".sphere"; "peers"; "stale"], Directory)].

Lemma toy_dirs t : toy_tree ⊆ t -> dir_at t ["/"; "home"; "notes"] /\ dir_at t ["/"; "home"; "notes"; ".sphere"; "slugs"] /\
  dir_at t ["/"; "home"; "notes"; ".sphere"; "peers"].
Proof.
  intros Ht. assert (dir_at t ["/"; "home"]) as H1'. { apply (dir_snoc t ["/"] "home"); [constructor|done|]. by apply (lookup_weaken toy_tree t); [vm_compute|]. }
  assert (dir_at t ["/"; "home"; "notes"]) as H2'. { apply (dir_snoc t ["/"; "home"] "notes"); [done|done|]. by apply (lookup_weaken toy_tree t); [vm_compute|]. }
  split; [done|]. assert (dir_at t ["/"; "home"; "notes"; ".sphere"]) as H3'.
  { apply (dir_snoc t ["/"; "home"; "notes"] ".sphere"); [done|done|]. by apply (lookup_weaken toy_tree t); [vm_compute|]. }
  split.
  - apply (dir_snoc t ["/"; "home"; "notes"; ".sphere"] "slugs"); [done|done|]. by apply (lookup_weaken toy_tree t); [vm_compute|].
  - apply (dir_snoc t ["/"; "home"; "notes"; ".sphere"] "peers"); [done|done|]. by apply (lookup_weaken toy_tree t); [vm_compute|].
Qed.

Definition foo_link : string := link_of "foo".

Lemma foo_link_one : one_component foo_link.
Proof. vm_compute. done. Qed.


(** The same workspace, with a file that only happens to have the name. *)
Definition crowded_machine : Machine := mkMachine ["/"; "home"; "notes"] (<[["/"; "foo.txt"] := Regular [1%N]]> toy_tree).
Definition foo_file : SphereFile ToyCid := mkFile (toy_did 1) (0, [])%N (0, [])%N (mkMemo None [(CONTENT_TYPE, "text/plain")] (0, [])%N) ([[104; 105]%N], Ok tt).

Lemma removed_content_stays_witness : exists m1 m2,
  write_content (mkWriter (Cid := ToyCid) (Root true) (paths_new ["/"; "home"; "notes"])) "foo" foo_file crowded_machine = (Ok tt, m1) /\
  remove_content (mkWriter (Cid := ToyCid) (Root true) (paths_new ["/"; "home"; "notes"])) "foo" m1 = (Ok tt, m2) /\
  tree m2 !! ["/"; "home"; "notes"; "foo.txt"] = Some (Regular [104; 105]%N) /\ tree m2 !! ["/"; "foo.txt"] = None.
Proof.
  destruct (removed_content_stays (Cid := ToyCid) ["/"] "home" "notes" "foo" "foo.txt" true crowded_machine foo_file) as (m1 & m2 & E1 & E2 & _ & Hf & Hn).
  - assert (toy_tree ⊆ tree crowded_machine) as Ht by (by apply insert_subseteq).
    split; [done| |done|split; [apply foo_link_one|vm_compute; reflexivity]]. split; [by apply toy_dirs..|done].
  - vm_compute. reflexivity.
  - reflexivity.
  - vm_compute. reflexivity.
  - right. by exists [1%N].
  - exists m1, m2. split; [exact E1|]. split; [exact E2|]. split; [exact Hf|exact Hn].
Defined.

(** A file was changed, and another was added. *)
Definition edited_machine : Machine :=
  mkMachine ["/"; "home"; "notes"] (<[["/"; "home"; "notes"; "foo.txt"] := Regular [1; 2]%N]> (<[["/"; "home"; "notes"; "bar"] := Regular [3]%N]> toy_tree)).
Definition edited_files : list (string * FsTree) := [("foo.txt", FsFile [1; 2]%N); ("bar", FsFile [3]%N); (".sphere", FsDir [])].

Lemma edited_in_workspace : in_workspace edited_machine ["/"; "home"; "notes"] [] (FsDir edited_files).
Proof.
  constructor; [vm_compute; reflexivity..|]. intros n t Hin Hi. apply elem_of_cons in Hin as [[= -> ->]|Hin]; [constructor; vm_compute; reflexivity|].
  apply elem_of_cons in Hin as [[= -> ->]|Hin]; [constructor; vm_compute; reflexivity|]. apply list_elem_of_singleton in Hin as [= -> ->]. discriminate Hi.
Qed.

Notation toy_workspace ctx := (mkWorkspace (Key := N) (Cid := ToyCid) (B := MemoryStore) (KV := MemoryStore) (K := unit) (Config := unit)
  (Some (paths_new ["/"; "home"; "notes"])) tt (Some ctx) ["/"; "home"; "notes"] None).
Notation toy_cli := (mkCli (B := MemoryStore) (KV := MemoryStore) (Net := unit) edited_machine ∅ tt).

Lemma toy_may_write (ctx : ToyContext) : ctx_author ctx = mkAuthor 1%N None -> ctx_identity ctx = toy_did 1 -> ctx_access ctx = None ->
  may_write (Url := ToyUrl) toy_keys 4 64 10 ctx.
Proof.
  intros Ha Hi Hc db _. destruct ctx as [identity origin author access db0 gateway mt]. cbn in Ha, Hi, Hc. subst.
  unfold writable, context_access, access_to. cbn. by rewrite bool_decide_true.
Qed.

Lemma save_records_workspace_witness : exists (ctx : ToyContext) self' (ctx' : ToyContext) (y : toy_version) c1 c2 r,
  save_version (Url := ToyUrl) toy_keys 4 64 4 1 10 1%N [] (toy_workspace ctx) toy_cli = (r, (self', toy_cli)) /\
  at_version ctx' y /\ (v_content (ver_value y)).1 !! "foo" = Some c1 /\ (exists ct, file_at (ctx_db ctx') c1 ct [1; 2]%N) /\
  (v_content (ver_value y)).1 !! "bar" = Some c2 /\ (exists ct, file_at (ctx_db ctx') c2 ct [3]%N) /\
  status_command (Url := ToyUrl) 64 4 1 10 1%N false self' toy_cli = (Ok (ctx_identity ctx', Some (ver_cid y, None)), (self', toy_cli)).
Proof.
  destruct toy_filed as (ctx & x & cid & memo & Hr & Ec & Ep & Hl & Hst & Hm & Hf & Hpend & Hau & Hid & Hac). exists ctx.
  destruct (save_records_workspace (Url := ToyUrl) (Cid := ToyCid) (B := MemoryStore) (KV := MemoryStore) toy_keys 4 64 4 1 10 toy_slugs toy_jwts toy_slugs_free toy_jwts_free
    1%N [] (toy_workspace ctx) toy_cli ctx x (toy_did 1) (paths_new ["/"; "home"; "notes"]) edited_files)
    as (r & self' & ctx' & y & E & _ & _ & Hy & Hfiles & _ & Hstatus).
  - reflexivity.
  - reflexivity.
  - vm_compute. reflexivity.
  - exact edited_in_workspace.
  - vm_compute. lia.
  - apply (bool_decide_unpack (NoDup (files_of [] (FsDir edited_files)).*1)). vm_compute. exact I.
  - vm_compute. by repeat constructor.
  - intros slug Hin. apply elem_of_cons in Hin as [->|Hin]; [split; [by left|done]|]. apply list_elem_of_singleton in Hin as ->. split; [right; by left|done].
  - reflexivity.
  - exact Hr.
  - exact (toy_may_write ctx Hau Hid Hac).
  - intros slug cid' Hc. rewrite Ec in Hc. apply lookup_singleton_Some in Hc as [_ <-]. destruct Hf as (memo' & bs & Hst' & Hct & Hch & Hj & Hlen).
    assert (memo' = memo) as -> by (eapply stored_fun; [exact Hst'|exact Hst]). exists memo, "text/plain", bs.
    split; [exact Hst|]. split; [exact Hct|]. split; [exact Hch|]. split; [rewrite Hj; exact Hlen|]. rewrite Hm. vm_compute. reflexivity.
  - exact Hpend.
  - rewrite Hl. reflexivity.
  - rewrite Ec. vm_compute. lia.
  - vm_compute. lia.
  - destruct (Hfiles "foo" (Some "txt") [1; 2]%N) as (c1 & ct1 & H1' & Hf1 & _); [by left|].
    destruct (Hfiles "bar" None [3]%N) as (c2 & ct2 & H2' & Hf2 & _); [right; by left|].
    exists self', ctx', y, c1, c2, r. split; [exact E|]. split; [exact Hy|]. split; [exact H1'|]. split; [by exists ct1|]. split; [exact H2'|]. split; [by exists ct2|exact Hstatus].
Defined.
End runs.
